(* ===== verification/_CoqProject ===== *)
-Q . S2P
Prelude.v
CType.v
Base64.v
Sha1.v
WebSocketProtocol.v
WebSocketFraming.v
HttpParser.v
HttpCommon.v
Stoull.v
ChunkedFraming.v
Address.v
HttpUrl.v
ClientRequest.v
ClientTransport.v
ResponseViews.v
HttpClient.v
FastBuffer.v
FlatHashMap.v
MpscQueue.v
EventPoller.v
IoService.v
SpinLock.v
MemoryPool.v
BufferPool.v
Timer.v
TcpConnectionPool.v
ConnectionManager.v
Configuration.v
Logger.v
PerformanceMonitor.v
Library.v
Transport.v
HttpServer.v
WebSocketServer.v
WebSocketClient.v
WebSocketUpgrade.v
SessionTypes.v
Errors.v
SocketWrapper.v
UdpSocket.v
PipeSocket.v
TcpClientImpl.v
TcpClientStream.v
ClientStack.v
ClientSession.v
SessionStream.v
TcpServerImpl.v
TcpServerStream.v
ServerStack.v
