(* ===== verification/Prelude.v ===== *)
(** * FastNet: a verification of the library's own logic

    FastNet is a C++ networking library: sockets, pollers and TLS at the bottom, TCP, UDP,
    HTTP and WebSocket endpoints above them, and a set of data structures, protocol codecs
    and managers that carry the logic.  This development models the codecs, the data
    structures, the managers, the TCP endpoints and the HTTP and WebSocket endpoints as
    executable functions and proves what makes them correct.  Paths below are relative to the repository's root
    (src/, include/FastNet/).

    ** The parts and the files that model them

    Foundations and codecs:
    - [Prelude] (this file): bytes, machine-width arithmetic ([u8], [u32], [u64]), the
      development's tactics and hint databases, and lemmas on lists shared by the others.
    - [CType]: the parts of <cctype>, [std::string_view] and [std::map] the parsers use;
      [Stoull]: [std::stoull] as the endpoints call it.
    - [Base64] (src/base64.cpp): encoder, whitespace-tolerant decoder, wrappers.
    - [Sha1] (class Sha1 of src/WebSocketProtocol.cpp): the incremental hash against a
      pad-and-fold reference.
    - [WebSocketProtocol] (src/WebSocketProtocol.cpp): frames, masking, the handshake keys;
      uses [Base64] and [Sha1].  The random engine is a parameter.
    - [HttpParser] (src/HttpParser.cpp): request and response heads, header lines, message
      bodies, chunked coding, query strings, URL coding, and the builders.
    - [HttpCommon] (include/FastNet/HttpCommon.h): methods, responses, multipart bodies.
    - [Address] (include/FastNet/Config.h): host and port validation, parsing, printing.

    Data structures:
    - [FastBuffer] (include/FastNet/FastBuffer.h): the small-buffer-optimised byte buffer of
      every receive path.  The allocator is a parameter.
    - [FlatHashMap] (include/FastNet/FlatHashMap.h): the Robin Hood table of the session
      maps.  The hash functor is a parameter.
    - [MpscQueue] (include/FastNet/MpscQueue.h): the lock-free queue, as the atomic steps of
      its producers and its consumer on a heap of nodes.
    - [SpinLock] (include/FastNet/SpinLock.h): the lock as atomic steps of its users.
    - [MemoryPool], [BufferPool] (include/FastNet/MemoryPool.h): the block pool with thread
      caches, one step per change of a list or counter; the pool of byte buffers, which
      threads return to one another.

    Managers:
    - [EventPoller] (src/EventPoller.cpp, epoll build): registrations, [poll] and wake-ups, as
      the steps of the calls in progress.  epoll is a class of operations with its laws.
    - [IoService] (src/IoService.cpp): the event loop, its mailbox (an [MpscQueue]) and its
      shared task vector, as steps of posting threads and workers.
    - [Timer] (src/Timer.cpp): [TimerManager] with its worker thread, [Timer] and
      [ConnectionTimeoutManager].
    - [TcpConnectionPool] (src/TcpConnectionPool.cpp): the pool of TCP clients, as the
      critical sections of its mutex, the counters it changes outside them and its
      maintenance thread, with their interleavings.
    - [ConnectionManager] (src/ConnectionManager.cpp): services, backends, load balancing,
      circuit breaker and the per-service pool of connection records.
    - [Configuration] (src/Configuration.cpp): options, validation, merging, the file format
      and the environment.
    - [Logger] (src/Logger.cpp): the asynchronous logger, its callers and its writer thread.
    - [PerformanceMonitor] (src/PerformanceMonitor.cpp): metrics, timers, snapshots and the
      JSON export, as steps of the callers.
    - [Library] (src/FastNet.cpp): [initialize] and [cleanup] as steps of the threads that
      call them, the global I/O service, and what the components read from a configuration.

    Endpoints:
    - [Transport]: what the servers use of [TcpServer], a class with its laws;
      [ClientTransport]: what the clients use of [TcpClient], a class whose operations
      report the callbacks that run inside them.
    - [ChunkedFraming]: the size of a chunked body as both HTTP endpoints compute it, over a
      class [ChunkReader] that each of them instantiates.
    - [HttpServer] (src/HttpServer.cpp): receive buffers, pipelining, routing, static files.
      The file system is a parameter that stands for one moment; requests for static files
      run on a sequence of them.
    - [HttpUrl], [ClientRequest], [ResponseViews], [HttpClient] (src/HttpClient.cpp): URLs
      and redirects, the request builder, the views a parsed head keeps into the receive
      buffer, and the client itself in a monad of state, exceptions and endless loops.
    - [WebSocketFraming]: frame sizes and the taking of a frame from a buffer, shared by
      both WebSocket ends.
    - [WebSocketServer] (src/WebSocketServer.cpp): upgrades, frame loops, closing,
      broadcasts, pings; [WebSocketClient] (src/WebSocketClient.cpp): URLs, handshake, frame
      loop, closing; [WebSocketUpgrade]: the two handshakes composed.
    - [SessionTypes] (include/FastNet/SharedSessionTypes.h, src/Error.cpp): results of
      transport operations, queued writes, error texts, and the class [Socket] of what the
      sessions use of the operating system and OpenSSL.
    - [Errors] (src/Error.cpp, include/FastNet/Error.h): the rest of the error model: what a
      constructor logs, standard error codes, exceptions, the policy and [Result].
    - [SocketWrapper] (src/SocketWrapper.cpp, POSIX build): every member over a class
      [Posix] of system calls with their laws, and several wrappers with their moves;
      [UdpSocket] (src/UdpSocket.cpp): the UDP socket on top of it.
    - [TcpClientImpl] (src/TcpClient.cpp, POSIX build): connecting, TLS, the write queue and
      its flush, the read loop, closing, timers; [TcpClientStream]: its invariant and
      theorems, and the instance of [ClientTransport]'s class it provides.
    - [ClientSession], [TcpServerImpl] (src/TcpServer.cpp, POSIX build): one session's write
      queue of buffers and file ranges, its transport and timers; then the server: accepting,
      the registry of sessions, flushes, reads, broadcasts, starting and stopping.
      [SessionStream] and [TcpServerStream]: the invariants of a session and of the server,
      the theorems, and the instance of [Transport]'s class.  [PipeSocket]: a small system on
      which the examples of both TCP endpoints run.
    - [ClientStack]: the WebSocket client on the TCP client; [ServerStack]: the HTTP server
      on the TCP server.

    Every mutable object is a record passed through the functions that model its methods.
    Code that holds a mutex for its whole body is one function; code that gives the mutex up
    is cut there, and an inductive step relation interleaves the pieces with those of other
    threads.  Failures are values: [option] for a returned [false], outcome types with one
    constructor per exception, or per access outside storage, where the code can have them.

    ** What the theorems show

    - Codecs: base64, URL coding, numbers, chunked bodies, addresses, forms, HTTP requests
      and responses, and WebSocket frames survive writing and reading back; the frame
      decoder accepts exactly the images of RFC 6455 frames, written down from the document,
      but for continuation frames (never) and status codes from 5000 on (always); SHA-1 equals its
      reference however the input is split; accepted header lines determine the body's
      length in one way only; decoders of numbers are exact at the limits of [size_t].
    - Data structures: every call on a [FastBuffer] refines the byte-string operation with
      the specified exceptions and no access outside storage, but for the two calls [hazard]
      names, whose faults are stated; the hash table keeps the Robin
      Hood invariant and refines a finite map; the queue is first-in first-out and touches no
      freed node, the spin lock excludes, and the pools never hand out a block or a buffer
      in use, or a buffer with contents of its earlier use, under every interleaving; what the
      counters of the block pool show, and what they leave out, is exact.
    - Managers: in every reachable state of the event loop, the timer manager, the TCP pool
      and the connection manager the bookkeeping is exact (task order, active timers, idle
      queues, counters, limits; in the TCP pool the maintenance thread's own connections come
      on top of the limit, and theirs is the minimum), cancelled timers do not fire, acquired
      connections are usable and not shared, and the circuit breaker follows its protocol.  A configuration
      keeps a trimmed value for every option, survives saving and loading when it is valid and
      is refused otherwise, and brings only
      values within their bounds to its readers; the log holds the lines whole and in order,
      and all that were appended while the logger ran when it has been shut down; the
      library is up exactly while it is in use (its log writer unless a later start that failed
      has stopped it), and a start that fails leaves nothing behind.
      The poller's registrations are those of the kernel, a poll that runs alone hands every
      event to the callback registered for it, and no wake-up is lost; the statistics of a metric are those
      of the values it has taken.
    - Errors: every failure is logged once unless it is to be tried again, codes survive the
      way through [std::error_code], and the policy throws exactly when it should.
    - Sockets: every open descriptor has exactly one owner, whatever is called, moved or
      destroyed, and none is lost; [connect] keeps the blocking mode; transfers report what was
      moved.  A UDP socket is bound exactly while it has an open non-blocking descriptor,
      registered exactly while it receives, and delivers the queued datagrams in order.
    - Endpoints: however the network cuts a stream of requests, responses or frames, each
      message is handled once, in order and whole; answers with static files stay inside the
      root and carry the file as it is at that moment, while the disk changes and the cache
      is used;
      redirects lead to valid URLs and carry no credentials to another endpoint; a WebSocket
      connection is reported open and closed in a fixed order.
    - The TCP client: on every connection the bytes given to [send] are those the system
      took followed by those still queued, whatever callbacks do and however writes are cut;
      a flush hands everything over when the system takes it, asks for writability otherwise
      (exactly when the TLS layer does not wait for input), and closes afterwards when
      that was asked for; each connection that opens is reported closed exactly once.  The
      two ends of a WebSocket handshake accept each other, and the WebSocket client on the
      TCP client delivers every message once and writes exactly one pong per ping.
    - The TCP server: the same of every session, with ranges of files among what is written;
      the registry lists exactly the running sessions and stays within its limit; each
      connection is announced before its data and reported closed once.  The HTTP server on
      the TCP server answers the requests of a connection with exactly the bytes of their
      responses, in order.
    - Theorems about limits: where the code departs from its contract the departure is stated
      and proved on the model (sizes that wrap at 2^64 in the buffer, the chunk loops and the
      body lengths, wake-ups lost by the event loop, response heads read after their bytes
      were overwritten, a 255th colliding key, a timer cancelled from its own callback, heads
      without header lines and others).

    ** Bounds and fuel

    Sizes are [size_t] values kept in [Z]; sums that the caller can drive to 2^64 are wrapped
    where the code computes them, sums of lengths of existing objects are not.  Hypotheses of
    the form [zlen l < 2 ^ 62], [<= size_max] or [<= string_max_size] say that an object fits
    the address space.  A loop over a text takes fuel one more than the text's length and
    each round consumes a byte; the drain of a write queue takes one round more than the
    bytes and entries queued and the flush two, since a callback cannot ask for a third; the
    read loop takes the number of chunks the socket holds, the accept loop the number of
    connections that wait, a UDP drain one round more than the datagrams queued; callbacks
    nest to any given depth; a probe of the hash table takes as many rounds as the largest
    probe distance allows.  Theorems give results, so the fuel they need is there; where a
    loop of the code really does not end, running out of fuel is a result of its own
    ([Running], [StillRunning]) and the theorem shows it for every fuel.

    ** What is not modelled

    The Windows builds of the poller, the socket wrapper and the TCP endpoints
    (WindowsIocpTransport, the completion-port paths), the io_uring poller and the OpenSSL
    calls of SSLContext: they pass arguments to system or library calls and keep no logic of
    their own beyond what the POSIX paths show.  Benchmark support and examples.  Of the TCP
    endpoints, exceptions while a session is created and failures to allocate a receive
    buffer are left out; their calls are serialized as their callback mutexes do, and a file
    keeps its contents while it is sent.  A UDP socket is used by one thread at a time.
    [double] values of a configuration are left out.  Thread start-up, process-wide
    singletons and time sources appear only through the steps and arguments they produce. *)

From Stdlib Require Export ZArith Lia Strings.Byte.
From Stdlib Require Export Strings.String.
From stdpp Require Export base tactics numbers gmap list.

#[global] Open Scope Z_scope.

Declare Scope fastnet_scope.
Delimit Scope fastnet_scope with fn.

(** ** Machine integers and bytes *)

(** A byte of a [std::string], [Buffer] or [std::string_view]; [bz] reads it as
    [uint8_t] and [zb] is [static_cast<uint8_t>]. *)
Definition bz (b : byte) : Z := Z.of_N (Byte.to_N b).

Definition zb (z : Z) : byte := default x00 (Byte.of_N (Z.to_N (z mod 256))).

(** The text of a string literal of the source, as its bytes. *)
Definition str (s : string) : list byte := list_byte_of_string s.

(** Unsigned wrap-around at the widths the code uses. *)
Definition u8 (z : Z) : Z := z mod 2 ^ 8.
Definition u16 (z : Z) : Z := z mod 2 ^ 16.
Definition u32 (z : Z) : Z := z mod 2 ^ 32.
Definition u64 (z : Z) : Z := z mod 2 ^ 64.

(** [std::numeric_limits<size_t>::max()] on the 64-bit targets of the build. *)
Definition size_max : Z := 2 ^ 64 - 1.

(** The length of a sequence as a [size_t]. *)
Definition zlen {A} (l : list A) : Z := Z.of_nat (length l).

(** ** Decidability *)

#[export] Instance byte_eq_dec : EqDecision byte := Byte.byte_eq_dec.
#[export] Instance byte_inhabited : Inhabited byte := populate x00.
#[export] Instance byte_countable : Countable byte :=
  inj_countable Byte.to_N Byte.of_N Byte.of_to_N.

(** ** Notations *)

(** Boolean equality of bytes and of byte strings, as the code's [==]. *)
Notation "x =b y" := (Byte.eqb x y) (at level 70) : fastnet_scope.
Notation "x =s y" := (bool_decide (x = y)) (at level 70) : fastnet_scope.
#[global] Open Scope fastnet_scope.

(** ** Tactics and hints *)

Create HintDb fastnet discriminated.
Create Rewrite HintDb fastnet_rw.

(** Split every conjunction and existential of the context. *)
Ltac break_hyps :=
  repeat match goal with
    | H : _ ∧ _ |- _ => destruct H
    | H : ∃ _, _ |- _ => destruct H
    end.

(** Case analysis on a scrutinee of the goal, or of a hypothesis. *)
Ltac case_goal :=
  match goal with
  | |- context [match ?x with _ => _ end] => destruct x eqn:?
  end.
Ltac case_hyp H :=
  match type of H with
  | context [match ?x with _ => _ end] => destruct x eqn:?
  end.

(** [lia] with Euclidean division unfolded. *)
Ltac zlia := Z.div_mod_to_equations; lia.

(** Prove a closed decidable proposition by evaluating its decision procedure. *)
Ltac decide_closed := apply (bool_decide_unpack _); vm_compute; exact I.

(** Decide a closed boolean fact about a byte by enumerating the 256 values. *)
Ltac byte_cases b := destruct b; try reflexivity; try discriminate; try done.

(** ** Bytes *)

Lemma bz_range b : 0 <= bz b < 256.
Proof.
  unfold bz. pose proof (Byte.to_N_bounded b). lia.
Qed.

Lemma zb_bz b : zb (bz b) = b.
Proof.
  unfold zb. rewrite Z.mod_small by apply bz_range.
  unfold bz. rewrite N2Z.id, Byte.of_to_N. done.
Qed.

Lemma bz_zb z : bz (zb z) = z mod 256.
Proof.
  unfold zb, bz. pose proof (Z.mod_pos_bound z 256 ltac:(lia)) as Hz.
  destruct (Byte.of_N (Z.to_N (z mod 256))) as [b|] eqn:E; simpl.
  - apply Byte.to_of_N in E. rewrite E. lia.
  - apply Byte.of_N_None_iff in E. lia.
Qed.

Lemma bz_zb_small z : 0 <= z < 256 -> bz (zb z) = z.
Proof. intros. rewrite bz_zb. by apply Z.mod_small. Qed.

Lemma bz_inj a b : bz a = bz b -> a = b.
Proof. intros H. by rewrite <- (zb_bz a), H, zb_bz. Qed.

#[export] Instance bz_Inj : Inj (=) (=) bz := bz_inj.

Lemma zb_eq z b : z = bz b -> zb z = b.
Proof. intros ->. apply zb_bz. Qed.

Lemma beqb_eq a b : (a =b b) = true <-> a = b.
Proof. split; [apply byte_dec_bl | apply byte_dec_lb]. Qed.

Lemma beqb_refl b : (b =b b) = true.
Proof. by apply beqb_eq. Qed.

Lemma beqb_neq a b : a ≠ b -> (a =b b) = false.
Proof. intros H. destruct (a =b b) eqn:E; [by apply beqb_eq in E | done]. Qed.

Lemma beqb_false a b : (a =b b) = false <-> a ≠ b.
Proof. split; [apply eqb_false | apply beqb_neq]. Qed.

#[export] Hint Resolve bz_range beqb_refl : fastnet.
#[export] Hint Rewrite zb_bz beqb_refl : fastnet_rw.

(** A property of one byte decided by enumeration. *)
Definition all_bytes : list byte :=
  omap (fun n => Byte.of_N (N.of_nat n)) (seq 0 256).

Lemma elem_of_all_bytes b : b ∈ all_bytes.
Proof.
  unfold all_bytes. apply list_elem_of_omap. exists (N.to_nat (Byte.to_N b)).
  pose proof (Byte.to_N_bounded b).
  rewrite N2Nat.id, Byte.of_to_N. split; [apply elem_of_seq; lia | done].
Qed.

Lemma byte_forall (P : byte -> bool) :
  forallb P all_bytes = true -> forall b, P b = true.
Proof.
  intros H b. rewrite forallb_forall in H. apply H.
  apply list_elem_of_In, elem_of_all_bytes.
Qed.

(** ** Bitwise arithmetic as Euclidean arithmetic *)

(** An [|] whose right operand lies below the bits of the left one is a sum. *)
Lemma lor_low a b k : 0 <= k -> 0 <= b < 2 ^ k -> Z.lor (Z.shiftl a k) b = a * 2 ^ k + b.
Proof.
  intros Hk Hb. rewrite Z.shiftl_mul_pow2 by lia.
  rewrite <- Z.lxor_lor, <- Z.add_nocarry_lxor; try done.
  all: apply Z.bits_inj'; intros i Hi; rewrite Z.land_spec, Z.bits_0;
    destruct (Z.lt_ge_cases i k);
    [rewrite Z.mul_pow2_bits_low by lia; done |].
  all: rewrite <- (Z.mod_small b (2 ^ k)) by lia;
    rewrite Z.mod_pow2_bits_high by lia; by rewrite andb_false_r.
Qed.

Lemma land_mask a k : 0 <= k -> Z.land a (2 ^ k - 1) = a mod 2 ^ k.
Proof.
  intros. replace (2 ^ k - 1) with (Z.ones k) by (rewrite Z.ones_equiv; lia).
  by apply Z.land_ones.
Qed.

Lemma shr_div a k : 0 <= k -> Z.shiftr a k = a / 2 ^ k.
Proof. intros. by apply Z.shiftr_div_pow2. Qed.

Lemma lxor_cancel a b : Z.lxor (Z.lxor a b) b = a.
Proof. by rewrite Z.lxor_assoc, Z.lxor_nilpotent, Z.lxor_0_r. Qed.

(** A bitwise operation on two bytes stays a byte. *)
Lemma lxor_byte a b : 0 <= a < 256 -> 0 <= b < 256 -> 0 <= Z.lxor a b < 256.
Proof.
  intros Ha Hb. split; [apply Z.lxor_nonneg; lia|].
  destruct (Z.eq_dec (Z.lxor a b) 0) as [->|Hne]; [lia|].
  apply (Z.log2_lt_pow2 _ 8). { pose proof (Z.lxor_nonneg a b). lia. }
  eapply Z.le_lt_trans; [apply Z.log2_lxor; lia|].
  destruct (Z.eq_dec a 0) as [->|], (Z.eq_dec b 0) as [->|];
    simpl; rewrite ?Z.max_lub_lt_iff; repeat split; try lia;
    try (apply Z.log2_lt_pow2; lia).
Qed.

(** Wrapping leaves a [size_t] alone. *)
Lemma u64_small z : 0 <= z <= size_max -> u64 z = z.
Proof. unfold u64, size_max. intros. apply Z.mod_small. lia. Qed.

(** ** Lengths and lists *)

Lemma zlen_nonneg {A} (l : list A) : 0 <= zlen l.
Proof. unfold zlen. lia. Qed.

Lemma zlen_app {A} (l k : list A) : zlen (l ++ k) = zlen l + zlen k.
Proof. unfold zlen. rewrite length_app. lia. Qed.

Lemma zlen_cons {A} (x : A) l : zlen (x :: l) = 1 + zlen l.
Proof. unfold zlen. simpl length. lia. Qed.

Lemma zlen_nil {A} : zlen (@nil A) = 0.
Proof. done. Qed.

#[export] Instance zlen_Permutation {A} : Proper (Permutation ==> eq) (@zlen A).
Proof. intros l l' E. unfold zlen. by rewrite E. Qed.

#[export] Hint Resolve zlen_nonneg : fastnet.
#[export] Hint Rewrite @zlen_app @zlen_cons @zlen_nil @length_app : fastnet_rw.

Lemma take_app_exact {A} (l k : list A) n : n = length l -> take n (l ++ k) = l.
Proof. intros ->. by apply take_app_length. Qed.

Lemma drop_app_exact {A} (l k : list A) n : n = length l -> drop n (l ++ k) = k.
Proof. intros ->. by apply drop_app_length. Qed.

(** ** memcpy *)

(** [std::memcpy(dst + off, src, n)] into a buffer held as a list. *)
Definition blit {A} (dst : list A) (off : nat) (src : list A) : list A :=
  take off dst ++ src ++ drop (off + length src) dst.

Lemma length_blit {A} (dst : list A) off src :
  (off + length src <= length dst)%nat -> length (blit dst off src) = length dst.
Proof. intros. unfold blit. rewrite !length_app, length_take, length_drop. lia. Qed.

Lemma blit_app_exact {A} (pre mid post src : list A) :
  length src = length mid -> blit (pre ++ mid ++ post) (length pre) src = pre ++ src ++ post.
Proof.
  intros H. unfold blit. rewrite take_app_length, <- drop_drop, drop_app_length, H.
  by rewrite drop_app_length.
Qed.

Lemma take_blit {A} (dst : list A) off src :
  (off <= length dst)%nat -> take (off + length src) (blit dst off src) = take off dst ++ src.
Proof.
  intros. unfold blit. rewrite app_assoc. apply take_app_exact.
  rewrite length_app, length_take. lia.
Qed.

(** Writes that fill a buffer left to right leave what was written. *)
Lemma blit_step {A} (out rest src : list A) off :
  off = length out -> (length src <= length rest)%nat ->
  blit (out ++ rest) off src = (out ++ src) ++ drop (length src) rest.
Proof.
  intros -> H. unfold blit. rewrite take_app_length, <- drop_drop, drop_app_length.
  by rewrite app_assoc.
Qed.
