(* ===== verification/CType.v ===== *)
(** * Character classes and string views

    The parts of [<cctype>] (in the "C" locale), [std::string_view] and
    [std::map<string, string>] that the sources use: classification and case folding of bytes, [find], [substr], and the
    ordered association that a [std::map] keyed by strings is. *)

From S2P Require Import Prelude.

(** ** <cctype> in the "C" locale *)

Definition in_range (lo hi : Z) (b : byte) : bool := (lo <=? bz b) && (bz b <=? hi).

(** [std::isspace]: space, and the five controls from tab to carriage return. *)
Definition isspace (b : byte) : bool := (bz b =? 32) || in_range 9 13 b.
Definition isdigit (b : byte) : bool := in_range 48 57 b.
Definition isupper (b : byte) : bool := in_range 65 90 b.
Definition islower (b : byte) : bool := in_range 97 122 b.
Definition isalnum (b : byte) : bool := isdigit b || isupper b || islower b.
Definition tolower (b : byte) : byte := if isupper b then zb (bz b + 32) else b.

Definition CR : byte := x0d.
Definition LF : byte := x0a.
Definition SP : byte := x20.
Definition CRLF : list byte := [CR; LF].

(** ** std::string_view *)

(** [find(ch, pos)]: the first index at or after [pos] that holds [ch]; [npos] is [None]. *)
Fixpoint find_from (ch : byte) (s : list byte) : option nat :=
  match s with
  | [] => None
  | c :: s' => if c =b ch then Some 0%nat else S <$> find_from ch s'
  end.

Definition sv_find_char (s : list byte) (ch : byte) (pos : nat) : option nat :=
  (fun i => (pos + i)%nat) <$> find_from ch (drop pos s).

(** [starts_with] of a view. *)
Fixpoint is_prefix (p s : list byte) : bool :=
  match p, s with
  | [], _ => true
  | _ :: _, [] => false
  | a :: p', b :: s' => (a =b b) && is_prefix p' s'
  end.

(** [find(pat, pos)] for a non-empty pattern. *)
Fixpoint find_sub (pat : list byte) (s : list byte) : option nat :=
  if is_prefix pat s then Some 0%nat else
  match s with
  | [] => None
  | _ :: s' => S <$> find_sub pat s'
  end.

Definition sv_find (s : list byte) (pat : list byte) (pos : nat) : option nat :=
  (fun i => (pos + i)%nat) <$> find_sub pat (drop pos s).

(** [substr(pos, n)] for [pos <= size()]: [n] is a [size_t] clipped to the rest of the view. *)
Definition sv_substr (s : list byte) (pos : nat) (n : Z) : list byte :=
  take (Z.to_nat (Z.min n (zlen s - Z.of_nat pos))) (drop pos s).

(** ** std::map keyed by strings *)

(** [char_traits<char>::compare] order: lexicographic on unsigned bytes. *)
Fixpoint bytes_lt (a b : list byte) : bool :=
  match a, b with
  | [], [] => false
  | [], _ :: _ => true
  | _ :: _, [] => false
  | x :: a', y :: b' =>
      if bz x <? bz y then true else if bz y <? bz x then false else bytes_lt a' b'
  end.

(** A [std::map] in iteration order: keys strictly increasing. *)
Abbreviation strmap := (list (list byte * list byte)).

(** [m[k] = v]. *)
Fixpoint map_set (k v : list byte) (m : strmap) : strmap :=
  match m with
  | [] => [(k, v)]
  | (k', v') :: m' =>
      if bytes_lt k k' then (k, v) :: m
      else if bytes_lt k' k then (k', v') :: map_set k v m'
      else (k, v) :: m'
  end.

Definition map_get (k : list byte) (m : strmap) : option (list byte) :=
  snd <$> find (fun kv => kv.1 =s k) m.

(** The ordering invariant of [std::map]. *)
Fixpoint map_sorted (m : strmap) : Prop :=
  match m with
  | [] => True
  | (k, _) :: m' => Forall (fun kv => bytes_lt k kv.1 = true) m' ∧ map_sorted m'
  end.

(** ** Character classes *)

Lemma tolower_idem b : tolower (tolower b) = tolower b.
Proof. by byte_cases b. Qed.

Lemma isspace_not_alnum b : isspace b = true -> isalnum b = false.
Proof. by byte_cases b. Qed.

Lemma isdigit_bz b : isdigit b = true <-> 48 <= bz b <= 57.
Proof. unfold isdigit, in_range. rewrite andb_true_iff, !Z.leb_le. lia. Qed.

(** ** find and substr *)

Lemma find_from_Some ch s i :
  find_from ch s = Some i <->
  s !! i = Some ch ∧ (forall j, (j < i)%nat -> s !! j ≠ Some ch).
Proof.
  revert i. induction s as [|c s IH]; intros i; simpl.
  - split; [done | intros [[=] _]].
  - destruct (c =b ch) eqn:E.
    + apply beqb_eq in E as ->. split.
      * intros [= <-]. split; [done | lia].
      * intros [Hi Hj]. destruct i; [done|]. by destruct (Hj 0%nat ltac:(lia)).
    + apply beqb_false in E. rewrite fmap_Some. split.
      * intros (j & Hj & ->). apply IH in Hj as [Hs Hlt]. split; [done|].
        intros [|k] Hk; simpl; [by intros [=] | apply Hlt; lia].
      * intros [Hi Hj]. destruct i as [|i]; [by injection Hi|].
        exists i. split; [|done]. apply IH. split; [done|].
        intros k Hk. apply (Hj (S k)). lia.
Qed.

Lemma find_from_None ch s : find_from ch s = None <-> ch ∉ s.
Proof.
  induction s as [|c s IH]; simpl; [by split; [intros _; apply not_elem_of_nil|]|].
  destruct (c =b ch) eqn:E.
  - apply beqb_eq in E as ->. split; [done | intros []%not_elem_of_cons; done].
  - apply beqb_false in E. rewrite fmap_None, IH, not_elem_of_cons. intuition congruence.
Qed.

(** The separator search splits a string at the first occurrence. *)
Lemma find_from_app ch a b : ch ∉ a -> find_from ch (a ++ ch :: b) = Some (length a).
Proof.
  induction a as [|c a IH]; intros H; simpl; [by rewrite beqb_refl|].
  rewrite beqb_neq by set_solver. rewrite IH by set_solver. done.
Qed.

Lemma is_prefix_spec p s : is_prefix p s = true <-> exists r, s = p ++ r.
Proof.
  revert s. induction p as [|a p IH]; intros s; simpl.
  - split; eauto.
  - destruct s as [|b s]; [split; [done | by intros [r [=]]]|].
    rewrite andb_true_iff, beqb_eq, IH. split.
    + intros [-> [r ->]]. by exists r.
    + intros [r [= -> ->]]. eauto.
Qed.

Lemma is_prefix_app p r : is_prefix p (p ++ r) = true.
Proof. apply is_prefix_spec. eauto. Qed.

Lemma find_sub_Some_split pat s i :
  find_sub pat s = Some i -> exists r, s = take i s ++ pat ++ r ∧ (i <= length s)%nat.
Proof.
  revert i. induction s as [|c s IH]; intros i; simpl; destruct (is_prefix _ _) eqn:E.
  - intros [= <-]. apply is_prefix_spec in E as [r ->]. exists r. split; [done | lia].
  - done.
  - intros [= <-]. apply is_prefix_spec in E as [r E]. exists r. split; [done | lia].
  - rewrite fmap_Some. intros (j & Hj & ->). apply IH in Hj as (r & Hs & Hl).
    exists r. simpl. split; [by f_equal | lia].
Qed.

Lemma find_sub_nil_app pat r : find_sub pat (pat ++ r) = Some 0%nat.
Proof. destruct (pat ++ r) eqn:E; simpl; rewrite <- E, is_prefix_app; done. Qed.

Lemma take_min_length {A} (s : list A) n : take (Nat.min n (length s)) s = take n s.
Proof.
  destruct (Nat.le_ge_cases n (length s)); [by rewrite Nat.min_l|].
  rewrite Nat.min_r, !take_ge by lia. done.
Qed.

Lemma sv_substr_all s : sv_substr s 0 size_max = s \/ size_max < zlen s.
Proof.
  destruct (Z.le_gt_cases (zlen s) size_max); [left | by right].
  unfold sv_substr, zlen in *. rewrite drop_0, take_ge by lia. done.
Qed.

(** ** std::map keyed by strings *)

Lemma bytes_lt_irrefl a : bytes_lt a a = false.
Proof. induction a; simpl; [done|]. by rewrite Z.ltb_irrefl. Qed.

Lemma bytes_lt_total a b : bytes_lt a b = false -> bytes_lt b a = false -> a = b.
Proof.
  revert b. induction a as [|x a IH]; intros [|y b]; simpl; try done.
  destruct (Z.ltb_spec (bz x) (bz y)); [done|].
  destruct (Z.ltb_spec (bz y) (bz x)); [done|].
  intros. f_equal; [apply bz_inj; lia | by apply IH].
Qed.

Lemma bytes_lt_trans a b c :
  bytes_lt a b = true -> bytes_lt b c = true -> bytes_lt a c = true.
Proof.
  revert b c. induction a as [|x a IH]; intros [|y b] [|z c]; simpl; try done.
  destruct (Z.ltb_spec (bz x) (bz y)), (Z.ltb_spec (bz y) (bz x)),
    (Z.ltb_spec (bz y) (bz z)), (Z.ltb_spec (bz z) (bz y)),
    (Z.ltb_spec (bz x) (bz z)), (Z.ltb_spec (bz z) (bz x));
    try done; try lia. apply IH.
Qed.

Lemma bytes_lt_asym a b : bytes_lt a b = true -> bytes_lt b a = false.
Proof.
  intros H. destruct (bytes_lt b a) eqn:E; [|done].
  by rewrite <- (bytes_lt_irrefl a), (bytes_lt_trans _ _ _ H E).
Qed.

Lemma bytes_lt_ne a b : bytes_lt a b = true -> a ≠ b.
Proof. intros H ->. by rewrite bytes_lt_irrefl in H. Qed.

Lemma map_set_Forall P k v m :
  P (k, v) -> Forall P m -> Forall P (map_set k v m).
Proof.
  intros HP. induction 1 as [|[k' v'] m Hk Hm IH]; simpl; [by repeat constructor|].
  repeat case_match; repeat constructor; auto.
Qed.

Lemma map_set_sorted k v m : map_sorted m -> map_sorted (map_set k v m).
Proof.
  induction m as [|[k' v'] m IH]; simpl; [done|].
  intros [Hall Hm]. destruct (bytes_lt k k') eqn:E1; [|destruct (bytes_lt k' k) eqn:E2].
  - split; [|done]. constructor; [done|].
    eapply Forall_impl; [apply Hall|]. intros kv Hkv. by eapply bytes_lt_trans.
  - split; [|by apply IH]. apply map_set_Forall; done.
  - apply bytes_lt_total in E1; [|done]. by subst k'.
Qed.

Lemma map_get_set k v m : map_sorted m -> map_get k (map_set k v m) = Some v.
Proof.
  unfold map_get. induction m as [|[k' v'] m IH]; simpl.
  - by rewrite bool_decide_eq_true_2.
  - intros [Hall Hm]. destruct (bytes_lt k k') eqn:E1; [|destruct (bytes_lt k' k) eqn:E2].
    + simpl. by rewrite bool_decide_eq_true_2.
    + simpl. rewrite bool_decide_eq_false_2 by (by apply bytes_lt_ne). by apply IH.
    + simpl. by rewrite bool_decide_eq_true_2.
Qed.

Lemma map_get_set_ne k k' v m : k ≠ k' -> map_get k' (map_set k v m) = map_get k' m.
Proof.
  intros Hne. unfold map_get. induction m as [|[k1 v1] m IH]; simpl.
  - by rewrite bool_decide_eq_false_2.
  - destruct (bytes_lt k k1) eqn:E1; [|destruct (bytes_lt k1 k) eqn:E2]; simpl.
    + by rewrite (bool_decide_eq_false_2 (k = k')).
    + by case_bool_decide.
    + apply bytes_lt_total in E1; [|done]. subst k1.
      by rewrite bool_decide_eq_false_2.
Qed.

(** Rebuilding a map from its own entries in iteration order gives it back. *)
Lemma map_set_last k v m :
  Forall (fun kv => bytes_lt kv.1 k = true) m -> map_set k v m = m ++ [(k, v)].
Proof.
  induction 1 as [|[k' v'] m Hk Hm IH]; simpl in *; [done|].
  rewrite (bytes_lt_asym _ _ Hk), Hk, IH. done.
Qed.

(** ** Searches in a text that is still arriving *)

Lemma is_prefix_shorten p w y : is_prefix p (w ++ y) = true -> (length p <= length w)%nat -> is_prefix p w = true.
Proof.
  revert w. induction p as [|a p IH]; intros [|b w]; cbn; try done; try lia.
  intros [-> H]%andb_true_iff Hl. apply IH; [done|lia].
Qed.

Lemma is_prefix_extend p w y : is_prefix p w = true -> is_prefix p (w ++ y) = true.
Proof.
  revert w. induction p as [|a p IH]; intros [|b w]; cbn; try done.
  intros [-> H]%andb_true_iff. by rewrite IH.
Qed.

Lemma find_sub_bound pat s i : find_sub pat s = Some i -> (i + length pat <= length s)%nat.
Proof.
  intros (r & Hs & Hi)%find_sub_Some_split. apply (f_equal length) in Hs.
  rewrite !length_app, length_take in Hs. lia.
Qed.

(** An occurrence found early is still the first one when more text follows. *)
Lemma find_sub_extend pat v x : ∀ j, find_sub pat v = Some j -> find_sub pat (v ++ x) = Some j.
Proof.
  induction v as [|c v IH]; intros j Hj; pose proof (find_sub_bound _ _ _ Hj) as Hl; cbn [find_sub app] in *.
  - destruct (is_prefix pat []) eqn:E; [|done]. apply (is_prefix_extend _ _ x) in E. cbn in E.
    destruct x; cbn; by rewrite E.
  - destruct (is_prefix pat (c :: v)) eqn:E.
    + apply (is_prefix_extend _ _ x) in E. cbn [app] in E. by rewrite E.
    + apply fmap_Some in Hj as (k & Hk & ->). rewrite (IH k Hk).
      destruct (is_prefix pat (c :: v ++ x)) eqn:E'; [|done].
      rewrite (is_prefix_shorten pat (c :: v) x E') in E; [done|]. cbn [length] in *. lia.
Qed.

Lemma find_sub_prefix pat v x i :
  find_sub pat (v ++ x) = Some i -> (length v < i + length pat)%nat -> find_sub pat v = None.
Proof.
  intros Hf Hl. destruct (find_sub pat v) as [j|] eqn:E; [|done]. pose proof (find_sub_bound _ _ _ E).
  apply (find_sub_extend _ _ x) in E. assert (i = j) as -> by congruence. lia.
Qed.

(** A text known to start with [a], as far as it has arrived. *)
Lemma arrived_split {A} (v x a b : list A) :
  v ++ x = a ++ b -> (length a <= length v)%nat -> ∃ w, v = a ++ w ∧ w ++ x = b.
Proof.
  intros [(w & -> & ->)|(w & -> & ->)]%app_eq_inv Hl; [eauto|]. rewrite length_app in Hl.
  destruct w; [|simpl in Hl; lia]. exists []. by rewrite !app_nil_r.
Qed.
