(* ===== verification/Base64.v ===== *)
(** * Base64 (src/base64.cpp)

    The encoder, the whitespace-tolerant decoder and their wrappers.  A [Buffer]
    and a [std::string] are both byte lists.  The encoder's loop over [offset]
    recurses on the bytes not yet consumed; the decoder's loop over quartets on
    the characters not yet consumed, [isLastQuartet] being "nothing follows". *)

From S2P Require Import Prelude CType.

(** [kBase64Alphabet]. *)
Definition kBase64Alphabet : list byte :=
  str "ABCDEFGHIJKLMNOPQRSTUVWXYZabcdefghijklmnopqrstuvwxyz0123456789+/".

Definition pad : byte := x3d.

(** [kBase64Alphabet[i]]. *)
Definition alpha (i : Z) : byte := nth (Z.to_nat i) kBase64Alphabet x00.

(** [base64DecodeTable()]: 256 entries filled with -1, then one entry per letter. *)
Definition base64DecodeTable : list Z :=
  fold_left (fun values index =>
      <[Z.to_nat (bz (alpha (Z.of_nat index))) := Z.of_nat index]> values)
    (seq 0 64) (replicate 256 (-1)).

(** [table[static_cast<unsigned char>(c)]]. *)
Definition table (c : byte) : Z := nth (Z.to_nat (bz c)) base64DecodeTable (-1).

Definition isIgnoredWhitespace (ch : byte) : bool := isspace ch.

(** [triple = (octetA << 16) | (octetB << 8) | octetC], a [uint32_t]. *)
Definition triple (a b c : Z) : Z :=
  Z.lor (Z.lor (Z.shiftl a 16) (Z.shiftl b 8)) c.

(** [kBase64Alphabet[(triple >> sh) & 0x3F]]. *)
Definition sextet (t sh : Z) : byte := alpha (Z.land (Z.shiftr t sh) 63).

Fixpoint encodeBytes (data : list byte) : list byte :=
  match data with
  | [] => []
  | [a] =>
      let t := triple (bz a) 0 0 in
      [sextet t 18; sextet t 12; pad; pad]
  | [a; b] =>
      let t := triple (bz a) (bz b) 0 in
      [sextet t 18; sextet t 12; sextet t 6; pad]
  | a :: b :: c :: rest =>
      let t := triple (bz a) (bz b) (bz c) in
      [sextet t 18; sextet t 12; sextet t 6; sextet t 0] ++ encodeBytes rest
  end.

Definition base64Encode (data : list byte) : list byte :=
  match data with
  | [] => []
  | _ => encodeBytes data
  end.

(** [normalizeBase64]: [None] is the early [return false]. *)
Fixpoint normalizeBase64 (encoded : list byte) : option (list byte) :=
  match encoded with
  | [] => Some []
  | ch :: rest =>
      if isIgnoredWhitespace ch then normalizeBase64 rest
      else if negb (ch =b pad) && (table ch <? 0) then None
      else cons ch <$> normalizeBase64 rest
  end.

(** One iteration of the quartet loop: the bytes pushed, or [None] for [return false]. *)
Definition decodeQuartet (isLastQuartet : bool) (c0 c1 c2 c3 : byte) : option (list byte) :=
  if (c0 =b pad) || (c1 =b pad) then None
  else if negb isLastQuartet && ((c2 =b pad) || (c3 =b pad)) then None
  else
    let v0 := table c0 in
    let v1 := table c1 in
    if (v0 <? 0) || (v1 <? 0) then None
    else if c2 =b pad then
      if negb isLastQuartet || negb (c3 =b pad) then None
      else Some [zb (Z.lor (Z.shiftl v0 2) (Z.shiftr v1 4))]
    else
      let v2 := table c2 in
      if v2 <? 0 then None
      else
        let out2 := [zb (Z.lor (Z.shiftl v0 2) (Z.shiftr v1 4));
                     zb (Z.lor (Z.shiftl (Z.land v1 15) 4) (Z.shiftr v2 2))] in
        if c3 =b pad then
          if negb isLastQuartet then None else Some out2
        else
          let v3 := table c3 in
          if v3 <? 0 then None
          else Some (out2 ++ [zb (Z.lor (Z.shiftl (Z.land v2 3) 6) v3)]).

(** The quartet loop of [tryBase64Decode]; the size check has left a multiple of four. *)
Fixpoint decodeQuartets (normalized : list byte) : option (list byte) :=
  match normalized with
  | c0 :: c1 :: c2 :: c3 :: rest =>
      let isLastQuartet := match rest with [] => true | _ => false end in
      out ← decodeQuartet isLastQuartet c0 c1 c2 c3;
      app out <$> decodeQuartets rest
  | _ => Some []
  end.

(** [padding], counted from the end of the normalized text, and the argument of
    [output.reserve]. *)
Definition padding (normalized : list byte) : Z :=
  if last normalized is Some c then
    if c =b pad then
      if (2 <=? zlen normalized) &&
         (nth (Z.to_nat (zlen normalized - 2)) normalized x00 =b pad) then 2 else 1
    else 0
  else 0.

Definition reservedSize (normalized : list byte) : Z :=
  zlen normalized / 4 * 3 - padding normalized.

(** [tryBase64Decode]: [None] is [false], [Some output] is [true] with the buffer. *)
Definition tryBase64Decode (encoded : list byte) : option (list byte) :=
  match normalizeBase64 encoded with
  | None => None
  | Some normalized =>
      if bool_decide (normalized = []) then Some []
      else if negb (zlen normalized mod 4 =? 0) then None
      else decodeQuartets normalized
  end.

(** [tryBase64DecodeToString]: the same bytes, as a string. *)
Definition tryBase64DecodeToString (encoded : list byte) : option (list byte) :=
  match tryBase64Decode encoded with
  | None => None
  | Some [] => Some []
  | Some buffer => Some buffer
  end.

(** [base64Decode] and [base64DecodeToString]: an empty result on failure. *)
Definition base64Decode (encoded : list byte) : list byte :=
  default [] (tryBase64Decode encoded).

Definition base64DecodeToString (encoded : list byte) : list byte :=
  default [] (tryBase64DecodeToString encoded).

(** ** Alphabet and table *)

(** A sextet of the alphabet is found again by the table, and is neither
    whitespace nor the padding character. *)
Definition alpha_ok (n : nat) : bool :=
  let c := alpha (Z.of_nat n) in
  (table c =? Z.of_nat n) && negb (isIgnoredWhitespace c) && negb (c =b pad).

Lemma alpha_ok_all n : (n < 64)%nat -> alpha_ok n = true.
Proof.
  intros Hn. assert (H : forallb alpha_ok (seq 0 64) = true) by (vm_compute; reflexivity).
  rewrite forallb_forall in H. apply H, list_elem_of_In, elem_of_seq. lia.
Qed.

Lemma alpha_spec i : 0 <= i < 64 ->
  table (alpha i) = i ∧ isIgnoredWhitespace (alpha i) = false ∧ (alpha i =b pad) = false.
Proof.
  intros Hi. pose proof (alpha_ok_all (Z.to_nat i) ltac:(lia)) as H.
  unfold alpha_ok in H. rewrite Z2Nat.id in H by lia.
  rewrite !andb_true_iff, !negb_true_iff, Z.eqb_eq in H. tauto.
Qed.

Lemma triple_sum a b c : 0 <= b < 256 -> 0 <= c < 256 ->
  triple a b c = a * 65536 + b * 256 + c.
Proof.
  intros Hb Hc. unfold triple.
  rewrite <- Z.lor_assoc, (lor_low b c 8) by lia. rewrite lor_low by lia. lia.
Qed.

Lemma sextet_alpha t sh : 0 <= sh -> sextet t sh = alpha (t / 2 ^ sh mod 64).
Proof.
  intros. unfold sextet. rewrite shr_div by done. by rewrite (land_mask _ 6).
Qed.

Lemma sextet_spec t sh : 0 <= sh ->
  table (sextet t sh) = t / 2 ^ sh mod 64 ∧
  isIgnoredWhitespace (sextet t sh) = false ∧ (sextet t sh =b pad) = false.
Proof.
  intros. rewrite sextet_alpha by done. apply alpha_spec, Z.mod_pos_bound. lia.
Qed.

(** Rewriting with the facts about the sextets of a triple. *)
Ltac sextets :=
  repeat match goal with
    | |- context [sextet ?t ?sh] =>
        lazymatch goal with
        | H : table (sextet t sh) = _ |- _ => fail
        | _ => destruct (sextet_spec t sh ltac:(lia)) as (? & ? & ?)
        end
    end;
  repeat match goal with
    | H : table (sextet _ _) = _ |- _ => rewrite H; clear H
    | H : isIgnoredWhitespace (sextet _ _) = _ |- _ => rewrite H; clear H
    | H : (sextet _ _ =b pad) = _ |- _ => rewrite H; clear H
    end.

(** The three output expressions of the decoder undo the four of the encoder. *)
Lemma out0_sum v0 v1 : 0 <= v1 < 64 -> Z.lor (Z.shiftl v0 2) (Z.shiftr v1 4) = v0 * 4 + v1 / 16.
Proof. intros. rewrite shr_div by lia. rewrite lor_low; [done | lia | zlia]. Qed.

Lemma out1_sum v1 v2 : 0 <= v2 < 64 ->
  Z.lor (Z.shiftl (Z.land v1 15) 4) (Z.shiftr v2 2) = v1 mod 16 * 16 + v2 / 4.
Proof.
  intros. rewrite (land_mask _ 4), shr_div by lia. rewrite lor_low; [done | lia | zlia].
Qed.

Lemma out2_sum v2 v3 : 0 <= v3 < 64 ->
  Z.lor (Z.shiftl (Z.land v2 3) 6) v3 = v2 mod 4 * 64 + v3.
Proof. intros. rewrite (land_mask _ 2) by lia. rewrite lor_low; [done | lia | lia]. Qed.

Lemma mod64_nonneg x : (x mod 64 <? 0) = false.
Proof. apply Z.ltb_ge. pose proof (Z.mod_pos_bound x 64). lia. Qed.

(** Byte goals left by a quartet: the sums of the decoder, then arithmetic. *)
Ltac out_byte :=
  apply zb_eq;
  rewrite ?out0_sum, ?out1_sum, ?out2_sum by (apply Z.mod_pos_bound; lia);
  rewrite triple_sum by (apply bz_range || lia);
  repeat match goal with
    | |- context [bz ?x] =>
        lazymatch goal with H : 0 <= bz x < 256 |- _ => fail
        | _ => pose proof (bz_range x) end
    end;
  change (2 ^ 18) with 262144; change (2 ^ 12) with 4096;
  change (2 ^ 6) with 64; change (2 ^ 0) with 1; zlia.

Ltac quartet :=
  unfold decodeQuartet; cbv zeta; sextets; cbn [orb andb negb];
  rewrite ?mod64_nonneg; cbn [orb andb negb app].

Lemma decodeQuartet_full last a b c :
  let t := triple (bz a) (bz b) (bz c) in
  decodeQuartet last (sextet t 18) (sextet t 12) (sextet t 6) (sextet t 0) = Some [a; b; c].
Proof.
  intros t. subst t. quartet. rewrite andb_false_r. f_equal.
  f_equal; [out_byte|]. f_equal; [out_byte|]. f_equal. out_byte.
Qed.

Lemma decodeQuartet_two a b :
  let t := triple (bz a) (bz b) 0 in
  decodeQuartet true (sextet t 18) (sextet t 12) (sextet t 6) pad = Some [a; b].
Proof.
  intros t. subst t. quartet. rewrite beqb_refl. f_equal.
  f_equal; [out_byte|]. f_equal. out_byte.
Qed.

Lemma decodeQuartet_one a :
  let t := triple (bz a) 0 0 in
  decodeQuartet true (sextet t 18) (sextet t 12) pad pad = Some [a].
Proof.
  intros t. subst t. quartet. rewrite beqb_refl. cbn [negb]. f_equal. f_equal. out_byte.
Qed.

(** Induction three bytes at a time, the shape of [encodeBytes]. *)
Lemma triples_ind (P : list byte -> Prop) :
  P [] -> (forall a, P [a]) -> (forall a b, P [a; b]) ->
  (forall a b c l, P l -> P (a :: b :: c :: l)) -> forall l, P l.
Proof.
  intros H0 H1 H2 H3 l. enough (P l ∧ (forall a, P (a :: l)) ∧ (forall a b, P (a :: b :: l))) by tauto.
  induction l as [|x l IH]; [eauto|]. destruct IH as (? & ? & ?). eauto.
Qed.

Lemma normalize_encoded data : normalizeBase64 (encodeBytes data) = Some (encodeBytes data).
Proof.
  induction data as [|a|a b|a b c l IH] using triples_ind; [done|..];
    cbn [encodeBytes app normalizeBase64]; cbv zeta; sextets; rewrite ?mod64_nonneg; cbn [negb andb].
  - done.
  - done.
  - by rewrite IH.
Qed.

Lemma decodeQuartets_encoded data : decodeQuartets (encodeBytes data) = Some data.
Proof.
  induction data as [|a|a b|a b c l IH] using triples_ind; [done|..];
    cbn [encodeBytes app decodeQuartets].
  - by rewrite decodeQuartet_one.
  - by rewrite decodeQuartet_two.
  - rewrite decodeQuartet_full. cbn. by rewrite IH.
Qed.

Lemma length_encodeBytes data :
  zlen (encodeBytes data) = (zlen data + 2) / 3 * 4.
Proof.
  induction data as [|a|a b|a b c l IH] using triples_ind; [done|done|done|].
  cbn [encodeBytes]. rewrite zlen_app, IH. rewrite !zlen_cons, zlen_nil.
  pose proof (zlen_nonneg l). zlia.
Qed.

(** ** Properties of the decoder *)

(** Induction four characters at a time, the shape of [decodeQuartets]. *)
Lemma quartets_ind (P : list byte -> Prop) :
  P [] -> (forall a b c d l, zlen l mod 4 = 0 -> P l -> P (a :: b :: c :: d :: l)) ->
  forall l, zlen l mod 4 = 0 -> P l.
Proof.
  intros H0 H4 l. remember (length l) as n eqn:Hn. revert l Hn.
  induction n as [n IH] using lt_wf_ind. intros l -> Hl.
  destruct l as [|a [|b [|c [|d l]]]]; try (by compute in Hl).
  assert (zlen l mod 4 = 0).
  { rewrite !zlen_cons in Hl. pose proof (zlen_nonneg l). zlia. }
  apply H4; [done|]. apply (IH (length l)); [simpl; lia | done | done].
Qed.

Lemma decodeQuartet_inner c0 c1 c2 c3 out :
  decodeQuartet false c0 c1 c2 c3 = Some out -> zlen out = 3.
Proof.
  unfold decodeQuartet. cbn [negb andb orb]. intros H.
  repeat (case_hyp H; try discriminate; try (injection H as <-; done));
    simplify_eq; done.
Qed.

Lemma padding_cons4 c0 c1 c2 c3 l : l ≠ [] -> zlen l mod 4 = 0 ->
  padding (c0 :: c1 :: c2 :: c3 :: l) = padding l.
Proof.
  intros Hl Hm. unfold padding. destruct l as [|x l]; [done|].
  change (last (c0 :: c1 :: c2 :: c3 :: x :: l)) with (last (x :: l)).
  case_match; [|done]. case_match; [|done].
  assert (4 <= zlen (x :: l)).
  { rewrite zlen_cons in *. pose proof (zlen_nonneg l). zlia. }
  set (k := x :: l) in *. rewrite !(zlen_cons _ (_ :: _)), (zlen_cons c3 k).
  replace (Z.to_nat (1 + (1 + (1 + (1 + zlen k))) - 2))
    with (4 + Z.to_nat (zlen k - 2))%nat by lia.
  cbn [nth Nat.add]. rewrite !(proj2 (Z.leb_le 2 _)) by lia. done.
Qed.

Lemma decodeQuartets_length n d :
  zlen n mod 4 = 0 -> n ≠ [] -> decodeQuartets n = Some d -> zlen d = reservedSize n.
Proof.
  intros Hn. revert d. pattern n. revert n Hn. apply quartets_ind; [done|].
  intros c0 c1 c2 c3 l Hm IH d _ Hd. cbn [decodeQuartets] in Hd.
  apply bind_Some in Hd as (out & Hout & Hd). apply fmap_Some in Hd as (d' & Hd' & ->).
  rewrite zlen_app. destruct l as [|x l].
  - injection Hd' as <-. revert Hout. unfold decodeQuartet, reservedSize, padding.
    change (zlen [c0; c1; c2; c3]) with 4. change (last [c0; c1; c2; c3]) with (Some c3).
    change (nth (Z.to_nat (4 - 2)) [c0; c1; c2; c3] x00) with c2.
    change (2 <=? 4) with true. cbn [negb andb orb]. intros H.
    generalize dependent (table c0). generalize dependent (table c1).
    generalize dependent (table c2). generalize dependent (table c3). intros v3 v2 v1 v0 H.
    repeat case_match; simplify_eq; done.
  - apply decodeQuartet_inner in Hout.
    pose proof (IH d') as IH'. rewrite Hout. unfold reservedSize in *.
    rewrite padding_cons4, IH' by done. rewrite !(zlen_cons _ (_ :: _)).
    pose proof (zlen_nonneg l). zlia.
Qed.

Lemma normalize_filter s : normalizeBase64 s =
  normalizeBase64 (filter (fun c => isIgnoredWhitespace c = false) s).
Proof.
  induction s as [|c s IH]; [done|]. rewrite filter_cons. cbn [normalizeBase64].
  destruct (isIgnoredWhitespace c) eqn:E.
  - by rewrite decide_False by done.
  - rewrite decide_True by done. cbn [normalizeBase64]. rewrite E, IH. done.
Qed.

Lemma decode_encode data : tryBase64Decode (base64Encode data) = Some data.
Proof.
  destruct data as [|a l]; [done|]. unfold base64Encode, tryBase64Decode.
  rewrite normalize_encoded.
  rewrite bool_decide_eq_false_2 by (destruct l as [|? [|? ?]]; done).
  rewrite length_encodeBytes, Z.mod_mul by done. cbn [Z.eqb negb].
  apply decodeQuartets_encoded.
Qed.

(** ** Claims *)

(** Every byte sequence survives encoding followed by decoding, through both
    the failing and the defaulting entry points. *)
Theorem base64_roundtrip data :
  tryBase64Decode (base64Encode data) = Some data ∧
  base64Decode (base64Encode data) = data ∧
  base64DecodeToString (base64Encode data) = data.
Proof.
  unfold base64Decode, base64DecodeToString, tryBase64DecodeToString. rewrite decode_encode.
  by destruct data.
Qed.

(** On success the decoder fills exactly the space it reserved: three bytes
    per quartet less the padding. *)
Theorem base64_decode_size s n d :
  normalizeBase64 s = Some n -> n ≠ [] -> tryBase64Decode s = Some d ->
  zlen d = reservedSize n.
Proof.
  unfold tryBase64Decode. intros -> Hn. rewrite bool_decide_eq_false_2 by done.
  case_match eqn:E; [done|]. apply negb_false_iff, Z.eqb_eq in E.
  by apply decodeQuartets_length.
Qed.

Lemma base64_decode_size_witness :
  zlen (str "hi!!") = reservedSize (str "aGkhIQ==").
Proof.
  apply (base64_decode_size (str " aGkh IQ== ")); [vm_compute; reflexivity | done | vm_compute; reflexivity].
Defined.

(** Whitespace anywhere in the text is ignored by the decoder. *)
Theorem base64_whitespace s :
  tryBase64Decode s = tryBase64Decode (filter (fun c => isIgnoredWhitespace c = false) s).
Proof. unfold tryBase64Decode. by rewrite <- normalize_filter. Qed.
