(* ===== verification/Sha1.v ===== *)
(** * SHA-1 (class Sha1 of src/WebSocketProtocol.cpp)

    The incremental hash: the chaining state, the 64-byte block being filled and
    the bit counter, with [update], [finalize] and [processBlock] as the code has
    them, and a reference definition in the style of FIPS 180-4 (pad the whole
    message, cut it into blocks, fold the compression function). *)

From S2P Require Import Prelude.

(** ** The class *)

(** The data members of [Sha1]. *)
Record Sha1 : Type := mkSha1 {
  state_ : list Z;        (* std::array<uint32_t, 5> *)
  block_ : list byte;     (* std::array<uint8_t, 64> *)
  blockLength_ : nat;
  totalBits_ : Z          (* uint64_t *)
}.

Definition reset : Sha1 :=
  mkSha1 [0x67452301; 0xEFCDAB89; 0x98BADCFE; 0x10325476; 0xC3D2E1F0]
         (replicate 64 x00) 0 0.

Definition leftRotate (value bits : Z) : Z :=
  Z.lor (u32 (Z.shiftl value bits)) (Z.shiftr value (32 - bits)).

(** [schedule[i]] for [i < 16]: a big-endian word of the block. *)
Definition blockWord (block : list byte) (i : nat) : Z :=
  let at_ k := bz (nth (i * 4 + k) block x00) in
  Z.lor (Z.lor (Z.lor (Z.shiftl (at_ 0%nat) 24) (Z.shiftl (at_ 1%nat) 16))
               (Z.shiftl (at_ 2%nat) 8)) (at_ 3%nat).

Definition scheduleOf (block : list byte) : list Z :=
  let w16 := fold_left (fun w i => <[i := blockWord block i]> w)
                       (seq 0 16) (replicate 80 0) in
  fold_left (fun w i =>
      let x := Z.lxor (Z.lxor (Z.lxor (nth (i - 3) w 0) (nth (i - 8) w 0))
                              (nth (i - 14) w 0)) (nth (i - 16) w 0) in
      <[i := leftRotate x 1]> w)
    (seq 16 64) w16.

(** [~b] on [uint32_t]. *)
Definition not32 (b : Z) : Z := 0xFFFFFFFF - b.

Definition roundF (i : nat) (b c d : Z) : Z * Z :=
  if (i <? 20)%nat then (Z.lor (Z.land b c) (Z.land (not32 b) d), 0x5A827999)
  else if (i <? 40)%nat then (Z.lxor (Z.lxor b c) d, 0x6ED9EBA1)
  else if (i <? 60)%nat then
    (Z.lor (Z.lor (Z.land b c) (Z.land b d)) (Z.land c d), 0x8F1BBCDC)
  else (Z.lxor (Z.lxor b c) d, 0xCA62C1D6).

(** One iteration of the round loop on [(a, b, c, d, e)]. *)
Definition round (schedule : list Z) (s : Z * Z * Z * Z * Z) (i : nat) :=
  let '(a, b, c, d, e) := s in
  let '(f, k) := roundF i b c d in
  let temp := u32 (leftRotate a 5 + f + e + k + nth i schedule 0) in
  (temp, a, leftRotate b 30, c, d).

Definition processBlock (st : list Z) (block : list byte) : list Z :=
  let schedule := scheduleOf block in
  let h k := nth k st 0 in
  let '(a, b, c, d, e) :=
    fold_left (round schedule) (seq 0 80) (h 0%nat, h 1%nat, h 2%nat, h 3%nat, h 4%nat) in
  [u32 (h 0%nat + a); u32 (h 1%nat + b); u32 (h 2%nat + c);
   u32 (h 3%nat + d); u32 (h 4%nat + e)].

(** The [while (length > 0)] loop of [update]; each turn consumes at least one
    byte, so the length of the data is fuel enough ([update_absorb] below). *)
Fixpoint updateLoop (fuel : nat) (s : Sha1) (data : list byte) : Sha1 :=
  match fuel, data with
  | S fuel, _ :: _ =>
      let copyLength := Nat.min (length data) (64 - blockLength_ s) in
      let block := blit (block_ s) (blockLength_ s) (take copyLength data) in
      let blockLength := (blockLength_ s + copyLength)%nat in
      let s' :=
        if (blockLength =? 64)%nat
        then mkSha1 (processBlock (state_ s) block) block 0 (totalBits_ s)
        else mkSha1 (state_ s) block blockLength (totalBits_ s) in
      updateLoop fuel s' (drop copyLength data)
  | _, _ => s
  end.

Definition update (s : Sha1) (data : list byte) : Sha1 :=
  updateLoop (length data)
    (mkSha1 (state_ s) (block_ s) (blockLength_ s) (u64 (totalBits_ s + zlen data * 8))) data.

(** [while (blockLength_ < n) block_[blockLength_++] = 0]. *)
Definition zeroFill (block : list byte) (from n : nat) : list byte :=
  blit block from (replicate (n - from) x00).

(** The eight length bytes, most significant first. *)
Definition lengthBytes (totalBits : Z) : list byte :=
  (fun i => zb (Z.land (Z.shiftr totalBits (Z.of_nat i * 8)) 255)) <$> [7; 6; 5; 4; 3; 2; 1; 0]%nat.

Definition digestBytes (st : list Z) : list byte :=
  st ≫= fun w => (fun sh => zb (Z.land (Z.shiftr w sh) 255)) <$> [24; 16; 8; 0].

Definition finalize (s : Sha1) : list byte :=
  let block := blit (block_ s) (blockLength_ s) [x80] in
  let n := S (blockLength_ s) in
  let '(st, block, n) :=
    if (56 <? n)%nat
    then let full := zeroFill block n 64 in (processBlock (state_ s) full, full, 0%nat)
    else (state_ s, block, n) in
  let block := zeroFill block n 56 in
  let block := blit block 56 (lengthBytes (totalBits_ s)) in
  digestBytes (processBlock st block).

Definition sha1Digest (input : list byte) : list byte := finalize (update reset input).

(** ** Reference: pad, cut into blocks, fold *)

(** The message padded with 0x80, zeros up to 56 modulo 64, and its bit length. *)
Definition padded (m : list byte) (bits : Z) : list byte :=
  m ++ [x80] ++ replicate ((119 - length m mod 64) mod 64) x00 ++ lengthBytes bits.

Fixpoint blocks (fuel : nat) (m : list byte) : list (list byte) :=
  match fuel with
  | O => []
  | S fuel => if (length m <? 64)%nat then [] else take 64 m :: blocks fuel (drop 64 m)
  end.

Definition compress (st : list Z) (m : list byte) : list Z :=
  fold_left processBlock (blocks (length m) m) st.

Definition sha1_spec (m : list byte) : list byte :=
  digestBytes (compress (state_ reset) (padded m (u64 (zlen m * 8)))).

(** ** The state between calls *)

(** [s] has absorbed [m]: whole blocks are in the chaining state and the rest is
    the live prefix of [block_]. *)
Record absorbed (s : Sha1) (m : list byte) : Prop := {
  abs_block : length (block_ s) = 64%nat;
  abs_len : blockLength_ s = (length m mod 64)%nat;
  abs_live : take (blockLength_ s) (block_ s) = drop (length m / 64 * 64) m;
  abs_state : state_ s = compress (state_ reset) (take (length m / 64 * 64) m)
}.

Lemma blocks_fuel f g m : (length m <= f)%nat -> (length m <= g)%nat -> blocks f m = blocks g m.
Proof.
  revert g m. induction f as [|f IH]; intros [|g] m Hf Hg; simpl; try done;
    destruct (Nat.ltb_spec (length m) 64); try done; try lia.
  f_equal. apply IH; rewrite length_drop; lia.
Qed.

Lemma blocks_app k m1 m2 :
  length m1 = (k * 64)%nat ->
  blocks (length (m1 ++ m2)) (m1 ++ m2) = blocks (length m1) m1 ++ blocks (length m2) m2.
Proof.
  revert m1. induction k as [|k IH]; intros m1 Hk.
  { destruct m1; [done | simpl in Hk; lia]. }
  rewrite length_app. destruct (length m1) as [|n] eqn:E; [lia|]. simpl blocks.
  rewrite length_app, E. rewrite !(proj2 (Nat.ltb_ge _ 64)) by lia.
  rewrite take_app_le, drop_app_le by lia. simpl. f_equal.
  rewrite (blocks_fuel _ (length (drop 64 m1 ++ m2)))
    by (rewrite length_app, length_drop; lia).
  rewrite IH by (rewrite length_drop; lia). f_equal.
  apply blocks_fuel; rewrite length_drop; lia.
Qed.

Lemma compress_app st k m1 m2 : length m1 = (k * 64)%nat ->
  compress st (m1 ++ m2) = compress (compress st m1) m2.
Proof. intros Hk. unfold compress. by rewrite (blocks_app k), fold_left_app. Qed.

Lemma compress_short st m : (length m < 64)%nat -> compress st m = st.
Proof.
  intros H. unfold compress. destruct m as [|b m]; [done|]. simpl length in *. simpl blocks.
  by rewrite (proj2 (Nat.ltb_lt _ 64)) by done.
Qed.

Lemma compress_one st b : length b = 64%nat -> compress st b = processBlock st b.
Proof.
  intros H. unfold compress. replace (blocks (length b) b) with [b]; [done|].
  destruct (length b) as [|n] eqn:E; [lia|]. cbn [blocks]. rewrite E.
  rewrite (proj2 (Nat.ltb_ge _ 64)), take_ge, drop_ge by lia. by destruct n.
Qed.

Lemma absorbed_reset : absorbed reset [].
Proof. split; reflexivity. Qed.

(** One turn of the loop absorbs [copyLength] more bytes. *)
Lemma absorbed_step s m chunk :
  absorbed s m -> (0 < length chunk)%nat -> (blockLength_ s + length chunk <= 64)%nat ->
  let block := blit (block_ s) (blockLength_ s) chunk in
  absorbed
    (if (blockLength_ s + length chunk =? 64)%nat
     then mkSha1 (processBlock (state_ s) block) block 0 (totalBits_ s)
     else mkSha1 (state_ s) block (blockLength_ s + length chunk) (totalBits_ s))
    (m ++ chunk).
Proof.
  intros [Hb Hl Hlive Hst] Hc Hfit block.
  assert (Hq : (length m = length m / 64 * 64 + blockLength_ s)%nat)
    by (rewrite Hl; pose proof (Nat.div_mod_eq (length m) 64); lia).
  set (q := (length m / 64)%nat) in *. clearbody q.
  assert (Hm : m = take (q * 64) m ++ take (blockLength_ s) (block_ s))
    by (by rewrite Hlive, take_drop).
  assert (Hlb : length block = 64%nat) by (unfold block; rewrite length_blit; lia).
  assert (Htk : take (blockLength_ s + length chunk) block = take (blockLength_ s) (block_ s) ++ chunk)
    by (apply take_blit; lia).
  assert (Hpre : length (take (q * 64) m) = (q * 64)%nat) by (rewrite length_take; lia).
  destruct (Nat.eqb_spec (blockLength_ s + length chunk) 64) as [E|E].
  - assert (Hd : (length (m ++ chunk) = S q * 64)%nat) by (rewrite length_app; lia).
    assert (Hdiv : (length (m ++ chunk) / 64 = S q)%nat) by (rewrite Hd; by apply Nat.div_mul).
    split; cbn [block_ blockLength_ state_]; rewrite ?Hdiv.
    + done.
    + rewrite Hd. by rewrite Nat.Div0.mod_mul.
    + by rewrite <- Hd, drop_all.
    + rewrite <- Hd, firstn_all. rewrite E, take_ge in Htk by lia.
      rewrite Hm at 1. rewrite <- app_assoc, <- Htk.
      rewrite (compress_app _ q) by done. rewrite compress_one by done. by rewrite Hst.
  - assert (Hdiv : (length (m ++ chunk) / 64 = q)%nat).
    { rewrite length_app, Hq, <- Nat.add_assoc, Nat.add_comm, Nat.div_add by done.
      rewrite Nat.div_small; lia. }
    split; cbn [block_ blockLength_ state_]; rewrite ?Hdiv.
    + done.
    + rewrite length_app. apply (Nat.mod_unique _ _ q); lia.
    + rewrite Htk, Hlive, drop_app_le by lia. done.
    + rewrite take_app_le by lia. done.
Qed.

Lemma absorbed_lt s m : absorbed s m -> (blockLength_ s < 64)%nat.
Proof. intros [_ -> _ _]. by apply Nat.mod_upper_bound. Qed.

Lemma updateLoop_absorb fuel s m data :
  absorbed s m -> (length data <= fuel)%nat ->
  absorbed (updateLoop fuel s data) (m ++ data) ∧ totalBits_ (updateLoop fuel s data) = totalBits_ s.
Proof.
  revert s m data. induction fuel as [|fuel IH]; intros s m data Habs Hf.
  { destruct data; [|simpl in Hf; lia]. by rewrite app_nil_r. }
  destruct data as [|b data]; [by rewrite app_nil_r|].
  pose proof (absorbed_lt _ _ Habs). cbn [updateLoop]. set (d := b :: data) in *.
  set (n := Nat.min (length d) (64 - blockLength_ s)).
  assert (Hd : (0 < length d)%nat) by (simpl; lia).
  assert (Hn : length (take n d) = n) by (rewrite length_take; lia).
  pose proof (absorbed_step s m (take n d) Habs ltac:(lia) ltac:(lia)) as Hstep.
  cbv zeta in Hstep. rewrite Hn in Hstep.
  replace (m ++ d) with ((m ++ take n d) ++ drop n d) by (by rewrite <- app_assoc, take_drop).
  destruct (IH _ _ (drop n d) Hstep ltac:(rewrite length_drop; lia)) as [H1 H2].
  split; [done|]. rewrite H2. by case_match.
Qed.

(** [update] absorbs its argument and counts its bits. *)
Lemma update_absorb s m data :
  absorbed s m ->
  absorbed (update s data) (m ++ data) ∧
  totalBits_ (update s data) = u64 (totalBits_ s + zlen data * 8).
Proof. intros [H1 H2 H3 H4]. apply updateLoop_absorb; [by split | lia]. Qed.

Lemma length_lengthBytes b : length (lengthBytes b) = 8%nat.
Proof. done. Qed.

(** The two padded layouts [finalize] builds are the last blocks of [padded]. *)
Lemma finalize_padded s m :
  absorbed s m ->
  finalize s = digestBytes (compress (state_ reset) (padded m (totalBits_ s))).
Proof.
  intros Habs. pose proof (absorbed_lt _ _ Habs) as Hlt. destruct Habs as [Hb Hl Hlive Hst].
  assert (Hq : (length m = length m / 64 * 64 + blockLength_ s)%nat)
    by (rewrite Hl; pose proof (Nat.div_mod_eq (length m) 64); lia).
  set (q := (length m / 64)%nat) in *. clearbody q.
  unfold padded. rewrite <- Hl. rewrite <- (take_drop (q * 64) m) at 1. rewrite <- Hlive.
  rewrite <- app_assoc, (compress_app _ q) by (rewrite length_take; lia). rewrite <- Hst.
  set (live := take (blockLength_ s) (block_ s)).
  assert (Hlv : length live = blockLength_ s) by (unfold live; rewrite length_take; lia).
  rewrite <- (take_drop (blockLength_ s) (block_ s)) in Hb. fold live in Hb.
  unfold finalize. rewrite <- (take_drop (blockLength_ s) (block_ s)). fold live.
  set (rest := drop (blockLength_ s) (block_ s)) in *. rewrite length_app, Hlv in Hb.
  rewrite blit_step by (simpl; lia). set (n := blockLength_ s) in *.
  unfold zeroFill. destruct (Nat.ltb_spec 56 (S n)) as [H56|H56].
  - rewrite blit_step; [|rewrite length_app; simpl; lia | rewrite length_drop, length_replicate; simpl; lia].
    rewrite length_replicate, drop_drop, (drop_ge rest), app_nil_r by (simpl; lia).
    change (blit _ 0 _) with (replicate (56 - 0) x00 ++ drop (0 + length (replicate (56 - 0) x00))
      ((live ++ [x80]) ++ replicate (64 - S n) x00)).
    rewrite length_replicate. change (0 + (56 - 0))%nat with 56%nat. change (56 - 0)%nat with 56%nat.
    rewrite blit_step; [|done|rewrite length_drop, !length_app, length_replicate; simpl; lia].
    rewrite length_lengthBytes, drop_drop, drop_ge, app_nil_r
      by (rewrite !length_app, length_replicate; simpl; lia).
    replace ((119 - n) mod 64)%nat with (64 - S n + 56)%nat
      by (apply (Nat.mod_unique _ _ 0); lia).
    rewrite replicate_add.
    replace (live ++ [x80] ++ (replicate (64 - S n) x00 ++ replicate 56 x00) ++ lengthBytes (totalBits_ s))
      with (((live ++ [x80]) ++ replicate (64 - S n) x00) ++ (replicate 56 x00 ++ lengthBytes (totalBits_ s)))
      by (by rewrite <- !app_assoc).
    rewrite (compress_app _ 1) by (rewrite !length_app, length_replicate; simpl; lia).
    rewrite !compress_one; [done|..]; rewrite !length_app, ?length_replicate; simpl; lia.
  - rewrite blit_step; [|rewrite length_app; simpl; lia | rewrite length_drop, length_replicate; simpl; lia].
    rewrite blit_step; [|rewrite !length_app, length_replicate; simpl; lia
      | rewrite !length_drop, length_replicate; rewrite length_lengthBytes; simpl; lia].
    rewrite length_lengthBytes, length_replicate, !drop_drop, (drop_ge rest), app_nil_r
      by (simpl; lia).
    replace ((119 - n) mod 64)%nat with (56 - S n)%nat by (apply (Nat.mod_unique _ _ 1); lia).
    rewrite compress_one; [by rewrite <- !app_assoc|].
    rewrite !length_app, length_replicate; rewrite length_lengthBytes; simpl; lia.
Qed.

(** ** Claims *)

(** C38. The block-by-block hash with its in-place padding computes the reference
    digest of the whole message, for every input. *)
Theorem sha1_correct input : sha1Digest input = sha1_spec input.
Proof.
  unfold sha1Digest, sha1_spec.
  destruct (update_absorb reset [] input absorbed_reset) as [Habs Hbits].
  rewrite (finalize_padded _ _ Habs), Hbits. done.
Qed.

(** Hashing is insensitive to how the input is cut into [update] calls. *)
Theorem sha1_incremental a b :
  finalize (update (update reset a) b) = sha1Digest (a ++ b).
Proof.
  destruct (update_absorb reset [] a absorbed_reset) as [Ha Hba].
  destruct (update_absorb _ _ b Ha) as [Hb Hbb].
  destruct (update_absorb reset [] (a ++ b) absorbed_reset) as [Hc Hbc].
  unfold sha1Digest. rewrite (finalize_padded _ _ Hb), (finalize_padded _ _ Hc), Hbb, Hba, Hbc. unfold u64.
  rewrite Zplus_mod_idemp_l, zlen_app. do 3 f_equal. cbn [totalBits_ reset]. f_equal. lia.
Qed.

(** Known answers, from FIPS 180. *)
Example sha1_abc : sha1Digest (str "abc") =
  zb <$> [0xA9; 0x99; 0x3E; 0x36; 0x47; 0x06; 0x81; 0x6A; 0xBA; 0x3E;
          0x25; 0x71; 0x78; 0x50; 0xC2; 0x6C; 0x9C; 0xD0; 0xD8; 0x9D].
Proof. vm_compute. reflexivity. Qed.

Example sha1_two_blocks :
  sha1Digest (str "abcdbcdecdefdefgefghfghighijhijkijkljklmklmnlmnomnopnopq") =
  zb <$> [0x84; 0x98; 0x3E; 0x44; 0x1C; 0x3B; 0xD2; 0x6E; 0xBA; 0xAE;
          0x4A; 0xA1; 0xF9; 0x51; 0x29; 0xE5; 0xE5; 0x46; 0x70; 0xF1].
Proof. vm_compute. reflexivity. Qed.
