(* ===== verification/WebSocketProtocol.v ===== *)
(** * WebSocket framing and handshake (src/WebSocketProtocol.cpp)

    Frames are byte lists.  The random engine is a parameter: [rand k] is the
    [k]-th output of the thread's [std::mt19937_64], seeded from the operating
    system.  The two out-parameter overloads of [decodeFrame] return the triple
    (returned bool, payload, metadata) left in the caller's variables. *)

From S2P Require Import Prelude CType Base64 Sha1.

(** ** Types *)

Inductive WSFrameType := Text | Binary | Close | Ping | Pong.

#[export] Instance WSFrameType_eq_dec : EqDecision WSFrameType.
Proof. solve_decision. Defined.

Record WSFrameMetadata := mkMeta {
  type : WSFrameType;
  final : bool;
  masked : bool
}.

(** [WSFrameMetadata{}]: the default member initialisers. *)
Definition defaultMetadata : WSFrameMetadata := mkMeta Text true false.

(** ** Opcodes *)

Definition opcodeForType (t : WSFrameType) : Z :=
  match t with
  | Text => 0x01 | Binary => 0x02 | Close => 0x08 | Ping => 0x09 | Pong => 0x0A
  end.

Definition frameTypeFromOpcode (opcode : Z) : option WSFrameType :=
  if opcode =? 0x01 then Some Text
  else if opcode =? 0x02 then Some Binary
  else if opcode =? 0x08 then Some Close
  else if opcode =? 0x09 then Some Ping
  else if opcode =? 0x0A then Some Pong
  else None.

Definition isControlOpcode (opcode : Z) : bool :=
  (opcode =? 0x08) || (opcode =? 0x09) || (opcode =? 0x0A).

Definition isControlFrame (t : WSFrameType) : bool :=
  (t =s Close) || (t =s Ping) || (t =s Pong).

(** ** Random bytes *)

(** The object representation of a [uint64_t] on the little-endian targets. *)
Definition u64Bytes (value : Z) : list byte :=
  (fun i => zb (Z.land (Z.shiftr value (8 * Z.of_nat i)) 255)) <$> seq 0 8.

(** [fillRandomBytes]: whole words while at least eight bytes remain, then a
    prefix of one more word.  [k] counts the engine calls made so far. *)
Fixpoint fillRandomBytes (rand : nat -> Z) (k : nat) (words rest : nat) : list byte :=
  match words with
  | O => if (0 <? rest)%nat then take rest (u64Bytes (rand k)) else []
  | S words => u64Bytes (rand k) ++ fillRandomBytes rand (S k) words rest
  end.

Definition randomBytes (rand : nat -> Z) (length_ : nat) : list byte :=
  fillRandomBytes rand 0 (length_ / 8) (length_ mod 8).

Definition generateMaskKey (rand : nat -> Z) : list byte := randomBytes rand 4.

Definition createHandshakeKey (rand : nat -> Z) : list byte :=
  base64Encode (randomBytes rand 16).

(** ** Handshake *)

Definition kGuid : list byte := str "258EAFA5-E914-47DA-95CA-C5AB0DC85B11".

Definition createAcceptKey (key : list byte) : list byte :=
  base64Encode (sha1Digest (key ++ kGuid)).

Definition createHandshakeResponse (key : list byte) : list byte :=
  str "HTTP/1.1 101 Switching Protocols" ++ CRLF ++
  str "Upgrade: websocket" ++ CRLF ++
  str "Connection: Upgrade" ++ CRLF ++
  str "Sec-WebSocket-Accept: " ++ createAcceptKey key ++ CRLF ++ CRLF.

(** ** Encoding *)

Definition frameHeaderSize (payloadLength : Z) (masked : bool) : Z :=
  let headerSize := 2 in
  let headerSize :=
    if (126 <=? payloadLength) && (payloadLength <=? 0xFFFF) then headerSize + 2
    else if 0xFFFF <? payloadLength then headerSize + 8
    else headerSize in
  if masked then headerSize + 4 else headerSize.

(** The bytes [writePayloadLength] stores from [destination] on; the offset it
    returns is their number. *)
Definition writePayloadLength (payloadLength : Z) (masked : bool) : list byte :=
  let maskBit := if masked then 0x80 else 0x00 in
  if payloadLength <? 126 then [zb (Z.lor maskBit payloadLength)]
  else if payloadLength <=? 0xFFFF then
    [zb (Z.lor maskBit 126);
     zb (Z.land (Z.shiftr payloadLength 8) 0xFF);
     zb (Z.land payloadLength 0xFF)]
  else
    zb (Z.lor maskBit 127) ::
    ((fun shift => zb (Z.land (Z.shiftr payloadLength shift) 0xFF)) <$>
       [56; 48; 40; 32; 24; 16; 8; 0]).

(** [b ^ mask[i & 0x03]] over a payload. *)
Definition applyMask (mask payload : list byte) : list byte :=
  imap (fun i b => zb (Z.lxor (bz b) (bz (nth (i mod 4) mask x00)))) payload.

Definition encodeFrame (rand : nat -> Z) (data : list byte) (t : WSFrameType)
    (maskPayload : bool) : list byte :=
  let payloadLength := zlen data in
  let headerSize := frameHeaderSize payloadLength maskPayload in
  let frame := replicate (Z.to_nat (headerSize + zlen data)) x00 in
  let frame := blit frame 0 [zb (Z.lor 0x80 (opcodeForType t))] in
  let lengthBytes := writePayloadLength payloadLength maskPayload in
  let frame := blit frame 1 lengthBytes in
  let offset := (1 + length lengthBytes)%nat in
  if negb maskPayload then blit frame offset data
  else
    let mask := generateMaskKey rand in
    let frame := blit frame offset mask in
    let offset := (offset + length mask)%nat in
    blit frame offset (applyMask mask data).

(** ** Decoding *)

Definition isValidClosePayload (payload : list byte) : bool :=
  match payload with
  | [] => true
  | [_] => false
  | p0 :: p1 :: _ =>
      let code := Z.lor (Z.shiftl (bz p0) 8) (bz p1) in
      if code <? 1000 then false
      else if (code =? 1004) || (code =? 1005) || (code =? 1006) || (code =? 1015) then false
      else if ((1016 <=? code) && (code <=? 1999)) || ((2000 <=? code) && (code <=? 2999))
      then false
      else true
  end.

(** [bytes[i]]. *)
Definition byteAt (data : list byte) (i : nat) : Z := bz (nth i data x00).

(** [payloadLength = (payloadLength << 8) | bytes[offset++]], eight times. *)
Definition readBE64 (data : list byte) (offset : nat) : Z :=
  fold_left (fun acc i => Z.lor (u64 (Z.shiftl acc 8)) (byteAt data (offset + i)))
            (seq 0 8) 0.

(** The extended length: [None] is [return false], else (payloadLength, offset). *)
Definition readPayloadLength (data : list byte) (secondByte : Z) : option (Z * nat) :=
  let payloadLength := Z.land secondByte 0x7F in
  if payloadLength =? 126 then
    if (length data <? 2 + 2)%nat then None
    else
      let payloadLength := Z.lor (Z.shiftl (byteAt data 2) 8) (byteAt data 3) in
      if payloadLength <? 126 then None else Some (payloadLength, 4%nat)
  else if payloadLength =? 127 then
    if (length data <? 2 + 8)%nat then None
    else
      let payloadLength := readBE64 data 2 in
      if (payloadLength <=? 0xFFFF) || negb (Z.land payloadLength (Z.shiftl 1 63) =? 0)
      then None else Some (payloadLength, 10%nat)
  else Some (payloadLength, 2%nat).

(** The payload copy of the [std::string] overload: [assign], or resize and unmask. *)
Definition copyToString (data : list byte) (offset payloadSize : nat) (masked : bool)
    (mask : list byte) : list byte :=
  if negb masked then take payloadSize (drop offset data)
  else imap (fun i _ => zb (Z.lxor (byteAt data (offset + i)) (bz (nth (i mod 4) mask x00))))
            (replicate payloadSize x00).

(** The payload copy of the [Buffer] overload: resize, then [memcpy] or unmask. *)
Definition copyToBuffer (data : list byte) (offset payloadSize : nat) (masked : bool)
    (mask : list byte) : list byte :=
  let payload := replicate payloadSize x00 in
  if negb masked then
    if (payloadSize =? 0)%nat then payload
    else blit payload 0 (take payloadSize (drop offset data))
  else imap (fun i _ => zb (Z.lxor (byteAt data (offset + i)) (bz (nth (i mod 4) mask x00))))
            payload.

(** The body shared line for line by the two metadata overloads, over the copy. *)
Definition decodeFrameWith (copy : list byte -> nat -> nat -> bool -> list byte -> list byte)
    (data : list byte) (metadata : WSFrameMetadata) : bool * list byte * WSFrameMetadata :=
  if (length data <? 2)%nat then (false, [], metadata)
  else
    let metadata := defaultMetadata in
    let firstByte := byteAt data 0 in
    let secondByte := byteAt data 1 in
    let fin := negb (Z.land firstByte 0x80 =? 0) in
    let reservedBits := Z.land firstByte 0x70 in
    let opcode := Z.land firstByte 0x0F in
    if negb (reservedBits =? 0) then (false, [], metadata)
    else match frameTypeFromOpcode opcode with
    | None => (false, [], metadata)
    | Some t =>
        let metadata := mkMeta t (final metadata) (masked metadata) in
        match readPayloadLength data secondByte with
        | None => (false, [], metadata)
        | Some (payloadLength, offset) =>
            let isMasked := negb (Z.land secondByte 0x80 =? 0) in
            let metadata := mkMeta t fin isMasked in
            if isControlOpcode opcode && (negb fin || (125 <? payloadLength))
            then (false, [], metadata)
            else if size_max <? payloadLength then (false, [], metadata)
            else if isMasked && (length data <? offset + 4)%nat then (false, [], metadata)
            else
              let mask := if isMasked then take 4 (drop offset data) else replicate 4 x00 in
              let offset := if isMasked then (offset + 4)%nat else offset in
              if (length data <? offset)%nat || (zlen data - Z.of_nat offset <? payloadLength)
              then (false, [], metadata)
              else
                let payload := copy data offset (Z.to_nat payloadLength) isMasked mask in
                if (t =s Close) && negb (isValidClosePayload payload)
                then (false, payload, metadata)
                else (true, payload, metadata)
        end
    end.

Definition decodeFrameString := decodeFrameWith copyToString.
Definition decodeFrameBuffer := decodeFrameWith copyToBuffer.

(** The overload that accepts only complete frames: [None] is [false]; on success
    the payload and the type. *)
Definition decodeCompleteFrame (data : list byte) : option (list byte * WSFrameType) :=
  let '(ok, payload, metadata) := decodeFrameString data defaultMetadata in
  if negb ok then None
  else if negb (final metadata) then None
  else Some (payload, type metadata).

(** ** Reference: the wire format *)

(** A frame as RFC 6455 describes it, fragmentation left out. *)
Record frame := mkFrame {
  f_fin : bool;
  f_type : WSFrameType;
  f_mask : option (list byte);
  f_payload : list byte
}.

Definition f_masked (f : frame) : bool := if f_mask f is Some _ then true else false.

Definition wire (f : frame) : list byte :=
  [zb (Z.lor (if f_fin f then 0x80 else 0) (opcodeForType (f_type f)))] ++
  writePayloadLength (zlen (f_payload f)) (f_masked f) ++
  match f_mask f with
  | None => f_payload f
  | Some key => key ++ applyMask key (f_payload f)
  end.

(** The status codes a close frame may carry: those RFC 6455 and its registry define for use
    on the wire, and those left to libraries and applications. *)
Definition closeStatus (c : Z) : Prop := 1000 <= c <= 1003 \/ 1007 <= c <= 1014 \/ 3000 <= c <= 4999.

(** Codes without any meaning which the decoder takes all the same. *)
Definition takenStatus (c : Z) : Prop := closeStatus c \/ 5000 <= c.

(** The body of a close frame: empty, or a status code and a reason. *)
Definition closeBody (status : Z -> Prop) (payload : list byte) : Prop :=
  payload = [] \/ ∃ a b reason, payload = a :: b :: reason ∧ status (256 * bz a + bz b).

(** The frames the decoder takes. *)
Record valid_frame (f : frame) : Prop := {
  vf_len : zlen (f_payload f) < 2 ^ 63;
  vf_key : forall key, f_mask f = Some key -> length key = 4%nat;
  vf_control : isControlFrame (f_type f) = true -> f_fin f = true ∧ zlen (f_payload f) <= 125;
  vf_close : f_type f = Close -> closeBody takenStatus (f_payload f)
}.

Definition meta_of (f : frame) : WSFrameMetadata := mkMeta (f_type f) (f_fin f) (f_masked f).

(** ** RFC 6455, section 5.2 *)

(** A frame with all its fields; [r_rsv] are the three reserved bits. *)
Record rfcFrame := mkRfc {
  r_fin : bool;
  r_rsv : Z;
  r_opcode : Z;
  r_mask : option (list byte);
  r_payload : list byte
}.

(** [k] bytes in network order. *)
Definition bigEndian (k : nat) (n : Z) : list byte := (fun i => zb (n / 256 ^ Z.of_nat (k - 1 - i))) <$> seq 0 k.

(** The mask bit and the length in the shortest of its three forms. *)
Definition rfcLength (hasMask : bool) (n : Z) : list byte :=
  let bit := if hasMask then 128 else 0 in
  if n <=? 125 then [zb (bit + n)]
  else if n <=? 65535 then zb (bit + 126) :: bigEndian 2 n
  else zb (bit + 127) :: bigEndian 8 n.

(** Octet [i] is combined with octet [i mod 4] of the key. *)
Definition rfcMasking (key payload : list byte) : list byte :=
  imap (fun i b => zb (Z.lxor (bz b) (bz (nth (i mod 4) key x00)))) payload.

Definition rfcImage (f : rfcFrame) : list byte :=
  zb ((if r_fin f then 128 else 0) + 16 * r_rsv f + r_opcode f) ::
  rfcLength (bool_decide (is_Some (r_mask f))) (zlen (r_payload f)) ++
  match r_mask f with
  | Some key => key ++ rfcMasking key (r_payload f)
  | None => r_payload f
  end.

(** The rules of a single frame when no extension was negotiated; opcodes from 8 on are
    those of control frames. *)
Record rfcFramed (f : rfcFrame) : Prop := {
  rf_rsv : r_rsv f = 0;
  rf_opcode : r_opcode f ∈ [0; 1; 2; 8; 9; 10];
  rf_length : zlen (r_payload f) < 2 ^ 63;
  rf_key : ∀ key, r_mask f = Some key -> length key = 4%nat;
  rf_control : 8 <= r_opcode f -> r_fin f = true ∧ zlen (r_payload f) <= 125
}.

(** The opcodes other than that of a continuation. *)
Definition rfcTypes : list (Z * WSFrameType) := [(1, Text); (2, Binary); (8, Close); (9, Ping); (10, Pong)].

(** ** Header bytes *)

Definition flag (b : bool) (v : Z) : Z := if b then v else 0.

Lemma firstByte_write fin t :
  let b := bz (zb (Z.lor (flag fin 0x80) (opcodeForType t))) in
  negb (Z.land b 0x80 =? 0) = fin ∧ Z.land b 0x70 = 0 ∧ Z.land b 0x0F = opcodeForType t.
Proof. by destruct fin, t. Qed.

Lemma firstByte_read b t :
  Z.land (bz b) 0x70 = 0 -> frameTypeFromOpcode (Z.land (bz b) 0x0F) = Some t ->
  b = zb (Z.lor (flag (negb (Z.land (bz b) 0x80 =? 0)) 0x80) (opcodeForType t)).
Proof. byte_cases b; intros _ [= <-]; reflexivity. Qed.

Lemma frameTypeFromOpcode_write t : frameTypeFromOpcode (opcodeForType t) = Some t.
Proof. by destruct t. Qed.

Lemma isControlOpcode_write t : isControlOpcode (opcodeForType t) = isControlFrame t.
Proof. by destruct t. Qed.

Lemma frameTypeFromOpcode_inv o t : frameTypeFromOpcode o = Some t -> o = opcodeForType t.
Proof.
  unfold frameTypeFromOpcode. repeat case_match; intros; simplify_eq; simpl; lia.
Qed.

Lemma secondByte_write m n : 0 <= n < 128 ->
  Z.land (bz (zb (Z.lor (flag m 0x80) n))) 0x7F = n ∧
  negb (Z.land (bz (zb (Z.lor (flag m 0x80) n))) 0x80 =? 0) = m.
Proof.
  intros Hn. replace n with (Z.of_nat (Z.to_nat n)) by lia.
  set (check := fun k => let b := bz (zb (Z.lor (flag m 0x80) (Z.of_nat k))) in
    (Z.land b 0x7F =? Z.of_nat k) && Bool.eqb (negb (Z.land b 0x80 =? 0)) m).
  assert (H : forallb check (seq 0 128) = true) by (by destruct m; vm_compute).
  rewrite forallb_forall in H. specialize (H (Z.to_nat n)).
  rewrite <- list_elem_of_In, elem_of_seq in H. specialize (H ltac:(lia)).
  unfold check in H. by rewrite andb_true_iff, Z.eqb_eq, Bool.eqb_true_iff in H.
Qed.

Lemma secondByte_read b :
  b = zb (Z.lor (flag (negb (Z.land (bz b) 0x80 =? 0)) 0x80) (Z.land (bz b) 0x7F)) ∧
  0 <= Z.land (bz b) 0x7F < 128.
Proof.
  split; [by byte_cases b|]. rewrite (land_mask _ 7) by lia. apply Z.mod_pos_bound. lia.
Qed.

(** ** Big-endian lengths *)

Lemma be_byte v sh : 0 <= sh -> bz (zb (Z.land (Z.shiftr v sh) 0xFF)) = v / 2 ^ sh mod 256.
Proof.
  intros. rewrite (land_mask _ 8), shr_div by lia. rewrite bz_zb_small; [done|].
  apply Z.mod_pos_bound. lia.
Qed.

Lemma be_byte0 v : bz (zb (Z.land v 0xFF)) = v mod 256.
Proof. by rewrite <- (Z.shiftr_0_r v) at 1; rewrite be_byte, Z.div_1_r by lia. Qed.

Lemma be_byte_inv v sh b : 0 <= sh -> v / 2 ^ sh mod 256 = bz b ->
  zb (Z.land (Z.shiftr v sh) 0xFF) = b.
Proof. intros ? H. apply bz_inj. by rewrite be_byte. Qed.

Lemma be_join a b : 0 <= a < 2 ^ 56 -> 0 <= b < 256 ->
  Z.lor (u64 (Z.shiftl a 8)) b = a * 256 + b.
Proof.
  intros. unfold u64. rewrite Z.mod_small by (rewrite Z.shiftl_mul_pow2 by lia; lia).
  by rewrite lor_low by lia.
Qed.

Lemma be_join16 a b : 0 <= b < 256 -> Z.lor (Z.shiftl a 8) b = a * 256 + b.
Proof. intros. by rewrite lor_low by lia. Qed.

(** Eight bytes read as one number, as a nested sum. *)
Lemma readBE64_sum pre b0 b1 b2 b3 b4 b5 b6 b7 tail :
  readBE64 (pre ++ b0 :: b1 :: b2 :: b3 :: b4 :: b5 :: b6 :: b7 :: tail) (length pre) =
  ((((((bz b0 * 256 + bz b1) * 256 + bz b2) * 256 + bz b3) * 256 + bz b4) * 256
    + bz b5) * 256 + bz b6) * 256 + bz b7.
Proof.
  unfold readBE64, byteAt. cbn [seq fold_left].
  rewrite !(app_nth2_plus pre). cbn [nth].
  repeat match goal with
    | |- context [bz ?x] =>
        lazymatch goal with H : 0 <= bz x < 256 |- _ => fail
        | _ => pose proof (bz_range x) end
    end.
  rewrite (be_join 0), (be_join _ (bz b1)), (be_join _ (bz b2)), (be_join _ (bz b3)),
    (be_join _ (bz b4)), (be_join _ (bz b5)), (be_join _ (bz b6)), (be_join _ (bz b7)) by lia.
  lia.
Qed.

(** The eight bytes written for a number given by its eight bytes. *)
Lemma be_bytes_sum c0 c1 c2 c3 c4 c5 c6 c7 :
  let v := ((((((bz c0 * 256 + bz c1) * 256 + bz c2) * 256 + bz c3) * 256 + bz c4) * 256
    + bz c5) * 256 + bz c6) * 256 + bz c7 in
  ((fun shift => zb (Z.land (Z.shiftr v shift) 0xFF)) <$> [56; 48; 40; 32; 24; 16; 8; 0]) =
  [c0; c1; c2; c3; c4; c5; c6; c7].
Proof.
  intros v. pose proof (bz_range c0); pose proof (bz_range c1); pose proof (bz_range c2);
  pose proof (bz_range c3); pose proof (bz_range c4); pose proof (bz_range c5);
  pose proof (bz_range c6); pose proof (bz_range c7).
  cbn [fmap list_fmap].
  rewrite (be_byte_inv v 56 c0), (be_byte_inv v 48 c1), (be_byte_inv v 40 c2),
    (be_byte_inv v 32 c3), (be_byte_inv v 24 c4), (be_byte_inv v 16 c5),
    (be_byte_inv v 8 c6), (be_byte_inv v 0 c7); try lia; [done|..]; unfold v; clear v;
    match goal with |- context [2 ^ ?k] => let r := eval vm_compute in (2 ^ k) in
      change (2 ^ k) with r end; zlia.
Qed.

Lemma be_split v s t : 0 <= s -> t = s + 8 ->
  v / 2 ^ t * 256 + v / 2 ^ s mod 256 = v / 2 ^ s.
Proof.
  intros ? ->. rewrite Z.pow_add_r, <- Z.div_div by lia. change (2 ^ 8) with 256.
  pose proof (Z.div_mod (v / 2 ^ s) 256). lia.
Qed.

(** The top bit test of the 64-bit form. *)
Lemma top_bit v : 0 <= v < 2 ^ 64 -> (Z.land v (Z.shiftl 1 63) =? 0) = (v <? 2 ^ 63).
Proof.
  intros Hv. rewrite Z.shiftl_1_l.
  assert (Hb : Z.land v (2 ^ 63) = if v <? 2 ^ 63 then 0 else 2 ^ 63).
  { apply Z.bits_inj'. intros i Hi. rewrite Z.land_spec, Z.pow2_bits_eqb by lia.
    destruct (Z.eqb_spec 63 i) as [<-|Hne].
    - rewrite andb_true_r.
      destruct (Z.ltb_spec v (2 ^ 63)).
      + rewrite Z.bits_0. apply not_true_is_false. rewrite Z.testbit_true by lia.
        rewrite Z.div_small by lia. done.
      + rewrite Z.pow2_bits_true by lia. apply Z.testbit_true; [lia|].
        replace (v / 2 ^ 63) with 1 by zlia. done.
    - rewrite andb_false_r. case_match; [by rewrite Z.bits_0|].
      by rewrite Z.pow2_bits_false by lia. }
  rewrite Hb. by destruct (v <? 2 ^ 63).
Qed.

Lemma readPayloadLength_write len m b0 tail :
  0 <= len < 2 ^ 63 ->
  let hdr := writePayloadLength len m in
  let data := b0 :: hdr ++ tail in
  readPayloadLength data (byteAt data 1) = Some (len, S (length hdr)) ∧
  negb (Z.land (byteAt data 1) 0x80 =? 0) = m.
Proof.
  intros Hlen hdr data. subst data hdr. unfold writePayloadLength. fold (flag m 0x80).
  destruct (Z.ltb_spec len 126); [|destruct (Z.leb_spec len 0xFFFF)];
    unfold byteAt; cbn [app nth fmap list_fmap].
  - destruct (secondByte_write m len) as [H1 H2]; [lia|]. split; [|done].
    unfold readPayloadLength. rewrite H1.
    by rewrite (proj2 (Z.eqb_neq len 126)), (proj2 (Z.eqb_neq len 127)) by lia.
  - destruct (secondByte_write m 126) as [H1 H2]; [lia|]. split; [|done].
    unfold readPayloadLength, byteAt. rewrite H1. cbn [Z.eqb Pos.eqb nth length Nat.ltb Nat.leb Nat.add].
    rewrite be_byte, be_byte0 by lia.
    rewrite be_join16 by (apply Z.mod_pos_bound; lia).
    replace (len / 2 ^ 8 mod 256 * 256 + len mod 256) with len by zlia.
    by rewrite (proj2 (Z.ltb_ge len 126)) by lia.
  - destruct (secondByte_write m 127) as [H1 H2]; [lia|]. split; [|done].
    unfold readPayloadLength. rewrite H1. cbn [Z.eqb Pos.eqb nth length Nat.ltb Nat.leb Nat.add].
    match goal with |- context [readBE64 (?x :: ?y :: ?l) 2] =>
      change (readBE64 (x :: y :: l) 2) with (readBE64 ([x; y] ++ l) (length [x; y])) end.
    rewrite readBE64_sum, !be_byte by lia.
    replace (len / 2 ^ 56 mod 256) with (len / 2 ^ 56)
      by (rewrite Z.mod_small; [done | change (2 ^ 56) with 72057594037927936; zlia]).
    rewrite (be_split len 48), (be_split len 40), (be_split len 32), (be_split len 24),
      (be_split len 16), (be_split len 8), (be_split len 0) by lia.
    rewrite Z.pow_0_r, Z.div_1_r, top_bit by lia.
    rewrite (proj2 (Z.leb_gt len 0xFFFF)), (proj2 (Z.ltb_lt len _)) by lia. done.
Qed.

(** The 16-bit and 64-bit forms, read back. *)
Lemma read16 b0 b1 tail len off :
  Z.land (bz b1) 0x7F = 126 ->
  readPayloadLength (b0 :: b1 :: tail) (bz b1) = Some (len, off) ->
  exists c0 c1 tail', tail = c0 :: c1 :: tail' ∧ off = 4%nat ∧
    len = bz c0 * 256 + bz c1 ∧ 126 <= len.
Proof.
  unfold readPayloadLength. intros -> H. rewrite Z.eqb_refl in H.
  destruct (Nat.ltb_spec (length (b0 :: b1 :: tail)) (2 + 2)) as [|Hl]; [done|].
  destruct tail as [|c0 [|c1 tail]]; simpl in Hl; try lia.
  unfold byteAt in H. cbn [nth] in H. rewrite be_join16 in H by apply bz_range.
  destruct (Z.ltb_spec (bz c0 * 256 + bz c1) 126); [done|].
  injection H as <- <-. by exists c0, c1, tail.
Qed.

Lemma read64 b0 b1 tail len off :
  Z.land (bz b1) 0x7F = 127 ->
  readPayloadLength (b0 :: b1 :: tail) (bz b1) = Some (len, off) ->
  exists c0 c1 c2 c3 c4 c5 c6 c7 tail',
    tail = c0 :: c1 :: c2 :: c3 :: c4 :: c5 :: c6 :: c7 :: tail' ∧ off = 10%nat ∧
    len = ((((((bz c0 * 256 + bz c1) * 256 + bz c2) * 256 + bz c3) * 256 + bz c4) * 256
      + bz c5) * 256 + bz c6) * 256 + bz c7 ∧ 0xFFFF < len < 2 ^ 63.
Proof.
  unfold readPayloadLength. intros -> H. rewrite Z.eqb_refl in H. cbn [Z.eqb Pos.eqb] in H.
  destruct (Nat.ltb_spec (length (b0 :: b1 :: tail)) (2 + 8)) as [|Hl]; [done|].
  destruct tail as [|c0 [|c1 [|c2 [|c3 [|c4 [|c5 [|c6 [|c7 tail]]]]]]]]; simpl in Hl; try lia.
  pose proof (readBE64_sum [b0; b1] c0 c1 c2 c3 c4 c5 c6 c7 tail) as Hsum.
  cbn [app length] in Hsum. rewrite Hsum in H. clear Hsum.
  pose proof (bz_range c0); pose proof (bz_range c1); pose proof (bz_range c2);
  pose proof (bz_range c3); pose proof (bz_range c4); pose proof (bz_range c5);
  pose proof (bz_range c6); pose proof (bz_range c7).
  match type of H with context [?v <=? _] => set (w := v) in H end.
  assert (Hw : 0 <= w < 2 ^ 64) by (unfold w; lia).
  rewrite top_bit in H by done.
  destruct (Z.leb_spec w 0xFFFF); [done|]. destruct (Z.ltb_spec w (2 ^ 63)); [|done].
  injection H as <- <-. exists c0, c1, c2, c3, c4, c5, c6, c7, tail. by split_and!.
Qed.

Lemma readPayloadLength_read b0 b1 tail len off :
  readPayloadLength (b0 :: b1 :: tail) (bz b1) = Some (len, off) ->
  let m := negb (Z.land (bz b1) 0x80 =? 0) in
  exists tail', b1 :: tail = writePayloadLength len m ++ tail' ∧
    off = S (length (writePayloadLength len m)) ∧ 0 <= len < 2 ^ 63.
Proof.
  intros H m. destruct (secondByte_read b1) as [Hb1 Hr].
  unfold writePayloadLength. fold (flag m 0x80).
  destruct (Z.eqb_spec (Z.land (bz b1) 127) 126) as [E|E];
    [|destruct (Z.eqb_spec (Z.land (bz b1) 127) 127) as [E'|E']].
  - apply read16 in H as (c0 & c1 & t & -> & -> & Hlen & Hge); [|done].
    pose proof (bz_range c0). pose proof (bz_range c1).
    rewrite (proj2 (Z.ltb_ge _ 126)), (proj2 (Z.leb_le _ 0xFFFF)) by lia.
    exists t. split_and!; [|done|lia|lia]. rewrite E in Hb1. rewrite Hb1.
    rewrite (be_byte_inv _ 8 c0) by (subst len; zlia). cbn [app]. do 3 f_equal.
    apply bz_inj. rewrite be_byte0. subst len. zlia.
  - apply read64 in H as (c0 & c1 & c2 & c3 & c4 & c5 & c6 & c7 & t & -> & -> & Hlen & Hge); [|done].
    rewrite (proj2 (Z.ltb_ge _ 126)), (proj2 (Z.leb_gt _ 0xFFFF)) by lia.
    exists t. split_and!; [|done|lia|lia]. rewrite E' in Hb1. rewrite Hb1.
    rewrite Hlen, be_bytes_sum. done.
  - unfold readPayloadLength in H. rewrite (proj2 (Z.eqb_neq _ _) E), (proj2 (Z.eqb_neq _ _) E') in H.
    injection H as <- <-. rewrite (proj2 (Z.ltb_lt _ 126)) by lia.
    exists tail. split_and!; [by rewrite Hb1 at 1|done|lia|lia].
Qed.

(** ** Masking *)

Lemma length_applyMask key p : length (applyMask key p) = length p.
Proof. apply length_imap. Qed.

Lemma applyMask_involutive key p : applyMask key (applyMask key p) = p.
Proof.
  apply list_eq. intros i. unfold applyMask. rewrite !list_lookup_imap.
  destruct (p !! i) as [b|]; [|done]. cbn [fmap option_fmap option_map]. f_equal. apply zb_eq.
  rewrite bz_zb_small by (apply lxor_byte; apply bz_range). apply lxor_cancel.
Qed.

(** What both payload copies compute when the payload lies inside the input. *)
Lemma copyToString_spec data off n m key :
  (off + n <= length data)%nat ->
  copyToString data off n m key =
  if m then applyMask key (take n (drop off data)) else take n (drop off data).
Proof.
  intros H. unfold copyToString. destruct m; simpl; [|done].
  apply list_eq. intros i. unfold applyMask. rewrite !list_lookup_imap.
  destruct (decide (i < n)%nat).
  - rewrite lookup_replicate_2, lookup_take_lt, lookup_drop by lia. unfold byteAt.
    rewrite (nth_lookup data). destruct (data !! (off + i)%nat) as [b|] eqn:E; [done|].
    apply lookup_ge_None in E. lia.
  - rewrite (proj1 (lookup_replicate_None _ _ _)), lookup_take_ge by lia. done.
Qed.

Lemma copies_agree data off n m key :
  (off + n <= length data)%nat -> copyToBuffer data off n m key = copyToString data off n m key.
Proof.
  intros H. rewrite copyToString_spec by done. unfold copyToBuffer.
  destruct m; [by rewrite <- (copyToString_spec data off n true)|]. simpl.
  destruct (Nat.eqb_spec n 0) as [->|Hn]; [by rewrite take_0|].
  unfold blit. rewrite take_0. simpl. rewrite (drop_ge (replicate n x00)); [apply app_nil_r|].
  rewrite length_replicate, length_take, length_drop. lia.
Qed.

(** ** Encoding against the wire format *)

Lemma length_writePayloadLength len m : 0 <= len ->
  Z.of_nat (length (writePayloadLength len m)) = frameHeaderSize len m - 1 - (if m then 4 else 0).
Proof.
  intros. unfold writePayloadLength, frameHeaderSize.
  destruct (Z.ltb_spec len 126); [|destruct (Z.leb_spec len 0xFFFF)].
  - rewrite (proj2 (Z.leb_gt 126 len)), (proj2 (Z.ltb_ge 0xFFFF len)) by lia. by destruct m.
  - rewrite (proj2 (Z.leb_le 126 len)) by lia. by destruct m.
  - rewrite andb_false_r, (proj2 (Z.ltb_lt 0xFFFF len)) by lia. by destruct m.
Qed.

Lemma length_generateMaskKey rand : length (generateMaskKey rand) = 4%nat.
Proof. done. Qed.

Lemma frameHeaderSize_ge len m : 2 <= frameHeaderSize len m.
Proof. unfold frameHeaderSize. repeat case_match; lia. Qed.

(** The header size computed up front is exactly what the writes fill. *)
Lemma encodeFrame_wire rand data t m :
  encodeFrame rand data t m =
  wire (mkFrame true t (if m then Some (generateMaskKey rand) else None) data).
Proof.
  unfold encodeFrame, wire. cbn [f_fin f_type f_mask f_payload].
  pose proof (zlen_nonneg data) as Hd.
  pose proof (length_writePayloadLength (zlen data) m Hd) as Hw.
  pose proof (frameHeaderSize_ge (zlen data) m).
  assert (Hl : Z.of_nat (length data) = zlen data) by done.
  set (hdr := writePayloadLength (zlen data) m) in *.
  set (z := Z.to_nat (frameHeaderSize (zlen data) m + zlen data)).
  assert (Hz : Z.of_nat z = frameHeaderSize (zlen data) m + zlen data) by (unfold z; lia).
  clearbody z. set (op := zb _). change (replicate z x00) with ([] ++ replicate z x00).
  destruct m; cbn [negb f_masked f_mask];
    (rewrite blit_step by (rewrite ?length_replicate; simpl; lia); rewrite drop_replicate);
    (rewrite blit_step by (rewrite ?length_replicate; simpl; lia); rewrite drop_replicate).
  - rewrite blit_step by (rewrite ?length_replicate, ?length_generateMaskKey; simpl; lia).
    rewrite drop_replicate.
    rewrite blit_step by (rewrite ?length_replicate, ?length_app, ?length_applyMask,
      ?length_generateMaskKey; simpl; lia).
    rewrite drop_replicate, length_applyMask, length_generateMaskKey.
    replace (_ - length data)%nat with 0%nat by (simpl; lia).
    simpl replicate. rewrite app_nil_r. by rewrite <- !app_assoc.
  - rewrite blit_step by (rewrite ?length_replicate; simpl; lia). rewrite drop_replicate.
    replace (_ - length data)%nat with 0%nat by (simpl; lia).
    simpl replicate. rewrite app_nil_r. by rewrite <- !app_assoc.
Qed.

(** ** Decoding against the wire format *)

(** The part of [decodeFrameWith] after the header, on a parsed header. *)
Lemma decode_at copy b0 len m tail t meta :
  Z.land (bz b0) 0x70 = 0 -> frameTypeFromOpcode (Z.land (bz b0) 0x0F) = Some t ->
  0 <= len < 2 ^ 63 ->
  let hdr := b0 :: writePayloadLength len m in
  let data := hdr ++ tail in
  let fin := negb (Z.land (bz b0) 0x80 =? 0) in
  let md := mkMeta t fin m in
  let off := if m then (length hdr + 4)%nat else length hdr in
  let key := if m then take 4 tail else replicate 4 x00 in
  decodeFrameWith copy data meta =
  if isControlFrame t && (negb fin || (125 <? len)) then (false, [], md)
  else if m && (length tail <? 4)%nat then (false, [], md)
  else if zlen (if m then drop 4 tail else tail) <? len then (false, [], md)
  else
    let payload := copy data off (Z.to_nat len) m key in
    if (t =s Close) && negb (isValidClosePayload payload) then (false, payload, md)
    else (true, payload, md).
Proof.
  intros Hrsv Ht Hlen hdr data fin md off key.
  destruct (readPayloadLength_write len m b0 tail Hlen) as [Hread Hmask].
  pose proof (length_writePayloadLength len m ltac:(lia)) as Hwl.
  pose proof (frameHeaderSize_ge len m).
  change (b0 :: writePayloadLength len m ++ tail) with data in Hread, Hmask.
  assert (H0 : byteAt data 0 = bz b0) by done.
  assert (Hld : length data = (length hdr + length tail)%nat) by (apply length_app).
  assert (Hlh : (2 <= length hdr)%nat).
  { simpl. enough (1 <= Z.of_nat (length (writePayloadLength len m))) by lia.
    rewrite Hwl. unfold frameHeaderSize. repeat case_match; lia. }
  unfold decodeFrameWith. rewrite H0, Hrsv, Ht, Hread, Hmask. fold fin.
  apply frameTypeFromOpcode_inv in Ht. rewrite Ht, isControlOpcode_write.
  change (S (length (writePayloadLength len m))) with (length hdr).
  rewrite (proj2 (Nat.ltb_ge (length data) 2)) by lia. cbn [Z.eqb negb].
  destruct (isControlFrame t && _); [done|].
  rewrite (proj2 (Z.ltb_ge size_max len)) by (unfold size_max; lia).
  replace (length data <? length hdr + 4)%nat with (length tail <? 4)%nat
    by (destruct (Nat.ltb_spec (length tail) 4), (Nat.ltb_spec (length data) (length hdr + 4)); lia).
  destruct (m && (length tail <? 4)%nat) eqn:E4; [done|].
  assert (Hk : (if m then take 4 (drop (length hdr) data) else replicate 4 x00) = key)
    by (unfold data; by rewrite drop_app_length).
  rewrite Hk. change (if m then (length hdr + 4)%nat else length hdr) with off.
  replace ((length data <? off)%nat || (zlen data - Z.of_nat off <? len))
    with (zlen (if m then drop 4 tail else tail) <? len); [done|].
  assert (Hoff : (off <= length data)%nat).
  { unfold off. destruct m; [|lia]. cbn [andb] in E4. apply Nat.ltb_ge in E4. lia. }
  rewrite (proj2 (Nat.ltb_ge _ _) Hoff). cbn [orb]. f_equal. unfold zlen, off in *.
  destruct m; rewrite ?length_drop; lia.
Qed.

(** The payload the string overload extracts after the header. *)
Lemma copy_at hdr tail (m : bool) len :
  0 <= len -> (m && (length tail <? 4)%nat) = false ->
  len <= zlen (if m then drop 4 tail else tail) ->
  copyToString (hdr ++ tail) (if m then (length hdr + 4)%nat else length hdr) (Z.to_nat len) m
    (if m then take 4 tail else replicate 4 x00) =
  if m then applyMask (take 4 tail) (take (Z.to_nat len) (drop 4 tail))
  else take (Z.to_nat len) tail.
Proof.
  intros H0 H4 Hlen. unfold zlen in Hlen. rewrite copyToString_spec.
  - destruct m; [by rewrite <- drop_drop, drop_app_length | by rewrite drop_app_length].
  - rewrite length_app. destruct m; [cbn [andb] in H4; apply Nat.ltb_ge in H4; rewrite length_drop in Hlen; lia | lia].
Qed.

Lemma wire_split f rest :
  wire f ++ rest =
  (zb (Z.lor (flag (f_fin f) 0x80) (opcodeForType (f_type f))) ::
     writePayloadLength (zlen (f_payload f)) (f_masked f)) ++
  (match f_mask f with
   | None => f_payload f
   | Some key => key ++ applyMask key (f_payload f)
   end ++ rest).
Proof. unfold wire, flag. by rewrite <- !app_assoc. Qed.

Lemma isValidClosePayload_spec p : isValidClosePayload p = true <-> closeBody takenStatus p.
Proof.
  unfold closeBody, takenStatus, closeStatus. destruct p as [|a [|b reason]]; cbn [isValidClosePayload].
  - split; [by left | done].
  - split; [done|]. intros [?|(? & ? & ? & ? & _)]; done.
  - rewrite be_join16 by apply bz_range. pose proof (bz_range a). pose proof (bz_range b).
    replace (bz a * 256 + bz b) with (256 * bz a + bz b) by lia. set (c := 256 * bz a + bz b) in *.
    split.
    + intros Hc. right. exists a, b, reason. split; [done|]. fold c. repeat case_match; lia.
    + intros [?|(? & ? & ? & [= <- <- <-] & Hc)]; [done|]. fold c in Hc. repeat case_match; lia.
Qed.

(** What follows the header of a wire image, as the decoder sees it. *)
Lemma wire_body f rest :
  (forall key, f_mask f = Some key -> length key = 4%nat) ->
  let m := f_masked f in
  let tail := match f_mask f with
    | None => f_payload f
    | Some key => key ++ applyMask key (f_payload f)
    end ++ rest in
  let n := length (f_payload f) in
  (m && (length tail <? 4)%nat) = false ∧
  zlen (f_payload f) <= zlen (if m then drop 4 tail else tail) ∧
  (if m then applyMask (take 4 tail) (take n (drop 4 tail)) else take n tail) = f_payload f.
Proof.
  intros Hkey. unfold f_masked. destruct (f_mask f) as [key|]; cbv zeta; cbn [andb].
  - specialize (Hkey key eq_refl). rewrite <- app_assoc.
    rewrite (take_app_exact key), (drop_app_exact key) by done.
    rewrite take_app_exact by (by rewrite length_applyMask). rewrite applyMask_involutive.
    rewrite length_app, zlen_app. unfold zlen. rewrite length_applyMask.
    split_and!; [apply Nat.ltb_ge; lia | lia | done].
  - rewrite take_app_length, zlen_app. pose proof (zlen_nonneg rest). by split_and!; [|lia|].
Qed.

Lemma decode_wire f rest meta : valid_frame f ->
  decodeFrameString (wire f ++ rest) meta = (true, f_payload f, meta_of f).
Proof.
  intros [Hlen Hkey Hctl Hclose]. rewrite wire_split. unfold decodeFrameString.
  destruct (firstByte_write (f_fin f) (f_type f)) as (Hfin & Hrsv & Hop).
  pose proof (zlen_nonneg (f_payload f)) as Hz.
  rewrite (decode_at _ _ _ _ _ (f_type f));
    [|done|by rewrite Hop, frameTypeFromOpcode_write|lia].
  destruct (wire_body f rest Hkey) as (H4 & Hfit & Hbody). cbv zeta in *.
  set (tail := _ ++ rest) in *. set (m := f_masked f) in *. clearbody tail.
  rewrite Hfin, H4, (proj2 (Z.ltb_ge _ _) Hfit), copy_at by done.
  replace (Z.to_nat (zlen (f_payload f))) with (length (f_payload f)) by (unfold zlen; lia).
  rewrite Hbody. replace (isControlFrame (f_type f) && _) with false; last first.
  { destruct (isControlFrame _); [|done]. destruct Hctl as [-> Hc]; [done|].
    by rewrite (proj2 (Z.ltb_ge _ _) Hc). }
  case_bool_decide as Et; [|done]. apply Hclose, isValidClosePayload_spec in Et. by rewrite Et.
Qed.

(** Everything the decoder accepts starts with the wire image of a valid frame. *)
Lemma decode_sound data meta payload md :
  decodeFrameString data meta = (true, payload, md) ->
  exists f rest, data = wire f ++ rest ∧ valid_frame f ∧ payload = f_payload f ∧ md = meta_of f.
Proof.
  intros H. destruct data as [|b0 [|b1 tail0]]; [done..|].
  assert (Hpre : exists t len off, Z.land (bz b0) 0x70 = 0 ∧
    frameTypeFromOpcode (Z.land (bz b0) 0x0F) = Some t ∧
    readPayloadLength (b0 :: b1 :: tail0) (bz b1) = Some (len, off)).
  { unfold decodeFrameString, decodeFrameWith in H.
    change (length _ <? 2)%nat with false in H. cbv iota in H.
    change (byteAt (b0 :: b1 :: tail0) 0) with (bz b0) in H.
    change (byteAt (b0 :: b1 :: tail0) 1) with (bz b1) in H.
    destruct (Z.eqb_spec (Z.land (bz b0) 0x70) 0); [|done]. cbn [negb] in H.
    destruct (frameTypeFromOpcode _) as [t|]; [|done].
    destruct (readPayloadLength _ _) as [[len off]|]; [|done]. by exists t, len, off. }
  destruct Hpre as (t & len & off & Hrsv & Ht & Hread).
  apply readPayloadLength_read in Hread as (tail & Hdata & _ & Hlen).
  set (m := negb (Z.land (bz b1) 0x80 =? 0)) in *. rewrite Hdata in H |- *.
  change (b0 :: writePayloadLength len m ++ tail) with
    ((b0 :: writePayloadLength len m) ++ tail) in H |- *.
  unfold decodeFrameString in H. rewrite (decode_at _ _ _ _ _ t) in H by done.
  set (fin := negb (Z.land (bz b0) 0x80 =? 0)) in *.
  destruct (isControlFrame t && _) eqn:Ectl; [done|].
  destruct (m && _) eqn:E4; [done|].
  destruct (Z.ltb_spec (zlen (if m then drop 4 tail else tail)) len) as [|Hfit]; [done|].
  rewrite copy_at in H by (done || lia). cbv zeta in H.
  set (body := take (Z.to_nat len) (if m then drop 4 tail else tail)).
  set (key := if m then Some (take 4 tail) else None).
  set (p := if m then applyMask (take 4 tail) body else body).
  assert (Hb : length body = Z.to_nat len) by (unfold body, zlen in *; rewrite length_take; lia).
  assert (Hp : zlen p = len)
    by (unfold p, zlen; destruct m; rewrite ?length_applyMask, Hb; lia).
  assert (Hpeq : (if m then applyMask (take 4 tail) (take (Z.to_nat len) (drop 4 tail))
    else take (Z.to_nat len) tail) = p) by (unfold p, body; by destruct m).
  rewrite Hpeq in H. destruct ((t =s Close) && _) eqn:Ecl; [done|]. injection H as <- <-.
  exists (mkFrame fin t key p), (drop (Z.to_nat len) (if m then drop 4 tail else tail)).
  assert (Hm : f_masked (mkFrame fin t key p) = m) by (unfold f_masked, key; by destruct m).
  split_and!.
  - rewrite wire_split. cbn [f_fin f_type f_mask f_payload]. rewrite Hm, Hp.
    rewrite <- (firstByte_read b0 t Hrsv Ht : b0 = zb (Z.lor (flag fin 0x80) _)). f_equal. unfold key, p. destruct m.
    + rewrite applyMask_involutive. unfold body. by rewrite <- app_assoc, !take_drop.
    + unfold body. by rewrite take_drop.
  - split; cbn [f_fin f_type f_mask f_payload].
    + lia.
    + unfold key. destruct m; [|done]. intros ? [= <-]. rewrite length_take.
      cbn [andb] in E4. apply Nat.ltb_ge in E4. lia.
    + intros Hc. rewrite Hc in Ectl. cbn [andb] in Ectl. apply orb_false_iff in Ectl as [Ef El].
      apply Z.ltb_ge in El. destruct fin; [split; [done | lia] | done].
    + intros ->. rewrite bool_decide_eq_true_2 in Ecl by done. by apply isValidClosePayload_spec, negb_false_iff.
  - done.
  - unfold meta_of. by rewrite Hm.
Qed.

(** ** The code's wire format is that of the document *)

Definition rfc_of (f : frame) : rfcFrame :=
  mkRfc (f_fin f) 0 (opcodeForType (f_type f)) (f_mask f) (f_payload f).

Lemma rfcTypes_opcode o t : (o, t) ∈ rfcTypes <-> o = opcodeForType t.
Proof.
  unfold rfcTypes. rewrite !elem_of_cons, elem_of_nil, !pair_equal_spec. destruct t; cbn; intuition congruence.
Qed.

Lemma rfc_of_type f : (r_opcode (rfc_of f), type (meta_of f)) ∈ rfcTypes.
Proof. by apply rfcTypes_opcode. Qed.

Lemma land_byte v : zb (Z.land v 255) = zb v.
Proof. apply bz_inj. rewrite be_byte0. by rewrite bz_zb. Qed.

Lemma secondByte_sum m n : 0 <= n < 128 -> Z.lor (flag m 128) n = (if m then 128 else 0) + n.
Proof.
  intros. destruct m; cbn [flag]; [|by rewrite Z.lor_0_l].
  change 128 with (Z.shiftl 1 7). by rewrite lor_low by lia.
Qed.

Lemma bigEndian_shifts n :
  bigEndian 2 n = [zb (Z.land (Z.shiftr n 8) 255); zb (Z.land n 255)] ∧
  bigEndian 8 n = (fun shift => zb (Z.land (Z.shiftr n shift) 255)) <$> [56; 48; 40; 32; 24; 16; 8; 0].
Proof.
  unfold bigEndian. cbn [seq fmap list_fmap]. rewrite !land_byte, !Z.shiftr_div_pow2 by lia.
  cbn -[Z.div]. by rewrite !Z.div_1_r.
Qed.

Lemma rfcLength_write m n : 0 <= n -> rfcLength m n = writePayloadLength n m.
Proof.
  intros. unfold rfcLength, writePayloadLength. fold (flag m 128).
  destruct (Z.leb_spec n 125), (Z.ltb_spec n 126); try lia; [by rewrite secondByte_sum by lia|].
  rewrite !secondByte_sum by lia. destruct (bigEndian_shifts n) as [-> ->]. done.
Qed.

Lemma rfc_of_wire f : rfcImage (rfc_of f) = wire f.
Proof.
  unfold rfcImage, wire. cbn [r_fin r_rsv r_opcode r_mask r_payload rfc_of].
  rewrite rfcLength_write by apply zlen_nonneg.
  replace (bool_decide (is_Some (f_mask f))) with (f_masked f) by (unfold f_masked; by destruct (f_mask f)).
  cbn [app]. f_equal. by destruct (f_fin f), (f_type f).
Qed.

Lemma rfc_of_framed f : valid_frame f -> rfcFramed (rfc_of f).
Proof.
  intros [? ? Hc _]. split; cbn; [done | | done | done |].
  { rewrite !elem_of_cons. destruct (f_type f); cbn; tauto. }
  intros. apply Hc. by destruct (f_type f).
Qed.

Lemma framed_valid f :
  rfcFramed (rfc_of f) -> (opcodeForType (f_type f) = 8 -> closeBody takenStatus (f_payload f)) -> valid_frame f.
Proof.
  intros [_ _ ? ? Hc] Hcl. split; [done..| |].
  - intros. apply Hc. cbn. by destruct (f_type f).
  - intros E. apply Hcl. by rewrite E.
Qed.

Lemma length_u64Bytes v : length (u64Bytes v) = 8%nat.
Proof. done. Qed.

Lemma length_fillRandomBytes rand k w r :
  (r < 8)%nat -> length (fillRandomBytes rand k w r) = (8 * w + r)%nat.
Proof.
  intros Hr. revert k. induction w as [|w IH]; intros k; cbn [fillRandomBytes].
  - destruct (Nat.ltb_spec 0 r); [rewrite length_take, length_u64Bytes; lia | simpl; lia].
  - rewrite length_app, IH, length_u64Bytes. lia.
Qed.

(** ** Claims *)

(** Decoding what [encodeFrame] produced, masked or not and followed by any
    further bytes of the stream, gives back the payload and the type. *)
Theorem encode_decode_roundtrip rand data t m rest meta :
  zlen data < 2 ^ 63 ->
  (isControlFrame t = true -> zlen data <= 125) ->
  (t = Close -> isValidClosePayload data = true) ->
  decodeFrameString (encodeFrame rand data t m ++ rest) meta = (true, data, mkMeta t true m).
Proof.
  intros Hlen Hctl Hclose. rewrite encodeFrame_wire, decode_wire.
  - by destruct m.
  - split; cbn [f_fin f_type f_mask f_payload]; [done| |by auto|by intros ?%Hclose%isValidClosePayload_spec].
    destruct m; [|done]. by intros ? [= <-].
Qed.

Lemma encode_decode_roundtrip_witness :
  decodeFrameString (encodeFrame (fun _ => 0x01020304) (str "Hello") Ping true ++ str "next")
    defaultMetadata = (true, str "Hello", mkMeta Ping true true).
Proof. apply encode_decode_roundtrip; [vm_compute; reflexivity | by vm_compute | done]. Defined.

(** C1. The decoder accepts an input exactly when it starts with a frame of RFC 6455: no
    reserved bits, one of the opcodes for text, binary, close, ping and pong, the length in
    the shortest form, a key of four bytes when masked, control frames whole and of at most
    125 bytes, a close body that is empty or has a status code. It then returns the payload
    unmasked, and the frame's type and bits. Two departures from the document are part of
    the statement: a frame with the opcode of a continuation is never accepted, and status
    codes from 5000 on are. *)
Theorem decode_accepts_iff data meta payload md :
  decodeFrameString data meta = (true, payload, md) <->
  ∃ f rest, data = rfcImage f ++ rest ∧ rfcFramed f ∧
    (r_opcode f, type md) ∈ rfcTypes ∧ (r_opcode f = 8 -> closeBody takenStatus (r_payload f)) ∧
    payload = r_payload f ∧ final md = r_fin f ∧ masked md = bool_decide (is_Some (r_mask f)).
Proof.
  split.
  - intros (f & rest & -> & Hv & -> & ->)%decode_sound. exists (rfc_of f), rest.
    rewrite rfc_of_wire. split_and!; [done | by apply rfc_of_framed | apply rfc_of_type | | done..|].
    + intros E. apply (vf_close f Hv). cbn in E. by destruct (f_type f).
    + cbn. unfold f_masked. by destruct (f_mask f).
  - intros ([fi rsv o mask p] & rest & -> & Hf & Ho%rfcTypes_opcode & Hc & -> & Hfin & Hm).
    pose proof (rf_rsv _ Hf) as E. cbn [r_rsv r_fin r_opcode r_mask r_payload] in *. subst rsv o.
    change (mkRfc fi 0 (opcodeForType (type md)) mask p) with (rfc_of (mkFrame fi (type md) mask p)) in *.
    rewrite rfc_of_wire, decode_wire by by apply framed_valid.
    destruct md as [t fin m]. cbn in *. subst. by destruct mask.
Qed.

(** The two copies of the payload are the same, so the overloads are. *)
Lemma decodeFrameBuffer_string data meta :
  decodeFrameBuffer data meta = decodeFrameString data meta.
Proof.
  unfold decodeFrameBuffer, decodeFrameString, decodeFrameWith. cbv zeta.
  destruct (length data <? 2)%nat; [done|]. destruct (negb (_ =? 0)); [done|].
  destruct (frameTypeFromOpcode _) as [t|]; [|done].
  destruct (readPayloadLength _ _) as [[len off]|]; [|done].
  destruct (isControlOpcode _ && _); [done|]. destruct (size_max <? len); [done|].
  destruct (_ && (length data <? off + 4)%nat); [done|].
  destruct ((length data <? _)%nat || _) eqn:E; [done|].
  apply orb_false_iff in E as [H1%Nat.ltb_ge H2%Z.ltb_ge]. unfold zlen in H2.
  rewrite copies_agree by lia. done.
Qed.

(** The string overload and the buffer overload agree on every input: same
    verdict, same payload left behind, same metadata. *)
Theorem decode_overloads_agree data meta :
  decodeFrameBuffer data meta = decodeFrameString data meta.
Proof. apply decodeFrameBuffer_string. Qed.

(** [createHandshakeKey] is always the base64 text of sixteen bytes, whatever
    the random engine returns. *)
Theorem handshake_key_decodes rand :
  exists entropy, length entropy = 16%nat ∧
    tryBase64Decode (createHandshakeKey rand) = Some entropy ∧
    zlen (createHandshakeKey rand) = 24.
Proof.
  exists (randomBytes rand 16).
  assert (H : length (randomBytes rand 16) = 16%nat) by (apply (length_fillRandomBytes rand 0 2 0); lia).
  split_and!; [done | apply decode_encode|].
  unfold createHandshakeKey, base64Encode. destruct (randomBytes rand 16) eqn:E; [done|].
  rewrite length_encodeBytes. unfold zlen. by rewrite H.
Qed.

(** The example of RFC 6455, section 1.3. *)
Example accept_key_rfc6455 :
  createAcceptKey (str "dGhlIHNhbXBsZSBub25jZQ==") = str "s3pPLMBiTxaQ9kYGzzhZRbK+xOo=".
Proof. vm_compute. reflexivity. Qed.

(** The two departures of [decode_accepts_iff] on concrete frames: an empty continuation, and
    a close frame with status code 5000. *)
Example departures :
  (decodeFrameString [x80; x00] defaultMetadata).1.1 = false ∧
  (decodeFrameString [x88; x02; x13; x88] defaultMetadata).1.1 = true.
Proof. by vm_compute. Qed.
