(* ===== verification/WebSocketFraming.v ===== *)
(** * Frames in a receive buffer

    What src/WebSocketServer.cpp and src/WebSocketClient.cpp do alike: [getFrameSize], and
    the attempt of the frame loop to take one frame off the front of the bytes received.
    The server bounds those bytes; the client also rejects masked frames. *)

From S2P Require Import Prelude WebSocketProtocol.

(** [getFrameSize]: 0 while the frame is incomplete.  The sum is a [uint64_t]. *)
Definition getFrameSize (data : list byte) : Z :=
  if (length data <? 2)%nat then 0
  else
    let lengthCode := Z.land (byteAt data 1) 0x7F in
    let finish (headerSize payloadLength : Z) :=
      let headerSize := if negb (Z.land (byteAt data 1) 0x80 =? 0) then headerSize + 4 else headerSize in
      if zlen data <? u64 (headerSize + payloadLength) then 0 else u64 (headerSize + payloadLength) in
    if lengthCode =? 126 then
      if (length data <? 4)%nat then 0
      else finish 4 (Z.lor (Z.shiftl (byteAt data 2) 8) (byteAt data 3))
    else if lengthCode =? 127 then
      if (length data <? 10)%nat then 0 else finish 10 (readBE64 data 2)
    else finish 2 lengthCode.

(** What the frame loop finds: nothing to do, too much data, an invalid frame, or a frame
    of the given size, which is then dropped from the buffer. *)
Inductive Taken :=
  | Nothing
  | TooLarge
  | Invalid
  | Took (frameType : WSFrameType) (payload : list byte) (frameSize : nat).

Definition exceeds (limit : option Z) (n : Z) : bool := if limit is Some l then l <? n else false.

Definition takeFrameWith (limit : option Z) (rejects : WSFrameMetadata -> bool) (pending : list byte) : Taken :=
  if exceeds limit (zlen pending) then TooLarge
  else
    let frameSize := getFrameSize pending in
    if (frameSize =? 0) || (zlen pending <? frameSize) then Nothing
    else
      let '(ok, payload, metadata) :=
        decodeFrameBuffer (take (Z.to_nat frameSize) pending) defaultMetadata in
      if negb ok || rejects metadata then Invalid
      else Took (type metadata) payload (Z.to_nat frameSize).

(** ** Frame boundaries in the byte stream *)

Lemma getFrameSize_app v d : getFrameSize v ≠ 0 -> getFrameSize (v ++ d) = getFrameSize v.
Proof.
  unfold getFrameSize. rewrite zlen_app, length_app.
  assert (Hb : ∀ i, (i < length v)%nat -> byteAt (v ++ d) i = byteAt v i)
    by (intros i Hi; unfold byteAt; by rewrite app_nth1).
  destruct (length v <? 2)%nat eqn:E; [done|]. apply Nat.ltb_ge in E. pose proof (zlen_nonneg d).
  rewrite (proj2 (Nat.ltb_ge (length v + length d) 2)), !(Hb 1%nat) by lia.
  assert (Hfin : ∀ x : Z, (if zlen v <? x then 0 else x) ≠ 0 ->
    (if zlen v + zlen d <? x then 0 else x) = (if zlen v <? x then 0 else x)).
  { intros x. destruct (Z.ltb_spec (zlen v) x), (Z.ltb_spec (zlen v + zlen d) x); done || lia. }
  destruct (Z.land (byteAt v 1) 127 =? 126).
  { destruct (length v <? 4)%nat eqn:E4; [done|]. apply Nat.ltb_ge in E4.
    rewrite (proj2 (Nat.ltb_ge (length v + length d) 4)), (Hb 2%nat), (Hb 3%nat) by lia. apply Hfin. }
  destruct (Z.land (byteAt v 1) 127 =? 127); [|apply Hfin].
  destruct (length v <? 10)%nat eqn:E10; [done|]. apply Nat.ltb_ge in E10.
  rewrite (proj2 (Nat.ltb_ge (length v + length d) 10)) by lia.
  assert (readBE64 (v ++ d) 2 = readBE64 v 2) as ->; [|apply Hfin].
  unfold readBE64. cbn. by rewrite !Hb by lia.
Qed.

Lemma getFrameSize_range v : 0 <= getFrameSize v <= zlen v.
Proof.
  pose proof (zlen_nonneg v) as Hv.
  assert (Hfin : ∀ x, 0 <= (if zlen v <? u64 x then 0 else u64 x) <= zlen v).
  { intros x. pose proof (Z.mod_pos_bound x (2 ^ 64) eq_refl) as Hx. fold (u64 x) in Hx.
    destruct (Z.ltb_spec (zlen v) (u64 x)); lia. }
  unfold getFrameSize. cbv zeta.
  destruct (length v <? 2)%nat; [lia|].
  destruct (Z.land (byteAt v 1) 127 =? 126); [destruct (length v <? 4)%nat; [lia|apply Hfin]|].
  destruct (Z.land (byteAt v 1) 127 =? 127); [destruct (length v <? 10)%nat; [lia|apply Hfin]|].
  apply Hfin.
Qed.

Lemma getFrameSize_read v len off :
  (2 <= length v)%nat -> readPayloadLength v (byteAt v 1) = Some (len, off) ->
  let total := u64 ((if negb (Z.land (byteAt v 1) 0x80 =? 0) then Z.of_nat off + 4 else Z.of_nat off) + len) in
  getFrameSize v = if zlen v <? total then 0 else total.
Proof.
  intros Hv. unfold readPayloadLength, getFrameSize. rewrite (proj2 (Nat.ltb_ge _ _) Hv).
  change (2 + 2)%nat with 4%nat. change (2 + 8)%nat with 10%nat.
  destruct (Z.land (byteAt v 1) 127 =? 126).
  { destruct (length v <? 4)%nat; [done|]. case_match; [done|]. by intros [= <- <-]. }
  destruct (Z.land (byteAt v 1) 127 =? 127); [|by intros [= <- <-]].
  destruct (length v <? 10)%nat; [done|]. case_match; [done|]. by intros [= <- <-].
Qed.

(** An incomplete length field. *)
Lemma getFrameSize_short v f rest :
  (length v < S (length (writePayloadLength (zlen (f_payload f)) (f_masked f))))%nat ->
  v `prefix_of` wire f ++ rest -> getFrameSize v = 0.
Proof.
  intros Hl [x Hx]. rewrite wire_split in Hx. unfold getFrameSize.
  destruct v as [|b0 [|b1 v]]; [done..|]. cbn [length] in *.
  rewrite (proj2 (Nat.ltb_ge _ _)) by lia. unfold writePayloadLength in *.
  destruct (zlen (f_payload f) <? 126); [cbn in Hl; lia|].
  fold (flag (f_masked f) 0x80) in Hx.
  destruct (zlen (f_payload f) <=? 0xFFFF); cbn in Hl, Hx; injection Hx as _ <- Hx; unfold byteAt; cbn [nth].
  - destruct (secondByte_write (f_masked f) 126) as [-> _]; [lia|]. cbn.
    by rewrite (proj2 (Nat.leb_le _ _)) by lia.
  - destruct (secondByte_write (f_masked f) 127) as [-> _]; [lia|]. cbn.
    by rewrite (proj2 (Nat.leb_le _ _)) by lia.
Qed.

Lemma zlen_wire f : (∀ key, f_mask f = Some key -> length key = 4%nat) ->
  zlen (wire f) = Z.of_nat (S (length (writePayloadLength (zlen (f_payload f)) (f_masked f)))) +
    (if f_masked f then 4 else 0) + zlen (f_payload f).
Proof.
  intros Hkey. rewrite <- (app_nil_r (wire f)), wire_split, app_nil_r, zlen_app.
  unfold f_masked. destruct (f_mask f) as [key|]; [rewrite zlen_app|];
    unfold zlen; rewrite ?length_applyMask, ?(Hkey _ eq_refl); cbn [length]; lia.
Qed.

(** On a prefix of a stream that starts with a frame, [getFrameSize] is that frame's size
    once the frame is there, and 0 before. *)
Lemma getFrameSize_wire v f rest :
  valid_frame f -> v `prefix_of` wire f ++ rest ->
  getFrameSize v = if zlen v <? zlen (wire f) then 0 else zlen (wire f).
Proof.
  intros [Hlen Hkey _ _] Hpre. pose proof (zlen_nonneg (f_payload f)) as Hp.
  pose proof (zlen_wire f Hkey) as Hw. set (lb := writePayloadLength _ _) in *.
  destruct (Nat.lt_ge_cases (length v) (S (length lb))) as [Hs|Hs].
  - rewrite (getFrameSize_short v f rest Hs Hpre). rewrite (proj2 (Z.ltb_lt _ _)); [done|].
    unfold zlen at 1. destruct (f_masked f); lia.
  - destruct Hpre as [x Hx]. rewrite wire_split in Hx. fold lb in Hx.
    assert (Hv : ∃ tail, v = (zb (Z.lor (flag (f_fin f) 0x80) (opcodeForType (f_type f))) :: lb) ++ tail).
    { apply (f_equal (take (length v))) in Hx. rewrite take_app_length, take_app_ge in Hx by exact Hs. eauto. }
    destruct Hv as [tail ->].
    destruct (readPayloadLength_write (zlen (f_payload f)) (f_masked f)
      (zb (Z.lor (flag (f_fin f) 0x80) (opcodeForType (f_type f)))) tail ltac:(lia)) as [Hr Hm].
    fold lb in Hr, Hm. cbn [app] in *.
    assert (H1 : (1 <= length lb)%nat) by (unfold lb, writePayloadLength; repeat case_match; cbn; lia).
    rewrite (fun H => getFrameSize_read _ _ _ H Hr) by (cbn; rewrite length_app; lia). cbv zeta. rewrite Hm. set (lenb := Z.of_nat (S (length lb))) in *.
    assert (Hlb : 0 <= lenb <= 10).
    { unfold lenb, lb, writePayloadLength. repeat case_match; cbn; lia. }
    replace ((if f_masked f then lenb + 4 else lenb) + zlen (f_payload f)) with (zlen (wire f))
      by (destruct (f_masked f); lia).
    unfold u64. rewrite Z.mod_small; [done|]. destruct (f_masked f); lia.
Qed.

(** ** Taking a frame *)

Section Taking.
Context (limit : option Z) (rejects : WSFrameMetadata -> bool).

Lemma exceeds_le n m : n <= m -> exceeds limit m = false -> exceeds limit n = false.
Proof. unfold exceeds. destruct limit; [|done]. rewrite !Z.ltb_ge. lia. Qed.

(** More data does not change what the first complete frame is. *)
Lemma takeFrameWith_app v d :
  exceeds limit (zlen (v ++ d)) = false ->
  match takeFrameWith limit rejects v with
  | Nothing => True
  | TooLarge => False
  | Invalid => takeFrameWith limit rejects (v ++ d) = Invalid
  | Took t p n => takeFrameWith limit rejects (v ++ d) = Took t p n ∧ (0 < n <= length v)%nat
  end.
Proof.
  intros Hb. pose proof (getFrameSize_range v) as Hr. pose proof (zlen_nonneg d).
  unfold takeFrameWith. rewrite Hb. rewrite zlen_app in *.
  rewrite (exceeds_le (zlen v) (zlen v + zlen d) ltac:(lia) Hb).
  destruct (getFrameSize v =? 0) eqn:E; [done|]. apply Z.eqb_neq in E.
  rewrite getFrameSize_app by done. rewrite (proj2 (Z.eqb_neq _ _) E).
  rewrite !(proj2 (Z.ltb_ge _ _)) by lia. cbn [orb]. rewrite take_app_le by (unfold zlen in Hr; lia).
  destruct (decodeFrameBuffer _ _) as [[ok p] m].
  destruct (negb ok || rejects m); [done|]. split; [done|]. unfold zlen in Hr. lia.
Qed.

Lemma takeFrameWith_wire v f rest :
  valid_frame f -> rejects (meta_of f) = false -> v `prefix_of` wire f ++ rest -> exceeds limit (zlen v) = false ->
  takeFrameWith limit rejects v = if zlen v <? zlen (wire f) then Nothing else Took (f_type f) (f_payload f) (length (wire f)).
Proof.
  intros Hf Hrej Hpre Hb. unfold takeFrameWith. rewrite Hb.
  rewrite (getFrameSize_wire v f rest Hf Hpre). destruct (Z.ltb_spec (zlen v) (zlen (wire f))) as [|Hge]; [done|].
  assert (0 < zlen (wire f)) by (rewrite zlen_wire by apply Hf; pose proof (zlen_nonneg (f_payload f)); destruct (f_masked f); lia).
  rewrite (proj2 (Z.eqb_neq _ _)), (proj2 (Z.ltb_ge _ _)) by lia. cbn [orb].
  assert (Hv : take (Z.to_nat (zlen (wire f))) v = wire f ++ []).
  { destruct Hpre as [x Hx]. rewrite app_nil_r. unfold zlen in *. rewrite Nat2Z.id.
    rewrite <- (take_app_le v x) by lia. rewrite <- Hx. by rewrite take_app_length. }
  rewrite Hv, decodeFrameBuffer_string, decode_wire by done. cbn [negb orb]. rewrite Hrej.
  unfold zlen. by rewrite Nat2Z.id.
Qed.

End Taking.

(** ** Messages *)

(** A message as an endpoint sends it. *)
Record Message := mkMessage {
  m_binary : bool;
  m_data : list byte;
  m_masked : bool;
  m_rand : nat -> Z
}.

Definition encodeMessage (m : Message) : list byte :=
  encodeFrame (m_rand m) (m_data m) (if m_binary m then Binary else Text) (m_masked m).

Definition messageFrame (m : Message) : frame :=
  mkFrame true (if m_binary m then Binary else Text)
    (if m_masked m then Some (generateMaskKey (m_rand m)) else None) (m_data m).

Lemma encodeMessage_wire m : encodeMessage m = wire (messageFrame m).
Proof. apply encodeFrame_wire. Qed.
