(* ===== verification/HttpParser.v ===== *)
(** * HTTP message parsing and formatting (src/HttpParser.cpp)

    A [std::string_view] is the byte list it views and [npos] is [None].  A parser
    that returns [false] leaves its out-parameter cleared, so it returns an
    [option]; [parseChunked], whose buffer survives a failure and which can throw,
    has an outcome type of its own.  Loops over an [offset] recurse on what lies
    after the offset, with fuel one more than the length of the text. *)

From S2P Require Import Prelude CType.

Definition kMaxHeaderSectionSize : Z := 64 * 1024.
Definition kMaxRequestLineSize : Z := 4096.
Definition kMaxStatusLineSize : Z := 4096.
Definition kMaxHeaderLineSize : Z := 8192.
Definition kMaxHeaderCount : Z := 128.
Definition kChunkedEncodeBlockSize : Z := 8192.

(** ** Text helpers *)

Fixpoint trimLeft (s : list byte) : list byte :=
  match s with
  | c :: s' => if isspace c then trimLeft s' else s
  | [] => []
  end.

(** [HttpParser::trim]: the first loop moves [begin] up, the second [end] down. *)
Definition trim (s : list byte) : list byte := reverse (trimLeft (reverse (trimLeft s))).

Definition caseInsensitiveCompare (a b : list byte) : bool :=
  if negb (length a =? length b)%nat then false
  else forallb (fun p => tolower p.1 =b tolower p.2) (zip a b).

(** The pieces of [s] between occurrences of [ch]: the loops
    [while (offset <= s.size()) { pos = s.find(ch, offset); ... }] visit them in order. *)
Fixpoint splitOn (ch : byte) (s : list byte) : list (list byte) :=
  match s with
  | [] => [[]]
  | c :: s' =>
      if c =b ch then [] :: splitOn ch s'
      else match splitOn ch s' with
           | p :: ps => (c :: p) :: ps
           | [] => [[c]]
           end
  end.

Definition isTokenCharacter (ch : byte) : bool :=
  bool_decide (ch ∈ str "!#$%&'*+-.^_`|~") || isalnum ch.

Definition isValidHeaderName (headerName : list byte) : bool :=
  match headerName with
  | [] => false
  | _ => forallb isTokenCharacter headerName
  end.

Definition isValidHttpVersion (version : list byte) : bool :=
  if negb (zlen version =? 8) || negb (take 5 version =s str "HTTP/") then false
  else isdigit (nth 5 version x00) && (nth 6 version x00 =b x2e) && isdigit (nth 7 version x00).

(** ** Numbers *)

(** One digit of a [size_t] accumulated in base [base], with the overflow test of the code. *)
Definition accumulate (base result digit : Z) : option Z :=
  if (size_max - digit) / base <? result then None else Some (result * base + digit).

Fixpoint decimalLoop (result : Z) (value : list byte) : option Z :=
  match value with
  | [] => Some result
  | ch :: value' =>
      if negb (isdigit ch) then None
      else r ← accumulate 10 result (bz ch - 48); decimalLoop r value'
  end.

Definition parseUnsignedDecimal (value : list byte) : option Z :=
  match value with
  | [] => None
  | _ => decimalLoop 0 value
  end.

Definition hexDigitValue (ch : byte) : Z :=
  if in_range 48 57 ch then bz ch - 48
  else if in_range 65 70 ch then bz ch - 65 + 10
  else if in_range 97 102 ch then bz ch - 97 + 10
  else -1.

Fixpoint hexLoop (result : Z) (value : list byte) : option Z :=
  match value with
  | [] => Some result
  | ch :: value' =>
      let digit := hexDigitValue ch in
      if digit <? 0 then None
      else r ← accumulate 16 result digit; hexLoop r value'
  end.

Definition parseHexSize (value : list byte) : option Z :=
  let value := trim value in
  match value with
  | [] => None
  | _ => hexLoop 0 value
  end.

(** [std::to_chars] on an unsigned value: digits most significant first. *)
Definition digitChar (d : Z) : byte := if d <? 10 then zb (48 + d) else zb (97 + (d - 10)).

Fixpoint toCharsLoop (fuel : nat) (base value : Z) (acc : list byte) : list byte :=
  let acc := digitChar (value mod base) :: acc in
  match fuel with
  | O => acc
  | S fuel => if value <? base then acc else toCharsLoop fuel base (value / base) acc
  end.

(** A [size_t] has at most 64 digits in any base. *)
Definition toChars (base value : Z) : list byte := toCharsLoop 64 base value [].

Definition appendUnsignedDecimal (output : list byte) (value : Z) : list byte :=
  output ++ toChars 10 value.
Definition appendUnsignedHex (output : list byte) (value : Z) : list byte :=
  output ++ toChars 16 value.
Definition appendSignedDecimal (output : list byte) (value : Z) : list byte :=
  output ++ (if value <? 0 then x2d :: toChars 10 (- value) else toChars 10 value).

Fixpoint digitCountLoop (fuel : nat) (base value digits : Z) : Z :=
  match fuel with
  | O => digits
  | S fuel => if base <=? value then digitCountLoop fuel base (value / base) (digits + 1) else digits
  end.

Definition decimalDigitCount (value : Z) : Z := digitCountLoop 64 10 value 1.
Definition hexDigitCount (value : Z) : Z := digitCountLoop 64 16 value 1.

(** ** Headers *)

Definition getHeader (headers : strmap) (name : list byte) : option (list byte) :=
  snd <$> find (fun h => caseInsensitiveCompare h.1 name) headers.

Definition contentLengthFromHeaders (headers : strmap) : option Z :=
  match find (fun h => caseInsensitiveCompare h.1 (str "Content-Length")) headers with
  | Some (_, value) => parseUnsignedDecimal (trim value)
  | None => None
  end.

Definition containsToken (headerValue token : list byte) : bool :=
  existsb (fun current => caseInsensitiveCompare (trim current) token) (splitOn x2c headerValue).

Definition isChunkedEncoding (headers : strmap) : bool :=
  existsb (fun h => caseInsensitiveCompare h.1 (str "Transfer-Encoding") &&
                    containsToken h.2 (str "chunked")) headers.

(** [assignMessageBody]: [None] is [return false], else the new body. *)
Definition assignMessageBody (remaining : list byte) (headers : strmap) : option (list byte) :=
  if isChunkedEncoding headers then Some remaining
  else match contentLengthFromHeaders headers with
  | None => Some remaining
  | Some contentLength =>
      if zlen remaining <? contentLength then None
      else Some (take (Z.to_nat contentLength) remaining)
  end.

(** The local variables of the header loop. *)
Record headerState := mkHS {
  hs_headers : strmap;
  hs_count : Z;
  hs_sawContentLength : bool;
  hs_sawTransferEncoding : bool
}.

(** The body of the loop on one line: [None] is [return false]. *)
Definition parseHeaderLine (line : list byte) (st : headerState) : option headerState :=
  if (zlen line =? 0) || (kMaxHeaderLineSize <? zlen line) ||
     (nth 0 line x00 =b SP) || (nth 0 line x00 =b x09) then None
  else match find_from x3a line with
  | None => None
  | Some colon =>
      if (colon =? 0)%nat then None
      else
        let name := trim (take colon line) in
        let value := trim (drop (S colon) line) in
        if negb (isValidHeaderName name) then None
        else
          let isCL := caseInsensitiveCompare name (str "Content-Length") in
          let isTE := negb isCL && caseInsensitiveCompare name (str "Transfer-Encoding") in
          if isCL && (hs_sawContentLength st || bool_decide (parseUnsignedDecimal value = None))
          then None
          else if isTE && hs_sawTransferEncoding st then None
          else
            let cl := hs_sawContentLength st || isCL in
            let te := hs_sawTransferEncoding st || isTE in
            if cl && te then None
            else
              let headers := map_set name value (hs_headers st) in
              let count := hs_count st + 1 in
              if kMaxHeaderCount <? count then None
              else Some (mkHS headers count cl te)
  end.

(** [rest] is [headerLines] from [offset] on. *)
Fixpoint parseHeaderLoop (fuel : nat) (rest : list byte) (st : headerState) : option strmap :=
  match fuel with
  | O => None
  | S fuel =>
      match rest with
      | [] => Some (hs_headers st)
      | _ =>
          match find_sub CRLF rest with
          | None => hs_headers <$> parseHeaderLine rest st
          | Some lineEnd =>
              st' ← parseHeaderLine (take lineEnd rest) st;
              parseHeaderLoop fuel (drop (lineEnd + 2) rest) st'
          end
      end
  end.

Definition parseHeaderLines (headerLines : list byte) : option strmap :=
  parseHeaderLoop (S (length headerLines)) headerLines (mkHS [] 0 false false).

Definition hasNoResponseBody (statusCode : Z) : bool :=
  ((100 <=? statusCode) && (statusCode <? 200)) || (statusCode =? 204) || (statusCode =? 304).

(** ** Views *)

Record HttpRequestView := mkRequest {
  rq_method : list byte;
  rq_target : list byte;
  rq_uri : list byte;
  rq_queryString : list byte;
  rq_version : list byte;
  rq_headers : strmap;
  rq_body : list byte;
  rq_queryParams : strmap
}.

Record HttpResponseView := mkResponse {
  rs_statusCode : Z;
  rs_statusMessage : list byte;
  rs_version : list byte;
  rs_headers : strmap;
  rs_body : list byte
}.

(** [HttpRequestView::clear] and [HttpResponseView::clear]. *)
Definition clearedRequest : HttpRequestView := mkRequest [] [] [] [] [] [] [] [].
Definition clearedResponse : HttpResponseView := mkResponse 200 (str "OK") [] [] [].

Definition getContentLength (headers : strmap) : Z := default 0 (contentLengthFromHeaders headers).

(** [isKeepAlive] of both views. *)
Definition isKeepAlive (version : list byte) (headers : strmap) : bool :=
  let connection := getHeader headers (str "Connection") in
  if caseInsensitiveCompare version (str "HTTP/1.0") then
    match connection with
    | Some v => containsToken v (str "keep-alive")
    | None => false
    end
  else match connection with
  | Some v => negb (containsToken v (str "close"))
  | None => true
  end.

(** ** Query strings *)

Definition addQueryPair (params : strmap) (pair : list byte) : strmap :=
  match pair with
  | [] => params
  | _ =>
      match find_from x3d pair with
      | None => map_set pair [] params
      | Some equals => map_set (take equals pair) (drop (S equals) pair) params
      end
  end.

Definition parseQueryString (query : list byte) : strmap :=
  let query := match query with
    | c :: q => if c =b x3f then q else query
    | [] => query
    end in
  fold_left addQueryPair (splitOn x26 query) [].

(** ** Requests *)

(** The URI, query string and parameters of a target, its fragment dropped. *)
Definition splitTarget (target : list byte) : list byte * list byte * strmap :=
  let targetWithoutFragment :=
    match find_from x23 target with None => target | Some p => take p target end in
  match find_from x3f targetWithoutFragment with
  | None => (targetWithoutFragment, [], [])
  | Some queryPos =>
      let q := drop (S queryPos) targetWithoutFragment in
      (take queryPos targetWithoutFragment, q, parseQueryString q)
  end.

Definition parseRequestHead (data : list byte) : option HttpRequestView :=
  if bool_decide (data = []) then None
  else match find_sub (CRLF ++ CRLF) data with
  | None => None
  | Some headerEnd =>
  if kMaxHeaderSectionSize <? Z.of_nat headerEnd then None
  else match find_sub CRLF data with
  | None => None
  | Some requestLineEnd =>
  if kMaxRequestLineSize <? Z.of_nat requestLineEnd then None
  else
    let requestLine := take requestLineEnd data in
    match find_from SP requestLine with
    | None => None
    | Some firstSpace =>
    if (firstSpace =? 0)%nat then None
    else match sv_find_char requestLine SP (S firstSpace) with
    | None => None
    | Some secondSpace =>
    if (secondSpace =? S firstSpace)%nat then None
    else if bool_decide (sv_find_char requestLine SP (S secondSpace) = None) then
      let method := take firstSpace requestLine in
      let target := sv_substr requestLine (S firstSpace)
                      (Z.of_nat secondSpace - Z.of_nat firstSpace - 1) in
      let version := drop (S secondSpace) requestLine in
      if negb (isValidHeaderName method) || bool_decide (target = []) ||
         negb (isValidHttpVersion version) then None
      else
        let '(uri, queryString, queryParams) := splitTarget target in
        let headerLinesOffset := (requestLineEnd + 2)%nat in
        let headerLines := sv_substr data headerLinesOffset
                             (u64 (Z.of_nat headerEnd - Z.of_nat headerLinesOffset)) in
        match parseHeaderLines headerLines with
        | None => None
        | Some headers =>
            Some (mkRequest method target uri queryString version headers [] queryParams)
        end
    else None
    end
    end
  end
  end.

Definition parseRequest (data : list byte) : option HttpRequestView :=
  match parseRequestHead data with
  | None => None
  | Some r =>
      let headerEnd := default 0%nat (find_sub (CRLF ++ CRLF) data) in
      let remaining := drop (headerEnd + 4) data in
      match assignMessageBody remaining (rq_headers r) with
      | None => None
      | Some body =>
          Some (mkRequest (rq_method r) (rq_target r) (rq_uri r) (rq_queryString r)
                  (rq_version r) (rq_headers r) body (rq_queryParams r))
      end
  end.

(** ** Responses *)

Fixpoint statusCodeLoop (statusCode : Z) (codeText : list byte) : option Z :=
  match codeText with
  | [] => Some statusCode
  | ch :: rest =>
      if negb (isdigit ch) then None
      else statusCodeLoop (statusCode * 10 + (bz ch - 48)) rest
  end.

Definition parseResponseHead (data : list byte) : option HttpResponseView :=
  if bool_decide (data = []) then None
  else match find_sub (CRLF ++ CRLF) data with
  | None => None
  | Some headerEnd =>
  if kMaxHeaderSectionSize <? Z.of_nat headerEnd then None
  else match find_sub CRLF data with
  | None => None
  | Some statusLineEnd =>
  if kMaxStatusLineSize <? Z.of_nat statusLineEnd then None
  else
    let statusLine := take statusLineEnd data in
    match find_from SP statusLine with
    | None => None
    | Some firstSpace =>
    if (firstSpace =? 0)%nat then None
    else match sv_find_char statusLine SP (S firstSpace) with
    | None => None
    | Some secondSpace =>
    if (secondSpace =? S firstSpace)%nat then None
    else
      let version := take firstSpace statusLine in
      let codeText := sv_substr statusLine (S firstSpace)
                        (Z.of_nat secondSpace - Z.of_nat firstSpace - 1) in
      let statusMessage := trim (drop (S secondSpace) statusLine) in
      if negb (isValidHttpVersion version) || negb (zlen codeText =? 3) then None
      else match statusCodeLoop 0 codeText with
      | None => None
      | Some statusCode =>
          let headerLinesOffset := (statusLineEnd + 2)%nat in
          let headerLines := sv_substr data headerLinesOffset
                               (u64 (Z.of_nat headerEnd - Z.of_nat headerLinesOffset)) in
          match parseHeaderLines headerLines with
          | None => None
          | Some headers => Some (mkResponse statusCode statusMessage version headers [])
          end
      end
    end
    end
  end
  end.

Definition parseResponse (data : list byte) : option HttpResponseView :=
  match parseResponseHead data with
  | None => None
  | Some r =>
      let headerEnd := default 0%nat (find_sub (CRLF ++ CRLF) data) in
      let remaining := drop (headerEnd + 4) data in
      let withBody b := mkResponse (rs_statusCode r) (rs_statusMessage r) (rs_version r)
                          (rs_headers r) b in
      if hasNoResponseBody (rs_statusCode r) then Some (withBody [])
      else match assignMessageBody remaining (rs_headers r) with
      | None => None
      | Some body => Some (withBody body)
      end
  end.

(** ** Chunked coding *)

(** What a call of [parseChunked] does: return a bool with the bytes left in
    [body], or throw [std::length_error] out of [body.append]. *)
Inductive chunkedOutcome :=
  | Returned (ok : bool) (body : list byte)
  | LengthError.

(** The trailer loop: [Some b] is [return b]. *)
Fixpoint trailerLoop (fuel : nat) (data : list byte) (offset : nat) : bool :=
  match fuel with
  | O => false
  | S fuel =>
      match sv_find data CRLF offset with
      | None => false
      | Some trailerEnd =>
          let trailerLine := take (trailerEnd - offset) (drop offset data) in
          let offset := (trailerEnd + 2)%nat in
          match trailerLine with
          | [] => (offset =? length data)%nat
          | _ =>
              match find_from x3a trailerLine with
              | None => false
              | Some colon =>
                  if negb (isValidHeaderName (trim (take colon trailerLine))) then false
                  else trailerLoop fuel data offset
              end
          end
      end
  end.

(** The chunk-size line: extension cut off, hexadecimal. *)
Definition chunkSizeOfLine (line : list byte) : option Z :=
  let sizeLine := trim line in
  let sizeLine := match find_from x3b sizeLine with
    | None => sizeLine
    | Some p => trim (take p sizeLine)
    end in
  parseHexSize sizeLine.

(** [std::string::append] throws when the size would pass [max_size()], at most
    [PTRDIFF_MAX] on every implementation. *)
Definition string_max_size : Z := 2 ^ 63 - 1.

Fixpoint chunkLoop (fuel : nat) (data : list byte) (offset : nat) (body : list byte)
    : chunkedOutcome :=
  match fuel with
  | O => Returned false body
  | S fuel =>
      if (length data <=? offset)%nat then Returned false body
      else match sv_find data CRLF offset with
      | None => Returned false body
      | Some lineEnd =>
          match chunkSizeOfLine (take (lineEnd - offset) (drop offset data)) with
          | None => Returned false body
          | Some chunkSize =>
              let offset := (lineEnd + 2)%nat in
              if chunkSize =? 0 then
                Returned (trailerLoop (S (length data)) data offset) body
              else if zlen data <? u64 (Z.of_nat offset + chunkSize + 2) then Returned false body
              else if string_max_size <? zlen body + chunkSize then LengthError
              else
                let body := body ++ take (Z.to_nat chunkSize) (drop offset data) in
                let offset := (offset + Z.to_nat chunkSize)%nat in
                if negb (take 2 (drop offset data) =s CRLF) then Returned false body
                else chunkLoop fuel data (offset + 2) body
          end
      end
  end.

Definition parseChunked (data : list byte) : chunkedOutcome :=
  chunkLoop (S (length data)) data 0 [].

(** The encoder's loop on the data from [offset] on. *)
Fixpoint buildChunkedLoop (fuel : nat) (rest : list byte) : list byte :=
  match fuel, rest with
  | S fuel, _ :: _ =>
      let chunkSize := Z.min kChunkedEncodeBlockSize (zlen rest) in
      let n := Z.to_nat chunkSize in
      toChars 16 chunkSize ++ CRLF ++ take n rest ++ CRLF ++ buildChunkedLoop fuel (drop n rest)
  | _, _ => []
  end.

Definition buildChunked (data : list byte) : list byte :=
  buildChunkedLoop (length data) data ++ str "0" ++ CRLF ++ CRLF.

(** ** Message building *)

Definition appendHeaderLine (output name value : list byte) : list byte :=
  output ++ name ++ str ": " ++ value ++ CRLF.

Definition estimateHeaderBytes (headers : strmap) : Z :=
  fold_left (fun total h => total + (zlen h.1 + 2 + zlen h.2 + 2)) headers 0.

Definition appendHeaders (output : list byte) (headers : strmap) (body : list byte) : list byte :=
  let isCL h := caseInsensitiveCompare h.1 (str "Content-Length") in
  let isTE h := caseInsensitiveCompare h.1 (str "Transfer-Encoding") in
  let hasContentLength := existsb (fun h : list byte * list byte => isCL h) headers in
  let hasTransferEncoding :=
    existsb (fun h : list byte * list byte => negb (isCL h) && isTE h) headers in
  let output := fold_left (fun out h => appendHeaderLine out h.1 h.2) headers output in
  if negb hasTransferEncoding && negb hasContentLength then
    appendUnsignedDecimal (output ++ str "Content-Length: ") (zlen body) ++ CRLF
  else output.

Definition requestReserve (method uri : list byte) (headers : strmap) (body : list byte) : Z :=
  zlen method + zlen uri + zlen body + estimateHeaderBytes headers +
  decimalDigitCount (zlen body) + 32.

Definition buildRequest (method uri : list byte) (headers : strmap) (body : list byte) : list byte :=
  let request := method ++ [SP] ++ uri ++ str " HTTP/1.1" ++ CRLF in
  appendHeaders request headers body ++ CRLF ++ body.

Definition buildResponse (statusCode : Z) (statusMessage : list byte) (headers : strmap)
    (body : list byte) : list byte :=
  let response := appendSignedDecimal (str "HTTP/1.1 ") statusCode ++ [SP] ++
                  statusMessage ++ CRLF in
  appendHeaders response headers body ++ CRLF ++ body.

(** ** URL coding *)

Fixpoint urlDecode (encoded : list byte) : list byte :=
  match encoded with
  | [] => []
  | c :: rest =>
      let plain := if c =b x2b then SP else c in
      match rest with
      | h :: l :: rest' =>
          let high := hexDigitValue h in
          let low := hexDigitValue l in
          if (c =b x25) && (0 <=? high) && (0 <=? low)
          then zb (Z.lor (Z.shiftl high 4) low) :: urlDecode rest'
          else plain :: urlDecode rest
      | _ => plain :: urlDecode rest
      end
  end.

Definition kHexDigitsUpper : list byte := str "0123456789ABCDEF".

Definition isUnreserved (ch : byte) : bool :=
  isalnum ch || (ch =b x2d) || (ch =b x5f) || (ch =b x2e) || (ch =b x7e).

Fixpoint urlEncode (raw : list byte) : list byte :=
  match raw with
  | [] => []
  | ch :: rest =>
      if isUnreserved ch then ch :: urlEncode rest
      else x25 :: nth (Z.to_nat (Z.land (Z.shiftr (bz ch) 4) 15)) kHexDigitsUpper x00
               :: nth (Z.to_nat (Z.land (bz ch) 15)) kHexDigitsUpper x00 :: urlEncode rest
  end.

(** ** Numbers: the loops compute the value of the digits *)

(** Both number loops are one loop over a digit function. *)
Fixpoint numLoop (base : Z) (dig : byte -> Z) (result : Z) (value : list byte) : option Z :=
  match value with
  | [] => Some result
  | ch :: value' =>
      if dig ch <? 0 then None
      else r ← accumulate base result (dig ch); numLoop base dig r value'
  end.

Definition decDigit (ch : byte) : Z := if isdigit ch then bz ch - 48 else -1.

(** The number a digit string denotes, started from [r]. *)
Definition valueFrom (base : Z) (dig : byte -> Z) (r : Z) (s : list byte) : Z :=
  fold_left (fun acc ch => acc * base + dig ch) s r.

Lemma decimalLoop_num r s : decimalLoop r s = numLoop 10 decDigit r s.
Proof.
  revert r. induction s as [|c s IH]; intros r; [done|]. cbn [decimalLoop numLoop].
  destruct (isdigit c) eqn:E; cbn [negb];
    [|by replace (decDigit c) with (-1) by (unfold decDigit; by rewrite E)].
  replace (decDigit c) with (bz c - 48) by (unfold decDigit; by rewrite E).
  apply isdigit_bz in E. rewrite (proj2 (Z.ltb_ge _ 0)) by lia.
  destruct (accumulate _ _ _); simpl; [apply IH | done].
Qed.

Lemma hexLoop_num r s : hexLoop r s = numLoop 16 hexDigitValue r s.
Proof.
  revert r. induction s as [|c s IH]; intros r; [done|]. cbn [hexLoop numLoop].
  destruct (_ <? 0); [done|]. destruct (accumulate _ _ _); simpl; [apply IH | done].
Qed.

Lemma accumulate_spec base r d :
  0 < base -> accumulate base r d = if r * base + d <=? size_max then Some (r * base + d) else None.
Proof.
  intros Hb. unfold accumulate.
  destruct (Z.ltb_spec ((size_max - d) / base) r) as [H|H], (Z.leb_spec (r * base + d) size_max) as [H'|H'];
    try done; exfalso.
  - assert (size_max - d < r * base); [|lia].
    rewrite Z.mul_comm. pose proof (Z.mul_succ_div_gt (size_max - d) base Hb). nia.
  - pose proof (Z.mul_div_le (size_max - d) base Hb). nia.
Qed.

Lemma valueFrom_ge base dig r s :
  1 <= base -> 0 <= r -> Forall (fun c => 0 <= dig c) s -> r <= valueFrom base dig r s.
Proof.
  intros Hb Hr Hs. revert r Hr. induction Hs as [|c s Hc Hs IH]; intros r Hr; simpl; [lia|].
  etrans; [|apply IH]; nia.
Qed.

(** The loop succeeds exactly on digit strings whose value fits a [size_t]. *)
Lemma numLoop_spec base dig r s n :
  1 <= base -> 0 <= r <= size_max ->
  numLoop base dig r s = Some n <->
  Forall (fun c => 0 <= dig c) s ∧ valueFrom base dig r s = n ∧ n <= size_max.
Proof.
  intros Hb. revert r. induction s as [|c s IH]; intros r Hr; simpl.
  - split; [intros [= <-]; split_and!; [constructor | done | lia] | intros (_ & <- & _); done].
  - rewrite Forall_cons. destruct (Z.ltb_spec (dig c) 0) as [Hd|Hd]; [split; [done | lia]|].
    rewrite accumulate_spec by lia. destruct (Z.leb_spec (r * base + dig c) size_max) as [Hm|Hm]; simpl.
    + rewrite IH by nia. tauto.
    + split; [done|]. intros ((_ & Hs) & <- & Hle). exfalso.
      pose proof (valueFrom_ge base dig (r * base + dig c) s Hb ltac:(nia) Hs). unfold valueFrom in *. lia.
Qed.

(** [to_chars] writes digits that denote the number. *)
Lemma toCharsLoop_value base dig fuel v acc :
  2 <= base -> (forall d, 0 <= d < base -> dig (digitChar d) = d) ->
  0 <= v < base ^ (Z.of_nat fuel + 1) -> Forall (fun c => 0 <= dig c) acc ->
  valueFrom base dig 0 (toCharsLoop fuel base v acc) = valueFrom base dig v acc ∧
  Forall (fun c => 0 <= dig c) (toCharsLoop fuel base v acc).
Proof.
  intros Hb Hdig. revert v acc. induction fuel as [|fuel IH]; intros v acc Hv Hacc.
  - rewrite Z.pow_1_r in Hv. cbn. rewrite Z.mod_small by lia. rewrite Hdig by lia. split; [done|].
    constructor; [rewrite Hdig; lia | done].
  - pose proof (Z.mod_pos_bound v base ltac:(lia)) as Hm.
    assert (Hacc' : Forall (fun c => 0 <= dig c) (digitChar (v mod base) :: acc)).
    { constructor; [rewrite Hdig; lia | done]. }
    cbn [toCharsLoop]. destruct (Z.ltb_spec v base).
    + split; [|done]. cbn. rewrite Hdig, Z.mod_small by lia. done.
    + destruct (IH (v / base) (digitChar (v mod base) :: acc)) as [H1 H2]; [|done|].
      { split; [apply Z.div_pos; lia|]. apply Z.div_lt_upper_bound; [lia|].
        replace (Z.of_nat (S fuel) + 1) with (Z.succ (Z.of_nat fuel + 1)) in Hv by lia.
        rewrite Z.pow_succ_r in Hv by lia. lia. }
      split; [|done]. rewrite H1. cbn. rewrite Hdig by lia. unfold valueFrom. f_equal.
      pose proof (Z.div_mod v base ltac:(lia)). lia.
Qed.

Lemma digitChar_dec d : 0 <= d < 10 -> decDigit (digitChar d) = d.
Proof.
  intros H. assert (d = 0 \/ d = 1 \/ d = 2 \/ d = 3 \/ d = 4 \/ d = 5 \/ d = 6 \/ d = 7 \/ d = 8 \/ d = 9)
    as Hc by lia. by repeat (destruct Hc as [->|Hc]; [done|]); subst.
Qed.

Lemma digitChar_hex d : 0 <= d < 16 -> hexDigitValue (digitChar d) = d.
Proof.
  intros H. assert (d < 10 \/ d = 10 \/ d = 11 \/ d = 12 \/ d = 13 \/ d = 14 \/ d = 15) as Hc by lia.
  destruct Hc as [Hlt|Hc]; [|by repeat (destruct Hc as [->|Hc]; [done|]); subst].
  unfold digitChar, hexDigitValue, in_range. rewrite (proj2 (Z.ltb_lt d 10)) by lia.
  rewrite bz_zb_small by lia. rewrite !(proj2 (Z.leb_le _ _)) by lia. cbn [andb]. lia.
Qed.

Lemma pow_fuel base v : 2 <= base -> 0 <= v <= size_max -> v < base ^ (Z.of_nat 64 + 1).
Proof.
  intros Hb Hv. unfold size_max in Hv. eapply Z.lt_le_trans with (2 ^ 65); [lia|].
  apply Z.pow_le_mono_l. lia.
Qed.

Lemma toCharsLoop_nonempty fuel base v acc : toCharsLoop fuel base v acc ≠ [].
Proof. revert v acc. induction fuel; intros; simpl; [done|]. case_match; [done | apply IHfuel]. Qed.

Lemma toChars_nonempty base v : toChars base v ≠ [].
Proof. apply toCharsLoop_nonempty. Qed.

Lemma parse_toChars_dec n : 0 <= n <= size_max -> parseUnsignedDecimal (toChars 10 n) = Some n.
Proof.
  intros Hn. unfold parseUnsignedDecimal.
  destruct (toCharsLoop_value 10 decDigit 64 n []) as [Hv Hd];
    [lia | apply digitChar_dec | pose proof (pow_fuel 10 n); lia | constructor |].
  change (toCharsLoop 64 10 n []) with (toChars 10 n) in *.
  destruct (toChars 10 n) eqn:E; [by apply toChars_nonempty in E|]. rewrite <- E in *.
  rewrite decimalLoop_num. apply numLoop_spec; [lia | unfold size_max; lia|].
  split_and!; [done | done | lia].
Qed.

Lemma hexLoop_toChars n : 0 <= n <= size_max -> hexLoop 0 (toChars 16 n) = Some n.
Proof.
  intros Hn. destruct (toCharsLoop_value 16 hexDigitValue 64 n []) as [Hv Hd];
    [lia | apply digitChar_hex | pose proof (pow_fuel 16 n); lia | constructor |].
  rewrite hexLoop_num. apply numLoop_spec; [lia | unfold size_max; lia|].
  split_and!; [done | done | lia].
Qed.

(** ** Digit counts *)

Lemma toCharsLoop_length fuel base v acc k :
  2 <= base -> 0 <= v ->
  zlen (toCharsLoop fuel base v acc) - zlen acc - 1 = digitCountLoop fuel base v k - k.
Proof.
  intros Hb. revert v acc k. induction fuel as [|fuel IH]; intros v acc k Hv; cbn [toCharsLoop digitCountLoop].
  - rewrite zlen_cons. lia.
  - destruct (Z.ltb_spec v base), (Z.leb_spec base v); try lia; [rewrite zlen_cons; lia|].
    specialize (IH (v / base) (digitChar (v mod base) :: acc) (k + 1)).
    rewrite zlen_cons in IH. pose proof (Z.div_pos v base ltac:(lia) ltac:(lia)). lia.
Qed.

Lemma decimalDigitCount_spec v : 0 <= v -> decimalDigitCount v = zlen (toChars 10 v).
Proof.
  intros. unfold decimalDigitCount, toChars.
  pose proof (toCharsLoop_length 64 10 v [] 1 ltac:(lia) ltac:(lia)) as H1. rewrite zlen_nil in H1. lia.
Qed.

(** ** Trimming *)

Lemma trimLeft_id c s : isspace c = false -> trimLeft (c :: s) = c :: s.
Proof. intros H. simpl. by rewrite H. Qed.

Lemma trimLeft_spec s : exists p, s = p ++ trimLeft s ∧ Forall (fun c => isspace c = true) p ∧
  (forall c r, trimLeft s = c :: r -> isspace c = false).
Proof.
  induction s as [|c s (p & Hs & Hp & Hh)]; [by exists []|]. simpl.
  destruct (isspace c) eqn:E.
  - exists (c :: p). split_and!; [by simpl; f_equal | by constructor | done].
  - exists []. split_and!; [done | constructor | by intros ?? [= <- <-]].
Qed.

(** A string with no space at either end is its own trim. *)
Definition trimmed (s : list byte) : Prop :=
  (forall c, head s = Some c -> isspace c = false) ∧ (forall c, last s = Some c -> isspace c = false).

Lemma trimLeft_head s : (forall c, head s = Some c -> isspace c = false) -> trimLeft s = s.
Proof. destruct s as [|c s]; [done|]. intros H. apply trimLeft_id. by apply H. Qed.

Lemma trim_id s : trimmed s -> trim s = s.
Proof.
  intros [Hh Hl]. unfold trim. rewrite (trimLeft_head s) by done.
  rewrite trimLeft_head; [apply reverse_involutive|]. intros c. rewrite head_reverse. apply Hl.
Qed.

Lemma trim_lead s t : Forall (fun c => isspace c = true) t -> trim (t ++ s) = trim s.
Proof.
  intros Ht. unfold trim. enough (trimLeft (t ++ s) = trimLeft s) by congruence.
  induction Ht as [|c t Hc Ht IH]; simpl; [done|]. by rewrite Hc.
Qed.

Lemma head_trimLeft s c : head (trimLeft s) = Some c -> isspace c = false.
Proof.
  destruct (trimLeft_spec s) as (p & _ & _ & H). destruct (trimLeft s); [done|].
  intros [= <-]. by eapply H.
Qed.

Lemma trimmed_trim s : trimmed (trim s).
Proof.
  split; intros c.
  - unfold trim. rewrite head_reverse. intros H.
    destruct (trimLeft_spec (reverse (trimLeft s))) as (p & Hs & _ & _).
    apply (f_equal (fun l => last l)) in Hs. rewrite last_app, H, last_reverse in Hs.
    by apply (head_trimLeft s).
  - unfold trim. rewrite last_reverse. apply head_trimLeft.
Qed.

Lemma trimmed_nospace s : Forall (fun c => isspace c = false) s -> trimmed s.
Proof.
  intros H. split; intros c Hc; rewrite Forall_forall in H; apply H.
  - by apply head_Some_elem_of.
  - by apply last_Some_elem_of.
Qed.

Lemma digit_not_space c : 0 <= hexDigitValue c -> isspace c = false ∧ c ≠ x3b ∧ c ≠ CR.
Proof. by byte_cases c. Qed.

Lemma decDigit_not_space c : 0 <= decDigit c -> isspace c = false ∧ c ≠ CR.
Proof. by byte_cases c. Qed.

(** ** Line ends *)

(** A pattern that starts with CR is first found after a CR-free line. *)
Lemma find_sub_line pat line rest :
  CR ∉ line -> find_sub (CR :: pat) (line ++ (CR :: pat) ++ rest) = Some (length line).
Proof.
  intros H. induction line as [|c line IH].
  - apply (find_sub_nil_app (CR :: pat)).
  - apply not_elem_of_cons in H as [Hc Hl]. change ((c :: line) ++ (CR :: pat) ++ rest) with
      (c :: (line ++ (CR :: pat) ++ rest)).
    cbn [find_sub is_prefix]. rewrite (beqb_neq CR c) by done. cbn [andb].
    by rewrite IH.
Qed.

Lemma sv_find_line pre line rest :
  CR ∉ line ->
  sv_find (pre ++ line ++ CRLF ++ rest) CRLF (length pre) = Some (length pre + length line)%nat.
Proof.
  intros H. unfold sv_find. rewrite drop_app_length.
  change CRLF with (CR :: [LF]). by rewrite find_sub_line.
Qed.

(** ** Chunked coding *)

Lemma toChars16_chars n : 0 <= n <= size_max -> Forall (fun c => 0 <= hexDigitValue c) (toChars 16 n).
Proof.
  intros Hn. apply (toCharsLoop_value 16 hexDigitValue 64 n []);
    [lia | apply digitChar_hex | pose proof (pow_fuel 16 n); lia | constructor].
Qed.

Lemma not_elem_Forall {A} (P : A -> Prop) x l : Forall P l -> ~ P x -> x ∉ l.
Proof. rewrite Forall_forall. eauto. Qed.

Lemma chunkSizeOfLine_hex line n :
  line ≠ [] -> Forall (fun c => 0 <= hexDigitValue c) line -> hexLoop 0 line = Some n ->
  chunkSizeOfLine line = Some n.
Proof.
  intros Hne Hf Hn.
  assert (Ht : trim line = line).
  { apply trim_id, trimmed_nospace. eapply Forall_impl; [apply Hf|].
    intros c Hc. by apply digit_not_space. }
  unfold chunkSizeOfLine, parseHexSize. rewrite Ht.
  rewrite (proj2 (find_from_None x3b line)); [rewrite Ht; by destruct line|].
  eapply not_elem_Forall; [apply Hf|]. by vm_compute.
Qed.

Lemma hex_no_CR line : Forall (fun c => 0 <= hexDigitValue c) line -> CR ∉ line.
Proof. intros Hf. eapply not_elem_Forall; [apply Hf|]. by vm_compute. Qed.

(** One well-formed chunk is consumed and appended. *)
Lemma chunkLoop_chunk fuel pre line d rest body n :
  let data := pre ++ line ++ CRLF ++ d ++ CRLF ++ rest in
  line ≠ [] -> Forall (fun c => 0 <= hexDigitValue c) line -> hexLoop 0 line = Some n ->
  0 < n -> zlen d = n -> zlen data <= string_max_size -> zlen body + n <= string_max_size ->
  chunkLoop (S fuel) data (length pre) body =
  chunkLoop fuel data (length (pre ++ line ++ CRLF ++ d ++ CRLF)) (body ++ d).
Proof.
  intros data Hne Hf Hn Hpos Hd Hmax Hbody. cbn [chunkLoop].
  assert (Hlen : zlen data = zlen pre + zlen line + 2 + n + 2 + zlen rest).
  { unfold data. rewrite !zlen_app. rewrite Hd. change (zlen CRLF) with 2. lia. }
  unfold string_max_size in *.
  pose proof (zlen_nonneg rest). pose proof (zlen_nonneg line). pose proof (zlen_nonneg pre).
  rewrite (proj2 (Nat.leb_gt _ _)) by (unfold zlen in *; lia).
  unfold data at 1. rewrite sv_find_line by (by apply hex_no_CR).
  replace (length pre + length line - length pre)%nat with (length line) by lia.
  unfold data at 1. rewrite drop_app_length, take_app_length.
  rewrite (chunkSizeOfLine_hex line n) by done.
  rewrite (proj2 (Z.eqb_neq n 0)) by lia.
  assert (Ho : Z.of_nat (length pre + length line + 2) = zlen pre + zlen line + 2) by (unfold zlen; lia).
  rewrite Ho. unfold u64. rewrite Z.mod_small by lia.
  rewrite (proj2 (Z.ltb_ge _ _)) by lia. rewrite (proj2 (Z.ltb_ge _ _)) by lia.
  assert (Hdrop : drop (length pre + length line + 2) data = d ++ CRLF ++ rest).
  { unfold data. rewrite (app_assoc pre), (app_assoc (pre ++ line)).
    apply drop_app_exact. rewrite !length_app. done. }
  assert (Hnd : Z.to_nat n = length d) by (unfold zlen in Hd; lia).
  rewrite Hdrop, Hnd, take_app_length, <- drop_drop, Hdrop, drop_app_length.
  change (take 2 (CRLF ++ rest)) with CRLF. rewrite bool_decide_eq_true_2 by done. cbn [negb].
  f_equal. rewrite !length_app. change (length CRLF) with 2%nat. lia.
Qed.

(** The terminating chunk and the empty trailer. *)
Lemma chunkLoop_last fuel pre body :
  chunkLoop (S fuel) (pre ++ str "0" ++ CRLF ++ CRLF) (length pre) body = Returned true body.
Proof.
  cbn [chunkLoop]. rewrite (proj2 (Nat.leb_gt _ _)) by (rewrite length_app; simpl; lia).
  change (str "0" ++ CRLF ++ CRLF) with (str "0" ++ CRLF ++ (CRLF ++ [])).
  rewrite sv_find_line by decide_closed.
  replace (length pre + length (str "0") - length pre)%nat with 1%nat by (simpl; lia).
  rewrite drop_app_length. change (chunkSizeOfLine _) with (Some 0). cbn [Z.eqb].
  f_equal. cbn [trailerLoop].
  replace (length pre + length (str "0") + 2)%nat with (length (pre ++ str "0" ++ CRLF))
    by (rewrite !length_app; simpl; lia).
  replace (pre ++ str "0" ++ CRLF ++ CRLF ++ []) with ((pre ++ str "0" ++ CRLF) ++ [] ++ CRLF ++ [])
    by (by rewrite <- !app_assoc).
  rewrite sv_find_line by apply not_elem_of_nil.
  rewrite Nat.add_0_r, Nat.sub_diag. cbn [take].
  apply Nat.eqb_eq. rewrite !length_app. simpl. lia.
Qed.

Lemma buildChunkedLoop_S f rest : rest ≠ [] ->
  buildChunkedLoop (S f) rest =
  let chunkSize := Z.min kChunkedEncodeBlockSize (zlen rest) in
  let n := Z.to_nat chunkSize in
  toChars 16 chunkSize ++ CRLF ++ take n rest ++ CRLF ++ buildChunkedLoop f (drop n rest).
Proof. by destruct rest. Qed.

Lemma buildChunkedLoop_parse f fuel pre rest body :
  let data := pre ++ buildChunkedLoop f rest ++ str "0" ++ CRLF ++ CRLF in
  (length rest <= f)%nat -> (f < fuel)%nat ->
  zlen data <= string_max_size -> zlen body + zlen rest <= string_max_size ->
  chunkLoop fuel data (length pre) body = Returned true (body ++ rest).
Proof.
  revert fuel pre rest body. induction f as [|f IH]; intros fuel pre rest body data Hr Hf Hmax Hb;
    destruct fuel as [|fuel]; try lia; subst data.
  - destruct rest; [|simpl in Hr; lia]. rewrite app_nil_r. apply chunkLoop_last.
  - destruct rest as [|b rest0]; [rewrite app_nil_r; apply chunkLoop_last|].
    set (rest := b :: rest0) in *. assert (1 <= zlen rest) by (unfold rest; rewrite zlen_cons; pose proof (zlen_nonneg rest0); lia).
    rewrite buildChunkedLoop_S in Hmax |- * by done. cbv zeta in Hmax |- *.
    set (k := Z.min kChunkedEncodeBlockSize (zlen rest)) in *.
    assert (Hk : 1 <= k <= 8192 ∧ k <= zlen rest) by (unfold k, kChunkedEncodeBlockSize; lia).
    assert (Htk : zlen (take (Z.to_nat k) rest) = k) by (unfold zlen in *; rewrite length_take; lia).
    assert (Hsz : k <= size_max) by (unfold size_max; lia).
    rewrite <- !app_assoc in Hmax |- *.
    rewrite (chunkLoop_chunk fuel pre (toChars 16 k) (take (Z.to_nat k) rest) _ body k);
      [|apply toChars_nonempty | apply toChars16_chars; lia | apply hexLoop_toChars; lia | lia | done
       | done | unfold string_max_size in *; lia].
    set (pre' := pre ++ toChars 16 k ++ CRLF ++ take (Z.to_nat k) rest ++ CRLF).
    replace (pre ++ toChars 16 k ++ CRLF ++ take (Z.to_nat k) rest ++ CRLF ++
             buildChunkedLoop f (drop (Z.to_nat k) rest) ++ str "0" ++ CRLF ++ CRLF)
      with (pre' ++ buildChunkedLoop f (drop (Z.to_nat k) rest) ++ str "0" ++ CRLF ++ CRLF) in Hmax |- *
      by (unfold pre'; by rewrite <- !app_assoc).
    rewrite IH.
    + by rewrite <- app_assoc, take_drop.
    + rewrite length_drop. unfold zlen in *. lia.
    + lia.
    + done.
    + rewrite zlen_app, Htk. unfold zlen in *. rewrite length_drop. lia.
Qed.

Lemma buildChunkedLoop_length f rest :
  (length rest <= f)%nat -> (length rest <= length (buildChunkedLoop f rest))%nat.
Proof.
  revert rest. induction f as [|f IH]; intros rest H; [destruct rest; simpl in *; lia|].
  destruct rest as [|b rest0]; [simpl; lia|].
  set (rest := b :: rest0) in *. rewrite buildChunkedLoop_S by done. cbv zeta. assert (Hr : (1 <= length rest)%nat) by (simpl; lia).
  set (n := Z.to_nat (Z.min kChunkedEncodeBlockSize (zlen rest))).
  assert (Hn : (1 <= n)%nat) by (unfold n, kChunkedEncodeBlockSize, zlen; lia).
  specialize (IH (drop n rest)). rewrite length_drop in IH.
  rewrite !length_app, length_take. lia.
Qed.

(** ** Separated texts *)

Lemma splitOn_elem ch s p c : p ∈ splitOn ch s -> c ∈ p -> c ≠ ch ∧ c ∈ s.
Proof.
  revert p. induction s as [|x s IH]; intros p; cbn [splitOn].
  - intros ->%list_elem_of_singleton Hc. by apply elem_of_nil in Hc.
  - destruct (x =b ch) eqn:E.
    + intros [->|Hp]%elem_of_cons Hc; [by apply elem_of_nil in Hc|]. destruct (IH p Hp Hc). split; [done|by right].
    + apply beqb_false in E. destruct (splitOn ch s) as [|q qs].
      * intros ->%list_elem_of_singleton ->%list_elem_of_singleton. split; [done|by left].
      * intros [->|Hp]%elem_of_cons Hc.
        -- apply elem_of_cons in Hc as [->|Hc]; [split; [done|by left]|]. destruct (IH q ltac:(by left) Hc). split; [done|by right].
        -- destruct (IH p ltac:(by right) Hc). split; [done|by right].
Qed.

Lemma splitOn_plain ch p : ch ∉ p -> splitOn ch p = [p].
Proof.
  induction p as [|c p IH]; cbn; [done|]. rewrite not_elem_of_cons. intros [Hc Hp]. by rewrite beqb_neq, IH.
Qed.

Lemma splitOn_app ch p s : ch ∉ p -> splitOn ch (p ++ ch :: s) = p :: splitOn ch s.
Proof.
  induction p as [|c p IH]; cbn; [by rewrite beqb_refl|]. rewrite not_elem_of_cons. intros [Hc Hp]. by rewrite beqb_neq, IH.
Qed.

Lemma splitOn_cons ch s : ∃ p ps, splitOn ch s = p :: ps.
Proof. induction s as [|c s (p & ps & IH)]; cbn; [eauto|]. destruct (c =b ch); [eauto|]. rewrite IH. eauto. Qed.

(** Splitting a text whose last piece is known. *)
Lemma splitOn_last ch a p : ch ∉ p -> splitOn ch (a ++ ch :: p) = splitOn ch a ++ [p].
Proof.
  intros Hp. induction a as [|c a IH]; cbn [app splitOn]; [by rewrite beqb_refl, splitOn_plain|].
  destruct (c =b ch); [by rewrite IH|]. rewrite IH. by destruct (splitOn_cons ch a) as (q & qs & ->).
Qed.

Lemma find_line_arrived v x line rest :
  v ++ x = line ++ CRLF ++ rest -> CR ∉ line ->
  find_sub CRLF v = if (length v <? length line + 2)%nat then None else Some (length line).
Proof.
  intros Hv Hline.
  assert (Hf : find_sub CRLF (v ++ x) = Some (length line)) by (rewrite Hv; by apply (find_sub_line [LF])).
  destruct (Nat.ltb_spec (length v) (length line + 2)).
  - by apply (find_sub_prefix CRLF v x (length line)).
  - rewrite app_assoc in Hv. apply arrived_split in Hv as (w & -> & _); [|rewrite length_app; done].
    rewrite <- app_assoc. by apply (find_sub_line [LF]).
Qed.

(** ** URL coding *)

Lemma urlDecode_cons_plain c rest :
  (c =b x25) = false -> urlDecode (c :: rest) = (if c =b x2b then SP else c) :: urlDecode rest.
Proof. intros H. cbn [urlDecode]. rewrite H. by destruct rest as [|? [|? ?]]. Qed.

Definition escaped (ch : byte) : list byte :=
  [x25; nth (Z.to_nat (Z.land (Z.shiftr (bz ch) 4) 15)) kHexDigitsUpper x00;
   nth (Z.to_nat (Z.land (bz ch) 15)) kHexDigitsUpper x00].

Lemma urlDecode_escaped ch rest : urlDecode (escaped ch ++ rest) = ch :: urlDecode rest.
Proof. by byte_cases ch. Qed.

Lemma unreserved_plain c : isUnreserved c = true -> (c =b x25) = false ∧ (c =b x2b) = false.
Proof. by byte_cases c. Qed.

Lemma urlDecode_encode raw : urlDecode (urlEncode raw) = raw.
Proof.
  induction raw as [|ch raw IH]; [done|]. cbn [urlEncode]. destruct (isUnreserved ch) eqn:E.
  - apply unreserved_plain in E as [E1 E2]. by rewrite urlDecode_cons_plain, E2, IH.
  - change (urlDecode (escaped ch ++ urlEncode raw) = ch :: raw). by rewrite urlDecode_escaped, IH.
Qed.

(** ** Layout of a message *)

(** A first line, header lines and a body, as the builders lay them out. *)
Definition message (first : list byte) (lines : list (list byte)) (body : list byte) : list byte :=
  first ++ CRLF ++ concat ((fun l => l ++ CRLF) <$> lines) ++ CRLF ++ body.

(** The header lines as the parser sees them: separated, not terminated, by CRLF. *)
Fixpoint joinLines (lines : list (list byte)) : list byte :=
  match lines with
  | [] => []
  | [l] => l
  | l :: lines' => l ++ CRLF ++ joinLines lines'
  end.

Definition plainLine (l : list byte) : Prop := l ≠ [] ∧ CR ∉ l.

Lemma concat_joinLines l lines :
  concat ((fun l => l ++ CRLF) <$> (l :: lines)) = joinLines (l :: lines) ++ CRLF.
Proof.
  revert l. induction lines as [|l' lines IH]; intros l.
  - by rewrite fmap_cons, fmap_nil; cbn [concat]; rewrite app_nil_r.
  - rewrite fmap_cons. cbn [concat]. rewrite IH. cbn [joinLines]. by rewrite <- !app_assoc.
Qed.

Lemma message_join first l lines body :
  message first (l :: lines) body = joinLines (first :: l :: lines) ++ CRLF ++ CRLF ++ body.
Proof.
  unfold message. rewrite concat_joinLines. cbn [joinLines]. by rewrite <- !app_assoc.
Qed.

Lemma find_sub_skip pat line rest :
  CR ∉ line -> find_sub (CR :: pat) (line ++ rest) =
  (fun i => length line + i)%nat <$> find_sub (CR :: pat) rest.
Proof.
  induction line as [|c line IH]; intros H.
  - cbn [app length]. by destruct (find_sub _ rest).
  - apply not_elem_of_cons in H as [Hc Hl]. cbn [app find_sub is_prefix].
    rewrite (beqb_neq CR c) by done. cbn [andb]. rewrite IH by done.
    by destruct (find_sub _ rest).
Qed.

Lemma find_sub_cons pat c s :
  find_sub pat (c :: s) = if is_prefix pat (c :: s) then Some 0%nat else S <$> find_sub pat s.
Proof. done. Qed.

(** Between two plain lines there is no empty line. *)
Lemma find_sub_crlf_plain l rest :
  l ≠ [] -> CR ∉ l ->
  find_sub (CRLF ++ CRLF) (CRLF ++ l ++ rest) = (fun i => 2 + i)%nat <$> find_sub (CRLF ++ CRLF) (l ++ rest).
Proof.
  intros Hne HCR. destruct l as [|c l]; [done|]. apply not_elem_of_cons in HCR as [Hc _].
  change (CRLF ++ (c :: l) ++ rest) with (CR :: LF :: (c :: l) ++ rest).
  rewrite !(find_sub_cons _ _ (_ :: _)), (find_sub_cons _ LF).
  change (is_prefix (CRLF ++ CRLF) (CR :: LF :: (c :: l) ++ rest)) with
    ((CR =b c) && is_prefix [LF] (l ++ rest)).
  change (is_prefix (CRLF ++ CRLF) (LF :: (c :: l) ++ rest)) with false.
  rewrite (beqb_neq CR c) by done. cbn [andb]. by destruct (find_sub _ ((c :: l) ++ rest)).
Qed.

Lemma find_header_end lines body :
  lines ≠ [] -> Forall plainLine lines ->
  find_sub (CRLF ++ CRLF) (joinLines lines ++ CRLF ++ CRLF ++ body) = Some (length (joinLines lines)).
Proof.
  intros Hne Hall. induction Hall as [|l lines [Hl HCR] Hall IH]; [done|].
  destruct lines as [|l' lines].
  - change (CRLF ++ CRLF ++ body) with ((CR :: [LF; CR; LF]) ++ body). by apply find_sub_line.
  - specialize (IH ltac:(done)). inversion Hall as [|? ? [Hl' HCR'] Hall']; subst.
    change (joinLines (l :: l' :: lines)) with (l ++ CRLF ++ joinLines (l' :: lines)).
    rewrite <- !app_assoc. change (CRLF ++ CRLF) with (CR :: [LF; CR; LF]) at 1.
    rewrite find_sub_skip by done. change (CR :: [LF; CR; LF]) with (CRLF ++ CRLF).
    assert (Hj : exists t, joinLines (l' :: lines) = l' ++ t) by
      (destruct lines; [exists []; by rewrite app_nil_r | by eexists]).
    destruct Hj as [t Ht]. rewrite Ht in IH |- *. rewrite <- app_assoc in IH |- *.
    rewrite find_sub_crlf_plain by done. rewrite IH. cbn [fmap option_fmap option_map].
    f_equal. rewrite !length_app. simpl. lia.
Qed.

Lemma find_first_line first rest : CR ∉ first -> find_sub CRLF (first ++ CRLF ++ rest) = Some (length first).
Proof. apply (find_sub_line [LF]). Qed.

(** The header text the parsers cut out of a message. *)
Lemma message_headerLines first l lines body :
  let data := message first (l :: lines) body in
  zlen data < 2 ^ 64 ->
  sv_substr data (length first + 2)
    (u64 (Z.of_nat (length (joinLines (first :: l :: lines))) - Z.of_nat (length first + 2))) =
  joinLines (l :: lines).
Proof.
  intros data Hmax. unfold data in *. rewrite message_join in *.
  change (joinLines (first :: l :: lines)) with (first ++ CRLF ++ joinLines (l :: lines)) in *.
  set (j := joinLines (l :: lines)) in *. unfold sv_substr, u64.
  rewrite <- !app_assoc in *. rewrite !length_app in *.
  assert (Hd : drop (length first + 2) (first ++ CRLF ++ j ++ CRLF ++ CRLF ++ body) = j ++ CRLF ++ CRLF ++ body).
  { rewrite app_assoc. apply drop_app_exact. by rewrite length_app. }
  rewrite Hd. apply take_app_exact. rewrite !zlen_app in *. unfold zlen in *. simpl length in *.
  rewrite Z.mod_small by lia. lia.
Qed.

Lemma message_drop first l lines body :
  drop (length (joinLines (first :: l :: lines)) + 4) (message first (l :: lines) body) = body.
Proof.
  rewrite message_join, app_assoc, app_assoc. apply drop_app_exact.
  rewrite !length_app. simpl. lia.
Qed.

(** The header loop is the line step folded over the lines. *)
Definition parseLines (lines : list (list byte)) (st : headerState) : option headerState :=
  fold_left (fun acc l => st ← acc; parseHeaderLine l st) lines (Some st).

Lemma parseLines_None lines :
  fold_left (fun acc l => st ← acc; parseHeaderLine l st) lines None = None.
Proof. by induction lines. Qed.

Lemma parseHeaderLoop_lines fuel lines st :
  Forall plainLine lines -> (length (joinLines lines) < fuel)%nat ->
  parseHeaderLoop fuel (joinLines lines) st = hs_headers <$> parseLines lines st.
Proof.
  intros Hall. revert fuel st. induction Hall as [|l lines [Hne HCR] Hall IH]; intros fuel st Hf;
    destruct fuel as [|fuel]; try lia; [done|].
  unfold parseLines. cbn [fold_left mbind option_bind]. destruct lines as [|l' lines].
  - cbn [joinLines] in *. cbn [parseHeaderLoop]. destruct l as [|c l]; [done|].
    replace (find_sub CRLF (c :: l)) with (@None nat); [done|].
    symmetry. rewrite <- (app_nil_r (c :: l)). rewrite (find_sub_skip [LF]) by done. done.
  - change (joinLines (l :: l' :: lines)) with (l ++ CRLF ++ joinLines (l' :: lines)) in *.
    set (j := joinLines (l' :: lines)) in *. rewrite !length_app in Hf. simpl in Hf.
    cbn [parseHeaderLoop]. rewrite find_first_line by done.
    rewrite take_app_length.
    replace (drop (length l + 2) (l ++ CRLF ++ j)) with j
      by (rewrite app_assoc; symmetry; apply drop_app_exact; by rewrite length_app).
    destruct l as [|c l]; [done|]. cbn [app].
    destruct (parseHeaderLine (c :: l) st) as [st'|]; cbn [mbind option_bind].
    + rewrite IH by lia. done.
    + change (fold_left _ _ _) with (fold_left (fun acc l => st ← acc; parseHeaderLine l st) (l' :: lines) None).
      by rewrite parseLines_None.
Qed.

(** ** Header lines written by the builders *)

Definition headerLine (h : list byte * list byte) : list byte := h.1 ++ str ": " ++ h.2.

Definition isCL (name : list byte) : bool := caseInsensitiveCompare name (str "Content-Length").
Definition isTE (name : list byte) : bool := caseInsensitiveCompare name (str "Transfer-Encoding").

(** A header the builders can send and the parsers accept. *)
Record sendableHeader (h : list byte * list byte) : Prop := {
  sh_name : isValidHeaderName h.1 = true;
  sh_value : trimmed h.2;
  sh_plain : CR ∉ h.2;
  sh_size : zlen h.1 + 2 + zlen h.2 <= kMaxHeaderLineSize
}.

Lemma token_char c : isTokenCharacter c = true ->
  isspace c = false ∧ c ≠ x3a ∧ c ≠ CR ∧ c ≠ SP ∧ c ≠ x09.
Proof. by byte_cases c. Qed.

Lemma name_chars name : isValidHeaderName name = true ->
  name ≠ [] ∧ Forall (fun c => isTokenCharacter c = true) name.
Proof.
  unfold isValidHeaderName. destruct name as [|c n]; [done|]. intros H. split; [done|].
  by apply Forall_forall; intros x Hx; rewrite forallb_forall in H; apply H, list_elem_of_In.
Qed.

Lemma headerLine_plain h : sendableHeader h -> plainLine (headerLine h).
Proof.
  intros [Hn Hv Hp _]. apply name_chars in Hn as [Hne Hc]. unfold headerLine. split.
  - by destruct h.1.
  - rewrite !not_elem_of_app. split_and!; [|decide_closed|done].
    eapply not_elem_Forall; [apply Hc|]. by vm_compute.
Qed.

Lemma parseHeaderLine_written h st :
  sendableHeader h ->
  let cl := hs_sawContentLength st || isCL h.1 in
  let te := hs_sawTransferEncoding st || (negb (isCL h.1) && isTE h.1) in
  (isCL h.1 = true -> hs_sawContentLength st = false ∧ parseUnsignedDecimal h.2 ≠ None) ->
  (isTE h.1 = true -> hs_sawTransferEncoding st = false) ->
  cl && te = false -> hs_count st < kMaxHeaderCount ->
  parseHeaderLine (headerLine h) st = Some (mkHS (map_set h.1 h.2 (hs_headers st)) (hs_count st + 1) cl te).
Proof.
  intros [Hn Hv Hp Hs] cl te Hcl Hte Hboth Hcount. pose proof Hn as Hn'.
  apply name_chars in Hn as [Hne Hc]. unfold parseHeaderLine, headerLine in *.
  assert (Hlen : zlen (h.1 ++ str ": " ++ h.2) = zlen h.1 + 2 + zlen h.2)
    by (rewrite !zlen_app; change (zlen (str ": ")) with 2; lia).
  rewrite Hlen. destruct h as [name value]; cbn [fst snd] in *.
  destruct name as [|c name]; [done|]. set (nm := c :: name) in *.
  assert (H0 : isTokenCharacter c = true) by (by inversion Hc).
  apply token_char in H0 as (_ & _ & _ & Hsp & Htab).
  pose proof (zlen_nonneg value). assert (1 <= zlen nm) by (unfold nm; rewrite zlen_cons; pose proof (zlen_nonneg name); lia).
  change (nth 0 (nm ++ str ": " ++ value) x00) with c.
  rewrite (beqb_neq c SP), (beqb_neq c x09) by done.
  rewrite (proj2 (Z.eqb_neq _ 0)), (proj2 (Z.ltb_ge _ _)) by (unfold kMaxHeaderLineSize in *; lia).
  cbn [orb]. change (str ": " ++ value) with (x3a :: SP :: value).
  assert (Hcol : x3a ∉ nm) by (eapply not_elem_Forall; [apply Hc | by vm_compute]).
  rewrite find_from_app by done. change (length nm =? 0)%nat with false. cbv iota.
  rewrite take_app_length.
  replace (drop (S (length nm)) (nm ++ x3a :: SP :: value)) with ([SP] ++ value)
    by (change (x3a :: SP :: value) with ([x3a] ++ [SP] ++ value); rewrite app_assoc;
        symmetry; apply drop_app_exact; rewrite length_app; simpl; lia).
  rewrite trim_lead by (by repeat constructor). rewrite (trim_id value) by done.
  rewrite (trim_id nm); last first.
  { apply trimmed_nospace. eapply Forall_impl; [apply Hc|]. intros x Hx. by apply token_char. }
  rewrite Hn'. cbn [negb]. fold (isCL nm) (isTE nm).
  replace (isCL nm && _) with false; last first.
  { destruct (isCL nm); [|done]. destruct Hcl as [-> Hpv]; [done|]. by rewrite bool_decide_eq_false_2. }
  replace (negb (isCL nm) && isTE nm && hs_sawTransferEncoding st) with false; last first.
  { destruct (isTE nm); [rewrite Hte by done; by rewrite andb_false_r | by rewrite andb_false_r]. }
  fold cl te. rewrite Hboth, (proj2 (Z.ltb_ge _ _)) by lia. done.
Qed.

(** ** Messages written by the builders *)

(** Headers that let [appendHeaders] choose the framing itself. *)
Record sendableHeaders (hs : strmap) : Prop := {
  shs_sorted : map_sorted hs;
  shs_each : Forall sendableHeader hs;
  shs_noframing : Forall (fun h => isCL h.1 = false ∧ isTE h.1 = false) hs;
  shs_count : zlen hs < kMaxHeaderCount
}.

Definition contentLengthHeader (body : list byte) : list byte * list byte :=
  (str "Content-Length", toChars 10 (zlen body)).

(** The headers a receiver sees: those given, and the computed length. *)
Definition receivedHeaders (hs : strmap) (body : list byte) : strmap :=
  map_set (str "Content-Length") (toChars 10 (zlen body)) hs.

Lemma fold_appendHeaderLine hs out :
  fold_left (fun out h => appendHeaderLine out h.1 h.2) hs out =
  out ++ concat ((fun l => l ++ CRLF) <$> (headerLine <$> hs)).
Proof.
  revert out. induction hs as [|h hs IH]; intros out; cbn; [by rewrite app_nil_r|].
  rewrite IH. unfold appendHeaderLine, headerLine. by rewrite <- !app_assoc.
Qed.

Lemma existsb_Forall_false {A} (f : A -> bool) l :
  Forall (fun x => f x = false) l -> existsb f l = false.
Proof. induction 1 as [|x l Hx Hl IH]; simpl; [done|]. by rewrite Hx. Qed.

Lemma appendHeaders_message out hs body :
  sendableHeaders hs ->
  appendHeaders (out ++ CRLF) hs body ++ CRLF ++ body =
  message out ((headerLine <$> hs) ++ [headerLine (contentLengthHeader body)]) body.
Proof.
  intros [_ _ Hf _]. unfold appendHeaders.
  rewrite !existsb_Forall_false; cbn [negb andb].
  - rewrite fold_appendHeaderLine. unfold message, appendUnsignedDecimal.
    rewrite fmap_app, concat_app. cbn [fmap list_fmap concat]. unfold headerLine, contentLengthHeader.
    cbn [fst snd]. rewrite app_nil_r. change (str "Content-Length: ") with (str "Content-Length" ++ str ": ").
    by rewrite <- !app_assoc.
  - eapply Forall_impl; [apply Hf|]. by intros h [H _].
  - eapply Forall_impl; [apply Hf|]. intros h [_ H]. unfold isTE in H. rewrite H. by rewrite andb_false_r.
Qed.

Lemma toChars10_chars n : 0 <= n <= size_max -> Forall (fun c => 0 <= decDigit c) (toChars 10 n).
Proof.
  intros Hn. apply (toCharsLoop_value 10 decDigit 64 n []);
    [lia | apply digitChar_dec | pose proof (pow_fuel 10 n); lia | constructor].
Qed.

Lemma digitCountLoop_le fuel base v k : k <= digitCountLoop fuel base v k <= k + Z.of_nat fuel.
Proof.
  revert v k. induction fuel as [|fuel IH]; intros v k; simpl digitCountLoop; [lia|].
  case_match; [|lia]. specialize (IH (v / base) (k + 1)). lia.
Qed.

Lemma contentLength_sendable body : zlen body <= size_max -> sendableHeader (contentLengthHeader body).
Proof.
  intros Hb. pose proof (zlen_nonneg body) as H0.
  pose proof (toChars10_chars (zlen body) ltac:(lia)) as Hc. split; cbn [fst snd contentLengthHeader].
  - done.
  - apply trimmed_nospace. eapply Forall_impl; [apply Hc|]. intros c Hd. by apply decDigit_not_space.
  - eapply not_elem_Forall; [apply Hc|]. by vm_compute.
  - rewrite <- decimalDigitCount_spec by lia.
    pose proof (digitCountLoop_le 64 10 (zlen body) 1). unfold decimalDigitCount, kMaxHeaderLineSize.
    change (zlen (str "Content-Length")) with 14. lia.
Qed.

(** Reading the user's headers back in order rebuilds the map. *)
Lemma parseLines_headers done hs :
  sendableHeaders hs -> map_sorted (done ++ hs) -> zlen done + zlen hs < kMaxHeaderCount ->
  parseLines (headerLine <$> hs) (mkHS done (zlen done) false false) =
  Some (mkHS (done ++ hs) (zlen done + zlen hs) false false).
Proof.
  intros [_ Heach Hfr _]. revert done. induction hs as [|h hs IH]; intros done Hsort Hcount.
  - rewrite app_nil_r. unfold parseLines. cbn. do 2 f_equal. rewrite zlen_nil. lia.
  - inversion Heach as [|? ? Hh Heach']; subst. inversion Hfr as [|? ? [H1 H2] Hfr']; subst.
    rewrite zlen_cons in *. pose proof (zlen_nonneg hs).
    unfold parseLines. cbn [fmap list_fmap fold_left mbind option_bind].
    rewrite parseHeaderLine_written; cbn [hs_sawContentLength hs_sawTransferEncoding hs_count hs_headers];
      rewrite ?H1, ?H2; try done; [|lia].
    destruct h as [k v]; cbn [fst snd].
    assert (Hlast : map_set k v done = done ++ [(k, v)]).
    { apply map_set_last. clear - Hsort. induction done as [|[k' v'] done IH]; [constructor|].
      cbn [app map_sorted] in Hsort. destruct Hsort as [Ha Hs].
      constructor; [|by apply IH]. rewrite Forall_app, Forall_cons in Ha. tauto. }
    rewrite Hlast. replace (zlen done + 1) with (zlen (done ++ [(k, v)]))
      by (rewrite zlen_app, zlen_cons, zlen_nil; lia).
    change (fold_left _ ?l (Some ?st)) with (parseLines l st). rewrite IH.
    + rewrite <- app_assoc. cbn [app]. do 2 f_equal. rewrite zlen_app, zlen_cons, zlen_nil. lia.
    + done.
    + done.
    + by rewrite <- app_assoc.
    + rewrite zlen_app, zlen_cons, zlen_nil. lia.
Qed.

Lemma parseLines_app l1 l2 st : parseLines (l1 ++ l2) st = parseLines l1 st ≫= parseLines l2.
Proof.
  unfold parseLines. rewrite fold_left_app. destruct (fold_left _ l1 _); [done|].
  apply parseLines_None.
Qed.

Lemma parseHeaders_written hs body :
  sendableHeaders hs -> zlen body <= size_max ->
  parseHeaderLines (joinLines ((headerLine <$> hs) ++ [headerLine (contentLengthHeader body)])) =
  Some (receivedHeaders hs body).
Proof.
  intros Hsh Hb. pose proof Hsh as [Hs He _ Hc].
  pose proof (contentLength_sendable body Hb) as Hcl.
  unfold parseHeaderLines. rewrite parseHeaderLoop_lines; [|..|lia].
  - rewrite parseLines_app.
    change (mkHS [] 0 false false) with (mkHS [] (zlen (@nil (list byte * list byte))) false false).
    rewrite (parseLines_headers [] hs) by (try done; rewrite zlen_nil; lia).
    cbn [mbind option_bind app]. unfold parseLines. cbn [fold_left mbind option_bind].
    rewrite parseHeaderLine_written; [done | done | ..]; try done.
    intros _. split; [done|]. cbn [contentLengthHeader snd].
    by rewrite parse_toChars_dec by (pose proof (zlen_nonneg body); lia).
  - rewrite Forall_app, Forall_fmap. split.
    + eapply Forall_impl; [apply He|]. intros h. apply headerLine_plain.
    + constructor; [by apply headerLine_plain | constructor].
Qed.

(** No other header of the map answers to Content-Length. *)
Lemma find_map_set (f : list byte -> bool) k v m :
  f k = true -> Forall (fun h => f h.1 = false) m ->
  find (fun h => f h.1) (map_set k v m) = Some (k, v).
Proof.
  intros Hk. induction 1 as [|[k' v'] m Hx Hm IH]; cbn [map_set find fst]; [by rewrite Hk|].
  cbn [fst] in Hx. case_match; [by cbn; rewrite Hk|]. case_match; cbn [find fst].
  - by rewrite Hx.
  - by rewrite Hk.
Qed.

Lemma assignMessageBody_written hs body rest :
  sendableHeaders hs -> zlen body <= size_max ->
  assignMessageBody (body ++ rest) (receivedHeaders hs body) = Some body.
Proof.
  intros [_ _ Hf _] Hb. unfold assignMessageBody, receivedHeaders, contentLengthFromHeaders, isChunkedEncoding.
  rewrite existsb_Forall_false; last first.
  { apply map_set_Forall; [done|]. eapply Forall_impl; [apply Hf|]. intros h [_ H].
    unfold isTE in H. by rewrite H. }
  rewrite (find_map_set isCL); [|done|eapply Forall_impl; [apply Hf | by intros h []]].
  pose proof (zlen_nonneg body). pose proof (toChars10_chars (zlen body) ltac:(lia)) as Hc.
  rewrite trim_id; last first.
  { apply trimmed_nospace. eapply Forall_impl; [apply Hc|]. intros c Hd. by apply decDigit_not_space. }
  rewrite parse_toChars_dec by lia. rewrite (proj2 (Z.ltb_ge _ _)); [|rewrite zlen_app; pose proof (zlen_nonneg rest); lia].
  f_equal. apply take_app_exact. unfold zlen. lia.
Qed.

Lemma find_Forall_false {A} (f : A -> bool) l : Forall (fun x => f x = false) l -> find f l = None.
Proof. induction 1 as [|x l Hx Hl IH]; simpl; [done|]. by rewrite Hx. Qed.

Lemma received_framing hs body :
  sendableHeaders hs ->
  getHeader (receivedHeaders hs body) (str "Transfer-Encoding") = None ∧
  getHeader (receivedHeaders hs body) (str "Content-Length") = Some (toChars 10 (zlen body)).
Proof.
  intros [_ _ Hf _]. unfold getHeader, receivedHeaders. split.
  - rewrite find_Forall_false; [done|]. apply map_set_Forall; [done|]. eapply Forall_impl; [apply Hf|]. by intros h [_ H].
  - rewrite (find_map_set isCL); [done|done|]. eapply Forall_impl; [apply Hf|]. by intros h [H _].
Qed.

(** A first line of three words, as the two head parsers cut it. *)
Lemma firstSpace_cut a rest : SP ∉ a -> find_from SP (a ++ SP :: rest) = Some (length a).
Proof. apply find_from_app. Qed.

Lemma secondSpace_cut a b rest : SP ∉ b ->
  sv_find_char (a ++ SP :: b ++ SP :: rest) SP (S (length a)) = Some (length a + 1 + length b)%nat.
Proof.
  intros Hb. unfold sv_find_char.
  replace (drop (S (length a)) (a ++ SP :: b ++ SP :: rest)) with (b ++ SP :: rest)
    by (change (SP :: b ++ SP :: rest) with ([SP] ++ b ++ SP :: rest); rewrite app_assoc;
        symmetry; apply drop_app_exact; rewrite length_app; simpl; lia).
  rewrite find_from_app by done. cbn. f_equal. lia.
Qed.

Lemma middle_word a b rest :
  sv_substr (a ++ SP :: b ++ SP :: rest) (S (length a))
    (Z.of_nat (length a + 1 + length b) - Z.of_nat (length a) - 1) = b.
Proof.
  unfold sv_substr.
  replace (drop (S (length a)) (a ++ SP :: b ++ SP :: rest)) with (b ++ SP :: rest)
    by (change (SP :: b ++ SP :: rest) with ([SP] ++ b ++ SP :: rest); rewrite app_assoc;
        symmetry; apply drop_app_exact; rewrite length_app; simpl; lia).
  apply take_app_exact. unfold zlen. rewrite !length_app. simpl length. rewrite length_app. simpl length. lia.
Qed.

Lemma last_word a b rest :
  drop (S (length a + 1 + length b)) (a ++ SP :: b ++ SP :: rest) = rest.
Proof.
  change (SP :: b ++ SP :: rest) with ([SP] ++ b ++ [SP] ++ rest).
  rewrite (app_assoc a), (app_assoc (a ++ [SP])), (app_assoc ((a ++ [SP]) ++ b)).
  apply drop_app_exact. rewrite !length_app. simpl. lia.
Qed.

(** What the request parser demands of a message laid out by [message]. *)
Record sendableRequest (method uri : list byte) (hs : strmap) (body rest : list byte) : Prop := {
  sr_method : isValidHeaderName method = true;
  sr_uri : uri ≠ [] ∧ (SP ∉ uri) ∧ (CR ∉ uri);
  sr_headers : sendableHeaders hs;
  sr_line : zlen method + zlen uri + 10 <= kMaxRequestLineSize;
  sr_section : zlen (buildRequest method uri hs body) - zlen body <= kMaxHeaderSectionSize;
  sr_memory : zlen (buildRequest method uri hs body ++ rest) <= size_max
}.

Record sendableResponse (code : Z) (reason : list byte) (hs : strmap) (body rest : list byte) : Prop := {
  sp_code : 100 <= code <= 999;
  sp_reason : trimmed reason ∧ CR ∉ reason;
  sp_headers : sendableHeaders hs;
  sp_line : zlen reason + 13 <= kMaxStatusLineSize;
  sp_section : zlen (buildResponse code reason hs body) - zlen body <= kMaxHeaderSectionSize;
  sp_memory : zlen (buildResponse code reason hs body ++ rest) <= size_max
}.

Lemma message_app first lines body rest : message first lines body ++ rest = message first lines (body ++ rest).
Proof. unfold message. by rewrite <- !app_assoc. Qed.

Lemma joinLines_section first l lines body :
  Z.of_nat (length (joinLines (first :: l :: lines))) = zlen (message first (l :: lines) body) - zlen body - 4.
Proof.
  rewrite message_join, !zlen_app. change (zlen CRLF) with 2. unfold zlen. lia.
Qed.

(** The header lines of a built message are one non-empty list of plain lines. *)
Lemma written_lines hs body :
  sendableHeaders hs -> zlen body <= size_max ->
  exists l lines, (headerLine <$> hs) ++ [headerLine (contentLengthHeader body)] = l :: lines ∧
    Forall plainLine (l :: lines).
Proof.
  intros [_ He _ _] Hb.
  assert (Hall : Forall plainLine ((headerLine <$> hs) ++ [headerLine (contentLengthHeader body)])).
  { rewrite Forall_app, Forall_fmap. split.
    - eapply Forall_impl; [apply He|]. intros h. apply headerLine_plain.
    - constructor; [by apply headerLine_plain, contentLength_sendable | constructor]. }
  destruct ((headerLine <$> hs) ++ _) as [|l lines] eqn:E; [by destruct hs|]. eauto.
Qed.

Lemma buildRequest_message method uri hs body :
  sendableHeaders hs ->
  buildRequest method uri hs body =
  message (method ++ SP :: uri ++ SP :: str "HTTP/1.1")
    ((headerLine <$> hs) ++ [headerLine (contentLengthHeader body)]) body.
Proof.
  intros H. unfold buildRequest. rewrite <- appendHeaders_message by done.
  do 2 f_equal. rewrite <- app_assoc. cbn [app]. by rewrite <- app_assoc.
Qed.

Lemma buildResponse_message code reason hs body :
  sendableHeaders hs -> 0 <= code ->
  buildResponse code reason hs body =
  message (str "HTTP/1.1" ++ SP :: toChars 10 code ++ SP :: reason)
    ((headerLine <$> hs) ++ [headerLine (contentLengthHeader body)]) body.
Proof.
  intros H Hc. unfold buildResponse. rewrite <- appendHeaders_message by done.
  unfold appendSignedDecimal. rewrite (proj2 (Z.ltb_ge code 0)) by lia.
  do 2 f_equal. rewrite <- !app_assoc. cbn [app]. by rewrite <- app_assoc.
Qed.

Lemma status_digits code : (100 <= code <= 999) ->
  zlen (toChars 10 code) = 3 ∧ statusCodeLoop 0 (toChars 10 code) = Some code ∧
  (SP ∉ toChars 10 code) ∧ (CR ∉ toChars 10 code).
Proof.
  intros H.
  set (check := fun k => let t := toChars 10 (Z.of_nat k) in
    (zlen t =? 3) && bool_decide (statusCodeLoop 0 t = Some (Z.of_nat k)) &&
    bool_decide (SP ∉ t) && bool_decide (CR ∉ t)).
  assert (Hall : forallb check (seq 100 900) = true) by (vm_compute; reflexivity).
  rewrite forallb_forall in Hall. specialize (Hall (Z.to_nat code)).
  rewrite <- list_elem_of_In, elem_of_seq in Hall. specialize (Hall ltac:(lia)).
  unfold check in Hall. rewrite Z2Nat.id in Hall by lia.
  rewrite !andb_true_iff, Z.eqb_eq, !bool_decide_eq_true in Hall. tauto.
Qed.

Lemma name_no_char name c : isValidHeaderName name = true -> isTokenCharacter c = false -> c ∉ name.
Proof.
  intros [_ H]%name_chars Hc. eapply not_elem_Forall; [apply H|]. simpl. by rewrite Hc.
Qed.

(** The part of a message both head parsers read before the first line. *)
Lemma message_cuts first l lines body :
  plainLine first -> Forall plainLine (l :: lines) ->
  let data := message first (l :: lines) body in
  bool_decide (data = []) = false ∧
  find_sub (CRLF ++ CRLF) data = Some (length (joinLines (first :: l :: lines))) ∧
  find_sub CRLF data = Some (length first) ∧
  take (length first) data = first.
Proof.
  intros Hf Hl data. unfold data. split_and!.
  - apply bool_decide_eq_false_2. destruct Hf as [Hne _]. intros E. by apply app_eq_nil in E as [? _].
  - rewrite message_join. apply find_header_end; [done | by constructor].
  - unfold message. apply find_first_line, Hf.
  - unfold message. apply take_app_length.
Qed.

Lemma requestLine_plain method uri :
  isValidHeaderName method = true -> CR ∉ uri ->
  plainLine (method ++ SP :: uri ++ SP :: str "HTTP/1.1").
Proof.
  intros Hm Hu. split; [destruct method; discriminate|].
  rewrite not_elem_of_app, not_elem_of_cons, not_elem_of_app, not_elem_of_cons.
  split_and!; try done; [by apply name_no_char | decide_closed].
Qed.

Lemma parseRequestHead_message method uri l lines body headers :
  let rl := method ++ SP :: uri ++ SP :: str "HTTP/1.1" in
  let data := message rl (l :: lines) body in
  isValidHeaderName method = true -> uri ≠ [] -> SP ∉ uri -> CR ∉ uri ->
  Forall plainLine (l :: lines) -> zlen rl <= kMaxRequestLineSize ->
  zlen data - zlen body <= kMaxHeaderSectionSize -> zlen data <= size_max ->
  parseHeaderLines (joinLines (l :: lines)) = Some headers ->
  parseRequestHead data =
  Some (let '(path, query, params) := splitTarget uri in
        mkRequest method uri path query (str "HTTP/1.1") headers [] params).
Proof.
  intros rl data Hm Hu1 Hu2 Hu3 Hplain Hline Hsec Hmem Hparse.
  destruct (message_cuts rl l lines body) as (H0 & Hend & Hfirst & Htk);
    [by apply requestLine_plain | done|]. fold data in H0, Hend, Hfirst, Htk.
  unfold parseRequestHead. rewrite H0, Hend.
  rewrite (proj2 (Z.ltb_ge _ _)) by (rewrite (joinLines_section _ _ _ body); fold data; lia).
  rewrite Hfirst, (proj2 (Z.ltb_ge _ _)) by done.
  rewrite Htk. unfold rl at 1. rewrite firstSpace_cut by (by apply name_no_char).
  rewrite (proj2 (Nat.eqb_neq (length method) 0)) by (destruct method; [done | simpl; lia]).
  unfold rl at 1. rewrite secondSpace_cut by done.
  rewrite (proj2 (Nat.eqb_neq _ _)) by (destruct uri; [done | simpl; lia]).
  rewrite bool_decide_eq_true_2 by (unfold sv_find_char, rl; by rewrite last_word).
  rewrite (take_app_length method _ : take (length method) rl = method).
  rewrite (middle_word method uri _ : sv_substr rl _ _ = uri).
  rewrite (last_word method uri _ : drop _ rl = _), Hm.
  rewrite bool_decide_eq_false_2 by done.
  change (isValidHttpVersion (str "HTTP/1.1")) with true. cbn [negb orb].
  rewrite (message_headerLines rl l lines body ltac:(unfold size_max in *; fold data; lia) :
    sv_substr data _ _ = _).
  rewrite Hparse. by destruct (splitTarget uri) as [[? ?] ?].
Qed.

Lemma message_body_le first lines body : zlen body <= zlen (message first lines body).
Proof.
  unfold message. rewrite !zlen_app.
  pose proof (zlen_nonneg first). pose proof (zlen_nonneg CRLF).
  pose proof (zlen_nonneg (concat ((fun l => l ++ CRLF) <$> lines))). lia.
Qed.

Lemma parseRequest_message method uri l lines body rest headers :
  let rl := method ++ SP :: uri ++ SP :: str "HTTP/1.1" in
  let data := message rl (l :: lines) (body ++ rest) in
  isValidHeaderName method = true -> uri ≠ [] ∧ (SP ∉ uri) ∧ (CR ∉ uri) ->
  Forall plainLine (l :: lines) -> zlen method + zlen uri + 10 <= kMaxRequestLineSize ->
  zlen data - zlen (body ++ rest) <= kMaxHeaderSectionSize -> zlen data <= size_max ->
  parseHeaderLines (joinLines (l :: lines)) = Some headers ->
  assignMessageBody (body ++ rest) headers = Some body ->
  parseRequest data =
  Some (let '(path, query, params) := splitTarget uri in
        mkRequest method uri path query (str "HTTP/1.1") headers body params).
Proof.
  intros rl data Hm (Hu1 & Hu2 & Hu3) Hplain Hline Hsec Hmem Hparse Hbody.
  assert (Hrl : zlen rl <= kMaxRequestLineSize).
  { unfold rl. rewrite zlen_app, zlen_cons, zlen_app, zlen_cons. change (zlen (str "HTTP/1.1")) with 8. lia. }
  pose proof (parseRequestHead_message method uri l lines (body ++ rest) headers Hm Hu1 Hu2 Hu3 Hplain Hrl Hsec Hmem Hparse) as Hhead.
  fold rl in Hhead. fold data in Hhead. unfold parseRequest. rewrite Hhead.
  destruct (message_cuts rl l lines (body ++ rest)) as (_ & Hend & _); [by apply requestLine_plain | done|].
  unfold data. rewrite Hend. unfold default, id. rewrite message_drop. destruct (splitTarget uri) as [[path query] params].
  cbn [rq_headers]. by rewrite Hbody.
Qed.

Lemma parseRequest_written method uri hs body rest :
  sendableRequest method uri hs body rest ->
  parseRequest (buildRequest method uri hs body ++ rest) =
  Some (let '(path, query, params) := splitTarget uri in
        mkRequest method uri path query (str "HTTP/1.1") (receivedHeaders hs body) body params).
Proof.
  intros [Hm Hu Hhs Hline Hsec Hmem].
  rewrite buildRequest_message in Hsec, Hmem |- * by done. rewrite message_app in Hmem |- *.
  assert (Hb : zlen (body ++ rest) <= size_max) by (etrans; [apply message_body_le | done]).
  assert (Hb' : zlen body <= size_max) by (rewrite zlen_app in Hb; pose proof (zlen_nonneg rest); lia).
  pose proof (parseHeaders_written hs body Hhs Hb') as Hparse.
  destruct (written_lines hs body Hhs Hb') as (l & lines & Hl & Hplain). rewrite Hl in *.
  apply parseRequest_message; try done.
  - rewrite <- message_app, !zlen_app. lia.
  - by apply assignMessageBody_written.
Qed.

Lemma statusLine_plain code reason : 100 <= code <= 999 -> CR ∉ reason ->
  plainLine (str "HTTP/1.1" ++ SP :: toChars 10 code ++ SP :: reason).
Proof.
  intros (_ & _ & _ & HCR)%status_digits Hr. split; [discriminate|].
  rewrite not_elem_of_app, not_elem_of_cons, not_elem_of_app, not_elem_of_cons.
  split_and!; try done. decide_closed.
Qed.

Lemma parseResponseHead_message code reason l lines body headers :
  let sl := str "HTTP/1.1" ++ SP :: toChars 10 code ++ SP :: reason in
  let data := message sl (l :: lines) body in
  (100 <= code <= 999) -> trimmed reason -> CR ∉ reason ->
  Forall plainLine (l :: lines) -> zlen sl <= kMaxStatusLineSize ->
  zlen data - zlen body <= kMaxHeaderSectionSize -> zlen data <= size_max ->
  parseHeaderLines (joinLines (l :: lines)) = Some headers ->
  parseResponseHead data = Some (mkResponse code reason (str "HTTP/1.1") headers []).
Proof.
  intros sl data Hc Ht HCR Hplain Hline Hsec Hmem Hparse.
  destruct (message_cuts sl l lines body) as (H0 & Hend & Hfirst & Htk);
    [by apply statusLine_plain | done|]. fold data in H0, Hend, Hfirst, Htk.
  destruct (status_digits code Hc) as (Hd1 & Hd2 & Hd3 & _).
  unfold parseResponseHead. rewrite H0, Hend.
  rewrite (proj2 (Z.ltb_ge _ _)) by (rewrite (joinLines_section _ _ _ body); fold data; lia).
  rewrite Hfirst, (proj2 (Z.ltb_ge _ _)) by done.
  rewrite Htk. unfold sl at 1. rewrite firstSpace_cut by decide_closed.
  rewrite (proj2 (Nat.eqb_neq (length (str "HTTP/1.1")) 0)) by done.
  unfold sl at 1. rewrite secondSpace_cut by done.
  rewrite (proj2 (Nat.eqb_neq _ _)) by (unfold zlen in Hd1; lia).
  rewrite (take_app_length (str "HTTP/1.1") _ : take (length (str "HTTP/1.1")) sl = _).
  rewrite (middle_word (str "HTTP/1.1") (toChars 10 code) reason : sv_substr sl _ _ = _).
  rewrite (last_word (str "HTTP/1.1") (toChars 10 code) reason : drop _ sl = _), Hd1.
  change (isValidHttpVersion (str "HTTP/1.1")) with true. cbn [negb orb Z.eqb Pos.eqb].
  rewrite Hd2, trim_id by done.
  rewrite (message_headerLines sl l lines body ltac:(unfold size_max in *; fold data; lia) :
    sv_substr data _ _ = _).
  by rewrite Hparse.
Qed.

Lemma parseResponse_written code reason hs body rest :
  sendableResponse code reason hs body rest ->
  parseResponse (buildResponse code reason hs body ++ rest) =
  Some (mkResponse code reason (str "HTTP/1.1") (receivedHeaders hs body)
          (if hasNoResponseBody code then [] else body)).
Proof.
  intros [Hc [Hr1 Hr2] Hhs Hline Hsec Hmem].
  rewrite buildResponse_message in Hsec, Hmem |- * by (done || lia). rewrite message_app in Hmem |- *.
  assert (Hb : zlen (body ++ rest) <= size_max) by (etrans; [apply message_body_le | done]).
  assert (Hb' : zlen body <= size_max) by (rewrite zlen_app in Hb; pose proof (zlen_nonneg rest); lia).
  pose proof (parseHeaders_written hs body Hhs Hb') as Hparse.
  destruct (written_lines hs body Hhs Hb') as (l & lines & Hl & Hplain). rewrite Hl in *.
  destruct (status_digits code Hc) as (Hd1 & _).
  unfold parseResponse.
  rewrite (parseResponseHead_message code reason l lines (body ++ rest) (receivedHeaders hs body)); try done.
  - destruct (message_cuts (str "HTTP/1.1" ++ SP :: toChars 10 code ++ SP :: reason) l lines (body ++ rest))
      as (_ & -> & _); [by apply statusLine_plain | done|].
    unfold default, id. cbn [rs_statusCode rs_headers rs_statusMessage rs_version]. rewrite message_drop.
    destruct (hasNoResponseBody code); [done|]. by rewrite assignMessageBody_written.
  - rewrite zlen_app, zlen_cons, zlen_app, zlen_cons, Hd1. change (zlen (str "HTTP/1.1")) with 8. lia.
  - rewrite <- message_app, !zlen_app. lia.
Qed.

(** ** What the header loop guarantees *)

Lemma isCL_not_TE name : isCL name = true -> isTE name = false.
Proof.
  unfold isCL, isTE, caseInsensitiveCompare. case_match eqn:E; [done|].
  apply negb_false_iff, Nat.eqb_eq in E. by rewrite E.
Qed.

Lemma elem_of_map_set k v m kv : kv ∈ map_set k v m -> kv = (k, v) \/ kv ∈ m.
Proof.
  induction m as [|[k' v'] m IH]; cbn [map_set]; [rewrite list_elem_of_singleton; auto|].
  repeat case_match; rewrite ?elem_of_cons; intuition auto.
Qed.

Lemma length_map_set k v m : zlen (map_set k v m) <= zlen m + 1.
Proof.
  induction m as [|[k' v'] m IH]; cbn [map_set]; [done|].
  repeat case_match; rewrite ?zlen_cons; lia.
Qed.

(** The promise of [parseHeaderLines]: a sorted map of valid, trimmed entries in
    which the message length is given at most once and in one way. *)
Record framedHeaders (hs : strmap) (cl te : bool) : Prop := {
  fh_sorted : map_sorted hs;
  fh_names : Forall (fun h => isValidHeaderName h.1 = true ∧ trimmed h.2) hs;
  fh_cl : forall h, h ∈ hs -> isCL h.1 = true -> cl = true ∧ parseUnsignedDecimal h.2 ≠ None;
  fh_te : forall h, h ∈ hs -> isTE h.1 = true -> te = true;
  fh_one_cl : forall a b, a ∈ hs -> b ∈ hs -> isCL a.1 = true -> isCL b.1 = true -> a = b;
  fh_one_te : forall a b, a ∈ hs -> b ∈ hs -> isTE a.1 = true -> isTE b.1 = true -> a = b;
  fh_excl : cl && te = false
}.

(** Adding an entry whose framing flag was not yet seen keeps the promise. *)
Lemma framed_add hs cl te name value :
  framedHeaders hs cl te -> isValidHeaderName name = true -> trimmed value ->
  (isCL name = true -> cl = false ∧ parseUnsignedDecimal value ≠ None) ->
  (isTE name = true -> te = false) ->
  (cl || isCL name) && (te || isTE name) = false ->
  framedHeaders (map_set name value hs) (cl || isCL name) (te || isTE name).
Proof.
  intros [H1 H2 H3 H4 H5 H6 H7] Hn Hv Hcl Hte Hx. split.
  - by apply map_set_sorted.
  - by apply map_set_Forall.
  - intros h [->|Hh]%elem_of_map_set Hc; cbn [fst snd] in *.
    + rewrite Hc, orb_true_r. split; [done | by apply Hcl].
    + destruct (H3 h Hh Hc) as [-> ?]. done.
  - intros h [->|Hh]%elem_of_map_set Hc; cbn [fst snd] in *; [by rewrite Hc, orb_true_r | by rewrite (H4 h Hh Hc)].
  - intros a b [->|Ha]%elem_of_map_set [->|Hb]%elem_of_map_set Hca Hcb; cbn [fst snd] in *; [done|..|by apply H5].
    + destruct (Hcl Hca) as [-> _]. by destruct (H3 b Hb Hcb).
    + destruct (Hcl Hcb) as [-> _]. by destruct (H3 a Ha Hca).
  - intros a b [->|Ha]%elem_of_map_set [->|Hb]%elem_of_map_set Hca Hcb; cbn [fst snd] in *; [done|..|by apply H6].
    + pose proof (Hte Hca) as Hf. by rewrite (H4 b Hb Hcb) in Hf.
    + pose proof (Hte Hcb) as Hf. by rewrite (H4 a Ha Hca) in Hf.
  - done.
Qed.

Lemma parseHeaderLine_framed line st st' :
  parseHeaderLine line st = Some st' ->
  framedHeaders (hs_headers st) (hs_sawContentLength st) (hs_sawTransferEncoding st) ->
  zlen (hs_headers st) <= hs_count st ->
  framedHeaders (hs_headers st') (hs_sawContentLength st') (hs_sawTransferEncoding st') ∧
  zlen (hs_headers st') <= hs_count st' <= kMaxHeaderCount.
Proof.
  unfold parseHeaderLine. intros H Hf Hc.
  destruct (_ || _); [done|]. destruct (find_from _ _) as [colon|]; [|done].
  destruct (colon =? 0)%nat; [done|].
  set (name := trim (take colon line)) in *. set (value := trim (drop (S colon) line)) in *.
  destruct (isValidHeaderName name) eqn:Hn; [|done]. cbn [negb] in H.
  fold (isCL name) (isTE name) in H.
  destruct (isCL name && _) eqn:Ecl; [done|]. destruct (negb (isCL name) && isTE name && _) eqn:Ete; [done|].
  destruct (_ && (_ || (negb (isCL name) && isTE name))) eqn:Ex; [done|].
  destruct (Z.ltb_spec kMaxHeaderCount (hs_count st + 1)); [done|].
  injection H as <-. cbn [hs_headers hs_sawContentLength hs_sawTransferEncoding hs_count].
  assert (HTE : negb (isCL name) && isTE name = isTE name).
  { destruct (isCL name) eqn:E; [by rewrite isCL_not_TE | done]. }
  rewrite HTE in *. split.
  - apply framed_add; try done; [apply trimmed_trim| |].
    + intros HCL. rewrite HCL in Ecl. cbn [andb] in Ecl. apply orb_false_iff in Ecl as [E1 E2].
      split; [done | by apply bool_decide_eq_false in E2].
    + intros HT. rewrite HT in Ete. by cbn [andb] in Ete.
  - pose proof (length_map_set name value (hs_headers st)). lia.
Qed.

Lemma parseHeaderLoop_framed fuel rest st hs :
  parseHeaderLoop fuel rest st = Some hs ->
  framedHeaders (hs_headers st) (hs_sawContentLength st) (hs_sawTransferEncoding st) ->
  zlen (hs_headers st) <= hs_count st <= kMaxHeaderCount ->
  (exists cl te, framedHeaders hs cl te) ∧ zlen hs <= kMaxHeaderCount.
Proof.
  revert rest st. induction fuel as [|fuel IH]; intros rest st; [done|]. cbn [parseHeaderLoop].
  intros H Hf Hc. destruct rest as [|c rest]; [injection H as <-; split; [eauto | lia]|].
  destruct (find_sub _ _) as [lineEnd|].
  - apply bind_Some in H as (st' & Hl & H).
    apply parseHeaderLine_framed in Hl as [Hf' Hc']; [|done|lia]. by eapply IH.
  - apply fmap_Some in H as (st' & Hl & ->).
    apply parseHeaderLine_framed in Hl as [Hf' Hc']; [|done|lia]. split; [eauto | lia].
Qed.

(** The text after a blank first line never parses as header lines. *)
Lemma parseHeaderLines_blank rest : parseHeaderLines (CRLF ++ rest) = None.
Proof. done. Qed.

Lemma headerless_substr rl rest :
  zlen (rl ++ CRLF ++ CRLF ++ rest) <= size_max - 2 ->
  sv_substr (rl ++ CRLF ++ CRLF ++ rest) (length rl + 2)
    (u64 (Z.of_nat (length rl) - Z.of_nat (length rl + 2))) = CRLF ++ rest.
Proof.
  intros Hm. unfold sv_substr.
  assert (Hd : drop (length rl + 2) (rl ++ CRLF ++ CRLF ++ rest) = CRLF ++ rest)
    by (rewrite app_assoc; apply drop_app_exact; by rewrite length_app).
  rewrite Hd. apply take_ge. unfold u64.
  replace (Z.of_nat (length rl) - Z.of_nat (length rl + 2)) with (-2) by lia.
  change ((-2) mod 2 ^ 64) with (2 ^ 64 - 2). unfold size_max in Hm.
  rewrite Z.min_r by (unfold zlen in *; lia). rewrite !zlen_app. rewrite !length_app.
  change (zlen CRLF) with 2. change (length CRLF) with 2%nat. unfold zlen. lia.
Qed.

Lemma estimateHeaderBytes_sum hs k :
  fold_left (fun total h => total + (zlen h.1 + 2 + zlen h.2 + 2)) hs k =
  k + zlen (concat ((fun l => l ++ CRLF) <$> (headerLine <$> hs))).
Proof.
  revert k. induction hs as [|h hs IH]; intros k; cbn [fold_left fmap list_fmap concat].
  - rewrite zlen_nil. lia.
  - rewrite IH. unfold headerLine at 2. rewrite !zlen_app.
    change (zlen (str ": ")) with 2. change (zlen CRLF) with 2. lia.
Qed.

Lemma parseChunked_build body :
  zlen (buildChunked body) <= string_max_size ->
  parseChunked (buildChunked body) = Returned true body.
Proof.
  intros Hmax. unfold parseChunked, buildChunked in *.
  pose proof (buildChunkedLoop_length (length body) body ltac:(lia)) as Hl.
  apply (buildChunkedLoop_parse (length body) _ [] body []); [lia| |done|].
  - cbn [app]. rewrite length_app. lia.
  - rewrite zlen_app in Hmax. unfold zlen in *. simpl length in *. lia.
Qed.

(** ** Claims *)

(** Percent-encoding is undone by decoding, on every byte string. *)
Theorem url_roundtrip raw : urlDecode (urlEncode raw) = raw.
Proof. apply urlDecode_encode. Qed.

(** [parseUnsignedDecimal] accepts exactly the non-empty digit strings whose
    value fits a [size_t], and returns that value: no wrap-around is possible. *)
Theorem parseUnsignedDecimal_iff s n :
  parseUnsignedDecimal s = Some n <->
  s ≠ [] ∧ Forall (fun c => isdigit c = true) s ∧ valueFrom 10 decDigit 0 s = n ∧ n < 2 ^ 64.
Proof.
  unfold parseUnsignedDecimal. destruct s as [|c s]; [split; [done | by intros [[] _]]|].
  rewrite decimalLoop_num, numLoop_spec by (unfold size_max; lia).
  assert (Heq : forall b, 0 <= decDigit b <-> isdigit b = true).
  { intros b. unfold decDigit. destruct (isdigit b) eqn:E; [|split; [lia | done]].
    apply isdigit_bz in E. split; [done | lia]. }
  rewrite (Forall_iff _ _ _ Heq). unfold size_max. split.
  - intros (? & ? & ?). split_and!; [done | done | done | lia].
  - intros (_ & ? & ? & ?). split_and!; [done | done | lia].
Qed.

(** Every number a [size_t] can hold survives formatting and parsing, in
    decimal (Content-Length) and in hexadecimal (chunk sizes). *)
Theorem number_roundtrip n :
  0 <= n < 2 ^ 64 ->
  parseUnsignedDecimal (appendUnsignedDecimal [] n) = Some n ∧
  parseHexSize (appendUnsignedHex [] n) = Some n.
Proof.
  intros Hn. assert (Hm : 0 <= n <= size_max) by (unfold size_max; lia).
  unfold appendUnsignedDecimal, appendUnsignedHex. cbn [app]. split; [by apply parse_toChars_dec|].
  unfold parseHexSize. rewrite trim_id.
  - rewrite hexLoop_toChars by done. destruct (toChars 16 n) eqn:E; [by apply toChars_nonempty in E | done].
  - apply trimmed_nospace. eapply Forall_impl; [by apply toChars16_chars|].
    intros c Hc. by apply digit_not_space.
Qed.

Lemma number_roundtrip_witness :
  parseUnsignedDecimal (appendUnsignedDecimal [] 18446744073709551615) = Some 18446744073709551615 ∧
  parseHexSize (appendUnsignedHex [] 18446744073709551615) = Some 18446744073709551615.
Proof. apply number_roundtrip. lia. Defined.

(** A body sent with [buildChunked] is recovered exactly by [parseChunked],
    whatever its size in memory. *)
Theorem chunked_roundtrip body :
  zlen (buildChunked body) <= string_max_size ->
  parseChunked (buildChunked body) = Returned true body.
Proof. apply parseChunked_build. Qed.

Lemma chunked_roundtrip_witness :
  parseChunked (buildChunked (str "hello, chunked world")) = Returned true (str "hello, chunked world").
Proof. apply chunked_roundtrip. by vm_compute. Defined.

(** C28. A request written by [buildRequest] is read back by [parseRequest]:
    method, target, headers (with the computed Content-Length) and body, even when
    further pipelined bytes follow it. *)
Theorem request_roundtrip method uri hs body rest :
  sendableRequest method uri hs body rest ->
  parseRequest (buildRequest method uri hs body ++ rest) =
  Some (let '(path, query, params) := splitTarget uri in
        mkRequest method uri path query (str "HTTP/1.1") (receivedHeaders hs body) body params).
Proof. apply parseRequest_written. Qed.

Lemma request_roundtrip_witness :
  parseRequest (buildRequest (str "POST") (str "/a?x=1") [(str "Host", str "h")] (str "hi") ++ str "GET") =
  Some (mkRequest (str "POST") (str "/a?x=1") (str "/a") (str "x=1") (str "HTTP/1.1")
          [(str "Content-Length", str "2"); (str "Host", str "h")] (str "hi") [(str "x", str "1")]).
Proof.
  rewrite (request_roundtrip (str "POST") (str "/a?x=1") [(str "Host", str "h")] (str "hi") (str "GET"));
    [vm_compute; reflexivity|].
  split; [done | split_and!; [done | decide_closed | decide_closed] | | by vm_compute ..].
  split; [by repeat constructor | | by repeat constructor | done].
  repeat constructor; cbn [fst snd]; try done; [by intros c [= <-] | by intros c [= <-] | decide_closed].
Defined.

(** A response written by [buildResponse] is read back by [parseResponse];
    statuses that carry no body come back with an empty one. *)
Theorem response_roundtrip code reason hs body rest :
  sendableResponse code reason hs body rest ->
  parseResponse (buildResponse code reason hs body ++ rest) =
  Some (mkResponse code reason (str "HTTP/1.1") (receivedHeaders hs body)
          (if hasNoResponseBody code then [] else body)).
Proof. apply parseResponse_written. Qed.

Lemma response_roundtrip_witness :
  parseResponse (buildResponse 200 (str "OK") [] (str "payload") ++ []) =
  Some (mkResponse 200 (str "OK") (str "HTTP/1.1") [(str "Content-Length", str "7")] (str "payload")).
Proof.
  rewrite (response_roundtrip 200 (str "OK") [] (str "payload") []); [vm_compute; reflexivity|].
  split; [lia | split; [split; by intros c [= <-] | decide_closed] | | by vm_compute ..].
  by repeat constructor.
Defined.

(** C31. Accepted headers leave no doubt about the message length: at most one
    Content-Length, which is a number, at most one Transfer-Encoding, and never
    both; at most 128 entries, with token names, in key order. *)
Theorem headers_unambiguous text hs :
  parseHeaderLines text = Some hs ->
  (exists cl te, framedHeaders hs cl te) ∧ zlen hs <= kMaxHeaderCount.
Proof.
  intros H. eapply parseHeaderLoop_framed; [apply H| |done].
  split; cbn; try done; intros; exfalso; by eapply not_elem_of_nil.
Qed.

Lemma headers_unambiguous_witness :
  (exists cl te, framedHeaders [(str "Content-Length", str "5"); (str "Host", str "h")] cl te) ∧
  zlen [(str "Content-Length", str "5"); (str "Host", str "h")] <= kMaxHeaderCount.
Proof.
  apply (headers_unambiguous (str "Host: h" ++ CRLF ++ str "Content-Length: 5")).
  vm_compute. reflexivity.
Defined.

(** A message head with no header line at all is rejected, although HTTP/1.0
    allows it: the length handed to [substr] wraps around below zero, so the
    header text starts with the blank line. *)
Theorem headerless_rejected rl rest :
  CR ∉ rl -> zlen (rl ++ CRLF ++ CRLF ++ rest) <= size_max - 2 ->
  parseRequestHead (rl ++ CRLF ++ CRLF ++ rest) = None ∧
  parseResponseHead (rl ++ CRLF ++ CRLF ++ rest) = None.
Proof.
  intros HCR Hm. pose proof (headerless_substr rl rest Hm) as Hsub.
  unfold parseRequestHead, parseResponseHead.
  pose proof (find_sub_line [LF; CR; LF] rl rest HCR) as Hend.
  change (CR :: [LF; CR; LF]) with (CRLF ++ CRLF) in Hend. rewrite <- app_assoc in Hend.
  rewrite Hend, find_first_line, take_app_length by done.
  rewrite Hsub, parseHeaderLines_blank.
  split; repeat (case_match; try done).
Qed.

Lemma headerless_rejected_witness :
  parseRequestHead (str "GET / HTTP/1.0" ++ CRLF ++ CRLF ++ []) = None ∧
  parseResponseHead (str "GET / HTTP/1.0" ++ CRLF ++ CRLF ++ []) = None.
Proof. apply headerless_rejected; [decide_closed | by vm_compute]. Defined.

(** The bound test of [parseChunked] adds in [size_t]: a chunk size just below
    2^64 wraps past it, and the append that follows throws instead of the function
    returning [false]. *)
Theorem chunk_size_overflow rest :
  zlen rest < 2 ^ 62 ->
  parseChunked (str "fffffffffffffffe" ++ CRLF ++ rest) = LengthError.
Proof.
  intros Hr. pose proof (zlen_nonneg rest). unfold parseChunked.
  set (data := str "fffffffffffffffe" ++ CRLF ++ rest).
  assert (Hl : zlen data = 18 + zlen rest) by (unfold data; rewrite !zlen_app; change (zlen (str _)) with 16; change (zlen CRLF) with 2; lia).
  cbn [chunkLoop]. rewrite (proj2 (Nat.leb_gt _ _)) by (unfold zlen in Hl; lia).
  rewrite (sv_find_line [] (str "fffffffffffffffe") rest ltac:(decide_closed) :
    sv_find data CRLF 0 = Some 16%nat).
  change (take (16 - 0) (drop 0 data)) with (str "fffffffffffffffe").
  change (chunkSizeOfLine _) with (Some (2 ^ 64 - 2)). cbv iota.
  change (2 ^ 64 - 2 =? 0) with false. cbv iota.
  change (u64 (Z.of_nat (16 + 2) + (2 ^ 64 - 2) + 2)) with 18.
  rewrite (proj2 (Z.ltb_ge _ _)) by lia. by change (string_max_size <? _) with true.
Qed.

Lemma chunk_size_overflow_witness :
  parseChunked (str "fffffffffffffffe" ++ CRLF ++ str "x") = LengthError.
Proof. apply chunk_size_overflow. done. Defined.

(** The capacity [buildRequest] reserves holds the whole request: no
    reallocation happens while it is written. *)
Theorem request_reserve_suffices method uri hs body :
  zlen (buildRequest method uri hs body) <= requestReserve method uri hs body.
Proof.
  unfold buildRequest, appendHeaders, requestReserve, estimateHeaderBytes.
  rewrite fold_appendHeaderLine, estimateHeaderBytes_sum.
  pose proof (zlen_nonneg body). rewrite decimalDigitCount_spec by done.
  pose proof (zlen_nonneg (toChars 10 (zlen body))).
  case_match; unfold appendUnsignedDecimal; rewrite !zlen_app;
    change (zlen [SP]) with 1; change (zlen (str " HTTP/1.1")) with 9;
    change (zlen CRLF) with 2; change (zlen (str "Content-Length: ")) with 16; lia.
Qed.
