(* ===== verification/HttpCommon.v ===== *)
(** * What HTTP server and client share (include/FastNet/HttpCommon.h)

    Methods, responses, and the builder of multipart bodies. *)

From S2P Require Import Prelude CType HttpParser.

(** ** Methods and responses *)

Inductive HttpMethod := GET | POST | PUT | DELETE_METHOD | HEAD | OPTIONS_METHOD | PATCH.

#[export] Instance HttpMethod_eq_dec : EqDecision HttpMethod.
Proof. solve_decision. Defined.

Definition methodCode (m : HttpMethod) : nat :=
  match m with GET => 0 | POST => 1 | PUT => 2 | DELETE_METHOD => 3 | HEAD => 4 | OPTIONS_METHOD => 5 | PATCH => 6 end.

Definition codeMethod (n : nat) : option HttpMethod :=
  [GET; POST; PUT; DELETE_METHOD; HEAD; OPTIONS_METHOD; PATCH] !! n.

#[export] Instance HttpMethod_countable : Countable HttpMethod :=
  inj_countable methodCode codeMethod ltac:(by intros []).

Record HttpResponse := mkHttpResponse {
  statusCode : Z;
  statusMessage : list byte;
  headers : strmap;
  body : list byte;
  hasFileBody : bool;
  filePath : list byte;
  fileOffset : Z;
  fileLength : Z
}.

(** [HttpResponse{}]. *)
Definition defaultHttpResponse : HttpResponse := mkHttpResponse 200 (str "OK") [] [] false [] 0 0.

Definition setStatusLine (r : HttpResponse) code message : HttpResponse :=
  mkHttpResponse code message (headers r) (body r) (hasFileBody r) (filePath r) (fileOffset r) (fileLength r).
Definition setHeaders (r : HttpResponse) hs : HttpResponse :=
  mkHttpResponse (statusCode r) (statusMessage r) hs (body r) (hasFileBody r) (filePath r) (fileOffset r) (fileLength r).
Definition setHeader (r : HttpResponse) name value : HttpResponse := setHeaders r (map_set name value (headers r)).
Definition setBody (r : HttpResponse) b : HttpResponse :=
  mkHttpResponse (statusCode r) (statusMessage r) (headers r) b (hasFileBody r) (filePath r) (fileOffset r) (fileLength r).
Definition setFile (r : HttpResponse) path offset len : HttpResponse :=
  mkHttpResponse (statusCode r) (statusMessage r) (headers r) [] true path offset len.

(** ** Multipart bodies *)

Record HttpMultipartPart := mkPart {
  partName : list byte;
  fileName : list byte;
  partContentType : list byte;
  partHeaders : strmap;
  partBody : list byte
}.

Record HttpMultipartBuilder := mkBuilder { boundary_ : list byte; parts_ : list HttpMultipartPart }.

Definition addPart (b : HttpMultipartBuilder) (p : HttpMultipartPart) : HttpMultipartBuilder :=
  mkBuilder (boundary_ b) (parts_ b ++ [p]).
Definition addField (b : HttpMultipartBuilder) (name value : list byte) : HttpMultipartBuilder :=
  addPart b (mkPart name [] [] [] value).
Definition addFile (b : HttpMultipartBuilder) (name file content contentType : list byte) : HttpMultipartBuilder :=
  addPart b (mkPart name file contentType [] content).

Definition multipartContentType (b : HttpMultipartBuilder) : list byte :=
  str "multipart/form-data; boundary=" ++ boundary_ b.

(** Backslashes and quotes escaped. *)
Fixpoint appendQuoted (value : list byte) : list byte :=
  match value with
  | [] => []
  | ch :: value => if (ch =b x5c) || (ch =b x22) then x5c :: ch :: appendQuoted value else ch :: appendQuoted value
  end.

Definition buildPart (boundary : list byte) (p : HttpMultipartPart) : list byte :=
  str "--" ++ boundary ++ CRLF ++ str "Content-Disposition: form-data; name=" ++ [x22] ++ appendQuoted (partName p) ++ [x22] ++
  (if fileName p =s [] then [] else str "; filename=" ++ [x22] ++ appendQuoted (fileName p) ++ [x22]) ++ CRLF ++
  (if partContentType p =s [] then [] else str "Content-Type: " ++ partContentType p ++ CRLF) ++
  concat ((fun h => h.1 ++ str ": " ++ h.2 ++ CRLF) <$> partHeaders p) ++ CRLF ++ partBody p ++ CRLF.

Definition buildMultipart (b : HttpMultipartBuilder) : list byte :=
  concat (buildPart (boundary_ b) <$> parts_ b) ++ str "--" ++ boundary_ b ++ str "--" ++ CRLF.
