(* ===== verification/Stoull.v ===== *)
(** * std::stoull

    The conversion as the C library documents it: leading white space and a sign are
    skipped, base 16 allows a 0x prefix, the longest run of digits is the number, a minus
    sign negates it modulo 2^64, and what follows the digits is ignored.  [None] is
    [std::invalid_argument] (no digits) or [std::out_of_range]. *)

From S2P Require Import Prelude CType HttpParser.

(** The digit function of base 10 or 16, negative on other characters. *)
Definition baseDigit (base : Z) (c : byte) : Z := if base =? 16 then hexDigitValue c else decDigit c.

Fixpoint digitRun (base : Z) (s : list byte) : list byte :=
  match s with
  | c :: s' => if baseDigit base c <? 0 then [] else c :: digitRun base s'
  | [] => []
  end.

(** The sign and what follows it. *)
Definition splitSign (s : list byte) : bool * list byte :=
  match s with
  | c :: s' => if c =b x2d then (true, s') else if c =b x2b then (false, s') else (false, s)
  | [] => (false, [])
  end.

(** A 0x prefix counts only when a digit follows. *)
Definition dropHexPrefix (base : Z) (s : list byte) : list byte :=
  match s with
  | z :: x :: d :: s' =>
      if (base =? 16) && (z =b x30) && ((x =b x78) || (x =b x58)) && (0 <=? hexDigitValue d)
      then d :: s' else s
  | _ => s
  end.

Definition stoull (base : Z) (s : list byte) : option Z :=
  let '(neg, s) := splitSign (trimLeft s) in
  match digitRun base (dropHexPrefix base s) with
  | [] => None
  | digits =>
      let v := valueFrom base (baseDigit base) 0 digits in
      if size_max <? v then None else Some (if neg then u64 (- v) else v)
  end.

Lemma digitRun_all base s : Forall (fun c => 0 <= baseDigit base c) s -> digitRun base s = s.
Proof. induction 1 as [|c s Hc _ IH]; cbn; [done|]. by rewrite (proj2 (Z.ltb_ge _ _) Hc), IH. Qed.

(** On a string of digits [stoull] is the decimal parser. *)
Lemma stoull_decimal s n : parseUnsignedDecimal s = Some n -> stoull 10 s = Some n.
Proof.
  intros Hp. assert (Hl : decimalLoop 0 s = Some n) by (by destruct s).
  assert (Hne : s ≠ []) by (by destruct s). rewrite decimalLoop_num in Hl.
  apply numLoop_spec in Hl as (Hd & Hv & Hn); [|lia|unfold size_max; lia].
  assert (Hbase : ∀ c, baseDigit 10 c = decDigit c) by done.
  destruct s as [|c s]; [done|]. pose proof (Forall_inv Hd) as Hc. cbn beta in Hc.
  assert (Hsp : isspace c = false ∧ (c =b x2d) = false ∧ (c =b x2b) = false).
  { revert Hc. by byte_cases c. }
  destruct Hsp as (Hsp & Hm & Hp'). unfold stoull. rewrite trimLeft_id by done. cbn [splitSign]. rewrite Hm, Hp'.
  assert (dropHexPrefix 10 (c :: s) = c :: s) as -> by (by destruct s as [|? [|??]]).
  rewrite digitRun_all by (by eapply Forall_impl; [exact Hd|]; intros; rewrite Hbase).
  change (valueFrom 10 (baseDigit 10) 0 (c :: s)) with (valueFrom 10 decDigit 0 (c :: s)).
  rewrite Hv. by rewrite (proj2 (Z.ltb_ge _ _) Hn).
Qed.

Lemma stoull_range base s n : 2 <= base -> stoull base s = Some n -> 0 <= n <= size_max.
Proof.
  intros Hb. unfold stoull. destruct (splitSign _) as [neg r]. set (ds := digitRun _ _).
  assert (Hd : Forall (fun c => 0 <= baseDigit base c) ds).
  { unfold ds. clear. induction (dropHexPrefix base r) as [|c t IH]; cbn; [constructor|].
    destruct (Z.ltb_spec (baseDigit base c) 0); [constructor|by constructor]. }
  assert (Hv : 0 <= valueFrom base (baseDigit base) 0 ds) by (apply valueFrom_ge; [lia|lia|done]).
  destruct ds; [done|]. destruct (Z.ltb_spec size_max (valueFrom base (baseDigit base) 0 (b :: ds))) as [|Hle]; [done|].
  intros [= <-]. destruct neg; [|done]. unfold u64, size_max.
  match goal with |- 0 <= ?x mod _ <= _ => pose proof (Z.mod_pos_bound x (2 ^ 64) eq_refl) end. lia.
Qed.

(** On a string of hexadecimal digits [stoull] in base 16 is the hexadecimal loop. *)
Lemma stoull_hex s n : s ≠ [] -> hexLoop 0 s = Some n -> stoull 16 s = Some n.
Proof.
  intros Hne Hl. rewrite hexLoop_num in Hl.
  apply numLoop_spec in Hl as (Hd & Hv & Hn); [|lia|unfold size_max; lia].
  destruct s as [|c s]; [done|]. pose proof (Forall_inv Hd) as Hc. cbn beta in Hc.
  assert (Hsp : isspace c = false ∧ (c =b x2d) = false ∧ (c =b x2b) = false).
  { revert Hc. by byte_cases c. }
  destruct Hsp as (Hsp & Hm & Hp'). unfold stoull. rewrite trimLeft_id by done. cbn [splitSign]. rewrite Hm, Hp'.
  assert (dropHexPrefix 16 (c :: s) = c :: s) as ->.
  { destruct s as [|x [|d s]]; [done..|]. cbn [dropHexPrefix].
    assert ((x =b x78) || (x =b x58) = false) as ->; [|by rewrite andb_false_r].
    apply Forall_cons in Hd as [_ [Hx _]%Forall_cons]. revert Hx. by byte_cases x. }
  rewrite digitRun_all by done.
  change (valueFrom 16 (baseDigit 16) 0 (c :: s)) with (valueFrom 16 hexDigitValue 0 (c :: s)).
  rewrite Hv. by rewrite (proj2 (Z.ltb_ge _ _) Hn).
Qed.
