(* ===== verification/ChunkedFraming.v ===== *)
(** * Framing of chunked bodies that are still arriving

    [getChunkedMessageSize] of src/HttpServer.cpp and of src/HttpClient.cpp: the same loop
    over size lines, with a size parser and a reader of what follows the last chunk of their
    own. *)

From S2P Require Import Prelude CType HttpParser.

(** Incomplete, a size (0 for malformed), an exception from [substr], or still running when
    the fuel is used up.  Sums are [size_t]. *)
Inductive ChunkedSize := Incomplete | Size (n : Z) | OutOfRange | Running.

Section Framing.
Context (sizeOfLine : list byte -> option Z) (lastChunk : list byte -> nat -> ChunkedSize).

Fixpoint chunkedSizeLoop (fuel : nat) (data : list byte) (offset : Z) : ChunkedSize :=
  match fuel with
  | O => Running
  | S fuel =>
      match sv_find data CRLF (Z.to_nat offset) with
      | None => Incomplete
      | Some lineEnd =>
          match sizeOfLine (take (lineEnd - Z.to_nat offset) (drop (Z.to_nat offset) data)) with
          | None => Size 0
          | Some chunkSize =>
              let offset := Z.of_nat lineEnd + 2 in
              if chunkSize =? 0 then lastChunk data (lineEnd + 2)
              else if zlen data <? u64 (offset + chunkSize + 2) then Incomplete
              else if zlen data <? u64 (offset + chunkSize) then OutOfRange
              else if negb (take 2 (drop (Z.to_nat (u64 (offset + chunkSize))) data) =s CRLF) then Size 0
              else chunkedSizeLoop fuel data (u64 (offset + chunkSize + 2))
          end
      end
  end.

(** Rounds that suffice when every round moves forward. *)
Definition chunkedSize (data : list byte) : ChunkedSize := chunkedSizeLoop (S (length data)) data 0.

(** What the loop needs of its parts: hexadecimal sizes, and a blank line after the last
    chunk, waited for and then counted. *)
Class ChunkReader : Prop := {
  size_hex line n : line ≠ [] -> Forall (fun c => 0 <= hexDigitValue c) line -> hexLoop 0 line = Some n -> n <= size_max ->
    sizeOfLine line = Some n;
  last_blank v x pre tail : v ++ x = pre ++ CRLF ++ tail -> (length pre <= length v)%nat ->
    lastChunk v (length pre) = if zlen v <? zlen pre + 2 then Incomplete else Size (zlen pre + 2)
}.

Context {reader : ChunkReader}.

(** One chunk in front: incomplete, or the loop moves behind it. *)
Lemma chunkedSizeLoop_chunk fuel v x pre line d rest n :
  v ++ x = pre ++ line ++ CRLF ++ d ++ CRLF ++ rest -> (length pre <= length v)%nat ->
  line ≠ [] -> Forall (fun c => 0 <= hexDigitValue c) line -> hexLoop 0 line = Some n ->
  0 < n -> zlen d = n -> zlen (v ++ x) <= string_max_size ->
  let chunk := pre ++ line ++ CRLF ++ d ++ CRLF in
  chunkedSizeLoop (S fuel) v (zlen pre) =
  if zlen v <? zlen chunk then Incomplete else chunkedSizeLoop fuel v (zlen chunk).
Proof.
  intros Hv Hpre Hne Hhex Hn Hpos Hd Hmax chunk.
  assert (Hchunk : zlen chunk = zlen pre + zlen line + 2 + n + 2).
  { unfold chunk. rewrite !zlen_app, Hd. change (zlen CRLF) with 2. lia. }
  assert (Hle : zlen chunk <= string_max_size).
  { etrans; [|exact Hmax]. rewrite Hv, Hchunk, !zlen_app, Hd. change (zlen CRLF) with 2. pose proof (zlen_nonneg rest). lia. }
  destruct (arrived_split _ _ _ _ Hv Hpre) as (w & -> & Hw).
  pose proof (zlen_nonneg line). pose proof (zlen_nonneg pre). unfold string_max_size in *.
  cbn [chunkedSizeLoop]. unfold sv_find. rewrite (Nat2Z.id _ : Z.to_nat (zlen pre) = length pre), drop_app_length.
  rewrite (find_line_arrived _ _ _ _ Hw) by (by apply hex_no_CR).
  rewrite zlen_app in *. destruct (Nat.ltb_spec (length w) (length line + 2)) as [Hs|Hs].
  { rewrite (proj2 (Z.ltb_lt _ _)); [done|]. unfold zlen in *. lia. }
  rewrite app_assoc in Hw. apply arrived_split in Hw as (w' & -> & Hw'); [|by rewrite length_app].
  cbn [fmap option_fmap option_map]. replace (length pre + length line - length pre)%nat with (length line) by lia.
  rewrite <- app_assoc, take_app_length, (size_hex line n) by (try done; unfold size_max; lia). rewrite (proj2 (Z.eqb_neq n 0)) by lia.
  assert (Ho : Z.of_nat (length pre + length line) + 2 = zlen pre + zlen line + 2) by (unfold zlen; lia).
  rewrite Ho. rewrite !u64_small by (unfold size_max; lia). rewrite Hchunk, !zlen_app in *. change (zlen CRLF) with 2.
  replace (zlen pre + zlen line + 2 + n + 2) with (zlen pre + (zlen line + (2 + (n + 2)))) by lia.
  destruct (Z.ltb_spec (zlen pre + (zlen line + (2 + zlen w'))) (zlen pre + (zlen line + (2 + (n + 2))))) as [Hi|Hi]; [done|].
  rewrite (proj2 (Z.ltb_ge _ _)) by lia.
  rewrite app_assoc in Hw'. apply arrived_split in Hw' as (t & -> & _);
    [|rewrite length_app; change (length CRLF) with 2%nat; unfold zlen in *; lia].
  replace (pre ++ line ++ CRLF ++ (d ++ CRLF) ++ t) with ((pre ++ line ++ CRLF ++ d) ++ CRLF ++ t)
    by (by rewrite <- !app_assoc).
  rewrite drop_app_exact by (rewrite !length_app; change (length CRLF) with 2%nat; unfold zlen in *; lia).
  change (take 2 (CRLF ++ t)) with CRLF. rewrite bool_decide_eq_true_2 by done. done.
Qed.

Lemma chunkedSizeLoop_last fuel v x pre tail :
  v ++ x = pre ++ str "0" ++ CRLF ++ CRLF ++ tail -> (length pre <= length v)%nat ->
  chunkedSizeLoop (S fuel) v (zlen pre) =
  if zlen v <? zlen pre + 5 then Incomplete else Size (zlen pre + 5).
Proof.
  intros Hv Hpre. destruct (arrived_split _ _ _ _ Hv Hpre) as (w & -> & Hw).
  cbn [chunkedSizeLoop]. unfold sv_find. rewrite (Nat2Z.id _ : Z.to_nat (zlen pre) = length pre), drop_app_length.
  rewrite (find_line_arrived _ _ _ _ Hw) by decide_closed.
  rewrite !zlen_app in *. change (length (str "0")) with 1%nat.
  destruct (Nat.ltb_spec (length w) (1 + 2)) as [Hs|Hs].
  { rewrite (proj2 (Z.ltb_lt _ _)); [done|]. unfold zlen in *. lia. }
  rewrite app_assoc in Hw. apply arrived_split in Hw as (w' & -> & Hw'); [|done].
  cbn [fmap option_fmap option_map]. replace (length pre + 1 - length pre)%nat with 1%nat by lia.
  rewrite <- app_assoc. change (take 1 (str "0" ++ CRLF ++ w')) with (str "0").
  rewrite (size_hex (str "0") 0); [|done|by repeat constructor|done|unfold size_max; lia]. cbn [Z.eqb].
  replace (length pre + 1 + 2)%nat with (length (pre ++ str "0" ++ CRLF)) by (rewrite !length_app; cbn; lia).
  rewrite (app_assoc (str "0")), app_assoc. rewrite (last_blank _ x (pre ++ str "0" ++ CRLF) tail).
  - rewrite !zlen_app. change (zlen CRLF) with 2. change (zlen (str "0")) with 1.
    replace (zlen pre + (1 + 2) + 2) with (zlen pre + 5) by lia.
    replace (zlen pre + (1 + 2) + zlen w') with (zlen pre + (1 + 2 + zlen w')) by lia. done.
  - rewrite <- !app_assoc. rewrite <- app_assoc in Hv. rewrite <- !app_assoc in Hv. rewrite Hv. done.
  - rewrite !length_app. lia.
Qed.

Lemma chunkedSizeLoop_build f : ∀ fuel v x pre rest tail,
  let msg := pre ++ buildChunkedLoop f rest ++ str "0" ++ CRLF ++ CRLF in
  v ++ x = msg ++ tail -> (length pre <= length v < length pre + fuel)%nat -> (length rest <= f)%nat ->
  zlen (v ++ x) <= string_max_size ->
  chunkedSizeLoop fuel v (zlen pre) = if zlen v <? zlen msg then Incomplete else Size (zlen msg).
Proof.
  induction f as [|f IH]; intros fuel v x pre rest tail msg Hv Hfuel Hr Hmax;
    (destruct fuel as [|fuel]; [lia|]); (destruct rest as [|b rest0]; [|]); try (simpl in Hr; lia).
  1,2: assert (Hmsg : zlen msg = zlen pre + 5) by (unfold msg; by rewrite !zlen_app); rewrite Hmsg;
    apply (chunkedSizeLoop_last fuel v x pre tail); [|lia]; rewrite Hv; unfold msg; by rewrite <- !app_assoc.
  set (rest := b :: rest0) in *. unfold msg in *. rewrite buildChunkedLoop_S in Hv |- * by done. cbv zeta in *.
  set (k := Z.min kChunkedEncodeBlockSize (zlen rest)) in *.
  assert (Hr1 : 1 <= zlen rest) by (unfold rest; rewrite zlen_cons; pose proof (zlen_nonneg rest0); lia).
  assert (Hk : 1 <= k <= 8192 ∧ k <= zlen rest) by (unfold k, kChunkedEncodeBlockSize; lia).
  assert (Htk : zlen (take (Z.to_nat k) rest) = k) by (unfold zlen in *; rewrite length_take; lia).
  assert (Hsz : k <= size_max) by (unfold size_max; lia).
  set (line := toChars 16 k) in *. set (d := take (Z.to_nat k) rest) in *.
  set (pre' := pre ++ line ++ CRLF ++ d ++ CRLF).
  set (more := buildChunkedLoop f (drop (Z.to_nat k) rest) ++ str "0" ++ CRLF ++ CRLF).
  assert (Hshape : pre ++ (line ++ CRLF ++ d ++ CRLF ++ buildChunkedLoop f (drop (Z.to_nat k) rest)) ++ str "0" ++ CRLF ++ CRLF
     = pre' ++ more) by (unfold pre', more; by rewrite <- !app_assoc).
  rewrite Hshape in *.
  rewrite (chunkedSizeLoop_chunk fuel v x pre line d (more ++ tail) k);
    [|rewrite Hv; unfold pre'; by rewrite <- !app_assoc | lia | apply toChars_nonempty | apply toChars16_chars; lia
     | apply hexLoop_toChars; lia | lia | done | done].
  fold pre'. assert (Hp : (length pre + 5 <= length pre')%nat).
  { unfold pre'. rewrite !length_app. change (length CRLF) with 2%nat. unfold zlen in Htk. lia. }
  destruct (Z.ltb_spec (zlen v) (zlen pre')).
  - rewrite (proj2 (Z.ltb_lt _ _)); [done|]. rewrite zlen_app. pose proof (zlen_nonneg more). lia.
  - apply (IH fuel v x pre' (drop (Z.to_nat k) rest) tail); [exact Hv| |rewrite length_drop|done]; unfold zlen in *; lia.
Qed.

(** A body written by [buildChunked]: incomplete until its last byte, then its exact size. *)
Lemma chunkedSize_build v x body tail :
  v ++ x = buildChunked body ++ tail -> zlen (v ++ x) <= string_max_size ->
  chunkedSize v = if zlen v <? zlen (buildChunked body) then Incomplete else Size (zlen (buildChunked body)).
Proof.
  intros Hv Hmax. unfold chunkedSize.
  apply (chunkedSizeLoop_build (length body) _ v x [] body tail); [exact Hv | simpl; lia | done | done].
Qed.

(** A round whose chunk is complete, by the values it computes. *)
Lemma chunkedSizeLoop_round fuel data offset lineEnd n next :
  sv_find data CRLF (Z.to_nat offset) = Some lineEnd ->
  sizeOfLine (take (lineEnd - Z.to_nat offset) (drop (Z.to_nat offset) data)) = Some n ->
  (n =? 0) = false -> u64 (Z.of_nat lineEnd + 2 + n + 2) = next -> (zlen data <? next) = false ->
  (zlen data <? u64 (Z.of_nat lineEnd + 2 + n)) = false ->
  (take 2 (drop (Z.to_nat (u64 (Z.of_nat lineEnd + 2 + n))) data) =s CRLF) = true ->
  chunkedSizeLoop (S fuel) data offset = chunkedSizeLoop fuel data next.
Proof. intros H1 H2 H3 H4 H5 H6 H7. cbn [chunkedSizeLoop]. by rewrite H1, H2, H3, H4, H5, H6, H7. Qed.

End Framing.
