(* ===== verification/Address.v ===== *)
(** * Network addresses (include/FastNet/Config.h, struct Address)

    Validation of IPv4, IPv6 and host names, the parser of "host:port" texts and the
    printer. *)

From S2P Require Import Prelude CType HttpParser.

Record Address := mkAddress { ip : list byte; port : Z }.

Definition hasPort (a : Address) : bool := negb (port a =? 0).

Definition stripBrackets (hostName : list byte) : list byte :=
  if (2 <=? length hostName)%nat && bool_decide (head hostName = Some x5b) && bool_decide (last hostName = Some x5d)
  then take (length hostName - 2) (drop 1 hostName)
  else hostName.

Definition normalizedHost (a : Address) : list byte := stripBrackets (ip a).

(** ** IPv4 *)

Definition partValue (part : list byte) : Z := fold_left (fun value ch => value * 10 + (bz ch - 48)) part 0.

Definition validPart (part : list byte) : bool :=
  negb (part =s []) && (length part <=? 3)%nat && forallb isdigit part && (partValue part <=? 255).

(** The loop leaves with [false] at the first bad part. *)
Definition isValidIPv4 (ipAddress : list byte) : bool :=
  let parts := splitOn x2e ipAddress in
  forallb validPart parts && (length parts =? 4)%nat.

(** ** IPv6 *)

Definition isxdigit (b : byte) : bool := isdigit b || in_range 65 70 b || in_range 97 102 b.

(** The token up to the next colon, and the text from the colon on. *)
Fixpoint splitColon (s : list byte) : list byte * list byte :=
  match s with
  | [] => ([], [])
  | c :: s' => if c =b x3a then ([], s) else let '(t, r) := splitColon s' in (c :: t, r)
  end.

Definition finishIPv6 (groups : Z) (compressed sawIpv4Tail : bool) : bool :=
  if sawIpv4Tail && (8 <? groups) then false
  else if compressed then groups <? 8 else groups =? 8.

(** [rest] is [hostName] from [index] on. *)
Fixpoint ipv6Loop (fuel : nat) (rest : list byte) (groups : Z) (compressed : bool) : bool :=
  match fuel with
  | O => false
  | S fuel =>
      match rest with
      | [] => finishIPv6 groups compressed false
      | c :: rest' =>
          if c =b x3a then
            match rest' with
            | d :: rest'' =>
                if (d =b x3a) && negb compressed then
                  if rest'' =s [] then finishIPv6 groups true false else ipv6Loop fuel rest'' groups true
                else false
            | [] => false
            end
          else
            let '(token, after) := splitColon rest in
            if bool_decide (x2e ∈ token) then
              if negb (isValidIPv4 token) then false
              else if negb (after =s []) then false
              else finishIPv6 (groups + 2) compressed true
            else if (token =s []) || (4 <? zlen token) then false
            else if negb (forallb isxdigit token) then false
            else
              let groups := groups + 1 in
              if 8 <? groups then false
              else
                match after with
                | _ :: d :: after' =>
                    if d =b x3a then
                      if compressed then false
                      else if after' =s [] then finishIPv6 groups true false
                      else ipv6Loop fuel after' groups true
                    else ipv6Loop fuel (d :: after') groups compressed
                | _ => ipv6Loop fuel [] groups compressed
                end
      end
  end.

Definition isValidIPv6 (hostName : list byte) : bool :=
  let hostName := stripBrackets hostName in
  if hostName =s [] then false else ipv6Loop (S (length hostName)) hostName 0 false.

(** ** Host names *)

(** [prev] is the character before [rest]. *)
Fixpoint hostnameLoop (rest : list byte) (prev : byte) (labelLength : Z) : option Z :=
  match rest with
  | [] => Some labelLength
  | ch :: rest =>
      if ch =b x2e then
        if (labelLength =? 0) || (prev =b x2d) then None else hostnameLoop rest ch 0
      else if negb (isalnum ch || (ch =b x2d)) then None
      else if (ch =b x2d) && (labelLength =? 0) then None
      else if 63 <? labelLength + 1 then None
      else hostnameLoop rest ch (labelLength + 1)
  end.

Definition isValidHostname (hostName : list byte) : bool :=
  if (hostName =s []) || (253 <? zlen hostName) then false
  else
    match hostnameLoop hostName x00 0 with
    | None => false
    | Some labelLength =>
        negb (labelLength =? 0) && negb (bool_decide (head hostName = Some x2e)) &&
        negb (bool_decide (last hostName = Some x2d))
    end.

Definition isValidHost (hostName : list byte) : bool :=
  let hostName := stripBrackets hostName in
  negb (hostName =s []) &&
  ((hostName =s str "localhost") || isValidIPv4 hostName || isValidIPv6 hostName || isValidHostname hostName).

Definition isLoopbackHost (hostName : list byte) : bool :=
  let hostName := stripBrackets hostName in
  if (hostName =s str "localhost") || (hostName =s str "::1") then true
  else if negb (isValidIPv4 hostName) then false
  else (4 <=? length hostName)%nat && (take 4 hostName =s str "127.").

Definition isAnyHost (hostName : list byte) : bool :=
  let hostName := stripBrackets hostName in (hostName =s str "0.0.0.0") || (hostName =s str "::").

Definition isValidPort (portNumber : Z) : bool := 0 <? portNumber.

(** ** Parsing and printing *)

Fixpoint portLoop (value : Z) (portText : list byte) : option Z :=
  match portText with
  | [] => Some value
  | ch :: rest =>
      if negb (isdigit ch) then None
      else
        let value := value * 10 + (bz ch - 48) in
        if 65535 <? value then None else portLoop value rest
  end.

Definition parsePortValue (portText : list byte) : option Z :=
  match portText with [] => None | _ => portLoop 0 portText end.

(** The host part and the port of a trimmed, non-empty endpoint. *)
Definition splitEndpoint (endpoint : list byte) (defaultPort : Z) : option (list byte * Z) :=
  if bool_decide (head endpoint = Some x5b) then
    closingBracket ← find_from x5d endpoint;
    let hostPart := take (closingBracket - 1) (drop 1 endpoint) in
    if (S closingBracket <? length endpoint)%nat then
      if negb (bool_decide (endpoint !! S closingBracket = Some x3a)) then None
      else p ← parsePortValue (drop (closingBracket + 2) endpoint); Some (hostPart, p)
    else Some (hostPart, defaultPort)
  else
    match find_from x3a endpoint with
    | Some firstColon =>
        if bool_decide (find_from x3a (drop (S firstColon) endpoint) = None)
        then p ← parsePortValue (drop (S firstColon) endpoint); Some (take firstColon endpoint, p)
        else Some (endpoint, defaultPort)
    | None => Some (endpoint, defaultPort)
    end.

Definition parse (endpoint : list byte) (defaultPort : Z) : option Address :=
  let endpoint := trim endpoint in
  if endpoint =s [] then None
  else
    '(hostPart, portValue) ← splitEndpoint endpoint defaultPort;
    let hostPart := trim hostPart in
    if hostPart =s [] then None
    else
      let address := mkAddress hostPart portValue in
      if negb (isValidHost (ip address)) || (hasPort address && negb (isValidPort (port address))) then None
      else Some address.

Definition isValid (a : Address) : bool := isValidHost (ip a) && isValidPort (port a).
Definition isIPv6 (a : Address) : bool := isValidIPv6 (ip a).
Definition isLoopback (a : Address) : bool := isLoopbackHost (ip a).
Definition isAnyAddress (a : Address) : bool := isAnyHost (ip a).

Definition toString (a : Address) : list byte :=
  let bare := stripBrackets (ip a) in
  if isIPv6 a then [x5b] ++ bare ++ str "]:" ++ appendUnsignedDecimal [] (port a)
  else bare ++ [x3a] ++ appendUnsignedDecimal [] (port a).

Definition addressEq (a b : Address) : bool := (stripBrackets (ip a) =s stripBrackets (ip b)) && (port a =? port b).

(** ** Characters of valid hosts *)

Definition nameChar (c : byte) : bool := isalnum c || (c =b x2d) || (c =b x2e).
Definition ipv6Char (c : byte) : bool := isxdigit c || (c =b x3a) || (c =b x2e).

Lemma splitOn_concat ch s : Forall (fun c => c = ch \/ ∃ p, p ∈ splitOn ch s ∧ c ∈ p) s.
Proof.
  induction s as [|c s IH]; [constructor|]. cbn [splitOn]. destruct (beqb_false c ch) as [_ Hne].
  destruct (c =b ch) eqn:E.
  - apply beqb_eq in E as ->. constructor; [by left|]. eapply Forall_impl; [exact IH|].
    intros x [->|(p & Hp & Hx)]; [by left|]. right. exists p. split; [by right | done].
  - destruct (splitOn ch s) as [|p ps] eqn:Es.
    + constructor; [right; exists [c]; split; by left|]. eapply Forall_impl; [exact IH|].
      intros x [->|(q & Hq & Hx)]; [by left | by apply elem_of_nil in Hq].
    + constructor; [right; exists (c :: p); split; by left|]. eapply Forall_impl; [exact IH|].
      intros x [->|(q & Hq & Hx)]; [by left|]. right. apply elem_of_cons in Hq as [->|Hq].
      * exists (c :: p). split; [by left | by right].
      * exists q. split; [by right | done].
Qed.

Lemma ipv4_chars s : isValidIPv4 s = true -> Forall (fun c => isdigit c || (c =b x2e) = true) s.
Proof.
  unfold isValidIPv4. intros [Hall _]%andb_true_iff. rewrite forallb_forall in Hall.
  eapply Forall_impl; [apply (splitOn_concat x2e)|]. intros c [->|(p & Hp & Hc)]; [done|].
  apply list_elem_of_In in Hp. specialize (Hall p Hp). unfold validPart in Hall. rewrite !andb_true_iff, forallb_forall in Hall.
  destruct Hall as [[_ Hd] _]. by rewrite Hd by (by apply list_elem_of_In).
Qed.

Lemma splitColon_spec s t r : splitColon s = (t, r) -> s = t ++ r ∧ (x3a ∉ t) ∧ (r = [] \/ ∃ r', r = x3a :: r').
Proof.
  revert t r. induction s as [|c s IH]; intros t r; cbn [splitColon].
  - intros [= <- <-]. split_and!; [done | apply not_elem_of_nil | by left].
  - destruct (c =b x3a) eqn:E.
    + apply beqb_eq in E as ->. intros [= <- <-]. split_and!; [done | apply not_elem_of_nil | right; by exists s].
    + destruct (splitColon s) as [t' r'] eqn:Es. intros [= <- <-]. destruct (IH t' r' eq_refl) as (-> & Hn & Hr).
      apply beqb_false in E. split_and!; [done | rewrite not_elem_of_cons; split; congruence | done].
Qed.

Lemma ipv6Loop_chars fuel : ∀ rest groups compressed,
  ipv6Loop fuel rest groups compressed = true -> Forall (fun c => ipv6Char c = true) rest.
Proof.
  induction fuel as [|fuel IH]; intros rest groups compressed; cbn [ipv6Loop]; [done|].
  destruct rest as [|c rest']; [constructor|]. destruct (c =b x3a) eqn:Ec.
  - apply beqb_eq in Ec as ->. destruct rest' as [|d rest'']; [done|]. destruct (d =b x3a) eqn:Ed; [|done].
    apply beqb_eq in Ed as ->. destruct compressed; [done|]. cbn [negb andb].
    destruct (bool_decide_reflect (rest'' = [])) as [->|]; intros H; repeat constructor. by eapply IH.
  - set (rest := c :: rest'). destruct (splitColon rest) as [token after] eqn:Es.
    apply splitColon_spec in Es as (Hr & _ & Hafter).
    destruct (bool_decide_reflect (x2e ∈ token)).
    + destruct (isValidIPv4 token) eqn:E4; [|done]. cbn [negb]. destruct (bool_decide_reflect (after = [])) as [->|]; [|done].
      intros _. rewrite Hr, app_nil_r. eapply Forall_impl; [by apply ipv4_chars|]. intros x. unfold ipv6Char, isxdigit.
      cbn beta. destruct (isdigit x), (x =b x2e); try done; by rewrite ?orb_true_r.
    + destruct ((token =s []) || _); [done|]. destruct (forallb isxdigit token) eqn:Ex; [|done]. cbn [negb].
      destruct (8 <? groups + 1); [done|].
      assert (Ht : Forall (fun c => ipv6Char c = true) token).
      { apply Forall_forall. intros x Hx. rewrite forallb_forall in Ex. unfold ipv6Char. by rewrite Ex by (by apply list_elem_of_In). }
      intros H. rewrite Hr. apply Forall_app. split; [done|].
      destruct Hafter as [->|(after' & ->)]; [constructor|]. destruct after' as [|d after']; [by repeat constructor|].
      destruct (d =b x3a) eqn:Ed.
      * apply beqb_eq in Ed as ->. destruct compressed; [done|].
        destruct (bool_decide_reflect (after' = [])) as [->|]; [by repeat constructor|]. do 2 (constructor; [done|]). by eapply IH.
      * constructor; [done|]. by eapply IH.
Qed.

Lemma hostnameLoop_chars rest : ∀ prev n m, hostnameLoop rest prev n = Some m -> Forall (fun c => nameChar c = true) rest.
Proof.
  induction rest as [|c rest IH]; intros prev n m; cbn [hostnameLoop]; [constructor|]. unfold nameChar.
  destruct (c =b x2e) eqn:E.
  - destruct (_ || _); [done|]. intros H. constructor; [by rewrite E, orb_true_r | by eapply IH].
  - destruct (isalnum c || (c =b x2d)) eqn:Ea; [|done]. cbn [negb]. destruct (_ && _); [done|]. destruct (_ <? _); [done|].
    intros H. constructor; [by rewrite Ea | by eapply IH].
Qed.

Lemma digit_alnum c : isdigit c || (c =b x2e) = true -> nameChar c = true.
Proof. unfold nameChar, isalnum. destruct (isdigit c), (c =b x2e); try done; by rewrite ?orb_true_r. Qed.

(** A host is either an IPv6 text or made of the characters of names. *)
Lemma host_chars h : stripBrackets h = h -> isValidHost h = true ->
  h ≠ [] ∧ ((isValidIPv6 h = true ∧ Forall (fun c => ipv6Char c = true) h) \/
            (isValidIPv6 h = false ∧ Forall (fun c => nameChar c = true) h)).
Proof.
  intros Hb. unfold isValidHost. rewrite Hb. intros [Hne Hv]%andb_true_iff.
  apply negb_true_iff, bool_decide_eq_false in Hne. split; [done|].
  destruct (isValidIPv6 h) eqn:E6; [left | right]; (split; [done|]).
  - unfold isValidIPv6 in E6. rewrite Hb, bool_decide_eq_false_2 in E6 by done. by eapply ipv6Loop_chars.
  - rewrite orb_false_r in Hv. apply orb_true_iff in Hv as [[->%bool_decide_eq_true|H4]%orb_true_iff|Hn].
    + by repeat constructor.
    + eapply Forall_impl; [by apply ipv4_chars | apply digit_alnum].
    + unfold isValidHostname in Hn. destruct (_ || _); [done|]. destruct (hostnameLoop h x00 0) eqn:El; [|done].
      by eapply hostnameLoop_chars.
Qed.

(** ** Ports *)

Lemma portLoop_value s : ∀ r, 0 <= r -> Forall (fun c => 0 <= decDigit c) s -> valueFrom 10 decDigit r s <= 65535 ->
  portLoop r s = Some (valueFrom 10 decDigit r s).
Proof.
  induction s as [|c s IH]; intros r Hr Hd Hv; [done|]. apply Forall_cons in Hd as [Hc Hd].
  cbn [portLoop]. unfold decDigit in Hc. destruct (isdigit c) eqn:E; [|lia]. cbn [negb].
  assert (Hdc : decDigit c = bz c - 48) by (unfold decDigit; by rewrite E).
  change (valueFrom 10 decDigit r (c :: s)) with (valueFrom 10 decDigit (r * 10 + decDigit c) s) in *. rewrite Hdc in *.
  pose proof (valueFrom_ge 10 decDigit (r * 10 + (bz c - 48)) s ltac:(lia) ltac:(lia) Hd).
  rewrite (proj2 (Z.ltb_ge 65535 _)) by lia. by apply IH; [lia|..].
Qed.

Lemma parsePortValue_toChars p : 0 <= p <= 65535 -> parsePortValue (toChars 10 p) = Some p.
Proof.
  intros Hp. assert (Hs : 0 <= p <= size_max) by (unfold size_max; lia).
  assert (Hd := toChars10_chars p Hs).
  assert (Hv : valueFrom 10 decDigit 0 (toChars 10 p) = p).
  { apply (toCharsLoop_value 10 decDigit 64 p []); [lia | apply digitChar_dec | pose proof (pow_fuel 10 p); lia | constructor]. }
  unfold parsePortValue. destruct (toChars 10 p) as [|c s] eqn:E; [by destruct (toChars_nonempty 10 p)|]. rewrite <- E in *.
  rewrite portLoop_value; [by rewrite Hv | lia | done | lia].
Qed.

Lemma portLoop_range s : ∀ r n, 0 <= r <= 65535 -> portLoop r s = Some n -> 0 <= n <= 65535.
Proof.
  induction s as [|c s IH]; intros r n Hr; cbn; [by intros [= <-]|]. destruct (isdigit c) eqn:E; [|done]. cbn.
  destruct (Z.ltb_spec 65535 (r * 10 + (bz c - 48))); [done|]. apply IH. apply isdigit_bz in E. lia.
Qed.

(** ** Splitting what was printed *)

Lemma trim_chars (P : byte -> bool) s :
  (∀ c, P c = true -> isspace c = false) -> Forall (fun c => P c = true) s -> trim s = s.
Proof. intros HP Hs. apply trim_id, trimmed_nospace. eapply Forall_impl; [exact Hs|]. apply HP. Qed.

Definition printedChar (c : byte) : bool := nameChar c || (c =b x3a) || (c =b x5b) || (c =b x5d).

Lemma printed_space c : printedChar c = true -> isspace c = false.
Proof. by byte_cases c. Qed.
Lemma name_printed c : nameChar c = true -> printedChar c = true ∧ c ≠ x3a ∧ c ≠ x5b ∧ c ≠ x5d.
Proof. by byte_cases c. Qed.
Lemma ipv6_printed c : ipv6Char c = true -> printedChar c = true ∧ c ≠ x5d.
Proof. by byte_cases c. Qed.
Lemma digit_printed c : 0 <= decDigit c -> printedChar c = true ∧ c ≠ x3a.
Proof. by byte_cases c. Qed.

Lemma toString_chars (a : Address) : stripBrackets (ip a) = ip a -> isValidHost (ip a) = true -> 0 <= port a <= 65535 ->
  Forall (fun c => printedChar c = true) (toString a).
Proof.
  intros Hb Hv Hp. destruct (host_chars _ Hb Hv) as (_ & Hh).
  assert (Hd : Forall (fun c => printedChar c = true) (toChars 10 (port a))).
  { eapply Forall_impl; [apply toChars10_chars; unfold size_max; lia|]. intros c Hc. by apply digit_printed. }
  unfold toString, isIPv6. rewrite Hb. change (appendUnsignedDecimal [] (port a)) with (toChars 10 (port a)).
  destruct Hh as [[-> Hc]|[-> Hc]]; rewrite !Forall_app; split_and!; try done; try (by repeat constructor).
  - eapply Forall_impl; [exact Hc|]. intros c Hi. by apply ipv6_printed.
  - eapply Forall_impl; [exact Hc|]. intros c Hi. by apply name_printed.
Qed.

Lemma splitEndpoint_toString (a : Address) d :
  stripBrackets (ip a) = ip a -> isValidHost (ip a) = true -> 0 <= port a <= 65535 ->
  splitEndpoint (toString a) d = Some (ip a, port a).
Proof.
  intros Hb Hv Hp. destruct (host_chars _ Hb Hv) as (Hne & Hh).
  unfold toString, isIPv6. rewrite Hb. change (appendUnsignedDecimal [] (port a)) with (toChars 10 (port a)).
  unfold splitEndpoint. destruct Hh as [[-> Hc]|[-> Hc]].
  - rewrite bool_decide_eq_true_2 by done.
    assert (Hf : find_from x5d ([x5b] ++ ip a ++ str "]:" ++ toChars 10 (port a)) = Some (S (length (ip a)))).
    { change ([x5b] ++ ip a ++ str "]:" ++ toChars 10 (port a)) with ((x5b :: ip a) ++ x5d :: x3a :: toChars 10 (port a)).
      apply (find_from_app x5d (x5b :: ip a)). rewrite not_elem_of_cons. split; [done|]. eapply not_elem_Forall; [exact Hc|]. done. }
    rewrite Hf. cbn [mbind option_bind]. cbn [app drop].
    rewrite (proj2 (Nat.ltb_lt _ _)) by (cbn; rewrite length_app; cbn; pose proof (toChars_nonempty 10 (port a)); lia).
    assert (Hl : (x5b :: ip a ++ str "]:" ++ toChars 10 (port a)) !! S (S (length (ip a))) = Some x3a).
    { change (x5b :: ip a ++ str "]:" ++ toChars 10 (port a)) with ((x5b :: ip a) ++ x5d :: x3a :: toChars 10 (port a)).
      rewrite lookup_app_r by (cbn; lia). cbn [length]. replace (S (S (length (ip a))) - S (length (ip a)))%nat with 1%nat by lia. done. }
    rewrite Hl, bool_decide_eq_true_2 by done. cbn [negb].
    replace (drop (S (length (ip a)) + 2) (x5b :: ip a ++ str "]:" ++ toChars 10 (port a))) with (toChars 10 (port a)).
    + rewrite parsePortValue_toChars by done. cbn [mbind option_bind]. do 2 f_equal.
      rewrite Nat.sub_succ, Nat.sub_0_r. apply take_app_length.
    + symmetry. replace (S (length (ip a)) + 2)%nat with (S (length (ip a ++ str "]:"))) by (rewrite length_app; cbn; lia).
      cbn [drop]. rewrite app_assoc. apply drop_app_length.
  - assert (Hn : x3a ∉ ip a) by (eapply not_elem_Forall; [exact Hc|]; done).
    assert (Hb' : head (ip a ++ [x3a] ++ toChars 10 (port a)) ≠ Some x5b).
    { destruct (ip a) as [|c r]; [done|]. cbn. intros [= ->]. by apply Forall_inv in Hc. }
    rewrite bool_decide_eq_false_2 by done. cbn [app].
    rewrite (find_from_app x3a (ip a)) by done.
    assert (Hdrop : drop (S (length (ip a))) (ip a ++ x3a :: toChars 10 (port a)) = toChars 10 (port a)).
    { change (ip a ++ x3a :: toChars 10 (port a)) with (ip a ++ [x3a] ++ toChars 10 (port a)). rewrite app_assoc.
      apply drop_app_exact. rewrite length_app. cbn. lia. }
    rewrite Hdrop, bool_decide_eq_true_2.
    + rewrite parsePortValue_toChars by done. cbn [mbind option_bind]. do 2 f_equal. apply take_app_length.
    + apply find_from_None. eapply not_elem_Forall; [apply toChars10_chars; unfold size_max; lia|]. by vm_compute.
Qed.

Lemma parsePortValue_range s n : parsePortValue s = Some n -> 0 <= n <= 65535.
Proof. destruct s; [done|]. apply portLoop_range. lia. Qed.

Lemma splitEndpoint_port e d h p : splitEndpoint e d = Some (h, p) -> p = d \/ 0 <= p <= 65535.
Proof.
  unfold splitEndpoint. case_match.
  - destruct (find_from x5d e); [|done]. cbn [mbind option_bind]. case_match; [|intros [= <- <-]; by left].
    case_match; [done|]. destruct (parsePortValue _) eqn:E; [|done]. intros [= <- <-]. right. by eapply parsePortValue_range.
  - destruct (find_from x3a e); [|intros [= <- <-]; by left]. case_match; [|intros [= <- <-]; by left].
    destruct (parsePortValue _) eqn:E; [|done]. intros [= <- <-]. right. by eapply parsePortValue_range.
Qed.

(** The rest of [parse] once the endpoint is split. *)
Lemma parse_split e (a : Address) d :
  e ≠ [] -> Forall (fun c => printedChar c = true) e -> splitEndpoint e d = Some (ip a, port a) ->
  stripBrackets (ip a) = ip a -> isValidHost (ip a) = true -> 0 <= port a -> parse e d = Some a.
Proof.
  intros He Hc Hs Hb Hv Hp. unfold parse. rewrite (trim_chars printedChar _ printed_space Hc), bool_decide_eq_false_2 by done.
  rewrite Hs. cbn [mbind option_bind]. destruct (host_chars _ Hb Hv) as [Hne Hh].
  assert (Ht : trim (ip a) = ip a).
  { apply (trim_chars printedChar); [apply printed_space|].
    destruct Hh as [[_ Hi]|[_ Hi]]; (eapply Forall_impl; [exact Hi|]); intros c Hx; [by apply ipv6_printed | by apply name_printed]. }
  rewrite Ht, bool_decide_eq_false_2 by done. cbn [ip port]. rewrite Hv. unfold hasPort, isValidPort. cbn [negb orb port].
  destruct (Z.eqb_spec (port a) 0); [by destruct a|]. cbn [negb andb]. rewrite (proj2 (Z.ltb_lt 0 _)) by lia. by destruct a.
Qed.

Lemma parse_toString (a : Address) d :
  stripBrackets (ip a) = ip a -> isValidHost (ip a) = true -> 0 <= port a <= 65535 ->
  parse (toString a) d = Some a.
Proof.
  intros Hb Hv Hp. apply parse_split; [|by apply toString_chars|by apply splitEndpoint_toString|done|done|lia].
  unfold toString. destruct (host_chars _ Hb Hv) as [Hne _]. rewrite Hb. destruct (isIPv6 a); [done|]. by destruct (ip a).
Qed.

(** A host alone, an IPv6 one in brackets, takes the default port. *)
Definition hostText (h : list byte) : list byte := if isValidIPv6 h then str "[" ++ h ++ str "]" else h.

Lemma hostText_chars h : stripBrackets h = h -> isValidHost h = true -> Forall (fun c => printedChar c = true) (hostText h).
Proof.
  intros Hb Hv. destruct (host_chars _ Hb Hv) as (_ & Hh). unfold hostText.
  destruct Hh as [[-> Hc]|[-> Hc]].
  - rewrite !Forall_app. split_and!; [by repeat constructor| |by repeat constructor].
    eapply Forall_impl; [exact Hc|]. intros c Hi. by apply ipv6_printed.
  - eapply Forall_impl; [exact Hc|]. intros c Hi. by apply name_printed.
Qed.

Lemma parse_hostText h d : stripBrackets h = h -> isValidHost h = true -> 0 <= d ->
  parse (hostText h) d = Some (mkAddress h d).
Proof.
  intros Hb Hv Hd. destruct (host_chars _ Hb Hv) as (Hne & Hh). apply parse_split; cbn [ip port]; try done.
  - unfold hostText. by destruct (isValidIPv6 h).
  - by apply hostText_chars.
  - unfold hostText, splitEndpoint. destruct Hh as [[-> Hc]|[-> Hc]].
    + rewrite bool_decide_eq_true_2 by done.
      change (str "[" ++ h ++ str "]") with ((x5b :: h) ++ [x5d]).
      rewrite (find_from_app x5d (x5b :: h)); [|rewrite not_elem_of_cons; split; [done|]; by eapply not_elem_Forall].
      cbn [mbind option_bind]. rewrite (proj2 (Nat.ltb_ge _ _)) by (rewrite length_app; cbn; lia).
      do 2 f_equal. cbn [app drop length]. rewrite Nat.sub_succ, Nat.sub_0_r. apply take_app_length.
    + rewrite bool_decide_eq_false_2 by (destruct h as [|c r]; [done|]; cbn; intros [= ->]; by apply Forall_inv in Hc).
      by rewrite (proj2 (find_from_None x3a h)) by (by eapply not_elem_Forall).
Qed.

Lemma stripBrackets_bare h : (head h ≠ Some x5b \/ last h ≠ Some x5d) -> stripBrackets h = h.
Proof.
  intros Hh. unfold stripBrackets. destruct (_ && _) eqn:E; [|done]. apply andb_true_iff in E as [E H2].
  apply andb_true_iff in E as [_ H1]. apply bool_decide_eq_true in H1, H2. by destruct Hh.
Qed.

Lemma trim_sub s c : c ∈ trim s -> c ∈ s.
Proof.
  unfold trim. rewrite elem_of_reverse. destruct (trimLeft_spec (reverse (trimLeft s))) as (p & E & _).
  destruct (trimLeft_spec s) as (q & E' & _). intros Hc. rewrite E', elem_of_app. right.
  rewrite <- elem_of_reverse, E, elem_of_app. by right.
Qed.

Lemma trim_head s c : isspace c = false -> head (trim (c :: s)) = Some c.
Proof.
  intros Hc. unfold trim. rewrite trimLeft_id by done. rewrite reverse_cons.
  assert (G : ∀ l, ∃ l', trimLeft (l ++ [c]) = l' ++ [c]).
  { induction l as [|x l [l' IH]]; cbn; [rewrite Hc; by exists []|]. destruct (isspace x); [by exists l' | by exists (x :: l)]. }
  destruct (G (reverse s)) as [l' ->]. by rewrite reverse_app.
Qed.

(** The host part never keeps a pair of brackets. *)
Lemma splitEndpoint_bare e d h p : trimmed e -> splitEndpoint e d = Some (h, p) -> stripBrackets (trim h) = trim h.
Proof.
  intros Ht. unfold splitEndpoint. case_bool_decide as Hb.
  - destruct (find_from x5d e) as [i|] eqn:Ei; [|done]. cbn [mbind option_bind].
    assert (G : stripBrackets (trim (take (i - 1) (drop 1 e))) = trim (take (i - 1) (drop 1 e))).
    { apply stripBrackets_bare. right. intros Hl%last_Some_elem_of%trim_sub. apply find_from_Some in Ei as (_ & Hn).
      apply elem_of_take in Hl as (k & Hk & Hi). rewrite lookup_drop in Hk. apply (Hn (1 + k)%nat); [lia | done]. }
    case_match; [case_match; [done|]; destruct (parsePortValue _); [|done]|]; by intros [= <- _].
  - assert (G : ∀ k, stripBrackets (trim (take k e)) = trim (take k e)).
    { intros k. apply stripBrackets_bare. left. destruct e as [|c e], k; cbn [take]; try done.
      rewrite trim_head; [done|]. by apply (proj1 Ht). }
    assert (Ge : stripBrackets (trim e) = trim e) by (rewrite <- (take_ge e (length e)) by done; apply G).
    destruct (find_from x3a e) as [i|]; [|by intros [= <- _]]. case_match; [|by intros [= <- _]].
    destruct (parsePortValue _); [|done]. by intros [= <- _].
Qed.

Lemma parse_valid e d a : 0 <= d <= 65535 -> parse e d = Some a ->
  isValidHost (ip a) = true ∧ stripBrackets (ip a) = ip a ∧ 0 <= port a <= 65535.
Proof.
  intros Hd. unfold parse. case_match; [done|]. destruct (splitEndpoint (trim e) d) as [[h p]|] eqn:E; [|done].
  cbn [mbind option_bind]. case_match; [done|]. cbn [ip port]. destruct (isValidHost (trim h)) eqn:Ev; [|done]. cbn [negb orb].
  case_match; [done|]. intros [= <-]. cbn [ip port]. pose proof (splitEndpoint_bare _ _ _ _ (trimmed_trim e) E).
  split_and!; try done; apply splitEndpoint_port in E; lia.
Qed.

(** ** Properties *)

(** An address with a valid host (written without brackets) and a 16-bit port is read
    back from the text it prints, IPv6 hosts through their brackets. *)
Theorem address_roundtrip (a : Address) d :
  stripBrackets (ip a) = ip a -> isValidHost (ip a) = true -> 0 <= port a <= 65535 ->
  parse (toString a) d = Some a.
Proof. apply parse_toString. Qed.

Lemma address_roundtrip_witness :
  parse (toString (mkAddress (str "2001:db8::ff00:42:8329") 8080)) 80 = Some (mkAddress (str "2001:db8::ff00:42:8329") 8080).
Proof.
  apply (address_roundtrip (mkAddress (str "2001:db8::ff00:42:8329") 8080) 80); [reflexivity | vm_compute; reflexivity | cbn; lia].
Defined.

(** C40. What [parse] returns is well formed: a valid host without the brackets of the text,
    and a 16-bit port; so it is read back from its own printing with any default port. *)
Theorem address_parse_valid e d a d' :
  0 <= d <= 65535 -> parse e d = Some a ->
  isValidHost (ip a) = true ∧ stripBrackets (ip a) = ip a ∧ 0 <= port a <= 65535 ∧ parse (toString a) d' = Some a.
Proof.
  intros Hd H. destruct (parse_valid _ _ _ Hd H) as (Hv & Hb & Hp). split_and!; try done; try lia. by apply parse_toString.
Qed.

Lemma address_parse_valid_witness :
  isValidHost (ip (mkAddress (str "::1") 8443)) = true ∧
  stripBrackets (ip (mkAddress (str "::1") 8443)) = ip (mkAddress (str "::1") 8443) ∧
  0 <= port (mkAddress (str "::1") 8443) <= 65535 ∧
  parse (toString (mkAddress (str "::1") 8443)) 80 = Some (mkAddress (str "::1") 8443).
Proof. apply (address_parse_valid (str " [::1]:8443 ") 443); [lia|]. vm_compute. reflexivity. Defined.

(** A text with a single colon at its end passes for an IPv6 address. *)
Example ipv6_trailing_colon : isValidIPv6 (str "1:2:3:4:5:6:7:8:") = true.
Proof. vm_compute. reflexivity. Qed.

Example ipv6_samples :
  isValidIPv6 (str "::") = true ∧ isValidIPv6 (str "::ffff:192.0.2.1") = true ∧ isValidIPv6 (str "1::2::3") = false ∧
  isValidIPv6 (str "1:2:3") = false ∧ isValidIPv6 (str "[fe80::1]") = true.
Proof. by vm_compute. Qed.
