(* ===== verification/HttpUrl.v ===== *)
(** * URLs and request targets of the HTTP client (src/HttpClient.cpp)

    Path normalisation, URL parsing, redirect targets and the texts rendered from a parsed
    URL.  [buildRequestPath] and [parseUrl] call each other on ever shorter texts. *)

From S2P Require Import Prelude CType HttpParser Address.

(** ** Searches of std::string_view *)

(** [find_first_of(set)]. *)
Fixpoint find_first_of (set s : list byte) : option nat :=
  match s with
  | [] => None
  | c :: s => if bool_decide (c ∈ set) then Some 0%nat else S <$> find_first_of set s
  end.

(** [rfind(ch)]. *)
Fixpoint rfind (ch : byte) (s : list byte) : option nat :=
  match s with
  | [] => None
  | c :: s => match rfind ch s with
              | Some i => Some (S i)
              | None => if c =b ch then Some 0%nat else None
              end
  end.

Definition toLowerCopy (value : list byte) : list byte := tolower <$> value.

(** The text before the first [ch], all of it when there is none. *)
Definition before (ch : byte) (s : list byte) : list byte :=
  match find_from ch s with Some p => take p s | None => s end.

(** ** Paths *)

(** One segment of the loop: empty and "." are skipped, ".." removes the last one kept. *)
Definition pushSegment (segments : list (list byte)) (segment : list byte) : list (list byte) :=
  if (segment =s []) || (segment =s str ".") then segments
  else if segment =s str ".." then take (length segments - 1) segments
  else segments ++ [segment].

Fixpoint joinSegments (segments : list (list byte)) : list byte :=
  match segments with
  | [] => []
  | [s] => s
  | s :: segments => s ++ str "/" ++ joinSegments segments
  end.

Definition normalizeHttpPath (value : list byte) : list byte :=
  let queryPart := match find_from x3f value with Some p => drop p value | None => [] end in
  let value := before x3f value in
  let absolute := (value =s []) || bool_decide (head value = Some x2f) in
  let segments := fold_left pushSegment (splitOn x2f value) [] in
  let normalized := (if absolute then str "/" else []) ++ joinSegments segments in
  (if normalized =s [] then str "/" else normalized) ++ queryPart.

Definition joinRelativePath (basePath relativePath : list byte) : list byte :=
  let basePath := before x3f basePath in
  let basePath := if bool_decide (head basePath = Some x2f) then basePath else str "/" in
  let baseDirectory := match rfind x2f basePath with Some p => take (S p) basePath | None => str "/" end in
  normalizeHttpPath (baseDirectory ++ relativePath).

(** ** URLs *)

Record ParsedUrl := mkUrl {
  protocol : list byte;
  url_host : list byte;
  url_port : Z;
  url_path : list byte
}.

(** [ParsedUrl{}]. *)
Definition emptyUrl : ParsedUrl := mkUrl [] [] 0 (str "/").

Definition setPath (u : ParsedUrl) (path : list byte) : ParsedUrl :=
  mkUrl (protocol u) (url_host u) (url_port u) path.

(** [parseUrl] with the [buildRequestPath] it calls; [None] is [return false]. *)
Definition parseUrlWith (buildPath : list byte -> list byte) (url : list byte) : option ParsedUrl :=
  let url := trim url in
  protocolPos ← find_sub (str "://") url;
  let protocol := toLowerCopy (take protocolPos url) in
  if negb (protocol =s str "http") && negb (protocol =s str "https") then None
  else
    let rest := drop (protocolPos + 3) url in
    let pathPos := find_first_of (str "/?#") rest in
    let authority := match pathPos with None => rest | Some p => take p rest end in
    if authority =s [] then None
    else
      let authority := match rfind x40 authority with Some p => drop (S p) authority | None => authority end in
      let defaultPort := if protocol =s str "https" then 443 else 80 in
      address ← parse authority defaultPort;
      if port address =? 0 then None
      else
        let target := match pathPos with None => str "/" | Some p => drop p rest end in
        let target := before x23 target in
        let target := if target =s [] then str "/" else target in
        let path := if bool_decide (head target = Some x3f) then str "/" ++ target else buildPath target in
        if negb (normalizedHost address =s []) && negb (path =s [])
        then Some (mkUrl protocol (normalizedHost address) (port address) path)
        else None.

(** The path of the URL before its query, "/" for an empty one. *)
Definition queryBase (basePath : list byte) : list byte :=
  let path := before x3f basePath in
  if path =s [] then str "/" else path.

(** [basePath] is [parsedUrl_.path]. *)
Fixpoint buildRequestPathFuel (fuel : nat) (basePath path : list byte) : list byte :=
  match fuel with
  | O => []
  | S fuel =>
      let whole := if basePath =s [] then str "/" else basePath in
      if path =s [] then whole
      else if path =s str "*" then str "*"
      else
        let path := before x23 path in
        if path =s [] then whole
        else if bool_decide (head path = Some x3f) then queryBase basePath ++ path
        else
          let absoluteUrl :=
            match find_sub (str "://") path with
            | Some _ => parseUrlWith (buildRequestPathFuel fuel basePath) path
            | None => None
            end in
          match absoluteUrl with
          | Some u => url_path u
          | None =>
              if bool_decide (head path = Some x2f) then normalizeHttpPath path
              else normalizeHttpPath (str "/" ++ path)
          end
  end.

Definition buildRequestPath (basePath path : list byte) : list byte :=
  buildRequestPathFuel (S (length path)) basePath path.

Definition parseUrl (basePath url : list byte) : option ParsedUrl :=
  parseUrlWith (buildRequestPath basePath) url.

(** ** Redirects *)

Definition resolveRedirect (u : ParsedUrl) (location : list byte) : option ParsedUrl :=
  let location := before x23 (trim location) in
  if location =s [] then Some u
  else if bool_decide (find_sub (str "://") location ≠ None) then parseUrl (url_path u) location
  else if is_prefix (str "//") location then parseUrl (url_path u) (protocol u ++ str ":" ++ location)
  else if bool_decide (head location = Some x2f) then Some (setPath u (normalizeHttpPath location))
  else if bool_decide (head location = Some x3f) then Some (setPath u (queryBase (url_path u) ++ location))
  else Some (setPath u (joinRelativePath (url_path u) location)).

Definition isRedirect (statusCode : Z) : bool :=
  (statusCode =? 301) || (statusCode =? 302) || (statusCode =? 303) || (statusCode =? 307) || (statusCode =? 308).

(** ** Proxies and rendered texts *)

Record HttpProxyOptions := mkProxy {
  proxy_host : list byte;
  proxy_port : Z;
  proxy_headers : strmap;
  username : list byte;
  password : list byte
}.

(** [HttpProxyOptions{}]. *)
Definition noProxy : HttpProxyOptions := mkProxy [] 0 [] [] [].

Definition enabled (p : HttpProxyOptions) : bool := negb (proxy_host p =s []) && negb (proxy_port p =? 0).

Definition parseProxyUrl (proxyUrl : list byte) : option HttpProxyOptions :=
  let proxyUrl := trim proxyUrl in
  if proxyUrl =s [] then None
  else
    let '(protocol, proxyUrl) :=
      match find_sub (str "://") proxyUrl with
      | Some p => (toLowerCopy (take p proxyUrl), drop (p + 3) proxyUrl)
      | None => (str "http", proxyUrl)
      end in
    if negb (protocol =s str "http") then None
    else
      let authority := match find_first_of (str "/?#") proxyUrl with None => proxyUrl | Some p => take p proxyUrl end in
      if authority =s [] then None
      else
        let '(userName, passWord, authority) :=
          match rfind x40 authority with
          | None => ([], [], authority)
          | Some at_ =>
              let userInfo := take at_ authority in
              let authority := drop (S at_) authority in
              match find_from x3a userInfo with
              | None => (urlDecode userInfo, [], authority)
              | Some c => (urlDecode (take c userInfo), urlDecode (drop (S c) userInfo), authority)
              end
          end in
        address ← parse authority 8080;
        if port address =? 0 then None
        else Some (mkProxy (normalizedHost address) (port address) [] userName passWord).

Definition buildHostHeader (u : ParsedUrl) : list byte :=
  let defaultPort := ((protocol u =s str "http") && (url_port u =? 80)) ||
                     ((protocol u =s str "https") && (url_port u =? 443)) in
  let renderedHost := if isValidIPv6 (url_host u) then str "[" ++ url_host u ++ str "]" else url_host u in
  if defaultPort then renderedHost else renderedHost ++ str ":" ++ toChars 10 (url_port u).

Definition buildTransportRequestTarget (proxy : HttpProxyOptions) (u : ParsedUrl) (path : list byte) : list byte :=
  if negb (enabled proxy) || negb (protocol u =s str "http") || (path =s str "*") then path
  else protocol u ++ str "://" ++ buildHostHeader u ++ path.

Example url_samples :
  parseUrl [] (str " HTTP://user:pw@Example.com:8080/a/./b/../c?x=1#top ") =
    Some (mkUrl (str "http") (str "Example.com") 8080 (str "/a/c?x=1")) ∧
  parseUrl [] (str "https://[::1]?q") = Some (mkUrl (str "https") (str "::1") 443 (str "/?q")) ∧
  parseUrl [] (str "ftp://h/") = None ∧
  resolveRedirect (mkUrl (str "http") (str "h") 80 (str "/d/e?k=1")) (str "../f#s") =
    Some (mkUrl (str "http") (str "h") 80 (str "/f")) ∧
  resolveRedirect (mkUrl (str "http") (str "h") 80 (str "/d/e?k=1")) (str "?z") =
    Some (mkUrl (str "http") (str "h") 80 (str "/d/e?z")) ∧
  parseProxyUrl (str "u%40x:p@proxy:3128/") = Some (mkProxy (str "proxy") 3128 [] (str "u@x") (str "p")).
Proof. by vm_compute. Qed.

(** ** Normalised paths *)

(** A segment the walk keeps. *)
Definition plainSegment (s : list byte) : Prop :=
  s ≠ [] ∧ s ≠ str "." ∧ s ≠ str ".." ∧ (x2f ∉ s) ∧ (x3f ∉ s).

Lemma pushSegment_plain segs s :
  Forall plainSegment segs -> (x2f ∉ s) -> (x3f ∉ s) -> Forall plainSegment (pushSegment segs s).
Proof.
  intros Hs H1 H2. unfold pushSegment. case_bool_decide; [done|]. case_bool_decide; [done|]. cbn [orb].
  case_bool_decide; [by apply Forall_take|]. apply Forall_app. split; [done|]. by repeat constructor.
Qed.

Lemma walk_plain l : ∀ segs, Forall plainSegment segs -> Forall (fun s => (x2f ∉ s) ∧ (x3f ∉ s)) l ->
  Forall plainSegment (fold_left pushSegment l segs).
Proof.
  induction l as [|s l IH]; intros segs Hs Hl; cbn; [done|]. apply Forall_cons in Hl as [[H1 H2] Hl].
  apply IH; [by apply pushSegment_plain | done].
Qed.

Lemma walk_kept l : ∀ segs, Forall plainSegment l -> fold_left pushSegment l segs = segs ++ l.
Proof.
  induction l as [|s l IH]; intros segs Hl; cbn; [by rewrite app_nil_r|]. apply Forall_cons in Hl as [(H1 & H2 & H3 & _) Hl].
  rewrite IH by done. unfold pushSegment. rewrite !bool_decide_eq_false_2 by done. cbn [orb]. by rewrite <- app_assoc.
Qed.

Lemma splitOn_join segs : Forall plainSegment segs -> segs ≠ [] -> splitOn x2f (joinSegments segs) = segs.
Proof.
  induction segs as [|s segs IH]; intros Hs Hn; [done|]. apply Forall_cons in Hs as [(_ & _ & _ & H & _) Hs].
  destruct segs as [|t segs]; [by apply splitOn_plain|]. 
  change (joinSegments (s :: t :: segs)) with (s ++ x2f :: joinSegments (t :: segs)). rewrite (splitOn_app x2f s) by done. by rewrite IH.
Qed.

Lemma joinSegments_no_query segs : Forall plainSegment segs -> x3f ∉ joinSegments segs.
Proof.
  induction segs as [|s segs IH]; intros Hs; [apply not_elem_of_nil|]. apply Forall_cons in Hs as [(_ & _ & _ & _ & H) Hs].
  destruct segs as [|t segs]; [done|]. 
  change (joinSegments (s :: t :: segs)) with (s ++ str "/" ++ joinSegments (t :: segs)).
  rewrite !not_elem_of_app. split_and!; [done | decide_closed | by apply IH].
Qed.

Lemma joinSegments_head segs : Forall plainSegment segs -> head (joinSegments segs) ≠ Some x2f ∧ (segs ≠ [] -> joinSegments segs ≠ []).
Proof.
  destruct segs as [|s segs]; intros Hs; [done|]. apply Forall_cons in Hs as [(H1 & _ & _ & H & _) Hs].
  destruct s as [|c s]; [done|]. apply not_elem_of_cons in H as [Hc _]. destruct segs; cbn; split; congruence.
Qed.

Lemma before_split ch s : s = before ch s ++ match find_from ch s with Some p => drop p s | None => [] end ∧ (ch ∉ before ch s).
Proof.
  unfold before. destruct (find_from ch s) as [p|] eqn:E.
  - split; [by rewrite take_drop|]. apply find_from_Some in E as [_ Hn]. intros Hc.
    apply elem_of_take in Hc as (i & Hi & Hl). by apply (Hn i Hl).
  - rewrite app_nil_r. split; [done|]. by apply find_from_None.
Qed.

Lemma before_plain ch s : ch ∉ s -> before ch s = s.
Proof. intros H. unfold before. by rewrite (proj2 (find_from_None ch s) H). Qed.

(** The shape of a normalised path. *)
Definition queryOf (v : list byte) : list byte := match find_from x3f v with Some p => drop p v | None => [] end.

Definition rendered (absolute : bool) (segs : list (list byte)) : list byte :=
  (if absolute || (bool_decide (segs = [])) then str "/" else []) ++ joinSegments segs.

Lemma normalize_shape v : ∃ segs, Forall plainSegment segs ∧
  segs = fold_left pushSegment (splitOn x2f (before x3f v)) [] ∧
  normalizeHttpPath v = rendered ((before x3f v =s []) || bool_decide (head (before x3f v) = Some x2f)) segs ++ queryOf v.
Proof.
  assert (Hw : Forall plainSegment (fold_left pushSegment (splitOn x2f (before x3f v)) [])).
  { apply walk_plain; [constructor|]. apply Forall_forall. intros s Hs. destruct (before_split x3f v) as [_ Hq].
    split; intros Hc; destruct (splitOn_elem _ _ _ _ Hs Hc); done. }
  exists (fold_left pushSegment (splitOn x2f (before x3f v)) []). split_and!; [done|done|].
  unfold normalizeHttpPath. fold (queryOf v). f_equal. unfold rendered.
  destruct (joinSegments_head _ Hw) as [_ Hne]. set (segs := fold_left _ _ _) in *.
  destruct ((before x3f v =s []) || _); cbn [orb]; [done|]. cbn [app].
  destruct (decide (segs = [])) as [E|E].
  - by rewrite E.
  - rewrite !bool_decide_eq_false_2 by (try apply Hne; done). done.
Qed.

Lemma queryOf_app p q : (x3f ∉ p) -> (q = [] \/ head q = Some x3f) -> queryOf (p ++ q) = q ∧ before x3f (p ++ q) = p.
Proof.
  intros Hp [->|Hq].
  - rewrite app_nil_r, before_plain by done. unfold queryOf. by rewrite (proj2 (find_from_None x3f p) Hp).
  - destruct q as [|c q]; [done|]. injection Hq as ->. unfold queryOf, before. rewrite find_from_app by done.
    by rewrite drop_app_length, take_app_length.
Qed.

Lemma queryOf_head v : queryOf v = [] \/ head (queryOf v) = Some x3f.
Proof.
  unfold queryOf. destruct (find_from x3f v) as [p|] eqn:E; [right|by left]. apply find_from_Some in E as [E _].
  by rewrite (drop_S _ _ _ E).
Qed.

Lemma rendered_no_query b segs : Forall plainSegment segs -> x3f ∉ rendered b segs.
Proof.
  intros H. unfold rendered. rewrite not_elem_of_app. split; [|by apply joinSegments_no_query].
  destruct (_ || _); [decide_closed | apply not_elem_of_nil].
Qed.

(** A rendered walk splits into its segments again. *)
Lemma rendered_walk b segs : Forall plainSegment segs ->
  fold_left pushSegment (splitOn x2f (rendered b segs)) [] = segs ∧
  (rendered b segs =s []) = false ∧
  (bool_decide (head (rendered b segs) = Some x2f)) = b || bool_decide (segs = []).
Proof.
  intros H. destruct (joinSegments_head segs H) as [Hh Hne]. unfold rendered. destruct (b || _) eqn:E; cbn [app].
  - change (str "/" ++ joinSegments segs) with (x2f :: joinSegments segs). split_and!; [|by apply bool_decide_eq_false_2|by apply bool_decide_eq_true_2].
    cbn [splitOn]. rewrite beqb_refl. cbn [fold_left]. change (pushSegment [] []) with (@nil (list byte)).
    destruct (decide (segs = [])) as [->|Hn]; [done|]. rewrite splitOn_join by done. by rewrite walk_kept.
  - apply orb_false_iff in E as [_ E]. apply bool_decide_eq_false in E. rewrite splitOn_join, walk_kept by done.
    split_and!; [done | by apply bool_decide_eq_false_2, Hne | by apply bool_decide_eq_false_2].
Qed.

Lemma normalize_rendered b segs q : Forall plainSegment segs -> (q = [] \/ head q = Some x3f) ->
  normalizeHttpPath (rendered b segs ++ q) = rendered b segs ++ q.
Proof.
  intros Hs Hq. destruct (queryOf_app (rendered b segs) q (rendered_no_query b segs Hs) Hq) as [Hqo Hb].
  destruct (normalize_shape (rendered b segs ++ q)) as (segs' & _ & Hw & ->). rewrite Hb in *. rewrite Hqo.
  destruct (rendered_walk b segs Hs) as (Hk & Hn & Hh). rewrite Hk in Hw. subst segs'. rewrite Hn, Hh. cbn [orb].
  unfold rendered. by destruct b, (bool_decide (segs = [])).
Qed.

Lemma normalize_head v : head v = Some x2f -> head (normalizeHttpPath v) = Some x2f.
Proof.
  intros Hv. destruct (normalize_shape v) as (segs & _ & _ & ->).
  assert (Hb : head (before x3f v) = Some x2f).
  { destruct v as [|c v]; [done|]. injection Hv as ->. unfold before. cbn [find_from]. change (x2f =b x3f) with false.
    by destruct (find_from x3f v). }
  rewrite (bool_decide_eq_true_2 (head _ = _)), orb_true_r by done. done.
Qed.

Lemma joinSegments_elem segs c : c ∈ joinSegments segs -> c = x2f \/ ∃ s, s ∈ segs ∧ c ∈ s.
Proof.
  induction segs as [|s segs IH]; [by intros ?%elem_of_nil|]. destruct segs as [|t segs].
  - intros Hc. right. exists s. split; [by left|done].
  - change (joinSegments (s :: t :: segs)) with (s ++ [x2f] ++ joinSegments (t :: segs)).
    rewrite !elem_of_app, list_elem_of_singleton. intros [Hc|[->|Hc]]; [right; exists s; split; [by left|done] | by left|].
    destruct (IH Hc) as [->|(r & Hr & Hx)]; [by left|]. right. exists r. split; [by right|done].
Qed.

Lemma walk_elem l : ∀ segs s, s ∈ fold_left pushSegment l segs -> s ∈ segs \/ s ∈ l.
Proof.
  induction l as [|x l IH]; intros segs s; cbn; [by left|]. intros [Hs|Hs]%IH; [|by right; right].
  unfold pushSegment in Hs. destruct (_ || _); [by left|]. case_bool_decide.
  - left. by apply elem_of_take in Hs as (i & Hi & _); apply list_elem_of_lookup_2 in Hi.
  - apply elem_of_app in Hs as [Hs|Hs]; [by left|]. apply list_elem_of_singleton in Hs as ->. by right; left.
Qed.

(** Normalisation brings no character of its own but the slash. *)
Lemma normalize_chars v c : c ∈ normalizeHttpPath v -> c = x2f \/ c ∈ v.
Proof.
  destruct (normalize_shape v) as (segs & _ & Hw & ->). unfold rendered. rewrite !elem_of_app. intros [[Hc|Hc]|Hc].
  - left. destruct (_ || _); [by apply list_elem_of_singleton in Hc | by apply elem_of_nil in Hc].
  - apply joinSegments_elem in Hc as [->|(s & Hs & Hc)]; [by left|]. right. subst segs.
    apply walk_elem in Hs as [Hs|Hs]; [by apply elem_of_nil in Hs|]. destruct (splitOn_elem _ _ _ _ Hs Hc) as [_ Hb].
    rewrite (proj1 (before_split x3f v)), elem_of_app. by left.
  - right. rewrite (proj1 (before_split x3f v)), elem_of_app. by right.
Qed.

(** ** Request targets *)

Lemma find_first_of_Some set s p : find_first_of set s = Some p ->
  ∃ c, s !! p = Some c ∧ c ∈ set ∧ Forall (fun x => x ∉ set) (take p s).
Proof.
  revert p. induction s as [|x s IH]; intros p; cbn; [done|]. case_bool_decide as Hx.
  - intros [= <-]. exists x. split_and!; [done|done|constructor].
  - destruct (find_first_of set s) as [q|]; [|done]. intros [= <-]. destruct (IH q eq_refl) as (c & Hc & Hs & Hf).
    exists c. split_and!; [done|done|]. cbn. by constructor.
Qed.

Lemma find_first_of_app set p c s : Forall (fun x => x ∉ set) p -> c ∈ set -> find_first_of set (p ++ c :: s) = Some (length p).
Proof.
  intros Hp Hc. induction Hp as [|x p Hx _ IH]; cbn; [by rewrite bool_decide_eq_true_2|].
  rewrite bool_decide_eq_false_2 by done. change (p ++ c :: s) with (p ++ [c] ++ s) in *. by rewrite IH.
Qed.

Lemma rfind_None ch s : ch ∉ s -> rfind ch s = None.
Proof. induction s as [|c s IH]; cbn; [done|]. rewrite not_elem_of_cons. intros [Hc Hs]. by rewrite IH, beqb_neq. Qed.

(** The target [parseUrl] hands on. *)
Definition targetOf (rest : list byte) : list byte :=
  let target := before x23 (match find_first_of (str "/?#") rest with None => str "/" | Some p => drop p rest end) in
  if target =s [] then str "/" else target.

Lemma targetOf_spec rest : (x23 ∉ targetOf rest) ∧ (head (targetOf rest) = Some x2f \/ head (targetOf rest) = Some x3f).
Proof.
  unfold targetOf. destruct (find_first_of (str "/?#") rest) as [p|] eqn:E.
  - apply find_first_of_Some in E as (c & Hl & Hc & _). rewrite (drop_S _ _ _ Hl).
    destruct (before_split x23 (c :: drop (S p) rest)) as [_ Hn]. unfold before in *. cbn [find_from] in *.
    change (str "/?#") with [x2f; x3f; x23] in Hc. rewrite !elem_of_cons, elem_of_nil in Hc.
    destruct Hc as [->|[->|[->|[]]]]; cbn [Byte.eqb] in *.
    + change (x2f =b x23) with false in *. cbv iota in *. destruct (find_from x23 (drop (S p) rest)); cbn [fmap option_fmap option_map] in *;
        (rewrite bool_decide_eq_false_2 by done); (split; [done|by left]).
    + change (x3f =b x23) with false in *. cbv iota in *. destruct (find_from x23 (drop (S p) rest)); cbn [fmap option_fmap option_map] in *;
        (rewrite bool_decide_eq_false_2 by done); (split; [done|by right]).
    + change (x23 =b x23) with true. cbv iota. cbn [take].  rewrite bool_decide_eq_true_2 by done. split; [decide_closed|by left].
  - vm_compute. split; [|by left]. intros H. inversion H as [|? ? ? H']; subst. inversion H'.
Qed.

Lemma parseUrlWith_slash f s : parseUrlWith f (x2f :: s) = None.
Proof.
  unfold parseUrlWith. pose proof (trim_head s x2f eq_refl) as Ht. destruct (trim (x2f :: s)) as [|c t]; [done|].
  injection Ht as ->. destruct (find_sub (str "://") (x2f :: t)) as [p|]; [|done]. cbn [mbind option_bind].
  assert (H : ∀ r, head r = Some x68 -> toLowerCopy (take p (x2f :: t)) ≠ r).
  { intros r Hr <-. destruct p; vm_compute in Hr; discriminate. }
  rewrite (bool_decide_eq_false_2 (_ = str "http")), (bool_decide_eq_false_2 (_ = str "https")); [done|by apply H..].
Qed.

Lemma buildFuel_slash fuel base t : head t = Some x2f -> (x23 ∉ t) -> buildRequestPathFuel (S fuel) base t = normalizeHttpPath t.
Proof.
  intros Hh Ht. destruct t as [|c t]; [done|]. injection Hh as ->. cbn [buildRequestPathFuel].
  rewrite !bool_decide_eq_false_2 by (intros [=]). rewrite before_plain by done.
  rewrite !bool_decide_eq_false_2 by (intros [=]). rewrite parseUrlWith_slash.
  destruct (find_sub _ _); by rewrite bool_decide_eq_true_2.
Qed.

(** A guard that returns [false]. *)
Ltac pass_guard :=
  match goal with
  | |- (if ?b then None else _) = _ -> _ => destruct b eqn:?; [done|]
  | |- (if ?b then _ else None) = _ -> _ => destruct b eqn:?; [|intros [=]]
  | |- (if ?b then None else _) = _ => destruct b eqn:?; [done|]
  end.

(** [parseUrl] asks its continuation only for targets that start with a slash. *)
Lemma parseUrlWith_ext f g url :
  (∀ t, head t = Some x2f -> (x23 ∉ t) -> f t = g t) -> parseUrlWith f url = parseUrlWith g url.
Proof.
  intros Hfg. unfold parseUrlWith. destruct (find_sub _ _) as [p|]; [|done]. cbn [mbind option_bind].
  do 2 pass_guard. destruct (parse _ _); [|done]. cbn [mbind option_bind]. pass_guard.
  pose proof (targetOf_spec (drop (p + 3) (trim url))) as [Hn Hh]. unfold targetOf in *.
  set (target := if _ =s [] then _ else _) in *.
  destruct (bool_decide (head target = Some x3f)) eqn:Eq; [done|]. apply bool_decide_eq_false in Eq. destruct Hh; [|done].
  by rewrite Hfg.
Qed.

Lemma buildFuel_enough fuel fuel' base t : (length t < fuel)%nat -> (length t < fuel')%nat ->
  buildRequestPathFuel fuel base t = buildRequestPathFuel fuel' base t.
Proof.
  intros H1 H2. destruct fuel as [|fuel], fuel' as [|fuel']; try lia. cbn [buildRequestPathFuel].
  case_bool_decide as Hn; [done|]. destruct fuel as [|fuel], fuel' as [|fuel']; try (destruct t; [done|cbn [length] in *; lia]).
  do 3 (case_bool_decide; [done|]). destruct (find_sub _ _); [|done].
  rewrite (parseUrlWith_ext (buildRequestPathFuel (S fuel) base) (buildRequestPathFuel (S fuel') base)); [done|].
  intros r Hr Hx. by rewrite !buildFuel_slash.
Qed.

(** The equation of the code: [buildRequestPath] calls [parseUrl]. *)
Lemma buildRequestPath_eq base path :
  buildRequestPath base path =
    let whole := if base =s [] then str "/" else base in
    if path =s [] then whole
    else if path =s str "*" then str "*"
    else
      let path := before x23 path in
      if path =s [] then whole
      else if bool_decide (head path = Some x3f) then queryBase base ++ path
      else
        match match find_sub (str "://") path with Some _ => parseUrl base path | None => None end with
        | Some u => url_path u
        | None => if bool_decide (head path = Some x2f) then normalizeHttpPath path else normalizeHttpPath (str "/" ++ path)
        end.
Proof.
  unfold buildRequestPath at 1. rewrite (buildFuel_enough _ (S (S (length path))) base path) by lia. cbn [buildRequestPathFuel].
  do 4 (case_bool_decide; [done|]). destruct (find_sub _ _); [|done].
  unfold parseUrl. rewrite (parseUrlWith_ext (buildRequestPathFuel (S (length path)) base) (buildRequestPath base)); [done|].
  intros r Hr Hx. unfold buildRequestPath. by rewrite !buildFuel_slash.
Qed.

(** ** Valid URLs *)

Record validUrl (u : ParsedUrl) : Prop := {
  vu_protocol : protocol u = str "http" \/ protocol u = str "https";
  vu_host : isValidHost (url_host u) = true ∧ stripBrackets (url_host u) = url_host u;
  vu_port : 1 <= url_port u <= 65535;
  vu_path : head (url_path u) = Some x2f ∧ (x23 ∉ url_path u)
}.

Lemma normalize_valid v : head v = Some x2f -> (x23 ∉ v) ->
  head (normalizeHttpPath v) = Some x2f ∧ (x23 ∉ normalizeHttpPath v).
Proof. intros H1 H2. split; [by apply normalize_head|]. by intros [H|H]%normalize_chars. Qed.

Lemma parseUrl_validUrl base url u : parseUrl base url = Some u -> validUrl u.
Proof.
  unfold parseUrl, parseUrlWith. destruct (find_sub _ _) as [p|]; [|done]. cbn [mbind option_bind].
  set (proto := toLowerCopy _). destruct (_ && _) eqn:Ep; [done|]. pass_guard. destruct (parse _ _) as [a|] eqn:Ea; [|done].
  cbn [mbind option_bind]. destruct (Z.eqb_spec (port a) 0) as [|H0]; [done|].
  apply parse_valid in Ea as (Hv & Hb & Hp); [|case_bool_decide; lia].
  pose proof (targetOf_spec (drop (p + 3) (trim url))) as [Hn Hh]. fold (targetOf (drop (p + 3) (trim url))) in *.
  pass_guard. intros [= <-]. clear Heqb Heqb0. unfold normalizedHost. rewrite Hb. split; cbn [protocol url_host url_port url_path].
  - apply andb_false_iff in Ep as [E|E]; apply negb_false_iff, bool_decide_eq_true in E; auto.
  - done.
  - lia.
  - destruct (bool_decide (head (targetOf _) = Some x3f)) eqn:Hq.
    + split; [done|]. apply not_elem_of_cons. split; [done|]. exact Hn.
    + apply bool_decide_eq_false in Hq. destruct Hh as [Hh|Hh]; [|done]. unfold buildRequestPath. rewrite buildFuel_slash by done. by apply normalize_valid.
Qed.

Lemma queryBase_valid base q : head base = Some x2f -> (x23 ∉ base) -> (x23 ∉ q) ->
  head (queryBase base ++ q) = Some x2f ∧ (x23 ∉ queryBase base ++ q).
Proof.
  intros Hh Hn Hq. destruct (before_split x3f base) as [Hs _]. unfold queryBase.
  assert (Hb : head (before x3f base) = Some x2f).
  { destruct base as [|c base]; [done|]. injection Hh as ->. unfold before. cbn [find_from]. change (x2f =b x3f) with false.
    by destruct (find_from x3f base). }
  case_bool_decide as E; [by rewrite E in Hb|]. split; [by destruct (before x3f base)|].
  rewrite not_elem_of_app. split; [|done]. rewrite Hs, not_elem_of_app in Hn. apply Hn.
Qed.

Lemma joinRelative_valid base r : (x23 ∉ base) -> (x23 ∉ r) ->
  head (joinRelativePath base r) = Some x2f ∧ (x23 ∉ joinRelativePath base r).
Proof.
  intros Hb Hr. unfold joinRelativePath. set (b := if bool_decide _ then _ else _).
  assert (Hh : head b = Some x2f ∧ (x23 ∉ b)).
  { unfold b. case_bool_decide; [split; [done|] | split; [done|decide_closed]].
    destruct (before_split x3f base) as [Hs _]. rewrite Hs, not_elem_of_app in Hb. apply Hb. }
  destruct Hh as [Hh Hn]. apply normalize_valid.
  - destruct (rfind x2f b); [|done]. by destruct b.
  - rewrite not_elem_of_app. split; [|done]. destruct (rfind x2f b) as [p|]; [|decide_closed].
    by intros (i & Hi%list_elem_of_lookup_2 & _)%elem_of_take.
Qed.

(** ** Reading a rendered URL *)

Lemma printed_set c : printedChar c = true -> (c ∉ str "/?#") ∧ c ≠ x40.
Proof.
  intros H. assert (E : bool_decide (c ∈ str "/?#") = false ∧ (c =b x40) = false) by (revert H; by byte_cases c).
  destruct E as [E1 E2]. apply bool_decide_eq_false in E1. by apply beqb_false in E2.
Qed.

Lemma buildHostHeader_chars u : validUrl u -> buildHostHeader u ≠ [] ∧ Forall (fun c => printedChar c = true) (buildHostHeader u).
Proof.
  intros [_ [Hv Hb] Hp _]. pose proof (hostText_chars _ Hb Hv) as Hc. destruct (host_chars _ Hb Hv) as [Hne _].
  unfold buildHostHeader. fold (hostText (url_host u)).
  assert (Hn : hostText (url_host u) ≠ []) by (unfold hostText; by destruct (isValidIPv6 _)).
  destruct (_ || _); [done|]. split; [by destruct (hostText (url_host u))|]. rewrite !Forall_app. split_and!; [done | by repeat constructor|].
  eapply Forall_impl; [apply toChars10_chars; unfold size_max; lia|]. intros c Hd. by apply digit_printed.
Qed.

(** The authority of a rendered URL parses to its host and port. *)
Lemma parse_hostHeader u : validUrl u ->
  parse (buildHostHeader u) (if protocol u =s str "https" then 443 else 80) = Some (mkAddress (url_host u) (url_port u)).
Proof.
  intros [Hr [Hv Hb] Hp _]. unfold buildHostHeader. fold (hostText (url_host u)).
  destruct (((protocol u =s str "http") && (url_port u =? 80)) || ((protocol u =s str "https") && (url_port u =? 443))) eqn:E.
  - replace (url_port u) with (if protocol u =s str "https" then 443 else 80); [by apply parse_hostText; [..|case_match]|].
    apply orb_true_iff in E as [[H1%bool_decide_eq_true H2%Z.eqb_eq]%andb_true_iff|[H1%bool_decide_eq_true H2%Z.eqb_eq]%andb_true_iff];
      by rewrite H1, H2.
  - rewrite <- (parse_toString (mkAddress (url_host u) (url_port u)) (if protocol u =s str "https" then 443 else 80) Hb Hv ltac:(cbn; lia)).
    f_equal. unfold toString, hostText, isIPv6. cbn [ip port]. rewrite Hb.
    destruct (isValidIPv6 (url_host u)); [|done]. by rewrite <- !app_assoc.
Qed.

Lemma trimmed_app a b : trimmed b -> b ≠ [] -> (∀ c, head a = Some c -> isspace c = false) -> a ≠ [] -> trimmed (a ++ b).
Proof.
  intros [_ Hl] Hb Ha Hn. split.
  - destruct a; [done|]. cbn. apply Ha.
  - intros c. rewrite last_app. destruct (last b) as [d|] eqn:E; [intros [= ->]; by apply Hl | by apply last_None in E].
Qed.

Lemma parseUrl_rendered base u path :
  validUrl u -> trimmed path -> head path = Some x2f -> (x23 ∉ path) ->
  parseUrl base (protocol u ++ str "://" ++ buildHostHeader u ++ path) = Some (setPath u (normalizeHttpPath path)).
Proof.
  intros Hu Ht Hh Hn. destruct (buildHostHeader_chars u Hu) as [Hne Hc]. pose proof (parse_hostHeader u Hu) as Hp.
  pose proof Hu as [Hr [Hv Hb] Hport _]. unfold parseUrl, parseUrlWith.
  assert (Hpath : path ≠ []) by (by intros ->).
  assert (Hproto : protocol u ≠ [] ∧ (∀ c, head (protocol u) = Some c -> isspace c = false)).
  { destruct Hr as [-> | ->]; (split; [done|]); by intros c [= <-]. }
  destruct Hproto as [Hp1 Hp2]. rewrite trim_id.
  2: { rewrite !app_assoc. apply trimmed_app; try done; [|by destruct (protocol u)]. intros c. destruct (protocol u); [done|]. apply Hp2. }
  assert (Hf : find_sub (str "://") (protocol u ++ str "://" ++ buildHostHeader u ++ path) = Some (length (protocol u))) by (by destruct Hr as [-> | ->]).
  rewrite Hf. cbn [mbind option_bind]. rewrite take_app_length.
  assert (toLowerCopy (protocol u) = protocol u) as -> by (by destruct Hr as [-> | ->]).
  assert (negb (protocol u =s str "http") && negb (protocol u =s str "https") = false) as -> by (by destruct Hr as [-> | ->]).
  replace (drop (length (protocol u) + 3) (protocol u ++ str "://" ++ buildHostHeader u ++ path)) with (buildHostHeader u ++ path)
    by (rewrite (app_assoc _ (str "://")); symmetry; apply drop_app_exact; by rewrite length_app).
  destruct path as [|c path]; [done|]. injection Hh as ->.
  rewrite (find_first_of_app (str "/?#") (buildHostHeader u) x2f path);
    [|eapply Forall_impl; [exact Hc|]; intros c Hi; by apply printed_set | decide_closed].
  rewrite take_app_length, drop_app_length, bool_decide_eq_false_2 by done.
  rewrite rfind_None by (intros Hi; by apply (proj1 (Forall_forall _ _) Hc), printed_set in Hi as [_ []]).
  rewrite Hp. cbn [mbind option_bind port]. rewrite (proj2 (Z.eqb_neq _ 0)) by lia.
  rewrite before_plain by done. rewrite (bool_decide_eq_false_2 (x2f :: path = [])) by done. cbn [head].
  rewrite (bool_decide_eq_false_2 (Some x2f = Some x3f)) by done. unfold buildRequestPath. rewrite buildFuel_slash by done.
  unfold normalizedHost. cbn [ip]. rewrite Hb. destruct (host_chars _ Hb Hv) as [Hhost _].
  rewrite !bool_decide_eq_false_2; [done| |done]. intros E. pose proof (normalize_head (x2f :: path) eq_refl) as H. by rewrite E in H.
Qed.

(** ** Properties *)

(** Path normalisation leaves no "." or ".." segment for a server to resolve,
    and normalising again changes nothing; the query is untouched. *)
Theorem normalize_path v :
  normalizeHttpPath (normalizeHttpPath v) = normalizeHttpPath v ∧
  Forall (fun s => s ≠ str "." ∧ s ≠ str "..") (splitOn x2f (before x3f (normalizeHttpPath v))) ∧
  queryOf (normalizeHttpPath v) = queryOf v.
Proof.
  destruct (normalize_shape v) as (segs & Hs & _ & ->). set (b := _ || _).
  destruct (queryOf_app (rendered b segs) (queryOf v) (rendered_no_query b segs Hs) (queryOf_head v)) as [Hq Hp].
  split_and!; [by apply normalize_rendered, queryOf_head | | done]. rewrite Hp.
  assert (Hd : Forall (fun s => s ≠ str "." ∧ s ≠ str "..") (splitOn x2f (joinSegments segs))).
  { destruct (decide (segs = [])) as [->|Hn]; [by repeat constructor|]. rewrite splitOn_join by done.
    eapply Forall_impl; [exact Hs|]. by intros s (_ & ? & ? & _). }
  unfold rendered. destruct (b || _); [|done]. change (str "/" ++ joinSegments segs) with (x2f :: joinSegments segs).
  cbn [splitOn]. rewrite beqb_refl. by constructor.
Qed.

(** A redirect leads to a valid URL (http or https, a valid host, a port, an absolute
    path without fragment); unless the location names a host, it stays on the endpoint. *)
Theorem redirect_valid u location u' :
  validUrl u -> resolveRedirect u location = Some u' ->
  validUrl u' ∧
  (find_sub (str "://") (before x23 (trim location)) = None -> is_prefix (str "//") (before x23 (trim location)) = false ->
   protocol u' = protocol u ∧ url_host u' = url_host u ∧ url_port u' = url_port u).
Proof.
  intros Hu. unfold resolveRedirect. destruct (before_split x23 (trim location)) as [_ Hn].
  set (loc := before x23 (trim location)) in *. case_bool_decide; [by intros [= <-]|].
  case_bool_decide as Ha; [intros Hp; split; [by eapply parseUrl_validUrl | by intros H1]|].
  destruct (is_prefix _ _); [intros Hp; split; [by eapply parseUrl_validUrl | by intros H1]|].
  assert (Hset : ∀ p, head p = Some x2f ∧ (x23 ∉ p) -> validUrl (setPath u p)) by (intros p Hp; by destruct Hu; split).
  destruct (vu_path u Hu) as [Hh Hx].
  repeat case_bool_decide; intros [= <-]; (split; [apply Hset|done]).
  - by apply normalize_valid.
  - by apply queryBase_valid.
  - by apply joinRelative_valid.
Qed.

(** The absolute-form target the client sends to a proxy reads back as the URL it was
    rendered from, IPv6 hosts and default ports included. *)
Theorem proxy_target_roundtrip base proxy u path :
  validUrl u -> protocol u = str "http" -> enabled proxy = true ->
  trimmed path -> head path = Some x2f -> (x23 ∉ path) -> normalizeHttpPath path = path ->
  parseUrl base (buildTransportRequestTarget proxy u path) = Some (setPath u path).
Proof.
  intros Hu Hr He Ht Hh Hn Hnorm. unfold buildTransportRequestTarget. rewrite He, (bool_decide_eq_true_2 _ Hr). cbn [negb orb].
  rewrite bool_decide_eq_false_2 by (by intros ->). rewrite parseUrl_rendered by done. by rewrite Hnorm.
Qed.

Definition sampleUrl : ParsedUrl := mkUrl (str "http") (str "2001:db8::1") 8080 (str "/a/b?q=1").

Lemma sampleUrl_valid : validUrl sampleUrl.
Proof. by apply (parseUrl_validUrl [] (str "http://[2001:db8::1]:8080/a/b?q=1")). Qed.

Lemma redirect_valid_witness :
  validUrl (setPath sampleUrl (str "/c?x")) ∧
  (find_sub (str "://") (before x23 (trim (str "../c?x#f"))) = None -> is_prefix (str "//") (before x23 (trim (str "../c?x#f"))) = false ->
   protocol (setPath sampleUrl (str "/c?x")) = protocol sampleUrl ∧ url_host (setPath sampleUrl (str "/c?x")) = url_host sampleUrl ∧
   url_port (setPath sampleUrl (str "/c?x")) = url_port sampleUrl).
Proof. apply (redirect_valid sampleUrl (str "../c?x#f")); [apply sampleUrl_valid | vm_compute; reflexivity]. Defined.

Lemma proxy_target_roundtrip_witness :
  parseUrl [] (buildTransportRequestTarget (mkProxy (str "p") 3128 [] [] []) sampleUrl (str "/x?y")) = Some (setPath sampleUrl (str "/x?y")).
Proof.
  apply (proxy_target_roundtrip [] (mkProxy (str "p") 3128 [] [] []) sampleUrl (str "/x?y"));
    [apply sampleUrl_valid | reflexivity | reflexivity | split; by intros c [= <-] | reflexivity | decide_closed | reflexivity].
Defined.

(** A path with a trailing slash loses it: the client asks for another resource. *)
Example trailing_slash_dropped :
  url_path <$> parseUrl [] (str "http://h/dir/") = Some (str "/dir") ∧ buildRequestPath (str "/") (str "/dir/") = str "/dir".
Proof. by vm_compute. Qed.
