(* ===== verification/ClientRequest.v ===== *)
(** * Requests of the HTTP client (src/HttpClient.cpp)

    The request builder [HttpClientRequest], the header helpers, and the text
    [buildClientRequest] puts on the wire. *)

From S2P Require Import Prelude CType Base64 HttpParser HttpCommon.

(** ** Header helpers *)

Definition isValidHttpMethodName (method : list byte) : bool :=
  negb (method =s []) && forallb (fun ch => isalnum ch || (ch =b x2d) || (ch =b x5f)) method.

Definition containsHeaderTokenCaseInsensitive (headerValue token : list byte) : bool :=
  existsb (fun current => caseInsensitiveCompare (trim current) token) (splitOn x2c headerValue).

Definition isInterimResponseStatus (statusCode : Z) : bool :=
  (100 <=? statusCode) && (statusCode <? 200) && negb (statusCode =? 101).

Definition findHeaderCaseInsensitive (headers : strmap) (name : list byte) : option (list byte) :=
  snd <$> find (fun entry => caseInsensitiveCompare entry.1 name) headers.

Definition eraseHeaderCaseInsensitive (headers : strmap) (name : list byte) : strmap :=
  List.filter (fun entry => negb (caseInsensitiveCompare entry.1 name)) headers.

(** ** The builder *)

Record HttpClientRequest := mkClientRequest {
  method_ : list byte;
  path_ : list byte;
  headers_ : strmap;
  body_ : list byte;
  timeoutMs_ : Z
}.

Definition orRoot (path : list byte) : list byte := if path =s [] then str "/" else path.

(** [HttpClientRequest(path)]. *)
Definition newRequest (path : list byte) : HttpClientRequest := mkClientRequest (str "GET") (orRoot path) [] [] 0.

Definition setMethod (r : HttpClientRequest) method := mkClientRequest method (path_ r) (headers_ r) (body_ r) (timeoutMs_ r).
Definition setRequestPath (r : HttpClientRequest) path :=
  mkClientRequest (method_ r) (orRoot path) (headers_ r) (body_ r) (timeoutMs_ r).
Definition withHeaders (r : HttpClientRequest) hs := mkClientRequest (method_ r) (path_ r) hs (body_ r) (timeoutMs_ r).
Definition addHeader (r : HttpClientRequest) name value := withHeaders r (map_set name value (headers_ r)).
Definition setRequestBody (r : HttpClientRequest) body := mkClientRequest (method_ r) (path_ r) (headers_ r) body (timeoutMs_ r).

(** A header in place of every spelling of its name. *)
Definition replaceHeader (r : HttpClientRequest) (name value : list byte) : HttpClientRequest :=
  withHeaders r (map_set name value (eraseHeaderCaseInsensitive (headers_ r) name)).

Definition encodedPair (name value : list byte) : list byte := urlEncode name ++ [x3d] ++ urlEncode value.

Definition addQuery (r : HttpClientRequest) (name value : list byte) : HttpClientRequest :=
  let separator := match find_from x3f (path_ r) with None => x3f | Some _ => x26 end in
  mkClientRequest (method_ r) (path_ r ++ [separator] ++ encodedPair name value) (headers_ r) (body_ r) (timeoutMs_ r).

Definition setJson (r : HttpClientRequest) (json : list byte) : HttpClientRequest :=
  setRequestBody (replaceHeader r (str "Content-Type") (str "application/json")) json.

(** The loop of [setForm]. *)
Definition formBody (values : strmap) : list byte :=
  fold_left (fun body entry => (if body =s [] then body else body ++ [x26]) ++ encodedPair entry.1 entry.2) values [].

Definition setForm (r : HttpClientRequest) (values : strmap) : HttpClientRequest :=
  setRequestBody (replaceHeader r (str "Content-Type") (str "application/x-www-form-urlencoded")) (formBody values).

Definition setBearerToken (r : HttpClientRequest) (token : list byte) : HttpClientRequest :=
  replaceHeader r (str "Authorization") (str "Bearer " ++ token).
Definition setBasicAuth (r : HttpClientRequest) (username password : list byte) : HttpClientRequest :=
  replaceHeader r (str "Authorization") (str "Basic " ++ base64Encode (username ++ str ":" ++ password)).
Definition setUserAgent (r : HttpClientRequest) (userAgent : list byte) : HttpClientRequest :=
  replaceHeader r (str "User-Agent") userAgent.
Definition setAccept (r : HttpClientRequest) (accept : list byte) : HttpClientRequest :=
  replaceHeader r (str "Accept") accept.

(** [count] is the [int64_t] number of milliseconds. *)
Definition setTimeout (r : HttpClientRequest) (count : Z) : HttpClientRequest :=
  mkClientRequest (method_ r) (path_ r) (headers_ r) (body_ r) (if count <=? 0 then 0 else Z.min count (2 ^ 32 - 1)).

(** ** The request text *)

Record RequestHeaderState := mkScan {
  hasHost : bool;
  hasUserAgent : bool;
  hasConnection : bool;
  hasAcceptEncoding : bool;
  hasContentLength : bool;
  hasTransferEncoding : bool;
  serializedBytes : Z
}.

Definition scanHeader (st : RequestHeaderState) (entry : list byte * list byte) : RequestHeaderState :=
  let '(mkScan h u c a l t n) := st in
  let n := n + (zlen entry.1 + 2 + zlen entry.2 + 2) in
  let named name := caseInsensitiveCompare entry.1 (str name) in
  if named "Host"%string then mkScan true u c a l t n
  else if named "User-Agent"%string then mkScan h true c a l t n
  else if named "Connection"%string then mkScan h u true a l t n
  else if named "Accept-Encoding"%string then mkScan h u c true l t n
  else if named "Content-Length"%string then mkScan h u c a true t n
  else if named "Transfer-Encoding"%string then mkScan h u c a l true n
  else mkScan h u c a l t n.

Definition scanRequestHeaders (headers : strmap) : RequestHeaderState :=
  fold_left scanHeader headers (mkScan false false false false false false 0).

Definition supportsCompressedResponseDecoding : bool := false.

Definition addContentLength (st : RequestHeaderState) : bool := negb (hasContentLength st) && negb (hasTransferEncoding st).

Definition advertiseCompression (st : RequestHeaderState) (useCompression : bool) : bool :=
  useCompression && supportsCompressedResponseDecoding && negb (hasAcceptEncoding st).

(** The capacity the request is built in. *)
Definition reserveBytes (method path : list byte) (headers : strmap) (body hostHeader : list byte) (useCompression : bool) : Z :=
  let st := scanRequestHeaders headers in
  zlen method + zlen path + zlen body + serializedBytes st + 16 +
  (if hasHost st then 0 else 8 + zlen hostHeader) +
  (if hasUserAgent st then 0 else zlen (str "User-Agent: FastNet-HttpClient/2.0" ++ CRLF)) +
  (if hasConnection st then 0 else zlen (str "Connection: keep-alive" ++ CRLF)) +
  (if advertiseCompression st useCompression then zlen (str "Accept-Encoding: gzip, deflate" ++ CRLF) else 0) +
  (if addContentLength st then 18 + decimalDigitCount (zlen body) else 0).

(** The header lines in the order they are written. *)
Definition optionalLine (missing : bool) (name value : list byte) : list byte :=
  if missing then appendHeaderLine [] name value else [].

Definition buildClientRequest (method path : list byte) (headers : strmap) (body hostHeader : list byte)
    (useCompression : bool) : list byte :=
  let st := scanRequestHeaders headers in
  method ++ [SP] ++ path ++ str " HTTP/1.1" ++ CRLF ++
  fold_left (fun out entry => appendHeaderLine out entry.1 entry.2) headers [] ++
  optionalLine (negb (hasHost st)) (str "Host") hostHeader ++
  optionalLine (negb (hasUserAgent st)) (str "User-Agent") (str "FastNet-HttpClient/2.0") ++
  optionalLine (negb (hasConnection st)) (str "Connection") (str "keep-alive") ++
  optionalLine (advertiseCompression st useCompression) (str "Accept-Encoding") (str "gzip, deflate") ++
  (if addContentLength st then str "Content-Length: " ++ toChars 10 (zlen body) ++ CRLF else []) ++
  CRLF ++ body.

(** ** What the receiver reads *)

(** Header lines in any order, none of them about framing. *)
Definition setAll (hs : strmap) (m : strmap) : strmap := fold_left (fun m h => map_set h.1 h.2 m) hs m.

Definition unframed (h : list byte * list byte) : Prop := isCL h.1 = false ∧ isTE h.1 = false.

Lemma parseLines_all hs : ∀ m n, Forall sendableHeader hs -> Forall unframed hs -> n + zlen hs <= kMaxHeaderCount ->
  parseLines (headerLine <$> hs) (mkHS m n false false) = Some (mkHS (setAll hs m) (n + zlen hs) false false).
Proof.
  induction hs as [|h hs IH]; intros m n He Hf Hc.
  - unfold parseLines. cbn. do 2 f_equal. rewrite zlen_nil. lia.
  - inversion He as [|? ? Hh He']; subst. inversion Hf as [|? ? [H1 H2] Hf']; subst. rewrite zlen_cons in *.
    pose proof (zlen_nonneg hs). unfold parseLines. cbn [fmap list_fmap fold_left mbind option_bind].
    rewrite parseHeaderLine_written; cbn [hs_sawContentLength hs_sawTransferEncoding hs_count hs_headers];
      rewrite ?H1, ?H2; try done; [|lia].
    change (fold_left _ ?l (Some ?st)) with (parseLines l st). cbn [orb andb negb]. rewrite IH by (try done; lia).
    cbn. do 2 f_equal. lia.
Qed.

Lemma setAll_Forall (P : list byte * list byte -> Prop) hs : ∀ m, Forall P hs -> Forall P m -> Forall P (setAll hs m).
Proof.
  induction hs as [|[k v] hs IH]; intros m Hh Hm; cbn; [done|]. apply Forall_cons in Hh as [H1 H2].
  apply IH; [done|]. by apply map_set_Forall.
Qed.

Lemma parseHeaders_all hs body :
  Forall sendableHeader hs -> Forall unframed hs -> zlen hs < kMaxHeaderCount -> zlen body <= size_max ->
  parseHeaderLines (joinLines ((headerLine <$> hs) ++ [headerLine (contentLengthHeader body)])) =
  Some (receivedHeaders (setAll hs []) body).
Proof.
  intros He Hf Hc Hb. pose proof (contentLength_sendable body Hb) as Hcl.
  unfold parseHeaderLines. rewrite parseHeaderLoop_lines; [|..|lia].
  - rewrite parseLines_app. rewrite (parseLines_all hs [] 0) by (try done; lia).
    cbn [mbind option_bind]. unfold parseLines. cbn [fold_left mbind option_bind].
    rewrite parseHeaderLine_written; [done | done | ..]; try done.
    intros _. split; [done|]. cbn [contentLengthHeader snd].
    by rewrite parse_toChars_dec by (pose proof (zlen_nonneg body); lia).
  - rewrite Forall_app, Forall_fmap. split.
    + eapply Forall_impl; [apply He|]. intros h. apply headerLine_plain.
    + constructor; [by apply headerLine_plain | constructor].
Qed.

Lemma assignBody_all hs body rest : Forall unframed hs -> zlen body <= size_max ->
  assignMessageBody (body ++ rest) (receivedHeaders (setAll hs []) body) = Some body.
Proof.
  intros Hf Hb. unfold assignMessageBody, receivedHeaders, contentLengthFromHeaders, isChunkedEncoding.
  assert (Hm : Forall unframed (setAll hs [])) by (by apply setAll_Forall).
  rewrite existsb_Forall_false; last first.
  { apply map_set_Forall; [done|]. eapply Forall_impl; [apply Hm|]. intros h [_ H]. unfold isTE in H. by rewrite H. }
  rewrite (find_map_set isCL); [|done|eapply Forall_impl; [apply Hm | by intros h []]].
  pose proof (zlen_nonneg body). pose proof (toChars10_chars (zlen body) ltac:(lia)) as Hc.
  rewrite trim_id; last first.
  { apply trimmed_nospace. eapply Forall_impl; [apply Hc|]. intros c Hd. by apply decDigit_not_space. }
  rewrite parse_toChars_dec by lia. rewrite (proj2 (Z.ltb_ge _ _)); [|rewrite zlen_app; pose proof (zlen_nonneg rest); lia].
  f_equal. apply take_app_exact. unfold zlen. lia.
Qed.

(** ** The headers the client adds *)

Definition optionalHeader (missing : bool) (name value : list byte) : strmap := if missing then [(name, value)] else [].

(** Every header but the length, in the order of the lines. *)
Definition clientHeaders (headers : strmap) (hostHeader : list byte) : strmap :=
  let st := scanRequestHeaders headers in
  headers ++ optionalHeader (negb (hasHost st)) (str "Host") hostHeader ++
  optionalHeader (negb (hasUserAgent st)) (str "User-Agent") (str "FastNet-HttpClient/2.0") ++
  optionalHeader (negb (hasConnection st)) (str "Connection") (str "keep-alive").

Lemma scan_unframed headers : ∀ st, Forall unframed headers ->
  hasContentLength (fold_left scanHeader headers st) = hasContentLength st ∧
  hasTransferEncoding (fold_left scanHeader headers st) = hasTransferEncoding st.
Proof.
  induction headers as [|h headers IH]; intros st Hf; cbn [fold_left]; [done|]. apply Forall_cons in Hf as [[H1 H2] Hf].
  destruct (IH (scanHeader st h) Hf) as [-> ->]. destruct st. unfold scanHeader, isCL, isTE in *. rewrite H1, H2.
  by repeat case_match.
Qed.

Lemma scan_serialized headers : ∀ st,
  serializedBytes (fold_left scanHeader headers st) = serializedBytes st + zlen (concat ((fun l => l ++ CRLF) <$> (headerLine <$> headers))).
Proof.
  induction headers as [|h headers IH]; intros st; cbn [fold_left fmap list_fmap concat]; [rewrite zlen_nil; lia|].
  rewrite IH. replace (serializedBytes (scanHeader st h)) with (serializedBytes st + (zlen h.1 + 2 + zlen h.2 + 2))
    by (destruct st; unfold scanHeader; by repeat case_match).
  unfold headerLine at 2. rewrite !zlen_app. change (zlen (str ": ")) with 2. change (zlen CRLF) with 2. lia.
Qed.

Lemma optionalLine_header missing name value :
  optionalLine missing name value = concat ((fun l => l ++ CRLF) <$> (headerLine <$> optionalHeader missing name value)).
Proof. destruct missing; [|done]. unfold optionalLine, appendHeaderLine, headerLine. cbn. by rewrite app_nil_r, <- !app_assoc. Qed.

Lemma no_compression st useCompression : advertiseCompression st useCompression = false.
Proof. unfold advertiseCompression, supportsCompressedResponseDecoding. by rewrite andb_false_r. Qed.

Lemma buildClientRequest_message method path headers body hostHeader useCompression :
  Forall unframed headers ->
  buildClientRequest method path headers body hostHeader useCompression =
  message (method ++ SP :: path ++ SP :: str "HTTP/1.1")
    ((headerLine <$> clientHeaders headers hostHeader) ++ [headerLine (contentLengthHeader body)]) body.
Proof.
  intros Hf. destruct (scan_unframed headers (mkScan false false false false false false 0) Hf) as [H1 H2].
  unfold buildClientRequest. fold (scanRequestHeaders headers) in H1, H2. rewrite no_compression.
  unfold addContentLength. rewrite H1, H2. cbn [hasContentLength hasTransferEncoding negb andb].
  rewrite fold_appendHeaderLine, !optionalLine_header. unfold message, clientHeaders. rewrite !fmap_app, !concat_app.
  cbn [optionalHeader fmap list_fmap concat]. unfold headerLine at 8, contentLengthHeader. cbn [fst snd].
  rewrite app_nil_r. change (str "Content-Length: ") with (str "Content-Length" ++ str ": ").
  rewrite <- !app_assoc. cbn [app]. by rewrite <- !app_assoc.
Qed.

Lemma methodName_token method : isValidHttpMethodName method = true -> isValidHeaderName method = true.
Proof.
  unfold isValidHttpMethodName, isValidHeaderName. intros [Hn Hm]%andb_true_iff. destruct method as [|c m]; [done|].
  rewrite forallb_forall in *. intros x Hx. specialize (Hm x Hx). revert Hm. by byte_cases x.
Qed.

(** What a request must satisfy for the receiver to take it. *)
Record sendable (method path : list byte) (headers : strmap) (body hostHeader rest : list byte) : Prop := {
  sd_method : isValidHttpMethodName method = true;
  sd_path : path ≠ [] ∧ (SP ∉ path) ∧ (CR ∉ path);
  sd_headers : Forall sendableHeader headers ∧ Forall unframed headers;
  sd_host : sendableHeader (str "Host", hostHeader);
  sd_count : zlen headers < kMaxHeaderCount - 3;
  sd_line : zlen method + zlen path + 10 <= kMaxRequestLineSize;
  sd_section : zlen (buildClientRequest method path headers body hostHeader false) - zlen body <= kMaxHeaderSectionSize;
  sd_memory : zlen (buildClientRequest method path headers body hostHeader false ++ rest) <= size_max
}.

Lemma clientHeaders_sendable headers hostHeader :
  Forall sendableHeader headers -> Forall unframed headers -> sendableHeader (str "Host", hostHeader) ->
  Forall sendableHeader (clientHeaders headers hostHeader) ∧ Forall unframed (clientHeaders headers hostHeader) ∧
  zlen (clientHeaders headers hostHeader) <= zlen headers + 3.
Proof.
  intros He Hf Hh. unfold clientHeaders, optionalHeader. set (st := scanRequestHeaders headers).
  assert (Hua : sendableHeader (str "User-Agent", str "FastNet-HttpClient/2.0")).
  { split; [done | split; by intros c [= <-] | decide_closed | by vm_compute]. }
  assert (Hco : sendableHeader (str "Connection", str "keep-alive")).
  { split; [done | split; by intros c [= <-] | decide_closed | by vm_compute]. }
  rewrite !Forall_app, !zlen_app. destruct (hasHost st), (hasUserAgent st), (hasConnection st); cbn [negb];
    rewrite ?zlen_cons, ?zlen_nil, ?Forall_cons, ?Forall_nil; split_and!; try done; unfold zlen in *; cbn [length]; try lia; by split.
Qed.

(** The capacity is two bytes more than the request needs. *)
Lemma reserveBytes_exact method path headers body hostHeader useCompression :
  zlen (buildClientRequest method path headers body hostHeader useCompression) + 2 =
  reserveBytes method path headers body hostHeader useCompression.
Proof.
  unfold buildClientRequest, reserveBytes. rewrite no_compression, fold_appendHeaderLine, !optionalLine_header.
  rewrite (scan_serialized headers _ : serializedBytes (scanRequestHeaders headers) = _). rewrite (decimalDigitCount_spec (zlen body)) by apply zlen_nonneg.
  set (st := scanRequestHeaders headers). rewrite !zlen_app. cbn [serializedBytes optionalHeader fmap list_fmap concat].
  destruct (hasHost st), (hasUserAgent st), (hasConnection st), (addContentLength st); cbn [negb optionalHeader fmap list_fmap concat];
    unfold headerLine; rewrite ?app_nil_r, ?zlen_nil, ?zlen_app; cbn [fst snd];
    change (zlen [SP]) with 1; change (zlen (str " HTTP/1.1")) with 9; change (zlen CRLF) with 2;
    change (zlen (str "Host")) with 4; change (zlen (str ": ")) with 2; change (zlen (str "User-Agent")) with 10;
    change (zlen (str "Connection")) with 10; change (zlen (str "FastNet-HttpClient/2.0")) with 22;
    change (zlen (str "keep-alive")) with 10; change (zlen (str "User-Agent: FastNet-HttpClient/2.0")) with 34;
    change (zlen (str "Connection: keep-alive")) with 22; change (zlen (str "Content-Length: ")) with 16; lia.
Qed.

(** ** Forms *)

Lemma encode_plain raw c : c ∈ urlEncode raw -> c ≠ x26 ∧ c ≠ x3d ∧ c ≠ x3f.
Proof.
  assert (Hu : ∀ b, isUnreserved b = true -> b ≠ x26 ∧ b ≠ x3d ∧ b ≠ x3f) by (intros b; by byte_cases b).
  assert (Hx : ∀ b x, x ∈ escaped b -> x ≠ x26 ∧ x ≠ x3d ∧ x ≠ x3f).
  { intros b x Hx. assert (E : forallb (fun x => negb (x =b x26) && negb (x =b x3d) && negb (x =b x3f)) (escaped b) = true) by (by byte_cases b).
    rewrite forallb_forall in E. apply list_elem_of_In in Hx. specialize (E x Hx). cbn beta in E.
    apply andb_true_iff in E as [[E1 E2]%andb_true_iff E3]. apply negb_true_iff in E1, E2, E3. by apply beqb_false in E1, E2, E3. }
  induction raw as [|b raw IH]; cbn [urlEncode]; [by intros ?%elem_of_nil|]. destruct (isUnreserved b) eqn:E.
  - intros [->|H]%elem_of_cons; [by apply Hu | by apply IH].
  - change (?a :: ?b :: ?c :: urlEncode raw) with ([a; b; c] ++ urlEncode raw). rewrite elem_of_app. intros [H|H]; [by apply (Hx b) | by apply IH].
Qed.

Lemma encode_inj a b : urlEncode a = urlEncode b -> a = b.
Proof. intros H. by rewrite <- (urlDecode_encode a), H, urlDecode_encode. Qed.

Definition encodedEntry (h : list byte * list byte) : list byte * list byte := (urlEncode h.1, urlEncode h.2).

(** The form text is the pairs, separated. *)
Lemma formBody_split values : values ≠ [] ->
  formBody values ≠ [] ∧ splitOn x26 (formBody values) = (fun h => encodedPair h.1 h.2) <$> values.
Proof.
  unfold formBody. assert (G : ∀ vs b, b ≠ [] ->
    let r := fold_left (fun body entry => (if body =s [] then body else body ++ [x26]) ++ encodedPair entry.1 entry.2) vs b in
    r ≠ [] ∧ splitOn x26 r = splitOn x26 b ++ ((fun h => encodedPair h.1 h.2) <$> vs)).
  { induction vs as [|v vs IH]; intros b Hb r; [by rewrite app_nil_r|]. unfold r. cbn [fold_left]. rewrite bool_decide_eq_false_2 by done.
    destruct (IH ((b ++ [x26]) ++ encodedPair v.1 v.2)) as [H1 H2]; [by destruct b|]. split; [done|]. rewrite H2. cbn [fmap list_fmap].
    rewrite (cons_middle (encodedPair v.1 v.2)), app_assoc. f_equal.
    assert (Hp : x26 ∉ encodedPair v.1 v.2).
    { unfold encodedPair. rewrite !not_elem_of_app. split_and!; [|decide_closed|]; intros H%encode_plain; by destruct H. }
    rewrite <- app_assoc. by apply splitOn_last. }
  destruct values as [|v values]; [done|]. intros _. cbn [fold_left]. rewrite bool_decide_eq_true_2 by done. cbn [app].
  destruct (G values (encodedPair v.1 v.2)) as [H1 H2]; [unfold encodedPair; by destruct (urlEncode v.1)|].
  split; [done|]. rewrite H2. cbn [fmap list_fmap]. rewrite splitOn_plain; [done|].
  unfold encodedPair. rewrite !not_elem_of_app. split_and!; [|decide_closed|]; intros H%encode_plain; by destruct H.
Qed.

Lemma parseQuery_form values :
  parseQueryString (formBody values) = setAll (encodedEntry <$> values) [].
Proof.
  destruct (decide (values = [])) as [->|Hn]; [done|]. destruct (formBody_split values Hn) as [Hne Hs]. unfold parseQueryString.
  assert (Hq : head (formBody values) ≠ Some x3f).
  { destruct values as [|v values]; [done|]. destruct (formBody (v :: values)) as [|c s] eqn:E; [done|]. intros [= ->].
    cbn [fmap list_fmap] in Hs. pose proof (f_equal head Hs) as Hh. cbn [splitOn] in Hh. change (x3f =b x26) with false in Hh.
    destruct (splitOn_cons x26 s) as (p & ps & Hp). rewrite Hp in Hh. cbn in Hh. injection Hh as Hh.
    unfold encodedPair in Hh. destruct (urlEncode v.1) as [|d t] eqn:Ee; [done|]. injection Hh as <- _.
    destruct (encode_plain v.1 x3f) as (_ & _ & []); [rewrite Ee; by left|done]. }
  destruct (formBody values) as [|c s] eqn:E; [done|]. rewrite beqb_neq by (by intros ->). rewrite Hs. clear. unfold setAll.
  generalize (@nil (list byte * list byte)). induction values as [|v values IH]; intros m; cbn [fmap list_fmap fold_left]; [done|].
  rewrite IH. f_equal. unfold addQueryPair, encodedPair.
  assert (He : x3d ∉ urlEncode v.1) by (intros (_ & [] & _)%encode_plain; done).
  destruct (urlEncode v.1 ++ [x3d] ++ urlEncode v.2) as [|c s] eqn:E; [by destruct (urlEncode v.1)|]. rewrite <- E. cbn [app].
  rewrite find_from_app by done. rewrite take_app_length. unfold encodedEntry. cbn [fst snd]. f_equal.
  change (urlEncode v.1 ++ x3d :: urlEncode v.2) with (urlEncode v.1 ++ [x3d] ++ urlEncode v.2). rewrite app_assoc.
  apply drop_app_exact. rewrite length_app. cbn. lia.
Qed.

(** Writing entries with distinct keys into a map keeps exactly them. *)
Lemma map_set_elem k v m kv : map_sorted m ->
  kv ∈ map_set k v m <-> kv = (k, v) \/ (kv ∈ m ∧ kv.1 ≠ k).
Proof.
  induction m as [|[k' v'] m IH]; intros Hm; cbn [map_set].
  - rewrite list_elem_of_singleton, elem_of_nil. tauto.
  - destruct Hm as [Ha Hm]. rewrite Forall_forall in Ha. destruct (bytes_lt k k') eqn:E1.
    + rewrite !elem_of_cons. split; [intros [->|[->|H]]; [by left | right | right] | tauto].
      * split; [by left|]. cbn. apply not_eq_sym. by apply bytes_lt_ne.
      * split; [by right|]. apply Ha in H. apply not_eq_sym, bytes_lt_ne. by eapply bytes_lt_trans.
    + destruct (bytes_lt k' k) eqn:E2.
      * rewrite !elem_of_cons, IH by done. split; [intros [->|[->|[H1 H2]]]; [right; split; [by left|by apply bytes_lt_ne] | by left | right; split; [by right|done]]|].
        intros [->|[[->|H1] H2]]; tauto.
      * assert (k = k') as <- by (by apply bytes_lt_total). rewrite !elem_of_cons. split.
        -- intros [->|H]; [by left|right]. split; [by right|]. apply Ha in H. apply not_eq_sym. by apply bytes_lt_ne.
        -- intros [->|[[->|H1] H2]]; [by left | by destruct H2 | by right].
Qed.

Lemma setAll_sorted hs : ∀ m, map_sorted m -> map_sorted (setAll hs m).
Proof. induction hs as [|h hs IH]; intros m Hm; cbn; [done|]. by apply IH, map_set_sorted. Qed.

Lemma setAll_elem hs : NoDup hs.*1 -> ∀ m, map_sorted m -> (∀ kv, kv ∈ m -> kv.1 ∉ hs.*1) ->
  ∀ kv, kv ∈ setAll hs m <-> kv ∈ hs \/ kv ∈ m.
Proof.
  induction hs as [|[k v] hs IH]; intros Hd m Hm Hk kv; cbn [setAll fold_left].
  - rewrite elem_of_nil. tauto.
  - cbn [fmap list_fmap fst] in Hd. apply NoDup_cons in Hd as [Hn Hd].
    change (fold_left _ hs ?m) with (setAll hs m). cbn [fst snd]. rewrite IH; [|done|by apply map_set_sorted|].
    + rewrite map_set_elem, elem_of_cons by done. split; [tauto|]. intros [[->|H]|H]; try tauto. right. right. split; [done|].
      apply Hk in H. cbn [fmap list_fmap fst] in H. apply not_elem_of_cons in H. tauto.
    + intros kv' [->|[H _]]%map_set_elem; [done| |done]. apply Hk in H. cbn [fmap list_fmap fst] in H. apply not_elem_of_cons in H. tauto.
Qed.

Lemma sorted_keys m : map_sorted m -> NoDup m.*1.
Proof.
  induction m as [|[k v] m IH]; intros Hm; [constructor|]. destruct Hm as [Ha Hm]. cbn. apply NoDup_cons. split; [|by apply IH].
  intros ((k', v') & -> & H)%list_elem_of_fmap. rewrite Forall_forall in Ha. apply Ha, bytes_lt_ne in H. done.
Qed.

(** Sorted maps are determined by their entries. *)
Lemma sorted_ext m1 : ∀ m2, map_sorted m1 -> map_sorted m2 -> (∀ kv, kv ∈ m1 <-> kv ∈ m2) -> m1 = m2.
Proof.
  induction m1 as [|[k1 v1] m1 IH]; intros [|[k2 v2] m2] H1 H2 He; [done|..].
  - exfalso. apply (not_elem_of_nil (k2, v2)), He. by left.
  - exfalso. apply (not_elem_of_nil (k1, v1)), He. by left.
  - destruct H1 as [Ha1 H1], H2 as [Ha2 H2]. rewrite Forall_forall in Ha1, Ha2.
    assert (Heq : (k1, v1) = (k2, v2)).
    { destruct (proj1 (elem_of_cons _ _ _) (proj1 (He (k1, v1)) ltac:(by left))) as [|E1]; [done|].
      destruct (proj1 (elem_of_cons _ _ _) (proj2 (He (k2, v2)) ltac:(by left))) as [|E2]; [done|].
      apply Ha2 in E1. apply Ha1 in E2. cbn in *. by rewrite (bytes_lt_asym _ _ E1) in E2. }
    injection Heq as <- <-. f_equal. apply IH; [done|done|]. intros kv. split; intros H.
    + destruct (proj1 (elem_of_cons _ _ _) (proj1 (He kv) ltac:(by right))) as [->|]; [|done]. apply Ha1, bytes_lt_ne in H. done.
    + destruct (proj1 (elem_of_cons _ _ _) (proj2 (He kv) ltac:(by right))) as [->|]; [|done]. apply Ha2, bytes_lt_ne in H. done.
Qed.

(** ** Properties *)

(** What a server makes of query parameters: names and values decoded. *)
Definition decodeParams (m : strmap) : strmap := setAll ((fun h => (urlDecode h.1, urlDecode h.2)) <$> m) [].

(** The request text is read by the receiver as the client meant it: the method, the
    target and the body it was given, its headers, and those the client adds when they are
    missing (Host, User-Agent, Connection, Content-Length), whatever follows on the wire. *)
Theorem client_request_read method path headers body hostHeader useCompression rest :
  sendable method path headers body hostHeader rest ->
  parseRequest (buildClientRequest method path headers body hostHeader useCompression ++ rest) =
  Some (let '(uri, query, params) := splitTarget path in
        mkRequest method path uri query (str "HTTP/1.1")
          (receivedHeaders (setAll (clientHeaders headers hostHeader) []) body) body params).
Proof.
  intros [Hm Hp [He Hf] Hh Hc Hline Hsec Hmem]. rewrite buildClientRequest_message in * by done. rewrite message_app in *.
  destruct (clientHeaders_sendable headers hostHeader He Hf Hh) as (Hce & Hcf & Hcc).
  assert (Hb : zlen (body ++ rest) <= size_max) by (etrans; [apply message_body_le | done]).
  assert (Hb' : zlen body <= size_max) by (rewrite zlen_app in Hb; pose proof (zlen_nonneg rest); lia).
  pose proof (parseHeaders_all (clientHeaders headers hostHeader) body Hce Hcf ltac:(lia) Hb') as Hparse.
  assert (Hplain : Forall plainLine ((headerLine <$> clientHeaders headers hostHeader) ++ [headerLine (contentLengthHeader body)])).
  { rewrite Forall_app, Forall_fmap. split; [eapply Forall_impl; [apply Hce|]; intros h; apply headerLine_plain|].
    constructor; [by apply headerLine_plain, contentLength_sendable | constructor]. }
  destruct ((headerLine <$> _) ++ _) as [|l lines] eqn:E; [by destruct (headerLine <$> clientHeaders headers hostHeader)|].
  apply parseRequest_message; try done.
  - by apply methodName_token.
  - rewrite <- message_app, !zlen_app. lia.
  - by apply assignBody_all.
Qed.

(** Form fields survive the wire: the body [setForm] writes, split into parameters and
    decoded, is the map it was given, whatever bytes names and values hold. *)
Theorem form_roundtrip r values :
  map_sorted values -> decodeParams (parseQueryString (body_ (setForm r values))) = values.
Proof.
  intros Hv. cbn [setForm setRequestBody body_]. rewrite parseQuery_form. unfold decodeParams.
  pose proof (sorted_keys values Hv) as Hk.
  assert (Hek : NoDup (encodedEntry <$> values).*1).
  { rewrite <- list_fmap_compose. change (fst ∘ encodedEntry) with (urlEncode ∘ (@fst (list byte) (list byte))).
    rewrite list_fmap_compose. apply NoDup_fmap_2; [intros a b; apply encode_inj | done]. }
  set (P := setAll (encodedEntry <$> values) []).
  assert (HP : P ≡ₚ encodedEntry <$> values).
  { apply NoDup_Permutation; [by eapply NoDup_fmap_1, sorted_keys, setAll_sorted | by eapply NoDup_fmap_1|].
    intros kv. unfold P. rewrite setAll_elem; [|done|done|by intros ? ?%elem_of_nil]. rewrite elem_of_nil. tauto. }
  assert (Hd : ((fun h => (urlDecode h.1, urlDecode h.2)) <$> P) ≡ₚ values).
  { rewrite HP, <- list_fmap_compose. rewrite (list_fmap_ext _ id); [by rewrite list_fmap_id|].
    intros i [k v] _. unfold compose, encodedEntry, id. cbn [fst snd]. by rewrite !urlDecode_encode. }
  apply sorted_ext; [by apply setAll_sorted | done|]. intros kv. rewrite setAll_elem; [|by rewrite Hd|done|by intros ? ?%elem_of_nil].
  rewrite Hd, elem_of_nil. tauto.
Qed.

Lemma client_request_read_witness :
  parseRequest (buildClientRequest (str "POST") (str "/a?x=1") [(str "Accept", str "*/*")] (str "hi") (str "h:81") true ++ str "GET") =
  Some (mkRequest (str "POST") (str "/a?x=1") (str "/a") (str "x=1") (str "HTTP/1.1")
          [(str "Accept", str "*/*"); (str "Connection", str "keep-alive"); (str "Content-Length", str "2"); (str "Host", str "h:81");
           (str "User-Agent", str "FastNet-HttpClient/2.0")] (str "hi") [(str "x", str "1")]).
Proof.
  rewrite (client_request_read (str "POST") (str "/a?x=1") [(str "Accept", str "*/*")] (str "hi") (str "h:81") true (str "GET"));
    [vm_compute; reflexivity|].
  split; [done | split_and!; [done | decide_closed | decide_closed] | | | by vm_compute ..].
  - split; repeat constructor; cbn [fst snd]; try done; [by intros c [= <-] | by intros c [= <-] | decide_closed].
  - split; [done | split; by intros c [= <-] | decide_closed | by vm_compute].
Defined.

Lemma form_roundtrip_witness :
  decodeParams (parseQueryString (body_ (setForm (newRequest []) [(str "a&b", str "1=2"); (str "k", [])]))) =
  [(str "a&b", str "1=2"); (str "k", [])].
Proof. apply (form_roundtrip (newRequest []) [(str "a&b", str "1=2"); (str "k", [])]). by repeat constructor. Defined.
