(* ===== verification/ClientTransport.v ===== *)
(** * The TCP client as the HTTP and WebSocket clients use it

    Error codes and TLS settings of include/FastNet/Config.h, and the interface of
    [TcpClient].  An operation acts on a transport state and reports the callbacks that run
    before it returns: [connect] may already report its result, [send] may find the
    connection broken (an error, then the disconnection), [disconnect] and [disconnectAfterPendingWrites]
    report a pending connect as cancelled and an open connection as closed. *)

From S2P Require Import Prelude.

Inductive ErrorCode :=
  | Success | SocketError | ConnectionError | BindError | ListenError | ResolveError | TimeoutError
  | InvalidArgument | UnknownError | AlreadyRunning
  | HttpProtocolError | HttpResponseError | HttpRedirectError
  | WebSocketHandshakeError | WebSocketProtocolError | WebSocketFrameError | WebSocketPayloadTooLarge
  | WebSocketCloseError | WebSocketPingPongTimeout | WebSocketConnectionError
  | SSLError | SSLHandshakeError | SSLCertificateError | AuthenticationError | AuthorizationError
  | CompressionError | DecompressionError.

(** An [Error] that is a failure: its code and message. *)
Abbreviation Failure := (ErrorCode * list byte)%type.

Record SSLConfig := mkSsl {
  enableSSL : bool;
  certificateFile : list byte;
  privateKeyFile : list byte;
  caFile : list byte;
  verifyPeer : bool;
  hostnameVerification : list byte
}.

(** [SSLConfig{}]. *)
Definition defaultSsl : SSLConfig := mkSsl false [] [] [] true [].

Class TcpClient (Net : Type) := {
  tcpConnect : Net -> list byte -> Z -> SSLConfig -> Net * bool * option (bool * list byte);
  tcpSend : Net -> list byte -> Net * bool * option (option Failure * list byte);
  tcpClose : Net -> Net * option (list byte) * option (list byte);
  tcpCloseAfterWrites : Net -> Net * option (list byte) * option (list byte);
  lastFailure : Net -> option Failure
}.

(** ** A concrete transport *)

(** Whether a connection is open, what was dialled, what was written.  A plain connection is
    reported before [connect] returns, one with TLS later. *)
Record Link := mkLink {
  isOpen : bool;
  dialled : list (list byte * Z * bool);
  written : list (list byte)
}.

#[export] Instance link_tcp : TcpClient Link := {
  tcpConnect l host port ssl :=
    if isOpen l then (l, false, Some (false, str "Connection is already active"))
    else (mkLink true (dialled l ++ [(host, port, enableSSL ssl)]) (written l), true,
          if enableSSL ssl then None else Some (true, []));
  tcpSend l data :=
    if isOpen l then (mkLink true (dialled l) (written l ++ [data]), true, None) else (l, false, None);
  tcpClose l :=
    if isOpen l then (mkLink false (dialled l) (written l), None, Some (str "Connection closed")) else (l, None, None);
  tcpCloseAfterWrites l :=
    if isOpen l then (mkLink false (dialled l) (written l), None, Some (str "Connection closed")) else (l, None, None);
  lastFailure _ := None
}.
