(* ===== verification/ResponseViews.v ===== *)
(** * Response heads as views of the receive buffer (src/HttpParser.cpp, src/HttpClient.cpp)

    [HttpResponseView] holds string views into the buffer it was parsed from.  [HttpParser]
    models what the views read at once; here are their positions, so that a reader who has
    moved the buffer's bytes in the meantime can be modelled too. *)

From S2P Require Import Prelude CType HttpParser.

Record View := mkView { v_off : nat; v_len : nat }.

(** What a view reads in the storage [mem]. *)
Definition readView (mem : list byte) (v : View) : list byte := take (v_len v) (drop (v_off v) mem).

(** The view [trim] returns for the text [s] at [off]. *)
Definition trimView (off : nat) (s : list byte) : View :=
  mkView (off + (length s - length (trimLeft s))) (length (trim s)).

(** Name and value of a header line at [off]. *)
Definition lineViews (off : nat) (line : list byte) : View * View :=
  let colon := default 0%nat (find_from x3a line) in
  (trimView off (take colon line), trimView (off + S colon) (drop (S colon) line)).

(** [headers[name] = value] on the map of views: a key that is there keeps its view. *)
Fixpoint viewSet (raw : list byte) (n v : View) (m : list (View * View)) : list (View * View) :=
  match m with
  | [] => [(n, v)]
  | (n', v') :: m' =>
      if bytes_lt (readView raw n) (readView raw n') then (n, v) :: m
      else if bytes_lt (readView raw n') (readView raw n) then (n', v') :: viewSet raw n v m'
      else (n', v) :: m'
  end.

(** The header loop; [rest] is the header text from position [off] of [raw] on. *)
Fixpoint headerViewsLoop (fuel : nat) (raw : list byte) (off : nat) (rest : list byte) (m : list (View * View)) : list (View * View) :=
  match fuel with
  | O => m
  | S fuel =>
      match rest with
      | [] => m
      | _ =>
          match find_sub CRLF rest with
          | None => let '(n, v) := lineViews off rest in viewSet raw n v m
          | Some lineEnd =>
              let '(n, v) := lineViews off (take lineEnd rest) in
              headerViewsLoop fuel raw (off + lineEnd + 2) (drop (lineEnd + 2) rest) (viewSet raw n v m)
          end
      end
  end.

Definition headerViews (raw : list byte) : list (View * View) :=
  let headerEnd := default 0%nat (find_sub (CRLF ++ CRLF) raw) in
  let offset := (default 0%nat (find_sub CRLF raw) + 2)%nat in
  let headerLines := sv_substr raw offset (u64 (Z.of_nat headerEnd - Z.of_nat offset)) in
  headerViewsLoop (S (length headerLines)) raw offset headerLines [].

Definition messageView (raw : list byte) : View :=
  let statusLine := take (default 0%nat (find_sub CRLF raw)) raw in
  let firstSpace := default 0%nat (find_from SP statusLine) in
  let secondSpace := default 0%nat (sv_find_char statusLine SP (S firstSpace)) in
  trimView (S secondSpace) (drop (S secondSpace) statusLine).

(** The fields of a view parsed from [raw] with code [statusCode], as storage [mem] now
    reads. *)
Definition readHeaders (mem raw : list byte) : strmap :=
  (fun nv => (readView mem nv.1, readView mem nv.2)) <$> headerViews raw.

Definition viewIn (mem raw : list byte) (statusCode : Z) (body : View) : HttpResponseView :=
  mkResponse statusCode (readView mem (messageView raw)) [] (readHeaders mem raw) (readView mem body).

(** ** In the storage they were parsed from, the views read what was parsed *)

(** [text] stands at [off] in [raw]. *)
Definition standsAt (raw : list byte) (off : nat) (text : list byte) : Prop := ∃ tail, drop off raw = text ++ tail.

Lemma standsAt_take raw off s n : standsAt raw off s -> standsAt raw off (take n s).
Proof. intros [t H]. exists (drop n s ++ t). by rewrite app_assoc, take_drop. Qed.

Lemma standsAt_drop raw off s n : standsAt raw off s -> (n <= length s)%nat -> standsAt raw (off + n) (drop n s).
Proof. intros [t H] Hn. exists t. rewrite <- drop_drop, H. by rewrite drop_app_le. Qed.

Lemma readView_stands raw off s : standsAt raw off s -> readView raw (mkView off (length s)) = s.
Proof. intros [t H]. unfold readView. cbn. rewrite H. apply take_app_length. Qed.

Lemma readView_trim raw off s : standsAt raw off s -> readView raw (trimView off s) = trim s.
Proof.
  intros Hs. unfold trimView. destruct (trimLeft_spec s) as (p & Hp & _).
  set (l := trimLeft s) in *. assert (Hlen : (length s - length l = length p)%nat) by (rewrite Hp at 1; rewrite length_app; lia).
  rewrite Hlen. assert (Hl : standsAt raw (off + length p) l).
  { replace l with (drop (length p) s) by (rewrite Hp; apply drop_app_length). apply standsAt_drop; [done|].
    rewrite Hp, length_app. lia. }
  assert (Ht : trim s = take (length (trim s)) l).
  { unfold trim. fold l. destruct (trimLeft_spec (reverse l)) as (q & Hq & _). set (r := trimLeft (reverse l)) in *.
    assert (El : l = reverse r ++ reverse q) by (rewrite <- (reverse_involutive l), Hq at 1; by rewrite reverse_app).
    rewrite El at 1. rewrite length_reverse, take_app_exact by (by rewrite length_reverse). done. }
  rewrite Ht at 2. destruct Hl as [t Hl]. unfold readView. cbn. rewrite Hl. rewrite take_app_le; [done|].
  pose proof (f_equal length Ht) as E. rewrite length_take in E. lia.
Qed.

Lemma viewSet_read raw n v m :
  (fun nv => (readView raw nv.1, readView raw nv.2)) <$> viewSet raw n v m =
  map_set (readView raw n) (readView raw v) ((fun nv => (readView raw nv.1, readView raw nv.2)) <$> m).
Proof.
  induction m as [|[n' v'] m IH]; [done|]. cbn [viewSet fmap list_fmap fst snd map_set].
  destruct (bytes_lt (readView raw n) (readView raw n')) eqn:E1; [done|].
  destruct (bytes_lt (readView raw n') (readView raw n)) eqn:E2; cbn [fmap list_fmap fst snd]; [f_equal; apply IH|].
  f_equal. f_equal. symmetry. by apply bytes_lt_total.
Qed.

Lemma parseHeaderLine_views raw off line st st' :
  standsAt raw off line -> parseHeaderLine line st = Some st' ->
  hs_headers st' = map_set (readView raw (lineViews off line).1) (readView raw (lineViews off line).2) (hs_headers st).
Proof.
  intros Hs. unfold parseHeaderLine. case_match; [done|]. destruct (find_from x3a line) as [colon|] eqn:E; [|done].
  case_match; [done|]. cbv zeta. repeat (case_match; [done|]). intros [= <-]. cbn [hs_headers]. unfold lineViews. rewrite E. cbn [default from_option id fst snd].
  apply find_from_Some in E as [E _]. apply lookup_lt_Some in E.
  rewrite !readView_trim; [done|by apply standsAt_drop; [done|lia]|by apply standsAt_take].
Qed.

Lemma headerViewsLoop_read raw fuel : ∀ off rest m st hs,
  standsAt raw off rest -> hs_headers st = (fun nv => (readView raw nv.1, readView raw nv.2)) <$> m ->
  parseHeaderLoop fuel rest st = Some hs ->
  hs = (fun nv => (readView raw nv.1, readView raw nv.2)) <$> headerViewsLoop fuel raw off rest m.
Proof.
  induction fuel as [|fuel IH]; intros off rest m st hs Hs Hm; [done|]. cbn [parseHeaderLoop headerViewsLoop].
  destruct rest as [|c rest]; [by intros [= <-]|]. destruct (find_sub CRLF (c :: rest)) as [e|] eqn:E.
  - destruct (parseHeaderLine _ st) as [st'|] eqn:El; [|done]. cbn [mbind option_bind].
    apply (parseHeaderLine_views raw off) in El; [|by apply standsAt_take]. rewrite Hm, <- viewSet_read in El.
    destruct (lineViews off (take e (c :: rest))) as [n v]. cbn [fst snd] in El. intros Hp.
    apply (IH _ _ _ st'); [|done|done]. apply find_sub_bound in E. change (length CRLF) with 2%nat in E.
    rewrite <- Nat.add_assoc. apply standsAt_drop; [done|]. cbn [length] in *. lia.
  - destruct (parseHeaderLine (c :: rest) st) as [st'|] eqn:El; [|done]. cbn [fmap option_fmap option_map]. intros [= <-].
    apply (parseHeaderLine_views raw off) in El; [|done]. rewrite Hm, <- viewSet_read in El.
        by destruct (lineViews off (c :: rest)) as [n v].
Qed.

Lemma sv_substr_stands raw off n : standsAt raw off (sv_substr raw off n).
Proof. unfold sv_substr. apply standsAt_take. exists []. by rewrite app_nil_r. Qed.

Lemma views_read raw r : parseResponseHead raw = Some r ->
  rs_headers r = readHeaders raw raw ∧ rs_statusMessage r = readView raw (messageView raw).
Proof.
  unfold parseResponseHead. case_match; [done|]. unfold readHeaders, headerViews, messageView.
  destruct (find_sub (CRLF ++ CRLF) raw) as [he|]; [|done]. case_match; [done|]. destruct (find_sub CRLF raw) as [sl|] eqn:Esl; [|done].
  case_match; [done|]. cbn [default from_option id]. destruct (find_from SP (take sl raw)) as [sp1|] eqn:E1; [|done]. case_match; [done|]. cbn [default from_option id].
  destruct (sv_find_char (take sl raw) SP (S sp1)) as [sp2|] eqn:E2; [|done]. case_match; [done|]. cbn [default from_option id].
  case_match; [done|]. destruct (statusCodeLoop _ _); [|done]. destruct (parseHeaderLines _) as [hs|] eqn:Eh; [|done].
  intros [= <-]. cbn [rs_headers rs_statusMessage]. split.
  - apply (headerViewsLoop_read raw _ (sl + 2) _ [] (mkHS [] 0 false false)); [apply sv_substr_stands | done | exact Eh].
  - symmetry. apply readView_trim. apply (standsAt_drop raw 0); [exists (drop sl raw); by rewrite take_drop|].
    unfold sv_find_char in E2. apply fmap_Some in E2 as (k & Hk & ->). apply find_from_Some in Hk as [Hk _].
    rewrite lookup_drop in Hk. apply lookup_lt_Some in Hk. lia.
Qed.
