(* ===== verification/HttpClient.v ===== *)
(** * The HTTP client (src/HttpClient.cpp)

    [HttpClient::Impl] as a state machine: connecting, sending a request, receiving a
    buffered or a streamed response in pieces, redirects, cancellation, timeouts.  The TCP
    client is an interface ([ClientTransport]); its callbacks into [Impl] run inside the
    calls that report them.  The code runs in a monad of state, exceptions and loops that may
    not end.  A view of the response outlives the erasure of the bytes it points to, so the
    fields of a response are read from the storage as the erasure leaves it
    ([ResponseViews]). *)

From S2P Require Import Prelude CType Base64 HttpParser HttpCommon Stoull ChunkedFraming Address HttpUrl ClientRequest ClientTransport ResponseViews.

(** ** Chunked framing *)

(** The trailer lines behind the last chunk, to the blank line. *)
Fixpoint trailerBytesLoop (fuel : nat) (data : list byte) (offset : nat) : ChunkedSize :=
  match fuel with
  | O => Running
  | S fuel =>
      match sv_find data CRLF offset with
      | None => Incomplete
      | Some trailerEnd =>
          let trailerLine := take (trailerEnd - offset) (drop offset data) in
          if trailerLine =s [] then Size (Z.of_nat trailerEnd + 2)
          else match find_from x3a trailerLine with
          | None | Some O => Size 0
          | Some _ => trailerBytesLoop fuel data (trailerEnd + 2)
          end
      end
  end.

Definition trailerBytes (data : list byte) (offset : nat) : ChunkedSize := trailerBytesLoop (S (length data)) data offset.

(** [getChunkedMessageSize]. *)
Definition chunkedMessageBytes (data : list byte) : ChunkedSize := chunkedSize chunkSizeOfLine trailerBytes data.

(** ** Extracting a response *)

(** [tryExtractResponseViewFromRaw]: not yet, the status with the place of the body and the
    bytes consumed, or an exception or endless loop of [getChunkedMessageSize]. *)
Inductive Extraction := NotYet | Extracted (statusCode : Z) (body : View) (consumed : Z) | ExtractThrows | ExtractRuns.

Definition carriesNoBody (method : list byte) (statusCode : Z) : bool :=
  caseInsensitiveCompare method (str "HEAD") || ((100 <=? statusCode) && (statusCode <? 200)) ||
  (statusCode =? 204) || (statusCode =? 304).

(** [raw.substr(headerBytes, length)]. *)
Definition bodyView (raw : list byte) (headerBytes : nat) (len : Z) : View :=
  mkView headerBytes (Z.to_nat (Z.min len (zlen raw - Z.of_nat headerBytes))).

Definition isChunkedHeader (hs : strmap) : bool :=
  match getHeader hs (str "Transfer-Encoding") with
  | Some te => containsHeaderTokenCaseInsensitive te (str "chunked")
  | None => false
  end.

Definition tryExtractResponseView (method raw : list byte) (connectionClosed : bool) : Extraction :=
  match parseResponseHead raw, find_sub (CRLF ++ CRLF) raw with
  | Some view, Some headerEnd =>
      let headerBytes := (headerEnd + 4)%nat in
      if carriesNoBody method (rs_statusCode view) then Extracted (rs_statusCode view) (mkView 0 0) (Z.of_nat headerBytes)
      else match getHeader (rs_headers view) (str "Content-Length") with
      | Some contentLength =>
          match stoull 10 contentLength with
          | None => NotYet
          | Some len =>
              let total := u64 (Z.of_nat headerBytes + len) in
              if zlen raw <? total then NotYet else Extracted (rs_statusCode view) (bodyView raw headerBytes len) total
          end
      | None =>
          if isChunkedHeader (rs_headers view) then
            match chunkedMessageBytes (drop headerBytes raw) with
            | Incomplete | Size 0 => NotYet
            | Size n => Extracted (rs_statusCode view) (bodyView raw headerBytes n) (Z.of_nat headerBytes + n)
            | OutOfRange => ExtractThrows
            | Running => ExtractRuns
            end
          else if negb connectionClosed then NotYet
          else Extracted (rs_statusCode view) (mkView headerBytes (length raw - headerBytes)) (zlen raw)
      end
  | _, _ => NotYet
  end.

(** [buildResponse]; [None] is the exception of [parseChunked]. *)
Definition buildResponse (view : HttpResponseView) : option HttpResponse :=
  let response := mkHttpResponse (rs_statusCode view) (rs_statusMessage view) (setAll (rs_headers view) []) [] false [] 0 0 in
  if isChunkedHeader (rs_headers view) then
    match parseChunked (rs_body view) with
    | Returned true decodedBody => Some (setBody response decodedBody)
    | Returned false _ => Some (setBody response (rs_body view))
    | LengthError => None
    end
  else Some (setBody response (rs_body view)).

(** The first [bytes] bytes erased from the buffer, and its storage afterwards: [erase]
    moves the rest down and leaves what lies behind it.  The buffer is a
    [std::vector<uint8_t>]; the language leaves open what reading the storage behind a
    shortened vector gives, and this is what its implementations do.  Only the views of
    [consumeLoop] and [parseStreamingHeadersLoop] that outlive the erasure read it. *)
Definition erased (raw : list byte) (bytes : Z) : list byte :=
  if zlen raw <=? bytes then [] else drop (Z.to_nat bytes) raw.

Definition storageAfter (raw : list byte) (bytes : Z) : list byte :=
  if zlen raw <=? bytes then raw else drop (Z.to_nat bytes) raw ++ drop (length raw - Z.to_nat bytes) raw.

(** ** State *)

Record PendingRequest := mkPending {
  rq_methodName : list byte;
  rq_path : list byte;
  rq_fields : strmap;
  rq_payload : list byte
}.

Record Stream := mkStream {
  streamHeadersParsed_ : bool;
  streamNoBody_ : bool;
  streamChunked_ : bool;
  streamContentLength_ : option Z;
  streamReceivedBodyBytes_ : Z;
  streamResponse_ : HttpResponse
}.

Record Settings := mkSettings {
  followRedirects_ : bool;
  maxRedirects_ : Z;
  useCompression_ : bool;
  sslConfig_ : SSLConfig;
  proxyOptions_ : HttpProxyOptions
}.

(** Which callbacks are set. *)
Record Callbacks := mkCallbacks {
  connectCallback_ : bool;
  responseCallback_ : bool;
  streamHeadersCallback_ : bool;
  streamDataCallback_ : bool;
  streamCompleteCallback_ : bool
}.

(** Calls of the user's callbacks. *)
Inductive Event :=
  | OnConnect (success : bool) (message : list byte)
  | OnResponse (r : HttpResponse)
  | OnStreamHeaders (r : HttpResponse)
  | OnStreamData (chunk : list byte)
  | OnStreamComplete (r : HttpResponse).

(** What a streaming callback does with the stream: goes on, calls [cancelRequest] before
    it returns, or (the data callback) returns [false]. *)
Inductive Reaction := Proceed | Cancel | Refuse.

Section Client.
Context {Net : Type} {tcp : TcpClient Net}.

(** [requestTimer_] is the timeout the timer was armed with. *)
Record Impl := mkImpl {
  net : Net;
  connected_ : bool;
  awaitingResponse_ : bool;
  replayAfterConnect_ : bool;
  streamingResponse_ : bool;
  stream : Stream;
  parsedUrl_ : ParsedUrl;
  pendingRequest_ : PendingRequest;
  responseBuffer_ : list byte;
  requestTimer_ : option Z;
  requestTimeout_ : Z;
  pendingRequestOverrideTimeout_ : option Z;
  redirectCount_ : Z;
  lastError_ : option Failure;
  settings : Settings;
  callbacks : Callbacks;
  events : list Event
}.

Definition setNet x (s : Impl) : Impl :=
  mkImpl x (connected_ s) (awaitingResponse_ s) (replayAfterConnect_ s) (streamingResponse_ s) (stream s) (parsedUrl_ s) (pendingRequest_ s) (responseBuffer_ s) (requestTimer_ s) (requestTimeout_ s) (pendingRequestOverrideTimeout_ s) (redirectCount_ s) (lastError_ s) (settings s) (callbacks s) (events s).
Definition setConnected x (s : Impl) : Impl :=
  mkImpl (net s) x (awaitingResponse_ s) (replayAfterConnect_ s) (streamingResponse_ s) (stream s) (parsedUrl_ s) (pendingRequest_ s) (responseBuffer_ s) (requestTimer_ s) (requestTimeout_ s) (pendingRequestOverrideTimeout_ s) (redirectCount_ s) (lastError_ s) (settings s) (callbacks s) (events s).
Definition setAwaiting x (s : Impl) : Impl :=
  mkImpl (net s) (connected_ s) x (replayAfterConnect_ s) (streamingResponse_ s) (stream s) (parsedUrl_ s) (pendingRequest_ s) (responseBuffer_ s) (requestTimer_ s) (requestTimeout_ s) (pendingRequestOverrideTimeout_ s) (redirectCount_ s) (lastError_ s) (settings s) (callbacks s) (events s).
Definition setReplay x (s : Impl) : Impl :=
  mkImpl (net s) (connected_ s) (awaitingResponse_ s) x (streamingResponse_ s) (stream s) (parsedUrl_ s) (pendingRequest_ s) (responseBuffer_ s) (requestTimer_ s) (requestTimeout_ s) (pendingRequestOverrideTimeout_ s) (redirectCount_ s) (lastError_ s) (settings s) (callbacks s) (events s).
Definition setStreaming x (s : Impl) : Impl :=
  mkImpl (net s) (connected_ s) (awaitingResponse_ s) (replayAfterConnect_ s) x (stream s) (parsedUrl_ s) (pendingRequest_ s) (responseBuffer_ s) (requestTimer_ s) (requestTimeout_ s) (pendingRequestOverrideTimeout_ s) (redirectCount_ s) (lastError_ s) (settings s) (callbacks s) (events s).
Definition setStream x (s : Impl) : Impl :=
  mkImpl (net s) (connected_ s) (awaitingResponse_ s) (replayAfterConnect_ s) (streamingResponse_ s) x (parsedUrl_ s) (pendingRequest_ s) (responseBuffer_ s) (requestTimer_ s) (requestTimeout_ s) (pendingRequestOverrideTimeout_ s) (redirectCount_ s) (lastError_ s) (settings s) (callbacks s) (events s).
Definition setParsedUrl x (s : Impl) : Impl :=
  mkImpl (net s) (connected_ s) (awaitingResponse_ s) (replayAfterConnect_ s) (streamingResponse_ s) (stream s) x (pendingRequest_ s) (responseBuffer_ s) (requestTimer_ s) (requestTimeout_ s) (pendingRequestOverrideTimeout_ s) (redirectCount_ s) (lastError_ s) (settings s) (callbacks s) (events s).
Definition setPending x (s : Impl) : Impl :=
  mkImpl (net s) (connected_ s) (awaitingResponse_ s) (replayAfterConnect_ s) (streamingResponse_ s) (stream s) (parsedUrl_ s) x (responseBuffer_ s) (requestTimer_ s) (requestTimeout_ s) (pendingRequestOverrideTimeout_ s) (redirectCount_ s) (lastError_ s) (settings s) (callbacks s) (events s).
Definition setBuffer x (s : Impl) : Impl :=
  mkImpl (net s) (connected_ s) (awaitingResponse_ s) (replayAfterConnect_ s) (streamingResponse_ s) (stream s) (parsedUrl_ s) (pendingRequest_ s) x (requestTimer_ s) (requestTimeout_ s) (pendingRequestOverrideTimeout_ s) (redirectCount_ s) (lastError_ s) (settings s) (callbacks s) (events s).
Definition setTimer x (s : Impl) : Impl :=
  mkImpl (net s) (connected_ s) (awaitingResponse_ s) (replayAfterConnect_ s) (streamingResponse_ s) (stream s) (parsedUrl_ s) (pendingRequest_ s) (responseBuffer_ s) x (requestTimeout_ s) (pendingRequestOverrideTimeout_ s) (redirectCount_ s) (lastError_ s) (settings s) (callbacks s) (events s).
Definition setTimeoutMs x (s : Impl) : Impl :=
  mkImpl (net s) (connected_ s) (awaitingResponse_ s) (replayAfterConnect_ s) (streamingResponse_ s) (stream s) (parsedUrl_ s) (pendingRequest_ s) (responseBuffer_ s) (requestTimer_ s) x (pendingRequestOverrideTimeout_ s) (redirectCount_ s) (lastError_ s) (settings s) (callbacks s) (events s).
Definition setOverride x (s : Impl) : Impl :=
  mkImpl (net s) (connected_ s) (awaitingResponse_ s) (replayAfterConnect_ s) (streamingResponse_ s) (stream s) (parsedUrl_ s) (pendingRequest_ s) (responseBuffer_ s) (requestTimer_ s) (requestTimeout_ s) x (redirectCount_ s) (lastError_ s) (settings s) (callbacks s) (events s).
Definition setRedirectCount x (s : Impl) : Impl :=
  mkImpl (net s) (connected_ s) (awaitingResponse_ s) (replayAfterConnect_ s) (streamingResponse_ s) (stream s) (parsedUrl_ s) (pendingRequest_ s) (responseBuffer_ s) (requestTimer_ s) (requestTimeout_ s) (pendingRequestOverrideTimeout_ s) x (lastError_ s) (settings s) (callbacks s) (events s).
Definition setError x (s : Impl) : Impl :=
  mkImpl (net s) (connected_ s) (awaitingResponse_ s) (replayAfterConnect_ s) (streamingResponse_ s) (stream s) (parsedUrl_ s) (pendingRequest_ s) (responseBuffer_ s) (requestTimer_ s) (requestTimeout_ s) (pendingRequestOverrideTimeout_ s) (redirectCount_ s) x (settings s) (callbacks s) (events s).
Definition setSettings x (s : Impl) : Impl :=
  mkImpl (net s) (connected_ s) (awaitingResponse_ s) (replayAfterConnect_ s) (streamingResponse_ s) (stream s) (parsedUrl_ s) (pendingRequest_ s) (responseBuffer_ s) (requestTimer_ s) (requestTimeout_ s) (pendingRequestOverrideTimeout_ s) (redirectCount_ s) (lastError_ s) x (callbacks s) (events s).
Definition setCallbacks x (s : Impl) : Impl :=
  mkImpl (net s) (connected_ s) (awaitingResponse_ s) (replayAfterConnect_ s) (streamingResponse_ s) (stream s) (parsedUrl_ s) (pendingRequest_ s) (responseBuffer_ s) (requestTimer_ s) (requestTimeout_ s) (pendingRequestOverrideTimeout_ s) (redirectCount_ s) (lastError_ s) (settings s) x (events s).
Definition setEvents x (s : Impl) : Impl :=
  mkImpl (net s) (connected_ s) (awaitingResponse_ s) (replayAfterConnect_ s) (streamingResponse_ s) (stream s) (parsedUrl_ s) (pendingRequest_ s) (responseBuffer_ s) (requestTimer_ s) (requestTimeout_ s) (pendingRequestOverrideTimeout_ s) (redirectCount_ s) (lastError_ s) (settings s) (callbacks s) x.

(** ** The monad *)

Inductive Result (A : Type) :=
  | Returns (a : A) (s : Impl)
  | Throws (s : Impl)
  | StillRunning.
#[global] Arguments Returns {A}.
#[global] Arguments Throws {A}.
#[global] Arguments StillRunning {A}.

Definition M (A : Type) : Type := Impl -> Result A.

#[global] Instance M_ret : MRet M := fun A a s => Returns a s.
#[global] Instance M_bind : MBind M := fun A B f m s =>
  match m s with
  | Returns a s => f a s
  | Throws s => Throws s
  | StillRunning => StillRunning
  end.

Definition gets {A} (f : Impl -> A) : M A := fun s => Returns (f s) s.
Definition modify (f : Impl -> Impl) : M unit := fun s => Returns () (f s).
Definition throw {A} : M A := fun s => Throws s.
Definition run_on {A} : M A := fun s => StillRunning.
Definition when (b : bool) (m : M unit) : M unit := if b then m else mret ().

Definition emit (e : Event) : M unit := modify (fun s => setEvents (events s ++ [e]) s).

(** ** Small operations *)

Definition clearLastError : M unit := modify (setError None).
Definition setLastError (code : ErrorCode) (message : list byte) : M unit := modify (setError (Some (code, message))).
Definition stopRequestTimer : M unit := modify (setTimer None).

Definition restoreRequestTimeoutOverride : M unit :=
  modify (fun s => match pendingRequestOverrideTimeout_ s with
                   | None => s
                   | Some t => setOverride None (setTimeoutMs t s)
                   end).

Definition startRequestTimer : M unit :=
  stopRequestTimer ;;
  timeout ← gets requestTimeout_;
  if timeout =? 0 then mret () else modify (setTimer (Some timeout)).

(** The response of status 0 that reports a failure. *)
Definition failureResponse (message : list byte) : HttpResponse := setStatusLine defaultHttpResponse 0 message.

Definition callResponse (r : HttpResponse) : M unit :=
  cb ← gets (fun s => responseCallback_ (callbacks s));
  when cb (emit (OnResponse r)).

Definition eraseResponseBufferPrefix (bytes : Z) : M unit :=
  modify (fun s => setBuffer (erased (responseBuffer_ s) bytes) s).

(** The failure the transport reports, or the one given. *)
Definition setTransportError (code : ErrorCode) (message : list byte) : M unit :=
  modify (fun s => setError (Some (default (code, message) (lastFailure (net s)))) s).

(** ** Completion of a stream *)

Definition resetStream (st : Stream) : Stream := mkStream false false false None 0 (streamResponse_ st).

Definition endStream : M unit :=
  restoreRequestTimeoutOverride ;;
  modify (fun s => setBuffer [] (setStream (resetStream (stream s)) (setStreaming false (setAwaiting false s)))).

Definition callComplete (f : HttpResponse -> HttpResponse) : M unit :=
  r ← gets (fun s => f (streamResponse_ (stream s)));
  cb ← gets (fun s => streamCompleteCallback_ (callbacks s));
  when cb (emit (OnStreamComplete r)).

Definition completeStreamingResponse : M unit :=
  stopRequestTimer ;; clearLastError ;; endStream ;; callComplete id.

Definition completeStreamingWithStatus (statusCode : Z) (message : list byte) : M unit :=
  stopRequestTimer ;; endStream ;; callComplete (fun r => setBody (setStatusLine r statusCode message) []).

(** ** Buffered responses *)

(** The loop skips interim responses; [None] is [return false]. *)
Fixpoint consumeLoop (fuel : nat) (connectionClosed : bool) : M (option HttpResponse) :=
  match fuel with
  | O => run_on
  | S fuel =>
      raw ← gets responseBuffer_;
      method ← gets (fun s => rq_methodName (pendingRequest_ s));
      match tryExtractResponseView method raw connectionClosed with
      | NotYet => mret None
      | ExtractThrows => throw
      | ExtractRuns => run_on
      | Extracted statusCode body consumed =>
          eraseResponseBufferPrefix consumed ;;
          if isInterimResponseStatus statusCode then consumeLoop fuel connectionClosed
          else match buildResponse (viewIn (storageAfter raw consumed) raw statusCode body) with
               | Some response => mret (Some response)
               | None => throw
               end
      end
  end.

Definition tryConsumeBufferedResponse (connectionClosed : bool) : M (option HttpResponse) :=
  raw ← gets responseBuffer_;
  consumeLoop (S (length raw)) connectionClosed.

(** ** Disconnection *)

(** [handleDisconnect] with the functions it hands data to. *)
Definition handleDisconnectWith (onStream : M unit) (onResponse : HttpResponse -> M unit) (reason : list byte) : M unit :=
  stopRequestTimer ;;
  modify (setConnected false) ;;
  awaiting ← gets awaitingResponse_;
  when (awaiting && negb (reason =s [])) (setLastError ConnectionError reason) ;;
  streaming ← gets streamingResponse_;
  if awaiting && streaming then
    onStream ;;
    awaiting ← gets awaitingResponse_;
    when awaiting (completeStreamingWithStatus 0 (if reason =s [] then str "Connection closed" else reason))
  else
    buffer ← gets responseBuffer_;
    consumed ← (if awaiting && negb (buffer =s []) then tryConsumeBufferedResponse true else mret None);
    match consumed with
    | Some response => modify (setAwaiting false) ;; onResponse response
    | None =>
        cb ← gets (fun s => responseCallback_ (callbacks s));
        when (awaiting && cb)
          (modify (setAwaiting false) ;; modify (setBuffer []) ;; emit (OnResponse (failureResponse reason)))
    end.

(** While no response is awaited a disconnection hands on no data. *)
Definition closedIdle : list byte -> M unit := handleDisconnectWith (mret ()) (fun _ => mret ()).

(** [handleConnect(false, errorMessage)]. *)
Definition handleConnectFailed (errorMessage : list byte) : M unit :=
  modify (setConnected false) ;;
  setTransportError ConnectionError errorMessage ;;
  stopRequestTimer ;;
  modify (setAwaiting false) ;;
  cb ← gets (fun s => connectCallback_ (callbacks s));
  when cb (emit (OnConnect false errorMessage)) ;;
  replay ← gets replayAfterConnect_;
  when replay (callResponse (failureResponse errorMessage)) ;;
  modify (setReplay false).

(** [tcpClient_.disconnect()], with the disconnect callback. *)
Definition tcpDisconnectWith (onClosed : list byte -> M unit) : M unit :=
  n ← gets net;
  let '(n, cancelled, closed) := tcpClose n in
  modify (setNet n) ;;
  match cancelled with Some message => handleConnectFailed message | None => mret () end ;;
  match closed with Some reason => onClosed reason | None => mret () end.

Definition cancelRequest : M unit :=
  awaiting ← gets awaitingResponse_;
  if negb awaiting then mret ()
  else
    setLastError ConnectionError (str "HTTP request cancelled") ;;
    stopRequestTimer ;;
    restoreRequestTimeoutOverride ;;
    modify (setAwaiting false) ;;
    modify (setBuffer []) ;;
    tcpDisconnectWith closedIdle ;;
    streaming ← gets streamingResponse_;
    if (streaming : bool) then completeStreamingWithStatus 0 (str "HTTP request cancelled")
    else callResponse (failureResponse (str "HTTP request cancelled")).

(** ** Streamed responses *)

Section Streaming.
Context (onHeaders : HttpResponse -> Reaction) (onData : list byte -> Reaction).

(** A protocol error ends the stream; a broken body also ends the connection. *)
Definition failStream (code : ErrorCode) (message : list byte) : M bool :=
  setLastError code message ;; completeStreamingWithStatus 0 message ;; mret false.
Definition abortStream (code : ErrorCode) (message : list byte) : M bool :=
  setLastError code message ;; completeStreamingWithStatus 0 message ;; tcpDisconnectWith closedIdle ;; mret false.

(** The fields the body's framing is taken from, after the head has been erased. *)
Definition streamOf (method : list byte) (view : HttpResponseView) (response : HttpResponse) (contentLength : option Z) : Stream :=
  mkStream true (carriesNoBody method (rs_statusCode view)) (isChunkedHeader (rs_headers view)) contentLength 0 (setBody response []).

Fixpoint parseStreamingHeadersLoop (fuel : nat) (connectionClosed : bool) : M bool :=
  match fuel with
  | O => run_on
  | S fuel =>
      parsed ← gets (fun s => streamHeadersParsed_ (stream s));
      if (parsed : bool) then mret true
      else
        raw ← gets responseBuffer_;
        match find_sub (CRLF ++ CRLF) raw with
        | None =>
            if connectionClosed then failStream HttpProtocolError (str "Incomplete HTTP response head") else mret false
        | Some headerEnd =>
            match parseResponseHead raw with
            | None => failStream HttpProtocolError (str "Invalid HTTP response head")
            | Some head =>
                let bytes := Z.of_nat headerEnd + 4 in
                eraseResponseBufferPrefix bytes ;;
                if isInterimResponseStatus (rs_statusCode head) then parseStreamingHeadersLoop fuel connectionClosed
                else
                  let view := viewIn (storageAfter raw bytes) raw (rs_statusCode head) (mkView 0 0) in
                  match buildResponse view with
                  | None => throw
                  | Some response =>
                      method ← gets (fun s => rq_methodName (pendingRequest_ s));
                      modify (setStream (streamOf method view response None)) ;;
                      let length :=
                        if isChunkedHeader (rs_headers view) then Some None
                        else match getHeader (rs_headers view) (str "Content-Length") with
                             | None => Some None
                             | Some text => Some <$> stoull 10 text
                             end in
                      match length with
                      | None => failStream HttpProtocolError (str "Invalid HTTP Content-Length")
                      | Some contentLength =>
                          modify (setStream (streamOf method view response contentLength)) ;;
                          cb ← gets (fun s => streamHeadersCallback_ (callbacks s));
                          when cb (emit (OnStreamHeaders (setBody response [])) ;;
                                   match onHeaders (setBody response []) with Cancel => cancelRequest | _ => mret () end) ;;
                          streaming ← gets streamingResponse_;
                          if cb && negb streaming then mret false else parseStreamingHeadersLoop fuel connectionClosed
                      end
                  end
            end
        end
  end.

Definition parseStreamingHeaders (connectionClosed : bool) : M bool :=
  raw ← gets responseBuffer_;
  parseStreamingHeadersLoop (S (S (length raw))) connectionClosed.

Definition deliverStreamingChunk (chunk : list byte) : M bool :=
  if chunk =s [] then mret true
  else
    cb ← gets (fun s => streamDataCallback_ (callbacks s));
    if negb cb then gets streamingResponse_
    else
      emit (OnStreamData chunk) ;;
      match onData chunk with
      | Refuse => abortStream ConnectionError (str "HTTP stream cancelled by data callback")
      | Cancel => cancelRequest ;; gets streamingResponse_
      | Proceed => gets streamingResponse_
      end.

(** The chunk loop; the value returned is not used by the caller. *)
Fixpoint consumeChunkedLoop (fuel : nat) : M bool :=
  match fuel with
  | O => run_on
  | S fuel =>
      streaming ← gets streamingResponse_;
      if negb streaming then mret false
      else
        raw ← gets responseBuffer_;
        match find_sub CRLF raw with
        | None => mret true
        | Some lineEnd =>
            match chunkSizeOfLine (take lineEnd raw) with
            | None => abortStream HttpProtocolError (str "Invalid HTTP chunk size")
            | Some chunkSize =>
                let chunkBodyOffset := Z.of_nat lineEnd + 2 in
                if chunkSize =? 0 then
                  match trailerBytes raw (lineEnd + 2) with
                  | Incomplete => mret true
                  | Size 0 => abortStream HttpProtocolError (str "Invalid HTTP chunk trailer")
                  | Size n => eraseResponseBufferPrefix n ;; completeStreamingResponse ;; mret false
                  | OutOfRange => throw
                  | Running => run_on
                  end
                else if zlen raw <? u64 (chunkBodyOffset + chunkSize + 2) then mret true
                else if zlen raw <? u64 (chunkBodyOffset + chunkSize) then throw
                else if negb (take 2 (drop (Z.to_nat (u64 (chunkBodyOffset + chunkSize))) raw) =s CRLF) then
                  abortStream HttpProtocolError (str "Malformed HTTP chunk")
                else
                  more ← deliverStreamingChunk (sv_substr raw (lineEnd + 2) chunkSize);
                  if negb more then mret false
                  else eraseResponseBufferPrefix (u64 (chunkBodyOffset + chunkSize + 2)) ;; consumeChunkedLoop fuel
            end
        end
  end.

Definition consumeStreamingChunkedBody : M bool :=
  raw ← gets responseBuffer_;
  consumeChunkedLoop (S (length raw)).

Definition setReceived (n : Z) (st : Stream) : Stream :=
  mkStream (streamHeadersParsed_ st) (streamNoBody_ st) (streamChunked_ st) (streamContentLength_ st) n (streamResponse_ st).

(** The loop of the fixed-length body; [total] is [*streamContentLength_]. *)
Fixpoint consumeFixedLoop (fuel : nat) (total : Z) : M bool :=
  match fuel with
  | O => run_on
  | S fuel =>
      s ← gets id;
      if negb (streamingResponse_ s) || (responseBuffer_ s =s []) then gets streamingResponse_
      else
        let remaining := total - streamReceivedBodyBytes_ (stream s) in
        if remaining =? 0 then completeStreamingResponse ;; mret false
        else
          let bytesToDeliver := Z.min remaining (zlen (responseBuffer_ s)) in
          more ← deliverStreamingChunk (take (Z.to_nat bytesToDeliver) (responseBuffer_ s));
          if negb more then mret false
          else
            modify (fun s => setStream (setReceived (streamReceivedBodyBytes_ (stream s) + bytesToDeliver) (stream s)) s) ;;
            eraseResponseBufferPrefix bytesToDeliver ;;
            received ← gets (fun s => streamReceivedBodyBytes_ (stream s));
            if total <=? received then completeStreamingResponse ;; mret false else consumeFixedLoop fuel total
  end.

Definition consumeStreamingFixedLengthBody : M bool :=
  s ← gets id;
  match streamContentLength_ (stream s) with
  | None => completeStreamingResponse ;; mret false
  | Some total =>
      if total <=? streamReceivedBodyBytes_ (stream s) then completeStreamingResponse ;; mret false
      else consumeFixedLoop (S (length (responseBuffer_ s))) total
  end.

Definition handleStreamingDataReceived (connectionClosed : bool) : M unit :=
  parsed ← parseStreamingHeaders connectionClosed;
  s ← gets id;
  if negb parsed || negb (streamingResponse_ s) then mret ()
  else if streamNoBody_ (stream s) then completeStreamingResponse
  else if streamChunked_ (stream s) then consumeStreamingChunkedBody ;; mret ()
  else match streamContentLength_ (stream s) with
  | Some total =>
      if (total =? 0) || (total <=? streamReceivedBodyBytes_ (stream s)) then completeStreamingResponse
      else consumeStreamingFixedLengthBody ;; mret ()
  | None =>
      more ← (if responseBuffer_ s =s [] then mret true
              else
                more ← deliverStreamingChunk (responseBuffer_ s);
                when more (modify (setBuffer [])) ;; mret more);
      when (more && connectionClosed) completeStreamingResponse
  end.

(** ** Sending *)

Definition handleError (code : ErrorCode) (message : list byte) : M unit :=
  setLastError code message ;;
  stopRequestTimer ;;
  streaming ← gets streamingResponse_;
  if (streaming : bool) then completeStreamingWithStatus 0 message
  else
    restoreRequestTimeoutOverride ;;
    cb ← gets (fun s => responseCallback_ (callbacks s));
    when cb (modify (setAwaiting false) ;; modify (setBuffer []) ;; emit (OnResponse (failureResponse message))).

(** While the receive buffer is empty a disconnection finds no buffered response. *)
Definition closedWhileSending : list byte -> M unit :=
  handleDisconnectWith (handleStreamingDataReceived true) (fun _ => mret ()).

Definition applyProxyHeaders (proxy : HttpProxyOptions) (headers : strmap) : strmap :=
  if negb (enabled proxy) then headers
  else
    let headers := setAll (proxy_headers proxy) headers in
    if username proxy =s [] then headers
    else map_set (str "Proxy-Authorization") (str "Basic " ++ base64Encode (username proxy ++ str ":" ++ password proxy))
           (eraseHeaderCaseInsensitive headers (str "Proxy-Authorization")).

(** The text of the pending request. *)
Definition pendingText (s : Impl) : list byte :=
  let p := pendingRequest_ s in
  let proxy := proxyOptions_ (settings s) in
  buildClientRequest (rq_methodName p) (buildTransportRequestTarget proxy (parsedUrl_ s) (rq_path p))
    (applyProxyHeaders proxy (rq_fields p)) (rq_payload p) (buildHostHeader (parsedUrl_ s)) (useCompression_ (settings s)).

Definition sendPendingRequest : M bool :=
  s ← gets id;
  if negb (connected_ s) then setLastError ConnectionError (str "HTTP client is not connected") ;; mret false
  else
    modify (setBuffer []) ;;
    modify (setAwaiting true) ;;
    let '(n, sent, broken) := tcpSend (net s) (pendingText s) in
    modify (setNet n) ;;
    match broken with
    | None => mret ()
    | Some (error, reason) =>
        match error with Some (code, message) => handleError code message | None => mret () end ;;
        closedWhileSending reason
    end ;;
    (if (sent : bool) then clearLastError ;; startRequestTimer
     else
       setTransportError ConnectionError (str "Failed to send HTTP request") ;;
       modify (setAwaiting false) ;; modify (setStreaming false) ;; restoreRequestTimeoutOverride) ;;
    mret sent.

(** ** Connecting *)

Definition handleConnect (success : bool) (errorMessage : list byte) : M unit :=
  if negb success then handleConnectFailed errorMessage
  else
    modify (setConnected true) ;;
    clearLastError ;;
    s ← gets id;
    if replayAfterConnect_ s then modify (setReplay false) ;; sendPendingRequest ;; mret ()
    else when (connectCallback_ (callbacks s)) (emit (OnConnect true [])).

Definition buildEffectiveSslConfig (cfg : Settings) (u : ParsedUrl) : SSLConfig :=
  if enabled (proxyOptions_ cfg) then defaultSsl
  else
    let ssl := sslConfig_ cfg in
    let enable := protocol u =s str "https" in
    let hostname :=
      if enable && (hostnameVerification ssl =s []) && negb (isValidIPv4 (url_host u)) && negb (isValidIPv6 (url_host u))
      then url_host u else hostnameVerification ssl in
    mkSsl enable (certificateFile ssl) (privateKeyFile ssl) (caFile ssl) (verifyPeer ssl) hostname.

Definition connectToParsedUrl (replayRequest : bool) : M bool :=
  modify (setReplay replayRequest) ;;
  modify (setBuffer []) ;;
  modify (setConnected false) ;;
  s ← gets id;
  let proxy := proxyOptions_ (settings s) in
  let u := parsedUrl_ s in
  if enabled proxy && (protocol u =s str "https") then
    setLastError InvalidArgument (str "HTTPS proxy tunneling is not supported by HttpClient yet") ;;
    when (connectCallback_ (callbacks s))
      (emit (OnConnect false (str "HTTPS proxy tunneling is not supported by HttpClient yet"))) ;;
    mret false
  else
    let '(host, port) := if enabled proxy then (proxy_host proxy, proxy_port proxy) else (url_host u, url_port u) in
    let '(n, started, notice) := tcpConnect (net s) host port (buildEffectiveSslConfig (settings s) u) in
    modify (setNet n) ;;
    match notice with Some (success, message) => handleConnect success message | None => mret () end ;;
    when (negb started) (setTransportError ConnectionError (str "Failed to start HTTP connection")) ;;
    mret started.

(** [disconnect], with the disconnect callback. *)
Definition disconnectWith (onClosed : list byte -> M unit) : M unit :=
  stopRequestTimer ;;
  tcpDisconnectWith onClosed ;;
  modify (fun s => setBuffer [] (setStreaming false (setAwaiting false (setConnected false s)))).

(** ** Responses and redirects *)

Definition prepareRedirectRequest (statusCode : Z) (basePath : list byte) (redirectedUrl : ParsedUrl) (endpointChanged : bool)
    (p : PendingRequest) : PendingRequest :=
  let named name := caseInsensitiveCompare (rq_methodName p) (str name) in
  let switchToGet := (statusCode =? 303) ||
    (((statusCode =? 301) || (statusCode =? 302)) && negb (named "GET"%string) && negb (named "HEAD"%string)) in
  let erase name hs := eraseHeaderCaseInsensitive hs (str name) in
  let p :=
    if switchToGet then
      mkPending (str "GET") (rq_path p)
        (erase "Transfer-Encoding"%string (erase "Content-Type"%string (erase "Content-Length"%string (rq_fields p)))) []
    else p in
  let path := buildRequestPath basePath (url_path redirectedUrl) in
  let headers :=
    if endpointChanged
    then erase "Proxy-Authorization"%string (erase "Authorization"%string (erase "Host"%string (rq_fields p)))
    else rq_fields p in
  mkPending (rq_methodName p) path headers (rq_payload p).

Definition sameEndpoint (a b : ParsedUrl) : bool :=
  (url_host a =s url_host b) && (url_port a =? url_port b) && (protocol a =s protocol b).

(** The URL a response redirects to, when the client follows it. *)
Definition redirectTarget (s : Impl) (response : HttpResponse) : option ParsedUrl :=
  if followRedirects_ (settings s) && isRedirect (statusCode response) && (redirectCount_ s <? maxRedirects_ (settings s)) then
    location ← findHeaderCaseInsensitive (headers response) (str "Location");
    resolveRedirect (parsedUrl_ s) location
  else None.

Definition handleResponse (response : HttpResponse) : M unit :=
  stopRequestTimer ;;
  clearLastError ;;
  s ← gets id;
  match redirectTarget s response with
  | Some redirectedUrl =>
      let endpointChanged := negb (sameEndpoint redirectedUrl (parsedUrl_ s)) in
      modify (setRedirectCount (u32 (redirectCount_ s + 1))) ;;
      modify (setPending (prepareRedirectRequest (statusCode response) (url_path (parsedUrl_ s)) redirectedUrl endpointChanged
                            (pendingRequest_ s))) ;;
      modify (setParsedUrl redirectedUrl) ;;
      if endpointChanged then disconnectWith closedIdle ;; connectToParsedUrl true ;; mret ()
      else sendPendingRequest ;; mret ()
  | None =>
      restoreRequestTimeoutOverride ;;
      callResponse response
  end.

(** ** The callbacks of the TCP client and the timer *)

Definition handleDisconnect : list byte -> M unit :=
  handleDisconnectWith (handleStreamingDataReceived true) handleResponse.

Definition handleDataReceived (data : list byte) : M unit :=
  if data =s [] then mret ()
  else
    modify (fun s => setBuffer (responseBuffer_ s ++ data) s) ;;
    streaming ← gets streamingResponse_;
    if (streaming : bool) then handleStreamingDataReceived false
    else
      consumed ← tryConsumeBufferedResponse false;
      match consumed with
      | None => mret ()
      | Some response => modify (setAwaiting false) ;; handleResponse response
      end.

Definition requestTimerFired : M unit :=
  modify (setTimer None) ;;
  awaiting ← gets awaitingResponse_;
  if negb awaiting then mret ()
  else
    modify (setAwaiting false) ;;
    modify (setBuffer []) ;;
    setLastError TimeoutError (str "Request timeout") ;;
    tcpDisconnectWith closedIdle ;;
    streaming ← gets streamingResponse_;
    if (streaming : bool) then completeStreamingWithStatus 0 (str "Request timeout")
    else restoreRequestTimeoutOverride ;; callResponse (failureResponse (str "Request timeout")).

(** ** Calls of the user *)

Definition disconnect : M unit := disconnectWith handleDisconnect.

Definition connect (url : list byte) (callback : bool) : M bool :=
  clearLastError ;;
  s ← gets id;
  match parseUrl (url_path (parsedUrl_ s)) url with
  | None =>
      setLastError InvalidArgument (str "Invalid URL") ;;
      when callback (emit (OnConnect false (str "Invalid URL"))) ;;
      mret false
  | Some parsed =>
      modify (fun s => setCallbacks (mkCallbacks callback (responseCallback_ (callbacks s)) (streamHeadersCallback_ (callbacks s))
                                       (streamDataCallback_ (callbacks s)) (streamCompleteCallback_ (callbacks s))) s) ;;
      modify (setParsedUrl parsed) ;;
      modify (setRedirectCount 0) ;;
      connectToParsedUrl false
  end.

(** The guards of both kinds of request; [false] is refused. *)
Definition admitRequest (method : list byte) : M bool :=
  s ← gets id;
  if negb (connected_ s) then setLastError ConnectionError (str "HTTP client is not connected") ;; mret false
  else if awaitingResponse_ s then setLastError AlreadyRunning (str "An HTTP request is already in flight") ;; mret false
  else if negb (isValidHttpMethodName method) then setLastError InvalidArgument (str "Invalid HTTP method") ;; mret false
  else clearLastError ;; mret true.

Definition setRequest (method path : list byte) (headers : strmap) (body : list byte) : M unit :=
  modify (fun s => setPending (mkPending method (buildRequestPath (url_path (parsedUrl_ s)) path) headers body) s).

Definition sendRequest (method path : list byte) (headers : strmap) (body : list byte) (callback : bool) : M bool :=
  admitted ← admitRequest method;
  if negb admitted then mret false
  else
    setRequest method path headers body ;;
    modify (fun s => setCallbacks (mkCallbacks (connectCallback_ (callbacks s)) callback (streamHeadersCallback_ (callbacks s))
                                     (streamDataCallback_ (callbacks s)) (streamCompleteCallback_ (callbacks s))) s) ;;
    sendPendingRequest.

Definition sendStreamingRequest (method path : list byte) (headers : strmap) (body : list byte)
    (headersCallback dataCallback completeCallback : bool) : M bool :=
  admitted ← admitRequest method;
  if negb admitted then mret false
  else
    setRequest method path headers body ;;
    modify (fun s => setCallbacks (mkCallbacks (connectCallback_ (callbacks s)) false headersCallback dataCallback completeCallback) s) ;;
    modify (setStreaming true) ;;
    modify (setStream (mkStream false false false None 0 defaultHttpResponse)) ;;
    sendPendingRequest.

(** [sendRequestObject] and [sendStreamingRequestObject]: the timeout of the request holds
    until it completes. *)
Definition withTimeout (timeoutMs : Z) (send : M bool) : M bool :=
  previousTimeout ← gets requestTimeout_;
  when (negb (timeoutMs =? 0)) (modify (setTimeoutMs timeoutMs)) ;;
  result ← send;
  (if negb result || (timeoutMs =? 0) then modify (setTimeoutMs previousTimeout)
   else modify (setOverride (Some previousTimeout))) ;;
  mret result.

Definition sendRequestObject (r : HttpClientRequest) (callback : bool) : M bool :=
  withTimeout (timeoutMs_ r) (sendRequest (method_ r) (path_ r) (headers_ r) (body_ r) callback).

Definition sendStreamingRequestObject (r : HttpClientRequest) (headersCallback dataCallback completeCallback : bool) : M bool :=
  withTimeout (timeoutMs_ r)
    (sendStreamingRequest (method_ r) (path_ r) (headers_ r) (body_ r) headersCallback dataCallback completeCallback).

Definition setProxy (proxy : HttpProxyOptions) : M unit :=
  modify (fun s => setSettings (mkSettings (followRedirects_ (settings s)) (maxRedirects_ (settings s)) (useCompression_ (settings s))
                                  (sslConfig_ (settings s)) proxy) s).

Definition setProxyUrl (proxyUrl : list byte) : M bool :=
  match parseProxyUrl proxyUrl with
  | None => setLastError InvalidArgument (str "Invalid HTTP proxy URL") ;; mret false
  | Some proxy => setProxy proxy ;; mret true
  end.

End Streaming.
End Client.

(** ** The calls of [HttpClient] that only fill in arguments or settings *)

Module Api.
Section Api.
Context {Net : Type} {tcp : TcpClient Net} (onHeaders : HttpResponse -> Reaction) (onData : list byte -> Reaction).

Definition send (method : list byte) : list byte -> strmap -> list byte -> bool -> M (Net := Net) bool :=
  sendRequest onHeaders onData method.
Definition get path headers callback := send (str "GET") path headers [] callback.
Definition head path headers callback := send (str "HEAD") path headers [] callback.
Definition post := send (str "POST").
Definition put := send (str "PUT").
Definition patch := send (str "PATCH").
Definition del path headers callback := send (str "DELETE") path headers [] callback.
Definition streamGet path headers (onHead onBody onEnd : bool) : M (Net := Net) bool :=
  sendStreamingRequest onHeaders onData (str "GET") path headers [] onHead onBody onEnd.

Definition setRequestTimeout (timeoutMs : Z) : M (Net := Net) unit := modify (setTimeoutMs timeoutMs).
Definition changeSettings (f : Settings -> Settings) : M (Net := Net) unit := modify (fun s => setSettings (f (settings s)) s).
Definition setFollowRedirects (follow : bool) :=
  changeSettings (fun c => mkSettings follow (maxRedirects_ c) (useCompression_ c) (sslConfig_ c) (proxyOptions_ c)).
Definition setMaxRedirects (maxRedirects : Z) :=
  changeSettings (fun c => mkSettings (followRedirects_ c) maxRedirects (useCompression_ c) (sslConfig_ c) (proxyOptions_ c)).
Definition setUseCompression (use : bool) :=
  changeSettings (fun c => mkSettings (followRedirects_ c) (maxRedirects_ c) use (sslConfig_ c) (proxyOptions_ c)).
Definition setSSLConfig (sslConfig : SSLConfig) :=
  changeSettings (fun c => mkSettings (followRedirects_ c) (maxRedirects_ c) (useCompression_ c) sslConfig (proxyOptions_ c)).
Definition clearProxy : M (Net := Net) unit := setProxy noProxy.
End Api.
End Api.

(** ** Chunked framing of an arriving body *)

(** The blank line that ends the trailers. *)
#[export] Instance client_reader : ChunkReader chunkSizeOfLine trailerBytes.
Proof.
  split; [intros; by apply chunkSizeOfLine_hex|]. intros v x pre tail Hv Hpre. destruct (arrived_split _ _ _ _ Hv Hpre) as (w & -> & Hw).
  unfold trailerBytes. cbn [trailerBytesLoop]. unfold sv_find. rewrite drop_app_length. change (CRLF ++ tail) with ([] ++ CRLF ++ tail) in Hw.
  rewrite (find_line_arrived _ _ _ _ Hw) by apply not_elem_of_nil. rewrite zlen_app. cbn [length].
  destruct (Nat.ltb_spec (length w) (0 + 2)).
  - rewrite (proj2 (Z.ltb_lt _ _)); [done|]. unfold zlen in *. lia.
  - cbn [fmap option_fmap option_map]. rewrite Nat.add_0_r, Nat.sub_diag. cbn [take]. rewrite bool_decide_eq_true_2 by done.
    rewrite (proj2 (Z.ltb_ge _ _)) by (unfold zlen in *; lia). done.
Qed.

(** ** Responses as a server writes them *)

(** A head that reads as the given status, reason and headers, whatever follows it. *)
Record framedHead (head : list byte) (code : Z) (reason : list byte) (hs : strmap) : Prop := {
  fh_long : (4 <= length head)%nat;
  fh_end w : find_sub (CRLF ++ CRLF) (head ++ w) = Some (length head - 4)%nat;
  fh_parse w : zlen (head ++ w) <= size_max ->
    ∃ version, parseResponseHead (head ++ w) = Some (mkResponse code reason version hs [])
}.

(** The bytes after the head that carry the body. *)
Inductive framing (method : list byte) (code : Z) (hs : strmap) : list byte -> list byte -> Prop :=
  | no_body : carriesNoBody method code = true -> framing method code hs [] []
  | by_length body text : carriesNoBody method code = false -> getHeader hs (str "Content-Length") = Some text ->
      stoull 10 text = Some (zlen body) -> isChunkedHeader hs = false -> framing method code hs body body
  | by_chunks body : carriesNoBody method code = false -> getHeader hs (str "Content-Length") = None ->
      isChunkedHeader hs = true -> framing method code hs (buildChunked body) body.

(** What the client makes of it. *)
Definition delivered (code : Z) (reason : list byte) (hs : strmap) (body : list byte) : HttpResponse :=
  mkHttpResponse code reason (setAll hs []) body false [] 0 0.

Lemma written_head code reason hs body :
  sendableResponse code reason hs body [] ->
  ∃ head, HttpParser.buildResponse code reason hs body = head ++ body ∧ framedHead head code reason (receivedHeaders hs body).
Proof.
  intros [Hc [Hr1 Hr2] Hhs Hline Hsec Hmem]. rewrite app_nil_r in Hmem.
  rewrite buildResponse_message in Hsec, Hmem |- * by (done || lia).
  assert (Hb : zlen body <= size_max) by (etrans; [apply message_body_le | done]).
  pose proof (parseHeaders_written hs body Hhs Hb) as Hparse.
  destruct (written_lines hs body Hhs Hb) as (l & lines & Hl & Hplain). rewrite Hl in *.
  set (sl := str "HTTP/1.1" ++ SP :: toChars 10 code ++ SP :: reason) in *.
  assert (Hsl : plainLine sl) by (by apply statusLine_plain).
  assert (Hsplit : ∀ b, message sl (l :: lines) b = message sl (l :: lines) [] ++ b) by (intros; by rewrite message_app).
  pose proof (joinLines_section sl l lines []) as Hj. rewrite zlen_nil in Hj. unfold zlen in Hj.
  exists (message sl (l :: lines) []). split; [apply Hsplit|]. split.
  - lia.
  - intros w. rewrite <- Hsplit. destruct (message_cuts sl l lines w Hsl Hplain) as (_ & -> & _). f_equal. lia.
  - intros w Hw. rewrite <- Hsplit in *. exists (str "HTTP/1.1"). apply (parseResponseHead_message code reason l lines w); try done.
    + destruct (status_digits code Hc) as (Hd1 & _). rewrite zlen_app, zlen_cons, zlen_app, zlen_cons, Hd1. change (zlen (str "HTTP/1.1")) with 8. lia.
    + fold sl. rewrite (Hsplit w), zlen_app. rewrite (Hsplit body), zlen_app in Hsec. lia.
Qed.

Lemma head_none head code reason hs v x y :
  framedHead head code reason hs -> v ++ x = head ++ y -> (length v < length head)%nat ->
  find_sub (CRLF ++ CRLF) v = None ∧ parseResponseHead v = None.
Proof.
  intros Hh Hv Hl. assert (Hn : find_sub (CRLF ++ CRLF) v = None).
  { apply (find_sub_prefix _ v x (length head - 4)); [rewrite Hv; apply (fh_end _ _ _ _ Hh)|].
    pose proof (fh_long _ _ _ _ Hh). change (length (CRLF ++ CRLF)) with 4%nat. lia. }
  split; [done|]. unfold parseResponseHead. rewrite Hn. by case_bool_decide.
Qed.

(** As a written response arrives, extraction waits for its last byte, then yields it. *)
Lemma extract_arrived method head code reason hs payload body v x y :
  framedHead head code reason hs -> framing method code hs payload body ->
  v ++ x = head ++ payload ++ y -> zlen (v ++ x) <= string_max_size ->
  tryExtractResponseView method v false =
  if zlen v <? zlen (head ++ payload) then NotYet
  else Extracted code (if carriesNoBody method code then mkView 0 0 else mkView (length head) (length payload)) (zlen (head ++ payload)).
Proof.
  intros Hh Hf Hv Hmax. assert (Hmax' : zlen (v ++ x) <= size_max) by (unfold string_max_size, size_max in *; lia).
  pose proof (zlen_nonneg payload). pose proof (fh_long _ _ _ _ Hh) as H4. unfold tryExtractResponseView. rewrite zlen_app.
  destruct (Nat.ltb_spec (length v) (length head)) as [Hs|Hs].
  { destruct (head_none _ _ _ _ _ _ _ Hh Hv Hs) as [_ ->]. rewrite (proj2 (Z.ltb_lt _ _)); [done|]. unfold zlen in *. lia. }
  destruct (arrived_split _ _ _ _ Hv Hs) as (w & -> & Hw).
  assert (Hmw : zlen (head ++ w) <= size_max) by (rewrite zlen_app in Hmax'; pose proof (zlen_nonneg x); lia).
  destruct (fh_parse _ _ _ _ Hh w Hmw) as [version ->]. rewrite (fh_end _ _ _ _ Hh w). cbn [rs_statusCode rs_headers].
  replace (length head - 4 + 4)%nat with (length head) by lia. change (Z.of_nat (length head)) with (zlen head).
  rewrite !zlen_app in *. pose proof (zlen_nonneg head). pose proof (zlen_nonneg w). pose proof (zlen_nonneg x).
  destruct Hf as [->|body text Hn Hcl Hst Hch|body Hn Hcl Hch].
  - rewrite zlen_nil, Z.add_0_r, (proj2 (Z.ltb_ge _ _)) by lia. done.
  - rewrite Hn, Hcl, Hst. pose proof (f_equal zlen Hw) as Hz. rewrite !zlen_app in Hz. pose proof (zlen_nonneg y).
    rewrite u64_small by lia.
    destruct (Z.ltb_spec (zlen head + zlen w) (zlen head + zlen body)); [done|]. f_equal.
    unfold bodyView. f_equal. rewrite zlen_app. rewrite Z.min_l by (change (Z.of_nat (length head)) with (zlen head); lia). unfold zlen. lia.
  - rewrite Hn, Hcl, Hch, drop_app_length. unfold chunkedMessageBytes.
    rewrite (chunkedSize_build _ _ w x body y Hw) by (rewrite zlen_app; lia).
    assert (Hpos : 0 < zlen (buildChunked body)).
    { unfold buildChunked. rewrite zlen_app. pose proof (zlen_nonneg (buildChunkedLoop (length body) body)).
      change (zlen (str "0" ++ CRLF ++ CRLF)) with 5. lia. }
    destruct (Z.ltb_spec (zlen w) (zlen (buildChunked body))).
    { rewrite (proj2 (Z.ltb_lt _ _)) by lia. done. }
    rewrite (proj2 (Z.ltb_ge _ _)) by lia. destruct (zlen (buildChunked body)) as [|p|p] eqn:E; [lia| |lia].
    f_equal. unfold bodyView. f_equal. rewrite zlen_app. change (Z.of_nat (length head)) with (zlen head).
    rewrite Z.min_l by lia. unfold zlen in E. lia.
Qed.

(** A response that ends with the buffer is read in full. *)
Lemma buildResponse_delivered method head code reason hs payload body :
  framedHead head code reason hs -> framing method code hs payload body -> zlen (head ++ payload) <= string_max_size ->
  buildResponse (viewIn (head ++ payload) (head ++ payload) code
     (if carriesNoBody method code then mkView 0 0 else mkView (length head) (length payload))) =
  Some (delivered code reason hs body).
Proof.
  intros Hh Hf Hmax. destruct (fh_parse _ _ _ _ Hh payload) as [version Hp]; [unfold string_max_size, size_max in *; lia|].
  destruct (views_read _ _ Hp) as [Hhs Hm]. cbn [rs_headers rs_statusMessage] in Hhs, Hm. unfold viewIn. rewrite <- Hhs, <- Hm.
  assert (Hb : readView (head ++ payload) (if carriesNoBody method code then mkView 0 0 else mkView (length head) (length payload)) = payload).
  { unfold readView. destruct Hf as [->|body text ->|body ->]; cbn [v_len v_off]; [done|..]; by rewrite drop_app_length, firstn_all. }
  rewrite Hb. unfold buildResponse. cbn [rs_headers rs_statusCode rs_statusMessage rs_body].
  destruct Hf as [Hn|body text Hn Hcl Hst Hch|body Hn Hcl Hch].
  - destruct (isChunkedHeader hs); done.
  - by rewrite Hch.
  - rewrite Hch, parseChunked_build; [done|]. rewrite zlen_app in Hmax. pose proof (zlen_nonneg head). lia.
Qed.

(** ** Receiving *)

Section Receiving.
Context {Net : Type} {tcp : TcpClient Net} (onHeaders : HttpResponse -> Reaction) (onData : list byte -> Reaction).
Abbreviation Client := (@Impl Net).

Fixpoint receiveAll (segments : list (list byte)) : M (Net := Net) unit :=
  match segments with
  | [] => mret ()
  | data :: segments => handleDataReceived onHeaders onData data ;; receiveAll segments
  end.

Definition interimHead (head : list byte) : Prop :=
  ∃ code reason hs, framedHead head code reason hs ∧ isInterimResponseStatus code = true.

Lemma interim_no_body method code : isInterimResponseStatus code = true -> carriesNoBody method code = true.
Proof.
  unfold isInterimResponseStatus, carriesNoBody. intros [[-> ->]%andb_true_iff _]%andb_true_iff. cbn. by rewrite !orb_true_r.
Qed.

Lemma setBuffer_same (s : Client) : setBuffer (responseBuffer_ s) s = s.
Proof. by destruct s. Qed.

Lemma erased_app a b : erased (a ++ b) (zlen a) = b.
Proof.
  unfold erased. rewrite zlen_app. destruct (Z.leb_spec (zlen a + zlen b) (zlen a)) as [H|H].
  - destruct b; [done|]. rewrite zlen_cons in H. pose proof (zlen_nonneg b0). lia.
  - by rewrite (Nat2Z.id _ : Z.to_nat (zlen a) = length a), drop_app_length.
Qed.

Lemma erased_all a : erased a (zlen a) = [] ∧ storageAfter a (zlen a) = a.
Proof. unfold erased, storageAfter. by rewrite (proj2 (Z.leb_le _ _)) by lia. Qed.

(** Interim responses are skipped; the final one is taken when its last byte is there. *)
Lemma consume_arrived head code reason hs payload body heads : ∀ fuel (s : Client) x,
  framedHead head code reason hs -> framing (rq_methodName (pendingRequest_ s)) code hs payload body ->
  isInterimResponseStatus code = false -> Forall interimHead heads ->
  responseBuffer_ s ++ x = concat heads ++ head ++ payload -> zlen (responseBuffer_ s ++ x) <= string_max_size ->
  (length (responseBuffer_ s) < fuel)%nat ->
  if decide (x = []) then consumeLoop fuel false s = Returns (Some (delivered code reason hs body)) (setBuffer [] s)
  else ∃ heads' v, consumeLoop fuel false s = Returns None (setBuffer v s) ∧ Forall interimHead heads' ∧
         v ++ x = concat heads' ++ head ++ payload ∧ (length v <= length (responseBuffer_ s))%nat.
Proof.
  induction heads as [|h heads IH]; intros fuel s x Hh Hf Hi Hall Hv Hmax Hfuel; (destruct fuel as [|fuel]; [lia|]);
    cbn [consumeLoop]; unfold mbind, M_bind, gets; set (method := rq_methodName (pendingRequest_ s)) in *.
  - cbn [concat app] in Hv. pose proof (extract_arrived method head code reason hs payload body (responseBuffer_ s) x [] Hh Hf) as He.
    rewrite !app_nil_r in He. rewrite He by done. clear He. pose proof (f_equal length Hv) as Hl. rewrite length_app in Hl.
    destruct (decide (x = [])) as [->|Hx].
    + rewrite app_nil_r in Hv. rewrite Hv, (proj2 (Z.ltb_ge _ _)) by lia. unfold eraseResponseBufferPrefix, modify. rewrite Hi, Hv.
      destruct (erased_all (head ++ payload)) as [-> ->].
      rewrite (buildResponse_delivered method head code reason hs payload body) by (try done; rewrite app_nil_r in Hmax; by rewrite <- Hv).
      done.
    + rewrite (proj2 (Z.ltb_lt _ _)) by (destruct x; [done|]; unfold zlen; cbn [length] in Hl; lia).
      exists [], (responseBuffer_ s). rewrite setBuffer_same. by split_and!.
  - apply Forall_cons in Hall as [(c & r & hs' & Hh' & Hi') Hall]. cbn [concat] in Hv. rewrite <- app_assoc in Hv.
    pose proof (interim_no_body method c Hi') as Hnb.
    pose proof (extract_arrived method h c r hs' [] [] (responseBuffer_ s) x (concat heads ++ head ++ payload) Hh' (no_body _ _ _ Hnb)) as He.
    cbn [app] in He. rewrite He by done. clear He. rewrite app_nil_r. destruct (Z.ltb_spec (zlen (responseBuffer_ s)) (zlen h)) as [Hs|Hs].
    + rewrite decide_False.
      2: { intros ->. rewrite app_nil_r in Hv. rewrite Hv, zlen_app in Hs. pose proof (zlen_nonneg (concat heads ++ head ++ payload)). lia. }
      exists (h :: heads), (responseBuffer_ s). rewrite setBuffer_same. split_and!; [done| | |done].
      * constructor; [by exists c, r, hs' | done].
      * cbn [concat]. by rewrite <- app_assoc.
    + destruct (arrived_split _ _ _ _ Hv) as (w & Hw & Hw'); [unfold zlen in *; lia|].
      unfold eraseResponseBufferPrefix, modify. rewrite Hi', Hw, erased_app.
      assert (H4 := fh_long _ _ _ _ Hh').
      specialize (IH fuel (setBuffer w s) x Hh Hf Hi Hall Hw').
      cbn [setBuffer responseBuffer_] in IH. rewrite Hw, <- app_assoc, zlen_app in Hmax. pose proof (zlen_nonneg h).
      specialize (IH ltac:(lia)). rewrite Hw, length_app in Hfuel. specialize (IH ltac:(lia)). destruct (decide (x = [])); [done|].
      destruct IH as (heads' & v & H1 & H2 & H3 & H4'). exists heads', v. rewrite length_app. split_and!; [exact H1|done|done|lia].
Qed.

Lemma receiveAll_empty segments (s : Client) : concat segments = [] -> receiveAll segments s = Returns () s.
Proof.
  induction segments as [|d segments IH]; cbn [concat]; [done|]. intros [-> H]%app_eq_nil. cbn [receiveAll]. unfold handleDataReceived.
  rewrite bool_decide_eq_true_2 by done. by apply IH.
Qed.

(** Whatever the segments, the response is handled once, when its last byte arrives. *)
Lemma receive_response head code reason hs payload body : ∀ segments heads (s : Client),
  framedHead head code reason hs -> framing (rq_methodName (pendingRequest_ s)) code hs payload body ->
  isInterimResponseStatus code = false -> Forall interimHead heads -> streamingResponse_ s = false ->
  responseBuffer_ s ++ concat segments = concat heads ++ head ++ payload -> concat segments ≠ [] ->
  zlen (concat heads ++ head ++ payload) <= string_max_size ->
  receiveAll segments s = handleResponse onHeaders onData (delivered code reason hs body) (setAwaiting false (setBuffer [] s)).
Proof.
  induction segments as [|d segments IH]; intros heads s Hh Hf Hi Hall Hst Hv Hne Hmax; [done|].
  cbn [receiveAll concat] in *. destruct (decide (d = [])) as [->|Hd].
  { unfold handleDataReceived. rewrite bool_decide_eq_true_2 by done. by apply (IH heads). }
  unfold handleDataReceived. rewrite bool_decide_eq_false_2 by done. unfold mbind at 1, M_bind at 1.
  cbn [mbind M_bind]. unfold modify, gets, tryConsumeBufferedResponse.
  set (s1 := setBuffer (responseBuffer_ s ++ d) s).
  assert (Hb1 : responseBuffer_ s1 = responseBuffer_ s ++ d) by done. rewrite app_assoc, <- Hb1 in Hv.
  pose proof (consume_arrived head code reason hs payload body heads (S (length (responseBuffer_ s1))) s1 (concat segments) Hh Hf Hi Hall Hv) as Hc.
  rewrite Hv in Hc. specialize (Hc Hmax ltac:(lia)). unfold mbind, M_bind, modify, gets. fold s1.
  change (streamingResponse_ s1) with (streamingResponse_ s). rewrite Hst. cbv iota.
  destruct (decide (concat segments = [])) as [Hx|Hx].
  - rewrite Hc. change (setAwaiting false (setBuffer [] s1)) with (setAwaiting false (setBuffer [] s)).
    destruct (handleResponse onHeaders onData _ _) as [[] s'|s'|]; [by apply receiveAll_empty | done | done].
  - destruct Hc as (heads' & v & -> & Hall' & Hv' & Hl).
    change (setAwaiting false (setBuffer [] s)) with (setAwaiting false (setBuffer [] (setBuffer v s1))).
    apply (IH heads'); try done. rewrite <- Hv'. rewrite <- Hv in Hmax. unfold zlen in *. rewrite length_app in *. lia.
Qed.

(** ** Streaming *)

(** A stream under way, with every callback set; and one that has ended. *)
Record midStream (s : Client) (st : Stream) (buffer : list byte) (log : list Event) : Prop := {
  ms_streaming : streamingResponse_ s = true;
  ms_callbacks : streamHeadersCallback_ (callbacks s) = true ∧ streamDataCallback_ (callbacks s) = true ∧
                 streamCompleteCallback_ (callbacks s) = true;
  ms_stream : stream s = st;
  ms_buffer : responseBuffer_ s = buffer;
  ms_events : events s = log
}.

Record ended (s : Client) (log : list Event) : Prop := {
  en_streaming : streamingResponse_ s = false;
  en_awaiting : awaitingResponse_ s = false;
  en_buffer : responseBuffer_ s = [];
  en_events : events s = log
}.

(** The callbacks let the stream go on. *)
Class Willing : Prop := {
  willing_headers r : onHeaders r ≠ Cancel;
  willing_data chunk : onData chunk = Proceed
}.
Context {willing : Willing}.

Lemma complete_ends (s : Client) st buffer log : midStream s st buffer log ->
  ∃ s', completeStreamingResponse s = Returns () s' ∧ ended s' (log ++ [OnStreamComplete (streamResponse_ st)]).
Proof.
  intros [_ (_ & _ & Hc) Hst _ Hl]. unfold completeStreamingResponse, stopRequestTimer, clearLastError, endStream, callComplete,
    restoreRequestTimeoutOverride, mbind, M_bind, modify, gets. cbn beta iota.
  set (s1 := setError None (setTimer None s)). set (s2 := match pendingRequestOverrideTimeout_ s1 with None => _ | Some _ => _ end).
  assert (H2 : callbacks s2 = callbacks s ∧ stream s2 = stream s ∧ events s2 = events s)
    by (unfold s2; by destruct (pendingRequestOverrideTimeout_ s1)).
  destruct H2 as (H2 & H3 & H4). cbn. rewrite H2, Hc, H3, Hst. eexists. split; [reflexivity|].
  split; cbn; try done. by rewrite H4, Hl.
Qed.

Lemma deliver_proceeds (s : Client) st buffer log chunk : midStream s st buffer log -> chunk ≠ [] ->
  ∃ s', deliverStreamingChunk onData chunk s = Returns true s' ∧ midStream s' st buffer (log ++ [OnStreamData chunk]).
Proof.
  intros [Hs (H1 & H2 & H3) Hst Hb Hl] Hc. unfold deliverStreamingChunk. rewrite bool_decide_eq_false_2 by done.
  unfold mbind, M_bind, gets. rewrite H2. cbn [negb]. unfold emit, modify. rewrite willing_data. cbn. rewrite Hs.
  eexists. split; [reflexivity|]. split; cbn; try done. by rewrite Hl.
Qed.

(** Erasing and counting while a stream is under way. *)
Lemma mid_erase (s : Client) st buffer log n : midStream s st buffer log ->
  midStream (setBuffer (erased (responseBuffer_ s) n) s) st (erased buffer n) log.
Proof. intros [Hs Hc Hst Hb Hl]. split; cbn; try done. by rewrite Hb. Qed.

Lemma mid_received (s : Client) st buffer log n : midStream s st buffer log ->
  midStream (setStream (setReceived (streamReceivedBodyBytes_ (stream s) + n) (stream s)) s)
    (setReceived (streamReceivedBodyBytes_ st + n) st) buffer log.
Proof. intros [Hs Hc Hst Hb Hl]. split; cbn; try done. by rewrite Hst. Qed.

(** A segment of a fixed-length body: delivered whole, and the stream ends with the last. *)
Lemma fixed_segment (s : Client) total k r log d :
  midStream s (mkStream true false false (Some total) k r) [] log -> d ≠ [] -> 0 <= k -> k + zlen d <= total ->
  ∃ s', handleDataReceived onHeaders onData d s = Returns () s' ∧
    if k + zlen d =? total then ended s' (log ++ [OnStreamData d; OnStreamComplete r])
    else midStream s' (mkStream true false false (Some total) (k + zlen d) r) [] (log ++ [OnStreamData d]).
Proof.
  intros Hm Hd Hk Ht. assert (Hd1 : 0 < zlen d) by (destruct d; [done|]; rewrite zlen_cons; pose proof (zlen_nonneg d); lia).
  unfold handleDataReceived. rewrite bool_decide_eq_false_2 by done. unfold mbind at 1, M_bind at 1, modify at 1.
  set (s1 := setBuffer (responseBuffer_ s ++ d) s).
  assert (Hm1 : midStream s1 (mkStream true false false (Some total) k r) d log).
  { destruct Hm as [Hs Hc Hst Hb Hl]. split; unfold s1; cbn; try done. by rewrite Hb. }
  clearbody s1. clear Hm s. unfold mbind at 1, M_bind at 1, gets at 1. rewrite (ms_streaming _ _ _ _ Hm1).
  unfold handleStreamingDataReceived, parseStreamingHeaders. unfold mbind, M_bind, gets. cbn [parseStreamingHeadersLoop].
  unfold mbind, M_bind, gets. rewrite (ms_stream _ _ _ _ Hm1). cbn [streamHeadersParsed_ mret M_ret].
  unfold mret, M_ret. unfold id at 1. cbn [negb orb]. unfold id. rewrite (ms_streaming _ _ _ _ Hm1), (ms_stream _ _ _ _ Hm1).
  cbn [negb orb streamNoBody_ streamChunked_ streamContentLength_ streamReceivedBodyBytes_].
  rewrite (proj2 (Z.eqb_neq total 0)), (proj2 (Z.leb_gt total k)) by lia. cbn [orb].
  unfold consumeStreamingFixedLengthBody, mbind, M_bind, gets, id. rewrite (ms_stream _ _ _ _ Hm1).
  cbn [streamContentLength_ streamReceivedBodyBytes_]. rewrite (proj2 (Z.leb_gt total k)) by lia. rewrite (ms_buffer _ _ _ _ Hm1).
  cbn [consumeFixedLoop]. unfold mbind, M_bind, gets, id.
  rewrite (ms_streaming _ _ _ _ Hm1), (ms_buffer _ _ _ _ Hm1), (ms_stream _ _ _ _ Hm1), bool_decide_eq_false_2 by done.
  cbn [negb orb streamReceivedBodyBytes_]. rewrite (proj2 (Z.eqb_neq (total - k) 0)) by lia. rewrite Z.min_r by lia.
  rewrite (Nat2Z.id _ : Z.to_nat (zlen d) = length d), firstn_all.
  destruct (deliver_proceeds _ _ _ _ d Hm1 Hd) as (s2 & -> & Hm2). cbn [negb].
  unfold modify. apply (mid_received _ _ _ _ (zlen d)) in Hm2. set (s3 := setStream _ s2) in *.
  unfold eraseResponseBufferPrefix, modify. apply (mid_erase _ _ _ _ (zlen d)) in Hm2. set (s4 := setBuffer _ s3) in *.
  rewrite (proj1 (erased_all d)) in Hm2. unfold setReceived in Hm2. cbn [streamReceivedBodyBytes_ streamHeadersParsed_ streamNoBody_ streamChunked_ streamContentLength_ streamResponse_] in Hm2.
  rewrite (ms_stream _ _ _ _ Hm2). cbn [streamReceivedBodyBytes_]. destruct (Z.eqb_spec (k + zlen d) total) as [E|E].
  - rewrite (proj2 (Z.leb_le total (k + zlen d))) by lia. destruct (complete_ends _ _ _ _ Hm2) as (s5 & -> & He). exists s5. split; [done|].
    cbn [streamResponse_] in He. by rewrite <- app_assoc in He.
  - rewrite (proj2 (Z.leb_gt total (k + zlen d))) by lia. destruct (length d) eqn:El; [by destruct d|]. cbn [consumeFixedLoop].
    unfold mbind, M_bind, gets, id. rewrite (ms_streaming _ _ _ _ Hm2), (ms_buffer _ _ _ _ Hm2).
    rewrite bool_decide_eq_true_2 by done. cbn [negb orb]. exists s4. by split.
Qed.

Lemma fixed_segments total r : ∀ segments (s : Client) k log,
  midStream s (mkStream true false false (Some total) k r) [] log -> 0 <= k < total -> k + zlen (concat segments) = total ->
  ∃ s' chunks, receiveAll segments s = Returns () s' ∧ concat chunks = concat segments ∧
    ended s' (log ++ (OnStreamData <$> chunks) ++ [OnStreamComplete r]).
Proof.
  induction segments as [|d segments IH]; intros s k log Hm Hk Ht; cbn [concat receiveAll] in *; [rewrite zlen_nil in Ht; lia|].
  destruct (decide (d = [])) as [->|Hd].
  { unfold handleDataReceived. rewrite bool_decide_eq_true_2 by done. by apply (IH s k log Hm). }
  rewrite zlen_app in Ht. pose proof (zlen_nonneg (concat segments)).
  destruct (fixed_segment s total k r log d Hm Hd ltac:(lia) ltac:(lia)) as (s1 & H1 & Hm1).
  unfold mbind, M_bind. rewrite H1. destruct (Z.eqb_spec (k + zlen d) total) as [E|E].
  - assert (Hc : concat segments = []) by (destruct (concat segments); [done|]; rewrite zlen_cons in *; pose proof (zlen_nonneg l); lia).
    exists s1, [d]. rewrite Hc, app_nil_r. split_and!; [by apply receiveAll_empty | apply app_nil_r | done].
  - destruct (IH s1 (k + zlen d) _ Hm1) as (s2 & chunks & H2 & Hc & He); [pose proof (zlen_nonneg d); lia | lia|].
    exists s2, (d :: chunks). split_and!; [done | cbn [concat]; by rewrite Hc|]. by rewrite <- app_assoc in He.
Qed.

(** One chunk in front: waited for, or delivered and erased. *)
Lemma chunk_round fuel (s : Client) st v log x line d more n :
  midStream s st v log -> v ++ x = line ++ CRLF ++ d ++ CRLF ++ more ->
  line ≠ [] -> Forall (fun c => 0 <= hexDigitValue c) line -> hexLoop 0 line = Some n -> 0 < n -> zlen d = n ->
  zlen (v ++ x) <= string_max_size ->
  if zlen v <? zlen (line ++ CRLF ++ d ++ CRLF) then consumeChunkedLoop onData (S fuel) s = Returns true s
  else ∃ s' w, consumeChunkedLoop onData (S fuel) s = consumeChunkedLoop onData fuel s' ∧
         midStream s' st w (log ++ [OnStreamData d]) ∧ w ++ x = more ∧ (length w < length v)%nat.
Proof.
  intros Hm Hv Hne Hhex Hn Hpos Hd Hmax. pose proof (f_equal zlen Hv) as Hz. unfold string_max_size in *.
  rewrite !zlen_app in *. change (zlen CRLF) with 2 in *. pose proof (zlen_nonneg line). pose proof (zlen_nonneg more).
  cbn [consumeChunkedLoop]. unfold mbind, M_bind, gets. rewrite (ms_streaming _ _ _ _ Hm). cbn [negb]. rewrite (ms_buffer _ _ _ _ Hm).
  rewrite (find_line_arrived _ _ _ _ Hv) by (by apply hex_no_CR).
  destruct (Nat.ltb_spec (length v) (length line + 2)) as [Hs|Hs].
  { rewrite (proj2 (Z.ltb_lt (zlen v) _)); [done|]. unfold zlen in *. lia. }
  pose proof Hv as Hv0. rewrite app_assoc in Hv. apply arrived_split in Hv as (w' & -> & Hw'); [|by rewrite length_app].
  rewrite <- app_assoc, take_app_length, (chunkSizeOfLine_hex line n) by done. rewrite (proj2 (Z.eqb_neq n 0)) by lia.
  change (Z.of_nat (length line)) with (zlen line). rewrite !u64_small by (unfold size_max; lia). rewrite !zlen_app. change (zlen CRLF) with 2.
  replace (zlen line + (2 + (n + 2))) with (zlen line + 2 + n + 2) by lia. rewrite Hd.
  replace (zlen line + (2 + (n + 2))) with (zlen line + 2 + n + 2) by lia.
  destruct (Z.ltb_spec (zlen line + (2 + zlen w')) (zlen line + 2 + n + 2)) as [Hi|Hi]; [done|].
  rewrite (proj2 (Z.ltb_ge (zlen line + (2 + zlen w')) (zlen line + 2 + n))) by lia.
  rewrite app_assoc in Hw'. apply arrived_split in Hw' as (t & -> & Ht);
    [|rewrite length_app; change (length CRLF) with 2%nat; unfold zlen in *; lia].
  assert (Hdrop : take 2 (drop (Z.to_nat (zlen line + 2 + n)) (line ++ CRLF ++ (d ++ CRLF) ++ t)) = CRLF).
  { replace (line ++ CRLF ++ (d ++ CRLF) ++ t) with ((line ++ CRLF ++ d) ++ CRLF ++ t) by (by rewrite <- !app_assoc).
    rewrite drop_app_exact; [done|]. rewrite !length_app. change (length CRLF) with 2%nat. unfold zlen in *. lia. }
  rewrite Hdrop, bool_decide_eq_true_2 by done. cbn [negb].
  assert (Hsub : sv_substr (line ++ CRLF ++ (d ++ CRLF) ++ t) (length line + 2) n = d).
  { unfold sv_substr. replace (drop (length line + 2) (line ++ CRLF ++ (d ++ CRLF) ++ t)) with (d ++ CRLF ++ t)
      by (symmetry; rewrite (app_assoc line); rewrite <- (app_assoc d); apply drop_app_exact; by rewrite length_app).
    rewrite Z.min_l by (rewrite !zlen_app; change (zlen CRLF) with 2; pose proof (zlen_nonneg t); unfold zlen in *; lia).
    apply take_app_exact. unfold zlen in *. lia. }
  rewrite Hsub. assert (Hdne : d ≠ []) by (intros ->; rewrite zlen_nil in Hd; lia).
  destruct (deliver_proceeds _ _ _ _ d Hm Hdne) as (s1 & -> & Hm1). cbn [negb].
  unfold eraseResponseBufferPrefix, modify. apply (mid_erase _ _ _ _ (zlen line + 2 + n + 2)) in Hm1.
  assert (Her : erased (line ++ CRLF ++ (d ++ CRLF) ++ t) (zlen line + 2 + n + 2) = t).
  { replace (line ++ CRLF ++ (d ++ CRLF) ++ t) with ((line ++ CRLF ++ d ++ CRLF) ++ t) by (by rewrite <- !app_assoc).
    replace (zlen line + 2 + n + 2) with (zlen (line ++ CRLF ++ d ++ CRLF)) by (rewrite !zlen_app, Hd; change (zlen CRLF) with 2; lia).
    apply erased_app. }
  rewrite <- app_assoc, Her in Hm1. eexists _, t. split; [reflexivity|]. split_and!; [exact Hm1 | done|].
  rewrite !length_app. destruct line; [done|]. cbn [length]. lia.
Qed.

Lemma last_round fuel (s : Client) st v log x :
  midStream s st v log -> v ++ x = str "0" ++ CRLF ++ CRLF ->
  if zlen v <? 5 then consumeChunkedLoop onData (S fuel) s = Returns true s
  else ∃ s', consumeChunkedLoop onData (S fuel) s = Returns false s' ∧ ended s' (log ++ [OnStreamComplete (streamResponse_ st)]).
Proof.
  intros Hm Hv. cbn [consumeChunkedLoop]. unfold mbind, M_bind, gets. rewrite (ms_streaming _ _ _ _ Hm). cbn [negb]. rewrite (ms_buffer _ _ _ _ Hm).
  pose proof Hv as Hv0. rewrite <- (app_nil_r CRLF) in Hv at 2. rewrite (find_line_arrived _ _ _ _ Hv) by decide_closed.
  change (length (str "0")) with 1%nat. destruct (Nat.ltb_spec (length v) (1 + 2)) as [Hs|Hs].
  { rewrite (proj2 (Z.ltb_lt _ _)); [done|]. unfold zlen. lia. }
  rewrite app_assoc in Hv0. apply arrived_split in Hv0 as (w & -> & Hw); [|done].
  change (take 1 ((str "0" ++ CRLF) ++ w)) with (str "0"). change (chunkSizeOfLine (str "0")) with (Some 0). cbn [Z.eqb].
  pose proof (last_blank chunkSizeOfLine trailerBytes ((str "0" ++ CRLF) ++ w) x (str "0" ++ CRLF) []) as Hb.
  change (length (str "0" ++ CRLF)) with (1 + 2)%nat in Hb. rewrite Hb; [|by rewrite <- app_assoc, Hw, app_nil_r | done]. clear Hb.
  rewrite zlen_app. change (zlen (str "0" ++ CRLF)) with 3. change (3 + 2) with 5. destruct (Z.ltb_spec (3 + zlen w) 5) as [Hi|Hi]; [done|].
  unfold eraseResponseBufferPrefix, modify. apply (mid_erase _ _ _ _ 5) in Hm.
  destruct (complete_ends _ _ _ _ Hm) as (s' & -> & He). by exists s'.
Qed.

Definition lastChunkText : list byte := str "0" ++ CRLF ++ CRLF.

Lemma chunks_arrived st f : ∀ fuel (s : Client) v log x rest,
  midStream s st v log -> v ++ x = buildChunkedLoop f rest ++ lastChunkText -> (length rest <= f)%nat -> (length v < fuel)%nat ->
  zlen (v ++ x) <= string_max_size ->
  ∃ s' b chunks, consumeChunkedLoop onData fuel s = Returns b s' ∧
  if decide (x = []) then concat chunks = rest ∧ ended s' (log ++ (OnStreamData <$> chunks) ++ [OnStreamComplete (streamResponse_ st)])
  else ∃ v' f' rest', midStream s' st v' (log ++ (OnStreamData <$> chunks)) ∧ v' ++ x = buildChunkedLoop f' rest' ++ lastChunkText ∧
         (length rest' <= f')%nat ∧ concat chunks ++ rest' = rest ∧ (length v' <= length v)%nat.
Proof.
  assert (Hdone : ∀ f rest fuel (s : Client) v log x, midStream s st v log -> v ++ x = lastChunkText -> buildChunkedLoop f rest = [] ->
    (length rest <= f)%nat -> rest = [] ->
    ∃ s' b chunks, consumeChunkedLoop onData (S fuel) s = Returns b s' ∧
    if decide (x = []) then concat chunks = rest ∧ ended s' (log ++ (OnStreamData <$> chunks) ++ [OnStreamComplete (streamResponse_ st)])
    else ∃ v' f' rest', midStream s' st v' (log ++ (OnStreamData <$> chunks)) ∧ v' ++ x = buildChunkedLoop f' rest' ++ lastChunkText ∧
         (length rest' <= f')%nat ∧ concat chunks ++ rest' = rest ∧ (length v' <= length v)%nat).
  { intros f0 rest fuel s v log x Hm Hv Hb Hl ->. pose proof (last_round fuel s st v log x Hm Hv) as Hr.
    pose proof (f_equal zlen Hv) as Hz. rewrite zlen_app in Hz. change (zlen lastChunkText) with 5 in Hz.
    destruct (decide (x = [])) as [->|Hx].
    - rewrite zlen_nil in Hz. rewrite (proj2 (Z.ltb_ge _ _)) in Hr by lia. destruct Hr as (s' & -> & He). exists s', false, []. by cbn.
    - rewrite (proj2 (Z.ltb_lt _ _)) in Hr by (destruct x; [done|]; rewrite zlen_cons in Hz; pose proof (zlen_nonneg x); lia).
      rewrite Hr. exists s, true, []. split; [done|]. exists v, f0, []. rewrite Hb. cbn. rewrite app_nil_r. by split_and!. }
  induction f as [|f IH]; intros fuel s v log x rest Hm Hv Hr Hfuel Hmax; (destruct fuel as [|fuel]; [lia|]); (destruct rest as [|b0 rest0]).
  - by apply (Hdone 0%nat).
  - cbn in Hr. lia.
  - by apply (Hdone (S f)).
  - set (rest := b0 :: rest0) in *. rewrite buildChunkedLoop_S in Hv by done. cbv zeta in Hv.
    set (k := Z.min kChunkedEncodeBlockSize (zlen rest)) in *.
    assert (Hr1 : 1 <= zlen rest) by (unfold rest; rewrite zlen_cons; pose proof (zlen_nonneg rest0); lia).
    assert (Hk : 1 <= k <= 8192 ∧ k <= zlen rest) by (unfold k, kChunkedEncodeBlockSize; lia).
    assert (Htk : zlen (take (Z.to_nat k) rest) = k) by (unfold zlen in *; rewrite length_take; lia).
    assert (Hsz : k <= size_max) by (unfold size_max; lia).
    set (line := toChars 16 k) in *. set (d := take (Z.to_nat k) rest) in *. set (rest' := drop (Z.to_nat k) rest) in *.
    assert (Hrest : rest = d ++ rest') by (symmetry; apply take_drop).
    assert (Hv1 : v ++ x = line ++ CRLF ++ d ++ CRLF ++ (buildChunkedLoop f rest' ++ lastChunkText)) by (rewrite Hv; by rewrite <- !app_assoc).
    pose proof (chunk_round fuel s st v log x line d _ k Hm Hv1 (toChars_nonempty 16 k) ltac:(apply toChars16_chars; lia)
      ltac:(apply hexLoop_toChars; lia) ltac:(lia) Htk Hmax) as Hround.
    destruct (Z.ltb_spec (zlen v) (zlen (line ++ CRLF ++ d ++ CRLF))) as [Hs|Hs].
    + destruct (decide (x = [])) as [->|Hx].
      { exfalso. rewrite app_nil_r in Hv1. rewrite Hv1, !zlen_app in Hs. pose proof (zlen_nonneg (buildChunkedLoop f rest')).
        change (zlen lastChunkText) with 5 in Hs. lia. }
      exists s, true, []. split; [done|]. exists v, (S f), rest. cbn [fmap list_fmap concat]. rewrite app_nil_r. by split_and!.
    + destruct Hround as (s1 & w & H1 & Hm1 & Hw & Hlen). rewrite H1.
      destruct (IH fuel s1 w _ x rest' Hm1 Hw) as (s2 & b & chunks & H2 & H3).
      * unfold rest'. rewrite length_drop. unfold zlen in *. lia.
      * lia.
      * rewrite Hw. rewrite Hv1 in Hmax. rewrite !zlen_app in *. pose proof (zlen_nonneg line). pose proof (zlen_nonneg d). pose proof (zlen_nonneg CRLF). lia.
      * rewrite H2. exists s2, b, (d :: chunks). split; [done|]. cbn [fmap list_fmap concat].
        destruct (decide (x = [])).
        -- destruct H3 as [Hc He]. rewrite Hc. split; [done|]. by rewrite <- app_assoc in He.
        -- destruct H3 as (v' & f' & r' & Hm' & Hv' & Hr' & Hc & Hl'). exists v', f', r'. rewrite <- app_assoc in Hm'. split_and!; try done; [|lia].
           by rewrite <- app_assoc, Hc.
Qed.

(** The stream while its body arrives in chunks. *)
Lemma chunked_data r : ∀ (s : Client) v log d x f rest,
  midStream s (mkStream true false true None 0 r) v log -> d ≠ [] ->
  v ++ d ++ x = buildChunkedLoop f rest ++ lastChunkText -> (length rest <= f)%nat -> zlen (v ++ d ++ x) <= string_max_size ->
  ∃ s' chunks, handleDataReceived onHeaders onData d s = Returns () s' ∧
  if decide (x = []) then concat chunks = rest ∧ ended s' (log ++ (OnStreamData <$> chunks) ++ [OnStreamComplete r])
  else ∃ v' f' rest', midStream s' (mkStream true false true None 0 r) v' (log ++ (OnStreamData <$> chunks)) ∧
         v' ++ x = buildChunkedLoop f' rest' ++ lastChunkText ∧ (length rest' <= f')%nat ∧ concat chunks ++ rest' = rest ∧
         zlen (v' ++ x) <= string_max_size.
Proof.
  intros s v log d x f rest Hm Hd Hv Hr Hmax.
  unfold handleDataReceived. rewrite bool_decide_eq_false_2 by done. unfold mbind at 1, M_bind at 1, modify at 1.
  set (s1 := setBuffer (responseBuffer_ s ++ d) s).
  assert (Hm1 : midStream s1 (mkStream true false true None 0 r) (v ++ d) log).
  { destruct Hm as [Hs Hc Hst Hb Hl]. split; unfold s1; cbn; try done. by rewrite Hb. }
  clearbody s1. clear Hm s. unfold mbind at 1, M_bind at 1, gets at 1. rewrite (ms_streaming _ _ _ _ Hm1).
  unfold handleStreamingDataReceived, parseStreamingHeaders. unfold mbind, M_bind, gets. cbn [parseStreamingHeadersLoop].
  unfold mbind, M_bind, gets. rewrite (ms_stream _ _ _ _ Hm1). cbn [streamHeadersParsed_].
  unfold mret, M_ret, id. cbn [negb orb]. rewrite (ms_streaming _ _ _ _ Hm1), (ms_stream _ _ _ _ Hm1).
  cbn [negb orb streamNoBody_ streamChunked_]. unfold consumeStreamingChunkedBody, mbind, M_bind, gets. rewrite (ms_buffer _ _ _ _ Hm1).
  rewrite app_assoc in Hv, Hmax.
  destruct (chunks_arrived (mkStream true false true None 0 r) f (S (length (v ++ d))) s1 (v ++ d) log x rest Hm1 Hv Hr ltac:(lia) Hmax)
    as (s' & b & chunks & -> & H). exists s', chunks. split; [done|]. destruct (decide (x = [])); [done|].
  destruct H as (v' & f' & r' & Hm' & Hv' & Hr' & Hc & Hl). exists v', f', r'. split_and!; try done.
  unfold zlen in *. rewrite length_app in *. rewrite (length_app v d) in *. lia.
Qed.

Lemma chunked_segments r : ∀ segments (s : Client) v log f rest,
  midStream s (mkStream true false true None 0 r) v log -> concat segments ≠ [] ->
  v ++ concat segments = buildChunkedLoop f rest ++ lastChunkText -> (length rest <= f)%nat ->
  zlen (v ++ concat segments) <= string_max_size ->
  ∃ s' chunks, receiveAll segments s = Returns () s' ∧ concat chunks = rest ∧
    ended s' (log ++ (OnStreamData <$> chunks) ++ [OnStreamComplete r]).
Proof.
  induction segments as [|d segments IH]; intros s v log f rest Hm Hne Hv Hr Hmax; cbn [concat receiveAll] in *; [done|].
  destruct (decide (d = [])) as [->|Hd].
  { unfold handleDataReceived. rewrite bool_decide_eq_true_2 by done. by eapply IH. }
  destruct (chunked_data r s v log d (concat segments) f rest Hm Hd Hv Hr Hmax) as (s1 & chunks & H1 & H2).
  unfold mbind, M_bind. rewrite H1. destruct (decide (concat segments = [])) as [Hx|Hx].
  - destruct H2 as [Hc He]. exists s1, chunks. split_and!; [by apply receiveAll_empty | done | done].
  - destruct H2 as (v' & f' & r' & Hm' & Hv' & Hr' & Hc & Hmax').
    destruct (IH s1 v' _ f' r' Hm' Hx Hv' Hr' Hmax') as (s2 & chunks' & H2 & Hc' & He).
    exists s2, (chunks ++ chunks'). split_and!; [done | by rewrite concat_app, Hc'|]. rewrite fmap_app, <- !app_assoc in *. done.
Qed.

(** The head of a streamed response. *)
Definition lengthOf (hs : strmap) : option (option Z) :=
  if isChunkedHeader hs then Some None
  else match getHeader hs (str "Content-Length") with None => Some None | Some text => Some <$> stoull 10 text end.

Lemma stream_head head code reason hs contentLength heads : ∀ fuel (s : Client) st v log x,
  midStream s st v log -> streamHeadersParsed_ st = false ->
  framedHead head code reason hs -> isInterimResponseStatus code = false -> lengthOf hs = Some contentLength ->
  Forall interimHead heads -> v ++ x = concat heads ++ head -> zlen (v ++ x) <= string_max_size -> (length v < fuel)%nat ->
  let r := delivered code reason hs [] in
  if decide (x = []) then
    ∃ s', parseStreamingHeadersLoop onHeaders (S fuel) false s = Returns true s' ∧
      midStream s' (mkStream true (carriesNoBody (rq_methodName (pendingRequest_ s)) code) (isChunkedHeader hs) contentLength 0 r) []
        (log ++ [OnStreamHeaders r])
  else ∃ s' heads' v', parseStreamingHeadersLoop onHeaders (S fuel) false s = Returns false s' ∧ midStream s' st v' log ∧
         pendingRequest_ s' = pendingRequest_ s ∧ Forall interimHead heads' ∧ v' ++ x = concat heads' ++ head ∧ (length v' <= length v)%nat.
Proof.
  induction heads as [|h heads IH]; intros fuel s st v log x Hm Hp Hh Hi Hcl Hall Hv Hmax Hfuel r;
    (destruct fuel as [|fuel]; [lia|]); remember (S fuel) as F eqn:HF; cbn [parseStreamingHeadersLoop];
    unfold mbind, M_bind, gets; rewrite (ms_stream _ _ _ _ Hm), Hp; rewrite (ms_buffer _ _ _ _ Hm).
  - cbn [concat app] in Hv. pose proof (f_equal length Hv) as Hl. rewrite length_app in Hl. destruct (decide (x = [])) as [->|Hx].
    + rewrite app_nil_r in Hv, Hmax. subst v.
      assert (Hend := fh_end _ _ _ _ Hh []). rewrite app_nil_r in Hend. rewrite Hend.
      destruct (fh_parse _ _ _ _ Hh []) as [version Hparse]; [rewrite app_nil_r; unfold string_max_size, size_max in *; lia|].
      rewrite app_nil_r in Hparse. rewrite Hparse. cbn [rs_statusCode].
      assert (Hb : Z.of_nat (length head - 4) + 4 = zlen head) by (pose proof (fh_long _ _ _ _ Hh); unfold zlen; lia).
      rewrite Hb. unfold eraseResponseBufferPrefix, modify. rewrite Hi. destruct (erased_all head) as [Her ->].
      destruct (views_read _ _ Hparse) as [Hhs Hrs]. cbn [rs_headers rs_statusMessage] in Hhs, Hrs.
      assert (Hview : viewIn head head code (mkView 0 0) = mkResponse code reason [] hs []) by (unfold viewIn; by rewrite <- Hhs, <- Hrs).
      rewrite Hview. assert (Hbr : buildResponse (mkResponse code reason [] hs []) = Some r) by (unfold buildResponse; cbn; by destruct (isChunkedHeader hs)).
      rewrite Hbr. cbn [rs_headers]. fold (lengthOf hs). rewrite Hcl. unfold streamOf. cbn [rs_statusCode rs_headers].
      change (setBody r []) with r. unfold when, emit, modify, mbind, M_bind. cbn [callbacks setStream setBuffer].
      destruct (ms_callbacks _ _ _ _ Hm) as (H1 & H2 & H3). rewrite H1.
      assert (Hw : ∀ A (a b : A), (match onHeaders r with Cancel => a | _ => b end) = b)
        by (intros A a b; pose proof (willing_headers r); by destruct (onHeaders r)).
      rewrite Hw. unfold mret, M_ret. cbn [streamingResponse_ setEvents setStream setBuffer]. rewrite (ms_streaming _ _ _ _ Hm). cbn [negb andb].
      rewrite HF. cbn [parseStreamingHeadersLoop]. unfold mbind, M_bind, gets. cbn [stream setEvents setStream setBuffer streamHeadersParsed_].
      eexists. split; [reflexivity|]. split; cbn; try done; [by apply (ms_streaming _ _ _ _ Hm) | by rewrite (ms_buffer _ _ _ _ Hm) | by rewrite (ms_events _ _ _ _ Hm)].
    + destruct (head_none head code reason hs v x [] Hh) as [-> _]; [by rewrite app_nil_r | destruct x; [done|]; cbn [length] in Hl; lia|].
      exists s, [], v. by split_and!.
  - apply Forall_cons in Hall as [(c & rr & hs' & Hh' & Hi') Hall]. cbn [concat] in Hv. rewrite <- app_assoc in Hv.
    destruct (Nat.ltb_spec (length v) (length h)) as [Hs|Hs].
    + destruct (head_none h c rr hs' v x _ Hh' Hv Hs) as [-> _]. destruct (decide (x = [])) as [->|Hx].
      { exfalso. rewrite app_nil_r in Hv. rewrite Hv, length_app in Hs. lia. }
      exists s, (h :: heads), v. split_and!; try done; [constructor; [by exists c, rr, hs' | done] | cbn [concat]; by rewrite <- app_assoc].
    + destruct (arrived_split _ _ _ _ Hv Hs) as (w & -> & Hw). rewrite (fh_end _ _ _ _ Hh' w).
      assert (Hmw : zlen (h ++ w) <= size_max) by (rewrite zlen_app in Hmax; pose proof (zlen_nonneg x); unfold string_max_size, size_max in *; lia).
      destruct (fh_parse _ _ _ _ Hh' w Hmw) as [version ->]. cbn [rs_statusCode]. rewrite Hi'.
      assert (Hb : Z.of_nat (length h - 4) + 4 = zlen h) by (pose proof (fh_long _ _ _ _ Hh'); unfold zlen; lia). rewrite Hb.
      unfold eraseResponseBufferPrefix, modify. apply (mid_erase _ _ _ _ (zlen h)) in Hm. rewrite erased_app in Hm.
      set (s1 := setBuffer _ s) in *. pose proof (fh_long _ _ _ _ Hh') as H4. rewrite length_app in Hfuel.
      specialize (IH fuel s1 st w log x Hm Hp Hh Hi Hcl Hall Hw). rewrite <- app_assoc, zlen_app in Hmax. pose proof (zlen_nonneg h).
      specialize (IH ltac:(lia) ltac:(lia)). cbv zeta in IH. rewrite HF. destruct (decide (x = [])); [exact IH|].
      destruct IH as (s' & heads' & v' & H1 & H2 & H3 & H5 & H6 & H7). exists s', heads', v'. rewrite length_app. split_and!; try done. lia.
Qed.

(** The stream when its head has been read: under way, or at its end for an empty body. *)
Definition afterHead (s : Client) (code : Z) (reason : list byte) (hs : strmap) (contentLength : option Z) (log : list Event) : Prop :=
  let r := delivered code reason hs [] in
  if bool_decide (contentLength = Some 0) then ended s (log ++ [OnStreamHeaders r; OnStreamComplete r])
  else midStream s (mkStream true false (isChunkedHeader hs) contentLength 0 r) [] (log ++ [OnStreamHeaders r]).

Lemma head_data head code reason hs contentLength heads (s : Client) st v log d x :
  midStream s st v log -> streamHeadersParsed_ st = false -> d ≠ [] ->
  framedHead head code reason hs -> isInterimResponseStatus code = false -> lengthOf hs = Some contentLength ->
  (isChunkedHeader hs = true \/ ∃ n, contentLength = Some n ∧ 0 <= n) -> carriesNoBody (rq_methodName (pendingRequest_ s)) code = false ->
  Forall interimHead heads -> v ++ d ++ x = concat heads ++ head -> zlen (v ++ d ++ x) <= string_max_size ->
  ∃ s', handleDataReceived onHeaders onData d s = Returns () s' ∧
  if decide (x = []) then afterHead s' code reason hs contentLength log
  else ∃ heads' v', midStream s' st v' log ∧ pendingRequest_ s' = pendingRequest_ s ∧ Forall interimHead heads' ∧
         v' ++ x = concat heads' ++ head ∧ zlen (v' ++ x) <= string_max_size.
Proof.
  intros Hm Hp Hd Hh Hi Hcl Hfr Hnb Hall Hv Hmax. unfold handleDataReceived. rewrite bool_decide_eq_false_2 by done.
  unfold mbind at 1, M_bind at 1, modify at 1. set (s1 := setBuffer (responseBuffer_ s ++ d) s).
  assert (Hm1 : midStream s1 st (v ++ d) log).
  { destruct Hm as [Hs Hc Hst Hb Hl]. split; unfold s1; cbn; try done. by rewrite Hb. }
  assert (Hr1 : pendingRequest_ s1 = pendingRequest_ s) by done. clearbody s1. rewrite <- Hr1 in *.
  unfold mbind at 1, M_bind at 1, gets at 1. rewrite (ms_streaming _ _ _ _ Hm1). rewrite app_assoc in Hv, Hmax.
  unfold handleStreamingDataReceived, parseStreamingHeaders. unfold mbind, M_bind, gets. rewrite (ms_buffer _ _ _ _ Hm1).
  pose proof (stream_head head code reason hs contentLength heads (S (length (v ++ d))) s1 st (v ++ d) log x Hm1 Hp Hh Hi Hcl Hall Hv Hmax
    ltac:(lia)) as Hs. cbv zeta in Hs. destruct (decide (x = [])) as [->|Hx].
  2: { destruct Hs as (s2 & heads' & v' & -> & H2 & H3 & H5 & H6 & H7). exists s2. split; [done|]. exists heads', v'. split_and!; try done.
       unfold zlen in *. rewrite length_app in *. rewrite (length_app v d) in *. lia. }
  destruct Hs as (s2 & -> & Hm2). rewrite Hnb in Hm2. unfold id. cbn [negb orb].
  rewrite (ms_streaming _ _ _ _ Hm2), (ms_stream _ _ _ _ Hm2). cbn [negb streamNoBody_ streamChunked_ streamContentLength_ streamReceivedBodyBytes_].
  unfold afterHead. destruct (isChunkedHeader hs) eqn:Hch.
  - assert (contentLength = None) as -> by (unfold lengthOf in Hcl; rewrite Hch in Hcl; congruence). rewrite bool_decide_eq_false_2 by done.
    unfold consumeStreamingChunkedBody, mbind, M_bind, gets. cbn [consumeChunkedLoop]. unfold mbind, M_bind, gets.
    rewrite (ms_streaming _ _ _ _ Hm2). cbn [negb]. rewrite (ms_buffer _ _ _ _ Hm2). exists s2. by split.
  - destruct Hfr as [|(n & -> & Hn)]; [done|]. destruct (Z.eqb_spec n 0) as [->|H0].
    + cbn [orb]. destruct (complete_ends _ _ _ _ Hm2) as (s3 & -> & He). exists s3. split; [done|].
      rewrite bool_decide_eq_true_2 by done. by rewrite <- app_assoc in He.
    + rewrite bool_decide_eq_false_2 by congruence. rewrite (proj2 (Z.leb_gt n 0)) by lia. cbn [orb].
      unfold consumeStreamingFixedLengthBody, mbind, M_bind, gets, id. rewrite (ms_stream _ _ _ _ Hm2).
      cbn [streamContentLength_ streamReceivedBodyBytes_]. rewrite (proj2 (Z.leb_gt n 0)) by lia. cbn [consumeFixedLoop].
      unfold mbind, M_bind, gets, id. rewrite (ms_streaming _ _ _ _ Hm2), (ms_buffer _ _ _ _ Hm2), bool_decide_eq_true_2 by done.
      cbn [negb orb]. exists s2. by split.
Qed.

Lemma head_segments head code reason hs contentLength : ∀ segments heads (s : Client) st v log,
  midStream s st v log -> streamHeadersParsed_ st = false -> concat segments ≠ [] ->
  framedHead head code reason hs -> isInterimResponseStatus code = false -> lengthOf hs = Some contentLength ->
  (isChunkedHeader hs = true \/ ∃ n, contentLength = Some n ∧ 0 <= n) -> carriesNoBody (rq_methodName (pendingRequest_ s)) code = false ->
  Forall interimHead heads -> v ++ concat segments = concat heads ++ head -> zlen (v ++ concat segments) <= string_max_size ->
  ∃ s', receiveAll segments s = Returns () s' ∧ afterHead s' code reason hs contentLength log.
Proof.
  induction segments as [|d segments IH]; intros heads s st v log Hm Hp Hne Hh Hi Hcl Hfr Hnb Hall Hv Hmax; cbn [concat receiveAll] in *; [done|].
  destruct (decide (d = [])) as [->|Hd].
  { unfold handleDataReceived. rewrite bool_decide_eq_true_2 by done. by eapply IH. }
  destruct (head_data head code reason hs contentLength heads s st v log d (concat segments) Hm Hp Hd Hh Hi Hcl Hfr Hnb Hall Hv Hmax)
    as (s1 & H1 & H2). unfold mbind, M_bind. rewrite H1. destruct (decide (concat segments = [])) as [Hx|Hx].
  - exists s1. split; [by apply receiveAll_empty | done].
  - destruct H2 as (heads' & v' & Hm' & Hr & Hall' & Hv' & Hmax'). rewrite <- Hr in Hnb. by eapply (IH heads' s1 st v').
Qed.

Lemma receiveAll_app l1 l2 (s s' : Client) : receiveAll l1 s = Returns () s' -> receiveAll (l1 ++ l2) s = receiveAll l2 s'.
Proof.
  revert s. induction l1 as [|d l1 IH]; intros s; cbn [receiveAll app]; [by intros [= ->]|]. unfold mbind, M_bind.
  destruct (handleDataReceived onHeaders onData d s) as [[] s1|s1|]; [apply IH | done | done].
Qed.

(** A streamed response whose head ends a segment: everything after it is delivered. *)
Lemma stream_response head code reason hs payload body heads (s : Client) st log headSegments bodySegments :
  midStream s st [] log -> streamHeadersParsed_ st = false ->
  framedHead head code reason hs -> isInterimResponseStatus code = false ->
  framing (rq_methodName (pendingRequest_ s)) code hs payload body -> carriesNoBody (rq_methodName (pendingRequest_ s)) code = false ->
  Forall interimHead heads -> concat headSegments = concat heads ++ head -> concat bodySegments = payload ->
  zlen (concat heads ++ head) <= string_max_size -> zlen payload <= string_max_size ->
  let r := delivered code reason hs [] in
  ∃ s' chunks, receiveAll (headSegments ++ bodySegments) s = Returns () s' ∧ concat chunks = body ∧
    ended s' (log ++ [OnStreamHeaders r] ++ (OnStreamData <$> chunks) ++ [OnStreamComplete r]).
Proof.
  intros Hm Hp Hh Hi Hf Hnb Hall Hv Hb Hmax Hmax2 r.
  assert (Hl : ∃ contentLength, lengthOf hs = Some contentLength ∧ (isChunkedHeader hs = true \/ ∃ n, contentLength = Some n ∧ 0 <= n) ∧
    ((isChunkedHeader hs = true ∧ contentLength = None ∧ payload = buildChunked body) \/
     (isChunkedHeader hs = false ∧ contentLength = Some (zlen body) ∧ payload = body))).
  { unfold lengthOf. destruct Hf as [Hn|body text Hn Hcl Hst Hch|body Hn Hcl Hch]; [congruence|..]; rewrite Hch.
    - exists (Some (zlen body)). rewrite Hcl, Hst. split_and!; [done | right; exists (zlen body); split; [done|apply zlen_nonneg] | by right].
    - exists None. split_and!; [done | by left | by left]. }
  destruct Hl as (contentLength & Hcl & Hfr & Hcase).
  assert (Hne : concat headSegments ≠ []).
  { rewrite Hv. intros [_ ->]%app_eq_nil. pose proof (fh_long _ _ _ _ Hh) as H4. cbn in H4. lia. }
  destruct (head_segments head code reason hs contentLength headSegments heads s st [] log Hm Hp Hne Hh Hi Hcl Hfr Hnb Hall Hv) as (s1 & H1 & H2);
    [by rewrite Hv|]. rewrite (receiveAll_app _ _ _ _ H1). unfold afterHead in H2. fold r in H2.
  destruct Hcase as [(Hch & -> & ->)|(Hch & -> & ->)].
  - rewrite bool_decide_eq_false_2, Hch in H2 by done.
    destruct (chunked_segments r bodySegments s1 [] _ (length body) body H2) as (s2 & chunks & H3 & Hc & He);
      [rewrite Hb; unfold buildChunked; by destruct (buildChunkedLoop _ _) | exact Hb | done | cbn [app]; by rewrite Hb|].
    exists s2, chunks. split_and!; [done | done|]. by rewrite app_assoc.
  - destruct (decide (body = [])) as [->|Hbn].
    + rewrite bool_decide_eq_true_2 in H2 by done. exists s1, []. split_and!; [by apply receiveAll_empty | done|]. done.
    + assert (Hpos : 0 < zlen body) by (destruct body as [|b body]; [done|]; rewrite zlen_cons; pose proof (zlen_nonneg body); lia).
      rewrite bool_decide_eq_false_2, Hch in H2 by (intros [= E]; lia).
      destruct (fixed_segments (zlen body) r bodySegments s1 0 _ H2) as (s2 & chunks & H3 & Hc & He); [lia | rewrite Hb; lia|].
      exists s2, chunks. split_and!; [done | by rewrite Hc|]. by rewrite app_assoc.
Qed.

End Receiving.

(** ** Requests and their responses *)

Section Exchange.
Context {Net : Type} {tcp : TcpClient Net} (onHeaders : HttpResponse -> Reaction) (onData : list byte -> Reaction).
Abbreviation Client := (@Impl Net).

(** The client with a request of the user pending. *)
Definition requested (method path : list byte) (fields : strmap) (payload : list byte) (s : Client) : Client :=
  setPending (mkPending method (buildRequestPath (url_path (parsedUrl_ s)) path) fields payload) s.

(** A request the transport takes is awaited, with its timer running. *)
Lemma send_accepted (s : Client) n :
  connected_ s = true -> tcpSend (net s) (pendingText s) = (n, true, None) ->
  ∃ timer, sendPendingRequest onHeaders onData s =
    Returns true (setTimer timer (setError None (setNet n (setAwaiting true (setBuffer [] s))))).
Proof.
  intros Hc Hs. unfold sendPendingRequest, clearLastError, startRequestTimer, stopRequestTimer, mbind, M_bind, gets, modify, id.
  rewrite Hc, Hs. cbn [negb mret M_ret]. destruct (requestTimeout_ _ =? 0); eexists; reflexivity.
Qed.

Lemma request_admitted (s : Client) method :
  connected_ s = true -> awaitingResponse_ s = false -> isValidHttpMethodName method = true ->
  admitRequest method s = Returns true (setError None s).
Proof. intros H1 H2 H3. unfold admitRequest, clearLastError, mbind, M_bind, gets, modify, id. by rewrite H1, H2, H3. Qed.

Lemma restore_fields (s : Client) :
  ∃ s', restoreRequestTimeoutOverride s = Returns () s' ∧ events s' = events s ∧ awaitingResponse_ s' = awaitingResponse_ s ∧
    responseBuffer_ s' = responseBuffer_ s ∧ callbacks s' = callbacks s ∧ requestTimer_ s' = requestTimer_ s ∧
    lastError_ s' = lastError_ s ∧ pendingRequestOverrideTimeout_ s' = None.
Proof.
  eexists. split; [reflexivity|]. destruct (pendingRequestOverrideTimeout_ s) eqn:E; by rewrite ?E.
Qed.

(** A response that is not followed goes to the user. *)
Lemma response_handled (s : Client) r :
  redirectTarget s r = None -> responseCallback_ (callbacks s) = true ->
  ∃ s', handleResponse onHeaders onData r s = Returns () s' ∧ events s' = events s ++ [OnResponse r] ∧
    awaitingResponse_ s' = awaitingResponse_ s ∧ responseBuffer_ s' = responseBuffer_ s ∧ requestTimer_ s' = None ∧ lastError_ s' = None.
Proof.
  intros Hr Hc. unfold handleResponse, stopRequestTimer, clearLastError, mbind, M_bind, gets, modify, id. cbn beta iota.
  set (s1 := setError None (setTimer None s)). change (redirectTarget s1 r) with (redirectTarget s r). rewrite Hr.
  destruct (restore_fields s1) as (s2 & -> & H1 & H2 & H3 & H4 & H5 & H6 & _).
  unfold callResponse, mbind, M_bind, gets. rewrite H4. change (callbacks s1) with (callbacks s). rewrite Hc.
  eexists. split; [reflexivity|]. cbn. by rewrite H1, H2, H3, H5, H6.
Qed.

(** C5. A buffered request and its response.  A connected, idle client hands the transport
    one request; then, however the network cuts the bytes of the response (after any number
    of interim 1xx responses, with a body framed by its length, by chunks or not at all),
    the user's callback runs exactly once, with the status, headers and decoded body the
    server sent, and the client is idle again with its buffer empty and its timer stopped. *)
Theorem client_response (s : Client) method path fields payload n head code reason hs wire body heads segments :
  connected_ s = true -> awaitingResponse_ s = false -> streamingResponse_ s = false -> isValidHttpMethodName method = true ->
  tcpSend (net s) (pendingText (requested method path fields payload s)) = (n, true, None) ->
  framedHead head code reason hs -> framing method code hs wire body -> isInterimResponseStatus code = false ->
  Forall interimHead heads -> redirectTarget s (delivered code reason hs body) = None ->
  concat segments = concat heads ++ head ++ wire -> zlen (concat segments) <= string_max_size ->
  ∃ s1 s2, sendRequest onHeaders onData method path fields payload true s = Returns true s1 ∧
    net s1 = n ∧ awaitingResponse_ s1 = true ∧ receiveAll onHeaders onData segments s1 = Returns () s2 ∧
    events s2 = events s ++ [OnResponse (delivered code reason hs body)] ∧
    awaitingResponse_ s2 = false ∧ responseBuffer_ s2 = [] ∧ requestTimer_ s2 = None ∧ lastError_ s2 = None.
Proof.
  intros Hc Ha Hst Hm Hs Hh Hf Hi Hall Hr Hw Hmax.
  unfold sendRequest, setRequest. unfold mbind, M_bind at 1. rewrite (request_admitted s) by done. unfold M_bind at 1, M_bind at 1.
  unfold modify, negb. cbn beta iota. set (s0 := setCallbacks _ _).
  destruct (send_accepted s0 n Hc Hs) as (timer & ->). eexists. set (s1 := setTimer timer _).
  destruct (response_handled (setAwaiting false (setBuffer [] s1)) (delivered code reason hs body) Hr eq_refl)
    as (s2 & H2 & H3 & H4 & H5 & H6 & H7). exists s2. split_and!; try done.
  rewrite (receive_response onHeaders onData head code reason hs wire body segments heads); try done.
  - rewrite Hw. intros [_ [-> _]%app_eq_nil]%app_eq_nil. pose proof (fh_long _ _ _ _ Hh) as Hl. cbn in Hl. lia.
  - by rewrite <- Hw.
Qed.

(** A streamed request and its response.  When the head of the response (after any
    interim ones) ends a segment and the callbacks let the stream go on, then however the
    body is cut the headers callback runs once, the data callback with pieces that make up
    the decoded body, the completion callback once and last, and the client is idle again. *)
Theorem stream_delivery `{!Willing onHeaders onData} (s : Client) method path fields payload n head code reason hs wire body heads headSegments bodySegments :
  connected_ s = true -> awaitingResponse_ s = false -> isValidHttpMethodName method = true ->
  tcpSend (net s) (pendingText (requested method path fields payload s)) = (n, true, None) ->
  framedHead head code reason hs -> framing method code hs wire body -> carriesNoBody method code = false ->
  isInterimResponseStatus code = false -> Forall interimHead heads ->
  concat headSegments = concat heads ++ head -> concat bodySegments = wire ->
  zlen (concat headSegments) <= string_max_size -> zlen wire <= string_max_size ->
  let r := delivered code reason hs [] in
  ∃ s1 s2 chunks, sendStreamingRequest onHeaders onData method path fields payload true true true s = Returns true s1 ∧
    receiveAll onHeaders onData (headSegments ++ bodySegments) s1 = Returns () s2 ∧ concat chunks = body ∧
    ended s2 (events s ++ [OnStreamHeaders r] ++ (OnStreamData <$> chunks) ++ [OnStreamComplete r]).
Proof.
  intros Hc Ha Hm Hs Hh Hf Hnb Hi Hall Hw Hb Hmax Hmax2 r.
  unfold sendStreamingRequest, setRequest. unfold mbind, M_bind at 1. rewrite (request_admitted s) by done. do 4 unfold M_bind at 1.
  unfold modify, negb. cbn beta iota. set (s0 := setStream _ _).
  destruct (send_accepted s0 n Hc Hs) as (timer & ->). eexists. set (s1 := setTimer timer _).
  rewrite Hw in Hmax. destruct (stream_response onHeaders onData head code reason hs wire body heads s1 (stream s1) (events s)
    headSegments bodySegments) as (s2 & chunks & H1 & H2 & H3); try done.
  by exists s2, chunks.
Qed.

(** ** Redirects *)

Lemma erase_find hs name : findHeaderCaseInsensitive (eraseHeaderCaseInsensitive hs name) name = None.
Proof.
  unfold findHeaderCaseInsensitive, eraseHeaderCaseInsensitive. induction hs as [|[k v] hs IH]; [done|]. cbn [List.filter].
  destruct (caseInsensitiveCompare (k, v).1 name) eqn:E; [done|]. cbn [negb find]. by rewrite E.
Qed.

Lemma erase_keeps hs a name : findHeaderCaseInsensitive hs a = None ->
  findHeaderCaseInsensitive (eraseHeaderCaseInsensitive hs name) a = None.
Proof.
  unfold findHeaderCaseInsensitive, eraseHeaderCaseInsensitive. induction hs as [|[k v] hs IH]; [done|]. cbn [List.filter find].
  destruct (caseInsensitiveCompare (k, v).1 a) eqn:E; [done|]. destruct (caseInsensitiveCompare _ name); [done|]. cbn [negb find].
  by rewrite E.
Qed.

(** The headers that do not go to another endpoint. *)
Definition credentials : list (list byte) := [str "Host"; str "Authorization"; str "Proxy-Authorization"].

Lemma redirect_headers code base u p :
  Forall (fun name => findHeaderCaseInsensitive (rq_fields (prepareRedirectRequest code base u true p)) name = None) credentials.
Proof.
  unfold prepareRedirectRequest, credentials. cbn [rq_fields]. repeat constructor; auto using erase_find, erase_keeps.
Qed.

(** A closed connection is news to an idle client only in [connected_] and its timer. *)
Lemma closed_idle reason (s : Client) : awaitingResponse_ s = false ->
  closedIdle reason s = Returns () (setConnected false (setTimer None s)).
Proof. intros Ha. unfold closedIdle, handleDisconnectWith, stopRequestTimer, mbind, M_bind, gets, modify. cbn. by rewrite Ha. Qed.

Lemma closed_idle_disconnect reason (s : Client) : awaitingResponse_ s = false ->
  handleDisconnect onHeaders onData reason s = closedIdle reason s.
Proof.
  intros Ha. rewrite closed_idle by done.
  unfold handleDisconnect, handleDisconnectWith, stopRequestTimer, mbind, M_bind, gets, modify. cbn. by rewrite Ha.
Qed.

Lemma closed_sending_disconnect reason (s : Client) : responseBuffer_ s = [] ->
  handleDisconnect onHeaders onData reason s = closedWhileSending onHeaders onData reason s.
Proof.
  intros Hb. unfold handleDisconnect, closedWhileSending, handleDisconnectWith, stopRequestTimer, setLastError, mbind, M_bind, gets, modify.
  cbn. destruct (awaitingResponse_ s) eqn:Ha; cbn; [|by rewrite ?Ha]. destruct (reason =s []); cbn; rewrite ?Ha;
    (destruct (streamingResponse_ s); cbn; [done|]); rewrite ?Ha, ?Hb; done.
Qed.

Lemma disconnected_idle (s : Client) n closed : awaitingResponse_ s = false -> tcpClose (net s) = (n, None, closed) ->
  disconnectWith closedIdle s =
  Returns () (setBuffer [] (setStreaming false (setAwaiting false (setConnected false (setTimer None (setNet n s)))))).
Proof.
  intros Ha Hc. unfold disconnectWith, tcpDisconnectWith, stopRequestTimer, mbind, M_bind, gets, modify. cbn beta iota.
  change (net (setTimer None s)) with (net s). rewrite Hc. cbn [mret M_ret]. destruct closed as [reason|]; [|done]. by rewrite closed_idle.
Qed.

(** Dialling, and the report of the connection, whether it comes before [connect] returns
    or later. *)
Definition reportedLater (notice : option (bool * list byte)) : M (Net := Net) unit :=
  match notice with None => handleConnect onHeaders onData true [] | Some _ => mret () end.

Lemma dialled_connects (s s' : Client) replay n notice : enabled (proxyOptions_ (settings s)) = false ->
  tcpConnect (net s) (url_host (parsedUrl_ s)) (url_port (parsedUrl_ s)) (buildEffectiveSslConfig (settings s) (parsedUrl_ s)) = (n, true, notice) ->
  notice = None ∨ notice = Some (true, []) ->
  handleConnect onHeaders onData true [] (setNet n (setConnected false (setBuffer [] (setReplay replay s)))) = Returns () s' ->
  (connectToParsedUrl onHeaders onData replay ;; reportedLater notice) s = Returns () s'.
Proof.
  intros Hx Hc Hn Hs. unfold connectToParsedUrl, gets, modify, id. unfold mbind, M_bind. cbn beta iota.
  set (s1 := setConnected _ _). change (settings s1) with (settings s). change (parsedUrl_ s1) with (parsedUrl_ s).
  change (net s1) with (net s). rewrite Hx. cbn [andb]. rewrite Hc. destruct Hn as [-> | ->]; [exact Hs|].
  fold s1 in Hs. by rewrite Hs.
Qed.

Lemma replayed (s : Client) n : replayAfterConnect_ s = true ->
  tcpSend (net s) (pendingText s) = (n, true, None) ->
  ∃ timer, handleConnect onHeaders onData true [] s =
    Returns () (setTimer timer (setError None (setNet n (setAwaiting true (setBuffer [] (setReplay false (setConnected true s))))))).
Proof.
  intros Hr Hs. unfold handleConnect, clearLastError, modify, gets, id. unfold mbind, M_bind at 1. cbn [negb]. unfold M_bind at 1, M_bind at 1.
  set (s1 := setError None (setConnected true s)). change (replayAfterConnect_ s1) with (replayAfterConnect_ s). rewrite Hr.
  unfold M_bind. destruct (send_accepted (setReplay false s1) n eq_refl Hs) as (timer & ->). by exists timer.
Qed.

(** C6. A redirect to another endpoint.  The client counts it, closes the connection
    and dials the endpoint of the redirect's URL with TLS as its scheme asks; when the
    connection stands (reported before [connect] returns or later), the one text it hands to
    the transport is the pending request rewritten by [prepareRedirectRequest], whose fields
    carry no [Host], [Authorization] or [Proxy-Authorization] in any spelling, and whose
    method is [GET] with an empty body after a 303.  The user's callback is not called. *)
Theorem redirect_followed (s : Client) r u n1 closed n2 notice n3 :
  redirectTarget s r = Some u -> sameEndpoint u (parsedUrl_ s) = false -> awaitingResponse_ s = false ->
  enabled (proxyOptions_ (settings s)) = false -> tcpClose (net s) = (n1, None, closed) ->
  tcpConnect n1 (url_host u) (url_port u) (buildEffectiveSslConfig (settings s) u) = (n2, true, notice) ->
  notice = None ∨ notice = Some (true, []) ->
  let p := prepareRedirectRequest (statusCode r) (url_path (parsedUrl_ s)) u true (pendingRequest_ s) in
  let text := buildClientRequest (rq_methodName p) (buildTransportRequestTarget (proxyOptions_ (settings s)) u (rq_path p)) (rq_fields p)
                (rq_payload p) (buildHostHeader u) (useCompression_ (settings s)) in
  tcpSend n2 text = (n3, true, None) ->
  ∃ s', (handleResponse onHeaders onData r ;; reportedLater notice) s = Returns () s' ∧
    net s' = n3 ∧ awaitingResponse_ s' = true ∧ connected_ s' = true ∧ parsedUrl_ s' = u ∧
    redirectCount_ s' = u32 (redirectCount_ s + 1) ∧ events s' = events s ∧
    Forall (fun name => findHeaderCaseInsensitive (rq_fields p) name = None) credentials ∧
    (statusCode r = 303 -> rq_methodName p = str "GET" ∧ rq_payload p = []).
Proof.
  intros Hr He Ha Hx Hclose Hdial Hn p text Hsend.
  unfold handleResponse, stopRequestTimer, clearLastError, gets, modify, id. do 4 unfold mbind, M_bind at 1. cbn beta iota.
  set (s0 := setError None (setTimer None s)). change (redirectTarget s0 r) with (redirectTarget s r). rewrite Hr.
  change (parsedUrl_ s0) with (parsedUrl_ s). rewrite He. cbn [negb]. do 3 unfold M_bind at 1. unfold M_bind at 1.
  change (pendingRequest_ s0) with (pendingRequest_ s). fold p. set (s1 := setParsedUrl u _).
  rewrite (disconnected_idle s1 n1 closed Ha Hclose). set (s2 := setBuffer [] _).
  destruct (replayed (setNet n2 (setConnected false (setBuffer [] (setReplay true s2)))) n3 eq_refl) as (timer & H4).
  { unfold pendingText. unfold applyProxyHeaders. cbn [setNet setConnected setBuffer setReplay settings].
    change (settings s2) with (settings s). rewrite Hx. exact Hsend. }
  pose proof (dialled_connects s2 _ true n2 notice Hx Hdial Hn H4) as H5. unfold mbind, M_bind in H5 |- *.
  destruct (connectToParsedUrl onHeaders onData true s2) as [b s3|s3|]; [|done..]. cbn [mret M_ret].
  eexists. split; [exact H5|]. split_and!; try done.
  - apply redirect_headers.
  - intros H303. unfold p, prepareRedirectRequest. by rewrite H303.
Qed.

End Exchange.

(** ** Concrete runs *)

Definition proceed {A} (_ : A) : Reaction := Proceed.

#[export] Instance willing_proceed : Willing proceed proceed.
Proof. by split. Qed.

(** A client on an open link to [http://a.test/]. *)
Definition linkClient : Impl (Net := Link) :=
  mkImpl (mkLink true [] []) true false false false (mkStream false false false None 0 defaultHttpResponse)
    (mkUrl (str "http") (str "a.test") 80 (str "/")) (mkPending [] [] [] []) [] None 5000 None 0 None
    (mkSettings true 5 false defaultSsl noProxy) (mkCallbacks true true true true true) [].

Definition loginClient : Impl (Net := Link) :=
  setPending (mkPending (str "POST") (str "/") [(str "AUTHORIZATION", str "Bearer t"); (str "X-Id", str "7")] (str "body")) linkClient.
Definition seeOther : HttpResponse := delivered 303 (str "See Other") [(str "Location", str "https://b.test/x")] [].

(** What the user sees of a request when these segments arrive, and whether the client
    still waits. *)
Definition exchange (request : M (Net := Link) bool) (segments : list (list byte)) : option (list Event * bool) :=
  match (request ;; receiveAll proceed proceed segments) linkClient with
  | Returns _ s => Some (events s, awaitingResponse_ s)
  | _ => None
  end.
Definition getStream : M (Net := Link) bool := sendStreamingRequest proceed proceed (str "GET") (str "/") [] [] true true true.
Definition getBuffered : M (Net := Link) bool := sendRequest proceed proceed (str "GET") (str "/") [] [] true.

(** A response of sixteen bytes, and its head. *)
Definition sixteen : list byte := str "0123456789abcdef".
Definition okHead : list byte := str "HTTP/1.1 200 OK" ++ CRLF ++ str "Content-Length: 16" ++ CRLF ++ CRLF.
Definition okHeaders : strmap := [(str "Content-Length", str "16")].

Lemma okHead_framed : framedHead okHead 200 (str "OK") okHeaders.
Proof.
  destruct (written_head 200 (str "OK") [] sixteen) as (head & Ht & Hh).
  - split; [lia | split; [split; by intros c [= <-] | decide_closed] | by repeat constructor | by vm_compute ..].
  - enough (head = okHead) as <- by exact Hh. apply (app_inv_tail sixteen). rewrite <- Ht. by vm_compute.
Qed.

Lemma okHead_framing : framing (str "GET") 200 okHeaders sixteen sixteen.
Proof. by eapply by_length. Qed.

Lemma client_response_witness :
  let s := linkClient in let segments := [take 7 okHead; drop 7 okHead ++ take 3 sixteen; drop 3 sixteen] in
  ∃ s1 s2, sendRequest proceed proceed (str "GET") (str "/") [] [] true s = Returns true s1 ∧
    net s1 = mkLink true [] [pendingText (requested (str "GET") (str "/") [] [] s)] ∧
    awaitingResponse_ s1 = true ∧ receiveAll proceed proceed segments s1 = Returns () s2 ∧
    events s2 = events s ++ [OnResponse (delivered 200 (str "OK") okHeaders sixteen)] ∧
    awaitingResponse_ s2 = false ∧ responseBuffer_ s2 = [] ∧ requestTimer_ s2 = None ∧ lastError_ s2 = None.
Proof.
  intros s segments.
  refine (client_response proceed proceed s (str "GET") (str "/") [] [] _ okHead 200 (str "OK") okHeaders sixteen sixteen [] segments
    eq_refl eq_refl eq_refl eq_refl eq_refl okHead_framed okHead_framing eq_refl _ _ _ _); [constructor | by vm_compute ..].
Defined.

Lemma stream_delivery_witness :
  let s := linkClient in let r := delivered 200 (str "OK") okHeaders [] in
  ∃ s1 s2 chunks, sendStreamingRequest proceed proceed (str "GET") (str "/") [] [] true true true s = Returns true s1 ∧
    receiveAll proceed proceed ([take 7 okHead; drop 7 okHead] ++ [take 3 sixteen; drop 3 sixteen]) s1 = Returns () s2 ∧
    concat chunks = sixteen ∧ ended s2 (events s ++ [OnStreamHeaders r] ++ (OnStreamData <$> chunks) ++ [OnStreamComplete r]).
Proof.
  intros s r.
  refine (stream_delivery proceed proceed s (str "GET") (str "/") [] [] _ okHead 200 (str "OK") okHeaders sixteen sixteen [] _ _
    eq_refl eq_refl eq_refl eq_refl okHead_framed okHead_framing eq_refl eq_refl _ _ _ _ _); [constructor | by vm_compute ..].
Defined.

Lemma redirect_followed_witness :
  let s := loginClient in let u := mkUrl (str "https") (str "b.test") 443 (str "/x") in
  let p := prepareRedirectRequest 303 (str "/") u true (pendingRequest_ s) in
  let text := buildClientRequest (str "GET") (str "/x") [(str "X-Id", str "7")] [] (str "b.test") false in
  ∃ s', (handleResponse proceed proceed seeOther ;; reportedLater proceed proceed None) s = Returns () s' ∧
    net s' = mkLink true [(str "b.test", 443, true)] [text] ∧ awaitingResponse_ s' = true ∧ connected_ s' = true ∧ parsedUrl_ s' = u ∧
    redirectCount_ s' = u32 (redirectCount_ s + 1) ∧ events s' = events s ∧
    Forall (fun name => findHeaderCaseInsensitive (rq_fields p) name = None) credentials ∧
    (303 = 303 -> rq_methodName p = str "GET" ∧ rq_payload p = []).
Proof.
  intros s u p text.
  refine (redirect_followed proceed proceed s seeOther u (mkLink false [] []) (Some (str "Connection closed"))
    _ None _ _ _ _ _ _ _ _ _); try (vm_compute; reflexivity). by left.
Defined.

(** ** What the code gets wrong *)

Definition forty : list byte := repeat x78 40.
Definition fortyHead : list byte := str "HTTP/1.1 200 OK" ++ CRLF ++ str "Content-Length: 40" ++ CRLF ++ CRLF.

(** The head of a stream is erased from the buffer before its views are read.  When body
    bytes share a segment with the head, they have been moved over it: the callback gets a
    reason and headers made of body bytes, the length is not found, and the stream never
    completes.  The same bytes cut after the head complete. *)
Example stream_head_overwritten :
  let r := delivered 200 (str "OK") [(str "Content-Length", str "40")] [] in
  exchange getStream [fortyHead; forty] = Some ([OnStreamHeaders r; OnStreamData forty; OnStreamComplete r], false) ∧
  exchange getStream [fortyHead ++ forty] =
    Some ([OnStreamHeaders (delivered 200 (str "xx") [(repeat x78 14, str "xx")] []); OnStreamData forty], true).
Proof. split; by vm_compute. Qed.

(** The same for a buffered response with bytes behind it. *)
Example response_overwritten :
  exchange getBuffered [fortyHead ++ forty ++ sixteen] =
  Some ([OnResponse (delivered 200 (str "de") [(str "Content-Length", str "40")] forty)], false).
Proof. by vm_compute. Qed.

(** An error after the response calls the response callback again. *)
Example error_after_response :
  exchange (getBuffered ;; receiveAll proceed proceed [okHead; sixteen] ;; handleError SocketError (str "reset") ;; mret true) [] =
  Some ([OnResponse (delivered 200 (str "OK") okHeaders sixteen); OnResponse (failureResponse (str "reset"))], false).
Proof. by vm_compute. Qed.

(** A response nobody asked for goes to the callback of the last request. *)
Example unsolicited_response :
  exchange getBuffered [okHead; sixteen; okHead ++ sixteen] =
  let r := OnResponse (delivered 200 (str "OK") okHeaders sixteen) in Some ([r; r], false).
Proof. by vm_compute. Qed.

(** The redirects of all requests of a connection share one allowance: after five, the
    sixth request gets the redirect itself. *)
Definition sameSite : list byte := str "HTTP/1.1 302 Found" ++ CRLF ++ str "Location: /next" ++ CRLF ++ str "Content-Length: 0" ++ CRLF ++ CRLF.
Definition redirectedOnce : M (Net := Link) bool :=
  getBuffered ;; receiveAll proceed proceed [sameSite; okHead; sixteen] ;; mret true.

Example redirect_count_kept :
  let ok := OnResponse (delivered 200 (str "OK") okHeaders sixteen) in
  let found := OnResponse (delivered 302 (str "Found") [(str "Content-Length", str "0"); (str "Location", str "/next")] []) in
  exchange (redirectedOnce ;; redirectedOnce ;; redirectedOnce ;; redirectedOnce ;; redirectedOnce) [] = Some ([ok; ok; ok; ok; ok], false) ∧
  exchange (redirectedOnce ;; redirectedOnce ;; redirectedOnce ;; redirectedOnce ;; redirectedOnce ;; getBuffered) [sameSite] =
    Some ([ok; ok; ok; ok; ok; found], false).
Proof. split; by vm_compute. Qed.

(** A [Content-Length] close to 2^64 wraps the size of the message: the response is taken
    with no byte consumed. *)
Example content_length_wraps :
  let head := str "HTTP/1.1 200 OK" ++ CRLF ++ str "Content-Length: 18446744073709551559" ++ CRLF ++ CRLF in
  tryExtractResponseView (str "GET") (head ++ str "abc") false = Extracted 200 (mkView 57 3) 0.
Proof. by vm_compute. Qed.

(** A request without a callback is never over once the connection is closed. *)
Example no_callback_waits :
  match (sendRequest proceed proceed (str "GET") (str "/") [] [] false ;; handleDisconnect proceed proceed (str "closed")) linkClient with
  | Returns _ s => awaitingResponse_ s = true ∧ connected_ s = false
  | _ => False
  end.
Proof. by vm_compute. Qed.

(** The timeout of one request stays in force when the connection closes under it. *)
Example timeout_kept :
  match (sendRequestObject proceed proceed (setTimeout (newRequest (str "/")) 5) true ;;
         handleDisconnect proceed proceed (str "closed")) linkClient with
  | Returns _ s => awaitingResponse_ s = false ∧ requestTimeout_ linkClient = 5000 ∧ requestTimeout_ s = 5
  | _ => False
  end.
Proof. by vm_compute. Qed.
