(* ===== verification/FastBuffer.v ===== *)
(** * Small-buffer-optimised byte buffer (include/FastNet/FastBuffer.h)

    The object holds an inline array, an optional heap block, and the cursor
    [readOffset_] that makes [erase_front] constant-time.  Sizes are [size_t]
    values in [Z].  A call ends in one of three ways: normally, with an exception
    and the state it leaves behind, or with a write outside its storage.
    The allocator is a parameter. *)

From S2P Require Import Prelude.

Definition kStackSize : Z := 4096.
Definition kMaxSize : Z := 64 * 1024 * 1024.

Record FastBuffer := mkFB {
  stackBuffer_ : list byte;
  heapBuffer_ : list byte;     (* empty for nullptr *)
  size_ : Z;
  capacity_ : Z;
  readOffset_ : Z;
  usingHeap_ : bool
}.

Definition emptyBuffer : FastBuffer :=
  mkFB (replicate (Z.to_nat kStackSize) x00) [] 0 kStackSize 0 false.

Inductive exn := length_error | bad_alloc | out_of_range.

(** How a member call ends. *)
Inductive outcome :=
  | Done (fb : FastBuffer)
  | Raised (e : exn) (fb : FastBuffer)
  | Undefined.

Definition andThen (o : outcome) (k : FastBuffer -> outcome) : outcome :=
  match o with
  | Done fb => k fb
  | other => other
  end.

Notation "x <~ c ;; k" := (andThen c (fun x => k))
  (at level 100, c at next level, right associativity) : fastnet_scope.

(** ** Storage *)

Definition base (fb : FastBuffer) : list byte :=
  if usingHeap_ fb then heapBuffer_ fb else stackBuffer_ fb.

Definition setBase (fb : FastBuffer) (b : list byte) : FastBuffer :=
  if usingHeap_ fb
  then mkFB (stackBuffer_ fb) b (size_ fb) (capacity_ fb) (readOffset_ fb) true
  else mkFB b (heapBuffer_ fb) (size_ fb) (capacity_ fb) (readOffset_ fb) false.

Definition setSize (fb : FastBuffer) (n : Z) : FastBuffer :=
  mkFB (stackBuffer_ fb) (heapBuffer_ fb) n (capacity_ fb) (readOffset_ fb) (usingHeap_ fb).

Definition setOffset (fb : FastBuffer) (o : Z) : FastBuffer :=
  mkFB (stackBuffer_ fb) (heapBuffer_ fb) (size_ fb) (capacity_ fb) o (usingHeap_ fb).

(** [n] bytes of a block from [off] on. *)
Definition slice (b : list byte) (off n : Z) : list byte :=
  take (Z.to_nat n) (drop (Z.to_nat off) b).

(** The bytes [data() .. data() + size_). *)
Definition contents (fb : FastBuffer) : list byte := slice (base fb) (readOffset_ fb) (size_ fb).

(** [memcpy]/[memset]/[memmove] of [bytes] to [data() + at]. *)
Definition writeData (fb : FastBuffer) (at_ : Z) (bytes : list byte) : outcome :=
  if zlen (base fb) <? readOffset_ fb + at_ + zlen bytes then Undefined
  else Done (setBase fb (blit (base fb) (Z.to_nat (readOffset_ fb + at_)) bytes)).

(** ** Private members *)

Definition capacity (fb : FastBuffer) : Z := capacity_ fb - readOffset_ fb.

Definition releaseHeap (fb : FastBuffer) : FastBuffer :=
  if usingHeap_ fb then mkFB (stackBuffer_ fb) [] (size_ fb) kStackSize 0 false else fb.

Definition clear (fb : FastBuffer) : FastBuffer := setOffset (setSize fb 0) 0.

Definition reset (fb : FastBuffer) : FastBuffer := releaseHeap (clear fb).

Definition compact (fb : FastBuffer) : FastBuffer :=
  if (readOffset_ fb =? 0) || (size_ fb =? 0) then setOffset fb 0
  else setOffset (setBase fb (blit (base fb) 0 (slice (base fb) (readOffset_ fb) (size_ fb)))) 0.

Fixpoint growLoop (fuel : nat) (newCapacity required : Z) : Z :=
  match fuel with
  | O => newCapacity
  | S fuel =>
      if newCapacity <? required
      then growLoop fuel (if newCapacity <=? kMaxSize / 2 then newCapacity * 2 else kMaxSize) required
      else newCapacity
  end.

Definition newCapacityFor (fb : FastBuffer) (required : Z) : Z :=
  let n := growLoop 64 (if capacity_ fb =? 0 then kStackSize else capacity_ fb) required in
  let n := if kMaxSize <? n then kMaxSize else n in
  if n <? required then required else n.

Section WithAllocator.
(** [std::aligned_alloc] / [_aligned_malloc]: the block for a request, with whatever
    bytes it happens to hold, or [None] for a null pointer. *)
Context (alloc : Z -> option (list byte)).

Definition allocateAligned (size : Z) : option (list byte) := if size =? 0 then None else alloc size.

Definition ensureCapacity (fb : FastBuffer) (required : Z) : outcome :=
  if kMaxSize <? required then Raised length_error fb
  else if required <=? capacity_ fb - readOffset_ fb then Done fb
  else if (required <=? capacity_ fb) && (0 <? readOffset_ fb) then Done (compact fb)
  else
    let fb := compact fb in
    let newCapacity := newCapacityFor fb required in
    match allocateAligned newCapacity with
    | None => Raised bad_alloc fb
    | Some newBuffer =>
        let newBuffer := if 0 <? size_ fb then blit newBuffer 0 (contents fb) else newBuffer in
        let fb := releaseHeap fb in
        Done (mkFB (stackBuffer_ fb) newBuffer (size_ fb) newCapacity (readOffset_ fb) true)
    end.

(** [validateRequestedSize], then the rest of the member. *)
Definition validated (fb : FastBuffer) (requested : Z) (k : outcome) : outcome :=
  if kMaxSize <? requested then Raised length_error fb else k.

(** ** Public members *)

Definition resize (fb : FastBuffer) (newSize : Z) (fill : byte) : outcome :=
  validated fb newSize (
    fb <~ ensureCapacity fb newSize ;;
    fb <~ (if size_ fb <? newSize
           then writeData fb (size_ fb) (replicate (Z.to_nat (newSize - size_ fb)) fill)
           else Done fb) ;;
    Done (setSize fb newSize)).

Definition reserve (fb : FastBuffer) (newCapacity : Z) : outcome :=
  validated fb newCapacity (ensureCapacity fb newCapacity).

Definition push_back (fb : FastBuffer) (b : byte) : outcome :=
  fb <~ ensureCapacity fb (size_ fb + 1) ;;
  fb <~ writeData fb (size_ fb) [b] ;;
  Done (setSize fb (size_ fb + 1)).

Definition pop_back (fb : FastBuffer) : FastBuffer :=
  if 0 <? size_ fb then setSize fb (size_ fb - 1) else fb.

(** The pointer argument of [append] and [assign]: bytes held elsewhere, or a range
    [data() + off .. data() + off + len) of this very buffer. *)
Inductive source :=
  | External (bytes : list byte)
  | Inside (off len : Z).

Definition sourceLen (s : source) : Z :=
  match s with
  | External bytes => zlen bytes
  | Inside _ len => len
  end.

(** The bytes read through the pointer, re-based on [data()] after a reallocation. *)
Definition sourceBytes (fb : FastBuffer) (s : source) : list byte :=
  match s with
  | External bytes => bytes
  | Inside off len => slice (base fb) (readOffset_ fb + off) len
  end.

Definition append (fb : FastBuffer) (src : source) : outcome :=
  if sourceLen src =? 0 then Done fb
  else
    let len := sourceLen src in
    validated fb (u64 (size_ fb + len)) (
      let oldSize := size_ fb in
      fb <~ ensureCapacity fb (u64 (oldSize + len)) ;;
      fb <~ writeData fb oldSize (sourceBytes fb src) ;;
      Done (setSize fb (u64 (oldSize + len)))).

(** [append(size_t count, value_type fill)]. *)
Definition appendFill (fb : FastBuffer) (count : Z) (fill : byte) : outcome :=
  if count =? 0 then Done fb
  else
    validated fb (u64 (size_ fb + count)) (
      let oldSize := size_ fb in
      fb <~ ensureCapacity fb (u64 (oldSize + count)) ;;
      (* memset(data() + oldSize, fill, count) *)
      if zlen (base fb) <? readOffset_ fb + oldSize + count then Undefined
      else
        fb <~ writeData fb oldSize (replicate (Z.to_nat count) fill) ;;
        Done (setSize fb (u64 (oldSize + count)))).

Definition assign (fb : FastBuffer) (src : source) : outcome :=
  if sourceLen src =? 0 then Done (clear fb)
  else
    let len := sourceLen src in
    validated fb len (
      fb <~ ensureCapacity fb len ;;
      fb <~ writeData fb 0 (sourceBytes fb src) ;;
      Done (setSize fb len)).

Definition erase_front (fb : FastBuffer) (len : Z) : FastBuffer :=
  if size_ fb <=? len then clear fb
  else
    let fb := setSize (setOffset fb (readOffset_ fb + len)) (size_ fb - len) in
    if capacity_ fb / 2 <? readOffset_ fb then compact fb else fb.

(** [insert(pos, first, last)], [offset] being [pos - cbegin()]. *)
Definition insert (fb : FastBuffer) (offset : Z) (temp : list byte) : outcome :=
  if size_ fb <? offset then Raised out_of_range fb
  else match temp with
  | [] => Done fb
  | _ =>
      validated fb (size_ fb + zlen temp) (
        fb <~ ensureCapacity fb (size_ fb + zlen temp) ;;
        fb <~ writeData fb (offset + zlen temp)
                (slice (base fb) (readOffset_ fb + offset) (size_ fb - offset)) ;;
        fb <~ writeData fb offset temp ;;
        Done (setSize fb (size_ fb + zlen temp)))
  end.

Definition moveToStack (fb : FastBuffer) : FastBuffer :=
  if negb (usingHeap_ fb) then fb
  else
    let stack := if 0 <? size_ fb then blit (stackBuffer_ fb) 0 (contents fb) else stackBuffer_ fb in
    mkFB stack [] (size_ fb) kStackSize 0 false.

Definition shrink_to_fit (fb : FastBuffer) : outcome :=
  if negb (usingHeap_ fb) then Done fb
  else if size_ fb <=? kStackSize then Done (moveToStack fb)
  else if size_ fb =? capacity_ fb then Done fb
  else match allocateAligned (size_ fb) with
  | None => Raised bad_alloc fb
  | Some newBuffer =>
      (* std::memcpy(newBuffer, heapBuffer_, size_) *)
      let newBuffer := blit newBuffer 0 (slice (heapBuffer_ fb) 0 (size_ fb)) in
      Done (mkFB (stackBuffer_ fb) newBuffer (size_ fb) (size_ fb) (readOffset_ fb) true)
  end.

End WithAllocator.

(** [moveFrom]: the new [*this] and what is left of [other]. *)
Definition moveFrom (this other : FastBuffer) : FastBuffer * FastBuffer :=
  let '(stack, heap, off) :=
    if usingHeap_ other then (stackBuffer_ this, heapBuffer_ other, readOffset_ other)
    else if 0 <? size_ other then
      (blit (stackBuffer_ this) 0 (slice (stackBuffer_ other) (readOffset_ other) (size_ other)),
       heapBuffer_ this, 0)
    else (stackBuffer_ this, heapBuffer_ this, readOffset_ other) in
  let otherHeap := if usingHeap_ other then [] else heapBuffer_ other in
  (mkFB stack heap (size_ other) (capacity_ other) off (usingHeap_ other),
   mkFB (stackBuffer_ other) otherHeap 0 kStackSize 0 false).

(** The move constructor and the move assignment of two distinct objects. *)
Definition moveConstruct (other : FastBuffer) : FastBuffer * FastBuffer := moveFrom emptyBuffer other.
Definition moveAssign (this other : FastBuffer) : FastBuffer * FastBuffer :=
  moveFrom (releaseHeap this) other.

(** [swap] of two distinct objects. *)
Definition swap (this other : FastBuffer) : FastBuffer * FastBuffer :=
  if usingHeap_ this && usingHeap_ other then
    (mkFB (stackBuffer_ this) (heapBuffer_ other) (size_ other) (capacity_ other) (readOffset_ other) true,
     mkFB (stackBuffer_ other) (heapBuffer_ this) (size_ this) (capacity_ this) (readOffset_ this) true)
  else
    let '(tmp, other) := moveConstruct other in
    let '(other, this) := moveAssign other this in
    let '(this, tmp) := moveAssign this tmp in
    (this, other).

(** [operator==]: sizes, then [memcmp]. *)
Definition equal (lhs rhs : FastBuffer) : bool :=
  if negb (size_ lhs =? size_ rhs) then false
  else if size_ lhs =? 0 then true
  else contents lhs =s contents rhs.

(** ** Operation sequences *)

(** The mutators of one object, as calls; moves and [swap], which take a second object, are
    the functions above. *)
Inductive op :=
  | OAppend (s : source)
  | OAppendFill (count : Z) (fill : byte)
  | OAssign (s : source)
  | OInsert (offset : Z) (bytes : list byte)
  | OResize (newSize : Z) (fill : byte)
  | OReserve (newCapacity : Z)
  | OPushBack (b : byte)
  | OPopBack
  | OEraseFront (len : Z)
  | OCompact
  | OClear
  | OReset
  | OShrinkToFit.

Definition call (alloc : Z -> option (list byte)) (fb : FastBuffer) (o : op) : outcome :=
  match o with
  | OAppend s => append alloc fb s
  | OAppendFill n b => appendFill alloc fb n b
  | OAssign s => assign alloc fb s
  | OInsert off l => insert alloc fb off l
  | OResize n b => resize alloc fb n b
  | OReserve n => reserve alloc fb n
  | OPushBack b => push_back alloc fb b
  | OPopBack => Done (pop_back fb)
  | OEraseFront n => Done (erase_front fb n)
  | OCompact => Done (compact fb)
  | OClear => Done (clear fb)
  | OReset => Done (reset fb)
  | OShrinkToFit => shrink_to_fit alloc fb
  end.

(** A program that catches what a call throws and goes on. *)
Fixpoint calls (alloc : Z -> option (list byte)) (fb : FastBuffer) (os : list op) : option FastBuffer :=
  match os with
  | [] => Some fb
  | o :: os =>
      match call alloc fb o with
      | Done fb' | Raised _ fb' => calls alloc fb' os
      | Undefined => None
      end
  end.

(** ** Specification: a byte string *)

Definition specSource (l : list byte) (s : source) : list byte :=
  match s with
  | External bytes => bytes
  | Inside off len => slice l off len
  end.

Definition spec (l : list byte) (o : op) : list byte :=
  match o with
  | OAppend s => l ++ specSource l s
  | OAppendFill n b => l ++ replicate (Z.to_nat n) b
  | OAssign s => specSource l s
  | OInsert off bytes => take (Z.to_nat off) l ++ bytes ++ drop (Z.to_nat off) l
  | OResize n b => take (Z.to_nat n) l ++ replicate (Z.to_nat (n - zlen l)) b
  | OReserve _ | OCompact | OShrinkToFit => l
  | OPushBack b => l ++ [b]
  | OPopBack => take (pred (length l)) l
  | OEraseFront n => drop (Z.to_nat n) l
  | OClear | OReset => []
  end.

(** The number of bytes a call needs room for. *)
Definition demand (l : list byte) (o : op) : Z :=
  match o with
  | OReserve n => n
  | _ => zlen (spec l o)
  end.

(** The exception a call throws whatever the allocator does. *)
Definition rejects (l : list byte) (o : op) : option exn :=
  match o with
  | OInsert off bytes =>
      if zlen l <? off then Some out_of_range
      else if kMaxSize <? demand l o then Some length_error else None
  | _ => if kMaxSize <? demand l o then Some length_error else None
  end.

Definition source_ok (l : list byte) (s : source) : Prop :=
  match s with
  | External bytes => zlen l + zlen bytes < 2 ^ 64
  | Inside off len => 0 <= off /\ 0 <= len /\ off + len <= zlen l
  end.

(** Arguments are [size_t] values, and a pointer into the buffer addresses live bytes. *)
Definition op_ok (l : list byte) (o : op) : Prop :=
  match o with
  | OAppend s | OAssign s => source_ok l s
  | OAppendFill n _ => 0 <= n < 2 ^ 64
  | OInsert off bytes => 0 <= off
  | OResize n _ => 0 <= n
  | OReserve n => 0 <= n
  | OEraseFront n => 0 <= n
  | _ => True
  end.

(** The calls that go wrong: a fill whose count wraps the sum of the sizes, and
    [shrink_to_fit] of a heap buffer too large for the inline array whose read cursor is not
    at the start. *)
Definition hazard (fb : FastBuffer) (o : op) : bool :=
  match o with
  | OAppendFill n _ => 2 ^ 64 <=? size_ fb + n
  | OShrinkToFit => usingHeap_ fb && (0 <? readOffset_ fb) && (kStackSize <? size_ fb)
  | _ => false
  end.

(** How they do: the fill runs outside the storage; the live range of the shrunk buffer ends
    behind its block, unless the block could not be had. *)
Definition misbehaves (alloc : Z -> option (list byte)) (fb : FastBuffer) (o : op) (r : outcome) : Prop :=
  match o with
  | OAppendFill _ _ => r = Undefined
  | OShrinkToFit =>
      (alloc (size_ fb) = None ∧ r = Raised bad_alloc fb) ∨
      ∃ fb', r = Done fb' ∧ size_ fb' = size_ fb ∧ capacity_ fb' < readOffset_ fb' + size_ fb'
  | _ => False
  end.

(** ** Invariant *)

Record wf (fb : FastBuffer) : Prop := mkWf {
  wf_stack : zlen (stackBuffer_ fb) = kStackSize;
  wf_store : capacity_ fb <= zlen (base fb);
  wf_cap : kStackSize <= capacity_ fb <= kMaxSize;
  wf_mode : usingHeap_ fb = false -> capacity_ fb = kStackSize;
  wf_off : 0 <= readOffset_ fb;
  wf_size : 0 <= size_ fb;
  wf_room : readOffset_ fb + size_ fb <= capacity_ fb
}.

(** ** Slices *)

Lemma slice_length b off n : 0 <= off -> 0 <= n -> off + n <= zlen b -> zlen (slice b off n) = n.
Proof. unfold slice, zlen. intros. rewrite length_take, length_drop. lia. Qed.

Lemma slice_0 b n : slice b 0 n = take (Z.to_nat n) b.
Proof. done. Qed.

Lemma slice_empty b off : slice b off 0 = [].
Proof. done. Qed.

Lemma slice_slice b o n o' n' :
  0 <= o -> 0 <= o' -> 0 <= n' -> o' + n' <= n -> slice (slice b o n) o' n' = slice b (o + o') n'.
Proof.
  intros. unfold slice. rewrite skipn_firstn_comm, take_take, drop_drop. f_equal; [lia|f_equal; lia].
Qed.

Lemma slice_split b o n m :
  0 <= o -> 0 <= n -> 0 <= m -> slice b o (n + m) = slice b o n ++ slice b (o + n) m.
Proof.
  intros. unfold slice. rewrite Z2Nat.inj_add by lia.
  rewrite Z2Nat.inj_add, <- drop_drop by lia.
  generalize (drop (Z.to_nat o) b) as l. intros l.
  rewrite <- (take_drop (Z.to_nat n) l) at 1.
  destruct (Nat.le_gt_cases (length l) (Z.to_nat n)) as [Hle|Hgt].
  - rewrite (drop_ge l) by lia. rewrite app_nil_r, take_take, Nat.min_r by lia. by rewrite take_nil, app_nil_r.
  - rewrite take_app, length_take, take_take.
    f_equal; [f_equal; lia|f_equal; lia].
Qed.

Lemma zlen_blit (b w : list byte) o :
  0 <= o -> o + zlen w <= zlen b -> zlen (blit b (Z.to_nat o) w) = zlen b.
Proof. unfold zlen. intros. rewrite length_blit; lia. Qed.

(** What a write leaves below it, and what it puts there. *)
Lemma slice_blit_below b w a o n :
  0 <= o -> 0 <= n -> o + n <= a -> a <= zlen b ->
  slice (blit b (Z.to_nat a) w) o n = slice b o n.
Proof.
  intros. unfold slice, blit, zlen in *.
  rewrite skipn_app, take_app_le.
  - rewrite skipn_firstn_comm, take_take. f_equal. lia.
  - rewrite length_drop, length_take. lia.
Qed.

Lemma slice_blit_at b w a :
  0 <= a -> a + zlen w <= zlen b -> slice (blit b (Z.to_nat a) w) a (zlen w) = w.
Proof.
  intros. unfold slice, blit, zlen in *.
  rewrite (drop_app_exact (take _ _)) by (rewrite length_take; lia).
  apply take_app_exact. lia.
Qed.

Lemma slice_blit_above b w a o n :
  0 <= a -> a + zlen w <= o -> 0 <= n -> o <= zlen b ->
  slice (blit b (Z.to_nat a) w) o n = slice b o n.
Proof.
  intros. unfold slice, blit, zlen in *. f_equal.
  rewrite app_assoc, drop_app_ge by (rewrite length_app, length_take; lia).
  rewrite drop_drop. f_equal. rewrite length_app, length_take. lia.
Qed.

(** ** Field accessors and the invariant *)

Lemma base_setBase fb b : base (setBase fb b) = b.
Proof. by unfold base, setBase; destruct (usingHeap_ fb) eqn:E; simpl; rewrite ?E. Qed.

Lemma setBase_fields fb b :
  size_ (setBase fb b) = size_ fb ∧ capacity_ (setBase fb b) = capacity_ fb ∧
  readOffset_ (setBase fb b) = readOffset_ fb ∧ usingHeap_ (setBase fb b) = usingHeap_ fb.
Proof. by unfold setBase; destruct (usingHeap_ fb). Qed.

Lemma contents_setSize fb n : contents (setSize fb n) = slice (base fb) (readOffset_ fb) n.
Proof. done. Qed.

Lemma contents_written fb b n :
  contents (setSize (setBase fb b) n) = slice b (readOffset_ fb) n.
Proof.
  rewrite contents_setSize, base_setBase. by destruct (setBase_fields fb b) as (_ & _ & -> & _).
Qed.

Lemma zlen_contents fb : wf fb -> zlen (contents fb) = size_ fb.
Proof. intros []. apply slice_length; lia. Qed.

Lemma wf_setSize fb n : wf fb -> 0 <= n -> readOffset_ fb + n <= capacity_ fb -> wf (setSize fb n).
Proof. intros [] ??. by constructor. Qed.

Lemma wf_setOffset fb o : wf fb -> 0 <= o -> o + size_ fb <= capacity_ fb -> wf (setOffset fb o).
Proof. intros [] ??. by constructor. Qed.

Lemma wf_setBase fb b : wf fb -> zlen b = zlen (base fb) -> wf (setBase fb b).
Proof.
  intros [] Hb. destruct (setBase_fields fb b) as (E1 & E2 & E3 & E4).
  constructor; rewrite ?E1, ?E2, ?E3, ?E4, ?base_setBase; auto; try lia.
  unfold setBase, base in *. destruct (usingHeap_ fb); simpl; lia.
Qed.

Lemma wf_clear fb : wf fb -> wf (clear fb).
Proof. intros []. unfold clear. constructor; simpl; auto; lia. Qed.

Lemma wf_empty : wf emptyBuffer.
Proof. constructor; try decide_closed. Qed.

Lemma wf_releaseHeap fb : wf fb -> size_ fb <= kStackSize -> wf (releaseHeap fb).
Proof.
  intros H ?. unfold releaseHeap. destruct (usingHeap_ fb) eqn:E; [|done]. destruct H.
  constructor; simpl; unfold base; simpl; auto; unfold kStackSize, kMaxSize in *; lia.
Qed.

#[export] Hint Resolve wf_setSize wf_setOffset wf_setBase wf_clear wf_empty : fastnet.

(** A write within the capacity happens, keeps the invariant, and changes only the bytes. *)
Lemma writeData_done fb a w :
  wf fb -> 0 <= a -> readOffset_ fb + a + zlen w <= capacity_ fb ->
  writeData fb a w = Done (setBase fb (blit (base fb) (Z.to_nat (readOffset_ fb + a)) w)) ∧
  wf (setBase fb (blit (base fb) (Z.to_nat (readOffset_ fb + a)) w)).
Proof.
  intros H Ha Hw. pose proof (wf_store _ H). pose proof (wf_off _ H).
  unfold writeData. rewrite (proj2 (Z.ltb_ge _ _)) by lia. split; [done|].
  apply wf_setBase; [done|]. apply zlen_blit; lia.
Qed.

Lemma compact_spec fb :
  wf fb -> wf (compact fb) ∧ contents (compact fb) = contents fb ∧ size_ (compact fb) = size_ fb ∧
    capacity_ (compact fb) = capacity_ fb ∧ readOffset_ (compact fb) = 0.
Proof.
  intros H. pose proof H as []. unfold compact.
  destruct (Z.eqb_spec (readOffset_ fb) 0) as [E|Hne]; simpl.
  { split_and!; auto; [apply wf_setOffset; auto; lia|]. unfold contents. simpl. by rewrite E. }
  destruct (Z.eqb_spec (size_ fb) 0) as [E|Hs].
  { split_and!; auto; [apply wf_setOffset; auto; lia|]. unfold contents. simpl. by rewrite E. }
  destruct (setBase_fields fb (blit (base fb) 0 (slice (base fb) (readOffset_ fb) (size_ fb))))
    as (E1 & E2 & E3 & E4).
  assert (Hl : zlen (slice (base fb) (readOffset_ fb) (size_ fb)) = size_ fb)
    by (apply slice_length; lia).
  split_and!; auto.
  - apply wf_setOffset; rewrite ?E1, ?E2; try lia.
    apply wf_setBase; [done|]. apply (zlen_blit _ _ 0); rewrite ?Hl; lia.
  - unfold contents at 1. simpl. rewrite E1. unfold base at 1. simpl. fold (base (setBase fb (blit (base fb) 0 (slice (base fb) (readOffset_ fb) (size_ fb))))).
    rewrite base_setBase. rewrite <- Hl at 2. apply (slice_blit_at _ _ 0); rewrite ?Hl; lia.
Qed.

(** ** Growth *)

Lemma growLoop_spec fuel c r :
  0 < c <= kMaxSize -> r <= kMaxSize -> kMaxSize <= c * 2 ^ Z.of_nat fuel ->
  r <= growLoop fuel c r <= kMaxSize ∧ c <= growLoop fuel c r.
Proof.
  revert c. induction fuel as [|fuel IH]; intros c Hc Hr Hf; simpl growLoop.
  - simpl in Hf. lia.
  - destruct (Z.ltb_spec c r); [|lia].
    rewrite Nat2Z.inj_succ, Z.pow_succ_r in Hf by lia.
    assert (0 < 2 ^ Z.of_nat fuel) by lia.
    destruct (Z.leb_spec c (kMaxSize / 2)).
    + destruct (IH (c * 2)); unfold kMaxSize in *; zlia.
    + destruct (IH kMaxSize); [unfold kMaxSize; lia|done| |unfold kMaxSize in *; lia].
      unfold kMaxSize. nia.
Qed.

Lemma newCapacityFor_spec fb r :
  wf fb -> r <= kMaxSize ->
  r <= newCapacityFor fb r ∧ capacity_ fb <= newCapacityFor fb r <= kMaxSize.
Proof.
  intros [] Hr. unfold newCapacityFor.
  rewrite (proj2 (Z.eqb_neq _ _)) by (unfold kStackSize in *; lia).
  destruct (growLoop_spec 64 (capacity_ fb) r); [unfold kStackSize in *; lia|done| |].
  { transitivity (4096 * 2 ^ Z.of_nat 64); [by vm_compute|].
    apply Z.mul_le_mono_nonneg_r; [lia|]. unfold kStackSize in *; lia. }
  rewrite (proj2 (Z.ltb_ge kMaxSize _)), (proj2 (Z.ltb_ge _ r)) by lia. lia.
Qed.

(** ** The operations refine the byte string *)

Section Refinement.
Context (alloc : Z -> option (list byte)).
Context (alloc_size : forall n b, alloc n = Some b -> n <= zlen b).

(** A call that ends with the given contents, or fails for want of memory with the
    contents it started from. *)
Definition achieves (l l' : list byte) (o : outcome) : Prop :=
  (∃ fb', o = Done fb' ∧ wf fb' ∧ contents fb' = l') ∨
  (∃ fb' n, o = Raised bad_alloc fb' ∧ wf fb' ∧ contents fb' = l ∧ alloc n = None).

Lemma achieves_done l l' fb : wf fb -> contents fb = l' -> achieves l l' (Done fb).
Proof. intros. left. eauto. Qed.

(** After [ensureCapacity] either there is room, or the allocator has failed. *)
Lemma ensureCapacity_then fb r l' k :
  wf fb -> 0 <= r <= kMaxSize ->
  (∀ fb', wf fb' -> contents fb' = contents fb -> size_ fb' = size_ fb ->
     readOffset_ fb' + r <= capacity_ fb' -> achieves (contents fb) l' (k fb')) ->
  achieves (contents fb) l' (andThen (ensureCapacity alloc fb r) k).
Proof.
  intros H Hr Hk. pose proof H as []. unfold ensureCapacity.
  rewrite (proj2 (Z.ltb_ge kMaxSize _)) by lia.
  destruct (Z.leb_spec r (capacity_ fb - readOffset_ fb)); [apply Hk; auto; lia|].
  destruct (compact_spec fb H) as (Hw & Hc & Hs & Hcap & Ho).
  destruct (_ && _) eqn:E.
  { apply andb_prop in E as [E%Z.leb_le _]. apply Hk; auto; lia. }
  destruct (newCapacityFor_spec (compact fb) r Hw) as [Hn1 Hn2]; [lia|].
  set (fc := compact fb) in *. unfold allocateAligned.
  rewrite (proj2 (Z.eqb_neq _ 0)) by (unfold kStackSize in *; lia).
  destruct (alloc _) as [b|] eqn:Ea; [|right; eauto 10].
  apply alloc_size in Ea. pose proof (zlen_contents _ Hw) as Hl.
  pose proof (wf_off _ Hw). pose proof (wf_size _ Hw). pose proof (wf_room _ Hw).
  set (nb := if 0 <? size_ fc then blit b 0 (contents fc) else b).
  assert (Hnb : zlen nb = zlen b ∧ slice nb 0 (size_ fc) = contents fc).
  { unfold nb. destruct (Z.ltb_spec 0 (size_ fc)).
    - rewrite <- Hl. split; [apply (zlen_blit _ _ 0)|apply (slice_blit_at _ _ 0)]; lia.
    - split; [done|]. unfold contents. replace (size_ fc) with 0 by lia. done. }
  destruct Hnb as [Hz Hsl].
  assert (Hst : stackBuffer_ (releaseHeap fc) = stackBuffer_ fc ∧ size_ (releaseHeap fc) = size_ fc
                ∧ readOffset_ (releaseHeap fc) = 0)
    by (unfold releaseHeap; destruct (usingHeap_ fc); auto).
  destruct Hst as (-> & -> & ->). simpl andThen. apply Hk; simpl; try lia.
  - constructor; simpl; try lia; [apply (wf_stack _ Hw)|unfold base; simpl; lia].
  - unfold contents at 1, base. simpl. congruence.
Qed.

Lemma ensureCapacity_large fb r : kMaxSize < r -> ensureCapacity alloc fb r = Raised length_error fb.
Proof. intros. unfold ensureCapacity. by rewrite (proj2 (Z.ltb_lt _ _)). Qed.

Lemma validated_large fb r k : kMaxSize < r -> validated fb r k = Raised length_error fb.
Proof. intros. unfold validated. by rewrite (proj2 (Z.ltb_lt _ _)). Qed.

Lemma validated_small fb r k : r <= kMaxSize -> validated fb r k = k.
Proof. intros. unfold validated. by rewrite (proj2 (Z.ltb_ge _ _)). Qed.

(** Writing right behind the contents and enlarging [size_] appends. *)
Lemma write_end_achieves fb l w n :
  wf fb -> n = size_ fb + zlen w -> readOffset_ fb + n <= capacity_ fb ->
  achieves l (contents fb ++ w) (andThen (writeData fb (size_ fb) w) (fun fb => Done (setSize fb n))).
Proof.
  intros H -> Hn. pose proof H as []. pose proof (zlen_nonneg w).
  destruct (writeData_done fb (size_ fb) w) as [-> Hw]; [done|lia|lia|]. simpl.
  destruct (setBase_fields fb (blit (base fb) (Z.to_nat (readOffset_ fb + size_ fb)) w)) as (E1&E2&E3&_).
  apply achieves_done; [apply wf_setSize; rewrite ?E2, ?E3; auto; lia|].
  rewrite contents_written, slice_split by lia. f_equal.
  - apply slice_blit_below; lia.
  - apply slice_blit_at; lia.
Qed.

Lemma sourceBytes_spec fb s :
  wf fb -> source_ok (contents fb) s ->
  sourceBytes fb s = specSource (contents fb) s ∧ zlen (specSource (contents fb) s) = sourceLen s.
Proof.
  intros H Hs. pose proof (zlen_contents _ H) as Hl. pose proof H as [].
  destruct s as [bytes|off len]; [done|]. simpl in *. rewrite Hl in Hs.
  split; [|apply slice_length; lia]. unfold contents. rewrite slice_slice; lia || done.
Qed.

(** The sum of the sizes of an append does not wrap. *)
Lemma source_sum fb s :
  wf fb -> source_ok (contents fb) s ->
  0 <= sourceLen s ∧ u64 (size_ fb + sourceLen s) = size_ fb + sourceLen s.
Proof.
  intros H Hs. pose proof (zlen_contents _ H) as Hl. pose proof H as [].
  assert (0 <= sourceLen s) by (destruct s; simpl in *; [apply zlen_nonneg|lia]).
  split; [done|]. unfold u64. apply Z.mod_small. unfold kMaxSize in *.
  destruct s; simpl in *; rewrite Hl in Hs; lia.
Qed.

Lemma append_refines fb s :
  wf fb -> source_ok (contents fb) s ->
  if kMaxSize <? zlen (contents fb ++ specSource (contents fb) s)
  then append alloc fb s = Raised length_error fb
  else achieves (contents fb) (contents fb ++ specSource (contents fb) s) (append alloc fb s).
Proof.
  intros H Hs. pose proof (zlen_contents _ H) as Hl. pose proof H as [].
  destruct (sourceBytes_spec fb s H Hs) as [_ Hz]. destruct (source_sum fb s H Hs) as [Hp Hu].
  rewrite zlen_app, Hl, Hz. unfold append. rewrite Hu. destruct (Z.eqb_spec (sourceLen s) 0) as [E|E].
  - rewrite (proj2 (Z.ltb_ge _ _)) by lia. apply achieves_done; [done|].
    rewrite E in Hz. destruct (specSource _ _); [by rewrite app_nil_r|done].
  - destruct (Z.ltb_spec kMaxSize (size_ fb + sourceLen s)); [by apply validated_large|].
    rewrite validated_small by lia. apply ensureCapacity_then; [done|lia|].
    intros fb' Hw Hc Hsz Hroom. rewrite <- Hsz in *. rewrite <- Hc in Hs |- *.
    destruct (sourceBytes_spec fb' s Hw Hs) as [-> Hz']. apply write_end_achieves; auto; lia.
Qed.

Lemma appendFill_refines fb n b :
  wf fb -> 0 <= n -> zlen (contents fb) + n < 2 ^ 64 ->
  if kMaxSize <? zlen (contents fb ++ replicate (Z.to_nat n) b)
  then appendFill alloc fb n b = Raised length_error fb
  else achieves (contents fb) (contents fb ++ replicate (Z.to_nat n) b) (appendFill alloc fb n b).
Proof.
  intros H Hn Hs. pose proof (zlen_contents _ H) as Hl. pose proof H as []. rewrite Hl in Hs.
  assert (Hr : zlen (replicate (Z.to_nat n) b) = n) by (unfold zlen; rewrite length_replicate; lia).
  assert (Hu : u64 (size_ fb + n) = size_ fb + n) by (apply Z.mod_small; lia).
  rewrite zlen_app, Hl, Hr. unfold appendFill. rewrite Hu. destruct (Z.eqb_spec n 0) as [->|E].
  - rewrite (proj2 (Z.ltb_ge _ _)) by lia. apply achieves_done; [done|]. by rewrite app_nil_r.
  - destruct (Z.ltb_spec kMaxSize (size_ fb + n)); [by apply validated_large|].
    rewrite validated_small by lia. apply ensureCapacity_then; [done|lia|].
    intros fb' Hw Hc Hsz Hroom. rewrite <- Hsz, <- Hc. pose proof (wf_store _ Hw).
    rewrite (proj2 (Z.ltb_ge _ _)) by lia. apply write_end_achieves; auto; lia.
Qed.

Lemma assign_refines fb s :
  wf fb -> source_ok (contents fb) s ->
  if kMaxSize <? zlen (specSource (contents fb) s)
  then assign alloc fb s = Raised length_error fb
  else achieves (contents fb) (specSource (contents fb) s) (assign alloc fb s).
Proof.
  intros H Hs. destruct (sourceBytes_spec fb s H Hs) as [_ Hz]. destruct (source_sum fb s H Hs) as [Hp _].
  rewrite Hz. unfold assign. destruct (Z.eqb_spec (sourceLen s) 0) as [E|E].
  - rewrite E. apply achieves_done; [auto with fastnet|]. rewrite E in Hz.
    by destruct (specSource _ _).
  - destruct (Z.ltb_spec kMaxSize (sourceLen s)); [by apply validated_large|].
    rewrite validated_small by lia. apply ensureCapacity_then; [done|lia|].
    intros fb' Hw Hc Hsz Hroom. rewrite <- Hc in Hs |- *.
    destruct (sourceBytes_spec fb' s Hw Hs) as [-> Hz']. set (w := specSource (contents fb') s) in *.
    destruct (writeData_done fb' 0 w) as [-> Hw']; [done|lia|lia|]. pose proof Hw as []. simpl.
    destruct (setBase_fields fb' (blit (base fb') (Z.to_nat (readOffset_ fb' + 0)) w)) as (E1&E2&E3&_).
    apply achieves_done; [apply wf_setSize; rewrite ?E2, ?E3; auto; lia|].
    rewrite contents_written, <- Hz', Z.add_0_r. apply slice_blit_at; lia.
Qed.

(** A write does not change [size_]. *)
Lemma writeData_size fb a w (f : FastBuffer -> Z -> outcome) :
  andThen (writeData fb a w) (fun fb1 => f fb1 (size_ fb1)) =
  andThen (writeData fb a w) (fun fb1 => f fb1 (size_ fb)).
Proof.
  unfold writeData. destruct (_ <? _); [done|]. simpl.
  by destruct (setBase_fields fb (blit (base fb) (Z.to_nat (readOffset_ fb + a)) w)) as (-> & _).
Qed.

(** The two writes of [insert]: the tail moves up, then the new bytes go into the gap. *)
Lemma insert_writes fb off t :
  wf fb -> 0 <= off <= size_ fb -> readOffset_ fb + (size_ fb + zlen t) <= capacity_ fb ->
  achieves (contents fb) (spec (contents fb) (OInsert off t))
    (fb1 <~ writeData fb (off + zlen t) (slice (base fb) (readOffset_ fb + off) (size_ fb - off)) ;;
     fb2 <~ writeData fb1 off t ;; Done (setSize fb2 (size_ fb2 + zlen t))).
Proof.
  intros H Hoff Hroom. pose proof H as []. pose proof (zlen_nonneg t).
  set (tail := slice _ _ _). assert (Ht : zlen tail = size_ fb - off) by (apply slice_length; lia).
  destruct (writeData_done fb (off + zlen t) tail) as [-> Hw1]; [done|lia|lia|]. simpl andThen.
  set (b1 := blit _ _ tail) in *. destruct (setBase_fields fb b1) as (E1 & E2 & E3 & _).
  destruct (writeData_done (setBase fb b1) off t) as [-> Hw2]; [done|lia|rewrite E2, E3; lia|].
  rewrite E3, base_setBase in *. set (b2 := blit b1 _ t) in *. simpl andThen.
  destruct (setBase_fields (setBase fb b1) b2) as (F1 & F2 & F3 & _). rewrite E1, E2, E3 in *.
  assert (Hb1 : zlen b1 = zlen (base fb)) by (apply zlen_blit; lia).
  apply achieves_done; [apply wf_setSize; rewrite ?F1, ?F2, ?F3; auto; lia|].
  rewrite F1, contents_written, E3. simpl.
  replace (size_ fb + zlen t) with (off + (zlen t + (size_ fb - off))) by lia.
  rewrite slice_split, slice_split by lia. f_equal; [|f_equal].
  - unfold b2. rewrite slice_blit_below by lia. unfold b1. rewrite slice_blit_below by lia.
    rewrite <- slice_0. unfold contents. rewrite slice_slice; f_equal; lia.
  - unfold b2. apply slice_blit_at; lia.
  - unfold b2. rewrite slice_blit_above by lia.
    unfold b1. rewrite <- Ht. replace (readOffset_ fb + off + zlen t) with (readOffset_ fb + (off + zlen t)) by lia.
    rewrite slice_blit_at by lia. unfold tail, contents, slice.
    rewrite skipn_firstn_comm, drop_drop. f_equal; [lia|f_equal; lia].
Qed.

Lemma push_back_refines fb b :
  wf fb ->
  if kMaxSize <? zlen (contents fb ++ [b]) then push_back alloc fb b = Raised length_error fb
  else achieves (contents fb) (contents fb ++ [b]) (push_back alloc fb b).
Proof.
  intros H. pose proof (zlen_contents _ H) as Hl. pose proof H as [].
  rewrite zlen_app, Hl. change (zlen [b]) with 1. unfold push_back.
  destruct (Z.ltb_spec kMaxSize (size_ fb + 1)); [by rewrite ensureCapacity_large|].
  apply ensureCapacity_then; [done|lia|]. intros fb' Hw Hc Hsz Hroom. rewrite <- Hc.
  rewrite (writeData_size _ _ _ (fun fb n => Done (setSize fb (n + 1)))).
  apply write_end_achieves; auto. lia.
Qed.

Lemma resize_refines fb n b :
  wf fb -> 0 <= n ->
  if kMaxSize <? zlen (spec (contents fb) (OResize n b)) then resize alloc fb n b = Raised length_error fb
  else achieves (contents fb) (spec (contents fb) (OResize n b)) (resize alloc fb n b).
Proof.
  intros H Hn. pose proof (zlen_contents _ H) as Hl. pose proof H as [].
  assert (Hz : zlen (spec (contents fb) (OResize n b)) = n).
  { unfold zlen in *. simpl. rewrite length_app, length_take, length_replicate. unfold zlen. lia. }
  rewrite Hz. unfold resize.
  destruct (Z.ltb_spec kMaxSize n); [by apply validated_large|].
  rewrite validated_small by lia. apply ensureCapacity_then; [done|lia|].
  intros fb' Hw Hc Hsz Hroom. rewrite <- Hc in *. simpl spec. rewrite Hl, <- Hsz. rewrite <- Hsz in Hl.
  destruct (Z.ltb_spec (size_ fb') n).
  - rewrite take_ge by (unfold zlen in *; lia).
    apply write_end_achieves; auto; unfold zlen; rewrite length_replicate; lia.
  - simpl. pose proof (wf_size _ Hw).
    apply achieves_done; [apply wf_setSize; auto; lia|].
    rewrite (Z2Nat.nonpos (n - _)), app_nil_r by lia.
    rewrite contents_setSize. unfold contents, slice. rewrite take_take. f_equal. lia.
Qed.

Lemma insert_refines fb off t :
  wf fb -> 0 <= off ->
  if zlen (contents fb) <? off then insert alloc fb off t = Raised out_of_range fb
  else if kMaxSize <? zlen (spec (contents fb) (OInsert off t))
  then insert alloc fb off t = Raised length_error fb
  else achieves (contents fb) (spec (contents fb) (OInsert off t)) (insert alloc fb off t).
Proof.
  intros H Hoff. pose proof (zlen_contents _ H) as Hl. pose proof H as [].
  assert (Hz : zlen (spec (contents fb) (OInsert off t)) = size_ fb + zlen t).
  { simpl. unfold zlen in *. rewrite !length_app, length_take, length_drop. lia. }
  rewrite Hz, Hl. unfold insert. destruct (Z.ltb_spec (size_ fb) off); [done|].
  pose proof (zlen_nonneg t). destruct t as [|b t'] eqn:Et.
  { change (zlen []) with 0. rewrite (proj2 (Z.ltb_ge _ _)) by lia.
    apply achieves_done; [done|]. simpl. by rewrite take_drop. }
  rewrite <- Et in *. clear Et.
  destruct (Z.ltb_spec kMaxSize (size_ fb + zlen t)); [by apply validated_large|].
  rewrite validated_small by lia. apply ensureCapacity_then; [done|lia|].
  intros fb' Hw Hc Hsz Hroom. rewrite <- Hc. rewrite <- Hsz in *. by apply insert_writes.
Qed.

Lemma pop_back_refines fb :
  wf fb -> wf (pop_back fb) ∧ contents (pop_back fb) = spec (contents fb) OPopBack.
Proof.
  intros H. pose proof (zlen_contents _ H) as Hl. pose proof H as []. unfold pop_back. simpl.
  destruct (Z.ltb_spec 0 (size_ fb)).
  - split; [apply wf_setSize; auto; lia|]. rewrite contents_setSize.
    replace (pred (length (contents fb))) with (Z.to_nat (size_ fb - 1)) by (unfold zlen in Hl; lia).
    unfold contents, slice. rewrite take_take. f_equal. lia.
  - split; [done|]. destruct (contents fb) as [|x l] eqn:E; [done|]. rewrite zlen_cons in Hl.
    pose proof (zlen_nonneg l). lia.
Qed.

Lemma erase_front_refines fb n :
  wf fb -> 0 <= n -> wf (erase_front fb n) ∧ contents (erase_front fb n) = drop (Z.to_nat n) (contents fb).
Proof.
  intros H Hn. pose proof (zlen_contents _ H) as Hl. pose proof H as []. unfold erase_front.
  destruct (Z.leb_spec (size_ fb) n).
  - split; [auto with fastnet|]. rewrite drop_ge by (unfold zlen in Hl; lia). done.
  - set (fe := setSize _ _).
    assert (He : wf fe) by (constructor; simpl; auto; lia).
    assert (Hc : contents fe = drop (Z.to_nat n) (contents fb)).
    { unfold contents, slice at 2. rewrite skipn_firstn_comm, drop_drop. unfold slice. simpl.
      unfold base. simpl. f_equal; [lia|f_equal; lia]. }
    destruct (_ <? _); [|done]. destruct (compact_spec fe He) as (? & -> & _). done.
Qed.

Lemma reset_refines fb : wf fb -> wf (reset fb) ∧ contents (reset fb) = [].
Proof.
  intros H. split; [|by unfold reset, releaseHeap, clear; simpl; destruct (usingHeap_ fb)].
  apply wf_releaseHeap; [auto with fastnet|]. done.
Qed.

Lemma demand_small fb o :
  wf fb -> op_ok (contents fb) o ->
  (match o with OPopBack | OCompact | OClear | OReset | OShrinkToFit | OEraseFront _ => True | _ => False end) ->
  (kMaxSize <? demand (contents fb) o) = false.
Proof.
  intros H Ho Hk. pose proof (zlen_contents _ H) as Hl. pose proof H as []. apply Z.ltb_ge.
  destruct o; try done; simpl; unfold zlen in *; rewrite ?length_take, ?length_drop; simpl; lia.
Qed.

(** [shrink_to_fit] never exceeds its storage, and keeps the contents when the read cursor
    is at the start or the bytes fit the inline array. *)
Lemma shrink_refines fb :
  wf fb -> hazard fb OShrinkToFit = false ->
  achieves (contents fb) (contents fb) (shrink_to_fit alloc fb).
Proof.
  intros H Hro. cbn [hazard] in Hro. pose proof (zlen_contents _ H) as Hl. pose proof H as []. unfold shrink_to_fit.
  destruct (usingHeap_ fb) eqn:Eh; simpl; [|by apply achieves_done].
  destruct (Z.leb_spec (size_ fb) kStackSize).
  - apply achieves_done.
    + unfold moveToStack. rewrite Eh. simpl. unfold kStackSize, kMaxSize in *.
      assert (Hz : zlen (if 0 <? size_ fb then blit (stackBuffer_ fb) 0 (contents fb) else stackBuffer_ fb) = 4096)
        by (destruct (0 <? size_ fb); [rewrite (zlen_blit _ _ 0)|]; lia).
      constructor; unfold base; simpl; auto; unfold kStackSize, kMaxSize; lia.
    + unfold moveToStack. rewrite Eh. simpl. unfold contents at 1, base. simpl.
      destruct (Z.ltb_spec 0 (size_ fb)).
      * rewrite <- Hl at 1. apply (slice_blit_at _ _ 0); lia.
      * unfold contents. replace (size_ fb) with 0 by lia. done.
  - destruct (Z.eqb_spec (size_ fb) (capacity_ fb)); [by apply achieves_done|].
    unfold allocateAligned. rewrite (proj2 (Z.eqb_neq _ _)) by (unfold kStackSize in *; lia).
    destruct (alloc (size_ fb)) as [b|] eqn:E; [|right; eauto 10]. apply alloc_size in E.
    cbn [andb] in Hro. assert (Hro0 : readOffset_ fb = 0) by (apply andb_false_iff in Hro as [?%Z.ltb_ge|?%Z.ltb_ge]; lia).
    clear Hro. rename Hro0 into Hro.
    assert (Hb : base fb = heapBuffer_ fb) by (unfold base; by rewrite Eh).
    assert (Hc : slice (heapBuffer_ fb) 0 (size_ fb) = contents fb) by (unfold contents; congruence).
    rewrite Hc. apply achieves_done.
    + constructor; simpl; rewrite ?Hro; auto; try lia. unfold base. simpl. rewrite (zlen_blit _ _ 0); lia.
    + unfold contents at 1, base. simpl. rewrite Hro, <- Hl. apply (slice_blit_at _ _ 0); lia.
Qed.

Lemma call_refines fb o :
  wf fb -> op_ok (contents fb) o -> hazard fb o = false ->
  match rejects (contents fb) o with
  | Some e => call alloc fb o = Raised e fb
  | None => achieves (contents fb) (spec (contents fb) o) (call alloc fb o)
  end.
Proof.
  intros H Ho Hz. unfold rejects. pose proof (zlen_contents _ H) as Hl.
  destruct o as [s|n b|s|off t|n b|n|b| |n| | | |]; try (rewrite demand_small by done); simpl in *.
  - pose proof (append_refines fb s H Ho). by destruct (_ <? _).
  - apply Z.leb_gt in Hz. pose proof (appendFill_refines fb n b H (proj1 Ho) ltac:(lia)). by destruct (_ <? _).
  - pose proof (assign_refines fb s H Ho). by destruct (_ <? _).
  - pose proof (insert_refines fb off t H Ho) as G. simpl in G. by repeat destruct (_ <? _).
  - pose proof (resize_refines fb n b H Ho) as G. simpl in G. by destruct (_ <? _).
  - unfold reserve. destruct (Z.ltb_spec kMaxSize n); [by apply validated_large|].
    rewrite validated_small by done. pose proof (ensureCapacity_then fb n (contents fb) Done) as G.
    destruct (ensureCapacity alloc fb n); apply G; auto; try lia; intros; by apply achieves_done.
  - pose proof (push_back_refines fb b H). by destruct (_ <? _).
  - destruct (pop_back_refines fb H). by apply achieves_done.
  - destruct (erase_front_refines fb n H Ho). by apply achieves_done.
  - destruct (compact_spec fb H) as (? & ? & _). by apply achieves_done.
  - apply achieves_done; [auto with fastnet|done].
  - destruct (reset_refines fb H). by apply achieves_done.
  - by apply shrink_refines.
Qed.

End Refinement.

(** ** Sequences of calls *)

Definition specStep (l : list byte) (o : op) : list byte :=
  match rejects l o with Some _ => l | None => spec l o end.

(** The calls whose contents alone show that they do not go wrong. *)
Definition harmless (l : list byte) (o : op) : Prop :=
  match o with
  | OAppendFill n _ => zlen l + n < 2 ^ 64
  | OShrinkToFit => zlen l <= kStackSize
  | _ => True
  end.

Fixpoint ops_ok (l : list byte) (os : list op) : Prop :=
  match os with
  | [] => True
  | o :: os => op_ok l o /\ harmless l o /\ ops_ok (specStep l o) os
  end.

Lemma harmless_hazard fb o : wf fb -> harmless (contents fb) o -> hazard fb o = false.
Proof.
  intros H. pose proof (zlen_contents _ H) as Hl. destruct o; simpl; rewrite ?Hl; try done; intros.
  - by apply Z.leb_gt.
  - rewrite (proj2 (Z.ltb_ge kStackSize _)) by done. by rewrite andb_false_r.
Qed.

Lemma calls_refine alloc os fb :
  (∀ n, ∃ b, alloc n = Some b ∧ n <= zlen b) -> wf fb -> ops_ok (contents fb) os ->
  ∃ fb', calls alloc fb os = Some fb' ∧ wf fb' ∧ contents fb' = fold_left specStep os (contents fb).
Proof.
  intros Ha. revert fb. induction os as [|o os IH]; intros fb H Hos; simpl; [by eauto|].
  destruct Hos as (Ho & Hh & Hos).
  assert (Hs : ∀ n b, alloc n = Some b -> n <= zlen b)
    by (intros n b E; destruct (Ha n) as (b' & E' & ?); congruence).
  pose proof (call_refines alloc Hs fb o H Ho (harmless_hazard fb o H Hh)) as G. unfold specStep in *.
  destruct (rejects (contents fb) o); [rewrite G; by apply IH|].
  destruct G as [(fb' & -> & Hw & Hc)|(fb' & n & _ & _ & _ & E)].
  - rewrite <- Hc in *. by apply IH.
  - destruct (Ha n) as (? & ? & ?). congruence.
Qed.

(** ** shrink_to_fit, moves and swap *)

(** The block [shrink_to_fit] installs when the read cursor is not at the start. *)
Lemma shrink_shifted alloc fb b :
  wf fb -> usingHeap_ fb = true -> kStackSize < size_ fb -> 0 < readOffset_ fb ->
  alloc (size_ fb) = Some b -> size_ fb <= zlen b ->
  shrink_to_fit alloc fb =
    Done (mkFB (stackBuffer_ fb) (blit b 0 (slice (heapBuffer_ fb) 0 (size_ fb)))
            (size_ fb) (size_ fb) (readOffset_ fb) true).
Proof.
  intros [] Hh Hs Hr E Hb. unfold shrink_to_fit, allocateAligned. rewrite Hh. simpl.
  rewrite (proj2 (Z.leb_gt _ _)), (proj2 (Z.eqb_neq _ _)), (proj2 (Z.eqb_neq _ _)), E
    by (unfold kStackSize in *; lia). done.
Qed.

Lemma moveFrom_spec this other :
  zlen (stackBuffer_ this) = kStackSize -> wf other ->
  wf (moveFrom this other).1 ∧ contents (moveFrom this other).1 = contents other ∧
  wf (moveFrom this other).2 ∧ contents (moveFrom this other).2 = [].
Proof.
  intros Hs H. pose proof (zlen_contents _ H) as Hl. pose proof H as [].
  assert (H2 : ∀ h, wf (mkFB (stackBuffer_ other) h 0 kStackSize 0 false)).
  { intros h. constructor; unfold base; simpl; auto; unfold kStackSize, kMaxSize in *; lia. }
  unfold moveFrom. destruct (usingHeap_ other) eqn:E.
  - simpl. split_and!; auto.
    + constructor; unfold base in *; rewrite ?E in *; simpl; auto.
    + unfold contents, base. simpl. by rewrite E.
  - assert (Hb : base other = stackBuffer_ other) by (unfold base; by rewrite E).
    destruct (Z.ltb_spec 0 (size_ other)); simpl; split_and!; auto.
    + rewrite <- Hb. fold (contents other).
      specialize (wf_mode0 eq_refl).
      assert (Hz : zlen (blit (stackBuffer_ this) 0 (contents other)) = kStackSize)
        by (rewrite (zlen_blit _ _ 0); lia).
      constructor; unfold base; simpl; auto; lia.
    + rewrite <- Hb. fold (contents other). unfold contents at 1, base. simpl. rewrite <- Hl.
      apply (slice_blit_at _ _ 0); [lia|]. specialize (wf_mode0 eq_refl). lia.
    + specialize (wf_mode0 eq_refl). constructor; unfold base; simpl; auto; lia.
    + unfold contents. simpl. by replace (size_ other) with 0 by lia.
Qed.

Lemma stack_releaseHeap fb : stackBuffer_ (releaseHeap fb) = stackBuffer_ fb.
Proof. by unfold releaseHeap; destruct (usingHeap_ fb). Qed.

Lemma swap_spec this other :
  wf this -> wf other ->
  wf (swap this other).1 ∧ contents (swap this other).1 = contents other ∧
  wf (swap this other).2 ∧ contents (swap this other).2 = contents this.
Proof.
  intros H1 H2. unfold swap.
  destruct (usingHeap_ this) eqn:E1, (usingHeap_ other) eqn:E2; simpl.
  1: { split_and!; try (unfold contents, base; simpl; by rewrite ?E1, ?E2).
       all: pose proof H1 as []; pose proof H2 as []; unfold base in *; rewrite ?E1, ?E2 in *;
         constructor; auto. }
  all: unfold moveConstruct, moveAssign;
    destruct (moveFrom emptyBuffer other) as [tmp other1] eqn:M1;
    destruct (moveFrom_spec emptyBuffer other (wf_stack _ wf_empty) H2) as (A1 & A2 & A3 & A4);
    rewrite M1 in A1, A2, A3, A4; simpl in *;
    destruct (moveFrom (releaseHeap other1) this) as [other2 this1] eqn:M2;
    destruct (moveFrom_spec (releaseHeap other1) this) as (B1 & B2 & B3 & B4);
    [rewrite stack_releaseHeap; apply (wf_stack _ A3)|done|];
    rewrite M2 in B1, B2, B3, B4; simpl in *;
    destruct (moveFrom (releaseHeap this1) tmp) as [this2 tmp1] eqn:M3;
    destruct (moveFrom_spec (releaseHeap this1) tmp) as (C1 & C2 & C3 & C4);
    [rewrite stack_releaseHeap; apply (wf_stack _ B3)|done|];
    rewrite M3 in C1, C2, C3, C4; simpl in *; split_and!; congruence || done.
Qed.

(** The bytes seen through [data()] once the block has been copied from its start. *)
Lemma shifted_contents (heap b : list byte) o n :
  0 <= o <= n -> o + n <= zlen heap -> n <= zlen b ->
  slice (blit b 0 (slice heap 0 n)) o n =
  take (Z.to_nat (n - o)) (slice heap o n) ++ slice b n o.
Proof.
  intros Ho Hh Hb. assert (Hz : zlen (slice heap 0 n) = n) by (apply slice_length; lia).
  replace n with (n - o + o) at 2 by lia. rewrite slice_split by lia. f_equal.
  - rewrite <- slice_0, slice_slice, Z.add_0_r by lia.
    assert (E : slice (blit b 0 (slice heap 0 n)) 0 n = slice heap 0 n)
      by (rewrite <- Hz at 2; apply (slice_blit_at _ _ 0); lia).
    replace o with (0 + o) at 1 by lia. rewrite <- (slice_slice _ 0 n) by lia.
    rewrite E, slice_slice by lia. done.
  - replace (o + (n - o)) with n by lia. apply (slice_blit_above _ _ 0); lia.
Qed.

(** [shrink_to_fit] asks the allocator for [size_] bytes and nothing else. *)
Lemma shrink_ext alloc alloc' fb :
  alloc (size_ fb) = alloc' (size_ fb) -> shrink_to_fit alloc fb = shrink_to_fit alloc' fb.
Proof. intros E. unfold shrink_to_fit, allocateAligned. by rewrite E. Qed.

Lemma shrink_only fb b :
  wf fb -> readOffset_ fb = 0 -> size_ fb <= zlen b ->
  ∃ fb', shrink_to_fit (fun n => if n =? size_ fb then Some b else None) fb = Done fb' ∧ wf fb' ∧
         size_ fb' = size_ fb.
Proof.
  intros H E Hb. set (al := fun n : Z => if n =? size_ fb then Some b else None). pose proof (zlen_contents _ H) as Hl.
  assert (Hal : ∀ n b', al n = Some b' -> n <= zlen b').
  { unfold al. intros n b'. destruct (Z.eqb_spec n (size_ fb)); intros; simplify_eq; lia. }
  assert (Hz : hazard fb OShrinkToFit = false) by (cbn; by rewrite E, andb_false_r).
  destruct (shrink_refines al Hal fb H Hz) as [(fb' & Hd & Hw & Hc)|(fb' & n & Hd & _)].
  - exists fb'. split_and!; auto. by rewrite <- (zlen_contents _ Hw), Hc.
  - exfalso. revert Hd. unfold shrink_to_fit, allocateAligned, al. rewrite Z.eqb_refl.
    repeat case_match; try done. intros _. pose proof (wf_size _ H). unfold kStackSize in *. lia.
Qed.

(** A count of at least [2^64 - size_] passes the test of the sum, which has wrapped. *)
Lemma appendFill_wraps alloc fb count b :
  wf fb -> zlen (base fb) < 2 ^ 48 -> 2 ^ 64 - size_ fb <= count -> count < 2 ^ 64 ->
  appendFill alloc fb count b = Undefined.
Proof.
  intros Hwf Hstore Hlo Hhi. pose proof Hwf as []. unfold kMaxSize in *. unfold appendFill.
  rewrite (proj2 (Z.eqb_neq count 0)) by lia.
  assert (Hu : u64 (size_ fb + count) = size_ fb + count - 2 ^ 64)
    by (unfold u64; symmetry; apply Z.mod_unique with 1; lia).
  rewrite Hu. rewrite validated_small by (unfold kMaxSize; lia).
  unfold ensureCapacity. rewrite (proj2 (Z.ltb_ge _ _)), (proj2 (Z.leb_le _ _)) by (unfold kMaxSize; lia).
  simpl andThen. rewrite (proj2 (Z.ltb_lt (zlen _) _)) by lia. done.
Qed.

Lemma hazards_misbehave alloc fb o :
  (∀ n b, alloc n = Some b -> n <= zlen b) -> wf fb -> zlen (base fb) < 2 ^ 48 -> op_ok (contents fb) o ->
  hazard fb o = true -> misbehaves alloc fb o (call alloc fb o).
Proof.
  intros Ha H Hb Ho Hz. destruct o; try done; cbn [hazard misbehaves call op_ok] in *.
  - apply Z.leb_le in Hz. apply appendFill_wraps; auto; lia.
  - apply andb_true_iff in Hz as [[Hh Hr%Z.ltb_lt]%andb_true_iff Hs%Z.ltb_lt].
    destruct (alloc (size_ fb)) as [b|] eqn:E.
    + right. eexists. split; [by apply shrink_shifted with (b := b); auto; apply Ha|]. cbn. split; [done|lia].
    + left. split; [done|]. pose proof H as []. unfold shrink_to_fit, allocateAligned. rewrite Hh, E. cbn [negb].
      rewrite (proj2 (Z.leb_gt _ _)), (proj2 (Z.eqb_neq _ _)), (proj2 (Z.eqb_neq _ 0)) by (unfold kStackSize in *; lia). done.
Qed.

(** ** Claims *)

(** Allocators of the witnesses: one that always succeeds, one that has run out. *)
Definition plentiful (n : Z) : option (list byte) := Some (replicate (Z.to_nat n) x00).

Lemma plentiful_size n b : plentiful n = Some b -> n <= zlen b.
Proof. intros [= <-]. unfold zlen. rewrite length_replicate. lia. Qed.

(** C32. The mutators act on the live bytes as the corresponding operations on a byte string:
    append (of bytes or of a fill), assign, insert, resize, reserve, push and pop, erasing in
    front, compacting, clearing and resetting, and shrinking.  A call whose result would
    exceed 64 MiB throws [length_error], an insertion position behind the end throws
    [out_of_range], and both leave the buffer as it was; every other call either ends with
    the specified bytes or, only when the allocator returns null, throws [bad_alloc] with the
    bytes unchanged.  No such call writes outside its storage, also when the source of an
    append lies inside the buffer being grown, and the invariant of sizes and offsets holds
    after each.  Two calls are excepted, exactly where [hazard] says so, and the statement
    tells what they do instead: a fill whose count wraps the sum of the sizes writes outside
    the storage, and [shrink_to_fit] of a large heap buffer whose read cursor has moved
    leaves a live range that ends behind its block.  Moves take the bytes and leave the
    source empty, and [swap] exchanges the bytes, in every combination of storages. *)
Theorem buffer_call_refines alloc fb other o
  (alloc_size : ∀ n b, alloc n = Some b -> n <= zlen b)
  (Hwf : wf fb) (Hother : wf other) (Hstore : zlen (base fb) < 2 ^ 48) (Hop : op_ok (contents fb) o) :
  (if hazard fb o then misbehaves alloc fb o (call alloc fb o)
   else match rejects (contents fb) o with
   | Some e => call alloc fb o = Raised e fb
   | None =>
       (∃ fb', call alloc fb o = Done fb' ∧ wf fb' ∧ contents fb' = spec (contents fb) o) ∨
       (∃ fb' n, call alloc fb o = Raised bad_alloc fb' ∧ wf fb' ∧ contents fb' = contents fb ∧
                 alloc n = None)
   end) ∧
  (∀ to from, (to, from) = moveConstruct other ∨ (to, from) = moveAssign fb other ->
     wf to ∧ contents to = contents other ∧ wf from ∧ contents from = []) ∧
  (∀ a b, (a, b) = swap fb other -> wf a ∧ contents a = contents other ∧ wf b ∧ contents b = contents fb).
Proof.
  split_and!.
  - destruct (hazard fb o) eqn:E; [by apply hazards_misbehave|]. exact (call_refines alloc alloc_size fb o Hwf Hop E).
  - intros to from Hm. pose proof (moveFrom_spec emptyBuffer other (wf_stack _ wf_empty) Hother) as H1.
    pose proof (moveFrom_spec (releaseHeap fb) other) as H2. rewrite stack_releaseHeap in H2. specialize (H2 (wf_stack _ Hwf) Hother).
    by destruct Hm as [Hm|Hm]; unfold moveConstruct, moveAssign in Hm; rewrite <- Hm in *.
  - intros a b Hs. pose proof (swap_spec fb other Hwf Hother) as H. by rewrite <- Hs in H.
Qed.

Definition sampleBuffer : FastBuffer :=
  mkFB (blit (replicate 4096 x00) 4 (str "hello")) [] 5 4096 4 false.

Lemma sampleBuffer_wf : wf sampleBuffer.
Proof. constructor; try decide_closed. Qed.

Lemma buffer_call_refines_witness :
  contents sampleBuffer = str "hello" ∧
  ((∃ fb', call plentiful sampleBuffer (OAppend (Inside 1 3)) = Done fb' ∧ wf fb' ∧
           contents fb' = str "helloell") ∨
   (∃ fb' n, call plentiful sampleBuffer (OAppend (Inside 1 3)) = Raised bad_alloc fb' ∧ wf fb' ∧
             contents fb' = str "hello" ∧ plentiful n = None)) ∧
  (∀ to from, (to, from) = moveConstruct emptyBuffer ∨ (to, from) = moveAssign sampleBuffer emptyBuffer ->
     wf to ∧ contents to = [] ∧ wf from ∧ contents from = []) ∧
  (∀ a b, (a, b) = swap sampleBuffer emptyBuffer -> wf a ∧ contents a = [] ∧ wf b ∧ contents b = str "hello").
Proof.
  split; [reflexivity|].
  exact (buffer_call_refines plentiful sampleBuffer emptyBuffer (OAppend (Inside 1 3)) plentiful_size
           sampleBuffer_wf wf_empty ltac:(by vm_compute) ltac:(vm_compute; repeat split; discriminate)).
Defined.

(** With an allocator that does not fail, a new buffer driven by any sequence of calls
    whose exceptions are caught holds, at the end, exactly the byte string obtained by
    running the specification, rejected calls skipped; no step writes outside storage. *)
Theorem buffer_sequence_refines alloc os
  (alloc_total : ∀ n, ∃ b, alloc n = Some b ∧ n <= zlen b) (Hos : ops_ok [] os) :
  ∃ fb, calls alloc emptyBuffer os = Some fb ∧ wf fb ∧ contents fb = fold_left specStep os [].
Proof. exact (calls_refine alloc os emptyBuffer alloc_total wf_empty Hos). Qed.

Lemma buffer_sequence_refines_witness :
  ∃ fb, calls plentiful emptyBuffer
          [OAppend (External (str "hello world")); OEraseFront 6; OPushBack "!"%byte;
           OInsert 0 (str "my "); OReserve (2 ^ 40); OAppend (Inside 0 3)] = Some fb ∧
        wf fb ∧ contents fb = str "my world!my ".
Proof.
  apply (buffer_sequence_refines plentiful
    [OAppend (External (str "hello world")); OEraseFront 6; OPushBack "!"%byte;
     OInsert 0 (str "my "); OReserve (2 ^ 40); OAppend (Inside 0 3)]).
  - intros n. eexists. split; [reflexivity|]. by apply plentiful_size.
  - vm_compute. repeat split; try discriminate.
Defined.

(** [swap] exchanges the contents of two buffers in every combination of inline and
    heap storage and of read positions, and both stay well formed. *)
Theorem swap_exchanges this other (H1 : wf this) (H2 : wf other) :
  wf (swap this other).1 ∧ contents (swap this other).1 = contents other ∧
  wf (swap this other).2 ∧ contents (swap this other).2 = contents this.
Proof. exact (swap_spec this other H1 H2). Qed.

Lemma swap_exchanges_witness :
  wf (swap sampleBuffer emptyBuffer).1 ∧ contents (swap sampleBuffer emptyBuffer).1 = [] ∧
  wf (swap sampleBuffer emptyBuffer).2 ∧ contents (swap sampleBuffer emptyBuffer).2 = str "hello".
Proof. exact (swap_exchanges sampleBuffer emptyBuffer sampleBuffer_wf wf_empty). Defined.

(** [shrink_to_fit] of a heap buffer too large for the inline array copies the block
    from its start and keeps the read cursor, so the result is well formed exactly when
    the cursor is at the start.  Otherwise the last [readOffset_] bytes of the contents are
    lost: reading them runs into the part of the new block behind its [size_] bytes. *)
Theorem shrink_to_fit_shift alloc fb b
  (Hwf : wf fb) (Hheap : usingHeap_ fb = true) (Hsize : kStackSize < size_ fb)
  (Halloc : alloc (size_ fb) = Some b) (Hb : size_ fb <= zlen b) (Hro : readOffset_ fb <= size_ fb) :
  ∃ fb', shrink_to_fit alloc fb = Done fb' ∧ size_ fb' = size_ fb ∧
    (wf fb' <-> readOffset_ fb = 0) ∧
    (0 < readOffset_ fb ->
     contents fb' = take (Z.to_nat (size_ fb - readOffset_ fb)) (contents fb)
                    ++ slice b (size_ fb) (readOffset_ fb)).
Proof.
  pose proof Hwf as []. destruct (Z.eq_dec (readOffset_ fb) 0) as [E|Hne].
  - rewrite (shrink_ext alloc (fun n => if n =? size_ fb then Some b else None))
      by (by rewrite Z.eqb_refl).
    destruct (shrink_only fb b) as (fb' & Hd & Hw & Hs); auto.
    exists fb'. split_and!; [done|done|tauto|lia].
  - eexists. split; [apply shrink_shifted with (b := b); auto; lia|]. split_and!; [done| |].
    + split; [|lia]. intros [_ _ _ _ _ _ Hroom]. simpl in Hroom. lia.
    + intros _. unfold contents, base. simpl. rewrite Hheap. apply shifted_contents; try lia.
      unfold base in *. rewrite Hheap in *. lia.
Qed.

Definition heapBuffer : FastBuffer :=
  mkFB (replicate 4096 x00) (replicate (Z.to_nat 8192) "a"%byte) 5000 8192 100 true.

Lemma shrink_to_fit_shift_witness :
  ∃ fb', shrink_to_fit plentiful heapBuffer = Done fb' ∧ size_ fb' = 5000 ∧
    (wf fb' <-> 100 = 0) ∧
    (0 < 100 -> contents fb' = take (Z.to_nat (5000 - 100)) (contents heapBuffer)
                  ++ slice (replicate (Z.to_nat 5000) x00) 5000 100).
Proof.
  apply (shrink_to_fit_shift plentiful heapBuffer); try reflexivity; try discriminate.
  constructor; try decide_closed.
Defined.

(** [append(count, fill)] checks the sum of the sizes after it has wrapped: a count of at
    least [2^64 - size_] passes the 64 MiB limit and the fill runs outside the storage. *)
Theorem append_fill_wraps alloc fb count b
  (Hwf : wf fb) (Hstore : zlen (base fb) < 2 ^ 48)
  (Hlo : 2 ^ 64 - size_ fb <= count) (Hhi : count < 2 ^ 64) :
  appendFill alloc fb count b = Undefined.
Proof. exact (appendFill_wraps alloc fb count b Hwf Hstore Hlo Hhi). Qed.

Lemma append_fill_wraps_witness :
  appendFill (fun _ => None) sampleBuffer (2 ^ 64 - 1) x00 = Undefined.
Proof.
  apply (append_fill_wraps (fun _ => None)); try reflexivity; try discriminate.
  exact sampleBuffer_wf.
Defined.
