(* ===== verification/FlatHashMap.v ===== *)
(** * Robin Hood hash map (include/FastNet/FlatHashMap.h)

    The flat table of the class: one probe-sequence length per slot (0 for an empty slot)
    and raw storage for a key/value pair.  The hash functor is a parameter; the mixing
    step and the power-of-two masking are the code's.  Slots and capacities are bounded by
    the length of a vector, far below [2^62], so sums and doublings of them are plain;
    caller-supplied sizes and hashes wrap at 64 bits.  [destroyPayload] on storage that
    holds no object is counted in [badDestroys_], a field the class does not have. *)

From S2P Require Import Prelude.

Definition kEmpty : Z := 0.
Definition kPslMax : Z := 255.

(** [nextPow2], on a 64-bit [size_t]. *)
Definition nextPow2 (n : Z) : Z :=
  if n =? 0 then 1
  else
    let n := n - 1 in
    let n := Z.lor n (Z.shiftr n 1) in
    let n := Z.lor n (Z.shiftr n 2) in
    let n := Z.lor n (Z.shiftr n 4) in
    let n := Z.lor n (Z.shiftr n 8) in
    let n := Z.lor n (Z.shiftr n 16) in
    let n := Z.lor n (Z.shiftr n 32) in
    u64 (n + 1).

(** ** Bit smearing *)

(** [m] has its top bit at [k] and the [w] bits from there down are set. *)
Definition smeared (k w m : Z) : Prop :=
  0 <= m < 2 ^ (k + 1) ∧ ∀ i, 0 <= i -> k - w < i <= k -> Z.testbit m i = true.

Lemma smear_step k w w' m :
  0 <= k -> 0 < w -> w' = 2 * w -> smeared k w m -> smeared k w' (Z.lor m (Z.shiftr m w)).
Proof.
  intros Hk Hw -> [Hm Hb]. assert (Hs : 0 <= Z.shiftr m w < 2 ^ (k + 1)).
  { rewrite shr_div by lia. split; [apply Z.div_pos; lia|].
    eapply Z.le_lt_trans; [apply Z.div_le_upper_bound with (q := m); nia|lia]. }
  split; [split|].
  - apply Z.lor_nonneg. lia.
  - destruct (Z.eq_dec (Z.lor m (Z.shiftr m w)) 0) as [->|Hne]; [lia|].
    assert (0 <= Z.lor m (Z.shiftr m w)) by (apply Z.lor_nonneg; lia).
    apply Z.log2_lt_pow2; [lia|]. rewrite Z.log2_lor by lia.
    assert (∀ x, 0 <= x < 2 ^ (k + 1) -> Z.log2 x < k + 1) as Hlog.
    { intros x Hx. destruct (Z.eq_dec x 0) as [->|]; [simpl; lia|]. apply Z.log2_lt_pow2; lia. }
    apply Z.max_lub_lt; by apply Hlog.
  - intros i Hi0 Hi. rewrite Z.lor_spec, Z.shiftr_spec by lia.
    destruct (decide (k - w < i)); [by rewrite Hb by lia|].
    rewrite (Hb (i + w)) by lia. apply orb_true_r.
Qed.

Lemma smeared_full k w m : 0 <= k < w -> smeared k w m -> m = 2 ^ (k + 1) - 1.
Proof.
  intros Hk [Hm Hb]. rewrite Z.sub_1_r, <- Z.ones_equiv. apply Z.bits_inj'. intros i Hi.
  destruct (decide (i <= k)).
  - rewrite Hb, Z.ones_spec_low by lia. done.
  - rewrite Z.ones_spec_high by lia.
    rewrite <- (Z.mod_small m (2 ^ (k + 1))) by lia. by rewrite Z.mod_pow2_bits_high by lia.
Qed.

Lemma nextPow2_spec n : 1 <= n <= 2 ^ 63 -> nextPow2 n = 2 ^ Z.log2_up n.
Proof.
  intros Hn. unfold nextPow2. rewrite (proj2 (Z.eqb_neq n 0)) by lia. cbv zeta.
  destruct (Z.eq_dec n 1) as [->|Hn1]; [reflexivity|].
  set (k := Z.log2 (n - 1)). assert (Hk : 0 <= k < 63).
  { split; [apply Z.log2_nonneg|apply Z.log2_lt_pow2; lia]. }
  assert (H1 : smeared k 1 (n - 1)).
  { pose proof (Z.log2_spec (n - 1) ltac:(lia)). split; [unfold k; lia|].
    intros i _ Hi. assert (i = k) as -> by lia. apply Z.bit_log2. lia. }
  apply (smear_step k 1 2), (smear_step k 2 4), (smear_step k 4 8), (smear_step k 8 16),
    (smear_step k 16 32), (smear_step k 32 64), smeared_full in H1; try lia. rewrite H1. unfold u64.
  replace (2 ^ (k + 1) - 1 + 1) with (2 ^ (k + 1)) by lia.
  assert (2 ^ (k + 1) < 2 ^ 64) by (apply Z.pow_lt_mono_r; lia).
  rewrite Z.mod_small by lia. f_equal. unfold Z.log2_up.
  rewrite (proj2 (Z.compare_lt_iff 1 n)) by lia. unfold k. rewrite Z.sub_1_r. lia.
Qed.

Section Map.
Context {K V : Type} `{Countable K}.
Context (hash_ : K -> Z).

(** [KvStorage]: raw bytes ([None]) or a live pair. *)
Definition KvStorage : Type := option (K * V).

Record FlatHashMap := mkMap {
  kv_ : list KvStorage;
  psl_ : list Z;
  capacity_ : Z;
  mask_ : Z;
  size_ : Z;
  badDestroys_ : nat
}.

Definition pslAt (t : FlatHashMap) (i : Z) : Z := psl_ t !!! Z.to_nat i.
Definition kvAt (t : FlatHashMap) (i : Z) : KvStorage := kv_ t !!! Z.to_nat i.

Definition setPsl (t : FlatHashMap) (i p : Z) : FlatHashMap :=
  mkMap (kv_ t) (<[Z.to_nat i := p]> (psl_ t)) (capacity_ t) (mask_ t) (size_ t) (badDestroys_ t).
Definition setKv (t : FlatHashMap) (i : Z) (x : KvStorage) : FlatHashMap :=
  mkMap (<[Z.to_nat i := x]> (kv_ t)) (psl_ t) (capacity_ t) (mask_ t) (size_ t) (badDestroys_ t).
Definition setSize (t : FlatHashMap) (n : Z) : FlatHashMap :=
  mkMap (kv_ t) (psl_ t) (capacity_ t) (mask_ t) n (badDestroys_ t).

(** [KvStorage::destroyPayload]. *)
Definition destroyPayload (t : FlatHashMap) (i : Z) : FlatHashMap :=
  match kvAt t i with
  | Some _ => setKv t i None
  | None => mkMap (kv_ t) (psl_ t) (capacity_ t) (mask_ t) (size_ t) (S (badDestroys_ t))
  end.

(** ** Hash helpers *)

Definition hashOf (key : K) : Z :=
  let h := hash_ key in
  let h := Z.lxor h (Z.shiftr h 32) in
  let h := u64 (h * 0x9e3779b97f4a7c15) in
  Z.lxor h (Z.shiftr h 32).

Definition slotOf (t : FlatHashMap) (hash : Z) : Z := Z.land hash (mask_ t).

(** ** Lookup; [None] is [npos]. *)

(** The probe loop.  [dist] starts at 1 and the loop ends when it reaches [kPslMax], so
    255 rounds are enough. *)
Fixpoint findLoop (fuel : nat) (t : FlatHashMap) (key : K) (slot dist : Z) : option Z :=
  match fuel with
  | O => None
  | S fuel =>
      let psl := pslAt t slot in
      if psl =? kEmpty then None
      else if psl <? dist then None
      else if (psl =? dist) && match kvAt t slot with
                               | Some (k, _) => bool_decide (k = key)
                               | None => false
                               end then Some slot
      else
        let slot := slotOf t (slot + 1) in
        let dist := dist + 1 in
        if dist =? kPslMax then None else findLoop fuel t key slot dist
  end.

Definition findSlot (t : FlatHashMap) (key : K) : option Z :=
  if capacity_ t =? 0 then None
  else findLoop 255 t key (slotOf t (hashOf key)) 1.

Definition contains (t : FlatHashMap) (key : K) : bool :=
  match findSlot t key with Some _ => true | None => false end.

Definition count (t : FlatHashMap) (key : K) : Z := if contains t key then 1 else 0.

(** [find(key)] followed by a read of [->second]. *)
Definition lookup (t : FlatHashMap) (key : K) : option V :=
  slot ← findSlot t key; kv ← kvAt t slot; Some kv.2.

(** ** Insertion *)

(** The loop of [insertUnchecked]: [None] when the fuel runs out, otherwise the table and
    the slot returned.  The pair in hand is dropped when the distance reaches [kPslMax]. *)
Fixpoint insertLoop (fuel : nat) (t : FlatHashMap) (key : K) (value : V) (slot dist : Z)
    (firstInsertSlot : option Z) : option (FlatHashMap * option Z) :=
  match fuel with
  | O => None
  | S fuel =>
      let psl := pslAt t slot in
      if psl =? kEmpty then
        let t := setKv t slot (Some (key, value)) in
        let t := setPsl t slot dist in
        let t := setSize t (size_ t + 1) in
        Some (t, match firstInsertSlot with None => Some slot | first => first end)
      else
        let '(t, key, value, dist, firstInsertSlot) :=
          if psl <? dist then
            let first := match firstInsertSlot with None => Some slot | first => first end in
            let '(k', v') := default (key, value) (kvAt t slot) in
            (setKv (setPsl t slot dist) slot (Some (key, value)), k', v', psl, first)
          else (t, key, value, dist, firstInsertSlot) in
        let slot := slotOf t (slot + 1) in
        let dist := dist + 1 in
        if dist =? kPslMax then Some (t, firstInsertSlot)
        else insertLoop fuel t key value slot dist firstInsertSlot
  end.

Definition insertUnchecked (t : FlatHashMap) (key : K) (value : V) : option (FlatHashMap * option Z) :=
  insertLoop (Z.to_nat (capacity_ t)) t key value (slotOf t (hashOf key)) 1 None.

(** ** Growth *)

Definition freshTable (newCapacity : Z) (bad : nat) : FlatHashMap :=
  mkMap (replicate (Z.to_nat newCapacity) None) (replicate (Z.to_nat newCapacity) kEmpty)
    newCapacity (u64 (newCapacity - 1)) 0 bad.

(** The pairs of the occupied slots in slot order, as the loops of [rehash] and of the copy
    operations visit them. *)
Definition entriesOf (kvs : list KvStorage) (psls : list Z) : list (K * V) :=
  omap (fun '(kv, p) => if p =? kEmpty then None else kv) (zip kvs psls).

Definition entries (t : FlatHashMap) : list (K * V) := entriesOf (kv_ t) (psl_ t).

Fixpoint insertAll (t : FlatHashMap) (kvs : list (K * V)) : option FlatHashMap :=
  match kvs with
  | [] => Some t
  | (k, v) :: kvs => '(t, _) ← insertUnchecked t k v; insertAll t kvs
  end.

Definition rehash (t : FlatHashMap) (newCapacity : Z) : option FlatHashMap :=
  insertAll (freshTable newCapacity (badDestroys_ t)) (entries t).

Definition growIfNeeded (t : FlatHashMap) : option FlatHashMap :=
  if capacity_ t * 3 / 4 <? size_ t + 1
  then rehash t (if capacity_ t =? 0 then 8 else capacity_ t * 2)
  else Some t.

Definition construct (initialCapacity : Z) : option FlatHashMap :=
  rehash (mkMap [] [] 0 0 0 0) (nextPow2 (Z.max initialCapacity 4)).

Definition reserve (t : FlatHashMap) (n : Z) : option FlatHashMap :=
  let needed := u64 (u64 (n * 4) + 2) / 3 in
  if capacity_ t <? needed then rehash t (nextPow2 needed) else Some t.

(** ** Modifiers *)

(** [emplace] and both [insert] overloads: the slot of the returned iterator, and whether
    the pair was inserted. *)
Definition emplace (t : FlatHashMap) (key : K) (value : V) : option (FlatHashMap * option Z * bool) :=
  match findSlot t key with
  | Some existingSlot => Some (t, Some existingSlot, false)
  | None =>
      t ← growIfNeeded t;
      '(t, insertedSlot) ← insertUnchecked t key value;
      Some (t, insertedSlot, true)
  end.

(** [operator[]]: the slot whose value the returned reference designates. *)
Definition insertOrGet (t : FlatHashMap) (key : K) (dflt : V) : option (FlatHashMap * option Z) :=
  match findSlot t key with
  | Some existingSlot => Some (t, Some existingSlot)
  | None => t ← growIfNeeded t; insertUnchecked t key dflt
  end.

(** [backwardShiftErase]. *)
Fixpoint shiftLoop (fuel : nat) (t : FlatHashMap) (current : Z) : option FlatHashMap :=
  match fuel with
  | O => None
  | S fuel =>
      let next := slotOf t (current + 1) in
      let nextPsl := pslAt t next in
      if nextPsl <=? 1 then Some (setPsl (destroyPayload t current) current kEmpty)
      else
        let t := destroyPayload t current in
        let t := setKv t current (kvAt t next) in
        let t := destroyPayload t next in
        let t := setPsl t current (nextPsl - 1) in
        shiftLoop fuel t next
  end.

Definition backwardShiftErase (t : FlatHashMap) (slot : Z) : option FlatHashMap :=
  shiftLoop (Z.to_nat (capacity_ t)) t slot.

Definition erase (t : FlatHashMap) (key : K) : option (FlatHashMap * Z) :=
  match findSlot t key with
  | None => Some (t, 0)
  | Some slot =>
      t ← backwardShiftErase t slot;
      Some (setSize t (size_ t - 1), 1)
  end.

Definition clear (t : FlatHashMap) : FlatHashMap :=
  mkMap (zip_with (fun kv p => if p =? kEmpty then kv else None) (kv_ t) (psl_ t))
    (replicate (length (psl_ t)) kEmpty) (capacity_ t) (mask_ t) 0 (badDestroys_ t).

(** The copy constructor, and the copy assignment to a distinct map. *)
Definition copyConstruct (other : FlatHashMap) : option FlatHashMap :=
  if 0 <? capacity_ other
  then t ← rehash (mkMap [] [] 0 0 0 0) (capacity_ other); insertAll t (entries other)
  else Some (mkMap [] [] 0 0 0 0).

Definition copyAssign (t other : FlatHashMap) : option FlatHashMap :=
  let t := clear t in
  if 0 <? capacity_ other then
    t ← (if negb (capacity_ t =? capacity_ other) then rehash t (capacity_ other) else Some t);
    insertAll t (entries other)
  else Some (mkMap [] [] 0 0 0 (badDestroys_ t)).

(** Moves: the new map and what is left of the source. *)
Definition movedFrom (other : FlatHashMap) : FlatHashMap := mkMap [] [] 0 0 0 (badDestroys_ other).
Definition moveConstruct (other : FlatHashMap) : FlatHashMap * FlatHashMap := (other, movedFrom other).

(** ** Iteration *)

(** [begin()] and [++]: the first occupied slot from [i] on, or [capacity_] for [end()]. *)
Fixpoint skipEmpty (fuel : nat) (t : FlatHashMap) (i : Z) : Z :=
  match fuel with
  | O => i
  | S fuel => if (i <? capacity_ t) && (pslAt t i =? kEmpty) then skipEmpty fuel t (i + 1) else i
  end.

Definition begin_ (t : FlatHashMap) : Z := skipEmpty (Z.to_nat (capacity_ t)) t 0.
Definition next_ (t : FlatHashMap) (i : Z) : Z := skipEmpty (Z.to_nat (capacity_ t)) t (i + 1).

(** [erase(iterator)]: the table and the slot of the returned iterator. *)
Definition eraseAt (t : FlatHashMap) (slot : Z) : option (FlatHashMap * Z) :=
  if slot =? capacity_ t then Some (t, capacity_ t)
  else
    t ← backwardShiftErase t slot;
    let t := setSize t (size_ t - 1) in
    Some (t, skipEmpty (Z.to_nat (capacity_ t)) t slot).

(** ** Invariant *)

Definition inTable (t : FlatHashMap) (i : Z) : Prop := 0 <= i < capacity_ t.

Definition nextSlot (t : FlatHashMap) (i : Z) : Z := (i + 1) mod capacity_ t.

(** The slot a key hashes to. *)
Definition home (t : FlatHashMap) (k : K) : Z := hashOf k mod capacity_ t.

(** The shape of the arrays. *)
Record shape (t : FlatHashMap) : Prop := mkShape {
  sh_cap : ∃ n, 2 <= n ∧ capacity_ t = 2 ^ n;
  sh_mask : mask_ t = capacity_ t - 1;
  sh_psl : zlen (psl_ t) = capacity_ t;
  sh_kv : zlen (kv_ t) = capacity_ t
}.

(** The Robin Hood table: a slot is empty exactly when its storage is dead, a pair lies
    [psl - 1] slots behind its home, and lengths grow by at most one from slot to slot. *)
Record table (t : FlatHashMap) : Prop := mkTable {
  tb_shape : shape t;
  tb_range : ∀ i, inTable t i -> 0 <= pslAt t i < kPslMax;
  tb_live : ∀ i, inTable t i -> pslAt t i = 0 <-> kvAt t i = None;
  tb_home : ∀ i k v, inTable t i -> kvAt t i = Some (k, v) ->
              (home t k + pslAt t i - 1) mod capacity_ t = i;
  tb_rh : ∀ i, inTable t i -> pslAt t (nextSlot t i) <= pslAt t i + 1;
  tb_keys : NoDup (entries t).*1
}.

(** A map as the public members leave it: moved-from, or a table at most three quarters full. *)
Definition inv (t : FlatHashMap) : Prop :=
  (capacity_ t = 0 ∧ psl_ t = [] ∧ kv_ t = [] ∧ size_ t = 0) ∨
  (table t ∧ size_ t = zlen (entries t) ∧ 4 * size_ t <= 3 * capacity_ t).

(** The finite map a table stands for. *)
Definition contentsOf (t : FlatHashMap) : gmap K V := list_to_map (entries t).

(** ** Slots *)

Lemma shape_pos t : shape t -> 4 <= capacity_ t.
Proof.
  intros [(n & Hn & E) _ _ _]. rewrite E. change 4 with (2 ^ 2). apply Z.pow_le_mono_r; lia.
Qed.

Lemma slotOf_mod t h : shape t -> slotOf t h = h mod capacity_ t.
Proof.
  intros [(n & Hn & E) Hm _ _]. unfold slotOf. rewrite Hm, E. apply land_mask. lia.
Qed.

Lemma inTable_mod t x : shape t -> inTable t (x mod capacity_ t).
Proof. intros Hs%shape_pos. apply Z.mod_pos_bound. lia. Qed.

Lemma inTable_next t i : shape t -> inTable t (nextSlot t i).
Proof. apply inTable_mod. Qed.

Lemma next_mod t x : nextSlot t (x mod capacity_ t) = (x + 1) mod capacity_ t.
Proof. apply Zplus_mod_idemp_l. Qed.

Lemma mod_inj c s i j :
  0 < c -> 0 <= i < c -> 0 <= j < c -> (s + i) mod c = (s + j) mod c -> i = j.
Proof.
  intros Hc Hi Hj E.
  assert (Hd : (i - j) mod c = 0).
  { replace (i - j) with (s + i - (s + j)) by lia. by rewrite Zminus_mod, E, Z.sub_diag, Zmod_0_l. }
  apply Z.mod_divide in Hd as [q Hq]; [|lia]. destruct (Z.eq_dec q 0); nia.
Qed.

Lemma next_neq t i : shape t -> inTable t i -> nextSlot t i ≠ i.
Proof.
  intros Hs%shape_pos Hi E. unfold nextSlot, inTable in *.
  assert ((i + 1) mod capacity_ t = (i + 0) mod capacity_ t) by (rewrite Z.add_0_r, (Z.mod_small i); lia).
  assert (1 = 0); [|lia]. by apply (mod_inj (capacity_ t) i); try lia.
Qed.

Lemma next_inj t i j : shape t -> inTable t i -> inTable t j -> nextSlot t i = nextSlot t j -> i = j.
Proof.
  intros Hs%shape_pos Hi Hj E. unfold nextSlot, inTable in *.
  apply (mod_inj (capacity_ t) 1); try lia. by rewrite !(Z.add_comm 1).
Qed.

Lemma pslAt_setPsl t i p j :
  shape t -> inTable t i -> inTable t j ->
  pslAt (setPsl t i p) j = if decide (i = j) then p else pslAt t j.
Proof.
  intros [] Hi Hj. unfold inTable, pslAt, zlen in *. simpl. destruct (decide (i = j)) as [->|Hne].
  - apply list_lookup_total_insert_eq. lia.
  - apply list_lookup_total_insert_ne. lia.
Qed.

Lemma kvAt_setKv t i x j :
  shape t -> inTable t i -> inTable t j ->
  kvAt (setKv t i x) j = if decide (i = j) then x else kvAt t j.
Proof.
  intros [] Hi Hj. unfold inTable, kvAt, zlen in *. simpl. destruct (decide (i = j)) as [->|Hne].
  - apply list_lookup_total_insert_eq. lia.
  - apply list_lookup_total_insert_ne. lia.
Qed.

(** ** Entries *)

Lemma entriesOf_app kv1 kv2 p1 p2 :
  length kv1 = length p1 -> entriesOf (kv1 ++ kv2) (p1 ++ p2) = entriesOf kv1 p1 ++ entriesOf kv2 p2.
Proof. intros E. unfold entriesOf. by rewrite zip_with_app, omap_app by done. Qed.

(** The pair a slot contributes. *)
Definition slotEntry (kv : KvStorage) (p : Z) : list (K * V) :=
  if p =? kEmpty then [] else option_list kv.

Lemma entriesOf_cons kv p kvs psls : entriesOf (kv :: kvs) (p :: psls) = slotEntry kv p ++ entriesOf kvs psls.
Proof. unfold entriesOf, slotEntry. simpl. by destruct (p =? kEmpty), kv. Qed.

Lemma entriesOf_split kvs psls i :
  length kvs = length psls -> (i < length psls)%nat ->
  ∃ l1 l2, entriesOf kvs psls = l1 ++ slotEntry (kvs !!! i) (psls !!! i) ++ l2 ∧
    ∀ x p, entriesOf (<[i:=x]> kvs) (<[i:=p]> psls) = l1 ++ slotEntry x p ++ l2.
Proof.
  intros E Hi.
  destruct (lookup_lt_is_Some_2 kvs i) as [x Hx]; [lia|].
  destruct (lookup_lt_is_Some_2 psls i) as [p Hp]; [lia|].
  rewrite (list_lookup_total_correct _ _ _ Hx), (list_lookup_total_correct _ _ _ Hp).
  exists (entriesOf (take i kvs) (take i psls)), (entriesOf (drop (S i) kvs) (drop (S i) psls)).
  assert (Hl : length (take i kvs) = length (take i psls)) by (rewrite !length_take; lia).
  split.
  - rewrite <- (take_drop_middle kvs i x Hx) at 1. rewrite <- (take_drop_middle psls i p Hp) at 1.
    rewrite entriesOf_app by done. f_equal.
    apply entriesOf_cons.
  - intros y q. rewrite !insert_take_drop by lia. rewrite entriesOf_app by done. f_equal.
    apply entriesOf_cons.
Qed.
Lemma entries_split t i :
  shape t -> inTable t i ->
  ∃ l1 l2, entries t = l1 ++ slotEntry (kvAt t i) (pslAt t i) ++ l2 ∧
    ∀ x p, entries (setPsl (setKv t i x) i p) = l1 ++ slotEntry x p ++ l2.
Proof.
  intros [] Hi. unfold inTable, zlen in *.
  apply (entriesOf_split (kv_ t) (psl_ t) (Z.to_nat i)); lia.
Qed.

Lemma elem_of_entries t x :
  shape t -> x ∈ entries t <-> ∃ i, inTable t i ∧ pslAt t i ≠ 0 ∧ kvAt t i = Some x.
Proof.
  intros []. unfold entries, entriesOf, inTable, pslAt, kvAt, zlen in *. rewrite list_elem_of_omap. split.
  - intros ([kv p] & Hin & Hx). apply list_elem_of_lookup in Hin as [i Hi].
    apply lookup_zip_with_Some in Hi as (kv' & p' & [= <- <-] & Hk & Hp).
    exists (Z.of_nat i). rewrite Nat2Z.id. pose proof (lookup_lt_Some _ _ _ Hk).
    rewrite (list_lookup_total_correct _ _ _ Hk), (list_lookup_total_correct _ _ _ Hp).
    destruct (Z.eqb_spec p kEmpty); [done|]. split_and!; auto; lia.
  - intros (i & Hi & Hp & Hk). exists (kv_ t !!! Z.to_nat i, psl_ t !!! Z.to_nat i). split.
    + apply list_elem_of_lookup. exists (Z.to_nat i). apply lookup_zip_with_Some.
      eexists _, _. split_and!; [done| |]; apply list_lookup_lookup_total_lt; lia.
    + rewrite (proj2 (Z.eqb_neq _ _)) by done. done.
Qed.

(** With distinct keys, one slot per key. *)
Lemma entries_key_slot t i j k v w :
  table t -> inTable t i -> inTable t j ->
  kvAt t i = Some (k, v) -> kvAt t j = Some (k, w) -> i = j.
Proof.
  intros Ht Hi Hj Ei Ej. destruct (decide (i = j)) as [|Hne]; [done|exfalso].
  pose proof (tb_shape _ Ht) as Hs.
  assert (Hpi : pslAt t i ≠ 0) by (rewrite (tb_live _ Ht i Hi), Ei; done).
  assert (Hpj : pslAt t j ≠ 0) by (rewrite (tb_live _ Ht j Hj), Ej; done).
  destruct (entries_split t i Hs Hi) as (l1 & l2 & E & Eu). pose proof (tb_keys _ Ht) as Hk.
  unfold slotEntry in E. rewrite Ei, (proj2 (Z.eqb_neq _ _)) in E by done. simpl in E.
  rewrite E, fmap_app, fmap_cons in Hk.
  apply (NoDup_Permutation_proper _ _ (symmetry (Permutation_middle _ _ _))) in Hk.
  apply NoDup_cons in Hk as [Hk _]. apply Hk. rewrite <- fmap_app. simpl.
  specialize (Eu None 0). simpl in Eu. rewrite <- Eu. apply list_elem_of_fmap. exists (k, w). split; [done|].
  assert (Hs' : shape (setPsl (setKv t i None) i 0)).
  { destruct Hs. constructor; simpl; auto; unfold zlen in *; by rewrite length_insert. }
  apply elem_of_entries; [done|]. exists j. split_and!; [done| |].
  - change (pslAt (setPsl t i 0) j ≠ 0). rewrite pslAt_setPsl by done. by rewrite decide_False.
  - change (kvAt (setKv t i None) j = Some (k, w)). rewrite kvAt_setKv by done. by rewrite decide_False.
Qed.

(** ** Lookup *)

(** Probe lengths grow by at most one per slot. *)
Lemma psl_chain t x n :
  table t -> 0 <= n -> pslAt t ((x + n) mod capacity_ t) <= pslAt t (x mod capacity_ t) + n.
Proof.
  intros Ht Hn. revert n Hn. apply natlike_ind.
  - rewrite Z.add_0_r. lia.
  - intros n Hn IH. pose proof (tb_rh _ Ht ((x + n) mod capacity_ t)) as Hr.
    rewrite next_mod in Hr. replace (x + n + 1) with (x + Z.succ n) in Hr by lia.
    specialize (Hr (inTable_mod _ _ (tb_shape _ Ht))). lia.
Qed.

(** The probe loop finds a key lying ahead. *)
Lemma findLoop_complete t k v j fuel dist :
  table t -> inTable t j -> kvAt t j = Some (k, v) ->
  1 <= dist <= pslAt t j -> (Z.to_nat (pslAt t j - dist) < fuel)%nat ->
  findLoop fuel t k ((home t k + dist - 1) mod capacity_ t) dist = Some j.
Proof.
  intros Ht Hj Ej. pose proof (tb_home _ Ht _ _ _ Hj Ej) as Hh. pose proof (tb_shape _ Ht) as Hs.
  pose proof (tb_range _ Ht j Hj) as Hr. revert dist.
  induction fuel as [|fuel IH]; intros dist Hd Hf; [lia|]. cbn [findLoop].
  set (s := (home t k + dist - 1) mod capacity_ t).
  assert (Hin : inTable t s) by by apply inTable_mod.
  assert (Hge : dist <= pslAt t s).
  { pose proof (psl_chain t (home t k + dist - 1) (pslAt t j - dist) Ht ltac:(lia)) as Hc.
    replace (home t k + dist - 1 + (pslAt t j - dist)) with (home t k + pslAt t j - 1) in Hc by lia.
    rewrite Hh in Hc. unfold s. lia. }
  unfold kEmpty. rewrite (proj2 (Z.eqb_neq _ 0)), (proj2 (Z.ltb_ge _ dist)) by lia.
  destruct (Z.eq_dec dist (pslAt t j)) as [Ed|Hne].
  - assert (s = j) as -> by (unfold s; by rewrite Ed).
    rewrite Ed, Z.eqb_refl, Ej, bool_decide_eq_true_2 by done. done.
  - destruct (_ && _) eqn:E.
    + apply andb_prop in E as [Ep%Z.eqb_eq Ek].
      destruct (kvAt t s) as [[k' w]|] eqn:Es; [|done]. apply bool_decide_eq_true_1 in Ek as ->.
      f_equal. by eapply entries_key_slot.
    + rewrite slotOf_mod by done. fold (nextSlot t s). unfold s. rewrite next_mod.
      unfold kPslMax in *. rewrite (proj2 (Z.eqb_neq _ 255)) by lia.
      replace (home t k + dist - 1 + 1) with (home t k + (dist + 1) - 1) by lia. apply IH; lia.
Qed.

(** Whatever the loop returns is a slot that holds the key. *)
Lemma findLoop_sound fuel t k s dist j :
  table t -> inTable t s -> findLoop fuel t k s dist = Some j ->
  inTable t j ∧ ∃ v, kvAt t j = Some (k, v).
Proof.
  intros Ht. revert s dist. induction fuel as [|fuel IH]; intros s dist Hs Hf; [done|].
  cbn [findLoop] in Hf. destruct (_ =? kEmpty); [done|]. destruct (_ <? _); [done|].
  destruct (_ && _) eqn:E.
  - injection Hf as <-. apply andb_prop in E as [_ Ek]. destruct (kvAt t s) as [[k' v]|]; [|done].
    apply bool_decide_eq_true_1 in Ek as ->. eauto.
  - destruct (_ =? kPslMax); [done|]. apply IH in Hf; [done|].
    rewrite slotOf_mod by apply Ht. apply inTable_mod, Ht.
Qed.

Lemma findSlot_spec t k :
  table t ->
  match findSlot t k with
  | Some j => inTable t j ∧ ∃ v, kvAt t j = Some (k, v) ∧ contentsOf t !! k = Some v
  | None => contentsOf t !! k = None
  end.
Proof.
  intros Ht. pose proof (tb_shape _ Ht) as Hs. pose proof (shape_pos _ Hs).
  unfold findSlot. rewrite (proj2 (Z.eqb_neq _ _)), slotOf_mod by (done || lia).
  fold (home t k). destruct (findLoop _ _ _ _ _) as [j|] eqn:E.
  - apply findLoop_sound in E as [Hj [v Ev]]; [|done|by apply inTable_mod].
    split; [done|]. exists v. split; [done|].
    apply elem_of_list_to_map_1; [apply Ht|]. apply elem_of_entries; [done|].
    exists j. split_and!; auto. rewrite (tb_live _ Ht j Hj), Ev. done.
  - destruct (contentsOf t !! k) as [v|] eqn:El; [|done].
    apply elem_of_list_to_map_2 in El. apply elem_of_entries in El as (j & Hj & Hp & Ej); [|done].
    pose proof (tb_range _ Ht j Hj) as Hr.
    pose proof (findLoop_complete t k v j 255 1 Ht Hj Ej ltac:(lia)) as Hc.
    unfold kPslMax in *. rewrite Z.add_simpl_r in Hc. unfold home in Hc at 1.
    rewrite Z.mod_mod in Hc by lia. fold (home t k) in Hc. rewrite Hc in E by lia. done.
Qed.
(** ** Insertion *)

(** The pair in hand fits slot [s] at distance [dist]. *)
Record carried (t : FlatHashMap) (k : K) (s dist : Z) : Prop := mkCarried {
  ca_slot : inTable t s;
  ca_dist : 1 <= dist < kPslMax;
  ca_home : (home t k + dist - 1) mod capacity_ t = s;
  ca_pred : ∀ i, inTable t i -> nextSlot t i = s -> dist <= pslAt t i + 1;
  ca_keys : NoDup (k :: (entries t).*1)
}.

Definition putAt (t : FlatHashMap) (s : Z) (x : K * V) (dist : Z) : FlatHashMap :=
  setPsl (setKv t s (Some x)) s dist.

Lemma shape_setPsl t i p : shape t -> shape (setPsl t i p).
Proof. intros []. constructor; simpl; auto. unfold zlen in *. by rewrite length_insert. Qed.

Lemma shape_setKv t i x : shape t -> shape (setKv t i x).
Proof. intros []. constructor; simpl; auto. unfold zlen in *. by rewrite length_insert. Qed.

Lemma table_setSize t n : table t -> table (setSize t n).
Proof. intros [[] ? ? ? ? ?]. constructor; [by constructor|done..]. Qed.

Lemma putAt_psl t s x d i :
  shape t -> inTable t s -> inTable t i ->
  pslAt (putAt t s x d) i = if decide (s = i) then d else pslAt t i.
Proof. intros. apply (pslAt_setPsl (setKv t s (Some x)) s d i); auto using shape_setKv. Qed.

Lemma putAt_kv t s x d i :
  shape t -> inTable t s -> inTable t i ->
  kvAt (putAt t s x d) i = if decide (s = i) then Some x else kvAt t i.
Proof. intros. by apply (kvAt_setKv t). Qed.

Lemma table_putAt t k v s d :
  table t -> carried t k s d -> pslAt t s < d -> NoDup (entries (putAt t s (k, v) d)).*1 ->
  table (putAt t s (k, v) d).
Proof.
  intros Ht [Hs Hd Hh Hp _] Hlt Hk. pose proof (tb_shape _ Ht) as Hsh.
  assert (Hin : ∀ i, inTable (putAt t s (k, v) d) i = inTable t i) by done.
  assert (Hsh' : shape (putAt t s (k, v) d)) by (by apply shape_setPsl, shape_setKv).
  constructor; auto; intros i; rewrite Hin; intros.
  - rewrite putAt_psl by done. destruct (decide _); [lia|by apply Ht].
  - rewrite putAt_psl, putAt_kv by done. destruct (decide _); [|by apply Ht].
    split; [lia|done].
  - match goal with H : kvAt _ _ = _ |- _ => revert H end.
    rewrite putAt_kv, putAt_psl by done. destruct (decide _) as [<-|]; [by intros [= <- <-]|].
    by apply (tb_home _ Ht).
  - change (nextSlot (putAt t s (k, v) d) i) with (nextSlot t i).
    rewrite !putAt_psl by (done || by apply inTable_next).
    pose proof (tb_rh _ Ht i ltac:(done)). destruct (decide (s = nextSlot t i)) as [E|Hne].
    + rewrite decide_False; [by apply Hp|]. intros ->. by apply (next_neq t i Hsh).
    + destruct (decide (s = i)); subst; lia.
Qed.

(** Filling an empty slot adds the pair; taking an occupied one exchanges it. *)
Lemma entries_putAt t s x d :
  shape t -> inTable t s -> d ≠ 0 ->
  (pslAt t s = 0 -> entries (putAt t s x d) ≡ₚ x :: entries t) ∧
  (∀ y, pslAt t s ≠ 0 -> kvAt t s = Some y -> y :: entries (putAt t s x d) ≡ₚ x :: entries t).
Proof.
  intros Hsh Hs Hd. destruct (entries_split t s Hsh Hs) as (l1 & l2 & E & Eu).
  unfold putAt. rewrite Eu, E. unfold slotEntry, kEmpty. rewrite (proj2 (Z.eqb_neq d 0)) by done. simpl. split.
  - intros ->. simpl. by rewrite Permutation_middle.
  - intros y Hp ->. rewrite (proj2 (Z.eqb_neq _ 0)) by done. simpl.
    rewrite <- !Permutation_middle. apply Permutation_swap.
Qed.

(** What an insertion of [x] has made of a table: the pair is in, or one pair is lost. *)
Definition inserted (t t' : FlatHashMap) (x : K * V) : Prop :=
  table t' ∧ capacity_ t' = capacity_ t ∧ badDestroys_ t' = badDestroys_ t ∧
  ((size_ t' = size_ t + 1 ∧ entries t' ≡ₚ x :: entries t) ∨
   (size_ t' = size_ t ∧ ∃ y, y :: entries t' ≡ₚ x :: entries t)).

(** The slots the loop still visits do not include [f]. *)
Definition avoids (t : FlatHashMap) (s : Z) (n : nat) (f : Z) : Prop :=
  ∀ i, 0 <= i <= Z.of_nat n -> f ≠ (s + i) mod capacity_ t.

(** Advancing past a slot whose length is at least the distance in hand. *)
Lemma carried_next t k s d :
  table t -> carried t k s d -> d <= pslAt t s -> d + 1 < kPslMax ->
  carried t k (nextSlot t s) (d + 1).
Proof.
  intros Ht [Hs Hd Hh Hp Hk] Hle Hlt. pose proof (tb_shape _ Ht) as Hsh. constructor; auto.
  - by apply inTable_next.
  - lia.
  - rewrite <- Hh, next_mod. f_equal. lia.
  - intros i Hi E. apply next_inj in E as ->; auto. lia.
Qed.

(** The displaced pair, one slot further. *)
Lemma carried_swap t k v k' v' s d :
  table t -> carried t k s d -> pslAt t s ≠ 0 -> pslAt t s < d -> kvAt t s = Some (k', v') ->
  table (putAt t s (k, v) d) ∧
  (pslAt t s + 1 < kPslMax ->
   carried (putAt t s (k, v) d) k' (nextSlot t s) (pslAt t s + 1)).
Proof.
  intros Ht Hc Hn Hlt E. pose proof (tb_shape _ Ht) as Hsh. pose proof Hc as [Hs Hd Hh Hp Hk].
  pose proof (proj2 (entries_putAt t s (k, v) d Hsh Hs ltac:(lia)) _ Hn E) as Hperm.
  apply (fmap_Permutation fst) in Hperm. simpl in Hperm. rewrite <- Hperm in Hk.
  pose proof Hk as [_ Hk']%NoDup_cons.
  assert (Ht' : table (putAt t s (k, v) d)) by (by apply table_putAt).
  split; [done|]. intros Hmax. pose proof (tb_range _ Ht s Hs) as Hr.
  pose proof (tb_home _ Ht _ _ _ Hs E) as Hh'. constructor; auto.
  - by apply (inTable_next t).
  - lia.
  - change (home (putAt t s (k, v) d) k') with (home t k').
    change (capacity_ (putAt t s (k, v) d)) with (capacity_ t).
    rewrite <- Hh' at 2. rewrite next_mod. f_equal. lia.
  - intros i Hi Ei. change (inTable t i) in Hi. change (nextSlot t i = nextSlot t s) in Ei.
    apply next_inj in Ei as ->; auto. rewrite putAt_psl by done. rewrite decide_True by done. lia.
Qed.
Lemma next_plus t s i : (nextSlot t s + i) mod capacity_ t = (s + (i + 1)) mod capacity_ t.
Proof. unfold nextSlot. rewrite Zplus_mod_idemp_l. f_equal. lia. Qed.

Lemma avoids_next t s j f : avoids t s (S j) f -> f ≠ s mod capacity_ t ∧ avoids t (nextSlot t s) j f.
Proof.
  intros Ha. split.
  - rewrite <- (Z.add_0_r s). apply Ha. lia.
  - intros i Hi. rewrite next_plus. apply Ha. lia.
Qed.

Lemma avoids_here t s j :
  shape t -> inTable t s -> Z.of_nat (S j) < capacity_ t -> avoids t (nextSlot t s) j s.
Proof.
  intros Hs%shape_pos Hi Hj i Hr. rewrite next_plus. intros E. unfold inTable in *.
  rewrite <- (Z.mod_small s (capacity_ t)) in E at 1 by lia. rewrite <- (Z.add_0_r s) in E at 1.
  apply mod_inj in E; lia.
Qed.

(** An empty slot bounds every probe length by the capacity. *)
Lemma psl_bound t e i :
  table t -> inTable t e -> pslAt t e = 0 -> inTable t i -> pslAt t i < capacity_ t.
Proof.
  intros Ht He E Hi. pose proof (shape_pos _ (tb_shape _ Ht)). unfold inTable in *.
  pose proof (Z.mod_pos_bound (i - e) (capacity_ t) ltac:(lia)) as Hm.
  pose proof (psl_chain t e _ Ht (proj1 Hm)) as Hc.
  rewrite Zplus_mod_idemp_r, (Z.mod_small e (capacity_ t)) in Hc by lia.
  replace (e + (i - e)) with i in Hc by lia. rewrite (Z.mod_small i) in Hc by lia. lia.
Qed.

(** The outcome of the insertion loop. *)
Definition insertOutcome (t : FlatHashMap) (x : K * V) (s : Z) (j : nat) (first : option Z)
    (t' : FlatHashMap) (r : option Z) : Prop :=
  inserted t t' x ∧
  (capacity_ t < kPslMax -> size_ t' = size_ t + 1) ∧
  (∀ f, inTable t f -> avoids t s j f -> kvAt t' f = kvAt t f) ∧
  match first, r with
  | Some f, _ => r = Some f
  | None, Some f => inTable t f ∧ kvAt t' f = Some x
  | None, None => size_ t' = size_ t
  end.

(** The pair is placed in an empty slot. *)
Lemma insert_here t k v s d j first :
  table t -> carried t k s d -> pslAt t s = 0 ->
  insertOutcome t (k, v) s j first
    (setSize (putAt t s (k, v) d) (size_ t + 1)) (match first with None => Some s | f => f end).
Proof.
  intros Ht Hc E. pose proof (tb_shape _ Ht) as Hsh. pose proof Hc as [Hs Hd Hh Hp Hk].
  pose proof (proj1 (entries_putAt t s (k, v) d Hsh Hs ltac:(lia)) E) as Hperm.
  assert (Ht' : table (putAt t s (k, v) d)).
  { apply table_putAt; auto; [lia|]. apply (fmap_Permutation fst) in Hperm. by rewrite Hperm. }
  unfold insertOutcome. split_and!.
  - split; [by apply table_setSize|]. split_and!; auto.
  - done.
  - intros f Hf Ha. change (kvAt (putAt t s (k, v) d) f = kvAt t f). rewrite putAt_kv by done.
    rewrite decide_False; [done|]. intros ->. apply (Ha 0); [lia|].
    unfold inTable in *. by rewrite Z.add_0_r, Z.mod_small.
  - destruct first; [done|]. split; [done|]. change (kvAt (putAt t s (k, v) d) s = Some (k, v)).
    rewrite putAt_kv by done. by rewrite decide_True.
Qed.

(** The pair displaces another one, which goes on. *)
Lemma insert_swapped t k v k' v' s d j first t' r :
  table t -> carried t k s d -> pslAt t s ≠ 0 -> pslAt t s < d -> kvAt t s = Some (k', v') ->
  Z.of_nat (S j) < capacity_ t ->
  insertOutcome (putAt t s (k, v) d) (k', v') (nextSlot t s) j
    (match first with None => Some s | f => f end) t' r ->
  insertOutcome t (k, v) s (S j) first t' r.
Proof.
  intros Ht Hc Hn Hlt E Hj ((Ht' & Hcap & Hb & Hi) & Hl & Hf & Hr).
  pose proof (tb_shape _ Ht) as Hsh. pose proof Hc as [Hs Hd Hh Hp Hk].
  pose proof (proj2 (entries_putAt t s (k, v) d Hsh Hs ltac:(lia)) _ Hn E) as Hperm.
  split_and!; auto.
  - split; [done|]. split_and!; auto. destruct Hi as [[? Hi]|[? [y Hi]]].
    + left. split; [done|]. by rewrite Hi, Hperm.
    + right. split; [done|]. exists y. by rewrite Hi, Hperm.
  - intros f Hf' Ha. destruct (avoids_next _ _ _ _ Ha) as [Hne Ha'].
    rewrite (Hf f Hf' Ha'), putAt_kv by done. rewrite decide_False; [done|]. intros ->.
    unfold inTable in *. by rewrite Z.mod_small in Hne.
  - destruct first as [f|]; [done|]. subst r. split; [done|].
    rewrite (Hf s Hs) by (by apply (avoids_here t)). rewrite putAt_kv by done. by rewrite decide_True.
Qed.

Lemma insertLoop_spec fuel t k v s d first j :
  table t -> carried t k s d -> Z.of_nat j < capacity_ t ->
  pslAt t ((s + Z.of_nat j) mod capacity_ t) = 0 -> (j < fuel)%nat ->
  ∃ t' r, insertLoop fuel t k v s d first = Some (t', r) ∧ insertOutcome t (k, v) s j first t' r.
Proof.
  revert t k v s d first j. induction fuel as [|fuel IH]; intros t k v s d first j Ht Hc Hj He Hf; [lia|].
  pose proof (tb_shape _ Ht) as Hsh. pose proof Hc as [Hs Hd Hh Hp Hk]. cbn [insertLoop]. unfold kEmpty.
  destruct (Z.eqb_spec (pslAt t s) 0) as [E|Hn].
  { eexists _, _. split; [done|]. exact (insert_here t k v s d j first Ht Hc E). }
  destruct j as [|j].
  { unfold inTable in *. by rewrite Z.add_0_r, Z.mod_small in He. }
  assert (He' : ∀ t1, capacity_ t1 = capacity_ t -> (nextSlot t s + Z.of_nat j) mod capacity_ t1 =
      (s + Z.of_nat (S j)) mod capacity_ t) by (intros ? ->; rewrite next_plus; f_equal; lia).
  pose proof (psl_bound t _ s Ht (inTable_mod t _ Hsh) He Hs) as Hb.
  destruct (Z.ltb_spec (pslAt t s) d) as [Hlt|Hge].
  - destruct (kvAt t s) as [[k' v']|] eqn:E; [|by apply (tb_live _ Ht s Hs) in E].
    cbv beta iota zeta delta [default id]. rewrite slotOf_mod by (by apply shape_setKv, shape_setPsl).
    change (setKv (setPsl t s d) s (Some (k, v))) with (putAt t s (k, v) d).
    change ((s + 1) mod capacity_ (putAt t s (k, v) d)) with (nextSlot t s).
    destruct (carried_swap t k v k' v' s d) as [Ht1 Hc1]; auto.
    destruct (Z.eqb_spec (pslAt t s + 1) kPslMax) as [Emax|Hmax].
    + eexists _, _. split; [done|]. eapply insert_swapped; eauto.
      split_and!; [|unfold putAt in *; simpl; lia|done|by destruct first].
      split; [done|]. split_and!; auto. right. split; [done|]. eauto.
    + pose proof (tb_range _ Ht s Hs). destruct (IH (putAt t s (k, v) d) k' v' (nextSlot t s) (pslAt t s + 1)
        (match first with None => Some s | f => f end) j) as (t' & r & -> & Ho); auto.
      * apply Hc1. lia.
      * simpl. lia.
      * rewrite He' by done. rewrite putAt_psl by (auto; by apply inTable_mod). rewrite decide_False; [done|].
        intros Es. rewrite Es in Hn at 1. by rewrite He in Hn.
      * lia.
      * eexists _, _. split; [done|]. eapply insert_swapped; eauto.
  - rewrite slotOf_mod by done. fold (nextSlot t s).
    destruct (Z.eqb_spec (d + 1) kPslMax) as [Emax|Hmax].
    + eexists _, _. split; [done|]. split_and!; [|lia|done|by destruct first].
      split; [done|]. split_and!; auto. right. split; [done|]. eauto.
    + destruct (IH t k v (nextSlot t s) (d + 1) first j) as (t' & r & -> & Ho); auto.
      * apply carried_next; auto. lia.
      * lia.
      * by rewrite He'.
      * lia.
      * eexists _, _. split; [done|]. destruct Ho as (Hi & Hl & Hfr & Hr). split_and!; auto.
        intros f Hf' Ha. apply Hfr; [done|]. by apply avoids_next.
Qed.
(** A table with fewer pairs than slots has an empty slot. *)
Lemma entriesOf_full (kvs : list KvStorage) psls :
  length kvs = length psls -> Forall2 (fun kv p => p ≠ 0 ∧ is_Some kv) kvs psls ->
  length (entriesOf kvs psls) = length psls.
Proof.
  intros _. induction 1 as [|kv p kvs psls [Hp [x ->]] _ IH]; [done|].
  rewrite entriesOf_cons. unfold slotEntry, kEmpty. rewrite (proj2 (Z.eqb_neq p 0)) by done.
  simpl. by rewrite IH.
Qed.

Lemma empty_slot t : table t -> zlen (entries t) < capacity_ t -> ∃ e, inTable t e ∧ pslAt t e = 0.
Proof.
  intros Ht Hlt. destruct (tb_shape _ Ht) as [_ _ Hp Hk].
  destruct (decide (Exists (eq 0) (psl_ t))) as [He|Hne].
  - apply Exists_exists in He as (p & Hin & <-). apply list_elem_of_lookup in Hin as [i Hi].
    pose proof (lookup_lt_Some _ _ _ Hi). exists (Z.of_nat i). unfold inTable, pslAt, zlen in *.
    rewrite Nat2Z.id, (list_lookup_total_correct _ _ _ Hi). split; [lia|done].
  - exfalso. apply not_Exists_Forall in Hne; [|apply _].
    assert (length (entries t) = length (psl_ t)); [|unfold zlen in *; lia].
    assert (Hlen : length (kv_ t) = length (psl_ t)) by (unfold zlen in *; lia).
    apply entriesOf_full; [done|]. apply Forall2_same_length_lookup_2; [done|].
    intros i kv p Hkv Hpi. rewrite Forall_lookup in Hne. specialize (Hne i p Hpi).
    split; [done|]. pose proof (lookup_lt_Some _ _ _ Hpi).
    pose proof (tb_live _ Ht (Z.of_nat i)) as Hl. unfold inTable, pslAt, kvAt in Hl.
    rewrite Nat2Z.id, (list_lookup_total_correct _ _ _ Hpi), (list_lookup_total_correct _ _ _ Hkv) in Hl.
    destruct kv; [done|]. exfalso. apply Hne. symmetry. apply Hl; [unfold zlen in *; lia|done].
Qed.

Lemma insertUnchecked_spec t k v :
  table t -> zlen (entries t) < capacity_ t -> k ∉ (entries t).*1 ->
  ∃ t' r, insertUnchecked t k v = Some (t', r) ∧ inserted t t' (k, v) ∧
    (capacity_ t < kPslMax -> size_ t' = size_ t + 1) ∧
    match r with Some f => inTable t f ∧ kvAt t' f = Some (k, v) | None => size_ t' = size_ t end.
Proof.
  intros Ht Hlt Hk. pose proof (tb_shape _ Ht) as Hsh. pose proof (shape_pos _ Hsh).
  destruct (empty_slot t Ht Hlt) as (e & He & E). unfold insertUnchecked.
  rewrite slotOf_mod by done. fold (home t k).
  assert (Hm : inTable t ((e - home t k) mod capacity_ t)) by by apply inTable_mod.
  unfold inTable in *.
  destruct (insertLoop_spec (Z.to_nat (capacity_ t)) t k v (home t k) 1 None
              (Z.to_nat ((e - home t k) mod capacity_ t))) as (t' & r & -> & Hi & Hl & _ & Hr); auto.
  - constructor; auto.
    + by apply inTable_mod.
    + unfold kPslMax. lia.
    + rewrite Z.add_simpl_r. unfold home. by rewrite Z.mod_mod by lia.
    + intros i Hin _. pose proof (tb_range _ Ht i Hin). lia.
    + apply NoDup_cons. split; [done|apply Ht].
  - lia.
  - rewrite Z2Nat.id, Zplus_mod_idemp_r by lia.
    replace (home t k + (e - home t k)) with e by lia. by rewrite Z.mod_small.
  - lia.
  - eauto 10.
Qed.

(** An insertion as an inclusion of pair lists. *)
Lemma inserted_sub t t' x :
  inserted t t' x ->
  entries t' ⊆+ x :: entries t ∧ size_ t' - size_ t = zlen (entries t') - zlen (entries t) ∧
  (size_ t' = size_ t + 1 -> entries t' ≡ₚ x :: entries t).
Proof.
  intros (_ & _ & _ & [[Hs Hp]|[Hs [y Hp]]]).
  - rewrite Hp, zlen_cons. split_and!; auto; lia.
  - split_and!; [|apply Permutation_length in Hp; unfold zlen; simpl in Hp; lia|lia].
    rewrite <- Hp. by apply submseteq_cons.
Qed.

Lemma submseteq_keys (l l' : list (K * V)) : l ⊆+ l' -> NoDup l'.*1 -> NoDup l.*1.
Proof.
  intros (r & Hp)%submseteq_Permutation Hn. apply (fmap_Permutation fst) in Hp.
  rewrite Hp, fmap_app in Hn. by apply NoDup_app in Hn as [? _].
Qed.

Lemma submseteq_map (l l' : list (K * V)) :
  l ⊆+ l' -> NoDup l'.*1 -> (list_to_map l : gmap K V) ⊆ list_to_map l'.
Proof.
  intros Hs Hn. apply map_subseteq_spec. intros k v Hl.
  apply elem_of_list_to_map_2 in Hl. apply elem_of_list_to_map_1; [done|].
  by eapply elem_of_submseteq.
Qed.

(** Re-insertion of a list of pairs with fresh keys. *)
Lemma insertAll_spec l t :
  table t -> NoDup (l ++ entries t).*1 -> zlen l + zlen (entries t) <= capacity_ t ->
  ∃ t', insertAll t l = Some t' ∧ table t' ∧ capacity_ t' = capacity_ t ∧
    badDestroys_ t' = badDestroys_ t ∧ entries t' ⊆+ l ++ entries t ∧
    size_ t' - size_ t = zlen (entries t') - zlen (entries t) ∧
    (capacity_ t < kPslMax -> size_ t' = size_ t + zlen l).
Proof.
  revert t. induction l as [|[k v] l IH]; intros t Ht Hn Hz; simpl.
  - exists t. split_and!; auto; try (unfold zlen; simpl; lia); done.
  - rewrite zlen_cons in *. pose proof (zlen_nonneg l). simpl in Hn. apply NoDup_cons in Hn as [Hk Hn].
    rewrite fmap_app in Hk. apply not_elem_of_app in Hk as [Hk1 Hk2].
    destruct (insertUnchecked_spec t k v Ht) as (t1 & r & -> & Hi & Hc1 & _); [lia|done|]. simpl.
    destruct (inserted_sub _ _ _ Hi) as (Hsub & Hsz & _). destruct Hi as (Ht1 & Hcap & Hb & _).
    assert (Hsub' : l ++ entries t1 ⊆+ (k, v) :: l ++ entries t).
    { rewrite Permutation_middle. by apply submseteq_app. }
    destruct (IH t1) as (t' & -> & Ht' & Hcap' & Hb' & Hsub2 & Hsz' & Hc'); auto.
    + apply (submseteq_keys _ _ Hsub'). simpl. apply NoDup_cons. split; [|done].
      rewrite fmap_app. by apply not_elem_of_app.
    + apply submseteq_length in Hsub. unfold zlen in *. simpl in Hsub. lia.
    + exists t'. split_and!; auto; try congruence; try lia.
      by etrans.
Qed.

(** ** Growth *)

Lemma entriesOf_empty n : entriesOf (replicate n None) (replicate n kEmpty) = [].
Proof. induction n as [|n IH]; [done|]. simpl. by rewrite entriesOf_cons, IH. Qed.

Lemma freshTable_spec n b :
  2 <= n <= 64 -> table (freshTable (2 ^ n) b) ∧ entries (freshTable (2 ^ n) b) = [].
Proof.
  intros Hn. assert (E : entries (freshTable (2 ^ n) b) = []) by apply entriesOf_empty.
  assert (Hpos : 0 < 2 ^ n) by lia.
  assert (Hpow : 2 ^ n <= 2 ^ 64) by (apply Z.pow_le_mono_r; lia).
  assert (Hpsl : ∀ i, pslAt (freshTable (2 ^ n) b) i = 0 ∨ ¬ inTable (freshTable (2 ^ n) b) i).
  { intros i. destruct (decide (0 <= i < 2 ^ n)); [left|by right].
    unfold pslAt. simpl. apply lookup_total_replicate_2. lia. }
  assert (Hkv : ∀ i, inTable (freshTable (2 ^ n) b) i -> kvAt (freshTable (2 ^ n) b) i = None).
  { intros i Hi. unfold kvAt, inTable in *. simpl in *. apply lookup_total_replicate_2. lia. }
  assert (Hs : shape (freshTable (2 ^ n) b)).
  { constructor; [exists n; split; [lia|done]|simpl; unfold u64; rewrite Z.mod_small; lia| |];
      unfold zlen; simpl; rewrite length_replicate; lia. }
  split; [|done]. constructor; auto.
  - intros i Hi. destruct (Hpsl i) as [->|]; [unfold kPslMax; lia|done].
  - intros i Hi. rewrite Hkv by done. destruct (Hpsl i) as [->|]; [done|done].
  - intros i k v Hi Ek. by rewrite Hkv in Ek.
  - intros i Hi. destruct (Hpsl i) as [->|]; [|done].
    destruct (Hpsl (nextSlot (freshTable (2 ^ n) b) i)) as [->|Hx]; [lia|]. by destruct (Hx (inTable_next _ _ Hs)).
  - rewrite E. constructor.
Qed.
Lemma rehash_spec t n :
  NoDup (entries t).*1 -> 2 <= n <= 64 -> zlen (entries t) <= 2 ^ n ->
  ∃ t', rehash t (2 ^ n) = Some t' ∧ table t' ∧ capacity_ t' = 2 ^ n ∧
    badDestroys_ t' = badDestroys_ t ∧ entries t' ⊆+ entries t ∧ size_ t' = zlen (entries t') ∧
    (2 ^ n < kPslMax -> size_ t' = zlen (entries t)).
Proof.
  intros Hk Hn Hz. destruct (freshTable_spec n (badDestroys_ t) Hn) as [Hf He]. unfold rehash.
  destruct (insertAll_spec (entries t) _ Hf) as (t' & -> & Ht' & Hc & Hb & Hsub & Hs & Hl);
    rewrite ?He, ?app_nil_r in *; auto.
  { unfold zlen in *. simpl in *. lia. }
  exists t'. simpl in *. split_and!; auto. unfold zlen in *. simpl in *. lia.
Qed.

Lemma entries_nil t : kv_ t = [] -> entries t = [].
Proof. intros E. unfold entries. by rewrite E. Qed.

Lemma inv_keys t : inv t -> NoDup (entries t).*1.
Proof. intros [(_ & _ & E & _)|[Ht _]]; [rewrite (entries_nil _ E); constructor|apply Ht]. Qed.

Lemma inv_size t : inv t -> size_ t = zlen (entries t).
Proof. intros [(_ & _ & E & ->)|(_ & -> & _)]; [by rewrite (entries_nil _ E)|done]. Qed.

(** [size_] is the number of keys of the map. *)
Lemma inv_map_size t : inv t -> Z.of_nat (size (contentsOf t)) = size_ t.
Proof.
  intros Hi. rewrite (inv_size _ Hi). unfold contentsOf.
  by rewrite map_size_list_to_map by by apply inv_keys.
Qed.

Lemma growIfNeeded_spec t :
  inv t -> capacity_ t <= 2 ^ 62 ->
  ∃ t', growIfNeeded t = Some t' ∧ table t' ∧ capacity_ t <= capacity_ t' ∧ size_ t' = zlen (entries t') ∧
    4 * (size_ t' + 1) <= 3 * capacity_ t' ∧ badDestroys_ t' = badDestroys_ t ∧
    entries t' ⊆+ entries t ∧ (capacity_ t' < kPslMax -> size_ t' = size_ t).
Proof.
  intros Hi Hmax. pose proof (inv_keys _ Hi) as Hk. pose proof (inv_size _ Hi) as Hs.
  pose proof (zlen_nonneg (entries t)). unfold growIfNeeded.
  assert (Hre : ∀ n, 2 <= n <= 64 -> 2 * capacity_ t <= 2 ^ n -> 4 * (size_ t + 1) <= 3 * 2 ^ n ->
    ∃ t', rehash t (2 ^ n) = Some t' ∧ table t' ∧ capacity_ t <= capacity_ t' ∧ size_ t' = zlen (entries t') ∧
      4 * (size_ t' + 1) <= 3 * capacity_ t' ∧ badDestroys_ t' = badDestroys_ t ∧
      entries t' ⊆+ entries t ∧ (capacity_ t' < kPslMax -> size_ t' = size_ t)).
  { intros n Hn Hc Hl. destruct (rehash_spec t n Hk Hn) as (t' & -> & Ht' & Hc' & Hb & Hsub & Hs' & Hl');
      [lia|]. exists t'. pose proof (submseteq_length _ _ Hsub). rewrite Hc'.
    assert (0 < 2 ^ n) by lia. unfold zlen in *. split_and!; auto; lia. }
  destruct Hi as [(E & _ & _ & Es)|(Ht & _ & Hload)].
  - rewrite E, Es in *. simpl. apply (Hre 3); lia.
  - destruct (tb_shape _ Ht) as [(n & Hn & E) _ _ _].
    destruct (Z.ltb_spec (capacity_ t * 3 / 4) (size_ t + 1)).
    + rewrite E in *. assert (n <= 62) by (apply (Z.pow_le_mono_r_iff 2); lia).
      rewrite (proj2 (Z.eqb_neq _ _)) by lia. rewrite Z.mul_comm, <- Z.pow_succ_r by lia.
      assert (2 ^ 2 <= 2 ^ n) by (apply Z.pow_le_mono_r; lia).
      apply (Hre (Z.succ n)); rewrite ?Z.pow_succ_r by lia; lia.
    + exists t. split_and!; auto; [lia|zlia].
Qed.

Lemma not_in_keys t k : contentsOf t !! k = None <-> k ∉ (entries t).*1.
Proof. split; [apply not_elem_of_list_to_map_2|apply not_elem_of_list_to_map_1]. Qed.

Lemma inv_findSlot t k :
  inv t ->
  match findSlot t k with
  | Some j => inTable t j ∧ ∃ v, kvAt t j = Some (k, v) ∧ contentsOf t !! k = Some v
  | None => contentsOf t !! k = None
  end.
Proof.
  intros [(E & _ & Ek & _)|[Ht _]]; [|by apply findSlot_spec].
  unfold findSlot. rewrite E. simpl. unfold contentsOf. by rewrite (entries_nil _ Ek).
Qed.

(** Growth, then insertion of a pair with a fresh key. *)
Lemma grow_insert_spec t k v :
  inv t -> capacity_ t <= 2 ^ 62 -> contentsOf t !! k = None ->
  ∃ t' r, (t1 ← growIfNeeded t; insertUnchecked t1 k v) = Some (t', r) ∧ inv t' ∧
    badDestroys_ t' = badDestroys_ t ∧ contentsOf t' ⊆ <[k:=v]> (contentsOf t) ∧
    (capacity_ t' < kPslMax -> size_ t' = size_ t + 1) ∧
    match r with
    | Some f => inTable t' f ∧ kvAt t' f = Some (k, v)
    | None => size_ t' <= size_ t
    end.
Proof.
  intros Hi Hmax Hk. pose proof (inv_keys _ Hi) as Hn. pose proof (inv_size _ Hi) as Hs.
  destruct (growIfNeeded_spec t Hi Hmax) as (t1 & -> & Ht1 & Hc1 & Hs1 & Hl1 & Hb1 & Hsub1 & Hx1).
  rewrite not_in_keys in Hk. simpl.
  assert (Hk1 : k ∉ (entries t1).*1).
  { intros Hin. apply Hk. eapply elem_of_submseteq; [done|]. by apply fmap_submseteq. }
  pose proof (zlen_nonneg (entries t1)).
  destruct (insertUnchecked_spec t1 k v Ht1) as (t' & r & -> & Hins & Hx & Hr); [lia|done|].
  destruct (inserted_sub _ _ _ Hins) as (Hsub & Hsz & _). destruct Hins as (Ht' & Hc' & Hb' & _).
  assert (Hsub' : entries t' ⊆+ (k, v) :: entries t) by (etrans; [done|by apply submseteq_skip]).
  pose proof (submseteq_length _ _ Hsub) as Hlen. simpl in Hlen.
  pose proof (submseteq_length _ _ Hsub1) as Hlen1.
  exists t', r. split_and!; [done| |congruence| | |].
  - right. split_and!; auto; unfold zlen in *; lia.
  - apply (submseteq_map _ _ Hsub'). simpl. by apply NoDup_cons.
  - intros Hc. rewrite Hc' in Hc. rewrite (Hx Hc), (Hx1 Hc). lia.
  - destruct r; [unfold inTable in *; by rewrite Hc'|unfold zlen in *; lia].
Qed.

(** An included map of the same size is the whole map. *)
Lemma contents_by_size t t' k v :
  inv t -> inv t' -> contentsOf t !! k = None -> contentsOf t' ⊆ <[k:=v]> (contentsOf t) ->
  size_ t' = size_ t + 1 -> contentsOf t' = <[k:=v]> (contentsOf t).
Proof.
  intros Hi Hi' Hk Hsub Hs. apply (map_subseteq_size_eq _ _ Hsub).
  rewrite map_size_insert_None by done. pose proof (inv_map_size _ Hi). pose proof (inv_map_size _ Hi'). lia.
Qed.
(** ** Erasure *)

Definition clearAt (t : FlatHashMap) (c : Z) : FlatHashMap := setPsl (setKv t c None) c 0.

(** A table in which slot [c] keeps its length but holds nothing of value. *)
Record holed (t : FlatHashMap) (c : Z) : Prop := mkHoled {
  ho_shape : shape t;
  ho_slot : inTable t c;
  ho_range : ∀ i, inTable t i -> 0 <= pslAt t i < kPslMax;
  ho_live : ∀ i, inTable t i -> i ≠ c -> pslAt t i = 0 <-> kvAt t i = None;
  ho_home : ∀ i k v, inTable t i -> i ≠ c -> kvAt t i = Some (k, v) ->
              (home t k + pslAt t i - 1) mod capacity_ t = i;
  ho_rh : ∀ i, inTable t i -> pslAt t (nextSlot t i) <= pslAt t i + 1;
  ho_keys : NoDup (entries (clearAt t c)).*1
}.

(** The slot left behind by one round of the loop. *)
Definition shiftOne (t : FlatHashMap) (c n : Z) : FlatHashMap :=
  let t1 := destroyPayload t c in
  let t2 := setKv t1 c (kvAt t1 n) in
  setPsl (destroyPayload t2 n) c (pslAt t n - 1).

Lemma shape_clearAt t c : shape t -> shape (clearAt t c).
Proof. intros. by apply shape_setPsl, shape_setKv. Qed.

Lemma destroyPayload_fields t i :
  shape t -> inTable t i ->
  kv_ (destroyPayload t i) = <[Z.to_nat i := None]> (kv_ t) ∧ psl_ (destroyPayload t i) = psl_ t ∧
  capacity_ (destroyPayload t i) = capacity_ t ∧ mask_ (destroyPayload t i) = mask_ t ∧
  size_ (destroyPayload t i) = size_ t ∧
  badDestroys_ (destroyPayload t i) =
    (badDestroys_ t + match kvAt t i with Some _ => 0 | None => 1 end)%nat.
Proof.
  intros Hs Hi. unfold destroyPayload. destruct (kvAt t i) eqn:E; simpl; split_and!; auto with lia.
  symmetry. apply list_insert_id. destruct Hs. unfold inTable, zlen, kvAt in *.
  rewrite <- E. apply list_lookup_lookup_total_lt. lia.
Qed.

(** The arrays after one round. *)
Lemma shiftOne_fields t c n :
  shape t -> inTable t c -> inTable t n -> c ≠ n ->
  kv_ (shiftOne t c n) = <[Z.to_nat n := None]> (<[Z.to_nat c := kvAt t n]> (kv_ t)) ∧
  psl_ (shiftOne t c n) = <[Z.to_nat c := pslAt t n - 1]> (psl_ t) ∧
  capacity_ (shiftOne t c n) = capacity_ t ∧ mask_ (shiftOne t c n) = mask_ t ∧
  size_ (shiftOne t c n) = size_ t ∧
  badDestroys_ (shiftOne t c n) =
    (badDestroys_ t + match kvAt t c with Some _ => 0 | None => 1 end
                    + match kvAt t n with Some _ => 0 | None => 1 end)%nat.
Proof.
  intros Hs Hc Hn Hne. unfold shiftOne.
  destruct (destroyPayload_fields t c Hs Hc) as (E1 & E2 & E3 & E4 & E5 & E6).
  set (t1 := destroyPayload t c) in *.
  assert (Hs1 : shape t1) by (destruct Hs; constructor; rewrite ?E1, ?E2, ?E3, ?E4; auto;
    unfold zlen in *; by rewrite length_insert).
  assert (Ek : kvAt t1 n = kvAt t n).
  { unfold kvAt. rewrite E1. apply list_lookup_total_insert_ne. unfold inTable in *. lia. }
  assert (Hc1 : inTable t1 c) by (unfold inTable in *; by rewrite E3).
  assert (Hn1 : inTable t1 n) by (unfold inTable in *; by rewrite E3).
  destruct (destroyPayload_fields (setKv t1 c (kvAt t1 n)) n (shape_setKv _ _ _ Hs1) Hn1)
    as (F1 & F2 & F3 & F4 & F5 & F6).
  assert (Ek2 : kvAt (setKv t1 c (kvAt t1 n)) n = kvAt t n)
    by (rewrite kvAt_setKv by done; by rewrite decide_False).
  simpl. rewrite F1, F2, F3, F4, F5, F6, Ek2. simpl. rewrite E1, E2, E3, E4, E5, E6, Ek.
  split_and!; auto. by rewrite list_insert_insert_eq.
Qed.
(** Lookups in arrays with one or two updated slots. *)
Lemma lookup_upd {A} `{Inhabited A} (l : list A) c x i :
  0 <= c < zlen l -> 0 <= i ->
  <[Z.to_nat c := x]> l !!! Z.to_nat i = if decide (c = i) then x else l !!! Z.to_nat i.
Proof.
  unfold zlen. intros. destruct (decide (c = i)) as [->|].
  - apply list_lookup_total_insert_eq. lia.
  - apply list_lookup_total_insert_ne. lia.
Qed.

(** One round keeps the pairs. *)
Lemma shiftOne_entries t c n x :
  shape t -> inTable t c -> inTable t n -> c ≠ n -> kvAt t n = Some x -> 2 <= pslAt t n ->
  entries (clearAt (shiftOne t c n) n) ≡ₚ entries (clearAt t c).
Proof.
  intros Hs Hc Hn Hne Ek Hp. set (u := clearAt t c).
  assert (Hu : shape u) by by apply shape_clearAt.
  assert (Hun : kvAt u n = Some x ∧ pslAt u n = pslAt t n).
  { unfold u, clearAt. split.
    - change (kvAt (setKv t c None) n = Some x). rewrite kvAt_setKv by done. by rewrite decide_False.
    - change (pslAt (setPsl t c 0) n = pslAt t n). rewrite pslAt_setPsl by done. by rewrite decide_False. }
  destruct (entries_split u n Hu Hn) as (l1 & l2 & Eu & Eu'). destruct Hun as [Ekn Epn].
  rewrite Ekn, Epn in Eu. unfold slotEntry, kEmpty in Eu.
  rewrite (proj2 (Z.eqb_neq _ 0)) in Eu by lia. simpl in Eu.
  specialize (Eu' None 0). simpl in Eu'. fold (clearAt u n) in Eu'. set (w := clearAt u n) in *.
  assert (Hw : shape w) by by apply shape_clearAt.
  assert (Hwc : pslAt w c = 0).
  { unfold w, clearAt. change (pslAt (setPsl u n 0) c = 0). rewrite pslAt_setPsl by done.
    rewrite decide_False by done. unfold u, clearAt. change (pslAt (setPsl t c 0) c = 0).
    rewrite pslAt_setPsl by done. by rewrite decide_True. }
  pose proof (proj1 (entries_putAt w c x (pslAt t n - 1) Hw Hc ltac:(lia)) Hwc) as Hput.
  assert (Hid : entries (clearAt (shiftOne t c n) n) = entries (putAt w c x (pslAt t n - 1))).
  { destruct (shiftOne_fields t c n Hs Hc Hn Hne) as (E1 & E2 & _).
    assert (Z.to_nat n ≠ Z.to_nat c) by (unfold inTable in *; lia).
    generalize dependent (shiftOne t c n). intros t' E1 E2.
    unfold entries, clearAt, putAt, w, u. simpl. rewrite E1, E2, Ek. f_equal.
    - rewrite list_insert_insert_eq. symmetry.
      by rewrite (list_insert_insert_ne _ (Z.to_nat c) (Z.to_nat n)), list_insert_insert_eq by done.
    - symmetry. rewrite (list_insert_insert_ne _ (Z.to_nat c) (Z.to_nat n)) by done.
      by rewrite list_insert_insert_eq. }
  rewrite Hid, Hput, Eu, Eu'. apply Permutation_middle.
Qed.

Lemma holed_shift t c :
  holed t c -> 2 <= pslAt t (nextSlot t c) -> holed (shiftOne t c (nextSlot t c)) (nextSlot t c).
Proof.
  intros [Hs Hc Hr Hl Hh Hrh Hk] Hp. set (n := nextSlot t c) in *.
  assert (Hn : inTable t n) by by apply inTable_next.
  assert (Hne : c ≠ n) by (intros E; by apply (next_neq t c)).
  destruct (shiftOne_fields t c n Hs Hc Hn Hne) as (E1 & E2 & E3 & E4 & _ & _).
  destruct (kvAt t n) as [[k v]|] eqn:Ek; [|by apply (Hl n) in Ek; [lia|..]].
  set (t' := shiftOne t c n) in *.
  assert (Hin : ∀ i, inTable t' i <-> inTable t i) by (intros; unfold inTable; by rewrite E3).
  pose proof Hs as [_ _ Hz1 Hz2].
  assert (Hpsl : ∀ i, inTable t i -> pslAt t' i = if decide (c = i) then pslAt t n - 1 else pslAt t i).
  { intros i Hi. unfold pslAt at 1. rewrite E2. unfold inTable in *. by rewrite lookup_upd by lia. }
  assert (Hkv : ∀ i, inTable t i -> i ≠ n -> kvAt t' i = if decide (c = i) then Some (k, v) else kvAt t i).
  { intros i Hi Hin'. unfold kvAt. rewrite E1. unfold inTable in *.
    rewrite lookup_upd by (unfold zlen in *; rewrite ?length_insert; lia).
    rewrite decide_False by done. by rewrite lookup_upd by lia. }
  assert (Hnx : ∀ i, nextSlot t' i = nextSlot t i) by (intros; unfold nextSlot; by rewrite E3).
  constructor.
  - destruct Hs. constructor; rewrite ?E1, ?E2, ?E3, ?E4; auto;
      unfold zlen in *; by rewrite ?length_insert.
  - by apply Hin.
  - intros i Hi%Hin. rewrite Hpsl by done. pose proof (Hr n Hn). pose proof (Hr i Hi). case_decide; lia.
  - intros i Hi%Hin Hne'. rewrite Hpsl, Hkv by done. case_decide; [split; [lia|done]|by apply Hl].
  - intros i k' v' Hi%Hin Hne'. rewrite Hpsl, Hkv, E3 by done. unfold home. rewrite E3.
    case_decide as Ei; [|by apply Hh]. intros [= <- <-]. subst i.
    pose proof (Hh n k v Hn ltac:(done) Ek) as Hhn. unfold home in Hhn.
    apply (next_inj t); [done|by apply inTable_mod|done|]. 
    rewrite next_mod. etrans; [|exact Hhn]. f_equal. lia.
  - intros i Hi%Hin. rewrite Hnx, !Hpsl by (done || by apply inTable_next). pose proof (Hrh i Hi) as Hri.
    destruct (decide (c = nextSlot t i)) as [En|Hn1]; destruct (decide (c = i)) as [Ei|Hn2].
    + exfalso. apply (next_neq t i); congruence.
    + pose proof (Hrh c Hc) as Hrc. fold n in Hrc. rewrite <- En in Hri. lia.
    + rewrite <- Ei. fold n. lia.
    + lia.
  - pose proof (fmap_Permutation fst _ _ (shiftOne_entries t c n (k, v) Hs Hc Hn Hne Ek Hp)) as Hpm.
    fold t' in Hpm. by rewrite Hpm.
Qed.
(** The last round: the hole becomes an empty slot. *)
Lemma holed_close t c t' :
  holed t c -> pslAt t (nextSlot t c) <= 1 ->
  t' = setPsl (destroyPayload t c) c kEmpty -> table t' ∧ entries t' = entries (clearAt t c).
Proof.
  intros [Hs Hc Hr Hl Hh Hrh Hk] Hp ->.
  destruct (destroyPayload_fields t c Hs Hc) as (E1 & E2 & E3 & E4 & _ & _).
  set (d := destroyPayload t c) in *. set (t' := setPsl d c kEmpty).
  assert (Hent : entries t' = entries (clearAt t c)).
  { unfold entries, t', clearAt. simpl. by rewrite E1, E2. }
  assert (Hcap : capacity_ t' = capacity_ t) by done.
  assert (Hin : ∀ i, inTable t' i <-> inTable t i) by (intros; unfold inTable; by rewrite Hcap).
  pose proof Hs as [_ _ Hz1 Hz2].
  assert (Hpsl : ∀ i, inTable t i -> pslAt t' i = if decide (c = i) then 0 else pslAt t i).
  { intros i Hi. unfold pslAt, t'. simpl. rewrite E2. unfold inTable in *. by rewrite lookup_upd by lia. }
  assert (Hkv : ∀ i, inTable t i -> kvAt t' i = if decide (c = i) then None else kvAt t i).
  { intros i Hi. unfold kvAt, t'. simpl. rewrite E1. unfold inTable in *. by rewrite lookup_upd by lia. }
  split; [|done]. constructor.
  - destruct Hs. constructor; simpl; rewrite ?E1, ?E2, ?E3, ?E4; auto;
      unfold zlen in *; by rewrite ?length_insert.
  - intros i Hi%Hin. rewrite Hpsl by done. case_decide; [unfold kPslMax; lia|by apply Hr].
  - intros i Hi%Hin. rewrite Hpsl, Hkv by done. case_decide; [done|]. apply Hl; [done|congruence].
  - intros i k v Hi%Hin. rewrite Hpsl, Hkv by done. unfold home. rewrite Hcap.
    case_decide; [done|]. apply Hh; [done|congruence].
  - intros i Hi%Hin. change (nextSlot t' i) with ((i + 1) mod capacity_ t'). rewrite Hcap.
    fold (nextSlot t i). rewrite !Hpsl by (done || by apply inTable_next).
    pose proof (Hr i Hi). pose proof (Hrh i Hi). destruct (decide (c = nextSlot t i)), (decide (c = i)); subst; lia.
  - by rewrite Hent.
Qed.

(** The loop closes the hole; a round after the first destroys a dead object. *)
Lemma shiftLoop_spec fuel t c j :
  holed t c -> Z.of_nat j < capacity_ t -> (0 < j)%nat ->
  pslAt t ((c + Z.of_nat j) mod capacity_ t) = 0 -> (j <= fuel)%nat ->
  ∃ t', shiftLoop fuel t c = Some t' ∧ table t' ∧ capacity_ t' = capacity_ t ∧ size_ t' = size_ t ∧
    entries t' ≡ₚ entries (clearAt t c) ∧
    (badDestroys_ t <= badDestroys_ t')%nat ∧
    (kvAt t c = None -> badDestroys_ t < badDestroys_ t')%nat ∧
    (is_Some (kvAt t c) -> badDestroys_ t' = badDestroys_ t <-> pslAt t (nextSlot t c) <= 1).
Proof.
  revert t c j. induction fuel as [|fuel IH]; intros t c j Ho Hj Hj0 He Hf; [lia|].
  pose proof Ho as [Hs Hc Hr Hl _ _ _]. cbn [shiftLoop]. rewrite slotOf_mod by done. fold (nextSlot t c).
  destruct (Z.leb_spec (pslAt t (nextSlot t c)) 1) as [Hle|Hgt].
  - destruct (destroyPayload_fields t c Hs Hc) as (_ & _ & E3 & _ & E5 & E6).
    destruct (holed_close t c _ Ho Hle eq_refl) as [Ht' Hent].
    eexists. split; [done|]. simpl in *. rewrite Hent, E6. split_and!; auto; try lia.
    + intros ->. lia.
    + intros [x ->]. split; [done|lia].
  - set (n := nextSlot t c) in *.
    assert (Hn : inTable t n) by by apply inTable_next.
    assert (Hne : c ≠ n) by (intros E; by apply (next_neq t c)).
    destruct (shiftOne_fields t c n Hs Hc Hn Hne) as (_ & E2 & E3 & _ & E5 & E6).
    destruct (kvAt t n) as [x|] eqn:Ek; [|by apply (Hl n) in Ek; [lia|..]].
    pose proof (shiftOne_entries t c n x Hs Hc Hn Hne Ek ltac:(lia)) as Hperm.
    pose proof (holed_shift t c Ho ltac:(fold n; lia)) as Ho'. fold n in Ho'.
    change (setPsl _ c _) with (shiftOne t c n).
    assert (Hnx : (n + Z.of_nat (pred j)) mod capacity_ t = (c + Z.of_nat j) mod capacity_ t)
      by (unfold n; rewrite next_plus; f_equal; lia).
    assert (Hj1 : (0 < pred j)%nat).
    { destruct j as [|[|j]]; [lia| |lia]. exfalso. change (Z.of_nat 1) with 1 in He. fold (nextSlot t c) in He.
      fold n in He. lia. }
    destruct (IH (shiftOne t c n) n (pred j)) as (t' & -> & Ht' & Hc' & Hs' & Hp' & Hb1 & Hb2 & _);
      rewrite ?E3, ?Hnx; auto; try lia.
    { unfold pslAt. rewrite E2. destruct Hs. pose proof (inTable_mod t (c + Z.of_nat j) ltac:(by constructor)).
      unfold inTable in *. rewrite lookup_upd by lia. rewrite decide_False; [done|]. intros Ec.
      rewrite <- (Z.mod_small c (capacity_ t)) in Ec at 1 by lia. rewrite <- (Z.add_0_r c) in Ec at 1.
      apply mod_inj in Ec; lia. }
    assert (Hdead : kvAt (shiftOne t c n) n = None).
    { destruct (shiftOne_fields t c n Hs Hc Hn Hne) as (E1 & _). unfold kvAt. rewrite E1.
      destruct Hs. unfold inTable in *. rewrite lookup_upd by (unfold zlen in *; rewrite ?length_insert; lia).
      by rewrite decide_True. }
    specialize (Hb2 Hdead). exists t'. split_and!; auto; try lia. by rewrite Hp'.
Qed.
Lemma table_holed t c x :
  table t -> inTable t c -> kvAt t c = Some x ->
  holed t c ∧ entries t ≡ₚ x :: entries (clearAt t c).
Proof.
  intros Ht Hc E. pose proof (tb_shape _ Ht) as Hs.
  assert (Hn : pslAt t c ≠ 0) by (rewrite (tb_live _ Ht c Hc), E; done).
  destruct (entries_split t c Hs Hc) as (l1 & l2 & El & Eu). specialize (Eu None 0). simpl in Eu.
  assert (Hp : entries t ≡ₚ x :: entries (clearAt t c)).
  { unfold clearAt. rewrite Eu, El, E. unfold slotEntry, kEmpty. rewrite (proj2 (Z.eqb_neq _ 0)) by done.
    simpl. by rewrite Permutation_middle. }
  split; [|done]. pose proof (tb_keys _ Ht) as Hk. destruct Ht. constructor; auto; [by intros; eapply tb_home0|].
  apply (fmap_Permutation fst) in Hp. rewrite fmap_cons in Hp. rewrite Hp in Hk.
  by apply NoDup_cons in Hk as [_ ?].
Qed.

(** Removing the pair of a slot. *)
Lemma backwardShiftErase_spec t c k v :
  table t -> inTable t c -> kvAt t c = Some (k, v) -> zlen (entries t) < capacity_ t ->
  ∃ t', backwardShiftErase t c = Some t' ∧ table t' ∧ capacity_ t' = capacity_ t ∧ size_ t' = size_ t ∧
    entries t ≡ₚ (k, v) :: entries t' ∧
    (badDestroys_ t' = badDestroys_ t <-> pslAt t (nextSlot t c) <= 1).
Proof.
  intros Ht Hc E Hlt. destruct (table_holed t c (k, v) Ht Hc E) as [Ho Hp].
  destruct (empty_slot t Ht Hlt) as (e & He & Ee). pose proof (shape_pos _ (tb_shape _ Ht)).
  assert (Hne : e ≠ c) by (intros ->; apply (tb_live _ Ht c Hc) in Ee; congruence).
  pose proof (Z.mod_pos_bound (e - c) (capacity_ t) ltac:(lia)).
  assert (Hmod : (c + (e - c) mod capacity_ t) mod capacity_ t = e).
  { rewrite Zplus_mod_idemp_r. replace (c + (e - c)) with e by lia. by apply Z.mod_small. }
  assert ((e - c) mod capacity_ t ≠ 0).
  { intros E0. rewrite E0, Z.add_0_r, Z.mod_small in Hmod by (unfold inTable in *; lia). congruence. }
  destruct (shiftLoop_spec (Z.to_nat (capacity_ t)) t c (Z.to_nat ((e - c) mod capacity_ t)) Ho)
    as (t' & Hl & Ht' & Hc' & Hs' & Hp' & _ & _ & Hb); rewrite ?Z2Nat.id, ?Hmod by lia; auto; try lia.
  exists t'. split_and!; auto. by rewrite Hp, Hp'.
Qed.

(** Erasing the pair of an occupied slot of a map. *)
Lemma erase_slot_spec t c k v :
  inv t -> inTable t c -> kvAt t c = Some (k, v) ->
  ∃ t1, backwardShiftErase t c = Some t1 ∧ inv (setSize t1 (size_ t1 - 1)) ∧
    size_ t1 = size_ t ∧ contentsOf t1 = delete k (contentsOf t) ∧
    (badDestroys_ t1 = badDestroys_ t <-> pslAt t (nextSlot t c) <= 1).
Proof.
  intros Hi Hc E. destruct Hi as [(E0 & _)|(Ht & Hs & Hl)]; [unfold inTable in Hc; lia|].
  pose proof (zlen_nonneg (entries t)). pose proof (shape_pos _ (tb_shape _ Ht)).
  destruct (backwardShiftErase_spec t c k v Ht Hc E) as (t1 & -> & Ht1 & Hc1 & Hs1 & Hp & Hb); [lia|].
  exists t1. split_and!; auto.
  - right. split; [by apply table_setSize|]. change (entries (setSize _ _)) with (entries t1). simpl.
    assert (zlen (entries t) = 1 + zlen (entries t1)) by (by rewrite Hp, zlen_cons). lia.
  - unfold contentsOf. rewrite (list_to_map_proper _ _ (tb_keys _ Ht) Hp). simpl.
    rewrite delete_insert_id; [done|]. apply not_elem_of_list_to_map_1.
    pose proof (tb_keys _ Ht) as Hk. apply (fmap_Permutation fst) in Hp. rewrite Hp in Hk. simpl in Hk.
    by apply NoDup_cons in Hk as [? _].
Qed.
(** ** Claims *)

(** [find], [contains], [count] and [size] answer as a finite map: on every map the
    members leave behind, a key is found exactly when it is bound, with its value, and
    [size_] is the number of bindings. *)
Theorem map_find_refines t k (Hinv : inv t) :
  lookup t k = contentsOf t !! k ∧
  contains t k = bool_decide (is_Some (contentsOf t !! k)) ∧
  count t k = (if bool_decide (is_Some (contentsOf t !! k)) then 1 else 0) ∧
  size_ t = Z.of_nat (size (contentsOf t)).
Proof.
  pose proof (inv_findSlot t k Hinv) as Hf. pose proof (inv_map_size t Hinv).
  unfold count, contains, lookup. destruct (findSlot t k) as [j|].
  - destruct Hf as (_ & v & Ek & ->). simpl. by rewrite Ek.
  - by rewrite Hf.
Qed.

(** C27. [emplace] ends and keeps the invariant.  On a bound key it changes nothing and
    returns the slot of the binding.  On a fresh key it adds the binding and nothing else
    when [size_] grows by one, which is certain while the table has fewer than 255 slots;
    in no case does it invent or alter a binding, and the slot it returns holds the new pair. *)
Theorem map_emplace_refines t k v (Hinv : inv t) (Hcap : capacity_ t <= 2 ^ 62) :
  ∃ t' r b, emplace t k v = Some (t', r, b) ∧ inv t' ∧ badDestroys_ t' = badDestroys_ t ∧
    match contentsOf t !! k with
    | Some w => t' = t ∧ b = false ∧ ∃ s, r = Some s ∧ kvAt t s = Some (k, w)
    | None =>
        b = true ∧ contentsOf t' ⊆ <[k:=v]> (contentsOf t) ∧
        (size_ t' = size_ t + 1 -> contentsOf t' = <[k:=v]> (contentsOf t)) ∧
        (capacity_ t' < kPslMax -> size_ t' = size_ t + 1) ∧
        match r with
        | Some s => kvAt t' s = Some (k, v)
        | None => size_ t' <= size_ t
        end
    end.
Proof.
  pose proof (inv_findSlot t k Hinv) as Hf. unfold emplace. destruct (findSlot t k) as [j|].
  - destruct Hf as (_ & w & Ek & ->). exists t, (Some j), false. split_and!; eauto.
  - rewrite Hf. destruct (grow_insert_spec t k v Hinv Hcap Hf) as (t' & r & E & Hi & Hb & Hsub & Hx & Hr).
    exists t', r, true. split_and!; auto.
    + destruct (growIfNeeded t) as [t1|]; [|done]. simpl in *. by rewrite E.
    + by apply contents_by_size.
    + destruct r; [apply Hr|done].
Qed.

(** [erase(key)] ends, removes exactly the key's binding, and keeps the invariant; the
    return value says whether there was one.  The payload of a slot is destroyed more than
    once exactly when the element behind the erased one had to move up. *)
Theorem map_erase_refines t k (Hinv : inv t) :
  ∃ t' n, erase t k = Some (t', n) ∧ inv t' ∧ contentsOf t' = delete k (contentsOf t) ∧
    match contentsOf t !! k with
    | Some v => n = 1 ∧ ∃ s, kvAt t s = Some (k, v) ∧
                (badDestroys_ t' = badDestroys_ t <-> pslAt t (nextSlot t s) <= 1)
    | None => n = 0 ∧ t' = t
    end.
Proof.
  pose proof (inv_findSlot t k Hinv) as Hf. unfold erase. destruct (findSlot t k) as [j|].
  - destruct Hf as (Hj & v & Ek & Hv). rewrite Hv.
    destruct (erase_slot_spec t j k v Hinv Hj Ek) as (t1 & -> & Hi & _ & Hc & Hb).
    eexists _, _. split; [done|]. split_and!; auto. eauto.
  - rewrite Hf. exists t, 0. split_and!; auto. by rewrite delete_id.
Qed.

(** The constructor rounds the requested capacity up to a power of two, at least four,
    and yields an empty map, for requests up to [2^63]. *)
Theorem map_construct_refines c (Hc : 0 <= c <= 2 ^ 63) :
  ∃ t, construct c = Some t ∧ inv t ∧ contentsOf t = ∅ ∧
    capacity_ t = 2 ^ Z.log2_up (Z.max c 4) ∧ Z.max c 4 <= capacity_ t.
Proof.
  unfold construct. rewrite nextPow2_spec by lia.
  assert (Hup : 2 <= Z.log2_up (Z.max c 4) <= 63).
  { split; [apply (Z.log2_up_le_mono 4); lia|]. apply Z.log2_up_le_pow2; lia. }
  destruct (rehash_spec (mkMap [] [] 0 0 0 0) (Z.log2_up (Z.max c 4)))
    as (t & -> & Ht & Hcap & _ & Hsub & Hs & _); [constructor|lia|unfold zlen; simpl; lia|].
  apply submseteq_nil_r in Hsub. exists t. split_and!; auto.
  - right. split_and!; auto. rewrite Hs, Hsub, Hcap. unfold zlen. simpl. lia.
  - unfold contentsOf. by rewrite Hsub.
  - rewrite Hcap. apply Z.log2_up_spec. lia.
Qed.

End Map.

Arguments FlatHashMap : clear implicits.

(** ** Witnesses *)

Definition idHash (k : Z) : Z := k.

Definition sampleMap : FlatHashMap Z Z :=
  Eval vm_compute in
    default (mkMap [] [] 0 0 0 0)
      (t ← construct idHash 4; '(t, _, _) ← emplace idHash t 7 70; '(t, _, _) ← emplace idHash t 9 90; Some t).

(** Split a slot index of the sample into its four values. *)
Ltac sample_slots :=
  intros i Hi; change (0 <= i < 4) in Hi;
  assert (i = 0 ∨ i = 1 ∨ i = 2 ∨ i = 3) as [-> | [-> | [-> | -> ]]] by lia.

Lemma sampleMap_inv : inv idHash sampleMap.
Proof.
  right. split_and!; [|done|done]. constructor.
  - constructor; [exists 2; done|done..].
  - sample_slots; done.
  - sample_slots; done.
  - intros i k v Hi. revert i Hi. sample_slots; intros [= <- <-]; done.
  - sample_slots; done.
  - decide_closed.
Qed.

Lemma map_find_refines_witness :
  lookup idHash sampleMap 9 = contentsOf sampleMap !! 9 ∧
  contains idHash sampleMap 9 = bool_decide (is_Some (contentsOf sampleMap !! 9)) ∧
  count idHash sampleMap 9 = (if bool_decide (is_Some (contentsOf sampleMap !! 9)) then 1 else 0) ∧
  size_ sampleMap = Z.of_nat (size (contentsOf sampleMap)).
Proof. exact (map_find_refines idHash sampleMap 9 sampleMap_inv). Defined.

Lemma map_emplace_refines_witness :
  contentsOf sampleMap !! 5 = None ∧
  ∃ t' r b, emplace idHash sampleMap 5 50 = Some (t', r, b) ∧ inv idHash t' ∧
    badDestroys_ t' = badDestroys_ sampleMap ∧
    match contentsOf sampleMap !! 5 with
    | Some w => t' = sampleMap ∧ b = false ∧ ∃ s, r = Some s ∧ kvAt sampleMap s = Some (5, w)
    | None =>
        b = true ∧ contentsOf t' ⊆ <[5:=50]> (contentsOf sampleMap) ∧
        (size_ t' = size_ sampleMap + 1 -> contentsOf t' = <[5:=50]> (contentsOf sampleMap)) ∧
        (capacity_ t' < kPslMax -> size_ t' = size_ sampleMap + 1) ∧
        match r with Some s => kvAt t' s = Some (5, 50) | None => size_ t' <= size_ sampleMap end
    end.
Proof.
  split; [reflexivity|].
  exact (map_emplace_refines idHash sampleMap 5 50 sampleMap_inv ltac:(vm_compute; discriminate)).
Defined.

Lemma map_erase_refines_witness :
  contentsOf sampleMap !! 7 = Some 70 ∧
  ∃ t' n, erase idHash sampleMap 7 = Some (t', n) ∧ inv idHash t' ∧
    contentsOf t' = delete 7 (contentsOf sampleMap) ∧
    match contentsOf sampleMap !! 7 with
    | Some v => n = 1 ∧ ∃ s, kvAt sampleMap s = Some (7, v) ∧
                (badDestroys_ t' = badDestroys_ sampleMap <-> pslAt sampleMap (nextSlot sampleMap s) <= 1)
    | None => n = 0 ∧ t' = sampleMap
    end.
Proof. split; [reflexivity|]. exact (map_erase_refines idHash sampleMap 7 sampleMap_inv). Defined.

Lemma map_construct_refines_witness :
  ∃ t : FlatHashMap Z Z, construct idHash 100 = Some t ∧ inv idHash t ∧ contentsOf t = ∅ ∧
    capacity_ t = 2 ^ Z.log2_up (Z.max 100 4) ∧ Z.max 100 4 <= capacity_ t.
Proof. exact (map_construct_refines idHash 100 ltac:(lia)). Defined.

(** ** Keys that collide *)

(** A hash functor that maps every key to one value. *)
Definition constHash (k : Z) : Z := 0.

(** [emplace] the keys [0 .. n-1]. *)
Fixpoint emplaceUpTo (n : nat) (t : FlatHashMap Z Z) : option (FlatHashMap Z Z) :=
  match n with
  | O => Some t
  | S n' => t ← emplaceUpTo n' t; '(t, _, _) ← emplace constHash t (Z.of_nat n') 0; Some t
  end.

(** Erasing the first of two colliding keys destroys a payload twice. *)
Example erase_destroys_twice :
  (t ← construct constHash 16; t ← emplaceUpTo 2 t; '(t, n) ← erase constHash t 0; Some (n, badDestroys_ t))
  = Some (1, 1%nat).
Proof. vm_compute. reflexivity. Qed.

(** With 254 keys of one hash value in the table, [emplace] of another one drops the
    pair: it reports an insertion, but [size_] stays, the key is not found, and the slot
    behind the returned iterator is [npos], which [operator[]] would dereference. *)
Theorem colliding_key_lost :
  (t ← construct constHash 16; t ← emplaceUpTo 254 t;
   '(t', r, b) ← emplace constHash t 254 0;
   Some (size_ t, size_ t', r, b, contains constHash t' 254, contains constHash t' 253))
  = Some (254, 254, None, true, false, true).
Proof. vm_compute. reflexivity. Qed.
