(* ===== verification/MpscQueue.v ===== *)
(** * Lock-free queue of many producers and one consumer (include/FastNet/MpscQueue.h)

    The nodes live in a heap of allocated addresses; an access to an address that is not
    allocated is a fault.  A producer's [push] is cut between its three effects on shared
    memory (allocation, exchange of [head_], store of [prev->next]) and the consumer's
    calls between the load of [next], the move of the value and the deletion of the old
    stub; the step relation interleaves the pieces of any number of producers with those
    of the consumer.  Atomic accesses are interleaved in program order.  The allocator may
    return any address that is free, a recycled one included; [push_back] of the target
    container is a parameter that may throw. *)

From S2P Require Import Prelude.

Abbreviation NodeId := nat.

Section Mpsc.
Context {T C : Type} (push_back : C -> T -> option C).

(** ** Data *)

(** [Node]; a value that has been moved from, or that of the initial stub, is [None]. *)
Record Node := mkNode { next : option NodeId; value : option T }.

(** [head_] and [tail_], with the memory the nodes live in. *)
Record MpscQueue := mkQueue { heap : gmap NodeId Node; head_ : NodeId; tail_ : NodeId }.

Definition setHeap (q : MpscQueue) h := mkQueue h (head_ q) (tail_ q).
Definition setTail (q : MpscQueue) t := mkQueue (heap q) (head_ q) t.

(** ** Memory accesses

    [None] is an access to an address that is not allocated; in [consumerStep] also the use
    of a value that has been moved from. *)

(** The constructor, with the address of the stub. *)
Definition construct (stub : NodeId) : MpscQueue :=
  mkQueue {[stub := mkNode None None]} stub stub.

(** [acquireNode], with the address the allocator returns. *)
Definition acquireNode (q : MpscQueue) (a : NodeId) (v : T) : MpscQueue :=
  setHeap q (<[a := mkNode None (Some v)]> (heap q)).

(** [head_.exchange(node)]. *)
Definition exchangeHead (q : MpscQueue) (node : NodeId) : MpscQueue * NodeId :=
  (mkQueue (heap q) node (tail_ q), head_ q).

(** [prev->next.store(node)]. *)
Definition storeNext (q : MpscQueue) (prev node : NodeId) : option MpscQueue :=
  n ← heap q !! prev; Some (setHeap q (<[prev := mkNode (Some node) (value n)]> (heap q))).

(** [tail->next.load()]. *)
Definition loadNext (q : MpscQueue) (n : NodeId) : option (option NodeId) :=
  next <$> heap q !! n.

(** [std::move(n->value)]. *)
Definition moveValue (q : MpscQueue) (n : NodeId) : option (MpscQueue * option T) :=
  x ← heap q !! n; Some (setHeap q (<[n := mkNode (next x) None]> (heap q)), value x).

Definition recycleNode (q : MpscQueue) (n : NodeId) : option MpscQueue :=
  _ ← heap q !! n; Some (setHeap q (delete n (heap q))).

Definition empty (q : MpscQueue) : option bool :=
  nx ← loadNext q (tail_ q); Some (bool_decide (nx = None)).

(** ** Producers *)

(** Where a [push] is: before the exchange, or between the exchange and the store. *)
Inductive ProducerPc :=
  | Exchanging (node : NodeId) (v : T)
  | Linking (prev node : NodeId).

(** A [push] that no other thread interleaves with. *)
Definition push (q : MpscQueue) (a : NodeId) (v : T) : option MpscQueue :=
  let q := acquireNode q a v in
  let '(q, prev) := exchangeHead q a in
  storeNext q prev a.

(** ** The consumer *)

(** Where the consumer is: outside a call; in [tryPop] before the move of the value and
    before the deletion of the old stub; in a drain at the head of the loop, before
    [push_back], before the deletion.  [drainAll] is a drain without limit. *)
Inductive ConsumerPc :=
  | Idle
  | PopTake (tail nx : NodeId)
  | PopFree (old : NodeId) (out : option T)
  | DrainLoad (tail : NodeId) (n : Z) (limit : option Z) (c : C)
  | DrainPush (tail nx : NodeId) (n : Z) (limit : option Z) (c : C)
  | DrainFree (old tail : NodeId) (n : Z) (limit : option Z) (c : C).

Inductive CallResult :=
  | PopFalse
  | PopTrue (out : option T)
  | Drained (n : Z) (c : C)
  | Threw (c : C).

(** One piece of the consumer's code: the call goes on, or returns. *)
Inductive Progress :=
  | Goes (q : MpscQueue) (pc : ConsumerPc) (delivered : list (option T))
  | Returns (q : MpscQueue) (r : CallResult).

(** Entry of [tryPop], up to the test of [next]. *)
Definition tryPop (q : MpscQueue) : option Progress :=
  let tail := tail_ q in
  nx ← loadNext q tail;
  Some match nx with
       | None => Returns q PopFalse
       | Some n => Goes q (PopTake tail n) []
       end.

(** Entry of [drainUpTo] ([Some maxItems]) and [drainAll] ([None]). *)
Definition drain (q : MpscQueue) (limit : option Z) (c : C) : ConsumerPc :=
  DrainLoad (tail_ q) 0 limit c.

Definition underLimit (n : Z) (limit : option Z) : bool :=
  match limit with Some maxItems => n <? maxItems | None => true end.

Definition consumerStep (q : MpscQueue) (pc : ConsumerPc) : option Progress :=
  match pc with
  | Idle => None
  | PopTake tail nx =>
      '(q, out) ← moveValue q nx;
      Some (Goes (setTail q nx) (PopFree tail out) [out])
  | PopFree old out =>
      q ← recycleNode q old;
      Some (Returns q (PopTrue out))
  | DrainLoad tail n limit c =>
      if underLimit n limit then
        nx ← loadNext q tail;
        Some match nx with
             | None => Returns (setTail q tail) (Drained n c)
             | Some nx => Goes q (DrainPush tail nx n limit c) []
             end
      else Some (Returns (setTail q tail) (Drained n c))
  | DrainPush tail nx n limit c =>
      '(q', v) ← moveValue q nx;
      v ← v;
      Some match push_back c v with
           | None => Returns q (Threw c)
           | Some c => Goes q' (DrainFree tail nx n limit c) [Some v]
           end
  | DrainFree old tail n limit c =>
      q ← recycleNode q old;
      Some (Goes q (DrainLoad tail (n + 1) limit c) [])
  end.

(** A call that no producer interleaves with, for at most [fuel] pieces. *)
Fixpoint runConsumer (fuel : nat) (q : MpscQueue) (pc : ConsumerPc) : option (MpscQueue * CallResult) :=
  match fuel with
  | O => None
  | S fuel =>
      match consumerStep q pc with
      | Some (Goes q pc _) => runConsumer fuel q pc
      | Some (Returns q r) => Some (q, r)
      | None => None
      end
  end.

(** The destructor's loop. *)
Fixpoint destroyFrom (fuel : nat) (q : MpscQueue) (curr : option NodeId) : option MpscQueue :=
  match curr, fuel with
  | None, _ => Some q
  | Some _, O => None
  | Some n, S fuel =>
      nx ← loadNext q n;
      q ← recycleNode q n;
      destroyFrom fuel q nx
  end.

Definition destroy (q : MpscQueue) : option MpscQueue :=
  destroyFrom (S (size (heap q))) q (Some (tail_ q)).

(** ** Interleavings *)

(** The queue and the threads at work on it; [pushed] lists the values in the order of the
    exchanges, [received] what the consumer has taken out. *)
Record Sys := mkSys {
  queue : MpscQueue;
  producers : gmap nat ProducerPc;
  consumer : ConsumerPc;
  pushed : list T;
  received : list (option T)
}.

Definition afterProgress (s : Sys) (g : Progress) : Sys :=
  match g with
  | Goes q pc d => mkSys q (producers s) pc (pushed s) (received s ++ d)
  | Returns q _ => mkSys q (producers s) Idle (pushed s) (received s)
  end.

(** One step of some thread; the target is [None] when the step faults. *)
Inductive step (s : Sys) : option Sys -> Prop :=
  | step_acquire p a v :
      producers s !! p = None -> heap (queue s) !! a = None ->
      step s (Some (mkSys (acquireNode (queue s) a v) (<[p := Exchanging a v]> (producers s))
                      (consumer s) (pushed s) (received s)))
  | step_exchange p a v q prev :
      producers s !! p = Some (Exchanging a v) ->
      exchangeHead (queue s) a = (q, prev) ->
      step s (Some (mkSys q (<[p := Linking prev a]> (producers s))
                      (consumer s) (pushed s ++ [v]) (received s)))
  | step_link p prev a :
      producers s !! p = Some (Linking prev a) ->
      step s ((fun q => mkSys q (delete p (producers s)) (consumer s) (pushed s) (received s))
                <$> storeNext (queue s) prev a)
  | step_tryPop :
      consumer s = Idle ->
      step s (afterProgress s <$> tryPop (queue s))
  | step_drain limit c :
      consumer s = Idle ->
      step s (Some (mkSys (queue s) (producers s) (drain (queue s) limit c) (pushed s) (received s)))
  | step_consumer :
      consumer s ≠ Idle ->
      step s (afterProgress s <$> consumerStep (queue s) (consumer s)).

Inductive reachable (stub : NodeId) : Sys -> Prop :=
  | reachable_init : reachable stub (mkSys (construct stub) ∅ Idle [] [])
  | reachable_step s s' : reachable stub s -> step s (Some s') -> reachable stub s'.

(** ** Invariant *)

(** The node the consumer stands on: the current stub. *)
Definition current (s : Sys) : NodeId :=
  match consumer s with
  | Idle | PopTake _ _ | PopFree _ _ => tail_ (queue s)
  | DrainLoad t _ _ _ | DrainPush t _ _ _ _ | DrainFree _ t _ _ _ => t
  end.

(** The stub the consumer is about to delete. *)
Definition doomed (s : Sys) : option NodeId :=
  match consumer s with
  | PopFree old _ | DrainFree old _ _ _ _ => Some old
  | _ => None
  end.

(** The node the consumer is about to take the value of. *)
Definition taking (s : Sys) : option NodeId :=
  match consumer s with
  | PopTake _ nx | DrainPush _ nx _ _ _ => Some nx
  | _ => None
  end.

Definition nodeOf (pc : ProducerPc) : NodeId :=
  match pc with Exchanging n _ | Linking _ n => n end.

Definition valueAt (h : gmap NodeId Node) (n : NodeId) : option T := h !! n ≫= value.

(** [b] follows [a] in the order of the exchanges, linked or about to be. *)
Definition follows (s : Sys) (a b : NodeId) : Prop :=
  ∃ x, heap (queue s) !! a = Some x ∧
    (next x = Some b ∨ next x = None ∧ ∃ p, producers s !! p = Some (Linking a b)).

(** [chain s a l]: the nodes [l] follow [a], one after the other, up to [head_]. *)
Fixpoint chain (s : Sys) (a : NodeId) (l : list NodeId) : Prop :=
  match l with
  | [] => a = head_ (queue s) ∧ ∃ x, heap (queue s) !! a = Some x ∧ next x = None
  | b :: l => follows s a b ∧ chain s b l
  end.

Record Inv (s : Sys) (l : list NodeId) : Prop := {
  inv_chain : chain s (current s) l;
  inv_nodup : NoDup (current s :: l);
  inv_linking p a b : producers s !! p = Some (Linking a b) ->
    (∃ i, (current s :: l) !! i = Some a ∧ l !! i = Some b) ∧
    ∃ x, heap (queue s) !! a = Some x ∧ next x = None;
  inv_exchanging p n v : producers s !! p = Some (Exchanging n v) ->
    heap (queue s) !! n = Some (mkNode None (Some v)) ∧ (n ∉ current s :: l) ∧ doomed s ≠ Some n;
  inv_owner p p' pc pc' : producers s !! p = Some pc -> producers s !! p' = Some pc' ->
    nodeOf pc = nodeOf pc' -> p = p';
  inv_values : Some <$> pushed s = received s ++ (valueAt (heap (queue s)) <$> l);
  inv_taking nx : taking s = Some nx ->
    head l = Some nx ∧ ∃ x, heap (queue s) !! current s = Some x ∧ next x = Some nx;
  inv_pop tail nx : consumer s = PopTake tail nx -> tail = tail_ (queue s);
  inv_doomed old : doomed s = Some old ->
    is_Some (heap (queue s) !! old) ∧ old ∉ current s :: l;
  inv_owned n : is_Some (heap (queue s) !! n) ->
    n ∈ current s :: l ∨ (∃ p v, producers s !! p = Some (Exchanging n v)) ∨ doomed s = Some n
}.

(** ** Lemmas on chains *)

Lemma chain_impl s s' l : ∀ a,
  head_ (queue s') = head_ (queue s) ->
  (∀ i x y, (a :: l) !! i = Some x -> l !! i = Some y -> follows s x y -> follows s' x y) ->
  (∀ x, heap (queue s) !! head_ (queue s) = Some x -> next x = None ->
     ∃ x', heap (queue s') !! head_ (queue s) = Some x' ∧ next x' = None) ->
  chain s a l -> chain s' a l.
Proof.
  induction l as [|b l IH]; cbn [chain]; intros a Hh Hf Hx Hc.
  - destruct Hc as [-> (x & Hx1 & Hx2)]. split; [done|]. by eapply Hx.
  - destruct Hc as [Hab Hc]. split; [by apply (Hf 0%nat)|].
    apply IH; [done | | done | done]. intros i x y ??. by apply (Hf (S i)).
Qed.

(** A change of memory or of the producers that keeps links and pending links. *)
Lemma chain_keep s s' a l :
  head_ (queue s') = head_ (queue s) ->
  (∀ n x, n ∈ a :: l -> heap (queue s) !! n = Some x ->
     ∃ x', heap (queue s') !! n = Some x' ∧ next x' = next x) ->
  (∀ p x y, producers s !! p = Some (Linking x y) -> ∃ p', producers s' !! p' = Some (Linking x y)) ->
  (head_ (queue s) ∈ a :: l) -> chain s a l -> chain s' a l.
Proof.
  intros Hh Hk Hp Hin. apply chain_impl; [done| |].
  - intros i x y Hx _ (n & Hn & Hl). destruct (Hk x n) as (n' & Hn' & E);
      [by eapply list_elem_of_lookup_2 | done |].
    exists n'. split; [done|]. rewrite E. destruct Hl as [?|(?&p&?)]; [by left|right; eauto].
  - intros x Hx Hn. destruct (Hk _ x Hin Hx) as (x' & ? & E). exists x'. by rewrite E.
Qed.

Lemma chain_head s l : ∀ a, chain s a l -> head_ (queue s) ∈ a :: l.
Proof.
  induction l as [|b l IH]; intros a; cbn [chain]; [intros [-> _]; by left|].
  intros [_ Hc]. right. by apply IH.
Qed.

Lemma chain_last s l : ∀ a, chain s a l -> last (a :: l) = Some (head_ (queue s)).
Proof.
  induction l as [|b l IH]; intros a; cbn [chain]; [by intros [-> _]|].
  intros [_ Hc]. rewrite last_cons_cons. by apply IH.
Qed.

Lemma chain_heap s l : ∀ a n, chain s a l -> n ∈ a :: l -> is_Some (heap (queue s) !! n).
Proof.
  induction l as [|b l IH]; intros a n; cbn [chain].
  - intros [_ (x & ? & _)] ->%list_elem_of_singleton. eauto.
  - intros [(x & ? & _) Hc] [->|Hin]%elem_of_cons; [eauto | by eapply IH].
Qed.

(** The chain grows at its end by an exchange. *)
Lemma chain_snoc s s' n l : ∀ a,
  head_ (queue s') = n -> heap (queue s') = heap (queue s) ->
  (∀ p x y, producers s !! p = Some (Linking x y) -> ∃ p', producers s' !! p' = Some (Linking x y)) ->
  (∃ p, producers s' !! p = Some (Linking (head_ (queue s)) n)) ->
  (∃ x, heap (queue s) !! n = Some x ∧ next x = None) ->
  chain s a l -> chain s' a (l ++ [n]).
Proof.
  intros a Hh Hheap Hp Hnew Hn. revert a. induction l as [|b l IH]; intros a; cbn [chain app].
  - intros [-> (x & Hx & E)]. unfold follows. rewrite Hheap. split_and!; eauto 8.
  - intros [(x & Hx & Hl) Hc]. split; [|by apply IH].
    exists x. rewrite Hheap. split; [done|]. destruct Hl as [?|(?&p&?)]; [by left|right; eauto].
Qed.

(** The successor of a node in a chain without repetition. *)
Lemma successor_unique (a : NodeId) l i j x y z :
  NoDup (a :: l) -> (a :: l) !! i = Some x -> (a :: l) !! j = Some x ->
  l !! i = Some y -> l !! j = Some z -> i = j ∧ y = z.
Proof. intros Hnd Hi Hj Hy Hz. pose proof (NoDup_lookup _ _ _ _ Hnd Hi Hj) as ->. split; congruence. Qed.

Lemma valueAt_keep h h' (l : list NodeId) :
  (∀ n, n ∈ l -> valueAt h' n = valueAt h n) -> (valueAt h' <$> l) = (valueAt h <$> l).
Proof. intros H. apply list_fmap_ext. intros i x Hx. apply H. by eapply list_elem_of_lookup_2. Qed.

(** ** Every step keeps the invariant *)

Lemma inv_heap s l n : Inv s l -> n ∈ current s :: l -> is_Some (heap (queue s) !! n).
Proof. intros I. apply chain_heap, I. Qed.

Lemma inv_fresh s l a : Inv s l -> heap (queue s) !! a = None ->
  (a ∉ current s :: l) ∧ doomed s ≠ Some a ∧ (∀ p v, producers s !! p ≠ Some (Exchanging a v)) ∧
  (∀ p pc, producers s !! p = Some pc -> nodeOf pc ≠ a).
Proof.
  intros I Ha.
  assert (Hin : a ∉ current s :: l) by (intros Hin; destruct (inv_heap _ _ _ I Hin); congruence).
  assert (Hex : ∀ p v, producers s !! p ≠ Some (Exchanging a v))
    by (intros p v [E _]%(inv_exchanging _ _ I); congruence).
  split_and!; [done | intros E; destruct (inv_doomed _ _ I _ E) as [[] _]; congruence | done |].
  intros p [n v|b n] Hp <-; [by eapply Hex|]. destruct (inv_linking _ _ I _ _ _ Hp) as [(i & _ & Hi) _].
  apply Hin. right. by eapply list_elem_of_lookup_2.
Qed.

Lemma acquire_inv s l p a v :
  Inv s l -> producers s !! p = None -> heap (queue s) !! a = None ->
  Inv (mkSys (acquireNode (queue s) a v) (<[p := Exchanging a v]> (producers s))
         (consumer s) (pushed s) (received s)) l.
Proof.
  intros I Hp Ha. destruct (inv_fresh _ _ _ I Ha) as (Hin & Hd & Hex & Hno).
  assert (Hne : ∀ n, is_Some (heap (queue s) !! n) -> n ≠ a) by (intros n [] ->; congruence).
  assert (Hk : ∀ n x, heap (queue s) !! n = Some x ->
    (<[a := mkNode None (Some v)]> (heap (queue s))) !! n = Some x).
  { intros n x Hx. rewrite lookup_insert_ne; [done|]. symmetry. apply Hne. eauto. }
  assert (Hpk : ∀ p' pc, producers s !! p' = Some pc -> (<[p := Exchanging a v]> (producers s)) !! p' = Some pc).
  { intros p' pc Hp'. rewrite lookup_insert_ne; [done|congruence]. }
  split; unfold current, doomed, taking in *; cbn in *.
  - eapply chain_keep, I; [done | | | by eapply chain_head, I]; cbn; eauto.
  - apply I.
  - intros p' x y [[-> E]|[_ Hp']]%lookup_insert_Some; [done|].
    destruct (inv_linking _ _ I _ _ _ Hp') as [? (z & ? & ?)]. split; eauto.
  - intros p' n w [[<- [= <- <-]]|[_ Hp']]%lookup_insert_Some; [by rewrite lookup_insert_eq|].
    destruct (inv_exchanging _ _ I _ _ _ Hp') as (? & ? & ?). eauto.
  - intros p1 p2 x y [[<- <-]|[? H1]]%lookup_insert_Some [[<- <-]|[? H2]]%lookup_insert_Some E;
      [done | by destruct (Hno _ _ H2) | by destruct (Hno _ _ H1) | by eapply (inv_owner _ _ I)].
  - rewrite (inv_values _ _ I). f_equal. symmetry. apply valueAt_keep. intros n Hn.
    unfold valueAt. rewrite lookup_insert_ne; [done|]. intros <-. apply Hin. by right.
  - intros nx Hnx. destruct (inv_taking _ _ I nx Hnx) as [? (x & ? & ?)]. eauto.
  - apply (inv_pop _ _ I).
  - intros old Ho. destruct (inv_doomed _ _ I old Ho) as [[] ?]. eauto.
  - intros n [x [[<- _]|[? Hx]]%lookup_insert_Some]; [right; left; exists p, v; by rewrite lookup_insert_eq|].
    destruct (inv_owned _ _ I n) as [?|[(p' & w & ?)|?]]; eauto 8.
Qed.

Lemma exchange_inv s l p a v :
  Inv s l -> producers s !! p = Some (Exchanging a v) ->
  Inv (mkSys (mkQueue (heap (queue s)) a (tail_ (queue s)))
         (<[p := Linking (head_ (queue s)) a]> (producers s))
         (consumer s) (pushed s ++ [v]) (received s)) (l ++ [a]).
Proof.
  intros I Hp. destruct (inv_exchanging _ _ I _ _ _ Hp) as (Ha & Hin & Hd).
  pose proof (chain_last _ _ _ (inv_chain _ _ I)) as Hlast.
  assert (Hpk : ∀ p' x y, producers s !! p' = Some (Linking x y) ->
    (<[p := Linking (head_ (queue s)) a]> (producers s)) !! p' = Some (Linking x y)).
  { intros p' x y Hp'. rewrite lookup_insert_ne; [done|congruence]. }
  split; unfold current, doomed, taking in *; cbn in *.
  - eapply chain_snoc, I; cbn; eauto. exists p. by rewrite lookup_insert_eq.
  - rewrite app_comm_cons. apply NoDup_app. split_and!; [apply I | | apply NoDup_singleton].
    intros x Hx ->%list_elem_of_singleton. done.
  - intros p' x y [[<- [= <- <-]]|[_ Hp']]%lookup_insert_Some.
    + split.
      * exists (length l). rewrite last_lookup in Hlast. cbn in Hlast.
        rewrite app_comm_cons, lookup_app_l by (cbn; lia). split; [done|].
        by rewrite lookup_app_r, Nat.sub_diag by lia.
      * assert (Hc := inv_chain _ _ I). clear -Hc. revert Hc. generalize (current s).
        induction l as [|b l IH]; cbn; intros c; [intros [-> ?]; done|intros [_ ?]; eauto].
    + destruct (inv_linking _ _ I _ _ _ Hp') as [(i & ? & ?) ?]. split; [|done].
      exists i. rewrite app_comm_cons. split; by apply lookup_app_l_Some.
  - intros p' n w [[_ E]|[Hne Hp']]%lookup_insert_Some; [done|].
    destruct (inv_exchanging _ _ I _ _ _ Hp') as (? & Hn & ?). split_and!; [done| |done].
    rewrite app_comm_cons, not_elem_of_app, list_elem_of_singleton. split; [done|]. intros ->.
    by destruct (Hne (inv_owner _ _ I _ _ _ _ Hp Hp' eq_refl)).
  - intros p1 p2 x y [[<- <-]|[? H1]]%lookup_insert_Some [[<- <-]|[? H2]]%lookup_insert_Some E;
      [done | by apply (inv_owner _ _ I _ _ _ _ Hp H2) | by apply (inv_owner _ _ I _ _ _ _ H1 Hp)
      | by eapply (inv_owner _ _ I)].
  - rewrite !fmap_app, (inv_values _ _ I), <- app_assoc. cbn.
    by assert (valueAt (heap (queue s)) a = Some v) as -> by (unfold valueAt; by rewrite Ha).
  - intros nx Hnx. destruct (inv_taking _ _ I nx Hnx) as [? (x & ? & ?)]. split; [|eauto].
    by destruct l.
  - apply (inv_pop _ _ I).
  - intros old Ho. destruct (inv_doomed _ _ I old Ho) as [[] ?]. split; [eauto|].
    rewrite app_comm_cons, not_elem_of_app, list_elem_of_singleton. split; [done|congruence].
  - intros n Hn. rewrite app_comm_cons, elem_of_app, list_elem_of_singleton.
    destruct (inv_owned _ _ I n Hn) as [?|[(p' & w & Hp')|?]]; [auto| |auto].
    destruct (decide (p' = p)) as [->|]; [left; right; congruence|].
    right. left. exists p', w. by rewrite lookup_insert_ne.
Qed.

Lemma link_inv s l p a b x :
  Inv s l -> producers s !! p = Some (Linking a b) -> heap (queue s) !! a = Some x ->
  Inv (mkSys (setHeap (queue s) (<[a := mkNode (Some b) (value x)]> (heap (queue s))))
         (delete p (producers s)) (consumer s) (pushed s) (received s)) l.
Proof.
  intros I Hp Hx. destruct (inv_linking _ _ I _ _ _ Hp) as [(i & Hia & Hib) (x' & Hx' & Hnone)].
  assert (x' = x) as -> by congruence. pose proof (inv_nodup _ _ I) as Hnd.
  pose proof (chain_last _ _ _ (inv_chain _ _ I)) as Hlast. rewrite last_lookup in Hlast. cbn in Hlast.
  assert (Hhead : head_ (queue s) ≠ a).
  { intros E. rewrite E in Hlast. pose proof (NoDup_lookup _ _ _ _ Hnd Hia Hlast) as ->.
    by rewrite lookup_ge_None_2 in Hib by lia. }
  assert (Hk : ∀ n y, heap (queue s) !! n = Some y -> n ≠ a ->
    (<[a := mkNode (Some b) (value x)]> (heap (queue s))) !! n = Some y)
    by (intros; by rewrite lookup_insert_ne).
  assert (Hs : ∀ n, is_Some (heap (queue s) !! n) ->
    is_Some ((<[a := mkNode (Some b) (value x)]> (heap (queue s))) !! n)).
  { intros n ?. destruct (decide (n = a)) as [->|]; [rewrite lookup_insert_eq; eauto|].
    by rewrite lookup_insert_ne. }
  assert (Ha : ∀ p' y, producers s !! p' = Some (Linking a y) -> p' = p ∧ y = b).
  { intros p' y Hp'. destruct (inv_linking _ _ I _ _ _ Hp') as [(j & Hj & Hjy) _].
    destruct (successor_unique _ _ _ _ _ _ _ Hnd Hia Hj Hib Hjy) as [_ <-].
    split; [by eapply (inv_owner _ _ I _ _ _ _ Hp' Hp)|done]. }
  split; unfold current, doomed, taking in *; cbn in *.
  - eapply chain_impl, I; [done| |].
    + intros j n y Hn Hy (z & Hz & Hl). unfold follows; cbn. destruct (decide (n = a)) as [->|Hne].
      * destruct (successor_unique _ _ _ _ _ _ _ Hnd Hia Hn Hib Hy) as [_ <-].
        rewrite lookup_insert_eq. eauto.
      * exists z. split; [by apply Hk|]. destruct Hl as [?|(? & p' & Hp')]; [by left|right].
        split; [done|]. exists p'. rewrite lookup_delete_ne; [done|congruence].
    + intros y ??. exists y. split; [by apply Hk|done].
  - done.
  - intros p' y z [Hne Hp']%lookup_delete_Some.
    destruct (inv_linking _ _ I _ _ _ Hp') as [? (w & ? & ?)]. split; [done|].
    exists w. split; [|done]. apply Hk; [done|]. intros ->. by destruct (Ha _ _ Hp').
  - intros p' n v [Hne Hp']%lookup_delete_Some. destruct (inv_exchanging _ _ I _ _ _ Hp') as (? & Hn & ?).
    split_and!; [|done|done]. apply Hk; [done|]. intros ->. apply Hn. by eapply list_elem_of_lookup_2.
  - intros p1 p2 y z [_ H1]%lookup_delete_Some [_ H2]%lookup_delete_Some. by apply (inv_owner _ _ I).
  - rewrite (inv_values _ _ I). f_equal. symmetry. apply valueAt_keep. intros n _. unfold valueAt.
    destruct (decide (n = a)) as [->|]; [by rewrite lookup_insert_eq, Hx | by rewrite lookup_insert_ne].
  - intros nx Hnx. destruct (inv_taking _ _ I nx Hnx) as [? (y & ? & ?)]. split; [done|]. exists y.
    split; [|done]. apply Hk; [done|]. intros E. unfold current in *. congruence.
  - apply (inv_pop _ _ I).
  - intros old Ho. destruct (inv_doomed _ _ I old Ho) as [? ?]. auto.
  - intros n Hn. destruct (inv_owned _ _ I n) as [?|[(p' & w & ?)|?]]; [| auto | | auto].
    + destruct (decide (n = a)) as [->|]; [eauto|]. by rewrite lookup_insert_ne in Hn.
    + right. left. exists p', w. rewrite lookup_delete_ne; [done|congruence].
Qed.

(** The consumer takes the value of the node after its stub, which becomes the stub. *)
Lemma take_inv s l nx x t pc :
  Inv s l -> taking s = Some nx -> doomed s = None -> heap (queue s) !! nx = Some x ->
  let s' := mkSys (mkQueue (<[nx := mkNode (next x) None]> (heap (queue s))) (head_ (queue s)) t)
              (producers s) pc (pushed s) (received s ++ [value x]) in
  current s' = nx -> doomed s' = Some (current s) -> taking s' = None ->
  Inv s' (tail l).
Proof.
  intros I Ht Hd Hx s' Hc Hd' Ht'. destruct (inv_taking _ _ I _ Ht) as [Hl (y & Hy & Hyn)].
  destruct l as [|nx' l]; [done|]. injection Hl as ->. cbn [tail].
  pose proof (inv_nodup _ _ I) as [Hnin Hnd]%NoDup_cons.
  destruct (inv_chain _ _ I) as [_ Hch].
  assert (Hcn : current s ≠ nx) by (intros E; apply Hnin; rewrite E; left).
  assert (Hpl : ∀ p a b, producers s !! p = Some (Linking a b) -> a ≠ current s)
    by (intros p a b Hp ->; destruct (inv_linking _ _ I _ _ _ Hp) as [_ (? & ? & ?)]; congruence).
  split; rewrite ?Hc, ?Hd', ?Ht'; subst s'; cbn in *.
  - eapply chain_keep, Hch; [done | | eauto | by eapply chain_head]. cbn. intros n z _ Hz.
    destruct (decide (n = nx)) as [->|]; [rewrite lookup_insert_eq; eexists; split; [done|]; cbn; congruence|].
    rewrite lookup_insert_ne by done. eauto.
  - done.
  - intros p a b Hp. destruct (inv_linking _ _ I _ _ _ Hp) as [(i & Hi & Hb) (z & Hz & Hzn)].
    destruct i as [|i]; [by destruct (Hpl _ _ _ Hp); injection Hi|]. split; [by exists i|].
    destruct (decide (a = nx)) as [->|]; [rewrite lookup_insert_eq; eexists; split; [done|]; cbn; congruence|].
    rewrite lookup_insert_ne by done. eauto.
  - intros p n v Hp. destruct (inv_exchanging _ _ I _ _ _ Hp) as (? & [? Hn]%not_elem_of_cons & ?).
    split_and!; [|done|congruence]. rewrite lookup_insert_ne; [done|]. intros <-. apply Hn. left.
  - apply (inv_owner _ _ I).
  - rewrite (inv_values _ _ I), <- app_assoc. cbn. unfold valueAt at 1. rewrite Hx. cbn. do 2 f_equal.
    symmetry. apply valueAt_keep. intros n Hn. unfold valueAt. rewrite lookup_insert_ne; [done|].
    intros <-. by apply NoDup_cons in Hnd as [].
  - done.
  - intros tl n ->. done.
  - intros old [= <-]. split; [|done]. rewrite lookup_insert_ne by done. eauto.
  - intros n [z [[<- _]|[Hne Hz]]%lookup_insert_Some]; [left; left|].
    destruct (inv_owned _ _ I n) as [[->|?]%elem_of_cons|[?|?]]; [eauto|auto..|congruence].
Qed.

(** The old stub is deleted. *)
Lemma free_inv s l old pc :
  Inv s l -> doomed s = Some old ->
  let s' := mkSys (setHeap (queue s) (delete old (heap (queue s))))
              (producers s) pc (pushed s) (received s) in
  current s' = current s -> doomed s' = None -> taking s' = None ->
  Inv s' l.
Proof.
  intros I Hd s' Hc Hd' Ht'. destruct (inv_doomed _ _ I _ Hd) as [_ Hold].
  assert (Hk : ∀ n, n ∈ current s :: l -> delete old (heap (queue s)) !! n = heap (queue s) !! n)
    by (intros n Hn; rewrite lookup_delete_ne; [done | by intros ->]).
  split; rewrite ?Hc, ?Hd', ?Ht'; subst s'; cbn in *.
  - eapply chain_keep, I; [done | | eauto | by eapply chain_head, I]. cbn. intros n z Hn. rewrite Hk; eauto.
  - apply I.
  - intros p a b Hp. destruct (inv_linking _ _ I _ _ _ Hp) as [(i & Hi & Hb) ?].
    rewrite Hk by (by eapply list_elem_of_lookup_2). eauto.
  - intros p n v Hp. destruct (inv_exchanging _ _ I _ _ _ Hp) as (? & ? & ?).
    rewrite lookup_delete_ne by congruence. done.
  - apply (inv_owner _ _ I).
  - rewrite (inv_values _ _ I). f_equal. symmetry. apply valueAt_keep. intros n Hn. unfold valueAt.
    rewrite Hk; [done|by right].
  - done.
  - by intros tl n ->.
  - done.
  - intros n [z [Hne Hz]%lookup_delete_Some].
    destruct (inv_owned _ _ I n) as [?|[?|?]]; [eauto|auto|auto|congruence].
Qed.

(** The consumer moves on without a change of memory. *)
Lemma control_inv s l t pc :
  Inv s l -> doomed s = None ->
  let s' := mkSys (setTail (queue s) t) (producers s) pc (pushed s) (received s) in
  current s' = current s -> doomed s' = None ->
  (∀ nx, taking s' = Some nx -> ∃ x, heap (queue s) !! current s = Some x ∧ next x = Some nx) ->
  (∀ tail nx, pc = PopTake tail nx -> tail = t) ->
  Inv s' l.
Proof.
  intros I Hd s' Hc Hd' Ht' Hpop. split; rewrite ?Hc, ?Hd'; subst s'; cbn in *; try apply I.
  - eapply chain_keep, I; [done | eauto | eauto | by eapply chain_head, I].
  - intros p n v Hp. by destruct (inv_exchanging _ _ I _ _ _ Hp) as (? & ? & ?).
  - intros nx Hnx. destruct (Ht' nx Hnx) as (x & Hx & Hn). split; [|eauto].
    destruct l as [|b l]; destruct (inv_chain _ _ I) as [Hch1 Hch2].
    + destruct Hch2 as (x' & ? & ?). congruence.
    + destruct Hch1 as (x' & ? & [?|[? _]]); cbn; congruence.
  - done.
  - done.
  - intros n Hn. destruct (inv_owned _ _ I n Hn) as [?|[?|?]]; [auto|auto|congruence].
Qed.

Lemma pending_some s l n : Inv s l -> n ∈ l -> ∃ v, valueAt (heap (queue s)) n = Some v.
Proof.
  intros I Hn. assert (Hin : valueAt (heap (queue s)) n ∈ Some <$> pushed s).
  { rewrite (inv_values _ _ I). apply elem_of_app. right. by apply list_elem_of_fmap_2. }
  apply list_elem_of_fmap in Hin as (v & -> & _). eauto.
Qed.

Lemma setTail_id q : setTail q (tail_ q) = q.
Proof. by destruct q. Qed.

Lemma init_inv stub : Inv (mkSys (construct stub) ∅ Idle [] []) [].
Proof.
  split; cbn; try done.
  - split; [done|]. rewrite lookup_singleton_eq. eauto.
  - apply NoDup_singleton.
  - intros n [x [<- _]%lookup_singleton_Some]. left. left.
Qed.

Lemma tryPop_inv s l :
  Inv s l -> consumer s = Idle -> ∃ g, tryPop (queue s) = Some g ∧ Inv (afterProgress s g) l.
Proof.
  intros I Hi. unfold tryPop, loadNext. destruct (inv_heap _ _ (current s) I) as [x Hx]; [left|].
  assert (Hcur : current s = tail_ (queue s)) by (unfold current; by rewrite Hi). rewrite Hcur in Hx.
  rewrite Hx. cbn. eexists. split; [done|].
  assert (Hd : doomed s = None) by (unfold doomed; by rewrite Hi).
  rewrite <- (setTail_id (queue s)).
  destruct (next x) as [nx|] eqn:E; cbn; rewrite ?app_nil_r;
    (apply control_inv; [done | done | by rewrite Hcur | done | |]);
    rewrite ?Hcur; unfold taking; cbn; try done; naive_solver.
Qed.

Section Steps.
Hypothesis push_total : ∀ c v, is_Some (push_back c v).

Lemma consumer_inv s l :
  Inv s l -> consumer s ≠ Idle ->
  ∃ g, consumerStep (queue s) (consumer s) = Some g ∧ ∃ l', Inv (afterProgress s g) l'.
Proof.
  intros I Hi. destruct (consumer s) as [|tail nx|old out|tail n limit c|tail nx n limit c|old tail n limit c] eqn:E;
    cbn [consumerStep]; [done|..].
  - assert (Ht : taking s = Some nx) by (unfold taking; by rewrite E).
    pose proof (inv_pop _ _ I _ _ E) as ->.
    destruct (inv_taking _ _ I _ Ht) as [Hl _]. destruct l as [|b l]; [done|]. injection Hl as ->.
    destruct (inv_heap _ _ nx I) as [x Hx]; [right; left|]. unfold moveValue. rewrite Hx. cbn.
    eexists. split; [done|]. exists l. cbn. eapply (take_inv s (nx :: l) nx x nx); try done;
      unfold doomed, current; cbn; by rewrite E.
  - assert (Hd : doomed s = Some old) by (unfold doomed; by rewrite E).
    destruct (inv_doomed _ _ I _ Hd) as [[x Hx] _]. unfold recycleNode. rewrite Hx. cbn.
    eexists. split; [done|]. exists l. cbn. eapply free_inv; try done. unfold current; cbn; by rewrite E.
  - assert (Hd : doomed s = None) by (unfold doomed; by rewrite E).
    assert (Hcur : current s = tail) by (unfold current; by rewrite E).
    assert (Hret : Inv (afterProgress s (Returns (setTail (queue s) tail) (Drained n c))) l).
    { cbn. apply control_inv; try done. }
    destruct (underLimit n limit); [|eauto].
    destruct (inv_heap _ _ (current s) I) as [x Hx]; [left|]. rewrite Hcur in Hx.
    unfold loadNext. rewrite Hx. cbn. destruct (next x) as [nx|] eqn:En; [|eauto].
    eexists. split; [done|]. exists l. cbn. rewrite app_nil_r, <- (setTail_id (queue s)).
    apply control_inv; try done. rewrite Hcur. unfold taking; cbn. naive_solver.
  - assert (Ht : taking s = Some nx) by (unfold taking; by rewrite E).
    destruct (inv_taking _ _ I _ Ht) as [Hl _]. destruct l as [|b l]; [done|]. injection Hl as ->.
    destruct (inv_heap _ _ nx I) as [x Hx]; [right; left|].
    destruct (pending_some _ _ nx I) as [v Hv]; [left|]. unfold valueAt in Hv. rewrite Hx in Hv. cbn in Hv.
    unfold moveValue. rewrite Hx. cbn. rewrite Hv. cbn. destruct (push_total c v) as [c' ->].
    eexists. split; [done|]. exists l. cbn. rewrite <- Hv.
    eapply (take_inv s (nx :: l) nx x); try done; unfold doomed, current; cbn; by rewrite E.
  - assert (Hd : doomed s = Some old) by (unfold doomed; by rewrite E).
    destruct (inv_doomed _ _ I _ Hd) as [[x Hx] _]. unfold recycleNode. rewrite Hx. cbn.
    eexists. split; [done|]. exists l. cbn. rewrite app_nil_r.
    eapply free_inv; try done. unfold current; cbn; by rewrite E.
Qed.

Lemma step_inv s l o : Inv s l -> step s o -> ∃ s', o = Some s' ∧ ∃ l', Inv s' l'.
Proof.
  intros I [p a v Hp Ha|p a v q prev Hp [= <- <-]|p prev a Hp|Hi|limit c Hi|Hi].
  - eauto using acquire_inv.
  - eauto using exchange_inv.
  - destruct (inv_linking _ _ I _ _ _ Hp) as [_ (x & Hx & _)]. unfold storeNext. rewrite Hx. cbn.
    eauto using link_inv.
  - destruct (tryPop_inv _ _ I Hi) as (g & -> & ?). cbn. eauto.
  - eexists. split; [done|]. exists l. rewrite <- (setTail_id (queue s)).
    apply control_inv; try done; [unfold doomed; by rewrite Hi|]. unfold current, drain; cbn. by rewrite Hi.
  - destruct (consumer_inv _ _ I Hi) as (g & -> & ?). cbn. eauto.
Qed.

Lemma reachable_inv stub s : reachable stub s -> ∃ l, Inv s l.
Proof.
  induction 1 as [|s s' _ [l IH] Hs]; [exists []; apply init_inv|].
  destruct (step_inv _ _ _ IH Hs) as (? & [= <-] & ?). done.
Qed.

End Steps.

(** ** The queue as a list, when no call is in progress *)

Fixpoint linked (h : gmap NodeId Node) (a : NodeId) (l : list NodeId) : Prop :=
  match l with
  | [] => ∃ x, h !! a = Some x ∧ next x = None
  | b :: l => (∃ x, h !! a = Some x ∧ next x = Some b) ∧ linked h b l
  end.

(** From stub [a] on, the nodes [l] hold the values [vs], and there are no other nodes. *)
Record holdsFrom (q : MpscQueue) (a : NodeId) (l : list NodeId) (vs : list T) : Prop := {
  holds_linked : linked (heap q) a l;
  holds_nodup : NoDup (a :: l);
  holds_last : last (a :: l) = Some (head_ q);
  holds_values : valueAt (heap q) <$> l = Some <$> vs;
  holds_all n : is_Some (heap q !! n) -> n ∈ a :: l
}.

Definition holds (q : MpscQueue) (vs : list T) : Prop := ∃ l, holdsFrom q (tail_ q) l vs.

(** [push_back] of several values. *)
Fixpoint pushAll (c : C) (vs : list T) : option C :=
  match vs with [] => Some c | v :: vs => c ← push_back c v; pushAll c vs end.

Lemma linked_keep h h' l : ∀ a,
  (∀ n x, n ∈ a :: l -> h !! n = Some x -> ∃ x', h' !! n = Some x' ∧ next x' = next x) ->
  linked h a l -> linked h' a l.
Proof.
  induction l as [|b l IH]; intros a Hk; cbn [linked].
  - intros (x & Hx & E). destruct (Hk a x) as (x' & ? & ?); [left|done|]. exists x'. split; congruence.
  - intros [(x & Hx & E) Hl]. destruct (Hk a x) as (x' & ? & ?); [left|done|].
    split; [exists x'; split; congruence|]. apply IH; [|done]. intros n y Hn. apply Hk. by right.
Qed.

Lemma linked_heap h l : ∀ a, linked h a l -> ∀ n, n ∈ a :: l -> is_Some (h !! n).
Proof.
  induction l as [|b l IH]; intros c; [intros (x & ? & _) n ->%list_elem_of_singleton; eauto|].
  intros [(x & ? & _) Hl] n [->|Hn]%elem_of_cons; eauto.
Qed.

Lemma holdsFrom_front q a l vs : holdsFrom q a l vs -> ∃ x, heap q !! a = Some x ∧ next x = head l.
Proof. intros H. destruct l as [|b l]; [|destruct (holds_linked _ _ _ _ H) as [? _]; done]. apply H. Qed.

(** Taking the first value and deleting the old stub moves the queue on by one. *)
Lemma holdsFrom_pop q a b l vs t :
  holdsFrom q a (b :: l) vs ->
  ∃ x v, heap q !! b = Some x ∧ value x = Some v ∧ head vs = Some v ∧ a ≠ b ∧
    holdsFrom (mkQueue (delete a (<[b := mkNode (next x) None]> (heap q))) (head_ q) t) b l (tail vs).
Proof.
  intros H. destruct (holds_linked _ _ _ _ H) as [_ Hl].
  pose proof (holds_nodup _ _ _ _ H) as [Ha Hnd]%NoDup_cons. pose proof (holds_values _ _ _ _ H) as Hv.
  destruct vs as [|v vs]; [done|]. injection Hv as Hv1 Hv2.
  unfold valueAt in Hv1. destruct (heap q !! b) as [x|] eqn:Hx; [|done]. cbn in Hv1.
  assert (Hab : a ≠ b) by (intros ->; apply Ha; left).
  assert (Hk : ∀ n, n ∈ l -> delete a (<[b := mkNode (next x) None]> (heap q)) !! n = heap q !! n).
  { intros n Hn. apply NoDup_cons in Hnd as [Hb _].
    rewrite lookup_delete_ne, lookup_insert_ne; [done | by intros -> |]. intros ->. apply Ha. by right. }
  exists x, v. split_and!; [done..|]. split; cbn.
  - eapply linked_keep, Hl. intros n y Hn Hy. destruct (decide (n = b)) as [->|Hne].
    + rewrite lookup_delete_ne, lookup_insert_eq by done. eexists. split; [done|]. cbn. congruence.
    + apply elem_of_cons in Hn as [->|Hn]; [done|]. rewrite (Hk n Hn). eauto.
  - done.
  - pose proof (holds_last _ _ _ _ H) as E. by rewrite last_cons_cons in E.
  - change (valueAt (heap q) <$> l = Some <$> vs) in Hv2. rewrite <- Hv2. apply valueAt_keep.
    intros n Hn. unfold valueAt. by rewrite Hk.
  - intros n [y [Hna Hy]%lookup_delete_Some]. apply lookup_insert_Some in Hy as [[<- _]|[_ Hy]]; [left|].
    assert (Hn : n ∈ a :: b :: l) by (apply (holds_all _ _ _ _ H); eauto).
    apply elem_of_cons in Hn as [->|?]; done.
Qed.

Lemma holds_setTail q a l vs : holdsFrom q a l vs -> holds (setTail q a) vs.
Proof. intros H. exists l. split; apply H. Qed.

(** How many values a drain takes that has already taken [n]. *)
Definition budget (n : Z) (limit : option Z) (k : nat) : nat :=
  match limit with Some maxItems => Nat.min (Z.to_nat (maxItems - n)) k | None => k end.

Lemma budget_stop n limit k : underLimit n limit = false -> budget n limit k = O.
Proof. destruct limit; cbn; [|done]. lia. Qed.

Lemma budget_go n limit k : underLimit n limit = true -> budget n limit (S k) = S (budget (n + 1) limit k).
Proof. destruct limit; cbn; [|done]. lia. Qed.

Lemma drain_holds q l vs n limit c c' : ∀ a fuel,
  holdsFrom q a l vs -> (3 * length l + 1 <= fuel)%nat ->
  pushAll c (take (budget n limit (length vs)) vs) = Some c' ->
  ∃ q', runConsumer fuel q (DrainLoad a n limit c) =
          Some (q', Drained (n + Z.of_nat (budget n limit (length vs))) c') ∧
        holds q' (drop (budget n limit (length vs)) vs).
Proof.
  intros a fuel. revert q a vs n c fuel.
  induction l as [|b l IH]; intros q a vs n c fuel H Hf Hc; (destruct fuel as [|fuel]; [lia|]);
    cbn [runConsumer consumerStep]; pose proof (holds_values _ _ _ _ H) as Hv;
    destruct (holdsFrom_front _ _ _ _ H) as (x & Hx & Hnx);
    (destruct (underLimit n limit) eqn:Eu;
     [|rewrite budget_stop in Hc |- * by done; injection Hc as <-; rewrite Z.add_0_r;
       eexists; split; [done|]; by eapply holds_setTail]);
    unfold loadNext; rewrite Hx; cbn -[runConsumer consumerStep]; rewrite Hnx; cbn [head].
  - destruct vs as [|v vs]; [|done].
    replace (budget _ _ _) with O in Hc |- * by (destruct limit; cbn; lia). injection Hc as <-.
    rewrite Z.add_0_r. eexists. split; [done|]. by eapply holds_setTail.
  - destruct (holdsFrom_pop q a b l vs (tail_ q) H) as (y & v & Hy & Hyv & Hvs & Hab & H').
    destruct vs as [|v' vs]; [done|]. injection Hvs as ->.
    destruct fuel as [|[|fuel]]; [cbn in Hf; lia..|].
    cbn [length] in Hc |- *. rewrite budget_go in Hc |- * by done. cbn [take pushAll drop] in Hc |- *.
    destruct (push_back c v) as [c1|] eqn:Ec; [|done]. cbn in Hc.
    cbn [runConsumer consumerStep]. unfold moveValue. rewrite Hy. cbn -[runConsumer consumerStep].
    rewrite Hyv. cbn -[runConsumer consumerStep]. rewrite Ec. cbn [runConsumer consumerStep].
    unfold recycleNode. cbn -[runConsumer]. rewrite lookup_insert_ne, Hx by done. cbn -[runConsumer].
    destruct (IH _ b vs (n + 1) c1 fuel H') as (q' & Hq' & ?); [cbn in Hf; lia | done |].
    exists q'. split; [|done]. unfold setHeap; cbn in *. rewrite Hq'. do 3 f_equal. lia.
Qed.

Lemma pop_holds q v vs :
  holds q (v :: vs) ->
  ∃ pc q', tryPop q = Some (Goes q pc []) ∧ runConsumer 2 q pc = Some (q', PopTrue (Some v)) ∧ holds q' vs.
Proof.
  intros [l H]. destruct (holdsFrom_front _ _ _ _ H) as (x & Hx & Hnx).
  pose proof (holds_values _ _ _ _ H) as Hv. destruct l as [|b l]; [done|].
  destruct (holdsFrom_pop q _ b l _ b H) as (y & v' & Hy & Hyv & [= <-] & Hab & H').
  unfold tryPop, loadNext. rewrite Hx. cbn. rewrite Hnx. cbn. do 2 eexists. split; [done|].
  cbn [runConsumer consumerStep]. unfold moveValue. rewrite Hy. cbn. unfold recycleNode. cbn.
  rewrite lookup_insert_ne, Hx by done. cbn. rewrite Hyv. split; [done|]. exists l. done.
Qed.

Lemma pop_empty q : holds q [] -> tryPop q = Some (Returns q PopFalse).
Proof.
  intros [l H]. destruct (holdsFrom_front _ _ _ _ H) as (x & Hx & Hnx).
  pose proof (holds_values _ _ _ _ H) as Hv. destruct l as [|b l]; [|done].
  unfold tryPop, loadNext. rewrite Hx. cbn. by rewrite Hnx.
Qed.

Lemma linked_snoc h a l n m x y :
  linked h a l -> last (a :: l) = Some m -> h !! m = Some x -> NoDup (a :: l) -> (n ∉ a :: l) ->
  next y = None ->
  linked (<[m := mkNode (Some n) (value x)]> (<[n := y]> h)) a (l ++ [n]).
Proof.
  revert a. induction l as [|b l IH]; intros a Hl Hm Hx Hnd Hn Hy; cbn [linked app].
  - injection Hm as ->. apply not_elem_of_cons in Hn as [Hn _]. rewrite lookup_insert_eq. split; [eauto|].
    exists y. by rewrite lookup_insert_ne, lookup_insert_eq by done.
  - destruct Hl as [(z & Hz & Hzb) Hl]. apply NoDup_cons in Hnd as [Ha Hnd].
    apply not_elem_of_cons in Hn as [Hna Hn]. rewrite last_cons_cons in Hm.
    split; [|by apply IH]. exists z. rewrite !lookup_insert_ne; [done|done|].
    intros ->. apply Ha. rewrite last_lookup in Hm. by eapply list_elem_of_lookup_2.
Qed.

Lemma push_holds q vs a v :
  holds q vs -> heap q !! a = None -> ∃ q', push q a v = Some q' ∧ holds q' (vs ++ [v]).
Proof.
  intros [l H] Ha. pose proof (holds_last _ _ _ _ H) as Hm.
  pose proof (linked_heap _ _ _ (holds_linked _ _ _ _ H)) as Hin.
  assert (Hna : a ∉ tail_ q :: l) by (intros [? ?]%Hin; congruence).
  assert (Hmin : head_ q ∈ tail_ q :: l) by (rewrite last_lookup in Hm; by eapply list_elem_of_lookup_2).
  destruct (Hin _ Hmin) as [x Hx]. assert (Hma : head_ q ≠ a) by (intros E; by rewrite E in Hmin).
  unfold push, acquireNode, exchangeHead, storeNext. cbn. rewrite lookup_insert_ne, Hx by done. cbn.
  eexists. split; [done|]. exists (l ++ [a]). split; cbn.
  - by apply linked_snoc; [apply H | | | apply H | |].
  - rewrite app_comm_cons. apply NoDup_app. split_and!; [apply H | | apply NoDup_singleton].
    by intros n Hn ->%list_elem_of_singleton.
  - by rewrite app_comm_cons, last_snoc.
  - rewrite !fmap_app. f_equal.
    + rewrite <- (holds_values _ _ _ _ H). apply valueAt_keep. intros n Hn. unfold valueAt.
      destruct (decide (n = head_ q)) as [->|]; [by rewrite lookup_insert_eq, Hx|].
      rewrite !lookup_insert_ne; [done| |done]. intros <-. apply Hna. by right.
    + cbn. unfold valueAt. by rewrite lookup_insert_ne, lookup_insert_eq.
  - intros n [y Hy]. rewrite app_comm_cons, elem_of_app, list_elem_of_singleton.
    apply lookup_insert_Some in Hy as [[<- _]|[_ Hy]]; [by left|].
    apply lookup_insert_Some in Hy as [[<- _]|[_ Hy]]; [by right|]. left. apply H. eauto.
Qed.

Lemma destroyFrom_all l : ∀ q a fuel,
  linked (heap q) a l -> NoDup (a :: l) -> (∀ n, is_Some (heap q !! n) -> n ∈ a :: l) ->
  (length l < fuel)%nat ->
  ∃ q', destroyFrom fuel q (Some a) = Some q' ∧ heap q' = ∅.
Proof.
  induction l as [|b l IH]; intros q a [|fuel] Hl Hnd Hall Hf; try (cbn in Hf; lia);
    cbn [destroyFrom]; unfold loadNext, recycleNode.
  - destruct Hl as (x & -> & Hn). cbn. rewrite Hn.
    eexists. split; [by destruct fuel|]. cbn. apply map_empty. intros n.
    destruct (decide (n = a)) as [->|Hne]; [apply lookup_delete_eq|].
    rewrite lookup_delete_ne by done. apply eq_None_not_Some. by intros ?%Hall%list_elem_of_singleton.
  - destruct Hl as [(x & -> & Hn) Hl]. cbn -[destroyFrom]. rewrite Hn. apply NoDup_cons in Hnd as [Ha Hnd].
    apply IH; [|done| |cbn in Hf; lia].
    + eapply linked_keep, Hl. intros n y Hin ?. cbn. rewrite lookup_delete_ne by (by intros ->). eauto.
    + cbn. intros n [y [Hne Hy]%lookup_delete_Some].
      destruct (proj1 (elem_of_cons _ _ _) (Hall n ltac:(eauto))) as [->|?]; done.
Qed.

Lemma destroy_holds q vs : holds q vs -> ∃ q', destroy q = Some q' ∧ heap q' = ∅.
Proof.
  intros [l H]. apply (destroyFrom_all l); [apply H | apply H | apply H |].
  assert (Hsub : list_to_set (C := gset nat) (tail_ q :: l) ⊆ dom (heap q)).
  { intros n Hn%elem_of_list_to_set. apply elem_of_dom.
    apply (linked_heap _ _ _ (holds_linked _ _ _ _ H)), Hn. }
  apply subseteq_size in Hsub. rewrite size_dom, size_list_to_set in Hsub by apply H. cbn in Hsub. lia.
Qed.

(** With no call in progress the chain is the queue's contents. *)
Lemma quiet_holds s l :
  Inv s l -> producers s = ∅ -> consumer s = Idle ->
  holds (queue s) (drop (length (received s)) (pushed s)).
Proof.
  intros I Hp Hi. assert (Hcur : current s = tail_ (queue s)) by (unfold current; by rewrite Hi).
  exists l. rewrite <- Hcur. split.
  - pose proof (inv_chain _ _ I) as Hc. clear -Hc Hp. revert Hc. generalize (current s).
    induction l as [|b l IH]; cbn; intros a; [by intros [_ ?]|]. intros [(x & Hx & Hl) Hc].
    split; [|by apply IH]. exists x. destruct Hl as [?|(_ & p & E)]; [done|]. by rewrite Hp in E.
  - apply I.
  - by apply chain_last, I.
  - by rewrite fmap_drop, (inv_values _ _ I), drop_app_length.
  - intros n Hn. destruct (inv_owned _ _ I n Hn) as [?|[(p & v & E)|E]]; [done|by rewrite Hp in E|].
    unfold doomed in E. by rewrite Hi in E.
Qed.

(** ** Theorems *)

(** C8. Under every interleaving of any number of producers with the consumer, no thread
    touches a node that is not allocated and no value is read twice; the values come out
    in the order of the exchanges; and [tryPop] fails only when everything pushed has been
    received or the [push] that continues the chain is between its exchange and its
    store.  The hypothesis is that [push_back] does not throw. *)
Theorem mpsc_fifo stub s :
  (∀ c v, is_Some (push_back c v)) -> reachable stub s ->
  ~ step s None ∧
  received s = Some <$> take (length (received s)) (pushed s) ∧
  (consumer s = Idle -> tryPop (queue s) = Some (Returns (queue s) PopFalse) ->
   received s = Some <$> pushed s ∨ ∃ p a, producers s !! p = Some (Linking (tail_ (queue s)) a)).
Proof.
  intros Hp Hr. destruct (reachable_inv Hp _ _ Hr) as [l I]. split_and!.
  - intros Hs. by destruct (step_inv Hp _ _ _ I Hs) as (? & [=] & _).
  - by rewrite fmap_take, (inv_values _ _ I), take_app_length.
  - intros Hi Ht. assert (Hcur : current s = tail_ (queue s)) by (unfold current; by rewrite Hi).
    pose proof (inv_chain _ _ I) as Hc. rewrite Hcur in Hc. destruct l as [|b l]; cbn in Hc.
    + left. by rewrite (inv_values _ _ I), app_nil_r.
    + right. destruct Hc as [(x & Hx & [Hn|(_ & p & ?)]) _]; [|eauto].
      unfold tryPop, loadNext in Ht. rewrite Hx in Ht. cbn in Ht. by rewrite Hn in Ht.
Qed.

(** Whatever happened before, once no call is in progress the queue is the list of the
    values pushed and not received: [push] appends, [tryPop] takes the first value or
    reports an empty queue, a drain hands over the first [min maxItems length] values (all
    of them for [drainAll]) in order and keeps the others, and the destructor frees every
    node exactly once. *)
Theorem mpsc_quiescent stub s :
  (∀ c v, is_Some (push_back c v)) -> reachable stub s -> producers s = ∅ -> consumer s = Idle ->
  let vs := drop (length (received s)) (pushed s) in
  (∀ a v, heap (queue s) !! a = None -> ∃ q, push (queue s) a v = Some q ∧ holds q (vs ++ [v])) ∧
  match vs with
  | [] => tryPop (queue s) = Some (Returns (queue s) PopFalse)
  | v :: vs' => ∃ pc q, tryPop (queue s) = Some (Goes (queue s) pc []) ∧
      runConsumer 2 (queue s) pc = Some (q, PopTrue (Some v)) ∧ holds q vs'
  end ∧
  (∀ limit c, let k := budget 0 limit (length vs) in
     ∃ fuel c' q, pushAll c (take k vs) = Some c' ∧
       runConsumer fuel (queue s) (drain (queue s) limit c) = Some (q, Drained (Z.of_nat k) c') ∧
       holds q (drop k vs)) ∧
  ∃ q, destroy (queue s) = Some q ∧ heap q = ∅.
Proof.
  intros Hp Hr Hps Hi vs. destruct (reachable_inv Hp _ _ Hr) as [l I].
  pose proof (quiet_holds _ _ I Hps Hi) as H. fold vs in H. split_and!.
  - intros a v Ha. by apply push_holds.
  - destruct vs; [by apply pop_empty | by apply pop_holds].
  - intros limit c k. destruct H as [l' H].
    assert (Hall : ∀ c ws, is_Some (pushAll c ws)).
    { intros c0 ws. revert c0. induction ws as [|w ws IH]; intros c0; cbn; [eauto|].
      destruct (Hp c0 w) as [c1 ->]. cbn. apply IH. }
    destruct (Hall c (take k vs)) as [c' Hc']. exists (3 * length l' + 1)%nat, c'.
    destruct (drain_holds _ _ _ 0 limit c c' _ (3 * length l' + 1)%nat H) as (q & ? & ?); [lia|done|eauto].
  - by eapply destroy_holds.
Qed.

End Mpsc.

(** ** Concrete executions *)

(** A vector of numbers as the container, and one with room for a single element. *)
Definition vectorPush (c : list Z) (v : Z) : option (list Z) := Some (c ++ [v]).
Definition tightPush (c : list Z) (v : Z) : option (list Z) :=
  if (length c <? 1)%nat then Some (c ++ [v]) else None.

(** Producer 4 has exchanged [head_] and not yet stored the link. *)
Lemma mpsc_fifo_witness :
  let s := mkSys (mkQueue (<[1%nat := mkNode None (Some 7)]> {[0%nat := mkNode None None]}) 1%nat 0%nat)
             (<[4%nat := Linking 0%nat 1%nat]> (<[4%nat := Exchanging 1%nat 7]> ∅)) (Idle (C := list Z)) [7] [] in
  received s = Some <$> pushed s ∨ ∃ p a, producers s !! p = Some (Linking (tail_ (queue s)) a).
Proof.
  intros s. refine (proj2 (proj2 (mpsc_fifo vectorPush 0%nat s _ _)) _ _); [| |done|by vm_compute].
  - intros c v. eexists. reflexivity.
  - eapply reachable_step; [eapply reachable_step; [apply reachable_init|]|].
    + apply (step_acquire _ _ 4%nat 1%nat 7); reflexivity.
    + refine (step_exchange _ _ 4%nat 1%nat 7 _ 0%nat _ _); reflexivity.
Defined.

(** One value pushed and not yet received. *)
Lemma mpsc_quiescent_witness :
  ∃ (q : @MpscQueue Z),
    destroy (mkQueue (<[0%nat := mkNode (Some 1%nat) None]>
      (<[1%nat := mkNode None (Some 7)]> {[0%nat := mkNode None None]})) 1%nat 0%nat) = Some q ∧ heap q = ∅.
Proof.
  set (q0 := mkQueue (<[0%nat := mkNode (Some 1%nat) None]>
    (<[1%nat := mkNode None (Some 7)]> {[0%nat := mkNode None None]})) 1%nat 0%nat).
  refine (proj2 (proj2 (proj2 (mpsc_quiescent vectorPush 0%nat
    (mkSys q0 (delete 4%nat (<[4%nat := Linking 0%nat 1%nat]> (<[4%nat := Exchanging 1%nat 7]> ∅)))
       Idle [7] []) _ _ _ _)))); [| |by vm_compute|done].
  - intros c v. eexists. reflexivity.
  - eapply reachable_step; [eapply reachable_step; [eapply reachable_step; [apply reachable_init|]|]|].
    + apply (step_acquire _ _ 4%nat 1%nat 7); reflexivity.
    + refine (step_exchange _ _ 4%nat 1%nat 7 _ 0%nat _ _); reflexivity.
    + refine (step_link _ _ 4%nat 0%nat 1%nat _). reflexivity.
Defined.

(** When [push_back] throws after the first element of a drain, [tail_] still names the
    stub that was deleted, and the next call reads freed memory. *)
Example drain_throw_dangles :
  match push (construct 0%nat) 1%nat 7 ≫= (fun q => push q 2%nat 8) with
  | Some q => match runConsumer tightPush 9 q (drain q None []) with
              | Some (q', Threw c) => c = [7] ∧ tryPop (C := list Z) q' = None
              | _ => False
              end
  | None => False
  end.
Proof. vm_compute. split; reflexivity. Qed.
