(* ===== verification/EventPoller.v ===== *)
(** * The event poller (src/EventPoller.cpp, the epoll build)

    [EventPoller] with its [Impl], as the steps of the calls in progress: a section under
    [mutex_] is one step, and so is every access to an atomic and every system call made
    outside of it.  A callback runs between two steps of the [poll] that invoked it, and what
    it calls are calls of their own; any number of calls may be in progress.  The sections
    that wake the poller while they hold [mutex_] give it up before, which allows more
    interleavings than the code has.  epoll and the event counter are a class of operations
    with the laws their manual pages state. *)

From S2P Require Import Prelude.

(** ** Events *)

Definition EvNone : Z := 0.
Definition EvRead : Z := 1.
Definition EvWrite : Z := 2.
Definition EvError : Z := 4.
Definition EvClose : Z := 8.

Definition hasEvent (events check : Z) : bool := negb (Z.land events check =? 0).

(** <sys/epoll.h> *)
Definition EPOLLIN : Z := 1.
Definition EPOLLPRI : Z := 2.
Definition EPOLLOUT : Z := 4.
Definition EPOLLERR : Z := 8.
Definition EPOLLHUP : Z := 16.
Definition EPOLLRDHUP : Z := 8192.
Definition EPOLLONESHOT : Z := 2 ^ 30.
Definition EPOLLET : Z := 2 ^ 31.

Definition toNativeEvents (events : Z) (oneShot : bool) : Z :=
  let nativeEvents := 0 in
  let nativeEvents := if hasEvent events EvRead then Z.lor nativeEvents EPOLLIN else nativeEvents in
  let nativeEvents := if hasEvent events EvWrite then Z.lor nativeEvents EPOLLOUT else nativeEvents in
  let nativeEvents := Z.lor nativeEvents (Z.lor (Z.lor EPOLLRDHUP EPOLLERR) EPOLLHUP) in
  if oneShot then Z.lor nativeEvents (Z.lor EPOLLET EPOLLONESHOT) else nativeEvents.

Definition fromNativeEvents (nativeEvents : Z) : Z :=
  let events := EvNone in
  let events := if hasEvent nativeEvents (Z.lor EPOLLIN EPOLLPRI) then Z.lor events EvRead else events in
  let events := if hasEvent nativeEvents EPOLLOUT then Z.lor events EvWrite else events in
  let events := if hasEvent nativeEvents EPOLLERR then Z.lor events EvError else events in
  if hasEvent nativeEvents (Z.lor EPOLLRDHUP EPOLLHUP) then Z.lor events EvClose else events.

(** ** The kernel's part *)

Inductive Written := Wrote | Again | WriteFailed.

(** An epoll instance with the event counter the poller registers in it.  [watched] are its
    descriptors with the mask last given for each, [ready] is what decides which of them a
    wait reports.  A wait that fails gives [None]. *)
Class Epoll (K : Type) := {
  Readiness : Type;
  epollCreate : Z -> K;
  watched : K -> gmap Z Z;
  eventFd : K -> Z;
  counter : K -> Z;
  ctlAdd : K -> Z -> Z -> K * bool;
  ctlMod : K -> Z -> Z -> K * bool;
  ctlDel : K -> Z -> K * bool;
  epollWait : K -> Readiness -> nat -> K * option (list (Z * Z));
  eventWrite : K -> K * Written;
  eventRead : K -> K * bool;
  descriptorClosed : K -> Z -> K
}.

(** Leaves the event counter alone. *)
Definition sameCounter {K} {epoll : Epoll K} (k k' : K) : Prop := eventFd k' = eventFd k ∧ counter k' = counter k.

Class EpollLaws (K : Type) {epoll : Epoll K} : Prop := {
  create_new w : watched (epollCreate w) = {[w := EPOLLIN]} ∧ eventFd (epollCreate w) = w ∧ counter (epollCreate w) = 0;
  add_law k fd m : sameCounter k (ctlAdd k fd m).1 ∧
    watched (ctlAdd k fd m).1 = (if (ctlAdd k fd m).2 then <[fd := m]> (watched k) else watched k) ∧
    ((ctlAdd k fd m).2 = true -> watched k !! fd = None);
  mod_law k fd m : sameCounter k (ctlMod k fd m).1 ∧
    watched (ctlMod k fd m).1 = (if (ctlMod k fd m).2 then <[fd := m]> (watched k) else watched k) ∧
    ((ctlMod k fd m).2 = true -> is_Some (watched k !! fd));
  del_law k fd : sameCounter k (ctlDel k fd).1 ∧ watched (ctlDel k fd).1 = delete fd (watched k) ∧
    ((ctlDel k fd).2 = true <-> is_Some (watched k !! fd));
  wait_law k r n : sameCounter k (epollWait k r n).1 ∧ watched (epollWait k r n).1 = watched k ∧
    ∀ l, (epollWait k r n).2 = Some l -> (length l <= n)%nat ∧ NoDup l.*1 ∧ Forall (fun e => is_Some (watched k !! e.1)) l;
  wait_counter k r n : watched k !! eventFd k = Some EPOLLIN -> 0 < counter k -> (0 < n)%nat ->
    ∃ e l, (epollWait k r n).2 = Some (e :: l);
  write_law k : eventFd (eventWrite k).1 = eventFd k ∧ watched (eventWrite k).1 = watched k ∧
    match (eventWrite k).2 with
    | Wrote => counter (eventWrite k).1 = counter k + 1
    | Again => counter (eventWrite k).1 = counter k ∧ 0 < counter k
    | WriteFailed => False
    end;
  read_law k : eventFd (eventRead k).1 = eventFd k ∧ watched (eventRead k).1 = watched k ∧ counter (eventRead k).1 = 0 ∧
    (eventRead k).2 = negb (counter k =? 0);
  counter_nonneg k : 0 <= counter k;
  closed_law k fd : sameCounter k (descriptorClosed k fd) ∧ watched (descriptorClosed k fd) = delete fd (watched k)
}.

(** ** State *)

(** A registration; [callback] names the function. *)
Record EventData := mkEventData { events : Z; callback : nat; userData : Z }.

(** What follows a wake-up: it is a call of its own, ends a call that has its result, or
    belongs to [shutdown]. *)
Inductive After := Own | Returns (result : bool) | Closes.

Record Invocation := mkInvocation { inv_fd : Z; inv_events : Z; inv_callback : nat; inv_data : Z }.

(** A [poll] past its wait: what epoll reported, the invocations before, and for each event
    taken up so far the registration that was found. *)
Record Round := mkRound { reported : list (Z * Z); earlier : list Invocation; looked : list (Z * Z * option EventData) }.

Inductive Pc :=
| AddCheck (fd : Z) (d : EventData)
| AddKernel (fd : Z) (d : EventData)
| AddInsert (fd : Z) (d : EventData)
| ModifyLocked (fd : Z) (ev : Z)
| RemoveLocked (fd : Z)
| RearmKernel (fd : Z) (ev : Z)
| WakeCas (a : After)
| WakeWrite (a : After)
| WakeReset (a : After)
| PollWait
| Collect (i : nat) (found : list (Z * Z)) (r : Round)
| Draining (i : nat) (found : list (Z * Z)) (r : Round)
| Clearing (i : nat) (found : list (Z * Z)) (r : Round)
| Dispatch (todo : list (Z * Z)) (invoked : Z) (r : Round)
| Invoke (fd ev : Z) (d : EventData) (todo : list (Z * Z)) (invoked : Z) (r : Round)
| InCallback (fd : Z) (d : EventData) (todo : list (Z * Z)) (invoked : Z) (r : Round)
| RearmCheck (fd : Z) (todo : list (Z * Z)) (invoked : Z) (r : Round)
| Rearm (fd ev : Z) (todo : list (Z * Z)) (invoked : Z) (r : Round)
| ShutClear
| ShutClose.

Inductive Result := Bool (b : bool) | Count (n : Z).

Section Poller.
Context {K : Type} {epoll : Epoll K}.

(** [epollFd_] and [wakeupFd_] are the kernel's objects; the [oneShot_] of the poller and of
    its [Impl] are set together. *)
Record Poller := mkPoller {
  kernel : option K;
  events_ : list (Z * Z);
  wakeupPending_ : bool;
  eventMap_ : gmap Z EventData;
  running_ : bool;
  oneShot_ : bool;
  calls : gmap nat Pc;
  invocations : list Invocation
}.

Definition setKernel x s := mkPoller x (events_ s) (wakeupPending_ s) (eventMap_ s) (running_ s) (oneShot_ s) (calls s) (invocations s).
Definition setEvents x s := mkPoller (kernel s) x (wakeupPending_ s) (eventMap_ s) (running_ s) (oneShot_ s) (calls s) (invocations s).
Definition setPending x s := mkPoller (kernel s) (events_ s) x (eventMap_ s) (running_ s) (oneShot_ s) (calls s) (invocations s).
Definition setMap x s := mkPoller (kernel s) (events_ s) (wakeupPending_ s) x (running_ s) (oneShot_ s) (calls s) (invocations s).
Definition setRunning x s := mkPoller (kernel s) (events_ s) (wakeupPending_ s) (eventMap_ s) x (oneShot_ s) (calls s) (invocations s).
Definition setCalls x s := mkPoller (kernel s) (events_ s) (wakeupPending_ s) (eventMap_ s) (running_ s) (oneShot_ s) x (invocations s).
Definition invokes x s := mkPoller (kernel s) (events_ s) (wakeupPending_ s) (eventMap_ s) (running_ s) (oneShot_ s) (calls s) (invocations s ++ [x]).

Definition newPoller : Poller := mkPoller None [] false ∅ false false ∅ [].

(** ** Impl *)

Definition implAdd (fd ev : Z) (s : Poller) : Poller * bool :=
  match kernel s with
  | None => (s, false)
  | Some k => let '(k, ok) := ctlAdd k fd (toNativeEvents ev (oneShot_ s)) in (setKernel (Some k) s, ok)
  end.

Definition implModify (fd ev : Z) (s : Poller) : Poller * bool :=
  match kernel s with
  | None => (s, false)
  | Some k => let '(k, ok) := ctlMod k fd (toNativeEvents ev (oneShot_ s)) in (setKernel (Some k) s, ok)
  end.

Definition implRemove (fd : Z) (s : Poller) : Poller * bool :=
  match kernel s with
  | None => (s, false)
  | Some k => let '(k, ok) := ctlDel k fd in (setKernel (Some k) s, ok)
  end.

Definition implShutdown (s : Poller) : Poller := setPending false (setEvents [] (setKernel None s)).

(** What [initialize] meets: the descriptor of its event counter, or a system call that fails. *)
Inductive Created := CreatedWith (w : Z) | NotCreated.

Definition implInitialize (maxEvents : Z) (o : Created) (s : Poller) : Poller * bool :=
  let s := implShutdown s in
  match o with
  | NotCreated => (s, false)
  | CreatedWith w => (setPending false (setEvents (replicate (Z.to_nat (Z.max 1 maxEvents)) (0, 0)) (setKernel (Some (epollCreate w)) s)), true)
  end.

(** ** Calls *)

Inductive Label :=
| Initialize (maxEvents : Z) (useOneShot : bool) (o : Created)
| CallShutdown (c : nat)
| CallAdd (c : nat) (fd ev : Z) (cb : option nat) (ud : Z) (memory : bool)
| CallModify (c : nat) (fd ev : Z)
| CallRemove (c : nat) (fd : Z)
| CallRearm (c : nat) (fd ev : Z)
| CallWakeup (c : nat)
| CallPoll (c : nat)
| Step (c : nat) (ready : Readiness) (memory : bool)
| Closed (fd : Z).

Definition goto (c : nat) (p : Pc) (s : Poller) : option (Poller * option Result) := Some (setCalls (<[c := p]> (calls s)) s, None).
Definition ret (c : nat) (r : Result) (s : Poller) : option (Poller * option Result) := Some (setCalls (delete c (calls s)) s, Some r).

(** The end of a wake-up that came out as [woken]. *)
Definition wokenUp (c : nat) (a : After) (woken : bool) (s : Poller) : option (Poller * option Result) :=
  match a with
  | Own => ret c (Bool woken) s
  | Returns result => ret c (Bool result) s
  | Closes => goto c ShutClose s
  end.

(** The next step of a call.  A [WakeCas] of [wakeup] itself finds no descriptor when the
    poller is shut down. *)
Definition stepCall (c : nat) (p : Pc) (ready : Readiness) (memory : bool) (s : Poller) : option (Poller * option Result) :=
  match p with
  | AddCheck fd d => if bool_decide (is_Some (eventMap_ s !! fd)) then ret c (Bool false) s else goto c (AddKernel fd d) s
  | AddKernel fd d => match implAdd fd (events d) s with (s, true) => goto c (AddInsert fd d) s | (s, false) => ret c (Bool false) s end
  | AddInsert fd d =>
      if bool_decide (is_Some (eventMap_ s !! fd)) || negb memory then ret c (Bool false) (implRemove fd s).1
      else goto c (WakeCas (Returns true)) (setMap (<[fd := d]> (eventMap_ s)) s)
  | ModifyLocked fd ev =>
      match eventMap_ s !! fd with
      | None => ret c (Bool false) s
      | Some d =>
          match implModify fd ev s with
          | (s, false) => ret c (Bool false) s
          | (s, true) => goto c (WakeCas (Returns true)) (setMap (<[fd := mkEventData ev (callback d) (userData d)]> (eventMap_ s)) s)
          end
      end
  | RemoveLocked fd =>
      match eventMap_ s !! fd with
      | None => ret c (Bool false) s
      | Some _ =>
          let '(s, removed) := implRemove fd s in
          let s := setMap (delete fd (eventMap_ s)) s in
          if removed then goto c (WakeCas (Returns true)) s else ret c (Bool false) s
      end
  | RearmKernel fd ev => let '(s, ok) := implModify fd ev s in ret c (Bool ok) s
  | WakeCas a =>
      match kernel s with
      | None => wokenUp c a false s
      | Some _ => if wakeupPending_ s then wokenUp c a true s else goto c (WakeWrite a) (setPending true s)
      end
  | WakeWrite a =>
      match kernel s with
      | None => goto c (WakeReset a) s
      | Some k => match eventWrite k with
                  | (k, WriteFailed) => goto c (WakeReset a) (setKernel (Some k) s)
                  | (k, _) => wokenUp c a true (setKernel (Some k) s)
                  end
      end
  | WakeReset a => wokenUp c a false (setPending false s)
  | PollWait =>
      match kernel s with
      | None => ret c (Count (-1)) s
      | Some k =>
          match epollWait k ready (length (events_ s)) with
          | (k, None) => ret c (Count (-1)) (setKernel (Some k) s)
          | (k, Some l) => goto c (Collect 0 [] (mkRound l (invocations s) [])) (setEvents (l ++ drop (length l) (events_ s)) (setKernel (Some k) s))
          end
      end
  | Collect i found r =>
      if (i <? length (reported r))%nat then
        let e := default (0, 0) (events_ s !! i) in
        if (match kernel s with Some k => e.1 =? eventFd k | None => false end) then goto c (Draining i found r) s
        else goto c (Collect (S i) (found ++ [(e.1, fromNativeEvents e.2)]) r) s
      else goto c (Dispatch found 0 r) s
  | Draining i found r =>
      match kernel s with
      | None => goto c (Clearing i found r) s
      | Some k => match eventRead k with
                  | (k, true) => goto c (Draining i found r) (setKernel (Some k) s)
                  | (k, false) => goto c (Clearing i found r) (setKernel (Some k) s)
                  end
      end
  | Clearing i found r => goto c (Collect (S i) found r) (setPending false s)
  | Dispatch [] invoked r => ret c (Count invoked) s
  | Dispatch ((fd, ev) :: todo) invoked r =>
      let r := mkRound (reported r) (earlier r) (looked r ++ [(fd, ev, eventMap_ s !! fd)]) in
      match eventMap_ s !! fd with
      | None => goto c (Dispatch todo invoked r) s
      | Some d => goto c (Invoke fd ev d todo invoked r) s
      end
  | Invoke fd ev d todo invoked r => goto c (InCallback fd d todo invoked r) (invokes (mkInvocation fd ev (callback d) (userData d)) s)
  | InCallback fd d todo invoked r => if oneShot_ s then goto c (RearmCheck fd todo (invoked + 1) r) s else goto c (Dispatch todo (invoked + 1) r) s
  | RearmCheck fd todo invoked r =>
      match eventMap_ s !! fd with
      | None => goto c (Dispatch todo invoked r) s
      | Some d => goto c (Rearm fd (events d) todo invoked r) s
      end
  | Rearm fd ev todo invoked r => goto c (Dispatch todo invoked r) (implModify fd ev s).1
  | ShutClear => goto c (WakeCas Closes) (setMap ∅ s)
  | ShutClose => ret c (Bool true) (implShutdown s)
  end.

(** A call that starts. *)
Definition start (c : nat) (ok : bool) (failure : Result) (p : Pc) (s : Poller) : option (Poller * option Result) :=
  match calls s !! c with
  | Some _ => None
  | None => if ok then goto c p s else Some (s, Some failure)
  end.

(** The poller is initialized while no call is in progress: [IoService::start] does it before
    its threads exist.  The event counter's descriptor belongs to the poller: nobody else
    closes or rearms it. *)
Definition execute (s : Poller) (l : Label) : option (Poller * option Result) :=
  match l with
  | Initialize maxEvents useOneShot o =>
      if bool_decide (calls s = ∅) then
        let '(s, ok) := implInitialize maxEvents o (mkPoller (kernel s) (events_ s) (wakeupPending_ s) ∅ (running_ s) useOneShot (calls s) (invocations s)) in
        Some (setRunning ok s, Some (Bool ok))
      else None
  | CallShutdown c => start c (running_ s) (Bool false) ShutClear (setRunning false s)
  | CallAdd c fd ev cb ud memory =>
      start c (running_ s && bool_decide (is_Some cb) && memory) (Bool false) (AddCheck fd (mkEventData ev (default 0%nat cb) ud)) s
  | CallModify c fd ev => start c (running_ s) (Bool false) (ModifyLocked fd ev) s
  | CallRemove c fd => start c (running_ s) (Bool false) (RemoveLocked fd) s
  | CallRearm c fd ev =>
      if bool_decide (eventFd <$> kernel s = Some fd) then None else start c (running_ s && oneShot_ s) (Bool true) (RearmKernel fd ev) s
  | CallWakeup c => start c true (Bool true) (WakeCas Own) s
  | CallPoll c => start c (running_ s) (Count 0) PollWait s
  | Step c ready memory => p ← calls s !! c; stepCall c p ready memory s
  | Closed fd =>
      match kernel s with
      | None => Some (s, None)
      | Some k => if fd =? eventFd k then None else Some (setKernel (Some (descriptorClosed k fd)) s, None)
      end
  end.

(** [getSocketCount], [isRunning]. *)
Definition getSocketCount (s : Poller) : Z := Z.of_nat (size (eventMap_ s)).
Definition isRunning (s : Poller) : bool := running_ s.

Definition polling (p : Pc) : bool :=
  match p with
  | PollWait | Collect _ _ _ | Draining _ _ _ | Clearing _ _ _ | Dispatch _ _ _ | Invoke _ _ _ _ _ _ | InCallback _ _ _ _ _ | RearmCheck _ _ _ _ | Rearm _ _ _ _ _ => true
  | _ => false
  end.

(** With [single], one [poll] at a time, as [IoService] does it.  The last component are the
    descriptors their owners have closed since [initialize] while they were registered. *)
Definition allowed (single : bool) (s : Poller) (l : Label) : Prop :=
  match l with CallPoll _ => single = true -> map_Forall (fun _ p => polling p = false) (calls s) | _ => True end.
Definition closedBy (s : Poller) (l : Label) (closed : gset Z) : gset Z :=
  match l with
  | Initialize _ _ _ => ∅
  | Closed fd => if bool_decide (is_Some (k ← kernel s; watched k !! fd)) then {[fd]} ∪ closed else closed
  | _ => closed
  end.

Inductive reachable (single : bool) : Poller -> gset Z -> Prop :=
| reach_new : reachable single newPoller ∅
| reach_step s closed l s' r : reachable single s closed -> allowed single s l -> execute s l = Some (s', r) -> reachable single s' (closedBy s l closed).
End Poller.

(** * Properties *)

Section Proofs.
Context {K : Type} {epoll : Epoll K} {laws : EpollLaws K}.
Implicit Types (s : Poller (K := K)) (k : K).

(** A call that will write the event counter or has been woken by it. *)
Definition waking (p : Pc) : bool := match p with WakeWrite _ | Draining _ _ _ | Clearing _ _ _ => true | _ => false end.

(** A call that is part of a shutdown, or whose wake-up failed. *)
Definition leaving (p : Pc) : bool :=
  match p with ShutClear | ShutClose | WakeCas Closes | WakeWrite Closes | WakeReset _ => true | _ => false end.

Definition rearms (p : Pc) : option Z := match p with RearmKernel fd _ | Rearm fd _ _ _ _ => Some fd | _ => None end.
Definition oneShotOnly (p : Pc) : bool := match p with RearmKernel _ _ | RearmCheck _ _ _ _ | Rearm _ _ _ _ _ => true | _ => false end.
Definition callOk k s (p : Pc) : Prop := leaving p = false ∧ rearms p ≠ Some (eventFd k) ∧ (oneShotOnly p = true -> oneShot_ s = true).
Definition isAdd (p : Pc) : bool := match p with AddInsert _ _ => true | _ => false end.

Definition adding s (fd : Z) : Prop := ∃ c d, calls s !! c = Some (AddInsert fd d).

Record kernelInv k s (closed : gset Z) : Prop := {
  k_event : watched k !! eventFd k = Some EPOLLIN;
  k_own : eventMap_ s !! eventFd k = None;
  k_watched : ∀ fd, is_Some (watched k !! fd) -> fd = eventFd k ∨ is_Some (eventMap_ s !! fd) ∨ adding s fd;
  k_map : ∀ fd, is_Some (eventMap_ s !! fd) -> is_Some (watched k !! fd) ∨ fd ∈ closed;
  k_mask : oneShot_ s = false -> ∀ fd m d, watched k !! fd = Some m -> eventMap_ s !! fd = Some d -> fd ∈ closed ∨ m = toNativeEvents (events d) false;
  k_adds : ∀ c fd d, calls s !! c = Some (AddInsert fd d) -> fd ≠ eventFd k ∧
    (fd ∈ closed ∨ (∃ m, watched k !! fd = Some m ∧ (oneShot_ s = false -> m = toNativeEvents (events d) false)) ∧ eventMap_ s !! fd = None ∧
       ∀ c' d', calls s !! c' = Some (AddInsert fd d') -> c' = c);
  k_wake : wakeupPending_ s = true -> 0 < counter k ∨ ∃ c p, calls s !! c = Some p ∧ waking p = true;
  k_calls : ∀ c p, calls s !! c = Some p -> callOk k s p;
  k_room : (0 < length (events_ s))%nat
}.

(** A call other than an insertion moves on, and with it nothing else. *)
Lemma call_moves k s closed c np :
  kernelInv k s closed ->
  (∀ p, calls s !! c = Some p -> isAdd p = false) -> (∀ p, np = Some p -> isAdd p = false ∧ callOk k s p) ->
  (∀ p, calls s !! c = Some p -> waking p = true -> (∃ p', np = Some p' ∧ waking p' = true) ∨ wakeupPending_ s = false ∨ 0 < counter k) ->
  kernelInv k (setCalls (partial_alter (fun _ => np) c (calls s)) s) closed.
Proof.
  intros H Hc Hn Hw.
  assert (Hadd : ∀ c' fd d, partial_alter (fun _ => np) c (calls s) !! c' = Some (AddInsert fd d) <-> calls s !! c' = Some (AddInsert fd d)).
  { intros c' fd d. destruct (decide (c' = c)) as [->|Hne]; [|by rewrite lookup_partial_alter_ne].
    rewrite lookup_partial_alter_eq. split; [by intros [? _]%Hn | by intros ?%Hc]. }
  split; cbn [setCalls eventMap_ oneShot_ calls wakeupPending_ events_]; try apply H.
  - intros fd Hf. destruct (k_watched _ _ _ H fd Hf) as [?|[?|(c' & d & Ha)]]; [tauto | tauto|]. right. right. exists c', d. by apply Hadd.
  - intros c' fd d Ha%Hadd. destruct (k_adds _ _ _ H c' fd d Ha) as [H1 [H2|(H2 & H3 & H4)]]; split; [done | by left | done|]. right. split_and!; [done | done|].
    intros c2 d2 Ha2%Hadd. by apply (H4 c2 d2).
  - intros Hp. destruct (k_wake _ _ _ H Hp) as [?|(c' & p & Hcp & Hpw)]; [by left|]. destruct (decide (c' = c)) as [->|Hne].
    + destruct (Hw p Hcp Hpw) as [(p' & -> & ?)|[?|?]]; [|congruence | by left]. right. exists c, p'. by rewrite lookup_partial_alter_eq.
    + right. exists c', p. by rewrite lookup_partial_alter_ne.
  - intros c' p'. destruct (decide (c' = c)) as [->|Hne]; [rewrite lookup_partial_alter_eq; intros E; by apply Hn | rewrite lookup_partial_alter_ne by done; apply H].
Qed.

(** The kernel's state may change as long as nothing visible does. *)
Lemma kernel_same k k' s closed : kernelInv k s closed -> eventFd k' = eventFd k -> watched k' = watched k ->
  (wakeupPending_ s = true -> 0 < counter k -> 0 < counter k' ∨ ∃ c p, calls s !! c = Some p ∧ waking p = true) -> kernelInv k' s closed.
Proof.
  intros H E1 E2 E3. split; unfold callOk; rewrite ?E1, ?E2; try apply H.
  intros Hp. destruct (k_wake _ _ _ H Hp) as [?|?]; [by apply E3 | by right].
Qed.

Lemma kernel_counted k k' s closed : kernelInv k s closed -> sameCounter k k' -> watched k' = watched k -> kernelInv k' s closed.
Proof. intros H [E1 E2] Ew. apply (kernel_same k); [done | done | done|]. intros _ ?. left. by rewrite E2. Qed.

(** A descriptor rearmed in one-shot mode. *)
Lemma kernel_rearmed k k' s closed fd m :
  kernelInv k s closed -> sameCounter k k' -> watched k' = <[fd := m]> (watched k) -> is_Some (watched k !! fd) -> fd ≠ eventFd k -> oneShot_ s = true -> kernelInv k' s closed.
Proof.
  intros H [E1 E2] Ew Hs Hne Ho. split; unfold callOk; rewrite ?E1, ?E2, ?Ew; try apply H.
  - rewrite lookup_insert_ne by done. apply H.
  - intros fd' Hf. apply H. destruct (decide (fd' = fd)) as [->|]; [done | by rewrite lookup_insert_ne in Hf].
  - intros fd' Hf. destruct (decide (fd' = fd)) as [->|]; [left; by rewrite lookup_insert_eq | rewrite lookup_insert_ne by done; by apply H].
  - congruence.
  - intros c fd' d Ha. destruct (k_adds _ _ _ H c fd' d Ha) as [A1 [A2|(A2 & A3 & A4)]]; split; [done | by left | done|].
    right. split_and!; [|done|done]. destruct (decide (fd' = fd)) as [->|]; [|by rewrite lookup_insert_ne].
    exists m. rewrite lookup_insert_eq. split; [done | congruence].
Qed.

(** A registration changed by [modify]. *)
Lemma kernel_modified k k' s closed fd d d' :
  kernelInv k s closed -> sameCounter k k' -> watched k' = <[fd := toNativeEvents (events d') (oneShot_ s)]> (watched k) -> is_Some (watched k !! fd) ->
  eventMap_ s !! fd = Some d -> kernelInv k' (setMap (<[fd := d']> (eventMap_ s)) s) closed.
Proof.
  intros H [E1 E2] Ew Hs Hd. assert (Hne : fd ≠ eventFd k) by (intros ->; pose proof (k_own _ _ _ H); congruence).
  split; unfold callOk; cbn [setMap eventMap_ oneShot_ calls wakeupPending_ events_]; rewrite ?E1, ?E2, ?Ew; try apply H.
  - rewrite lookup_insert_ne by done. apply H.
  - rewrite lookup_insert_ne by done. apply H.
  - intros fd' Hf. destruct (decide (fd' = fd)) as [->|]; [right; left; by rewrite lookup_insert_eq|]. rewrite !lookup_insert_ne in * by done. by apply (k_watched _ _ _ H).
  - intros fd' Hf. destruct (decide (fd' = fd)) as [->|]; [left; by rewrite lookup_insert_eq|]. rewrite !lookup_insert_ne in * by done. by apply H.
  - intros Ho fd' m e. destruct (decide (fd' = fd)) as [->|]; [|rewrite !lookup_insert_ne by done; by apply H].
    rewrite !lookup_insert_eq. intros [= <-] [= <-]. right. by rewrite Ho.
  - intros c fd' e Ha. destruct (k_adds _ _ _ H c fd' e Ha) as [A1 [A2|(A2 & A3 & A4)]]; split; [done | by left | done|].
    destruct (decide (fd' = fd)) as [->|]; [congruence|]. right. rewrite !lookup_insert_ne by done. done.
Qed.

(** [remove] takes a descriptor from the kernel and from the map. *)
Lemma kernel_removed k k' s closed fd :
  kernelInv k s closed -> sameCounter k k' -> watched k' = delete fd (watched k) -> is_Some (eventMap_ s !! fd) -> kernelInv k' (setMap (delete fd (eventMap_ s)) s) closed.
Proof.
  intros H [E1 E2] Ew Hd. assert (Hne : fd ≠ eventFd k) by (intros ->; pose proof (k_own _ _ _ H) as X; rewrite X in Hd; by destruct Hd).
  split; unfold callOk; cbn [setMap eventMap_ oneShot_ calls wakeupPending_ events_]; rewrite ?E1, ?E2, ?Ew; try apply H.
  - rewrite lookup_delete_ne by done. apply H.
  - rewrite lookup_delete_ne by done. apply H.
  - intros fd' Hf. destruct (decide (fd' = fd)) as [->|]; [rewrite lookup_delete_eq in Hf; by destruct Hf|]. rewrite !lookup_delete_ne in * by done. by apply (k_watched _ _ _ H).
  - intros fd' Hf. destruct (decide (fd' = fd)) as [->|]; [rewrite lookup_delete_eq in Hf; by destruct Hf|]. rewrite !lookup_delete_ne in * by done. by apply H.
  - intros Ho fd' m e. destruct (decide (fd' = fd)) as [->|]; [by rewrite lookup_delete_eq|]. rewrite !lookup_delete_ne by done. by apply H.
  - intros c fd' e Ha. destruct (k_adds _ _ _ H c fd' e Ha) as [A1 [A2|(A2 & A3 & A4)]]; split; [done | by left | done|].
    destruct (decide (fd' = fd)) as [->|]; [rewrite A3 in Hd; by destruct Hd|]. right. rewrite !lookup_delete_ne by done. done.
Qed.

(** ** [add] *)

Lemma add_registers k k' s closed c fd d :
  kernelInv k s closed -> calls s !! c = Some (AddKernel fd d) -> sameCounter k k' ->
  watched k' = <[fd := toNativeEvents (events d) (oneShot_ s)]> (watched k) -> watched k !! fd = None ->
  kernelInv k' (setCalls (<[c := AddInsert fd d]> (calls s)) s) closed.
Proof.
  intros H Hc [E1 E2] Ew Hn. assert (Hne : fd ≠ eventFd k) by (intros ->; pose proof (k_event _ _ _ H); congruence).
  assert (Hcl : is_Some (eventMap_ s !! fd) ∨ adding s fd -> fd ∈ closed).
  { intros [Hm|(c' & d' & Ha)].
    - destruct (k_map _ _ _ H fd Hm) as [X|]; [rewrite Hn in X; by destruct X | done].
    - destruct (k_adds _ _ _ H c' fd d' Ha) as [_ [?|((m & X & _) & _)]]; [done | congruence]. }
  split; unfold callOk; cbn [setCalls eventMap_ oneShot_ calls wakeupPending_ events_]; rewrite ?E1, ?E2, ?Ew; try apply H.
  - rewrite lookup_insert_ne by done. apply H.
  - intros fd' Hf. destruct (decide (fd' = fd)) as [->|]; [right; right; exists c, d; cbn; by rewrite lookup_insert_eq|].
    rewrite lookup_insert_ne in Hf by done. destruct (k_watched _ _ _ H fd' Hf) as [?|[?|(c' & d' & Ha)]]; [tauto | tauto|]. right. right. exists c', d'. cbn.
    rewrite lookup_insert_ne; [done | congruence].
  - intros fd' Hf. destruct (decide (fd' = fd)) as [->|]; [left; by rewrite lookup_insert_eq | rewrite lookup_insert_ne by done; by apply H].
  - intros Ho fd' m e. destruct (decide (fd' = fd)) as [->|]; [|rewrite lookup_insert_ne by done; by apply H]. intros _ Hm. left. apply Hcl. left. by rewrite Hm.
  - intros c' fd' e. destruct (decide (c' = c)) as [->|Hcc].
    + rewrite lookup_insert_eq. intros [= -> ->]. split; [done|]. destruct (decide (fd' ∈ closed)) as [|Hno]; [by left|]. right. rewrite lookup_insert_eq. split_and!.
      * eexists. split; [done|]. by intros ->.
      * apply eq_None_not_Some. intros ?. by apply Hno, Hcl; left.
      * intros c2 d2. destruct (decide (c2 = c)) as [->|]; [done|]. rewrite lookup_insert_ne by done. intros Ha. exfalso. apply Hno, Hcl. right. by exists c2, d2.
    + rewrite lookup_insert_ne by done. intros Ha. destruct (k_adds _ _ _ H c' fd' e Ha) as [A1 [A2|(A2 & A3 & A4)]]; split; [done | by left | done|].
      destruct (decide (fd' = fd)) as [->|Hfd]; [left; apply Hcl; right; by exists c', e|]. right. rewrite lookup_insert_ne by done. split_and!; [done | done|].
      intros c2 d2. destruct (decide (c2 = c)) as [->|]; [rewrite lookup_insert_eq; congruence | rewrite lookup_insert_ne by done; apply A4].
  - intros Hp. destruct (k_wake _ _ _ H Hp) as [?|(c' & p & Hcp & Hpw)]; [by left|]. right. exists c', p. rewrite lookup_insert_ne; [done | intros ->; by simplify_eq].
  - intros c' p. destruct (decide (c' = c)) as [->|]; [rewrite lookup_insert_eq; by intros [= <-] | rewrite lookup_insert_ne by done; apply H].
Qed.

(** An insertion that ends: the call is gone, or wakes the poller. *)
Definition ended (np : option Pc) : Prop := np = None ∨ ∃ b, np = Some (WakeCas (Returns b)).

Lemma ended_call c np (m : gmap nat Pc) c' fd d : ended np -> partial_alter (fun _ => np) c m !! c' = Some (AddInsert fd d) -> c' ≠ c ∧ m !! c' = Some (AddInsert fd d).
Proof.
  intros He. destruct (decide (c' = c)) as [->|]; [|by rewrite lookup_partial_alter_ne]. rewrite lookup_partial_alter_eq. destruct He as [->|[b ->]]; congruence.
Qed.

Lemma ended_rest k s closed c np fd d :
  kernelInv k s closed -> calls s !! c = Some (AddInsert fd d) -> ended np ->
  (wakeupPending_ s = true -> 0 < counter k ∨ ∃ c' p, partial_alter (fun _ => np) c (calls s) !! c' = Some p ∧ waking p = true) ∧
  ∀ c' p, partial_alter (fun _ => np) c (calls s) !! c' = Some p -> callOk k s p.
Proof.
  intros H Hc He. split.
  - intros Hp. destruct (k_wake _ _ _ H Hp) as [?|(c' & p & Hcp & Hpw)]; [by left|]. right. exists c', p. rewrite lookup_partial_alter_ne; [done | intros ->; by simplify_eq].
  - intros c' p. destruct (decide (c' = c)) as [->|]; [rewrite lookup_partial_alter_eq; by destruct He as [->|[b ->]]; intros [= <-] | rewrite lookup_partial_alter_ne by done; apply H].
Qed.

Lemma add_inserts k s closed c np fd d :
  kernelInv k s closed -> calls s !! c = Some (AddInsert fd d) -> eventMap_ s !! fd = None -> ended np ->
  kernelInv k (setCalls (partial_alter (fun _ => np) c (calls s)) (setMap (<[fd := d]> (eventMap_ s)) s)) closed.
Proof.
  intros H Hc Hm He. destruct (k_adds _ _ _ H c fd d Hc) as [Hne Hcase]. destruct (ended_rest k s closed c np fd d H Hc He) as [W C].
  split; cbn [setCalls setMap eventMap_ oneShot_ calls wakeupPending_ events_]; try apply H; try assumption.
  - rewrite lookup_insert_ne by done. apply H.
  - intros fd' Hf. destruct (decide (fd' = fd)) as [->|]; [right; left; by rewrite lookup_insert_eq|]. rewrite lookup_insert_ne by done.
    destruct (k_watched _ _ _ H fd' Hf) as [?|[?|(c' & d' & Ha)]]; [tauto | tauto|]. right. right. exists c', d'. cbn. rewrite lookup_partial_alter_ne; [done | congruence].
  - intros fd' Hf. destruct (decide (fd' = fd)) as [->|]; [destruct Hcase as [?|((m & Hw & _) & _)]; [by right | left; by rewrite Hw] | rewrite lookup_insert_ne in Hf by done; by apply H].
  - intros Ho fd' m e Hw. destruct (decide (fd' = fd)) as [->|]; [|rewrite lookup_insert_ne by done; by apply H]. rewrite lookup_insert_eq. intros [= <-].
    destruct Hcase as [?|((m' & Hw' & Hmask) & _)]; [by left|]. right. rewrite Hw in Hw'. injection Hw' as <-. by apply Hmask.
  - intros c' fd' e Ha. apply ended_call in Ha as [Hcc Ha]; [|done]. destruct (k_adds _ _ _ H c' fd' e Ha) as [A1 [A2|(A2 & A3 & A4)]]; split; [done | by left | done|].
    destruct (decide (fd' = fd)) as [->|Hfd]; [destruct Hcc; symmetry; exact (A4 c d Hc)|]. right. rewrite lookup_insert_ne by done. split_and!; [done | done|].
    intros c2 d2 Ha2. apply ended_call in Ha2 as [_ Ha2]; [|done]. by apply (A4 c2 d2).
Qed.

Lemma add_rolled_back k k' s closed c fd d :
  kernelInv k s closed -> calls s !! c = Some (AddInsert fd d) -> sameCounter k k' -> watched k' = delete fd (watched k) ->
  kernelInv k' (setCalls (delete c (calls s)) s) closed.
Proof.
  intros H Hc [E1 E2] Ew. destruct (k_adds _ _ _ H c fd d Hc) as [Hne Hcase]. assert (He : ended None) by by left.
  destruct (ended_rest k s closed c None fd d H Hc He) as [W C].
  split; unfold callOk; cbn [setCalls eventMap_ oneShot_ calls wakeupPending_ events_]; rewrite ?E1, ?E2, ?Ew; try apply H; try assumption.
  - rewrite lookup_delete_ne by done. apply H.
  - intros fd' Hf. destruct (decide (fd' = fd)) as [->|]; [rewrite lookup_delete_eq in Hf; by destruct Hf|]. rewrite lookup_delete_ne in Hf by done.
    destruct (k_watched _ _ _ H fd' Hf) as [?|[?|(c' & d' & Ha)]]; [tauto | tauto|]. right. right. exists c', d'. cbn. rewrite lookup_delete_ne; [done | congruence].
  - intros fd' Hf. destruct (decide (fd' = fd)) as [->|]; [|rewrite lookup_delete_ne by done; by apply H].
    right. destruct Hcase as [?|(_ & X & _)]; [done | rewrite X in Hf; by destruct Hf].
  - intros Ho fd' m e. destruct (decide (fd' = fd)) as [->|]; [by rewrite lookup_delete_eq | rewrite lookup_delete_ne by done; by apply H].
  - intros c' fd' e Ha. apply (ended_call c None) in Ha as [Hcc Ha]; [|done]. destruct (k_adds _ _ _ H c' fd' e Ha) as [A1 [A2|(A2 & A3 & A4)]]; split; [done | by left | done|].
    destruct (decide (fd' = fd)) as [->|Hfd]; [destruct Hcc; symmetry; exact (A4 c d Hc)|]. right. rewrite lookup_delete_ne by done. split_and!; [done | done|].
    intros c2 d2 Ha2. apply (ended_call c None) in Ha2 as [_ Ha2]; [|done]. by apply (A4 c2 d2).
Qed.

(** ** Steps *)

(** Only these fields count. *)
Lemma inv_fields k s s' closed : kernelInv k s closed ->
  eventMap_ s' = eventMap_ s -> oneShot_ s' = oneShot_ s -> calls s' = calls s -> (wakeupPending_ s' = true -> wakeupPending_ s = true) -> (0 < length (events_ s'))%nat -> kernelInv k s' closed.
Proof.
  intros H E1 E2 E3 E4 E5. split; unfold adding, callOk; rewrite ?E1, ?E2, ?E3; try apply H; [|done]. intros Hp. apply (k_wake _ _ _ H). by apply E4.
Qed.

Definition pollerInv s (closed : gset Z) : Prop := running_ s = true -> ∃ k, kernel s = Some k ∧ kernelInv k s closed.

Lemma step_running c p ready memory s s' r : stepCall c p ready memory s = Some (s', r) -> running_ s' = running_ s ∧ oneShot_ s' = oneShot_ s.
Proof.
  intros E. destruct p as [| | | | | |a|a|a| | | | |[|[]]| | | | | |]; cbn [stepCall] in E; unfold implAdd, implModify, implRemove, wokenUp in E.
  all: repeat (case_match; simplify_eq; cbn in * ); unfold goto, ret in *; simplify_eq; done.
Qed.

(** The step of a call that is no insertion, on a state that differs in what does not count. *)
Lemma moves k s s1 closed c p np :
  kernelInv k s closed -> calls s !! c = Some p -> isAdd p = false ->
  eventMap_ s1 = eventMap_ s -> oneShot_ s1 = oneShot_ s -> calls s1 = calls s -> (wakeupPending_ s1 = true -> wakeupPending_ s = true) -> (0 < length (events_ s1))%nat ->
  (∀ p', np = Some p' -> isAdd p' = false ∧ callOk k s p') ->
  (waking p = true -> (∃ p', np = Some p' ∧ waking p' = true) ∨ wakeupPending_ s1 = false ∨ 0 < counter k) ->
  kernelInv k (setCalls (partial_alter (fun _ => np) c (calls s1)) s1) closed.
Proof.
  intros H Hc Hi E1 E2 E3 E4 E5 Hn Hw. apply call_moves; [by apply (inv_fields k s)| | |]; rewrite ?E3, ?Hc; [by intros p' [= <-] | unfold callOk; by rewrite E2 | by intros p' [= <-]].
Qed.

(** The end of a wake-up that has succeeded. *)
Lemma woken_moves k s s1 closed c p a b s' r :
  kernelInv k s closed -> calls s !! c = Some p -> isAdd p = false -> a ≠ Closes ->
  eventMap_ s1 = eventMap_ s -> oneShot_ s1 = oneShot_ s -> calls s1 = calls s -> wakeupPending_ s1 = wakeupPending_ s -> events_ s1 = events_ s -> kernel s1 = Some k ->
  (waking p = true -> 0 < counter k) -> wokenUp c a b s1 = Some (s', r) -> ∃ k', kernel s' = Some k' ∧ kernelInv k' s' closed.
Proof.
  intros H Hc Hi Ha E1 E2 E3 E4 E5 E6 Hw E. assert (Hs : s' = setCalls (partial_alter (fun _ => None) c (calls s1)) s1) by (by destruct a; unfold wokenUp, ret in E; simplify_eq).
  exists k. rewrite Hs. split; [done|]. apply (moves k s s1 closed c p None); try done; [congruence | rewrite E5; apply H|]. intros Hp. right. right. by apply Hw.
Qed.

(** A wake-up takes the flag. *)
Lemma wake_starts k s closed c a : kernelInv k s closed -> calls s !! c = Some (WakeCas a) -> leaving (WakeCas a) = false ->
  kernelInv k (setCalls (<[c := WakeWrite a]> (calls s)) (setPending true s)) closed.
Proof.
  intros H Hc Hl. pose proof (call_moves k s closed c (Some (WakeWrite a)) H) as H'. rewrite Hc in H'.
  assert (Hm : kernelInv k (setCalls (<[c := WakeWrite a]> (calls s)) s) closed).
  { apply H'; [by intros ? [= <-] | | by intros ? [= <-]]. intros ? [= <-]. split; [done|]. by destruct a. }
  split; try apply Hm. intros _. right. exists c, (WakeWrite a). cbn. by rewrite lookup_insert_eq.
Qed.

Ltac goes_on H Hc Hk := eexists; split; [first [exact Hk | reflexivity]|]; eapply (moves _ _ _ _ _ _ _ H Hc); try done; [by apply H | by intros ? [= <-]].
Ltac goes_off H Hc Hk := eexists; split; [first [exact Hk | reflexivity]|]; eapply (moves _ _ _ _ _ _ None H Hc); try done; by apply H.

Lemma poller_step_inv c p ready memory s closed s' r :
  pollerInv s closed -> calls s !! c = Some p -> stepCall c p ready memory s = Some (s', r) -> pollerInv s' closed.
Proof.
  intros Hinv Hc E Hrun. destruct (step_running _ _ _ _ _ _ _ E) as [Er _]. rewrite Er in Hrun. destruct (Hinv Hrun) as (k & Hk & H). destruct (k_calls _ _ _ H c p Hc) as (Hl & Hre & Hone).
  destruct p as [fd d|fd d|fd d|fd ev|fd|fd ev|a|a|a| |i found ro|i found ro|i found ro|todo inv ro|fd ev d todo inv ro|fd d todo inv ro|fd todo inv ro|fd ev todo inv ro| |]; cbn [stepCall] in E; try done.
  - case_bool_decide; unfold ret, goto in E; simplify_eq; [goes_off H Hc Hk | goes_on H Hc Hk].
  - unfold implAdd in E. rewrite Hk in E. pose proof (add_law k fd (toNativeEvents (events d) (oneShot_ s))) as (L1 & L2 & L3). destruct (ctlAdd k fd _) as [k' []]; cbn in *; unfold ret, goto in E; simplify_eq.
    + exists k'. split; [done|]. apply (inv_fields k' (setCalls (<[c := AddInsert fd d]> (calls s)) s)); try done; [apply (add_registers k); auto | apply H].
    + pose proof (kernel_counted _ _ _ _ H L1 L2) as H'. goes_off H' Hc Hk.
  - destruct (bool_decide (is_Some (eventMap_ s !! fd)) || negb memory) eqn:Eb.
    + unfold implRemove in E. rewrite Hk in E. pose proof (del_law k fd) as (L1 & L2 & L3). destruct (ctlDel k fd) as [k' b]; cbn in *. unfold ret in E; simplify_eq.
      exists k'. split; [done|]. apply (inv_fields k' (setCalls (delete c (calls s)) s)); try done; [by apply (add_rolled_back k _ _ _ _ fd d) | apply H].
    + apply orb_false_iff in Eb as [Eb _]. apply bool_decide_eq_false in Eb. unfold goto in E. simplify_eq. exists k. split; [done|].
      apply (add_inserts k s closed c (Some _) fd d H Hc); [by apply eq_None_not_Some | right; by eexists].
  - destruct (eventMap_ s !! fd) as [d|] eqn:Ed; [|unfold ret in E; simplify_eq; goes_off H Hc Hk]. unfold implModify in E. rewrite Hk in E.
    pose proof (mod_law k fd (toNativeEvents ev (oneShot_ s))) as (L1 & L2 & L3). destruct (ctlMod k fd _) as [k' []]; cbn in *; unfold ret, goto in E; simplify_eq.
    + set (d' := mkEventData ev (callback d) (userData d)). pose proof (kernel_modified k k' s closed fd d d' H L1 L2 (L3 eq_refl) Ed) as H'.
      exists k'. split; [done|]. apply (moves k' _ _ closed c _ (Some (WakeCas (Returns true))) H' Hc); try done; [apply H | by intros ? [= <-]].
    + pose proof (kernel_counted _ _ _ _ H L1 L2) as H'. goes_off H' Hc Hk.
  - destruct (eventMap_ s !! fd) as [d|] eqn:Ed; [|unfold ret in E; simplify_eq; goes_off H Hc Hk]. unfold implRemove in E. rewrite Hk in E.
    pose proof (del_law k fd) as (L1 & L2 & L3). destruct (ctlDel k fd) as [k' b]; cbn in *.
    pose proof (kernel_removed k k' s closed fd H L1 L2 ltac:(by rewrite Ed)) as H'. exists k'. destruct b; unfold ret, goto in E; simplify_eq; (split; [done|]).
    + apply (moves k' _ _ closed c _ (Some (WakeCas (Returns true))) H' Hc); try done; [apply H | by intros ? [= <-]].
    + apply (moves k' _ _ closed c _ None H' Hc); try done. apply H.
  - unfold implModify in E. rewrite Hk in E. pose proof (mod_law k fd (toNativeEvents ev (oneShot_ s))) as (L1 & L2 & L3). destruct (ctlMod k fd _) as [k' b]; cbn in *. unfold ret in E; simplify_eq.
    assert (H' : kernelInv k' s closed) by (destruct b; [apply (kernel_rearmed k _ _ _ fd (toNativeEvents ev (oneShot_ s))); auto; congruence | by apply (kernel_counted k)]). goes_off H' Hc Hk.
  - rewrite Hk in E. destruct (wakeupPending_ s) eqn:Ep.
    + eapply (woken_moves k s s closed c _ a); try done. by intros ->.
    + unfold goto in E. simplify_eq. exists k. split; [done|]. by apply (wake_starts k s closed c a).
  - rewrite Hk in E. pose proof (write_law k) as (L1 & L2 & L3). destruct (eventWrite k) as [k' []]; cbn in *; [| |done].
    + assert (H' : kernelInv k' s closed) by (apply (kernel_same k); [done..|]; intros; left; lia).
      eapply (woken_moves k' s (setKernel (Some k') s) closed c _ a); try done; [by intros -> | intros _; pose proof (counter_nonneg k); lia].
    + assert (H' : kernelInv k' s closed) by (apply (kernel_same k); [done..|]; intros; left; lia).
      eapply (woken_moves k' s (setKernel (Some k') s) closed c _ a); try done; [by intros -> | intros _; lia].
  - rewrite Hk in E. pose proof (wait_law k ready (length (events_ s))) as (L1 & L2 & L3). destruct (epollWait k ready _) as [k' [l|]]; cbn in *; unfold ret, goto in E; simplify_eq.
    + pose proof (kernel_counted _ _ _ _ H L1 L2) as H'. exists k'. split; [done|]. eapply (moves _ _ _ _ _ _ _ H' Hc); try done; [|by intros ? [= <-]].
      cbn. rewrite length_app, length_drop. pose proof (k_room _ _ _ H). lia.
    + pose proof (kernel_counted _ _ _ _ H L1 L2) as H'. goes_off H' Hc Hk.
  - destruct (i <? length (reported ro))%nat; [|unfold goto in E; simplify_eq; goes_on H Hc Hk]. rewrite Hk in E. destruct (_ =? _); unfold goto in E; simplify_eq; goes_on H Hc Hk.
  - rewrite Hk in E. pose proof (read_law k) as (L1 & L2 & L3 & L4). destruct (eventRead k) as [k' b]; cbn in *.
    assert (H' : kernelInv k' s closed) by (apply (kernel_same k); [done..|]; intros; right; by exists c, (Draining i found ro)).
    destruct b; unfold goto in E; simplify_eq; (eexists; split; [reflexivity|]; eapply (moves _ _ _ _ _ _ _ H' Hc); try done; [apply H | by intros ? [= <-] | intros _; left; by eexists]).
  - unfold goto in E; simplify_eq. eexists; split; [exact Hk|]. eapply (moves _ _ _ _ _ _ _ H Hc); try done; [apply H | by intros ? [= <-] | intros _; right; by left].
  - destruct todo as [|[fd ev] todo]; [unfold ret in E; simplify_eq; goes_off H Hc Hk|]. destruct (eventMap_ s !! fd); unfold goto in E; simplify_eq; goes_on H Hc Hk.
  - unfold goto in E; simplify_eq. goes_on H Hc Hk.
  - destruct (oneShot_ s) eqn:Eo; unfold goto in E; simplify_eq; goes_on H Hc Hk.
  - destruct (eventMap_ s !! fd) as [d|] eqn:Ed; unfold goto in E; simplify_eq; [|goes_on H Hc Hk].
    exists k. split; [exact Hk|]. eapply (moves _ _ _ _ _ _ _ H Hc); try done; [apply H|]. intros ? [= <-]. split; [done|]. split_and!; [done | intros [= ->]; pose proof (k_own _ _ _ H); congruence | done].
  - unfold implModify in E. rewrite Hk in E. pose proof (mod_law k fd (toNativeEvents ev (oneShot_ s))) as (L1 & L2 & L3). destruct (ctlMod k fd _) as [k' b]; cbn in *. unfold goto in E; simplify_eq.
    assert (H' : kernelInv k' s closed) by (destruct b; [apply (kernel_rearmed k _ _ _ fd (toNativeEvents ev (oneShot_ s))); auto; congruence | by apply (kernel_counted k)]). goes_on H' Hc Hk.
Qed.

Lemma poller_closed_inv k s closed fd :
  kernelInv k s closed -> fd ≠ eventFd k -> kernelInv (descriptorClosed k fd) s (if bool_decide (is_Some (watched k !! fd)) then {[fd]} ∪ closed else closed).
Proof.
  intros H Hne. destruct (closed_law k fd) as [L1 L2]. case_bool_decide as Hb.
  2:{ apply (kernel_counted k); [done | done|]. rewrite L2. apply delete_id. by apply eq_None_not_Some. }
  destruct L1 as [E1 E2]. split; unfold callOk; rewrite ?E1, ?E2, ?L2; try apply H.
  - rewrite lookup_delete_ne by done. apply H.
  - intros fd' Hf. apply (k_watched _ _ _ H). destruct (decide (fd' = fd)) as [->|]; [rewrite lookup_delete_eq in Hf; by destruct Hf | by rewrite lookup_delete_ne in Hf].
  - intros fd' Hf. destruct (decide (fd' = fd)) as [->|]; [right; apply elem_of_union_l, elem_of_singleton_2, eq_refl|]. rewrite lookup_delete_ne by done. destruct (k_map _ _ _ H fd' Hf); [by left | right; by apply elem_of_union_r].
  - intros Ho fd' m d. destruct (decide (fd' = fd)) as [->|]; [by rewrite lookup_delete_eq|]. rewrite lookup_delete_ne by done. intros Hw Hd.
    destruct (k_mask _ _ _ H Ho fd' m d Hw Hd); [left; by apply elem_of_union_r | by right].
  - intros c fd' d Ha. destruct (k_adds _ _ _ H c fd' d Ha) as [A1 A2]. split; [done|]. destruct (decide (fd' = fd)) as [->|]; [left; apply elem_of_union_l, elem_of_singleton_2, eq_refl|].
    rewrite lookup_delete_ne by done. destruct A2 as [A2|A2]; [left; by apply elem_of_union_r | by right].
Qed.

Lemma created_inv w n s : (0 < n)%nat -> calls s = ∅ -> eventMap_ s = ∅ -> wakeupPending_ s = false -> length (events_ s) = n -> kernelInv (epollCreate w) s ∅.
Proof.
  intros Hn Hc Hm Hp Hl. destruct (create_new w) as (L1 & L2 & L3). split; unfold adding; rewrite ?L1, ?L2, ?L3, ?Hc, ?Hm, ?Hp, ?Hl; try done.
  - by rewrite lookup_singleton_eq.
  - intros fd [m Hf]. left. by apply lookup_singleton_Some in Hf as [-> _].
  - intros fd [d Hf]. by rewrite lookup_empty in Hf.
Qed.

Lemma poller_start_inv c ok failure p s closed s' r :
  pollerInv s closed -> start c ok failure p s = Some (s', r) -> isAdd p = false -> (∀ k, kernel s = Some k -> kernelInv k s closed -> ok = true -> callOk k s p) -> pollerInv s' closed.
Proof.
  intros Hinv E Hi Ho. unfold start in E. destruct (calls s !! c) eqn:Ec; [done|]. destruct ok; [|by simplify_eq]. unfold goto in E. simplify_eq.
  intros Hrun. destruct (Hinv Hrun) as (k & Hk & H). exists k. split; [done|]. apply (call_moves k s closed c (Some p) H); rewrite ?Ec; [done | | done]. intros ? [= <-]. split; [done | by apply Ho].
Qed.

Lemma poller_execute_inv s closed l s' r : pollerInv s closed -> execute s l = Some (s', r) -> pollerInv s' (closedBy s l closed).
Proof.
  intros Hinv E. destruct l as [n one o|c|c fd ev cb ud mem|c fd ev|c fd|c fd ev|c|c|c ready mem|fd]; cbn [execute closedBy] in *.
  - case_bool_decide as Hc; [|done]. unfold implInitialize in E. destruct o as [w|]; cbn in E; simplify_eq; [|done]. intros _. exists (epollCreate w). split; [done|].
    apply (created_inv w (Z.to_nat (Z.max 1 n))); [lia | done..|]. cbn. by rewrite length_replicate.
  - unfold start in E. destruct (calls _ !! c); [done|]. by destruct (running_ s); unfold goto in E; simplify_eq.
  - apply (poller_start_inv _ _ _ _ _ _ _ _ Hinv E); done.
  - apply (poller_start_inv _ _ _ _ _ _ _ _ Hinv E); done.
  - apply (poller_start_inv _ _ _ _ _ _ _ _ Hinv E); done.
  - case_bool_decide as Hb; [done|]. apply (poller_start_inv _ _ _ _ _ _ _ _ Hinv E); [done|]. intros k Hk _ [_ Ho]%andb_true_iff. rewrite Hk in Hb.
    split_and!; [done | intros [= ->]; by apply Hb | done].
  - apply (poller_start_inv _ _ _ _ _ _ _ _ Hinv E); done.
  - apply (poller_start_inv _ _ _ _ _ _ _ _ Hinv E); done.
  - destruct (calls s !! c) as [p|] eqn:Ec; [|done]. by apply (poller_step_inv c p ready mem s closed s' r).
  - destruct (kernel s) as [k|] eqn:Hk; cbn [mbind option_bind].
    + destruct (Z.eqb_spec fd (eventFd k)) as [|Hne]; [done|]. simplify_eq. intros Hrun. destruct (Hinv Hrun) as (k' & Hk' & H). assert (k' = k) as -> by congruence.
      eexists. split; [done|]. apply (inv_fields _ s); [by apply poller_closed_inv | done..|]. apply H.
    + simplify_eq. intros Hrun. destruct (Hinv Hrun) as (k' & Hk' & _). congruence.
Qed.

Lemma poller_reachable_inv single s closed : reachable single s closed -> pollerInv s closed.
Proof. induction 1 as [|s closed l s' r _ IH _ E]; [done | by apply (poller_execute_inv s closed l s' r)]. Qed.

(** ** A round of [poll] *)

(** The events of sockets among those reported, as the callbacks get them. *)
Definition converted (w : Z) (l : list (Z * Z)) : list (Z * Z) := (fun e => (e.1, fromNativeEvents e.2)) <$> filter (fun e => e.1 ≠ w) l.

Definition invocationOf (x : Z * Z * option EventData) : option Invocation :=
  (fun d => mkInvocation x.1.1 x.1.2 (callback d) (userData d)) <$> x.2.
Definition invocationsOf (l : list (Z * Z * option EventData)) : list Invocation := omap invocationOf l.

Definition collected k s (i : nat) (found : list (Z * Z)) (r : Round) : Prop :=
  (i <= length (reported r))%nat ∧ take (length (reported r)) (events_ s) = reported r ∧ found = converted (eventFd k) (take i (reported r)) ∧
  looked r = [] ∧ invocations s = earlier r ∧ NoDup (reported r).*1.

Definition dispatched k s (made : list (Z * Z * option EventData)) (todo : list (Z * Z)) (invoked : Z) (r : Round) : Prop :=
  (looked r).*1 ++ todo = converted (eventFd k) (reported r) ∧ invocations s = earlier r ++ invocationsOf made ∧ invoked = zlen (invocationsOf made) ∧ NoDup (reported r).*1.

Definition roundOk k s (p : Pc) : Prop :=
  match p with
  | Collect i found r => collected k s i found r
  | Draining i found r | Clearing i found r => collected k s i found r ∧ ∃ ev, reported r !! i = Some (eventFd k, ev)
  | Dispatch todo invoked r | RearmCheck _ todo invoked r | Rearm _ _ todo invoked r => dispatched k s (looked r) todo invoked r
  | Invoke fd ev d todo invoked r => ∃ l, looked r = l ++ [(fd, ev, Some d)] ∧ dispatched k s l todo invoked r
  | InCallback fd d todo invoked r => dispatched k s (looked r) todo (invoked + 1) r
  | _ => True
  end.

Lemma invocationsOf_app l l' : invocationsOf (l ++ l') = invocationsOf l ++ invocationsOf l'.
Proof. apply omap_app. Qed.

Lemma converted_snoc w l i e : l !! i = Some e -> converted w (take (S i) l) = converted w (take i l) ++ (if decide (e.1 = w) then [] else [(e.1, fromNativeEvents e.2)]).
Proof.
  intros He. rewrite (take_S_r l i e He). unfold converted. rewrite filter_app, fmap_app. f_equal. destruct (decide (e.1 = w)) as [Hw|Hw].
  - rewrite filter_cons_False; [done | by intros ?].
  - by rewrite filter_cons_True.
Qed.

(** What a step of a [poll] makes of its round. *)
Lemma round_step k s closed c p ready memory s' r :
  kernelInv k s closed -> kernel s = Some k -> polling p = true -> roundOk k s p -> stepCall c p ready memory s = Some (s', r) ->
  ∃ k' np, kernel s' = Some k' ∧ eventFd k' = eventFd k ∧ calls s' = partial_alter (fun _ => np) c (calls s) ∧
    (∀ p', np = Some p' -> polling p' = true ∧ roundOk k' s' p').
Proof.
  intros H Hk Hp Hr E. destruct p as [| | | | | | | | | |i found ro|i found ro|i found ro|todo inv ro|fd ev d todo inv ro|fd d todo inv ro|fd todo inv ro|fd ev todo inv ro| |]; try discriminate Hp; cbn [stepCall] in E.
  - rewrite Hk in E. pose proof (wait_law k ready (length (events_ s))) as ([L1 _] & L2 & L3). destruct (epollWait k ready _) as [k' [l|]]; cbn in *; unfold ret, goto in E; simplify_eq.
    + exists k'. eexists (Some _). split_and!; [done..|]. intros ? [= <-]. split; [done|]. cbn. destruct (L3 l eq_refl) as (_ & Hn & _). unfold collected. cbn.
      split_and!; [lia | by rewrite take_app_exact | done..].
    + exists k', None. by split_and!.
  - destruct Hr as (Hi & He & Hf & Hlk & Hin & Hnd). destruct (Nat.ltb_spec i (length (reported ro))) as [Hlt|Hge].
    + destruct (lookup_lt_is_Some_2 _ _ Hlt) as [e Hre]. assert (Hev : events_ s !! i = Some e) by (rewrite <- Hre, <- He at 1; symmetry; by apply lookup_take_lt).
      rewrite Hev, Hk in E. cbn [default from_option id] in E. pose proof (converted_snoc (eventFd k) _ _ _ Hre) as Hcs.
      destruct (Z.eqb_spec e.1 (eventFd k)) as [Hw|Hw]; unfold goto in E; simplify_eq; exists k; eexists (Some _); (split_and!; [done..|]); intros ? [= <-]; (split; [done|]).
      * split; [by split_and!|]. exists e.2. cbn. rewrite Hre. by rewrite <- Hw, <- surjective_pairing.
      * split_and!; [done | done | | done..]. rewrite Hcs. by destruct (decide (e.1 = eventFd k)).
    + unfold goto in E. simplify_eq. exists k. eexists (Some _). split_and!; [done..|]. intros ? [= <-]. split; [done|]. unfold roundOk, dispatched. rewrite Hlk. cbn.
      split_and!; [by rewrite take_ge by lia | by rewrite app_nil_r | done | done].
  - rewrite Hk in E. pose proof (read_law k) as (L1 & _). destruct (eventRead k) as [k' b]; cbn in *. destruct Hr as [Hc [ev Hev]].
    destruct b; unfold goto in E; simplify_eq; exists k'; eexists (Some _); (split_and!; [done..|]); intros ? [= <-]; (split; [done|]); unfold roundOk, collected in *; rewrite L1; (split; [exact Hc | by exists ev]).
  - unfold goto in E. simplify_eq. destruct Hr as [(Hi & He & Hf & Hlk & Hin & Hnd) [ev Hev]]. exists k. eexists (Some _). split_and!; [done..|]. intros ? [= <-]. split; [done|].
    pose proof (converted_snoc (eventFd k) _ _ _ Hev) as Hcs. cbn in Hcs. destruct (decide (eventFd k = eventFd k)); [|done]. apply lookup_lt_Some in Hev. rewrite app_nil_r in Hcs.
    split_and!; [lia | done | by rewrite Hcs | done..].
  - destruct Hr as (R1 & R2 & R3 & R4). destruct todo as [|[fd ev] todo]; [unfold ret in E; simplify_eq; exists k, None; by split_and!|].
    destruct (eventMap_ s !! fd) as [d|] eqn:Ed; unfold goto in E; simplify_eq; exists k; eexists (Some _); (split_and!; [done..|]); intros ? [= <-]; (split; [done|]).
    + exists (looked ro). split; [done|]. unfold dispatched. cbn. rewrite fmap_app, <- app_assoc. by split_and!.
    + unfold roundOk, dispatched. cbn. rewrite fmap_app, <- app_assoc, invocationsOf_app. cbn. rewrite app_nil_r. by split_and!.
  - unfold goto in E. simplify_eq. destruct Hr as (l & Hl & R1 & R2 & R3 & R4). exists k. eexists (Some _). split_and!; [done..|]. intros ? [= <-]. split; [done|].
    unfold roundOk, dispatched. cbn. rewrite Hl, invocationsOf_app, app_assoc, <- R2, R3. rewrite Hl in R1. split_and!; [done | done | | done]. rewrite zlen_app. done.
  - destruct (oneShot_ s); unfold goto in E; simplify_eq; exists k; eexists (Some _); (split_and!; [done..|]); intros ? [= <-]; by split.
  - destruct (eventMap_ s !! fd); unfold goto in E; simplify_eq; exists k; eexists (Some _); (split_and!; [done..|]); intros ? [= <-]; by split.
  - unfold implModify in E. rewrite Hk in E. pose proof (mod_law k fd (toNativeEvents ev (oneShot_ s))) as ([L1 _] & _). destruct (ctlMod k fd _) as [k' b]; cbn in *. unfold goto in E; simplify_eq.
    exists k'. eexists (Some _). split_and!; [done..|]. intros ? [= <-]. split; [done|]. unfold roundOk, dispatched in *. rewrite L1. exact Hr.
Qed.

(** The other calls leave rounds alone. *)
Lemma other_step k s c p ready memory s' r :
  kernel s = Some k -> polling p = false -> leaving p = false -> stepCall c p ready memory s = Some (s', r) ->
  events_ s' = events_ s ∧ invocations s' = invocations s ∧ (∃ k', kernel s' = Some k' ∧ eventFd k' = eventFd k) ∧
  ∃ np, calls s' = partial_alter (fun _ => np) c (calls s) ∧ ∀ p', np = Some p' -> polling p' = false.
Proof.
  intros Hk Hp Hl E. destruct p as [fd d|fd d|fd d|fd ev|fd|fd ev|a|a|a| | | | | | | | | | |]; try discriminate Hp; try discriminate Hl; cbn [stepCall] in E; unfold implAdd, implModify, implRemove, wokenUp in E.
  - case_bool_decide; unfold ret, goto in E; simplify_eq; (split_and!; [done | done | by exists k|]); [by exists None | exists (Some (AddKernel fd d)); split; [done | by intros ? [= <-]]].
  - rewrite Hk in E. pose proof (add_law k fd (toNativeEvents (events d) (oneShot_ s))) as ([L1 _] & _). destruct (ctlAdd k fd _) as [k' []]; unfold ret, goto in E; simplify_eq; (split_and!; [done | done | by exists k'|]).
    + exists (Some (AddInsert fd d)); split; [done | by intros ? [= <-]].
    + by exists None.
  - rewrite Hk in E. destruct (_ || _).
    + pose proof (del_law k fd) as ([L1 _] & _). destruct (ctlDel k fd) as [k' b]. unfold ret in E; simplify_eq. split_and!; [done | done | by exists k' | by exists None].
    + unfold goto in E; simplify_eq. split_and!; [done | done | by exists k|]. exists (Some (WakeCas (Returns true))); split; [done | by intros ? [= <-]].
  - destruct (eventMap_ s !! fd) as [d|]; [|unfold ret in E; simplify_eq; split_and!; [done | done | by exists k | by exists None]]. rewrite Hk in E.
    pose proof (mod_law k fd (toNativeEvents ev (oneShot_ s))) as ([L1 _] & _). destruct (ctlMod k fd _) as [k' []]; unfold ret, goto in E; simplify_eq; (split_and!; [done | done | by exists k'|]).
    + exists (Some (WakeCas (Returns true))); split; [done | by intros ? [= <-]].
    + by exists None.
  - destruct (eventMap_ s !! fd) as [d|]; [|unfold ret in E; simplify_eq; split_and!; [done | done | by exists k | by exists None]]. rewrite Hk in E.
    pose proof (del_law k fd) as ([L1 _] & _). destruct (ctlDel k fd) as [k' []]; unfold ret, goto in E; simplify_eq; (split_and!; [done | done | by exists k'|]).
    + exists (Some (WakeCas (Returns true))); split; [done | by intros ? [= <-]].
    + by exists None.
  - rewrite Hk in E. pose proof (mod_law k fd (toNativeEvents ev (oneShot_ s))) as ([L1 _] & _). destruct (ctlMod k fd _) as [k' b]. unfold ret in E; simplify_eq. split_and!; [done | done | by exists k' | by exists None].
  - rewrite Hk in E. destruct (wakeupPending_ s); [|unfold goto in E; simplify_eq; split_and!; [done | done | by exists k|]; exists (Some (WakeWrite a)); split; [done | by intros ? [= <-]]].
    destruct a; try discriminate Hl; unfold ret in E; simplify_eq; split_and!; [done | done | by exists k | by exists None | done | done | by exists k | by exists None].
  - rewrite Hk in E. pose proof (write_law k) as (L1 & _). destruct (eventWrite k) as [k' []].
    1,2: destruct a; try discriminate Hl; unfold ret in E; simplify_eq; split_and!; [done | done | by exists k' | by exists None | done | done | by exists k' | by exists None].
    unfold goto in E; simplify_eq; split_and!; [done | done | by exists k'|]; exists (Some (WakeReset a)); split; [done | by intros ? [= <-]].
Qed.

(** One [poll] at a time, and its round is as it should be. *)
Record roundInv s : Prop := {
  r_one : ∀ c c' p p', calls s !! c = Some p -> calls s !! c' = Some p' -> polling p = true -> polling p' = true -> c = c';
  r_ok : running_ s = true -> ∀ k c p, kernel s = Some k -> calls s !! c = Some p -> roundOk k s p
}.

Lemma polls_one s c np : (∀ p, calls s !! c = Some p -> np ≠ None -> polling p = polling (default PollWait np)) ->
  (calls s !! c = None -> ∀ p', np = Some p' -> polling p' = true -> map_Forall (fun _ p => polling p = false) (calls s)) ->
  (∀ c c' p p', calls s !! c = Some p -> calls s !! c' = Some p' -> polling p = true -> polling p' = true -> c = c') ->
  ∀ c1 c2 p1 p2, partial_alter (fun _ => np) c (calls s) !! c1 = Some p1 -> partial_alter (fun _ => np) c (calls s) !! c2 = Some p2 -> polling p1 = true -> polling p2 = true -> c1 = c2.
Proof.
  intros Hp Hn H c1 c2 p1 p2 E1 E2 P1 P2.
  assert (Hx : ∀ c' p', partial_alter (fun _ => np) c (calls s) !! c' = Some p' -> polling p' = true -> c' ≠ c -> ∀ c'' p'', partial_alter (fun _ => np) c (calls s) !! c'' = Some p'' -> polling p'' = true -> c' = c'').
  { intros c' p' E' P' Hne c'' p'' E'' P''. rewrite lookup_partial_alter_ne in E' by done. destruct (decide (c'' = c)) as [->|]; [|rewrite lookup_partial_alter_ne in E'' by done; by eapply H].
    rewrite lookup_partial_alter_eq in E''. subst np. destruct (calls s !! c) as [p|] eqn:Ec.
    - specialize (Hp p eq_refl ltac:(done)). cbn in Hp. eapply (H c' c p' p); [done | done | done | congruence].
    - specialize (Hn eq_refl p'' eq_refl P'' c' p' E'). cbn in Hn. congruence. }
  destruct (decide (c1 = c)) as [->|]; [|by eapply Hx]. destruct (decide (c2 = c)) as [->|]; [done|]. symmetry. by eapply Hx.
Qed.

Lemma polling_kept c p ready memory s s' r : calls s !! c = Some p -> stepCall c p ready memory s = Some (s', r) ->
  ∃ np, calls s' = partial_alter (fun _ => np) c (calls s) ∧ (np ≠ None -> polling p = polling (default PollWait np)).
Proof.
  intros Hc E. destruct p as [| | | | | |a|a|a| | | | |[|[]]| | | | | |]; cbn [stepCall] in E; unfold implAdd, implModify, implRemove, wokenUp in E.
  all: repeat (case_match; simplify_eq; cbn in E); unfold goto, ret in *; simplify_eq; first [by exists None | eexists (Some _); split; [reflexivity | done]].
Qed.

Lemma round_fields k k' s s' p : eventFd k' = eventFd k -> events_ s' = events_ s -> invocations s' = invocations s -> roundOk k s p -> roundOk k' s' p.
Proof. intros E1 E2 E3. destruct p; unfold roundOk, collected, dispatched; by rewrite ?E1, ?E2, ?E3. Qed.

Lemma round_idle k s p : polling p = false -> roundOk k s p.
Proof. by destruct p. Qed.

Lemma round_execute s closed l s' r : roundInv s -> pollerInv s closed -> allowed true s l -> execute s l = Some (s', r) -> roundInv s'.
Proof.
  intros [H1 H2] Hinv Hal E.
  assert (Hstart : ∀ c ok failure p s1, start c ok failure p s1 = Some (s', r) -> kernel s1 = kernel s -> events_ s1 = events_ s -> invocations s1 = invocations s -> calls s1 = calls s ->
    (running_ s1 = true -> running_ s = true) -> (∀ k s2, roundOk k s2 p) -> (polling p = true -> map_Forall (fun _ p => polling p = false) (calls s)) -> roundInv s').
  { intros c ok failure p s1 Es Ek Ee Ei Ec Er Hp Hno. unfold start in Es. rewrite Ec in Es. destruct (calls s !! c) eqn:Ecc; [done|]. destruct ok.
    - unfold goto in Es. rewrite Ec in Es. simplify_eq. split.
      + apply (polls_one s c (Some p)); [congruence | by intros _ ? [= <-] | done].
      + cbn. intros Hr k c' p' Hk. rewrite Ek in Hk. destruct (decide (c' = c)) as [->|]; [rewrite lookup_insert_eq; intros [= <-]; apply Hp|]. rewrite lookup_insert_ne by done. intros Hc'.
        apply (round_fields k k s); [done..|]. apply (H2 (Er Hr) k c' p' Hk Hc').
    - simplify_eq. split; [by rewrite Ec|]. intros Hr k c' p'. rewrite Ek, Ec. intros Hk Hc'. apply (round_fields k k s); [done..|]. apply (H2 (Er Hr) k c' p' Hk Hc'). }
  destruct l as [n one o|c|c fd ev cb ud mem|c fd ev|c fd|c fd ev|c|c|c ready mem|fd]; cbn [execute] in E.
  - case_bool_decide as Hc; [|done]. unfold implInitialize in E. destruct o; cbn in E; simplify_eq; split; cbn; rewrite Hc; intros; by rewrite lookup_empty in *.
  - by eapply Hstart.
  - by eapply Hstart.
  - by eapply Hstart.
  - by eapply Hstart.
  - case_bool_decide; [done|]. by eapply Hstart.
  - by eapply Hstart.
  - eapply Hstart; [exact E | done..|]. intros _. by apply Hal.
  - destruct (calls s !! c) as [p|] eqn:Ec; [|done]. cbn in E. destruct (polling_kept _ _ _ _ _ _ _ Ec E) as (np & Enp & Hnp). split.
    { rewrite Enp. apply polls_one; [rewrite Ec; by intros ? [= <-] | congruence | done]. }
    intros Hr k' c' p' Hk' Hc'. destruct (step_running _ _ _ _ _ _ _ E) as [Er _]. rewrite Er in Hr. destruct (Hinv Hr) as (k & Hk & HI). destruct (k_calls _ _ _ HI c p Ec) as (Hl & _).
    destruct (polling p) eqn:Epo.
    + destruct (round_step k s closed c p ready mem s' r HI Hk Epo (H2 Hr k c p Hk Ec) E) as (k2 & np2 & R1 & R2 & R3 & R4). assert (k2 = k') as -> by congruence. rewrite R3 in Hc'.
      destruct (decide (c' = c)) as [->|Hne]; [rewrite lookup_partial_alter_eq in Hc'; by apply R4|]. rewrite lookup_partial_alter_ne in Hc' by done.
      apply round_idle. destruct (polling p') eqn:Ep'; [|done]. by destruct (Hne (H1 c' c p' p Hc' Ec Ep' Epo)).
    + destruct (other_step k s c p ready mem s' r Hk Epo Hl E) as (R1 & R2 & (k2 & R3 & R4) & np2 & R5 & R6). assert (k2 = k') as -> by congruence. rewrite R5 in Hc'.
      destruct (decide (c' = c)) as [->|Hne]; [rewrite lookup_partial_alter_eq in Hc'; by apply round_idle, R6|]. rewrite lookup_partial_alter_ne in Hc' by done.
      apply (round_fields k k' s); [done..|]. by apply (H2 Hr k c' p').
  - destruct (kernel s) as [k|] eqn:Hk; [|simplify_eq; split; [done|]; intros Hr k c p Hk'; congruence]. destruct (fd =? eventFd k); [done|]. simplify_eq. split; [done|]. cbn. intros Hr k' c p [= <-] Hc. destruct (closed_law k fd) as [[L1 _] _].
    apply (round_fields k _ s); [done..|]. by apply (H2 Hr k c p).
Qed.

Lemma round_reachable s closed : reachable true s closed -> roundInv s.
Proof.
  induction 1 as [|s closed l s' r Hr IH Hal E]; [by split|]. by apply (round_execute s closed l s' r IH (poller_reachable_inv _ _ _ Hr)).
Qed.

(** ** A round comes to its end *)

(** A step of the call [c] alone. *)
Definition ownStep (c : nat) s s' : Prop := ∃ ready memory, execute s (Step c ready memory) = Some (s', None).
(** The steps of [c] alone make it return. *)
Definition finishes (c : nat) s : Prop := ∃ s1 s2 n, rtc (ownStep c) s s1 ∧ (∃ ready memory, execute s1 (Step c ready memory) = Some (s2, Some (Count n))).

Lemma finishes_step c s s' : ownStep c s s' -> finishes c s' -> finishes c s.
Proof. intros H (s1 & s2 & n & H1 & H2). exists s1, s2, n. split; [by eapply rtc_l | done]. Qed.

Lemma goto_calls c p s s' r : goto c p s = Some (s', r) -> calls s' !! c = Some p ∧ r = None.
Proof. unfold goto. intros [= <- <-]. cbn. by rewrite lookup_insert_eq. Qed.

Section Finishes.
Context (ready : Readiness).

Ltac own Hc := eapply finishes_step; [exists ready, true; cbn [execute]; rewrite Hc; cbn [mbind option_bind stepCall]|].

Lemma dispatch_finishes c todo : ∀ invoked r s, calls s !! c = Some (Dispatch todo invoked r) -> finishes c s.
Proof.
  induction todo as [|[fd ev] todo IH]; intros invoked r s Hc.
  - exists s. eexists _, invoked. split; [done|]. exists ready, true. cbn [execute]. by rewrite Hc.
  - destruct (eventMap_ s !! fd) as [d|] eqn:Ed.
    2:{ own Hc; [rewrite Ed; reflexivity|]. eapply IH. cbn. by rewrite lookup_insert_eq. }
    own Hc; [rewrite Ed; reflexivity|]. set (s1 := setCalls _ _). assert (Hc1 : calls s1 !! c = Some (Invoke fd ev d todo invoked (mkRound (reported r) (earlier r) (looked r ++ [(fd, ev, Some d)])))) by (cbn; by rewrite lookup_insert_eq).
    clearbody s1. own Hc1; [reflexivity|]. set (s2 := setCalls _ _). assert (Hc2 : calls s2 !! c = Some (InCallback fd d todo invoked (mkRound (reported r) (earlier r) (looked r ++ [(fd, ev, Some d)])))) by (cbn; by rewrite lookup_insert_eq).
    clearbody s2. destruct (oneShot_ s2) eqn:Eo.
    2:{ own Hc2; [rewrite Eo; reflexivity|]. eapply IH. cbn. by rewrite lookup_insert_eq. }
    own Hc2; [rewrite Eo; reflexivity|]. set (s3 := setCalls _ _). assert (Hc3 : calls s3 !! c = Some (RearmCheck fd todo (invoked + 1) (mkRound (reported r) (earlier r) (looked r ++ [(fd, ev, Some d)])))) by (cbn; by rewrite lookup_insert_eq).
    clearbody s3. destruct (eventMap_ s3 !! fd) as [d3|] eqn:Ed3.
    2:{ own Hc3; [rewrite Ed3; reflexivity|]. eapply IH. cbn. by rewrite lookup_insert_eq. }
    own Hc3; [rewrite Ed3; reflexivity|]. set (s4 := setCalls _ _). assert (Hc4 : calls s4 !! c = Some (Rearm fd (events d3) todo (invoked + 1) (mkRound (reported r) (earlier r) (looked r ++ [(fd, ev, Some d)])))) by (cbn; by rewrite lookup_insert_eq).
    clearbody s4. own Hc4; [reflexivity|]. eapply IH. cbn. by rewrite lookup_insert_eq.
Qed.

Lemma clearing_step c i found r s : calls s !! c = Some (Clearing i found r) -> ∃ s', ownStep c s s' ∧ calls s' !! c = Some (Collect (S i) found r).
Proof. intros Hc. eexists. split; [exists ready, true; cbn [execute]; rewrite Hc; reflexivity|]. cbn. by rewrite lookup_insert_eq. Qed.

(** The counter is read until it is empty: twice at most. *)
Lemma draining_steps c i found r s : calls s !! c = Some (Draining i found r) -> ∃ s', rtc (ownStep c) s s' ∧ calls s' !! c = Some (Clearing i found r).
Proof.
  intros Hc. assert (Hone : ∀ s, calls s !! c = Some (Draining i found r) -> (∀ k, kernel s = Some k -> counter k = 0) -> ∃ s', ownStep c s s' ∧ calls s' !! c = Some (Clearing i found r)).
  { intros s0 Hc0 H0. destruct (kernel s0) as [k|] eqn:Hk.
    - pose proof (read_law k) as (_ & _ & _ & L4). rewrite (H0 k eq_refl) in L4. destruct (eventRead k) as [k' b] eqn:Er. cbn in L4. subst b.
      eexists. split; [exists ready, true; cbn [execute]; rewrite Hc0; cbn [mbind option_bind stepCall]; rewrite Hk, Er; reflexivity|]. cbn. by rewrite lookup_insert_eq.
    - eexists. split; [exists ready, true; cbn [execute]; rewrite Hc0; cbn [mbind option_bind stepCall]; rewrite Hk; reflexivity|]. cbn. by rewrite lookup_insert_eq. }
  destruct (kernel s) as [k|] eqn:Hk; [|destruct (Hone s Hc ltac:(congruence)) as (s' & ? & ?); exists s'; split; [by apply rtc_once | done]].
  pose proof (read_law k) as (_ & _ & L3 & L4). destruct (eventRead k) as [k' b] eqn:Er. cbn in L3, L4. destruct b.
  - set (s1 := setCalls (<[c := Draining i found r]> (calls s)) (setKernel (Some k') s)).
    destruct (Hone s1) as (s2 & ? & ?); [cbn; by rewrite lookup_insert_eq | cbn; congruence|]. exists s2. split; [|done]. eapply rtc_l; [|by apply rtc_once].
    exists ready, true. cbn [execute]. rewrite Hc. cbn [mbind option_bind stepCall]. by rewrite Hk, Er.
  - eexists. split; [apply rtc_once; exists ready, true; cbn [execute]; rewrite Hc; cbn [mbind option_bind stepCall]; rewrite Hk, Er; reflexivity|]. cbn. by rewrite lookup_insert_eq.
Qed.

Lemma finishes_steps c s s' : rtc (ownStep c) s s' -> finishes c s' -> finishes c s.
Proof. induction 1; [done|]. intros Hf. eapply finishes_step; [done | auto]. Qed.

Lemma collect_finishes c n : ∀ i found r s, (length (reported r) - i <= n)%nat -> calls s !! c = Some (Collect i found r) -> finishes c s.
Proof.
  induction n as [|n IH]; intros i found r s Hn Hc.
  - own Hc; [destruct (Nat.ltb_spec i (length (reported r))); [lia | reflexivity]|]. eapply dispatch_finishes. cbn. by rewrite lookup_insert_eq.
  - destruct (Nat.ltb_spec i (length (reported r))) as [Hlt|Hge].
    2:{ own Hc; [destruct (Nat.ltb_spec i (length (reported r))); [lia | reflexivity]|]. eapply dispatch_finishes. cbn. by rewrite lookup_insert_eq. }
    destruct (match kernel s with Some k => (default (0, 0) (events_ s !! i)).1 =? eventFd k | None => false end) eqn:Ew.
    + own Hc; [destruct (Nat.ltb_spec i (length (reported r))); [|lia]; cbv zeta; rewrite Ew; reflexivity|]. set (s1 := setCalls _ _). assert (Hc1 : calls s1 !! c = Some (Draining i found r)) by (cbn; by rewrite lookup_insert_eq).
      destruct (draining_steps c i found r s1 Hc1) as (s2 & Hs2 & Hc2). apply (finishes_steps c s1 s2 Hs2). destruct (clearing_step c i found r s2 Hc2) as (s3 & Hs3 & Hc3).
      apply (finishes_step c s2 s3 Hs3). apply (IH (S i) found r s3); [lia | done].
    + own Hc; [destruct (Nat.ltb_spec i (length (reported r))); [|lia]; cbv zeta; rewrite Ew; reflexivity|]. eapply IH; [|cbn; by rewrite lookup_insert_eq]. lia.
Qed.
End Finishes.

(** ** Claims *)

(** C21. Under every interleaving of [add], [modify], [remove], [rearm], [poll], [wakeup] and
    [shutdown], while the poller runs: a descriptor that nobody has closed while it was
    registered is watched by the kernel exactly when it has an entry in [eventMap_] or its
    [add] is about to make one; and in level-triggered mode the kernel watches it for exactly
    the events of its entry. *)
Theorem poller_registrations single s closed :
  reachable single s closed -> running_ s = true ->
  ∃ k, kernel s = Some k ∧ ∀ fd, fd ≠ eventFd k -> fd ∉ closed ->
    (is_Some (watched k !! fd) <-> is_Some (eventMap_ s !! fd) ∨ adding s fd) ∧
    (∀ d, eventMap_ s !! fd = Some d -> oneShot_ s = false -> watched k !! fd = Some (toNativeEvents (events d) false)).
Proof.
  intros Hr Hrun. destruct (poller_reachable_inv _ _ _ Hr Hrun) as (k & Hk & H). exists k. split; [done|]. intros fd Hne Hcl. split; [split|].
  - intros Hw. destruct (k_watched _ _ _ H fd Hw) as [?|?]; done.
  - intros [Hm|(c & d & Ha)]; [by destruct (k_map _ _ _ H fd Hm)|]. destruct (k_adds _ _ _ H c fd d Ha) as [_ [?|((m & -> & _) & _)]]; done.
  - intros d Hd Ho. destruct (k_map _ _ _ H fd ltac:(by rewrite Hd)) as [[m Hm]|?]; [|done]. rewrite Hm. f_equal. by destruct (k_mask _ _ _ H Ho fd m d Hm Hd).
Qed.

(** C15. A round of [poll], one at a time as the I/O service runs it, whatever other calls and
    the callbacks do meanwhile: when it returns [n], it has looked up each event epoll had reported of
    a socket once, in epoll's order and translated, no descriptor twice, and has invoked
    exactly the callbacks found, in that order, [n] of them.  Once its wait is over, its
    own steps always bring it to its end. *)
Theorem poll_round s closed c p :
  reachable true s closed -> running_ s = true -> calls s !! c = Some p -> polling p = true -> p ≠ PollWait ->
  (∀ ready memory s' n, execute s (Step c ready memory) = Some (s', Some (Count n)) ->
     ∃ w r, p = Dispatch [] n r ∧ (looked r).*1 = converted w (reported r) ∧ NoDup (reported r).*1 ∧
       invocations s = earlier r ++ invocationsOf (looked r) ∧ n = zlen (invocationsOf (looked r)) ∧ eventFd <$> kernel s = Some w) ∧
  (∀ ready : Readiness, finishes c s).
Proof.
  intros Hr Hrun Hc Hp Hnw. destruct (poller_reachable_inv _ _ _ Hr Hrun) as (k & Hk & _). pose proof (r_ok _ (round_reachable _ _ Hr) Hrun k c p Hk Hc) as Hok. split.
  - intros ready memory s' n E. cbn [execute] in E. rewrite Hc in E. cbn [mbind option_bind] in E.
    destruct p as [| | | | | | | | | | | | |[|[fd ev] todo] inv ro| | | | | |]; try discriminate Hp; try done; cbn [stepCall] in E; repeat (case_match; simplify_eq); unfold goto, ret in *; simplify_eq.
    destruct Hok as (R1 & R2 & R3 & R4). rewrite app_nil_r in R1. exists (eventFd k), ro. rewrite Hk. by split_and!.
  - intros ready. assert (Hd : ∀ todo inv r s, calls s !! c = Some (Dispatch todo inv r) -> finishes c s) by (intros; by eapply (dispatch_finishes ready)).
    assert (Hcl : ∀ i found r s, calls s !! c = Some (Clearing i found r) -> finishes c s).
    { intros i found r s1 Hc1. destruct (clearing_step ready c i found r s1 Hc1) as (s2 & H2 & Hc2). apply (finishes_step c s1 s2 H2). by eapply (collect_finishes ready). }
    assert (Hre : ∀ fd ev todo inv r s, calls s !! c = Some (Rearm fd ev todo inv r) -> finishes c s).
    { intros fd ev todo inv r s1 Hc1. eapply finishes_step; [exists ready, true; cbn [execute]; rewrite Hc1; reflexivity|]. eapply Hd. cbn. by rewrite lookup_insert_eq. }
    assert (Hrc : ∀ fd todo inv r s, calls s !! c = Some (RearmCheck fd todo inv r) -> finishes c s).
    { intros fd todo inv r s1 Hc1. destruct (eventMap_ s1 !! fd) eqn:Ed; (eapply finishes_step; [exists ready, true; cbn [execute]; rewrite Hc1; cbn [mbind option_bind stepCall]; rewrite Ed; reflexivity|]);
        [eapply Hre | eapply Hd]; cbn; by rewrite lookup_insert_eq. }
    assert (Hic : ∀ fd d todo inv r s, calls s !! c = Some (InCallback fd d todo inv r) -> finishes c s).
    { intros fd d todo inv r s1 Hc1. destruct (oneShot_ s1) eqn:Eo; (eapply finishes_step; [exists ready, true; cbn [execute]; rewrite Hc1; cbn [mbind option_bind stepCall]; rewrite Eo; reflexivity|]);
        [eapply Hrc | eapply Hd]; cbn; by rewrite lookup_insert_eq. }
    destruct p as [| | | | | | | | | |i found ro|i found ro|i found ro|todo inv ro|fd ev d todo inv ro|fd d todo inv ro|fd todo inv ro|fd ev todo inv ro| |]; try discriminate Hp; try done.
    + by eapply (collect_finishes ready).
    + destruct (draining_steps ready c i found ro s Hc) as (s2 & H2 & Hc2). apply (finishes_steps c s s2 H2). by eapply Hcl.
    + by eapply Hcl.
    + by eapply Hd.
    + eapply finishes_step; [exists ready, true; cbn [execute]; rewrite Hc; reflexivity|]. eapply Hic. cbn. by rewrite lookup_insert_eq.
    + by eapply Hic.
    + by eapply Hrc.
    + by eapply Hre.
Qed.

(** The next wait cannot block, or a call will see to that, or a [poll] is awake. *)
Definition woken s : Prop := ∃ k, kernel s = Some k ∧ (0 < counter k ∨ ∃ c p, calls s !! c = Some p ∧ waking p = true).

(** C16. No wake-up is lost, however many threads wake the poller while it waits, drains the
    counter or clears [wakeupPending_]: when [wakeup] returns true, the event counter is
    not zero, or another call is about to write it, or a [poll] has been woken and has not
    cleared the flag yet.  A [poll] that waits while the counter is not zero returns from
    its wait with events, and a call about to write makes the counter positive. *)
Theorem poller_wakeup single s closed :
  reachable single s closed -> running_ s = true ->
  (∀ c a ready memory s', calls s !! c = Some (WakeCas a) ∨ calls s !! c = Some (WakeWrite a) -> execute s (Step c ready memory) = Some (s', Some (Bool true)) -> woken s') ∧
  (∀ c ready memory s' r k, calls s !! c = Some PollWait -> kernel s = Some k -> 0 < counter k -> execute s (Step c ready memory) = Some (s', r) ->
     ∃ e l earlier, calls s' !! c = Some (Collect 0 [] (mkRound (e :: l) earlier []))) ∧
  (∀ c a ready memory s' r, calls s !! c = Some (WakeWrite a) -> execute s (Step c ready memory) = Some (s', r) -> ∃ k, kernel s' = Some k ∧ 0 < counter k).
Proof.
  intros Hr Hrun. destruct (poller_reachable_inv _ _ _ Hr Hrun) as (k & Hk & H).
  assert (Hwrite : ∀ c a ready memory s' r, calls s !! c = Some (WakeWrite a) -> execute s (Step c ready memory) = Some (s', r) -> ∃ k, kernel s' = Some k ∧ 0 < counter k).
  { intros c a ready memory s' r Hc E. cbn [execute] in E. rewrite Hc in E. cbn [mbind option_bind stepCall] in E. rewrite Hk in E. pose proof (write_law k) as (_ & _ & L3). pose proof (counter_nonneg k).
    destruct (eventWrite k) as [k' []]; cbn in L3; [| |done]; exists k'; (split; [|lia]); by destruct a; unfold wokenUp, ret, goto in E; simplify_eq. }
  split_and!; [|  |done].
  - intros c a ready memory s' [Hc|Hc] E.
    + cbn [execute] in E. rewrite Hc in E. cbn [mbind option_bind stepCall] in E. rewrite Hk in E. destruct (wakeupPending_ s) eqn:Ep; [|done].
      assert (Hs : calls s' = delete c (calls s) ∧ kernel s' = Some k) by (by destruct a; unfold wokenUp, ret, goto in E; simplify_eq). destruct Hs as [Hs1 Hs2]. exists k. split; [done|].
      destruct (k_wake _ _ _ H Ep) as [?|(c' & p & Hcp & Hw)]; [by left|]. right. exists c', p. rewrite Hs1. split; [|done]. rewrite lookup_delete_ne; [done|]. intros ->. by simplify_eq.
    + destruct (Hwrite c a ready memory s' _ Hc E) as (k' & Hk' & Hpos). exists k'. split; [done | by left].
  - intros c ready memory s' r k0 Hc Hk0 Hpos E. assert (k0 = k) as -> by congruence. cbn [execute] in E. rewrite Hc in E. cbn [mbind option_bind stepCall] in E. rewrite Hk in E.
    destruct (wait_counter k ready (length (events_ s)) (k_event _ _ _ H) Hpos (k_room _ _ _ H)) as (e & l & Hl). destruct (epollWait k ready _) as [k' o]. cbn in Hl. subst o.
    unfold goto in E. simplify_eq. exists e, l, (invocations s). cbn. by rewrite lookup_insert_eq.
Qed.
End Proofs.

(** ** A concrete kernel *)

(** Descriptors with their masks and whether they are armed; the world offers readiness. *)
Record Sim := mkSim { simWatched : gmap Z (Z * bool); simFd : Z; simCounter : Z }.

Definition simOffered (k : Sim) (ready : list (Z * Z)) : list (Z * Z) :=
  if bool_decide (NoDup ready.*1) then filter (fun e => e.1 ≠ simFd k ∧ is_Some (simWatched k !! e.1) ∧ snd <$> simWatched k !! e.1 = Some true) ready else [].
Definition simReported (k : Sim) (ready : list (Z * Z)) (n : nat) : list (Z * Z) :=
  take n ((if (0 <? simCounter k) && bool_decide (is_Some (simWatched k !! simFd k)) then [(simFd k, EPOLLIN)] else []) ++ simOffered k ready).
Definition simDisarm (l : list (Z * Z)) (fd : Z) (x : Z * bool) : Z * bool :=
  (x.1, x.2 && negb (hasEvent x.1 EPOLLONESHOT && bool_decide (fd ∈ l.*1))).

#[export] Instance sim_epoll : Epoll Sim := {
  Readiness := list (Z * Z);
  epollCreate w := mkSim {[w := (EPOLLIN, true)]} w 0;
  watched k := fst <$> simWatched k;
  eventFd := simFd;
  counter k := Z.max 0 (simCounter k);
  ctlAdd k fd m := if bool_decide (is_Some (simWatched k !! fd)) then (k, false) else (mkSim (<[fd := (m, true)]> (simWatched k)) (simFd k) (simCounter k), true);
  ctlMod k fd m := if bool_decide (is_Some (simWatched k !! fd)) then (mkSim (<[fd := (m, true)]> (simWatched k)) (simFd k) (simCounter k), true) else (k, false);
  ctlDel k fd := (mkSim (delete fd (simWatched k)) (simFd k) (simCounter k), bool_decide (is_Some (simWatched k !! fd)));
  epollWait k ready n := let l := simReported k ready n in (mkSim (map_imap (fun fd x => Some (simDisarm l fd x)) (simWatched k)) (simFd k) (simCounter k), Some l);
  eventWrite k := (mkSim (simWatched k) (simFd k) (Z.max 0 (simCounter k) + 1), Wrote);
  eventRead k := (mkSim (simWatched k) (simFd k) 0, negb (Z.max 0 (simCounter k) =? 0));
  descriptorClosed k fd := mkSim (delete fd (simWatched k)) (simFd k) (simCounter k)
}.

Lemma simReported_ok k ready n :
  (length (simReported k ready n) <= n)%nat ∧ NoDup (simReported k ready n).*1 ∧ Forall (fun e => is_Some ((fst <$> simWatched k) !! e.1)) (simReported k ready n).
Proof.
  unfold simReported. set (own := if _ && _ then _ else _). assert (Hoff : NoDup (simOffered k ready).*1 ∧ Forall (fun e => e.1 ≠ simFd k ∧ is_Some (simWatched k !! e.1)) (simOffered k ready)).
  { unfold simOffered. case_bool_decide as Hn; [|split; [constructor | constructor]]. split.
    - eapply sublist_NoDup; [exact Hn|]. apply fmap_sublist, sublist_filter.
    - apply Forall_forall. intros e [[? [? _]] _]%list_elem_of_filter. done. }
  destruct Hoff as [H1 H2]. split_and!.
  - rewrite length_take. lia.
  - rewrite fmap_take. apply (sublist_NoDup _ ((own ++ simOffered k ready).*1)); [|apply sublist_take]. rewrite fmap_app. apply NoDup_app. split_and!; [|  |done].
    + unfold own. destruct (_ && _); [apply NoDup_singleton | constructor].
    + intros x Hx Hin. apply list_elem_of_fmap in Hin as (e & -> & He). rewrite Forall_forall in H2. destruct (H2 e He) as [Hne _]. unfold own in Hx.
      destruct (_ && _); [apply list_elem_of_singleton in Hx; by apply Hne | by apply elem_of_nil in Hx].
  - apply Forall_take, Forall_app. split.
    + unfold own. destruct ((0 <? simCounter k) && _) eqn:E; [|constructor]. apply andb_true_iff in E as [_ E%bool_decide_eq_true]. apply Forall_singleton. cbn. rewrite lookup_fmap. by apply fmap_is_Some.
    + eapply Forall_impl; [exact H2|]. intros e [_ He]. cbn. rewrite lookup_fmap. by apply fmap_is_Some.
Qed.

#[export] Instance sim_laws : EpollLaws Sim.
Proof.
  split; intros.
  - cbn. by rewrite map_fmap_singleton.
  - cbn. case_bool_decide as Hb; cbn; (split_and!; [done|..]); [done | done | by rewrite fmap_insert|]. intros _. rewrite lookup_fmap. apply fmap_None. by apply eq_None_not_Some.
  - cbn. case_bool_decide as Hb; cbn; (split_and!; [done|..]); [by rewrite fmap_insert| |done|done]. intros _. rewrite lookup_fmap. by apply fmap_is_Some.
  - cbn. split_and!; [done | by rewrite fmap_delete|]. rewrite bool_decide_eq_true, lookup_fmap. symmetry. apply fmap_is_Some.
  - cbn. split_and!; [done| |intros l [= <-]; apply simReported_ok]. apply map_eq. intros fd. rewrite !lookup_fmap, map_lookup_imap. by destruct (simWatched k !! fd) as [[]|].
  - cbn in *. exists (simFd k, EPOLLIN). unfold simReported. rewrite lookup_fmap in *. assert (E : (0 <? simCounter k) && bool_decide (is_Some (simWatched k !! simFd k)) = true).
    { apply andb_true_iff. split; [apply Z.ltb_lt; lia|]. apply bool_decide_eq_true. destruct (simWatched k !! simFd k); [done|]. done. }
    rewrite E. destruct n as [|n]; [lia|]. by eexists.
  - cbn. split_and!; [done | done | lia].
  - cbn. by split_and!.
  - cbn. lia.
  - cbn. split_and!; [done|]. by rewrite fmap_delete.
Qed.

Fixpoint pollerSteps (s : Poller (K := Sim)) (ls : list (Label (K := Sim))) : option (Poller (K := Sim)) :=
  match ls with [] => Some s | l :: ls => '(s, _) ← execute s l; pollerSteps s ls end.

(** The labels that do not start a [poll] are always allowed. *)
Definition freely (l : Label (K := Sim)) : bool := match l with CallPoll _ | Initialize _ _ _ | Closed _ => false | _ => true end.

Lemma pollerSteps_reachable single closed ls : forallb freely ls = true -> ∀ s s', reachable single s closed -> pollerSteps s ls = Some s' -> reachable single s' closed.
Proof.
  induction ls as [|l ls IH]; cbn; intros Hf s s' Hr E; [by simplify_eq|]. apply andb_true_iff in Hf as [Hl Hf]. destruct (execute s l) as [[s1 r]|] eqn:E1; [|done].
  apply (IH Hf s1); [|done]. assert (Hc : closedBy s l closed = closed) by (by destruct l). rewrite <- Hc. apply (reach_step single s closed l s1 r); [done | by destruct l | done].
Qed.

Definition stepOf (c : nat) (ready : list (Z * Z)) : Label (K := Sim) := Step (K := Sim) c ready true.
Definition quietSteps (c n : nat) : list (Label (K := Sim)) := replicate n (stepOf c []).

(** Descriptor 5 registered with callback 1, a [poll] woken by it and by a wake-up. *)
Definition startedPoller (oneShot : bool) : Poller (K := Sim) := default newPoller (pollerSteps newPoller [Initialize 8 oneShot (CreatedWith 3)]).
Definition registering : list (Label (K := Sim)) := CallAdd 1 5 EvRead (Some 1%nat) 0 true :: quietSteps 1 5.
Definition registeredPoller : Poller (K := Sim) := default newPoller (pollerSteps (startedPoller false) registering).
Definition pollingPoller : Poller (K := Sim) := default newPoller (c ← execute registeredPoller (CallPoll 2); pollerSteps c.1 (stepOf 2 [(5, EPOLLIN)] :: quietSteps 2 9)).

Lemma started_reachable oneShot single : reachable single (startedPoller oneShot) ∅.
Proof. by apply (reach_step single newPoller ∅ (Initialize 8 oneShot (CreatedWith 3)) (startedPoller oneShot) (Some (Bool true)) (reach_new single)). Qed.

Lemma registered_reachable single : reachable single registeredPoller ∅.
Proof. apply (pollerSteps_reachable single ∅ registering eq_refl (startedPoller false)); [apply started_reachable | by vm_compute]. Qed.

Definition waitingPoller : Poller (K := Sim) := default newPoller (fst <$> execute registeredPoller (CallPoll 2)).

Lemma waiting_reachable single : reachable single waitingPoller ∅.
Proof. apply (reach_step single registeredPoller ∅ (CallPoll 2) waitingPoller None); [apply registered_reachable | intros _; by vm_compute | by vm_compute]. Qed.

Lemma polling_reachable : reachable true pollingPoller ∅.
Proof. apply (pollerSteps_reachable true ∅ (stepOf 2 [(5, EPOLLIN)] :: quietSteps 2 9) eq_refl waitingPoller); [apply waiting_reachable | by vm_compute]. Qed.

Lemma poller_registrations_witness :
  ∃ k, kernel registeredPoller = Some k ∧ ∀ fd, fd ≠ eventFd k -> fd ∉ (∅ : gset Z) ->
    (is_Some (watched k !! fd) <-> is_Some (eventMap_ registeredPoller !! fd) ∨ adding registeredPoller fd) ∧
    (∀ d, eventMap_ registeredPoller !! fd = Some d -> oneShot_ registeredPoller = false -> watched k !! fd = Some (toNativeEvents (events d) false)).
Proof. refine (poller_registrations true registeredPoller ∅ (registered_reachable true) _). by vm_compute. Defined.

Lemma poll_round_witness :
  (∀ ready memory s' n, execute pollingPoller (Step 2 ready memory) = Some (s', Some (Count n)) ->
     ∃ w r, default PollWait (calls pollingPoller !! 2%nat) = Dispatch [] n r ∧ (looked r).*1 = converted w (reported r) ∧ NoDup (reported r).*1 ∧
       invocations pollingPoller = earlier r ++ invocationsOf (looked r) ∧ n = zlen (invocationsOf (looked r)) ∧ eventFd <$> kernel pollingPoller = Some w) ∧
  (∀ ready : Readiness (K := Sim), finishes 2 pollingPoller).
Proof.
  refine (poll_round pollingPoller ∅ 2 (default PollWait (calls pollingPoller !! 2%nat)) polling_reachable _ _ _ _); by vm_compute.
Defined.

Lemma poller_wakeup_witness :
  (∀ c a ready memory s', calls waitingPoller !! c = Some (WakeCas a) ∨ calls waitingPoller !! c = Some (WakeWrite a) -> execute waitingPoller (Step c ready memory) = Some (s', Some (Bool true)) -> woken s') ∧
  (∀ c ready memory s' r k, calls waitingPoller !! c = Some PollWait -> kernel waitingPoller = Some k -> 0 < counter k -> execute waitingPoller (Step c ready memory) = Some (s', r) ->
     ∃ e l earlier, calls s' !! c = Some (Collect 0 [] (mkRound (e :: l) earlier []))) ∧
  (∀ c a ready memory s' r, calls waitingPoller !! c = Some (WakeWrite a) -> execute waitingPoller (Step c ready memory) = Some (s', r) -> ∃ k, kernel s' = Some k ∧ 0 < counter k).
Proof. refine (poller_wakeup true waitingPoller ∅ (waiting_reachable true) _). by vm_compute. Defined.

(** The whole round: woken by [add], one callback invoked. *)
Example poll_invokes : ((fun x => (x.2, invocations x.1, wakeupPending_ x.1, calls x.1)) <$> execute pollingPoller (stepOf 2 [])) =
  Some (Some (Count 1), [mkInvocation 5 EvRead 1 0], false, ∅).
Proof. by vm_compute. Qed.

(** In one-shot mode an event reported between the kernel registration of [add] and its entry
    in the map is dropped without being rearmed: the socket stays silent for good. *)
Example first_event_lost :
  let add := CallAdd 1 5 EvRead (Some 1%nat) 0 true :: quietSteps 1 2 in
  let poll := CallPoll 2 :: stepOf 2 [(5, EPOLLIN)] :: quietSteps 2 4 in
  (fun s => (callback <$> eventMap_ s !! 5, snd <$> (k ← kernel s; simWatched k !! 5), invocations s, calls s)) <$>
    pollerSteps (startedPoller true) (add ++ poll ++ quietSteps 1 3) = Some (Some 1%nat, Some false, [], ∅).
Proof. by vm_compute. Qed.

(** In one-shot mode a [modify] between the two last steps of a dispatch is undone by the
    rearming: the map says read and write, the kernel watches for reading only. *)
Example rearm_undoes_modify :
  let poll := CallPoll 2 :: stepOf 2 [(5, EPOLLIN)] :: quietSteps 2 10 in
  let modify := CallModify 3 5 (Z.lor EvRead EvWrite) :: quietSteps 3 3 in
  (fun s => (events <$> eventMap_ s !! 5, (fun x => fromNativeEvents x.1) <$> (k ← kernel s; simWatched k !! 5))) <$>
    pollerSteps (startedPoller true) (registering ++ poll ++ modify ++ quietSteps 2 2) =
  Some (Some (Z.lor EvRead EvWrite), Some (Z.lor EvRead (Z.lor EvError EvClose))).
Proof. by vm_compute. Qed.

(** Two [poll]s at once share [events_]: the second wait overwrites what the first has not
    read yet, one event is dispatched twice and the other not at all. *)
Example shared_events :
  let both := registering ++ CallAdd 1 6 EvRead (Some 2%nat) 0 true :: quietSteps 1 4 ++ CallPoll 4 :: quietSteps 4 7 in
  let polls := [CallPoll 2; CallPoll 3; stepOf 2 [(5, EPOLLIN)]; stepOf 3 [(6, EPOLLIN)]] in
  (fun s => inv_fd <$> invocations s) <$> pollerSteps (startedPoller false) (both ++ polls ++ quietSteps 2 5 ++ quietSteps 3 5) = Some [6; 6].
Proof. by vm_compute. Qed.

(** An event that was reported of a descriptor goes to whoever has registered the number since. *)
Example stale_event :
  let both := registering ++ CallAdd 1 6 EvRead (Some 2%nat) 0 true :: quietSteps 1 4 ++ CallPoll 4 :: quietSteps 4 7 in
  let poll := CallPoll 2 :: stepOf 2 [(5, EPOLLIN); (6, EPOLLIN)] :: quietSteps 2 4 in
  let reuse := CallRemove 3 6 :: quietSteps 3 3 ++ [Closed 6] ++ CallAdd 3 6 EvRead (Some 9%nat) 0 true :: quietSteps 3 4 in
  (fun s => (fun i => (inv_fd i, inv_callback i)) <$> invocations s) <$> pollerSteps (startedPoller false) (both ++ poll ++ reuse ++ quietSteps 2 4) = Some [(5, 1%nat); (6, 9%nat)].
Proof. by vm_compute. Qed.

(** What a socket is watched for comes back as the events asked for, with errors and closing. *)
Lemma native_events ev oneShot : 0 <= ev < 16 -> fromNativeEvents (toNativeEvents ev oneShot) = Z.lor (Z.land ev (Z.lor EvRead EvWrite)) (Z.lor EvError EvClose).
Proof.
  intros H. assert (Hin : ev ∈ seqZ 0 16) by (apply elem_of_seqZ; lia). clear H. revert ev Hin. apply Forall_forall. destruct oneShot; decide_closed.
Qed.
