(* ===== verification/IoService.v ===== *)
(** * I/O service (src/IoService.cpp)

    The two stages of task dispatch: posters push into the mailbox, the poller thread moves
    tasks to the shared vector, worker threads take them in batches and run them.  A step is
    one access to shared data (a critical section of [sharedTasksLock], an atomic operation,
    a notification) by one thread; every interleaving of steps is covered.  The mailbox is
    the list of tasks pushed and not yet received, as [MpscQueue] provides it: a drain takes
    some of its first tasks, fewer than there are only behind an unfinished push.  A worker
    that waits on [taskCond] evaluates the predicate and blocks in two steps, since no
    notifier holds [cvMutex].  [EventPoller] appears as the flag its [wakeup] raises; I/O
    events are steps of their own.  [start] succeeds; thread placement and the global instance
    are left out. *)

From S2P Require Import Prelude CType.

Definition kMaxThreadPoolSize : Z := 1024.
Definition kMailboxDrainBudget : nat := 512.
Definition kMaxSpinIterations : Z := 10000.

Definition normalizeThreadCount (hardware requested : Z) : Z :=
  let hw := Z.max 1 hardware in
  let n := if requested =? 0 then hw else requested in
  Z.max 1 (Z.min n kMaxThreadPoolSize).

Section IoService.
Context {Task : Type}.

(** Where the poller thread is in [pollerLoop]; [final] marks the drain after the loop. *)
Inductive PollerPc :=
  | PIdle                                   (* not started *)
  | PLoop                                   (* while (running) *)
  | PDrain (final : bool)                   (* mailbox.drainUpTo *)
  | PAppend (local : list Task) (final : bool)
  | PAdd (drained : nat) (final : bool)     (* availableTaskCount.fetch_add *)
  | PNotify (drained : nat) (final : bool)
  | PLoad                                   (* hasTasks, the timeout *)
  | PPoll (block hasTasks : bool)
  | PExited.

(** Where a worker is in [workerThread]; [final] marks the loop after [running] is false. *)
Inductive WorkerPc :=
  | WTake (final : bool)                              (* takeSharedTasks *)
  | WRun (todo : list Task) (n : nat) (final : bool)  (* executeTasks *)
  | WSub (n : nat) (final : bool)                     (* pendingCount.fetch_sub *)
  | WCheck                                            (* running.load *)
  | WPred                                             (* the predicate of the wait *)
  | WBlock                                            (* predicate false, not yet blocked *)
  | WAsleep
  | WExited.

Record Impl := mkImpl {
  mailbox : list Task;
  sharedTasks : list Task;
  sharedReadIdx : nat;
  pendingCount : Z;
  availableTaskCount : Z;
  running : bool;
  started : bool;
  spinCount : Z;
  threadCount : nat;
  woken : bool;                (* the poller's wake-up event *)
  poller : PollerPc;
  workers : list WorkerPc;
  unannounced : nat;           (* posts between the push and the fetch_add *)
  stopNotifies : nat;          (* calls of stop that have stored and not notified *)
  stopWakes : nat              (* ... and not woken the poller *)
}.

(** What happened so far: tasks in the order they were pushed, in the order they were
    handed to workers, in the order they ran; announced and finished tasks. *)
Record History := mkHistory {
  posted : list Task;
  taken : list Task;
  ran : list Task;
  announced : Z;
  finished : Z
}.

Definition setMailbox s x := mkImpl x (sharedTasks s) (sharedReadIdx s) (pendingCount s) (availableTaskCount s)
  (running s) (started s) (spinCount s) (threadCount s) (woken s) (poller s) (workers s) (unannounced s) (stopNotifies s) (stopWakes s).
Definition setShared s x i := mkImpl (mailbox s) x i (pendingCount s) (availableTaskCount s)
  (running s) (started s) (spinCount s) (threadCount s) (woken s) (poller s) (workers s) (unannounced s) (stopNotifies s) (stopWakes s).
Definition setPending s x := mkImpl (mailbox s) (sharedTasks s) (sharedReadIdx s) x (availableTaskCount s)
  (running s) (started s) (spinCount s) (threadCount s) (woken s) (poller s) (workers s) (unannounced s) (stopNotifies s) (stopWakes s).
Definition setAvailable s x := mkImpl (mailbox s) (sharedTasks s) (sharedReadIdx s) (pendingCount s) x
  (running s) (started s) (spinCount s) (threadCount s) (woken s) (poller s) (workers s) (unannounced s) (stopNotifies s) (stopWakes s).
Definition setFlags s r t := mkImpl (mailbox s) (sharedTasks s) (sharedReadIdx s) (pendingCount s) (availableTaskCount s)
  r t (spinCount s) (threadCount s) (woken s) (poller s) (workers s) (unannounced s) (stopNotifies s) (stopWakes s).
Definition setSpin s x := mkImpl (mailbox s) (sharedTasks s) (sharedReadIdx s) (pendingCount s) (availableTaskCount s)
  (running s) (started s) x (threadCount s) (woken s) (poller s) (workers s) (unannounced s) (stopNotifies s) (stopWakes s).
Definition setWoken s x := mkImpl (mailbox s) (sharedTasks s) (sharedReadIdx s) (pendingCount s) (availableTaskCount s)
  (running s) (started s) (spinCount s) (threadCount s) x (poller s) (workers s) (unannounced s) (stopNotifies s) (stopWakes s).
Definition setPoller s x := mkImpl (mailbox s) (sharedTasks s) (sharedReadIdx s) (pendingCount s) (availableTaskCount s)
  (running s) (started s) (spinCount s) (threadCount s) (woken s) x (workers s) (unannounced s) (stopNotifies s) (stopWakes s).
Definition setWorkers s x := mkImpl (mailbox s) (sharedTasks s) (sharedReadIdx s) (pendingCount s) (availableTaskCount s)
  (running s) (started s) (spinCount s) (threadCount s) (woken s) (poller s) x (unannounced s) (stopNotifies s) (stopWakes s).
Definition setCalls s u n w := mkImpl (mailbox s) (sharedTasks s) (sharedReadIdx s) (pendingCount s) (availableTaskCount s)
  (running s) (started s) (spinCount s) (threadCount s) (woken s) (poller s) (workers s) u n w.

(** ** The shared vector *)

Definition unread (s : Impl) : list Task := drop (sharedReadIdx s) (sharedTasks s).

(** [takeSharedTasks(out, maxTasks)] with [out] empty. *)
Definition takeSharedTasks (s : Impl) (maxTasks : nat) : list Task * Impl :=
  let available := (length (sharedTasks s) - sharedReadIdx s)%nat in
  let n := Nat.min available maxTasks in
  let out := take n (unread s) in
  let idx := (sharedReadIdx s + n)%nat in
  let s := if (0 <? idx)%nat && (length (sharedTasks s) / 2 <=? idx)%nat
           then setShared s (drop idx (sharedTasks s)) 0 else setShared s (sharedTasks s) idx in
  (out, if (n =? 0)%nat then s else setAvailable s (u64 (availableTaskCount s - Z.of_nat n))).

Definition tryPopTask (s : Impl) : option Task * Impl :=
  if (length (sharedTasks s) <=? sharedReadIdx s)%nat then (None, s)
  else
    let idx := S (sharedReadIdx s) in
    let out := sharedTasks s !! sharedReadIdx s in
    let s := if (idx =? length (sharedTasks s))%nat then setShared s [] 0 else setShared s (sharedTasks s) idx in
    (out, setAvailable s (u64 (availableTaskCount s - 1))).

(** The counter after [executeTasks]: the correcting loop starts from [prev < n], which is
    never above half the range, so that it does nothing. *)
Definition subPending (pending : Z) (n : nat) : Z :=
  let prev := pending in
  let after := u64 (prev - Z.of_nat n) in
  if (prev <? Z.of_nat n) && (size_max / 2 <? prev) then 0 else after.

(** ** Notifications *)

Definition wake (w : WorkerPc) : WorkerPc := match w with WAsleep => WPred | w => w end.

Definition notifyAll (s : Impl) : Impl := setWorkers s (wake <$> workers s).

(** [notify_one] wakes one of the sleeping threads, if there are any. *)
Definition notifyOne (s : Impl) (i : nat) : option Impl :=
  match workers s !! i with
  | Some WAsleep => Some (setWorkers s (<[i := WPred]> (workers s)))
  | _ => if existsb (fun w => match w with WAsleep => true | _ => false end) (workers s) then None else Some s
  end.

(** ** Steps *)

Inductive Label :=
  | LPush (t : Task)            (* post: mailbox.push *)
  | LAnnounce                   (* post: fetch_add, wakeup *)
  | LStart | LStop | LStopNotify | LStopWake | LJoined
  | LPoller (k : nat)           (* the poller's next access; [k]: tasks drained, or worker woken *)
  | LEvents                     (* the poll returns with I/O events *)
  | LWorker (i : nat)
  | LSpurious (i : nat).        (* a wait that returns without a notification *)

Definition afterDrain (final : bool) : PollerPc := if final then PExited else PLoad.

Definition pollerStep (s : Impl) (k : nat) : option Impl :=
  match poller s with
  | PIdle | PExited => None
  | PLoop => Some (setPoller s (PDrain (negb (running s))))
  | PDrain final =>
      if (kMailboxDrainBudget <? k)%nat || (length (mailbox s) <? k)%nat then None
      else if (k =? 0)%nat then Some (setPoller s (afterDrain final))
      else Some (setPoller (setMailbox s (drop k (mailbox s))) (PAppend (take k (mailbox s)) final))
  | PAppend local final =>
      Some (setPoller (setShared s (sharedTasks s ++ local) (sharedReadIdx s)) (PAdd (length local) final))
  | PAdd n final => Some (setPoller (setAvailable s (u64 (availableTaskCount s + Z.of_nat n))) (PNotify n final))
  | PNotify n final =>
      s ← (if (n =? 1)%nat then notifyOne s k else Some (notifyAll s));
      Some (setPoller s (afterDrain final))
  | PLoad =>
      let hasTasks := 0 <? availableTaskCount s in
      let block := negb hasTasks && (kMaxSpinIterations <=? spinCount s) in
      let spin := if hasTasks then 0 else if block then spinCount s else spinCount s + 1 in
      Some (setPoller (setSpin s spin) (PPoll block hasTasks))
  | PPoll block hasTasks =>
      if block && negb (woken s) then None
      else
        let s := setWoken s false in
        Some (setPoller (if hasTasks then setSpin s 0 else s) PLoop)
  end.

(** [poll] returns with events for the handlers. *)
Definition pollEvents (s : Impl) : option Impl :=
  match poller s with
  | PPoll _ _ => Some (setPoller (setSpin s 0) PLoop)
  | _ => None
  end.

Definition workerStep (s : Impl) (i : nat) : option Impl :=
  w ← workers s !! i;
  let goto s pc := Some (setWorkers s (<[i := pc]> (workers s))) in
  match w with
  | WTake final =>
      let '(batch, s) := takeSharedTasks s kMailboxDrainBudget in
      match batch with
      | [] => goto s (if final then WExited else WCheck)
      | _ => goto s (WRun batch (length batch) final)
      end
  | WRun [] n final => goto s (WSub n final)
  | WRun (_ :: todo) n final => goto s (WRun todo n final)
  | WSub n final => goto (setPending s (subPending (pendingCount s) n)) (WTake final)
  | WCheck => goto s (if running s then WPred else WTake true)
  | WPred => goto s (if (0 <? availableTaskCount s) || negb (running s) then WTake false else WBlock)
  | WBlock => goto s WAsleep
  | WAsleep | WExited => None
  end.

(** A step of the service; [post] on an empty task does nothing and is not a step. *)
Definition execute (s : Impl) (l : Label) : option Impl :=
  match l with
  | LPush t => Some (setCalls (setMailbox s (mailbox s ++ [t])) (S (unannounced s)) (stopNotifies s) (stopWakes s))
  | LAnnounce =>
      match unannounced s with
      | O => None
      | S u => let s := setCalls (setPending s (u64 (pendingCount s + 1))) u (stopNotifies s) (stopWakes s) in
               Some (if started s then setWoken s true else s)
      end
  | LStart =>
      if started s then Some s
      else Some (setWorkers (setPoller (setWoken (setSpin (setFlags s true true) 0) false) PLoop)
                   (replicate (threadCount s) (WTake false)))
  | LStop => if negb (started s) then Some s
             else Some (setCalls (setFlags s false (started s)) (unannounced s) (S (stopNotifies s)) (stopWakes s))
  | LStopNotify =>
      match stopNotifies s with
      | O => None
      | S n => Some (setCalls (notifyAll s) (unannounced s) n (S (stopWakes s)))
      end
  | LStopWake =>
      match stopWakes s with
      | O => None
      | S n => Some (setWoken (setCalls s (unannounced s) (stopNotifies s) n) true)
      end
  | LJoined =>
      match poller s with
      | PExited => if forallb (fun w => match w with WExited => true | _ => false end) (workers s)
                   then Some (setWorkers (setPoller (setFlags s (running s) false) PIdle) []) else None
      | _ => None
      end
  | LPoller k => pollerStep s k
  | LEvents => pollEvents s
  | LWorker i => workerStep s i
  | LSpurious i => match workers s !! i with Some WAsleep => Some (setWorkers s (<[i := WPred]> (workers s))) | _ => None end
  end.

Definition runSteps (s : Impl) (ls : list Label) : option Impl :=
  fold_left (fun o l => s ← o; execute s l) ls (Some s).

(** The service as constructed. *)
Definition fresh (threads : nat) : Impl := mkImpl [] [] 0 0 0 false false 0 threads false PIdle [] 0 0 0.

(** What a step adds to the history. *)
Definition record (s : Impl) (l : Label) (h : History) : History :=
  match l with
  | LPush t => mkHistory (posted h ++ [t]) (taken h) (ran h) (announced h) (finished h)
  | LAnnounce => mkHistory (posted h) (taken h) (ran h) (announced h + 1) (finished h)
  | LWorker i =>
      match workers s !! i with
      | Some (WTake _) =>
          mkHistory (posted h) (taken h ++ (takeSharedTasks s kMailboxDrainBudget).1) (ran h) (announced h) (finished h)
      | Some (WRun (t :: _) _ _) => mkHistory (posted h) (taken h) (ran h ++ [t]) (announced h) (finished h)
      | Some (WSub n _) => mkHistory (posted h) (taken h) (ran h) (announced h) (finished h + Z.of_nat n)
      | _ => h
      end
  | _ => h
  end.

Inductive reachable (threads : nat) : Impl -> History -> Prop :=
  | reach_fresh : reachable threads (fresh threads) (mkHistory [] [] [] 0 0)
  | reach_step s h l s' : reachable threads s h -> execute s l = Some s' -> reachable threads s' (record s l h).

End IoService.

Section Proofs.
Context {Task : Type}.
Implicit Types (s : @Impl Task) (h : @History Task).

(** ** The shared vector *)

Lemma takeSharedTasks_spec s k :
  (sharedReadIdx s <= length (sharedTasks s))%nat ->
  let '(out, s') := takeSharedTasks s k in
  unread s = out ++ unread s' ∧ (length out <= k)%nat ∧ (out = [] -> k = 0%nat \/ unread s' = []) ∧
  (sharedReadIdx s' <= length (sharedTasks s'))%nat ∧
  (availableTaskCount s = u64 (availableTaskCount s) ->
   availableTaskCount s' = u64 (availableTaskCount s - zlen out)) ∧
  s' = setAvailable (setShared s (sharedTasks s') (sharedReadIdx s')) (availableTaskCount s').
Proof.
  intros Hi. unfold takeSharedTasks. set (n := Nat.min _ k). set (out := take n (unread s)).
  assert (Hlen : length (unread s) = (length (sharedTasks s) - sharedReadIdx s)%nat) by (unfold unread; by rewrite length_drop).
  assert (Hout : length out = n) by (unfold out; rewrite length_take; lia).
  assert (Hrest : unread s = out ++ drop (sharedReadIdx s + n) (sharedTasks s)).
  { unfold out. rewrite <- (take_drop n (unread s)) at 1. f_equal. unfold unread. by rewrite drop_drop. }
  set (s1 := if _ && _ then _ else _).
  assert (H1 : unread s1 = drop (sharedReadIdx s + n) (sharedTasks s) ∧
    (sharedReadIdx s1 <= length (sharedTasks s1))%nat ∧ availableTaskCount s1 = availableTaskCount s ∧
    s1 = setShared s (sharedTasks s1) (sharedReadIdx s1)).
  { unfold s1, unread. destruct (_ && _); cbn; (split_and!; [done | lia | done | done]). }
  destruct H1 as (Hu & Hidx & Ha & Hs1).
  assert (Hempty : out = [] -> k = 0%nat \/ unread s1 = []).
  { intros He. rewrite He in Hout, Hrest. cbn in Hout, Hrest. rewrite Hu, <- Hrest.
    destruct (decide (k = 0%nat)); [by left | right]. apply nil_length_inv. lia. }
  destruct (Nat.eqb_spec n 0) as [H0|H0].
  - split_and!; try done; [by rewrite Hu | lia | | by rewrite Hs1 at 1; rewrite Ha].
    intros Hw. rewrite Ha. unfold zlen. rewrite Hout, H0, Z.sub_0_r. done.
  - change (unread (setAvailable s1 _)) with (unread s1).
    split_and!; cbn; try done; [by rewrite Hu | lia | intros _; unfold zlen; by rewrite Hout, Ha | by rewrite Hs1 at 1].
Qed.

Lemma subPending_plain p n : Z.of_nat n <= size_max / 2 -> subPending p n = u64 (p - Z.of_nat n).
Proof.
  intros Hn. unfold subPending. destruct (Z.ltb_spec p (Z.of_nat n)); [|done].
  by rewrite (proj2 (Z.ltb_ge _ p)) by lia.
Qed.

(** ** The invariant *)

Definition inHand s : list Task := match poller s with PAppend local _ => local | _ => [] end.
Definition inBatch (w : @WorkerPc Task) : list Task := match w with WRun todo _ _ => todo | _ => [] end.
Definition uncounted s : Z := match poller s with PAdd n _ => Z.of_nat n | _ => 0 end.

(** The batch size a worker will subtract is a size of a batch. *)
Definition smallBatch (w : @WorkerPc Task) : Prop :=
  match w with WRun todo n _ => (n <= kMailboxDrainBudget)%nat | WSub n _ => (n <= kMailboxDrainBudget)%nat | _ => True end.

Record serviceInv s h : Prop := {
  si_order : taken h ++ unread s ++ inHand s ++ mailbox s = posted h;
  si_ran : ran h ++ concat (inBatch <$> workers s) ≡ₚ taken h;
  si_idx : (sharedReadIdx s <= length (sharedTasks s))%nat;
  si_available : availableTaskCount s = u64 (zlen (unread s) - uncounted s);
  si_pending : pendingCount s = u64 (announced h - finished h);
  si_announced : announced h + Z.of_nat (unannounced s) = zlen (posted h);
  si_small : Forall smallBatch (workers s);
  si_idle : started s = false -> workers s = [] ∧ poller s = PIdle
}.

Lemma u64_u64_add a b : u64 (u64 a + b) = u64 (a + b).
Proof. unfold u64. by rewrite Zplus_mod_idemp_l. Qed.

Lemma u64_u64_sub a b : u64 (u64 a - b) = u64 (a - b).
Proof. unfold u64. by rewrite Zminus_mod_idemp_l. Qed.

(** Changing one worker exchanges its batch for the new one. *)
Lemma workers_update (ws : list (@WorkerPc Task)) i w w' :
  ws !! i = Some w ->
  concat (inBatch <$> <[i := w']> ws) ++ inBatch w ≡ₚ concat (inBatch <$> ws) ++ inBatch w'.
Proof.
  intros Hi. pose proof (lookup_lt_Some _ _ _ Hi) as Hl.
  rewrite insert_take_drop by done. rewrite <- (take_drop_middle ws i w Hi) at 3.
  rewrite !fmap_app, !concat_app. cbn [fmap list_fmap concat].
  rewrite <- !app_assoc. apply Permutation_app_head.
  rewrite (Permutation_app_swap_app (inBatch w)), (Permutation_app_swap_app (inBatch w')).
  apply Permutation_app_head, Permutation_app_comm.
Qed.

Lemma workers_same (ws : list (@WorkerPc Task)) i w w' :
  ws !! i = Some w -> inBatch w = inBatch w' -> concat (inBatch <$> <[i := w']> ws) = concat (inBatch <$> ws).
Proof.
  intros Hi He. rewrite <- (list_insert_id ws i w Hi) at 2. rewrite !list_fmap_insert. by rewrite He.
Qed.

Lemma wake_all (ws : list (@WorkerPc Task)) :
  concat (inBatch <$> (wake <$> ws)) = concat (inBatch <$> ws) ∧ (Forall smallBatch ws -> Forall smallBatch (wake <$> ws)).
Proof.
  split.
  - f_equal. rewrite <- list_fmap_compose. apply list_fmap_ext. intros i w _. by destruct w.
  - intros H. apply Forall_fmap. eapply Forall_impl; [exact H|]. intros w. by destruct w.
Qed.

Lemma serviceInv_fresh n : serviceInv (fresh n) (mkHistory [] [] [] 0 0).
Proof. by split. Qed.

(** Steps that touch the workers' program points only. *)
Lemma serviceInv_goto s h i w w' :
  serviceInv s h -> workers s !! i = Some w -> inBatch w = inBatch w' -> smallBatch w' ->
  serviceInv (setWorkers s (<[i := w']> (workers s))) h.
Proof.
  intros [] Hi Hb Hs. split; try done; cbn.
  - by rewrite (workers_same _ _ _ _ Hi Hb).
  - by apply Forall_insert.
  - intros Ht. apply si_idle0 in Ht as [Ht _]. by rewrite Ht in Hi.
Qed.

Lemma serviceInv_notifyAll s h : serviceInv s h -> serviceInv (notifyAll s) h.
Proof.
  intros []. destruct (wake_all (workers s)) as [Hc Hf]. split; try done; cbn; [by rewrite Hc | by apply Hf|].
  intros Ht. destruct (si_idle0 Ht) as [-> ?]. done.
Qed.

Lemma serviceInv_notifyOne s h i s' : serviceInv s h -> notifyOne s i = Some s' -> serviceInv s' h ∧ poller s' = poller s.
Proof.
  intros Hs. unfold notifyOne.
  destruct (workers s !! i) as [[]|] eqn:E; try (destruct (existsb _ _); [done|]; by intros [= <-]).
  intros [= <-]. split; [|done]. by eapply serviceInv_goto.
Qed.

(** ** Every step keeps it *)

Lemma inv_worker s h i s' :
  serviceInv s h -> workerStep s i = Some s' -> serviceInv s' (record s (LWorker i) h).
Proof.
  intros Hs. unfold workerStep, record. destruct (workers s !! i) as [w|] eqn:Ew; [|done]. cbn [mbind option_bind].
  pose proof Hs as [Ho Hr Hx Ha Hp Hn Hsm Hid]. pose proof (Forall_lookup_1 _ _ _ _ Hsm Ew) as Hw.
  destruct w as [final|[|t todo] n final|n final| | | | |]; try done.
  - pose proof (takeSharedTasks_spec s kMailboxDrainBudget Hx) as Ht.
    destruct (takeSharedTasks s kMailboxDrainBudget) as [out s1]. cbn [fst].
    destruct Ht as (Hu & Hk & _ & Hx1 & Ha1 & Hs1).
    assert (Ha2 : availableTaskCount s1 = u64 (zlen (unread s1) - uncounted s)).
    { rewrite Ha1; [|rewrite Ha; unfold u64; by rewrite Zmod_mod]. rewrite Ha, u64_u64_sub, Hu, zlen_app. f_equal. lia. }
    assert (Hf : mailbox s1 = mailbox s ∧ poller s1 = poller s ∧ workers s1 = workers s ∧ pendingCount s1 = pendingCount s ∧
      unannounced s1 = unannounced s ∧ started s1 = started s) by (by rewrite Hs1). destruct Hf as (F1 & F2 & F3 & F4 & F5 & F6).
    assert (Ho1 : (taken h ++ out) ++ unread s1 ++ inHand s ++ mailbox s = posted h).
    { rewrite <- Ho, Hu. by rewrite <- !app_assoc. }
    destruct out as [|t out].
    + intros [= <-]. rewrite app_nil_r in *.
      assert (Hinv : serviceInv s1 h).
      { split; unfold inHand, uncounted; rewrite ?F1, ?F2, ?F3, ?F4, ?F5, ?F6; try done. }
      assert (mkHistory (posted h) (taken h) (ran h) (announced h) (finished h) = h) as -> by (by destruct h).
      eapply serviceInv_goto; [done | by rewrite F3 | by destruct final | by destruct final].
    + intros [= <-]. unfold inHand, uncounted in Ho1, Ha2.
      split; unfold inHand, uncounted; cbn; rewrite ?F1, ?F2, ?F3, ?F4, ?F5, ?F6; try done.
      * pose proof (workers_update (workers s) i _ (WRun (t :: out) (length (t :: out)) final) Ew) as Hup.
        cbn [inBatch] in Hup. rewrite app_nil_r in Hup. cbn [length] in Hup. rewrite Hup, app_assoc, Hr. done.
      * apply Forall_insert; [done | exact Hk].
      * intros Ht. apply Hid in Ht as [Ht _]. by rewrite Ht in Ew.
  - intros [= <-]. by eapply serviceInv_goto.
  - intros [= <-]. split; cbn; try done.
    + rewrite <- Hr, <- app_assoc. apply Permutation_app_head.
      pose proof (workers_update (workers s) i _ (WRun todo n final) Ew) as Hup. cbn [inBatch] in Hup.
      apply (Permutation_app_inv_r todo). rewrite <- Hup. cbn. by rewrite <- Permutation_middle.
    + by apply Forall_insert.
    + intros Ht. apply Hid in Ht as [Ht _]. by rewrite Ht in Ew.
  - intros [= <-]. cbn in Hw.
    assert (Hinv : serviceInv (setPending s (subPending (pendingCount s) n))
      (mkHistory (posted h) (taken h) (ran h) (announced h) (finished h + Z.of_nat n))).
    { split; try done. cbn. rewrite subPending_plain, Hp, u64_u64_sub; [f_equal; lia|].
      unfold size_max, kMailboxDrainBudget in *. change ((2 ^ 64 - 1) / 2) with 9223372036854775807. lia. }
    eapply (serviceInv_goto _ _ i (WSub n final)) in Hinv; [exact Hinv | done | done | done].
  - intros [= <-]. eapply serviceInv_goto; [done | done | by destruct (running s) | by destruct (running s)].
  - intros [= <-]. eapply serviceInv_goto; [done | done | by destruct (_ || _) | by destruct (_ || _)].
  - intros [= <-]. by eapply serviceInv_goto.
Qed.

(** A change of the poller's program point that holds no tasks before or after. *)
Lemma serviceInv_poller s h pc :
  serviceInv s h -> poller s ≠ PIdle -> inHand s = inHand (setPoller s pc) -> uncounted s = uncounted (setPoller s pc) ->
  serviceInv (setPoller s pc) h.
Proof.
  intros [] H0 H1 H2. split; try done; [by rewrite <- H1 | by rewrite <- H2|].
  intros Ht. by destruct (si_idle0 Ht).
Qed.

Lemma inv_poller s h k s' : serviceInv s h -> pollerStep s k = Some s' -> serviceInv s' h.
Proof.
  intros Hs. unfold pollerStep. pose proof Hs as [Ho Hr Hx Ha Hp Hn Hsm Hid].
  assert (Hpc : ∀ pc, poller s ≠ PIdle -> inHand s = [] -> uncounted s = 0 -> inHand (setPoller s pc) = [] ->
    uncounted (setPoller s pc) = 0 -> serviceInv (setPoller s pc) h).
  { intros pc H0 H1 H2 H3 H4. apply serviceInv_poller; [done | done | congruence | congruence]. }
  unfold inHand, uncounted in Ho, Ha, Hpc. destruct (poller s) eqn:Epc; rewrite ?Epc in Ho, Ha; try done;
    (assert (Hst : started s ≠ false) by (intros Ht; destruct (Hid Ht); congruence)).
  - intros [= <-]. by apply Hpc.
  - destruct (Nat.ltb_spec kMailboxDrainBudget k); [done|]. destruct (Nat.ltb_spec (length (mailbox s)) k); [done|]. cbn [orb].
    destruct (k =? 0)%nat; intros [= <-]; [by apply Hpc; destruct final|].
    split; try done. cbn. rewrite <- Ho. cbn. by rewrite take_drop.
  - intros [= <-]. split; try done; cbn; unfold unread; cbn.
    + rewrite drop_app_le by done. rewrite <- Ho. unfold unread. by rewrite <- !app_assoc.
    + rewrite length_app. lia.
    + rewrite drop_app_le by done. rewrite Ha. f_equal. unfold unread, uncounted. cbn. rewrite zlen_app. unfold zlen. lia.
  - intros [= <-]. split; try done; cbn.
    rewrite Ha, u64_u64_add. f_equal. change (unread (setPoller ?a ?b)) with (unread a).
    change (unread (setAvailable ?a ?b)) with (unread a). unfold uncounted, unread. cbn. lia.
  - assert (Hafter : ∀ s1, serviceInv s1 h -> poller s1 = poller s -> serviceInv (setPoller s1 (afterDrain final)) h).
    { intros s1 H1 He. apply serviceInv_poller; [done | by rewrite He, Epc|..]; unfold inHand, uncounted; rewrite He, Epc; by destruct final. }
    destruct (drained =? 1)%nat.
    + destruct (notifyOne s k) as [s1|] eqn:E; [|done]. intros [= <-]. destruct (serviceInv_notifyOne _ _ _ _ Hs E). by apply Hafter.
    + intros [= <-]. apply Hafter; [by apply serviceInv_notifyAll | done].
  - intros [= <-]. apply (serviceInv_poller (setSpin s _)); [by destruct Hs | by cbn; rewrite Epc | ..]; unfold inHand, uncounted; cbn; by rewrite Epc.
  - destruct (block && negb (woken s)); [done|]. intros [= <-].
    apply (serviceInv_poller (if hasTasks then _ else _)); [by destruct hasTasks; destruct Hs | by destruct hasTasks; cbn; rewrite Epc | ..];
      unfold inHand, uncounted; destruct hasTasks; cbn; by rewrite Epc.
Qed.

Lemma inv_step s h l s' : serviceInv s h -> execute s l = Some s' -> serviceInv s' (record s l h).
Proof.
  intros Hs. pose proof Hs as [Ho Hr Hx Ha Hp Hn Hsm Hid].
  destruct l; cbn [execute record]; try (by intros ?; eapply inv_poller) ; try (by intros ?; apply inv_worker).
  - intros [= <-]. split; try done; cbn.
    + change (unread (setCalls ?a _ _ _)) with (unread a). rewrite <- Ho. unfold unread. cbn. by rewrite <- !app_assoc.
    + rewrite zlen_app. change (zlen [t]) with 1. lia.
  - destruct (unannounced s) as [|u] eqn:Eu; [done|]. intros [= <-].
    assert (Hinv : serviceInv (setCalls (setPending s (u64 (pendingCount s + 1))) u (stopNotifies s) (stopWakes s))
      (mkHistory (posted h) (taken h) (ran h) (announced h + 1) (finished h))).
    { split; try done; cbn; [rewrite Hp, u64_u64_add; f_equal; lia | lia]. }
    cbn. destruct (started s); [|exact Hinv]. by destruct Hinv.
  - destruct (started s) eqn:Es; intros [= <-]; [done|]. destruct (Hid eq_refl) as [Hw Hpl].
    unfold inHand, uncounted in Ho, Ha. rewrite Hpl in Ho, Ha. rewrite Hw in Hr.
    split; try done; cbn.
    + assert (concat (inBatch <$> replicate (threadCount s) (WTake false)) = @nil Task) as ->.
      { induction (threadCount s); [done|]. cbn. exact IHn. }
      done.
    + by apply Forall_replicate.
  - destruct (started s) eqn:Es; intros [= <-]; [|done]. by split.
  - destruct (stopNotifies s); [done|]. intros [= <-]. apply serviceInv_notifyAll in Hs. by destruct Hs.
  - destruct (stopWakes s); [done|]. intros [= <-]. by destruct Hs.
  - destruct (poller s) eqn:Epc; try done. destruct (forallb _ _) eqn:Ef; [|done]. intros [= <-].
    assert (Hb : concat (inBatch <$> workers s) = []).
    { rewrite forallb_forall in Ef. clear - Ef. induction (workers s) as [|w ws IH]; [done|]. cbn.
      specialize (Ef w (or_introl eq_refl)) as Hw. rewrite IH by (intros x Hin; apply Ef; by right). by destruct w. }
    rewrite Hb in Hr. unfold inHand, uncounted in Ho, Ha. rewrite Epc in Ho, Ha. by split.
  - unfold pollEvents. destruct (poller s) eqn:Epc; try done. intros [= <-].
    apply (serviceInv_poller (setSpin s 0)); [by destruct Hs | by cbn; rewrite Epc | ..]; unfold inHand, uncounted; cbn; by rewrite Epc.
  - destruct (workers s !! i) as [[]|] eqn:E; try done. intros [= <-]. by eapply serviceInv_goto.
Qed.

Lemma inv_reachable n s h : reachable n s h -> serviceInv s h.
Proof. induction 1; [apply serviceInv_fresh | by eapply inv_step]. Qed.

(** ** One worker: tasks run in the order they were posted *)

Definition oneWorker s h : Prop :=
  threadCount s = 1%nat ∧ (length (workers s) <= 1)%nat ∧ ran h ++ concat (inBatch <$> workers s) = taken h.

Lemma notifyOne_workers s i s' : notifyOne s i = Some s' ->
  threadCount s' = threadCount s ∧ length (workers s') = length (workers s) ∧
  concat (inBatch <$> workers s') = concat (inBatch <$> workers s).
Proof.
  unfold notifyOne. destruct (workers s !! i) as [[]|] eqn:E; try (destruct (existsb _ _); [done|]; by intros [= <-]).
  intros [= <-]. cbn. rewrite length_insert. split_and!; try done. by rewrite (workers_same _ _ _ _ E).
Qed.

Ltac worker_case Hr Hws :=
  intros [= <-]; cbn in Hr |- *; rewrite ?Hws; cbn; rewrite ?app_nil_r in Hr; rewrite ?app_nil_r, <- ?app_assoc;
  split_and!; try done; try lia; case_match; by rewrite ?app_nil_r.

Lemma oneWorker_step s h l s' : serviceInv s h -> oneWorker s h -> execute s l = Some s' -> oneWorker s' (record s l h).
Proof.
  intros Hs (Ht & Hl & Hr). pose proof (si_idx _ _ Hs) as Hx.
  destruct l; cbn [execute record]; unfold oneWorker.
  - by intros [= <-].
  - destruct (unannounced s); [done|]. intros [= <-]. cbn. by destruct (started s).
  - destruct (started s) eqn:Es; intros [= <-]; [done|]. destruct (si_idle _ _ Hs Es) as [Hw _]. rewrite Hw in Hr. cbn.
    rewrite Ht. by split_and!.
  - destruct (started s); by intros [= <-].
  - destruct (stopNotifies s); [done|]. intros [= <-]. cbn. by rewrite length_fmap, (proj1 (wake_all _)).
  - destruct (stopWakes s); [done|]. by intros [= <-].
  - destruct (poller s); try done. destruct (forallb _ _) eqn:Ef; [|done]. intros [= <-]. cbn. split_and!; [done | lia|].
    destruct (workers s) as [|w [|??]]; cbn in *; [done | | lia]. rewrite andb_true_r in Ef. by destruct w.
  - unfold pollerStep. destruct (poller s); try done; try (by intros [= <-]).
    + destruct (_ || _); [done|]. destruct (_ =? _)%nat; by intros [= <-].
    + destruct (_ =? 1)%nat.
      * destruct (notifyOne s k) as [s1|] eqn:E; [|done]. intros [= <-]. apply notifyOne_workers in E as (E1 & E2 & E3).
        cbn. by rewrite E1, E2, E3.
      * intros [= <-]. cbn. by rewrite length_fmap, (proj1 (wake_all _)).
    + destruct (_ && _); [done|]. intros [= <-]. by destruct hasTasks.
  - unfold pollEvents. destruct (poller s); try done. by intros [= <-].
  - unfold workerStep. destruct (workers s !! i) as [w|] eqn:Ew; [|done]. cbn [mbind option_bind].
    pose proof (lookup_lt_Some _ _ _ Ew) as Hi. destruct (workers s) as [|w0 [|??]] eqn:Ews; cbn in Hl, Hi; try lia.
    assert (i = 0%nat) as -> by lia. injection Ew as ->. cbn in Hr. rewrite app_nil_r in Hr.
    destruct w as [final|[|t todo] n final|n final| | | | |]; try done.
    + pose proof (takeSharedTasks_spec s kMailboxDrainBudget Hx) as Hspec.
      destruct (takeSharedTasks s kMailboxDrainBudget) as [out s1]. destruct Hspec as (_ & _ & _ & _ & _ & Hs1).
      cbn [inBatch] in Hr. rewrite app_nil_r in Hr. cbn [fst].
      assert (threadCount s1 = 1%nat ∧ workers s1 = [WTake final]) as [Ht1 Hw1] by (by rewrite Hs1; cbn; rewrite Ews).
      destruct out as [|t out]; intros [= <-]; cbn; rewrite Hw1, Ht1; cbn; (split_and!; [done | lia|]);
        rewrite ?app_nil_r, Hr; [destruct final; by rewrite ?app_nil_r | done].
    + worker_case Hr Ews.
    + worker_case Hr Ews.
    + worker_case Hr Ews.
    + worker_case Hr Ews.
    + worker_case Hr Ews.
    + worker_case Hr Ews.
  - destruct (workers s !! i) as [[]|] eqn:E; try done. intros [= <-]. cbn. rewrite length_insert.
    by rewrite (workers_same _ _ _ _ E).
Qed.

Lemma oneWorker_reachable s h : reachable 1 s h -> oneWorker s h.
Proof.
  induction 1 as [|s h l s' Hr IH Hs]; [unfold oneWorker; cbn; split_and!; [done | lia | done]|]. eapply oneWorker_step; [by eapply inv_reachable | done | done].
Qed.

(** ** A worker that runs alone empties the shared vector *)

Fixpoint trace s h (ls : list Label) : option (@Impl Task * @History Task) :=
  match ls with
  | [] => Some (s, h)
  | l :: ls => s' ← execute s l; trace s' (record s l h) ls
  end.

Lemma trace_app s h ls1 ls2 : trace s h (ls1 ++ ls2) = '(s', h') ← trace s h ls1; trace s' h' ls2.
Proof.
  revert s h. induction ls1 as [|l ls1 IH]; intros s h; cbn; [done|].
  destruct (execute s l); cbn; [apply IH | done].
Qed.

Lemma trace_reachable n s h ls s' h' : reachable n s h -> trace s h ls = Some (s', h') -> reachable n s' h'.
Proof.
  revert s h. induction ls as [|l ls IH]; intros s h Hr; cbn; [by intros [= <- <-]|].
  destruct (execute s l) eqn:E; [|done]. cbn. apply IH. by eapply reach_step.
Qed.

(** The parts of the state that a worker's steps leave alone. *)
Definition sameElse s s' : Prop := mailbox s' = mailbox s ∧ poller s' = poller s ∧ running s' = running s ∧ started s' = started s.

Lemma run_batch s h i todo n final :
  workers s !! i = Some (WRun todo n final) ->
  ∃ s' h', trace s h (replicate (S (length todo)) (LWorker i)) = Some (s', h') ∧
    workers s' !! i = Some (WSub n final) ∧ unread s' = unread s ∧ ran h' = ran h ++ todo ∧ sameElse s s' ∧
    (sharedReadIdx s' <= length (sharedTasks s') <-> sharedReadIdx s <= length (sharedTasks s))%nat.
Proof.
  revert s h. induction todo as [|t todo IH]; intros s h Hi; pose proof (lookup_lt_Some _ _ _ Hi) as Hl.
  - cbn. unfold workerStep. rewrite Hi. cbn. eexists _, _. split; [done|]. rewrite app_nil_r.
    split_and!; try done. cbn. by rewrite list_lookup_insert_eq.
  - set (s1 := setWorkers s (<[i := WRun todo n final]> (workers s))).
    assert (Hstep : execute s (LWorker i) = Some s1) by (cbn; unfold workerStep; by rewrite Hi).
    assert (Hrec : record s (LWorker i) h = mkHistory (posted h) (taken h) (ran h ++ [t]) (announced h) (finished h))
      by (cbn; by rewrite Hi).
    destruct (IH s1 (mkHistory (posted h) (taken h) (ran h ++ [t]) (announced h) (finished h)))
      as (s' & h' & Htr & Hw & Hu & Hran & Hsame & Hidx); [unfold s1; cbn; by rewrite list_lookup_insert_eq|].
    exists s', h'. split; [rewrite (replicate_S (S (length todo))); cbn [trace]; rewrite Hstep, Hrec; exact Htr|].
    split_and!; try done; [by rewrite Hran; cbn; rewrite <- app_assoc | apply Hsame..].
Qed.

Lemma drain_worker final i : ∀ k s h,
  (length (unread s) <= k)%nat -> (sharedReadIdx s <= length (sharedTasks s))%nat ->
  workers s !! i = Some (WTake final) ->
  ∃ m s' h', trace s h (replicate m (LWorker i)) = Some (s', h') ∧
    workers s' !! i = Some (if final then WExited else WCheck) ∧ unread s' = [] ∧
    ran h' = ran h ++ unread s ∧ sameElse s s'.
Proof.
  induction k as [k IH] using lt_wf_ind. intros s h Hk Hx Hi. pose proof (lookup_lt_Some _ _ _ Hi) as Hl.
  pose proof (takeSharedTasks_spec s kMailboxDrainBudget Hx) as Ht.
  destruct (takeSharedTasks s kMailboxDrainBudget) as [out s1] eqn:Et. destruct Ht as (Hu & _ & Hnil & Hx1 & _ & Hs1).
  assert (Hf : workers s1 = workers s ∧ sameElse s s1) by (rewrite Hs1; by split_and!). destruct Hf as [Hw1 Hsame].
  destruct out as [|t out].
  - exists 1%nat. cbn. unfold workerStep. rewrite Hi. cbn [mbind option_bind]. rewrite Et. cbn. rewrite Hw1. eexists _, _. split; [done|]. cbn.
    rewrite list_lookup_insert_eq by done. destruct (Hnil eq_refl) as [?|He]; [done|]. cbn in Hu. rewrite Hu, He.
    split_and!; try done; [by rewrite app_nil_r | apply Hsame..].
  - set (s2 := setWorkers s1 (<[i := WRun (t :: out) (length (t :: out)) final]> (workers s1))).
    set (h2 := mkHistory (posted h) (taken h ++ (t :: out)) (ran h) (announced h) (finished h)).
    destruct (run_batch s2 h2 i (t :: out) (length (t :: out)) final) as (s3 & h3 & Htr3 & Hw3 & Hu3 & Hr3 & Hsame3 & Hx3).
    { unfold s2. cbn. rewrite Hw1. by rewrite list_lookup_insert_eq. }
    pose proof (lookup_lt_Some _ _ _ Hw3) as Hl3.
    set (s4 := setWorkers (setPending s3 (subPending (pendingCount s3) (length (t :: out)))) (<[i := WTake final]> (workers s3))).
    set (h4 := mkHistory (posted h3) (taken h3) (ran h3) (announced h3) (finished h3 + Z.of_nat (length (t :: out)))).
    assert (Hlen : (length (unread s4) < length (unread s))%nat).
    { change (unread s4) with (unread s3). rewrite Hu3, Hu. change (unread s2) with (unread s1). rewrite length_app. cbn. lia. }
    destruct (IH (length (unread s4)) ltac:(lia) s4 h4) as (m & s' & h' & Htr & Hw & Hend & Hran & Hsame'); [done | by apply Hx3 | |].
    { unfold s4. cbn. by rewrite list_lookup_insert_eq. }
    exists (1 + (S (length (t :: out)) + (1 + m)))%nat, s', h'. split_and!; try done.
    + assert (H1 : execute s (LWorker i) = Some s2) by (cbn; unfold workerStep; rewrite Hi; cbn [mbind option_bind]; by rewrite Et).
      assert (R1 : record s (LWorker i) h = h2) by (unfold record; by rewrite Hi, Et).
      assert (H3 : execute s3 (LWorker i) = Some s4) by (cbn; unfold workerStep; by rewrite Hw3).
      assert (R3 : record s3 (LWorker i) h3 = h4) by (cbn; by rewrite Hw3).
      rewrite replicate_add. cbn [replicate app trace]. rewrite H1, R1. cbn [mbind option_bind].
      rewrite replicate_add, trace_app, Htr3. cbn [mbind option_bind].
      rewrite replicate_add. cbn [replicate app trace]. by rewrite H3, R3.
    + rewrite Hran. change (ran h4) with (ran h3). change (unread s4) with (unread s3). rewrite Hr3, Hu3, Hu.
      change (ran h2) with (ran h). change (unread s2) with (unread s1). by rewrite <- app_assoc.
    + destruct Hsame as (? & ? & ? & ?), Hsame3 as (? & ? & ? & ?), Hsame' as (? & ? & ? & ?). unfold sameElse, s2, s4 in *. cbn in *.
      split_and!; congruence.
Qed.

(** ** The poller moves the mailbox to the shared vector *)

Definition byService (i : nat) (l : @Label Task) : Prop :=
  match l with LPoller _ => True | LWorker j => j = i | _ => False end.

Lemma notify_possible s i n final :
  workers s !! i = Some (WTake false) -> poller s = PNotify n final ->
  ∃ j s', execute s (LPoller j) = Some (setPoller s' (afterDrain final)) ∧
    workers s' !! i = Some (WTake false) ∧ s' = setWorkers s (workers s').
Proof.
  intros Hi Hp. cbn. unfold pollerStep. rewrite Hp. destruct (n =? 1)%nat.
  - destruct (existsb (fun w => match w with WAsleep => true | _ => false end) (workers s)) eqn:E.
    + apply existsb_exists in E as (w & Hin%list_elem_of_In & Hw). apply list_elem_of_lookup in Hin as (j & Hj).
      destruct w; try done. exists j, (setWorkers s (<[j := WPred]> (workers s))). unfold notifyOne. rewrite Hj. cbn.
      split_and!; try done. rewrite list_lookup_insert_ne; [done|]. intros ->. congruence.
    + exists i, s. unfold notifyOne. rewrite Hi, E. cbn. split_and!; try done. by destruct s.
  - exists 0%nat, (notifyAll s). split_and!; try done. cbn. by rewrite list_lookup_fmap, Hi.
Qed.

Lemma poller_round s h i :
  serviceInv s h -> poller s = PLoop -> running s = true -> mailbox s ≠ [] -> zlen (posted h) <= size_max ->
  workers s !! i = Some (WTake false) ->
  ∃ ls s', Forall (byService i) ls ∧ trace s h ls = Some (s', h) ∧ poller s' = PLoop ∧ running s' = true ∧
    mailbox s' = drop kMailboxDrainBudget (mailbox s) ∧ unread s' = unread s ++ take kMailboxDrainBudget (mailbox s) ∧
    workers s' !! i = Some (WTake false).
Proof.
  intros Hs Hp Hr Hm Hmax Hi. set (k := Nat.min kMailboxDrainBudget (length (mailbox s))).
  assert (Hk : (0 < k)%nat) by (unfold k; destruct (mailbox s); [done|]; cbn; unfold kMailboxDrainBudget; lia).
  set (batch := take k (mailbox s)). assert (Hb : length batch = k) by (unfold batch, k; rewrite length_take; lia).
  set (s1 := setPoller s (PDrain false)).
  set (s2 := setPoller (setMailbox s1 (drop k (mailbox s))) (PAppend batch false)).
  set (s3 := setPoller (setShared s2 (sharedTasks s ++ batch) (sharedReadIdx s)) (PAdd (length batch) false)).
  set (s4 := setPoller (setAvailable s3 (u64 (availableTaskCount s + Z.of_nat (length batch)))) (PNotify (length batch) false)).
  assert (E1 : execute s (LPoller 0) = Some s1) by (cbn; unfold pollerStep; by rewrite Hp, Hr).
  assert (E2 : execute s1 (LPoller k) = Some s2).
  { change (execute s1 (LPoller k)) with (pollerStep s1 k). unfold pollerStep. change (poller s1) with (@PDrain Task false).
    change (mailbox s1) with (mailbox s). cbn iota beta.
    rewrite (proj2 (Nat.ltb_ge kMailboxDrainBudget k)), (proj2 (Nat.ltb_ge (length (mailbox s)) k)) by (unfold k; lia).
    by rewrite (proj2 (Nat.eqb_neq k 0)) by lia. }
  assert (E3 : execute s2 (LPoller 0) = Some s3) by done. assert (E4 : execute s3 (LPoller 0) = Some s4) by done.
  assert (H4 : serviceInv s4 h).
  { apply (inv_step s3 h (LPoller 0)); [|done]. apply (inv_step s2 h (LPoller 0)); [|done].
    apply (inv_step s1 h (LPoller k)); [|done]. by apply (inv_step s h (LPoller 0)). }
  destruct (notify_possible s4 i (length batch) false) as (j & s5 & E5 & Hi5 & Hs5); [exact Hi | done|].
  assert (Hu : unread s5 = unread s ++ batch).
  { rewrite Hs5. unfold unread. cbn. by rewrite drop_app_le by apply (si_idx _ _ Hs). }
  assert (Hav : (0 <? availableTaskCount s5) = true).
  { rewrite Hs5. change (availableTaskCount (setWorkers s4 _)) with (availableTaskCount s4). rewrite (si_available _ _ H4).
    change (uncounted s4) with 0. change (unread s4) with (unread (setWorkers s4 (workers s5))). rewrite <- Hs5, Hu.
    rewrite u64_small; [rewrite zlen_app; unfold zlen; apply Z.ltb_lt; lia|].
    pose proof (si_order _ _ H4) as Ho. apply (f_equal zlen) in Ho. rewrite !zlen_app in Ho.
    change (unread s4) with (unread (setWorkers s4 (workers s5))) in Ho. rewrite <- Hs5, Hu in Ho.
    pose proof (zlen_nonneg (taken h)). pose proof (zlen_nonneg (inHand s4)). pose proof (zlen_nonneg (mailbox s4)).
    pose proof (zlen_nonneg (unread s ++ batch)). lia. }
  set (s6 := setPoller (setSpin (setPoller s5 PLoad) 0) (PPoll false true)).
  set (s7 := setPoller (setSpin (setWoken s6 false) 0) PLoop).
  assert (E6 : execute (setPoller s5 PLoad) (LPoller 0) = Some s6).
  { cbn [execute]. unfold pollerStep. cbn [poller setPoller availableTaskCount spinCount]. by rewrite Hav. }
  assert (E7 : execute s6 (LPoller 0) = Some s7) by done.
  exists [LPoller 0; LPoller k; LPoller 0; LPoller 0; LPoller j; LPoller 0; LPoller 0], s7.
  split; [by repeat constructor|]. split.
  { cbn [trace]. rewrite E1. cbn [mbind option_bind record]. rewrite E2. cbn [mbind option_bind record].
    rewrite E3. cbn [mbind option_bind record]. rewrite E4. cbn [mbind option_bind record]. rewrite E5.
    cbn [mbind option_bind record afterDrain]. rewrite E6. cbn [mbind option_bind record]. by rewrite E7. }
  change (unread s7) with (unread s5). rewrite Hu.
  assert (mailbox s7 = drop k (mailbox s)) as -> by (change (mailbox s7) with (mailbox s5); by rewrite Hs5).
  split_and!; try done; [change (running s7) with (running s5); by rewrite Hs5 | unfold k.. ].
  - destruct (Nat.le_ge_cases kMailboxDrainBudget (length (mailbox s))); [by rewrite Nat.min_l|].
    rewrite Nat.min_r by done. by rewrite !drop_ge.
  - f_equal. unfold batch, k. rewrite take_min_length. done.
Qed.

Lemma dispatch_all i : ∀ k s h,
  (length (mailbox s) <= k)%nat -> serviceInv s h -> poller s = PLoop -> running s = true ->
  zlen (posted h) <= size_max -> workers s !! i = Some (WTake false) ->
  ∃ ls s' h', Forall (byService i) ls ∧ trace s h ls = Some (s', h') ∧ mailbox s' = [] ∧ unread s' = [] ∧
    ran h' = ran h ++ unread s ++ mailbox s.
Proof.
  induction k as [k IH] using lt_wf_ind. intros s h Hk Hs Hp Hr Hmax Hi.
  destruct (mailbox s) as [|t m] eqn:Em.
  - destruct (drain_worker false i (length (unread s)) s h ltac:(lia) (si_idx _ _ Hs) Hi)
      as (n & s' & h' & Htr & _ & Hu & Hran & Hsame & _).
    exists (replicate n (LWorker i)), s', h'. rewrite app_nil_r. split_and!; try done; [|by rewrite Hsame].
    by apply Forall_replicate.
  - destruct (poller_round s h i Hs Hp Hr ltac:(by rewrite Em) Hmax Hi) as (ls & s1 & Hf & Htr & Hp1 & Hr1 & Hm1 & Hu1 & Hi1).
    assert (Hs1 : serviceInv s1 h).
    { clear - Hs Htr. assert (Hg : ∀ ls s h0 s1 h1, serviceInv s h0 -> trace s h0 ls = Some (s1, h1) -> serviceInv s1 h1).
      { clear. induction ls as [|l ls IH]; intros s h0 s1 h1 Hs; cbn; [by intros [= <- <-]|].
        destruct (execute s l) eqn:E; [|done]. cbn. apply IH. by eapply inv_step. }
      by eapply Hg. }
    destruct (IH (length (mailbox s1)) ltac:(rewrite Hm1, length_drop, Em in *; cbn in *; unfold kMailboxDrainBudget; lia)
      s1 h ltac:(done) Hs1 Hp1 Hr1 Hmax Hi1) as (ls2 & s' & h' & Hf2 & Htr2 & Hm2 & Hu2 & Hran).
    exists (ls ++ ls2), s', h'. split_and!; try done.
    + by apply Forall_app.
    + by rewrite trace_app, Htr.
    + rewrite Hran, Hu1, Hm1, Em, <- app_assoc. by rewrite take_drop.
Qed.

(** ** A worker that nobody wakes *)

(** Everything the service does by itself, and I/O events: no post, start, stop or
    spurious wake-up. *)
Definition quiet (l : @Label Task) : Prop :=
  match l with LPush _ | LStart | LStop | LSpurious _ => False | _ => True end.

(** A lone sleeping worker with no notification on its way. *)
Record forgotten (rest : list Task) s : Prop := {
  fg_asleep : workers s = [WAsleep];
  fg_mailbox : mailbox s = [];
  fg_calls : stopNotifies s = 0%nat;
  fg_poller : match poller s with PAppend _ _ | PAdd _ _ | PNotify _ _ => False | _ => True end;
  fg_unread : unread s = rest
}.

Lemma forgotten_step rest s l s' : forgotten rest s -> quiet l -> execute s l = Some s' -> forgotten rest s'.
Proof.
  intros [Hw Hm Hc Hp Hu] Hq. destruct l; cbn [execute]; try done.
  - destruct (unannounced s); [done|]. intros [= <-]. cbn. by destruct (started s).
  - by rewrite Hc.
  - destruct (stopWakes s); [done|]. by intros [= <-].
  - destruct (poller s); try done. by rewrite Hw.
  - unfold pollerStep. rewrite Hm. destruct (poller s) eqn:E; try done; try (by intros [= <-]).
    + destruct (_ || (_ <? k)%nat) eqn:Eb; [done|]. apply orb_false_iff in Eb as [_ Hk%Nat.ltb_ge].
      assert (k = 0%nat) as -> by (cbn in Hk; lia). intros [= <-]. by destruct final.
    + destruct (_ && _); [done|]. intros [= <-]. by destruct hasTasks.
  - unfold pollEvents. destruct (poller s); try done. by intros [= <-].
  - unfold workerStep. rewrite Hw. by destruct i as [|[|?]].
Qed.

Lemma forgotten_forever rest s ls : ∀ s', forgotten rest s -> Forall quiet ls -> runSteps s ls = Some s' -> forgotten rest s'.
Proof.
  unfold runSteps. revert s. induction ls as [|l ls IH]; intros s s' Hs Hq; cbn; [by intros [= <-]|].
  apply Forall_cons in Hq as [Hl Hq]. destruct (execute s l) as [s1|] eqn:E.
  - apply IH; [by eapply forgotten_step | done].
  - clear. intros H. exfalso. revert H. induction ls as [|l' ls IHls]; cbn; [done | exact IHls].
Qed.

(** The worker has found nothing and is about to block while a post completes. *)
Definition lostWakeup (t : Task) : list Label :=
  [LStart; LWorker 0; LWorker 0; LWorker 0; LPush t; LAnnounce;
   LPoller 0; LPoller 1; LPoller 0; LPoller 0; LPoller 0; LWorker 0].

(** ... or while [stop] runs. *)
Definition lostStop : list (@Label Task) :=
  [LStart; LWorker 0; LWorker 0; LWorker 0; LStop; LStopNotify; LStopWake; LWorker 0].

End Proofs.

(** ** Properties *)

(** C7. Under every interleaving of posters, poller and workers, tasks are handed to the
    workers in the order they were posted: those handed over, those in the shared vector,
    those in the poller's hands and those in the mailbox are together the posted tasks, in
    order.  Every task handed over has run once or is in exactly one batch, and with one
    worker tasks run in the order they were posted. *)
Theorem io_fifo {Task} n (s : @Impl Task) h :
  reachable n s h ->
  taken h ++ unread s ++ inHand s ++ mailbox s = posted h ∧
  ran h ++ concat (inBatch <$> workers s) ≡ₚ taken h ∧
  (NoDup (posted h) -> NoDup (ran h)) ∧
  (n = 1%nat -> ran h ++ concat (inBatch <$> workers s) = taken h).
Proof.
  intros Hr. pose proof (inv_reachable _ _ _ Hr) as Hs. pose proof (si_order _ _ Hs) as Ho. pose proof (si_ran _ _ Hs) as Hp.
  split_and!; [done | done | |].
  - intros Hnd. rewrite <- Ho in Hnd. apply NoDup_app in Hnd as [Hnd _]. rewrite <- Hp in Hnd. by apply NoDup_app in Hnd as [? _].
  - intros ->. by apply (oneWorker_reachable s h).
Qed.

(** The counters are exact modulo 2^64 whatever the interleaving: the available count is
    the number of unread tasks less those appended and not yet added, the pending count the
    announced tasks less the finished ones. *)
Theorem io_counters {Task} n (s : @Impl Task) h :
  reachable n s h ->
  availableTaskCount s = u64 (zlen (unread s) - uncounted s) ∧
  pendingCount s = u64 (zlen (posted h) - Z.of_nat (unannounced s) - finished h).
Proof.
  intros Hs%inv_reachable. split; [apply (si_available _ _ Hs)|].
  rewrite (si_pending _ _ Hs), <- (si_announced _ _ Hs). f_equal. lia.
Qed.

(** While the service runs and one worker is awake, the poller and that worker alone can
    run every task posted so far, in order, however many there are. *)
Theorem io_dispatch {Task} n (s : @Impl Task) h i :
  reachable n s h -> poller s = PLoop -> running s = true -> zlen (posted h) <= size_max ->
  workers s !! i = Some (WTake false) ->
  ∃ ls s' h', Forall (byService i) ls ∧ trace s h ls = Some (s', h') ∧ mailbox s' = [] ∧ unread s' = [] ∧
    ran h' = ran h ++ unread s ++ mailbox s.
Proof. intros Hs%inv_reachable. by apply (dispatch_all i (length (mailbox s)) s h). Qed.

(** A notification can be lost: there is a reachable state of a running service in which
    a task waits in the shared vector and the only worker sleeps, and from which nothing
    the service does by itself, and no I/O event, ever runs the task. *)
Theorem lost_wakeup {Task} (t : Task) :
  ∃ s h, reachable 1 s h ∧ running s = true ∧ unread s = [t] ∧
    ∀ ls s', Forall quiet ls -> runSteps s ls = Some s' -> workers s' = [WAsleep] ∧ unread s' = [t].
Proof.
  eassert (E : trace (fresh 1) (mkHistory [] [] [] 0 0) (lostWakeup t) = Some (_, _)) by (vm_compute; reflexivity).
  pose proof (trace_reachable 1 _ _ _ _ _ (reach_fresh 1) E) as Hr. clear E.
  eexists _, _. split; [exact Hr|]. split; [reflexivity|]. split; [reflexivity|].
  intros ls s' Hq Hrun. eapply (forgotten_forever [t]) in Hrun as [Hw _ _ _ Hu]; [done | split; (reflexivity || exact I) | done].
Qed.

(** The same race loses the notification of [stop]: there is a reachable state in which
    a call of [stop] has completed, the only worker sleeps and nothing the service does
    makes it exit, so that [join] never returns. *)
Theorem lost_stop {Task} :
  ∃ (s : @Impl Task) h, reachable 1 s h ∧ running s = false ∧ stopNotifies s = 0%nat ∧ stopWakes s = 0%nat ∧
    ∀ ls s', Forall quiet ls -> runSteps s ls = Some s' -> workers s' = [WAsleep] ∧ execute s' LJoined = None.
Proof.
  eassert (E : trace (@fresh Task 1) (mkHistory [] [] [] 0 0) lostStop = Some (_, _)) by (vm_compute; reflexivity).
  pose proof (trace_reachable 1 _ _ _ _ _ (reach_fresh 1) E) as Hr. clear E.
  eexists _, _. split; [exact Hr|]. split; [reflexivity|]. split; [reflexivity|]. split; [reflexivity|].
  intros ls s' Hq Hrun. eapply (forgotten_forever []) in Hrun as [Hw _ _ _ _]; [|split; (reflexivity || exact I) | done].
  split; [done|]. cbn. rewrite Hw. by destruct (poller s').
Qed.

(** ** Witnesses *)

(** Two tasks posted to a service of one worker, the first already moved. *)
Definition sampleRun : list (@Label nat) :=
  [LStart; LPush 1%nat; LAnnounce; LPoller 0; LPoller 1; LPoller 0; LPoller 0; LPoller 0; LPoller 0; LPoller 0; LPush 2%nat].

Definition sampleState : @Impl nat := default (fresh 1) (runSteps (fresh 1) sampleRun).
Definition sampleHistory : @History nat := mkHistory [1%nat; 2%nat] [] [] 1 0.

Lemma sampleState_reachable : reachable 1 sampleState sampleHistory.
Proof. eapply (trace_reachable _ _ _ sampleRun); [apply reach_fresh | vm_compute; reflexivity]. Qed.

Lemma io_fifo_witness :
  taken sampleHistory ++ unread sampleState ++ inHand sampleState ++ mailbox sampleState = posted sampleHistory.
Proof. exact (proj1 (io_fifo 1 sampleState sampleHistory sampleState_reachable)). Defined.

Lemma io_counters_witness : availableTaskCount sampleState = u64 (zlen (unread sampleState) - uncounted sampleState).
Proof. exact (proj1 (io_counters 1 sampleState sampleHistory sampleState_reachable)). Defined.

Lemma io_dispatch_witness :
  ∃ ls s' h', Forall (byService 0) ls ∧ trace sampleState sampleHistory ls = Some (s', h') ∧ mailbox s' = [] ∧ unread s' = [] ∧
    ran h' = ran sampleHistory ++ unread sampleState ++ mailbox sampleState.
Proof.
  refine (io_dispatch 1 sampleState sampleHistory 0 sampleState_reachable _ _ _ _).
  - reflexivity.
  - reflexivity.
  - by vm_compute.
  - reflexivity.
Defined.
