(* ===== verification/SpinLock.v ===== *)
(** * The spin lock (include/FastNet/SpinLock.h)

    [SpinLock] as the atomic steps of the threads that use it: the load and the exchange of
    [tryAcquire], the read-only loop, the yields and the store of [unlock].  The pauses
    between them are not steps.  The code that runs between [lock] and [unlock] is the
    threads' own. *)

From S2P Require Import Prelude.

Definition kMaxSpinCount : nat := 64.

(** Which call a [tryAcquire] belongs to: round [spin] of the first phase of [lock], its
    second phase, or [try_lock]. *)
Inductive Mode := Spinning (spin : nat) | Yielding | Once.

Inductive Pc :=
| Away
| Load (m : Mode)        (** about to load [locked_] in [tryAcquire] *)
| Exchange (m : Mode)    (** the load gave [false] *)
| Watch (spin : nat)     (** in the read-only loop *)
| Holding.

Record Lock := mkLock {
  locked_ : bool;
  pcs : gmap nat Pc
}.

Definition pcOf (s : Lock) (t : nat) : Pc := default Away (pcs s !! t).
Definition goto (t : nat) (p : Pc) (s : Lock) : Lock := mkLock (locked_ s) (<[t := p]> (pcs s)).
Definition store (b : bool) (s : Lock) : Lock := mkLock b (pcs s).

Definition initialLock : Lock := mkLock false ∅.

(** Where a failed [tryAcquire] leads, and the end of a round. *)
Definition afterFailure (m : Mode) : Pc :=
  match m with
  | Spinning spin => Watch spin
  | Yielding => Load Yielding
  | Once => Away
  end.
Definition nextRound (spin : nat) : Pc := if (S spin <? kMaxSpinCount)%nat then Load (Spinning (S spin)) else Load Yielding.

Inductive Label :=
| CallLock (t : nat)
| CallTryLock (t : nat)
| Step (t : nat)
| CallUnlock (t : nat).

Definition execute (s : Lock) (l : Label) : option Lock :=
  match l with
  | CallLock t => match pcOf s t with Away => Some (goto t (Load (Spinning 0)) s) | _ => None end
  | CallTryLock t => match pcOf s t with Away => Some (goto t (Load Once) s) | _ => None end
  | Step t =>
      match pcOf s t with
      | Load m => Some (goto t (if locked_ s then afterFailure m else Exchange m) s)
      | Exchange m => if locked_ s then Some (goto t (afterFailure m) s) else Some (goto t Holding (store true s))
      | Watch spin => Some (goto t (if locked_ s then Watch spin else nextRound spin) s)
      | Away | Holding => None
      end
  | CallUnlock t => match pcOf s t with Holding => Some (goto t Away (store false s)) | _ => None end
  end.

Inductive reachable : Lock -> Prop :=
| reach_initial : reachable initialLock
| reach_step s l s' : reachable s -> execute s l = Some s' -> reachable s'.

Fixpoint runSteps (s : Lock) (ls : list Label) : option Lock :=
  match ls with
  | [] => Some s
  | l :: ls => s' ← execute s l; runSteps s' ls
  end.

(** * Properties *)

(** The flag is set exactly while a thread holds the lock, and one thread at most does. *)
Record lockInv (s : Lock) : Prop := {
  l_one : ∀ t t', pcOf s t = Holding -> pcOf s t' = Holding -> t = t';
  l_flag : locked_ s = true <-> ∃ t, pcOf s t = Holding
}.

Lemma pcOf_goto t p s t' : pcOf (goto t p s) t' = if decide (t' = t) then p else pcOf s t'.
Proof. unfold pcOf, goto. cbn. destruct (decide (t' = t)) as [->|Hn]; [by rewrite lookup_insert_eq | by rewrite lookup_insert_ne]. Qed.

(** A step outside the lock. *)
Lemma moves_outside t p s : lockInv s -> pcOf s t ≠ Holding -> p ≠ Holding -> lockInv (goto t p s).
Proof.
  intros [H1 H2] Ht Hp. split.
  - intros t1 t2. rewrite !pcOf_goto. destruct (decide (t1 = t)); [done|]. destruct (decide (t2 = t)); [done|]. apply H1.
  - cbn. rewrite H2. split; intros [t' Hh]; exists t'; revert Hh; rewrite pcOf_goto; destruct (decide (t' = t)) as [->|]; done.
Qed.

Lemma nextRound_outside spin : nextRound spin ≠ Holding.
Proof. unfold nextRound. by destruct (_ <? _)%nat. Qed.

Lemma spin_execute_inv s l s' : lockInv s -> execute s l = Some s' -> lockInv s'.
Proof.
  intros H E. destruct l; cbn [execute] in E.
  - destruct (pcOf s t) eqn:Et; try discriminate E. injection E as <-. apply moves_outside; [done | by rewrite Et | done].
  - destruct (pcOf s t) eqn:Et; try discriminate E. injection E as <-. apply moves_outside; [done | by rewrite Et | done].
  - destruct (pcOf s t) as [|m|m|spin|] eqn:Et; try discriminate E.
    + injection E as <-. apply moves_outside; [done | by rewrite Et | by destruct (locked_ s), m].
    + destruct (locked_ s) eqn:El; injection E as <-; [apply moves_outside; [done | by rewrite Et | by destruct m]|].
      assert (Hn : ∀ t', pcOf s t' ≠ Holding) by (intros t' Hh; assert (locked_ s = true) by (apply H; by exists t'); congruence).
      split.
      * intros t1 t2. rewrite !pcOf_goto. change (pcOf (store true s)) with (pcOf s).
        destruct (decide (t1 = t)) as [->|]; [|by intros ?%Hn]. destruct (decide (t2 = t)) as [->|]; [done | by intros _ ?%Hn].
      * split; [|done]. intros _. exists t. rewrite pcOf_goto. by destruct (decide (t = t)).
    + injection E as <-. apply moves_outside; [done | by rewrite Et|]. destruct (locked_ s); [done | apply nextRound_outside].
  - destruct (pcOf s t) eqn:Et; try discriminate E. injection E as <-.
    assert (Hn : ∀ t', t' ≠ t -> pcOf s t' ≠ Holding) by (intros t' Hne Hh; apply Hne; by apply H).
    assert (Hall : ∀ t', pcOf (goto t Away (store false s)) t' ≠ Holding).
    { intros t'. rewrite pcOf_goto. change (pcOf (store false s)) with (pcOf s). destruct (decide (t' = t)); [done | by apply Hn]. }
    split; [by intros t1 t2 ?%Hall|]. split; [done|]. by intros [t' ?%Hall].
Qed.

Lemma spin_reachable_inv s : reachable s -> lockInv s.
Proof.
  induction 1 as [|s l s' _ IH E]; [|by eapply spin_execute_inv]. split; [done|]. split; [done|]. by intros [t Ht].
Qed.

(** Is the thread inside a call of [lock]? *)
Definition locking (p : Pc) : bool := match p with Load (Spinning _) | Load Yielding | Exchange (Spinning _) | Exchange Yielding | Watch _ => true | _ => false end.

Lemma takes_next m s t : locked_ s = false -> pcOf s t = Exchange m -> ∃ s', execute s (Step t) = Some s' ∧ pcOf s' t = Holding.
Proof. intros Hl Hp. cbn [execute]. rewrite Hp, Hl. eexists. split; [done|]. rewrite pcOf_goto. by destruct (decide (t = t)). Qed.

Lemma takes_loading m s t : locked_ s = false -> pcOf s t = Load m -> ∃ ls s', (length ls <= 2)%nat ∧ Forall (fun l => l = Step t) ls ∧ runSteps s ls = Some s' ∧ pcOf s' t = Holding.
Proof.
  intros Hl Hp. set (s1 := goto t (Exchange m) s). assert (E : execute s (Step t) = Some s1) by (cbn [execute]; by rewrite Hp, Hl).
  destruct (takes_next m s1 t) as (s2 & E2 & H2); [done | unfold s1; rewrite pcOf_goto; by destruct (decide (t = t))|].
  exists [Step t; Step t], s2. split; [cbn; lia|]. split; [by apply Forall_cons_2, Forall_singleton|].
  split; [|done]. cbn [runSteps]. rewrite E. cbn [mbind option_bind]. by rewrite E2.
Qed.

(** The spin lock excludes: under every interleaving of [lock], [try_lock] and [unlock], at
    most one thread is between an acquisition and its [unlock], and the flag is set exactly
    then.  It does not hang: whenever the lock is free, every thread inside [lock], in
    whichever phase, acquires it within three of its own steps unless another thread
    takes it first; and [try_lock] by itself fails only while the lock is held. *)
Theorem spinlock_excludes s :
  reachable s ->
  (∀ t t', pcOf s t = Holding -> pcOf s t' = Holding -> t = t') ∧ (locked_ s = true <-> ∃ t, pcOf s t = Holding) ∧
  (∀ t, locked_ s = false -> locking (pcOf s t) = true ->
     ∃ ls s', (length ls <= 3)%nat ∧ Forall (fun l => l = Step t) ls ∧ runSteps s ls = Some s' ∧ pcOf s' t = Holding) ∧
  (∀ t s', pcOf s t = Load Once -> execute s (Step t) = Some s' -> pcOf s' t = Away -> ∃ t', pcOf s t' = Holding).
Proof.
  intros H%spin_reachable_inv. split_and!; [apply H | apply H| |].
  - intros t Hl Hp. destruct (pcOf s t) as [|m|m|spin|] eqn:Et; try discriminate Hp.
    + destruct (takes_loading m s t Hl Et) as (ls & s' & H1 & H2). exists ls, s'. split; [lia | done].
    + destruct (takes_next m s t Hl Et) as (s' & E & Hh). exists [Step t], s'. split; [cbn; lia|]. split; [by apply Forall_singleton|].
      split; [|done]. cbn [runSteps]. by rewrite E.
    + set (s1 := goto t (nextRound spin) s). assert (E : execute s (Step t) = Some s1) by (cbn [execute]; by rewrite Et, Hl).
      assert (Hn : ∃ m, pcOf s1 t = Load m) by (unfold s1; rewrite pcOf_goto; destruct (decide (t = t)); [|done]; unfold nextRound; destruct (_ <? _)%nat; eauto).
      destruct Hn as [m Hm]. destruct (takes_loading m s1 t Hl Hm) as (ls & s' & H1 & H2 & H3 & H4). exists (Step t :: ls), s'.
      split; [cbn; lia|]. split; [by apply Forall_cons_2|]. split; [|done]. cbn [runSteps]. by rewrite E.
  - intros t s' Et E Ha. cbn [execute] in E. rewrite Et in E. injection E as <-. rewrite pcOf_goto in Ha. destruct (decide (t = t)); [|done].
    apply H. by destruct (locked_ s).
Qed.

(** Two threads, one inside, one spinning. *)
Definition contended : list Label := [CallLock 0; Step 0; Step 0; CallLock 1; Step 1; Step 1].
Definition contendedState : Lock := default initialLock (runSteps initialLock contended).

Lemma spin_run_reachable ls : ∀ s s', reachable s -> runSteps s ls = Some s' -> reachable s'.
Proof.
  induction ls as [|l ls IH]; intros s s' H E; cbn in E; [by injection E as <-|]. destruct (execute s l) as [s1|] eqn:E1; [|done]. eapply IH; [by eapply reach_step | exact E].
Qed.

Lemma spinlock_excludes_witness :
  (∀ t t', pcOf contendedState t = Holding -> pcOf contendedState t' = Holding -> t = t') ∧ (locked_ contendedState = true <-> ∃ t, pcOf contendedState t = Holding) ∧
  (∀ t, locked_ contendedState = false -> locking (pcOf contendedState t) = true ->
     ∃ ls s', (length ls <= 3)%nat ∧ Forall (fun l => l = Step t) ls ∧ runSteps contendedState ls = Some s' ∧ pcOf s' t = Holding) ∧
  (∀ t s', pcOf contendedState t = Load Once -> execute contendedState (Step t) = Some s' -> pcOf s' t = Away -> ∃ t', pcOf contendedState t' = Holding).
Proof. refine (spinlock_excludes contendedState (spin_run_reachable contended initialLock contendedState reach_initial _)). reflexivity. Defined.

Example contended_handover : pcOf contendedState 0 = Holding ∧ pcOf contendedState 1 = Watch 0 ∧
  (fun s => (pcOf s 0, pcOf s 1)) <$> runSteps contendedState [Step 1; CallUnlock 0; Step 1; Step 1; Step 1] = Some (Away, Holding).
Proof. by vm_compute. Qed.
