(* ===== verification/MemoryPool.v ===== *)
(** * Memory pool (include/FastNet/MemoryPool.h, class MemoryPool)

    Blocks are names handed out by the allocator of chunks; the intrusive lists (the free
    list, the return queue, the thread caches and the chains a thread holds between two
    critical sections) are lists of names, their head first.  A step is one critical section
    of [mutex_], one atomic operation on the return queue or on one of the relaxed counters,
    or work on a thread's own cache, or the end of a thread, which loses its cache; every
    interleaving of steps is covered.  Running out of memory is an argument of the steps that
    allocate. *)

From S2P Require Import Prelude.

Abbreviation Block := nat (only parsing).
Abbreviation Thread := nat (only parsing).

Definition kLocalCacheRefill : nat := 16.
Definition kLocalCacheDrainThreshold : Z := 64.

Record ThreadCache := mkCache { head : list Block; count : Z }.
Definition emptyCache : ThreadCache := mkCache [] 0.

(** What the allocation of a chunk meets: memory for both the blocks and the entry of
    [chunks_], none for the blocks, or none for the entry. *)
Inductive Memory := Enough | NoChunk | NoEntry.

(** Where a thread is: outside a call; in [drainReturnQueue] with the chain it took; in
    [allocate] before the thread cache, with a block from there, and with [cachedCount_] adjusted;
    in [deallocate] before and after the block is in the cache, and with the chain it takes
    out of an overflowing cache; in [deallocateFromOtherThread] before the block is in the
    return queue. *)
Inductive Pc :=
  | Outside
  | Returning (chain : list Block)
  | Allocating
  | Popped (b : Block)
  | Uncached (b : Block)
  | Freeing (b : Block)
  | Pushed (b : Block)
  | Overflowing (chain : list Block)
  | Sending (b : Block).

Record MemoryPool := mkPool {
  freeList_ : list Block;
  freeCount_ : Z;
  returnQueue_ : list Block;
  allocatedCount_ : Z;
  cachedCount_ : Z;
  chunks_ : list (list Block);
  caches : gmap Thread ThreadCache;
  nextBlock : nat;                 (* blocks below it have been allocated *)
  pcs : gmap Thread Pc;
  inUse : list Block;              (* blocks handed out and not given back *)
  lost : list Block                (* blocks in the caches of threads that have ended *)
}.

Definition setFree p l n := mkPool l n (returnQueue_ p) (allocatedCount_ p) (cachedCount_ p) (chunks_ p) (caches p) (nextBlock p) (pcs p) (inUse p) (lost p).
Definition setQueue p l := mkPool (freeList_ p) (freeCount_ p) l (allocatedCount_ p) (cachedCount_ p) (chunks_ p) (caches p) (nextBlock p) (pcs p) (inUse p) (lost p).
Definition setCounts p a c := mkPool (freeList_ p) (freeCount_ p) (returnQueue_ p) a c (chunks_ p) (caches p) (nextBlock p) (pcs p) (inUse p) (lost p).
Definition setChunks p l n := mkPool (freeList_ p) (freeCount_ p) (returnQueue_ p) (allocatedCount_ p) (cachedCount_ p) l (caches p) n (pcs p) (inUse p) (lost p).
Definition setCache p t c := mkPool (freeList_ p) (freeCount_ p) (returnQueue_ p) (allocatedCount_ p) (cachedCount_ p) (chunks_ p) (<[t := c]> (caches p)) (nextBlock p) (pcs p) (inUse p) (lost p).
Definition setPc p t pc := mkPool (freeList_ p) (freeCount_ p) (returnQueue_ p) (allocatedCount_ p) (cachedCount_ p) (chunks_ p) (caches p) (nextBlock p) (<[t := pc]> (pcs p)) (inUse p) (lost p).
Definition setInUse p l := mkPool (freeList_ p) (freeCount_ p) (returnQueue_ p) (allocatedCount_ p) (cachedCount_ p) (chunks_ p) (caches p) (nextBlock p) (pcs p) l (lost p).
Definition setLost p l := mkPool (freeList_ p) (freeCount_ p) (returnQueue_ p) (allocatedCount_ p) (cachedCount_ p) (chunks_ p) (caches p) (nextBlock p) (pcs p) (inUse p) l.

Definition pcOf (p : MemoryPool) (t : Thread) : Pc := default Outside (pcs p !! t).
Definition threadCache (p : MemoryPool) (t : Thread) : ThreadCache := default emptyCache (caches p !! t).

(** ** Growth *)

(** [expandPoolUnlocked]: the blocks are linked into the free list before the chunk is
    entered in [chunks_]; when the entry fails the chunk is released.  The flag is false
    when [std::bad_alloc] leaves the function. *)
Definition expandPoolUnlocked (p : MemoryPool) (n : nat) (m : Memory) : MemoryPool * bool :=
  match m with
  | NoChunk => (p, false)
  | _ =>
      let chunk := seq (nextBlock p) n in
      let p := setFree p (rev chunk ++ freeList_ p) (freeCount_ p + Z.of_nat n) in
      match m with
      | NoEntry => (setChunks p (chunks_ p) (nextBlock p + n), false)
      | _ => (setChunks p (chunks_ p ++ [chunk]) (nextBlock p + n), true)
      end
  end.

Definition warmUp (p : MemoryPool) (n : nat) (m : Memory) : MemoryPool :=
  if (n =? 0)%nat then p else (expandPoolUnlocked p n m).1.

(** ** allocate *)

(** [while (freeList_ != nullptr && taken < kLocalCacheRefill)] with [k] blocks to go. *)
Fixpoint refill (k : nat) (p : MemoryPool) (t : Thread) : MemoryPool :=
  match k, freeList_ p with
  | S k, b :: rest =>
      let c := threadCache p t in
      let p := setFree p rest (freeCount_ p - 1) in
      let p := setCache p t (mkCache (b :: head c) (count c + 1)) in
      refill k (setCounts p (allocatedCount_ p) (cachedCount_ p + 1)) t
  | _, _ => p
  end.

(** The head of the thread cache, if there is one. *)
Definition popCache (p : MemoryPool) (t : Thread) : MemoryPool * option Block :=
  let c := threadCache p t in
  match head c with
  | [] => (p, None)
  | b :: rest => (setCache p t (mkCache rest (count c - 1)), Some b)
  end.

Definition growCount (p : MemoryPool) : nat :=
  let currentTotal := allocatedCount_ p + freeCount_ p in
  Z.to_nat (if currentTotal =? 0 then 32 else currentTotal / 2 + 1).

(** The section of [allocate] under the lock; [false] is [return nullptr]. *)
Definition refillLocked (p : MemoryPool) (t : Thread) (m : Memory) : MemoryPool * bool :=
  let '(p, ok) :=
    match freeList_ p with
    | [] => expandPoolUnlocked p (growCount p) m
    | _ => (p, true)
    end in
  if ok then (refill kLocalCacheRefill p t, true) else (p, false).

(** [allocate] after [drainReturnQueue], up to the counters. *)
Definition takeBlock (p : MemoryPool) (t : Thread) (m : Memory) : MemoryPool * option Block :=
  match head (threadCache p t) with
  | _ :: _ => popCache p t
  | [] => let '(p, ok) := refillLocked p t m in if ok then popCache p t else (p, None)
  end.

(** ** deallocate *)

(** The chain the drain loop builds out of the [n] first blocks of the cache. *)
Definition drainedChain (c : ThreadCache) (n : nat) : list Block := rev (take n (head c)).

Definition prepend (p : MemoryPool) (chain : list Block) : MemoryPool :=
  setFree p (chain ++ freeList_ p) (freeCount_ p + zlen chain).

Definition pushCache (p : MemoryPool) (t : Thread) (b : Block) : MemoryPool :=
  let c := threadCache p t in setCache p t (mkCache (b :: head c) (count c + 1)).

(** The overflow test, and the chain taken out of the cache. *)
Definition checkOverflow (p : MemoryPool) (t : Thread) : MemoryPool :=
  let c := threadCache p t in
  if kLocalCacheDrainThreshold <? count c then
    let n := count c / 2 in
    setPc (setCache p t (mkCache (drop (Z.to_nat n) (head c)) (count c - n))) t (Overflowing (drainedChain c (Z.to_nat n)))
  else setPc p t Outside.

(** The block leaves the caller's hands: [allocatedCount_.fetch_sub(1)]. *)
Definition giveBack (p : MemoryPool) (b : Block) : MemoryPool :=
  setCounts (setInUse p (filter (.≠ b) (inUse p))) (allocatedCount_ p - 1) (cachedCount_ p).

(** ** Steps *)

Inductive Label :=
  | LWarmUp (n : nat) (m : Memory)
  | LAllocate (t : Thread)               (* drainReturnQueue: the exchange *)
  | LAppend (t : Thread)                 (* drainReturnQueue: under the lock *)
  | LTake (t : Thread) (m : Memory)      (* the cache and the refill *)
  | LUncache (t : Thread)                (* cachedCount_.fetch_sub(1) *)
  | LHandOut (t : Thread)                (* allocatedCount_.fetch_add(1), return *)
  | LDeallocate (t : Thread) (b : Block) (* allocatedCount_.fetch_sub(1) *)
  | LPush (t : Thread)                   (* the cache *)
  | LCache (t : Thread)                  (* cachedCount_.fetch_add(1), the overflow test *)
  | LOverflow (t : Thread)               (* the overflow, under the lock *)
  | LReturn (t : Thread) (b : Block)     (* deallocateFromOtherThread: allocatedCount_.fetch_sub(1) *)
  | LSend (t : Thread)                   (* the exchange that succeeds *)
  | LExit (t : Thread).                  (* the end of the thread *)

(** The step and, for [LHandOut], what [allocate] returns. *)
Definition execute (p : MemoryPool) (l : Label) : option (MemoryPool * option Block) :=
  match l with
  | LWarmUp n m => Some (warmUp p n m, None)
  | LAllocate t =>
      if pcOf p t is Outside then
        match returnQueue_ p with
        | [] => Some (setPc p t Allocating, None)
        | chain => Some (setPc (setQueue p []) t (Returning chain), None)
        end
      else None
  | LAppend t =>
      if pcOf p t is Returning chain then Some (setPc (prepend p chain) t Allocating, None) else None
  | LTake t m =>
      if pcOf p t is Allocating then
        let '(p, b) := takeBlock p t m in Some (setPc p t (if b is Some b then Popped b else Outside), None)
      else None
  | LUncache t =>
      if pcOf p t is Popped b then Some (setPc (setCounts p (allocatedCount_ p) (cachedCount_ p - 1)) t (Uncached b), None) else None
  | LHandOut t =>
      if pcOf p t is Uncached b
      then Some (setPc (setInUse (setCounts p (allocatedCount_ p + 1) (cachedCount_ p)) (b :: inUse p)) t Outside, Some b) else None
  | LDeallocate t b =>
      if pcOf p t is Outside then
        if negb (bool_decide (b ∈ inUse p)) then None else Some (setPc (giveBack p b) t (Freeing b), None)
      else None
  | LPush t => if pcOf p t is Freeing b then Some (setPc (pushCache p t b) t (Pushed b), None) else None
  | LCache t =>
      if pcOf p t is Pushed _ then Some (checkOverflow (setCounts p (allocatedCount_ p) (cachedCount_ p + 1)) t, None) else None
  | LOverflow t =>
      if pcOf p t is Overflowing chain then
        let p := prepend p chain in
        Some (setPc (setCounts p (allocatedCount_ p) (cachedCount_ p - zlen chain)) t Outside, None)
      else None
  | LReturn t b =>
      if pcOf p t is Outside then
        if negb (bool_decide (b ∈ inUse p)) then None else Some (setPc (giveBack p b) t (Sending b), None)
      else None
  | LSend t => if pcOf p t is Sending b then Some (setPc (setQueue p (b :: returnQueue_ p)) t Outside, None) else None
  | LExit t =>
      if pcOf p t is Outside then Some (setLost (setCache p t emptyCache) (head (threadCache p t) ++ lost p), None) else None
  end.

Record MemoryPoolStats := mkStats { st_allocated : Z; st_free : Z; st_total : Z }.

(** What [getStats] returns when no counter changes between its reads. *)
Definition getStats (p : MemoryPool) : MemoryPoolStats :=
  let allocated := allocatedCount_ p in
  let cached := cachedCount_ p in
  mkStats allocated (freeCount_ p + cached) (allocated + freeCount_ p + cached).

Definition emptyPool : MemoryPool := mkPool [] 0 [] 0 0 [] ∅ 0 ∅ [] [].

(** Steps in which the entry of a new chunk does not fail, and the pools they reach. *)
Definition chunksKept (l : Label) : Prop :=
  match l with LWarmUp _ NoEntry | LTake _ NoEntry => False | _ => True end.

Inductive reachable : MemoryPool -> Prop :=
  | reach_empty : reachable emptyPool
  | reach_step p l p' r : reachable p -> chunksKept l -> execute p l = Some (p', r) -> reachable p'.

(** ** Counting occurrences *)

Abbreviation occ := (count_occ Nat.eq_dec).

Lemma perm_occ l k : l ≡ₚ k <-> ∀ b, occ l b = occ k b.
Proof. apply Permutation_count_occ. Qed.

(** The blocks held in the values of a map. *)
Definition gather {V} (f : V -> list Block) (m : gmap Thread V) : list Block := concat ((fun kv => f kv.2) <$> map_to_list m).

Lemma gather_perm {V} (f : V -> list Block) (l k : list (Thread * V)) :
  l ≡ₚ k -> concat ((fun kv => f kv.2) <$> l) ≡ₚ concat ((fun kv => f kv.2) <$> k).
Proof.
  induction 1; cbn; [done | by apply Permutation_app_head | apply Permutation_app_swap_app | by etrans].
Qed.

Lemma gather_insert {V} (f : V -> list Block) m t v b :
  (occ (gather f (<[t := v]> m)) b + occ (default [] (f <$> m !! t)) b = occ (gather f m) b + occ (f v) b)%nat.
Proof.
  unfold gather. rewrite <- insert_delete_eq.
  assert (H1 := proj1 (perm_occ _ _) (gather_perm f _ _ (map_to_list_insert (delete t m) t v (lookup_delete_eq _ _))) b).
  rewrite H1. cbn [fmap list_fmap concat snd]. rewrite count_occ_app.
  destruct (m !! t) as [w|] eqn:E; cbn [fmap option_fmap option_map default].
  - assert (H2 := proj1 (perm_occ _ _) (gather_perm f _ _ (map_to_list_delete m t w E)) b).
    cbn [fmap list_fmap concat snd] in H2. rewrite count_occ_app in H2. unfold id. lia.
  - rewrite delete_id by done. cbn. lia.
Qed.

Lemma gather_length {V} (f : V -> list Block) m t v :
  zlen (gather f (<[t := v]> m)) = zlen (gather f m) + zlen (f v) - zlen (default [] (f <$> m !! t)).
Proof.
  assert (H : gather f (<[t := v]> m) ++ default [] (f <$> m !! t) ≡ₚ gather f m ++ f v).
  { apply perm_occ. intros b. rewrite !count_occ_app. apply gather_insert. }
  assert (H' : zlen (gather f (<[t := v]> m) ++ default [] (f <$> m !! t)) = zlen (gather f m ++ f v)) by (by rewrite H).
  rewrite !zlen_app in H'. lia.
Qed.

(** ** The invariant *)

(** Blocks in the hands of a call; those of them [cachedCount_] still counts; and blocks in a cache
    it does not count yet. *)
Definition held (pc : Pc) : list Block :=
  match pc with
  | Returning c | Overflowing c => c
  | Popped b | Uncached b | Freeing b | Sending b => [b]
  | _ => []
  end.
Definition ahead (pc : Pc) : list Block := match pc with Overflowing c => c | Popped b => [b] | _ => [] end.
Definition behind (pc : Pc) : list Block := match pc with Pushed b => [b] | _ => [] end.

(** Everything the pool knows of, in one list. *)
Definition allBlocks (p : MemoryPool) : list Block :=
  freeList_ p ++ returnQueue_ p ++ gather held (pcs p) ++ gather head (caches p) ++ inUse p ++ lost p.

Record poolInv (p : MemoryPool) : Prop := {
  mp_blocks : allBlocks p ≡ₚ seq 0 (nextBlock p);
  mp_chunks : concat (chunks_ p) = seq 0 (nextBlock p);
  mp_free : freeCount_ p = zlen (freeList_ p);
  mp_allocated : allocatedCount_ p = zlen (inUse p);
  mp_cached : cachedCount_ p = zlen (gather head (caches p)) + zlen (lost p) + zlen (gather ahead (pcs p)) - zlen (gather behind (pcs p));
  mp_counts : map_Forall (fun _ c => count c = zlen (head c)) (caches p)
}.

(** The places of a block. *)
Definition places (p : MemoryPool) (b : Block) : nat :=
  occ (freeList_ p) b + occ (returnQueue_ p) b + occ (gather held (pcs p)) b + occ (gather head (caches p)) b + occ (inUse p) b + occ (lost p) b.

Lemma blocks_places p : allBlocks p ≡ₚ seq 0 (nextBlock p) <-> ∀ b, places p b = occ (seq 0 (nextBlock p)) b.
Proof. rewrite perm_occ. unfold allBlocks, places. split; intros H b; specialize (H b); rewrite ?count_occ_app in *; lia. Qed.

Lemma occ_rev l b : occ (rev l) b = occ l b.
Proof. apply perm_occ. symmetry. apply Permutation_rev. Qed.

Lemma occ_split x l b : occ (x :: l) b = (occ [x] b + occ l b)%nat.
Proof. by rewrite (count_occ_app _ [x] l). Qed.

(** A thread's cache is replaced, and its place in a call. *)
Lemma caches_occ p t c b : (occ (gather head (<[t := c]> (caches p))) b + occ (head (threadCache p t)) b = occ (gather head (caches p)) b + occ (head c) b)%nat.
Proof. pose proof (gather_insert head (caches p) t c b) as H. unfold threadCache. by destruct (caches p !! t). Qed.

Lemma cache_zlen p t c : zlen (gather head (<[t := c]> (caches p))) = zlen (gather head (caches p)) + zlen (head c) - zlen (head (threadCache p t)).
Proof. rewrite gather_length. unfold threadCache. by destruct (caches p !! t). Qed.

Lemma pc_occ f p t pc b : f Outside = [] -> (occ (gather f (<[t := pc]> (pcs p))) b + occ (f (pcOf p t)) b = occ (gather f (pcs p)) b + occ (f pc) b)%nat.
Proof. intros E. pose proof (gather_insert f (pcs p) t pc b) as H. unfold pcOf. destruct (pcs p !! t); cbn in *; by rewrite ?E. Qed.

Lemma pc_zlen f p t pc : f Outside = [] -> zlen (gather f (<[t := pc]> (pcs p))) = zlen (gather f (pcs p)) + zlen (f pc) - zlen (f (pcOf p t)).
Proof. intros E. rewrite gather_length. unfold pcOf. destruct (pcs p !! t); cbn; by rewrite ?E. Qed.

Lemma threadCache_count p t : poolInv p -> count (threadCache p t) = zlen (head (threadCache p t)).
Proof. intros H. unfold threadCache. destruct (caches p !! t) eqn:E; [by apply (mp_counts _ H t) | done]. Qed.

(** The blocks that exist are told apart. *)
Lemma blocks_NoDup p : poolInv p -> NoDup (allBlocks p).
Proof. intros H. rewrite (mp_blocks _ H). apply NoDup_seq. Qed.

(** A block that is in a call's hands is in nobody's use. *)
Lemma held_unused p t b : poolInv p -> b ∈ held (pcOf p t) -> (b ∉ inUse p) ∧ b ∈ seq 0 (nextBlock p).
Proof.
  intros Hp Hin. pose proof (pc_occ held p t Outside b eq_refl) as Hg. cbn [held] in Hg.
  assert (Hb : (0 < occ (held (pcOf p t)) b)%nat) by (by apply count_occ_In, list_elem_of_In).
  pose proof (proj1 (blocks_places p) (mp_blocks _ Hp) b) as Hpl. unfold places in Hpl. cbn in Hg.
  pose proof (proj1 (NoDup_count_occ Nat.eq_dec _) (proj1 (NoDup_ListNoDup _) (NoDup_seq 0 (nextBlock p))) b).
  split.
  - intros Hu. apply list_elem_of_In, (count_occ_In Nat.eq_dec) in Hu. lia.
  - apply list_elem_of_In, (count_occ_In Nat.eq_dec). lia.
Qed.

Lemma inUse_remove p b : poolInv p -> b ∈ inUse p -> inUse p ≡ₚ b :: filter (.≠ b) (inUse p).
Proof.
  intros H Hin. pose proof (blocks_NoDup p H) as Hnd. unfold allBlocks in Hnd.
  do 4 (apply NoDup_app in Hnd as (_ & _ & Hnd)). apply NoDup_app in Hnd as (Hnd & _ & _).
  apply list_elem_of_split in Hin as (l & k & Hlk). rewrite Hlk in *. rewrite NoDup_app, NoDup_cons in Hnd.
  destruct Hnd as (_ & Hd & Hb & _).
  rewrite filter_app, filter_cons_False by (by intros ?).
  assert (Hid : ∀ q : list nat, b ∉ q -> filter (.≠ b) q = q).
  { induction q as [|x q IH]; intros Hq; [done|]. apply not_elem_of_cons in Hq as [? ?].
    rewrite filter_cons_True by done. by rewrite IH. }
  rewrite !Hid; [by rewrite Permutation_middle | done|]. intros Hl. apply (Hd b Hl). by left.
Qed.

(** ** Every step keeps it *)

(** The lists and counters of the new state, from those of the old one. *)
Ltac opened := cbn [freeList_ freeCount_ returnQueue_ allocatedCount_ cachedCount_ chunks_ caches nextBlock pcs inUse lost fst snd
  setFree setQueue setCounts setChunks setCache setPc setInUse setLost].

Lemma inv_expand p n m : m ≠ NoEntry -> poolInv p -> poolInv (expandPoolUnlocked p n m).1.
Proof.
  intros Hm Hp. pose proof Hp as [Hb Hc Hf Ha Hca Hco]. destruct m; [|done|done]. split; try done.
  - apply blocks_places. intros b. pose proof (proj1 (blocks_places p) Hb b) as H. unfold places, expandPoolUnlocked in *. opened.
    rewrite count_occ_app, occ_rev, seq_app, count_occ_app, Nat.add_0_l. lia.
  - cbn [fst expandPoolUnlocked chunks_ setChunks setFree nextBlock]. rewrite concat_app, Hc, seq_app. cbn [concat].
    by rewrite app_nil_r.
  - cbn [fst expandPoolUnlocked freeCount_ setChunks setFree freeList_].
    rewrite zlen_app, Hf. unfold zlen. rewrite length_rev, length_seq. lia.
Qed.

(** A thread's cache changes, with the free list and the counters. *)
Lemma inv_cache p t c l n k :
  poolInv p -> (∀ b, (occ l b + occ (head c) b = occ (freeList_ p) b + occ (head (threadCache p t)) b)%nat) -> n = zlen l -> count c = zlen (head c) ->
  k = zlen (head c) - zlen (head (threadCache p t)) ->
  poolInv (setCounts (setCache (setFree p l n) t c) (allocatedCount_ p) (cachedCount_ p + k)).
Proof.
  intros [Hb Hc Hf Ha Hca Hco] Hl -> Hn ->. split; try done.
  - apply blocks_places. intros b. pose proof (proj1 (blocks_places p) Hb b) as H. unfold places in *. opened.
    pose proof (caches_occ p t c b). specialize (Hl b). lia.
  - opened. rewrite cache_zlen. lia.
  - opened. by apply map_Forall_insert_2.
Qed.

Lemma inv_refill k t : ∀ p, poolInv p -> poolInv (refill k p t).
Proof.
  induction k as [|k IH]; intros p Hp; [done|]. cbn [refill]. destruct (freeList_ p) as [|x rest] eqn:E; [done|].
  apply IH. pose proof (threadCache_count p t Hp) as Ht. change (threadCache (setFree p rest (freeCount_ p - 1)) t) with (threadCache p t).
  refine (inv_cache p t _ rest (freeCount_ p - 1) 1 Hp _ _ _ _); cbn [head count]; rewrite ?zlen_cons, ?(mp_free _ Hp), ?E, ?zlen_cons; try lia.
  intros b. rewrite (occ_split x (head _)), (occ_split x rest). lia.
Qed.

(** A step that adds no chunk: the blocks change places. *)
Lemma pool_inv_step p p' :
  poolInv p -> chunks_ p' = chunks_ p -> nextBlock p' = nextBlock p -> (∀ b, places p' b = places p b) ->
  freeCount_ p' = zlen (freeList_ p') -> allocatedCount_ p' = zlen (inUse p') ->
  cachedCount_ p' = zlen (gather head (caches p')) + zlen (lost p') + zlen (gather ahead (pcs p')) - zlen (gather behind (pcs p')) ->
  map_Forall (fun _ c => count c = zlen (head c)) (caches p') -> poolInv p'.
Proof.
  intros [Hb Hc _ _ _ _] E1 E2 Hp Hf Ha Hca Hco. split; try done; [|by rewrite E1, E2].
  apply blocks_places. intros b. rewrite Hp, E2. by apply blocks_places.
Qed.

Lemma occ_nil (b : Block) : occ [] b = 0%nat.
Proof. done. Qed.

(** [accounts] closes what [pool_inv_step] asks for when thread [t] of [p] is at [E] and goes to [pc]. *)
Ltac accounts p t pc E :=
  lazymatch goal with
  | |- ∀ _, places _ _ = _ =>
      let b := fresh "b" in let H := fresh "Hpc" in
      intros b; unfold places; pose proof (pc_occ held p t pc b eq_refl) as H; rewrite E in H; cbn [held] in H; rewrite ?occ_nil in H
  | _ => idtac
  end;
  unfold pushCache, prepend, giveBack; opened;
  rewrite ?(pc_zlen ahead p t pc eq_refl), ?(pc_zlen behind p t pc eq_refl), ?E; cbn [ahead behind];
  rewrite ?zlen_app, ?zlen_cons, ?zlen_nil, ?count_occ_app; try lia.

Lemma refill_pcs k t : ∀ p, pcs (refill k p t) = pcs p.
Proof.
  induction k as [|k IH]; intros p; [done|]. cbn [refill]. destruct (freeList_ p); [done|]. by rewrite IH.
Qed.

Lemma expand_pcs p n m : pcs (expandPoolUnlocked p n m).1 = pcs p.
Proof. by destruct m. Qed.

Lemma inv_takeBlock p t m p' r : m ≠ NoEntry -> poolInv p -> pcOf p t = Allocating -> takeBlock p t m = (p', r) ->
  poolInv (setPc p' t (if r is Some b then Popped b else Outside)).
Proof.
  intros Hm Hp Hpc.
  assert (Hpop : ∀ q q' r, poolInv q -> pcOf q t = Allocating -> popCache q t = (q', r) -> poolInv (setPc q' t (if r is Some b then Popped b else Outside))).
  { intros q q' r' Hq Eq. pose proof (threadCache_count q t Hq) as Ht. unfold popCache. destruct (head (threadCache q t)) as [|x rest] eqn:E; intros [= <- <-].
    - pose proof Hq as [_ _ Hf Ha Hca Hco]. apply (pool_inv_step q); try done; accounts q t Outside Eq.
    - pose proof Hq as [_ _ Hf Ha Hca Hco]. apply (pool_inv_step q); try done; accounts q t (Popped x) Eq.
      + pose proof (caches_occ q t (mkCache rest (count (threadCache q t) - 1)) b) as Hc. rewrite E in Hc. cbn [head] in Hc. rewrite (occ_split x rest) in Hc. lia.
      + rewrite cache_zlen, E. cbn [head]. rewrite zlen_cons. lia.
      + apply map_Forall_insert_2; [cbn; rewrite Ht, zlen_cons; lia | done]. }
  unfold takeBlock. destruct (head (threadCache p t)) eqn:E; [|by intros H; apply (Hpop p p' r)].
  unfold refillLocked. destruct (freeList_ p) eqn:Ef.
  - pose proof (inv_expand p (growCount p) m Hm Hp) as He. pose proof (expand_pcs p (growCount p) m) as F.
    destruct (expandPoolUnlocked p (growCount p) m) as [q [|]]; cbn [fst] in *; intros H.
    + eapply Hpop; [by apply inv_refill | unfold pcOf; by rewrite refill_pcs, F | exact H].
    + injection H as <- <-. pose proof He as [_ _ Hf Ha Hca Hco]. assert (Eq : pcOf q t = Allocating) by (unfold pcOf; by rewrite F).
      apply (pool_inv_step q); try done; accounts q t Outside Eq.
  - intros H. eapply Hpop; [by apply inv_refill | unfold pcOf; by rewrite refill_pcs | exact H].
Qed.

Lemma inv_drain p t p' r : poolInv p -> execute p (LAllocate t) = Some (p', r) ∨ execute p (LAppend t) = Some (p', r) -> poolInv p' ∧ r = None.
Proof.
  intros Hp Hs. pose proof Hp as [_ _ Hf Ha Hca Hco]. cbn [execute] in Hs. destruct (pcOf p t) as [|chain| | | | | | |] eqn:E; try (destruct Hs; discriminate); destruct Hs as [Hs|Hs]; try discriminate.
  - destruct (returnQueue_ p) as [|x chain] eqn:Eq; injection Hs as <- <-; (split; [|done]).
    + apply (pool_inv_step p); try done; accounts p t Allocating E.
    + apply (pool_inv_step p); try done; accounts p t (Returning (x :: chain)) E. rewrite Eq, occ_nil. lia.
  - injection Hs as <- <-. split; [|done]. apply (pool_inv_step p); try done; accounts p t Allocating E.
Qed.

Lemma inv_hand p t p' r : poolInv p -> execute p (LUncache t) = Some (p', r) ∨ execute p (LHandOut t) = Some (p', r) ->
  poolInv p' ∧ match r with Some b => b ∈ held (pcOf p t) ∧ chunks_ p' = chunks_ p | None => True end.
Proof.
  intros Hp Hs. pose proof Hp as [_ _ Hf Ha Hca Hco]. cbn [execute] in Hs. destruct (pcOf p t) as [| | |b|b| | | |] eqn:E; try (destruct Hs; discriminate); destruct Hs as [Hs|Hs]; try discriminate;
    injection Hs as <- <-; (split; [|first [done | split; [by left|done]]]).
  - apply (pool_inv_step p); try done; accounts p t (Uncached b) E.
  - apply (pool_inv_step p); try done; accounts p t Outside E. rewrite (occ_split b (inUse p)). lia.
Qed.

Lemma inv_giveBack p t b p' r : poolInv p -> execute p (LDeallocate t b) = Some (p', r) ∨ execute p (LReturn t b) = Some (p', r) -> poolInv p' ∧ r = None.
Proof.
  intros Hp Hs. pose proof Hp as [_ _ Hf Ha Hca Hco]. cbn [execute] in Hs. destruct (pcOf p t) eqn:E; try (destruct Hs; discriminate).
  destruct (bool_decide_reflect (b ∈ inUse p)) as [Hin|]; [|destruct Hs; discriminate]. pose proof (inUse_remove p b Hp Hin) as Hrem.
  assert (Hz : zlen (inUse p) = zlen (filter (.≠ b) (inUse p)) + 1) by (rewrite Hrem at 1; rewrite zlen_cons; lia).
  destruct Hs as [[= <- <-]|[= <- <-]]; (split; [|done]).
  - apply (pool_inv_step p); try done; accounts p t (Freeing b) E. pose proof (proj1 (perm_occ _ _) Hrem b0) as Ho. rewrite occ_split in Ho. lia.
  - apply (pool_inv_step p); try done; accounts p t (Sending b) E. pose proof (proj1 (perm_occ _ _) Hrem b0) as Ho. rewrite occ_split in Ho. lia.
Qed.

Lemma inv_push p t p' r : poolInv p -> execute p (LPush t) = Some (p', r) -> poolInv p' ∧ r = None.
Proof.
  intros Hp Hs. pose proof Hp as [_ _ Hf Ha Hca Hco]. pose proof (threadCache_count p t Hp) as Ht. cbn [execute] in Hs. destruct (pcOf p t) as [| | | | |b| | |] eqn:E; try done.
  injection Hs as <- <-. split; [|done]. apply (pool_inv_step p); try done; accounts p t (Pushed b) E.
  - pose proof (caches_occ p t (mkCache (b :: head (threadCache p t)) (count (threadCache p t) + 1)) b0) as Hc. cbn [head] in Hc. rewrite (occ_split b (head _)) in Hc. lia.
  - rewrite cache_zlen. cbn [head]. rewrite zlen_cons. lia.
  - apply map_Forall_insert_2; [cbn; rewrite Ht, zlen_cons; lia | done].
Qed.

(** The overflow test splits the cache in two. *)
Lemma inv_count p t p' r : poolInv p -> execute p (LCache t) = Some (p', r) -> poolInv p' ∧ r = None.
Proof.
  intros Hp Hs. pose proof Hp as [_ _ Hf Ha Hca Hco]. pose proof (threadCache_count p t Hp) as Ht. cbn [execute] in Hs. destruct (pcOf p t) as [| | | | | |b| |] eqn:E; try done.
  injection Hs as <- <-. split; [|done]. unfold checkOverflow. change (threadCache (setCounts _ _ _) t) with (threadCache p t). set (c := threadCache p t) in *.
  destruct (_ <? count c); [|apply (pool_inv_step p); try done; accounts p t Outside E].
  set (n := count c / 2). assert (Hn : 0 <= n <= zlen (head c)) by (unfold n; rewrite Ht; pose proof (zlen_nonneg (head c)); zlia).
  assert (Hd : zlen (drainedChain c (Z.to_nat n)) = n ∧ zlen (drop (Z.to_nat n) (head c)) = zlen (head c) - n).
  { unfold drainedChain, zlen in *. rewrite length_rev, length_take, length_drop. lia. }
  destruct Hd as [Hd1 Hd2]. apply (pool_inv_step p); try done; accounts p t (Overflowing (drainedChain c (Z.to_nat n))) E.
  - pose proof (caches_occ p t (mkCache (drop (Z.to_nat n) (head c)) (count c - n)) b0) as Hc. fold c in Hc. cbn [head] in Hc.
    pose proof (f_equal (fun l => occ l b0) (take_drop (Z.to_nat n) (head c))) as Htd. cbn beta in Htd. rewrite count_occ_app in Htd.
    unfold drainedChain in Hpc. rewrite occ_rev in Hpc. unfold drainedChain. lia.
  - rewrite cache_zlen. fold c. cbn [head]. lia.
  - apply map_Forall_insert_2; [cbn; lia | done].
Qed.

Lemma inv_back p t p' r : poolInv p -> execute p (LOverflow t) = Some (p', r) ∨ execute p (LSend t) = Some (p', r) -> poolInv p' ∧ r = None.
Proof.
  intros Hp Hs. pose proof Hp as [_ _ Hf Ha Hca Hco]. cbn [execute] in Hs. destruct (pcOf p t) as [| | | | | | |chain|b] eqn:E; try (destruct Hs; discriminate); destruct Hs as [Hs|Hs]; try discriminate;
    injection Hs as <- <-; (split; [|done]).
  - apply (pool_inv_step p); try done; accounts p t Outside E.
  - apply (pool_inv_step p); try done; accounts p t Outside E. rewrite (occ_split b (returnQueue_ p)). lia.
Qed.

Lemma inv_exit p t p' r : poolInv p -> execute p (LExit t) = Some (p', r) -> poolInv p' ∧ r = None.
Proof.
  intros Hp Hs. pose proof Hp as [_ _ Hf Ha Hca Hco]. cbn [execute] in Hs. destruct (pcOf p t) eqn:E; try done. injection Hs as <- <-. split; [|done].
  apply (pool_inv_step p); try done; opened.
  - intros b. unfold places. opened. pose proof (caches_occ p t emptyCache b) as Hc. cbn [head emptyCache] in Hc. rewrite occ_nil in Hc. rewrite count_occ_app. lia.
  - rewrite cache_zlen, zlen_app. cbn [head emptyCache]. rewrite zlen_nil. lia.
  - by apply map_Forall_insert_2.
Qed.

Lemma pool_step p l p' r : poolInv p -> chunksKept l -> execute p l = Some (p', r) ->
  poolInv p' ∧ match r with Some b => (b ∉ inUse p) ∧ b ∈ concat (chunks_ p') | None => True end.
Proof.
  intros Hp Hl Hs. destruct l;
    try (match goal with
         | H : execute p (LUncache _) = _ |- _ => destruct (inv_hand p t p' r Hp) as [Hi Hr]; [by left|]
         | H : execute p (LHandOut _) = _ |- _ => destruct (inv_hand p t p' r Hp) as [Hi Hr]; [by right|]
         end; split; [done|]; destruct r as [b|]; [|done]; destruct Hr as [Hh Hc]; destruct (held_unused p t b Hp Hh); rewrite Hc, (mp_chunks _ Hp); done).
  - cbn in Hs. injection Hs as <- <-. split; [|done]. unfold warmUp. destruct (_ =? 0)%nat; [done|]. apply inv_expand; [by destruct m|done].
  - destruct (inv_drain p t p' r Hp) as [? ->]; auto.
  - destruct (inv_drain p t p' r Hp) as [? ->]; auto.
  - cbn [execute] in Hs. destruct (pcOf p t) eqn:Epc; try done. destruct (takeBlock p t m) as [q r'] eqn:Et. injection Hs as <- <-.
    split; [|done]. by apply (inv_takeBlock p t m q r' ltac:(by destruct m)).
  - destruct (inv_giveBack p t b p' r Hp) as [? ->]; auto.
  - destruct (inv_push p t p' r Hp) as [? ->]; auto.
  - destruct (inv_count p t p' r Hp) as [? ->]; auto.
  - destruct (inv_back p t p' r Hp) as [? ->]; auto.
  - destruct (inv_giveBack p t b p' r Hp) as [? ->]; auto.
  - destruct (inv_back p t p' r Hp) as [? ->]; auto.
  - destruct (inv_exit p t p' r Hp) as [? ->]; auto.
Qed.

Lemma pool_reachable p : reachable p -> poolInv p.
Proof. induction 1 as [|p l p' r _ IH Hl Hs]; [by split|]. by eapply pool_step. Qed.

(** Blocks in the hands of a call that no counter counts. *)
Definition uncounted (pc : Pc) : list Block :=
  match pc with Returning c => c | Uncached b | Freeing b | Pushed b | Sending b => [b] | _ => [] end.

Lemma held_split (m : gmap Thread Pc) :
  zlen (gather held m) + zlen (gather behind m) = zlen (gather uncounted m) + zlen (gather ahead m).
Proof.
  unfold gather. induction (map_to_list m) as [|[t pc] l IH]; [done|]. cbn [fmap list_fmap concat snd]. rewrite !zlen_app.
  destruct pc; cbn; rewrite ?zlen_cons, ?zlen_nil; lia.
Qed.

(** ** Properties *)

(** C25. Under every interleaving of allocations, deallocations, returns from other threads and
    ends of threads, counter by counter, and when memory for chunks runs out, as long as
    [chunks_] itself can be extended: every block of every chunk is in exactly one place
    (free list, return queue, the hands of a call, a thread's cache, in use, or lost with the
    cache of a thread that has ended), and what [allocate] returns was in nobody's use and
    belongs to a chunk the pool keeps.  [freeCount_] and [allocatedCount_] are exact;
    [cachedCount_] counts the caches, those of threads that have ended included, up to what
    the calls under way have still to adjust.  So [getStats] gives the blocks in use exactly,
    and its total leaves out exactly the return queue and what calls under way hold. *)
Theorem pool_blocks p :
  reachable p ->
  NoDup (concat (chunks_ p)) ∧ allBlocks p ≡ₚ concat (chunks_ p) ∧
  (∀ l p' b, chunksKept l -> execute p l = Some (p', Some b) -> (b ∉ inUse p) ∧ b ∈ concat (chunks_ p')) ∧
  freeCount_ p = zlen (freeList_ p) ∧
  cachedCount_ p = zlen (gather head (caches p)) + zlen (lost p) + zlen (gather ahead (pcs p)) - zlen (gather behind (pcs p)) ∧
  st_allocated (getStats p) = zlen (inUse p) ∧
  st_total (getStats p) = zlen (concat (chunks_ p)) - zlen (returnQueue_ p) - zlen (gather uncounted (pcs p)).
Proof.
  intros Hp%pool_reachable. pose proof Hp as [Hb Hc Hf Ha Hca _]. rewrite Hc. split_and!; try done.
  - apply NoDup_seq.
  - intros l p' b Hl Hs. apply (pool_step _ _ _ _ Hp Hl Hs).
  - rewrite <- Hb. unfold allBlocks, getStats. cbn [st_total]. rewrite !zlen_app, Ha, Hf, Hca. pose proof (held_split (pcs p)). lia.
Qed.

(** Two threads: one allocates, the other returns the block; then a third one ends. *)
Definition allocates (t : Thread) : list Label := [LAllocate t; LTake t Enough; LUncache t; LHandOut t].
Definition sampleSteps : list Label :=
  LWarmUp 40 Enough :: allocates 1 ++ allocates 2 ++ allocates 3 ++ [LReturn 2 24; LSend 2; LDeallocate 3 0; LPush 3; LCache 3; LExit 3; LAllocate 1].

Fixpoint steps (p : MemoryPool) (ls : list Label) : option MemoryPool :=
  match ls with [] => Some p | l :: ls => '(p, _) ← execute p l; steps p ls end.

Definition samplePool : MemoryPool := default emptyPool (steps emptyPool sampleSteps).

Lemma steps_reachable ls : ∀ p q, reachable p -> Forall chunksKept ls -> steps p ls = Some q -> reachable q.
Proof.
  induction ls as [|l ls IH]; intros p q Hp Hl; cbn; [by intros [= <-]|]. apply Forall_cons in Hl as [Hl Hls].
  destruct (execute p l) as [[p1 r]|] eqn:E; [|done]. cbn. apply IH; [by eapply reach_step | done].
Qed.

Lemma pool_blocks_witness :
  NoDup (concat (chunks_ samplePool)) ∧ allBlocks samplePool ≡ₚ concat (chunks_ samplePool) ∧
  (∀ l p' b, chunksKept l -> execute samplePool l = Some (p', Some b) -> (b ∉ inUse samplePool) ∧ b ∈ concat (chunks_ p')) ∧
  freeCount_ samplePool = zlen (freeList_ samplePool) ∧
  cachedCount_ samplePool = zlen (gather head (caches samplePool)) + zlen (lost samplePool) + zlen (gather ahead (pcs samplePool)) - zlen (gather behind (pcs samplePool)) ∧
  st_allocated (getStats samplePool) = zlen (inUse samplePool) ∧
  st_total (getStats samplePool) =
    zlen (concat (chunks_ samplePool)) - zlen (returnQueue_ samplePool) - zlen (gather uncounted (pcs samplePool)).
Proof.
  refine (pool_blocks samplePool (steps_reachable sampleSteps emptyPool samplePool reach_empty _ _)).
  - by repeat constructor.
  - vm_compute. reflexivity.
Defined.

(** The thread that ended has taken eight blocks with it, which the statistics still call free. *)
Example ended_thread_loses_blocks : zlen (lost samplePool) = 8 ∧ st_free (getStats samplePool) = 38.
Proof. by vm_compute. Qed.

(** A chunk whose entry in [chunks_] fails is released while its blocks stay in the free
    list: the next [allocate] returns a block of no chunk. *)
Example expand_dangles :
  match steps emptyPool [LAllocate 1; LTake 1 NoEntry; LAllocate 1; LTake 1 Enough; LUncache 1] with
  | Some p => match execute p (LHandOut 1) with
              | Some (p', Some b) => bool_decide (b ∈ concat (chunks_ p'))
              | _ => true
              end
  | None => true
  end = false.
Proof. vm_compute. reflexivity. Qed.
