(* ===== verification/BufferPool.v ===== *)
(** * The buffer pool (include/FastNet/MemoryPool.h, class BufferPool)

    Buffers are names; a [std::vector<uint8_t>] is its bytes and its capacity.  A step is a
    section under [returnQueueLock_] (a [SpinLock], see [SpinLock]) together with the work on
    the thread's own cache that follows it, cut where [allocateReservedBuffer] gives the lock
    up; every interleaving of steps is covered.  Failing allocations come with the step.  The
    owner of a buffer may write anything into it, also more than it was allocated with.  The
    vectors of a cache are lists with their back first. *)

From S2P Require Import Prelude MemoryPool.

Definition kSmallReserveSize : Z := 8192.
Definition kLargeReserveSize : Z := 65536.
Definition kSmallLimit : nat := 128.
Definition kLargeLimit : nat := 64.

Record VectorOf := mkVector { content : list byte; capacity : Z }.

Record Cache := mkCaches { smallBuffers : list nat; largeBuffers : list nat }.
Definition noBuffers : Cache := mkCaches [] [].

(** A thread in [allocateReservedBuffer] that has taken the returned buffers. *)
Record Taken := mkTaken { local : list nat; reserveSize : Z; initialSize : Z }.

Record BufferPool := mkBuffers {
  vectors : gmap nat VectorOf;
  returnedBuffers_ : list nat;
  localCaches : gmap nat Cache;
  pending : gmap nat Taken;
  owned : list nat;       (** buffers with a live [shared_ptr] *)
  deleted : list nat;
  nextBuffer : nat
}.

Definition setVectors x p := mkBuffers x (returnedBuffers_ p) (localCaches p) (pending p) (owned p) (deleted p) (nextBuffer p).
Definition setReturned x p := mkBuffers (vectors p) x (localCaches p) (pending p) (owned p) (deleted p) (nextBuffer p).
Definition setLocalCache t x p := mkBuffers (vectors p) (returnedBuffers_ p) (<[t := x]> (localCaches p)) (pending p) (owned p) (deleted p) (nextBuffer p).
Definition setTaken x p := mkBuffers (vectors p) (returnedBuffers_ p) (localCaches p) x (owned p) (deleted p) (nextBuffer p).
Definition setOwned x p := mkBuffers (vectors p) (returnedBuffers_ p) (localCaches p) (pending p) x (deleted p) (nextBuffer p).
Definition setDeleted x p := mkBuffers (vectors p) (returnedBuffers_ p) (localCaches p) (pending p) (owned p) x (nextBuffer p).

Definition localCache (p : BufferPool) (t : nat) : Cache := default noBuffers (localCaches p !! t).
Definition vectorOf (p : BufferPool) (b : nat) : VectorOf := default (mkVector [] 0) (vectors p !! b).

(** ** Vectors *)

Definition reserveTo (n : Z) (v : VectorOf) : VectorOf := mkVector (content v) (Z.max (capacity v) n).
Definition resizeTo (n : Z) (v : VectorOf) : VectorOf :=
  mkVector (take (Z.to_nat n) (content v) ++ replicate (Z.to_nat n - length (content v)) x00) (Z.max (capacity v) n).
Definition clearOf (v : VectorOf) : VectorOf := mkVector [] (capacity v).

(** [new Buffer()]. *)
Definition newBuffer (p : BufferPool) : BufferPool * nat :=
  let b := nextBuffer p in
  (mkBuffers (<[b := mkVector [] 0]> (vectors p)) (returnedBuffers_ p) (localCaches p) (pending p) (owned p) (deleted p) (S b), b).

Definition deleteBuffer (b : nat) (p : BufferPool) : BufferPool := setDeleted (b :: deleted p) p.

(** ** drainReturnQueue *)

Definition keepBuffer (t : nat) (p : BufferPool) (b : nat) : BufferPool :=
  let c := localCache p t in
  if (capacity (vectorOf p b) <=? kSmallReserveSize) && (length (smallBuffers c) <? kSmallLimit)%nat
  then setLocalCache t (mkCaches (b :: smallBuffers c) (largeBuffers c)) p
  else if (capacity (vectorOf p b) <=? kLargeReserveSize) && (length (largeBuffers c) <? kLargeLimit)%nat
  then setLocalCache t (mkCaches (smallBuffers c) (b :: largeBuffers c)) p
  else deleteBuffer b p.

Definition drainInto (t : nat) (buffers : list nat) (p : BufferPool) : BufferPool := foldl (keepBuffer t) p buffers.

(** ** allocateReservedBuffer *)

(** What an allocation meets: memory, none for the object, or none for its storage. *)
Inductive Memory := Enough | NoObject | NoStorage.

(** The buffer to use; [None] is [return nullptr]. *)
Definition takeBuffer (t : nat) (reserve : Z) (m : Memory) (p : BufferPool) : BufferPool * option nat :=
  let isSmall := reserve <=? kSmallReserveSize in
  let isLarge := negb isSmall && (reserve <=? kLargeReserveSize) in
  let c := localCache p t in
  match (if isSmall then smallBuffers c else []), (if isLarge then largeBuffers c else []) with
  | b :: rest, _ => (setLocalCache t (mkCaches rest (largeBuffers c)) p, Some b)
  | [], b :: rest => (setLocalCache t (mkCaches (smallBuffers c) rest) p, Some b)
  | [], [] => match m with NoObject => (p, None) | _ => let '(p, b) := newBuffer p in (p, Some b) end
  end.

Definition finishAllocate (t : nat) (k : Taken) (m : Memory) (p : BufferPool) : BufferPool * option nat :=
  let p := drainInto t (local k) (setTaken (delete t (pending p)) p) in
  match takeBuffer t (reserveSize k) m p with
  | (p, None) => (p, None)
  | (p, Some b) =>
      match m with
      | NoStorage => (deleteBuffer b p, None)
      | _ => let v := resizeTo (initialSize k) (reserveTo (reserveSize k) (vectorOf p b)) in
             (setOwned (b :: owned p) (setVectors (<[b := v]> (vectors p)) p), Some b)
      end
  end.

(** ** warmUp *)

(** One of its loops; [oks] tells which allocations succeed. *)
Fixpoint warmLoop (n : nat) (oks : list bool) (full : Cache -> bool) (add : nat -> Cache -> Cache) (size : Z) (t : nat) (p : BufferPool) : BufferPool :=
  match n, oks with
  | S n, true :: oks =>
      if full (localCache p t) then p
      else
        let '(p, b) := newBuffer p in
        let p := setVectors (<[b := reserveTo size (vectorOf p b)]> (vectors p)) p in
        warmLoop n oks full add size t (setLocalCache t (add b (localCache p t)) p)
  | _, _ => p
  end.

Definition warmUp (t : nat) (smallCount largeCount : nat) (smallOks largeOks : list bool) (p : BufferPool) : BufferPool :=
  let p := warmLoop smallCount smallOks (fun c => (kSmallLimit <=? length (smallBuffers c))%nat)
             (fun b c => mkCaches (b :: smallBuffers c) (largeBuffers c)) kSmallReserveSize t p in
  warmLoop largeCount largeOks (fun c => (kLargeLimit <=? length (largeBuffers c))%nat)
    (fun b c => mkCaches (smallBuffers c) (b :: largeBuffers c)) kLargeReserveSize t p.

(** ** Steps *)

Inductive Label :=
| BeginAllocate (t : nat) (reserve initial : Z)
| EndAllocate (t : nat) (m : Memory)
| Use (b : nat) (v : VectorOf)      (** the owner writes its buffer *)
| Release (b : nat) (pushed : bool)
| WarmUp (t : nat) (smallCount largeCount : nat) (smallOks largeOks : list bool)
| ThreadExit (t : nat).

Definition execute (p : BufferPool) (l : Label) : option (BufferPool * option nat) :=
  match l with
  | BeginAllocate t reserve initial =>
      match pending p !! t with
      | Some _ => None
      | None =>
          let reserve := if reserve <? initial then initial else reserve in
          Some (setTaken (<[t := mkTaken (returnedBuffers_ p) reserve initial]> (pending p)) (setReturned [] p), None)
      end
  | EndAllocate t m => k ← pending p !! t; Some (finishAllocate t k m p)
  | Use b v => if bool_decide (b ∈ owned p) then Some (setVectors (<[b := v]> (vectors p)) p, None) else None
  | Release b pushed =>
      if bool_decide (b ∈ owned p) then
        let p := setOwned (filter (.≠ b) (owned p)) (setVectors (<[b := clearOf (vectorOf p b)]> (vectors p)) p) in
        Some (if pushed then setReturned (returnedBuffers_ p ++ [b]) p else deleteBuffer b p, None)
      else None
  | WarmUp t smallCount largeCount smallOks largeOks =>
      match pending p !! t with Some _ => None | None => Some (warmUp t smallCount largeCount smallOks largeOks p, None) end
  | ThreadExit t =>
      match pending p !! t with
      | Some _ => None
      | None => let c := localCache p t in
                Some (setDeleted (smallBuffers c ++ largeBuffers c ++ deleted p) (setLocalCache t noBuffers p), None)
      end
  end.

Definition emptyBuffers : BufferPool := mkBuffers ∅ [] ∅ ∅ [] [] 0.

Inductive reachable : BufferPool -> Prop :=
| reach_none : reachable emptyBuffers
| reach_step p l p' r : reachable p -> execute p l = Some (p', r) -> reachable p'.

(** [getStats]. *)
Record BufferPoolStats := mkBufferStats { smallAllocated : Z; smallFree : Z; largeAllocated : Z; largeFree : Z }.
Definition getStats (t : nat) (p : BufferPool) : BufferPoolStats :=
  mkBufferStats 0 (zlen (smallBuffers (localCache p t))) 0 (zlen (largeBuffers (localCache p t))).

(** * Properties *)

Definition cachedIn (c : Cache) : list nat := smallBuffers c ++ largeBuffers c.

(** How often a buffer occurs among those nobody uses: on the return queue, taken from it
    by a thread, or in a cache; [extra] are those a thread has in hand. *)
Definition unused (extra : list nat) (p : BufferPool) (b : nat) : nat :=
  occ extra b + occ (returnedBuffers_ p) b + occ (gather local (pending p)) b + occ (gather cachedIn (localCaches p)) b.

Record bufferInv (extra : list nat) (p : BufferPool) : Prop := {
  b_place : ∀ b, (unused extra p b + occ (owned p) b + occ (deleted p) b = occ (seq 0 (nextBuffer p)) b)%nat;
  b_clear : ∀ b, (0 < unused extra p b)%nat -> content (vectorOf p b) = [];
  b_limits : ∀ t, (length (smallBuffers (localCache p t)) <= kSmallLimit)%nat ∧ (length (largeBuffers (localCache p t)) <= kLargeLimit)%nat
}.

Lemma occ_seq n b : occ (seq 0 n) b = if decide (b < n)%nat then 1%nat else 0%nat.
Proof.
  destruct (decide (b < n)%nat) as [Hb|Hb].
  - apply NoDup_count_occ'; [apply NoDup_ListNoDup, NoDup_seq | apply in_seq; lia].
  - apply count_occ_not_In. rewrite in_seq. lia.
Qed.

Lemma occ_cons a l b : occ (a :: l) b = ((if decide (a = b) then 1 else 0) + occ l b)%nat.
Proof. cbn. destruct (Nat.eq_dec a b), (decide (a = b)); done. Qed.

Lemma occ_app l k b : occ (l ++ k) b = (occ l b + occ k b)%nat.
Proof. apply count_occ_app. Qed.

Lemma cache_occ t c p b :
  (occ (gather cachedIn (localCaches (setLocalCache t c p))) b + occ (cachedIn (localCache p t)) b = occ (gather cachedIn (localCaches p)) b + occ (cachedIn c) b)%nat.
Proof.
  pose proof (gather_insert cachedIn (localCaches p) t c b) as H. cbn [setLocalCache localCaches]. unfold localCache. by destruct (localCaches p !! t).
Qed.

Lemma localCache_set t c p t' : localCache (setLocalCache t c p) t' = if decide (t' = t) then c else localCache p t'.
Proof. unfold localCache. cbn. destruct (decide (t' = t)) as [->|Hn]; [by rewrite lookup_insert_eq | by rewrite lookup_insert_ne]. Qed.

(** A buffer of a cache and the others of it. *)
Ltac count b := repeat rewrite ?occ_cons, ?occ_app in *; unfold cachedIn in *; cbn [smallBuffers largeBuffers] in *; repeat rewrite ?occ_cons, ?occ_app in *.

(** A cache that gains or loses a buffer in hand. *)
Lemma recache extra extra' t c p : bufferInv extra p ->
  (∀ b, (occ extra' b + occ (cachedIn c) b = occ extra b + occ (cachedIn (localCache p t)) b)%nat) ->
  (length (smallBuffers c) <= kSmallLimit)%nat -> (length (largeBuffers c) <= kLargeLimit)%nat -> bufferInv extra' (setLocalCache t c p).
Proof.
  intros [H1 H2 H3] Hc Hs Hl. assert (Hu : ∀ b, unused extra' (setLocalCache t c p) b = unused extra p b).
  { intros b. pose proof (cache_occ t c p b). pose proof (Hc b). unfold unused. cbn [setLocalCache returnedBuffers_ pending] in *. lia. }
  split.
  - intros b. rewrite Hu. apply H1.
  - intros b. rewrite Hu. apply H2.
  - intros t'. rewrite localCache_set. by destruct (decide (t' = t)).
Qed.

Lemma delete_inv b extra p : bufferInv (b :: extra) p -> bufferInv extra (deleteBuffer b p).
Proof.
  intros [H1 H2 H3]. split; [| |done].
  - intros a. specialize (H1 a). unfold unused in *. cbn [deleteBuffer setDeleted returnedBuffers_ pending localCaches owned deleted nextBuffer]. rewrite occ_cons in *. lia.
  - intros a Ha. apply (H2 a). unfold unused in *. cbn [deleteBuffer setDeleted returnedBuffers_ pending localCaches] in Ha. rewrite occ_cons. lia.
Qed.

Lemma keep_inv t b rest p : bufferInv (b :: rest) p -> bufferInv rest (keepBuffer t p b).
Proof.
  intros H. destruct (b_limits _ _ H t) as [Hs Hl]. unfold keepBuffer.
  destruct (_ && (length (smallBuffers _) <? _)%nat) eqn:E1; [|destruct (_ && (length (largeBuffers _) <? _)%nat) eqn:E2; [|by apply delete_inv]].
  - apply andb_true_iff in E1 as [_ E1%Nat.ltb_lt]. apply (recache (b :: rest)); [done | | cbn; lia | done]. intros a. count a. lia.
  - apply andb_true_iff in E2 as [_ E2%Nat.ltb_lt]. apply (recache (b :: rest)); [done | | done | cbn; lia]. intros a. count a. lia.
Qed.

Lemma drainInto_inv t l : ∀ p, bufferInv l p -> bufferInv [] (drainInto t l p).
Proof. induction l as [|b l IH]; intros p H; [done|]. cbn. by apply IH, keep_inv. Qed.

Lemma new_inv extra p : bufferInv extra p -> bufferInv (nextBuffer p :: extra) (newBuffer p).1 ∧ vectorOf (newBuffer p).1 (nextBuffer p) = mkVector [] 0.
Proof.
  intros [H1 H2 H3]. assert (Hv : ∀ b, vectorOf (newBuffer p).1 b = if decide (b = nextBuffer p) then mkVector [] 0 else vectorOf p b).
  { intros b. unfold vectorOf. cbn. destruct (decide (b = nextBuffer p)) as [->|]; [by rewrite lookup_insert_eq | by rewrite lookup_insert_ne]. }
  split; [|by rewrite Hv; destruct (decide _)]. split; [| |done].
  - intros b. specialize (H1 b). unfold unused in *. cbn [newBuffer fst returnedBuffers_ pending localCaches owned deleted nextBuffer]. rewrite occ_cons, !occ_seq in *.
    destruct (decide (nextBuffer p = b)), (decide (b < nextBuffer p)%nat), (decide (b < S (nextBuffer p))%nat); lia.
  - intros b Hb. rewrite Hv. destruct (decide (b = nextBuffer p)) as [->|Hn]; [done|]. apply H2. unfold unused in *.
    cbn [newBuffer fst returnedBuffers_ pending localCaches] in Hb. rewrite occ_cons in Hb. destruct (decide (nextBuffer p = b)); [congruence | lia].
Qed.

(** The vector of a buffer in hand may change, as long as it stays empty. *)
Lemma vector_inv b v extra p : bufferInv extra p -> content v = [] -> bufferInv extra (setVectors (<[b := v]> (vectors p)) p).
Proof.
  intros [H1 H2 H3] Hv. split; [done | | done]. intros a Ha. unfold vectorOf. cbn. destruct (decide (a = b)) as [->|Hn]; [by rewrite lookup_insert_eq|].
  rewrite lookup_insert_ne by done. by apply H2.
Qed.

Lemma own_inv b v extra p : bufferInv (b :: extra) p -> bufferInv extra (setOwned (b :: owned p) (setVectors (<[b := v]> (vectors p)) p)).
Proof.
  intros [H1 H2 H3]. split; [| |done].
  - intros a. specialize (H1 a). unfold unused in *. cbn [setOwned setVectors returnedBuffers_ pending localCaches owned deleted nextBuffer]. rewrite occ_cons in *. lia.
  - intros a Ha. unfold vectorOf. cbn. destruct (decide (a = b)) as [->|Hn].
    + exfalso. specialize (H1 b). rewrite occ_seq in H1. unfold unused in *. cbn [setOwned setVectors returnedBuffers_ pending localCaches] in Ha. rewrite occ_cons in H1.
      destruct (decide (b = b)); [|done]. destruct (decide _); lia.
    + rewrite lookup_insert_ne by done. apply H2. unfold unused in *. cbn [setOwned setVectors returnedBuffers_ pending localCaches] in Ha. rewrite occ_cons. lia.
Qed.

Lemma takeBuffer_inv t reserve m p : bufferInv [] p ->
  match takeBuffer t reserve m p with (p', Some b) => bufferInv [b] p' ∧ owned p' = owned p ∧ pending p' = pending p | (p', None) => p' = p end.
Proof.
  intros H. destruct (b_limits _ _ H t) as [Hs Hl]. unfold takeBuffer. cbv zeta.
  destruct (if reserve <=? kSmallReserveSize then smallBuffers (localCache p t) else []) as [|b rest] eqn:E1.
  - destruct (if negb _ && _ then largeBuffers (localCache p t) else []) as [|b rest] eqn:E2.
    + assert (Hnew := proj1 (new_inv [] p H)). by destruct m; [destruct (newBuffer p) eqn:En; injection En as <- <- | | destruct (newBuffer p) eqn:En; injection En as <- <-].
    + destruct (negb _ && _); [|done]. split_and!; [|done|done]. rewrite E2 in Hl. apply (recache []); [done | | done | cbn in *; lia]. intros a. count a. rewrite E2. rewrite occ_cons. cbn. lia.
  - destruct (reserve <=? kSmallReserveSize); [|done]. split_and!; [|done|done]. rewrite E1 in Hs. apply (recache []); [done | | cbn in *; lia | done]. intros a. count a. rewrite E1. rewrite occ_cons. cbn. lia.
Qed.

Lemma pending_occ (m : gmap nat Taken) t b :
  (occ (gather local (delete t m)) b + occ (default [] (local <$> m !! t)) b = occ (gather local m) b)%nat.
Proof.
  destruct (m !! t) as [k|] eqn:E; [|rewrite delete_id by done; cbn; lia].
  pose proof (gather_insert local (delete t m) t k b) as H. rewrite lookup_delete_eq, insert_delete_id in H by done. cbn in *. lia.
Qed.

(** What [allocateReservedBuffer] gives: a buffer nobody uses, of the capacity that was
    asked for, with nothing but zeros in it. *)
Definition allocated (k : Taken) (p p' : BufferPool) (b : nat) : Prop :=
  (b ∉ owned p) ∧ owned p' = b :: owned p ∧ reserveSize k <= capacity (vectorOf p' b) ∧ content (vectorOf p' b) = replicate (Z.to_nat (initialSize k)) x00.

Lemma drain_owned t l : ∀ p, owned (drainInto t l p) = owned p.
Proof.
  induction l as [|b l IH]; intros p; [done|]. change (drainInto t (b :: l) p) with (drainInto t l (keepBuffer t p b)). rewrite IH. unfold keepBuffer. cbv zeta. destruct (_ && _); [done|]. by destruct (_ && _).
Qed.

Lemma fresh_of_inv b extra p : bufferInv (b :: extra) p -> (b ∉ owned p) ∧ content (vectorOf p b) = [].
Proof.
  intros [H1 H2 _]. assert (Hb : (0 < unused (b :: extra) p b)%nat) by (unfold unused; rewrite occ_cons; destruct (decide (b = b)); [lia | done]).
  split; [|by apply H2]. intros Hin%list_elem_of_In%(count_occ_In Nat.eq_dec). specialize (H1 b). rewrite occ_seq in H1. destruct (decide _); lia.
Qed.

Lemma resize_empty n v : content v = [] -> content (resizeTo n v) = replicate (Z.to_nat n) x00.
Proof. intros E. unfold resizeTo. cbn. rewrite E, take_nil, Nat.sub_0_r. done. Qed.

Lemma finish_inv t k m p : bufferInv [] p -> pending p !! t = Some k ->
  bufferInv [] (finishAllocate t k m p).1 ∧ match (finishAllocate t k m p).2 with Some b => allocated k p (finishAllocate t k m p).1 b | None => True end.
Proof.
  intros H Hk. unfold finishAllocate. cbv zeta.
  assert (H1 : bufferInv (local k) (setTaken (delete t (pending p)) p)).
  { destruct H as [P1 P2 P3]. assert (Hu : ∀ b, unused (local k) (setTaken (delete t (pending p)) p) b = unused [] p b).
    { intros b. pose proof (pending_occ (pending p) t b) as E. rewrite Hk in E. cbn in E. unfold unused. cbn [setTaken returnedBuffers_ pending localCaches count_occ]. lia. }
    split; [intros b; rewrite Hu; apply P1 | intros b; rewrite Hu; apply P2 | done]. }
  pose proof (drainInto_inv t _ _ H1) as H2. pose proof (drain_owned t (local k) (setTaken (delete t (pending p)) p)) as Ho. cbn [setTaken owned] in Ho.
  set (p2 := drainInto t (local k) (setTaken (delete t (pending p)) p)) in *. clearbody p2.
  pose proof (takeBuffer_inv t (reserveSize k) m p2 H2) as H3. destruct (takeBuffer t (reserveSize k) m p2) as [p3 [b|]]; [|by subst p3].
  destruct H3 as (H3 & Ho3 & _). destruct (fresh_of_inv _ _ _ H3) as [Hf Hc].
  assert (Hd : bufferInv [] (deleteBuffer b p3) ∧ True) by (split; [by apply delete_inv | done]).
  assert (Hok : let p' := setOwned (b :: owned p3) (setVectors (<[b := resizeTo (initialSize k) (reserveTo (reserveSize k) (vectorOf p3 b))]> (vectors p3)) p3) in
    bufferInv [] p' ∧ allocated k p p' b).
  { split; [by apply own_inv|]. unfold allocated, vectorOf. cbn [setOwned setVectors vectors owned]. rewrite lookup_insert_eq. cbn [default from_option id].
    split_and!; [congruence | congruence | cbn; lia | by apply resize_empty]. }
  destruct m; [exact Hok | exact Hok | exact Hd].
Qed.

Lemma warmLoop_inv n : ∀ oks (full : Cache -> bool) (add : nat -> Cache -> Cache) size t p,
  (∀ b c, full c = false -> (length (smallBuffers c) <= kSmallLimit)%nat ∧ (length (largeBuffers c) <= kLargeLimit)%nat ->
     (length (smallBuffers (add b c)) <= kSmallLimit)%nat ∧ (length (largeBuffers (add b c)) <= kLargeLimit)%nat ∧ ∀ a, occ (cachedIn (add b c)) a = occ (b :: cachedIn c) a) ->
  bufferInv [] p -> bufferInv [] (warmLoop n oks full add size t p).
Proof.
  induction n as [|n IH]; intros oks full add size t p Hadd H; [done|]. cbn [warmLoop]. destruct oks as [|[] oks]; [done | | done].
  destruct (full (localCache p t)) eqn:Ef; [done|]. destruct (new_inv [] p H) as [Hn Hv]. destruct (newBuffer p) as [p1 b] eqn:En.
  assert (b = nextBuffer p ∧ localCaches p1 = localCaches p) as [-> Hcs] by (by injection En as <- <-). cbn [fst] in Hn, Hv.
  assert (Hc : localCache p1 t = localCache p t) by (unfold localCache; by rewrite Hcs).
  set (p2 := setVectors _ p1). assert (H2 : bufferInv [nextBuffer p] p2) by (apply vector_inv; [done | by rewrite Hv]).
  change (localCache p2 t) with (localCache p1 t). destruct (Hadd (nextBuffer p) (localCache p1 t)) as (A1 & A2 & A3); [by rewrite Hc | by apply (b_limits _ _ Hn)|].
  apply IH; [done|]. apply (recache [nextBuffer p]); [done | | done | done]. intros a. rewrite A3. change (localCache p2 t) with (localCache p1 t). rewrite !occ_cons. cbn. lia.
Qed.

Lemma warmUp_inv t n m oks oks' p : bufferInv [] p -> bufferInv [] (warmUp t n m oks oks' p).
Proof.
  intros H. unfold warmUp. cbv zeta. apply warmLoop_inv; [|apply warmLoop_inv; [|done]].
  - intros b c Hf%Nat.leb_gt [H1 H2]. split_and!; [done | cbn; lia|]. intros a. unfold cachedIn. cbn [smallBuffers largeBuffers]. rewrite occ_app, !occ_cons, occ_app. lia.
  - intros b c Hf%Nat.leb_gt [H1 H2]. split_and!; [cbn; lia | done|]. done.
Qed.

Lemma occ_remove b l a : occ (filter (.≠ b) l) a = if decide (a = b) then 0%nat else occ l a.
Proof.
  induction l as [|x l IH]; [by destruct (decide (a = b))|]. destruct (decide (x = b)) as [->|Hx].
  - rewrite filter_cons_False by (by intros ?). rewrite IH, occ_cons. destruct (decide (a = b)); [done|]. destruct (decide (b = a)); [congruence | lia].
  - rewrite filter_cons_True by done. rewrite !occ_cons, IH. destruct (decide (a = b)) as [->|]; [|done]. destruct (decide (x = b)); [done | lia].
Qed.

Lemma use_inv b v p : bufferInv [] p -> b ∈ owned p -> bufferInv [] (setVectors (<[b := v]> (vectors p)) p).
Proof.
  intros [H1 H2 H3] Hin. assert (Hb : (0 < occ (owned p) b)%nat) by (by apply count_occ_In, list_elem_of_In).
  split; [done | | done]. intros a Ha. unfold vectorOf. cbn. rewrite lookup_insert_ne; [by apply H2|]. intros ->.
  specialize (H1 a). rewrite occ_seq in H1. change (unused [] (setVectors (<[a := v]> (vectors p)) p) a) with (unused [] p a) in Ha. destruct (decide _); lia.
Qed.

Lemma release_inv b p : bufferInv [] p -> b ∈ owned p ->
  bufferInv [b] (setOwned (filter (.≠ b) (owned p)) (setVectors (<[b := clearOf (vectorOf p b)]> (vectors p)) p)).
Proof.
  intros [H1 H2 H3] Hin. assert (Hb : (0 < occ (owned p) b)%nat) by (by apply count_occ_In, list_elem_of_In).
  split; [| |done].
  - intros a. specialize (H1 a). unfold unused in *. cbn [setOwned setVectors returnedBuffers_ pending localCaches owned deleted nextBuffer] in *. rewrite occ_remove, occ_cons, occ_seq in *.
    cbn [count_occ] in *. destruct (decide (a = b)) as [->|Hn]; [destruct (decide (b = b)); [|done]; destruct (decide (b < nextBuffer p)%nat); lia | destruct (decide (b = a)); [congruence | lia]].
  - intros a Ha. unfold vectorOf. cbn. destruct (decide (a = b)) as [->|Hn]; [by rewrite lookup_insert_eq|]. rewrite lookup_insert_ne by done. apply H2.
    unfold unused in *. cbn [setOwned setVectors returnedBuffers_ pending localCaches] in Ha. rewrite occ_cons in Ha. destruct (decide (b = a)); [congruence|]. done.
Qed.

Lemma buffer_step p l p' r : bufferInv [] p -> execute p l = Some (p', r) ->
  bufferInv [] p' ∧ match r with Some b => ∃ t k m, l = EndAllocate t m ∧ pending p !! t = Some k ∧ allocated k p p' b | None => True end.
Proof.
  intros H E. destruct l; cbn [execute] in E.
  - destruct (pending p !! t) eqn:Et; [done|]. cbv zeta in E. injection E as <- <-. split; [|done]. destruct H as [H1 H2 H3].
    set (k := mkTaken _ _ _). assert (Hu : ∀ b, unused [] (setTaken (<[t := k]> (pending p)) (setReturned [] p)) b = unused [] p b).
    { intros b. pose proof (gather_insert local (pending p) t k b) as G. rewrite Et in G. unfold unused. cbn [setTaken setReturned returnedBuffers_ pending localCaches count_occ default from_option fmap option_fmap option_map] in *.
      change (local k) with (returnedBuffers_ p) in G. cbn [id count_occ] in G. lia. }
    split; [intros b; rewrite Hu; apply H1 | intros b; rewrite Hu; apply H2 | done].
  - destruct (pending p !! t) as [k|] eqn:Et; [|done]. cbn in E. injection E as E. destruct (finish_inv t k m p H Et) as [F1 F2]. rewrite E in F1, F2. cbn in F1, F2.
    split; [done|]. destruct r as [b|]; [|done]. by exists t, k, m.
  - destruct (bool_decide_reflect (b ∈ owned p)) as [Hin|]; [|done]. injection E as <- <-. split; [by apply use_inv | done].
  - destruct (bool_decide_reflect (b ∈ owned p)) as [Hin|]; [|done]. cbv zeta in E. pose proof (release_inv b p H Hin) as Hr. set (p1 := setOwned _ _) in *. destruct pushed; injection E as <- <-; (split; [|done]).
    + destruct Hr as [H1 H2 H3]. assert (Hu : ∀ a, unused [] (setReturned (returnedBuffers_ p1 ++ [b]) p1) a = unused [b] p1 a).
      { intros a. unfold unused. cbn [setReturned returnedBuffers_ pending localCaches]. rewrite occ_app. cbn [count_occ]. lia. }
      split; [intros a; rewrite Hu; apply H1 | intros a; rewrite Hu; apply H2 | done].
    + by apply delete_inv.
  - destruct (pending p !! t); [done|]. injection E as <- <-. split; [by apply warmUp_inv | done].
  - destruct (pending p !! t); [done|]. cbv zeta in E. injection E as <- <-. split; [|done]. set (c := localCache p t).
    assert (Hr : bufferInv (cachedIn c) (setLocalCache t noBuffers p)) by (apply (recache []); [done | intros a; unfold c; cbn; lia | cbn; lia | cbn; lia]).
    destruct Hr as [H1 H2 H3]. split; [| |done].
    + intros a. specialize (H1 a). unfold unused in *. cbn [setDeleted setLocalCache returnedBuffers_ pending localCaches owned deleted nextBuffer] in *.
      rewrite app_assoc. change (smallBuffers c ++ largeBuffers c) with (cachedIn c). rewrite occ_app. cbn [count_occ]. lia.
    + intros a Ha. apply (H2 a). unfold unused in *. cbn [setDeleted setLocalCache returnedBuffers_ pending localCaches count_occ] in Ha |- *. lia.
Qed.

Lemma buffer_reachable p : reachable p -> bufferInv [] p.
Proof.
  induction 1 as [|p l p' r _ IH E]; [|by apply (buffer_step _ _ _ _ IH E)]. split; [done | intros b Hb; by vm_compute in Hb; apply Nat.nlt_0_r in Hb | intros t; split; apply Nat.le_0_l].
Qed.

(** ** Claims *)

(** Everything the pool has made, in one list. *)
Definition allBuffers (p : BufferPool) : list nat :=
  returnedBuffers_ p ++ gather local (pending p) ++ gather cachedIn (localCaches p) ++ owned p ++ deleted p.

(** C26. Under every interleaving of allocations, uses, releases from any thread, warm-ups and thread
    ends, whatever memory can be had: every buffer ever made is in exactly one place - on
    the return queue, taken from it by one thread, in one thread's cache, owned by a user, or deleted -
    so none is handed out twice, lost or deleted twice; a buffer that is handed out has the capacity
    that was asked for and holds zeros only, nothing of its earlier use; and no cache
    exceeds its limits. *)
Theorem buffers_exclusive p :
  reachable p ->
  allBuffers p ≡ₚ seq 0 (nextBuffer p) ∧
  (∀ l p' b, execute p l = Some (p', Some b) -> ∃ t k m, l = EndAllocate t m ∧ pending p !! t = Some k ∧ allocated k p p' b) ∧
  ∀ t, smallFree (getStats t p) <= 128 ∧ largeFree (getStats t p) <= 64.
Proof.
  intros H%buffer_reachable. split_and!.
  - apply perm_occ. intros b. rewrite <- (b_place _ _ H b). unfold allBuffers, unused. rewrite !occ_app. cbn [count_occ]. lia.
  - intros l p' b E. by apply (buffer_step _ _ _ _ H E).
  - intros t. destruct (b_limits _ _ H t) as [H1 H2]. unfold getStats, zlen, kSmallLimit, kLargeLimit in *. cbn. lia.
Qed.

(** A buffer used by one thread, released by another, and used again. *)
Definition sharedSteps : list Label := [BeginAllocate 1 100 4; EndAllocate 1 Enough; Use 0 (mkVector [x01; x02] 8192); Release 0 true; BeginAllocate 2 8192 2].
Fixpoint bufferSteps (p : BufferPool) (ls : list Label) : option BufferPool :=
  match ls with [] => Some p | l :: ls => '(p, _) ← execute p l; bufferSteps p ls end.
Definition sharedBuffers : BufferPool := default emptyBuffers (bufferSteps emptyBuffers sharedSteps).

Lemma bufferSteps_reachable ls : ∀ p q, reachable p -> bufferSteps p ls = Some q -> reachable q.
Proof.
  induction ls as [|l ls IH]; intros p q Hp; cbn; [by intros [= <-]|]. destruct (execute p l) as [[p1 r]|] eqn:E; [|done]. cbn. apply IH. by eapply reach_step.
Qed.

Lemma buffers_exclusive_witness :
  allBuffers sharedBuffers ≡ₚ seq 0 (nextBuffer sharedBuffers) ∧
  (∀ l p' b, execute sharedBuffers l = Some (p', Some b) -> ∃ t k m, l = EndAllocate t m ∧ pending sharedBuffers !! t = Some k ∧ allocated k sharedBuffers p' b) ∧
  ∀ t, smallFree (getStats t sharedBuffers) <= 128 ∧ largeFree (getStats t sharedBuffers) <= 64.
Proof. refine (buffers_exclusive sharedBuffers (bufferSteps_reachable sharedSteps emptyBuffers sharedBuffers reach_none _)). by vm_compute. Defined.

Example reused_buffer : (fun x => (x.2, capacity (vectorOf x.1 0), content (vectorOf x.1 0))) <$> execute sharedBuffers (EndAllocate 2 Enough) =
  Some (Some 0%nat, 8192, [x00; x00]).
Proof. by vm_compute. Qed.

(** The statistics never count what is in use. *)
Example allocated_never_counted : (owned sharedBuffers, smallAllocated (getStats 1 (default emptyBuffers (bufferSteps emptyBuffers (take 2 sharedSteps))))) = ([], 0) ∧
  owned (default emptyBuffers (bufferSteps emptyBuffers (take 2 sharedSteps))) = [0%nat].
Proof. by vm_compute. Qed.
