(* ===== verification/Timer.v ===== *)
(** * Timers (src/Timer.cpp, include/FastNet/Timer.h)

    [TimerManager] as shared state with one worker thread.  The worker's loop is cut where
    it gives the mutex up: taking a due entry, calling it, and re-arming it are separate
    steps, so other threads and the callback itself can schedule and cancel in between.  A
    [shared_ptr<TimerEntry>] is the entry's identifier; times are milliseconds; identifiers
    are drawn from an unbounded counter. *)

From S2P Require Import Prelude.

Definition TimerId : Type := Z.

Record TimerEntry := mkEntry {
  expireTime : Z;
  interval : Z;
  callback : Z;      (* which function to call *)
  repeat_ : bool;
  cancelled : bool
}.

(** A call of an entry's callback: the entry, the time it was due, the time it was taken. *)
Record Firing := mkFiring { firedId : TimerId; dueTime : Z; takenTime : Z }.

(** Where the worker thread is. *)
Inductive Worker :=
  | Waiting                      (* in the loop that looks for a due entry *)
  | Taken (id : TimerId) (now : Z)  (* entry popped, mutex released *)
  | Calling (id : TimerId).      (* inside the callback, or just after it *)

Record TimerManager := mkManager {
  timers_ : list TimerId;
  activeTimers_ : gset TimerId;
  running_ : bool;
  nextTimerId_ : TimerId;
  entries : gmap TimerId TimerEntry;
  worker : Worker;
  fired : list Firing
}.

Definition newManager : TimerManager := mkManager [] ∅ false 1 ∅ Waiting [].

Definition setCancelled (e : TimerEntry) : TimerEntry :=
  mkEntry (expireTime e) (interval e) (callback e) (repeat_ e) true.
Definition setExpire (e : TimerEntry) (t : Z) : TimerEntry :=
  mkEntry t (interval e) (callback e) (repeat_ e) (cancelled e).
Definition setWorker (m : TimerManager) (w : Worker) : TimerManager :=
  mkManager (timers_ m) (activeTimers_ m) (running_ m) (nextTimerId_ m) (entries m) w (fired m).
Definition setRunning (m : TimerManager) (b : bool) : TimerManager :=
  mkManager (timers_ m) (activeTimers_ m) b (nextTimerId_ m) (entries m) (worker m) (fired m).

(** ** The queue *)

Definition expiry (m : TimerManager) (id : TimerId) : Z := from_option expireTime 0 (entries m !! id).

(** [timers_.top()]: an entry that expires first. *)
Fixpoint topFrom (m : TimerManager) (best : TimerId) (ids : list TimerId) : TimerId :=
  match ids with
  | [] => best
  | id :: ids => topFrom m (if expiry m id <? expiry m best then id else best) ids
  end.

Definition top (m : TimerManager) : option TimerId :=
  match timers_ m with
  | [] => None
  | id :: ids => Some (topFrom m id ids)
  end.

(** [timers_.pop()] of the entry [id] on top. *)
Definition pop (m : TimerManager) (id : TimerId) : TimerManager :=
  mkManager (filter (.≠ id) (timers_ m)) (activeTimers_ m) (running_ m) (nextTimerId_ m) (entries m)
    (worker m) (fired m).

(** ** Public members *)

Definition start (m : TimerManager) : TimerManager := setRunning m true.

(** [stop]: the flag first; the rest once the worker has been joined. *)
Definition stopBegin (m : TimerManager) : TimerManager := setRunning m false.

Definition stopEnd (m : TimerManager) : TimerManager :=
  mkManager [] ∅ (running_ m) (nextTimerId_ m)
    (map_imap (fun id e => Some (if bool_decide (id ∈ activeTimers_ m) then setCancelled e else e)) (entries m))
    (worker m) (fired m).

(** [schedule] with a callback; [addTimer] and [addRepeatingTimer] fix [repeat]. *)
Definition schedule (m : TimerManager) (delay cb : Z) (repeat : bool) (now : Z) : TimerManager * TimerId :=
  let m := start m in
  let id := nextTimerId_ m in
  let e := mkEntry (now + Z.max 0 delay) (Z.max 1 delay) cb repeat false in
  (mkManager (timers_ m ++ [id]) ({[id]} ∪ activeTimers_ m) (running_ m) (id + 1)
     (<[id := e]> (entries m)) (worker m) (fired m), id).

Definition addTimer (m : TimerManager) (delay cb now : Z) := schedule m delay cb false now.
Definition addRepeatingTimer (m : TimerManager) (delay cb now : Z) := schedule m delay cb true now.

Definition cancelTimer (m : TimerManager) (id : TimerId) : TimerManager * bool :=
  if bool_decide (id ∈ activeTimers_ m) then
    (mkManager (timers_ m) (activeTimers_ m ∖ {[id]}) (running_ m) (nextTimerId_ m)
       (alter setCancelled id (entries m)) (worker m) (fired m), true)
  else (m, false).

Definition getActiveTimerCount (m : TimerManager) : Z := Z.of_nat (size (activeTimers_ m)).

(** ** The worker loop *)

(** One round of the inner loop, with the mutex held. *)
Definition workerTake (m : TimerManager) (now : Z) : TimerManager :=
  if negb (running_ m) then m
  else
    match top m with
    | None => m
    | Some id =>
        match entries m !! id with
        | None => pop m id
        | Some e =>
            if cancelled e then pop m id
            else if now <? expireTime e then m
            else
              mkManager (timers_ (pop m id)) (activeTimers_ m ∖ {[id]}) (running_ m) (nextTimerId_ m)
                (entries m) (Taken id now) (fired m)
        end
    end.

(** The checks after the mutex is released, and the call. *)
Definition workerCall (m : TimerManager) : TimerManager :=
  match worker m with
  | Taken id now =>
      if negb (running_ m) then setWorker m Waiting
      else
        match entries m !! id with
        | None => setWorker m Waiting
        | Some e =>
            if cancelled e then setWorker m Waiting
            else
              mkManager (timers_ m) (activeTimers_ m) (running_ m) (nextTimerId_ m) (entries m) (Calling id)
                (fired m ++ [mkFiring id (expireTime e) now])
        end
  | _ => m
  end.

Definition nextExpire (e : TimerEntry) (now : Z) : Z :=
  let next := expireTime e + interval e in
  if next <=? now then now + interval e else next.

(** After the callback: a repeating entry goes back into the queue. *)
Definition workerRearm (m : TimerManager) (now : Z) : TimerManager :=
  match worker m with
  | Calling id =>
      match entries m !! id with
      | None => setWorker m Waiting
      | Some e =>
          if negb (repeat_ e) || cancelled e || negb (running_ m) then setWorker m Waiting
          else
            mkManager (timers_ m ++ [id]) ({[id]} ∪ activeTimers_ m) (running_ m) (nextTimerId_ m)
              (<[id := setExpire e (nextExpire e now)]> (entries m)) Waiting (fired m)
      end
  | _ => m
  end.

(** ** Steps *)

Inductive step : TimerManager -> TimerManager -> Prop :=
  | step_start m : step m (start m)
  | step_stop_begin m : step m (stopBegin m)
  | step_stop_end m : running_ m = false -> worker m = Waiting -> step m (stopEnd m)
  | step_schedule m delay cb repeat now : step m (schedule m delay cb repeat now).1
  | step_cancel m id : step m (cancelTimer m id).1
  | step_take m now : worker m = Waiting -> step m (workerTake m now)
  | step_call m : step m (workerCall m)
  | step_rearm m now : step m (workerRearm m now).

Inductive steps : TimerManager -> TimerManager -> Prop :=
  | steps_refl m : steps m m
  | steps_trans m m1 m2 : steps m m1 -> step m1 m2 -> steps m m2.

(** ** ConnectionTimeoutManager *)

Record ConnectionTimeout := mkTimeout { ctTimerId : TimerId; ctTimeout : Z; ctCallback : Z }.

(** The table of a [ConnectionTimeoutManager] and the manager it uses. *)
Record TimeoutState := mkTimeouts {
  ctConnections : gmap Z ConnectionTimeout;
  ctManager : TimerManager
}.

Definition setConnectionTimeout (s : TimeoutState) (conn timeout cb now : Z) : TimeoutState :=
  let m := match ctConnections s !! conn with
           | Some old => (cancelTimer (ctManager s) (ctTimerId old)).1
           | None => ctManager s
           end in
  let '(m, id) := addTimer m timeout cb now in
  mkTimeouts (<[conn := mkTimeout id timeout cb]> (ctConnections s)) m.

Definition refreshConnection (s : TimeoutState) (conn now : Z) : TimeoutState :=
  match ctConnections s !! conn with
  | None => s
  | Some old =>
      let m := (cancelTimer (ctManager s) (ctTimerId old)).1 in
      let '(m, id) := addTimer m (ctTimeout old) (ctCallback old) now in
      mkTimeouts (<[conn := mkTimeout id (ctTimeout old) (ctCallback old)]> (ctConnections s)) m
  end.

Definition removeConnection (s : TimeoutState) (conn : Z) : TimeoutState :=
  match ctConnections s !! conn with
  | None => s
  | Some old =>
      mkTimeouts (delete conn (ctConnections s)) (cancelTimer (ctManager s) (ctTimerId old)).1
  end.

Definition getManagedConnectionCount (s : TimeoutState) : Z := Z.of_nat (size (ctConnections s)).

(** ** Timer *)

(** A [Timer] object: its timer and the token its posted callbacks check.  [tokens] maps a
    token object to its flag. *)
Record TimerObject := mkTimer { timerId_ : TimerId; stateToken_ : Z }.

Record TimerWorld := mkWorld {
  twManager : TimerManager;
  tokens : gmap Z bool;
  freshToken : Z;
  twTimer : TimerObject
}.

Definition timerStop (w : TimerWorld) : TimerWorld :=
  let t := twTimer w in
  let m := if negb (timerId_ t =? 0) then (cancelTimer (twManager w) (timerId_ t)).1 else twManager w in
  mkWorld m (<[stateToken_ t := false]> (tokens w)) (freshToken w) (mkTimer 0 (stateToken_ t)).

(** [Timer::start]: the wrapped callback is the token it captures. *)
Definition timerStart (w : TimerWorld) (delay : Z) (repeat : bool) (now : Z) : TimerWorld :=
  let w := timerStop w in
  let tok := freshToken w in
  let '(m, id) := schedule (twManager w) delay tok repeat now in
  mkWorld m (<[tok := true]> (tokens w)) (tok + 1) (mkTimer id tok).

Definition timerIsRunning (w : TimerWorld) : bool := default false (tokens w !! stateToken_ (twTimer w)).

(** The task the wrapped callback posts: whether the user function runs, and the tokens after. *)
Definition runPosted (w : TimerWorld) (tok : Z) (repeat : bool) : TimerWorld * bool :=
  let live := default false (tokens w !! tok) in
  (mkWorld (twManager w) (if repeat then tokens w else <[tok := false]> (tokens w)) (freshToken w) (twTimer w), live).

(** ** Invariant *)

(** How often an entry's callback has been called. *)
Definition fires (m : TimerManager) (id : TimerId) : nat :=
  length (filter (fun f => firedId f = id) (fired m)).

Record wf (m : TimerManager) : Prop := mkWf {
  wf_nodup : NoDup (timers_ m);
  wf_queued : ∀ id, id ∈ timers_ m -> is_Some (entries m !! id);
  wf_active : ∀ id, id ∈ activeTimers_ m <->
    id ∈ timers_ m ∧ ∃ e, entries m !! id = Some e ∧ cancelled e = false;
  wf_ids : ∀ id, is_Some (entries m !! id) -> id < nextTimerId_ m;
  wf_worker : match worker m with
              | Waiting => True
              | Taken id now => (id ∉ timers_ m) ∧ ∃ e, entries m !! id = Some e ∧ expireTime e <= now
              | Calling id => (id ∉ timers_ m) ∧ is_Some (entries m !! id)
              end;
  wf_fired : ∀ f, f ∈ fired m -> dueTime f <= takenTime f ∧ firedId f < nextTimerId_ m;
  wf_once : ∀ id e, entries m !! id = Some e -> repeat_ e = false ->
    (fires m id <= 1)%nat ∧ (id ∈ timers_ m -> fires m id = 0%nat) ∧
    (∀ now, worker m = Taken id now -> fires m id = 0%nat)
}.

Lemma topFrom_in m best ids : topFrom m best ids ∈ best :: ids.
Proof.
  revert best. induction ids as [|id ids IH]; intros best; simpl; [apply elem_of_cons; auto|].
  specialize (IH (if expiry m id <? expiry m best then id else best)).
  apply elem_of_cons in IH as [->|Hin]; [|rewrite !elem_of_cons; auto].
  destruct (_ <? _); rewrite !elem_of_cons; auto.
Qed.

Lemma top_in m id : top m = Some id -> id ∈ timers_ m.
Proof. unfold top. destruct (timers_ m); [done|]. intros [= <-]. apply topFrom_in. Qed.

(** The top expires no later than any queued entry. *)
Lemma topFrom_le m best ids id : id ∈ best :: ids -> expiry m (topFrom m best ids) <= expiry m id.
Proof.
  revert best id. induction ids as [|x ids IH]; intros best id Hin; simpl.
  { apply list_elem_of_singleton in Hin as ->. lia. }
  assert (Hhead : ∀ y, expiry m (topFrom m y ids) <= expiry m y) by (intros; apply IH, elem_of_cons; auto).
  rewrite !elem_of_cons in Hin. destruct (Z.ltb_spec (expiry m x) (expiry m best)).
  - specialize (Hhead x). destruct Hin as [->|[->|Hin]]; [lia|lia|]. by apply IH, elem_of_cons; auto.
  - specialize (Hhead best). destruct Hin as [->|[->|Hin]]; [lia|lia|]. by apply IH, elem_of_cons; auto.
Qed.

(** Fields that do not matter. *)
Lemma wf_setRunning m b : wf m -> wf (setRunning m b).
Proof. intros []. by constructor. Qed.

Lemma wf_idle m : wf m -> wf (setWorker m Waiting).
Proof.
  intros []. constructor; simpl; auto. intros id e He Hr. destruct (wf_once0 id e He Hr) as (? & ? & _). done.
Qed.

Lemma wf_new : wf newManager.
Proof.
  constructor; simpl; try done.
  - apply NoDup_nil_2.
  - by intros id ?%elem_of_nil.
  - intros id. rewrite elem_of_empty. split; [done|]. by intros [?%elem_of_nil _].
  - by intros id [? ?].
  - by intros f ?%elem_of_nil.
Qed.

Lemma wf_pop m id e :
  wf m -> id ∈ timers_ m -> entries m !! id = Some e -> cancelled e = true -> wf (pop m id).
Proof.
  intros [] Hin He Hc. constructor; simpl; auto.
  - by apply NoDup_filter.
  - intros x [_ ?]%list_elem_of_filter. auto.
  - intros x. rewrite wf_active0, list_elem_of_filter. split; [|tauto]. intros (? & e' & ? & ?).
    split_and!; eauto. intros ->. congruence.
  - destruct (worker m); auto; destruct wf_worker0; (split; [|done]); by intros [_ ?]%list_elem_of_filter.
  - intros x e' He' Hr. destruct (wf_once0 x e' He' Hr) as (? & Hq & ?). split_and!; auto.
    intros [_ ?]%list_elem_of_filter. auto.
Qed.

Lemma take_wf m now : wf m -> worker m = Waiting -> wf (workerTake m now).
Proof.
  intros H Hw. unfold workerTake. destruct (running_ m); simpl; [|done].
  destruct (top m) as [id|] eqn:Et; [|done]. apply top_in in Et.
  destruct (wf_queued _ H _ Et) as [e He]. rewrite He.
  destruct (cancelled e) eqn:Ec; [by eapply wf_pop|]. destruct (Z.ltb_spec now (expireTime e)); [done|].
  destruct H. constructor; simpl; auto.
  - by apply NoDup_filter.
  - intros x [_ ?]%list_elem_of_filter. auto.
  - intros x. rewrite elem_of_difference, wf_active0, list_elem_of_filter, elem_of_singleton. tauto.
  - split; [|eauto]. intros [? _]%list_elem_of_filter. done.
  - intros x e' He' Hr. destruct (wf_once0 x e' He' Hr) as (? & Hq & _). split_and!; auto.
    + intros [_ ?]%list_elem_of_filter. auto.
    + intros t [= -> _]. auto.
Qed.

Lemma fires_snoc m id f :
  length (filter (fun g => firedId g = id) (fired m ++ [f])) =
  (fires m id + if decide (firedId f = id) then 1 else 0)%nat.
Proof. unfold fires. rewrite filter_app, length_app. f_equal. rewrite filter_cons. by destruct (decide _). Qed.

Lemma call_wf m : wf m -> wf (workerCall m).
Proof.
  intros H. unfold workerCall. destruct (worker m) as [|id now|id] eqn:Ew; [done| |done].
  destruct (running_ m); simpl; [|by apply wf_idle].
  pose proof (wf_worker _ H) as Hw. rewrite Ew in Hw. destruct Hw as (Hnin & e & He & Hle). rewrite He.
  destruct (cancelled e); [by apply wf_idle|]. destruct H. constructor; simpl; auto.
  - intros f [Hf|Hf]%elem_of_app; [auto|]. apply list_elem_of_singleton in Hf as ->. simpl. split; [done|]. eauto.
  - intros x e' He' Hr. destruct (wf_once0 x e' He' Hr) as (H1 & H2 & H3). unfold fires. simpl.
    rewrite fires_snoc. simpl. destruct (decide (id = x)) as [->|Hne].
    + rewrite (H3 now Ew). split_and!; [lia| |done]. intros Hin. done.
    + rewrite Nat.add_0_r. split_and!; auto. done.
Qed.

Lemma rearm_wf m now : wf m -> wf (workerRearm m now).
Proof.
  intros H. unfold workerRearm. destruct (worker m) as [| |id] eqn:Ew; [done|done|].
  destruct (entries m !! id) as [e|] eqn:He; [|by apply wf_idle].
  destruct (repeat_ e) eqn:Er; simpl; [|by apply wf_idle].
  destruct (cancelled e) eqn:Ec; simpl; [by apply wf_idle|].
  destruct (running_ m); simpl; [|by apply wf_idle].
  pose proof (wf_worker _ H) as Hw. rewrite Ew in Hw. destruct Hw as [Hnin _]. destruct H. constructor; simpl; auto.
  - apply NoDup_app. split_and!; [done| |apply NoDup_singleton]. by intros x Hx ->%list_elem_of_singleton.
  - intros x [Hx|Hx]%elem_of_app; [apply lookup_insert_is_Some'; auto|].
    apply list_elem_of_singleton in Hx as ->. by rewrite lookup_insert_eq.
  - intros x. rewrite elem_of_union, elem_of_singleton, elem_of_app, list_elem_of_singleton, wf_active0.
    destruct (decide (x = id)) as [->|Hne].
    + rewrite lookup_insert_eq. split; [|auto]. intros _. split; [auto|]. by eexists.
    + rewrite lookup_insert_ne by done. tauto.
  - intros x [->|Hx]%lookup_insert_is_Some'; eauto.
  - intros x e' He' Hr. apply lookup_insert_Some in He' as [[<- <-]|[Hne He']]; [simpl in Hr; congruence|].
    destruct (wf_once0 x e' He' Hr) as (? & Hq & _). split_and!; [done| |done].
    intros [Hx|Hx]%elem_of_app; [auto|]. by apply list_elem_of_singleton in Hx.
Qed.

Lemma schedule_wf m delay cb r now : wf m -> wf (schedule m delay cb r now).1.
Proof.
  intros H. simpl. destruct H.
  assert (Hf : entries m !! nextTimerId_ m = None).
  { destruct (entries m !! nextTimerId_ m) eqn:E; [|done]. specialize (wf_ids0 _ (mk_is_Some _ _ E)). lia. }
  assert (Hnin : nextTimerId_ m ∉ timers_ m) by (intros [? ?]%wf_queued0; congruence).
  assert (Hold : ∀ x, is_Some (entries m !! x) -> x ≠ nextTimerId_ m) by (intros x [? ?] ->; congruence).
  constructor; simpl; auto.
  - apply NoDup_app. split_and!; [done| |apply NoDup_singleton]. by intros x Hx ->%list_elem_of_singleton.
  - intros x [Hx|Hx]%elem_of_app; [apply lookup_insert_is_Some'; auto|].
    apply list_elem_of_singleton in Hx as ->. by rewrite lookup_insert_eq.
  - intros x. rewrite elem_of_union, elem_of_singleton, elem_of_app, list_elem_of_singleton, wf_active0.
    destruct (decide (x = nextTimerId_ m)) as [->|Hne].
    + rewrite lookup_insert_eq. split; [|auto]. intros _. split; [auto|]. by eexists.
    + rewrite lookup_insert_ne by done. tauto.
  - intros x [->|Hx]%lookup_insert_is_Some'; [lia|]. specialize (wf_ids0 _ Hx). lia.
  - destruct (worker m) as [|id t|id]; auto.
    + destruct wf_worker0 as (? & e & He & ?). split.
      * rewrite elem_of_app, list_elem_of_singleton. intros [?| ->]; [done|]. congruence.
      * exists e. rewrite lookup_insert_ne; [done|]. apply not_eq_sym, Hold. eauto.
    + destruct wf_worker0 as (? & He). split.
      * rewrite elem_of_app, list_elem_of_singleton. intros [?| ->]; [done|]. destruct He; congruence.
      * apply lookup_insert_is_Some'. auto.
  - intros f Hf'. destruct (wf_fired0 f Hf'). split; [done|lia].
  - intros x e He Hr. apply lookup_insert_Some in He as [[<- <-]|[Hne He]].
    + assert (E0 : fires (schedule m delay cb r now).1 (nextTimerId_ m) = 0%nat).
      { unfold fires. simpl. destruct (filter _ (fired m)) as [|f l] eqn:E; [done|].
        assert (Hin : f ∈ filter (fun f => firedId f = nextTimerId_ m) (fired m)) by (rewrite E; apply elem_of_cons; auto).
        apply list_elem_of_filter in Hin as [Ei Hin]. destruct (wf_fired0 f Hin). lia. }
      simpl in E0. split_and!; [unfold fires in *; simpl in *; lia|done|done].
    + destruct (wf_once0 x e He Hr) as (? & Hq & Ht). split_and!; auto.
      intros [Hx|Hx]%elem_of_app; [by apply Hq|]. apply list_elem_of_singleton in Hx. congruence.
Qed.

Lemma cancel_wf m id : wf m -> wf (cancelTimer m id).1.
Proof.
  intros H. unfold cancelTimer. destruct (bool_decide_reflect (id ∈ activeTimers_ m)) as [Hin|]; [|done]. simpl.
  destruct H. assert (Hq : id ∈ timers_ m) by by apply wf_active0.
  constructor; simpl; auto.
  - intros x Hx. apply lookup_alter_is_Some. auto.
  - intros x. rewrite elem_of_difference, elem_of_singleton, wf_active0. destruct (decide (x = id)) as [->|Hne].
    + split; [tauto|]. intros (_ & e & He & Hc). rewrite lookup_alter_eq in He.
      destruct (entries m !! id); [|done]. injection He as <-. done.
    + rewrite lookup_alter_ne by done. tauto.
  - intros x Hx. apply wf_ids0. by apply lookup_alter_is_Some in Hx.
  - destruct (worker m) as [|x t|x]; auto.
    + destruct wf_worker0 as (? & e & He & ?). split; [done|]. exists e. rewrite lookup_alter_ne; [done|].
      intros ->. done.
    + destruct wf_worker0 as (? & He). split; [done|]. by apply lookup_alter_is_Some.
  - intros x e He Hr. destruct (decide (x = id)) as [->|Hne].
    + rewrite lookup_alter_eq in He. destruct (entries m !! id) as [e0|] eqn:E0; [|done]. injection He as <-.
      by apply (wf_once0 id e0).
    + rewrite lookup_alter_ne in He by done. by apply (wf_once0 x e).
Qed.

Lemma stopEnd_wf m : wf m -> worker m = Waiting -> wf (stopEnd m).
Proof.
  intros [] Hw. unfold stopEnd. constructor; simpl.
  - apply NoDup_nil_2.
  - by intros id ?%elem_of_nil.
  - intros id. rewrite elem_of_empty. split; [done|]. by intros [?%elem_of_nil _].
  - intros id [e He]. rewrite map_lookup_imap in He. apply wf_ids0.
    destruct (entries m !! id); [eauto|done].
  - by rewrite Hw.
  - done.
  - intros id e He Hr. rewrite map_lookup_imap in He. destruct (entries m !! id) as [e0|] eqn:E0; [|done].
    simpl in He. injection He as <-. rewrite Hw. destruct (wf_once0 id e0 E0) as (? & _ & _); [by case_bool_decide|].
    split_and!; [done|by intros ?%elem_of_nil|done].
Qed.

Lemma step_wf m m' : wf m -> step m m' -> wf m'.
Proof.
  intros H Hst. destruct Hst; [by apply wf_setRunning|by apply wf_setRunning|..];
    auto using stopEnd_wf, schedule_wf, cancel_wf, take_wf, call_wf, rearm_wf.
Qed.

Lemma steps_wf m m' : wf m -> steps m m' -> wf m'.
Proof. intros H. induction 1; eauto using step_wf. Qed.

(** ** Cancellation *)

Definition isCancelled (m : TimerManager) (id : TimerId) : Prop :=
  ∃ e, entries m !! id = Some e ∧ cancelled e = true.

(** A cancelled entry stays cancelled and is not called. *)
Lemma cancelled_step m m' id :
  wf m -> isCancelled m id -> step m m' -> isCancelled m' id ∧ fires m' id = fires m id.
Proof.
  intros H (e & He & Hc) Hst. unfold isCancelled.
  destruct Hst as [m|m|m _ _|m delay cb r now|m x|m now _|m|m now]; simpl; eauto.
  - split; [|done]. rewrite map_lookup_imap, He. simpl. eexists. split; [done|]. by case_bool_decide.
  - split; [|done]. exists e. rewrite lookup_insert_ne; [done|].
    intros E. specialize (wf_ids _ H id (mk_is_Some _ _ He)). lia.
  - unfold cancelTimer. case_bool_decide; simpl; [|eauto]. split; [|done].
    destruct (decide (x = id)) as [->|]; [rewrite lookup_alter_eq, He; by eexists|rewrite lookup_alter_ne by done; eauto].
  - unfold workerTake. repeat case_match; simpl; eauto.
  - unfold workerCall. destruct (worker m) as [|x t|x]; eauto. destruct (negb _); [eauto|].
    destruct (entries m !! x) as [ex|] eqn:Ex; [|eauto]. destruct (cancelled ex) eqn:Ec; [eauto|]. simpl.
    split; [eauto|]. unfold fires at 1. simpl. rewrite fires_snoc. simpl. rewrite decide_False; [lia|]. congruence.
  - unfold workerRearm. destruct (worker m) as [| |x]; eauto. destruct (entries m !! x) as [ex|] eqn:Ex; [|eauto].
    destruct (_ || _) eqn:Eg; [eauto|]. simpl. split; [|done]. exists e. rewrite lookup_insert_ne; [done|].
    intros ->. rewrite He in Ex. injection Ex as <-. by rewrite Hc, orb_true_r in Eg.
Qed.

Lemma cancelled_steps m m' id :
  wf m -> steps m m' -> isCancelled m id -> isCancelled m' id ∧ fires m' id = fires m id.
Proof.
  intros H Hs Hc. induction Hs as [m|m m1 m2 Hs IH Hst]; [done|].
  destruct (IH H Hc) as [Hc1 <-]. apply cancelled_step; [by eapply steps_wf|done|done].
Qed.

Lemma cancelTimer_true m id :
  wf m -> id ∈ activeTimers_ m ->
  (cancelTimer m id).2 = true ∧ isCancelled (cancelTimer m id).1 id ∧
  (id ∉ activeTimers_ (cancelTimer m id).1) ∧ fires (cancelTimer m id).1 id = fires m id.
Proof.
  intros H Hin. unfold cancelTimer. rewrite bool_decide_eq_true_2 by done. simpl.
  destruct (proj1 (wf_active _ H id) Hin) as (_ & e & He & _). split_and!; [done| |set_solver|done].
  exists (setCancelled e). simpl. by rewrite lookup_alter_eq, He.
Qed.

(** ** Claims *)

(** In every state the manager can reach: a timer is active exactly when it is queued
    and not cancelled, no timer is queued twice, no callback is called before the timer is
    due, and a one-shot timer's callback is called at most once. *)
Theorem timer_invariant m (Hreach : steps newManager m) :
  NoDup (timers_ m) ∧
  (∀ id, id ∈ activeTimers_ m <-> id ∈ timers_ m ∧ ∃ e, entries m !! id = Some e ∧ cancelled e = false) ∧
  (∀ f, f ∈ fired m -> dueTime f <= takenTime f) ∧
  (∀ id e, entries m !! id = Some e -> repeat_ e = false -> (fires m id <= 1)%nat).
Proof.
  destruct (steps_wf _ _ wf_new Hreach). split_and!; auto.
  - intros f Hf. by apply wf_fired0.
  - intros id e He Hr. by apply (wf_once0 id e).
Qed.

(** C36. When [cancelTimer] returns true, the callback is never called again, whatever
    happens afterwards. *)
Theorem cancelled_never_fires m id m' m''
  (Hreach : steps newManager m) (Hcancel : cancelTimer m id = (m', true)) (Hlater : steps m' m'') :
  fires m'' id = fires m id ∧ id ∉ activeTimers_ m'.
Proof.
  pose proof (steps_wf _ _ wf_new Hreach) as H.
  assert (Hin : id ∈ activeTimers_ m).
  { unfold cancelTimer in Hcancel. by case_bool_decide. }
  destruct (cancelTimer_true m id H Hin) as (_ & Hc & Hn & Hf). rewrite Hcancel in *. simpl in *.
  destruct (cancelled_steps m' m'' id) as [_ ->]; auto.
  rewrite <- (f_equal fst Hcancel : (cancelTimer m id).1 = m'). by apply cancel_wf.
Qed.

(** While the callback of a repeating timer runs, [cancelTimer] on it returns false and
    changes nothing; the worker then re-arms the timer, which stays active. *)
Theorem cancel_in_callback_lost m id e now
  (Hreach : steps newManager m) (Hcall : worker m = Calling id) (He : entries m !! id = Some e)
  (Hrep : repeat_ e = true) (Hlive : cancelled e = false) (Hrun : running_ m = true) :
  cancelTimer m id = (m, false) ∧
  id ∈ activeTimers_ (workerRearm (cancelTimer m id).1 now) ∧ id ∈ timers_ (workerRearm (cancelTimer m id).1 now).
Proof.
  pose proof (steps_wf _ _ wf_new Hreach) as H. pose proof (wf_worker _ H) as Hw. rewrite Hcall in Hw.
  assert (Hnot : id ∉ activeTimers_ m) by (intros [? _]%(wf_active _ H); tauto).
  assert (E : cancelTimer m id = (m, false)) by (unfold cancelTimer; by rewrite bool_decide_eq_false_2).
  rewrite E. simpl. unfold workerRearm. rewrite Hcall, He, Hrep, Hlive, Hrun. simpl.
  split_and!; [done|set_solver|]. apply elem_of_app. right. by apply list_elem_of_singleton.
Qed.

(** Refreshing a managed connection whose timeout is pending: the old timer never
    fires, and a new, different timer is armed for the connection. *)
Theorem refresh_supersedes s conn old now m''
  (Hreach : steps newManager (ctManager s)) (Hconn : ctConnections s !! conn = Some old)
  (Hpend : ctTimerId old ∈ activeTimers_ (ctManager s))
  (Hlater : steps (ctManager (refreshConnection s conn now)) m'') :
  fires m'' (ctTimerId old) = fires (ctManager s) (ctTimerId old) ∧
  ∃ new, ctConnections (refreshConnection s conn now) !! conn = Some new ∧
    ctTimerId new ≠ ctTimerId old ∧
    ctTimerId new ∈ activeTimers_ (ctManager (refreshConnection s conn now)).
Proof.
  pose proof (steps_wf _ _ wf_new Hreach) as H. unfold refreshConnection in *. rewrite Hconn in *. simpl in *.
  destruct (cancelTimer_true _ _ H Hpend) as (_ & Hc & _ & Hf).
  pose proof (cancel_wf _ (ctTimerId old) H) as H1. set (mc := (cancelTimer (ctManager s) (ctTimerId old)).1) in *.
  pose proof (step_schedule mc (ctTimeout old) (ctCallback old) false now) as Hst.
  destruct (cancelled_step _ _ _ H1 Hc Hst) as [Hc2 Hf2]. pose proof (step_wf _ _ H1 Hst) as H2.
  destruct (cancelled_steps _ _ _ H2 Hlater Hc2) as [_ Hf3]. split; [congruence|].
  eexists. rewrite lookup_insert_eq. split_and!; [done| |set_solver]. simpl.
  destruct Hc as (e & He & _). specialize (wf_ids _ H1 _ (mk_is_Some _ _ He)). lia.
Qed.

(** ** Witnesses *)

(** A repeating timer, taken and called at its due time. *)
Definition m1 : TimerManager := (schedule newManager 10 7 true 0).1.
Definition m2 : TimerManager := workerCall (workerTake m1 10).

Lemma m1_reachable : steps newManager m1.
Proof. eapply steps_trans; [apply steps_refl|]. apply step_schedule. Qed.

Lemma m2_reachable : steps newManager m2.
Proof.
  eapply steps_trans; [|apply step_call]. eapply steps_trans; [exact m1_reachable|]. by apply step_take.
Qed.

Lemma timer_invariant_witness :
  fired m2 = [mkFiring 1 10 10] ∧ NoDup (timers_ m2) ∧ (∀ f, f ∈ fired m2 -> dueTime f <= takenTime f).
Proof.
  split; [vm_compute; reflexivity|].
  destruct (timer_invariant m2 m2_reachable) as (H1 & _ & H2 & _). split; [exact H1|exact H2].
Defined.

Lemma cancelled_never_fires_witness :
  ∃ m', cancelTimer m1 1 = (m', true) ∧ fires (workerCall (workerTake m' 100)) 1 = 0%nat ∧ 1 ∉ activeTimers_ m'.
Proof.
  eexists. split; [vm_compute; reflexivity|].
  eapply (cancelled_never_fires m1 1); [exact m1_reachable|vm_compute; reflexivity|].
  eapply steps_trans; [|apply step_call]. eapply steps_trans; [apply steps_refl|]. by apply step_take.
Defined.

Lemma cancel_in_callback_lost_witness :
  cancelTimer m2 1 = (m2, false) ∧
  1 ∈ activeTimers_ (workerRearm (cancelTimer m2 1).1 12) ∧ 1 ∈ timers_ (workerRearm (cancelTimer m2 1).1 12).
Proof.
  eapply (cancel_in_callback_lost m2 1); [exact m2_reachable|vm_compute; reflexivity..].
Defined.

(** Connection 5 with a pending timeout. *)
Definition s1 : TimeoutState := setConnectionTimeout (mkTimeouts ∅ newManager) 5 30 9 0.

Lemma refresh_supersedes_witness :
  ctConnections s1 !! 5 = Some (mkTimeout 1 30 9) ∧
  fires (ctManager (refreshConnection s1 5 20)) 1 = 0%nat ∧
  ∃ new, ctConnections (refreshConnection s1 5 20) !! 5 = Some new ∧ ctTimerId new ≠ 1 ∧
    ctTimerId new ∈ activeTimers_ (ctManager (refreshConnection s1 5 20)).
Proof.
  split; [vm_compute; reflexivity|].
  apply (refresh_supersedes s1 5 (mkTimeout 1 30 9) 20 (ctManager (refreshConnection s1 5 20))).
  - eapply steps_trans; [apply steps_refl|]. exact (step_schedule newManager 30 9 false 0).
  - vm_compute. reflexivity.
  - apply (bool_decide_unpack _). vm_compute. exact I.
  - apply steps_refl.
Defined.

(** The table keeps the entry of a connection whose timeout has fired. *)
Example fired_timeout_stays_managed :
  let m := workerCall (workerTake (ctManager s1) 30) in
  fires m 1 = 1%nat ∧ getManagedConnectionCount (mkTimeouts (ctConnections s1) m) = 1.
Proof. vm_compute. done. Qed.
