(* ===== verification/TcpConnectionPool.v ===== *)
(** * TCP connection pool (src/TcpConnectionPool.cpp)

    Each critical section of the pool's mutex is one function on the shared state; the
    sections of a call that gives the mutex up in between ([acquireSync], [release],
    [cleanupIdleConnections], [ensureMinimumConnections]) and what it does to the atomic
    counters without the mutex are separate functions, and the step relation at the end
    interleaves them.  A [shared_ptr<PooledConnection>] is the identifier of an object in
    [store].  The counters are kept at 32 bits, [creatingConnections_] at 64.  Whether a
    [TcpClient] connects, and when a peer goes away, is decided by the environment. *)

From S2P Require Import Prelude.

(** ** Data *)

Inductive PooledConnectionState := Idle | InUse | Closing | Closed | ErrorState.

#[export] Instance pcs_eq_dec : EqDecision PooledConnectionState.
Proof. solve_decision. Defined.

(** [PooledConnection]; [connected] is what its client's [isConnected] returns. *)
Record PooledConnection := mkConn {
  state_ : PooledConnectionState;
  lastUsedTime_ : Z;
  connected : bool
}.

Record TcpConnectionPoolOptions := mkOptions {
  minConnections : Z;
  maxConnections : Z;
  acquireTimeout : Z;
  idleTimeout : Z
}.

Definition ConnPtr : Type := Z.
Definition Callback : Type := Z.

(** What an acquire callback is posted with. *)
Inductive AcquireResult :=
  | Granted (c : ConnPtr)
  | ShutDown
  | TimedOut.

Record Pool := mkPool {
  connections_ : list ConnPtr;
  idleConnections_ : list ConnPtr;
  pendingAcquires_ : list Callback;
  currentConnections_ : Z;
  idleConnectionsCount_ : Z;
  inUseConnectionsCount_ : Z;
  creatingConnections_ : Z;
  initialized_ : bool;
  shutdown_ : bool;
  store : gmap ConnPtr PooledConnection;
  fresh : ConnPtr;                          (* the next object *)
  posted : list (Callback * AcquireResult)  (* ioService_.post, in order *)
}.

Definition emptyPool : Pool := mkPool [] [] [] 0 0 0 0 false false ∅ 1 [].

(** ** Field updates *)

Definition setConnections (p : Pool) l : Pool :=
  mkPool l (idleConnections_ p) (pendingAcquires_ p) (currentConnections_ p) (idleConnectionsCount_ p)
    (inUseConnectionsCount_ p) (creatingConnections_ p) (initialized_ p) (shutdown_ p) (store p) (fresh p) (posted p).
Definition setIdleList (p : Pool) l : Pool :=
  mkPool (connections_ p) l (pendingAcquires_ p) (currentConnections_ p) (idleConnectionsCount_ p)
    (inUseConnectionsCount_ p) (creatingConnections_ p) (initialized_ p) (shutdown_ p) (store p) (fresh p) (posted p).
Definition setPendingList (p : Pool) l : Pool :=
  mkPool (connections_ p) (idleConnections_ p) l (currentConnections_ p) (idleConnectionsCount_ p)
    (inUseConnectionsCount_ p) (creatingConnections_ p) (initialized_ p) (shutdown_ p) (store p) (fresh p) (posted p).
Definition setCurrent (p : Pool) n : Pool :=
  mkPool (connections_ p) (idleConnections_ p) (pendingAcquires_ p) n (idleConnectionsCount_ p)
    (inUseConnectionsCount_ p) (creatingConnections_ p) (initialized_ p) (shutdown_ p) (store p) (fresh p) (posted p).
Definition setIdleCount (p : Pool) n : Pool :=
  mkPool (connections_ p) (idleConnections_ p) (pendingAcquires_ p) (currentConnections_ p) n
    (inUseConnectionsCount_ p) (creatingConnections_ p) (initialized_ p) (shutdown_ p) (store p) (fresh p) (posted p).
Definition setInUseCount (p : Pool) n : Pool :=
  mkPool (connections_ p) (idleConnections_ p) (pendingAcquires_ p) (currentConnections_ p)
    (idleConnectionsCount_ p) n (creatingConnections_ p) (initialized_ p) (shutdown_ p) (store p) (fresh p) (posted p).
Definition setCreating (p : Pool) n : Pool :=
  mkPool (connections_ p) (idleConnections_ p) (pendingAcquires_ p) (currentConnections_ p)
    (idleConnectionsCount_ p) (inUseConnectionsCount_ p) n (initialized_ p) (shutdown_ p) (store p) (fresh p) (posted p).
Definition setStore (p : Pool) m : Pool :=
  mkPool (connections_ p) (idleConnections_ p) (pendingAcquires_ p) (currentConnections_ p)
    (idleConnectionsCount_ p) (inUseConnectionsCount_ p) (creatingConnections_ p) (initialized_ p) (shutdown_ p) m
    (fresh p) (posted p).
Definition setPosted (p : Pool) l : Pool :=
  mkPool (connections_ p) (idleConnections_ p) (pendingAcquires_ p) (currentConnections_ p)
    (idleConnectionsCount_ p) (inUseConnectionsCount_ p) (creatingConnections_ p) (initialized_ p) (shutdown_ p)
    (store p) (fresh p) l.

Definition post (p : Pool) (cb : Callback) (r : AcquireResult) : Pool := setPosted p (posted p ++ [(cb, r)]).

(** [fetch_add(1)] and [fetch_sub(1)] on a [uint32_t]. *)
Definition inc (n : Z) : Z := u32 (n + 1).
Definition dec (n : Z) : Z := u32 (n - 1).

(** ** PooledConnection *)

Definition isValid (c : PooledConnection) : bool :=
  connected c && negb (bool_decide (state_ c = Closing)) && negb (bool_decide (state_ c = Closed)) &&
  negb (bool_decide (state_ c = ErrorState)).

Definition setState (c : PooledConnection) (s : PooledConnectionState) : PooledConnection :=
  mkConn s (lastUsedTime_ c) (connected c).

Definition updateUsedTime (c : PooledConnection) (now : Z) : PooledConnection :=
  mkConn (state_ c) now (connected c).

(** [close]: the client is disconnected on the way. *)
Definition close (c : PooledConnection) : PooledConnection :=
  if bool_decide (state_ c = Closed) then c else mkConn Closed (lastUsedTime_ c) false.

Definition onConn (p : Pool) (cid : ConnPtr) (f : PooledConnection -> PooledConnection) : Pool :=
  setStore p (alter f cid (store p)).

(** [setState(InUse); updateUsedTime()]. *)
Definition markInUse (p : Pool) (cid : ConnPtr) (now : Z) : Pool :=
  onConn p cid (fun c => updateUsedTime (setState c InUse) now).

(** ** Pool members *)

Section WithOptions.
Context (options_ : TcpConnectionPoolOptions).

Definition canReuse (p : Pool) (cid : ConnPtr) (now : Z) : bool :=
  match store p !! cid with
  | None => false
  | Some c => isValid c && (now - lastUsedTime_ c <=? idleTimeout options_)
  end.

(** [setState(Error); close()]. *)
Definition closeBroken (p : Pool) (cid : ConnPtr) : Pool := onConn p cid (fun c => close (setState c ErrorState)).

(** Removal from [connections_], [currentConnections_ - 1]. *)
Definition removeConnection (p : Pool) (cid : ConnPtr) : Pool :=
  let p := setConnections p (filter (.≠ cid) (connections_ p)) in
  setCurrent p (dec (currentConnections_ p)).

Definition discard (p : Pool) (cid : ConnPtr) : Pool := removeConnection (closeBroken p cid) cid.

(** The loop pops one entry per round. *)
Fixpoint tryAcquireIdleLoop (fuel : nat) (p : Pool) (now : Z) : Pool * option ConnPtr :=
  match fuel, idleConnections_ p with
  | S fuel, cid :: rest =>
      let p := setIdleCount (setIdleList p rest) (dec (idleConnectionsCount_ p)) in
      if canReuse p cid now then (p, Some cid)
      else tryAcquireIdleLoop fuel (discard p cid) now
  | _, _ => (p, None)
  end.

Definition tryAcquireIdleLocked (p : Pool) (now : Z) : Pool * option ConnPtr :=
  tryAcquireIdleLoop (length (idleConnections_ p)) p now.

Definition totalInFlight (p : Pool) : Z := u64 (currentConnections_ p + creatingConnections_ p).

(** [createConnection] once the client has connected: registration under the mutex. *)
Definition registerConnection (p : Pool) (now : Z) : Pool * ConnPtr :=
  let cid := fresh p in
  (mkPool (connections_ p ++ [cid]) (idleConnections_ p) (pendingAcquires_ p) (inc (currentConnections_ p))
     (idleConnectionsCount_ p) (inUseConnectionsCount_ p) (creatingConnections_ p) (initialized_ p) (shutdown_ p)
     (<[cid := mkConn Idle now true]> (store p)) (cid + 1) (posted p), cid).

(** [creatingConnections_.fetch_add(1)] and [fetch_sub(1)]. *)
Definition beginCreating (p : Pool) : Pool := setCreating p (u64 (creatingConnections_ p + 1)).

(** What the critical section of [acquire] decides. *)
Inductive acquireNext := Answered (granted : option ConnPtr) | Queued | GoSync.

Definition acquire (p : Pool) (cb : Callback) (now : Z) : Pool * acquireNext :=
  if shutdown_ p then (post p cb ShutDown, Answered None)
  else
    let '(p, r) := tryAcquireIdleLocked p now in
    match r with
    | Some cid =>
        let p := setInUseCount (markInUse p cid now) (inc (inUseConnectionsCount_ p)) in
        (post p cb (Granted cid), Answered (Some cid))
    | None =>
        if maxConnections options_ <=? totalInFlight p
        then (setPendingList p (pendingAcquires_ p ++ [cb]), Queued)
        else (p, GoSync)
    end.

(** One round of [acquireSync] up to the point where it gives the mutex up. *)
Inductive syncNext := SyncGot (cid : ConnPtr) | SyncCreate | SyncWait.

Definition syncTry (p : Pool) (now : Z) : Pool * syncNext :=
  let '(p, r) := tryAcquireIdleLocked p now in
  match r with
  | Some cid => (setInUseCount (markInUse p cid now) (inc (inUseConnectionsCount_ p)), SyncGot cid)
  | None =>
      if totalInFlight p <? maxConnections options_
      then (beginCreating p, SyncCreate)
      else (p, SyncWait)
  end.


(** What the critical section of [release] decides: to pass the connection to a queued
    request, to keep it, or to close it. *)
Inductive releaseNext := HandTo (cb : Callback) | Kept | ShouldClose.

Definition releaseSection (p : Pool) (cid : ConnPtr) (reusable : bool) (now : Z) : Pool * releaseNext :=
  if shutdown_ p then (p, ShouldClose)
  else if reusable then
    match pendingAcquires_ p with
    | cb :: pending => (markInUse (setPendingList p pending) cid now, HandTo cb)
    | [] =>
        let p := onConn p cid (fun c => updateUsedTime (setState c Idle) now) in
        let p := setIdleList p (idleConnections_ p ++ [cid]) in
        (setIdleCount p (inc (idleConnectionsCount_ p)), Kept)
    end
  else (p, ShouldClose).

(** [inUseConnectionsCount_.fetch_sub(1)], after the section. *)
Definition leaveUse (p : Pool) : Pool := setInUseCount p (dec (inUseConnectionsCount_ p)).

(** [release], its parts one after the other. *)
Definition release (p : Pool) (cid : ConnPtr) (now : Z) : Pool :=
  match store p !! cid with
  | None => p
  | Some c =>
      let reusable := canReuse p cid now in
      let wasInUse := bool_decide (state_ c = InUse) in
      let '(p, next) := releaseSection p cid reusable now in
      match next with
      | HandTo cb => post p cb (Granted cid)
      | Kept => if wasInUse then leaveUse p else p
      | ShouldClose => discard (if wasInUse then leaveUse p else p) cid
      end
  end.

(** The critical section of [cleanupIdleConnections], the loop over the old queue. *)
Fixpoint cleanupLoop (p : Pool) (queue retained stale : list ConnPtr) (now : Z) : Pool * list ConnPtr * list ConnPtr :=
  match queue with
  | [] => (p, retained, stale)
  | cid :: queue =>
      let belowMinimum := zlen retained + zlen stale + 1 <=? minConnections options_ in
      let expired := match store p !! cid with
                     | Some c => idleTimeout options_ <? now - lastUsedTime_ c
                     | None => false
                     end in
      if negb belowMinimum && (negb (canReuse p cid now) || expired) then
        let p := setIdleCount p (dec (idleConnectionsCount_ p)) in
        let p := setConnections p (filter (.≠ cid) (connections_ p)) in
        let p := setCurrent p (dec (currentConnections_ p)) in
        cleanupLoop p queue retained (stale ++ [cid]) now
      else cleanupLoop p queue (retained ++ [cid]) stale now
  end.

Definition cleanupSection (p : Pool) (now : Z) : Pool * list ConnPtr :=
  let '(p, retained, stale) := cleanupLoop p (idleConnections_ p) [] [] now in
  (setIdleList p retained, stale).

(** The connections that were taken out are closed without the mutex. *)
Definition cleanupIdleConnections (p : Pool) (now : Z) : Pool :=
  let '(p, stale) := cleanupSection p now in
  fold_left (fun p cid => onConn p cid close) stale p.

(** The loop condition of [ensureMinimumConnections], read without the mutex: [current] is what
    [currentConnections_] was when it was read. *)
Definition belowMinimum (p : Pool) (current : Z) : bool := u64 (current + creatingConnections_ p) <? minConnections options_.

(** A new connection joins the idle queue ([initialize], [ensureMinimumConnections]). *)
Definition parkIdle (p : Pool) (cid : ConnPtr) : Pool :=
  let p := onConn p cid (fun c => setState c Idle) in
  setIdleCount (setIdleList p (idleConnections_ p ++ [cid])) (inc (idleConnectionsCount_ p)).

(** [initialize]: [outcomes] tells which connection attempts succeed; the loop stops at the
    first failure.  The result says whether the pool was not yet initialised. *)
Fixpoint initializeLoop (n : nat) (p : Pool) (outcomes : list bool) (now : Z) : Pool :=
  match n, outcomes with
  | S n, true :: outcomes =>
      let '(p, cid) := registerConnection p now in initializeLoop n (parkIdle p cid) outcomes now
  | _, _ => p
  end.

Definition setFlags (p : Pool) (init shut : bool) : Pool :=
  mkPool (connections_ p) (idleConnections_ p) (pendingAcquires_ p) (currentConnections_ p)
    (idleConnectionsCount_ p) (inUseConnectionsCount_ p) (creatingConnections_ p) init shut
    (store p) (fresh p) (posted p).

Definition initialize (p : Pool) (outcomes : list bool) (now : Z) : Pool * bool :=
  if initialized_ p then (p, false)
  else (initializeLoop (Z.to_nat (minConnections options_)) (setFlags p true false) outcomes now, true).

(** [shutdown], the maintenance thread joined. *)
Definition shutdown (p : Pool) : Pool :=
  if shutdown_ p then p
  else
    let st := foldr (fun cid m => alter close cid m) (store p) (connections_ p) in
    mkPool [] [] [] 0 0 0 0 false true st (fresh p)
      (posted p ++ ((fun cb => (cb, ShutDown)) <$> pendingAcquires_ p)).

End WithOptions.

(** ** Interleavings *)

(** How far a call of [release] has come: what it has read of the connection; the decrement of
    [inUseConnectionsCount_], with the connection that is then closed; the post of the
    callback it took from the queue; the close; the removal. *)
Inductive Release :=
  | Deciding (cid : ConnPtr) (reusable wasInUse : bool)
  | Leaving (closing : option ConnPtr)
  | Posting (cid : ConnPtr) (cb : Callback)
  | Breaking (cid : ConnPtr)
  | Removing (cid : ConnPtr).

(** How far the maintenance thread has come: waiting; closing what the cleanup took out; at the
    loop condition of [ensureMinimumConnections], without or with [currentConnections_] read;
    past it; connecting; back from [createConnection]; adding to the idle queue. *)
Inductive Maintenance :=
  | Resting
  | Sweeping (stale : list ConnPtr)
  | Testing
  | TestingWith (current : Z)
  | Tested
  | Dialling
  | Dialled (created : option ConnPtr)
  | Parking (cid : ConnPtr).

(** The pool and where its callers and the maintenance thread stand: connections handed out,
    connections registered by an [acquireSync] that has not taken the mutex again, attempts of
    [acquireSync] still connecting, calls of [release] under way.  [topped] are the
    connections the maintenance thread has made. *)
Record Machine := mkMachine {
  pool : Pool;
  held : list ConnPtr;
  flying : list ConnPtr;
  connecting : nat;
  releases : list Release;
  maintenance : Maintenance;
  topped : list ConnPtr
}.



Section Steps.
Context (options_ : TcpConnectionPoolOptions).






(** ** Invariant *)

(** The connection a call of [release] has in its hands, whether it has still to decrement
    [inUseConnectionsCount_], and the connection it passes on without doing so. *)
Definition owned (r : Release) : list ConnPtr :=
  match r with
  | Deciding cid _ _ | Breaking cid | Removing cid => [cid]
  | Leaving closing => option_list closing
  | Posting _ _ => []
  end.
Definition counted (r : Release) : Z := match r with Deciding _ _ _ | Leaving _ => 1 | _ => 0 end.
Definition posting (r : Release) : list ConnPtr := match r with Posting cid _ => [cid] | _ => [] end.

Definition ownedBy (l : list Release) : list ConnPtr := concat (owned <$> l).
Definition countedOf (l : list Release) : Z := foldr (fun r n => counted r + n) 0 l.
Definition postingOf (l : list Release) : list ConnPtr := concat (posting <$> l).

(** The same of the maintenance thread: its connection, its part of [creatingConnections_], and
    the attempt it has decided on. *)
Definition maintained (t : Maintenance) : list ConnPtr :=
  match t with Dialled created => option_list created | Parking cid => [cid] | _ => [] end.

Definition busy (m : Machine) : list ConnPtr := flying m ++ maintained (maintenance m) ++ ownedBy (releases m).

(** [hand] is the connection the running critical section has taken from its place; [u] the
    releases still counted as uses, [a] the attempts. *)
Record poolOk (p : Pool) (hand : option ConnPtr) (held busy : list ConnPtr) (u a : Z) : Prop := mkPoolOk {
  ok_perm : connections_ p ≡ₚ option_list hand ++ idleConnections_ p ++ held ++ busy;
  ok_nodup : NoDup (connections_ p);
  ok_fits : zlen (connections_ p) < 2 ^ 32;
  ok_current : currentConnections_ p = zlen (connections_ p);
  ok_idle : idleConnectionsCount_ p = zlen (idleConnections_ p);
  ok_inuse : inUseConnectionsCount_ p = u32 (zlen held + u);
  ok_creating : creatingConnections_ p = u64 a;
  ok_fresh : ∀ cid, cid ∈ connections_ p -> cid < fresh p;
  ok_store : ∀ cid, cid ∈ connections_ p -> is_Some (store p !! cid);
  ok_held : ∀ cid, cid ∈ held -> ∃ c, store p !! cid = Some c ∧ state_ c = InUse;
  ok_free : ∀ cid, cid ∈ idleConnections_ p -> ∃ c, store p !! cid = Some c ∧ state_ c = Idle;
  ok_running : shutdown_ p = false
}.
































(** ** The budget of connections *)










(** ** The machine *)


Context (sizes_fit : 0 <= minConnections options_ ∧ 0 <= maxConnections options_ ∧ maxConnections options_ + minConnections options_ < 2 ^ 32).



Lemma releases_cons r l : ownedBy (r :: l) = owned r ++ ownedBy l ∧ postingOf (r :: l) = posting r ++ postingOf l ∧ countedOf (r :: l) = counted r + countedOf l.
Proof. done. Qed.

(** ** Maintenance *)




(** ** Release *)



(** ** Start *)




(** ** Every step *)









Lemma attempts_ok p hand held busy u a a' : poolOk p hand held busy u a -> a = a' -> poolOk p hand held busy u a'.
Proof. by intros ? <-. Qed.





End Steps.

(** ** Claims *)


Definition sampleOptions : TcpConnectionPoolOptions := mkOptions 1 1 5000 30000.




Lemma dec_zero : dec 0 = 2 ^ 32 - 1.
Proof. vm_compute. reflexivity. Qed.

Lemma wrapped_total : u64 (2 ^ 32 - 1 + 0) = 2 ^ 32 - 1.
Proof. vm_compute. reflexivity. Qed.

(** A connection released after [shutdown] takes [currentConnections_], which the
    shutdown has set to 0, below zero: the counter wraps to [2^32 - 1], and if the pool is
    initialised again, every request is queued although the pool has no connection. *)
Theorem release_after_shutdown options_ p cid now cb now'
  (Hrun : shutdown_ p = false) (Hcid : is_Some (store p !! cid))
  (Hmax : maxConnections options_ < 2 ^ 32) :
  let p2 := release options_ (shutdown p) cid now in
  currentConnections_ p2 = 2 ^ 32 - 1 ∧ connections_ p2 = [] ∧
  (acquire options_ (initialize options_ p2 [] now).1 cb now').2 = Queued.
Proof.
  destruct Hcid as [c Hc]. cbv zeta.
  assert (Hst : is_Some (store (shutdown p) !! cid)).
  { unfold shutdown. rewrite Hrun. simpl. induction (connections_ p) as [|x l IH]; simpl; [eauto|].
    by apply lookup_alter_is_Some. }
  destruct Hst as [c' Hc'].
  assert (Hs : shutdown_ (shutdown p) = true) by (unfold shutdown; by rewrite Hrun).
  assert (Hp : shutdown p = mkPool [] [] [] 0 0 0 0 false true (store (shutdown p)) (fresh p) (posted (shutdown p)))
    by (unfold shutdown; by rewrite Hrun).
  unfold release, releaseSection. rewrite Hc', Hs. revert Hp. generalize (shutdown p) as q. intros q ->.
  set (q1 := if bool_decide _ then _ else _).
  assert (Hq : idleConnections_ q1 = [] ∧ connections_ q1 = [] ∧ currentConnections_ q1 = 0 ∧
    creatingConnections_ q1 = 0 ∧ initialized_ q1 = false) by (unfold q1; by case_match).
  destruct Hq as (E1 & E2 & E3 & E4 & E5). clearbody q1.
  unfold initialize. change (initialized_ (discard q1 cid)) with (initialized_ q1). rewrite E5.
  split_and!; [simpl; rewrite E3; apply dec_zero|simpl; by rewrite E2|].
  assert (Hi : ∀ n q, initializeLoop n q [] now = q) by (by intros []). rewrite Hi.
  unfold acquire, tryAcquireIdleLocked. simpl. rewrite E1. simpl. unfold totalInFlight. simpl.
  rewrite E3, E4, dec_zero, wrapped_total. by rewrite (proj2 (Z.leb_le _ _)) by lia.
Qed.

Lemma release_after_shutdown_witness :
  let p := (initialize sampleOptions emptyPool [true] 0).1 in
  let p2 := release sampleOptions (shutdown p) 1 0 in
  currentConnections_ p2 = 2 ^ 32 - 1 ∧ connections_ p2 = [] ∧
  (acquire sampleOptions (initialize sampleOptions p2 [] 0).1 7 1).2 = Queued.
Proof.
  apply (release_after_shutdown sampleOptions (initialize sampleOptions emptyPool [true] 0).1 1 0 7 1).
  - reflexivity.
  - vm_compute. eexists. reflexivity.
  - reflexivity.
Defined.

(** ** Further behaviours on concrete runs *)

(** The maintenance thread reads the counters before it announces its attempt; a caller that
    comes in between makes the pool grow to two connections with a maximum of one. *)
Example minimum_race_exceeds_maximum :
  let p := (initialize sampleOptions emptyPool [false] 0).1 in
  belowMinimum sampleOptions p (currentConnections_ p) = true ∧
  let '(p, n) := syncTry sampleOptions p 1 in
  n = SyncCreate ∧
  let p := beginCreating p in
  let '(p, _) := registerConnection p 2 in
  let '(p, _) := registerConnection p 2 in
  maxConnections sampleOptions < zlen (connections_ p).
Proof. vm_compute. done. Qed.

(** A request waiting in the queue is not served when the connection it waits for breaks,
    nor when the maintenance thread puts a new connection into the idle queue. *)
Example pending_request_starves :
  let p := (initialize sampleOptions emptyPool [true] 0).1 in
  let '(p, _) := acquire sampleOptions p 7 1 in
  let '(p, n) := acquire sampleOptions p 8 2 in
  let p := onConn p 1 (fun c => mkConn (state_ c) (lastUsedTime_ c) false) in
  let p := release sampleOptions p 1 3 in
  let '(p, cid) := registerConnection p 4 in
  let p := cleanupIdleConnections sampleOptions (parkIdle p cid) 5 in
  n = Queued ∧ idleConnections_ p = [2] ∧ pendingAcquires_ p = [8] ∧ posted p = [(7, Granted 1)].
Proof. vm_compute. done. Qed.

(** Releasing a connection twice puts it into the idle queue twice; two callers then share it. *)
Example double_release_shares :
  let p := (initialize sampleOptions emptyPool [true] 0).1 in
  let '(p, _) := acquire sampleOptions p 7 1 in
  let p := release sampleOptions (release sampleOptions p 1 2) 1 2 in
  let '(p, _) := acquire sampleOptions p 8 3 in
  let '(p, _) := acquire sampleOptions p 9 3 in
  posted p = [(7, Granted 1); (8, Granted 1); (9, Granted 1)].
Proof. vm_compute. done. Qed.
