(* ===== verification/ConnectionManager.v ===== *)
(** * Service-level connection manager (src/ConnectionManager.cpp)

    Every public member takes the manager's mutex for its whole body, so a call is a
    function from one state to the next; [now] is the value it reads from the steady clock.
    [std::unordered_map] is a finite map, visited in some fixed order; a reference or
    iterator is the key or index it designates.  Counters are unbounded. *)

From S2P Require Import Prelude CType.

(** ** Data (include/FastNet/ConnectionManager.h) *)

Definition ConnectionId : Type := Z.
Definition TimePoint : Type := Z.

Record ConnectionInfo := mkInfo {
  connId : ConnectionId;
  service : list byte;
  remoteHost : list byte;
  remotePort : Z;
  createdAt : TimePoint;
  lastUsed : TimePoint;
  isActive : bool
}.

Inductive LoadBalancingStrategy := RoundRobin | Random | LeastConnections | WeightedRoundRobin | IPHash.

Record BackendServer := mkBackend {
  host : list byte;
  port : Z;
  weight : Z;
  healthy : bool;
  activeConnections : Z;
  failureCount : Z;
  currentWeight : Z;
  lastCheckTime : TimePoint;
  lastFailureTime : TimePoint
}.

Inductive CircuitBreakerState := Closed | Open | HalfOpen.

Record CircuitBreakerStats := mkBreaker {
  state : CircuitBreakerState;
  cbFailureCount : Z;
  cbSuccessCount : Z;
  cbTimeoutCount : Z;
  cbLastFailureTime : TimePoint
}.

Record ServiceState := mkService {
  backends : list BackendServer;
  idleConnections : list ConnectionId;
  strategy : LoadBalancingStrategy;
  circuitBreaker : CircuitBreakerStats;
  roundRobinIndex : Z;
  maxPoolSize : Z;
  svcPendingRequests : Z;
  totalConnections : Z
}.

(** The option values [Impl] reads from the configuration. *)
Record Settings := mkSettings {
  optConnectionTimeout : Z;
  optHealthCheckInterval : Z;
  optRecoveryTimeout : Z;
  optCircuitBreakerEnabled : bool;
  optFailureThreshold : Z;
  optHalfOpenAttempts : Z;
  optMaxConnections : Z;
  optLoadBalancingStrategy : list byte
}.

(** The state behind the mutex. *)
Record Impl := mkImpl {
  connections : gmap ConnectionId ConnectionInfo;
  services : gmap (list byte) ServiceState;
  nextConnectionId : ConnectionId;
  pendingRequests : Z
}.

#[export] Instance strategy_eq_dec : EqDecision LoadBalancingStrategy.
Proof. solve_decision. Defined.
#[export] Instance breakerState_eq_dec : EqDecision CircuitBreakerState.
Proof. solve_decision. Defined.

Definition emptyImpl : Impl := mkImpl ∅ ∅ 1 0.

(** [ServiceState{}]. *)
Definition newService : ServiceState :=
  mkService [] [] RoundRobin (mkBreaker Closed 0 0 0 0) 0 0 0 0.

(** ** Field updates *)

Definition setActive (b : BackendServer) (n : Z) : BackendServer :=
  mkBackend (host b) (port b) (weight b) (healthy b) n (failureCount b) (currentWeight b)
    (lastCheckTime b) (lastFailureTime b).
Definition setCurrentWeight (b : BackendServer) (w : Z) : BackendServer :=
  mkBackend (host b) (port b) (weight b) (healthy b) (activeConnections b) (failureCount b) w
    (lastCheckTime b) (lastFailureTime b).

Definition setBackends (s : ServiceState) (bs : list BackendServer) : ServiceState :=
  mkService bs (idleConnections s) (strategy s) (circuitBreaker s) (roundRobinIndex s)
    (maxPoolSize s) (svcPendingRequests s) (totalConnections s).
Definition setIdle (s : ServiceState) (ids : list ConnectionId) : ServiceState :=
  mkService (backends s) ids (strategy s) (circuitBreaker s) (roundRobinIndex s)
    (maxPoolSize s) (svcPendingRequests s) (totalConnections s).
Definition setStrategy (s : ServiceState) (x : LoadBalancingStrategy) : ServiceState :=
  mkService (backends s) (idleConnections s) x (circuitBreaker s) (roundRobinIndex s)
    (maxPoolSize s) (svcPendingRequests s) (totalConnections s).
Definition setBreaker (s : ServiceState) (c : CircuitBreakerStats) : ServiceState :=
  mkService (backends s) (idleConnections s) (strategy s) c (roundRobinIndex s)
    (maxPoolSize s) (svcPendingRequests s) (totalConnections s).
Definition setRoundRobin (s : ServiceState) (i : Z) : ServiceState :=
  mkService (backends s) (idleConnections s) (strategy s) (circuitBreaker s) i
    (maxPoolSize s) (svcPendingRequests s) (totalConnections s).
Definition setPending (s : ServiceState) (n : Z) : ServiceState :=
  mkService (backends s) (idleConnections s) (strategy s) (circuitBreaker s) (roundRobinIndex s)
    (maxPoolSize s) n (totalConnections s).
Definition setTotal (s : ServiceState) (n : Z) : ServiceState :=
  mkService (backends s) (idleConnections s) (strategy s) (circuitBreaker s) (roundRobinIndex s)
    (maxPoolSize s) (svcPendingRequests s) n.
Definition setMaxPool (s : ServiceState) (n : Z) : ServiceState :=
  mkService (backends s) (idleConnections s) (strategy s) (circuitBreaker s) (roundRobinIndex s)
    n (svcPendingRequests s) (totalConnections s).

Definition setConnections (st : Impl) (m : gmap ConnectionId ConnectionInfo) : Impl :=
  mkImpl m (services st) (nextConnectionId st) (pendingRequests st).
Definition setService (st : Impl) (name : list byte) (s : ServiceState) : Impl :=
  mkImpl (connections st) (<[name := s]> (services st)) (nextConnectionId st) (pendingRequests st).
Definition setServices (st : Impl) (m : gmap (list byte) ServiceState) : Impl :=
  mkImpl (connections st) m (nextConnectionId st) (pendingRequests st).
Definition setPendingRequests (st : Impl) (n : Z) : Impl :=
  mkImpl (connections st) (services st) (nextConnectionId st) n.

(** [serviceState], a reference held through a call. *)
Definition svc (st : Impl) (name : list byte) : ServiceState := default newService (services st !! name).

(** ** Helpers of the anonymous namespace *)

Definition normalizeStrategyName (text : list byte) : list byte :=
  tolower <$> filter (fun ch => isalnum ch = true) text.

Definition applyBackendStatus (b : BackendServer) (success : bool) (failureThreshold : Z)
    (now : TimePoint) : BackendServer :=
  if success then
    mkBackend (host b) (port b) (weight b) true (activeConnections b) 0 0 now (lastFailureTime b)
  else
    let failures := failureCount b + 1 in
    if failureThreshold <=? failures then
      mkBackend (host b) (port b) (weight b) false (activeConnections b) failures 0 now now
    else
      mkBackend (host b) (port b) (weight b) (healthy b) (activeConnections b) failures
        (currentWeight b) now now.

Definition applyExecutionResult (c : CircuitBreakerStats) (success : bool)
    (failureThreshold halfOpenAttempts : Z) (now : TimePoint) : CircuitBreakerStats :=
  if success then
    let successes := cbSuccessCount c + 1 in
    if bool_decide (state c = HalfOpen) && (halfOpenAttempts <=? successes)
    then mkBreaker Closed 0 0 0 (cbLastFailureTime c)
    else if bool_decide (state c = Closed)
    then mkBreaker Closed 0 successes 0 (cbLastFailureTime c)
    else mkBreaker (state c) (cbFailureCount c) successes 0 (cbLastFailureTime c)
  else
    let failures := cbFailureCount c + 1 in
    let timeouts := cbTimeoutCount c + 1 in
    if bool_decide (state c = HalfOpen) || (failureThreshold <=? failures)
    then mkBreaker Open failures 0 timeouts now
    else mkBreaker (state c) failures (cbSuccessCount c) timeouts now.

Definition matchesAddr (h : list byte) (p : Z) (b : BackendServer) : bool :=
  (host b =s h) && (port b =? p).

Definition backendMatchesConnection (b : BackendServer) (c : ConnectionInfo) : bool :=
  matchesAddr (remoteHost c) (remotePort c) b.

(** [std::find_if] over the backends: index and element. *)
Fixpoint findBackend (p : BackendServer -> bool) (bs : list BackendServer) : option (nat * BackendServer) :=
  match bs with
  | [] => None
  | b :: bs => if p b then Some (0%nat, b) else '(i, b') ← findBackend p bs; Some (S i, b')
  end.

(** The backend a connection leads to. *)
Definition backendOf (s : ServiceState) (c : ConnectionInfo) : option (nat * BackendServer) :=
  findBackend (fun b => backendMatchesConnection b c) (backends s).

Definition updateBackend (s : ServiceState) (i : nat) (b : BackendServer) : ServiceState :=
  setBackends s (<[i := b]> (backends s)).

Definition parseStrategy (strategyName : list byte) : LoadBalancingStrategy :=
  let normalized := normalizeStrategyName strategyName in
  if normalized =s str "random" then Random
  else if normalized =s str "leastconnections" then LeastConnections
  else if normalized =s str "weightedroundrobin" then WeightedRoundRobin
  else if normalized =s str "iphash" then IPHash
  else RoundRobin.

Section Manager.
Context (cfg : Settings).
(** The index a [uniform_int_distribution(0, n - 1)] draws, and [std::hash<string_view>]. *)
Context (draw : nat -> nat) (hashKey : list byte -> Z).

(** Members of [Impl] initialised from the configuration. *)
Definition idleTimeout : Z := optConnectionTimeout cfg.
Definition recoveryTimeout : Z := optRecoveryTimeout cfg.
Definition circuitBreakerEnabled : bool := optCircuitBreakerEnabled cfg.
Definition failureThreshold : Z := Z.max 1 (optFailureThreshold cfg).
Definition halfOpenAttempts : Z := Z.max 1 (optHalfOpenAttempts cfg).

(** ** Private members *)

Definition ensureServiceStateLocked (st : Impl) (name : list byte) : Impl :=
  let s := svc st name in
  let s := if maxPoolSize s =? 0
           then setStrategy (setMaxPool s (Z.max 1 (optMaxConnections cfg)))
                  (parseStrategy (optLoadBalancingStrategy cfg))
           else s in
  setService st name s.

(** [createConnectionLocked(service, backends[i], now)]. *)
Definition createConnectionLocked (st : Impl) (name : list byte) (i : nat) (now : TimePoint)
    : Impl * ConnectionId :=
  let s := svc st name in
  match backends s !! i with
  | None => (st, 0)
  | Some b =>
      let newId := nextConnectionId st in
      let info := mkInfo newId name (host b) (port b) now now true in
      let s := updateBackend s i (setActive b (activeConnections b + 1)) in
      let s := setTotal s (totalConnections s + 1) in
      (mkImpl (<[newId := info]> (connections st)) (<[name := s]> (services st)) (newId + 1)
         (pendingRequests st), newId)
  end.

(** The backends after a connection's end has been counted. *)
Definition countDown (s : ServiceState) (c : ConnectionInfo) : ServiceState :=
  match backendOf s c with
  | Some (i, b) =>
      if isActive c && (0 <? activeConnections b)
      then updateBackend s i (setActive b (activeConnections b - 1)) else s
  | None => s
  end.

(** [removeConnectionLocked], the iterator given by its key. *)
Definition removeConnectionLocked (st : Impl) (cid : ConnectionId) : Impl :=
  match connections st !! cid with
  | None => st
  | Some c =>
      let st :=
        match services st !! service c with
        | None => st
        | Some s =>
            let s := setIdle s (filter (.≠ cid) (idleConnections s)) in
            let s := countDown s c in
            let s := if 0 <? totalConnections s then setTotal s (totalConnections s - 1) else s in
            setService st (service c) s
        end in
      setConnections st (delete cid (connections st))
  end.

(** A loop over [connections] that removes those satisfying [p]. *)
Fixpoint removeWhere (p : ConnectionInfo -> bool) (st : Impl) (cids : list ConnectionId) : Impl :=
  match cids with
  | [] => st
  | cid :: cids =>
      let st := match connections st !! cid with
                | Some c => if p c then removeConnectionLocked st cid else st
                | None => st
                end in
      removeWhere p st cids
  end.

Definition connectionIds (st : Impl) : list ConnectionId := (map_to_list (connections st)).*1.

Definition pruneIdleConnectionsLocked (st : Impl) (s : ServiceState) : ServiceState :=
  setIdle s (filter (fun cid => isActive <$> connections st !! cid = Some false) (idleConnections s)).

Definition cleanupExpiredConnectionsLocked (st : Impl) (now : TimePoint) : Impl :=
  let st := removeWhere
              (fun c => negb (isActive c || (idleTimeout =? 0) || (now - lastUsed c <=? idleTimeout)))
              st (connectionIds st) in
  setServices st (pruneIdleConnectionsLocked st <$> services st).

Definition healthCheckBreaker (c : CircuitBreakerStats) (now : TimePoint) : CircuitBreakerStats :=
  if bool_decide (state c = Open) && ((recoveryTimeout =? 0) || (recoveryTimeout <=? now - cbLastFailureTime c))
  then mkBreaker HalfOpen (cbFailureCount c) 0 0 (cbLastFailureTime c)
  else c.

Definition healthCheckBackend (now : TimePoint) (b : BackendServer) : BackendServer :=
  if negb (healthy b) && ((recoveryTimeout =? 0) || (recoveryTimeout <=? now - lastFailureTime b))
  then mkBackend (host b) (port b) (weight b) true (activeConnections b) 0 0 (lastCheckTime b) (lastFailureTime b)
  else b.

Definition performHealthCheckLocked (st : Impl) (now : TimePoint) : Impl :=
  setServices st
    ((fun s =>
        let s := setBreaker s (healthCheckBreaker (circuitBreaker s) now) in
        let s := setBackends s (healthCheckBackend now <$> backends s) in
        pruneIdleConnectionsLocked st s) <$> services st).

(** ** Backend selection *)

(** [healthyBackends]: the indices of the healthy entries. *)
Definition healthyBackends (bs : list BackendServer) : list nat :=
  filter (fun i => healthy <$> (bs !! i) = Some true) (seq 0 (length bs)).

Definition getB (bs : list BackendServer) (i : nat) : BackendServer :=
  default (mkBackend [] 0 0 false 0 0 0 0 0) (bs !! i).

(** The comparison of the [LeastConnections] case. *)
Definition lessLoaded (lhs rhs : BackendServer) : bool :=
  if activeConnections lhs =? activeConnections rhs then weight rhs <? weight lhs
  else activeConnections lhs <? activeConnections rhs.

(** [std::min_element]: the first of the least elements. *)
Fixpoint minElement (bs : list BackendServer) (best : nat) (idxs : list nat) : nat :=
  match idxs with
  | [] => best
  | i :: idxs => minElement bs (if lessLoaded (getB bs i) (getB bs best) then i else best) idxs
  end.

(** The loop of the [WeightedRoundRobin] case. *)
Fixpoint weightedLoop (bs : list BackendServer) (best : option nat) (totalWeight : Z) (idxs : list nat)
    : list BackendServer * option nat * Z :=
  match idxs with
  | [] => (bs, best, totalWeight)
  | i :: idxs =>
      let b := getB bs i in
      let effectiveWeight := Z.max 1 (weight b) in
      let b := setCurrentWeight b (currentWeight b + effectiveWeight) in
      let bs := <[i := b]> bs in
      let best :=
        match best with
        | None => Some i
        | Some j =>
            let bb := getB bs j in
            if (currentWeight bb <? currentWeight b) ||
               ((currentWeight b =? currentWeight bb) && (activeConnections b <? activeConnections bb))
            then Some i else best
        end in
      weightedLoop bs best (totalWeight + effectiveWeight) idxs
  end.

(** The case for [RoundRobin], also taken by [IPHash] without a key. *)
Definition roundRobinPick (s : ServiceState) (idxs : list nat) : ServiceState * option nat :=
  (setRoundRobin s (u64 (roundRobinIndex s + 1)), idxs !! Z.to_nat (roundRobinIndex s mod zlen idxs)).

Definition selectBackendLocked (s : ServiceState) (affinityKey : list byte) : ServiceState * option nat :=
  match healthyBackends (backends s) with
  | [] => (s, None)
  | (first :: rest) as idxs =>
      match strategy s with
      | Random => (s, idxs !! draw (length idxs))
      | LeastConnections => (s, Some (minElement (backends s) first rest))
      | WeightedRoundRobin =>
          let '(bs, best, totalWeight) := weightedLoop (backends s) None 0 idxs in
          match best with
          | Some j =>
              let b := getB bs j in
              (setBackends s (<[j := setCurrentWeight b (currentWeight b - totalWeight)]> bs), Some j)
          | None => (setBackends s bs, None)
          end
      | IPHash =>
          if affinityKey =s [] then roundRobinPick s idxs
          else (s, idxs !! Z.to_nat (hashKey affinityKey mod zlen idxs))
      | RoundRobin => roundRobinPick s idxs
      end
  end.

Definition getActiveConnectionCountLocked (s : ServiceState) : Z :=
  foldr Z.add 0 (activeConnections <$> backends s).

(** [prepareCircuitBreakerLocked]: the service and whether the request may go on. *)
Definition prepareCircuitBreakerLocked (s : ServiceState) (now : TimePoint) : ServiceState * bool :=
  if negb circuitBreakerEnabled then (s, true)
  else
    let breaker := circuitBreaker s in
    if bool_decide (state breaker = Open) && (0 <? recoveryTimeout) &&
       (now - cbLastFailureTime breaker <? recoveryTimeout)
    then (s, false)
    else
      let s := if bool_decide (state breaker = Open)
               then setBreaker s (mkBreaker HalfOpen (cbFailureCount breaker) 0 0 (cbLastFailureTime breaker))
               else s in
      if bool_decide (state (circuitBreaker s) = HalfOpen) &&
         (halfOpenAttempts <=? getActiveConnectionCountLocked s)
      then (s, false) else (s, true).

Definition getServiceConnectionCountLocked (st : Impl) (name : list byte) : Z :=
  match services st !! name with Some s => totalConnections s | None => 0 end.

(** ** Public members *)

(** The loop over [idleConnections]: it pops one entry per round. *)
Fixpoint acquireIdle (fuel : nat) (st : Impl) (name : list byte) (now : TimePoint)
    : Impl * option ConnectionId :=
  match fuel, idleConnections (svc st name) with
  | S fuel, candidateId :: rest =>
      let st := setService st name (setIdle (svc st name) rest) in
      match connections st !! candidateId with
      | None => acquireIdle fuel st name now
      | Some c =>
          if isActive c then acquireIdle fuel st name now
          else if (0 <? idleTimeout) && (idleTimeout <? now - lastUsed c)
          then acquireIdle fuel (removeConnectionLocked st candidateId) name now
          else
            let c := mkInfo (connId c) (service c) (remoteHost c) (remotePort c) (createdAt c) now true in
            let st := setConnections st (<[candidateId := c]> (connections st)) in
            match backendOf (svc st name) c with
            | Some (i, b) =>
                if healthy b then
                  (setService st name
                     (updateBackend (svc st name) i (setActive b (activeConnections b + 1))),
                   Some candidateId)
                else acquireIdle fuel (removeConnectionLocked st candidateId) name now
            | None => acquireIdle fuel (removeConnectionLocked st candidateId) name now
            end
      end
  | _, _ => (st, None)
  end.

(** [finish]: the request is no longer pending. *)
Definition finish (st : Impl) (name : list byte) (r : ConnectionId) : Impl * ConnectionId :=
  let st := setPendingRequests st
              (if 0 <? pendingRequests st then pendingRequests st - 1 else pendingRequests st) in
  let s := svc st name in
  (setService st name
     (setPending s (if 0 <? svcPendingRequests s then svcPendingRequests s - 1 else svcPendingRequests s)), r).

Definition acquireConnection (st : Impl) (name affinityKey : list byte) (now : TimePoint)
    : Impl * ConnectionId :=
  if name =s [] then (st, 0)
  else
    let st := ensureServiceStateLocked st name in
    let st := setPendingRequests st (pendingRequests st + 1) in
    let st := setService st name (setPending (svc st name) (svcPendingRequests (svc st name) + 1)) in
    let '(s, ok) := prepareCircuitBreakerLocked (svc st name) now in
    let st := setService st name s in
    if negb ok then finish st name 0
    else
      let '(st, idle) := acquireIdle (length (idleConnections s)) st name now in
      match idle with
      | Some cid => finish st name cid
      | None =>
          if maxPoolSize (svc st name) <=? getServiceConnectionCountLocked st name
          then finish st name 0
          else
            let '(s, backend) := selectBackendLocked (svc st name) affinityKey in
            let st := setService st name s in
            match backend with
            | None => finish st name 0
            | Some i =>
                let '(st, cid) := createConnectionLocked st name i now in
                finish st name cid
            end
      end.

Definition releaseConnection (st : Impl) (cid : ConnectionId) (now : TimePoint) : Impl :=
  match connections st !! cid with
  | None => st
  | Some c =>
      if negb (isActive c) then st
      else
        match services st !! service c with
        | None => removeConnectionLocked st cid
        | Some s =>
            match backendOf s c with
            | Some (i, b) =>
                if negb (healthy b) then removeConnectionLocked st cid
                else
                  let c' := mkInfo (connId c) (service c) (remoteHost c) (remotePort c) (createdAt c) now false in
                  let s := setIdle s (idleConnections s ++ [cid]) in
                  let s := if 0 <? activeConnections b
                           then updateBackend s i (setActive b (activeConnections b - 1)) else s in
                  setService (setConnections st (<[cid := c']> (connections st))) (service c) s
            | None => removeConnectionLocked st cid
            end
        end
  end.

Definition closeConnection (st : Impl) (cid : ConnectionId) : Impl := removeConnectionLocked st cid.

Definition cleanup (st : Impl) : Impl := mkImpl ∅ ∅ (nextConnectionId st) 0.

Definition addBackendServer (st : Impl) (name h : list byte) (p w : Z) (now : TimePoint) : Impl :=
  if (name =s []) || (h =s []) || (p =? 0) then st
  else
    let st := ensureServiceStateLocked st name in
    let s := svc st name in
    match findBackend (matchesAddr h p) (backends s) with
    | Some (i, b) =>
        setService st name
          (updateBackend s i
             (mkBackend (host b) (port b) (Z.max 1 w) true (activeConnections b) (failureCount b) 0
                (lastCheckTime b) (lastFailureTime b)))
    | None =>
        setService st name (setBackends s (backends s ++ [mkBackend h p (Z.max 1 w) true 0 0 0 now 0]))
    end.

(** The idle connections of a service to one address. *)
Definition idleAt (name h : list byte) (p : Z) (c : ConnectionInfo) : bool :=
  (service c =s name) && (remoteHost c =s h) && (remotePort c =? p) && negb (isActive c).

Definition removeBackendServer (st : Impl) (name h : list byte) (p : Z) : Impl :=
  match services st !! name with
  | None => st
  | Some s =>
      let bs := filter (fun b => matchesAddr h p b = false) (backends s) in
      let s := setBackends s bs in
      let s := if (zlen bs <=? roundRobinIndex s) && negb (bool_decide (bs = []))
               then setRoundRobin s (roundRobinIndex s mod zlen bs) else s in
      let st := setService st name s in
      removeWhere (idleAt name h p) st (connectionIds st)
  end.

Definition updateBackendWeight (st : Impl) (name h : list byte) (p w : Z) : Impl :=
  match services st !! name with
  | None => st
  | Some s =>
      match findBackend (matchesAddr h p) (backends s) with
      | None => st
      | Some (i, b) =>
          setService st name
            (updateBackend s i
               (mkBackend (host b) (port b) (Z.max 1 w) (healthy b) (activeConnections b) (failureCount b) 0
                  (lastCheckTime b) (lastFailureTime b)))
      end
  end.

Definition getLoadBalancingStrategy (st : Impl) (name : list byte) : LoadBalancingStrategy :=
  match services st !! name with
  | None => parseStrategy (optLoadBalancingStrategy cfg)
  | Some s => strategy s
  end.

Definition setLoadBalancingStrategy (st : Impl) (name : list byte) (x : LoadBalancingStrategy) : Impl :=
  let st := ensureServiceStateLocked st name in
  setService st name (setStrategy (svc st name) x).

(** [reportBackendStatus] for the backend at index [i] of a service. *)
Definition reportAt (st : Impl) (name h : list byte) (p : Z) (i : nat) (success : bool) (now : TimePoint) : Impl :=
  let s := svc st name in
  match backends s !! i with
  | None => st
  | Some b =>
      let b' := applyBackendStatus b success failureThreshold now in
      let st := setService st name (updateBackend s i b') in
      if healthy b && negb (healthy b') then removeWhere (idleAt name h p) st (connectionIds st) else st
  end.

(** The overload with a service name stops at the first match. *)
Definition reportServiceBackendStatus (st : Impl) (name h : list byte) (p : Z) (success : bool)
    (now : TimePoint) : Impl :=
  if (name =s []) || (h =s []) || (p =? 0) then st
  else
    match services st !! name with
    | None => st
    | Some s =>
        match findBackend (matchesAddr h p) (backends s) with
        | None => st
        | Some (i, _) => reportAt st name h p i success now
        end
    end.

(** The overload without one visits every backend of every service. *)
Definition reportBackendStatus (st : Impl) (h : list byte) (p : Z) (success : bool) (now : TimePoint) : Impl :=
  if (h =s []) || (p =? 0) then st
  else
    fold_left
      (fun st name =>
         fold_left
           (fun st i => if matchesAddr h p (getB (backends (svc st name)) i)
                        then reportAt st name h p i success now else st)
           (seq 0 (length (backends (svc st name)))) st)
      (map_to_list (services st)).*1 st.

Definition reportOne (success : bool) (now : TimePoint) (s : ServiceState) : ServiceState :=
  setBreaker s (applyExecutionResult (circuitBreaker s) success failureThreshold halfOpenAttempts now).

Definition reportExecution (st : Impl) (success : bool) (now : TimePoint) : Impl :=
  if negb circuitBreakerEnabled then st
  else setServices st (reportOne success now <$> services st).

Definition reportServiceExecution (st : Impl) (name : list byte) (success : bool) (now : TimePoint) : Impl :=
  if negb circuitBreakerEnabled then st
  else
    match services st !! name with
    | None => st
    | Some s => setService st name (reportOne success now s)
    end.

(** One round of the maintenance thread. *)
Definition maintenance (st : Impl) (now : TimePoint) : Impl :=
  performHealthCheckLocked (cleanupExpiredConnectionsLocked st now) now.

(** ** Statistics *)

Record ConnectionPoolStats := mkPoolStats {
  psActive : Z; psIdle : Z; psTotal : Z; psMax : Z; psPending : Z
}.

Definition countWhere (p : ConnectionInfo -> bool) (st : Impl) : Z :=
  zlen (filter (fun x => p x.2 = true) (map_to_list (connections st))).

Definition getPoolStats (st : Impl) : ConnectionPoolStats :=
  mkPoolStats (countWhere isActive st) (countWhere (fun c => negb (isActive c)) st)
    (Z.of_nat (size (connections st)))
    (foldr Z.add 0 ((fun x => maxPoolSize x.2) <$> map_to_list (services st)))
    (pendingRequests st).

Record ServicePoolStats := mkServiceStats {
  ssActive : Z; ssIdle : Z; ssTotal : Z; ssMax : Z; ssPending : Z; ssBackends : Z; ssHealthy : Z;
  ssStrategy : LoadBalancingStrategy; ssBreaker : CircuitBreakerStats
}.

Definition getServiceStats (st : Impl) (name : list byte) : ServicePoolStats :=
  match services st !! name with
  | None => mkServiceStats 0 0 0 0 0 0 0 RoundRobin (mkBreaker Closed 0 0 0 0)
  | Some s =>
      mkServiceStats
        (countWhere (fun c => (service c =s name) && isActive c) st)
        (countWhere (fun c => (service c =s name) && negb (isActive c)) st)
        (countWhere (fun c => service c =s name) st)
        (maxPoolSize s) (svcPendingRequests s) (zlen (backends s))
        (zlen (filter (fun b => healthy b = true) (backends s)))
        (strategy s) (circuitBreaker s)
  end.

Definition getBackendServers (st : Impl) (name : list byte) : list BackendServer :=
  match services st !! name with None => [] | Some s => backends s end.

Definition getCircuitBreakerStats (st : Impl) (name : list byte) : CircuitBreakerStats :=
  match services st !! name with None => mkBreaker Closed 0 0 0 0 | Some s => circuitBreaker s end.

(** ** Calls *)

(** The members that change the state, and the maintenance thread. *)
Inductive call :=
  | Acquire (name key : list byte)
  | Release (cid : ConnectionId)
  | Close (cid : ConnectionId)
  | AddBackend (name h : list byte) (p w : Z)
  | RemoveBackend (name h : list byte) (p : Z)
  | UpdateWeight (name h : list byte) (p w : Z)
  | SetStrategy (name : list byte) (x : LoadBalancingStrategy)
  | ReportBackend (h : list byte) (p : Z) (success : bool)
  | ReportServiceBackend (name h : list byte) (p : Z) (success : bool)
  | ReportExecution (success : bool)
  | ReportServiceExecution (name : list byte) (success : bool)
  | Maintenance
  | Cleanup.

Definition apply (st : Impl) (c : call) (now : TimePoint) : Impl :=
  match c with
  | Acquire name key => (acquireConnection st name key now).1
  | Release cid => releaseConnection st cid now
  | Close cid => closeConnection st cid
  | AddBackend name h p w => addBackendServer st name h p w now
  | RemoveBackend name h p => removeBackendServer st name h p
  | UpdateWeight name h p w => updateBackendWeight st name h p w
  | SetStrategy name x => setLoadBalancingStrategy st name x
  | ReportBackend h p ok => reportBackendStatus st h p ok now
  | ReportServiceBackend name h p ok => reportServiceBackendStatus st name h p ok now
  | ReportExecution ok => reportExecution st ok now
  | ReportServiceExecution name ok => reportServiceExecution st name ok now
  | Maintenance => maintenance st now
  | Cleanup => cleanup st
  end.

(** The states calls at arbitrary clock readings lead to. *)
Inductive reachable : Impl -> Prop :=
  | reach_init : reachable emptyImpl
  | reach_step st c now : reachable st -> reachable (apply st c now).

End Manager.

(** ** Counting connections *)

Definition num (p : ConnectionInfo -> bool) (m : gmap ConnectionId ConnectionInfo) : Z :=
  Z.of_nat (size (filter (fun x => p x.2 = true) m)).

Definition b2z (b : bool) : Z := if b then 1 else 0.

Lemma num_nonneg p m : 0 <= num p m.
Proof. unfold num. lia. Qed.

Lemma num_insert_fresh p m cid c : m !! cid = None -> num p (<[cid := c]> m) = num p m + b2z (p c).
Proof.
  intros E. unfold num. destruct (p c) eqn:Ep; simpl.
  - rewrite map_filter_insert_True by done. rewrite map_size_insert_None; [lia|].
    apply map_lookup_filter_None. by left.
  - rewrite map_filter_insert_False, delete_id by (done || simpl; congruence). lia.
Qed.

Lemma num_delete p m cid c : m !! cid = Some c -> num p (delete cid m) = num p m - b2z (p c).
Proof.
  intros E. rewrite <- (insert_delete_id m cid c E) at 2.
  rewrite num_insert_fresh by apply lookup_delete_eq. lia.
Qed.

Lemma num_update p m cid c c' :
  m !! cid = Some c -> num p (<[cid := c']> m) = num p m - b2z (p c) + b2z (p c').
Proof.
  intros E. rewrite <- insert_delete_eq, num_insert_fresh, (num_delete _ _ _ c) by (done || apply lookup_delete_eq).
  lia.
Qed.

Lemma num_pos p m cid c : m !! cid = Some c -> p c = true -> 1 <= num p m.
Proof.
  intros E Ep. pose proof (num_delete p m cid c E) as H. rewrite Ep in H. simpl in H.
  pose proof (num_nonneg p (delete cid m)). lia.
Qed.

Lemma num_agree p m m' :
  (∀ k c, p c = true -> m !! k = Some c <-> m' !! k = Some c) -> num p m = num p m'.
Proof.
  intros H. unfold num. do 2 f_equal. apply map_eq. intros k. apply option_eq. intros c.
  rewrite !map_lookup_filter_Some. simpl. split; intros [? ?]; (split; [by apply H|done]).
Qed.

Lemma countWhere_num p st : countWhere p st = num p (connections st).
Proof.
  unfold countWhere, num, zlen. f_equal. rewrite map_filter_alt, map_size_list_to_map; [done|].
  eapply sublist_NoDup; [apply (NoDup_fst_map_to_list (connections st))|].
  apply fmap_sublist, sublist_filter.
Qed.

(** ** Invariant *)

Definition isOf (name : list byte) (c : ConnectionInfo) : bool := service c =s name.

Definition activeAt (name h : list byte) (p : Z) (c : ConnectionInfo) : bool :=
  (service c =s name) && (remoteHost c =s h) && (remotePort c =? p) && isActive c.

Definition addrs (bs : list BackendServer) : list (list byte * Z * bool) :=
  (fun b => (host b, port b, healthy b)) <$> bs.

(** A service and the connections it owns.  [X] marks idle connections whose backend is
    being taken out of service. *)
Record svcOk (X : ConnectionInfo -> bool) (m : gmap ConnectionId ConnectionInfo)
    (name : list byte) (s : ServiceState) : Prop := mkSvcOk {
  so_total : totalConnections s = num (isOf name) m;
  so_bound : totalConnections s <= maxPoolSize s;
  so_max : 1 <= maxPoolSize s;
  so_addrs : NoDup (addrs (backends s)).*1;
  so_active : ∀ b, b ∈ backends s ->
    0 <= activeConnections b <= num (activeAt name (host b) (port b)) m;
  so_nodup : NoDup (idleConnections s);
  so_idle : ∀ cid, cid ∈ idleConnections s <->
    ∃ c, m !! cid = Some c ∧ service c = name ∧ isActive c = false;
  so_home : ∀ cid c, m !! cid = Some c -> service c = name -> isActive c = false -> X c = false ->
    (remoteHost c, remotePort c, true) ∈ addrs (backends s)
}.

Record Inv (X : ConnectionInfo -> bool) (st : Impl) : Prop := mkInv {
  inv_next : 1 <= nextConnectionId st;
  inv_conn : ∀ cid c, connections st !! cid = Some c ->
    connId c = cid ∧ 1 <= cid < nextConnectionId st ∧ is_Some (services st !! service c);
  inv_svc : ∀ name s, services st !! name = Some s -> svcOk X (connections st) name s
}.

Definition noneOf (c : ConnectionInfo) : bool := false.

(** Two connection tables that agree on one service. *)
Definition agree (name : list byte) (m m' : gmap ConnectionId ConnectionInfo) : Prop :=
  ∀ k c, service c = name -> m !! k = Some c <-> m' !! k = Some c.

Lemma svcOk_agree X m m' name s : agree name m m' -> svcOk X m name s -> svcOk X m' name s.
Proof.
  intros Ha []. constructor; auto.
  - rewrite so_total0. apply num_agree. intros k c Hc. apply Ha. by apply bool_decide_eq_true_1 in Hc.
  - intros b Hb. destruct (so_active0 b Hb) as [? Hle]. split; [done|].
    rewrite <- (num_agree _ m m'); [done|]. intros k c Hc. apply Ha.
    unfold activeAt in Hc. apply andb_prop in Hc as [[[Hc _]%andb_prop _]%andb_prop _].
    by apply bool_decide_eq_true_1 in Hc.
  - intros cid. rewrite so_idle0. split; intros (c & Hm & Hn & Hi); exists c; split_and!; auto; by apply Ha.
  - intros cid c Hm Hn. apply (so_home0 cid c); [|done]. by apply Ha.
Qed.

Lemma agree_delete name m cid c : m !! cid = Some c -> service c ≠ name -> agree name m (delete cid m).
Proof.
  intros E Hne k c' Hs. rewrite lookup_delete_Some. split; [|naive_solver].
  intros Hk. split; [|done]. intros ->. rewrite E in Hk. by injection Hk as ->.
Qed.

Lemma agree_insert name m cid c :
  (∀ c0, m !! cid = Some c0 -> service c0 ≠ name) -> service c ≠ name -> agree name m (<[cid := c]> m).
Proof.
  intros E Hne k c' Hs. rewrite lookup_insert_Some. split.
  - intros Hk. right. split; [|done]. intros ->. by apply (E _ Hk).
  - intros [[-> ->]|[_ ?]]; done.
Qed.

(** ** Backends *)

Lemma findBackend_Some p bs i b : findBackend p bs = Some (i, b) -> bs !! i = Some b ∧ p b = true.
Proof.
  revert i. induction bs as [|b' bs IH]; intros i E; [done|]. simpl in E.
  destruct (p b') eqn:Ep; [by injection E as <- <-|].
  destruct (findBackend p bs) as [[j b'']|]; [|done]. injection E as <- <-. by apply IH.
Qed.

Lemma findBackend_None p bs b : findBackend p bs = None -> b ∈ bs -> p b = false.
Proof.
  induction bs as [|b' bs IH]; intros E Hin; [by apply elem_of_nil in Hin|]. simpl in E.
  destruct (p b') eqn:Ep; [done|]. destruct (findBackend p bs) as [[]|]; [done|].
  apply elem_of_cons in Hin as [->|]; auto.
Qed.

Lemma matchesAddr_true h p b : matchesAddr h p b = true <-> host b = h ∧ port b = p.
Proof. unfold matchesAddr. rewrite andb_true_iff, bool_decide_eq_true, Z.eqb_eq. done. Qed.

(** The backends of a service are looked up by address. *)
Lemma findBackend_addr bs h p x :
  NoDup (addrs bs).*1 -> (h, p, x) ∈ addrs bs ->
  ∃ i b, findBackend (matchesAddr h p) bs = Some (i, b) ∧ healthy b = x.
Proof.
  intros Hn Hin. unfold addrs in *. apply list_elem_of_fmap in Hin as (b0 & [= -> -> ->] & Hb0).
  destruct (findBackend _ bs) as [[i b]|] eqn:E.
  - exists i, b. split; [done|]. apply findBackend_Some in E as [Hi Hm].
    apply matchesAddr_true in Hm as [Hh Hp]. apply list_elem_of_lookup in Hb0 as [j Hj].
    rewrite <- list_fmap_compose in Hn.
    assert (i = j) as ->; [|congruence].
    eapply NoDup_lookup; [done| |]; rewrite list_lookup_fmap; [rewrite Hi|rewrite Hj]; simpl; by rewrite ?Hh, ?Hp.
  - eapply findBackend_None in E; [|done]. by rewrite (proj2 (matchesAddr_true _ _ _)) in E.
Qed.

(** Replacing a backend by one with the same address and health. *)
Lemma addrs_update bs i b b' :
  bs !! i = Some b -> host b' = host b -> port b' = port b -> healthy b' = healthy b ->
  addrs (<[i := b']> bs) = addrs bs.
Proof.
  intros Hi Eh Ep Ex. unfold addrs. rewrite list_fmap_insert. apply list_insert_id.
  rewrite list_lookup_fmap, Hi. simpl. by rewrite Eh, Ep, Ex.
Qed.

Lemma addrs1_update bs i b b' :
  bs !! i = Some b -> host b' = host b -> port b' = port b ->
  (addrs (<[i := b']> bs)).*1 = (addrs bs).*1.
Proof.
  intros Hi Eh Ep. unfold addrs. rewrite <- !list_fmap_compose, list_fmap_insert. apply list_insert_id.
  rewrite list_lookup_fmap, Hi. simpl. by rewrite Eh, Ep.
Qed.

(** ** Removal *)

Lemma activeAt_true name h p c :
  activeAt name h p c = true <->
  service c = name ∧ remoteHost c = h ∧ remotePort c = p ∧ isActive c = true.
Proof. unfold activeAt. rewrite !andb_true_iff, !bool_decide_eq_true, Z.eqb_eq. tauto. Qed.

Lemma elem_of_updated {A} (l : list A) i x y :
  y ∈ <[i := x]> l -> y = x ∨ ∃ j, j ≠ i ∧ l !! j = Some y.
Proof.
  intros [j Hj]%list_elem_of_lookup. destruct (decide (j = i)) as [->|Hne].
  - apply list_lookup_insert_Some in Hj as [(_ & <- & _)|[? ?]]; [by left|done].
  - rewrite list_lookup_insert_ne in Hj by done. eauto.
Qed.

(** Two backends of a service have different addresses. *)
Lemma addrs_inj bs i j b b' :
  NoDup (addrs bs).*1 -> bs !! i = Some b -> bs !! j = Some b' -> host b = host b' -> port b = port b' -> i = j.
Proof.
  intros Hn Hi Hj Eh Ep. unfold addrs in Hn. rewrite <- list_fmap_compose in Hn.
  eapply NoDup_lookup; [done| |]; rewrite list_lookup_fmap; [rewrite Hi|rewrite Hj]; simpl; by rewrite ?Eh, ?Ep.
Qed.

Definition activeBound (m : gmap ConnectionId ConnectionInfo) (name : list byte) (bs : list BackendServer) : Prop :=
  ∀ b, b ∈ bs -> 0 <= activeConnections b <= num (activeAt name (host b) (port b)) m.

Lemma countDown_fields s c :
  idleConnections (countDown s c) = idleConnections s ∧ maxPoolSize (countDown s c) = maxPoolSize s ∧
  totalConnections (countDown s c) = totalConnections s ∧ addrs (backends (countDown s c)) = addrs (backends s).
Proof.
  unfold countDown. destruct (backendOf s c) as [[i b]|] eqn:E; [|done].
  destruct (_ && _); [|done]. split_and!; auto. simpl.
  apply findBackend_Some in E as [Hi _]. by eapply addrs_update.
Qed.

(** The counter of a backend stays below the number of its active connections. *)
Lemma countDown_bound m m' name s c :
  NoDup (addrs (backends s)).*1 -> activeBound m name (backends s) ->
  (∀ h p, num (activeAt name h p) m' = num (activeAt name h p) m - b2z (activeAt name h p c)) ->
  activeBound m' name (backends (countDown s c)).
Proof.
  intros Hn Hb Hm b Hin. rewrite Hm. pose proof (num_nonneg (activeAt name (host b) (port b)) m') as Hnn.
  rewrite Hm in Hnn. unfold countDown in Hin.
  destruct (activeAt name (host b) (port b) c) eqn:Ea; simpl in *.
  - apply activeAt_true in Ea as (Hs & Hh & Hp & Hact). rewrite Hact in Hin. simpl in Hin.
    destruct (backendOf s c) as [[i b0]|] eqn:E.
    + apply findBackend_Some in E as [Hi Hm0]. apply matchesAddr_true in Hm0 as [Eh Ep].
      destruct (Z.ltb_spec 0 (activeConnections b0)).
      * simpl in Hin. apply elem_of_updated in Hin as [->|(j & Hj & Hbj)].
        -- simpl in *. apply list_elem_of_lookup_2 in Hi. apply Hb in Hi. lia.
        -- exfalso. apply Hj. eapply addrs_inj; eauto; congruence.
      * assert (b = b0) as ->; [|apply Hb in Hin; lia].
        apply list_elem_of_lookup in Hin as [j Hj].
        assert (i = j) as <- by (eapply addrs_inj; eauto; congruence). congruence.
    + eapply findBackend_None in E; [|done].
      unfold backendMatchesConnection in E. by rewrite (proj2 (matchesAddr_true _ _ _)) in E.
  - rewrite Z.sub_0_r. destruct (backendOf s c) as [[i b0]|] eqn:E; [|by apply Hb].
    destruct (_ && _) eqn:Eg; [|by apply Hb]. apply andb_prop in Eg as [_ Hpos%Z.ltb_lt].
    simpl in Hin. apply findBackend_Some in E as [Hi _].
    apply elem_of_updated in Hin as [->|(j & _ & Hbj)].
    + simpl. apply list_elem_of_lookup_2 in Hi. apply Hb in Hi. lia.
    + apply list_elem_of_lookup_2 in Hbj. by apply Hb.
Qed.

Lemma remove_svcOk X m name s cid c :
  svcOk X m name s -> m !! cid = Some c -> service c = name ->
  svcOk X (delete cid m) name
    (let s := countDown (setIdle s (filter (.≠ cid) (idleConnections s))) c in
     if 0 <? totalConnections s then setTotal s (totalConnections s - 1) else s).
Proof.
  intros [] Hm Hs. set (s1 := setIdle s _). destruct (countDown_fields s1 c) as (E1 & E2 & E3 & E4).
  assert (Hof : isOf name c = true) by by apply bool_decide_eq_true_2.
  pose proof (num_pos _ _ _ _ Hm Hof) as Hpos. cbv zeta. rewrite E3. simpl.
  rewrite (proj2 (Z.ltb_lt _ _)) by lia. constructor; simpl; rewrite ?E1, ?E2, ?E4; auto.
  - rewrite (num_delete _ _ _ c Hm), Hof. simpl. lia.
  - simpl. lia.
  - apply (countDown_bound m); [done|done|]. intros. by apply num_delete.
  - by apply NoDup_filter.
  - intros k. simpl. rewrite list_elem_of_filter, so_idle0. split.
    + intros (Hne & c' & ? & ?). exists c'. rewrite lookup_delete_ne by done. done.
    + intros (c' & [Hne Hc']%lookup_delete_Some & ?). split; [done|]. eauto.
  - intros k c' [Hne Hk]%lookup_delete_Some. simpl. by apply so_home0 with k.
Qed.

Lemma remove_Inv X st cid : Inv X st -> Inv X (removeConnectionLocked st cid).
Proof.
  intros [Hnx Hc Hsv]. unfold removeConnectionLocked. destruct (connections st !! cid) as [c|] eqn:E; [|done].
  destruct (Hc _ _ E) as (_ & _ & [s Hs]). rewrite Hs. constructor; simpl; [done| |].
  - intros k c' [Hne Hk]%lookup_delete_Some. destruct (Hc _ _ Hk) as (? & ? & Hx). split_and!; auto; try lia.
    by apply lookup_insert_is_Some'; right.
  - intros name s' Hin. apply lookup_insert_Some in Hin as [[<- <-]|[Hne Hin]].
    + by apply remove_svcOk; auto.
    + eapply svcOk_agree; [|by apply Hsv]. by eapply agree_delete.
Qed.

(** What a removal does to the table of connections. *)
Lemma remove_connections st cid :
  connections (removeConnectionLocked st cid) = delete cid (connections st).
Proof.
  unfold removeConnectionLocked. destruct (connections st !! cid) as [c|] eqn:E.
  - by destruct (services st !! service c).
  - by rewrite delete_id.
Qed.

Lemma removeWhere_Inv X p cids st : Inv X st -> Inv X (removeWhere p st cids).
Proof.
  revert st. induction cids as [|cid cids IH]; intros st H; [done|]. simpl. apply IH.
  destruct (connections st !! cid); [|done]. case_match; [by apply remove_Inv|done].
Qed.

Lemma removeWhere_lookup p cids st k c :
  connections (removeWhere p st cids) !! k = Some c <->
  connections st !! k = Some c ∧ (k ∈ cids -> p c = false).
Proof.
  revert st. induction cids as [|cid cids IH]; intros st; simpl.
  { split; [|tauto]. intros H. split; [done|]. by intros ?%elem_of_nil. }
  rewrite IH. destruct (connections st !! cid) as [c0|] eqn:E; [destruct (p c0) eqn:Ep|].
  - rewrite remove_connections, lookup_delete_Some, elem_of_cons. split.
    + intros ((? & ?) & ?). split; [done|]. intros [->|]; auto. done.
    + intros (Hk & Hp). split; [split; [|done]|auto]. intros <-. rewrite E in Hk. injection Hk as ->.
      by rewrite Hp in Ep by auto.
  - rewrite elem_of_cons. split; [|tauto]. intros (Hk & Hp). split; [done|]. intros [->|]; [|auto].
    rewrite E in Hk. by injection Hk as ->.
  - rewrite elem_of_cons. split; [|tauto]. intros (Hk & Hp). split; [done|]. intros [->|]; [congruence|auto].
Qed.

Lemma elem_of_connectionIds st k c : connections st !! k = Some c -> k ∈ connectionIds st.
Proof.
  intros H. apply list_elem_of_fmap. exists (k, c). split; [done|]. by apply elem_of_map_to_list.
Qed.

(** A weaker marking, and no marking where nothing is marked. *)
Lemma svcOk_mark X Y m name s :
  (∀ k c, m !! k = Some c -> Y c = false -> X c = false) -> svcOk X m name s -> svcOk Y m name s.
Proof. intros HXY []. constructor; auto. intros k c Hk ??. eauto. Qed.

Lemma removeAll_Inv p st : Inv p st -> Inv noneOf (removeWhere p st (connectionIds st)).
Proof.
  intros H. destruct (removeWhere_Inv p p (connectionIds st) st H) as [Hn Hc Hs]. constructor; auto.
  intros name s Hin. eapply svcOk_mark; [|by apply Hs]. intros k c Hk _.
  apply removeWhere_lookup in Hk as [Hk Hp]. apply Hp. by eapply elem_of_connectionIds.
Qed.

(** Replacing one service, the connections unchanged. *)
Lemma setService_Inv X Y st name s :
  Inv X st -> (∀ c, Y c = false -> X c = false) -> svcOk Y (connections st) name s ->
  Inv Y (setService st name s).
Proof.
  intros [Hn Hc Hs] HXY Hok. constructor; simpl; [done| |].
  - intros k c Hk. destruct (Hc _ _ Hk) as (? & ? & ?). split_and!; auto; try lia.
    by apply lookup_insert_is_Some'; right.
  - intros name' s' Hin. apply lookup_insert_Some in Hin as [[<- <-]|[_ Hin]]; [done|].
    eapply svcOk_mark; [|by apply Hs]. auto.
Qed.

(** Transforming every service. *)
Lemma setServices_Inv X st f :
  Inv X st -> (∀ name s, svcOk X (connections st) name s -> svcOk X (connections st) name (f s)) ->
  Inv X (setServices st (f <$> services st)).
Proof.
  intros [Hn Hc Hs] Hf. constructor; simpl; [done| |].
  - intros k c Hk. destruct (Hc _ _ Hk) as (? & ? & ?). split_and!; auto; try lia.
    rewrite lookup_fmap. by apply fmap_is_Some.
  - intros name s Hin. apply lookup_fmap_Some in Hin as (s0 & <- & Hin). by apply Hf, Hs.
Qed.

(** The part of a backend the invariant reads. *)
Definition core (b : BackendServer) : list byte * Z * bool * Z :=
  (host b, port b, healthy b, activeConnections b).

Lemma core_addrs bs bs' : core <$> bs' = core <$> bs -> addrs bs' = addrs bs.
Proof.
  intros E. unfold addrs. apply (f_equal (fmap fst)) in E. rewrite <- !list_fmap_compose in E. exact E.
Qed.

Lemma core_bound m name bs bs' : core <$> bs' = core <$> bs -> activeBound m name bs -> activeBound m name bs'.
Proof.
  intros E Hb b Hin. apply (list_elem_of_fmap_2 core) in Hin. rewrite E in Hin.
  apply list_elem_of_fmap in Hin as (b0 & [= -> -> _ ->] & Hin). by apply Hb.
Qed.

Lemma svcOk_core X m name s s' :
  totalConnections s' = totalConnections s -> maxPoolSize s' = maxPoolSize s ->
  idleConnections s' = idleConnections s -> core <$> backends s' = core <$> backends s ->
  svcOk X m name s -> svcOk X m name s'.
Proof.
  intros E1 E2 E3 E4 []. pose proof (core_addrs _ _ E4) as E5.
  constructor; rewrite ?E1, ?E2, ?E3, ?E5; auto. by eapply core_bound.
Qed.

Lemma prune_svcOk X st name s :
  svcOk X (connections st) name s -> svcOk X (connections st) name (pruneIdleConnectionsLocked st s).
Proof.
  intros []. constructor; simpl; auto; [by apply NoDup_filter|].
  intros k. rewrite list_elem_of_filter, so_idle0. split; [tauto|].
  intros (c & Hk & ? & Hi). split; [by rewrite Hk; simpl; rewrite Hi|eauto].
Qed.

(** An entry of a service's address list survives the replacement of another backend, or
    of its own by a healthy one. *)
Lemma addrs_elem_update bs i b b' h p :
  bs !! i = Some b -> host b' = host b -> port b' = port b ->
  (h, p, true) ∈ addrs bs -> (h = host b -> p = port b -> healthy b' = true) ->
  (h, p, true) ∈ addrs (<[i := b']> bs).
Proof.
  intros Hi Eh Ep Hin Hx. unfold addrs in *. apply list_elem_of_fmap in Hin as (b0 & [= -> -> Eh0] & Hb0).
  apply list_elem_of_lookup in Hb0 as [j Hj]. apply list_elem_of_fmap.
  destruct (decide (i = j)) as [->|Hne].
  - rewrite Hi in Hj. injection Hj as ->. exists b'. rewrite Eh, Ep, Hx by done. split; [done|].
    apply list_elem_of_lookup. exists j. apply list_lookup_insert_eq. by eapply lookup_lt_Some.
  - exists b0. split; [by rewrite <- Eh0|]. apply list_elem_of_lookup. exists j.
    by rewrite list_lookup_insert_ne.
Qed.

(** Replacing a backend, its counter unchanged. *)
Lemma updateBackend_svcOk X Y m name s i b b' :
  svcOk X m name s -> (∀ c, Y c = false -> X c = false) -> backends s !! i = Some b ->
  host b' = host b -> port b' = port b -> activeConnections b' = activeConnections b ->
  (∀ k c, m !! k = Some c -> service c = name -> isActive c = false -> Y c = false ->
     remoteHost c = host b -> remotePort c = port b -> healthy b = true -> healthy b' = true) ->
  svcOk Y m name (updateBackend s i b').
Proof.
  intros [] HXY Hi Eh Ep Ea Hx. constructor; simpl; auto.
  - by erewrite addrs1_update.
  - intros b0 [->|(j & _ & Hj)]%elem_of_updated.
    + rewrite Eh, Ep, Ea. apply so_active0. by eapply list_elem_of_lookup_2.
    + apply so_active0. by eapply list_elem_of_lookup_2.
  - intros k c Hk Hs Hact HY. eapply addrs_elem_update; eauto. intros E1 E2. eapply Hx; eauto.
    pose proof (so_home0 k c Hk Hs Hact (HXY _ HY)) as Hin. unfold addrs in Hin.
    apply list_elem_of_fmap in Hin as (b0 & [= F1 F2 F3] & [j Hj]%list_elem_of_lookup).
    assert (i = j) as -> by (eapply addrs_inj; eauto; congruence). congruence.
Qed.

(** ** The operations keep the invariant *)

Section Preservation.
Context (cfg : Settings) (draw : nat -> nat) (hashKey : list byte -> Z).

Lemma Inv_empty : Inv noneOf emptyImpl.
Proof. constructor; simpl; [lia| |]; intros ?? Hx; by rewrite lookup_empty in Hx. Qed.

Lemma svc_lookup st name s : services st !! name = Some s -> svc st name = s.
Proof. intros E. unfold svc. by rewrite E. Qed.

Lemma svc_setService st name s : svc (setService st name s) name = s.
Proof. unfold svc. simpl. by rewrite lookup_insert_eq. Qed.

(** [ensureServiceStateLocked] leaves a service, new or old. *)
Lemma ensure_Inv st name :
  Inv noneOf st ->
  Inv noneOf (ensureServiceStateLocked cfg st name) ∧
  is_Some (services (ensureServiceStateLocked cfg st name) !! name) ∧
  connections (ensureServiceStateLocked cfg st name) = connections st.
Proof.
  intros H. pose proof H as [_ Hc Hs]. unfold ensureServiceStateLocked.
  split_and!; [|simpl; rewrite lookup_insert_eq; eauto|done].
  apply (setService_Inv noneOf noneOf); auto.
  destruct (services st !! name) as [s|] eqn:E.
  - rewrite (svc_lookup _ _ _ E). pose proof (Hs _ _ E) as Hok. pose proof (so_max _ _ _ _ Hok).
    by rewrite (proj2 (Z.eqb_neq _ _)) by lia.
  - unfold svc. rewrite E. simpl.
    assert (Hnone : ∀ k c, connections st !! k = Some c -> service c ≠ name).
    { intros k c Hk <-. destruct (Hc _ _ Hk) as (_ & _ & [? ?]). congruence. }
    assert (Hz : num (isOf name) (connections st) = 0).
    { unfold num. rewrite (proj2 (map_size_empty_iff _)); [done|]. apply map_empty. intros k.
      apply map_lookup_filter_None. right. intros c Hk Hx. simpl in Hx.
      apply bool_decide_eq_true_1 in Hx. by apply (Hnone k c). }
    constructor; simpl; try lia.
    + apply NoDup_nil_2.
    + intros b Hb. by apply elem_of_nil in Hb.
    + apply NoDup_nil_2.
    + intros cid. split; [by intros ?%elem_of_nil|]. intros (c & Hk & Hn & _). by destruct (Hnone _ _ Hk).
    + intros k c Hk Hn. by destruct (Hnone _ _ Hk).
Qed.

(** Changes the invariant does not read. *)
Lemma setPendingRequests_Inv X st n : Inv X st -> Inv X (setPendingRequests st n).
Proof. intros []. by constructor. Qed.

Lemma setService_core X st name s s' :
  Inv X st -> services st !! name = Some s ->
  totalConnections s' = totalConnections s -> maxPoolSize s' = maxPoolSize s ->
  idleConnections s' = idleConnections s -> core <$> backends s' = core <$> backends s ->
  Inv X (setService st name s').
Proof.
  intros H E E1 E2 E3 E4. apply (setService_Inv X X); auto.
  eapply svcOk_core; eauto. by apply (inv_svc _ _ H).
Qed.

Lemma finish_Inv st name r :
  Inv noneOf st -> is_Some (services st !! name) ->
  Inv noneOf (finish st name r).1 ∧ (finish st name r).2 = r ∧
  connections (finish st name r).1 = connections st.
Proof.
  intros H [s E]. split_and!; [|done|done]. unfold finish. simpl.
  eapply setService_core; [by apply setPendingRequests_Inv|done|..]; unfold svc; simpl; by rewrite E.
Qed.

Lemma prepare_core s now :
  let s' := (prepareCircuitBreakerLocked cfg s now).1 in
  totalConnections s' = totalConnections s ∧ maxPoolSize s' = maxPoolSize s ∧
  idleConnections s' = idleConnections s ∧ backends s' = backends s ∧ strategy s' = strategy s.
Proof. unfold prepareCircuitBreakerLocked. repeat case_match; done. Qed.

(** ** Selection *)

Lemma elem_of_healthyBackends bs i :
  i ∈ healthyBackends bs <-> ∃ b, bs !! i = Some b ∧ healthy b = true.
Proof.
  unfold healthyBackends. rewrite list_elem_of_filter, elem_of_seq. split.
  - intros [Hh _]. destruct (bs !! i) as [b|]; [|done]. injection Hh as ?. eauto.
  - intros (b & Hi & Hh). rewrite Hi. simpl. rewrite Hh. split; [done|].
    apply lookup_lt_Some in Hi. lia.
Qed.

Lemma minElement_in bs best idxs : minElement bs best idxs ∈ best :: idxs.
Proof.
  revert best. induction idxs as [|i idxs IH]; intros best; simpl; [apply elem_of_cons; auto|].
  specialize (IH (if lessLoaded (getB bs i) (getB bs best) then i else best)).
  apply elem_of_cons in IH as [->|Hin]; [|rewrite !elem_of_cons; auto].
  destruct (lessLoaded _ _); rewrite !elem_of_cons; auto.
Qed.

Lemma core_getB_insert bs i w : core <$> <[i := setCurrentWeight (getB bs i) w]> bs = core <$> bs.
Proof.
  rewrite list_fmap_insert. destruct (bs !! i) as [b|] eqn:E.
  - apply list_insert_id. rewrite list_lookup_fmap, E. unfold getB. by rewrite E.
  - apply list_insert_ge. rewrite length_fmap. by apply lookup_ge_None.
Qed.

(** The weighted loop changes current weights only, and its choice is one of the candidates. *)
Lemma weightedLoop_spec idxs bs best w bs' best' w' :
  weightedLoop bs best w idxs = (bs', best', w') ->
  core <$> bs' = core <$> bs ∧
  match best' with
  | Some j => best = Some j ∨ j ∈ idxs
  | None => best = None ∧ idxs = []
  end.
Proof.
  revert bs best w. induction idxs as [|i idxs IH]; intros bs best w E; simpl in E.
  { injection E as <- <- <-. by destruct best; auto. }
  apply IH in E as [Hc Hb]. split; [by rewrite Hc, core_getB_insert|].
  destruct best' as [j|]; [|by destruct best; repeat case_match; destruct Hb].
  destruct Hb as [Hb|]; [|rewrite elem_of_cons; auto].
  destruct best as [j0|]; repeat case_match; simplify_eq; rewrite ?elem_of_cons; auto.
Qed.

Lemma selectBackend_spec s key :
  let '(s', r) := selectBackendLocked draw hashKey s key in
  totalConnections s' = totalConnections s ∧ maxPoolSize s' = maxPoolSize s ∧
  idleConnections s' = idleConnections s ∧ core <$> backends s' = core <$> backends s ∧
  ∀ i, r = Some i -> i ∈ healthyBackends (backends s).
Proof.
  unfold selectBackendLocked. destruct (healthyBackends (backends s)) as [|first rest] eqn:E; [done|].
  assert (Hl : ∀ n i, (first :: rest) !! n = Some i -> i ∈ first :: rest)
    by (intros n i ?; by eapply list_elem_of_lookup_2).
  destruct (strategy s); unfold roundRobinPick.
  - split_and!; auto. intros i. apply Hl.
  - split_and!; auto. intros i. apply Hl.
  - split_and!; auto. intros i [= <-]. apply minElement_in.
  - destruct (weightedLoop _ _ _ _) as [[bs best] w] eqn:Ew.
    apply weightedLoop_spec in Ew as [Hc Hb]. destruct best as [j|]; [|by destruct Hb].
    split_and!; auto; [simpl; by rewrite core_getB_insert|]. intros i [= <-]. by destruct Hb.
  - destruct (bool_decide _); split_and!; auto; intros i; apply Hl.
Qed.

(** ** Acquisition *)

Lemma countUp_bound m m' name bs i b c :
  bs !! i = Some b -> activeBound m name bs -> activeAt name (host b) (port b) c = true ->
  (∀ h p, num (activeAt name h p) m' = num (activeAt name h p) m + b2z (activeAt name h p c)) ->
  activeBound m' name (<[i := setActive b (activeConnections b + 1)]> bs).
Proof.
  intros Hi Hb Ha Hm b0 [->|(j & _ & Hj)]%elem_of_updated; simpl; rewrite Hm.
  - rewrite Ha. simpl. apply list_elem_of_lookup_2, Hb in Hi. lia.
  - apply list_elem_of_lookup_2, Hb in Hj. unfold b2z. case_match; lia.
Qed.

(** The record of a connection handed out again, or given back. *)
Definition touch (c : ConnectionInfo) (now : TimePoint) (active : bool) : ConnectionInfo :=
  mkInfo (connId c) (service c) (remoteHost c) (remotePort c) (createdAt c) now active.

Lemma inactive_not_activeAt name h p c : isActive c = false -> activeAt name h p c = false.
Proof. intros E. unfold activeAt. by rewrite E, andb_false_r. Qed.

Lemma reuse_svcOk m name s cid c rest i b now :
  svcOk noneOf m name s -> idleConnections s = cid :: rest -> m !! cid = Some c ->
  backendOf s c = Some (i, b) ->
  svcOk noneOf (<[cid := touch c now true]> m) name
    (updateBackend (setIdle s rest) i (setActive b (activeConnections b + 1))).
Proof.
  intros [] Ei Hc Hb. destruct (proj1 (so_idle0 cid)) as (c0 & Hc0 & Hs & Hact);
    [rewrite Ei; apply elem_of_cons; auto|]. rewrite Hc in Hc0. injection Hc0 as <-.
  apply findBackend_Some in Hb as [Hi Hm]. apply matchesAddr_true in Hm as [Eh Ep].
  rewrite Ei in so_nodup0. apply NoDup_cons in so_nodup0 as [Hnin Hnd].
  assert (Ha : addrs (<[i := setActive b (activeConnections b + 1)]> (backends s)) = addrs (backends s))
    by by eapply addrs_update.
  constructor; simpl; rewrite ?Ha; auto.
  - rewrite so_total0, (num_update _ _ _ c _ Hc). change (isOf name (touch c now true)) with (isOf name c). lia.
  - eapply (countUp_bound m _ _ _ _ _ (touch c now true)); eauto.
    + by apply activeAt_true.
    + intros. rewrite (num_update _ _ _ c _ Hc), (inactive_not_activeAt _ _ _ c) by done. simpl. lia.
  - intros k. split.
    + intros Hk. assert (k ≠ cid) by (intros ->; done).
      destruct (proj1 (so_idle0 k)) as (ck & ? & ?); [rewrite Ei; apply elem_of_cons; auto|].
      exists ck. by rewrite lookup_insert_ne by done.
    + intros (ck & Hk & Hn & Hx). apply lookup_insert_Some in Hk as [[<- <-]|[Hne Hk]]; [done|].
      assert (Hin : k ∈ idleConnections s) by (apply so_idle0; eauto).
      rewrite Ei in Hin. by apply elem_of_cons in Hin as [?|?].
  - intros k ck Hk. apply lookup_insert_Some in Hk as [[<- <-]|[Hne Hk]]; [done|by apply so_home0 with k].
Qed.

(** Replacing a connection of a service together with the service's record. *)
Lemma setBoth_Inv st name s cid c :
  Inv noneOf st -> connId c = cid -> 1 <= cid < nextConnectionId st -> service c = name ->
  (∀ c0, connections st !! cid = Some c0 -> service c0 = name) ->
  svcOk noneOf (<[cid := c]> (connections st)) name s ->
  Inv noneOf (setService (setConnections st (<[cid := c]> (connections st))) name s).
Proof.
  intros [Hn Hc Hs] Hid Hr Hsv Hold Hok. constructor; simpl; [done| |].
  - intros k c' Hk. apply lookup_insert_Some in Hk as [[<- <-]|[Hne Hk]].
    + split_and!; auto; try lia. rewrite Hsv, lookup_insert_eq. eauto.
    + destruct (Hc _ _ Hk) as (? & ? & ?). split_and!; auto; try lia. by apply lookup_insert_is_Some'; right.
  - intros name' s' Hin. apply lookup_insert_Some in Hin as [[<- <-]|[Hne Hin]]; [done|].
    eapply svcOk_agree; [|by apply Hs]. apply agree_insert; [|congruence].
    intros c0 Hc0. rewrite (Hold _ Hc0). done.
Qed.

(** Popping a connection before removing it makes no difference. *)
Lemma remove_popped st name s cid rest c :
  services st !! name = Some s -> idleConnections s = cid :: rest ->
  connections st !! cid = Some c -> service c = name ->
  removeConnectionLocked (setService st name (setIdle s rest)) cid = removeConnectionLocked st cid.
Proof.
  intros Es Ei Ec En. unfold removeConnectionLocked. simpl. rewrite Ec, En, Es, lookup_insert_eq. simpl.
  rewrite Ei, filter_cons_False by (intros Hx; by apply Hx). unfold setConnections, setService. simpl.
  by rewrite insert_insert_eq.
Qed.

(** A connection in use: active, of the service, on a healthy backend. *)
Definition handedOut (st : Impl) (name : list byte) (cid : ConnectionId) : Prop :=
  ∃ c b, connections st !! cid = Some c ∧ service c = name ∧ isActive c = true ∧
    b ∈ backends (svc st name) ∧ host b = remoteHost c ∧ port b = remotePort c ∧ healthy b = true.

Lemma idle_head st name s cid rest :
  Inv noneOf st -> services st !! name = Some s -> idleConnections s = cid :: rest ->
  ∃ c i b, connections st !! cid = Some c ∧ service c = name ∧ isActive c = false ∧ connId c = cid ∧
    1 <= cid < nextConnectionId st ∧ backendOf s c = Some (i, b) ∧ healthy b = true.
Proof.
  intros H Es Ei. destruct (inv_svc _ _ H _ _ Es). destruct (proj1 (so_idle0 cid)) as (c & Hc & Hn & Hx);
    [rewrite Ei; apply elem_of_cons; auto|].
  destruct (findBackend_addr _ _ _ _ so_addrs0 (so_home0 _ _ Hc Hn Hx eq_refl)) as (i & b & Hb & Hh).
  destruct (inv_conn _ _ H _ _ Hc) as (? & ? & _). exists c, i, b. split_and!; auto; lia.
Qed.

Lemma remove_services st cid name :
  is_Some (services st !! name) -> is_Some (services (removeConnectionLocked st cid) !! name).
Proof.
  intros H. unfold removeConnectionLocked. destruct (connections st !! cid) as [c|]; [|done].
  destruct (services st !! service c); [|done]. simpl. by apply lookup_insert_is_Some'; right.
Qed.

Lemma remove_next st cid : nextConnectionId (removeConnectionLocked st cid) = nextConnectionId st.
Proof. unfold removeConnectionLocked. by repeat case_match. Qed.

(** The removed connection leaves the idle queue. *)
Lemma remove_idle st name s cid c :
  services st !! name = Some s -> connections st !! cid = Some c -> service c = name ->
  idleConnections (svc (removeConnectionLocked st cid) name) = filter (.≠ cid) (idleConnections s).
Proof.
  intros Es Ec En. unfold removeConnectionLocked. rewrite Ec, En, Es. unfold svc. simpl.
  rewrite lookup_insert_eq. simpl.
  destruct (countDown_fields (setIdle s (filter (.≠ cid) (idleConnections s))) c) as (E1 & _).
  destruct (0 <? _); simpl; by rewrite E1.
Qed.

Lemma acquireIdle_spec fuel st name now :
  Inv noneOf st -> is_Some (services st !! name) ->
  let '(st', r) := acquireIdle cfg fuel st name now in
  Inv noneOf st' ∧ is_Some (services st' !! name) ∧ nextConnectionId st' = nextConnectionId st ∧
  match r with
  | Some cid => handedOut st' name cid ∧ 1 <= cid < nextConnectionId st ∧
                cid ∈ idleConnections (svc st name)
  | None => (length (idleConnections (svc st name)) <= fuel)%nat -> idleConnections (svc st' name) = []
  end.
Proof.
  revert st. induction fuel as [|fuel IH]; intros st H [s Es]; simpl; rewrite (svc_lookup _ _ _ Es).
  { split_and!; eauto. destruct (idleConnections s); [done|simpl; lia]. }
  destruct (idleConnections s) as [|cid rest] eqn:Ei.
  { split_and!; eauto. intros _. by rewrite (svc_lookup _ _ _ Es), Ei. }
  destruct (idle_head _ _ _ _ _ H Es Ei) as (c & i & b & Hc & Hn & Hx & Hid & Hr & Hb & Hh).
  rewrite Hc, Hx. destruct ((0 <? idleTimeout cfg) && (idleTimeout cfg <? now - lastUsed c)).
  - rewrite (remove_popped st name s cid rest c) by done.
    specialize (IH (removeConnectionLocked st cid) (remove_Inv _ _ _ H) (remove_services _ _ _ (mk_is_Some _ _ Es))).
    destruct (acquireIdle cfg fuel (removeConnectionLocked st cid) name now) as [st' r].
    rewrite (remove_idle _ _ s _ c), remove_next in IH by done. rewrite Ei, filter_cons_False in IH by tauto.
    destruct IH as (? & ? & ? & Hr'). split_and!; auto. destruct r as [cid'|].
    + destruct Hr' as (? & ? & Hin). split_and!; auto; try lia. apply elem_of_cons. right.
      by apply list_elem_of_filter in Hin as [_ ?].
    + simpl. intros Hlen. apply Hr'. pose proof (length_filter (.≠ cid) rest). lia.
  - fold (touch c now true).
    assert (E : ∀ m, svc (setConnections (setService st name (setIdle s rest)) m) name = setIdle s rest)
      by (intros; unfold svc; simpl; by rewrite lookup_insert_eq).
    rewrite !E.
    change (backendOf (setIdle s rest) (touch c now true)) with (backendOf s c).
    rewrite Hb, Hh. unfold setService at 1. simpl. rewrite insert_insert_eq.
    change (mkImpl _ _ _ _) with
      (setService (setConnections st (<[cid := touch c now true]> (connections st))) name
         (updateBackend (setIdle s rest) i (setActive b (activeConnections b + 1)))).
    split_and!; [|simpl; rewrite lookup_insert_eq; eauto|done| |lia|lia|apply elem_of_cons; auto].
    + apply setBoth_Inv; auto; [intros c0 Hc0; congruence|].
      apply (reuse_svcOk _ _ _ _ _ rest); auto. by apply (inv_svc _ _ H).
    + apply findBackend_Some in Hb as [Hi Hm]. apply matchesAddr_true in Hm as [Eh Ep].
      exists (touch c now true), (setActive b (activeConnections b + 1)). rewrite svc_setService. simpl.
      split_and!; auto; [apply lookup_insert_eq|]. apply list_elem_of_lookup. exists i.
      apply list_lookup_insert_eq. by eapply lookup_lt_Some.
Qed.
Lemma create_svcOk m name s i b cid now :
  svcOk noneOf m name s -> backends s !! i = Some b -> m !! cid = None ->
  totalConnections s < maxPoolSize s ->
  svcOk noneOf (<[cid := mkInfo cid name (host b) (port b) now now true]> m) name
    (setTotal (updateBackend s i (setActive b (activeConnections b + 1))) (totalConnections s + 1)).
Proof.
  intros [] Hi Hf Hlt. set (info := mkInfo _ _ _ _ _ _ _).
  assert (Ha : addrs (<[i := setActive b (activeConnections b + 1)]> (backends s)) = addrs (backends s))
    by by eapply addrs_update.
  constructor; simpl; rewrite ?Ha; auto; try lia.
  - rewrite so_total0, num_insert_fresh by done. unfold isOf at 3. simpl. by rewrite bool_decide_eq_true_2.
  - eapply (countUp_bound m _ _ _ _ _ info); eauto; [by apply activeAt_true|].
    intros. by apply num_insert_fresh.
  - intros k. rewrite so_idle0. split; intros (c & Hk & Hn & Hx); exists c; split_and!; auto.
    + rewrite lookup_insert_ne; [done|]. intros <-. congruence.
    + apply lookup_insert_Some in Hk as [[_ <-]|[_ ?]]; done.
  - intros k c Hk. apply lookup_insert_Some in Hk as [[_ <-]|[_ Hk]]; [done|]. by apply so_home0 with k.
Qed.

Lemma create_Inv st name s i b now :
  Inv noneOf st -> services st !! name = Some s -> backends s !! i = Some b -> healthy b = true ->
  totalConnections s < maxPoolSize s ->
  let '(st', cid) := createConnectionLocked st name i now in
  Inv noneOf st' ∧ is_Some (services st' !! name) ∧ cid = nextConnectionId st ∧ handedOut st' name cid.
Proof.
  intros H Es Hi Hh Hlt. unfold createConnectionLocked. rewrite (svc_lookup _ _ _ Es), Hi. simpl.
  pose proof H as [Hn Hc Hs]. assert (Hf : connections st !! nextConnectionId st = None).
  { destruct (connections st !! nextConnectionId st) as [c|] eqn:E; [|done].
    destruct (Hc _ _ E) as (_ & ? & _). lia. }
  set (info := mkInfo _ _ _ _ _ _ _). set (s' := setTotal _ _).
  assert (Hst : Inv noneOf (mkImpl (connections st) (services st) (nextConnectionId st + 1) (pendingRequests st))).
  { constructor; simpl; auto; [lia|]. intros k c Hk. destruct (Hc _ _ Hk) as (? & ? & ?). split_and!; auto; lia. }
  split_and!; auto; [|simpl; rewrite lookup_insert_eq; eauto|].
  - refine (setBoth_Inv _ name s' (nextConnectionId st) info Hst _ _ _ _ _); simpl; auto; try lia.
    + intros c0 Hc0. congruence.
    + apply create_svcOk; auto.
  - exists info, (setActive b (activeConnections b + 1)). unfold svc. simpl. rewrite !lookup_insert_eq. simpl.
    split_and!; auto. apply list_elem_of_lookup. exists i. apply list_lookup_insert_eq. by eapply lookup_lt_Some.
Qed.

(** Why a request was turned down. *)
Definition refused (s : ServiceState) (now : TimePoint) (m' : gmap ConnectionId ConnectionInfo)
    (name : list byte) (s' : ServiceState) : Prop :=
  (prepareCircuitBreakerLocked cfg s now).2 = false ∨
  (num (isOf name) m' = maxPoolSize s' ∧ idleConnections s' = []) ∨
  ((∀ b, b ∈ backends s' -> healthy b = false) ∧ idleConnections s' = []).

Lemma finish_svc st name r :
  let st' := (finish st name r).1 in
  backends (svc st' name) = backends (svc st name) ∧ maxPoolSize (svc st' name) = maxPoolSize (svc st name) ∧
  idleConnections (svc st' name) = idleConnections (svc st name).
Proof. unfold finish. simpl. by rewrite svc_setService. Qed.

(** [finish] does not take back what was handed out. *)
Lemma finish_handedOut st name cid :
  handedOut st name cid -> handedOut (finish st name cid).1 name cid.
Proof.
  intros (c & b & Hc & Hr). exists c, b. destruct (finish_svc st name cid) as (-> & _). by split.
Qed.

Lemma healthyBackends_none bs : healthyBackends bs = [] -> ∀ b, b ∈ bs -> healthy b = false.
Proof.
  intros E b [i Hi]%list_elem_of_lookup. destruct (healthy b) eqn:Eh; [|done].
  assert (Hin : i ∈ healthyBackends bs) by (apply elem_of_healthyBackends; eauto).
  rewrite E in Hin. by apply elem_of_nil in Hin.
Qed.

(** A choice is made whenever there is a candidate. *)
Lemma selectBackend_some s key :
  (∀ n, (0 < n)%nat -> (draw n < n)%nat) ->
  (selectBackendLocked draw hashKey s key).2 = None -> healthyBackends (backends s) = [].
Proof.
  intros Hd. unfold selectBackendLocked. destruct (healthyBackends (backends s)) as [|first rest] eqn:E; [done|].
  set (idxs := first :: rest). assert (Hz : 0 < zlen idxs) by (unfold zlen; simpl; lia).
  assert (Hmod : ∀ x, idxs !! Z.to_nat (x mod zlen idxs) ≠ None).
  { intros x Hx%lookup_ge_None. pose proof (Z.mod_pos_bound x (zlen idxs) Hz). unfold zlen in *. lia. }
  intros Hr. exfalso. destruct (strategy s); simpl in Hr.
  - by apply (Hmod (roundRobinIndex s)).
  - apply lookup_ge_None in Hr. specialize (Hd (length idxs)). simpl in *. lia.
  - done.
  - destruct (weightedLoop _ _ _ _) as [[bs best] w] eqn:Ew. apply weightedLoop_spec in Ew as [_ Hb].
    destruct best; [done|]. by destruct Hb.
  - destruct (bool_decide _); [by apply (Hmod (roundRobinIndex s))|by apply (Hmod (hashKey key))].
Qed.

Lemma prepare_pending s n now :
  (prepareCircuitBreakerLocked cfg (setPending s n) now).2 = (prepareCircuitBreakerLocked cfg s now).2.
Proof.
  unfold prepareCircuitBreakerLocked, getActiveConnectionCountLocked. simpl.
  repeat (case_match; simpl in *; try done).
Qed.

(** The second half of an acquisition: the idle queue is empty. *)
Lemma acquire_new st name s key now :
  Inv noneOf st -> services st !! name = Some s -> idleConnections s = [] ->
  let '(st', cid) :=
    (if maxPoolSize s <=? totalConnections s then finish st name 0
     else
       let '(s1, backend) := selectBackendLocked draw hashKey s key in
       let st := setService st name s1 in
       match backend with
       | None => finish st name 0
       | Some i => let '(st, cid) := createConnectionLocked st name i now in finish st name cid
       end) in
  Inv noneOf st' ∧ (cid ≠ 0 -> handedOut st' name cid ∧ cid = nextConnectionId st) ∧
  ((∀ n, (0 < n)%nat -> (draw n < n)%nat) -> cid = 0 ->
   idleConnections (svc st' name) = [] ∧
   (num (isOf name) (connections st') = maxPoolSize (svc st' name) ∨
    ∀ b, b ∈ backends (svc st' name) -> healthy b = false)).
Proof.
  intros H Es Ei. cbv zeta. pose proof (inv_svc _ _ H _ _ Es) as Hok.
  destruct (Z.leb_spec (maxPoolSize s) (totalConnections s)) as [Hle|Hlt].
  - destruct (finish_Inv st name 0 H ltac:(eauto)) as (Hi & Hr & Hc). destruct (finish_svc st name 0) as (E1 & E2 & E3).
    destruct (finish st name 0) as [st' cid]. simpl in *. subst cid. split_and!; [done|done|].
    intros _ _. rewrite E2, E3, (svc_lookup _ _ _ Es), Hc. split; [done|]. left.
    destruct Hok. lia.
  - pose proof (selectBackend_spec s key) as Hsel. pose proof (selectBackend_some s key) as Hnone.
    destruct (selectBackendLocked draw hashKey s key) as [s1 r]. destruct Hsel as (T1 & T2 & T3 & T4 & Hin).
    assert (H1 : Inv noneOf (setService st name s1)) by (by eapply setService_core).
    assert (Es1 : services (setService st name s1) !! name = Some s1) by (simpl; by rewrite lookup_insert_eq).
    destruct r as [i|].
    + destruct (proj1 (elem_of_healthyBackends _ _) (Hin i eq_refl)) as (b & Hb & Hh).
      assert (Hcore : core <$> (backends s1 !! i) = Some (core b)).
      { rewrite <- list_lookup_fmap, T4, list_lookup_fmap, Hb. done. }
      destruct (backends s1 !! i) as [b1|] eqn:Eb1; [|done]. injection Hcore as Hc1 Hc2 Hc3 Hc4.
      pose proof (create_Inv _ name s1 i b1 now H1 Es1 Eb1 ltac:(congruence) ltac:(lia)) as Hcr.
      destruct (createConnectionLocked (setService st name s1) name i now) as [st2 cid].
      destruct Hcr as (H2 & Hsome & Ecid & Hho).
      destruct (finish_Inv st2 name cid H2 Hsome) as (Hi & Hr & _). pose proof (finish_handedOut _ _ _ Hho) as Hho'.
      destruct (finish st2 name cid) as [st' cid']. simpl in *. subst cid'. split_and!; auto.
      intros _ ->. pose proof (inv_next _ _ H). lia.
    + destruct (finish_Inv (setService st name s1) name 0 H1 ltac:(eauto)) as (Hi & Hr & Hc).
      destruct (finish_svc (setService st name s1) name 0) as (E1 & E2 & E3).
      destruct (finish (setService st name s1) name 0) as [st' cid]. simpl in *. subst cid. split_and!; [done|done|].
      intros Hd _. rewrite E1, E3, svc_setService. split; [congruence|]. right.
      intros b Hb. apply (list_elem_of_fmap_2 core) in Hb. rewrite T4 in Hb.
      apply list_elem_of_fmap in Hb as (b0 & [= _ _ -> _] & Hb0). by eapply healthyBackends_none; [apply Hnone|].
Qed.

Lemma acquire_spec st name key now :
  Inv noneOf st ->
  let '(st', cid) := acquireConnection cfg draw hashKey st name key now in
  Inv noneOf st' ∧
  (cid ≠ 0 -> handedOut st' name cid ∧
              (cid = nextConnectionId st ∨ cid ∈ idleConnections (svc st name))) ∧
  ((∀ n, (0 < n)%nat -> (draw n < n)%nat) -> name ≠ [] -> cid = 0 ->
   refused (svc (ensureServiceStateLocked cfg st name) name) now (connections st') name (svc st' name)).
Proof.
  intros H. unfold acquireConnection. cbv zeta. destruct (bool_decide_reflect (name = [])) as [->|Hname]; [done|].
  destruct (ensure_Inv st name H) as (H1 & [s Es] & Ec).
  assert (Hidle0 : idleConnections s = idleConnections (svc st name)).
  { apply svc_lookup in Es. rewrite <- Es. unfold ensureServiceStateLocked. rewrite svc_setService. by case_match. }
  assert (Hnx : nextConnectionId (ensureServiceStateLocked cfg st name) = nextConnectionId st) by done.
  set (st1 := ensureServiceStateLocked cfg st name) in *. rewrite (svc_lookup _ _ _ Es).
  assert (Es' : svc (setPendingRequests st1 (pendingRequests st1 + 1)) name = s)
    by exact (svc_lookup _ _ _ Es).
  rewrite Es', svc_setService. set (sp := setPending s (svcPendingRequests s + 1)).
  set (st2 := setService (setPendingRequests st1 (pendingRequests st1 + 1)) name sp).
  assert (H2 : Inv noneOf st2) by (eapply setService_core; [by apply setPendingRequests_Inv|exact Es|done..]).
  assert (Es2 : services st2 !! name = Some sp) by (simpl; by rewrite lookup_insert_eq).
  pose proof (prepare_core sp now) as Hp. pose proof (prepare_pending s (svcPendingRequests s + 1) now) as Hp2.
  fold sp in Hp2. destruct (prepareCircuitBreakerLocked cfg sp now) as [s3 ok]. simpl in Hp, Hp2.
  destruct Hp as (T1 & T2 & T3 & T4 & _). set (st3 := setService st2 name s3).
  assert (H3 : Inv noneOf st3) by (eapply setService_core; eauto; by rewrite T4).
  assert (Es3 : services st3 !! name = Some s3) by (simpl; by rewrite lookup_insert_eq).
  destruct ok; simpl negb; cbv iota.
  - pose proof (acquireIdle_spec (length (idleConnections s3)) st3 name now H3 ltac:(eauto)) as Ha.
    destruct (acquireIdle cfg _ st3 name now) as [st4 r]. destruct Ha as (H4 & [s4 Es4] & Hn4 & Hr).
    rewrite (svc_lookup _ _ _ Es3) in Hr. destruct r as [cid|].
    + destruct Hr as (Hho & Hrange & Hin). destruct (finish_Inv st4 name cid H4 ltac:(eauto)) as (Hi & Hf & _).
      pose proof (finish_handedOut _ _ _ Hho). destruct (finish st4 name cid) as [st' cid']. simpl in *. subst cid'.
      split_and!; auto; [|intros; lia]. intros _. split; [done|]. right. rewrite <- Hidle0. congruence.
    + specialize (Hr ltac:(lia)). rewrite (svc_lookup _ _ _ Es4) in Hr |- *.
      unfold getServiceConnectionCountLocked. rewrite Es4.
      pose proof (acquire_new st4 name s4 key now H4 Es4 Hr) as Hnew. cbv zeta in Hnew.
      destruct (if maxPoolSize s4 <=? totalConnections s4 then _ else _) as [st' cid].
      destruct Hnew as (Hi & Hho & Hz). split_and!; auto.
      * intros Hcid. destruct (Hho Hcid). split; [done|]. left. subst cid. by rewrite Hn4.
      * intros Hd _ Hc0. destruct (Hz Hd Hc0) as (? & [?|?]); right; [left|right]; auto.
  - destruct (finish_Inv st3 name 0 H3 ltac:(eauto)) as (Hi & Hf & _).
    destruct (finish st3 name 0) as [st' cid]. simpl in *. subst cid. split_and!; [done|done|].
    intros _ _ _. left. congruence.
Qed.

(** ** Release *)

Lemma release_svcOk m name s cid c i b now :
  svcOk noneOf m name s -> m !! cid = Some c -> service c = name -> isActive c = true ->
  backendOf s c = Some (i, b) -> healthy b = true ->
  svcOk noneOf (<[cid := touch c now false]> m) name
    (countDown (setIdle s (idleConnections s ++ [cid])) c).
Proof.
  intros [] Hc Hs Hact Hb Hh. set (s1 := setIdle s _). destruct (countDown_fields s1 c) as (E1 & E2 & E3 & E4).
  constructor; rewrite ?E1, ?E2, ?E3, ?E4; simpl; auto.
  - rewrite so_total0, (num_update _ _ _ c _ Hc). change (isOf name (touch c now false)) with (isOf name c). lia.
  - apply (countDown_bound m); [done|done|]. intros h p. rewrite (num_update _ _ _ c _ Hc).
    rewrite (inactive_not_activeAt _ _ _ (touch c now false)) by done. simpl. lia.
  - apply NoDup_app. split_and!; [done| |apply NoDup_singleton]. intros k Hk ->%list_elem_of_singleton.
    apply so_idle0 in Hk as (c0 & Hc0 & _ & Hx). congruence.
  - intros k. rewrite elem_of_app, list_elem_of_singleton, so_idle0. split.
    + intros [(c0 & Hk & Hn & Hx)| ->].
      * exists c0. rewrite lookup_insert_ne; [done|]. intros <-. congruence.
      * exists (touch c now false). by rewrite lookup_insert_eq.
    + intros (c0 & [[-> <-]|[Hne Hk]]%lookup_insert_Some & Hn & Hx); [by right|left; eauto].
  - intros k c0 [[-> <-]|[Hne Hk]]%lookup_insert_Some Hn Hx _; [|by eapply so_home0].
    apply findBackend_Some in Hb as [Hi Hm]. apply matchesAddr_true in Hm as [Eh Ep].
    simpl. apply list_elem_of_fmap. exists b. rewrite Eh, Ep, Hh. split; [done|by eapply list_elem_of_lookup_2].
Qed.

Lemma release_Inv st cid now : Inv noneOf st -> Inv noneOf (releaseConnection st cid now).
Proof.
  intros H. unfold releaseConnection. destruct (connections st !! cid) as [c|] eqn:Ec; [|done].
  destruct (isActive c) eqn:Ea; simpl; [|done].
  destruct (services st !! service c) as [s|] eqn:Es; [|by apply remove_Inv].
  destruct (backendOf s c) as [[i b]|] eqn:Eb; [|by apply remove_Inv].
  destruct (healthy b) eqn:Eh; simpl; [|by apply remove_Inv].
  destruct (inv_conn _ _ H _ _ Ec) as (Hid & Hr & _).
  pose proof (release_svcOk _ _ _ _ _ _ _ now (inv_svc _ _ H _ _ Es) Ec eq_refl Ea Eb Eh) as Hok.
  fold (touch c now false). unfold countDown in Hok.
  change (backendOf (setIdle s (idleConnections s ++ [cid])) c) with (backendOf s c) in Hok.
  rewrite Eb, Ea in Hok. simpl in Hok. apply setBoth_Inv; auto. intros c0 Hc0. congruence.
Qed.

(** ** Backends *)

Lemma addBackend_Inv st name h p w now : Inv noneOf st -> Inv noneOf (addBackendServer cfg st name h p w now).
Proof.
  intros H. unfold addBackendServer. case_match; [done|].
  destruct (ensure_Inv st name H) as (H1 & [s Es] & _). set (st1 := ensureServiceStateLocked cfg st name) in *.
  rewrite (svc_lookup _ _ _ Es). pose proof (inv_svc _ _ H1 _ _ Es) as Hok.
  destruct (findBackend (matchesAddr h p) (backends s)) as [[i b]|] eqn:Eb.
  - apply findBackend_Some in Eb as [Hi _]. apply (setService_Inv noneOf noneOf); auto.
    by eapply updateBackend_svcOk.
  - apply (setService_Inv noneOf noneOf); auto. destruct Hok. constructor; simpl; auto.
    + unfold addrs. rewrite !fmap_app. apply NoDup_app. split_and!; [done| |apply NoDup_singleton].
      intros x Hx ->%list_elem_of_singleton. unfold addrs in Hx. rewrite <- list_fmap_compose in Hx.
      apply list_elem_of_fmap in Hx as (b & [= -> ->] & Hb). eapply findBackend_None in Eb; [|done].
      by rewrite (proj2 (matchesAddr_true _ _ _)) in Eb.
    + intros b [Hb|Hb]%elem_of_app; [by apply so_active0|]. apply list_elem_of_singleton in Hb as ->. simpl.
      split; [lia|apply num_nonneg].
    + intros k c Hk Hn Hx Hy. unfold addrs. rewrite fmap_app. apply elem_of_app. left. by eapply so_home0.
Qed.

Lemma idleAt_false name h p c :
  idleAt name h p c = false -> service c = name -> isActive c = false ->
  remoteHost c = h -> remotePort c = p -> False.
Proof.
  unfold idleAt. intros E E1 E2 E3 E4. rewrite E1, E2, E3, E4 in E.
  by rewrite !bool_decide_eq_true_2, Z.eqb_refl in E by done.
Qed.

Lemma removeBackend_Inv st name h p : Inv noneOf st -> Inv noneOf (removeBackendServer st name h p).
Proof.
  intros H. unfold removeBackendServer. destruct (services st !! name) as [s|] eqn:Es; [|done].
  apply removeAll_Inv. apply (setService_Inv noneOf); auto. pose proof (inv_svc _ _ H _ _ Es) as Hok.
  set (s1 := setBackends s _). apply (svcOk_core _ _ _ s1); try (by case_match).
  destruct Hok. constructor; simpl; auto.
  - eapply sublist_NoDup; [exact so_addrs0|]. unfold addrs. by apply fmap_sublist, fmap_sublist, sublist_filter.
  - intros b [_ Hb]%list_elem_of_filter. by apply so_active0.
  - intros k c Hk Hn Hx Hy. pose proof (so_home0 k c Hk Hn Hx eq_refl) as Hin. unfold addrs in *.
    apply list_elem_of_fmap in Hin as (b & E & Hb). apply list_elem_of_fmap. exists b. split; [done|].
    apply list_elem_of_filter. split; [|done]. injection E as E1 E2 _.
    destruct (matchesAddr h p b) eqn:Em; [|done]. apply matchesAddr_true in Em as [? ?].
    exfalso. apply (idleAt_false _ _ _ _ Hy); congruence.
Qed.

Lemma updateWeight_Inv st name h p w : Inv noneOf st -> Inv noneOf (updateBackendWeight st name h p w).
Proof.
  intros H. unfold updateBackendWeight. destruct (services st !! name) as [s|] eqn:Es; [|done].
  destruct (findBackend _ _) as [[i b]|] eqn:Eb; [|done]. apply findBackend_Some in Eb as [Hi _].
  apply (setService_Inv noneOf noneOf); auto. eapply updateBackend_svcOk; eauto. by apply (inv_svc _ _ H).
Qed.

Lemma setStrategy_Inv st name x : Inv noneOf st -> Inv noneOf (setLoadBalancingStrategy cfg st name x).
Proof.
  intros H. unfold setLoadBalancingStrategy. destruct (ensure_Inv st name H) as (H1 & [s Es] & _).
  eapply setService_core; [done|exact Es|..]; by rewrite (svc_lookup _ _ _ Es).
Qed.

Lemma applyBackendStatus_fields b ok now :
  let b' := applyBackendStatus b ok (failureThreshold cfg) now in
  host b' = host b ∧ port b' = port b ∧ activeConnections b' = activeConnections b.
Proof. unfold applyBackendStatus. by repeat case_match. Qed.

Lemma reportAt_Inv st name h p i b ok now :
  Inv noneOf st -> is_Some (services st !! name) -> backends (svc st name) !! i = Some b ->
  matchesAddr h p b = true -> Inv noneOf (reportAt cfg st name h p i ok now).
Proof.
  intros H [s Es] Hi Hm. unfold reportAt. rewrite Hi. rewrite (svc_lookup _ _ _ Es) in *.
  destruct (applyBackendStatus_fields b ok now) as (E1 & E2 & E3).
  set (b' := applyBackendStatus _ _ _ _) in *. apply matchesAddr_true in Hm as [Eh Ep].
  pose proof (inv_svc _ _ H _ _ Es) as Hok. destruct (healthy b && negb (healthy b')) eqn:Eg.
  - apply removeAll_Inv, (setService_Inv noneOf); auto. eapply updateBackend_svcOk; eauto.
    intros k c _ Hs Hx HY ???. exfalso. apply (idleAt_false _ _ _ _ HY); congruence.
  - apply (setService_Inv noneOf noneOf); auto. eapply updateBackend_svcOk; eauto.
    intros k c _ _ _ _ _ _ Hb. rewrite Hb in Eg. by destruct (healthy b').
Qed.

Lemma fold_left_inv {A B} (P : A -> Prop) (f : A -> B -> A) l a :
  (∀ a b, P a -> P (f a b)) -> P a -> P (fold_left f l a).
Proof. intros Hf. revert a. induction l; simpl; auto. Qed.

Lemma removeWhere_services q cids st name :
  is_Some (services st !! name) -> is_Some (services (removeWhere q st cids) !! name).
Proof.
  revert st. induction cids as [|cid cids IH]; intros st Hs; [done|]. simpl. apply IH.
  destruct (connections st !! cid); [|done]. case_match; [by apply remove_services|done].
Qed.

Lemma reportAt_services st name h p i ok now n :
  is_Some (services st !! n) -> is_Some (services (reportAt cfg st name h p i ok now) !! n).
Proof.
  intros Hs. unfold reportAt. destruct (backends _ !! i); [|done].
  assert (∀ s, is_Some (services (setService st name s) !! n)) by (intros; simpl; by apply lookup_insert_is_Some'; right).
  case_match; [by apply removeWhere_services|done].
Qed.

Lemma report_Inv st h p ok now : Inv noneOf st -> Inv noneOf (reportBackendStatus cfg st h p ok now).
Proof.
  intros H. unfold reportBackendStatus. case_match; [done|].
  set (names := (map_to_list (services st)).*1).
  assert (Hn : Forall (fun n => is_Some (services st !! n)) names).
  { apply Forall_forall. intros n Hin. apply list_elem_of_fmap in Hin as ([n' s] & -> & Hin).
    apply elem_of_map_to_list in Hin. eauto. }
  clearbody names. revert st H Hn. induction names as [|name names IH]; intros st H Hn; [done|].
  apply Forall_cons in Hn as [Hname Hn]. simpl.
  set (P := fun st' => Inv noneOf st' ∧ ∀ n, is_Some (services st !! n) -> is_Some (services st' !! n)).
  enough (P (fold_left (fun st0 i => if matchesAddr h p (getB (backends (svc st0 name)) i)
             then reportAt cfg st0 name h p i ok now else st0) (seq 0 (length (backends (svc st name)))) st)) as [H1 H2].
  { apply IH; [done|]. eapply Forall_impl; [exact Hn|]. auto. }
  apply fold_left_inv; [|by split]. intros st0 i [Hi Hs]. destruct (matchesAddr _ _ _) eqn:Em; [|done].
  unfold getB in Em. destruct (backends (svc st0 name) !! i) as [b|] eqn:Eb; simpl in Em.
  - split; [eapply reportAt_Inv; eauto|]. intros n Hx. by apply reportAt_services, Hs.
  - unfold reportAt. by rewrite Eb.
Qed.

Lemma reportService_Inv st name h p ok now : Inv noneOf st -> Inv noneOf (reportServiceBackendStatus cfg st name h p ok now).
Proof.
  intros H. unfold reportServiceBackendStatus. case_match; [done|].
  destruct (services st !! name) as [s|] eqn:Es; [|done].
  destruct (findBackend _ _) as [[i b]|] eqn:Eb; [|done]. apply findBackend_Some in Eb as [Hi Hm].
  eapply reportAt_Inv; eauto. by rewrite (svc_lookup _ _ _ Es).
Qed.

(** ** Maintenance *)

Lemma healthCheck_svcOk m name s now :
  svcOk noneOf m name s ->
  svcOk noneOf m name (setBackends s (healthCheckBackend cfg now <$> backends s)).
Proof.
  assert (Hf : ∀ b, host (healthCheckBackend cfg now b) = host b ∧ port (healthCheckBackend cfg now b) = port b ∧
      activeConnections (healthCheckBackend cfg now b) = activeConnections b ∧
      (healthy b = true -> healthy (healthCheckBackend cfg now b) = true)).
  { intros b. unfold healthCheckBackend. by destruct (healthy b) eqn:E, (_ || _); simpl; rewrite ?E. }
  intros []. constructor; simpl; auto.
  - unfold addrs in *. rewrite <- !list_fmap_compose in *. erewrite list_fmap_ext; [exact so_addrs0|].
    intros i b _. simpl. destruct (Hf b) as (-> & -> & _). done.
  - intros b Hb. apply list_elem_of_fmap in Hb as (b0 & -> & Hb). destruct (Hf b0) as (-> & -> & -> & _).
    by apply so_active0.
  - intros k c Hk Hn Hx Hy. pose proof (so_home0 k c Hk Hn Hx Hy) as Hin. unfold addrs in *.
    apply list_elem_of_fmap in Hin as (b & E & Hb). injection E as E1 E2 E3.
    apply list_elem_of_fmap. exists (healthCheckBackend cfg now b). destruct (Hf b) as (F1 & F2 & _ & F4).
    rewrite F1, F2, F4 by done. split; [congruence|]. apply list_elem_of_fmap. eauto.
Qed.

Lemma maintenance_Inv st now : Inv noneOf st -> Inv noneOf (maintenance cfg st now).
Proof.
  intros H. unfold maintenance, performHealthCheckLocked, cleanupExpiredConnectionsLocked.
  set (st1 := removeWhere _ st _). assert (H1 : Inv noneOf st1) by by apply removeWhere_Inv.
  set (st2 := setServices st1 _). assert (H2 : Inv noneOf st2).
  { apply setServices_Inv; [done|]. intros name s. apply prune_svcOk. }
  apply setServices_Inv; [done|]. intros name s Hok. apply prune_svcOk.
  apply (healthCheck_svcOk _ _ (setBreaker s _)). by eapply svcOk_core; [..|exact Hok].
Qed.

Lemma reportOne_svcOk m name s ok now : svcOk noneOf m name s -> svcOk noneOf m name (reportOne cfg ok now s).
Proof. intros Hok. by eapply svcOk_core; [..|exact Hok]. Qed.

Lemma apply_Inv st c now : Inv noneOf st -> Inv noneOf (apply cfg draw hashKey st c now).
Proof.
  intros H. destruct c; simpl.
  - pose proof (acquire_spec st name key now H) as Ha. destruct (acquireConnection _ _ _ _ _ _ _). apply Ha.
  - by apply release_Inv.
  - by apply remove_Inv.
  - by apply addBackend_Inv.
  - by apply removeBackend_Inv.
  - by apply updateWeight_Inv.
  - by apply setStrategy_Inv.
  - by apply report_Inv.
  - by apply reportService_Inv.
  - unfold reportExecution. case_match; [done|]. apply setServices_Inv; [done|]. intros. by apply reportOne_svcOk.
  - unfold reportServiceExecution. case_match; [done|]. destruct (services st !! name) as [s|] eqn:Es; [|done].
    apply (setService_Inv noneOf noneOf); auto. by apply reportOne_svcOk, (inv_svc _ _ H).
  - by apply maintenance_Inv.
  - constructor; simpl; [apply H| |]; intros ?? Hx; by rewrite lookup_empty in Hx.
Qed.

Lemma reachable_Inv st : reachable cfg draw hashKey st -> Inv noneOf st.
Proof. induction 1; [apply Inv_empty|by apply apply_Inv]. Qed.

End Preservation.

(** ** Circuit breaker *)

(** The breaker after a run of reports. *)
Definition reports (cfg : Settings) (c : CircuitBreakerStats) (now : TimePoint) (rs : list bool) : CircuitBreakerStats :=
  fold_left (fun c ok => applyExecutionResult c ok (failureThreshold cfg) (halfOpenAttempts cfg) now) rs c.

Lemma reports_failures cfg now n c :
  state c = Closed -> 0 <= cbFailureCount c -> (n = 0%nat -> cbFailureCount c < failureThreshold cfg) ->
  state (reports cfg c now (replicate n false)) =
    if failureThreshold cfg <=? cbFailureCount c + Z.of_nat n then Open else Closed.
Proof.
  revert c. induction n as [|n IH]; intros c Hc H0 Hz.
  - simpl. rewrite (proj2 (Z.leb_gt _ _)) by (specialize (Hz eq_refl); lia). done.
  - unfold reports in *. simpl. rewrite Hc. simpl.
    destruct (Z.leb_spec (failureThreshold cfg) (cbFailureCount c + 1)) as [Hle|Hgt].
    + rewrite (proj2 (Z.leb_le _ _)) by lia. clear IH Hz.
      set (c1 := mkBreaker Open _ _ _ _). assert (Ho : state c1 = Open ∧ failureThreshold cfg <= cbFailureCount c1 + 1)
        by (split; [done|simpl; lia]). clearbody c1. revert c1 Ho. induction n as [|n IH]; intros c1 [Ho Hf]; [done|].
      simpl. apply IH. unfold applyExecutionResult. rewrite Ho. simpl. rewrite (proj2 (Z.leb_le _ _)) by lia.
      split; [done|simpl; lia].
    + rewrite IH; [|done|simpl; lia|simpl; lia]. cbn [cbFailureCount cbSuccessCount].
      rewrite Nat2Z.inj_succ, <- Z.add_1_l, Z.add_assoc. done.
Qed.

Lemma reports_successes cfg now n c :
  state c = HalfOpen -> 0 <= cbSuccessCount c -> (n = 0%nat -> cbSuccessCount c < halfOpenAttempts cfg) ->
  state (reports cfg c now (replicate n true)) =
    if halfOpenAttempts cfg <=? cbSuccessCount c + Z.of_nat n then Closed else HalfOpen.
Proof.
  revert c. induction n as [|n IH]; intros c Hc H0 Hz.
  - simpl. rewrite (proj2 (Z.leb_gt _ _)) by (specialize (Hz eq_refl); lia). done.
  - unfold reports in *. simpl. rewrite Hc. simpl.
    destruct (Z.leb_spec (halfOpenAttempts cfg) (cbSuccessCount c + 1)) as [Hle|Hgt].
    + rewrite (proj2 (Z.leb_le _ _)) by lia. clear IH Hz.
      set (c1 := mkBreaker Closed _ _ _ _). assert (Ho : state c1 = Closed) by done. clearbody c1.
      revert c1 Ho. induction n as [|n IH]; intros c1 Ho; [done|]. simpl. apply IH.
      unfold applyExecutionResult. by rewrite Ho.
    + rewrite IH; [|done|simpl; lia|simpl; lia]. cbn [cbFailureCount cbSuccessCount].
      rewrite Nat2Z.inj_succ, <- Z.add_1_l, Z.add_assoc. done.
Qed.

(** While the breaker is open and the recovery time has not passed, nothing is prepared. *)
Lemma prepare_open cfg s now :
  circuitBreakerEnabled cfg = true -> state (circuitBreaker s) = Open -> 0 < recoveryTimeout cfg ->
  now - cbLastFailureTime (circuitBreaker s) < recoveryTimeout cfg ->
  prepareCircuitBreakerLocked cfg s now = (s, false).
Proof.
  intros E1 E2 E3 E4. unfold prepareCircuitBreakerLocked. rewrite E1, E2. simpl.
  by rewrite (proj2 (Z.ltb_lt 0 _)), (proj2 (Z.ltb_lt (_ - _) _)) by done.
Qed.

(** ** Claims *)

(** C24. Whatever calls are made and whenever maintenance runs: a service's
    [totalConnections] is the number of its connections and never exceeds its pool limit;
    its idle queue lists exactly the connections not in use, each once; a connection waits
    in the queue only while its backend exists and is healthy; backend addresses are
    distinct and a backend's counter never exceeds the number of its active connections. *)
Theorem pool_invariant cfg draw hashKey st name s
  (Hreach : reachable cfg draw hashKey st) (Hs : services st !! name = Some s) :
  totalConnections s = ssTotal (getServiceStats st name) ∧
  totalConnections s <= maxPoolSize s ∧
  NoDup (idleConnections s) ∧
  (∀ cid, cid ∈ idleConnections s <->
     ∃ c, connections st !! cid = Some c ∧ service c = name ∧ isActive c = false) ∧
  (∀ cid c, connections st !! cid = Some c -> service c = name -> isActive c = false ->
     ∃ i b, backendOf s c = Some (i, b) ∧ healthy b = true) ∧
  (∀ b, b ∈ backends s ->
     0 <= activeConnections b <= countWhere (activeAt name (host b) (port b)) st).
Proof.
  pose proof (reachable_Inv cfg draw hashKey st Hreach) as H. destruct (inv_svc _ _ H _ _ Hs).
  unfold getServiceStats. rewrite Hs. simpl. rewrite countWhere_num. split_and!; auto.
  - intros cid c Hc Hn Hx. apply findBackend_addr; [done|]. by eapply so_home0.
  - intros b Hb. rewrite countWhere_num. by apply so_active0.
Qed.

(** [acquireConnection] on a reachable state returns an active connection of the service
    whose backend is healthy, either one that was waiting in the idle queue or a new one
    with the next identifier; it returns 0 only when the circuit breaker refuses, or when
    nothing is idle and either the pool is full or no backend is healthy. *)
Theorem acquire_result cfg draw hashKey st name key now st' cid
  (Hdraw : ∀ n, (0 < n)%nat -> (draw n < n)%nat) (Hname : name ≠ [])
  (Hreach : reachable cfg draw hashKey st)
  (Hacq : acquireConnection cfg draw hashKey st name key now = (st', cid)) :
  (cid ≠ 0 -> handedOut st' name cid ∧ (cid = nextConnectionId st ∨ cid ∈ idleConnections (svc st name))) ∧
  (cid = 0 -> refused cfg (svc (ensureServiceStateLocked cfg st name) name) now (connections st') name (svc st' name)).
Proof.
  pose proof (acquire_spec cfg draw hashKey st name key now (reachable_Inv _ _ _ _ Hreach)) as H.
  rewrite Hacq in H. destruct H as (_ & H1 & H2). split; [done|]. by apply H2.
Qed.

(** The circuit breaker opens exactly with the [failureThreshold]-th failure in a row,
    closes exactly with the [halfOpenAttempts]-th success in a row of the half-open phase,
    reopens at the first failure there, and refuses every request while it is open and the
    recovery time has not passed. *)
Theorem breaker_protocol cfg now n last :
  state (reports cfg (mkBreaker Closed 0 0 0 last) now (replicate n false)) =
    (if failureThreshold cfg <=? Z.of_nat n then Open else Closed) ∧
  state (reports cfg (mkBreaker HalfOpen 0 0 0 last) now (replicate n true)) =
    (if halfOpenAttempts cfg <=? Z.of_nat n then Closed else HalfOpen) ∧
  (∀ c, state c = HalfOpen ->
     state (applyExecutionResult c false (failureThreshold cfg) (halfOpenAttempts cfg) now) = Open) ∧
  (∀ s, circuitBreakerEnabled cfg = true -> state (circuitBreaker s) = Open -> 0 < recoveryTimeout cfg ->
     now - cbLastFailureTime (circuitBreaker s) < recoveryTimeout cfg ->
     prepareCircuitBreakerLocked cfg s now = (s, false)).
Proof.
  assert (1 <= failureThreshold cfg) by (unfold failureThreshold; lia).
  assert (1 <= halfOpenAttempts cfg) by (unfold halfOpenAttempts; lia).
  split_and!.
  - rewrite reports_failures; simpl; done || lia.
  - rewrite reports_successes; simpl; done || lia.
  - intros c Hc. unfold applyExecutionResult. by rewrite Hc.
  - intros s. apply prepare_open.
Qed.

(** ** Witnesses *)

Definition sampleCfg : Settings := mkSettings 30000 30000 60000 true 5 3 2 (str "RoundRobin").

Definition run (cs : list call) : Impl :=
  fold_left (fun st c => apply sampleCfg (fun _ => 0%nat) (fun _ => 0) st c 10) cs emptyImpl.

Lemma run_reachable cs : reachable sampleCfg (fun _ => 0%nat) (fun _ => 0) (run cs).
Proof.
  unfold run. apply (fold_left_inv (reachable sampleCfg (fun _ => 0%nat) (fun _ => 0))).
  - intros st c Hst. by apply reach_step.
  - apply reach_init.
Qed.

Definition sampleCalls : list call :=
  [AddBackend (str "api") (str "h1") 80 1; Acquire (str "api") []; Acquire (str "api") []; Release 1].

Lemma pool_invariant_witness :
  ∃ s, services (run sampleCalls) !! str "api" = Some s ∧ idleConnections s = [1] ∧
    totalConnections s = ssTotal (getServiceStats (run sampleCalls) (str "api")) ∧
    totalConnections s <= maxPoolSize s.
Proof.
  eexists. split; [vm_compute; reflexivity|]. split; [reflexivity|].
  edestruct (pool_invariant sampleCfg (fun _ => 0%nat) (fun _ => 0) (run sampleCalls) (str "api"))
    as (H1 & H2 & _); [apply run_reachable|vm_compute; reflexivity|].
  split; [exact H1|exact H2].
Defined.

Lemma acquire_result_witness :
  ∃ st' cid, acquireConnection sampleCfg (fun _ => 0%nat) (fun _ => 0) (run sampleCalls) (str "api") [] 11 = (st', cid) ∧
    cid = 1 ∧ handedOut st' (str "api") cid.
Proof.
  destruct (acquireConnection sampleCfg (fun _ => 0%nat) (fun _ => 0) (run sampleCalls) (str "api") [] 11)
    as [st' cid] eqn:E.
  exists st', cid. split; [reflexivity|].
  assert (Hcid : cid = 1) by (apply (f_equal snd) in E; vm_compute in E; by rewrite E).
  split; [exact Hcid|].
  destruct (acquire_result sampleCfg (fun _ => 0%nat) (fun _ => 0) (run sampleCalls) (str "api") [] 11 st' cid)
    as [H _]; [intros; lia|discriminate|apply run_reachable|exact E|].
  destruct H as [H _]; [lia|exact H].
Defined.

(** Removing a backend that still has a connection in use and adding it back makes the
    old connection count against the new entry: when it is released, the backend reports no
    active connection while one is in use. *)
Theorem readded_backend_undercounts :
  let st := run [AddBackend (str "api") (str "h1") 80 1; Acquire (str "api") [];
                 RemoveBackend (str "api") (str "h1") 80; AddBackend (str "api") (str "h1") 80 1;
                 Acquire (str "api") []; Release 1] in
  activeConnections <$> getBackendServers st (str "api") = [0] ∧ ssActive (getServiceStats st (str "api")) = 1.
Proof. vm_compute. done. Qed.
