(* ===== verification/Configuration.v ===== *)
(** * Configuration (src/Configuration.cpp)

    The options of the library with their defaults and validation, the file format and the
    environment, merging.  Every member takes the object's mutex for its whole body, so a
    call is a function on the two containers.  [std::map<Option, _>] is a finite map, visited
    in the order of the enumeration.  A file is what opening and reading it gives, [None] when
    it cannot be opened; the environment is a function.  The two members on [double] are left
    out. *)

From stdpp Require Import finite.
From S2P Require Import Prelude CType HttpParser Stoull.

(** ** Options (include/FastNet/Configuration.h) *)

Inductive Option :=
  MaxConnections | ConnectionTimeout | ReadTimeout | WriteTimeout | ThreadPoolSize | ThreadIdleTimeout
| BufferSize | MaxBufferSize | LogLevel | LogFilePath | EnableSSL | CertificateFile | PrivateKeyFile | CAFile
| VerifyPeer | MaxHttpRequestSize | MaxHttpResponseSize | EnableCompression | CompressionLevel
| WebSocketPingInterval | WebSocketPongTimeout | EnablePerformanceMonitoring | PerformanceReportInterval
| LoadBalancingStrategy | HealthCheckInterval | CircuitBreakerEnabled | FailureThreshold | RecoveryTimeout
| HalfOpenAttempts.

Inductive MergeMode := OverrideExisting | PreserveExisting.

#[export] Instance option_eq_dec : EqDecision Option.
Proof. solve_decision. Defined.

Definition kOptionEntries : list (Option * list byte) := [
  (MaxConnections, str "MaxConnections"); (ConnectionTimeout, str "ConnectionTimeout"); (ReadTimeout, str "ReadTimeout");
  (WriteTimeout, str "WriteTimeout"); (ThreadPoolSize, str "ThreadPoolSize"); (ThreadIdleTimeout, str "ThreadIdleTimeout");
  (BufferSize, str "BufferSize"); (MaxBufferSize, str "MaxBufferSize"); (LogLevel, str "LogLevel"); (LogFilePath, str "LogFilePath");
  (EnableSSL, str "EnableSSL"); (CertificateFile, str "CertificateFile"); (PrivateKeyFile, str "PrivateKeyFile"); (CAFile, str "CAFile");
  (VerifyPeer, str "VerifyPeer"); (MaxHttpRequestSize, str "MaxHttpRequestSize"); (MaxHttpResponseSize, str "MaxHttpResponseSize");
  (EnableCompression, str "EnableCompression"); (CompressionLevel, str "CompressionLevel");
  (WebSocketPingInterval, str "WebSocketPingInterval"); (WebSocketPongTimeout, str "WebSocketPongTimeout");
  (EnablePerformanceMonitoring, str "EnablePerformanceMonitoring"); (PerformanceReportInterval, str "PerformanceReportInterval");
  (LoadBalancingStrategy, str "LoadBalancingStrategy"); (HealthCheckInterval, str "HealthCheckInterval");
  (CircuitBreakerEnabled, str "CircuitBreakerEnabled"); (FailureThreshold, str "FailureThreshold"); (RecoveryTimeout, str "RecoveryTimeout");
  (HalfOpenAttempts, str "HalfOpenAttempts")].

Definition kDefaultOptionValues : list (Option * list byte) := [
  (MaxConnections, str "1000"); (ConnectionTimeout, str "30000"); (ReadTimeout, str "30000"); (WriteTimeout, str "30000");
  (ThreadPoolSize, str "4"); (ThreadIdleTimeout, str "60000"); (BufferSize, str "4096"); (MaxBufferSize, str "65536");
  (LogLevel, str "INFO"); (LogFilePath, str "fastnet.log"); (EnableSSL, str "false"); (CertificateFile, []); (PrivateKeyFile, []);
  (CAFile, []); (VerifyPeer, str "true"); (MaxHttpRequestSize, str "1048576"); (MaxHttpResponseSize, str "1048576");
  (EnableCompression, str "true"); (CompressionLevel, str "6"); (WebSocketPingInterval, str "30000");
  (WebSocketPongTimeout, str "10000"); (EnablePerformanceMonitoring, str "true"); (PerformanceReportInterval, str "5000");
  (LoadBalancingStrategy, str "RoundRobin"); (HealthCheckInterval, str "30000"); (CircuitBreakerEnabled, str "true");
  (FailureThreshold, str "5"); (RecoveryTimeout, str "60000"); (HalfOpenAttempts, str "3")].

(** The enumeration, in its order. *)
Definition allOptions : list Option := kOptionEntries.*1.

#[export] Program Instance option_finite : Finite Option := {| enum := allOptions |}.
Next Obligation. decide_closed. Qed.
Next Obligation. intros []; decide_closed. Qed.

(** [std::find_if] on a table. *)
Definition entryOf (o : Option) (table : list (Option * list byte)) : option (list byte) := snd <$> find (fun e => e.1 =s o) table.

Definition getDefaultOptionValue (o : Option) : option (list byte) := entryOf o kDefaultOptionValues.

(** ** Texts *)

(** The set " \t\r\n". *)
Definition isBlank (c : byte) : bool := (c =b x20) || (c =b x09) || (c =b x0d) || (c =b x0a).

(** [find_first_not_of] and [find_last_not_of]. *)
Fixpoint findFirstNotBlank (s : list byte) : option nat :=
  match s with
  | [] => None
  | c :: s => if isBlank c then S <$> findFirstNotBlank s else Some 0%nat
  end.
Definition findLastNotBlank (s : list byte) : option nat := (fun i => length s - 1 - i)%nat <$> findFirstNotBlank (reverse s).

Definition trimCopy (value : list byte) : list byte :=
  match findFirstNotBlank value with
  | None => []
  | Some first => let last := default 0%nat (findLastNotBlank value) in take (last - first + 1) (drop first value)
  end.

Definition toupper (b : byte) : byte := if islower b then zb (bz b - 32) else b.
Definition toLowerCopy (value : list byte) : list byte := tolower <$> value.
Definition toUpperCopy (value : list byte) : list byte := toupper <$> value.

Definition canonicalizeOptionName (text : list byte) : list byte :=
  let normalized := tolower <$> filter (fun c => isalnum c = true) text in
  if is_prefix (str "fastnet") normalized then drop 7 normalized else normalized.

Definition parseBoolValue (value : list byte) : option bool :=
  let normalized := toLowerCopy (trimCopy value) in
  if (normalized =s str "true") || (normalized =s str "1") || (normalized =s str "yes") || (normalized =s str "on") then Some true
  else if (normalized =s str "false") || (normalized =s str "0") || (normalized =s str "no") || (normalized =s str "off") then Some false
  else None.

(** [std::stoll(s, &consumed, 10)]: white space, a sign and the longest run of digits; [None] is
    an exception, without digits or out of range. *)
Definition stoll (s : list byte) : option (Z * nat) :=
  let '(neg, rest) := splitSign (trimLeft s) in
  match digitRun 10 rest with
  | [] => None
  | digits =>
      let v := valueFrom 10 (baseDigit 10) 0 digits in
      let v := if neg then - v else v in
      if (v <? - 2 ^ 63) || (2 ^ 63 - 1 <? v) then None else Some (v, (length s - (length rest - length digits))%nat)
  end.

Definition parseIntegerStrict (text : list byte) : option Z :=
  let trimmed := trimCopy text in
  match trimmed with
  | [] => None
  | _ => match stoll trimmed with
         | Some (value, consumed) => if bool_decide (consumed = length trimmed) then Some value else None
         | None => None
         end
  end.

(** The loop of [toEnvironmentKey]; [previous] is the character before. *)
Fixpoint environmentKeyFrom (previous : option byte) (s : list byte) : list byte :=
  match s with
  | [] => []
  | current :: s' =>
      let previousLower := from_option islower false previous in
      let nextLower := from_option islower false (head s') in
      let underscore := if previous is Some _ then isupper current && (previousLower || nextLower) else false in
      (if underscore then [x5f] else []) ++ toupper current :: environmentKeyFrom (Some current) s'
  end.
Definition toEnvironmentKey : list byte -> list byte := environmentKeyFrom None.

(** Where a comment starts outside quotes; [previous] is the character before. *)
Fixpoint commentAt (inQuotes : bool) (previous : option byte) (s : list byte) : option nat :=
  match s with
  | [] => None
  | c :: s' =>
      if c =b x22 then S <$> commentAt (negb inQuotes) (Some c) s'
      else if inQuotes then S <$> commentAt inQuotes (Some c) s'
      else if ((c =b x23) || (c =b x3b)) && from_option isspace true previous then Some 0%nat
      else S <$> commentAt inQuotes (Some c) s'
  end.

Definition stripInlineComment (line : list byte) : list byte :=
  match commentAt false None line with
  | Some i => trimCopy (take i line)
  | None => trimCopy line
  end.

(** ** Validation *)

Definition inRange (lo hi : Z) (value : list byte) : bool :=
  match parseIntegerStrict value with Some v => (lo <=? v) && (v <=? hi) | None => false end.

Definition validateOption (o : Option) (value : list byte) : bool :=
  match o with
  | MaxConnections => inRange 1 100000 value
  | ConnectionTimeout | ReadTimeout | WriteTimeout | ThreadIdleTimeout | HealthCheckInterval | RecoveryTimeout
  | WebSocketPingInterval | WebSocketPongTimeout | PerformanceReportInterval => inRange 0 3600000 value
  | ThreadPoolSize => inRange 1 256 value
  | BufferSize | MaxBufferSize => inRange 1024 10485760 value
  | MaxHttpRequestSize | MaxHttpResponseSize => inRange 1024 104857600 value
  | CompressionLevel => inRange 0 9 value
  | FailureThreshold | HalfOpenAttempts => inRange 1 100 value
  | EnableSSL | VerifyPeer | EnableCompression | EnablePerformanceMonitoring | CircuitBreakerEnabled =>
      bool_decide (is_Some (parseBoolValue value))
  | LogLevel =>
      let normalized := toUpperCopy (trimCopy value) in
      (normalized =s str "TRACE") || (normalized =s str "DEBUG") || (normalized =s str "INFO") ||
      (normalized =s str "WARN") || (normalized =s str "ERROR") || (normalized =s str "FATAL")
  | LoadBalancingStrategy =>
      let normalized := canonicalizeOptionName value in
      (normalized =s str "roundrobin") || (normalized =s str "random") || (normalized =s str "leastconnections") ||
      (normalized =s str "weightedroundrobin") || (normalized =s str "iphash")
  | LogFilePath | CertificateFile | PrivateKeyFile | CAFile => true
  end.

Definition optionToString (o : Option) : list byte := default [] (entryOf o kOptionEntries).

Definition stringToOption (text : list byte) : option Option :=
  let normalized := canonicalizeOptionName text in
  match normalized with
  | [] => None
  | _ => fst <$> find (fun e => canonicalizeOptionName e.2 =s normalized) kOptionEntries
  end.

(** ** The object *)

Record Configuration := mkConfiguration {
  options_ : gmap Option (list byte);
  explicitOptions_ : gset Option
}.

(** [options_[o] = v; explicitOptions_.insert(o)]. *)
Definition assign (c : Configuration) (e : Option * list byte) : Configuration :=
  mkConfiguration (<[e.1 := e.2]> (options_ c)) ({[e.1]} ∪ explicitOptions_ c).

(** The entries of a map, in order. *)
Definition entries (values : gmap Option (list byte)) : list (Option * list byte) := omap (fun o => pair o <$> values !! o) allOptions.

Definition populateDefaultsLocked : Configuration :=
  mkConfiguration (foldl (fun m e => <[e.1 := e.2]> m) ∅ kDefaultOptionValues) ∅.
Definition setDefaults : Configuration := populateDefaultsLocked.

Definition snapshot (c : Configuration) : gmap Option (list byte) := options_ c.

Definition getString (c : Configuration) (o : Option) (defaultValue : list byte) : list byte := default defaultValue (options_ c !! o).

Definition int_min : Z := - 2 ^ 31.
Definition int_max : Z := 2 ^ 31 - 1.

Definition getInt (c : Configuration) (o : Option) (defaultValue : Z) : Z :=
  match options_ c !! o with
  | None => defaultValue
  | Some text =>
      match parseIntegerStrict text with
      | None => defaultValue
      | Some value => if (value <? int_min) || (int_max <? value) then defaultValue else value
      end
  end.

Definition getBool (c : Configuration) (o : Option) (defaultValue : bool) : bool :=
  match options_ c !! o with
  | None => defaultValue
  | Some text => default defaultValue (parseBoolValue text)
  end.

(** [set] on strings, and what the other overloads pass to it. *)
Definition set (c : Configuration) (o : Option) (value : list byte) : Configuration := assign c (o, trimCopy value).
Definition setCString (c : Configuration) (o : Option) (value : option (list byte)) : Configuration := set c o (default [] value).
Definition setInt (c : Configuration) (o : Option) (value : Z) : Configuration := set c o (appendSignedDecimal [] value).
Definition setBool (c : Configuration) (o : Option) (value : bool) : Configuration := set c o (if value then str "true" else str "false").

Definition has (c : Configuration) (o : Option) : bool := bool_decide (o ∈ explicitOptions_ c).

Definition validate (c : Configuration) : bool := forallb (fun e => validateOption e.1 e.2) (entries (snapshot c)).

Definition remove (c : Configuration) (o : Option) : Configuration :=
  mkConfiguration
    (match getDefaultOptionValue o with Some v => <[o := v]> (options_ c) | None => delete o (options_ c) end)
    (explicitOptions_ c ∖ {[o]}).

Definition clear (c : Configuration) : Configuration := populateDefaultsLocked.

(** [getAllKeys], as the list of what it inserts. *)
Definition getAllKeys (c : Configuration) : list (list byte) := (fun e => optionToString e.1) <$> entries (snapshot c).

Definition mergeEntry (other : Configuration) (mode : MergeMode) (c : Configuration) (o : Option) : Configuration :=
  match options_ other !! o with
  | None => c
  | Some value =>
      if negb (validateOption o value) then c
      else if (if mode is PreserveExisting then true else false) && has c o then c
      else assign c (o, value)
  end.
Definition mergeWith (c other : Configuration) (mode : MergeMode) : Configuration :=
  foldl (mergeEntry other mode) c (filter (fun o => has other o = true) allOptions).
Definition merge (c other : Configuration) : Configuration := mergeWith c other OverrideExisting.

(** The copy constructor and [operator=]. *)
Definition copyFrom (other : Configuration) : Configuration := mkConfiguration (options_ other) (explicitOptions_ other).

(** ** Files *)

(** The lines [std::getline] gives; [line] is what was read of the current one, reversed. *)
Fixpoint getLines (line : list byte) (s : list byte) : list (list byte) :=
  match s with
  | [] => if line is [] then [] else [reverse line]
  | c :: s => if c =b LF then reverse line :: getLines [] s else getLines (c :: line) s
  end.

Definition dropByteOrderMark (line : list byte) : list byte :=
  match line with
  | a :: b :: c :: rest => if (a =b xef) && (b =b xbb) && (c =b xbf) then rest else line
  | _ => line
  end.

(** One line: the entry it sets, if any; [None] is [return false]. *)
Definition parseLine (line : list byte) : option (option (Option * list byte)) :=
  let stripped := stripInlineComment (dropByteOrderMark line) in
  match find_from x3d stripped with
  | None => Some None
  | Some separator =>
      let key := trimCopy (take separator stripped) in
      let value := trimCopy (drop (S separator) stripped) in
      match stringToOption key with
      | None => Some None
      | Some o => if validateOption o value then Some (Some (o, value)) else None
      end
  end.

Fixpoint parseLines (lines : list (list byte)) (parsed : gmap Option (list byte)) : option (gmap Option (list byte)) :=
  match lines with
  | [] => Some parsed
  | line :: lines =>
      match parseLine line with
      | None => None
      | Some None => parseLines lines parsed
      | Some (Some (o, value)) => parseLines lines (<[o := value]> parsed)
      end
  end.
Definition parseConfigFile (content : list byte) : option (gmap Option (list byte)) := parseLines (getLines [] content) ∅.

Definition loadFromFile (file : option (list byte)) (c : Configuration) : Configuration * bool :=
  match file with
  | None => (c, false)
  | Some content =>
      match parseConfigFile content with
      | None => (c, false)
      | Some parsedOptions => (foldl assign c (entries parsedOptions), true)
      end
  end.

Definition serializeEntry (e : Option * list byte) : list byte := optionToString e.1 ++ [x3d] ++ e.2 ++ [LF].
Definition serialize (c : Configuration) : list byte := concat (serializeEntry <$> entries (snapshot c)).
(** What [saveToFile] writes to a file it can open. *)
Definition saveToFile : Configuration -> list byte := serialize.

(** ** The environment *)

(** The first candidate that is set decides. *)
Fixpoint firstSet (environment : list byte -> option (list byte)) (candidates : list (list byte)) : option (list byte) :=
  match candidates with
  | [] => None
  | key :: candidates => match environment key with Some value => Some value | None => firstSet environment candidates end
  end.

Definition candidatesOf (prefix name : list byte) : list (list byte) :=
  let upperName := toUpperCopy name in
  let snakeName := toEnvironmentKey name in
  (if prefix is [] then [] else [prefix ++ snakeName; prefix ++ upperName]) ++ [snakeName; upperName].

Definition environmentEntry (environment : list byte -> option (list byte)) (prefix : list byte) (e : Option * list byte) : option (Option * list byte) :=
  match firstSet environment (candidatesOf prefix e.2) with
  | None => None
  | Some value => if validateOption e.1 (trimCopy value) then Some (e.1, trimCopy value) else None
  end.

Definition loadFromEnvironmentWith (environment : list byte -> option (list byte)) (prefix : list byte) (c : Configuration) : Configuration :=
  foldl assign c (omap (environmentEntry environment prefix) kOptionEntries).
Definition loadFromEnvironment (environment : list byte -> option (list byte)) (c : Configuration) : Configuration :=
  loadFromEnvironmentWith environment (str "FASTNET_") c.

(** * Properties *)

(** ** Trimming *)

Definition blank (s : list byte) : Prop := Forall (fun c => isBlank c = true) s.
Definition trimmed (s : list byte) : Prop :=
  (∀ c, head s = Some c -> isBlank c = false) ∧ (∀ c, last s = Some c -> isBlank c = false).

Lemma findFirstNotBlank_spec s :
  match findFirstNotBlank s with
  | Some i => ∃ p c r, s = p ++ c :: r ∧ length p = i ∧ blank p ∧ isBlank c = false
  | None => blank s
  end.
Proof.
  induction s as [|c s IH]; cbn [findFirstNotBlank]; [constructor|]. destruct (isBlank c) eqn:E.
  - destruct (findFirstNotBlank s) as [i|]; cbn; [|by constructor].
    destruct IH as (p & c' & r & -> & <- & Hp & Hc). exists (c :: p), c', r. by repeat constructor.
  - exists [], c, s. by repeat constructor.
Qed.

(** [trimCopy] cuts blanks off both ends. *)
Lemma trimCopy_spec s : ∃ p q, s = p ++ trimCopy s ++ q ∧ blank p ∧ blank q ∧ trimmed (trimCopy s).
Proof.
  unfold trimCopy, findLastNotBlank. pose proof (findFirstNotBlank_spec s) as Hf. destruct (findFirstNotBlank s) as [first|].
  2:{ exists s, []. rewrite app_nil_r. by repeat constructor. }
  destruct Hf as (p & c & r & Hs & <- & Hp & Hc). pose proof (findFirstNotBlank_spec (reverse s)) as Hl.
  destruct (findFirstNotBlank (reverse s)) as [i|].
  2:{ exfalso. unfold blank in Hl. rewrite Forall_reverse in Hl. subst s. apply Forall_app in Hl as [_ Hl]. apply Forall_cons in Hl as [Hl _]. congruence. }
  destruct Hl as (q & d & t & Ht & <- & Hq & Hd). apply (f_equal reverse) in Ht. rewrite reverse_involutive, reverse_app, reverse_cons in Ht.
  set (u := reverse t) in *. set (q' := reverse q) in *. assert (Hq' : blank q') by (by apply Forall_reverse).
  assert (Hlen : length s = (length u + 1 + length q')%nat) by (rewrite Ht, !length_app; cbn; lia).
  assert (Hord : (length p <= length u)%nat).
  { destruct (decide (length p <= length u)%nat) as [|Hn]; [done|]. exfalso.
    assert (Hat : s !! length p = Some c) by (by rewrite Hs, lookup_app_r, Nat.sub_diag by lia).
    rewrite Ht, lookup_app_r in Hat by (rewrite length_app; cbn; lia). apply list_elem_of_lookup_2 in Hat.
    pose proof (proj1 (Forall_forall _ _) Hq' _ Hat) as Hb. cbn in Hb. congruence. }
  exists p, q'. cbn [default from_option fmap option_fmap option_map id].
  replace (length s - 1 - length q - length p + 1)%nat with (length u + 1 - length p)%nat by (unfold q' in *; rewrite length_reverse in *; lia).
  assert (Ecut : take (length u + 1 - length p) (drop (length p) s) = drop (length p) (u ++ [d])).
  { rewrite Ht, drop_app_le by (rewrite length_app; cbn; lia). apply take_app_exact. rewrite length_drop, length_app. cbn. lia. }
  rewrite Ecut. assert (Hfront : take (length p) (u ++ [d]) = p).
  { transitivity (take (length p) s); [rewrite Ht, (take_app_le (u ++ [d])) by (rewrite length_app; cbn; lia); done|]. rewrite Hs. by apply take_app_exact. }
  split_and!; [|done|done|split].
  - rewrite app_assoc. rewrite <- Hfront at 1. by rewrite take_drop.
  - intros x Hx. enough (x = c) by congruence. assert (Hat : s !! length p = Some c) by (by rewrite Hs, lookup_app_r, Nat.sub_diag by lia).
    rewrite Ht, lookup_app_l in Hat by (rewrite length_app; cbn; lia). rewrite head_lookup, lookup_drop, Nat.add_0_r in Hx. congruence.
  - intros x Hx. enough (x = d) by congruence. rewrite drop_app_le, last_snoc in Hx by done. congruence.
Qed.

Lemma trimCopy_trimmed s : trimmed (trimCopy s).
Proof. by destruct (trimCopy_spec s) as (p & q & _ & _ & _ & H). Qed.

Lemma trimCopy_id s : trimmed s -> trimCopy s = s.
Proof.
  intros [Hh Hl]. destruct (trimCopy_spec s) as (p & q & Hs & Hp & Hq & _). set (t := trimCopy s) in *. clearbody t.
  destruct p as [|c p]; [|exfalso; subst s; specialize (Hh _ eq_refl); apply Forall_cons in Hp as [Hp _]; congruence].
  destruct q as [|c q _] using rev_ind; [by rewrite app_nil_r in Hs|]. exfalso. subst s. cbn in Hl. rewrite app_assoc, last_snoc in Hl.
  specialize (Hl _ eq_refl). apply Forall_app in Hq as [_ Hq]. apply Forall_cons in Hq as [Hq _]. congruence.
Qed.

Lemma trimmed_literal s : from_option (fun c => negb (isBlank c)) true (head s) && from_option (fun c => negb (isBlank c)) true (last s) = true -> trimmed s.
Proof. intros [H1 H2]%andb_true_iff. split; intros c E; [rewrite E in H1; by apply negb_true_iff in H1 | rewrite E in H2; by apply negb_true_iff in H2]. Qed.

(** Filters that keep everything or nothing. *)
Lemma filter_all {A} (P : A -> Prop) `{∀ x, Decision (P x)} l : Forall P l -> filter P l = l.
Proof. induction 1 as [|x l Hx _ IH]; [done|]. by rewrite filter_cons_True, IH. Qed.
Lemma filter_none {A} (P : A -> Prop) `{∀ x, Decision (P x)} l : Forall (fun x => ¬ P x) l -> filter P l = [].
Proof. induction 1 as [|x l Hx _ IH]; [done|]. by rewrite filter_cons_False. Qed.

(** ** Tables *)

Lemma elem_of_allOptions o : o ∈ allOptions.
Proof. exact (elem_of_enum o). Qed.

Lemma NoDup_allOptions : NoDup allOptions.
Proof. exact (NoDup_enum Option). Qed.

Lemma elem_of_optionEntries o v m : (o, v) ∈ entries m <-> m !! o = Some v.
Proof.
  unfold entries. rewrite list_elem_of_omap. split.
  - intros (o' & _ & E). destruct (m !! o') as [v'|] eqn:Eo; [|done]. cbn in E. by injection E as -> ->.
  - intros E. exists o. split; [apply elem_of_allOptions | by rewrite E].
Qed.

Lemma entries_keys m : NoDup (entries m).*1.
Proof.
  unfold entries. pose proof NoDup_allOptions as H. induction H as [|o l Ho _ IH]; cbn; [by apply NoDup_nil|].
  destruct (m !! o) as [v|]; cbn; [|done]. apply NoDup_cons. split; [|done]. rewrite list_elem_of_fmap. intros ([o' v'] & -> & Hin).
  apply list_elem_of_omap in Hin as (o'' & Hin & E). destruct (m !! o'') eqn:E'; [|done]. cbn in E. injection E as -> ->. done.
Qed.

Lemma default_known o : ∃ v, getDefaultOptionValue o = Some v ∧ trimmed v ∧ validateOption o v = true.
Proof. destruct o; eexists; (split; [reflexivity|]); (split; [by apply trimmed_literal | by vm_compute]). Qed.

Lemma option_name o : stringToOption (optionToString o) = Some o.
Proof. by destruct o; vm_compute. Qed.

Lemma defaults_options o : options_ populateDefaultsLocked !! o = getDefaultOptionValue o.
Proof. by destruct o; vm_compute. Qed.

(** ** The invariant *)

(** A value an option may hold; with [strict], only valid ones. *)
Definition valueOk (strict : bool) (o : Option) (v : list byte) : Prop := trimmed v ∧ (strict = true -> validateOption o v = true).

Definition optionOk (strict : bool) (c : Configuration) (o : Option) : Prop :=
  ∃ v, options_ c !! o = Some v ∧ valueOk strict o v ∧ (o ∉ explicitOptions_ c -> getDefaultOptionValue o = Some v).

Definition configOk (strict : bool) (c : Configuration) : Prop := ∀ o, optionOk strict c o.

Lemma assign_ok strict c e : configOk strict c -> valueOk strict e.1 e.2 -> configOk strict (assign c e).
Proof.
  intros Hc Hv o. destruct e as [o' v]. unfold optionOk, assign. cbn in *. destruct (decide (o = o')) as [->|Hn].
  - exists v. rewrite lookup_insert_eq. split_and!; [done|done|set_solver].
  - rewrite lookup_insert_ne by done. destruct (Hc o) as (w & E & Hw & Hd). exists w. split_and!; [done|done|set_solver].
Qed.

Lemma assigns_ok strict l c : configOk strict c -> Forall (fun e => valueOk strict e.1 e.2) l -> configOk strict (foldl assign c l).
Proof. intros Hc H. revert c Hc. induction H as [|e l He _ IH]; intros c Hc; cbn; [done|]. by apply IH, assign_ok. Qed.

Lemma defaults_ok strict : configOk strict populateDefaultsLocked.
Proof.
  intros o. destruct (default_known o) as (v & E & Ht & Hv). exists v. rewrite defaults_options. by split_and!.
Qed.

Lemma set_ok strict c o v : configOk strict c -> (strict = true -> validateOption o (trimCopy v) = true) -> configOk strict (set c o v).
Proof. intros Hc Hv. apply assign_ok; [done|]. split; [apply trimCopy_trimmed | done]. Qed.

Lemma remove_ok strict c o : configOk strict c -> configOk strict (remove c o).
Proof.
  intros Hc o'. unfold optionOk, remove. destruct (default_known o) as (v & E & Ht & Hv). rewrite E. cbn [options_ explicitOptions_]. destruct (decide (o' = o)) as [->|Hn].
  - exists v. rewrite lookup_insert_eq. by split_and!.
  - rewrite lookup_insert_ne by done. destruct (Hc o') as (w & Ew & Hw & Hd). exists w. split_and!; [done|done|set_solver].
Qed.

(** An entry a line sets is trimmed and valid. *)
Lemma parseLine_ok line e : parseLine line = Some (Some e) -> valueOk true e.1 e.2.
Proof.
  unfold parseLine. destruct (find_from _ _) as [i|]; [|done]. destruct (stringToOption _) as [o|]; [|done].
  destruct (validateOption o _) eqn:E; [|done]. intros [= <-]. split; [apply trimCopy_trimmed | done].
Qed.

Lemma parseLines_ok lines : ∀ m m', map_Forall (valueOk true) m -> parseLines lines m = Some m' -> map_Forall (valueOk true) m'.
Proof.
  induction lines as [|line lines IH]; intros m m' Hm; cbn [parseLines]; [by intros [= <-]|].
  destruct (parseLine line) as [[[o v]|]|] eqn:E; [|by apply IH|done]. apply IH. apply map_Forall_insert_2; [|done].
  exact (parseLine_ok _ _ E).
Qed.

Lemma valueOk_weaken strict o v : valueOk true o v -> valueOk strict o v.
Proof. intros [H1 H2]. split; [done|]. intros _. by apply H2. Qed.

Lemma load_ok strict file c : configOk strict c -> configOk strict (loadFromFile file c).1.
Proof.
  intros Hc. unfold loadFromFile. destruct file as [content|]; [|done]. destruct (parseConfigFile content) as [m|] eqn:E; [|done].
  apply assigns_ok; [done|]. apply Forall_forall. intros [o v] Hin. apply elem_of_optionEntries in Hin.
  apply valueOk_weaken. exact (parseLines_ok _ ∅ m (map_Forall_empty _) E o v Hin).
Qed.

Lemma environment_ok strict environment prefix c : configOk strict c -> configOk strict (loadFromEnvironmentWith environment prefix c).
Proof.
  intros Hc. apply assigns_ok; [done|]. apply Forall_forall. intros e Hin. apply list_elem_of_omap in Hin as ([o name] & _ & E).
  unfold environmentEntry in E. cbn in E. destruct (firstSet _ _) as [value|]; [|done]. destruct (validateOption o _) eqn:Ev; [|done]. injection E as <-.
  split; [apply trimCopy_trimmed | done].
Qed.

Lemma mergeEntry_ok strict other_strict other mode c o : configOk strict c -> configOk other_strict other -> configOk strict (mergeEntry other mode c o).
Proof.
  intros Hc Ho. unfold mergeEntry. destruct (Ho o) as (v & -> & [Ht _] & _). destruct (validateOption o v) eqn:E; cbn; [|done].
  destruct (_ && _); [done|]. by apply assign_ok.
Qed.

Lemma merge_ok strict other_strict mode c other : configOk strict c -> configOk other_strict other -> configOk strict (mergeWith c other mode).
Proof.
  intros Hc Ho. unfold mergeWith. revert c Hc. induction (filter _ allOptions) as [|o l IH]; intros c Hc; cbn; [done|].
  apply IH. by eapply mergeEntry_ok.
Qed.

(** What calls make of a configuration.  With [strict], only valid values are given to [set]; the
    configurations merged into it may have been made without that care. *)
Inductive reachable : bool -> Configuration -> Prop :=
| reach_default strict : reachable strict setDefaults
| reach_copy strict c : reachable strict c -> reachable strict (copyFrom c)
| reach_set strict c o v : reachable strict c -> (strict = true -> validateOption o (trimCopy v) = true) -> reachable strict (set c o v)
| reach_remove strict c o : reachable strict c -> reachable strict (remove c o)
| reach_clear strict c : reachable strict c -> reachable strict (clear c)
| reach_merge strict other_strict c other mode : reachable strict c -> reachable other_strict other -> reachable strict (mergeWith c other mode)
| reach_load strict c file : reachable strict c -> reachable strict (loadFromFile file c).1
| reach_environment strict c environment prefix : reachable strict c -> reachable strict (loadFromEnvironmentWith environment prefix c).

Lemma config_reachable_ok strict c : reachable strict c -> configOk strict c.
Proof.
  induction 1; [apply defaults_ok | done | by apply set_ok | by apply remove_ok | apply defaults_ok | by eapply merge_ok | by apply load_ok | by apply environment_ok].
Qed.

Lemma validate_spec strict c : configOk strict c -> validate c = true <-> ∀ o v, options_ c !! o = Some v -> validateOption o v = true.
Proof.
  intros Hc. unfold validate. rewrite forallb_forall. split.
  - intros H o v E. apply (H (o, v)). apply list_elem_of_In, elem_of_optionEntries, E.
  - intros H [o v] Hin. apply list_elem_of_In, elem_of_optionEntries in Hin. by apply H.
Qed.

(** ** Files read back *)

(** The characters [stripInlineComment] looks at. *)
Definition quiet (c : byte) : bool := negb ((c =b x22) || (c =b x23) || (c =b x3b)).

(** A value a file can hold: one line, and nothing in it starts a comment. *)
Definition plain (v : list byte) : Prop := (LF ∉ v) ∧ commentAt false (Some x3d) v = None.

Lemma optionToString_ok o :
  optionToString o ≠ [] ∧ Forall (fun c => quiet c = true ∧ isBlank c = false ∧ c ≠ x3d ∧ c ≠ xef) (optionToString o).
Proof. destruct o; decide_closed. Qed.

Lemma commentAt_after name v : ∀ previous, Forall (fun c => quiet c = true) name -> commentAt false (Some x3d) v = None ->
  commentAt false previous (name ++ x3d :: v) = None.
Proof.
  induction name as [|c name IH]; intros previous Hn Hv; cbn [app commentAt]; [cbn; by rewrite Hv|].
  apply Forall_cons in Hn as [Hc Hn]. unfold quiet in Hc. apply negb_true_iff in Hc. apply orb_false_iff in Hc as [[-> ->]%orb_false_iff ->].
  cbn. by rewrite IH.
Qed.

Lemma parseLine_entry o v : trimmed v -> commentAt false (Some x3d) v = None ->
  parseLine (optionToString o ++ x3d :: v) = if validateOption o v then Some (Some (o, v)) else None.
Proof.
  intros Ht Hc. destruct (optionToString_ok o) as [Hne Hname]. pose proof (option_name o) as Ho.
  set (name := optionToString o) in *. clearbody name. rewrite !Forall_and in Hname. destruct Hname as (Hq & Hb & Heq & Hbom).
  assert (Htn : trimmed name).
  { split; intros c Ec; [apply head_Some_elem_of in Ec | apply last_Some_elem_of in Ec]; exact (proj1 (Forall_forall _ _) Hb _ Ec). }
  assert (Htl : trimmed (name ++ x3d :: v)).
  { destruct name as [|a name]; [done|]. split; [apply Htn|]. intros c. rewrite last_app_cons. destruct v as [|b v _] using rev_ind; [by intros [= <-]|].
    rewrite app_comm_cons, last_snoc. intros [= <-]. apply Ht. by rewrite last_snoc. }
  unfold parseLine. assert (dropByteOrderMark (name ++ x3d :: v) = name ++ x3d :: v) as ->.
  { destruct name as [|a name]; [done|]. apply Forall_cons in Hbom as [Ha _]. unfold dropByteOrderMark. cbn [app].
    destruct (name ++ x3d :: v) as [|? [|??]]; [done..|]. by rewrite (beqb_neq _ _ Ha). }
  unfold stripInlineComment. rewrite commentAt_after by done. rewrite trimCopy_id by done.
  rewrite find_from_app by (intros Hin; by apply (proj1 (Forall_forall _ _) Heq _ Hin)).
  rewrite (take_app_exact name) by done. replace (drop (S (length name)) (name ++ x3d :: v)) with v.
  2:{ replace (S (length name)) with (length name + 1)%nat by lia. by rewrite <- drop_drop, (drop_app_exact name). }
  by rewrite !trimCopy_id, Ho by done.
Qed.

Lemma getLines_line l rest : ∀ line, LF ∉ l -> getLines line (l ++ LF :: rest) = (reverse line ++ l) :: getLines [] rest.
Proof.
  induction l as [|c l IH]; intros line Hl; cbn [app getLines]; [by rewrite beqb_refl, app_nil_r|].
  apply not_elem_of_cons in Hl as [Hc Hl]. rewrite beqb_neq by done. rewrite IH by done. by rewrite reverse_cons, <- app_assoc.
Qed.

(** Assignments in sequence. *)
Definition putAll (m : gmap Option (list byte)) (l : list (Option * list byte)) : gmap Option (list byte) := foldl (fun m e => <[e.1 := e.2]> m) m l.

Lemma putAll_other l : ∀ m o, o ∉ l.*1 -> putAll m l !! o = m !! o.
Proof.
  induction l as [|[o' v'] l IH]; intros m o Hn; cbn; [done|]. cbn in Hn. apply not_elem_of_cons in Hn as [Hn1 Hn2].
  fold (putAll (<[o' := v']> m) l). by rewrite IH, lookup_insert_ne.
Qed.

Lemma putAll_in l : ∀ m o v, NoDup l.*1 -> (o, v) ∈ l -> putAll m l !! o = Some v.
Proof.
  induction l as [|[o' v'] l IH]; intros m o v Hnd Hin; [by apply not_elem_of_nil in Hin|]. cbn in *. apply NoDup_cons in Hnd as [Hn Hnd].
  fold (putAll (<[o' := v']> m) l). apply elem_of_cons in Hin as [[= <- <-]|Hin]; [|by apply IH].
  by rewrite putAll_other, lookup_insert_eq.
Qed.

Lemma putAll_entries m m' : putAll m (entries m') = m' ∪ m.
Proof.
  apply map_eq. intros o. destruct (m' !! o) as [v|] eqn:E.
  - rewrite (putAll_in _ _ o v); [by symmetry; apply lookup_union_Some_l | apply entries_keys | by apply elem_of_optionEntries].
  - rewrite putAll_other; [by rewrite lookup_union_r|]. rewrite list_elem_of_fmap. intros ([o' v] & -> & Hin). apply elem_of_optionEntries in Hin. cbn in E. congruence.
Qed.

Lemma assigns_fields l : ∀ c, foldl assign c l = mkConfiguration (putAll (options_ c) l) (list_to_set l.*1 ∪ explicitOptions_ c).
Proof.
  induction l as [|e l IH]; intros c; cbn; [rewrite union_empty_l_L; by destruct c|]. rewrite IH. cbn. f_equal.
  by rewrite (union_assoc_L (list_to_set _)), (union_comm_L (list_to_set _) {[_]}).
Qed.

(** The lines of written entries set them, in order; one invalid value refuses them all. *)
Lemma parse_entries l : ∀ m, Forall (fun e => trimmed e.2 ∧ plain e.2) l ->
  parseLines (getLines [] (concat (serializeEntry <$> l))) m =
  if forallb (fun e => validateOption e.1 e.2) l then Some (putAll m l) else None.
Proof.
  induction l as [|[o v] l IH]; intros m Hl; [done|]. apply Forall_cons in Hl as [(Ht & Hlf & Hc) Hl]. cbn in Ht, Hlf, Hc.
  cbn [fmap list_fmap concat]. unfold serializeEntry at 1. cbn [fst snd].
  replace ((optionToString o ++ [x3d] ++ v ++ [LF]) ++ concat (serializeEntry <$> l)) with ((optionToString o ++ x3d :: v) ++ LF :: concat (serializeEntry <$> l))
    by (by rewrite <- !app_assoc).
  rewrite getLines_line. 2:{ rewrite elem_of_app, elem_of_cons. destruct (optionToString_ok o) as [_ Hname]. intros [Hin|[?|?]]; [|done..].
    destruct (proj1 (Forall_forall _ _) Hname _ Hin) as (_ & Hb & _). done. }
  cbn [reverse rev_append app parseLines forallb fst snd]. rewrite (parseLine_entry o v) by done. destruct (validateOption o v); [by apply IH | done].
Qed.

(** ** Numbers *)

(** The bounds of the numeric options. *)
Definition intRange (o : Option) : option (Z * Z) :=
  match o with
  | MaxConnections => Some (1, 100000)
  | ConnectionTimeout | ReadTimeout | WriteTimeout | ThreadIdleTimeout | HealthCheckInterval | RecoveryTimeout
  | WebSocketPingInterval | WebSocketPongTimeout | PerformanceReportInterval => Some (0, 3600000)
  | ThreadPoolSize => Some (1, 256)
  | BufferSize | MaxBufferSize => Some (1024, 10485760)
  | MaxHttpRequestSize | MaxHttpResponseSize => Some (1024, 104857600)
  | CompressionLevel => Some (0, 9)
  | FailureThreshold | HalfOpenAttempts => Some (1, 100)
  | _ => None
  end.

Lemma digits_read n : 0 <= n <= size_max ->
  digitRun 10 (toChars 10 n) = toChars 10 n ∧ valueFrom 10 (baseDigit 10) 0 (toChars 10 n) = n.
Proof.
  intros Hn. pose proof (toChars10_chars n Hn) as Hd. pose proof (parse_toChars_dec n Hn) as Hp. split; [by apply digitRun_all|].
  assert (Hl : decimalLoop 0 (toChars 10 n) = Some n) by (by destruct (toChars 10 n)). rewrite decimalLoop_num in Hl.
  apply numLoop_spec in Hl as (_ & Hv & _); [done | lia | unfold size_max; lia].
Qed.

Lemma digit_plain c : 0 <= decDigit c -> isspace c = false ∧ isBlank c = false ∧ c ≠ x2d ∧ c ≠ x2b.
Proof. by byte_cases c. Qed.

(** A number written by [std::to_string] is read back. *)
Lemma parse_integer n : int_min <= n <= int_max -> parseIntegerStrict (appendSignedDecimal [] n) = Some n.
Proof.
  intros Hn. unfold int_min, int_max in Hn. set (m := Z.abs n). assert (Hm : 0 <= m <= size_max) by (unfold m, size_max; lia).
  destruct (digits_read m Hm) as [Hrun Hval]. pose proof (toChars10_chars m Hm) as Hd. pose proof (toChars_nonempty 10 m) as Hne.
  assert (Hshape : appendSignedDecimal [] n = (if n <? 0 then [x2d] else []) ++ toChars 10 m).
  { unfold appendSignedDecimal, m. cbn [app]. destruct (Z.ltb_spec n 0); [by rewrite Z.abs_neq by lia | by rewrite Z.abs_eq by lia]. }
  rewrite Hshape. set (ds := toChars 10 m) in *. clearbody ds.
  assert (Hlast : ∀ c, last ds = Some c -> isBlank c = false).
  { intros c Hc. apply last_Some_elem_of in Hc. by destruct (digit_plain c (proj1 (Forall_forall _ _) Hd _ Hc)) as (_ & ? & _). }
  destruct ds as [|a ds]; [done|]. pose proof (Forall_inv Hd) as Ha. destruct (digit_plain a Ha) as (Hs & Hb & Hm1 & Hm2).
  unfold parseIntegerStrict. rewrite trimCopy_id; [|split; [intros c; destruct (n <? 0); by intros [= <-] | intros c; destruct (n <? 0); cbn [app]; [rewrite last_cons_cons|]; apply Hlast]].
  assert (Hstoll : stoll ((if n <? 0 then [x2d] else []) ++ a :: ds) = Some (n, length ((if n <? 0 then [x2d] else []) ++ a :: ds))).
  { unfold stoll. destruct (Z.ltb_spec n 0) as [Hneg|Hpos]; cbn [app].
    - change (trimLeft (x2d :: a :: ds)) with (x2d :: a :: ds). cbn [splitSign]. rewrite beqb_refl, Hrun, Hval. subst m.
      destruct (Z.ltb_spec (- Z.abs n) (- 2 ^ 63)); [lia|]. destruct (Z.ltb_spec (2 ^ 63 - 1) (- Z.abs n)); [lia|]. cbn [orb]. do 2 f_equal; [lia|cbn; lia].
    - rewrite trimLeft_id by done. cbn [splitSign]. rewrite (beqb_neq _ _ Hm1), (beqb_neq _ _ Hm2), Hrun, Hval. subst m.
      destruct (Z.ltb_spec (Z.abs n) (- 2 ^ 63)); [lia|]. destruct (Z.ltb_spec (2 ^ 63 - 1) (Z.abs n)); [lia|]. cbn [orb]. do 2 f_equal; [lia|cbn; lia]. }
  rewrite Hstoll, bool_decide_eq_true_2 by done. by destruct (n <? 0).
Qed.

(** ** Lookups after a merge *)

(** What a merge takes of the other configuration. *)
Definition taken (c other : Configuration) (mode : MergeMode) (o : Option) : bool :=
  has other o && validateOption o (getString other o []) && negb ((if mode is PreserveExisting then true else false) && has c o).

Lemma mergeEntry_other other mode c o o' : o ≠ o' -> options_ (mergeEntry other mode c o') !! o = options_ c !! o ∧ has (mergeEntry other mode c o') o = has c o.
Proof.
  intros Hn. unfold mergeEntry. destruct (options_ other !! o'); [|done]. destruct (negb _); [done|]. destruct (_ && _); [done|].
  unfold assign, has. cbn [fst snd options_ explicitOptions_]. rewrite lookup_insert_ne by done. split; [done|].
  apply bool_decide_ext. rewrite elem_of_union, elem_of_singleton. tauto.
Qed.

Lemma mergeEntries_other other mode l o : ∀ c, o ∉ l ->
  options_ (foldl (mergeEntry other mode) c l) !! o = options_ c !! o ∧ has (foldl (mergeEntry other mode) c l) o = has c o.
Proof.
  induction l as [|o' l IH]; intros c Hn; cbn; [done|]. apply not_elem_of_cons in Hn as [Hn1 Hn2].
  destruct (IH (mergeEntry other mode c o') Hn2) as [-> ->]. by apply mergeEntry_other.
Qed.

Lemma mergeEntry_same other mode c c' o : options_ c !! o = options_ c' !! o -> has c o = has c' o ->
  options_ (mergeEntry other mode c o) !! o = options_ (mergeEntry other mode c' o) !! o ∧ has (mergeEntry other mode c o) o = has (mergeEntry other mode c' o) o.
Proof.
  intros E1 E2. unfold mergeEntry. destruct (options_ other !! o) as [v|]; [|done]. destruct (negb _); [done|]. rewrite E2. destruct (_ && _); [done|].
  unfold assign, has. cbn [fst snd options_ explicitOptions_]. rewrite !lookup_insert_eq. split; [done|].
  rewrite !bool_decide_eq_true_2; [done | apply elem_of_union; left; by apply elem_of_singleton ..].
Qed.

Lemma mergeEntries_in other mode l o : ∀ c, NoDup l -> o ∈ l ->
  options_ (foldl (mergeEntry other mode) c l) !! o = options_ (mergeEntry other mode c o) !! o ∧
  has (foldl (mergeEntry other mode) c l) o = has (mergeEntry other mode c o) o.
Proof.
  induction l as [|o' l IH]; intros c Hnd Hin; [by apply not_elem_of_nil in Hin|]. apply NoDup_cons in Hnd as [Hn Hnd]. cbn.
  destruct (decide (o = o')) as [->|Hne]; [by apply mergeEntries_other|]. apply elem_of_cons in Hin as [?|Hin]; [done|].
  destruct (IH (mergeEntry other mode c o') Hnd Hin) as [-> ->]. destruct (mergeEntry_other other mode c o o' Hne) as [E1 E2].
  by apply mergeEntry_same.
Qed.

Lemma merge_option strict c other mode o : configOk strict other ->
  options_ (mergeWith c other mode) !! o = (if taken c other mode o then options_ other !! o else options_ c !! o) ∧
  has (mergeWith c other mode) o = has c o || taken c other mode o.
Proof.
  intros Ho. unfold mergeWith. destruct (has other o) eqn:Eh.
  - assert (Hin : o ∈ filter (fun o => has other o = true) allOptions) by (apply list_elem_of_filter; split; [done | apply elem_of_allOptions]).
    destruct (mergeEntries_in other mode _ o c (NoDup_filter _ _ NoDup_allOptions) Hin) as [-> ->].
    unfold mergeEntry, taken, getString. rewrite Eh. destruct (Ho o) as (v & -> & _). cbn [default from_option id andb].
    destruct (validateOption o v); cbn [negb andb]; [|by rewrite orb_false_r]. destruct (_ && has c o) eqn:Em; cbn [negb]; [by rewrite orb_false_r|].
    unfold assign, has. cbn [fst snd options_ explicitOptions_]. rewrite lookup_insert_eq, orb_true_r. split; [done|]. apply bool_decide_eq_true_2. set_solver.
  - assert (Hn : o ∉ filter (fun o => has other o = true) allOptions) by (rewrite list_elem_of_filter, Eh; by intros []).
    destruct (mergeEntries_other other mode _ o c Hn) as [-> ->]. unfold taken. rewrite Eh. cbn. by rewrite orb_false_r.
Qed.

Lemma reachable_int strict c o lo hi : reachable strict c -> validate c = true -> intRange o = Some (lo, hi) ->
  ∃ n, lo <= n <= hi ∧ ∀ d, getInt c o d = n.
Proof.
  intros Hc Hv Hr. apply config_reachable_ok in Hc. destruct (Hc o) as (v & E & _). pose proof (proj1 (validate_spec _ _ Hc) Hv o v E) as Ho.
  assert (Hin : inRange lo hi v = true ∧ int_min <= lo ∧ hi <= int_max) by (by destruct o; try discriminate Hr; injection Hr as <- <-).
  destruct Hin as (Hin & Hlo & Hhi). unfold inRange in Hin. unfold getInt. rewrite E. destruct (parseIntegerStrict v) as [n|]; [|done].
  apply andb_true_iff in Hin as [H1%Z.leb_le H2%Z.leb_le]. exists n. split; [done|]. intros d.
  destruct (Z.ltb_spec n int_min); [lia|]. destruct (Z.ltb_spec int_max n); [lia|]. done.
Qed.

(** ** Claims *)

(** Over every sequence of calls - [set], [remove], [clear], merges in both modes, files and
    environments good or bad, copies - every option has a value, so that [getString] never
    falls back on its argument; the value is trimmed; an option that was not set has its
    default; and as long as [set] is given only valid values, [validate] holds, also after
    merging a configuration that is not valid.  A file
    that cannot be read or that holds an invalid value changes nothing. *)
Theorem config_invariant strict c :
  reachable strict c ->
  (∀ o, ∃ v, snapshot c !! o = Some v ∧ trimCopy v = v ∧ (∀ d, getString c o d = v) ∧ (has c o = false -> getDefaultOptionValue o = Some v)) ∧
  (strict = true -> validate c = true) ∧
  ∀ file, (loadFromFile file c).2 = false -> (loadFromFile file c).1 = c.
Proof.
  intros Hc. apply config_reachable_ok in Hc. split_and!.
  - intros o. destruct (Hc o) as (v & E & [Ht _] & Hd). exists v. unfold getString, has. rewrite E. split_and!; [done | by apply trimCopy_id | done|].
    intros Hh%bool_decide_eq_false. by apply Hd.
  - intros ->. apply (validate_spec true); [done|]. intros o v E. destruct (Hc o) as (v' & E' & [_ Hv] & _). rewrite E in E'. injection E' as <-. by apply Hv.
  - intros file. unfold loadFromFile. destruct file as [content|]; [|done]. by destruct (parseConfigFile content).
Qed.

(** C23. What [saveToFile] writes of a configuration, valid or not, and [loadFromFile] reads,
    provided that no value has a line break or a comment sign behind white space: when every
    value is valid, the configuration that loads it, whatever it held, then has exactly the
    same values, and all options count as set afterwards, also those that were written with
    their default; when one value is not valid, which [set] does not test, the load fails
    and changes nothing. *)
Theorem config_roundtrip strict c c0 :
  reachable strict c -> map_Forall (fun _ v => plain v) (snapshot c) ->
  loadFromFile (Some (saveToFile c)) c0 =
  if validate c then (mkConfiguration (options_ c) (list_to_set allOptions), true) else (c0, false).
Proof.
  intros Hc Hp. apply config_reachable_ok in Hc. unfold snapshot in Hp. unfold loadFromFile, saveToFile, serialize, validate, snapshot, parseConfigFile. rewrite parse_entries.
  2:{ apply Forall_forall. intros [o v] Hin. apply elem_of_optionEntries in Hin. destruct (Hc o) as (v' & E' & [Ht _] & _). rewrite Hin in E'. injection E' as <-.
    split; [done | exact (Hp o v Hin)]. }
  destruct (forallb _ (entries (options_ c))); [|reflexivity].
  rewrite putAll_entries, (right_id_L ∅ (∪)). rewrite assigns_fields, putAll_entries. do 2 f_equal.
  - apply map_eq. intros o. destruct (Hc o) as (v & E & _). by rewrite E, (lookup_union_Some_l _ _ _ _ E).
  - apply set_eq. intros o. rewrite elem_of_union, !elem_of_list_to_set. split; [intros _; apply elem_of_allOptions|]. intros _. left.
    destruct (Hc o) as (v & E & _). apply list_elem_of_fmap. exists (o, v). split; [done|]. by apply elem_of_optionEntries.
Qed.

(** Numbers and merges. *)
Theorem config_numbers c o n d : int_min <= n <= int_max -> getInt (setInt c o n) o d = n.
Proof.
  intros Hn. unfold getInt, setInt, set, assign. cbn [fst snd options_]. rewrite lookup_insert_eq.
  pose proof (parse_integer n Hn) as Hp. unfold parseIntegerStrict in *. rewrite (trimCopy_id (trimCopy _)) by apply trimCopy_trimmed. rewrite Hp.
  destruct (Z.ltb_spec n int_min); [lia|]. destruct (Z.ltb_spec int_max n); [lia|]. done.
Qed.

(** ** Concrete configurations *)

Definition sampleConfiguration : Configuration :=
  set (setInt (setBool setDefaults EnableSSL true) ThreadPoolSize 8) LogFilePath (str " /var/log/net#1.log ").

Lemma sample_reachable : reachable true sampleConfiguration.
Proof.
  unfold sampleConfiguration, setInt, setBool. do 3 (apply reach_set; [|by vm_compute]). apply reach_default.
Qed.

Lemma config_invariant_witness :
  (∀ o, ∃ v, snapshot sampleConfiguration !! o = Some v ∧ trimCopy v = v ∧ (∀ d, getString sampleConfiguration o d = v) ∧
    (has sampleConfiguration o = false -> getDefaultOptionValue o = Some v)) ∧
  (true = true -> validate sampleConfiguration = true) ∧
  ∀ file, (loadFromFile file sampleConfiguration).2 = false -> (loadFromFile file sampleConfiguration).1 = sampleConfiguration.
Proof. refine (config_invariant true sampleConfiguration sample_reachable). Defined.

Lemma config_roundtrip_witness :
  loadFromFile (Some (saveToFile sampleConfiguration)) setDefaults =
  if validate sampleConfiguration then (mkConfiguration (options_ sampleConfiguration) (list_to_set allOptions), true) else (setDefaults, false).
Proof.
  refine (config_roundtrip true sampleConfiguration setDefaults sample_reachable _).
  apply (bool_decide_unpack _). by vm_compute.
Defined.

Example sample_valid : validate sampleConfiguration = true ∧ validate (set setDefaults MaxConnections (str "abc")) = false.
Proof. by vm_compute. Qed.

(** The written form of one option, and a file as people write it. *)
Example sample_file :
  (loadFromFile (Some (str "# comment" ++ [x0d; x0a] ++ str "  thread_pool-size = 16 ; cores" ++ [LF] ++ str "FASTNET_LogLevel=debug" ++ [LF] ++ str "unknown=1")) setDefaults).2 = true ∧
  let c := (loadFromFile (Some (str "# comment" ++ [x0d; x0a] ++ str "  thread_pool-size = 16 ; cores" ++ [LF] ++ str "FASTNET_LogLevel=debug")) setDefaults).1 in
  getInt c ThreadPoolSize 0 = 16 ∧ getString c LogLevel [] = str "debug" ∧ has c MaxConnections = false.
Proof. by vm_compute. Qed.

(** A path with a comment sign behind a space is cut when it is read back. *)
Example comment_in_path :
  let c := set setDefaults LogFilePath (str "/var/log/net #1.log") in
  validate c = true ∧ getString (loadFromFile (Some (saveToFile c)) setDefaults).1 LogFilePath [] = str "/var/log/net".
Proof. by vm_compute. Qed.

(** Saving and loading turns every default into an explicit value, which a later merge in
    the mode [PreserveExisting] keeps. *)
Example defaults_become_explicit :
  let c := (loadFromFile (Some (saveToFile setDefaults)) setDefaults).1 in
  has setDefaults MaxConnections = false ∧ has c MaxConnections = true ∧
  getInt (mergeWith setDefaults (setInt setDefaults MaxConnections 5) PreserveExisting) MaxConnections 0 = 5 ∧
  getInt (mergeWith c (setInt setDefaults MaxConnections 5) PreserveExisting) MaxConnections 0 = 1000.
Proof. by vm_compute. Qed.

(** An invalid value under the first name found hides a valid one under the next. *)
Example invalid_variable_hides :
  let environment := fun key => if key =s str "FASTNET_THREAD_POOL_SIZE" then Some (str "many") else if key =s str "FASTNET_THREADPOOLSIZE" then Some (str "8") else None in
  getInt (loadFromEnvironment environment setDefaults) ThreadPoolSize 0 = 4.
Proof. by vm_compute. Qed.
