(* ===== verification/Logger.v ===== *)
(** * The asynchronous logger (src/Logger.cpp)

    [AsyncLogger] as the steps of its callers, of its writer thread and of the thread that
    calls [initialize] and [shutdown] (the library's start-up code runs those one at a
    time).  A critical section of [mutex_] is one step; between the test of [running_] in
    [log] and the section that appends the line other threads may run.  What the file
    system does (whether a file opens, its size) comes with the step; time stamps and
    thread names are part of the line. *)

From S2P Require Import Prelude CType HttpParser Configuration.

(** ** Levels and lines *)

Inductive Level := TRACE | DEBUG | INFO | WARN_LVL | ERROR_LVL | FATAL.

#[export] Instance level_eq_dec : EqDecision Level.
Proof. solve_decision. Defined.

Definition levelValue (l : Level) : Z := match l with TRACE => 0 | DEBUG => 1 | INFO => 2 | WARN_LVL => 3 | ERROR_LVL => 4 | FATAL => 5 end.

Definition normalizeLogLevel (text : list byte) : list byte := toupper <$> filter (fun c => isalnum c = true) text.

Definition logLevelToString (level : Level) : list byte :=
  match level with
  | TRACE => str "TRACE" | DEBUG => str "DEBUG" | INFO => str "INFO" | WARN_LVL => str "WARN" | ERROR_LVL => str "ERROR" | FATAL => str "FATAL"
  end.

Definition logLevelFromString (text : list byte) (fallback : Level) : Level :=
  let normalized := normalizeLogLevel text in
  if normalized =s str "TRACE" then TRACE
  else if normalized =s str "DEBUG" then DEBUG
  else if normalized =s str "INFO" then INFO
  else if (normalized =s str "WARN") || (normalized =s str "WARNLVL") then WARN_LVL
  else if (normalized =s str "ERROR") || (normalized =s str "ERRORLVL") then ERROR_LVL
  else if normalized =s str "FATAL" then FATAL
  else fallback.

(** What follows the last slash or backslash. *)
Fixpoint baseNameFrom (best rest : list byte) : list byte :=
  match rest with
  | [] => best
  | c :: rest => if (c =b x2f) || (c =b x5c) then baseNameFrom rest rest else baseNameFrom best rest
  end.

(** The arguments of [log], with the time and the thread it finds; [file] and [func] may be
    null. *)
Record Message := mkMessage {
  timestamp : list byte;
  threadId : list byte;
  level : Level;
  file : option (list byte);
  line : Z;
  func : option (list byte);
  message : list byte
}.

Definition formatLogLine (m : Message) : list byte :=
  str "[" ++ timestamp m ++ str "] [" ++ logLevelToString (level m) ++ str "] [" ++ threadId m ++ str "] " ++ message m ++
  match file m, func m with
  | Some file, Some func => str " (" ++ baseNameFrom file file ++ str ":" ++ appendSignedDecimal [] (line m) ++ str " in " ++ func ++ str ")"
  | _, _ => []
  end ++ [LF].

Definition consoleLine (timestamp : list byte) (level : Level) (message : list byte) : list byte :=
  str "[" ++ timestamp ++ str "] [" ++ logLevelToString level ++ str "] " ++ message ++ [LF].

(** ** State *)

(** Where bytes go: the open log file, the error stream instead of it, the mirror on the
    console, and lines printed by [log] itself while the logger does not run. *)
Inductive Output := LogFile (data : list byte) | Fallback (data : list byte) | Mirror (data : list byte) | Direct (l : Level) (data : list byte) | OpenFailure (path : list byte).

(** The writer thread: in its wait, holding a buffer to write, behind its loop, and done
    but not joined. *)
Inductive WriterPc := NoWriter | Waiting | Writing | Leaving | LastWriting | WriterDone.

Record InitArguments := mkArguments {
  argPath : list byte;
  argLevel : Level;
  argMaxFileSize : Z;
  argMirror : bool
}.

(** The thread that calls [initialize] or [shutdown]: outside, joining the writer in one of
    them, or about to close the file. *)
Inductive ControlPc := Outside | JoiningInInitialize (a : InitArguments) | JoiningInShutdown | Closing.

Record Impl := mkImpl {
  minLevel_ : Level;
  mirrorToConsole_ : bool;
  running_ : bool;
  filePath_ : list byte;
  fileOpen : bool;
  currentBuffer_ : list byte;
  backBuffer_ : list byte;
  maxFileSize_ : Z;
  currentFileSize_ : Z;
  writer : WriterPc;
  control : ControlPc;
  callers : gmap nat (list byte);   (** lines whose [log] has passed the test of [running_] *)
  outputs : list Output
}.

Definition setLevel x s := mkImpl x (mirrorToConsole_ s) (running_ s) (filePath_ s) (fileOpen s) (currentBuffer_ s) (backBuffer_ s) (maxFileSize_ s) (currentFileSize_ s) (writer s) (control s) (callers s) (outputs s).
Definition setMirror x s := mkImpl (minLevel_ s) x (running_ s) (filePath_ s) (fileOpen s) (currentBuffer_ s) (backBuffer_ s) (maxFileSize_ s) (currentFileSize_ s) (writer s) (control s) (callers s) (outputs s).
Definition setRunning x s := mkImpl (minLevel_ s) (mirrorToConsole_ s) x (filePath_ s) (fileOpen s) (currentBuffer_ s) (backBuffer_ s) (maxFileSize_ s) (currentFileSize_ s) (writer s) (control s) (callers s) (outputs s).
Definition setFile p o n s := mkImpl (minLevel_ s) (mirrorToConsole_ s) (running_ s) p o (currentBuffer_ s) (backBuffer_ s) (maxFileSize_ s) n (writer s) (control s) (callers s) (outputs s).
Definition setBuffers c b s := mkImpl (minLevel_ s) (mirrorToConsole_ s) (running_ s) (filePath_ s) (fileOpen s) c b (maxFileSize_ s) (currentFileSize_ s) (writer s) (control s) (callers s) (outputs s).
Definition setMaxSize x s := mkImpl (minLevel_ s) (mirrorToConsole_ s) (running_ s) (filePath_ s) (fileOpen s) (currentBuffer_ s) (backBuffer_ s) x (currentFileSize_ s) (writer s) (control s) (callers s) (outputs s).
Definition setWriter x s := mkImpl (minLevel_ s) (mirrorToConsole_ s) (running_ s) (filePath_ s) (fileOpen s) (currentBuffer_ s) (backBuffer_ s) (maxFileSize_ s) (currentFileSize_ s) x (control s) (callers s) (outputs s).
Definition setControl x s := mkImpl (minLevel_ s) (mirrorToConsole_ s) (running_ s) (filePath_ s) (fileOpen s) (currentBuffer_ s) (backBuffer_ s) (maxFileSize_ s) (currentFileSize_ s) (writer s) x (callers s) (outputs s).
Definition setCallers x s := mkImpl (minLevel_ s) (mirrorToConsole_ s) (running_ s) (filePath_ s) (fileOpen s) (currentBuffer_ s) (backBuffer_ s) (maxFileSize_ s) (currentFileSize_ s) (writer s) (control s) x (outputs s).
Definition emit o s := mkImpl (minLevel_ s) (mirrorToConsole_ s) (running_ s) (filePath_ s) (fileOpen s) (currentBuffer_ s) (backBuffer_ s) (maxFileSize_ s) (currentFileSize_ s) (writer s) (control s) (callers s) (outputs s ++ [o]).

(** The logger as constructed. *)
Definition initialImpl : Impl := mkImpl INFO false false [] false [] [] (100 * 1024 * 1024) 0 NoWriter Outside ∅ [].

(** ** Files *)

Inductive OpenOutcome := CannotOpen | OpenedWith (size : Z).

Definition openLogFile (d : OpenOutcome) (s : Impl) : Impl :=
  let path := if filePath_ s is [] then str "fastnet.log" else filePath_ s in
  match d with
  | CannotOpen => emit (OpenFailure path) (setFile path false 0 s)
  | OpenedWith size => setFile path true size s
  end.

Definition rotateLogFile (d : OpenOutcome) (s : Impl) : Impl :=
  if negb (fileOpen s) then openLogFile d s else openLogFile d (setFile (filePath_ s) false 0 s).

(** [first] is what opening gives before the write, [next] after a rotation.  [LogFile] is
    what was handed to [logFile_.write]; the code does not look at the stream's state
    afterwards, so a write the file system refuses goes on like one it takes. *)
Definition writeBuffer (first next : OpenOutcome) (buffer : list byte) (s : Impl) : Impl :=
  match buffer with
  | [] => s
  | _ =>
      let s := if negb (fileOpen s) then openLogFile first s else s in
      let s :=
        if fileOpen s then
          let s := setFile (filePath_ s) (fileOpen s) (currentFileSize_ s + zlen buffer) (emit (LogFile buffer) s) in
          if maxFileSize_ s <=? currentFileSize_ s then rotateLogFile next s else s
        else emit (Fallback buffer) s in
      if mirrorToConsole_ s then emit (Mirror buffer) s else s
  end.

(** ** Steps *)

Definition desiredPath (filePath : list byte) : list byte :=
  let path := if filePath is [] then str "log/fastnet.log" else filePath in
  if bool_decide (x2f ∈ path) then path else str "log/" ++ path.

Definition applyArguments (a : InitArguments) (s : Impl) : Impl :=
  setMaxSize (Z.max (argMaxFileSize a) (1024 * 1024)) (setMirror (argMirror a) (setLevel (argLevel a) s)).

(** The end of [initialize], under the mutex, with the old writer joined. *)
Definition startWriter (a : InitArguments) (d : OpenOutcome) (s : Impl) : Impl :=
  let s := applyArguments a (setFile (desiredPath (argPath a)) (fileOpen s) 0 s) in
  let s := setBuffers [] [] s in
  setControl Outside (setWriter Waiting (setRunning true (openLogFile d s))).

Inductive Label :=
| LogCall (t : nat) (m : Message)
| LogAppend (t : nat)
| WriterWakes
| WriterWrites (first next : OpenOutcome)
| WriterLeaves
| WriterEnds (first next : OpenOutcome)
| Initialize (a : InitArguments) (d : OpenOutcome)
| InitializeJoined (d : OpenOutcome)
| Shutdown
| ShutdownJoined
| ShutdownCloses
| SetLogLevel (l : Level)
| SetConsoleMirror (enabled : bool).

Definition execute (s : Impl) (l : Label) : option Impl :=
  match l with
  | LogCall t m =>
      match callers s !! t with
      | Some _ => None
      | None => if levelValue (level m) <? levelValue (minLevel_ s) then Some s
                else if negb (running_ s) then Some (emit (Direct (level m) (formatLogLine m)) s)
                else Some (setCallers (<[t := formatLogLine m]> (callers s)) s)
      end
  | LogAppend t =>
      line ← callers s !! t;
      Some (setBuffers (currentBuffer_ s ++ line) (backBuffer_ s) (setCallers (delete t (callers s)) s))
  | WriterWakes =>
      match writer s with
      | Waiting => if bool_decide (currentBuffer_ s = []) && negb (running_ s) then Some (setWriter Leaving s)
                   else Some (setWriter Writing (setBuffers (backBuffer_ s) (currentBuffer_ s) s))
      | _ => None
      end
  | WriterWrites first next =>
      match writer s with
      | Writing => let s := writeBuffer first next (backBuffer_ s) s in Some (setWriter Waiting (setBuffers (currentBuffer_ s) [] s))
      | _ => None
      end
  | WriterLeaves =>
      match writer s with
      | Leaving => let s := if bool_decide (currentBuffer_ s = []) then s else setBuffers (backBuffer_ s) (currentBuffer_ s) s in
                   Some (setWriter LastWriting s)
      | _ => None
      end
  | WriterEnds first next =>
      match writer s with
      | LastWriting => let s := writeBuffer first next (backBuffer_ s) s in Some (setWriter WriterDone (setBuffers (currentBuffer_ s) [] s))
      | _ => None
      end
  | Initialize a d =>
      match control s with
      | Outside =>
          if running_ s && (desiredPath (argPath a) =s filePath_ s) then Some (applyArguments a s)
          else if running_ s then Some (setControl (JoiningInInitialize a) (setRunning false s))
          else if (if writer s is NoWriter then false else true) then Some (setControl (JoiningInInitialize a) s)
          else Some (startWriter a d s)
      | _ => None
      end
  | InitializeJoined d =>
      match control s, writer s with
      | JoiningInInitialize a, WriterDone => Some (startWriter a d s)
      | _, _ => None
      end
  | Shutdown =>
      match control s with
      | Outside => if running_ s then Some (setControl JoiningInShutdown (setRunning false s)) else Some s
      | _ => None
      end
  | ShutdownJoined =>
      match control s, writer s with
      | JoiningInShutdown, WriterDone => Some (setControl Closing (setWriter NoWriter s))
      | _, _ => None
      end
  | ShutdownCloses =>
      match control s with
      | Closing => Some (setControl Outside (setBuffers [] [] (setFile (filePath_ s) false (currentFileSize_ s) s)))
      | _ => None
      end
  | SetLogLevel l => Some (setLevel l s)
  | SetConsoleMirror enabled => Some (setMirror enabled s)
  end.

Definition runSteps (s : Impl) (ls : list Label) : option Impl := fold_left (fun o l => s ← o; execute s l) ls (Some s).

(** ** History *)

(** A line [log] has appended, and whether the logger was running when it did. *)
Record Entry := mkEntry { text : list byte; early : bool }.

Record History := mkHistory {
  accepted : list Entry;    (** all lines appended, in order *)
  written : list Entry;     (** those handed to [writeBuffer] *)
  held : list Entry;        (** those in [backBuffer_] *)
  queued : list Entry       (** those in [currentBuffer_] *)
}.

Definition record (s : Impl) (l : Label) (h : History) : History :=
  match l with
  | LogAppend t =>
      let e := mkEntry (default [] (callers s !! t)) (running_ s) in
      mkHistory (accepted h ++ [e]) (written h) (held h) (queued h ++ [e])
  | WriterWakes =>
      if bool_decide (currentBuffer_ s = []) && negb (running_ s) then h else mkHistory (accepted h) (written h) (queued h) (held h)
  | WriterLeaves => if bool_decide (currentBuffer_ s = []) then h else mkHistory (accepted h) (written h) (queued h) (held h)
  | WriterWrites _ _ | WriterEnds _ _ => mkHistory (accepted h) (written h ++ held h) [] (queued h)
  | InitializeJoined _ | ShutdownCloses => mkHistory (accepted h) (written h) [] []
  | Initialize _ _ => if running_ s || (if writer s is NoWriter then false else true) then h else mkHistory (accepted h) (written h) [] []
  | _ => h
  end.

Inductive reachable : Impl -> History -> Prop :=
| reach_initial : reachable initialImpl (mkHistory [] [] [] [])
| reach_step s h l s' : reachable s h -> execute s l = Some s' -> reachable s' (record s l h).

(** * Properties *)

Definition bytes (l : list Entry) : list byte := concat (text <$> l).
Definition isEarly (e : Entry) : Prop := early e = true.
#[export] Instance isEarly_dec e : Decision (isEarly e) := decide (early e = true).

(** What reached the log, on the file or instead of it. *)
Definition sink (o : Output) : list byte := match o with LogFile d | Fallback d => d | _ => [] end.
Definition logged (s : Impl) : list byte := concat (sink <$> outputs s).

Lemma bytes_app l k : bytes (l ++ k) = bytes l ++ bytes k.
Proof. unfold bytes. by rewrite fmap_app, concat_app. Qed.

Lemma logged_emit o s : logged (emit o s) = logged s ++ sink o.
Proof. unfold logged, emit. cbn [outputs]. rewrite fmap_app, concat_app. cbn. by rewrite app_nil_r. Qed.

Lemma formatLogLine_nonempty m : formatLogLine m ≠ [].
Proof. done. Qed.

(** The fields the writer's output does not touch. *)
Record framed (s s' : Impl) : Prop := {
  f_running : running_ s' = running_ s;
  f_current : currentBuffer_ s' = currentBuffer_ s;
  f_back : backBuffer_ s' = backBuffer_ s;
  f_writer : writer s' = writer s;
  f_control : control s' = control s;
  f_callers : callers s' = callers s
}.

Lemma openLogFile_framed d s : framed s (openLogFile d s) ∧ logged (openLogFile d s) = logged s.
Proof. unfold openLogFile. destruct d; [rewrite logged_emit; cbn; rewrite app_nil_r|]; by repeat split. Qed.

Lemma rotateLogFile_framed d s : framed s (rotateLogFile d s) ∧ logged (rotateLogFile d s) = logged s.
Proof.
  unfold rotateLogFile. destruct (negb _); [apply openLogFile_framed|].
  destruct (openLogFile_framed d (setFile (filePath_ s) false 0 s)) as [[] E]. rewrite E. by repeat split.
Qed.

Lemma framed_trans s1 s2 s3 : framed s1 s2 -> framed s2 s3 -> framed s1 s3.
Proof. intros [] []. split; congruence. Qed.

(** [writeBuffer] puts the whole buffer out, once. *)
Lemma writeBuffer_framed first next buffer s : framed s (writeBuffer first next buffer s) ∧ logged (writeBuffer first next buffer s) = logged s ++ buffer.
Proof.
  unfold writeBuffer. destruct buffer as [|b buffer]; [by rewrite app_nil_r|]. set (d := b :: buffer). clearbody d.
  set (s1 := if negb (fileOpen s) then _ else s).
  assert (H1 : framed s s1 ∧ logged s1 = logged s) by (unfold s1; destruct (negb _); [apply openLogFile_framed | by repeat split]).
  clearbody s1. destruct H1 as [F1 E1]. set (s2 := if fileOpen s1 then _ else _).
  assert (H2 : framed s1 s2 ∧ logged s2 = logged s1 ++ d).
  { unfold s2. destruct (fileOpen s1) eqn:E; [|rewrite logged_emit; by repeat split].
    set (s3 := setFile _ _ _ (emit _ _)). assert (H3 : framed s1 s3 ∧ logged s3 = logged s1 ++ d).
    { split; [done|]. change (logged s3) with (logged (emit (LogFile d) s1)). apply logged_emit. }
    destruct H3 as [F3 E3]. destruct (_ <=? _); [|done]. destruct (rotateLogFile_framed next s3) as [F4 E4].
    split; [by eapply framed_trans | by rewrite E4]. }
  clearbody s2. destruct H2 as [F2 E2]. assert (F : framed s s2) by (by eapply framed_trans). assert (E : logged s2 = logged s ++ d) by congruence.
  destruct (mirrorToConsole_ s2); [|done]. rewrite logged_emit. cbn. rewrite app_nil_r. by destruct F.
Qed.

(** ** The invariant *)

Definition atRest (w : WriterPc) : bool := match w with NoWriter | Waiting | Leaving | WriterDone => true | _ => false end.
Definition leaving (w : WriterPc) : bool := match w with NoWriter | Leaving | LastWriting | WriterDone => true | _ => false end.

Definition joining (c : ControlPc) : bool := match c with JoiningInInitialize _ | JoiningInShutdown => true | _ => false end.

Definition kept (h : History) : list Entry := written h ++ held h ++ queued h.

Record logInv (s : Impl) (h : History) : Prop := {
  l_out : logged s = bytes (written h);
  l_back : backBuffer_ s = bytes (held h);
  l_current : currentBuffer_ s = bytes (queued h);
  l_sub : kept h `sublist_of` accepted h;
  l_early : filter isEarly (kept h) = filter isEarly (accepted h);
  l_held : atRest (writer s) = true -> held h = [];
  l_late : leaving (writer s) = true -> running_ s = false ∧ Forall (fun e => early e = false) (queued h);
  l_callers : map_Forall (fun _ line => line ≠ []) (callers s);
  l_text : Forall (fun e => text e ≠ []) (queued h);
  l_closing : control s = Closing -> writer s = NoWriter;
  l_outside : control s = Outside -> running_ s = false -> writer s = NoWriter;
  l_joining : joining (control s) = true -> running_ s = false ∧ writer s ≠ NoWriter
}.

Lemma filter_late l : Forall (fun e => early e = false) l -> filter isEarly l = [].
Proof. intros H. apply filter_none. eapply Forall_impl; [exact H|]. intros e He. unfold isEarly. cbn in He. congruence. Qed.

Lemma queued_empty s h : logInv s h -> currentBuffer_ s = [] -> queued h = [].
Proof.
  intros H E. rewrite (l_current _ _ H) in E. pose proof (l_text _ _ H) as Ht. destruct (queued h) as [|e q]; [done|].
  apply Forall_cons in Ht as [He _]. unfold bytes in E. cbn in E. by apply app_eq_nil in E as [E _].
Qed.

(** Dropping the buffers loses only late lines. *)
Lemma kept_cleared s h : logInv s h -> atRest (writer s) = true -> leaving (writer s) = true ->
  written h `sublist_of` accepted h ∧ filter isEarly (written h) = filter isEarly (accepted h).
Proof.
  intros H Hr Hl. pose proof (l_sub _ _ H) as Hs. pose proof (l_early _ _ H) as He. unfold kept in *. rewrite (l_held _ _ H Hr) in *. cbn in *.
  destruct (l_late _ _ H Hl) as [_ Hq]. split; [etrans; [by apply sublist_inserts_r | exact Hs]|]. by rewrite <- He, filter_app, (filter_late _ Hq), app_nil_r.
Qed.

Lemma startWriter_inv a d s h : logInv s h -> atRest (writer s) = true -> leaving (writer s) = true ->
  logInv (startWriter a d s) (mkHistory (accepted h) (written h) [] []).
Proof.
  intros H Hr Hl. destruct (kept_cleared s h H Hr Hl) as [K1 K2].
  unfold startWriter. set (s1 := setBuffers [] [] _). destruct (openLogFile_framed d s1) as [[F1 F2 F3 F4 F5 F6] E].
  split; cbn [written held queued accepted setControl setWriter setRunning running_ currentBuffer_ backBuffer_ writer control callers outputs atRest leaving]; try done.
  - change (logged (setControl Outside (setWriter Waiting (setRunning true (openLogFile d s1))))) with (logged (openLogFile d s1)). rewrite E. apply H.
  - unfold kept. cbn. by rewrite app_nil_r.
  - unfold kept. cbn. by rewrite app_nil_r.
  - rewrite F6. apply H.
Qed.

Lemma write_inv first next w s h : logInv s h -> leaving w = leaving (writer s) -> writer s ≠ NoWriter -> w ≠ NoWriter ->
  let s' := writeBuffer first next (backBuffer_ s) s in
  logInv (setWriter w (setBuffers (currentBuffer_ s') [] s')) (mkHistory (accepted h) (written h ++ held h) [] (queued h)).
Proof.
  intros H Hw Hn Hnw s'. destruct (writeBuffer_framed first next (backBuffer_ s) s) as [[F1 F2 F3 F4 F5 F6] E]. fold s' in F1, F2, F3, F4, F5, F6, E.
  split; cbn [written held queued accepted setWriter setBuffers running_ currentBuffer_ backBuffer_ writer control callers outputs]; try done.
  - change (logged (setWriter w (setBuffers (currentBuffer_ s') [] s'))) with (logged s'). rewrite E, bytes_app, (l_out _ _ H), (l_back _ _ H). done.
  - rewrite F2. apply H.
  - unfold kept. cbn. rewrite <- app_assoc. apply H.
  - unfold kept. cbn. rewrite <- app_assoc. apply H.
  - rewrite Hw, F1. apply H.
  - rewrite F6. apply H.
  - apply H.
  - rewrite F5. intros Hc. by destruct (Hn (l_closing _ _ H Hc)).
  - rewrite F5, F1. intros Hc Hr. by destruct (Hn (l_outside _ _ H Hc Hr)).
  - rewrite F5, F1. intros Hj. split; [by apply (l_joining _ _ H)|]. done.
Qed.

(** The parts of the invariant a step leaves alone. *)
Ltac keeps H := first [exact (l_out _ _ H) | exact (l_back _ _ H) | exact (l_current _ _ H) | exact (l_sub _ _ H) | exact (l_early _ _ H) | exact (l_held _ _ H)
  | exact (l_late _ _ H) | exact (l_callers _ _ H) | exact (l_text _ _ H) | exact (l_closing _ _ H) | exact (l_outside _ _ H) | exact (l_joining _ _ H)].

Lemma append_inv s h t line : logInv s h -> callers s !! t = Some line ->
  let e := mkEntry line (running_ s) in
  logInv (setBuffers (currentBuffer_ s ++ line) (backBuffer_ s) (setCallers (delete t (callers s)) s)) (mkHistory (accepted h ++ [e]) (written h) (held h) (queued h ++ [e])).
Proof.
  intros H Ht e. assert (Hk : kept (mkHistory (accepted h ++ [e]) (written h) (held h) (queued h ++ [e])) = kept h ++ [e]) by (unfold kept; cbn; by rewrite !app_assoc).
  split; cbn [accepted written held queued setBuffers setCallers currentBuffer_ backBuffer_ running_ writer control callers]; try keeps H; rewrite ?Hk.
  - rewrite bytes_app, (l_current _ _ H). unfold bytes at 3. cbn. by rewrite app_nil_r.
  - by apply sublist_app; [apply H|].
  - by rewrite !filter_app, (l_early _ _ H).
  - intros Hl. destruct (l_late _ _ H Hl) as [Hr Hq]. split; [done|]. apply Forall_app. split; [done|]. by apply Forall_singleton.
  - apply map_Forall_delete, H.
  - apply Forall_app. split; [apply H|]. apply Forall_singleton. exact (l_callers _ _ H t line Ht).
Qed.

(** The writer takes what is queued. *)
Lemma swap_inv w s h : logInv s h -> held h = [] -> atRest w = false -> (leaving w = true -> leaving (writer s) = true) -> writer s ≠ NoWriter -> w ≠ NoWriter ->
  logInv (setWriter w (setBuffers (backBuffer_ s) (currentBuffer_ s) s)) (mkHistory (accepted h) (written h) (queued h) (held h)).
Proof.
  intros H Hh Hr Hl Hn Hnw. pose proof (l_back _ _ H) as Hb. rewrite Hh in Hb. cbn in Hb.
  assert (Hk : kept (mkHistory (accepted h) (written h) (queued h) (held h)) = kept h) by (unfold kept; cbn; rewrite Hh; by rewrite app_nil_r).
  split; cbn [accepted written held queued setBuffers setWriter currentBuffer_ backBuffer_ running_ writer control callers]; try keeps H; rewrite ?Hk, ?Hh; try done.
  - keeps H.
  - keeps H.
  - congruence.
  - intros Hw. split; [|constructor]. by destruct (l_late _ _ H (Hl Hw)).
  - intros Hc. by destruct (Hn (l_closing _ _ H Hc)).
  - intros Hc Hq. by destruct (Hn (l_outside _ _ H Hc Hq)).
  - intros Hj. split; [by apply (l_joining _ _ H) | done].
Qed.

Lemma running_writer s h : logInv s h -> running_ s = true -> writer s ≠ NoWriter.
Proof. intros H Hr Hw. destruct (l_late _ _ H) as [? _]; [by rewrite Hw | congruence]. Qed.

Lemma log_execute_inv s h l s' : logInv s h -> execute s l = Some s' -> logInv s' (record s l h).
Proof.
  intros H E. destruct l; cbn [execute record] in *.
  - destruct (callers s !! t); [done|]. destruct (_ <? _); [by injection E as <-|]. destruct (running_ s) eqn:Er; cbn [negb] in E; injection E as <-.
    + split; try keeps H. apply map_Forall_insert_2; [apply formatLogLine_nonempty | apply H].
    + split; try keeps H. rewrite logged_emit. cbn. rewrite app_nil_r. apply H.
  - destruct (callers s !! t) as [ln|] eqn:Et; [|done]. injection E as <-. by apply append_inv.
  - destruct (writer s) eqn:Ew; try done. destruct (bool_decide_reflect (currentBuffer_ s = [])) as [Hc|Hc]; destruct (running_ s) eqn:Er; cbn [negb andb] in *; injection E as <-.
    + apply swap_inv; rewrite ?Ew; try done. apply (l_held _ _ H). by rewrite Ew.
    + pose proof (queued_empty s h H Hc) as Hq. split; cbn [setWriter writer running_ control]; try keeps H.
      * intros _. apply (l_held _ _ H). by rewrite Ew.
      * intros _. rewrite Hq. by repeat constructor.
      * intros Hx. pose proof (l_closing _ _ H Hx). congruence.
      * intros Hx Hy. pose proof (l_outside _ _ H Hx Hy). congruence.
      * intros Hj. split; [by apply (l_joining _ _ H) | done].
    + apply swap_inv; rewrite ?Ew; try done. apply (l_held _ _ H). by rewrite Ew.
    + apply swap_inv; rewrite ?Ew; try done. apply (l_held _ _ H). by rewrite Ew.
  - destruct (writer s) eqn:Ew; try done. injection E as <-. apply write_inv; rewrite ?Ew; done.
  - destruct (writer s) eqn:Ew; try done. injection E as <-. destruct (bool_decide_reflect (currentBuffer_ s = [])) as [Hc|Hc].
    + split; cbn [setWriter writer running_ control]; try keeps H.
      * done.
      * intros _. apply (l_late _ _ H). by rewrite Ew.
      * intros Hx. pose proof (l_closing _ _ H Hx). congruence.
      * intros Hx Hy. pose proof (l_outside _ _ H Hx Hy). congruence.
      * intros Hj. split; [by apply (l_joining _ _ H) | done].
    + apply swap_inv; rewrite ?Ew; try done. apply (l_held _ _ H). by rewrite Ew.
  - destruct (writer s) eqn:Ew; try done. injection E as <-. apply write_inv; rewrite ?Ew; done.
  - destruct (control s) eqn:Ec; try done. destruct (running_ s) eqn:Er; cbn [andb orb] in *.
    + destruct (bool_decide _); injection E as <-; split; cbn [setControl setRunning writer running_ control applyArguments setMaxSize setMirror setLevel]; try keeps H; try done.
      * intros Hl. destruct (l_late _ _ H Hl). congruence.
      * intros _. split; [done|]. by apply (running_writer s h).
    + destruct (writer s) eqn:Ew; injection E as <-; [apply startWriter_inv; rewrite ?Ew; done | split; cbn [setControl writer control]; (try keeps H); try done; intros _; by rewrite Ew ..].
  - destruct (control s) eqn:Ec; try done. destruct (writer s) eqn:Ew; try done. injection E as <-. apply startWriter_inv; rewrite ?Ew; done.
  - destruct (control s) eqn:Ec; try done. destruct (running_ s) eqn:Er; injection E as <-; [|done]. split; cbn [setControl setRunning writer running_ control]; try keeps H; try done.
    + intros Hl. destruct (l_late _ _ H Hl). congruence.
    + intros _. split; [done|]. by apply (running_writer s h).
  - destruct (control s) eqn:Ec; try done. destruct (writer s) eqn:Ew; try done. injection E as <-. split; cbn [setControl setWriter writer running_ control]; try keeps H; try done.
    + intros _. apply (l_held _ _ H). by rewrite Ew.
    + intros _. apply (l_late _ _ H). by rewrite Ew.
  - destruct (control s) eqn:Ec; try done. injection E as <-. pose proof (l_closing _ _ H Ec) as Ew.
    destruct (kept_cleared s h H) as [K1 K2]; rewrite ?Ew; try done.
    split; cbn [accepted written held queued setControl setBuffers setFile writer running_ control currentBuffer_ backBuffer_ callers]; try done.
    + apply H.
    + unfold kept. cbn. by rewrite app_nil_r.
    + unfold kept. cbn. by rewrite app_nil_r.
    + intros Hl. by destruct (l_late _ _ H Hl).
    + apply H.
  - injection E as <-. split; keeps H.
  - injection E as <-. split; keeps H.
Qed.

Lemma log_reachable_inv s h : reachable s h -> logInv s h.
Proof.
  induction 1 as [|s h l s' _ IH E]; [|by eapply log_execute_inv]. split; cbn; try done.
Qed.

(** ** Shutting down *)

(** Steps of the writer and of the thread that waits for it. *)
Definition byLogger (l : Label) : bool :=
  match l with WriterWakes | WriterWrites _ _ | WriterLeaves | WriterEnds _ _ | ShutdownJoined | ShutdownCloses => true | _ => false end.

Definition ends (s : Impl) (h : History) : Prop :=
  ∃ ls s' h', Forall (fun l => byLogger l = true) ls ∧ runSteps s ls = Some s' ∧ reachable s' h' ∧ accepted h' = accepted h ∧
    control s' = Outside ∧ running_ s' = false.

Lemma runSteps_cons s l ls s1 : execute s l = Some s1 -> runSteps s (l :: ls) = runSteps s1 ls.
Proof. intros E. unfold runSteps. cbn [fold_left]. by rewrite <- E. Qed.

Lemma ends_step s h l s1 : execute s l = Some s1 -> byLogger l = true -> ends s1 (record s l h) -> ends s h.
Proof.
  intros E Hl (ls & s' & h' & H1 & H2 & H3 & H4 & H5). exists (l :: ls), s', h'. split_and!; try apply H5.
  - by constructor.
  - by rewrite (runSteps_cons _ _ _ _ E).
  - done.
  - rewrite H4. destruct l; try discriminate Hl; cbn [record]; repeat case_match; done.
Qed.

(** The writer, from behind its loop on. *)
Lemma ends_done s h : reachable s h -> control s = JoiningInShutdown -> writer s = WriterDone -> ends s h.
Proof.
  intros H Hc Hw. pose proof (log_reachable_inv _ _ H) as Hi. destruct (l_joining _ _ Hi) as [Hr _]; [by rewrite Hc|].
  set (s1 := setControl Closing (setWriter NoWriter s)). assert (E1 : execute s ShutdownJoined = Some s1) by (cbn; by rewrite Hc, Hw).
  set (s2 := setControl Outside (setBuffers [] [] (setFile (filePath_ s1) false (currentFileSize_ s1) s1))).
  assert (E2 : execute s1 ShutdownCloses = Some s2) by done.
  exists [ShutdownJoined; ShutdownCloses], s2, (record s1 ShutdownCloses (record s ShutdownJoined h)). split_and!; try done.
  - by repeat constructor.
  - by rewrite (runSteps_cons _ _ _ _ E1), (runSteps_cons _ _ _ _ E2).
  - by eapply reach_step; [eapply reach_step|].
Qed.

Lemma ends_last s h (d : OpenOutcome) : reachable s h -> control s = JoiningInShutdown -> writer s = LastWriting -> ends s h.
Proof.
  intros H Hc Hw. eassert (E : execute s (WriterEnds d d) = Some _) by (cbn [execute]; by rewrite Hw).
  eapply ends_step; [exact E | done|]. destruct (writeBuffer_framed d d (backBuffer_ s) s) as [[] _].
  apply ends_done; [by eapply reach_step | cbn; congruence | done].
Qed.

Lemma ends_leaving s h (d : OpenOutcome) : reachable s h -> control s = JoiningInShutdown -> writer s = Leaving -> ends s h.
Proof.
  intros H Hc Hw. eassert (E : execute s WriterLeaves = Some _) by (cbn [execute]; by rewrite Hw).
  eapply ends_step; [exact E | done|]. apply (ends_last _ _ d); [by eapply reach_step | by destruct (bool_decide _) | done].
Qed.

Lemma ends_waiting_empty s h (d : OpenOutcome) : reachable s h -> control s = JoiningInShutdown -> writer s = Waiting -> currentBuffer_ s = [] -> ends s h.
Proof.
  intros H Hc Hw He. destruct (l_joining _ _ (log_reachable_inv _ _ H)) as [Hr _]; [by rewrite Hc|].
  assert (E : execute s WriterWakes = Some (setWriter Leaving s)) by (cbn [execute]; by rewrite Hw, He, Hr).
  eapply ends_step; [exact E | done|]. apply (ends_leaving _ _ d); [by eapply reach_step | done | done].
Qed.

Lemma ends_waiting s h (d : OpenOutcome) : reachable s h -> control s = JoiningInShutdown -> writer s = Waiting -> ends s h.
Proof.
  intros H Hc Hw. destruct (decide (currentBuffer_ s = [])) as [He|He]; [by apply (ends_waiting_empty _ _ d)|].
  pose proof (log_reachable_inv _ _ H) as Hi. assert (Hb : backBuffer_ s = []) by (rewrite (l_back _ _ Hi), (l_held _ _ Hi); [done | by rewrite Hw]).
  set (s1 := setWriter Writing (setBuffers (backBuffer_ s) (currentBuffer_ s) s)).
  assert (E : execute s WriterWakes = Some s1) by (cbn [execute]; by rewrite Hw, bool_decide_eq_false_2).
  eapply ends_step; [exact E | done|]. eassert (E1 : execute s1 (WriterWrites d d) = Some _) by (cbn [execute]; reflexivity).
  eapply ends_step; [exact E1 | done|]. destruct (writeBuffer_framed d d (backBuffer_ s1) s1) as [[F1 F2 F3 F4 F5 F6] _].
  apply (ends_waiting_empty _ _ d); [by do 2 (eapply reach_step; [|eassumption]) | cbn [setWriter setBuffers control]; rewrite F5; done | done | cbn [setWriter setBuffers currentBuffer_]; rewrite F2; done].
Qed.

(** A shutdown that waits is over after steps of the logger's own. *)
Lemma shutdown_ends s h (d : OpenOutcome) : reachable s h -> control s = JoiningInShutdown -> ends s h.
Proof.
  intros H Hc. destruct (l_joining _ _ (log_reachable_inv _ _ H)) as [_ Hn]; [by rewrite Hc|].
  destruct (writer s) eqn:Hw; [done | by apply (ends_waiting _ _ d) | | by apply (ends_leaving _ _ d) | by apply (ends_last _ _ d) | by apply ends_done].
  eassert (E : execute s (WriterWrites d d) = Some _) by (cbn [execute]; by rewrite Hw). eapply ends_step; [exact E | done|].
  destruct (writeBuffer_framed d d (backBuffer_ s) s) as [[] _]. apply (ends_waiting _ _ d); [by eapply reach_step | cbn; congruence | done].
Qed.

(** ** Claims *)

(** C22. The log is complete and in order.  Under every interleaving of callers, writer,
    [initialize] and [shutdown], whatever files can be opened and however often they are rotated:
    the bytes that reached the log (or the error stream in its place), followed by the two buffers, are the
    lines that were appended, whole, each once and in the order of the appends, except for
    some that were appended when the logger was no longer running.  A shutdown
    always comes to its end by the logger's own steps; then all lines appended while the logger ran
    have been written. *)
Theorem log_complete s h :
  reachable s h ->
  (∃ lines, lines `sublist_of` accepted h ∧ filter isEarly lines = filter isEarly (accepted h) ∧
     logged s ++ backBuffer_ s ++ currentBuffer_ s = bytes lines) ∧
  (running_ s = false -> control s = Outside ->
     ∃ lines, lines `sublist_of` accepted h ∧ filter isEarly lines = filter isEarly (accepted h) ∧ logged s = bytes lines) ∧
  (control s = JoiningInShutdown -> ends s h).
Proof.
  intros Hr. pose proof (log_reachable_inv _ _ Hr) as H. split_and!.
  - exists (kept h). split_and!; [apply H | apply H|]. unfold kept. by rewrite !bytes_app, (l_out _ _ H), (l_back _ _ H), (l_current _ _ H).
  - intros Hn Hc. pose proof (l_outside _ _ H Hc Hn) as Hw. destruct (kept_cleared s h H) as [K1 K2]; [by rewrite Hw ..|].
    exists (written h). split_and!; [done | done | apply H].
  - intros Hc. exact (shutdown_ends s h CannotOpen Hr Hc).
Qed.

(** ** Concrete runs *)

Definition say (text : string) : Message := mkMessage (str "12:00") (str "t1") INFO None 0 None (str text).
Definition quietFile : InitArguments := mkArguments (str "log/a.log") INFO 10 false.

(** Two lines, the second while the writer writes the first; then a shutdown. *)
Definition twoLines : list Label :=
  [Initialize quietFile (OpenedWith 0); LogCall 0 (say "one"); LogAppend 0; WriterWakes; LogCall 1 (say "two"); LogAppend 1;
   WriterWrites CannotOpen CannotOpen; Shutdown].

(** Steps together with their history. *)
Fixpoint runWith (s : Impl) (h : History) (ls : list Label) : option (Impl * History) :=
  match ls with
  | [] => Some (s, h)
  | l :: ls => s' ← execute s l; runWith s' (record s l h) ls
  end.

Lemma log_runWith_reachable ls : ∀ s h p, reachable s h -> runWith s h ls = Some p -> reachable p.1 p.2.
Proof.
  induction ls as [|l ls IH]; intros s h p H E; cbn in E; [by injection E as <-|]. destruct (execute s l) as [s'|] eqn:E1; [|done].
  eapply IH; [by eapply reach_step | exact E].
Qed.

Definition noHistory : History := mkHistory [] [] [] [].
Definition twoLinesState : Impl := (default (initialImpl, noHistory) (runWith initialImpl noHistory twoLines)).1.
Definition twoLinesHistory : History := (default (initialImpl, noHistory) (runWith initialImpl noHistory twoLines)).2.

Lemma twoLines_reachable : reachable twoLinesState twoLinesHistory.
Proof. refine (log_runWith_reachable twoLines initialImpl noHistory _ reach_initial _). by vm_compute. Qed.

Lemma log_complete_witness :
  (∃ lines, lines `sublist_of` accepted twoLinesHistory ∧ filter isEarly lines = filter isEarly (accepted twoLinesHistory) ∧
     logged twoLinesState ++ backBuffer_ twoLinesState ++ currentBuffer_ twoLinesState = bytes lines) ∧
  (running_ twoLinesState = false -> control twoLinesState = Outside ->
     ∃ lines, lines `sublist_of` accepted twoLinesHistory ∧ filter isEarly lines = filter isEarly (accepted twoLinesHistory) ∧ logged twoLinesState = bytes lines) ∧
  (control twoLinesState = JoiningInShutdown -> ends twoLinesState twoLinesHistory).
Proof. refine (log_complete twoLinesState twoLinesHistory twoLines_reachable). Defined.

Example twoLines_end : control twoLinesState = JoiningInShutdown ∧
  logged <$> runSteps twoLinesState [WriterWakes; WriterWrites CannotOpen CannotOpen; WriterWakes; WriterLeaves; WriterEnds CannotOpen CannotOpen; ShutdownJoined; ShutdownCloses]
  = Some (str "[12:00] [INFO] [t1] one" ++ [LF] ++ str "[12:00] [INFO] [t1] two" ++ [LF]).
Proof. by vm_compute. Qed.

(** A line whose [log] has tested [running_] before [shutdown] cleared it, and appends
    after the writer has ended, is printed nowhere. *)
Example late_line_lost :
  logged <$> runSteps initialImpl [Initialize quietFile (OpenedWith 0); LogCall 0 (say "late"); Shutdown; WriterWakes; WriterLeaves; WriterEnds CannotOpen CannotOpen;
    LogAppend 0; ShutdownJoined; ShutdownCloses] = Some [].
Proof. by vm_compute. Qed.
