(* ===== verification/PerformanceMonitor.v ===== *)
(** * The performance monitor (src/PerformanceMonitor.cpp)

    [PerformanceMonitor] as the steps of its callers.  A metric is an object that a call may
    still hold when [shutdown] has dropped it from [metrics_]: a call that records first
    finds or makes its metric and then updates it, and other calls can run in between.
    [createMetricIfNotExists] is one step, since its second section repeats the test of the
    first; so is every update under a metric's mutex.  [shutdown] is one step.  Clock values
    are arguments. *)

From stdpp Require Import sorting.
From S2P Require Import Prelude CType HttpParser.

Inductive MetricType := Counter | Gauge | Histogram | Timer.

#[export] Instance metricType_eq_dec : EqDecision MetricType.
Proof. solve_decision. Defined.

Definition metricTypeToString (t : MetricType) : list byte :=
  match t with Counter => str "counter" | Gauge => str "gauge" | Histogram => str "histogram" | Timer => str "timer" end.

Definition uint64_max : Z := 2 ^ 64 - 1.

Record MetricState := mkMetric {
  name : list byte;
  type : MetricType;
  value : Z;
  minValue : Z;
  maxValue : Z;
  sumValue : Z;
  count : Z
}.

Definition newMetric (n : list byte) (t : MetricType) : MetricState := mkMetric n t 0 uint64_max 0 0 0.

(** What a call does to its metric; [setMetric] stores the value and then, under the mutex,
    records it. *)
Inductive Update := Add (v : Z) | Store (v : Z) | Record_ (v : Z) | Observe (v : Z) | Time (v : Z).

Definition typeOf (u : Update) : MetricType := match u with Add _ => Counter | Store _ | Record_ _ => Gauge | Observe _ => Histogram | Time _ => Timer end.
Definition argument (u : Update) : Z := match u with Add v | Store v | Record_ v | Observe v | Time v => v end.

Definition setValue (v : Z) (m : MetricState) : MetricState := mkMetric (name m) (type m) v (minValue m) (maxValue m) (sumValue m) (count m).
Definition recorded (v : Z) (m : MetricState) : MetricState :=
  mkMetric (name m) (type m) (value m) (Z.min (minValue m) v) (Z.max (maxValue m) v) (u64 (sumValue m + v)) (u64 (count m + 1)).

Definition updated (u : Update) (m : MetricState) : MetricState :=
  match u with
  | Add v => setValue (u64 (value m + v)) m
  | Store v => setValue v m
  | Record_ v => recorded v m
  | Observe v => recorded v (setValue (u64 (value m + 1)) m)
  | Time v => recorded v (setValue v m)
  end.

Definition resetState (m : MetricState) : MetricState := newMetric (name m) (type m).

(** ** Snapshots *)

Record MetricSnapshot := mkSnapshot {
  sn_name : list byte; sn_type : MetricType; sn_value : Z; sn_min : Z; sn_max : Z; sn_sum : Z; sn_count : Z; sn_average : Z
}.

Definition buildSnapshot (m : MetricState) : MetricSnapshot :=
  if count m =? 0 then
    let v := match type m with Counter | Gauge => value m | _ => 0 end in
    mkSnapshot (name m) (type m) (value m) v v (sumValue m) (count m) v
  else mkSnapshot (name m) (type m) (value m) (if minValue m =? uint64_max then 0 else minValue m) (maxValue m) (sumValue m) (count m) (sumValue m / count m).

(** ** State *)

(** [history] is not in the code: the values an object has taken since it was made or reset. *)
Record Monitor := mkMonitor {
  objects : gmap nat MetricState;
  nextObject : nat;
  metrics_ : gmap (list byte) nat;
  timerStarts_ : gmap Z Z;
  nextTimerId_ : Z;
  enabled_ : bool;
  initialized_ : bool;
  pending : gmap nat (nat * Update);
  history : gmap nat (list Z)
}.

Definition setObjects x s := mkMonitor x (nextObject s) (metrics_ s) (timerStarts_ s) (nextTimerId_ s) (enabled_ s) (initialized_ s) (pending s) (history s).
Definition setTimers x n s := mkMonitor (objects s) (nextObject s) (metrics_ s) x n (enabled_ s) (initialized_ s) (pending s) (history s).
Definition setFlags e i s := mkMonitor (objects s) (nextObject s) (metrics_ s) (timerStarts_ s) (nextTimerId_ s) e i (pending s) (history s).
Definition setPending x s := mkMonitor (objects s) (nextObject s) (metrics_ s) (timerStarts_ s) (nextTimerId_ s) (enabled_ s) (initialized_ s) x (history s).
Definition setHistory x s := mkMonitor (objects s) (nextObject s) (metrics_ s) (timerStarts_ s) (nextTimerId_ s) (enabled_ s) (initialized_ s) (pending s) x.
Definition setMetrics x s := mkMonitor (objects s) (nextObject s) x (timerStarts_ s) (nextTimerId_ s) (enabled_ s) (initialized_ s) (pending s) (history s).

Definition newMonitor : Monitor := mkMonitor ∅ 0 ∅ ∅ 1 true false ∅ ∅.

Definition createMetricIfNotExists (n : list byte) (t : MetricType) (s : Monitor) : Monitor * option nat :=
  match metrics_ s !! n with
  | Some m => (s, if bool_decide (type <$> objects s !! m = Some t) then Some m else None)
  | None =>
      let m := nextObject s in
      (mkMonitor (<[m := newMetric n t]> (objects s)) (S m) (<[n := m]> (metrics_ s)) (timerStarts_ s) (nextTimerId_ s) (enabled_ s) (initialized_ s) (pending s)
         (<[m := []]> (history s)), Some m)
  end.

Definition defaultMetrics : list (list byte * MetricType) := [
  (str "connections.total", Counter); (str "connections.active", Gauge); (str "messages.received", Counter); (str "messages.sent", Counter);
  (str "bytes.received", Counter); (str "bytes.sent", Counter); (str "errors.total", Counter); (str "handshake.time", Timer);
  (str "message.processing.time", Timer); (str "frame.size", Histogram)].

Definition setEnabled (enabled : bool) (s : Monitor) : Monitor :=
  setFlags enabled (initialized_ s) (if enabled then s else setTimers ∅ (nextTimerId_ s) s).

Definition initialize (enabled : bool) (s : Monitor) : Monitor :=
  let s := foldl (fun s e => (createMetricIfNotExists e.1 e.2 s).1) s defaultMetrics in
  setEnabled enabled (setFlags (enabled_ s) true s).

Definition shutdown (s : Monitor) : Monitor := setTimers ∅ 1 (setMetrics ∅ (setFlags false false s)).

(** [incrementMetric], [setMetric], [updateHistogram], [recordTimer]: the metric is found. *)
Definition beginUpdate (t : nat) (n : list byte) (u : Update) (s : Monitor) : Monitor :=
  if negb (enabled_ s) then s
  else match createMetricIfNotExists n (typeOf u) s with
       | (s, None) => s
       | (s, Some m) => setPending (<[t := (m, u)]> (pending s)) s
       end.

(** The values that count for the statistics. *)
Definition remember (u : Update) (h : list Z) : list Z := match u with Store _ => h | _ => h ++ [argument u] end.

Definition finishUpdate (t m : nat) (u : Update) (s : Monitor) : Monitor :=
  let s := setHistory (alter (remember u) m (history s)) (setObjects (alter (updated u) m (objects s)) s) in
  setPending (match u with Store v => <[t := (m, Record_ v)]> (pending s) | _ => delete t (pending s) end) s.

Definition startTimer (now : Z) (s : Monitor) : Monitor * Z :=
  if negb (enabled_ s) then (s, 0)
  else let timerId := nextTimerId_ s in (setTimers (<[timerId := now]> (timerStarts_ s)) (u64 (timerId + 1)) s, timerId).

(** Clock values are nanoseconds. *)
Definition endTimer (t : nat) (n : list byte) (timerId now : Z) (s : Monitor) : Monitor :=
  if negb (enabled_ s) || (timerId =? 0) then s
  else match timerStarts_ s !! timerId with
       | None => s
       | Some startedAt => beginUpdate t n (Time (u64 (Z.quot (now - startedAt) 1000000))) (setTimers (delete timerId (timerStarts_ s)) (nextTimerId_ s) s)
       end.

Definition getMetricValue (n : list byte) (s : Monitor) : Z := match metrics_ s !! n with Some m => default 0 (value <$> objects s !! m) | None => 0 end.
Definition getMetricSnapshot (n : list byte) (s : Monitor) : option MetricSnapshot := m ← metrics_ s !! n; buildSnapshot <$> objects s !! m.
Definition getMetricStats (n : list byte) (s : Monitor) : option (Z * Z * Z) := (fun x => (sn_min x, sn_max x, sn_average x)) <$> getMetricSnapshot n s.

Definition resetObject (m : nat) (s : Monitor) : Monitor := setHistory (alter (fun _ => []) m (history s)) (setObjects (alter resetState m (objects s)) s).
Definition resetMetric (n : list byte) (s : Monitor) : Monitor := match metrics_ s !! n with Some m => resetObject m s | None => s end.
Definition resetAllMetrics (s : Monitor) : Monitor := foldl (fun s e => resetObject e.2 s) s (map_to_list (metrics_ s)).

(** [std::string]'s order, and the snapshots sorted by name. *)
Fixpoint nameBefore (a b : list byte) : bool :=
  match a, b with
  | [], _ => true
  | _ :: _, [] => false
  | x :: a, y :: b => (bz x <? bz y) || ((bz x =? bz y) && nameBefore a b)
  end.
Definition byName (x y : MetricSnapshot) : Prop := nameBefore (sn_name x) (sn_name y) = true.
#[export] Instance byName_dec : RelDecision byName := fun x y => decide (nameBefore (sn_name x) (sn_name y) = true).
Definition snapshotMetrics (s : Monitor) : list MetricSnapshot :=
  merge_sort byName (omap (fun e => buildSnapshot <$> objects s !! e.2) (map_to_list (metrics_ s))).

Inductive Label :=
| Initialize (enabled : bool)
| Shutdown
| Begin (t : nat) (n : list byte) (u : Update)
| Finish (t : nat)
| StartTimer (now : Z)
| EndTimer (t : nat) (n : list byte) (timerId now : Z)
| ResetMetric (n : list byte)
| ResetAllMetrics
| SetEnabled (enabled : bool).

(** Values are 64-bit and unsigned; [Record_] is the second half of [Store]. *)
Definition validUpdate (u : Update) : bool := (0 <=? argument u) && (argument u <=? uint64_max) && match u with Record_ _ => false | _ => true end.

Definition execute (s : Monitor) (l : Label) : option Monitor :=
  match l with
  | Initialize enabled => Some (initialize enabled s)
  | Shutdown => Some (shutdown s)
  | Begin t n u => match pending s !! t with Some _ => None | None => if validUpdate u then Some (beginUpdate t n u s) else None end
  | Finish t => x ← pending s !! t; Some (finishUpdate t x.1 x.2 s)
  | StartTimer now => Some (startTimer now s).1
  | EndTimer t n timerId now => match pending s !! t with Some _ => None | None => Some (endTimer t n timerId now s) end
  | ResetMetric n => Some (resetMetric n s)
  | ResetAllMetrics => Some (resetAllMetrics s)
  | SetEnabled enabled => Some (setEnabled enabled s)
  end.

Inductive reachable : Monitor -> Prop :=
| reach_new : reachable newMonitor
| reach_step s l s' : reachable s -> execute s l = Some s' -> reachable s'.

(** ** The export *)

Definition escapeJson (text : list byte) : list byte :=
  flat_map (fun ch =>
    if ch =b x5c then [x5c; x5c] else if ch =b x22 then [x5c; x22] else if ch =b x08 then str "\b" else if ch =b x0c then str "\f"
    else if ch =b x0a then str "\n" else if ch =b x0d then str "\r" else if ch =b x09 then str "\t" else [ch]) text.

Definition decimal (z : Z) : list byte := appendUnsignedDecimal [] z.

Definition quoted (s : list byte) : list byte := [x22] ++ s ++ [x22].
Definition field (n : string) (v : list byte) (rest : string) : list byte := str "      " ++ quoted (str n) ++ str ": " ++ v ++ str rest ++ [LF].

Definition exportMetric (last : bool) (m : MetricSnapshot) : list byte :=
  str "    {" ++ [LF] ++ field "name" (quoted (escapeJson (sn_name m))) "," ++ field "type" (quoted (metricTypeToString (sn_type m))) "," ++
  field "value" (decimal (sn_value m)) "," ++ field "min" (decimal (sn_min m)) "," ++ field "max" (decimal (sn_max m)) "," ++ field "sum" (decimal (sn_sum m)) "," ++
  field "count" (decimal (sn_count m)) "," ++ field "avg" (decimal (sn_average m)) "" ++ str "    }" ++ (if last then [] else str ",") ++ [LF].

Fixpoint exportList (l : list MetricSnapshot) : list byte :=
  match l with [] => [] | m :: l => exportMetric (if l is [] then true else false) m ++ exportList l end.

(** [timestamp] in seconds; the metrics come sorted by name. *)
Definition exportMetricsToJson (timestamp : Z) (enabled : bool) (metrics : list MetricSnapshot) : list byte :=
  str "{" ++ [LF] ++ str "  " ++ quoted (str "timestamp") ++ str ": " ++ decimal timestamp ++ str "," ++ [LF] ++
  str "  " ++ quoted (str "enabled") ++ str ": " ++ (if enabled then str "true" else str "false") ++ str "," ++ [LF] ++
  str "  " ++ quoted (str "metrics") ++ str ": [" ++ [LF] ++ exportList metrics ++ str "  ]" ++ [LF] ++ str "}" ++ [LF].

(** * Properties *)

Definition total (h : list Z) : Z := foldl Z.add 0 h.
Definition fits64 (v : Z) : Prop := 0 <= v <= uint64_max.

(** The statistics of a metric are those of the values it has taken. *)
Record statsOk (m : MetricState) (h : list Z) : Prop := {
  st_min : minValue m = foldl Z.min uint64_max h;
  st_max : maxValue m = foldl Z.max 0 h;
  st_sum : sumValue m = u64 (total h);
  st_count : count m = u64 (zlen h)
}.

Definition metricOk (m : MetricState) (h : list Z) : Prop :=
  Forall fits64 h ∧
  match type m with
  | Counter => value m = u64 (total h) ∧ count m = 0
  | Gauge => statsOk m h
  | Histogram => value m = u64 (zlen h) ∧ statsOk m h
  | Timer => value m = default 0 (last h) ∧ statsOk m h
  end.

Lemma total_snoc h v : total (h ++ [v]) = total h + v.
Proof. unfold total. by rewrite foldl_app. Qed.

Lemma u64_add a b : u64 (u64 a + b) = u64 (a + b).
Proof. unfold u64. by rewrite Zplus_mod_idemp_l. Qed.

Lemma recorded_ok m h v : statsOk m h -> statsOk (recorded v m) (h ++ [v]).
Proof.
  intros [H1 H2 H3 H4]. split; cbn; rewrite ?foldl_app, ?total_snoc, ?zlen_app, ?H1, ?H2, ?H3, ?H4; [done | done | apply u64_add | apply u64_add].
Qed.

Lemma stats_value m h v : statsOk m h -> statsOk (setValue v m) h.
Proof. by intros []. Qed.

Lemma new_ok n t : metricOk (newMetric n t) [].
Proof. split; [constructor|]. by destruct t. Qed.

Lemma updated_ok u m h : type m = typeOf u -> fits64 (argument u) -> metricOk m h -> metricOk (updated u m) (remember u h).
Proof.
  intros Ht Hf [H1 H2]. rewrite Ht in H2. assert (Hh : Forall fits64 (h ++ [argument u])) by (apply Forall_app; split; [done | by apply Forall_singleton]). unfold metricOk.
  destruct u as [v|v|v|v|v]; cbn [updated recorded setValue type typeOf remember argument] in *; rewrite Ht; (split; [done|]).
  - destruct H2 as [H2 H3]. split; [|done]. cbn. by rewrite H2, total_snoc, u64_add.
  - by apply stats_value.
  - by apply recorded_ok.
  - destruct H2 as [H2 H3]. split; [cbn; by rewrite H2, u64_add, zlen_app | by apply recorded_ok, stats_value].
  - destruct H2 as [H2 H3]. split; [cbn; by rewrite last_snoc | by apply recorded_ok, stats_value].
Qed.

Lemma updated_name u m : name (updated u m) = name m ∧ type (updated u m) = type m.
Proof. by destruct u. Qed.

Record monitorInv (s : Monitor) : Prop := {
  m_ok : ∀ m, match objects s !! m, history s !! m with Some st, Some h => metricOk st h | None, None => True | _, _ => False end;
  m_fresh : ∀ m, (nextObject s <= m)%nat -> objects s !! m = None;
  m_names : ∀ n m, metrics_ s !! n = Some m -> name <$> objects s !! m = Some n;
  m_pending : ∀ t m u, pending s !! t = Some (m, u) -> type <$> objects s !! m = Some (typeOf u) ∧ fits64 (argument u)
}.

Lemma monitor_fields s s' : monitorInv s -> objects s' = objects s -> nextObject s' = nextObject s -> metrics_ s' = metrics_ s -> pending s' = pending s -> history s' = history s -> monitorInv s'.
Proof. intros [H1 H2 H3 H4] E1 E2 E3 E4 E5. by split; rewrite ?E1, ?E2, ?E3, ?E4, ?E5. Qed.

Lemma create_ok n t s : monitorInv s -> monitorInv (createMetricIfNotExists n t s).1 ∧
  pending (createMetricIfNotExists n t s).1 = pending s ∧
  ∀ m, (createMetricIfNotExists n t s).2 = Some m -> type <$> objects (createMetricIfNotExists n t s).1 !! m = Some t.
Proof.
  intros H. unfold createMetricIfNotExists. destruct (metrics_ s !! n) as [m|] eqn:Em; cbn; [split; [done|]; split; [done|]; case_bool_decide; by intros ? [= <-]|].
  pose proof (m_fresh _ H (nextObject s) (Nat.le_refl _)) as Hn. split_and!; [|done | intros ? [= <-]; by rewrite lookup_insert_eq].
  assert (Hne : ∀ m x, objects s !! m = Some x -> m ≠ nextObject s) by (intros ? ? ? ->; congruence). split; cbn.
  - intros m. destruct (decide (m = nextObject s)) as [->|]; [rewrite !lookup_insert_eq; apply new_ok | rewrite !lookup_insert_ne by done; apply H].
  - intros m Hm. rewrite lookup_insert_ne by lia. apply H. lia.
  - intros n' m. destruct (decide (n' = n)) as [->|]; [rewrite lookup_insert_eq; intros [= <-]; by rewrite lookup_insert_eq|]. rewrite lookup_insert_ne by done.
    intros Hm%(m_names _ H). destruct (objects s !! m) as [st|] eqn:Eo; [|done]. by rewrite lookup_insert_ne, Eo by (symmetry; by eapply Hne).
  - intros t' m u [Hp Hf]%(m_pending _ H). split; [|done]. destruct (objects s !! m) as [st|] eqn:Eo; [|done]. by rewrite lookup_insert_ne, Eo by (symmetry; by eapply Hne).
Qed.

Lemma begin_ok t n u s : monitorInv s -> fits64 (argument u) -> monitorInv (beginUpdate t n u s).
Proof.
  intros H Hf. unfold beginUpdate. destruct (negb (enabled_ s)); [done|]. destruct (create_ok n (typeOf u) s H) as ([H1 H2 H3 H4] & Hp & Ht).
  destruct (createMetricIfNotExists n (typeOf u) s) as [s1 [m|]]; cbn in *; [|done]. split; [done | done | done|]. cbn. intros t' m' u'.
  destruct (decide (t' = t)) as [->|]; [rewrite lookup_insert_eq; intros [= <- <-]; split; [by apply Ht | done] | rewrite lookup_insert_ne by done; apply H4].
Qed.

(** An object changed in a way that keeps its name and its type. *)
Lemma alter_ok f g m s : monitorInv s -> (∀ st, name (f st) = name st ∧ type (f st) = type st) ->
  (∀ st h, objects s !! m = Some st -> history s !! m = Some h -> metricOk st h -> metricOk (f st) (g h)) -> monitorInv (setHistory (alter g m (history s)) (setObjects (alter f m (objects s)) s)).
Proof.
  intros [H1 H2 H3 H4] Hf Ho. assert (Hk : ∀ {B} (p : MetricState -> B) m', (∀ st, p (f st) = p st) -> p <$> alter f m (objects s) !! m' = p <$> objects s !! m').
  { intros B p m' Hp. destruct (decide (m' = m)) as [->|]; [|by rewrite lookup_alter_ne]. rewrite lookup_alter_eq. destruct (objects s !! m); cbn; [by rewrite Hp | done]. }
  split; cbn.
  - intros m'. specialize (H1 m'). destruct (decide (m' = m)) as [->|]; [|by rewrite !lookup_alter_ne]. rewrite !lookup_alter_eq.
    destruct (objects s !! m) as [st|], (history s !! m) as [h|]; cbn; try done. by apply Ho.
  - intros m' Hm. destruct (decide (m' = m)) as [->|]; [rewrite lookup_alter_eq; by rewrite H2 | rewrite lookup_alter_ne by done; by apply H2].
  - intros n m' Hm. rewrite Hk by apply Hf. by apply H3.
  - intros t m' u Hp. rewrite Hk by apply Hf. by eapply H4.
Qed.

Lemma finish_ok t m u s : monitorInv s -> pending s !! t = Some (m, u) -> monitorInv (finishUpdate t m u s).
Proof.
  intros H Hp. destruct (m_pending _ H t m u Hp) as [Ht Hf]. unfold finishUpdate. cbv zeta.
  assert (H' : monitorInv (setHistory (alter (remember u) m (history s)) (setObjects (alter (updated u) m (objects s)) s))).
  { apply alter_ok; [done | intros; apply updated_name|]. intros st h Es Eh Hm. apply updated_ok; [|done|done]. rewrite Es in Ht. by injection Ht. }
  destruct H' as [H1 H2 H3 H4]. split; [done | done | done|]. cbn. intros t' m' u'. destruct u as [v|v|v|v|v]; try (intros [_ Hl]%lookup_delete_Some; by eapply H4).
  destruct (decide (t' = t)) as [->|]; [|rewrite lookup_insert_ne by done; apply H4]. rewrite lookup_insert_eq. intros [= <- <-]. exact (H4 t m (Store v) Hp).
Qed.

Lemma reset_ok m s : monitorInv s -> monitorInv (resetObject m s).
Proof. intros H. apply alter_ok; [done | done|]. intros st h _ _ _. apply new_ok. Qed.

Lemma monitor_step s l s' : monitorInv s -> execute s l = Some s' -> monitorInv s'.
Proof.
  intros H E. destruct l; cbn [execute] in E.
  - injection E as <-. unfold initialize, setEnabled. set (s1 := foldl _ s defaultMetrics). assert (H1 : monitorInv s1).
    { unfold s1. generalize defaultMetrics. intros l. revert s H s1. induction l as [|e l IH]; intros s H s1; [done|]. apply IH. by apply create_ok. }
    by destruct enabled; apply (monitor_fields s1).
  - injection E as <-. destruct H as [H1 H2 H3 H4]. by split.
  - destruct (pending s !! t); [done|]. destruct (validUpdate u) eqn:Ev; [|done]. injection E as <-. apply begin_ok; [done|]. unfold validUpdate in Ev. unfold fits64.
    apply andb_true_iff in Ev as [[E1%Z.leb_le E2%Z.leb_le]%andb_true_iff _]. lia.
  - destruct (pending s !! t) as [[m u]|] eqn:Ep; [|done]. injection E as <-. by apply finish_ok.
  - injection E as <-. unfold startTimer. destruct (negb _); [done|]. by apply (monitor_fields s).
  - destruct (pending s !! t); [done|]. injection E as <-. unfold endTimer. destruct (_ || _); [done|]. destruct (timerStarts_ s !! timerId); [|done].
    apply begin_ok; [by apply (monitor_fields s)|]. unfold fits64, u64, uint64_max. cbn. pose proof (Z.mod_pos_bound (Z.quot (now - z) 1000000) (2 ^ 64)). lia.
  - injection E as <-. unfold resetMetric. destruct (metrics_ s !! n); [by apply reset_ok | done].
  - injection E as <-. unfold resetAllMetrics. generalize (map_to_list (metrics_ s)). intros l. revert s H. induction l as [|e l IH]; intros s H; [done|]. apply IH. by apply reset_ok.
  - injection E as <-. by destruct enabled; apply (monitor_fields s).
Qed.

Lemma monitor_reachable s : reachable s -> monitorInv s.
Proof. induction 1 as [|s l s' _ IH E]; [|by eapply monitor_step]. split; cbn; intros; rewrite ?lookup_empty in *; done. Qed.

(** ** What a snapshot says *)

Lemma foldl_min h : ∀ a, Forall (fun v => foldl Z.min a h <= v) h ∧ foldl Z.min a h <= a.
Proof.
  induction h as [|v h IH]; intros a; cbn; [split; [constructor | lia]|]. destruct (IH (Z.min a v)) as [H1 H2]. split; [constructor; [lia | done] | lia].
Qed.

Lemma foldl_max h : ∀ a, Forall (fun v => v <= foldl Z.max a h) h ∧ a <= foldl Z.max a h.
Proof.
  induction h as [|v h IH]; intros a; cbn; [split; [constructor | lia]|]. destruct (IH (Z.max a v)) as [H1 H2]. split; [constructor; [lia | done] | lia].
Qed.

Lemma total_bounds lo hi h : Forall (fun v => lo <= v <= hi) h -> lo * zlen h <= total h <= hi * zlen h.
Proof.
  induction h as [|v h IH] using rev_ind; [unfold total, zlen; cbn; lia|]. intros [H1 H2]%Forall_app. rewrite Forall_singleton in H2. rewrite total_snoc, zlen_app. specialize (IH H1). change (zlen [v]) with 1. rewrite !Z.mul_add_distr_l. lia.
Qed.

(** A snapshot of the values [h], as long as their sum and their number fit. *)
Record summarizes (x : MetricSnapshot) (h : list Z) : Prop := {
  su_sum : sn_sum x = total h;
  su_count : sn_count x = zlen h;
  su_average : sn_average x = total h / zlen h;
  su_bounds : sn_min x <= sn_average x <= sn_max x;
  su_values : Forall (fun v => sn_min x <= v <= sn_max x) h
}.

Lemma snapshot_summarizes m h : metricOk m h -> type m ≠ Counter -> h ≠ [] -> total h <= uint64_max -> zlen h <= uint64_max -> summarizes (buildSnapshot m) h.
Proof.
  intros [Hf Hm] Ht Hne Hs Hl. assert (Hst : statsOk m h) by (destruct (type m); [done | done | by destruct Hm | by destruct Hm]). destruct Hst as [E1 E2 E3 E4].
  assert (Hpos : 0 < zlen h) by (destruct h; [done | rewrite zlen_cons; pose proof (zlen_nonneg h); lia]).
  assert (Htot : 0 <= total h) by (pose proof (total_bounds 0 uint64_max h Hf); lia). rewrite u64_small in E3, E4 by (unfold size_max, uint64_max in *; lia).
  unfold buildSnapshot. rewrite E4. destruct (Z.eqb_spec (zlen h) 0); [lia|]. set (lo := if minValue m =? uint64_max then 0 else minValue m).
  assert (Hv : Forall (fun v => lo <= v <= maxValue m) h).
  { destruct (foldl_min h uint64_max) as [Hmin _]. destruct (foldl_max h 0) as [Hmax _]. rewrite Forall_forall in *. intros v Hin. specialize (Hmin v Hin). specialize (Hmax v Hin). specialize (Hf v Hin). unfold fits64 in Hf.
    rewrite <- E1 in Hmin. rewrite <- E2 in Hmax. unfold lo. destruct (_ =? _); lia. }
  pose proof (total_bounds _ _ _ Hv) as Hb. split; cbn; rewrite ?E3, ?E4; try done. split; [apply Z.div_le_lower_bound; lia|]. apply Z.div_le_upper_bound; lia.
Qed.

(** ** JSON strings *)

(** A reader of string literals (RFC 8259, section 7, without \u): what precedes the closing
    quote, and what follows it. *)
Definition unescaped (c : byte) : option byte :=
  if c =b x5c then Some x5c else if c =b x22 then Some x22 else if c =b x62 then Some x08 else if c =b x66 then Some x0c
  else if c =b x6e then Some x0a else if c =b x72 then Some x0d else if c =b x74 then Some x09 else None.

Fixpoint readString (s : list byte) : option (list byte * list byte) :=
  match s with
  | [] => None
  | c :: rest =>
      if c =b x22 then Some ([], rest)
      else if c =b x5c then
        match rest with
        | [] => None
        | e :: rest => c ← unescaped e; '(text, rest) ← readString rest; Some (c :: text, rest)
        end
      else if bz c <? 32 then None
      else '(text, rest) ← readString rest; Some (c :: text, rest)
  end.

Definition readable (c : byte) : bool := (32 <=? bz c) || (c =b x08) || (c =b x0c) || (c =b x0a) || (c =b x0d) || (c =b x09).

(** What [escapeJson] writes is read back, exactly as long as the text has no control
    characters but those it has an escape for. *)
Lemma json_string text rest : readString (escapeJson text ++ x22 :: rest) = if forallb readable text then Some (text, rest) else None.
Proof.
  induction text as [|c text IH]; [done|]. cbn [escapeJson flat_map forallb]. fold (escapeJson text). destruct c; cbn -[readString escapeJson]; cbn [readString]; cbn -[readString escapeJson]; try done; rewrite ?IH; by destruct (forallb readable text).
Qed.

(** ** Claims *)

(** Under every interleaving of recording calls, resets, snapshots, timers and shutdowns:
    each name has one metric, of the type it was made with, and the metric's value, count,
    sum, minimum and maximum are those of exactly the values it has taken since it was
    made or reset - none lost, none counted twice - modulo 2^64 where they are sums; a
    snapshot's average is their mean, and lies with all of them between its minimum and
    maximum as long as the sum fits. *)
Theorem metrics_exact s :
  reachable s ->
  (∀ n m, metrics_ s !! n = Some m -> ∃ st h, objects s !! m = Some st ∧ history s !! m = Some h ∧ name st = n ∧ metricOk st h) ∧
  (∀ n n' m, metrics_ s !! n = Some m -> metrics_ s !! n' = Some m -> n = n') ∧
  (∀ n x, getMetricSnapshot n s = Some x -> ∃ m h, metrics_ s !! n = Some m ∧ history s !! m = Some h ∧
     (sn_type x ≠ Counter -> h ≠ [] -> total h <= uint64_max -> zlen h <= uint64_max -> summarizes x h)).
Proof.
  intros H%monitor_reachable. assert (Hm : ∀ n m, metrics_ s !! n = Some m -> ∃ st h, objects s !! m = Some st ∧ history s !! m = Some h ∧ name st = n ∧ metricOk st h).
  { intros n m Hn. pose proof (m_names _ H n m Hn) as Hname. pose proof (m_ok _ H m) as Hok. destruct (objects s !! m) as [st|], (history s !! m) as [h|]; try done.
    exists st, h. split_and!; [done | done | by injection Hname | done]. }
  split_and!; [done| |].
  - intros n n' m H1 H2. destruct (Hm n m H1) as (st & h & E1 & _ & <- & _). destruct (Hm n' m H2) as (st' & h' & E2 & _ & <- & _). congruence.
  - intros n x. unfold getMetricSnapshot. destruct (metrics_ s !! n) as [m|] eqn:En; [|done]. destruct (Hm n m En) as (st & h & E1 & E2 & _ & Hok). cbn. rewrite E1. intros [= <-].
    exists m, h. split_and!; [done | done|]. intros Ht. apply snapshot_summarizes; [done|]. intros E. apply Ht. unfold buildSnapshot. by destruct (count st =? 0).
Qed.

(** ** Snapshots in order *)

Lemma nameBefore_total a : ∀ b, nameBefore a b = true ∨ nameBefore b a = true.
Proof.
  induction a as [|x a IH]; intros [|y b]; cbn; auto. destruct (Z.ltb_spec (bz x) (bz y)); [by left|]. destruct (Z.ltb_spec (bz y) (bz x)); [by right|].
  assert (E : bz x = bz y) by lia. rewrite E, Z.eqb_refl. cbn. apply IH.
Qed.

Lemma nameBefore_antisym a : ∀ b, nameBefore a b = true -> nameBefore b a = true -> a = b.
Proof.
  induction a as [|x a IH]; intros [|y b]; cbn; try done. intros H1 H2. destruct (Z.ltb_spec (bz x) (bz y)), (Z.ltb_spec (bz y) (bz x)), (Z.eqb_spec (bz x) (bz y)), (Z.eqb_spec (bz y) (bz x)); try lia; try done.
  f_equal; [by apply bz_inj | by apply IH].
Qed.

Lemma nameBefore_trans a : ∀ b c, nameBefore a b = true -> nameBefore b c = true -> nameBefore a c = true.
Proof.
  induction a as [|x a IH]; intros [|y b] [|z c]; cbn; try done. intros [H1%Z.ltb_lt|[H1%Z.eqb_eq H2]%andb_true_iff]%orb_true_iff [H3%Z.ltb_lt|[H3%Z.eqb_eq H4]%andb_true_iff]%orb_true_iff; apply orb_true_iff.
  1-3: left; apply Z.ltb_lt; lia. right. apply andb_true_iff. split; [apply Z.eqb_eq; lia | by eapply IH].
Qed.

#[export] Instance byName_total : Total byName.
Proof. intros x y. apply nameBefore_total. Qed.
#[export] Instance byName_trans : Transitive byName.
Proof. intros x y z. apply nameBefore_trans. Qed.

(** The order in which the hash map is traversed does not show: the snapshots come sorted by
    name, one per metric. *)
Theorem snapshots_in_order s l :
  reachable s -> l ≡ₚ map_to_list (metrics_ s) ->
  StronglySorted byName (snapshotMetrics s) ∧ merge_sort byName (omap (fun e => buildSnapshot <$> objects s !! e.2) l) = snapshotMetrics s.
Proof.
  intros H%monitor_reachable Hl. split; [apply (StronglySorted_merge_sort _)|]. unfold snapshotMetrics.
  assert (Hel : ∀ x, x ∈ omap (fun e => buildSnapshot <$> objects s !! e.2) (map_to_list (metrics_ s)) -> getMetricSnapshot (sn_name x) s = Some x).
  { intros x ([n m] & Hin%elem_of_map_to_list & E)%list_elem_of_omap. cbn in E. pose proof (m_names _ H n m Hin) as Hn. destruct (objects s !! m) as [st|] eqn:Eo; [|done]. cbn in *. injection E as <-.
    assert (sn_name (buildSnapshot st) = n) as -> by (injection Hn as <-; unfold buildSnapshot; by destruct (count st =? 0)). unfold getMetricSnapshot. rewrite Hin. cbn. by rewrite Eo. }
  assert (Hp : omap (fun e => buildSnapshot <$> objects s !! e.2) l ≡ₚ omap (fun e => buildSnapshot <$> objects s !! e.2) (map_to_list (metrics_ s))) by (by rewrite Hl).
  eapply StronglySorted_unique_strong; [|apply (StronglySorted_merge_sort _) | apply (StronglySorted_merge_sort _) | by rewrite !merge_sort_Permutation].
  intros x y Hx Hy Hxy Hyx. rewrite merge_sort_Permutation in Hx, Hy. rewrite Hp in Hx. apply Hel in Hx, Hy. pose proof (nameBefore_antisym _ _ Hxy Hyx) as E. rewrite E in Hx. congruence.
Qed.

(** ** Concrete runs *)

Fixpoint monitorSteps (s : Monitor) (ls : list Label) : option Monitor := match ls with [] => Some s | l :: ls => s ← execute s l; monitorSteps s ls end.

Lemma monitorSteps_reachable ls : ∀ s s', reachable s -> monitorSteps s ls = Some s' -> reachable s'.
Proof.
  induction ls as [|l ls IH]; intros s s' H E; cbn in E; [by injection E as <-|]. destruct (execute s l) as [s1|] eqn:E1; [|done]. eapply IH; [by eapply reach_step | exact E].
Qed.

(** Two frames measured by two threads at once, and a timer. *)
Definition measured : list Label :=
  [Initialize true; Begin 1 (str "frame.size") (Observe 100); Begin 2 (str "frame.size") (Observe 50); Finish 2; Finish 1; StartTimer 5000000; EndTimer 1 (str "handshake.time") 1 12000000; Finish 1].
Definition measuredMonitor : Monitor := default newMonitor (monitorSteps newMonitor measured).

Lemma measured_reachable : reachable measuredMonitor.
Proof. apply (monitorSteps_reachable measured newMonitor); [constructor | by vm_compute]. Qed.

Lemma metrics_exact_witness :
  (∀ n m, metrics_ measuredMonitor !! n = Some m -> ∃ st h, objects measuredMonitor !! m = Some st ∧ history measuredMonitor !! m = Some h ∧ name st = n ∧ metricOk st h) ∧
  (∀ n n' m, metrics_ measuredMonitor !! n = Some m -> metrics_ measuredMonitor !! n' = Some m -> n = n') ∧
  (∀ n x, getMetricSnapshot n measuredMonitor = Some x -> ∃ m h, metrics_ measuredMonitor !! n = Some m ∧ history measuredMonitor !! m = Some h ∧
     (sn_type x ≠ Counter -> h ≠ [] -> total h <= uint64_max -> zlen h <= uint64_max -> summarizes x h)).
Proof. refine (metrics_exact measuredMonitor measured_reachable). Defined.

Example measured_stats : (getMetricStats (str "frame.size") measuredMonitor, getMetricValue (str "handshake.time") measuredMonitor) = (Some (50, 100, 75), 7).
Proof. by vm_compute. Qed.

(** A value of 2^64 - 1 is reported with a minimum of 0. *)
Example largest_value : getMetricStats (str "frame.size") (default newMonitor (monitorSteps newMonitor [Initialize true; Begin 1 (str "frame.size") (Observe uint64_max); Finish 1])) =
  Some (0, uint64_max, uint64_max).
Proof. by vm_compute. Qed.

(** [shutdown] starts the numbers of timers anew: the end of a timer from before it ends
    another one that has been started since, and that one's own end is not recorded. *)
Example timer_number_reused :
  let ls := [Initialize true; StartTimer 0; Shutdown; Initialize true; StartTimer 9000000; EndTimer 1 (str "handshake.time") 1 10000000; Finish 1; EndTimer 1 (str "message.processing.time") 1 20000000] in
  (fun s => (getMetricValue (str "handshake.time") s, sn_count <$> getMetricSnapshot (str "message.processing.time") s)) <$> monitorSteps newMonitor ls = Some (1, Some 0).
Proof. by vm_compute. Qed.

(** A control character in a name makes the export invalid JSON. *)
Example control_character : escapeJson [x01] = [x01] ∧ readString (escapeJson [x01] ++ [x22]) = None.
Proof. by vm_compute. Qed.

(** The export of one metric; here with single quotes in the place of double ones. *)
Definition exportedLines : list string := ["{"; "  'timestamp': 7,"; "  'enabled': true,"; "  'metrics': ["; "    {"; "      'name': 'frame.size',"; "      'type': 'histogram',"; "      'value': 2,";
  "      'min': 50,"; "      'max': 100,"; "      'sum': 150,"; "      'count': 2,"; "      'avg': 75"; "    }"; "  ]"; "}"]%string.
Example exported_text : exportMetricsToJson 7 true (filter (fun x => sn_name x = str "frame.size") (snapshotMetrics measuredMonitor)) =
  concat ((fun l => ((fun c => if c =b x27 then x22 else c) <$> str l) ++ [LF]) <$> exportedLines).
Proof. by vm_compute. Qed.
