(* ===== verification/Library.v ===== *)
(** * The library's start and end (src/FastNet.cpp)

    [initialize] and [cleanup] as the steps of the threads that call them: the sections
    under [g_libraryMutex] are one step each, and the work done without the mutex (sockets,
    event loop, timers, logger, monitor) is one step per resource, so that other threads
    can run in between.  What a start-up step gives comes with the step.  Users may ask for
    the global event loop and timers at any time; that they shut a single resource down
    themselves is not modelled.  Also what the components read from a configuration. *)

From S2P Require Import Prelude CType ConnectionManager IoService Logger ClientTransport Configuration.

(** ** Values read from a configuration *)

(** [hardware] is [std::thread::hardware_concurrency()]. *)
Definition resolveRequestedThreadCount (hardware : Z) (c : Configuration) (requestedThreadCount : Z) : Z :=
  let kMaxThreadPoolSize := 1024 in
  let effectiveThreadCount :=
    if requestedThreadCount =? 0
    then (let configuredThreadCount := getInt c ThreadPoolSize 0 in if 0 <? configuredThreadCount then configuredThreadCount else 0)
    else requestedThreadCount in
  let effectiveThreadCount := if effectiveThreadCount =? 0 then hardware else effectiveThreadCount in
  let effectiveThreadCount := if effectiveThreadCount =? 0 then 1 else effectiveThreadCount in
  Z.min effectiveThreadCount kMaxThreadPoolSize.

(** The level, the path and the switch [applyRuntimeConfiguration] passes on. *)
Definition runtimeConfiguration (c : Configuration) : Logger.Level * list byte * bool :=
  (Logger.logLevelFromString (getString c LogLevel (str "INFO")) Logger.INFO,
   getString c LogFilePath (str "fastnet.log"), getBool c EnablePerformanceMonitoring true).

(** What [ConnectionManager::Impl] reads. *)
Definition managerSettings (c : Configuration) : ConnectionManager.Settings :=
  ConnectionManager.mkSettings (getInt c ConnectionTimeout 30000) (getInt c HealthCheckInterval 30000) (getInt c RecoveryTimeout 60000)
    (getBool c CircuitBreakerEnabled true) (getInt c FailureThreshold 5) (getInt c HalfOpenAttempts 3) (getInt c MaxConnections 1024)
    (getString c LoadBalancingStrategy (str "RoundRobin")).

(** ** The process-wide objects *)

Record Globals := mkGlobals {
  sockets : bool;
  ioService : option (Z * bool);   (** thread count, running *)
  ioServiceThreadCount : Z;
  timers : bool;
  logger : bool;                   (** [running_] of the log writer *)
  monitor : bool
}.

Definition setSockets b g := mkGlobals b (ioService g) (ioServiceThreadCount g) (timers g) (logger g) (monitor g).
Definition setService x n g := mkGlobals (sockets g) x n (timers g) (logger g) (monitor g).
Definition setTimers b g := mkGlobals (sockets g) (ioService g) (ioServiceThreadCount g) b (logger g) (monitor g).
Definition setLogger b g := mkGlobals (sockets g) (ioService g) (ioServiceThreadCount g) (timers g) b (monitor g).
Definition setMonitor b g := mkGlobals (sockets g) (ioService g) (ioServiceThreadCount g) (timers g) (logger g) b.

Section Library.
Context (hardware : Z).
Abbreviation normalizeThreadCount := (IoService.normalizeThreadCount hardware).

(** src/IoService.cpp *)
Definition configureGlobalIoService (threadCount : Z) (g : Globals) : Globals :=
  match ioService g with
  | Some (_, true) => setService (ioService g) threadCount g
  | Some (n, false) => setService (if n =? normalizeThreadCount threadCount then ioService g else Some (normalizeThreadCount threadCount, false)) threadCount g
  | None => setService (Some (normalizeThreadCount threadCount, false)) threadCount g
  end.

(** [starts] says whether a call of [IoService::start] on a service that does not run succeeds. *)
Definition getGlobalIoService (starts : bool) (g : Globals) : Globals :=
  let n := normalizeThreadCount (ioServiceThreadCount g) in
  match ioService g with
  | Some (_, true) => g
  | _ => setService (Some (n, starts)) (ioServiceThreadCount g) g
  end.

Definition shutdownGlobalIoService (g : Globals) : Globals := setService None 0 g.

(** ** Threads *)

Inductive LibraryState := Uninitialized | Initializing | Initialized | CleaningUp.

(** How a step ends.  [ThrowsLogStopped]: [applyRuntimeConfiguration] throws after the
    logger, asked for another file, has stopped its writer (src/Logger.cpp, [initialize]). *)
Inductive Outcome := Succeeds | FailsWith (code : ErrorCode) | Throws | ThrowsLogStopped.

Inductive StartStep := InitSockets | StartService | StartTimers | StartLogger | StartMonitor.
Inductive Undo := StopMonitor | StopLogger | StopTimers | StopService | CleanSockets.
#[export] Instance undo_eq_dec : EqDecision Undo.
Proof. solve_decision. Defined.

(** Where a thread is: outside, in the start-up of [initialize], undoing a start-up that
    failed, about to publish its result, or in the shutdown of [cleanup]. *)
Inductive Control :=
| Idle
| Starting (requested : Z) (next : StartStep)
| Undoing (todo : list Undo) (result : ErrorCode)
| Publishing (result : ErrorCode) (actualThreadCount : Z)
| Stopping (todo : list Undo).

Record Library := mkLibrary {
  libraryState : LibraryState;
  initializeRefCount : Z;
  initializedThreadCount : Z;
  globals : Globals;
  controls : gmap nat Control
}.

Definition controlOf (s : Library) (t : nat) : Control := default Idle (controls s !! t).
Definition setControl (t : nat) (c : Control) (s : Library) : Library :=
  mkLibrary (libraryState s) (initializeRefCount s) (initializedThreadCount s) (globals s) (<[t := c]> (controls s)).
Definition setState st ref count (s : Library) : Library := mkLibrary st ref count (globals s) (controls s).
Definition setGlobals g (s : Library) : Library := mkLibrary (libraryState s) (initializeRefCount s) (initializedThreadCount s) g (controls s).

(** The predicate of the condition variable. *)
Definition settled (s : Library) : bool := match libraryState s with Initializing | CleaningUp => false | _ => true end.

Definition undo (u : Undo) (g : Globals) : Globals :=
  match u with
  | StopMonitor => setMonitor false g
  | StopLogger => setLogger false g
  | StopTimers => setTimers false g
  | StopService => shutdownGlobalIoService g
  | CleanSockets => setSockets false g
  end.

(** The handler of [initialize]. *)
Definition handler (socketLibraryReady : bool) : Control :=
  Undoing ([StopMonitor; StopLogger; StopTimers; StopService] ++ if socketLibraryReady then [CleanSockets] else []) UnknownError.

(** One step of the start-up; [None] when the outcome is not one the step can have. *)
Definition startStep (requested : Z) (next : StartStep) (o : Outcome) (g : Globals) : option (Globals * Control) :=
  match next, o with
  | InitSockets, Succeeds => Some (setSockets true g, Starting requested StartService)
  | InitSockets, FailsWith code => if code is Success then None else Some (g, Publishing code 0)
  | InitSockets, Throws => Some (g, handler false)
  | StartService, Succeeds => Some (getGlobalIoService true (configureGlobalIoService requested g), Starting requested StartTimers)
  | StartService, FailsWith _ =>
      match ioService g with
      | Some (_, true) => None
      | _ => Some (getGlobalIoService false (configureGlobalIoService requested g), Undoing [StopService; CleanSockets] UnknownError)
      end
  | StartService, Throws => Some (configureGlobalIoService requested g, handler true)
  | StartTimers, Succeeds => Some (setTimers true g, Starting requested StartLogger)
  | StartLogger, Succeeds => Some (setLogger true g, Starting requested StartMonitor)
  | StartMonitor, Succeeds =>
      Some (setMonitor true g, Publishing Success (match ioService g with Some (n, _) => n | None => 0 end))
  | _, Throws => Some (g, handler true)
  | _, FailsWith _ | _, ThrowsLogStopped => None
  end.

Inductive Label :=
| CallInitialize (t : nat) (threadCount : Z) (c : Configuration) (o : Outcome)
| StartStepOf (t : nat) (o : Outcome)
| UndoStepOf (t : nat)
| PublishOf (t : nat)
| CallCleanup (t : nat)
| StopStepOf (t : nat)
| StoppedOf (t : nat)
| UseService (starts : bool)
| UseTimers.

(** The result, when the call returns in this step. *)
Definition execute (s : Library) (l : Label) : option (Library * option ErrorCode) :=
  match l with
  | CallInitialize t threadCount c o =>
      match controlOf s t with
      | Idle =>
          if negb (settled s) then None
          else
            let requestedThreadCount := resolveRequestedThreadCount hardware c threadCount in
            match libraryState s with
            | Initialized =>
                if negb (threadCount =? 0) && negb (initializedThreadCount s =? requestedThreadCount) then Some (s, Some AlreadyRunning)
                else match o with
                     | Succeeds => Some (setGlobals (setMonitor true (setLogger true (globals s)))
                                           (setState Initialized (initializeRefCount s + 1) (initializedThreadCount s) s), Some Success)
                     | ThrowsLogStopped => Some (setGlobals (setLogger false (globals s)) s, Some UnknownError)
                     | _ => Some (s, Some UnknownError)
                     end
            | _ => Some (setControl t (Starting requestedThreadCount InitSockets)
                           (setState Initializing (initializeRefCount s) (initializedThreadCount s) s), None)
            end
      | _ => None
      end
  | StartStepOf t o =>
      match controlOf s t with
      | Starting requested next => '(g, c) ← startStep requested next o (globals s); Some (setControl t c (setGlobals g s), None)
      | _ => None
      end
  | UndoStepOf t =>
      match controlOf s t with
      | Undoing (u :: todo) result => Some (setControl t (Undoing todo result) (setGlobals (undo u (globals s)) s), None)
      | Undoing [] result => Some (setControl t (Publishing result 0) s, None)
      | _ => None
      end
  | PublishOf t =>
      match controlOf s t with
      | Publishing result actualThreadCount =>
          let s := if result is Success then setState Initialized 1 actualThreadCount s else setState Uninitialized 0 0 s in
          Some (setControl t Idle s, Some result)
      | _ => None
      end
  | CallCleanup t =>
      match controlOf s t with
      | Idle =>
          if negb (settled s) then None
          else match libraryState s with
               | Initialized =>
                   if initializeRefCount s =? 0 then Some (s, None)
                   else
                     let ref := initializeRefCount s - 1 in
                     if negb (ref =? 0) then Some (setState Initialized ref (initializedThreadCount s) s, None)
                     else Some (setControl t (Stopping [StopTimers; StopService; StopMonitor; StopLogger; CleanSockets]) (setState CleaningUp ref 0 s), None)
               | _ => Some (s, None)
               end
      | _ => None
      end
  | StopStepOf t =>
      match controlOf s t with
      | Stopping (u :: todo) => Some (setControl t (Stopping todo) (setGlobals (undo u (globals s)) s), None)
      | _ => None
      end
  | StoppedOf t =>
      match controlOf s t with
      | Stopping [] => Some (setControl t Idle (setState Uninitialized (initializeRefCount s) (initializedThreadCount s) s), None)
      | _ => None
      end
  | UseService starts => Some (setGlobals (getGlobalIoService starts (globals s)) s, None)
  | UseTimers => Some (setGlobals (setTimers true (globals s)) s, None)
  end.

Definition isInitialized (s : Library) : bool := match libraryState s with Initialized => true | _ => false end.

Definition noGlobals : Globals := mkGlobals false None 0 false false false.
Definition initialLibrary : Library := mkLibrary Uninitialized 0 0 noGlobals ∅.

(** ** History *)

(** How many calls of [initialize] succeeded, how many calls of [cleanup] found the library
    in use, whether a user asked for the event loop or the timers himself, and whether an
    [initialize] that failed has stopped the log writer since the last that succeeded. *)
Record History := mkHistory {
  successes : Z;
  releases : Z;
  touched : bool;
  logStopped : bool
}.

Definition record (s : Library) (l : Label) (result : option ErrorCode) (h : History) : History :=
  mkHistory (successes h + if result is Some Success then 1 else 0)
    (releases h + match l with CallCleanup _ => if isInitialized s && negb (initializeRefCount s =? 0) then 1 else 0 | _ => 0 end)
    (touched h || match l with UseService _ | UseTimers => true | _ => false end)
    match l, result with
    | CallInitialize _ _ _ ThrowsLogStopped, Some UnknownError => true
    | _, Some Success => false
    | _, _ => logStopped h
    end.

Inductive reachable : Library -> History -> Prop :=
| reach_initial : reachable initialLibrary (mkHistory 0 0 false false)
| reach_step s h l s' result : reachable s h -> execute s l = Some (s', result) -> reachable s' (record s l result h).
End Library.

(** * Properties *)

Section Proofs.
Context (hardware : Z).
Implicit Types (s : Library) (g : Globals).

(** Everything [initialize] starts is up; the log writer as [log] says. *)
Record allUp (g : Globals) (n : Z) (log : bool) : Prop := {
  up_sockets : sockets g = true;
  up_service : ioService g = Some (n, true);
  up_timers : timers g = true;
  up_logger : logger g = log;
  up_monitor : monitor g = true
}.

(** What is not on the list of things to undo is down; the event loop and the timers only
    as far as no user has asked for them. *)
Record undone (todo : list Undo) (touched : bool) (g : Globals) : Prop := {
  un_monitor : StopMonitor ∉ todo -> monitor g = false;
  un_logger : StopLogger ∉ todo -> logger g = false;
  un_timers : StopTimers ∉ todo -> touched = false -> timers g = false;
  un_service : StopService ∉ todo -> touched = false -> ioService g = None;
  un_sockets : CleanSockets ∉ todo -> sockets g = false
}.

Definition serviceRuns (g : Globals) : Prop := ∃ n, ioService g = Some (n, true).

(** How far a thread has brought the process. *)
Definition stageOk (touched : bool) (g : Globals) (c : Control) : Prop :=
  match c with
  | Idle => True
  | Starting _ InitSockets => undone [] touched g
  | Starting _ StartService => sockets g = true ∧ undone [CleanSockets] touched g
  | Starting _ StartTimers => sockets g = true ∧ serviceRuns g
  | Starting _ StartLogger => sockets g = true ∧ serviceRuns g ∧ timers g = true
  | Starting _ StartMonitor => sockets g = true ∧ serviceRuns g ∧ timers g = true ∧ logger g = true
  | Undoing todo result => result ≠ Success ∧ undone todo touched g
  | Publishing Success n => allUp g n true
  | Publishing _ _ => undone [] touched g
  | Stopping todo => undone todo touched g
  end.

Definition demands (c : Control) : LibraryState := match c with Stopping _ => CleaningUp | _ => Initializing end.

Record libInv (s : Library) (h : History) : Prop := {
  i_one : ∀ t t', controlOf s t ≠ Idle -> controlOf s t' ≠ Idle -> t = t';
  i_match : ∀ t, controlOf s t ≠ Idle -> libraryState s = demands (controlOf s t);
  i_busy : settled s = false -> ∃ t, controlOf s t ≠ Idle;
  i_stage : ∀ t, stageOk (touched h) (globals s) (controlOf s t);
  i_ref : initializeRefCount s = successes h - releases h;
  i_count : if isInitialized s then 1 <= initializeRefCount s else initializeRefCount s = 0;
  i_up : libraryState s = Initialized -> allUp (globals s) (initializedThreadCount s) (negb (logStopped h));
  i_down : libraryState s = Uninitialized -> undone [] (touched h) (globals s)
}.

Lemma controlOf_set t c s t' : controlOf (setControl t c s) t' = if decide (t' = t) then c else controlOf s t'.
Proof. unfold controlOf, setControl. cbn. destruct (decide (t' = t)) as [->|Hn]; [by rewrite lookup_insert_eq | by rewrite lookup_insert_ne]. Qed.

(** The thread that starts or stops the library is alone in it. *)
Lemma others_idle s h t t' : libInv s h -> controlOf s t ≠ Idle -> t' ≠ t -> controlOf s t' = Idle.
Proof. intros H Ht Hn. destruct (controlOf s t') eqn:E; [done | exfalso; apply Hn; by apply (i_one _ _ H); rewrite ?E ..]. Qed.

Ltac keeps H := first [exact (i_one _ _ H) | exact (i_match _ _ H) | exact (i_busy _ _ H) | exact (i_stage _ _ H) | exact (i_ref _ _ H) | exact (i_count _ _ H)
  | exact (i_up _ _ H) | exact (i_down _ _ H)].

(** A step of that thread that leaves the library in transition. *)
Lemma goes_on s h t c g : libInv s h -> controlOf s t ≠ Idle -> c ≠ Idle -> demands c = demands (controlOf s t) -> stageOk (touched h) g c ->
  libInv (setControl t c (setGlobals g s)) h.
Proof.
  intros H Ht Hc Hd Hs. pose proof (i_match _ _ H t Ht) as Hm. assert (Hi : ∀ t', t' ≠ t -> controlOf s t' = Idle) by (intros; by eapply others_idle).
  assert (Hst : libraryState s ≠ Initialized ∧ libraryState s ≠ Uninitialized) by (rewrite Hm; unfold demands; by destruct (controlOf s t)).
  split; cbn [libraryState initializeRefCount initializedThreadCount globals setControl setGlobals]; try keeps H; try (by intros X; destruct (proj1 Hst X)); try (by intros X; destruct (proj2 Hst X)).
  - intros t1 t2. rewrite !controlOf_set. change (controlOf (setGlobals g s)) with (controlOf s).
    destruct (decide (t1 = t)) as [->|H1]; destruct (decide (t2 = t)) as [->|H2]; rewrite ?Hi by done; done.
  - intros t1. rewrite controlOf_set. change (controlOf (setGlobals g s)) with (controlOf s). destruct (decide (t1 = t)) as [->|H1]; [by rewrite Hd | by rewrite Hi].
  - intros _. exists t. rewrite controlOf_set. by destruct (decide (t = t)).
  - intros t1. rewrite controlOf_set. change (controlOf (setGlobals g s)) with (controlOf s). destruct (decide (t1 = t)) as [->|H1]; [done | by rewrite Hi].
Qed.

Lemma undo_undone u todo touched g : undone (u :: todo) touched g -> undone todo touched (undo u g).
Proof.
  intros []. split; destruct u; cbn; intros; first [done | match goal with H : _ -> _ |- _ => apply H; [|done] | H : _ -> _ |- _ => apply H end; rewrite elem_of_cons; by intros [|]].
Qed.

Lemma undone_all todo touched g : (∀ u, u ∈ todo) -> undone todo touched g.
Proof. intros H. split; intros Hn; by destruct (Hn (H _)). Qed.

Lemma start_stage requested next o touched g g' c : stageOk touched g (Starting requested next) -> startStep hardware requested next o g = Some (g', c) ->
  stageOk touched g' c ∧ c ≠ Idle ∧ demands c = Initializing.
Proof.
  assert (Hall : ∀ u, u ∈ [StopMonitor; StopLogger; StopTimers; StopService; CleanSockets]) by (intros []; decide_closed).
  assert (Hrun : ∀ n g, serviceRuns (getGlobalIoService hardware true (configureGlobalIoService hardware n g))).
  { intros n g0. unfold getGlobalIoService, configureGlobalIoService, serviceRuns. destruct (ioService g0) as [[m []]|]; cbn; eauto. destruct (m =? _); cbn; eauto. }
  assert (Hkeep : ∀ b n g, let g' := getGlobalIoService hardware b (configureGlobalIoService hardware n g) in
    sockets g' = sockets g ∧ timers g' = timers g ∧ logger g' = logger g ∧ monitor g' = monitor g).
  { intros b n g0. unfold getGlobalIoService, configureGlobalIoService. destruct (ioService g0) as [[m []]|]; cbn; try done. by destruct (m =? _). }
  intros Hs E. destruct next, o; cbn [startStep] in E; try discriminate E; cbn [stageOk] in Hs.
  - injection E as <- <-. cbn [stageOk handler app demands]. split_and!; [done | | done | done]. destruct Hs as [H1 H2 H3 H4 H5]. split; cbn; try (intros X; exfalso; apply X; decide_closed); intros _; [apply H1 | apply H2 | apply H3 | apply H4]; apply not_elem_of_nil.
  - destruct code; try discriminate E; by injection E as <- <-.
  - injection E as <- <-. cbn [stageOk handler app demands]. split_and!; [done | | done | done]. split; try (intros X; exfalso; apply X; decide_closed). intros _. apply Hs, not_elem_of_nil.
  - injection E as <- <-. cbn [stageOk handler app demands]. destruct (Hkeep true requested g) as (E1 & _). split_and!; [by rewrite E1; apply Hs | apply Hrun | done | done].
  - destruct Hs as [Hs Hu]. destruct (Hkeep false requested g) as (E1 & E2 & E3 & E4).
    assert (Hdown : undone [StopService; CleanSockets] touched (getGlobalIoService hardware false (configureGlobalIoService hardware requested g))).
    { destruct Hu as [H1 H2 H3 H4 H5]. split; rewrite ?E1, ?E2, ?E3, ?E4; try (intros X; exfalso; apply X; decide_closed); intros _; [apply H1 | apply H2 | apply H3]; decide_closed. }
    destruct (ioService g) as [[n []]|]; try discriminate E; injection E as <- <-; cbn [stageOk demands]; by split_and!.
  - injection E as <- <-. cbn [stageOk handler app demands]. split_and!; [done | by apply undone_all | done | done].
  - injection E as <- <-. cbn [stageOk handler app demands]. by destruct Hs.
  - injection E as <- <-. cbn [stageOk handler app demands]. split_and!; [done | by apply undone_all | done | done].
  - injection E as <- <-. cbn [stageOk handler app demands]. by destruct Hs as (? & ? & ?).
  - injection E as <- <-. cbn [stageOk handler app demands]. split_and!; [done | by apply undone_all | done | done].
  - injection E as <- <-. cbn [stageOk handler app demands]. destruct Hs as (H1 & [n H2] & H3 & H4). rewrite H2. split_and!; [|done|done]. by split.
  - injection E as <- <-. cbn [stageOk handler app demands]. split_and!; [done | by apply undone_all | done | done].
Qed.

(** A user who asks for the event loop or the timers disturbs nothing that runs. *)
Lemma used_up g g' n log : sockets g' = sockets g -> logger g' = logger g -> monitor g' = monitor g -> (timers g = true -> timers g' = true) ->
  (∀ n, ioService g = Some (n, true) -> ioService g' = Some (n, true)) -> allUp g n log -> allUp g' n log.
Proof. intros E1 E2 E3 E4 E5 []. split; [congruence | by apply E5 | by apply E4 | congruence | congruence]. Qed.

Lemma used_stage touched g g' c : sockets g' = sockets g -> logger g' = logger g -> monitor g' = monitor g -> (timers g = true -> timers g' = true) ->
  (∀ n, ioService g = Some (n, true) -> ioService g' = Some (n, true)) -> stageOk touched g c -> stageOk true g' c.
Proof.
  intros E1 E2 E3 E4 E5 Hs. assert (Hu : ∀ todo, undone todo touched g -> undone todo true g').
  { intros todo [H1 H2 _ _ H3]. split; rewrite ?E1, ?E2, ?E3; done. }
  assert (Hr : serviceRuns g -> serviceRuns g') by (intros [n H]; exists n; by apply E5).
  pose proof (fun n log => used_up g g' n log E1 E2 E3 E4 E5) as Hup.
  destruct c as [|r [ | | | | ]|todo result|[] n|todo]; cbn in *; rewrite ?E1, ?E2, ?E3; intuition.
Qed.

Lemma use_service starts g : let g' := getGlobalIoService hardware starts g in
  sockets g' = sockets g ∧ logger g' = logger g ∧ monitor g' = monitor g ∧ (timers g = true -> timers g' = true) ∧
  ∀ n, ioService g = Some (n, true) -> ioService g' = Some (n, true).
Proof. unfold getGlobalIoService. destruct (ioService g) as [[m []]|] eqn:E; cbn; split_and!; rewrite ?E; try done; by intros n [=]. Qed.

Lemma used_inv s h g l : libInv s h -> (match l with UseService _ | UseTimers => true | _ => false end) = true ->
  sockets g = sockets (globals s) -> logger g = logger (globals s) -> monitor g = monitor (globals s) -> (timers (globals s) = true -> timers g = true) ->
  (∀ n, ioService (globals s) = Some (n, true) -> ioService g = Some (n, true)) -> libInv (setGlobals g s) (record s l None h).
Proof.
  intros H Hl E1 E2 E3 E4 E5. assert (Hr : record s l None h = mkHistory (successes h) (releases h) true (logStopped h)) by (unfold record; rewrite Hl, orb_true_r; destruct l; try discriminate Hl; f_equal; lia).
  rewrite Hr. pose proof (fun c => used_stage (touched h) (globals s) g c E1 E2 E3 E4 E5) as Hst.
  split; cbn [libraryState initializeRefCount initializedThreadCount globals setGlobals touched successes releases logStopped]; try keeps H.
  - intros t. apply Hst, (i_stage _ _ H).
  - intros X. exact (used_up _ _ _ _ E1 E2 E3 E4 E5 (i_up _ _ H X)).
  - intros X. exact (Hst (Starting 0 InitSockets) (i_down _ _ H X)).
Qed.

(** A section under the mutex between two settled states. *)
Lemma stays_settled s h g ref n h' : libInv s h -> libraryState s = Initialized -> 1 <= ref -> allUp g n (negb (logStopped h')) -> ref = successes h' - releases h' -> touched h' = touched h ->
  libInv (setGlobals g (setState Initialized ref n s)) h'.
Proof.
  intros H Hs Hr Hg Hh Ht. assert (Hi : ∀ t, controlOf s t = Idle).
  { intros t. destruct (controlOf s t) eqn:E; [done | pose proof (i_match _ _ H t ltac:(by rewrite E)) as X; rewrite E in X; cbn in X; congruence ..]. }
  split; cbn [libraryState initializeRefCount initializedThreadCount globals setGlobals setState isInitialized]; try done.
  - intros t t' X. by destruct (X (Hi t)).
  - intros t X. by destruct (X (Hi t)).
  - intros t. change (controlOf (setGlobals g (setState Initialized ref n s)) t) with (controlOf s t). by rewrite Hi.
Qed.

(** A transition begins. *)
Lemma sets_out s h t c st n h' : libInv s h -> settled s = true -> c ≠ Idle -> st = demands c -> stageOk (touched h') (globals s) c ->
  0 = successes h' - releases h' -> libInv (setControl t c (setState st 0 n s)) h'.
Proof.
  intros H Hs Hc Hst Hg Hh. assert (Hi : ∀ t, controlOf s t = Idle).
  { intros t1. destruct (controlOf s t1) eqn:E; [done | pose proof (i_match _ _ H t1 ltac:(by rewrite E)) as X; rewrite E in X; unfold settled in Hs; rewrite X in Hs; done ..]. }
  split; cbn [libraryState initializeRefCount initializedThreadCount globals setControl setState]; try done.
  - intros t1 t2. rewrite !controlOf_set. change (controlOf (setState st 0 n s)) with (controlOf s). rewrite !Hi. by destruct (decide (t1 = t)) as [->|]; destruct (decide (t2 = t)) as [->|].
  - intros t1. rewrite controlOf_set. change (controlOf (setState st 0 n s)) with (controlOf s). rewrite Hi. by destruct (decide (t1 = t)).
  - intros _. exists t. rewrite controlOf_set. by destruct (decide (t = t)).
  - intros t1. rewrite controlOf_set. change (controlOf (setState st 0 n s)) with (controlOf s). rewrite Hi. by destruct (decide (t1 = t)).
  - unfold isInitialized. cbn. subst st. by destruct c.
  - subst st. by destruct c.
  - subst st. by destruct c.
Qed.

(** A transition ends. *)
Lemma arrives s h t st ref n h' : libInv s h -> controlOf s t ≠ Idle ->
  (st = Initialized ∧ 1 <= ref ∧ allUp (globals s) n (negb (logStopped h')) ∨ st = Uninitialized ∧ ref = 0 ∧ undone [] (touched h) (globals s)) ->
  ref = successes h' - releases h' -> touched h' = touched h -> libInv (setControl t Idle (setState st ref n s)) h'.
Proof.
  intros H Ht Hst Hh Hto. assert (Hi : ∀ t1, controlOf (setControl t Idle (setState st ref n s)) t1 = Idle).
  { intros t1. rewrite controlOf_set. destruct (decide (t1 = t)); [done|]. change (controlOf (setState st ref n s)) with (controlOf s). by eapply others_idle. }
  split; cbn [libraryState initializeRefCount initializedThreadCount globals setControl setState].
  - intros t1 t2 X. by destruct (X (Hi t1)).
  - intros t1 X. by destruct (X (Hi t1)).
  - unfold settled. cbn. by destruct Hst as [(-> & _)|(-> & _)].
  - intros t1. by rewrite Hi.
  - done.
  - unfold isInitialized. cbn. destruct Hst as [(-> & ? & _)|(-> & ? & _)]; done.
  - intros ->. destruct Hst as [(_ & _ & ?)|(? & _)]; done.
  - intros ->. rewrite Hto. destruct Hst as [(? & _)|(_ & _ & ?)]; done.
Qed.

Lemma same_history s h h' : libInv s h -> successes h' - releases h' = successes h - releases h -> touched h' = touched h ->
  (libraryState s = Initialized -> logStopped h' = logStopped h) -> libInv s h'.
Proof.
  intros H E1 E2 E3. split; rewrite ?E1, ?E2; try keeps H. intros X. rewrite (E3 X). by apply (i_up _ _ H).
Qed.

Lemma settled_state s : libraryState s = Initialized -> setGlobals (setLogger false (globals s)) s =
  setGlobals (setLogger false (globals s)) (setState Initialized (initializeRefCount s) (initializedThreadCount s) s).
Proof. intros E. unfold setGlobals, setState. cbn. by rewrite E. Qed.

Lemma initialize_inv s h t threadCount c o s' result : libInv s h -> execute hardware s (CallInitialize t threadCount c o) = Some (s', result) ->
  libInv s' (record s (CallInitialize t threadCount c o) result h).
Proof.
  intros H E. pose proof (i_ref _ _ H) as Href. pose proof (i_count _ _ H) as Hcount. cbn [execute] in E.
  destruct (controlOf s t) eqn:Et; try discriminate E. destruct (settled s) eqn:Es; [|discriminate E]. cbn [negb] in E. cbv zeta in E.
  unfold isInitialized in Hcount. destruct (libraryState s) eqn:El; [| by unfold settled in Es; rewrite El in Es | | by unfold settled in Es; rewrite El in Es].
  - injection E as <- <-. rewrite Hcount. apply (sets_out s h); try done; cbn; [|lia]. rewrite orb_false_r. exact (i_down _ _ H El).
  - destruct (negb _ && negb _); [injection E as <- <-; apply (same_history s h _ H); cbn; [lia | apply orb_false_r | by destruct o]|].
    destruct (i_up _ _ H El) as [U1 U2 U3 U4 U5].
    destruct o; injection E as <- <-; [|apply (same_history s h _ H); cbn; [lia | apply orb_false_r | done] ..|].
    + apply (stays_settled s h); try done; cbn; [lia | lia | apply orb_false_r].
    + rewrite (settled_state s El). apply (stays_settled s h); try done; cbn; [lia | apply orb_false_r].
Qed.

Lemma lib_cleanup_inv s h t s' result : libInv s h -> execute hardware s (CallCleanup t) = Some (s', result) -> libInv s' (record s (CallCleanup t) result h).
Proof.
  intros H E. pose proof (i_ref _ _ H) as Href. pose proof (i_count _ _ H) as Hcount. cbn [execute] in E.
  destruct (controlOf s t) eqn:Et; try discriminate E. destruct (settled s) eqn:Es; [|discriminate E]. cbn [negb] in E. cbv zeta in E.
  unfold isInitialized in Hcount. destruct (libraryState s) eqn:El; [| by unfold settled in Es; rewrite El in Es | | by unfold settled in Es; rewrite El in Es].
  - injection E as <- <-. apply (same_history s h _ H); cbn; [unfold isInitialized; rewrite El; cbn; lia | apply orb_false_r | done].
  - destruct (Z.eqb_spec (initializeRefCount s) 0) as [|Hn]; [lia|].
    assert (Hrec : record s (CallCleanup t) None h = mkHistory (successes h) (releases h + 1) (touched h) (logStopped h)).
    { unfold record, isInitialized. rewrite El, (proj2 (Z.eqb_neq _ _) Hn), orb_false_r. cbn. f_equal; lia. }
    destruct (Z.eqb_spec (initializeRefCount s - 1) 0) as [He|He]; cbn [negb] in E; injection E as <- <-; rewrite Hrec.
    + rewrite He. apply (sets_out s h); try done; cbn [successes releases]; [|lia]. apply undone_all. intros []; decide_closed.
    + apply (stays_settled s h (globals s) (initializeRefCount s - 1) (initializedThreadCount s)); try done; cbn [successes releases]; [lia | by apply H | lia].
Qed.

Lemma lib_execute_inv s h l s' result : libInv s h -> execute hardware s l = Some (s', result) -> libInv s' (record s l result h).
Proof.
  intros H E. pose proof (i_ref _ _ H) as Href. pose proof (i_count _ _ H) as Hcount.
  destruct l; [by apply initialize_inv | | | | by apply lib_cleanup_inv | ..]; cbn [execute] in E.
  - destruct (controlOf s t) as [|requested next| | |] eqn:Et; try discriminate E. destruct (startStep hardware requested next o (globals s)) as [[g c]|] eqn:Eg; [|discriminate E].
    cbn in E. injection E as <- <-. destruct (start_stage requested next o (touched h) (globals s) g c) as (S1 & S2 & S3); [rewrite <- Et; apply H | done|].
    apply (same_history _ h); [|cbn; lia | apply orb_false_r | done]. apply goes_on; rewrite ?Et; done.
  - destruct (controlOf s t) as [| |[|u todo] code| |] eqn:Et; try discriminate E; injection E as <- <-; (apply (same_history _ h); [|cbn; lia | apply orb_false_r | done]);
      pose proof (i_stage _ _ H t) as Hs; rewrite Et in Hs; destruct Hs as [Hs1 Hs2].
    + apply (goes_on s h t (Publishing code 0) (globals s)); rewrite ?Et; try done. by destruct code.
    + apply goes_on; rewrite ?Et; try done. split; [done|]. by apply undo_undone.
  - destruct (controlOf s t) as [| | |code n|] eqn:Et; try discriminate E. cbv zeta in E. injection E as <- <-. pose proof (i_stage _ _ H t) as Hs. rewrite Et in Hs.
    pose proof (i_match _ _ H t ltac:(by rewrite Et)) as Hm. rewrite Et in Hm. unfold isInitialized in Hcount. rewrite Hm in Hcount. cbn in Hcount.
    destruct code; (apply (arrives s h); [done | by rewrite Et | | cbn; lia | apply orb_false_r]); first [left; done | right; done].
  - destruct (controlOf s t) as [| | | |[|u todo]] eqn:Et; try discriminate E. injection E as <- <-. apply (same_history _ h); [|cbn; lia | apply orb_false_r | done].
    pose proof (i_stage _ _ H t) as Hs. rewrite Et in Hs. apply goes_on; rewrite ?Et; try done. by apply undo_undone.
  - destruct (controlOf s t) as [| | | |[|u todo]] eqn:Et; try discriminate E. injection E as <- <-. pose proof (i_stage _ _ H t) as Hs. rewrite Et in Hs.
    pose proof (i_match _ _ H t ltac:(by rewrite Et)) as Hm. rewrite Et in Hm. unfold isInitialized in Hcount. rewrite Hm in Hcount. cbn in Hcount.
    apply (arrives s h); [done | by rewrite Et | | cbn; lia | apply orb_false_r]. right. by split_and!.
  - injection E as <- <-. destruct (use_service starts (globals s)) as (E1 & E2 & E3 & E4 & E5). by apply used_inv.
  - injection E as <- <-. by apply used_inv.
Qed.

Lemma lib_reachable_inv s h : reachable hardware s h -> libInv s h.
Proof.
  induction 1 as [|s h l s' result _ IH E]; [|by eapply lib_execute_inv]. split; cbn; done.
Qed.
End Proofs.

(** ** Values of a valid configuration *)

(** A valid level is understood by the logger, whatever its fallback. *)
Lemma level_understood v fallback fallback' : validateOption LogLevel v = true -> Logger.logLevelFromString v fallback = Logger.logLevelFromString v fallback'.
Proof.
  intros Hv. assert (Hn : ∀ w, toUpperCopy (trimCopy v) = w -> Forall (fun c => isalnum c = true) w -> Logger.normalizeLogLevel v = w).
  { intros w Hw Ha. destruct (trimCopy_spec v) as (p & q & Hs & Hp & Hq & _). unfold Logger.normalizeLogLevel.
    assert (Hb : ∀ l, blank l -> filter (fun c => isalnum c = true) l = []).
    { intros l Hl. apply filter_none. eapply Forall_impl; [exact Hl|]. intros c. cbn. by byte_cases c. }
    rewrite Hs, !filter_app, (Hb p Hp), (Hb q Hq), app_nil_r. cbn [app]. rewrite <- Hw. unfold toUpperCopy. f_equal.
    apply filter_all. rewrite <- Hw in Ha. unfold toUpperCopy in Ha. rewrite Forall_fmap in Ha. eapply Forall_impl; [exact Ha|]. intros c. cbn. by byte_cases c. }
  unfold Logger.logLevelFromString. unfold validateOption in Hv. cbv zeta in Hv.
  repeat (apply orb_true_iff in Hv as [Hv|Hv]); apply bool_decide_eq_true in Hv; rewrite (Hn _ Hv) by decide_closed; reflexivity.
Qed.

(** The limits of a valid configuration reach the components that read it: an event loop
    started without an explicit count has the configured number of threads, at most 256,
    and never more than 1024; the connection manager gets positive thresholds and pool sizes
    within the documented bounds and timeouts of at most an hour; the logger understands
    the level.  No default of a reader is ever used. *)
Theorem configured_limits strict c hardware :
  Configuration.reachable strict c -> validate c = true -> 0 <= hardware ->
  let m := managerSettings c in
  1 <= resolveRequestedThreadCount hardware c 0 <= 256 ∧ resolveRequestedThreadCount hardware c 0 = getInt c ThreadPoolSize 0 ∧
  (∀ n, 0 <= n -> 1 <= resolveRequestedThreadCount hardware c n <= 1024 ∧
     IoService.normalizeThreadCount hardware (resolveRequestedThreadCount hardware c n) = resolveRequestedThreadCount hardware c n) ∧
  0 <= ConnectionManager.idleTimeout m <= 3600000 ∧ 0 <= ConnectionManager.recoveryTimeout m <= 3600000 ∧
  1 <= ConnectionManager.failureThreshold m <= 100 ∧ 1 <= ConnectionManager.halfOpenAttempts m <= 100 ∧
  1 <= ConnectionManager.optMaxConnections m <= 100000 ∧
  ∀ fallback, (runtimeConfiguration c).1.1 = Logger.logLevelFromString (getString c LogLevel []) fallback.
Proof.
  intros Hc Hv Hh m. pose proof (reachable_int strict c) as Hint.
  destruct (Hint ThreadPoolSize 1 256 Hc Hv eq_refl) as (n1 & B1 & E1). destruct (Hint ConnectionTimeout _ _ Hc Hv eq_refl) as (n2 & B2 & E2).
  destruct (Hint RecoveryTimeout _ _ Hc Hv eq_refl) as (n3 & B3 & E3). destruct (Hint FailureThreshold _ _ Hc Hv eq_refl) as (n4 & B4 & E4).
  destruct (Hint HalfOpenAttempts _ _ Hc Hv eq_refl) as (n5 & B5 & E5). destruct (Hint MaxConnections _ _ Hc Hv eq_refl) as (n6 & B6 & E6).
  assert (Hres : ∀ n, 0 <= n -> resolveRequestedThreadCount hardware c n = Z.min (if n =? 0 then n1 else n) 1024).
  { intros n Hn. unfold resolveRequestedThreadCount. rewrite E1. destruct (Z.eqb_spec n 0) as [->|H0].
    - destruct (Z.ltb_spec 0 n1); [|lia]. assert (Hz : (n1 =? 0) = false) by (apply Z.eqb_neq; lia). cbv zeta. by rewrite !Hz.
    - apply Z.eqb_neq in H0. cbv zeta. by rewrite !H0. }
  unfold m, managerSettings, ConnectionManager.idleTimeout, ConnectionManager.recoveryTimeout, ConnectionManager.failureThreshold, ConnectionManager.halfOpenAttempts.
  cbn [ConnectionManager.optConnectionTimeout ConnectionManager.optRecoveryTimeout ConnectionManager.optFailureThreshold ConnectionManager.optHalfOpenAttempts ConnectionManager.optMaxConnections].
  rewrite E2, E3, E4, E5, E6. split_and!; try lia.
  - rewrite Hres by lia. cbn. lia.
  - rewrite Hres by lia. cbn. lia.
  - rewrite Hres, E1 by lia. cbn. lia.
  - intros n Hn. rewrite Hres by done. unfold IoService.normalizeThreadCount, IoService.kMaxThreadPoolSize.
    destruct (Z.eqb_spec n 0) as [->|H0]; [destruct (Z.eqb_spec (Z.min n1 1024) 0); lia | destruct (Z.eqb_spec (Z.min n 1024) 0); lia].
  - intros fallback. apply config_reachable_ok in Hc. destruct (Hc LogLevel) as (v & E & _). unfold runtimeConfiguration, getString. rewrite E. cbn [fst default from_option id].
    apply level_understood. exact (proj1 (validate_spec _ _ Hc) Hv _ _ E).
Qed.

(** C18. The life of the library, under every interleaving of calls of [initialize] and
    [cleanup] and whatever fails: the reference count is the number of successful
    [initialize] calls less the [cleanup] calls that found the library in use; the library is
    initialized exactly while that number is positive, and then everything is up and the thread count is that of the
    running event loop, the log writer alone being down exactly when an [initialize] that
    failed has stopped it since the last that succeeded; when it is uninitialized, everything that was started is down again,
    also after a start-up that failed half way; and at most one thread at a time starts or
    stops anything. *)
Theorem library_lifecycle hardware s h :
  reachable hardware s h ->
  initializeRefCount s = successes h - releases h ∧ 0 <= initializeRefCount s ∧
  (isInitialized s = true <-> 1 <= successes h - releases h) ∧
  (isInitialized s = true -> allUp (globals s) (initializedThreadCount s) (negb (logStopped h))) ∧
  (libraryState s = Uninitialized -> sockets (globals s) = false ∧ logger (globals s) = false ∧ monitor (globals s) = false ∧
     (touched h = false -> ioService (globals s) = None ∧ timers (globals s) = false)) ∧
  (∀ t t', controlOf s t ≠ Idle -> controlOf s t' ≠ Idle -> t = t') ∧
  (settled s = true -> ∀ t, controlOf s t = Idle).
Proof.
  intros H. apply lib_reachable_inv in H. pose proof (i_ref _ _ H) as Hr. pose proof (i_count _ _ H) as Hc. split_and!.
  - done.
  - destruct (isInitialized s); lia.
  - destruct (isInitialized s); split; intros; try done; lia.
  - intros Hi. apply (i_up _ _ H). unfold isInitialized in Hi. by destruct (libraryState s).
  - intros Hu. destruct (i_down _ _ H Hu) as [U1 U2 U3 U4 U5]. split_and!; [by apply U5, not_elem_of_nil | by apply U2, not_elem_of_nil | by apply U1, not_elem_of_nil|].
    intros Ht. split; [by apply U4; [apply not_elem_of_nil|] | by apply U3; [apply not_elem_of_nil|]].
  - apply (i_one _ _ H).
  - intros Hs t. destruct (controlOf s t) eqn:E; [done | pose proof (i_match _ _ H t ltac:(by rewrite E)) as X; rewrite E in X; unfold settled in Hs; rewrite X in Hs; done ..].
Qed.

(** ** Concrete runs *)

(** Steps with their history, and what the calls returned. *)
Fixpoint runWith (hardware : Z) (s : Library) (h : History) (ls : list Label) : option (Library * History * list ErrorCode) :=
  match ls with
  | [] => Some (s, h, [])
  | l :: ls => '(s', result) ← execute hardware s l; '(p, codes) ← runWith hardware s' (record s l result h) ls;
               Some (p, (if result is Some code then [code] else []) ++ codes)
  end.

Lemma lib_runWith_reachable hardware ls : ∀ s h p codes, reachable hardware s h -> runWith hardware s h ls = Some (p, codes) -> reachable hardware p.1 p.2.
Proof.
  induction ls as [|l ls IH]; intros s h p codes H E; cbn in E; [by injection E as <- <-|]. destruct (execute hardware s l) as [[s' result]|] eqn:E1; [|done].
  cbn in E. destruct (runWith hardware s' (record s l result h) ls) as [[p' codes']|] eqn:E2; [|done]. cbn in E. injection E as <- <-.
  eapply IH; [by eapply reach_step | exact E2].
Qed.

Definition startUp (t : nat) (n : Z) : list Label :=
  [CallInitialize t n setDefaults Succeeds; StartStepOf t Succeeds; StartStepOf t Succeeds; StartStepOf t Succeeds; StartStepOf t Succeeds; StartStepOf t Succeeds; PublishOf t].
Definition shutDown (t : nat) : list Label := [CallCleanup t; StopStepOf t; StopStepOf t; StopStepOf t; StopStepOf t; StopStepOf t; StoppedOf t].
Definition fresh : History := mkHistory 0 0 false false.

(** Two users, of whom one has left. *)
Definition sharedUse : list Label := startUp 0 0 ++ [CallInitialize 1 0 setDefaults Succeeds; CallCleanup 0].
Definition sharedRun : Library * History := (default (initialLibrary, fresh, []) (runWith 16 initialLibrary fresh sharedUse)).1.

Lemma library_lifecycle_witness : let s := sharedRun.1 in let h := sharedRun.2 in
  initializeRefCount s = successes h - releases h ∧ 0 <= initializeRefCount s ∧
  (isInitialized s = true <-> 1 <= successes h - releases h) ∧
  (isInitialized s = true -> allUp (globals s) (initializedThreadCount s) (negb (logStopped h))) ∧
  (libraryState s = Uninitialized -> sockets (globals s) = false ∧ logger (globals s) = false ∧ monitor (globals s) = false ∧
     (touched h = false -> ioService (globals s) = None ∧ timers (globals s) = false)) ∧
  (∀ t t', controlOf s t ≠ Idle -> controlOf s t' ≠ Idle -> t = t') ∧
  (settled s = true -> ∀ t, controlOf s t = Idle).
Proof.
  refine (library_lifecycle 16 sharedRun.1 sharedRun.2 (lib_runWith_reachable 16 sharedUse initialLibrary fresh sharedRun [Success; Success] (reach_initial 16) _)).
  by vm_compute.
Defined.

Lemma configured_limits_witness : let c := sampleConfiguration in let m := managerSettings c in
  1 <= resolveRequestedThreadCount 16 c 0 <= 256 ∧ resolveRequestedThreadCount 16 c 0 = getInt c ThreadPoolSize 0 ∧
  (∀ n, 0 <= n -> 1 <= resolveRequestedThreadCount 16 c n <= 1024 ∧
     IoService.normalizeThreadCount 16 (resolveRequestedThreadCount 16 c n) = resolveRequestedThreadCount 16 c n) ∧
  0 <= ConnectionManager.idleTimeout m <= 3600000 ∧ 0 <= ConnectionManager.recoveryTimeout m <= 3600000 ∧
  1 <= ConnectionManager.failureThreshold m <= 100 ∧ 1 <= ConnectionManager.halfOpenAttempts m <= 100 ∧
  1 <= ConnectionManager.optMaxConnections m <= 100000 ∧
  ∀ fallback, (runtimeConfiguration c).1.1 = Logger.logLevelFromString (getString c LogLevel []) fallback.
Proof. refine (configured_limits true sampleConfiguration 16 sample_reachable _ _); [by vm_compute | done]. Defined.

(** After both have left everything is down; a start-up that throws in its last step leaves
    nothing behind either. *)
Example shared_end : (fun x => (libraryState x.1.1, globals x.1.1, x.2)) <$> runWith 16 initialLibrary fresh (sharedUse ++ shutDown 1) =
  Some (Uninitialized, noGlobals, [Success; Success]).
Proof. by vm_compute. Qed.

Example failed_start : (fun x => (libraryState x.1.1, globals x.1.1, x.2)) <$> runWith 16 initialLibrary fresh
    [CallInitialize 0 0 setDefaults Succeeds; StartStepOf 0 Succeeds; StartStepOf 0 Succeeds; StartStepOf 0 Succeeds; StartStepOf 0 Succeeds; StartStepOf 0 Throws;
     UndoStepOf 0; UndoStepOf 0; UndoStepOf 0; UndoStepOf 0; UndoStepOf 0; UndoStepOf 0; PublishOf 0] =
  Some (Uninitialized, noGlobals, [UnknownError]).
Proof. by vm_compute. Qed.

(** A later [initialize] that asks for another log file and fails leaves the library
    initialized without its log writer, until one succeeds. *)
Example log_stopped :
  let failed := startUp 0 0 ++ [CallInitialize 1 0 setDefaults ThrowsLogStopped] in
  let view := fun x : Library * History * list ErrorCode => (isInitialized x.1.1, logger (globals x.1.1), x.2) in
  view <$> runWith 16 initialLibrary fresh failed = Some (true, false, [Success; UnknownError]) ∧
  view <$> runWith 16 initialLibrary fresh (failed ++ [CallInitialize 1 0 setDefaults Succeeds]) = Some (true, true, [Success; UnknownError; Success]).
Proof. split; by vm_compute. Qed.

(** When the event loop was already running, [initialize] ignores the count it was asked
    for, reports success, and refuses the same call later. *)
Example requested_count_ignored : (fun x => (initializedThreadCount x.1.1, x.2)) <$> runWith 16 initialLibrary fresh
    (UseService true :: startUp 0 8 ++ [CallInitialize 1 8 setDefaults Succeeds]) = Some (16, [Success; AlreadyRunning]).
Proof. by vm_compute. Qed.

(** A strategy name with the library's prefix is valid, but the connection manager reads it as the
    default. *)
Example strategy_misread : validateOption LoadBalancingStrategy (str "FastNet-Random") = true ∧
  ConnectionManager.parseStrategy (ConnectionManager.optLoadBalancingStrategy (managerSettings (set setDefaults LoadBalancingStrategy (str "FastNet-Random")))) = ConnectionManager.RoundRobin.
Proof. by vm_compute. Qed.
