(* ===== verification/Transport.v ===== *)
(** * What the HTTP and WebSocket servers share

    The interface of the TCP server they run on, and the receive buffer both keep per
    client (the helpers [makeBufferedView] and [compact...Locked] are the same code in
    src/HttpServer.cpp and src/WebSocketServer.cpp).  An operation of the TCP server acts
    on a transport state and reports the sessions it closed, whose closed callback runs
    before the operation returns. *)

From S2P Require Import Prelude.

Abbreviation ConnectionId := Z (only parsing).

(** The sessions an operation closed, with the reason its callback gets. *)
Abbreviation closures := (list (ConnectionId * list byte)).

(** What the servers use of [TcpServer]. *)
Class TcpServer (Net : Type) := {
  sendToClient : Net -> ConnectionId -> list byte -> Net * bool * closures;
  sendFileToClient : Net -> ConnectionId -> list byte -> list byte -> Z -> Z -> Net * bool * closures;
  broadcast : Net -> list byte -> Net * closures;
  tcpDisconnect : Net -> ConnectionId -> Net * closures;
  closeClientAfterPendingWrites : Net -> ConnectionId -> Net * closures;
  tcpStop : Net -> Net * closures
}.

(** ** Receive buffers *)

(** The bytes not yet consumed. *)
Definition bufferedView (buffer : list byte) (bufferOffset : nat) : list byte :=
  if (length buffer <=? bufferOffset)%nat then [] else drop bufferOffset buffer.

(** Dropping the consumed bytes; [few] says that they are too few to move the rest. *)
Definition compactUnless (few : bool) (buffer : list byte) (bufferOffset : nat) : list byte * nat :=
  if (bufferOffset =? 0)%nat then (buffer, bufferOffset)
  else if (length buffer <=? bufferOffset)%nat then ([], 0%nat)
  else if few then (buffer, bufferOffset)
  else (drop bufferOffset buffer, 0%nat).

Definition compactBuffer (buffer : list byte) (bufferOffset : nat) : list byte * nat :=
  compactUnless ((bufferOffset <? 4096)%nat && (bufferOffset * 2 <? length buffer)%nat) buffer bufferOffset.

Lemma bufferedView_drop b o : bufferedView b o = drop o b.
Proof. unfold bufferedView. case_match eqn:E; [|done]. rewrite drop_ge by (apply Nat.leb_le, E). done. Qed.

(** Compaction keeps the view and leaves an offset within the buffer. *)
Lemma compactUnless_view few b o :
  let '(b', o') := compactUnless few b o in bufferedView b' o' = bufferedView b o ∧ (o' <= length b')%nat.
Proof.
  unfold compactUnless. destruct (Nat.eqb_spec o 0) as [->|]; [split; [done|lia]|].
  destruct (Nat.leb_spec (length b) o); [by rewrite !bufferedView_drop, drop_nil, drop_ge|].
  destruct few; [split; [done|lia]|]. rewrite !bufferedView_drop, drop_0. split; [done|lia].
Qed.

Lemma compactBuffer_view b o :
  let '(b', o') := compactBuffer b o in bufferedView b' o' = bufferedView b o ∧ (o' <= length b')%nat.
Proof. apply compactUnless_view. Qed.

(** ** A concrete transport *)

(** Open sessions and what was sent to them; closing takes effect at once. *)
Record Recorder := mkRecorder {
  openSessions : list ConnectionId;
  sent : list (ConnectionId * list byte);
  sentFiles : list (ConnectionId * list byte * Z * Z)
}.

Definition recorderClose (r : Recorder) (id : ConnectionId) : Recorder * closures :=
  if bool_decide (id ∈ openSessions r)
  then (mkRecorder (filter (.≠ id) (openSessions r)) (sent r) (sentFiles r), [(id, str "Connection closed")])
  else (r, []).

Definition recorderSend (r : Recorder) (id : ConnectionId) (data : list byte) : Recorder * bool * closures :=
  if bool_decide (id ∈ openSessions r)
  then (mkRecorder (openSessions r) (sent r ++ [(id, data)]) (sentFiles r), true, [])
  else (r, false, []).

#[export] Instance recorder_tcp : TcpServer Recorder := {
  sendToClient := recorderSend;
  sendFileToClient r id head path offset len :=
    let '(r, ok, cl) := recorderSend r id head in
    (if ok then mkRecorder (openSessions r) (sent r) (sentFiles r ++ [(id, path, offset, len)]) else r, ok, cl);
  broadcast r data :=
    (mkRecorder (openSessions r) (sent r ++ ((fun id => (id, data)) <$> openSessions r)) (sentFiles r), []);
  tcpDisconnect := recorderClose;
  closeClientAfterPendingWrites := recorderClose;
  tcpStop r :=
    (mkRecorder [] (sent r) (sentFiles r), (fun id => (id, str "Connection closed")) <$> openSessions r)
}.
