(* ===== verification/HttpServer.v ===== *)
(** * HTTP server (src/HttpServer.cpp)

    Request framing over a per-client receive buffer, pipelining, routing, static files
    with ranges and conditional requests, and the completion of responses.  The TCP
    server, the file system, the clock and the date format are parameters; a request
    handler is a function of the request and the response it completes.  The request timer
    of a client is its deadline.  A loop that can run for ever takes fuel, and running out
    of it is a value of its own. *)

From S2P Require Import Prelude CType HttpParser HttpCommon Stoull ChunkedFraming Transport.

(** ** Text helpers *)

(** A status line with a plain text body. *)
Definition textResponse (r : HttpResponse) code message text : HttpResponse :=
  setHeader (setBody (setStatusLine r code message) text) (str "Content-Type") (str "text/plain; charset=utf-8").

Definition toString (n : Z) : list byte := appendUnsignedDecimal [] n.

Definition equalsAsciiIgnoreCase (left right : list byte) : bool :=
  if negb (length left =? length right)%nat then false
  else forallb (fun p => tolower p.1 =b tolower p.2) (zip left right).

Definition hasToken (value token : list byte) : bool :=
  existsb (fun candidate => equalsAsciiIgnoreCase (trim candidate) token) (splitOn x2c value).

Definition headerValueCaseInsensitive (hs : strmap) (name : list byte) : list byte :=
  default [] (getHeader hs name).

Definition tryStringToMethod (method : list byte) : option HttpMethod :=
  if equalsAsciiIgnoreCase method (str "GET") then Some GET
  else if equalsAsciiIgnoreCase method (str "POST") then Some POST
  else if equalsAsciiIgnoreCase method (str "PUT") then Some PUT
  else if equalsAsciiIgnoreCase method (str "DELETE") then Some DELETE_METHOD
  else if equalsAsciiIgnoreCase method (str "HEAD") then Some HEAD
  else if equalsAsciiIgnoreCase method (str "OPTIONS") then Some OPTIONS_METHOD
  else if equalsAsciiIgnoreCase method (str "PATCH") then Some PATCH
  else None.

(** [while (size() > 1 && back() == '/') pop_back()], on the reversed text. *)
Fixpoint dropSlashes (r : list byte) : list byte :=
  match r with
  | c :: rest => if negb (rest =s []) && (c =b x2f) then dropSlashes rest else r
  | [] => []
  end.

Definition withLeadingSlash (path : list byte) : list byte :=
  match path with
  | c :: _ => if c =b x2f then path else x2f :: path
  | [] => path
  end.

Definition normalizePath (path : list byte) : list byte :=
  if path =s str "*" then str "*"
  else if path =s [] then str "/"
  else reverse (dropSlashes (reverse (withLeadingSlash path))).

Definition normalizeRequestPath (path : list byte) : list byte :=
  if path =s str "*" then str "*"
  else
    let path :=
      match sv_find path (str "://") 0 with
      | None => path
      | Some schemePos =>
          match sv_find_char path x2f (schemePos + 3) with
          | None => str "/"
          | Some pathPos => drop pathPos path
          end
      end in
    if path =s [] then str "/" else reverse (dropSlashes (reverse (withLeadingSlash path))).

Definition contentTypes : strmap :=
  [(str ".avif", str "image/avif"); (str ".css", str "text/css"); (str ".csv", str "text/csv");
   (str ".gif", str "image/gif"); (str ".htm", str "text/html; charset=utf-8");
   (str ".html", str "text/html; charset=utf-8"); (str ".ico", str "image/x-icon");
   (str ".jpeg", str "image/jpeg"); (str ".jpg", str "image/jpeg"); (str ".js", str "application/javascript");
   (str ".json", str "application/json"); (str ".map", str "application/json");
   (str ".mjs", str "application/javascript"); (str ".pdf", str "application/pdf"); (str ".png", str "image/png");
   (str ".svg", str "image/svg+xml"); (str ".txt", str "text/plain; charset=utf-8");
   (str ".wasm", str "application/wasm"); (str ".webp", str "image/webp"); (str ".woff", str "font/woff");
   (str ".woff2", str "font/woff2"); (str ".xml", str "application/xml")].

Definition getContentType (extension : list byte) : list byte :=
  default (str "application/octet-stream") (map_get extension contentTypes).

(** ** Chunked framing *)

(** What follows the last chunk at [offset]: the blank line. *)
Definition lastChunk (data : list byte) (offset : nat) : ChunkedSize :=
  if zlen data <? Z.of_nat offset + 2 then Incomplete
  else if negb (take 2 (drop offset data) =s CRLF) then Size 0
  else Size (Z.of_nat offset + 2).

Definition getChunkedMessageSize (data : list byte) : ChunkedSize := chunkedSize (stoull 16) lastChunk data.

(** ** Ranges and conditional requests *)

(** An offset and a length within the file, or [None]. *)
Definition parseRangeHeader (rangeHeader : list byte) (fileSize : Z) : option (Z * Z) :=
  if fileSize =? 0 then None
  else
    let rangeHeader := trim rangeHeader in
    if (length rangeHeader <? 6)%nat || negb (equalsAsciiIgnoreCase (take 6 rangeHeader) (str "bytes=")) then None
    else
      let spec := drop 6 rangeHeader in
      match find_from x2c spec with
      | Some _ => None
      | None =>
          match find_from x2d spec with
          | None => None
          | Some O =>
              suffixLength ← stoull 10 (drop 1 spec);
              if suffixLength =? 0 then None
              else let len := Z.min suffixLength fileSize in Some (u64 (fileSize - len), len)
          | Some dashPos =>
              start ← stoull 10 (take dashPos spec);
              last ← (if (S dashPos <? length spec)%nat then stoull 10 (drop (S dashPos) spec)
                      else Some (u64 (fileSize - 1)));
              if (fileSize <=? start) || (last <? start) then None
              else let last := Z.min last (u64 (fileSize - 1)) in Some (start, u64 (last - start + 1))
          end
      end.

Definition isNotModified (hs : strmap) (etag lastModified : list byte) : bool :=
  let ifNoneMatch := headerValueCaseInsensitive hs (str "If-None-Match") in
  let matches token :=
    (token =s str "*") || (token =s etag) ||
    ((zlen token =? zlen etag + 2) && (take 2 token =s str "W/") && (drop 2 token =s etag)) in
  if negb (ifNoneMatch =s []) && existsb (fun t => matches (trim t)) (splitOn x2c ifNoneMatch) then true
  else
    let ifModifiedSince := headerValueCaseInsensitive hs (str "If-Modified-Since") in
    negb (ifModifiedSince =s []) && (ifModifiedSince =s lastModified).

Definition buildStaticFileEtag (fileSize tickCount : Z) : list byte :=
  [x22] ++ toString fileSize ++ str "-" ++ appendSignedDecimal [] tickCount ++ [x22].

(** ** Error reports *)

(** What the server error callback is called with. *)
Inductive Report :=
  | HttpProtocolError (message : list byte)
  | TimeoutError (message : list byte)
  | SendFailure.

(** ** The file system *)

(** What the server uses of [std::filesystem] and file streams, at one moment; [None] is an error.
    [formatFileTime] converts with the clocks of that moment. *)
Class FileSystem := {
  Path : Type;
  pathOf : list byte -> Path;
  appendPath : Path -> list byte -> Path;
  weaklyCanonical : Path -> option Path;
  components : Path -> list (list byte);
  pathString : Path -> list byte;
  pathExtension : Path -> list byte;
  isRegularFile : Path -> bool;
  lastWriteTime : Path -> option Z;
  fileSizeOf : Path -> option Z;
  readBytes : Path -> Z -> Z -> option (list byte);
  formatFileTime : Z -> list byte
}.

Section Server.
Context {Net Address : Type} {tcp : TcpServer Net} {fs : FileSystem}.

Record HttpRequest := mkHttpRequest {
  method : HttpMethod;
  methodName : list byte;
  target : list byte;
  path : list byte;
  queryString : list byte;
  version : list byte;
  queryParams : strmap;
  requestHeaders : strmap;
  requestBody : list byte;
  requestAddress : option Address
}.

Abbreviation RequestHandler := (HttpRequest -> HttpResponse -> HttpResponse).

Record ClientState := mkClient {
  buffer : list byte;
  bufferOffset : nat;
  clientAddress : Address;
  processing : bool;
  requestTimer : option Z
}.

Record ParsedRequest := mkParsed {
  request : HttpRequest;
  consumedBytes : Z;
  keepAlive : bool;
  immediateResponse : option HttpResponse
}.

Record StaticFileCacheEntry := mkEntry {
  entrySize : Z;
  entryTime : Z;
  entryContentType : list byte;
  entryEtag : list byte;
  entryLastModified : list byte;
  entryBody : list byte
}.

Record HttpServer := mkServer {
  tcpServer_ : Net;
  clients_ : gmap ConnectionId ClientState;
  handlers_ : gmap (HttpMethod * list byte) RequestHandler;
  staticFileHandlers_ : strmap;
  defaultHandler_ : option RequestHandler;
  staticFileCache_ : gmap (list byte) StaticFileCacheEntry;
  errors : list Report
}.

Definition setNet (s : HttpServer) n :=
  mkServer n (clients_ s) (handlers_ s) (staticFileHandlers_ s) (defaultHandler_ s) (staticFileCache_ s) (errors s).
Definition setClients (s : HttpServer) m :=
  mkServer (tcpServer_ s) m (handlers_ s) (staticFileHandlers_ s) (defaultHandler_ s) (staticFileCache_ s) (errors s).
Definition setCache (s : HttpServer) m :=
  mkServer (tcpServer_ s) (clients_ s) (handlers_ s) (staticFileHandlers_ s) (defaultHandler_ s) m (errors s).

(** The settings. *)
Record Config := mkConfig {
  requestTimeout_ : Z;
  maxRequestSize_ : Z;
  staticFileCacheLimit_ : Z;
  serverErrorCallback_ : bool
}.

Definition setMaxRequestSize (cfg : Config) (bytes : Z) : Config :=
  mkConfig (requestTimeout_ cfg) (Z.max 1024 bytes) (staticFileCacheLimit_ cfg) (serverErrorCallback_ cfg).
Definition setRequestTimeout (cfg : Config) (timeoutMs : Z) : Config :=
  mkConfig timeoutMs (maxRequestSize_ cfg) (staticFileCacheLimit_ cfg) (serverErrorCallback_ cfg).
Definition setStaticFileCacheLimit (cfg : Config) (s : HttpServer) (bytes : Z) : Config * HttpServer :=
  (mkConfig (requestTimeout_ cfg) (maxRequestSize_ cfg) bytes (serverErrorCallback_ cfg), setCache s ∅).

(** ** Routes *)

Definition registerHandler (s : HttpServer) (p : list byte) (m : HttpMethod) (h : RequestHandler) : HttpServer :=
  mkServer (tcpServer_ s) (clients_ s) (<[(m, normalizePath p) := h]> (handlers_ s))
    (staticFileHandlers_ s) (defaultHandler_ s) (staticFileCache_ s) (errors s).

Definition registerStaticFileHandler (s : HttpServer) (pathPrefix directory : list byte) : HttpServer :=
  mkServer (tcpServer_ s) (clients_ s) (handlers_ s)
    (map_set (normalizePath pathPrefix) directory (staticFileHandlers_ s)) (defaultHandler_ s) ∅ (errors s).

Definition setRequestHandler (s : HttpServer) (h : RequestHandler) : HttpServer :=
  mkServer (tcpServer_ s) (clients_ s) (handlers_ s) (staticFileHandlers_ s) (Some h) (staticFileCache_ s) (errors s).

(** The static prefixes that cover a path: equal, above it at a slash, or the root. *)
Definition staticMatches (normalizedPath prefix : list byte) : bool :=
  is_prefix prefix normalizedPath &&
  ((prefix =s str "/") || (normalizedPath =s prefix) || is_prefix (prefix ++ str "/") normalizedPath).

Definition selectStatic (normalizedPath : list byte) (hs : strmap) : option (list byte * list byte) :=
  fold_left (fun best h =>
    if negb (staticMatches normalizedPath h.1) then best
    else match best with
         | Some b => if (length b.1 <? length h.1)%nat then Some h else best
         | None => Some h
         end) hs None.

Section Operations.
Context (cfg : Config) (formatHttpDate : Z -> list byte).

Definition reportError (s : HttpServer) (report : Report) : HttpServer :=
  if serverErrorCallback_ cfg
  then mkServer (tcpServer_ s) (clients_ s) (handlers_ s) (staticFileHandlers_ s) (defaultHandler_ s)
         (staticFileCache_ s) (errors s ++ [report])
  else s.

(** ** Static files *)

Definition readFileSegment (p : Path) (offset len : Z) : option (list byte) :=
  if (size_max <? len) || (2 ^ 63 - 1 <? len) then None
  else data ← readBytes p offset len; if zlen data =? len then Some data else None.

(** The body, from the cache when it is current, and the cache afterwards. *)
Definition loadStaticFile (cache : gmap (list byte) StaticFileCacheEntry) (p : Path)
    (fileSize time : Z) (contentType etag lastModified : list byte)
    : option (list byte) * gmap (list byte) StaticFileCacheEntry :=
  if fileSize <=? staticFileCacheLimit_ cfg then
    let cacheKey := pathString p in
    let read :=
      match readFileSegment p 0 fileSize with
      | None => (None, cache)
      | Some data =>
          (Some data, <[cacheKey := mkEntry fileSize time contentType etag lastModified data]> cache)
      end in
    match cache !! cacheKey with
    | Some e => if (entrySize e =? fileSize) && (entryTime e =? time) then (Some (entryBody e), cache) else read
    | None => read
    end
  else (readFileSegment p 0 fileSize, cache).

(** The file a request path names below [directory]: the index for the prefix itself. *)
Definition requestedFile (normalizedPath prefix directory : list byte) : Path :=
  let relativePath := drop (length prefix) normalizedPath in
  let relativePath := if (relativePath =s []) || (relativePath =s str "/") then str "/index.html" else relativePath in
  let relativePath := withLeadingSlash relativePath in
  appendPath (pathOf directory) (drop 1 relativePath).

(** The walk of the two component sequences reaches the end of the base. *)
Fixpoint isBelow (base p : list (list byte)) : bool :=
  match base, p with
  | [], _ => true
  | b :: base, c :: p => (b =s c) && isBelow base p
  | _ :: _, [] => false
  end.

(** The response for a regular file inside the root. *)
Definition serveFile (req : HttpRequest) (p : Path) (time fileSize : Z)
    (r : HttpResponse) (cache : gmap (list byte) StaticFileCacheEntry)
    : HttpResponse * gmap (list byte) StaticFileCacheEntry :=
  let contentType := getContentType (pathExtension p) in
  let etag := buildStaticFileEtag fileSize time in
  let lastModified := formatFileTime time in
  let r := setHeader r (str "Content-Type") contentType in
  let r := setHeader r (str "ETag") etag in
  let r := setHeader r (str "Last-Modified") lastModified in
  let r := setHeader r (str "Accept-Ranges") (str "bytes") in
  let rangeHeader := headerValueCaseInsensitive (requestHeaders req) (str "Range") in
  let hasRangeRequest := negb (rangeHeader =s []) && ((method req =s GET) || (method req =s HEAD)) in
  if negb hasRangeRequest && isNotModified (requestHeaders req) etag lastModified then
    (setHeader (setBody (setStatusLine r 304 (str "Not Modified")) []) (str "Content-Length") (str "0"), cache)
  else if hasRangeRequest then
    match parseRangeHeader rangeHeader fileSize with
    | None =>
        let r := setBody (setStatusLine r 416 (str "Range Not Satisfiable")) [] in
        let r := setHeader r (str "Content-Range") (str "bytes */" ++ toString fileSize) in
        (setHeader r (str "Content-Length") (str "0"), cache)
    | Some (offset, len) =>
        let r := setStatusLine r 206 (str "Partial Content") in
        let r := setHeader r (str "Content-Range")
          (str "bytes " ++ toString offset ++ str "-" ++ toString (u64 (offset + len - 1)) ++ str "/" ++ toString fileSize) in
        let r := setHeader r (str "Content-Length") (toString len) in
        if method req =s HEAD then (r, cache)
        else if staticFileCacheLimit_ cfg <? len then (setFile r (pathString p) offset len, cache)
        else match readFileSegment p offset len with
             | None =>
                 let r := textResponse r 500 (str "Internal Server Error") (str "Failed to read file") in
                 let r := setHeaders r (filter (fun h => h.1 ≠ str "Content-Range") (headers r)) in
                 (setHeader r (str "Content-Length") (toString (zlen (body r))), cache)
             | Some data => (setBody r data, cache)
             end
    end
  else
    let r := setStatusLine r 200 (str "OK") in
    let r := setHeader r (str "Content-Length") (toString fileSize) in
    if method req =s HEAD then (setBody r [], cache)
    else if staticFileCacheLimit_ cfg <? fileSize then (setFile r (pathString p) 0 fileSize, cache)
    else
      match loadStaticFile cache p fileSize time contentType etag lastModified with
      | (None, cache) =>
          let r := textResponse r 500 (str "Internal Server Error") (str "Failed to read file") in
          (setHeader r (str "Content-Length") (toString (zlen (body r))), cache)
      | (Some data, cache) => (setBody r data, cache)
      end.

(** [None] is [return false]: no static handler covers the path. *)
Definition handleStaticFileRequest (req : HttpRequest) (handler : option (list byte * list byte))
    (r : HttpResponse) (cache : gmap (list byte) StaticFileCacheEntry)
    : option (HttpResponse * gmap (list byte) StaticFileCacheEntry) :=
  '(prefix, directory) ← handler;
  let requestedPath := requestedFile (normalizePath (path req)) prefix directory in
  Some
    match weaklyCanonical (pathOf directory) with
    | None => (textResponse r 500 (str "Internal Server Error") (str "Static file root is invalid"), cache)
    | Some canonicalBase =>
        match weaklyCanonical requestedPath with
        | None => (textResponse r 404 (str "Not Found") (str "404 Not Found"), cache)
        | Some canonicalPath =>
            if components canonicalPath =s [] then
              (textResponse r 404 (str "Not Found") (str "404 Not Found"), cache)
            else if negb (isBelow (components canonicalBase) (components canonicalPath)) then
              (textResponse r 403 (str "Forbidden") (str "403 Forbidden"), cache)
            else if negb (isRegularFile canonicalPath) then
              (textResponse r 404 (str "Not Found") (str "404 Not Found"), cache)
            else
              match lastWriteTime canonicalPath, fileSizeOf canonicalPath with
              | Some time, Some fileSize => serveFile req canonicalPath time fileSize r cache
              | _, _ => (textResponse r 500 (str "Internal Server Error") (str "Failed to inspect file"), cache)
              end
        end
    end.

(** ** Dispatch *)

Definition dispatchRequest (s : HttpServer) (req : HttpRequest)
    : HttpResponse * gmap (list byte) StaticFileCacheEntry :=
  let r := setHeader defaultHttpResponse (str "Server") (str "FastNet-HttpServer/2.0") in
  let normalizedPath := normalizePath (path req) in
  match handlers_ s !! (method req, normalizedPath) with
  | Some exactHandler => (exactHandler req r, staticFileCache_ s)
  | None =>
      match handleStaticFileRequest req (selectStatic normalizedPath (staticFileHandlers_ s)) r (staticFileCache_ s) with
      | Some result => result
      | None =>
          match defaultHandler_ s with
          | Some defaultHandler => (defaultHandler req r, staticFileCache_ s)
          | None => (textResponse r 404 (str "Not Found") (str "404 Not Found"), staticFileCache_ s)
          end
      end
  end.

(** [headers[name] = value] unless the exact name is there. *)
Definition setMissing (r : HttpResponse) (name value : list byte) : HttpResponse :=
  match map_get name (headers r) with Some _ => r | None => setHeader r name value end.

Definition finalizeResponse (m : HttpMethod) (keepAlive : bool) (now : Z) (r : HttpResponse) : HttpResponse :=
  let r := setMissing r (str "Date") (formatHttpDate now) in
  let r := setMissing r (str "Connection") (if keepAlive then str "keep-alive" else str "close") in
  let r := setMissing r (str "Content-Type") (str "text/plain; charset=utf-8") in
  let r := if hasFileBody r then setMissing r (str "Content-Length") (toString (fileLength r)) else r in
  let len := if hasFileBody r then fileLength r else zlen (body r) in
  if m =s HEAD then
    let r := setMissing r (str "Content-Length") (toString len) in
    mkHttpResponse (statusCode r) (statusMessage r) (headers r) [] false [] 0 0
  else if hasToken (headerValueCaseInsensitive (headers r) (str "Transfer-Encoding")) (str "chunked") then r
  else setMissing r (str "Content-Length") (toString len).

(** ** Requests *)

(** [HttpRequest{}]. *)
Definition defaultHttpRequest : HttpRequest :=
  mkHttpRequest GET (str "GET") [] [] [] (str "HTTP/1.1") [] [] [] None.

Definition makeErrorResponse (statusCode : Z) (statusMessage body : list byte) : HttpResponse :=
  setHeader (setBody (setStatusLine defaultHttpResponse statusCode statusMessage) body)
    (str "Content-Type") (str "text/plain; charset=utf-8").

Definition makeErrorRequest (consumed statusCode : Z) (statusMessage body : list byte) : ParsedRequest :=
  mkParsed (mkHttpRequest GET (str "GET") [] (str "/") [] (str "HTTP/1.1") [] [] body None)
    consumed false (Some (makeErrorResponse statusCode statusMessage body)).

Definition shouldKeepAlive (view : HttpRequestView) : bool :=
  let http11 := rq_version view =s str "HTTP/1.1" in
  match getHeader (rq_headers view) (str "Connection") with
  | None => http11
  | Some connection =>
      if hasToken connection (str "close") then false
      else if hasToken connection (str "keep-alive") then true
      else http11
  end.

Definition isChunked (view : HttpRequestView) : bool :=
  match getHeader (rq_headers view) (str "Transfer-Encoding") with
  | Some transferEncoding => hasToken transferEncoding (str "chunked")
  | None => false
  end.

(** [None] is the [std::length_error] that [parseChunked] can throw. *)
Definition buildRequest (view : HttpRequestView) (m : HttpMethod) (address : Address) : option HttpRequest :=
  let make b :=
    mkHttpRequest m (rq_method view) (rq_target view) (normalizeRequestPath (rq_uri view)) (rq_queryString view)
      (rq_version view)
      (fold_left (fun params kv => map_set (urlDecode kv.1) (urlDecode kv.2) params) (rq_queryParams view) [])
      (fold_left (fun hs kv => map_set kv.1 kv.2 hs) (rq_headers view) [])
      b (Some address) in
  if isChunked view then
    match parseChunked (rq_body view) with
    | Returned true decoded => Some (make decoded)
    | Returned false _ => Some (make (rq_body view))
    | LengthError => None
    end
  else Some (make (rq_body view)).

Definition setViewBody (v : HttpRequestView) b : HttpRequestView :=
  mkRequest (rq_method v) (rq_target v) (rq_uri v) (rq_queryString v) (rq_version v) (rq_headers v) b (rq_queryParams v).

(** What [tryExtractRequest] does: wait for more bytes, return a request (after an error
    report or without one), throw, or loop without end. *)
Inductive Extracted :=
  | Waiting
  | Extract (p : ParsedRequest) (error : option (list byte))
  | Throws
  | Hangs.

Definition rejects (raw : list byte) (error statusMessage text : list byte) (code : Z) : Extracted :=
  Extract (makeErrorRequest (zlen raw) code statusMessage text) (Some error).

(** The end of [tryExtractRequest], from the request of [totalBytes] bytes on. *)
Definition completeRequest (raw : list byte) (address : Address) (headerBytes totalBytes : Z)
    (view : HttpRequestView) : Extracted :=
  if zlen raw <? totalBytes then Waiting
  else
    let view := setViewBody view (sv_substr raw (Z.to_nat headerBytes) (u64 (totalBytes - headerBytes))) in
    match tryStringToMethod (rq_method view) with
    | None =>
        Extract (makeErrorRequest totalBytes 501 (str "Not Implemented") (str "Unsupported HTTP method"))
          (Some (str "Unsupported HTTP method"))
    | Some parsedMethod =>
        match buildRequest view parsedMethod address with
        | None => Throws
        | Some req => Extract (mkParsed req totalBytes (shouldKeepAlive view) None) None
        end
    end.

Definition tryExtractRequest (raw : list byte) (address : Address) : Extracted :=
  match find_sub (CRLF ++ CRLF) raw with
  | None => Waiting
  | Some headerEnd =>
      let headerBytes := Z.of_nat headerEnd + 4 in
      match parseRequestHead (take (Z.to_nat headerBytes) raw) with
      | None => rejects raw (str "Invalid HTTP request") (str "Bad Request") (str "Invalid HTTP request") 400
      | Some view =>
          if isChunked view then
            match getChunkedMessageSize (drop (Z.to_nat headerBytes) raw) with
            | Incomplete => Waiting
            | OutOfRange => Throws
            | Running => Hangs
            | Size chunkedSize =>
                if chunkedSize =? 0
                then rejects raw (str "Malformed chunked HTTP request") (str "Bad Request")
                       (str "Malformed chunked body") 400
                else completeRequest raw address headerBytes (u64 (headerBytes + chunkedSize)) view
            end
          else
            match getHeader (rq_headers view) (str "Content-Length") with
            | None => completeRequest raw address headerBytes headerBytes view
            | Some contentLength =>
                match stoull 10 contentLength with
                | None =>
                    rejects raw (str "Invalid Content-Length") (str "Bad Request") (str "Invalid Content-Length") 400
                | Some len => completeRequest raw address headerBytes (u64 (headerBytes + len)) view
                end
            end
      end
  end.

(** ** The receive buffer and the request timer *)

Definition makeBufferedView (c : ClientState) : list byte := bufferedView (buffer c) (bufferOffset c).

Definition setBuffer (c : ClientState) b o : ClientState :=
  mkClient b o (clientAddress c) (processing c) (requestTimer c).
Definition setProcessing (c : ClientState) p : ClientState :=
  mkClient (buffer c) (bufferOffset c) (clientAddress c) p (requestTimer c).
Definition setTimer (c : ClientState) t : ClientState :=
  mkClient (buffer c) (bufferOffset c) (clientAddress c) (processing c) t.

Definition compactClientBufferLocked (c : ClientState) : ClientState :=
  let '(b, o) := compactBuffer (buffer c) (bufferOffset c) in setBuffer c b o.

Definition armRequestTimer (c : ClientState) (now : Z) : ClientState :=
  if requestTimeout_ cfg =? 0 then c else setTimer c (Some (now + requestTimeout_ cfg)).

Definition stopRequestTimer (c : ClientState) : ClientState := setTimer c None.

Definition setClient (s : HttpServer) (id : ConnectionId) (c : ClientState) : HttpServer :=
  setClients s (<[id := c]> (clients_ s)).

(** ** Clients *)

Definition handleClientConnected (s : HttpServer) (id : ConnectionId) (address : Address) : HttpServer :=
  setClient s id (mkClient [] 0 address false None).

Definition handleClientDisconnected (s : HttpServer) (id : ConnectionId) : HttpServer :=
  setClients s (delete id (clients_ s)).

(** The closed callbacks that run inside an operation of the transport. *)
Definition afterNet (s : HttpServer) (net : Net) (closed : closures) : HttpServer :=
  fold_left (fun s c => handleClientDisconnected s c.1) closed (setNet s net).

Definition netDisconnect (s : HttpServer) (id : ConnectionId) : HttpServer :=
  let '(net, closed) := tcpDisconnect (tcpServer_ s) id in afterNet s net closed.

Definition netCloseAfterWrites (s : HttpServer) (id : ConnectionId) : HttpServer :=
  let '(net, closed) := closeClientAfterPendingWrites (tcpServer_ s) id in afterNet s net closed.

Definition sendResponse (s : HttpServer) (id : ConnectionId) (r : HttpResponse) : HttpServer * bool :=
  let '(net, ok, closed) :=
    if hasFileBody r
    then sendFileToClient (tcpServer_ s) id (buildResponse (statusCode r) (statusMessage r) (headers r) [])
           (filePath r) (fileOffset r) (fileLength r)
    else sendToClient (tcpServer_ s) id (buildResponse (statusCode r) (statusMessage r) (headers r) (body r)) in
  (afterNet s net closed, ok).

(** The part of a round that runs without the lock; the flag says whether another round
    follows. *)
Definition respond (s : HttpServer) (id : ConnectionId) (p : ParsedRequest) (now : Z) : HttpServer * bool :=
  let '(r, cache) :=
    match immediateResponse p with
    | Some r => (r, staticFileCache_ s)
    | None => dispatchRequest s (request p)
    end in
  let s := setCache s cache in
  let r := finalizeResponse (method (request p)) (keepAlive p) now r in
  let '(s, ok) := sendResponse s id r in
  if negb ok then (netDisconnect (reportError s SendFailure) id, false)
  else if negb (keepAlive p) then (netCloseAfterWrites s id, false)
  else (s, true).

(** A call returns, throws, or is still running when the rounds it was given are used. *)
Inductive Outcome := Done (s : HttpServer) | Thrown (s : HttpServer) | StillRunning.

(** What a round takes from the buffer under the lock, and the client afterwards. *)
Definition takeRequest (c : ClientState) (now : Z) : Extracted * ClientState :=
  let pending := makeBufferedView c in
  if maxRequestSize_ cfg <? zlen pending then
    (Extract (mkParsed defaultHttpRequest (zlen pending) false
       (Some (makeErrorResponse 413 (str "Payload Too Large") (str "HTTP request too large")))) None,
     stopRequestTimer (setBuffer (setProcessing c false) [] 0))
  else
    match tryExtractRequest pending (clientAddress c) with
    | Extract p error =>
        let c := compactClientBufferLocked (setBuffer c (buffer c) (bufferOffset c + Z.to_nat (consumedBytes p))) in
        (Extract p error, if makeBufferedView c =s [] then stopRequestTimer c else armRequestTimer c now)
    | Waiting => (Waiting, setProcessing c false)
    | other => (other, c)
    end.

Fixpoint processBufferedRequests (fuel : nat) (s : HttpServer) (id : ConnectionId) (now : Z) : Outcome :=
  match fuel with
  | O => StillRunning
  | S fuel =>
      match clients_ s !! id with
      | None => Done s
      | Some c =>
          let '(extracted, c) := takeRequest c now in
          match extracted with
          | Waiting => Done (setClient s id c)
          | Throws => Thrown (setClient s id c)
          | Hangs => StillRunning
          | Extract p error =>
              let s := match error with Some message => reportError s (HttpProtocolError message) | None => s end in
              let '(s, again) := respond (setClient s id c) id p now in
              if again then processBufferedRequests fuel s id now else Done s
          end
      end
  end.

(** [rounds] bounds the rounds of the loop. *)
Definition handleDataReceived (rounds : nat) (s : HttpServer) (id : ConnectionId) (data : list byte) (now : Z)
    : Outcome :=
  match clients_ s !! id with
  | None => Done s
  | Some c =>
      let c := compactClientBufferLocked c in
      let c := if (bufferOffset c =? 0)%nat && (buffer c =s []) then setBuffer c data (bufferOffset c)
               else setBuffer c (buffer c ++ data) (bufferOffset c) in
      let c := armRequestTimer c now in
      if processing c then Done (setClient s id c)
      else processBufferedRequests rounds (setClient s id (setProcessing c true)) id now
  end.

(** The callback of the request timer, once its deadline has come. *)
Definition requestTimerFired (s : HttpServer) (id : ConnectionId) : HttpServer :=
  netDisconnect (reportError s (TimeoutError (str "HTTP request timed out"))) id.

(** [stop] while running. *)
Definition stop (s : HttpServer) : HttpServer :=
  let '(net, closed) := tcpStop (tcpServer_ s) in
  setCache (setClients (afterNet s net closed) ∅) ∅.

End Operations.

End Server.

(** ** Ranges *)

Lemma parseRangeHeader_within h fileSize offset len :
  0 <= fileSize <= size_max -> parseRangeHeader h fileSize = Some (offset, len) ->
  0 <= offset ∧ 0 < len ∧ offset + len <= fileSize.
Proof.
  intros Hf. unfold parseRangeHeader. destruct (Z.eqb_spec fileSize 0); [done|].
  case_match; [done|]. destruct (find_from x2c _); [done|]. destruct (find_from x2d _) as [dash|]; [|done].
  destruct dash as [|d].
  - destruct (stoull 10 _) as [suffix|] eqn:E; [|done]. cbn [mbind option_bind].
    apply stoull_range in E; [|lia]. destruct (Z.eqb_spec suffix 0); [done|].
    rewrite u64_small by lia. intros [= <- <-]. lia.
  - destruct (stoull 10 (take _ _)) as [start|] eqn:E; [|done]. cbn [mbind option_bind].
    apply stoull_range in E; [|lia].
    match goal with |- context [@mbind _ _ _ _ _ ?l] => destruct l as [lst|] end; [|done].
    cbn [mbind option_bind].
    destruct (Z.leb_spec fileSize start); [done|]. destruct (Z.ltb_spec lst start); [done|].
    cbn [orb]. rewrite (u64_small (fileSize - 1)) by lia. rewrite u64_small by lia.
    intros [= <- <-]. lia.
Qed.

(** ** Static prefixes *)

(** Among the handlers that cover the path, one with the longest prefix is chosen. *)
Definition longestMatch (normalizedPath : list byte) (hs : strmap) (h : list byte * list byte) : Prop :=
  h ∈ hs ∧ staticMatches normalizedPath h.1 = true ∧
  ∀ h', h' ∈ hs -> staticMatches normalizedPath h'.1 = true -> (length h'.1 <= length h.1)%nat.

Lemma selectStatic_spec p hs :
  match selectStatic p hs with
  | Some h => longestMatch p hs h
  | None => ∀ h, h ∈ hs -> staticMatches p h.1 = false
  end.
Proof.
  unfold selectStatic. induction hs as [|h hs IH] using rev_ind; [by intros h ?%elem_of_nil|].
  rewrite fold_left_app. cbn [fold_left].
  destruct (staticMatches p h.1) eqn:E; cbn [negb].
  - destruct (fold_left _ hs None) as [b|].
    + destruct IH as (Hin & Hm & Hmax). destruct (Nat.ltb_spec (length b.1) (length h.1)).
      * split_and!; [set_solver | done|]. intros h' [?| ->%list_elem_of_singleton]%elem_of_app Hm'; [|done].
        specialize (Hmax h'). naive_solver lia.
      * split_and!; [set_solver | done|]. intros h' [?| ->%list_elem_of_singleton]%elem_of_app Hm'; [|done].
        by apply Hmax.
    + split_and!; [set_solver | done|]. intros h' [Hin| ->%list_elem_of_singleton]%elem_of_app Hm'; [|done].
      apply IH in Hin. congruence.
  - destruct (fold_left _ hs None) as [b|].
    + destruct IH as (Hin & Hm & Hmax). split_and!; [set_solver | done|].
      intros h' [?| ->%list_elem_of_singleton]%elem_of_app Hm'; [by apply Hmax | congruence].
    + intros h' [?| ->%list_elem_of_singleton]%elem_of_app; [by apply IH | done].
Qed.

(** A prefix covers a path exactly when it is the root, the path, or a directory above it. *)
Lemma staticMatches_spec p prefix :
  is_prefix (str "/") p = true ->
  staticMatches p prefix = true <-> prefix = str "/" \/ p = prefix \/ ∃ r, p = prefix ++ str "/" ++ r.
Proof.
  intros Hp. unfold staticMatches. rewrite andb_true_iff, !orb_true_iff, !bool_decide_eq_true, is_prefix_spec.
  setoid_rewrite is_prefix_spec. split.
  - intros [_ [[?|?]|(r & ->)]]; [by left | by right; left | right; right]. exists r. by rewrite <- app_assoc.
  - intros [->|[->|(r & ->)]].
    + apply is_prefix_spec in Hp as (r & ->). split; [by exists r | by left; left].
    + split; [exists []; by rewrite app_nil_r | by left; right].
    + split; [by exists (str "/" ++ r) | right; exists r; by rewrite <- app_assoc].
Qed.

(** ** Chunked framing *)

#[export] Instance server_reader : ChunkReader (stoull 16) lastChunk.
Proof.
  split; [intros; by apply stoull_hex|]. intros v x pre tail Hv Hpre. destruct (arrived_split _ _ _ _ Hv Hpre) as (w & -> & Hw).
  unfold lastChunk. change (Z.of_nat (length pre)) with (zlen pre). rewrite zlen_app.
  destruct (Z.ltb_spec (zlen pre + zlen w) (zlen pre + 2)); [done|]. rewrite drop_app_length.
  apply arrived_split in Hw as (t & -> & _); [|change (length CRLF) with 2%nat; unfold zlen in *; lia].
  change (take 2 (CRLF ++ t)) with CRLF. by rewrite bool_decide_eq_true_2.
Qed.

(** A chunk size that carries the offset past 2^64, back to its own line. *)
Definition loopingChunks : list byte := str "1" ++ CRLF ++ str "a" ++ CRLF ++ str "ffffffffffffffec" ++ CRLF.

Lemma loopingChunks_again fuel : chunkedSizeLoop (stoull 16) lastChunk fuel loopingChunks 6 = Running.
Proof.
  induction fuel as [|fuel IH]; [done|].
  by rewrite (chunkedSizeLoop_round _ _ fuel loopingChunks 6 22 0xffffffffffffffec 6) by (vm_compute; reflexivity).
Qed.

Lemma loopingChunks_run fuel : chunkedSizeLoop (stoull 16) lastChunk fuel loopingChunks 0 = Running.
Proof.
  destruct fuel as [|fuel]; [done|].
  rewrite (chunkedSizeLoop_round _ _ fuel loopingChunks 0 1 1 6) by (vm_compute; reflexivity). apply loopingChunks_again.
Qed.

(** ** Requests as a client writes them *)

Record Written := mkWritten {
  w_method : list byte;
  w_uri : list byte;
  w_headers : strmap;
  w_body : list byte
}.

Definition wire (r : Written) : list byte :=
  HttpParser.buildRequest (w_method r) (w_uri r) (w_headers r) (w_body r).

Definition viewOf (r : Written) : HttpRequestView :=
  let '(path, query, params) := splitTarget (w_uri r) in
  mkRequest (w_method r) (w_uri r) path query (str "HTTP/1.1") (receivedHeaders (w_headers r) (w_body r)) (w_body r) params.

(** A request the server is meant to answer and keep the connection open for. *)
Record servable (r : Written) : Prop := {
  sv_sendable : sendableRequest (w_method r) (w_uri r) (w_headers r) (w_body r) [];
  sv_method : is_Some (tryStringToMethod (w_method r));
  sv_keepAlive : shouldKeepAlive (viewOf r) = true
}.

Section Extraction.
Context {Address : Type}.

Definition requestOf (address : Address) (r : Written) : HttpRequest :=
  default defaultHttpRequest (m ← tryStringToMethod (w_method r); buildRequest (viewOf r) m address).

Definition parsedOf (address : Address) (r : Written) : ParsedRequest :=
  mkParsed (requestOf address r) (zlen (wire r)) true None.

(** The layout of a written request: a head and the body. *)
Lemma wire_layout r : servable r -> ∃ head,
  wire r = head ++ w_body r ∧ (4 <= length head)%nat ∧ zlen (wire r) <= size_max ∧
  (∀ v x y, v ++ x = wire r ++ y -> (length v < length head)%nat -> find_sub (CRLF ++ CRLF) v = None) ∧
  (∀ w, find_sub (CRLF ++ CRLF) (head ++ w) = Some (length head - 4)%nat) ∧
  parseRequestHead head = Some (setViewBody (viewOf r) []).
Proof.
  intros [[Hm (Hu1 & Hu2 & Hu3) Hhs Hline Hsec Hmem] _ _]. rewrite app_nil_r in Hmem. fold (wire r) in Hsec, Hmem.
  assert (Hw : wire r = _) by (by apply buildRequest_message). rewrite Hw in Hsec, Hmem.
  assert (Hb : zlen (w_body r) <= size_max) by (etrans; [apply message_body_le | done]).
  pose proof (parseHeaders_written (w_headers r) (w_body r) Hhs Hb) as Hparse.
  destruct (written_lines _ _ Hhs Hb) as (l & lines & Hl & Hplain). rewrite Hl in Hw, Hsec, Hmem, Hparse.
  set (rl := w_method r ++ SP :: w_uri r ++ SP :: str "HTTP/1.1") in *.
  assert (Hrl : plainLine rl) by (by apply requestLine_plain).
  assert (Hsplit : ∀ b, message rl (l :: lines) b = message rl (l :: lines) [] ++ b) by (intros; by rewrite message_app).
  assert (Hend : ∀ b, find_sub (CRLF ++ CRLF) (message rl (l :: lines) b) = Some (length (message rl (l :: lines) []) - 4)%nat).
  { intros b. destruct (message_cuts rl l lines b Hrl Hplain) as (_ & -> & _). f_equal.
    pose proof (joinLines_section rl l lines []) as Hj. rewrite zlen_nil in Hj. unfold zlen in Hj. lia. }
  assert (H4 : (4 <= length (message rl (l :: lines) []))%nat).
  { pose proof (joinLines_section rl l lines []) as Hj. rewrite zlen_nil in Hj. unfold zlen in Hj. lia. }
  rewrite Hw. exists (message rl (l :: lines) []). split_and!; [apply Hsplit | done | done | | |].
  - intros v x y Hv Hlen. apply (find_sub_prefix _ v x (length (message rl (l :: lines) []) - 4)).
    + rewrite Hv, message_app. apply Hend.
    + change (length (CRLF ++ CRLF)) with 4%nat. lia.
  - intros w. rewrite <- Hsplit. apply Hend.
  - rewrite (Hsplit (w_body r)), zlen_app in Hsec, Hmem. pose proof (zlen_nonneg (w_body r)).
    pose proof (parseRequestHead_message (w_method r) (w_uri r) l lines [] (receivedHeaders (w_headers r) (w_body r))) as Hp.
    cbv zeta in Hp. fold rl in Hp. rewrite Hp; try done.
    + unfold viewOf. by destruct (splitTarget (w_uri r)) as [[? ?] ?].
    + unfold rl. rewrite zlen_app, zlen_cons, zlen_app, zlen_cons. change (zlen (str "HTTP/1.1")) with 8. lia.
    + rewrite zlen_nil. lia.
    + lia.
Qed.

Lemma buildRequest_plain r m (address : Address) :
  servable r -> buildRequest (viewOf r) m address ≠ None ∧ isChunked (viewOf r) = false ∧
  rq_headers (viewOf r) = receivedHeaders (w_headers r) (w_body r) ∧ rq_method (viewOf r) = w_method r ∧
  rq_body (viewOf r) = w_body r.
Proof.
  intros [Hs _ _]. unfold buildRequest, isChunked, viewOf. destruct (splitTarget (w_uri r)) as [[? ?] ?].
  cbn [rq_headers rq_method rq_body]. by rewrite (proj1 (received_framing _ (w_body r) (sr_headers _ _ _ _ _ Hs))).
Qed.

(** As a written request arrives, extraction waits for its last byte, then yields it. *)
Lemma tryExtractRequest_arrived v x y r (address : Address) :
  servable r -> v ++ x = wire r ++ y ->
  tryExtractRequest v address =
  if zlen v <? zlen (wire r) then Waiting else Extract (parsedOf address r) None.
Proof.
  intros Hr Hv. destruct (wire_layout r Hr) as (head & Hw & H4 & Hmax & Hnone & Hsome & Hhead).
  pose proof (proj2 (received_framing _ (w_body r) (sr_headers _ _ _ _ _ (sv_sendable r Hr)))) as Hcl.
  destruct (sv_method r Hr) as [m Hm].
  destruct (buildRequest_plain r m address Hr) as (Hbr & Hch & Hhs & Hmth & Hbody).
  pose proof (zlen_nonneg (w_body r)) as Hb0.
  assert (Hlen : zlen (wire r) = zlen head + zlen (w_body r)) by (by rewrite Hw, zlen_app).
  unfold tryExtractRequest. destruct (Nat.ltb_spec (length v) (length head)) as [Hs|Hs].
  { rewrite (Hnone v x y Hv Hs), (proj2 (Z.ltb_lt _ _)); [done|]. unfold zlen in *. lia. }
  rewrite Hw, <- app_assoc in Hv. apply arrived_split in Hv as (w & -> & Hv); [|done].
  rewrite Hsome. replace (Z.of_nat (length head - 4) + 4) with (zlen head) by (unfold zlen; lia).
  rewrite (Nat2Z.id _ : Z.to_nat (zlen head) = length head), take_app_length, Hhead.
  change (isChunked (setViewBody (viewOf r) [])) with (isChunked (viewOf r)). rewrite Hch.
  change (rq_headers (setViewBody (viewOf r) [])) with (rq_headers (viewOf r)). rewrite Hhs, Hcl.
  rewrite (stoull_decimal _ (zlen (w_body r))) by (apply parse_toChars_dec; unfold size_max in *; pose proof (zlen_nonneg head); lia).
  rewrite <- Hlen, u64_small by (split; [rewrite Hlen; pose proof (zlen_nonneg head); lia | done]).
  unfold completeRequest. destruct (Z.ltb_spec (zlen (head ++ w)) (zlen (wire r))) as [Hi|Hi]; [done|].
  rewrite Hlen, zlen_app in Hi. apply arrived_split in Hv as (t & -> & _); [|unfold zlen in *; lia].
  rewrite Hlen. replace (zlen head + zlen (w_body r) - zlen head) with (zlen (w_body r)) by lia.
  rewrite u64_small by (unfold size_max in *; pose proof (zlen_nonneg head); lia).
  assert (sv_substr (head ++ w_body r ++ t) (Z.to_nat (zlen head)) (zlen (w_body r)) = w_body r) as ->.
  { rewrite (Nat2Z.id _ : Z.to_nat (zlen head) = length head). unfold sv_substr. rewrite drop_app_length.
    rewrite Z.min_l by (rewrite !zlen_app; pose proof (zlen_nonneg t); unfold zlen in *; lia). apply take_app_exact. unfold zlen. lia. }
  assert (setViewBody (setViewBody (viewOf r) []) (w_body r) = viewOf r) as ->.
  { rewrite <- Hbody at 1. by destruct (viewOf r). }
  rewrite Hmth, Hm. unfold parsedOf, requestOf. rewrite Hm. cbn [mbind option_bind].
  destruct (buildRequest (viewOf r) m address) as [req|]; [|done]. cbn [default].
  by rewrite (sv_keepAlive r Hr), Hlen.
Qed.

End Extraction.

(** ** The connection loop on written requests *)

Lemma compact_view {Address} (c : @ClientState Address) :
  makeBufferedView (compactClientBufferLocked c) = makeBufferedView c ∧
  (bufferOffset (compactClientBufferLocked c) <= length (buffer (compactClientBufferLocked c)))%nat ∧
  clientAddress (compactClientBufferLocked c) = clientAddress c ∧
  processing (compactClientBufferLocked c) = processing c.
Proof.
  unfold compactClientBufferLocked, makeBufferedView. pose proof (compactBuffer_view (buffer c) (bufferOffset c)) as H.
  destruct (compactBuffer _ _) as [b o]. cbn. tauto.
Qed.

Lemma arm_view {Address} cfg (c : @ClientState Address) now :
  makeBufferedView (armRequestTimer cfg c now) = makeBufferedView c ∧
  clientAddress (armRequestTimer cfg c now) = clientAddress c ∧ processing (armRequestTimer cfg c now) = processing c.
Proof. unfold armRequestTimer. by destruct (_ =? 0). Qed.

Section Pipeline.
Context {Net Address : Type} {tcp : TcpServer Net} {fs : FileSystem}.
Context (cfg : Config) (formatHttpDate : Z -> list byte) (id : ConnectionId).

(** The transport takes what is sent to the client, ranges of files that are [sendable] included,
    and closes nothing meanwhile. *)
Class Live (live : Net -> Prop) (sendable : list byte -> Z -> Z -> Prop) : Prop := {
  live_send net data : live net -> ∃ net', sendToClient net id data = (net', true, []) ∧ live net';
  live_sendFile net head path offset len : live net -> sendable path offset len ->
    ∃ net', sendFileToClient net id head path offset len = (net', true, []) ∧ live net'
}.

Abbreviation Server := (@HttpServer Net Address).

(** The response to a request on a server in any state with these handlers. *)
Definition sameHandlers (s s' : Server) : Prop :=
  handlers_ s' = handlers_ s ∧ staticFileHandlers_ s' = staticFileHandlers_ s ∧ defaultHandler_ s' = defaultHandler_ s.
Definition responseOf (s : Server) (req : @HttpRequest Address) (alive : bool) (now : Z) : HttpResponse :=
  finalizeResponse formatHttpDate (method req) alive now (dispatchRequest cfg s req).1.

(** The files the server answers with can be sent. *)
Definition filesSendable (sendable : list byte -> Z -> Z -> Prop) (s : Server) : Prop :=
  ∀ s' req alive now, sameHandlers s s' -> let r := responseOf s' req alive now in
  hasFileBody r = true -> sendable (filePath r) (fileOffset r) (fileLength r).

Context {live : Net -> Prop} {sendable : list byte -> Z -> Z -> Prop} `{!Live live sendable}.
Definition serves (s : Server) : Prop := live (tcpServer_ s) ∧ filesSendable sendable s.

(** A request answered, at the time of the call that completed it. *)
Definition answer (address : Address) (s : Server) (rt : Written * Z) : Server :=
  (respond cfg formatHttpDate s id (parsedOf address rt.1) rt.2).1.

Definition answers (address : Address) (s : Server) (rts : list (Written * Z)) : Server :=
  fold_left (answer address) rts s.

Lemma serves_same (s s' : Server) : serves s -> live (tcpServer_ s') -> sameHandlers s s' -> serves s'.
Proof.
  intros [_ Hf] Hl (E1 & E2 & E3). split; [done|]. intros s'' req alive now (F1 & F2 & F3). apply Hf. unfold sameHandlers. by rewrite <- E1, <- E2, <- E3.
Qed.

Lemma respond_live (s : Server) m p now :
  serves s -> immediateResponse p = None -> keepAlive p = true ->
  respond cfg formatHttpDate (setClients s m) id p now =
    (setClients (respond cfg formatHttpDate s id p now).1 m, true) ∧
  serves (respond cfg formatHttpDate s id p now).1.
Proof.
  intros Hs Hi Hk. pose proof Hs as [Hl Hf]. unfold respond. rewrite Hi. change (dispatchRequest cfg (setClients s m) (request p)) with (dispatchRequest cfg s (request p)).
  pose proof (Hf s (request p) (keepAlive p) now ltac:(done)) as Hfile. unfold responseOf in Hfile. destruct (dispatchRequest cfg s (request p)) as [r cache].
  cbn [fst] in Hfile. rewrite Hk in *. set (r' := finalizeResponse formatHttpDate _ _ _ _) in *. unfold sendResponse. cbn [tcpServer_ setCache setClients].
  destruct (hasFileBody r') eqn:Eb.
  - destruct (live_sendFile (tcpServer_ s) (buildResponse (statusCode r') (statusMessage r') (headers r') [])
      (filePath r') (fileOffset r') (fileLength r') Hl (Hfile eq_refl)) as (net' & -> & Hl'). split; [done|]. by apply (serves_same s).
  - destruct (live_send (tcpServer_ s) (buildResponse (statusCode r') (statusMessage r') (headers r') (body r')) Hl)
      as (net' & -> & Hl'). split; [done|]. by apply (serves_same s).
Qed.

Lemma answer_live address (s : Server) m rt :
  serves s -> answer address (setClients s m) rt = setClients (answer address s rt) m ∧ serves (answer address s rt).
Proof. intros Hl. unfold answer. by destruct (respond_live s m (parsedOf address rt.1) rt.2 Hl eq_refl eq_refl) as [-> ?]. Qed.

Lemma answers_live address rts : ∀ (s : Server) m,
  serves s -> answers address (setClients s m) rts = setClients (answers address s rts) m ∧ serves (answers address s rts).
Proof.
  induction rts as [|rt rts IH]; intros s m Hl; [by split|]. cbn [answers fold_left].
  destruct (answer_live address s m rt Hl) as [-> Hl']. by apply IH.
Qed.

Lemma takeRequest_arrived (c : @ClientState Address) x y r now :
  servable r -> makeBufferedView c ++ x = wire r ++ y -> zlen (makeBufferedView c) <= maxRequestSize_ cfg ->
  if zlen (makeBufferedView c) <? zlen (wire r)
  then takeRequest cfg c now = (Waiting, setProcessing c false)
  else ∃ c', takeRequest cfg c now = (Extract (parsedOf (clientAddress c) r) None, c') ∧
         makeBufferedView c' = drop (length (wire r)) (makeBufferedView c) ∧
         clientAddress c' = clientAddress c.
Proof.
  intros Hr Hv Hmax. unfold takeRequest. rewrite (proj2 (Z.ltb_ge (maxRequestSize_ cfg) _)) by done.
  rewrite (tryExtractRequest_arrived _ _ _ _ (clientAddress c) Hr Hv).
  destruct (_ <? _); [done|]. cbn [consumedBytes parsedOf].
  set (c1 := setBuffer c _ _). destruct (compact_view c1) as (Hview & _ & Haddr & _).
  assert (Hv1 : makeBufferedView c1 = drop (length (wire r)) (makeBufferedView c)).
  { unfold makeBufferedView, c1. rewrite !bufferedView_drop. cbn. rewrite drop_drop. f_equal. unfold zlen. lia. }
  eexists. split; [done|]. case_match.
  - change (makeBufferedView (stopRequestTimer ?c)) with (makeBufferedView c).
    change (clientAddress (stopRequestTimer ?c)) with (clientAddress c). by rewrite Hview, Hv1, Haddr.
  - destruct (arm_view cfg (compactClientBufferLocked c1) now) as (-> & -> & _). by rewrite Hview, Hv1, Haddr.
Qed.

(** What is left in the buffer: nothing, or the start of the next request. *)
Definition leftover (v : list byte) (reqs : list Written) : Prop :=
  match reqs with [] => v = [] | r :: _ => zlen v < zlen (wire r) end.

Lemma process_arrived now x reqs : ∀ fuel (s : Server) c,
  serves s -> clients_ s !! id = Some c -> Forall servable reqs ->
  makeBufferedView c ++ x = concat (wire <$> reqs) -> zlen (makeBufferedView c) <= maxRequestSize_ cfg ->
  (length (makeBufferedView c) < fuel)%nat ->
  ∃ served waiting c', reqs = served ++ waiting ∧
    processBufferedRequests cfg formatHttpDate fuel s id now =
      Done (setClients (answers (clientAddress c) s ((., now) <$> served)) (<[id := c']> (clients_ s))) ∧
    makeBufferedView c' ++ x = concat (wire <$> waiting) ∧ leftover (makeBufferedView c') waiting ∧
    processing c' = false ∧ clientAddress c' = clientAddress c.
Proof.
  induction reqs as [|r reqs IH]; intros fuel s c Hl Hc Hreqs Hv Hmax Hfuel; (destruct fuel as [|fuel]; [lia|]);
    cbn [processBufferedRequests]; rewrite Hc.
  - cbn in Hv. apply app_eq_nil in Hv as [Hv ->]. exists [], [], (setProcessing c false). split; [done|].
    assert (takeRequest cfg c now = (Waiting, setProcessing c false)) as ->.
    { unfold takeRequest. rewrite (proj2 (Z.ltb_ge (maxRequestSize_ cfg) _)) by done. by rewrite Hv. }
    change (makeBufferedView (setProcessing c false)) with (makeBufferedView c). by rewrite Hv.
  - apply Forall_cons in Hreqs as [Hr Hreqs]. cbn [fmap list_fmap concat] in Hv.
    pose proof (takeRequest_arrived c x _ r now Hr Hv Hmax) as Ht.
    destruct (Z.ltb_spec (zlen (makeBufferedView c)) (zlen (wire r))) as [Hlt|Hge].
    + rewrite Ht. by exists [], (r :: reqs), (setProcessing c false).
    + destruct Ht as (c1 & -> & Hview & Haddr). unfold setClient.
      destruct (respond_live s (<[id:=c1]> (clients_ s)) (parsedOf (clientAddress c) r) now Hl eq_refl eq_refl) as [-> Hl'].
      apply arrived_split in Hv as (w & Hv & Hw); [|unfold zlen in *; lia].
      rewrite Hv, drop_app_length in Hview. rewrite Hv, zlen_app in Hmax. rewrite Hv, length_app in Hfuel.
      destruct (wire_layout r Hr) as (head & Hwire & H4 & _). rewrite Hwire, length_app in Hfuel.
      pose proof (zlen_nonneg (wire r)).
      destruct (IH fuel (setClients (answer (clientAddress c) s (r, now)) (<[id:=c1]> (clients_ s))) c1)
        as (served & waiting & c' & -> & Hrun & Hrest & Hleft & Hp & Ha); try done.
      * apply lookup_insert_eq.
      * by rewrite Hview.
      * rewrite Hview. lia.
      * rewrite Hview. lia.
      * exists (r :: served), waiting, c'. split_and!; try done; [|congruence].
        unfold answer in Hrun. cbn [fst snd] in Hrun. rewrite Hrun. rewrite Haddr.
        destruct (answers_live (clientAddress c) ((., now) <$> served)
          (respond cfg formatHttpDate s id (parsedOf (clientAddress c) r) now).1 (<[id:=c1]> (clients_ s)) Hl') as [-> _].
        cbn [clients_ setClients]. by rewrite insert_insert_eq.
Qed.

(** Calls of [handleDataReceived] for the segments of a stream, each at its time. *)
Fixpoint receiveAll (rounds : nat) (s : Server) (segments : list (list byte * Z)) : Outcome :=
  match segments with
  | [] => Done s
  | (data, now) :: segments =>
      match handleDataReceived cfg formatHttpDate rounds s id data now with
      | Done s => receiveAll rounds s segments
      | other => other
      end
  end.

Lemma received_view (c : @ClientState Address) data now :
  let c1 := compactClientBufferLocked c in
  let c2 := if (bufferOffset c1 =? 0)%nat && (buffer c1 =s []) then setBuffer c1 data (bufferOffset c1)
            else setBuffer c1 (buffer c1 ++ data) (bufferOffset c1) in
  let c3 := armRequestTimer cfg c2 now in
  makeBufferedView c3 = makeBufferedView c ++ data ∧ clientAddress c3 = clientAddress c ∧ processing c3 = processing c.
Proof.
  intros c1 c2 c3. destruct (compact_view c) as (Hv & Ho & Ha & Hp). fold c1 in Hv, Ho, Ha, Hp.
  destruct (arm_view cfg c2 now) as (H1 & H2 & H3). fold c3 in H1, H2, H3. rewrite H1, H2, H3, <- Hv, <- Ha, <- Hp.
  assert (Hb : c2 = setBuffer c1 (buffer c1 ++ data) (bufferOffset c1)).
  { unfold c2. destruct (_ && _) eqn:E; [|done]. apply andb_true_iff in E as [_ ->%bool_decide_eq_true]. done. }
  rewrite Hb. split_and!; [|done..]. unfold makeBufferedView. rewrite !bufferedView_drop. cbn.
  by rewrite drop_app_le.
Qed.

Lemma segments_arrived rounds segments : ∀ (s : Server) c reqs,
  serves s -> clients_ s !! id = Some c -> processing c = false -> Forall servable reqs ->
  makeBufferedView c ++ concat segments.*1 = concat (wire <$> reqs) -> leftover (makeBufferedView c) reqs ->
  (∀ r seg, r ∈ reqs -> seg ∈ segments -> zlen (wire r) + zlen seg.1 <= maxRequestSize_ cfg) ->
  0 <= maxRequestSize_ cfg -> (length (concat (wire <$> reqs)) < rounds)%nat ->
  ∃ times c', length times = length reqs ∧ Forall (.∈ segments.*2) times ∧
    receiveAll rounds s segments =
      Done (setClients (answers (clientAddress c) s (zip reqs times)) (<[id := c']> (clients_ s))) ∧
    makeBufferedView c' = [] ∧ processing c' = false.
Proof.
  induction segments as [|[data now] segments IH]; intros s c reqs Hl Hc Hp Hreqs Hv Hleft Hsize H0 Hrounds.
  - cbn in Hv. rewrite app_nil_r in Hv. destruct reqs as [|r reqs].
    + exists [], c. split_and!; try done. cbn. rewrite insert_id by done. by destruct s.
    + exfalso. cbn in Hleft, Hv. rewrite Hv, zlen_app in Hleft. pose proof (zlen_nonneg (concat (wire <$> reqs))). lia.
  - cbn [receiveAll]. unfold handleDataReceived. rewrite Hc. cbv zeta.
    destruct (received_view c data now) as (Hview & Haddr & Hproc). cbv zeta in Hview, Haddr, Hproc.
    set (c3 := armRequestTimer cfg _ now) in *. rewrite Hproc, Hp. set (c4 := setProcessing c3 true).
    change (makeBufferedView c3) with (makeBufferedView c4) in Hview. change (clientAddress c3) with (clientAddress c4) in Haddr.
    cbn [fmap list_fmap concat fst] in Hv. rewrite app_assoc, <- Hview in Hv.
    assert (Hmax : zlen (makeBufferedView c4) <= maxRequestSize_ cfg).
    { rewrite Hview, zlen_app. destruct reqs as [|r reqs].
      - cbn in Hv. apply app_eq_nil in Hv as [Hv _]. rewrite Hview in Hv. apply app_eq_nil in Hv as [-> ->].
        done.
      - specialize (Hsize r (data, now) ltac:(set_solver) ltac:(set_solver)). cbn in Hleft, Hsize. lia. }
    destruct (process_arrived now (concat segments.*1) reqs rounds (setClient s id c4) c4)
      as (served & waiting & c' & -> & Hrun & Hrest & Hleft' & Hp' & Ha'); try done.
    { apply lookup_insert_eq. }
    { apply (f_equal length) in Hv. rewrite length_app in Hv. lia. }
    rewrite Hrun. apply Forall_app in Hreqs as [Hr1 Hr2].
    unfold setClient. destruct (answers_live (clientAddress c4) ((., now) <$> served) s (<[id:=c4]> (clients_ s)) Hl) as [-> Hl'].
    cbn [clients_ setClients]. rewrite insert_insert_eq.
    set (t := answers (clientAddress c4) s ((., now) <$> served)) in *.
    destruct (IH (setClients t (<[id:=c']> (clients_ s))) c' waiting) as (times & c'' & Hlen & Htimes & Hall & Hend & Hpe); try done.
    { apply lookup_insert_eq. }
    { intros r seg Hr Hs. apply Hsize; set_solver. }
    { rewrite fmap_app, concat_app, length_app in Hrounds. lia. }
    exists (replicate (length served) now ++ times), c''. split_and!; try done.
    + by rewrite !length_app, length_replicate, Hlen.
    + apply Forall_app. split; [apply Forall_replicate; cbn; set_solver|].
      eapply Forall_impl; [apply Htimes|]. intros ??. apply elem_of_cons. by right.
    + change (setClients (setClients t ?m) ?m') with (setClients t m').
      rewrite Hall. destruct (answers_live (clientAddress c') (zip waiting times) t (<[id:=c']> (clients_ s)) Hl') as [-> _].
      rewrite zip_with_app by (by rewrite length_replicate). rewrite zip_with_replicate_r by done.
      unfold answers at 2. rewrite fold_left_app. fold (answers (clientAddress c) s ((., now) <$> served)).
      cbn [clients_ setClients]. rewrite insert_insert_eq. 
      change (setClients (setClients ?a ?m) ?m2) with (setClients a m2). unfold t, answers. by rewrite Ha', Haddr.
Qed.

End Pipeline.

(** ** Static files *)

(** A range header of one range, as RFC 7233 writes it, and the bytes it names of a file. *)
Inductive ByteRange := FromTo (first last : Z) | From (first : Z) | Final (count : Z).

Definition rangeText (r : ByteRange) : list byte :=
  str "bytes=" ++
  match r with
  | FromTo a b => toString a ++ str "-" ++ toString b
  | From a => toString a ++ str "-"
  | Final k => str "-" ++ toString k
  end.

Definition rangeNumbers (r : ByteRange) : list Z := match r with FromTo a b => [a; b] | From a => [a] | Final k => [k] end.

Definition namedRange (r : ByteRange) (fileSize : Z) : option (Z * Z) :=
  match r with
  | FromTo a b => if (a <? fileSize) && (a <=? b) then Some (a, Z.min b (fileSize - 1) - a + 1) else None
  | From a => if a <? fileSize then Some (a, fileSize - a) else None
  | Final k => if (0 <? k) && (0 <? fileSize) then Some (fileSize - Z.min k fileSize, Z.min k fileSize) else None
  end.

Lemma toString_digits n : 0 <= n <= size_max -> stoull 10 (toString n) = Some n ∧ toString n ≠ [] ∧ Forall (fun c => isdigit c = true) (toString n).
Proof.
  intros Hn. assert (E : toString n = toChars 10 n) by done. rewrite E.
  split_and!; [by apply stoull_decimal, parse_toChars_dec | apply toChars_nonempty|].
  eapply Forall_impl; [by apply toChars10_chars|]. intros c. by byte_cases c.
Qed.

Lemma rangeText_parts a b : Forall (fun c => isdigit c = true) a -> Forall (fun c => isdigit c = true) b ->
  let spec := a ++ str "-" ++ b in
  trim (str "bytes=" ++ spec) = str "bytes=" ++ spec ∧ find_from x2c spec = None ∧ find_from x2d spec = Some (length a) ∧
  take (length a) spec = a ∧ drop (S (length a)) spec = b ∧ (length (str "bytes=" ++ spec) <? 6)%nat = false ∧
  take 6 (str "bytes=" ++ spec) = str "bytes=" ∧ drop 6 (str "bytes=" ++ spec) = spec.
Proof.
  intros Ha Hb spec. assert (Hd : ∀ x l, Forall (fun c => isdigit c = true) l -> isdigit x = false -> x ∉ l).
  { intros x l Hl Hx Hin. rewrite Forall_forall in Hl. apply Hl in Hin. congruence. }
  split_and!; try done.
  - apply trim_id, trimmed_nospace. assert (Hs : ∀ l, Forall (fun c => isdigit c = true) l -> Forall (fun c => isspace c = false) l).
    { intros l Hl. eapply Forall_impl; [exact Hl|]. intros c. by byte_cases c. }
    unfold spec. rewrite !Forall_app. split_and!; [by repeat constructor | by apply Hs | by repeat constructor | by apply Hs].
  - apply find_from_None. unfold spec. rewrite !elem_of_app. intros [Hx|[Hx|Hx]]; [by apply (Hd x2c a) in Hx | by apply list_elem_of_singleton in Hx | by apply (Hd x2c b) in Hx].
  - apply (find_from_app x2d a b). by apply Hd.
  - by apply take_app_length.
  - unfold spec. replace (S (length a)) with (length a + 1)%nat by lia. by rewrite <- drop_drop, drop_app_length.
Qed.

(** The server reads such a header as it is meant. *)
Lemma parseRangeHeader_text r n : 0 <= n <= size_max -> Forall (fun a => 0 <= a <= size_max) (rangeNumbers r) ->
  parseRangeHeader (rangeText r) n = namedRange r n.
Proof.
  intros Hn Hr. unfold parseRangeHeader. destruct (Z.eqb_spec n 0) as [->|Hn0].
  { destruct r; cbn in *; rewrite ?Forall_cons in Hr; unfold namedRange; rewrite ?(proj2 (Z.ltb_ge _ 0)) by lia; by rewrite ?andb_false_r. }
  destruct r as [a b|a|k]; cbn [rangeNumbers] in Hr; rewrite ?Forall_cons in Hr; unfold rangeText, namedRange; cbv beta iota.
  - destruct Hr as (Ha & Hb & _). destruct (toString_digits a Ha) as (Ea & Na & Da), (toString_digits b Hb) as (Eb & Nb & Db).
    destruct (rangeText_parts (toString a) (toString b) Da Db) as (-> & H2 & H3 & H4 & H5 & -> & -> & ->).
    cbn [orb negb]. change (equalsAsciiIgnoreCase (str "bytes=") (str "bytes=")) with true. cbn [negb]. rewrite H2, H3, H4, H5.
    destruct (length (toString a)) as [|k] eqn:Ek; [by destruct (toString a)|]. rewrite Ea, Eb. cbn [mbind option_bind].
    assert ((S (S k) <? length (toString a ++ str "-" ++ toString b))%nat = true) as ->.
    { apply Nat.ltb_lt. rewrite !length_app, Ek. change (length (str "-")) with 1%nat. destruct (toString b); [done|cbn; lia]. }
    cbn [mbind option_bind]. rewrite (u64_small (n - 1)) by lia.
    destruct (Z.leb_spec n a), (Z.ltb_spec a n); try lia; cbn [orb andb]; [done|].
    destruct (Z.ltb_spec b a), (Z.leb_spec a b); try lia; [done|]. rewrite u64_small by lia. done.
  - destruct Hr as (Ha & _). destruct (toString_digits a Ha) as (Ea & Na & Da).
    destruct (rangeText_parts (toString a) [] Da (Forall_nil_2 _)) as (H1 & H2 & H3 & H4 & H5 & H6 & H7 & H8). rewrite app_nil_r in *.
    rewrite H1, H6, H7, H8. cbn [orb negb]. change (equalsAsciiIgnoreCase (str "bytes=") (str "bytes=")) with true. cbn [negb]. rewrite H2, H3, H4.
    destruct (length (toString a)) as [|k] eqn:Ek; [by destruct (toString a)|]. rewrite Ea. cbn [mbind option_bind].
    assert ((S (S k) <? length (toString a ++ str "-"))%nat = false) as ->.
    { apply Nat.ltb_ge. rewrite length_app, Ek. change (length (str "-")) with 1%nat. lia. }
    cbn [mbind option_bind]. rewrite (u64_small (n - 1)) by lia.
    destruct (Z.leb_spec n a), (Z.ltb_spec a n); try lia; cbn [orb]; [done|].
    destruct (Z.ltb_spec (n - 1) a); [lia|]. rewrite Z.min_id, u64_small by lia. do 2 f_equal. lia.
  - destruct Hr as (Hk & _). destruct (toString_digits k Hk) as (Ek & Nk & Dk).
    destruct (rangeText_parts [] (toString k) (Forall_nil_2 _) Dk) as (H1 & H2 & H3 & H4 & H5 & H6 & H7 & H8). cbn [app] in *.
    rewrite H1, H6, H7, H8. cbn [orb negb]. change (equalsAsciiIgnoreCase (str "bytes=") (str "bytes=")) with true. cbn [negb]. rewrite H2, H3.
    cbn [length] in *. rewrite H5, Ek. cbn [mbind option_bind]. rewrite (proj2 (Z.ltb_lt 0 n)) by lia. rewrite andb_true_r.
    destruct (Z.eqb_spec k 0), (Z.ltb_spec 0 k); try lia; [done|]. by rewrite u64_small by lia.
Qed.

Section Static.
Context {Address : Type} {fs : FileSystem} (cfg : Config).

Definition errorTexts : list (list byte) :=
  [[]; str "Static file root is invalid"; str "404 Not Found"; str "403 Forbidden";
   str "Failed to inspect file"; str "Failed to read file"].

(** A response without any byte of a file; success without a body only answers HEAD. *)
Definition carriesNothing (req : @HttpRequest Address) (r : HttpResponse) : Prop :=
  hasFileBody r = false ∧ body r ∈ errorTexts ∧
  (statusCode r = 200 \/ statusCode r = 206 -> method req = HEAD).

(** A response that carries [len] bytes of a file from [offset] on, by value or by name. *)
Definition carries (r : HttpResponse) (p : Path) (offset len : Z) : Prop :=
  if hasFileBody r then filePath r = pathString p ∧ fileOffset r = offset ∧ fileLength r = len
  else readFileSegment p offset len = Some (body r).

(** The whole file with 200, or a part with 206; and the part that was asked for when the
    range header of a GET is one range as RFC 7233 writes it. *)
Definition carriesFile (req : @HttpRequest Address) (r : HttpResponse) (p : Path) (fileSize : Z) : Prop :=
  ∃ offset len, 0 <= offset ∧ 0 <= len ∧ offset + len <= fileSize ∧ carries r p offset len ∧
    ((statusCode r = 200 ∧ offset = 0 ∧ len = fileSize) \/ (statusCode r = 206 ∧ 0 < len)) ∧
    ∀ range, Forall (fun a => 0 <= a <= size_max) (rangeNumbers range) ->
      headerValueCaseInsensitive (requestHeaders req) (str "Range") = rangeText range -> method req = GET ->
      statusCode r = 206 ∧ namedRange range fileSize = Some (offset, len).

Definition insideRoot (directory : list byte) (p : Path) : Prop :=
  ∃ base, weaklyCanonical (pathOf directory) = Some base ∧ components base `prefix_of` components p ∧ isRegularFile p = true.

(** What a request may be answered with. *)
Definition confined (req : @HttpRequest Address) (prefix directory : list byte) (r : HttpResponse) : Prop :=
  carriesNothing req r \/
  ∃ p n, weaklyCanonical (requestedFile (normalizePath (path req)) prefix directory) = Some p ∧
    insideRoot directory p ∧ fileSizeOf p = Some n ∧ carriesFile req r p n.

(** The entry of a file holds what the file holds. *)
Definition entryRight (p : Path) (e : StaticFileCacheEntry) : Prop :=
  lastWriteTime p = Some (entryTime e) ∧ fileSizeOf p = Some (entrySize e) ∧ readFileSegment p 0 (entrySize e) = Some (entryBody e).

(** So does every entry with the size and the write time the file has now. *)
Definition cacheTimely (cache : gmap (list byte) StaticFileCacheEntry) : Prop :=
  ∀ p e, cache !! pathString p = Some e -> lastWriteTime p = Some (entryTime e) -> fileSizeOf p = Some (entrySize e) -> entryRight p e.

(** A cache that has kept entries and got right ones. *)
Definition cacheExtends (cache cache' : gmap (list byte) StaticFileCacheEntry) : Prop :=
  ∀ p e, cache' !! pathString p = Some e -> cache !! pathString p = Some e ∨ entryRight p e.

(** Paths are told apart by their strings, and sizes are [uintmax_t]. *)
Class SaneFiles : Prop := {
  sane_paths : Inj (=) (=) pathString;
  sane_sizes p n : fileSizeOf p = Some n -> 0 <= n <= size_max
}.
Context {sane : SaneFiles}.

Lemma isBelow_prefix base p : isBelow base p = true -> base `prefix_of` p.
Proof.
  revert p. induction base as [|b base IH]; intros [|c p]; cbn; try done.
  - intros _. apply prefix_nil.
  - intros [->%bool_decide_eq_true H]%andb_true_iff. by apply prefix_cons, IH.
Qed.

Lemma cacheExtends_refl cache : cacheExtends cache cache.
Proof. by left. Qed.

Lemma loadStaticFile_spec cache p n time ct etag lm :
  cacheTimely cache -> lastWriteTime p = Some time -> fileSizeOf p = Some n ->
  let '(data, cache') := loadStaticFile cfg cache p n time ct etag lm in
  cacheExtends cache cache' ∧ data = readFileSegment p 0 n.
Proof.
  intros Hc Ht Hn. unfold loadStaticFile. pose proof (cacheExtends_refl cache) as Hrefl.
  assert (Hread : let '(data, cache') := match readFileSegment p 0 n with
      | None => (None, cache)
      | Some data => (Some data, <[pathString p := mkEntry n time ct etag lm data]> cache)
      end in cacheExtends cache cache' ∧ data = readFileSegment p 0 n).
  { destruct (readFileSegment p 0 n) as [data|] eqn:E; [|done]. split; [|done].
    intros p' e. rewrite lookup_insert_Some. intros [[Hp <-]|[_ He]]; [|by left].
    apply sane_paths in Hp as <-. by right. }
  destruct (_ <=? _); [|done]. destruct (cache !! pathString p) as [e|] eqn:E; [|exact Hread].
  destruct (_ && _) eqn:Eb; [|exact Hread].
  apply andb_true_iff in Eb as [<-%Z.eqb_eq <-%Z.eqb_eq]. split; [done|]. symmetry. by apply (Hc p e).
Qed.

Lemma serveFile_spec (req : @HttpRequest Address) p time n r cache r' cache' :
  cacheTimely cache -> lastWriteTime p = Some time -> fileSizeOf p = Some n -> hasFileBody r = false -> body r = [] ->
  serveFile cfg req p time n r cache = (r', cache') ->
  cacheExtends cache cache' ∧ (carriesNothing req r' \/ carriesFile req r' p n).
Proof.
  intros Hc Htime Hsize Hf Hb. unfold serveFile. cbv zeta. pose proof (sane_sizes p n Hsize) as Hn. pose proof (cacheExtends_refl cache) as Hrefl.
  assert (Hnil : [] ∈ errorTexts) by decide_closed.
  assert (Hfail : str "Failed to read file" ∈ errorTexts) by decide_closed.
  destruct (negb _ && isNotModified _ _ _).
  { intros [= <- <-]. split; [done|]. left. split_and!; [done | done | by intros [?|?]]. }
  destruct (_ && _) eqn:Erange.
  - destruct (parseRangeHeader _ n) as [[o l]|] eqn:Er.
    + destruct (parseRangeHeader_within _ _ _ _ Hn Er) as (Ho & Hl & Hol).
      assert (Hasked : ∀ range, Forall (fun a => 0 <= a <= size_max) (rangeNumbers range) ->
        headerValueCaseInsensitive (requestHeaders req) (str "Range") = rangeText range -> namedRange range n = Some (o, l)).
      { intros range Hrange Hh. rewrite Hh, parseRangeHeader_text in Er by done. exact Er. }
      destruct (bool_decide_reflect (method req = HEAD)).
      { intros [= <- <-]. split; [done|]. left. split_and!; [done | cbn; by rewrite Hb | done]. }
      destruct (_ <? l).
      { intros [= <- <-]. split; [done|]. right. exists o, l. split_and!; try lia; [by split_and! | by right | auto]. }
      destruct (readFileSegment p o l) as [data|] eqn:Ed; intros [= <- <-]; (split; [done|]).
      * right. exists o, l. split_and!; try lia; [by unfold carries; cbn; rewrite Hf | by right | auto].
      * left. split_and!; [done | done | by intros [?|?]].
    + intros [= <- <-]. split; [done|]. left. split_and!; [done | done | by intros [?|?]].
  - assert (Hnone : ∀ range, headerValueCaseInsensitive (requestHeaders req) (str "Range") = rangeText range -> method req = GET -> False).
    { intros range Hh Hg. rewrite Hh, Hg in Erange. by destruct range. }
    destruct (bool_decide_reflect (method req = HEAD)).
    { intros [= <- <-]. split; [done|]. left. by split_and!. }
    destruct (_ <? n).
    { intros [= <- <-]. split; [done|]. right. exists 0, n. split_and!; try lia; [by split_and! | by left | intros; by edestruct Hnone]. }
    match goal with |- context [loadStaticFile cfg cache p n time ?a ?b ?c] =>
      pose proof (loadStaticFile_spec cache p n time a b c Hc Htime Hsize) as Hload; destruct (loadStaticFile cfg cache p n time a b c) as [[data|] cache1] end;
      destruct Hload as [Hc1 Hread]; intros [= <- <-]; (split; [done|]).
    + right. exists 0, n. split_and!; try lia; [by unfold carries; cbn; rewrite Hf | by left | intros; by edestruct Hnone].
    + left. split_and!; [done | done | by intros [?|?]].
Qed.

Lemma handleStaticFileRequest_spec (req : @HttpRequest Address) prefix directory r cache r' cache' :
  cacheTimely cache -> hasFileBody r = false -> body r = [] ->
  handleStaticFileRequest cfg req (Some (prefix, directory)) r cache = Some (r', cache') ->
  cacheExtends cache cache' ∧ confined req prefix directory r'.
Proof.
  intros Hc Hf Hb. unfold handleStaticFileRequest. cbn [mbind option_bind].
  assert (Htext : ∀ code msg text, text ∈ errorTexts -> code ≠ 200 -> code ≠ 206 ->
    Some (textResponse r code msg text, cache) = Some (r', cache') -> cacheExtends cache cache' ∧ confined req prefix directory r').
  { intros code msg text Ht H1 H2 [= <- <-]. split; [by left|]. left. split_and!; [done | done | cbn; lia]. }
  assert (Hin : Forall (.∈ errorTexts) errorTexts) by (by apply Forall_forall).
  unfold errorTexts in Hin at 2. rewrite !Forall_cons in Hin. destruct Hin as (_ & Hi1 & Hi2 & Hi3 & Hi4 & _).
  destruct (weaklyCanonical (pathOf directory)) as [base|] eqn:Ebase; [|intros H; by apply Htext in H].
  destruct (weaklyCanonical (requestedFile _ _ _)) as [p|] eqn:Ep; [|intros H; by apply Htext in H].
  destruct (components p =s []); [intros H; by apply Htext in H|].
  destruct (isBelow (components base) (components p)) eqn:Ebelow; cbn [negb]; [|intros H; by apply Htext in H].
  destruct (isRegularFile p) eqn:Ereg; cbn [negb]; [|intros H; by apply Htext in H].
  destruct (lastWriteTime p) as [time|] eqn:Et; [|intros H; by apply Htext in H].
  destruct (fileSizeOf p) as [n|] eqn:En; [|intros H; by apply Htext in H].
  intros [= H]. destruct (serveFile_spec req p time n r cache r' cache' Hc Et En Hf Hb H) as [Hc' [Hx|Hx]];
    (split; [done|]); [by left | right].
  exists p, n. split_and!; try done. exists base. split_and!; [done | by apply isBelow_prefix | done].
Qed.

End Static.

(** ** Files that change *)

Section Disks.
Context {Address : Type} {fs : FileSystem} (cfg : Config).

(** What may differ from one moment to the next: links, files, sizes, write times, contents, and the
    clocks [formatFileTime] reads. *)
Record Disk := mkDisk {
  d_canonical : Path -> option Path;
  d_regular : Path -> bool;
  d_time : Path -> option Z;
  d_size : Path -> option Z;
  d_read : Path -> Z -> Z -> option (list byte);
  d_format : Z -> list byte
}.

Definition onDisk (d : Disk) : FileSystem :=
  Build_FileSystem Path pathOf appendPath (d_canonical d) components pathString pathExtension
    (d_regular d) (d_time d) (d_size d) (d_read d) (d_format d).

(** A request for the files below a directory, and the disk while it is handled. *)
Record Visit := mkVisit { v_disk : Disk; v_prefix : list byte; v_directory : list byte; v_request : @HttpRequest Address }.

(** The requests one after the other; [r] is what the response starts from. *)
Fixpoint staticAnswers (r : HttpResponse) (cache : gmap (list byte) StaticFileCacheEntry) (l : list Visit) : list HttpResponse :=
  match l with
  | [] => []
  | v :: l =>
      match handleStaticFileRequest (fs := onDisk (v_disk v)) cfg (v_request v) (Some (v_prefix v, v_directory v)) r cache with
      | Some (r', cache') => r' :: staticAnswers r cache' l
      | None => r :: staticAnswers r cache l
      end
  end.

(** A file that changes gets another write time or another size. *)
Definition timesTell (l : list Disk) : Prop :=
  ∀ d d' p time n, d ∈ l -> d' ∈ l -> d_time d p = Some time -> d_time d' p = Some time -> d_size d p = Some n -> d_size d' p = Some n ->
    d_read d p 0 n = d_read d' p 0 n.

(** Every entry was right on one of the disks. *)
Definition cacheFrom (l : list Disk) (cache : gmap (list byte) StaticFileCacheEntry) : Prop :=
  ∀ p e, cache !! pathString p = Some e -> ∃ d, d ∈ l ∧ entryRight (fs := onDisk d) p e.

Lemma answers_confined r l : ∀ past cache,
  hasFileBody r = false -> body r = [] -> Forall (fun d => SaneFiles (fs := onDisk d)) (past ++ (v_disk <$> l)) ->
  timesTell (past ++ (v_disk <$> l)) -> cacheFrom past cache ->
  Forall2 (fun v r' => confined (fs := onDisk (v_disk v)) (v_request v) (v_prefix v) (v_directory v) r') l (staticAnswers r cache l).
Proof.
  induction l as [|v l IH]; intros past cache Hf Hb Hs Ht Hc; cbn [staticAnswers]; [constructor|].
  destruct (handleStaticFileRequest cfg (v_request v) _ r cache) as [[r' cache']|] eqn:E; [|done].
  set (d := v_disk v) in *.
  assert (Hin : d ∈ past ++ (v_disk <$> v :: l)) by (rewrite elem_of_app; right; left).
  assert (Hd : SaneFiles (fs := onDisk d)) by (by apply (proj1 (Forall_forall _ _) Hs)).
  assert (Hcur : cacheTimely (fs := onDisk d) cache).
  { intros p e He H1 H2. destruct (Hc p e He) as (d' & Hd' & R1 & R2 & R3). split_and!; [done | done|].
    revert R3. unfold readFileSegment. cbn. rewrite (Ht d d' p (entryTime e) (entrySize e)); try done. rewrite elem_of_app. by left. }
  destruct (handleStaticFileRequest_spec (fs := onDisk d) cfg (v_request v) _ _ r cache r' cache' Hcur Hf Hb E) as [Hx Hr].
  constructor; [done|]. apply (IH (past ++ [d])); try done; rewrite <- ?app_assoc; try done.
  intros p e [He|He]%Hx; [destruct (Hc p e He) as (d' & ? & ?); exists d' | exists d]; rewrite elem_of_app, list_elem_of_singleton; auto.
Qed.

End Disks.

(** ** A request of length zero *)

(** Its Content-Length completes the head to 2^64. *)
Definition wrappingRequest : list byte :=
  str "GET / HTTP/1.1" ++ CRLF ++ str "Content-Length: 18446744073709551560" ++ CRLF ++ CRLF.

Lemma wrappingRequest_extract {Address : Type} (address : Address) :
  ∃ req, tryExtractRequest wrappingRequest address = Extract (mkParsed req 0 true None) None.
Proof. eexists. vm_compute. reflexivity. Qed.

Lemma wrappingRequest_process {Net Address} {tcp : TcpServer Net} {fs : FileSystem} cfg fmt id (live : Net -> Prop) sendable
    `{!Live id live sendable} fuel : ∀ (s : @HttpServer Net Address) c now,
  serves cfg fmt (live := live) (sendable := sendable) s -> clients_ s !! id = Some c -> makeBufferedView c = wrappingRequest ->
  zlen wrappingRequest <= maxRequestSize_ cfg ->
  processBufferedRequests cfg fmt fuel s id now = StillRunning.
Proof.
  induction fuel as [|fuel IH]; intros s c now Hl Hc Hv Hmax; [done|].
  cbn [processBufferedRequests]. rewrite Hc. unfold takeRequest. rewrite Hv, (proj2 (Z.ltb_ge (maxRequestSize_ cfg) _)) by done.
  destruct (wrappingRequest_extract (clientAddress c)) as [req ->]. cbn [consumedBytes].
  match goal with |- context [respond cfg fmt (setClient s id ?c1)] => set (c' := c1) end.
  assert (Hv' : makeBufferedView c' = wrappingRequest).
  { unfold c'. destruct (compact_view (setBuffer c (buffer c) (bufferOffset c + Z.to_nat 0))) as (Hview & _).
    assert (H0 : makeBufferedView (setBuffer c (buffer c) (bufferOffset c + Z.to_nat 0)) = wrappingRequest)
      by (rewrite <- Hv; unfold makeBufferedView; cbn; by rewrite Nat.add_0_r).
    rewrite H0 in Hview. rewrite Hview, bool_decide_eq_false_2 by done.
    by rewrite (proj1 (arm_view cfg _ now)). }
  unfold setClient. destruct (respond_live cfg fmt id s (<[id:=c']> (clients_ s)) (mkParsed req 0 true None) now Hl eq_refl eq_refl) as [-> Hl'].
  apply (IH _ c'); [exact Hl' | apply lookup_insert_eq | done | done].
Qed.

(** ** Properties *)

(** C2. Requests written by [buildRequest] and sent over one connection, cut into segments
    in any way, are answered one by one in the order they were written, each with the
    response computed from exactly the request the client wrote, at the time of a segment
    that arrived; afterwards the buffer is empty and the connection ready for more.  The
    loop ends within a round per byte.  The transport must take what is sent. *)
Theorem http_pipeline {Net Address} {tcp : TcpServer Net} {fs : FileSystem} cfg fmt id (live : Net -> Prop) sendable
    `{!Live id live sendable} (s : @HttpServer Net Address) c reqs segments rounds :
  live (tcpServer_ s) -> filesSendable cfg fmt sendable s -> clients_ s !! id = Some c -> processing c = false -> makeBufferedView c = [] ->
  Forall servable reqs -> concat segments.*1 = concat (wire <$> reqs) ->
  (∀ r seg, r ∈ reqs -> seg ∈ segments -> zlen (wire r) + zlen seg.1 <= maxRequestSize_ cfg) ->
  0 <= maxRequestSize_ cfg -> (length (concat (wire <$> reqs)) < rounds)%nat ->
  ∃ times c', length times = length reqs ∧ Forall (.∈ segments.*2) times ∧
    receiveAll cfg fmt id rounds s segments =
      Done (setClients (answers cfg fmt id (clientAddress c) s (zip reqs times)) (<[id := c']> (clients_ s))) ∧
    makeBufferedView c' = [] ∧ processing c' = false.
Proof.
  intros Hl Hf Hc Hp Hv Hreqs Hseg Hsize H0 Hr. apply (segments_arrived cfg fmt id); try done; rewrite Hv; [done|].
  destruct reqs as [|r reqs]; [done|]. apply Forall_cons in Hreqs as [Hr1 _]. cbn.
  destruct (wire_layout r Hr1) as (head & -> & H4 & _). rewrite zlen_app. pose proof (zlen_nonneg (w_body r)).
  rewrite zlen_nil. unfold zlen in *. lia.
Qed.

(** C4. Requests for static files, one after the other, on a disk that may change between
    them - files, links and the root included - as long as a file that gets other contents
    gets another write time or size: each answer carries bytes of a file only when, at that
    moment, the file is regular and its canonical path lies inside the canonical root, and
    then the whole file as it is at that moment (200) or a part within its size (206), read
    from the file or sent from it by name, the cache included; every other answer carries a
    fixed text or nothing.  When the range header of a GET is one range as RFC 7233 writes
    it, the part is the one it names. *)
Theorem static_confined {Address} {fs : FileSystem} cfg (r : HttpResponse) (l : list (@Visit Address fs)) :
  hasFileBody r = false -> body r = [] -> Forall (fun d => SaneFiles (fs := onDisk d)) (v_disk <$> l) -> timesTell (v_disk <$> l) ->
  Forall2 (fun v r' => confined (fs := onDisk (v_disk v)) (v_request v) (v_prefix v) (v_directory v) r') l (staticAnswers cfg r ∅ l).
Proof.
  intros Hf Hb Hs Ht. by apply (answers_confined cfg r l []).
Qed.

(** The static handler chosen for a path covers it (the root, the path itself or a
    directory above it) with the longest prefix of all that do; none is chosen only when
    none covers it. *)
Theorem static_route (p : list byte) hs :
  is_prefix (str "/") p = true ->
  match selectStatic p hs with
  | Some h => h ∈ hs ∧ (h.1 = str "/" \/ p = h.1 \/ ∃ r, p = h.1 ++ str "/" ++ r) ∧
      ∀ h', h' ∈ hs -> staticMatches p h'.1 = true -> (length h'.1 <= length h.1)%nat
  | None => ∀ h, h ∈ hs -> h.1 ≠ str "/" ∧ h.1 ≠ p
  end.
Proof.
  intros Hp. pose proof (selectStatic_spec p hs) as H. destruct (selectStatic p hs) as [h|].
  - destruct H as (Hin & Hm & Hmax). split_and!; [done | by apply staticMatches_spec | done].
  - intros h Hin. apply H in Hin. pose proof (staticMatches_spec p h.1 Hp) as Hs. rewrite Hin in Hs.
    destruct Hs as [_ Hs]. split; intros E; assert (false = true) by (apply Hs; naive_solver); done.
Qed.

(** The size of a chunked body written by [buildChunked] is unknown until its last byte
    has arrived and exact from then on, whatever follows it. *)
Theorem chunked_framing v x body tail :
  v ++ x = buildChunked body ++ tail -> zlen (v ++ x) <= string_max_size ->
  getChunkedMessageSize v =
  if zlen v <? zlen (buildChunked body) then Incomplete else Size (zlen (buildChunked body)).
Proof. apply chunkedSize_build, server_reader. Qed.

(** C39. Twenty-four bytes of chunked body keep [getChunkedMessageSize] running for ever: the
    second chunk size takes the offset past 2^64, back to its own line. *)
Theorem chunked_size_diverges fuel : chunkedSizeLoop (stoull 16) lastChunk fuel loopingChunks 0 = Running.
Proof. apply loopingChunks_run. Qed.

(** A request whose Content-Length completes its head to 2^64 is found again and again:
    it consumes no byte of the buffer, so that it is answered for ever, however many rounds
    the loop is given. *)
Theorem wrapped_length_diverges {Net Address} {tcp : TcpServer Net} {fs : FileSystem} cfg fmt id (live : Net -> Prop) sendable
    `{!Live id live sendable} (s : @HttpServer Net Address) c now rounds :
  live (tcpServer_ s) -> filesSendable cfg fmt sendable s -> clients_ s !! id = Some c -> processing c = false -> makeBufferedView c = [] ->
  zlen wrappingRequest <= maxRequestSize_ cfg ->
  handleDataReceived cfg fmt rounds s id wrappingRequest now = StillRunning.
Proof.
  intros Hl Hf Hc Hp Hv Hmax. unfold handleDataReceived. rewrite Hc. cbv zeta.
  destruct (received_view cfg c wrappingRequest now) as (Hview & _ & Hproc). cbv zeta in Hview, Hproc.
  rewrite Hproc, Hp. eapply (wrappingRequest_process cfg fmt id live sendable); [by split | apply lookup_insert_eq | | done].
  rewrite Hv in Hview. exact Hview.
Qed.

(** ** Witnesses *)

(** A file system with one file. *)
Definition sampleFile : list byte := str "/srv/a.txt".
Definition sampleContent : list byte := str "file body".

#[local] Instance oneFile : FileSystem := {
  Path := list byte; pathOf p := p; appendPath p q := p ++ str "/" ++ q;
  weaklyCanonical p := Some p; components p := splitOn x2f p; pathString p := p; pathExtension _ := str ".txt";
  isRegularFile p := p =s sampleFile; lastWriteTime p := if p =s sampleFile then Some 5 else None;
  fileSizeOf p := if p =s sampleFile then Some (zlen sampleContent) else None;
  readBytes p offset len :=
    if p =s sampleFile then Some (take (Z.to_nat len) (drop (Z.to_nat offset) sampleContent)) else None;
  formatFileTime _ := str "then"
}.

#[local] Instance recorder_live id : Live id (fun r : Recorder => id ∈ openSessions r) (fun _ _ _ => True).
Proof.
  split; cbn; unfold recorderSend; intros; rewrite bool_decide_eq_true_2 by done; eauto.
Qed.

Definition sampleConfig : Config := mkConfig 30000 4096 1024 true.
Definition sampleServer : @HttpServer Recorder unit :=
  handleClientConnected
    (registerHandler (mkServer (mkRecorder [7] [] []) ∅ ∅ [] None ∅ []) (str "/hi") GET
       (fun _ r => setBody r (str "hello"))) 7 ().
Definition sampleClient : @ClientState unit := mkClient [] 0 () false None.
Definition sampleRequest : Written := mkWritten (str "GET") (str "/hi?x=1") [(str "Host", str "h")] [].
Definition otherRequest : Written := mkWritten (str "POST") (str "/up") [] (str "data").
Definition sampleWire : list byte := wire sampleRequest ++ wire otherRequest.

Lemma sampleRequest_servable : servable sampleRequest.
Proof.
  split; [|by eexists; vm_compute|by vm_compute].
  split; [done | split_and!; [done | decide_closed | decide_closed] | | by vm_compute ..].
  split; [by repeat constructor | | by repeat constructor | done].
  repeat constructor; cbn [fst snd]; try done; [by intros c [= <-] | by intros c [= <-] | decide_closed].
Qed.

Lemma otherRequest_servable : servable otherRequest.
Proof.
  split; [|by eexists; vm_compute|by vm_compute].
  split; [done | split_and!; [done | decide_closed | decide_closed] | | by vm_compute ..].
  split; by repeat constructor.
Qed.

Definition sampleSegments : list (list byte * Z) :=
  [(take 5 sampleWire, 10); (take 60 (drop 5 sampleWire), 20); (drop 65 sampleWire, 30)].

Lemma http_pipeline_witness :
  ∃ times c', length times = length [sampleRequest; otherRequest] ∧ Forall (.∈ sampleSegments.*2) times ∧
    receiveAll sampleConfig (fun _ => str "now") 7 200 sampleServer sampleSegments =
      Done (setClients (answers sampleConfig (fun _ => str "now") 7 (clientAddress sampleClient) sampleServer
              (zip [sampleRequest; otherRequest] times)) (<[7 := c']> (clients_ sampleServer))) ∧
    makeBufferedView c' = [] ∧ processing c' = false.
Proof.
  refine (http_pipeline sampleConfig (fun _ => str "now") 7 (fun r : Recorder => 7 ∈ openSessions r) (fun _ _ _ => True) sampleServer
    sampleClient [sampleRequest; otherRequest] sampleSegments 200 _ _ _ _ _ _ _ _ _ _).
  - by left.
  - done.
  - reflexivity.
  - reflexivity.
  - reflexivity.
  - apply Forall_cons_2; [apply sampleRequest_servable|]. apply Forall_cons_2; [apply otherRequest_servable | apply Forall_nil_2].
  - by vm_compute.
  - intros r seg Hr Hseg. unfold sampleSegments in Hseg.
    rewrite !elem_of_cons, elem_of_nil in Hr. rewrite !elem_of_cons, elem_of_nil in Hseg.
    destruct Hr as [->|[->|[]]]; destruct Hseg as [->|[->|[->|[]]]]; by vm_compute.
  - by vm_compute.
  - apply Nat.ltb_lt. by vm_compute.
Defined.

(** The two responses of the sample, the second after the last segment. *)
Example pipeline_run :
  match receiveAll sampleConfig (fun _ => str "now") 7 200 sampleServer [(take 80 sampleWire, 10); (drop 80 sampleWire, 20)] with
  | Done s => (fun m => drop (length m.2 - 5) m.2) <$> sent (tcpServer_ s)
  | _ => []
  end = [str "hello"; str "Found"].
Proof. vm_compute. reflexivity. Qed.

Lemma wrapped_length_diverges_witness :
  handleDataReceived sampleConfig (fun _ => str "now") 1000 sampleServer 7 wrappingRequest 10 = StillRunning.
Proof.
  refine (wrapped_length_diverges sampleConfig (fun _ => str "now") 7 (fun r : Recorder => 7 ∈ openSessions r) (fun _ _ _ => True)
    sampleServer sampleClient 10 1000 _ _ _ _ _ _); [by left | done | reflexivity.. | by vm_compute].
Defined.

(** The file with other contents of the same length, written at [time]. *)
Definition diskWith (content : list byte) (time : Z) : Disk :=
  mkDisk Some (fun p => p =s sampleFile) (fun p => if p =s sampleFile then Some time else None)
    (fun p => if p =s sampleFile then Some (zlen content) else None)
    (fun p offset len => if p =s sampleFile then Some (take (Z.to_nat len) (drop (Z.to_nat offset) content)) else None)
    (fun _ => str "then").

Definition staticRequest (range : strmap) : @HttpRequest unit :=
  mkHttpRequest GET (str "GET") (str "/files/a.txt") (str "/files/a.txt") [] (str "HTTP/1.1") [] range [] None.

Definition visitWith (d : Disk) (range : strmap) : Visit := mkVisit d (str "/files") (str "/srv") (staticRequest range).

(** Twice the file, then twice after it was written anew, the second time the bytes from the fifth on. *)
Definition sampleVisits : list Visit :=
  [visitWith (diskWith sampleContent 5) []; visitWith (diskWith sampleContent 5) [];
   visitWith (diskWith (str "FILE BODY") 6) []; visitWith (diskWith (str "FILE BODY") 6) [(str "Range", rangeText (From 5))]].

Example sample_answers :
  body <$> staticAnswers sampleConfig defaultHttpResponse ∅ sampleVisits = [str "file body"; str "file body"; str "FILE BODY"; str "BODY"].
Proof. by vm_compute. Qed.

Lemma diskWith_sane content time : zlen content <= size_max -> SaneFiles (fs := onDisk (diskWith content time)).
Proof.
  intros Hc. split; [by intros p q|]. intros p n. cbn. case_match; [|done]. intros [= <-]. pose proof (zlen_nonneg content). lia.
Qed.

Lemma sampleVisits_times : timesTell (v_disk <$> sampleVisits).
Proof.
  intros d d' p time n Hd Hd'. cbn [sampleVisits fmap list_fmap visitWith v_disk] in Hd, Hd'. rewrite !elem_of_cons, elem_of_nil in Hd, Hd'.
  destruct Hd as [->|[->|[->|[->|[]]]]], Hd' as [->|[->|[->|[->|[]]]]]; cbn; case_match; try done; intros; simplify_eq.
Qed.

Lemma static_confined_witness :
  Forall2 (fun v r' => confined (fs := onDisk (v_disk v)) (v_request v) (v_prefix v) (v_directory v) r') sampleVisits
    (staticAnswers sampleConfig defaultHttpResponse ∅ sampleVisits).
Proof.
  refine (static_confined sampleConfig defaultHttpResponse sampleVisits eq_refl eq_refl _ sampleVisits_times).
  repeat (apply Forall_cons_2; [apply diskWith_sane; by vm_compute|]). apply Forall_nil_2.
Defined.

(** A path that climbs out of the root is refused. *)
Example climbing_refused :
  isBelow (components (str "/srv")) (components (str "/etc/passwd")) = false.
Proof. reflexivity. Qed.

Lemma static_route_witness :
  (str "/img/big", str "b") ∈ [(str "/", str "r"); (str "/img", str "a"); (str "/img/big", str "b")] ∧
  (str "/img/big" = str "/" \/ str "/img/big/x" = str "/img/big" \/
   ∃ r, str "/img/big/x" = str "/img/big" ++ str "/" ++ r) ∧
  ∀ h', h' ∈ [(str "/", str "r"); (str "/img", str "a"); (str "/img/big", str "b")] ->
    staticMatches (str "/img/big/x") h'.1 = true -> (length h'.1 <= length (str "/img/big"))%nat.
Proof.
  exact (static_route (str "/img/big/x") [(str "/", str "r"); (str "/img", str "a"); (str "/img/big", str "b")] eq_refl).
Defined.

Lemma chunked_framing_witness :
  getChunkedMessageSize (take 7 (buildChunked (str "hello"))) = Incomplete.
Proof.
  refine (chunked_framing (take 7 (buildChunked (str "hello"))) (drop 7 (buildChunked (str "hello")) ++ str "GET")
    (str "hello") (str "GET") _ _); by vm_compute.
Defined.
