(* ===== verification/WebSocketServer.v ===== *)
(** * WebSocket server (src/WebSocketServer.cpp)

    The upgrade handshake, the per-client receive buffer, the frame loop and the closing
    protocol, above [HttpParser] and [WebSocketProtocol].  The TCP server underneath is an
    interface: its operations act on a transport state and report which sessions they
    closed, whose closed callback runs before they return.  The user's callbacks are
    events of a log; those for connections and messages may call back into the server:
    the parameter [react] gives their calls from the log so far, so they may keep state of
    their own.  Those for errors and disconnections only take note.  [now] is the clock value a call reads.  Performance
    counters and the ping timer are left out; [sendPingToAllClients] is what the timer
    calls. *)

From stdpp Require Import sorting.
From S2P Require Import Prelude CType Base64 Sha1 WebSocketProtocol WebSocketFraming HttpParser Transport.

(** ** Data *)

Inductive Status := Handshake | Connected | Closing.

#[export] Instance Status_eq_dec : EqDecision Status.
Proof. solve_decision. Defined.

Inductive ErrorCode :=
  | WebSocketHandshakeError | WebSocketConnectionError | WebSocketFrameError | WebSocketPayloadTooLarge.

Section Server.
Context {Net Address : Type} {tcp : TcpServer Net}.

Record ClientState := mkClient {
  status : Status;
  buffer : list byte;
  bufferOffset : nat;
  clientAddress : Address;
  subprotocol : list byte;
  lastActivity : Z
}.

Definition setStatus (c : ClientState) x :=
  mkClient x (buffer c) (bufferOffset c) (clientAddress c) (subprotocol c) (lastActivity c).
Definition setBuffer (c : ClientState) b o :=
  mkClient (status c) b o (clientAddress c) (subprotocol c) (lastActivity c).
Definition setSubprotocol (c : ClientState) x :=
  mkClient (status c) (buffer c) (bufferOffset c) (clientAddress c) x (lastActivity c).
Definition setActivity (c : ClientState) t :=
  mkClient (status c) (buffer c) (bufferOffset c) (clientAddress c) (subprotocol c) t.

Record HandshakeRequest := mkHsRequest {
  hr_target : list byte;
  hr_path : list byte;
  hr_queryString : list byte;
  hr_headers : strmap;
  requestedSubprotocols : list (list byte);
  hr_clientAddress : Address
}.

Record HandshakeResponse := mkHsResponse {
  accept : bool;
  acceptedSubprotocol : list byte;
  hs_headers_ : strmap;
  rejectStatusCode : Z;
  rejectStatusMessage : list byte;
  rejectBody : list byte
}.

(** [WebSocketServerHandshakeResponse{}]. *)
Definition defaultResponse : HandshakeResponse :=
  mkHsResponse true [] [] 403 (str "Forbidden") (str "WebSocket handshake rejected").

(** Calls of the user's callbacks. *)
Inductive Event :=
  | OnError (code : ErrorCode) (message : list byte)
  | OnConnected (id : ConnectionId) (address : Address)
  | OnDisconnected (id : ConnectionId) (code : Z) (reason : list byte)
  | OnText (id : ConnectionId) (message : list byte)
  | OnBinary (id : ConnectionId) (data : list byte).

(** Calls a callback can make on the server. *)
Inductive UserCall :=
  | CallSendText (id : ConnectionId) (message : list byte)
  | CallSendBinary (id : ConnectionId) (data : list byte)
  | CallBroadcastText (message : list byte)
  | CallBroadcastBinary (data : list byte)
  | CallDisconnect (id : ConnectionId) (code : Z) (reason : list byte).

(** The settings; a callback that is not installed is [false] or [None]. *)
Record Config := mkConfig {
  connectionTimeout_ : Z;
  maxConnections_ : Z;
  handshakeCallback_ : option (ConnectionId -> HandshakeRequest -> HandshakeResponse -> HandshakeResponse);
  handshakeResponseHeaders_ : strmap;
  subprotocols_ : list (list byte);
  clientConnectedCallback_ : bool;
  clientDisconnectedCallback_ : bool;
  messageCallback_ : bool;
  binaryCallback_ : bool;
  ownedBinaryCallback_ : bool;
  serverErrorCallback_ : bool
}.

(** The mutable state: the transport below, [clientStates_], and the log of callbacks. *)
Record World := mkWorld {
  tcpServer_ : Net;
  clientStates_ : gmap ConnectionId ClientState;
  log : list Event
}.

Definition setClients (w : World) m := mkWorld (tcpServer_ w) m (log w).
Definition emit (w : World) (e : Event) := mkWorld (tcpServer_ w) (clientStates_ w) (log w ++ [e]).

Definition kMaxClientBufferSize : Z := 10 * 1024 * 1024.

(** ** Handshake helpers *)

Definition isReservedHandshakeResponseHeader (name : list byte) : bool :=
  caseInsensitiveCompare name (str "Upgrade") ||
  caseInsensitiveCompare name (str "Connection") ||
  caseInsensitiveCompare name (str "Sec-WebSocket-Accept") ||
  caseInsensitiveCompare name (str "Sec-WebSocket-Protocol") ||
  caseInsensitiveCompare name (str "Content-Length").

Definition splitSubprotocols (value : list byte) : list (list byte) :=
  filter (.≠ []) (trim <$> splitOn x2c value).

Definition containsSubprotocol (protocols : list (list byte)) (candidate : list byte) : bool :=
  let candidate := trim candidate in
  existsb (fun protocol => caseInsensitiveCompare protocol candidate) protocols.

Definition selectSubprotocol (serverProtocols clientProtocols : list (list byte)) : list byte :=
  default [] (find (fun p => containsSubprotocol clientProtocols p) serverProtocols).

Definition buildHandshakeResponse (key : list byte) (r : HandshakeResponse) : list byte :=
  let response :=
    str "HTTP/1.1 101 Switching Protocols" ++ CRLF ++
    str "Upgrade: websocket" ++ CRLF ++
    str "Connection: Upgrade" ++ CRLF ++
    str "Sec-WebSocket-Accept: " ++ createAcceptKey key ++ CRLF in
  let response := if acceptedSubprotocol r =s [] then response
                  else appendHeaderLine response (str "Sec-WebSocket-Protocol") (acceptedSubprotocol r) in
  let response := fold_left (fun out h => if isReservedHandshakeResponseHeader h.1 then out
                                          else appendHeaderLine out h.1 h.2) (hs_headers_ r) response in
  response ++ CRLF.

Definition buildHandshakeRejection (r : HandshakeResponse) : list byte :=
  let statusCode := if rejectStatusCode r <=? 0 then 403 else rejectStatusCode r in
  let statusMessage := if rejectStatusMessage r =s [] then str "Forbidden" else rejectStatusMessage r in
  let body := rejectBody r in
  let headers := hs_headers_ r in
  let headers := map_set (str "Connection") (str "close") headers in
  let headers := map_set (str "Content-Type") (str "text/plain; charset=utf-8") headers in
  let headers := map_set (str "Content-Length") (appendUnsignedDecimal [] (zlen body)) headers in
  buildResponse statusCode statusMessage headers body.

(** The server's own [containsToken]: the pieces between commas, trimmed, compared
    without case. *)
Definition equalsIgnoreCase (left right : list byte) : bool :=
  if negb (length left =? length right)%nat then false
  else forallb (fun p => tolower p.1 =b tolower p.2) (zip left right).

Definition hasToken (headerValue token : list byte) : bool :=
  existsb (fun candidate => equalsIgnoreCase (trim candidate) token) (splitOn x2c headerValue).

(** ** Receive buffer *)

Definition makeBufferedView (c : ClientState) : list byte := bufferedView (buffer c) (bufferOffset c).

Definition compactBufferedStateLocked (c : ClientState) : ClientState :=
  let '(b, o) := compactBuffer (buffer c) (bufferOffset c) in setBuffer c b o.

(** [bufferOffset += n], then compaction. *)
Definition consume (c : ClientState) (n : nat) : ClientState :=
  compactBufferedStateLocked (setBuffer c (buffer c) (bufferOffset c + n)).

(** ** Operations *)

Section Operations.
Context (cfg : Config) (react : list Event -> list UserCall) (rand : nat -> Z).

Definition handleError (w : World) (code : ErrorCode) (message : list byte) : World :=
  if serverErrorCallback_ cfg then emit w (OnError code message) else w.

Definition handleClientDisconnected (w : World) (id : ConnectionId) (reason : list byte) : World :=
  let notifyCallback :=
    match clientStates_ w !! id with
    | Some c => negb (status c =s Handshake)
    | None => false
    end in
  let w := setClients w (delete id (clientStates_ w)) in
  if notifyCallback && clientDisconnectedCallback_ cfg
  then emit w (OnDisconnected id 1000 (if reason =s [] then str "Normal closure" else reason))
  else w.

(** The closed callbacks that run inside an operation of the transport. *)
Definition afterNet (w : World) (net : Net) (closed : closures) : World :=
  fold_left (fun w c => handleClientDisconnected w c.1 c.2) closed
    (mkWorld net (clientStates_ w) (log w)).

Definition netDisconnect (w : World) (id : ConnectionId) : World :=
  let '(net, closed) := tcpDisconnect (tcpServer_ w) id in afterNet w net closed.

Definition handleClientConnected (w : World) (id : ConnectionId) (address : Address) (now : Z) : World :=
  if maxConnections_ cfg <=? Z.of_nat (size (clientStates_ w))
  then netDisconnect (setClients w (delete id (clientStates_ w))) id
  else setClients w (<[id := mkClient Handshake [] 0 address [] now]> (clientStates_ w)).

Definition netCloseAfterWrites (w : World) (id : ConnectionId) : World :=
  let '(net, closed) := closeClientAfterPendingWrites (tcpServer_ w) id in afterNet w net closed.

Definition sendFrameToClient (w : World) (id : ConnectionId) (frame : list byte) : World * bool :=
  let '(net, ok, closed) := sendToClient (tcpServer_ w) id frame in (afterNet w net closed, ok).

Definition broadcastFrame (w : World) (frame : list byte) : World :=
  let '(net, closed) := broadcast (tcpServer_ w) frame in afterNet w net closed.

Definition encodeCloseFrame (code : Z) (reason : list byte) : list byte :=
  let payload := [zb (Z.land (Z.shiftr code 8) 0xFF); zb (Z.land code 0xFF)] ++ reason in
  encodeFrame rand payload Close false.

Definition disconnectClient (w : World) (id : ConnectionId) (code : Z) (reason : list byte) : World :=
  match clientStates_ w !! id with
  | None => netDisconnect w id
  | Some c =>
      match status c with
      | Connected =>
          let w := setClients w (<[id := setStatus c Closing]> (clientStates_ w)) in
          let '(w, ok) := sendFrameToClient w id (encodeCloseFrame code reason) in
          if negb ok then netDisconnect w id else netCloseAfterWrites w id
      | Closing => netCloseAfterWrites w id
      | Handshake => netDisconnect w id
      end
  end.

Definition sendTextToClient (w : World) (id : ConnectionId) (message : list byte) : World * bool :=
  sendFrameToClient w id (encodeFrame rand message Text false).
Definition sendBinaryToClient (w : World) (id : ConnectionId) (data : list byte) : World * bool :=
  sendFrameToClient w id (encodeFrame rand data Binary false).
Definition broadcastText (w : World) (message : list byte) : World :=
  broadcastFrame w (encodeFrame rand message Text false).
Definition broadcastBinary (w : World) (data : list byte) : World :=
  broadcastFrame w (encodeFrame rand data Binary false).

Definition getClientSubprotocol (w : World) (id : ConnectionId) : option (list byte) :=
  match clientStates_ w !! id with
  | Some c => if subprotocol c =s [] then None else Some (subprotocol c)
  | None => None
  end.

Definition updateLastActivity (w : World) (id : ConnectionId) (now : Z) : World :=
  setClients w (alter (fun c => setActivity c now) id (clientStates_ w)).

(** What a callback does. *)
Definition userCall (w : World) (u : UserCall) : World :=
  match u with
  | CallSendText id m => (sendTextToClient w id m).1
  | CallSendBinary id d => (sendBinaryToClient w id d).1
  | CallBroadcastText m => broadcastText w m
  | CallBroadcastBinary d => broadcastBinary w d
  | CallDisconnect id code reason => disconnectClient w id code reason
  end.

(** What it calls may depend on all the callbacks made so far, the last of which is this one. *)
Definition callback (w : World) (e : Event) : World := let w := emit w e in fold_left userCall (react (log w)) w.

Definition handleFrame (w : World) (id : ConnectionId) (frameType : WSFrameType) (payload : list byte)
    (now : Z) : World :=
  match frameType with
  | Text => if messageCallback_ cfg then callback w (OnText id payload) else w
  | Binary =>
      if ownedBinaryCallback_ cfg then callback w (OnBinary id payload)
      else if binaryCallback_ cfg then callback w (OnBinary id payload)
      else w
  | Ping => (sendFrameToClient w id (encodeFrame rand payload Pong false)).1
  | Pong => updateLastActivity w id now
  | Close =>
      let '(code, reason) :=
        match payload with
        | p0 :: p1 :: rest =>
            (Z.lor (u16 (Z.shiftl (bz p0) 8)) (bz p1),
             match rest with [] => str "Normal closure" | _ => rest end)
        | _ => (1000, str "Normal closure")
        end in
      disconnectClient w id code reason
  end.

(** What the frame loop finds under the lock. *)
Definition takeFrame : list byte -> Taken :=
  takeFrameWith (Some kMaxClientBufferSize) (fun metadata => negb (final metadata)).

Fixpoint handleFrames (fuel : nat) (w : World) (id : ConnectionId) (now : Z) : World :=
  match fuel with
  | O => w
  | S fuel =>
      match clientStates_ w !! id with
      | None => w
      | Some c =>
          if negb (status c =s Connected) then w
          else
            match takeFrame (makeBufferedView c) with
            | Nothing => w
            | TooLarge =>
                let w := handleError w WebSocketPayloadTooLarge (str "Client buffer overflow") in
                disconnectClient w id 1009 (str "Message too big")
            | Invalid =>
                let w := handleError w WebSocketFrameError (str "Invalid WebSocket frame") in
                disconnectClient w id 1002 (str "Protocol error")
            | Took frameType payload frameSize =>
                let w := setClients w (<[id := consume c frameSize]> (clientStates_ w)) in
                handleFrames fuel (handleFrame w id frameType payload now) id now
            end
      end
  end.

(** Rounds that suffice: a frame takes at least two bytes. *)
Definition pendingBytes (w : World) (id : ConnectionId) : nat :=
  match clientStates_ w !! id with Some c => length (makeBufferedView c) | None => 0 end.

Definition runFrames (w : World) (id : ConnectionId) (now : Z) : World :=
  handleFrames (S (pendingBytes w id)) w id now.

(** What the handshake reads from the buffer under the lock. *)
Record Upgrade := mkUpgrade {
  upgradeValue : list byte;
  connectionValue : list byte;
  keyValue : list byte;
  versionValue : list byte;
  handshakeRequest : HandshakeRequest
}.

(** The fields of a parsed request; a header that is missing is empty. *)
Definition upgradeOf (v : HttpRequestView) (address : Address) : Upgrade :=
  let value name := default [] (getHeader (rq_headers v) name) in
  let protocols :=
    match getHeader (rq_headers v) (str "Sec-WebSocket-Protocol") with
    | Some p => splitSubprotocols p
    | None => []
    end in
  mkUpgrade (value (str "Upgrade")) (value (str "Connection"))
    (value (str "Sec-WebSocket-Key")) (value (str "Sec-WebSocket-Version"))
    (mkHsRequest (rq_target v) (rq_uri v) (rq_queryString v) (rq_headers v) protocols address).

(** [Some (consumedBytes, None)] is a complete request that does not parse. *)
Definition readHandshake (c : ClientState) : option (nat * option Upgrade) :=
  let raw := makeBufferedView c in
  match sv_find raw (CRLF ++ CRLF) 0 with
  | None => None
  | Some headerEnd =>
      let consumedBytes := (headerEnd + 4)%nat in
      match parseRequest (take consumedBytes raw) with
      | None => Some (consumedBytes, None)
      | Some v => Some (consumedBytes, Some (upgradeOf v (clientAddress c)))
      end
  end.

Definition supportedUpgrade (u : Upgrade) : bool :=
  negb (upgradeValue u =s []) && negb (connectionValue u =s []) && negb (keyValue u =s []) &&
  negb (versionValue u =s []) && caseInsensitiveCompare (upgradeValue u) (str "websocket") &&
  hasToken (connectionValue u) (str "upgrade") && (versionValue u =s str "13").

(** The answer: the defaults, the callback's changes, then the check of the subprotocol. *)
Definition decideHandshake (id : ConnectionId) (request : HandshakeRequest) : HandshakeResponse :=
  let d := defaultResponse in
  let response := mkHsResponse (accept d)
    (selectSubprotocol (subprotocols_ cfg) (requestedSubprotocols request))
    (handshakeResponseHeaders_ cfg) (rejectStatusCode d) (rejectStatusMessage d) (rejectBody d) in
  let response :=
    match handshakeCallback_ cfg with Some f => f id request response | None => response end in
  if negb (acceptedSubprotocol response =s []) &&
     negb (containsSubprotocol (requestedSubprotocols request) (acceptedSubprotocol response))
  then mkHsResponse false (acceptedSubprotocol response) (hs_headers_ response) 400 (str "Bad Request")
         (str "Selected WebSocket subprotocol was not requested by the client")
  else response.

Definition handleHandshake (w : World) (id : ConnectionId) (now : Z) : World :=
  match clientStates_ w !! id with
  | None => w
  | Some c =>
      match readHandshake c with
      | None => w
      | Some (_, None) =>
          let w := handleError w WebSocketHandshakeError (str "Invalid WebSocket handshake request") in
          disconnectClient w id 1002 (str "Protocol error")
      | Some (consumedBytes, Some u) =>
          if negb (supportedUpgrade u) then
            let w := handleError w WebSocketHandshakeError (str "Unsupported WebSocket handshake") in
            disconnectClient w id 1002 (str "Protocol error")
          else
            let response := decideHandshake id (handshakeRequest u) in
            if negb (accept response) then
              let '(w, ok) := sendFrameToClient w id (buildHandshakeRejection response) in
              let w := if ok then w
                       else handleError w WebSocketConnectionError (str "Failed to send handshake rejection") in
              netCloseAfterWrites w id
            else
              let '(w, ok) := sendFrameToClient w id (buildHandshakeResponse (keyValue u) response) in
              if negb ok then
                let w := handleError w WebSocketConnectionError (str "Failed to send handshake response") in
                disconnectClient w id 1011 (str "Handshake failed")
              else
                match clientStates_ w !! id with
                | None => w
                | Some c' =>
                    let c' := setSubprotocol (setStatus c' Connected) (acceptedSubprotocol response) in
                    let c' := consume c' consumedBytes in
                    let hasRemaining := negb (makeBufferedView c' =s []) in
                    let w := setClients w (<[id := c']> (clientStates_ w)) in
                    let w := if clientConnectedCallback_ cfg then callback w (OnConnected id (clientAddress c))
                             else w in
                    if hasRemaining then runFrames w id now else w
                end
      end
  end.

(** The received bytes join the buffer; the client's status decides who reads them. *)
Definition bufferData (c : ClientState) (data : list byte) (now : Z) : ClientState :=
  let b := if (bufferOffset c =? 0)%nat && (buffer c =s []) then data else buffer c ++ data in
  setActivity (setBuffer c b (bufferOffset c)) now.

Definition handleDataReceived (w : World) (id : ConnectionId) (data : list byte) (now : Z) : World :=
  match clientStates_ w !! id with
  | None => w
  | Some c =>
      let w := setClients w (<[id := bufferData c data now]> (clientStates_ w)) in
      match status c with
      | Handshake => handleHandshake w id now
      | Connected => runFrames w id now
      | Closing => w
      end
  end.

(** The ping timer's callback; [std::map] is visited in the order of the identifiers. *)
Definition sendPingToAllClients (w : World) (now : Z) : World :=
  let ids := merge_sort Z.le (elements (dom (clientStates_ w))) in
  let due id := match clientStates_ w !! id with Some c => status c =s Connected | None => false end in
  let timedOut id := match clientStates_ w !! id with
                     | Some c => negb (connectionTimeout_ cfg =? 0) &&
                                 (connectionTimeout_ cfg <? u64 (now - lastActivity c))
                     | None => false
                     end in
  let connected := List.filter due ids in
  let timeoutClients := List.filter timedOut connected in
  let pingClients := List.filter (fun id => negb (timedOut id)) connected in
  let w := fold_left (fun w id => (sendFrameToClient w id (encodeFrame rand [] Ping false)).1) pingClients w in
  fold_left (fun w id => disconnectClient w id 1001 (str "Connection timeout")) timeoutClients w.

(** [stop], for a server that is running. *)
Definition stop (w : World) : World :=
  let '(net, closed) := tcpStop (tcpServer_ w) in
  setClients (afterNet w net closed) ∅.

End Operations.

(** ** Relations between worlds

    Outside the handshake and the frame loop no operation looks at a receive buffer.  So
    any relation between clients that fixes the status and is kept by changes of status
    and activity is kept by all of these operations. *)

Class BufferBlind (R : ConnectionId -> relation ClientState) : Prop := {
  blind_status id c c' : R id c c' -> status c = status c';
  blind_setStatus id c c' x : R id c c' -> R id (setStatus c x) (setStatus c' x);
  blind_setActivity id c c' t t' : R id c c' -> R id (setActivity c t) (setActivity c' t')
}.

Record related (R : ConnectionId -> relation ClientState) (w w' : World) : Prop := {
  rel_net : tcpServer_ w = tcpServer_ w';
  rel_log : log w = log w';
  rel_clients id : option_Forall2 (R id) (clientStates_ w !! id) (clientStates_ w' !! id)
}.

(** [evolves w w']: clients are only dropped or sent to [Closing], and keep their buffers. *)
Definition evolves (w w' : World) : Prop :=
  ∀ id c', clientStates_ w' !! id = Some c' -> ∃ c, clientStates_ w !! id = Some c ∧
    buffer c' = buffer c ∧ bufferOffset c' = bufferOffset c ∧ subprotocol c' = subprotocol c ∧
    clientAddress c' = clientAddress c ∧ (status c' = status c ∨ status c' = Closing).

Lemma evolves_refl w w' : clientStates_ w' = clientStates_ w -> evolves w w'.
Proof. intros E id c' Hc. rewrite E in Hc. exists c'. auto 8. Qed.

#[local] Instance evolves_preorder : PreOrder evolves.
Proof.
  split; [intros w; by apply evolves_refl|]. intros w1 w2 w3 H12 H23 id c3 Hc3.
  destruct (H23 id c3 Hc3) as (c2 & Hc2 & ? & ? & ? & ? & ?).
  destruct (H12 id c2 Hc2) as (c1 & Hc1 & ? & ? & ? & ? & ?).
  exists c1. split_and!; [done|congruence..|]. intuition congruence.
Qed.

Lemma evolves_fold {B} (f : World -> B -> World) l :
  (∀ w b, evolves w (f w b)) -> ∀ w, evolves w (fold_left f l w).
Proof. intros Hf. induction l as [|b l IH]; intros w; cbn; [done|]. etrans; [apply Hf|apply IH]. Qed.

Section Related.
Context (cfg : Config) (react : list Event -> list UserCall) (rand : nat -> Z).

Lemma disconnected_evolves w id r : evolves w (handleClientDisconnected cfg w id r).
Proof.
  unfold handleClientDisconnected. intros id' c' Hc. exists c'. split; [|auto 8].
  case_match; case_match; cbn in Hc; apply lookup_delete_Some in Hc; tauto.
Qed.

Lemma afterNet_evolves w net cl : evolves w (afterNet cfg w net cl).
Proof.
  unfold afterNet. trans (mkWorld net (clientStates_ w) (log w)); [by apply evolves_refl|].
  apply evolves_fold. intros. apply disconnected_evolves.
Qed.

Lemma error_evolves w code m : evolves w (handleError cfg w code m).
Proof. unfold handleError. case_match; by apply evolves_refl. Qed.

Lemma netDisconnect_evolves w id : evolves w (netDisconnect cfg w id).
Proof. unfold netDisconnect. case_match. apply afterNet_evolves. Qed.

Lemma netClose_evolves w id : evolves w (netCloseAfterWrites cfg w id).
Proof. unfold netCloseAfterWrites. case_match. apply afterNet_evolves. Qed.

Lemma sendFrame_evolves w id f : evolves w (sendFrameToClient cfg w id f).1.
Proof. unfold sendFrameToClient. repeat case_match. apply afterNet_evolves. Qed.

Lemma broadcast_evolves w f : evolves w (broadcastFrame cfg w f).
Proof. unfold broadcastFrame. case_match. apply afterNet_evolves. Qed.

Lemma closing_evolves w id c :
  clientStates_ w !! id = Some c ->
  evolves w (setClients w (<[id := setStatus c Closing]> (clientStates_ w))).
Proof.
  intros Hc id' c' Hc'. cbn in Hc'. apply lookup_insert_Some in Hc' as [[<- <-]|[_ Hc']];
    [exists c|exists c']; cbn; auto 8.
Qed.

Lemma activity_evolves w id t : evolves w (updateLastActivity w id t).
Proof.
  intros id' c' Hc. cbn in Hc. destruct (decide (id' = id)) as [->|].
  - apply lookup_alter_Some in Hc as [(_ & c & ? & ->)|[? _]]; [|done]. exists c. cbn; auto 8.
  - rewrite lookup_alter_ne in Hc by done. exists c'. auto 8.
Qed.

(** A client that is told to disconnect is not [Connected] afterwards. *)
Lemma disconnect_evolves w id code r :
  evolves w (disconnectClient cfg rand w id code r) ∧
  ∀ c, clientStates_ (disconnectClient cfg rand w id code r) !! id = Some c -> status c ≠ Connected.
Proof.
  unfold disconnectClient. destruct (clientStates_ w !! id) as [c|] eqn:Hc; [destruct (status c) eqn:Hs|].
  - split; [apply netDisconnect_evolves|]. intros c' (c0 & H0 & _ & _ & _ & _ & Hs')%netDisconnect_evolves.
    assert (c0 = c) as -> by congruence. destruct Hs'; congruence.
  - set (w1 := setClients w _). pose proof (sendFrame_evolves w1 id (encodeCloseFrame rand code r)) as H1.
    destruct (sendFrameToClient cfg w1 id _) as [w2 ok]. cbn in H1.
    assert (H2 : evolves w1 (if negb ok then netDisconnect cfg w2 id else netCloseAfterWrites cfg w2 id)).
    { etrans; [exact H1|]. case_match; [apply netDisconnect_evolves|apply netClose_evolves]. }
    split; [etrans; [by apply closing_evolves|exact H2]|].
    intros c' (c0 & H0 & _ & _ & _ & _ & Hs')%H2. cbn in H0. rewrite lookup_insert_eq in H0.
    injection H0 as <-. cbn in Hs'. destruct Hs'; congruence.
  - split; [apply netClose_evolves|]. intros c' (c0 & H0 & _ & _ & _ & _ & Hs')%netClose_evolves.
    assert (c0 = c) as -> by congruence. destruct Hs'; congruence.
  - split; [apply netDisconnect_evolves|]. intros c' (c0 & H0 & _)%netDisconnect_evolves. congruence.
Qed.

Lemma userCall_evolves w u : evolves w (userCall cfg rand w u).
Proof.
  destruct u; cbn; [apply sendFrame_evolves..|apply broadcast_evolves|apply broadcast_evolves|apply disconnect_evolves].
Qed.

Lemma callback_evolves w e : evolves w (callback cfg react rand w e).
Proof.
  unfold callback. trans (emit w e); [by apply evolves_refl|]. apply evolves_fold, userCall_evolves.
Qed.

Lemma handleFrame_evolves w id t p now : evolves w (handleFrame cfg react rand w id t p now).
Proof.
  destruct t; cbn; repeat case_match;
    try first [done | apply callback_evolves | apply disconnect_evolves | apply sendFrame_evolves
              | apply activity_evolves].
Qed.

Context (R : ConnectionId -> relation ClientState) `{!BufferBlind R}.

Lemma related_set w w' id c c' :
  related R w w' -> R id c c' ->
  related R (setClients w (<[id := c]> (clientStates_ w))) (setClients w' (<[id := c']> (clientStates_ w'))).
Proof.
  intros [? ? Hc] Hr. split; cbn; [done..|]. intros i. destruct (decide (i = id)) as [->|].
  - rewrite !lookup_insert_eq. by constructor.
  - by rewrite !lookup_insert_ne.
Qed.

Lemma related_fold {B} (f f' : World -> B -> World) l :
  (∀ w w' b, related R w w' -> related R (f w b) (f' w' b)) ->
  ∀ w w', related R w w' -> related R (fold_left f l w) (fold_left f' l w').
Proof. intros Hf. induction l as [|b l IH]; intros w w' Hw; cbn; [done|]. by apply IH, Hf. Qed.

Lemma error_related w w' code m :
  related R w w' -> related R (handleError cfg w code m) (handleError cfg w' code m).
Proof.
  intros Hw. unfold handleError. case_match; [|done]. split; cbn; [apply Hw | | apply Hw].
  by rewrite (rel_log _ _ _ Hw).
Qed.

Lemma emit_related w w' e : related R w w' -> related R (emit w e) (emit w' e).
Proof. intros Hw. split; cbn; [apply Hw | by rewrite (rel_log _ _ _ Hw) | apply Hw]. Qed.

Lemma disconnected_related w w' id r :
  related R w w' -> related R (handleClientDisconnected cfg w id r) (handleClientDisconnected cfg w' id r).
Proof.
  intros Hw. unfold handleClientDisconnected.
  assert (Hd : related R (setClients w (delete id (clientStates_ w))) (setClients w' (delete id (clientStates_ w')))).
  { split; cbn; [apply Hw..|]. intros i. destruct (decide (i = id)) as [->|].
    - rewrite !lookup_delete_eq. constructor.
    - rewrite !lookup_delete_ne by done. apply Hw. }
  destruct (rel_clients _ _ _ Hw id) as [c c' Hc|]; [|done].
  rewrite (blind_status _ _ _ Hc). case_match; [by apply emit_related|done].
Qed.

Lemma afterNet_related w w' net cl :
  related R w w' -> related R (afterNet cfg w net cl) (afterNet cfg w' net cl).
Proof.
  intros Hw. unfold afterNet. apply related_fold; [|by split; cbn; [|apply Hw..]].
  intros ???. apply disconnected_related.
Qed.

Lemma netDisconnect_related w w' id :
  related R w w' -> related R (netDisconnect cfg w id) (netDisconnect cfg w' id).
Proof.
  intros Hw. unfold netDisconnect. rewrite (rel_net _ _ _ Hw). case_match. by apply afterNet_related.
Qed.

Lemma netClose_related w w' id :
  related R w w' -> related R (netCloseAfterWrites cfg w id) (netCloseAfterWrites cfg w' id).
Proof.
  intros Hw. unfold netCloseAfterWrites. rewrite (rel_net _ _ _ Hw). case_match. by apply afterNet_related.
Qed.

Lemma sendFrame_related w w' id f :
  related R w w' -> related R (sendFrameToClient cfg w id f).1 (sendFrameToClient cfg w' id f).1 ∧
  (sendFrameToClient cfg w id f).2 = (sendFrameToClient cfg w' id f).2.
Proof.
  intros Hw. unfold sendFrameToClient. rewrite (rel_net _ _ _ Hw). repeat case_match.
  split; [by apply afterNet_related|done].
Qed.

Lemma broadcast_related w w' f :
  related R w w' -> related R (broadcastFrame cfg w f) (broadcastFrame cfg w' f).
Proof.
  intros Hw. unfold broadcastFrame. rewrite (rel_net _ _ _ Hw). case_match. by apply afterNet_related.
Qed.

Lemma disconnect_related w w' id code r :
  related R w w' -> related R (disconnectClient cfg rand w id code r) (disconnectClient cfg rand w' id code r).
Proof.
  intros Hw. unfold disconnectClient.
  destruct (rel_clients _ _ _ Hw id) as [c c' Hc|]; [|by apply netDisconnect_related].
  rewrite <- (blind_status _ _ _ Hc). destruct (status c);
    [by apply netDisconnect_related | | by apply netClose_related].
  assert (H1 := related_set w w' id _ _ Hw (blind_setStatus _ _ _ Closing Hc)).
  destruct (sendFrame_related _ _ id (encodeCloseFrame rand code r) H1) as [H2 E].
  destruct (sendFrameToClient cfg (setClients w _) id _), (sendFrameToClient cfg (setClients w' _) id _).
  cbn in *. subst. case_match; [by apply netDisconnect_related | by apply netClose_related].
Qed.

Lemma activity_related w w' id t t' :
  related R w w' -> related R (updateLastActivity w id t) (updateLastActivity w' id t').
Proof.
  intros [? ? Hc]. split; cbn; [done..|]. intros i. destruct (decide (i = id)) as [->|].
  - rewrite !lookup_alter_eq. destruct (Hc id); constructor. by apply blind_setActivity.
  - by rewrite !lookup_alter_ne.
Qed.

Lemma userCall_related w w' u : related R w w' -> related R (userCall cfg rand w u) (userCall cfg rand w' u).
Proof.
  intros Hw. destruct u; cbn; [by apply sendFrame_related..|by apply broadcast_related
    |by apply broadcast_related|by apply disconnect_related].
Qed.

Lemma callback_related w w' e :
  related R w w' -> related R (callback cfg react rand w e) (callback cfg react rand w' e).
Proof.
  intros Hw. unfold callback. cbn [log emit]. rewrite (rel_log _ _ _ Hw). apply related_fold; [|by apply emit_related]. intros ???. apply userCall_related.
Qed.

Lemma handleFrame_related w w' id t p now now' :
  related R w w' -> related R (handleFrame cfg react rand w id t p now) (handleFrame cfg react rand w' id t p now').
Proof.
  intros Hw. destruct t; cbn; repeat case_match;
    first [done | by apply callback_related | by apply disconnect_related
          | by apply sendFrame_related | by apply activity_related].
Qed.

End Related.

(** ** The receive buffer *)

(** How far the read offset is past the end, which it never is in a running server. *)
Definition excess (c : ClientState) : nat := (bufferOffset c - length (buffer c))%nat.

Lemma view_drop c : makeBufferedView c = drop (bufferOffset c) (buffer c).
Proof. apply bufferedView_drop. Qed.

Lemma consume_view c n :
  makeBufferedView (consume c n) = drop n (makeBufferedView c) ∧ excess (consume c n) = 0%nat.
Proof.
  pose proof (compactBuffer_view (buffer c) (bufferOffset c + n)) as H.
  unfold consume, compactBufferedStateLocked, makeBufferedView, excess. cbn.
  destruct (compactBuffer (buffer c) (bufferOffset c + n)) as [b o]. destruct H as [Hv He]. cbn.
  rewrite Hv, !bufferedView_drop, drop_drop. split; [done|lia].
Qed.

Lemma consume_fields c n : status (consume c n) = status c ∧
  clientAddress (consume c n) = clientAddress c ∧ subprotocol (consume c n) = subprotocol c.
Proof. unfold consume, compactBufferedStateLocked. by case_match. Qed.

Lemma bufferData_view c d now : excess c = 0%nat ->
  makeBufferedView (bufferData c d now) = makeBufferedView c ++ d ∧ excess (bufferData c d now) = 0%nat.
Proof.
  unfold excess. intros He. rewrite !view_drop. unfold bufferData. cbn. case_match eqn:E.
  - apply andb_true_iff in E as [->%Nat.eqb_eq ->%bool_decide_eq_true]. done.
  - rewrite drop_app_le, length_app by lia. split; [done|lia].
Qed.

Lemma takeFrame_app v d :
  zlen (v ++ d) <= kMaxClientBufferSize ->
  match takeFrame v with
  | Nothing => True
  | TooLarge => False
  | Invalid => takeFrame (v ++ d) = Invalid
  | Took t p n => takeFrame (v ++ d) = Took t p n ∧ (0 < n <= length v)%nat
  end.
Proof. intros Hb. apply takeFrameWith_app. cbn. by apply Z.ltb_ge. Qed.

(** ** Worlds that differ in representation only *)

(** Equality up to the layout of the buffer and the time of the last activity. *)
#[export] Instance client_equiv : Equiv ClientState := fun c c' =>
  status c = status c' ∧ makeBufferedView c = makeBufferedView c' ∧ excess c = excess c' ∧
  clientAddress c = clientAddress c' ∧ subprotocol c = subprotocol c'.

#[export] Instance client_equivalence : Equivalence (≡@{ClientState}).
Proof.
  split; [done | by intros c c' (? & ? & ? & ? & ?); split_and! |].
  intros c1 c2 c3 (? & ? & ? & ? & ?) (? & ? & ? & ? & ?). split_and!; by etrans.
Qed.

#[export] Instance world_equiv : Equiv World := related (fun _ => (≡@{ClientState})).

#[export] Instance world_equivalence : Equivalence (≡@{World}).
Proof.
  split.
  - intros w. split; [done..|]. intros id. by destruct (clientStates_ w !! id); constructor.
  - intros w w' [? ? Hc]. split; [done..|]. intros id. destruct (Hc id); by constructor.
  - intros w1 w2 w3 [E1 E1' H1] [E2 E2' H2]. split; [congruence..|]. intros id. specialize (H2 id).
    destruct (H1 id) as [c1 c2 Hc|]; inversion H2 as [? c3 Hc'|]; subst; constructor. by rewrite Hc.
Qed.

#[export] Instance blind_equiv : BufferBlind (fun _ => (≡@{ClientState})).
Proof.
  split; [by intros id c c' (? & _) | |]; intros id c c'; intros; unfold equiv, client_equiv in *;
    destruct_and!; split_and!; done.
Qed.

(** [c'] has received [d] on top of [c]. *)
Definition grownClient (d : list byte) (c c' : ClientState) : Prop :=
  status c = status c' ∧ makeBufferedView c' = makeBufferedView c ++ d ∧
  excess c = 0%nat ∧ excess c' = 0%nat ∧ clientAddress c = clientAddress c' ∧ subprotocol c = subprotocol c'.

Definition grownAt (id : ConnectionId) (d : list byte) (i : ConnectionId) : relation ClientState :=
  if decide (i = id) then grownClient d else (≡).

#[export] Instance blind_grown id d : BufferBlind (grownAt id d).
Proof.
  split; intros i c c'; unfold grownAt; destruct (decide (i = id)); intros;
    unfold grownClient, equiv, client_equiv in *; destruct_and!; split_and?; done.
Qed.

Lemma consume_equiv c c' n : c ≡ c' -> consume c n ≡ consume c' n.
Proof.
  intros (? & Hv & ? & ? & ?). destruct (consume_view c n) as [E1 E2], (consume_view c' n) as [E1' E2'].
  destruct (consume_fields c n) as (? & ? & ?), (consume_fields c' n) as (? & ? & ?).
  split_and!; [congruence.. | by rewrite E2, E2' | congruence | congruence].
Qed.

Lemma consume_grown d c c' n : (n <= length (makeBufferedView c))%nat ->
  grownClient d c c' -> grownClient d (consume c n) (consume c' n).
Proof.
  intros Hn (? & Hv & ? & ? & ? & ?). destruct (consume_view c n) as [E1 E2], (consume_view c' n) as [E1' E2'].
  destruct (consume_fields c n) as (? & ? & ?), (consume_fields c' n) as (? & ? & ?).
  split_and!; [congruence | by rewrite E1, E1', Hv, drop_app_le | done | done | congruence | congruence].
Qed.

Section Segments.
Context (cfg : Config) (react : list Event -> list UserCall) (rand : nat -> Z).

(** A frame taken leaves fewer bytes pending. *)
Lemma took_pending w id c t p n now fuel :
  clientStates_ w !! id = Some c -> (0 < n <= length (makeBufferedView c))%nat ->
  (pendingBytes w id < S fuel)%nat ->
  (pendingBytes (handleFrame cfg react rand (setClients w (<[id := consume c n]> (clientStates_ w))) id t p now) id
   < fuel)%nat.
Proof.
  intros Hc Hn Hf. unfold pendingBytes in *. rewrite Hc in Hf.
  destruct (clientStates_ (handleFrame _ _ _ _ _ _ _ _) !! id) as [c'|] eqn:Hc'; [|lia].
  apply handleFrame_evolves in Hc' as (c0 & Hc0 & Hb & Ho & _). cbn in Hc0.
  rewrite lookup_insert_eq in Hc0. injection Hc0 as <-.
  rewrite view_drop, Hb, Ho, <- view_drop, (proj1 (consume_view c n)), length_drop. lia.
Qed.

(** The frame loop does not depend on representation, time, or the fuel beyond need. *)
Lemma frames_equiv id now now' fuel : ∀ w w' fuel',
  w ≡ w' -> (pendingBytes w id < fuel)%nat -> (pendingBytes w' id < fuel')%nat ->
  handleFrames cfg react rand fuel w id now ≡ handleFrames cfg react rand fuel' w' id now'.
Proof.
  induction fuel as [|fuel IH]; intros w w' fuel' Hw Hf Hf'; [lia|]. destruct fuel' as [|fuel']; [lia|].
  cbn. pose proof (rel_clients _ _ _ Hw id) as Hrel.
  destruct (clientStates_ w !! id) as [c|] eqn:Hc, (clientStates_ w' !! id) as [c'|] eqn:Hc';
    inversion Hrel as [? ? Hcc|]; subst; [|done].
  destruct Hcc as (Hs & Hv & Hrest). rewrite <- Hs, <- Hv. case_match; [done|].
  destruct (Z_le_gt_dec (zlen (makeBufferedView c)) kMaxClientBufferSize) as [Hle|Hgt].
  2: { unfold takeFrame, takeFrameWith, exceeds. rewrite (proj2 (Z.ltb_lt _ _)) by lia.
       apply disconnect_related; [apply _|]. apply error_related; [done]. }
  pose proof (takeFrame_app (makeBufferedView c) [] ltac:(by rewrite app_nil_r)) as Ht.
  destruct (takeFrame (makeBufferedView c)) as [| | |t p n]; [done|done| |].
  - apply disconnect_related; [apply _|]. apply error_related; done.
  - destruct Ht as [_ Hn]. apply IH.
    + apply handleFrame_related; [apply _|]. apply related_set; [done|].
      apply consume_equiv. split_and!; try done; apply Hrest.
    + eapply took_pending; eauto.
    + eapply took_pending; [done | by rewrite <- Hv | done].
Qed.

(** The client gets the bytes, without anything reading them. *)
Definition grow (w : World) (id : ConnectionId) (d : list byte) (now : Z) : World :=
  setClients w (alter (fun c => bufferData c d now) id (clientStates_ w)).

Definition offsetsOk (w : World) (id : ConnectionId) : Prop :=
  ∀ c, clientStates_ w !! id = Some c -> excess c = 0%nat.

Lemma grow_grown w id d now : offsetsOk w id -> related (grownAt id d) w (grow w id d now).
Proof.
  intros Ho. split; cbn; [done..|]. intros i. unfold grownAt. destruct (decide (i = id)) as [->|].
  - rewrite lookup_alter_eq. destruct (clientStates_ w !! id) as [c|] eqn:Hc; constructor.
    destruct (bufferData_view c d now (Ho c Hc)). split_and!; try done. by apply Ho.
  - rewrite lookup_alter_ne by done. by destruct (clientStates_ w !! i); constructor.
Qed.

Lemma grown_equiv w w' id d now : related (grownAt id d) w w' -> w' ≡ grow w id d now.
Proof.
  intros [? ? Hc]. split; cbn; [done..|]. intros i. specialize (Hc i). unfold grownAt in Hc.
  destruct (decide (i = id)) as [->|].
  - rewrite lookup_alter_eq. destruct Hc as [c c' (? & ? & He & ? & ? & ?)|]; constructor.
    destruct (bufferData_view c d now He). split_and!; first [congruence | by symmetry].
  - rewrite lookup_alter_ne by done. destruct Hc; by constructor.
Qed.

(** Receiving [d] before the loop or after it makes no difference. *)
Lemma frames_grown id d now now' now'' fuel : ∀ w w' fuel',
  related (grownAt id d) w w' ->
  (∀ c, clientStates_ w !! id = Some c -> zlen (makeBufferedView c ++ d) <= kMaxClientBufferSize) ->
  (pendingBytes w id < fuel)%nat -> (pendingBytes w' id < fuel')%nat ->
  let w1 := grow (handleFrames cfg react rand fuel w id now) id d now'' in
  handleFrames cfg react rand fuel' w' id now' ≡ runFrames cfg react rand w1 id now''.
Proof.
  induction fuel as [|fuel IH]; intros w w' fuel' Hw Hb Hf Hf'; [lia|].
  assert (Hstop : handleFrames cfg react rand fuel' w' id now' ≡
    runFrames cfg react rand (grow w id d now'') id now'').
  { apply frames_equiv; [by apply grown_equiv | done | lia]. }
  assert (Hleave : ∀ w1 w1' : World, related (grownAt id d) w1 w1' ->
    (∀ c, clientStates_ w1 !! id = Some c -> status c ≠ Connected) ->
    w1' ≡ runFrames cfg react rand (grow w1 id d now'') id now'').
  { intros w1 w1' H1 Hs. unfold runFrames. cbn. rewrite lookup_alter_eq.
    destruct (clientStates_ w1 !! id) as [c|] eqn:Hc1; cbn; [|by apply grown_equiv].
    rewrite bool_decide_eq_false_2 by (by apply Hs). by apply grown_equiv. }
  destruct fuel' as [|fuel']; [lia|]. cbn [handleFrames] in Hstop |- *.
  pose proof (rel_clients _ _ _ Hw id) as Hrel. unfold grownAt in Hrel at 1. rewrite decide_True in Hrel by done.
  destruct (clientStates_ w !! id) as [c|] eqn:Hc, (clientStates_ w' !! id) as [c'|] eqn:Hc';
    inversion Hrel as [? ? Hcc|]; subst; [|done].
  destruct Hcc as (Hs & Hv & Hrest). rewrite <- Hs, Hv in Hstop |- *. specialize (Hb c eq_refl).
  destruct (negb (status c =s Connected)) eqn:Ec; [done|].
  pose proof (takeFrame_app (makeBufferedView c) d Hb) as Ht.
  destruct (takeFrame (makeBufferedView c)) as [| | |t p n] eqn:Et; [done|done| |].
  - rewrite Ht. apply Hleave; [|apply disconnect_evolves].
    apply disconnect_related; [apply _|]. apply error_related; done.
  - destruct Ht as [-> Hn].
    apply IH; [| | by eapply took_pending | eapply took_pending; [done| |done]].
    + apply handleFrame_related; [apply _|]. apply related_set; [done|].
      unfold grownAt. rewrite decide_True by done. apply consume_grown; [lia|]. split_and!; try done; apply Hrest.
    + intros c1 (c0 & Hc0 & Hb1 & Ho1 & _)%handleFrame_evolves. cbn in Hc0.
      rewrite lookup_insert_eq in Hc0. injection Hc0 as <-.
      rewrite view_drop, Hb1, Ho1, <- view_drop, (proj1 (consume_view c n)).
      unfold zlen in *. rewrite length_app, length_drop in *. lia.
    + rewrite Hv, length_app. lia.
Qed.

(** The loop only drops clients, closes them and consumes their bytes. *)
Lemma frames_keep id now fuel : ∀ w i c',
  clientStates_ (handleFrames cfg react rand fuel w id now) !! i = Some c' ->
  ∃ c, clientStates_ w !! i = Some c ∧ zlen (makeBufferedView c') <= zlen (makeBufferedView c) ∧
    (excess c = 0%nat -> excess c' = 0%nat) ∧ (status c' = status c ∨ status c' = Closing).
Proof.
  assert (Hev : ∀ w w1 i c', evolves w w1 -> clientStates_ w1 !! i = Some c' ->
    ∃ c, clientStates_ w !! i = Some c ∧ zlen (makeBufferedView c') <= zlen (makeBufferedView c) ∧
      (excess c = 0%nat -> excess c' = 0%nat) ∧ (status c' = status c ∨ status c' = Closing)).
  { intros w w1 i c' He (c & Hc & Hb & Ho & _ & _ & Hs)%He. exists c. unfold excess.
    rewrite !view_drop, Hb, Ho. auto with lia. }
  induction fuel as [|fuel IH]; intros w i c' Hc'; [by eapply (Hev w w)|]. cbn in Hc'.
  destruct (clientStates_ w !! id) as [c|] eqn:Hc; [|by eapply (Hev w w)].
  destruct (negb (status c =s Connected)); [by eapply (Hev w w)|].
  destruct (takeFrame (makeBufferedView c)) as [| | |t p n]; [by eapply (Hev w w)|..].
  1,2: eapply Hev, Hc'; etrans; [apply error_evolves | apply disconnect_evolves].
  apply IH in Hc' as (c1 & Hc1 & ? & ? & ?). eapply Hev in Hc1 as (c2 & Hc2 & ? & ? & ?); [|apply handleFrame_evolves].
  cbn in Hc2. apply lookup_insert_Some in Hc2 as [[<- <-]|[_ Hc2]].
  - exists c. destruct (consume_view c n) as [Hv He], (consume_fields c n) as [Hs _]. split; [done|].
    rewrite Hv, Hs in *. unfold zlen in *. rewrite length_drop in *. split; [lia|]. intuition congruence.
  - exists c2. split; [done|]. split; [lia|]. intuition congruence.
Qed.

(** The client is past the handshake and [n] more bytes stay within the limit. *)
Definition admits (w : World) (id : ConnectionId) (n : Z) : Prop :=
  ∀ c, clientStates_ w !! id = Some c ->
    status c ≠ Handshake ∧ (bufferOffset c <= length (buffer c))%nat ∧
    zlen (makeBufferedView c) + n <= kMaxClientBufferSize.

Lemma received_runs w id d now : admits w id (zlen d) ->
  handleDataReceived cfg react rand w id d now = runFrames cfg react rand (grow w id d now) id now.
Proof.
  intros Ha. unfold handleDataReceived, grow. destruct (clientStates_ w !! id) as [c|] eqn:Hc.
  - assert (alter (fun c => bufferData c d now) id (clientStates_ w) = <[id := bufferData c d now]> (clientStates_ w)) as ->.
    { apply map_eq. intros i. destruct (decide (i = id)) as [->|].
      - by rewrite lookup_alter_eq, lookup_insert_eq, Hc.
      - by rewrite lookup_alter_ne, lookup_insert_ne. }
    destruct (Ha c Hc) as [Hs _]. destruct (status c) eqn:Es; [done|done|].
    unfold runFrames. cbn. rewrite lookup_insert_eq. cbn. by rewrite Es.
  - unfold runFrames. cbn. rewrite lookup_alter_eq, Hc. cbn. destruct w as [net m l]; unfold setClients; cbn in *.
    f_equal.     apply map_eq. intros i. destruct (decide (i = id)) as [->|]; [by rewrite lookup_alter_eq, Hc|].
    by rewrite lookup_alter_ne.
Qed.

Lemma grow_admits w id d now n :
  admits w id (zlen d + n) -> admits (runFrames cfg react rand (grow w id d now) id now) id n.
Proof.
  intros Ha c' (c1 & Hc1 & Hl & He & Hs)%frames_keep. cbn in Hc1. rewrite lookup_alter_eq in Hc1.
  destruct (clientStates_ w !! id) as [c|] eqn:Hc; [|done]. injection Hc1 as <-.
  destruct (Ha c Hc) as (H1 & H2 & H3). assert (Hx : excess c = 0%nat) by (unfold excess; lia).
  destruct (bufferData_view c d now Hx) as [Hv Hx']. rewrite Hv, zlen_app in Hl.
  specialize (He Hx'). unfold excess in He. split_and!; [|lia|lia].
  cbn in Hs. destruct Hs; congruence.
Qed.

Lemma received_split w id d1 d2 now now1 now2 :
  admits w id (zlen d1 + zlen d2) ->
  handleDataReceived cfg react rand (handleDataReceived cfg react rand w id d1 now1) id d2 now2 ≡
  handleDataReceived cfg react rand w id (d1 ++ d2) now.
Proof.
  intros Ha. pose proof (zlen_nonneg d1). pose proof (zlen_nonneg d2).
  assert (Ha1 : admits w id (zlen d1)) by (intros c Hc; destruct (Ha c Hc) as (? & ? & ?); split_and!; [done|lia..]).
  rewrite (received_runs w id d1), (received_runs w id (d1 ++ d2)) by (try rewrite zlen_app; done).
  rewrite received_runs by (by apply grow_admits). symmetry.
  assert (Hx : ∀ c, clientStates_ w !! id = Some c -> excess c = 0%nat)
    by (intros c Hc; destruct (Ha c Hc) as (_ & ? & _); unfold excess; lia).
  unfold runFrames at 1 3. apply frames_grown; [| |lia|lia].
  - split; cbn; [done..|]. intros i. unfold grownAt. destruct (decide (i = id)) as [->|].
    + rewrite !lookup_alter_eq. destruct (clientStates_ w !! id) as [c|] eqn:Hc; constructor.
      destruct (bufferData_view c d1 now1 (Hx c eq_refl)), (bufferData_view c (d1 ++ d2) now (Hx c eq_refl)) as [E ?].
      split_and!; try done. rewrite E, app_assoc. by f_equal.
    + rewrite !lookup_alter_ne by done. by destruct (clientStates_ w !! i); constructor.
  - intros c1 Hc1. cbn in Hc1. rewrite lookup_alter_eq in Hc1.
    destruct (clientStates_ w !! id) as [c|] eqn:Hc; [|done]. injection Hc1 as <-.
    rewrite (proj1 (bufferData_view c d1 now1 (Hx c eq_refl))), !zlen_app. destruct (Ha c Hc) as (_ & _ & ?). lia.
Qed.

(** C3. What a connected client sends is interpreted the same however TCP cuts it: any
    segments, received at any times, leave the transport, the callbacks made and every
    client's state (up to the layout of the buffers) as one delivery of all the bytes
    does, whatever the callbacks do on the server.  The pending bytes must stay within the
    buffer limit. *)
Theorem ws_segmentation w id seg segs now :
  admits w id (zlen (concat (seg :: segs).*1)) ->
  fold_left (fun w s => handleDataReceived cfg react rand w id s.1 s.2) (seg :: segs) w ≡
  handleDataReceived cfg react rand w id (concat (seg :: segs).*1) now.
Proof.
  revert w seg. induction segs as [|s2 segs IH]; intros w [d1 now1] Ha.
  - cbn in *. rewrite app_nil_r in *. rewrite !received_runs by done.
    apply frames_equiv; [|lia|lia].
    assert (Hx : offsetsOk w id) by (intros c Hc; destruct (Ha c Hc) as (_ & ? & _); unfold excess; lia).
    apply grown_equiv, grow_grown, Hx.
  - cbn [fold_left fst snd].
    set (w1 := handleDataReceived cfg react rand w id d1 now1).
    change (concat ((d1, now1) :: s2 :: segs).*1) with (d1 ++ concat (s2 :: segs).*1) in *.
    rewrite zlen_app in Ha. pose proof (zlen_nonneg (concat (s2 :: segs).*1)).
    etrans; [apply (IH w1 s2)|by apply received_split].
    unfold w1. rewrite received_runs; [by apply grow_admits|].
    intros c Hc. destruct (Ha c Hc) as (? & ? & ?). split_and!; [done|lia..].
Qed.

End Segments.

(** ** Delivery of messages *)

(** A complete text or binary message. *)
Definition dataFrame (f : frame) : Prop :=
  valid_frame f ∧ f_fin f = true ∧ (f_type f = Text ∨ f_type f = Binary).

Definition eventOf (id : ConnectionId) (f : frame) : Event :=
  match f_type f with Binary => OnBinary id (f_payload f) | _ => OnText id (f_payload f) end.

Lemma takeFrame_wire v f rest :
  valid_frame f -> f_fin f = true -> v `prefix_of` wire f ++ rest -> zlen v <= kMaxClientBufferSize ->
  takeFrame v = if zlen v <? zlen (wire f) then Nothing else Took (f_type f) (f_payload f) (length (wire f)).
Proof. intros Hf Hfin Hpre Hb. apply (takeFrameWith_wire _ _ _ _ rest); [done | cbn; by rewrite Hfin | done | cbn; by apply Z.ltb_ge]. Qed.

Section Delivery.
Context (cfg : Config) (react : list Event -> list UserCall) (rand : nat -> Z).
Context (silent : ∀ e, react e = []) (hasText : messageCallback_ cfg = true)
  (hasBinary : ownedBinaryCallback_ cfg || binaryCallback_ cfg = true).

(** A connected client whose pending bytes, with those still under way, are the images of
    the frames [fs], the first of them not complete. *)
Record awaiting (w : World) (id : ConnectionId) (fs : list frame) (more : list byte) : Prop := {
  aw_client : ∃ c, clientStates_ w !! id = Some c ∧ status c = Connected ∧ excess c = 0%nat ∧
    makeBufferedView c ++ more = concat (wire <$> fs) ∧
    match fs with [] => True | f :: _ => zlen (makeBufferedView c) < zlen (wire f) end
}.

Lemma handleFrame_data w id f now :
  f_type f = Text ∨ f_type f = Binary ->
  handleFrame cfg react rand w id (f_type f) (f_payload f) now = emit w (eventOf id f).
Proof.
  unfold eventOf. intros [-> | ->]; cbn; unfold callback; rewrite silent; cbn; [by rewrite hasText|].
  apply orb_true_iff in hasBinary as [-> | ->]; [done|]. by case_match.
Qed.

Lemma frames_deliver id now more fs : ∀ fuel w c,
  clientStates_ w !! id = Some c -> status c = Connected -> excess c = 0%nat ->
  makeBufferedView c ++ more = concat (wire <$> fs) -> Forall dataFrame fs ->
  zlen (makeBufferedView c) <= kMaxClientBufferSize -> (pendingBytes w id < fuel)%nat ->
  ∃ k, let w' := handleFrames cfg react rand fuel w id now in
    tcpServer_ w' = tcpServer_ w ∧ log w' = log w ++ (eventOf id <$> take k fs) ∧ awaiting w' id (drop k fs) more.
Proof.
  induction fs as [|f fs IH]; intros [|fuel] w c Hc Hs He Hv Hfs Hb Hf; try lia.
  - exists 0%nat. cbn. rewrite Hc, Hs. cbn. apply app_nil in Hv as [Hv ->]. rewrite Hv. cbn.
    split_and!; [done | by rewrite app_nil_r |]. constructor. exists c. rewrite Hv. done.
  - apply Forall_cons in Hfs as [(Hval & Hfin & Ht) Hfs]. cbn [handleFrames]. rewrite Hc, Hs. cbn [negb bool_decide].
    cbn [fmap list_fmap concat] in Hv.
    assert (Hpre : makeBufferedView c `prefix_of` wire f ++ concat (wire <$> fs)) by (exists more; by rewrite Hv).
    rewrite (takeFrame_wire _ f _ Hval Hfin Hpre Hb). rewrite bool_decide_eq_true_2 by done. cbn [negb].
    destruct (Z.ltb_spec (zlen (makeBufferedView c)) (zlen (wire f))) as [Hlt|Hge].
    + exists 0%nat. split_and!; [done | by rewrite app_nil_r |]. constructor. exists c. done.
    + rewrite handleFrame_data by done. destruct (consume_view c (length (wire f))) as [Hv' He'].
      destruct (consume_fields c (length (wire f))) as [Hs' _].
      destruct Hpre as [x Hx]. assert (Hvx : makeBufferedView c = wire f ++ drop (length (wire f)) (makeBufferedView c)).
      { rewrite <- (take_drop (length (wire f)) (makeBufferedView c)) at 1. f_equal.
        rewrite <- (take_app_le _ x), <- Hx, take_app_length by (unfold zlen in Hge; lia). done. }
      assert (Hlen : length (makeBufferedView c) = (length (wire f) + length (drop (length (wire f)) (makeBufferedView c)))%nat)
        by (rewrite Hvx at 1; by rewrite length_app).
      destruct (IH fuel (emit (setClients w (<[id := consume c (length (wire f))]> (clientStates_ w))) (eventOf id f))
        (consume c (length (wire f)))) as (k & Hn & Hl & Ha).
      * cbn. by rewrite lookup_insert_eq.
      * congruence.
      * done.
      * rewrite Hv'. rewrite Hvx, <- app_assoc in Hv. by apply app_inv_head in Hv.
      * done.
      * rewrite Hv'. unfold zlen in *. lia.
      * unfold pendingBytes in *. cbn [emit setClients clientStates_]. rewrite lookup_insert_eq, Hv'. rewrite Hc in Hf.
        assert (0 < length (wire f))%nat by (unfold wire; cbn; lia).
        lia.
      * exists (S k). cbn in Hn, Hl |- *. rewrite Hn, Hl, <- app_assoc. done.
Qed.

(** One segment: the frames it completes are delivered, in order. *)
Lemma received_delivers w id now d more fs :
  awaiting w id fs (d ++ more) -> Forall dataFrame fs ->
  zlen d <= kMaxClientBufferSize -> Forall (fun f => zlen d + zlen (wire f) <= kMaxClientBufferSize) fs ->
  ∃ k, let w' := handleDataReceived cfg react rand w id d now in
    tcpServer_ w' = tcpServer_ w ∧ log w' = log w ++ (eventOf id <$> take k fs) ∧ awaiting w' id (drop k fs) more.
Proof.
  intros [(c & Hc & Hs & He & Hv & Hlt)] Hfs Hd Hsz. unfold handleDataReceived. rewrite Hc, Hs.
  destruct (bufferData_view c d now He) as [Hv' He'].
  eapply (frames_deliver id now more fs _ (setClients w (<[id := bufferData c d now]> (clientStates_ w)))).
  - cbn. by rewrite lookup_insert_eq.
  - done.
  - done.
  - by rewrite Hv', <- app_assoc.
  - done.
  - rewrite Hv', zlen_app. destruct fs as [|f fs].
    + apply app_nil in Hv as [-> _]. change (@zlen byte []) with 0. lia.
    + apply Forall_cons in Hsz as [? _]. lia.
  - lia.
Qed.

Lemma segments_deliver id segs : ∀ w fs,
  awaiting w id fs (concat segs.*1) -> Forall dataFrame fs ->
  Forall (fun s => zlen s.1 <= kMaxClientBufferSize ∧
                   Forall (fun f => zlen s.1 + zlen (wire f) <= kMaxClientBufferSize) fs) segs ->
  let w' := fold_left (fun w s => handleDataReceived cfg react rand w id s.1 s.2) segs w in
  tcpServer_ w' = tcpServer_ w ∧ log w' = log w ++ (eventOf id <$> fs) ∧ awaiting w' id [] [].
Proof.
  induction segs as [|[d now] segs IH]; intros w fs Ha Hfs Hsz; cbn [fold_left].
  - destruct fs as [|f fs]; [by rewrite app_nil_r|].
    destruct Ha as [(c & _ & _ & _ & Hv & Hlt)]. cbn [fmap list_fmap concat] in Hv. rewrite app_nil_r in Hv.
    rewrite Hv, zlen_app in Hlt. pose proof (zlen_nonneg (concat (wire <$> fs))). lia.
  - apply Forall_cons in Hsz as [[Hd Hdf] Hsz]. cbn [fst snd] in *.
    change (concat ((d, now) :: segs).*1) with (d ++ concat segs.*1) in Ha.
    destruct (received_delivers _ _ now _ _ _ Ha Hfs Hd Hdf) as (k & Hn & Hl & Ha'). cbv zeta in *.
    destruct (IH _ _ Ha') as (Hn' & Hl' & Ha''); [by apply Forall_drop| |].
    + eapply Forall_impl; [exact Hsz|]. cbn. intros s [? ?]. split; [done|by apply Forall_drop].
    + split_and!; [congruence | | done]. rewrite Hl', Hl, <- app_assoc, <- fmap_app. by rewrite take_drop.
Qed.

End Delivery.

Definition messageEvent (id : ConnectionId) (m : Message) : Event :=
  if m_binary m then OnBinary id (m_data m) else OnText id (m_data m).

(** End to end: the frames a client's [encodeFrame] makes of its text and binary
    messages, concatenated and cut into segments of any sizes, reach the message callbacks
    of a server with that client connected exactly once each, in order and unaltered;
    nothing is sent, and the buffer ends empty.  Each frame together with one segment must
    fit the buffer limit. *)
Theorem ws_delivery cfg react rand (w : World) id c (msgs : list Message) segs :
  (∀ e, react e = []) -> messageCallback_ cfg = true ->
  ownedBinaryCallback_ cfg || binaryCallback_ cfg = true ->
  clientStates_ w !! id = Some c -> status c = Connected ->
  makeBufferedView c = [] -> (bufferOffset c <= length (buffer c))%nat ->
  Forall (fun m => zlen (m_data m) < 2 ^ 63) msgs ->
  concat segs.*1 = concat (encodeMessage <$> msgs) ->
  Forall (fun s => zlen s.1 <= kMaxClientBufferSize ∧
    Forall (fun m => zlen s.1 + zlen (encodeMessage m) <= kMaxClientBufferSize) msgs) segs ->
  let w' := fold_left (fun w s => handleDataReceived cfg react rand w id s.1 s.2) segs w in
  tcpServer_ w' = tcpServer_ w ∧ log w' = log w ++ (messageEvent id <$> msgs) ∧
  ∃ c', clientStates_ w' !! id = Some c' ∧ status c' = Connected ∧ makeBufferedView c' = [].
Proof.
  intros Hsil Ht Hb Hc Hs Hv Ho Hlen Hcat Hsz w'.
  assert (Ew : encodeMessage <$> msgs = wire <$> (messageFrame <$> msgs))
    by (rewrite <- list_fmap_compose; apply list_fmap_ext; intros; apply encodeMessage_wire).
  destruct (segments_deliver cfg react rand Hsil Ht Hb id segs w (messageFrame <$> msgs)) as (Hn & Hl & [(c' & Hc' & Hs' & _ & Hv' & _)]).
  - constructor. exists c. rewrite Hv, Hcat, Ew. split_and!; [done..|unfold excess; lia|done|].
    destruct msgs as [|m msgs]; [done|]. cbn [fmap list_fmap]. unfold zlen, wire. cbn [length app]. lia.
  - apply Forall_fmap. eapply Forall_impl; [exact Hlen|]. intros m Hm. split_and!; cbn; [|done|destruct (m_binary m); auto].
    split; cbn; [done | | by destruct (m_binary m) | by destruct (m_binary m)].
    intros key. case_match; [by intros [= <-]|done].
  - eapply Forall_impl; [exact Hsz|]. cbn. intros s [? Hf]. split; [done|]. apply Forall_fmap.
    eapply Forall_impl; [exact Hf|]. cbn. intros m. by rewrite encodeMessage_wire.
  - cbv zeta in *. fold w' in Hn, Hl. split_and!; [done| |].
    + rewrite Hl. f_equal. rewrite <- list_fmap_compose. apply list_fmap_ext. intros i m _. cbn.
      unfold eventOf, messageEvent. cbn. by destruct (m_binary m).
    + exists c'. by apply app_nil in Hv' as [? _].
Qed.

(** ** Invariants of the whole server *)

(** A predicate kept by the elementary changes is kept by every operation. *)
Section Closed.
Context (cfg : Config) (react : list Event -> list UserCall) (rand : nat -> Z) (P : World -> Prop).

Definition quietEvent (e : Event) : Prop :=
  match e with OnConnected _ _ | OnDisconnected _ _ _ => False | _ => True end.

Class Stable : Prop := {
  stable_net w net : P w -> P (mkWorld net (clientStates_ w) (log w));
  stable_closed w id r : P w -> P (handleClientDisconnected cfg w id r);
  stable_emit w e : quietEvent e -> P w -> P (emit w e);
  stable_closing w id c : clientStates_ w !! id = Some c -> status c = Connected -> P w ->
    P (setClients w (<[id := setStatus c Closing]> (clientStates_ w)));
  stable_activity w id t : P w -> P (updateLastActivity w id t);
  stable_consume w id c n : clientStates_ w !! id = Some c -> P w ->
    P (setClients w (<[id := consume c n]> (clientStates_ w)));
  stable_buffer w id c d t : clientStates_ w !! id = Some c -> P w ->
    P (setClients w (<[id := bufferData c d t]> (clientStates_ w)));
  stable_connected w id c p n a : clientStates_ w !! id = Some c -> status c = Handshake -> P w ->
    P (emit (setClients w (<[id := consume (setSubprotocol (setStatus c Connected) p) n]> (clientStates_ w)))
         (OnConnected id a))
}.

Context `{!Stable} (announces : clientConnectedCallback_ cfg = true).

Lemma stable_fold {B} (f : World -> B -> World) l :
  (∀ w b, P w -> P (f w b)) -> ∀ w, P w -> P (fold_left f l w).
Proof. intros Hf. induction l as [|b l IH]; intros w Hw; cbn; [done|]. by apply IH, Hf. Qed.

Lemma stable_afterNet w net cl : P w -> P (afterNet cfg w net cl).
Proof. intros Hw. apply stable_fold; [intros; by apply stable_closed | by apply stable_net]. Qed.

Lemma stable_error w code m : P w -> P (handleError cfg w code m).
Proof. intros Hw. unfold handleError. case_match; [by apply stable_emit|done]. Qed.

Lemma stable_netDisconnect w id : P w -> P (netDisconnect cfg w id).
Proof. intros Hw. unfold netDisconnect. case_match. by apply stable_afterNet. Qed.

Lemma stable_netClose w id : P w -> P (netCloseAfterWrites cfg w id).
Proof. intros Hw. unfold netCloseAfterWrites. case_match. by apply stable_afterNet. Qed.

Lemma stable_send w id f : P w -> P (sendFrameToClient cfg w id f).1.
Proof. intros Hw. unfold sendFrameToClient. repeat case_match. by apply stable_afterNet. Qed.

Lemma stable_broadcast w f : P w -> P (broadcastFrame cfg w f).
Proof. intros Hw. unfold broadcastFrame. case_match. by apply stable_afterNet. Qed.

Lemma stable_disconnect w id code r : P w -> P (disconnectClient cfg rand w id code r).
Proof.
  intros Hw. unfold disconnectClient. destruct (clientStates_ w !! id) as [c|] eqn:Hc;
    [|by apply stable_netDisconnect].
  destruct (status c) eqn:Hs; [by apply stable_netDisconnect | | by apply stable_netClose].
  pose proof (stable_send _ id (encodeCloseFrame rand code r) (stable_closing _ _ _ Hc Hs Hw)) as H1.
  destruct (sendFrameToClient _ _ _ _) as [w1 ok]. cbn in H1.
  destruct (negb ok); [by apply stable_netDisconnect | by apply stable_netClose].
Qed.

Lemma stable_userCall w u : P w -> P (userCall cfg rand w u).
Proof. intros Hw. destruct u; cbn; eauto using stable_send, stable_broadcast, stable_disconnect. Qed.

Lemma stable_calls w e : P w -> P (fold_left (userCall cfg rand) (react e) w).
Proof. apply stable_fold, stable_userCall. Qed.

Lemma stable_handleFrame w id t p now : P w -> P (handleFrame cfg react rand w id t p now).
Proof.
  intros Hw. destruct t; cbn; repeat case_match;
    try first [done | by apply stable_calls, stable_emit | by apply stable_disconnect
              | by apply stable_send | by apply stable_activity].
Qed.

Lemma stable_handleFrames id now fuel : ∀ w, P w -> P (handleFrames cfg react rand fuel w id now).
Proof.
  induction fuel as [|fuel IH]; intros w Hw; cbn; [done|].
  destruct (clientStates_ w !! id) as [c|] eqn:Hc; [|done]. case_match; [done|].
  case_match; [done | by apply stable_disconnect, stable_error.. |].
  apply IH, stable_handleFrame. by apply stable_consume.
Qed.

(** The closed callbacks only remove clients. *)
Lemma afterNet_sub w net cl : clientStates_ (afterNet cfg w net cl) ⊆ clientStates_ w.
Proof.
  unfold afterNet. change (clientStates_ w) with (clientStates_ (mkWorld net (clientStates_ w) (log w))) at 2.
  generalize (mkWorld net (clientStates_ w) (log w)). induction cl as [|[id r] cl IH]; intros w0; cbn; [done|].
  etrans; [apply IH|]. unfold handleClientDisconnected. repeat case_match; cbn; apply delete_subseteq.
Qed.

Lemma stable_handshake w id c now :
  clientStates_ w !! id = Some c -> status c = Handshake -> P w -> P (handleHandshake cfg react rand w id now).
Proof.
  intros Hc Hs Hw. unfold handleHandshake. rewrite Hc.
  destruct (readHandshake c) as [[n [u|]]|]; [|by apply stable_disconnect, stable_error|done].
  destruct (negb (supportedUpgrade u)); [by apply stable_disconnect, stable_error|].
  set (response := decideHandshake cfg id (handshakeRequest u)).
  destruct (negb (accept response)).
  - pose proof (stable_send _ id (buildHandshakeRejection response) Hw) as H1.
    destruct (sendFrameToClient _ _ _ _) as [w1 ok]. cbn in H1.
    apply stable_netClose. destruct ok; [done|by apply stable_error].
  - pose proof (stable_send _ id (buildHandshakeResponse (keyValue u) response) Hw) as H1.
    assert (H2 : clientStates_ (sendFrameToClient cfg w id (buildHandshakeResponse (keyValue u) response)).1 ⊆ clientStates_ w).
    { unfold sendFrameToClient. repeat case_match. apply afterNet_sub. }
    destruct (sendFrameToClient _ _ _ _) as [w1 ok]. cbn in H1, H2.
    destruct (negb ok); [by apply stable_disconnect, stable_error|].
    destruct (clientStates_ w1 !! id) as [c1|] eqn:Hc1; [|done].
    assert (c1 = c) as -> by (pose proof (lookup_weaken _ _ _ _ Hc1 H2); congruence). rewrite announces.
    assert (H3 : P (callback cfg react rand (setClients w1 (<[id := consume (setSubprotocol (setStatus c Connected)
      (acceptedSubprotocol response)) n]> (clientStates_ w1))) (OnConnected id (clientAddress c))))
      by (by apply stable_calls, stable_connected).
    destruct (negb _); [by apply stable_handleFrames|done].
Qed.

Lemma stable_received w id d now : P w -> P (handleDataReceived cfg react rand w id d now).
Proof.
  intros Hw. unfold handleDataReceived. destruct (clientStates_ w !! id) as [c|] eqn:Hc; [|done].
  pose proof (stable_buffer w id c d now Hc Hw) as H1. destruct (status c) eqn:Hs; [|by apply stable_handleFrames|done].
  eapply stable_handshake; [cbn; apply lookup_insert_eq | done | done].
Qed.

Lemma stable_ping w now : P w -> P (sendPingToAllClients cfg rand w now).
Proof.
  intros Hw. unfold sendPingToAllClients. apply stable_fold; [intros; by apply stable_disconnect|].
  apply stable_fold; [intros; by apply stable_send|done].
Qed.

End Closed.

(** What drives the server: the transport's callbacks, the user's calls, the timer.  A
    session identifier is new when the transport announces it. *)
Inductive serverStep (cfg : Config) (react : list Event -> list UserCall) (rand : nat -> Z) (w : World) : World -> Prop :=
  | ss_connected id address now : clientStates_ w !! id = None ->
      serverStep cfg react rand w (handleClientConnected cfg w id address now)
  | ss_received id data now : serverStep cfg react rand w (handleDataReceived cfg react rand w id data now)
  | ss_disconnected id reason : serverStep cfg react rand w (handleClientDisconnected cfg w id reason)
  | ss_user u : serverStep cfg react rand w (userCall cfg rand w u)
  | ss_ping now : serverStep cfg react rand w (sendPingToAllClients cfg rand w now)
  | ss_net net : serverStep cfg react rand w (mkWorld net (clientStates_ w) (log w)).

Inductive serverReachable (cfg : Config) (react : list Event -> list UserCall) (rand : nat -> Z) (net : Net) : World -> Prop :=
  | sr_init : serverReachable cfg react rand net (mkWorld net ∅ [])
  | sr_step w w' : serverReachable cfg react rand net w -> serverStep cfg react rand w w' ->
      serverReachable cfg react rand net w'.

(** The order in which a client's callbacks may come: [Some true] while it is connected,
    [None] after a callback out of turn. *)
Definition lifeStep (id : ConnectionId) (st : option bool) (e : Event) : option bool :=
  match e with
  | OnConnected i _ => if decide (i = id) then (if st is Some false then Some true else None) else st
  | OnDisconnected i _ _ => if decide (i = id) then (if st is Some true then Some false else None) else st
  | _ => st
  end.

Definition life (id : ConnectionId) (l : list Event) : option bool := fold_left (lifeStep id) l (Some false).

Definition isOpen (w : World) (id : ConnectionId) : bool :=
  match clientStates_ w !! id with Some c => negb (status c =s Handshake) | None => false end.

Record serverInv (cfg : Config) (w : World) : Prop := {
  si_capacity : Z.of_nat (size (clientStates_ w)) <= maxConnections_ cfg;
  si_offsets id c : clientStates_ w !! id = Some c -> excess c = 0%nat;
  si_life id : life id (log w) = Some (isOpen w id)
}.

Lemma life_snoc id l e : life id (l ++ [e]) = lifeStep id (life id l) e.
Proof. apply fold_left_app. Qed.

(** Replacing the state of a known client by one of the same standing. *)
Lemma serverInv_set cfg w id c c' :
  serverInv cfg w -> clientStates_ w !! id = Some c -> excess c' = 0%nat ->
  negb (status c' =s Handshake) = negb (status c =s Handshake) ->
  serverInv cfg (setClients w (<[id := c']> (clientStates_ w))).
Proof.
  intros [Hcap Hoff Hlife] Hc He Hs. split; cbn [clientStates_ setClients updateLastActivity log emit].
  - by rewrite map_size_insert_Some by eauto.
  - intros i x [[_ <-]|[_ Hx]]%lookup_insert_Some; eauto.
  - intros i. rewrite Hlife. unfold isOpen. cbn. destruct (decide (i = id)) as [->|].
    + by rewrite lookup_insert_eq, Hc, Hs.
    + by rewrite lookup_insert_ne.
Qed.

Lemma serverInv_closed cfg w id r : clientDisconnectedCallback_ cfg = true ->
  serverInv cfg w -> serverInv cfg (handleClientDisconnected cfg w id r).
Proof.
  intros Hcb [Hcap Hoff Hlife]. unfold handleClientDisconnected. rewrite Hcb, andb_true_r.
  assert (Hsz : (size (delete id (clientStates_ w)) <= size (clientStates_ w))%nat)
    by (rewrite map_size_delete; case_match; cbn; lia).
  fold (isOpen w id). specialize (Hlife id) as Hid.
  assert (Hnew : ∀ i, isOpen (setClients w (delete id (clientStates_ w))) i = if decide (i = id) then false else isOpen w i).
  { intros i. unfold isOpen. cbn. case_decide as E; [subst; by rewrite lookup_delete_eq|by rewrite lookup_delete_ne]. }
  destruct (isOpen w id) eqn:Eo; split; cbn [clientStates_ setClients emit log]; try lia;
    try (intros i x [_ Hx]%lookup_delete_Some; eauto; fail).
  - intros i. change (isOpen (emit ?x _) i) with (isOpen x i).
    rewrite Hnew, life_snoc, Hlife. cbn [lifeStep].
    destruct (decide (id = i)) as [<-|]; [rewrite Eo; by destruct (decide (id = id))|].
    destruct (decide (i = id)); congruence.
  - intros i. rewrite Hnew, Hlife. case_decide; [subst; by rewrite Eo|done].
Qed.

#[local] Instance serverInv_stable cfg : clientDisconnectedCallback_ cfg = true -> Stable cfg (serverInv cfg).
Proof.
  intros Hcb. split.
  - intros w net [? ? ?]. by split.
  - intros. by apply serverInv_closed.
  - intros w e He [? ? Hlife]. split; [done..|]. intros id. cbn [log emit]. rewrite life_snoc, Hlife. by destruct e.
  - intros w id c Hc Hs Hw. eapply serverInv_set; [done|done|exact (si_offsets _ _ Hw id c Hc)|by rewrite Hs].
  - intros w id t [Hcap Hoff Hlife]. split; cbn [clientStates_ setClients updateLastActivity log emit].
    + rewrite <- !size_dom in *. by rewrite dom_alter_L.
    + intros i x Hx. apply lookup_alter_Some in Hx as [(_ & y & Hy & ->)|[_ Hx]]; [exact (Hoff _ y Hy)|eauto].
    + intros i. rewrite Hlife. unfold isOpen. cbn. destruct (decide (i = id)) as [->|].
      * rewrite lookup_alter_eq. by destruct (clientStates_ w !! id).
      * by rewrite lookup_alter_ne.
  - intros w id c n Hc Hw. destruct (consume_view c n), (consume_fields c n) as [Hs _].
    eapply serverInv_set; [done..|]. by rewrite Hs.
  - intros w id c d t Hc Hw. eapply serverInv_set; [done|done| |done].
    apply bufferData_view. by apply (si_offsets _ _ Hw id).
  - intros w id c p n a Hc Hs [Hcap Hoff Hlife]. set (c' := consume _ n).
    assert (Hs' : status c' = Connected) by apply consume_fields.
    split; cbn [clientStates_ setClients emit log].
    + by rewrite map_size_insert_Some by eauto.
    + intros i x [[_ <-]|[_ Hx]]%lookup_insert_Some; [apply consume_view|eauto].
    + intros i. rewrite life_snoc, Hlife. unfold isOpen. cbn [clientStates_ setClients emit log lifeStep].
      destruct (decide (id = i)) as [<-|].
      * rewrite Hc, lookup_insert_eq, Hs, Hs'. done.
      * by rewrite lookup_insert_ne.
Qed.

(** Whatever the transport, the peers, the timer and the user's calls do, in every
    order: at most [maxConnections_] clients have state, no read offset lies past its
    buffer, and for every client the connected and the disconnected callback alternate,
    starting with the connected one, a client being announced exactly while its state is
    past the handshake. *)
Theorem ws_lifecycle cfg react rand net w :
  clientConnectedCallback_ cfg = true -> clientDisconnectedCallback_ cfg = true -> 0 <= maxConnections_ cfg ->
  serverReachable cfg react rand net w ->
  Z.of_nat (size (clientStates_ w)) <= maxConnections_ cfg ∧
  (∀ id c, clientStates_ w !! id = Some c -> (bufferOffset c <= length (buffer c))%nat) ∧
  ∀ id, life id (log w) = Some (isOpen w id).
Proof.
  intros Hcb1 Hcb2 Hmax Hr. assert (Hinv : serverInv cfg w).
  { pose proof (serverInv_stable cfg Hcb2). induction Hr as [|w w' _ IH Hs]; [split; cbn; [done|done|done]|].
    destruct Hs as [id a now Hid|id d now|id r|u|now|n].
    - unfold handleClientConnected. destruct (Z.leb_spec (maxConnections_ cfg) (Z.of_nat (size (clientStates_ w)))).
      + apply (stable_netDisconnect cfg _). rewrite delete_id by done. by destruct w.
      + destruct IH as [Hcap Hoff Hlife]. split; cbn [clientStates_ setClients updateLastActivity log emit].
        * rewrite map_size_insert_None by done. lia.
        * intros i x [[_ <-]|[_ Hx]]%lookup_insert_Some; [done|eauto].
        * intros i. rewrite Hlife. unfold isOpen. cbn. destruct (decide (i = id)) as [->|].
          -- by rewrite lookup_insert_eq, Hid.
          -- by rewrite lookup_insert_ne.
    - by apply (stable_received cfg react rand _).
    - by apply serverInv_closed.
    - by apply (stable_userCall cfg rand _).
    - by apply (stable_ping cfg rand _).
    - by apply (stable_net cfg). }
  split_and!; [apply Hinv | | apply Hinv]. intros id c Hc.
  pose proof (si_offsets _ _ Hinv id c Hc) as E. unfold excess in E. lia.
Qed.

(** ** The upgrade *)

Section Upgrading.
Context (cfg : Config) (react : list Event -> list UserCall) (rand : nat -> Z).

(** A client in the handshake from which [acc] has been received; nothing else changed. *)
Definition upgrading (w0 : World) (id : ConnectionId) (a : Address) (acc : list byte) (w : World) : Prop :=
  tcpServer_ w = tcpServer_ w0 ∧ log w = log w0 ∧
  ∃ c, clientStates_ w !! id = Some c ∧ status c = Handshake ∧ excess c = 0%nat ∧
    makeBufferedView c = acc ∧ clientAddress c = a.

Lemma upgrading_buffer w0 id a acc w d now :
  upgrading w0 id a acc w ->
  ∃ w1, handleDataReceived cfg react rand w id d now = handleHandshake cfg react rand w1 id now ∧
    upgrading w0 id a (acc ++ d) w1.
Proof.
  intros (Hn & Hl & c & Hc & Hs & He & Hv & Ha). unfold handleDataReceived. rewrite Hc, Hs.
  eexists. split; [done|]. split_and!; [done..|]. destruct (bufferData_view c d now He) as [Hv' He'].
  exists (bufferData c d now). cbn [clientStates_ setClients]. rewrite lookup_insert_eq, Hv', Hv. done.
Qed.

(** Before the blank line the bytes are only buffered. *)
Lemma upgrading_waits w0 id a acc w now :
  upgrading w0 id a acc w -> find_sub (CRLF ++ CRLF) acc = None ->
  handleHandshake cfg react rand w id now = w.
Proof.
  intros (_ & _ & c & Hc & _ & _ & Hv & _) Hf. unfold handleHandshake, readHandshake, sv_find.
  by rewrite Hc, Hv, drop_0, Hf.
Qed.

Lemma upgrading_segments w0 id a segs : ∀ w acc x i,
  upgrading w0 id a acc w ->
  find_sub (CRLF ++ CRLF) ((acc ++ concat segs.*1) ++ x) = Some i ->
  (length (acc ++ concat segs.*1) < i + 4)%nat ->
  upgrading w0 id a (acc ++ concat segs.*1)
    (fold_left (fun w s => handleDataReceived cfg react rand w id s.1 s.2) segs w).
Proof.
  induction segs as [|[d now] segs IH]; intros w acc x i Hu Hf Hl; cbn [fold_left fst snd];
    [by rewrite app_nil_r|].
  change (concat ((d, now) :: segs).*1) with (d ++ concat segs.*1) in *.
  destruct (upgrading_buffer _ _ _ _ _ d now Hu) as (w1 & -> & H1). rewrite app_assoc in *.
  rewrite (upgrading_waits _ _ _ _ _ _ H1); [by eapply IH|].
  rewrite <- app_assoc in Hf. eapply find_sub_prefix; [exact Hf|]. rewrite length_app in Hl. cbn. lia.
Qed.

End Upgrading.

(** A request cut into segments is answered when its last byte is there, and not before. *)
Lemma handshake_answered cfg react rand (w : World) id c segs d now v net :
  let raw := concat segs.*1 ++ d in
  let u := upgradeOf v (clientAddress c) in
  let response := decideHandshake cfg id (handshakeRequest u) in
  (∀ e, react e = []) -> clientConnectedCallback_ cfg = true ->
  clientStates_ w !! id = Some c -> status c = Handshake -> buffer c = [] -> bufferOffset c = 0%nat ->
  d ≠ [] -> find_sub (CRLF ++ CRLF) raw = Some (length raw - 4)%nat -> parseRequest raw = Some v ->
  supportedUpgrade u = true -> accept response = true ->
  sendToClient (tcpServer_ w) id (buildHandshakeResponse (keyValue u) response) = (net, true, []) ->
  let before := fold_left (fun w s => handleDataReceived cfg react rand w id s.1 s.2) segs w in
  let after := handleDataReceived cfg react rand before id d now in
  tcpServer_ before = tcpServer_ w ∧ log before = log w ∧
  tcpServer_ after = net ∧ log after = log w ++ [OnConnected id (clientAddress c)] ∧
  ∃ c', clientStates_ after !! id = Some c' ∧ status c' = Connected ∧ makeBufferedView c' = [] ∧
    subprotocol c' = acceptedSubprotocol response.
Proof.
  intros raw u response Hsil Hcb Hc Hs Hb Ho Hd Hf Hp Hu Hacc Hsend before after.
  assert (H0 : upgrading w id (clientAddress c) [] w).
  { split_and!; [done..|]. exists c. unfold makeBufferedView, excess. rewrite Hb, Ho. done. }
  pose proof (find_sub_bound _ _ _ Hf) as Hbound. cbn [CRLF app length] in Hbound.
  assert (Hlen : (length (concat segs.*1) < length raw)%nat)
    by (unfold raw; rewrite length_app; destruct d; [done|cbn; lia]).
  assert (H1 : upgrading w id (clientAddress c) (concat segs.*1) before)
    by (eapply (upgrading_segments cfg react rand w id _ segs w []); [done|exact Hf|cbn [app]; lia]).
  destruct (upgrading_buffer cfg react rand _ _ _ _ _ d now H1) as (w2 & Hafter & H2). fold after raw in Hafter, H2.
  destruct H1 as (Hn1 & Hl1 & _). destruct H2 as (Hn2 & Hl2 & c2 & Hc2 & Hs2 & He2 & Hv2 & Ha2).
  split_and!; [done|done|..]; rewrite Hafter; unfold handleHandshake, readHandshake, sv_find;
    rewrite Hc2, Hv2, drop_0, Hf; cbn [fmap option_fmap option_map];
    replace (0 + (length raw - 4) + 4)%nat with (length raw) by lia;
    rewrite firstn_all, Hp, Ha2; fold u; rewrite Hu; cbn [negb]; fold response; rewrite Hacc;
    unfold sendFrameToClient; rewrite Hn2, Hsend; cbn [negb afterNet fold_left clientStates_];
    unfold afterNet; cbn [fold_left clientStates_]; rewrite Hc2, Hcb; unfold callback; rewrite Hsil; cbn [fold_left].
  all: destruct (consume_view (setSubprotocol (setStatus c2 Connected) (acceptedSubprotocol response)) (length raw)) as [Hv3 _].
  all: change (makeBufferedView (setSubprotocol _ _)) with (makeBufferedView c2) in Hv3.
  all: rewrite Hv2, drop_all in Hv3; rewrite Hv3; rewrite bool_decide_eq_true_2 by done; cbn [negb].
  - done.
  - cbn. by rewrite Hl2.
  - eexists. cbn [clientStates_ emit setClients]. rewrite lookup_insert_eq. split; [done|].
    destruct (consume_fields (setSubprotocol (setStatus c2 Connected) (acceptedSubprotocol response)) (length raw)) as (? & _ & ?).
    done.
Qed.

(** The upgrade: a valid request, cut into segments anywhere, is answered once, when
    its last byte is there, with the 101 response for its key and the selected
    subprotocol; the client is then connected with an empty buffer and announced once,
    and nothing happens before.  The transport must take the response. *)
Theorem ws_handshake cfg react rand (w : World) id c segs d now v net :
  let raw := concat segs.*1 ++ d in
  let u := upgradeOf v (clientAddress c) in
  let response := decideHandshake cfg id (handshakeRequest u) in
  (∀ e, react e = []) -> clientConnectedCallback_ cfg = true ->
  clientStates_ w !! id = Some c -> status c = Handshake -> buffer c = [] -> bufferOffset c = 0%nat ->
  d ≠ [] -> find_sub (CRLF ++ CRLF) raw = Some (length raw - 4)%nat -> parseRequest raw = Some v ->
  supportedUpgrade u = true -> accept response = true ->
  sendToClient (tcpServer_ w) id (buildHandshakeResponse (keyValue u) response) = (net, true, []) ->
  let before := fold_left (fun w s => handleDataReceived cfg react rand w id s.1 s.2) segs w in
  let after := handleDataReceived cfg react rand before id d now in
  tcpServer_ before = tcpServer_ w ∧ log before = log w ∧
  tcpServer_ after = net ∧ log after = log w ++ [OnConnected id (clientAddress c)] ∧
  ∃ c', clientStates_ after !! id = Some c' ∧ status c' = Connected ∧ makeBufferedView c' = [] ∧
    subprotocol c' = acceptedSubprotocol response.
Proof. apply handshake_answered. Qed.

(** The limit on the receive buffer is not applied during the handshake: a client that
    never sends the blank line is buffered without bound. *)
Lemma handshake_buffer_unbounded cfg react rand (w : World) id a n now :
  upgrading w id a [] w ->
  upgrading w id a (replicate n x61) (handleDataReceived cfg react rand w id (replicate n x61) now).
Proof.
  assert (Hf : ∀ n, find_sub (CRLF ++ CRLF) (replicate n x61) = None)
    by (intros k; induction k as [|k IH]; cbn [replicate find_sub]; [done|by rewrite IH]).
  intros Hu. destruct (upgrading_buffer cfg react rand _ _ _ _ _ (replicate n x61) now Hu) as (w1 & -> & H1).
  by rewrite (upgrading_waits cfg react rand _ _ _ _ _ now H1 (Hf n)).
Qed.

End Server.

(** ** Concrete executions *)

Definition testConfig : Config (Address := unit) :=
  mkConfig 30000 100 None [] [str "chat"] true true true false true true.

Definition testRand (k : nat) : Z := 0x0123456789ABCDEF + Z.of_nat k.

Definition connectedWorld : World (Net := Recorder) (Address := unit) :=
  mkWorld (mkRecorder [1] [] []) {[1 := mkClient Connected [] 0 tt [] 0]} [].

Definition testMessages : list Message :=
  [mkMessage false (str "hello") true testRand; mkMessage true [x00; xff] true testRand].

Definition testBytes : list byte := concat (encodeMessage <$> testMessages).

(** Two masked messages, cut in the middle of the first frame. *)
Lemma ws_delivery_witness :
  log (fold_left (fun w s => handleDataReceived testConfig (fun _ => []) testRand w 1 s.1 s.2)
         [(take 3 testBytes, 10); (drop 3 testBytes, 20)] connectedWorld) =
  log connectedWorld ++ (messageEvent 1 <$> testMessages).
Proof.
  refine (proj1 (proj2 (ws_delivery testConfig (fun _ => []) testRand connectedWorld 1
    (mkClient Connected [] 0 tt [] 0) testMessages [(take 3 testBytes, 10); (drop 3 testBytes, 20)]
    _ _ _ _ _ _ _ _ _ _))).
  - intros e. reflexivity.
  - reflexivity.
  - reflexivity.
  - apply lookup_singleton_eq.
  - reflexivity.
  - reflexivity.
  - apply Nat.le_0_l.
  - repeat constructor.
  - vm_compute. reflexivity.
  - repeat constructor; vm_compute; discriminate.
Defined.

(** A callback that closes the connection after the first text. *)
Definition closeAfterText (events : list (Event (Address := unit))) : list UserCall :=
  match last events with Some (OnText id _) => [CallDisconnect id 1000 []] | _ => [] end.

Lemma ws_segmentation_witness :
  fold_left (fun w s => handleDataReceived testConfig closeAfterText testRand w 1 s.1 s.2)
    [(take 3 testBytes, 10); (drop 3 testBytes, 20); ([x00], 30)] connectedWorld ≡
  handleDataReceived testConfig closeAfterText testRand connectedWorld 1
    (concat [(take 3 testBytes, 10); (drop 3 testBytes, 20); ([x00], 30)].*1) 5.
Proof.
  apply ws_segmentation. intros c Hc. unfold connectedWorld in Hc. cbn in Hc.
  apply lookup_singleton_Some in Hc as [_ <-].
  split_and!; [discriminate | apply Nat.le_0_l | vm_compute; discriminate].
Defined.

(** The life of client 7: announced by the transport, upgraded, pinged and gone. *)
Definition upgradeRequest : list byte :=
  str "GET /chat HTTP/1.1" ++ CRLF ++ str "Host: example.com" ++ CRLF ++ str "Upgrade: websocket" ++ CRLF ++
  str "Connection: keep-alive, Upgrade" ++ CRLF ++ str "Sec-WebSocket-Key: dGhlIHNhbXBsZSBub25jZQ==" ++ CRLF ++
  str "Sec-WebSocket-Version: 13" ++ CRLF ++ str "Sec-WebSocket-Protocol: superchat, chat" ++ CRLF ++ CRLF.

Definition freshWorld : World (Net := Recorder) (Address := unit) :=
  mkWorld (mkRecorder [7] [] []) {[7 := mkClient Handshake [] 0 tt [] 0]} [].

Definition emptyWorld : World (Net := Recorder) (Address := unit) := mkWorld (mkRecorder [7] [] []) ∅ [].

Lemma ws_lifecycle_witness :
  let w := handleDataReceived testConfig (fun _ => []) testRand
             (handleClientConnected testConfig emptyWorld 7 tt 0) 7 upgradeRequest 5 in
  life 7 (log w) = Some (isOpen w 7).
Proof.
  intros w. refine (proj2 (proj2 (ws_lifecycle testConfig (fun _ => []) testRand (mkRecorder [7] [] []) w _ _ _ _)) 7);
    [reflexivity | reflexivity | vm_compute; discriminate |].
  eapply sr_step; [eapply sr_step; [apply sr_init|]|].
  - apply (ss_connected _ _ _ _ 7 tt 0). reflexivity.
  - apply (ss_received _ _ _ _ 7 upgradeRequest 5).
Defined.

Example lifecycle_connected :
  log (handleDataReceived testConfig (fun _ => []) testRand
         (handleClientConnected testConfig emptyWorld 7 tt 0) 7 upgradeRequest 5) = [OnConnected 7 tt].
Proof. vm_compute. reflexivity. Qed.

Definition requestView : HttpRequestView := default clearedRequest (parseRequest upgradeRequest).

Definition upgradeAnswer : list byte :=
  str "HTTP/1.1 101 Switching Protocols" ++ CRLF ++ str "Upgrade: websocket" ++ CRLF ++
  str "Connection: Upgrade" ++ CRLF ++ str "Sec-WebSocket-Accept: s3pPLMBiTxaQ9kYGzzhZRbK+xOo=" ++ CRLF ++
  str "Sec-WebSocket-Protocol: chat" ++ CRLF ++ CRLF.

(** The sample handshake of RFC 6455, in three segments. *)
Lemma ws_handshake_witness :
  tcpServer_ (handleDataReceived testConfig (fun _ => []) testRand
    (fold_left (fun w s => handleDataReceived testConfig (fun _ => []) testRand w 7 s.1 s.2)
       [(take 10 upgradeRequest, 1); (take 50 (drop 10 upgradeRequest), 2)] freshWorld)
    7 (drop 60 upgradeRequest) 3) = mkRecorder [7] [(7, upgradeAnswer)] [].
Proof.
  refine (proj1 (proj2 (proj2 (ws_handshake testConfig (fun _ => []) testRand freshWorld 7
    (mkClient Handshake [] 0 tt [] 0) [(take 10 upgradeRequest, 1); (take 50 (drop 10 upgradeRequest), 2)]
    (drop 60 upgradeRequest) 3 requestView (mkRecorder [7] [(7, upgradeAnswer)] [])
    _ _ _ _ _ _ _ _ _ _ _ _)))).
  - intros e. reflexivity.
  - reflexivity.
  - apply lookup_singleton_eq.
  - reflexivity.
  - reflexivity.
  - reflexivity.
  - vm_compute. discriminate.
  - vm_compute. reflexivity.
  - vm_compute. reflexivity.
  - vm_compute. reflexivity.
  - vm_compute. reflexivity.
  - vm_compute. reflexivity.
Defined.

(** A close reason of more than 123 bytes makes a control frame that the library's own
    decoder rejects. *)
Example long_close_reason_rejected :
  (decodeFrameString (encodeCloseFrame testRand 1000 (replicate 124 x61)) defaultMetadata).1.1 = false ∧
  (decodeFrameString (encodeCloseFrame testRand 1000 (replicate 123 x61)) defaultMetadata).1.1 = true.
Proof. vm_compute. split; reflexivity. Qed.
