(* ===== verification/WebSocketClient.v ===== *)
(** * WebSocket client (src/WebSocketClient.cpp)

    [WebSocketClient::Impl]: URLs, the opening handshake, the frame loop, the closing
    protocol and the three timers, above [HttpParser] and [WebSocketProtocol].  The TCP
    client is an interface ([ClientTransport]); the callbacks it runs inside a call are run
    there.  The user's callbacks are events of a log; those that announce a connection or
    deliver a message may call [sendText], [sendBinary] and [close], which is the parameter
    [react].  [rand] gives the words the random engine draws in its n-th use.  The time of
    the last activity, which nothing reads, is left out. *)

From S2P Require Import Prelude CType Base64 Sha1 WebSocketProtocol WebSocketFraming HttpParser HttpCommon Stoull Address HttpUrl ClientRequest ClientTransport Transport.

(** ** Helpers *)

Definition isReservedHandshakeHeader (name : list byte) : bool :=
  caseInsensitiveCompare name (str "Host") ||
  caseInsensitiveCompare name (str "Upgrade") ||
  caseInsensitiveCompare name (str "Connection") ||
  caseInsensitiveCompare name (str "Sec-WebSocket-Key") ||
  caseInsensitiveCompare name (str "Sec-WebSocket-Version") ||
  caseInsensitiveCompare name (str "Sec-WebSocket-Protocol").

Definition joinSubprotocols (subprotocols : list (list byte)) : list byte :=
  fold_left (fun value protocol =>
    if protocol =s [] then value
    else (if value =s [] then value else value ++ str ", ") ++ protocol) subprotocols [].

Definition containsSubprotocol (subprotocols : list (list byte)) (accepted : list byte) : bool :=
  let accepted := trim accepted in
  existsb (fun protocol => caseInsensitiveCompare protocol accepted) subprotocols.

(** ** State *)

Inductive State := Disconnected | Handshake | Connected | Closing.

#[export] Instance State_eq_dec : EqDecision State.
Proof. solve_decision. Defined.

(** The address part of a URL. *)
Record Endpoint := mkEndpoint {
  serverAddress_ : list byte;
  serverPort_ : Z;
  resourcePath_ : list byte
}.

(** Settings of the user; which callbacks are installed. *)
Record Options := mkOptions {
  sslConfig_ : SSLConfig;
  connectionTimeout_ : Z;
  pingInterval_ : Z;
  handshakeHeaders_ : strmap;
  subprotocols_ : list (list byte);
  connectCallback_ : bool;
  messageCallback_ : bool;
  binaryCallback_ : bool;
  ownedBinaryCallback_ : bool;
  errorCallback_ : bool;
  closeCallback_ : bool
}.

(** Calls of the user's callbacks, and the user's calls of [connect]. *)
Inductive Event :=
  | ConnectCalled (url : list byte)
  | OnPendingConnect (success : bool) (message : list byte)
  | OnConnect (success : bool) (message : list byte)
  | OnText (message : list byte)
  | OnBinary (data : list byte)
  | OnError (code : ErrorCode) (message : list byte)
  | OnClose (code : Z) (reason : list byte).

Inductive UserCall :=
  | CallSendText (message : list byte)
  | CallSendBinary (data : list byte)
  | CallClose (code : Z) (reason : list byte).

(** Which timers run; [rng_] counts the uses of the random engine. *)
Record Timers := mkTimers {
  pingTimer_ : option Z;
  handshakeTimer_ : option Z;
  closeTimer_ : option Z
}.

Definition noTimers : Timers := mkTimers None None None.

Section Client.
Context {Net : Type} {tcp : TcpClient Net}.

Record Impl := mkImpl {
  net : Net;
  options : Options;
  connected_ : bool;
  state_ : State;
  closeNotified_ : bool;
  closeFrameSent_ : bool;
  endpoint : Endpoint;
  handshakeKey_ : list byte;
  oneShotHandshakeHeaders_ : strmap;
  acceptedSubprotocol_ : option (list byte);
  buffer_ : list byte;
  bufferOffset_ : nat;
  timers : Timers;
  pendingConnectCallback_ : bool;
  rng_ : nat;
  log : list Event
}.

Definition setNet x (s : Impl) : Impl :=
  mkImpl x (options s) (connected_ s) (state_ s) (closeNotified_ s) (closeFrameSent_ s) (endpoint s) (handshakeKey_ s) (oneShotHandshakeHeaders_ s) (acceptedSubprotocol_ s) (buffer_ s) (bufferOffset_ s) (timers s) (pendingConnectCallback_ s) (rng_ s) (log s).
Definition setOptions x (s : Impl) : Impl :=
  mkImpl (net s) x (connected_ s) (state_ s) (closeNotified_ s) (closeFrameSent_ s) (endpoint s) (handshakeKey_ s) (oneShotHandshakeHeaders_ s) (acceptedSubprotocol_ s) (buffer_ s) (bufferOffset_ s) (timers s) (pendingConnectCallback_ s) (rng_ s) (log s).
Definition setConnected x (s : Impl) : Impl :=
  mkImpl (net s) (options s) x (state_ s) (closeNotified_ s) (closeFrameSent_ s) (endpoint s) (handshakeKey_ s) (oneShotHandshakeHeaders_ s) (acceptedSubprotocol_ s) (buffer_ s) (bufferOffset_ s) (timers s) (pendingConnectCallback_ s) (rng_ s) (log s).
Definition setState x (s : Impl) : Impl :=
  mkImpl (net s) (options s) (connected_ s) x (closeNotified_ s) (closeFrameSent_ s) (endpoint s) (handshakeKey_ s) (oneShotHandshakeHeaders_ s) (acceptedSubprotocol_ s) (buffer_ s) (bufferOffset_ s) (timers s) (pendingConnectCallback_ s) (rng_ s) (log s).
Definition setCloseNotified x (s : Impl) : Impl :=
  mkImpl (net s) (options s) (connected_ s) (state_ s) x (closeFrameSent_ s) (endpoint s) (handshakeKey_ s) (oneShotHandshakeHeaders_ s) (acceptedSubprotocol_ s) (buffer_ s) (bufferOffset_ s) (timers s) (pendingConnectCallback_ s) (rng_ s) (log s).
Definition setCloseFrameSent x (s : Impl) : Impl :=
  mkImpl (net s) (options s) (connected_ s) (state_ s) (closeNotified_ s) x (endpoint s) (handshakeKey_ s) (oneShotHandshakeHeaders_ s) (acceptedSubprotocol_ s) (buffer_ s) (bufferOffset_ s) (timers s) (pendingConnectCallback_ s) (rng_ s) (log s).
Definition setEndpoint x (s : Impl) : Impl :=
  mkImpl (net s) (options s) (connected_ s) (state_ s) (closeNotified_ s) (closeFrameSent_ s) x (handshakeKey_ s) (oneShotHandshakeHeaders_ s) (acceptedSubprotocol_ s) (buffer_ s) (bufferOffset_ s) (timers s) (pendingConnectCallback_ s) (rng_ s) (log s).
Definition setHandshakeKey x (s : Impl) : Impl :=
  mkImpl (net s) (options s) (connected_ s) (state_ s) (closeNotified_ s) (closeFrameSent_ s) (endpoint s) x (oneShotHandshakeHeaders_ s) (acceptedSubprotocol_ s) (buffer_ s) (bufferOffset_ s) (timers s) (pendingConnectCallback_ s) (rng_ s) (log s).
Definition setOneShot x (s : Impl) : Impl :=
  mkImpl (net s) (options s) (connected_ s) (state_ s) (closeNotified_ s) (closeFrameSent_ s) (endpoint s) (handshakeKey_ s) x (acceptedSubprotocol_ s) (buffer_ s) (bufferOffset_ s) (timers s) (pendingConnectCallback_ s) (rng_ s) (log s).
Definition setAccepted x (s : Impl) : Impl :=
  mkImpl (net s) (options s) (connected_ s) (state_ s) (closeNotified_ s) (closeFrameSent_ s) (endpoint s) (handshakeKey_ s) (oneShotHandshakeHeaders_ s) x (buffer_ s) (bufferOffset_ s) (timers s) (pendingConnectCallback_ s) (rng_ s) (log s).
Definition setTimers x (s : Impl) : Impl :=
  mkImpl (net s) (options s) (connected_ s) (state_ s) (closeNotified_ s) (closeFrameSent_ s) (endpoint s) (handshakeKey_ s) (oneShotHandshakeHeaders_ s) (acceptedSubprotocol_ s) (buffer_ s) (bufferOffset_ s) x (pendingConnectCallback_ s) (rng_ s) (log s).
Definition setPending x (s : Impl) : Impl :=
  mkImpl (net s) (options s) (connected_ s) (state_ s) (closeNotified_ s) (closeFrameSent_ s) (endpoint s) (handshakeKey_ s) (oneShotHandshakeHeaders_ s) (acceptedSubprotocol_ s) (buffer_ s) (bufferOffset_ s) (timers s) x (rng_ s) (log s).
Definition setRng x (s : Impl) : Impl :=
  mkImpl (net s) (options s) (connected_ s) (state_ s) (closeNotified_ s) (closeFrameSent_ s) (endpoint s) (handshakeKey_ s) (oneShotHandshakeHeaders_ s) (acceptedSubprotocol_ s) (buffer_ s) (bufferOffset_ s) (timers s) (pendingConnectCallback_ s) x (log s).
Definition setLog x (s : Impl) : Impl :=
  mkImpl (net s) (options s) (connected_ s) (state_ s) (closeNotified_ s) (closeFrameSent_ s) (endpoint s) (handshakeKey_ s) (oneShotHandshakeHeaders_ s) (acceptedSubprotocol_ s) (buffer_ s) (bufferOffset_ s) (timers s) (pendingConnectCallback_ s) (rng_ s) x.
Definition setBuffer b o (s : Impl) : Impl :=
  mkImpl (net s) (options s) (connected_ s) (state_ s) (closeNotified_ s) (closeFrameSent_ s) (endpoint s) (handshakeKey_ s) (oneShotHandshakeHeaders_ s) (acceptedSubprotocol_ s) b o (timers s) (pendingConnectCallback_ s) (rng_ s) (log s).

Definition emit (e : Event) (s : Impl) : Impl := setLog (log s ++ [e]) s.

(** ** URLs *)

(** A port behind a colon; the conversion is [std::stoul], 64 bits wide on the LP64 targets. *)
Definition parsePort (text : list byte) : option Z :=
  match stoull 10 text with
  | Some p => if 65535 <? p then None else Some p
  | None => None
  end.

(** The members are written as the parts are found, also when the URL is rejected later. *)
Definition parseUrlWithoutScheme (ssl : bool) (e : Endpoint) (url : list byte) : Endpoint * bool :=
  let '(authority, path) :=
    match find_first_of (str "/?") url with
    | None => (url, str "/")
    | Some pathPos => (take pathPos url, drop pathPos url)
    end in
  let path := if bool_decide (head path = Some x3f) then x2f :: path else path in
  if authority =s [] then (mkEndpoint (serverAddress_ e) (serverPort_ e) path, false)
  else
    let port := if ssl then 443 else 80 in
    if bool_decide (head authority = Some x5b) then
      match find_from x5d authority with
      | None => (mkEndpoint (serverAddress_ e) port path, false)
      | Some closingBracket =>
          let host := take (closingBracket - 1) (drop 1 authority) in
          if (S closingBracket <? length authority)%nat then
            if negb (bool_decide (authority !! S closingBracket = Some x3a)) then (mkEndpoint host port path, false)
            else match parsePort (drop (closingBracket + 2) authority) with
                 | None => (mkEndpoint host port path, false)
                 | Some p => (mkEndpoint host p path, negb (host =s []))
                 end
          else (mkEndpoint host port path, negb (host =s []))
      end
    else
      match find_from x3a authority with
      | Some firstColon =>
          if bool_decide (rfind x3a authority = Some firstColon) then
            let host := take firstColon authority in
            match parsePort (drop (firstColon + 1) authority) with
            | None => (mkEndpoint host port path, false)
            | Some p => (mkEndpoint host p path, negb (host =s []))
            end
          else (mkEndpoint authority port path, negb (authority =s []))
      | None => (mkEndpoint authority port path, negb (authority =s []))
      end.

Definition withSsl (ssl : bool) (o : Options) : Options :=
  let c := sslConfig_ o in
  mkOptions (mkSsl ssl (certificateFile c) (privateKeyFile c) (caFile c) (verifyPeer c) (hostnameVerification c))
    (connectionTimeout_ o) (pingInterval_ o) (handshakeHeaders_ o) (subprotocols_ o) (connectCallback_ o) (messageCallback_ o)
    (binaryCallback_ o) (ownedBinaryCallback_ o) (errorCallback_ o) (closeCallback_ o).

Definition parseUrl (url : list byte) (s : Impl) : Impl * bool :=
  let parse ssl rest :=
    let '(e, ok) := parseUrlWithoutScheme ssl (endpoint s) rest in
    (setEndpoint e (setOptions (withSsl ssl (options s)) s), ok) in
  if is_prefix (str "ws://") url then parse false (drop 5 url)
  else if is_prefix (str "wss://") url then parse true (drop 6 url)
  else (setOptions (withSsl false (options s)) s, false).

(** ** Callbacks of the transport *)

Definition handleError (code : ErrorCode) (message : list byte) (s : Impl) : Impl :=
  if errorCallback_ (options s) then emit (OnError code message) s else s.

Definition notifyClose (code : Z) (reason : list byte) (s : Impl) : Impl :=
  if closeNotified_ s then s
  else
    let s := setCloseNotified true s in
    if closeCallback_ (options s) then emit (OnClose code reason) s else s.

Definition stopTimers (s : Impl) : Impl := setTimers noTimers s.

Definition handleDisconnected (reason : list byte) (s : Impl) : Impl :=
  let shouldNotifyClose := connected_ s || (state_ s =s Closing) in
  let s := setBuffer [] 0 (setState Disconnected (setCloseFrameSent false (setConnected false (stopTimers s)))) in
  if shouldNotifyClose then notifyClose 1000 (if reason =s [] then str "Normal closure" else reason) s else s.

(** [notifyConnect(false, message)]. *)
Definition notifyConnectFailed (message : list byte) (s : Impl) : Impl :=
  let s := if pendingConnectCallback_ s then emit (OnPendingConnect false message) (setPending false s) else s in
  if connectCallback_ (options s) then emit (OnConnect false message) s else s.

(** What a call that closes the connection reports before it returns. *)
Definition closedBy (outcome : Net * option (list byte) * option (list byte)) (s : Impl) : Impl :=
  let '(n, cancelled, closed) := outcome in
  let s := setNet n s in
  let s := match cancelled with Some message => notifyConnectFailed message s | None => s end in
  match closed with Some reason => handleDisconnected reason s | None => s end.

Definition tcpDisconnect (s : Impl) : Impl := closedBy (tcpClose (net s)) s.
Definition tcpDisconnectAfterPendingWrites (s : Impl) : Impl := closedBy (tcpCloseAfterWrites (net s)) s.

(** [tcpClient_.send(frame)]. *)
Definition send (data : list byte) (s : Impl) : Impl * bool :=
  let '(n, sent, broken) := tcpSend (net s) data in
  let s := setNet n s in
  let s := match broken with
           | None => s
           | Some (error, reason) =>
               handleDisconnected reason (match error with Some (code, message) => handleError code message s | None => s end)
           end in
  (s, sent).

(** ** Operations *)

Section Operations.
Context (react : Event -> list UserCall) (rand : nat -> nat -> Z).

(** A masked frame, with the mask drawn now. *)
Definition sendFrame (data : list byte) (t : WSFrameType) (s : Impl) : Impl * bool :=
  send (encodeFrame (rand (rng_ s)) data t true) (setRng (S (rng_ s)) s).

Definition sendData (data : list byte) (t : WSFrameType) (s : Impl) : Impl * bool :=
  if negb (connected_ s) || negb (state_ s =s Connected) then (s, false) else sendFrame data t s.
Definition sendText (message : list byte) : Impl -> Impl * bool := sendData message Text.
Definition sendBinary (data : list byte) : Impl -> Impl * bool := sendData data Binary.

Definition sendControlFrame (payload : list byte) (t : WSFrameType) (s : Impl) : Impl := (sendFrame payload t s).1.

(** The payload of [encodeCloseFrame]. *)
Definition closePayload (code : Z) (reason : list byte) : list byte :=
  [zb (Z.land (Z.shiftr code 8) 0xFF); zb (Z.land code 0xFF)] ++ reason.

Definition sendCloseFrame (code : Z) (reason : list byte) : Impl -> Impl * bool := sendFrame (closePayload code reason) Close.

Definition startHandshakeTimer (s : Impl) : Impl :=
  setTimers (mkTimers (pingTimer_ (timers s)) (Some (connectionTimeout_ (options s))) (closeTimer_ (timers s))) s.
Definition startPingTimer (s : Impl) : Impl :=
  if pingInterval_ (options s) =? 0 then s
  else setTimers (mkTimers (Some (pingInterval_ (options s))) (handshakeTimer_ (timers s)) (closeTimer_ (timers s))) s.
Definition startCloseTimer (s : Impl) : Impl :=
  let timeoutMs := if connectionTimeout_ (options s) =? 0 then 5000 else connectionTimeout_ (options s) in
  setTimers (mkTimers (pingTimer_ (timers s)) (handshakeTimer_ (timers s)) (Some timeoutMs)) s.

Definition close (code : Z) (reason : list byte) (s : Impl) : Impl :=
  match state_ s with
  | Disconnected => tcpDisconnect (stopTimers s)
  | Closing => if connected_ s then startCloseTimer s else s
  | _ =>
      let s := stopTimers (setState Closing s) in
      if connected_ s then
        let '(s, sent) := sendCloseFrame code reason (setCloseFrameSent true s) in
        if sent then startCloseTimer s else tcpDisconnect s
      else tcpDisconnect s
  end.

Definition userCall (s : Impl) (c : UserCall) : Impl :=
  match c with
  | CallSendText message => (sendText message s).1
  | CallSendBinary data => (sendBinary data s).1
  | CallClose code reason => close code reason s
  end.

(** A callback that may call the client back. *)
Definition callback (e : Event) (s : Impl) : Impl := fold_left userCall (react e) (emit e s).

(** [notifyConnect(true, message)]. *)
Definition notifyConnected (message : list byte) (s : Impl) : Impl :=
  let s := if pendingConnectCallback_ s then callback (OnPendingConnect true message) (setPending false s) else s in
  if connectCallback_ (options s) then callback (OnConnect true message) s else s.

(** ** Frames *)

Definition makeBufferedView (s : Impl) : list byte := bufferedView (buffer_ s) (bufferOffset_ s).

Definition compact (s : Impl) : Impl :=
  let waste := Z.of_nat (bufferOffset_ s) in
  let '(b, o) := compactUnless ((waste <? 65536) && (waste * 4 <? zlen (buffer_ s))) (buffer_ s) (bufferOffset_ s) in
  setBuffer b o s.

(** [bufferOffset_ += n], then compaction. *)
Definition consume (n : nat) (s : Impl) : Impl := compact (setBuffer (buffer_ s) (bufferOffset_ s + n) s).

(** The code and reason of a received close frame. *)
Definition closeReason (payload : list byte) : Z * list byte :=
  match payload with
  | hi :: lo :: rest => (Z.lor (Z.shiftl (bz hi) 8) (bz lo), if rest =s [] then str "Normal closure" else rest)
  | _ => (1000, str "Normal closure")
  end.

Definition handleFrame (frameType : WSFrameType) (payload : list byte) (s : Impl) : Impl :=
  match frameType with
  | Text => if (state_ s =s Connected) && messageCallback_ (options s) then callback (OnText payload) s else s
  | Binary =>
      if (state_ s =s Connected) && (ownedBinaryCallback_ (options s) || binaryCallback_ (options s))
      then callback (OnBinary payload) s else s
  | Close =>
      let '(code, reason) := closeReason payload in
      let s := notifyClose code reason s in
      if closeFrameSent_ s then tcpDisconnectAfterPendingWrites s
      else
        let '(s, sent) := sendCloseFrame code reason (stopTimers (setState Closing (setCloseFrameSent true s))) in
        if sent then tcpDisconnectAfterPendingWrites s else tcpDisconnect s
  | Ping => sendControlFrame payload Pong s
  | Pong => s
  end.

(** The loop of [handleFrames]: final frames without a mask are taken one by one. *)
Definition takeFrame : list byte -> Taken :=
  takeFrameWith None (fun metadata => negb (final metadata) || masked metadata).

Fixpoint handleFramesLoop (fuel : nat) (s : Impl) : Impl :=
  match fuel with
  | O => s
  | S fuel =>
      match takeFrame (makeBufferedView s) with
      | Nothing | TooLarge => s
      | Invalid => tcpDisconnect (handleError WebSocketFrameError (str "Invalid WebSocket frame") s)
      | Took frameType payload frameSize => handleFramesLoop fuel (handleFrame frameType payload (consume frameSize s))
      end
  end.

(** Rounds that suffice: a frame takes at least two bytes, and no callback adds any. *)
Definition handleFrames (s : Impl) : Impl := handleFramesLoop (S (length (makeBufferedView s))) s.

(** ** The handshake *)

Definition buildHostHeader (ssl : bool) (e : Endpoint) : list byte :=
  let defaultPort := (negb ssl && (serverPort_ e =? 80)) || (ssl && (serverPort_ e =? 443)) in
  let renderedHost := if isValidIPv6 (serverAddress_ e) then str "[" ++ serverAddress_ e ++ str "]" else serverAddress_ e in
  if defaultPort then renderedHost else renderedHost ++ str ":" ++ toChars 10 (serverPort_ e).

Definition appendUnreserved (headers : strmap) (request : list byte) : list byte :=
  fold_left (fun request h => if isReservedHandshakeHeader h.1 then request else appendHeaderLine request h.1 h.2) headers request.

(** The text [sendHandshakeRequest] sends. *)
Definition handshakeRequest (s : Impl) : list byte :=
  let request :=
    str "GET " ++ resourcePath_ (endpoint s) ++ str " HTTP/1.1" ++ CRLF ++
    str "Host: " ++ buildHostHeader (enableSSL (sslConfig_ (options s))) (endpoint s) ++ CRLF ++
    str "Upgrade: websocket" ++ CRLF ++ str "Connection: Upgrade" ++ CRLF ++
    str "Sec-WebSocket-Key: " ++ handshakeKey_ s ++ CRLF ++
    str "Sec-WebSocket-Version: 13" ++ CRLF ++ str "User-Agent: FastNet-WebSocketClient/2.0" ++ CRLF in
  let requestedSubprotocols := joinSubprotocols (subprotocols_ (options s)) in
  let request := if requestedSubprotocols =s [] then request
                 else appendHeaderLine request (str "Sec-WebSocket-Protocol") requestedSubprotocols in
  appendUnreserved (oneShotHandshakeHeaders_ s) (appendUnreserved (handshakeHeaders_ (options s)) request) ++ CRLF.

Definition sendHandshakeRequest (s : Impl) : Impl * bool := send (handshakeRequest s) s.

Definition handleTcpConnected (s : Impl) : Impl :=
  let s := setBuffer [] 0 (setState Handshake (setConnected false s)) in
  let s := setRng (S (rng_ s)) (setHandshakeKey (createHandshakeKey (rand (rng_ s))) s) in
  let '(s, sent) := sendHandshakeRequest s in
  if sent then startHandshakeTimer s
  else tcpDisconnect (notifyConnectFailed (str "Failed to send WebSocket handshake request") s).

(** What the client makes of the head of the response: an error, or the subprotocol. *)
Definition checkHandshake (s : Impl) (head : list byte) : list byte + option (list byte) :=
  match parseResponse head with
  | None => inl (str "Invalid WebSocket handshake response")
  | Some v =>
      match rs_statusCode v =? 101, getHeader (rs_headers v) (str "Upgrade"), getHeader (rs_headers v) (str "Connection"),
            getHeader (rs_headers v) (str "Sec-WebSocket-Accept") with
      | true, Some upgrade, Some connection, Some accept =>
          if negb (caseInsensitiveCompare upgrade (str "websocket")) ||
             bool_decide (find_sub (str "upgrade") (toLowerCopy connection) = None) ||
             negb (accept =s createAcceptKey (handshakeKey_ s))
          then inl (str "WebSocket handshake validation failed")
          else match getHeader (rs_headers v) (str "Sec-WebSocket-Protocol") with
               | None => inr None
               | Some accepted =>
                   if (bool_decide (subprotocols_ (options s) = [])) || negb (containsSubprotocol (subprotocols_ (options s)) accepted)
                   then inl (str "WebSocket server selected an unexpected subprotocol")
                   else inr (Some (trim accepted))
               end
      | _, _, _, _ => inl (str "WebSocket handshake failed")
      end
  end.

Definition handleHandshakeResponse (s : Impl) : Impl :=
  let raw := makeBufferedView s in
  match find_sub (CRLF ++ CRLF) raw with
  | None => s
  | Some headerEnd =>
      match checkHandshake s (take (headerEnd + 4) raw) with
      | inl message => tcpDisconnect (notifyConnectFailed message s)
      | inr accepted =>
          let s := setAccepted accepted s in
          let s := setTimers (mkTimers (pingTimer_ (timers s)) None (closeTimer_ (timers s))) s in
          let s := setConnected true (setState Connected (consume (headerEnd + 4) s)) in
          let s := notifyConnected [] (startPingTimer s) in
          if makeBufferedView s =s [] then s else handleFrames s
      end
  end.

Definition handleDataReceived (data : list byte) (s : Impl) : Impl :=
  let b := if (bufferOffset_ s =? 0)%nat && (buffer_ s =s []) then data else buffer_ s ++ data in
  let s := setBuffer b (bufferOffset_ s) s in
  match state_ s with
  | Handshake => handleHandshakeResponse s
  | Connected | Closing => handleFrames s
  | Disconnected => s
  end.

(** ** Calls of the user, and the timers *)

Definition connectionReported (success : bool) (message : list byte) (s : Impl) : Impl :=
  if success then handleTcpConnected s else notifyConnectFailed message s.

Definition connect (url : list byte) (headers : strmap) (callback : bool) (s : Impl) : Impl * bool :=
  let s := emit (ConnectCalled url) s in
  let s := setAccepted None (setOneShot headers (setPending callback s)) in
  let s := setBuffer [] 0 (setCloseFrameSent false (setCloseNotified false s)) in
  let s := setConnected false (setState Disconnected s) in
  let '(s, ok) := parseUrl url s in
  if negb ok then (notifyConnectFailed (str "Invalid WebSocket URL") s, false)
  else
    let e := endpoint s in
    let '(n, started, notice) := tcpConnect (net s) (serverAddress_ e) (serverPort_ e) (sslConfig_ (options s)) in
    let s := setNet n s in
    (match notice with Some (success, message) => connectionReported success message s | None => s end, started).

Definition sendPing (s : Impl) : Impl :=
  if negb (connected_ s) || negb (state_ s =s Connected) then s else sendControlFrame [] Ping s.

Definition handleHandshakeTimeout (s : Impl) : Impl :=
  if negb (state_ s =s Handshake) || connected_ s then s
  else tcpDisconnect (notifyConnectFailed (str "WebSocket handshake timeout") s).

(** A timer that runs once has stopped when its callback runs. *)
Definition handshakeTimerFired (s : Impl) : Impl :=
  handleHandshakeTimeout (setTimers (mkTimers (pingTimer_ (timers s)) None (closeTimer_ (timers s))) s).

Definition closeTimerFired (s : Impl) : Impl :=
  let s := setTimers (mkTimers (pingTimer_ (timers s)) (handshakeTimer_ (timers s)) None) s in
  if state_ s =s Closing then tcpDisconnect s else s.

End Operations.
End Client.

(** ** The receive buffer *)

Section Receiving.
Context {Net : Type} {tcp : TcpClient Net} (react : Event -> list UserCall) (rand : nat -> nat -> Z).
Abbreviation Client := (@Impl Net).

Definition inBounds (s : Client) : Prop := (bufferOffset_ s <= length (buffer_ s))%nat.

(** The fields other than the buffer. *)
Definition sameButBuffer (s s' : Client) : Prop := s' = setBuffer (buffer_ s') (bufferOffset_ s') s.

Lemma client_view_drop (s : Client) : makeBufferedView s = drop (bufferOffset_ s) (buffer_ s).
Proof. apply bufferedView_drop. Qed.

Lemma client_consume_view n (s : Client) :
  makeBufferedView (consume n s) = drop n (makeBufferedView s) ∧ inBounds (consume n s) ∧ sameButBuffer s (consume n s).
Proof.
  unfold consume, compact. cbn [bufferOffset_ buffer_ setBuffer]. set (few := _ && _).
  pose proof (compactUnless_view few (buffer_ s) (bufferOffset_ s + n)) as H.
  destruct (compactUnless few _ _) as [b o]. destruct H as [Hv He]. unfold makeBufferedView. cbn [bufferOffset_ buffer_ setBuffer].
  rewrite Hv, !bufferedView_drop, drop_drop. done.
Qed.

(** The client with [data] appended to its buffer. *)
Definition received (data : list byte) (s : Client) : Client :=
  setBuffer (if (bufferOffset_ s =? 0)%nat && (buffer_ s =s []) then data else buffer_ s ++ data) (bufferOffset_ s) s.

Lemma client_received_view data (s : Client) : inBounds s ->
  makeBufferedView (received data s) = makeBufferedView s ++ data ∧ inBounds (received data s).
Proof.
  unfold inBounds. intros Hb. rewrite !client_view_drop. cbn [received setBuffer buffer_ bufferOffset_].
  destruct (Nat.eqb_spec (bufferOffset_ s) 0) as [E|E]; cbn [andb].
  - case_bool_decide as Hn; rewrite E, !drop_0; [rewrite Hn; split; [done|lia]|split; [done|rewrite length_app; lia]].
  - rewrite drop_app_le by lia. split; [done|rewrite length_app; lia].
Qed.

(** ** Delivery *)

(** A frame a server sends between handshake and close. *)
Definition serverFrame (f : frame) : Prop := valid_frame f ∧ f_fin f = true ∧ f_mask f = None ∧ f_type f ≠ Close.

Definition frameEvents (f : frame) : list Event :=
  match f_type f with Text => [OnText (f_payload f)] | Binary => [OnBinary (f_payload f)] | _ => [] end.

Definition eventsOf (fs : list frame) : list Event := fs ≫= frameEvents.

(** The answers to the pings among the frames, from the k-th use of the random engine on. *)
Fixpoint pongs (k : nat) (fs : list frame) : list (list byte) :=
  match fs with
  | [] => []
  | f :: fs => if bool_decide (f_type f = Ping) then encodeFrame (rand k) (f_payload f) Pong true :: pongs (S k) fs else pongs k fs
  end.

Definition sendAll (texts : list (list byte)) (n : Net) : Net := fold_left (fun n d => (tcpSend n d).1.1) texts n.

Lemma pongs_app fs1 : ∀ k fs2, pongs k (fs1 ++ fs2) = pongs k fs1 ++ pongs (k + length (pongs k fs1)) fs2.
Proof.
  induction fs1 as [|f fs1 IH]; intros k fs2; cbn; [by rewrite Nat.add_0_r|]. case_bool_decide; [|apply IH].
  cbn [app length]. rewrite IH, Nat.add_succ_comm. done.
Qed.

Lemma takeFrame_server v f rest : serverFrame f -> v `prefix_of` wire f ++ rest ->
  takeFrame v = if zlen v <? zlen (wire f) then Nothing else Took (f_type f) (f_payload f) (length (wire f)).
Proof.
  intros (Hf & Hfin & Hm & _) Hpre. apply (takeFrameWith_wire _ _ _ _ rest); try done. cbn. unfold f_masked. by rewrite Hfin, Hm.
Qed.

(** A connected client whose pending bytes, with those still under way, are the images of
    the frames [fs], the first of them not complete. *)
Record awaiting (s : Client) (fs : list frame) (more : list byte) : Prop := {
  aw_state : state_ s = Connected;
  aw_bounds : inBounds s;
  aw_view : makeBufferedView s ++ more = concat (wire <$> fs);
  aw_first : match fs with [] => True | f :: _ => zlen (makeBufferedView s) < zlen (wire f) end
}.

Context (silent : ∀ e, react e = []).
Context (takes : Net -> Prop) (taking : ∀ n d, takes n -> ∃ n', tcpSend n d = (n', true, None) ∧ takes n').

(** The client after the frames [fs] of the stream. *)
Record after (s : Client) (fs : list frame) (s' : Client) : Prop := {
  af_log : log s' = log s ++ eventsOf fs;
  af_net : net s' = sendAll (pongs (rng_ s) fs) (net s) ∧ takes (net s');
  af_rng : rng_ s' = (rng_ s + length (pongs (rng_ s) fs))%nat;
  af_state : state_ s' = state_ s;
  af_options : options s' = options s
}.

Lemma after_nil (s : Client) : takes (net s) -> after s [] s.
Proof. intros H. split; cbn; [by rewrite app_nil_r | done | lia | done | done]. Qed.

Lemma after_app (s s1 s2 : Client) fs1 fs2 : after s fs1 s1 -> after s1 fs2 s2 -> after s (fs1 ++ fs2) s2.
Proof.
  intros [L1 [N1 T1] R1 S1 O1] [L2 [N2 T2] R2 S2 O2]. split; [|split; [|done]|..]; try congruence.
  - rewrite L2, L1. unfold eventsOf. by rewrite bind_app, app_assoc.
  - rewrite N2, N1, R1, pongs_app. unfold sendAll. by rewrite fold_left_app.
  - rewrite R2, R1, pongs_app, length_app. lia.
Qed.

(** One frame. *)
Lemma frame_handled (s : Client) f : serverFrame f -> state_ s = Connected -> takes (net s) ->
  messageCallback_ (options s) = true -> ownedBinaryCallback_ (options s) || binaryCallback_ (options s) = true ->
  let s' := handleFrame react rand (f_type f) (f_payload f) s in
  after s [f] s' ∧ buffer_ s' = buffer_ s ∧ bufferOffset_ s' = bufferOffset_ s.
Proof.
  intros (_ & _ & _ & Ht) Hs Hn Hm Hb. unfold handleFrame, callback. rewrite Hs, Hm, Hb.
  assert (Hc : ∀ e, fold_left (userCall rand) (react e) (emit e s) = emit e s) by (intros e; by rewrite silent).
  destruct (f_type f) eqn:E; try done; cbn [andb bool_decide decide]; rewrite ?bool_decide_eq_true_2 by done; cbn [andb]; rewrite ?Hc.
  - split; [|done]. split; cbn; unfold frameEvents; rewrite ?E; cbn; try done; lia.
  - split; [|done]. split; cbn; unfold frameEvents; rewrite ?E; cbn; try done; lia.
  - unfold sendControlFrame, sendFrame, send. cbn [net setRng].
    destruct (taking (net s) (encodeFrame (rand (rng_ s)) (f_payload f) Pong true) Hn) as (n' & Hsend & Hn'). rewrite Hsend. cbn [fst].
    assert (Hp : pongs (rng_ s) [f] = [encodeFrame (rand (rng_ s)) (f_payload f) Pong true]) by (cbn [pongs]; by rewrite E).
    split; [|done]. split; rewrite ?Hp; try done.
    + unfold eventsOf, frameEvents. cbn [mbind list_bind]. rewrite E. cbn [app]. by rewrite app_nil_r.
    + split; [|done]. unfold sendAll. cbn [fold_left]. by rewrite Hsend.
    + cbn [length rng_ setNet setRng]. lia.
  - split; [|done]. split; cbn; unfold frameEvents; rewrite ?E; cbn; rewrite ?app_nil_r; try done; lia.
Qed.

(** The loop takes every complete frame of a stream, in order. *)
Lemma client_frames_deliver more fs : ∀ fuel (s : Client),
  state_ s = Connected -> inBounds s -> takes (net s) ->
  messageCallback_ (options s) = true -> ownedBinaryCallback_ (options s) || binaryCallback_ (options s) = true ->
  makeBufferedView s ++ more = concat (wire <$> fs) -> Forall serverFrame fs -> (length (makeBufferedView s) < fuel)%nat ->
  ∃ k, let s' := handleFramesLoop react rand fuel s in after s (take k fs) s' ∧ awaiting s' (drop k fs) more.
Proof.
  induction fs as [|f fs IH]; intros [|fuel] s Hs Hb Hn Hm Hbin Hv Hfs Hf; try lia; cbn [handleFramesLoop].
  - exists 0%nat. cbn in Hv. apply app_nil in Hv as [Hv ->]. rewrite Hv. cbn. split; [by apply after_nil|]. by split; [| |rewrite Hv|].
  - apply Forall_cons in Hfs as [Hsf Hfs]. cbn [fmap list_fmap concat] in Hv.
    assert (Hpre : makeBufferedView s `prefix_of` wire f ++ concat (wire <$> fs)) by (exists more; by rewrite Hv).
    rewrite (takeFrame_server _ f _ Hsf Hpre).
    destruct (Z.ltb_spec (zlen (makeBufferedView s)) (zlen (wire f))) as [Hlt|Hge].
    + exists 0%nat. split; [by apply after_nil|]. by split.
    + destruct (client_consume_view (length (wire f)) s) as (Hv' & Hb' & Hsame). set (s1 := consume _ s) in *.
      assert (H1 : state_ s1 = state_ s ∧ net s1 = net s ∧ options s1 = options s ∧ log s1 = log s ∧ rng_ s1 = rng_ s) by (by rewrite Hsame).
      destruct H1 as (Hs1 & Hn1 & Ho1 & Hl1 & Hr1). rewrite <- Hn1, <- Ho1 in *.
      destruct (frame_handled s1 f Hsf) as ([L [N T] R St O] & Hbuf & Hoff); try congruence.
      cbv zeta in *. set (s2 := handleFrame _ _ _ _ s1) in *.
      destruct (arrived_split (makeBufferedView s) more (wire f) (concat (wire <$> fs)) Hv) as (w & Hw & Hw'); [unfold zlen in Hge; lia|].
      assert (Hv2 : makeBufferedView s2 = w).
      { unfold makeBufferedView. rewrite Hbuf, Hoff. change (makeBufferedView s1 = w). by rewrite Hv', Hw, drop_app_length. }
      destruct (IH fuel s2) as (k & Ha & Hw2); try congruence.
      * unfold inBounds. by rewrite Hbuf, Hoff.
      * rewrite Hv2. rewrite Hw, length_app in Hf. assert (0 < length (wire f))%nat by (unfold wire; cbn; lia). lia.
      * exists (S k). split; [|done]. cbn [take]. apply (after_app s s2 _ [f] (take k fs)); [|done].
        split; [|split|..]; congruence.
Qed.

Lemma client_received_delivers (s : Client) d more fs :
  awaiting s fs (d ++ more) -> takes (net s) -> Forall serverFrame fs ->
  messageCallback_ (options s) = true -> ownedBinaryCallback_ (options s) || binaryCallback_ (options s) = true ->
  ∃ k, let s' := handleDataReceived react rand d s in after s (take k fs) s' ∧ awaiting s' (drop k fs) more.
Proof.
  intros [Hs Hb Hv _] Hn Hfs Hm Hbin. unfold handleDataReceived. cbv zeta. fold (received d s).
  change (state_ (received d s)) with (state_ s). rewrite Hs.
  destruct (client_received_view d s Hb) as [Hv' Hb']. unfold handleFrames.
  destruct (client_frames_deliver more fs (S (length (makeBufferedView (received d s)))) (received d s)) as (k & Ha & Hw); try done; [|lia|].
  - by rewrite Hv', <- app_assoc.
  - exists k. split; [|done]. destruct Ha. by split.
Qed.

Lemma client_segments_deliver segments : ∀ (s : Client) fs,
  awaiting s fs (concat segments) -> takes (net s) -> Forall serverFrame fs ->
  messageCallback_ (options s) = true -> ownedBinaryCallback_ (options s) || binaryCallback_ (options s) = true ->
  let s' := fold_left (fun s d => handleDataReceived react rand d s) segments s in after s fs s' ∧ awaiting s' [] [].
Proof.
  induction segments as [|d segments IH]; intros s fs Ha Hn Hfs Hm Hbin; cbn [fold_left].
  - destruct fs as [|f fs]; [split; [by apply after_nil|done]|].
    destruct Ha as [_ _ Hv Hlt]. cbn [fmap list_fmap concat] in Hv. rewrite app_nil_r in Hv.
    rewrite Hv, zlen_app in Hlt. pose proof (zlen_nonneg (concat (wire <$> fs))). lia.
  - destruct (client_received_delivers s d (concat segments) fs Ha Hn Hfs Hm Hbin) as (k & H1 & H2). cbv zeta in *.
    pose proof (af_net _ _ _ H1) as [N T]. pose proof (af_options _ _ _ H1) as O.
    destruct (IH _ _ H2) as [H3 H4]; [done | by apply Forall_drop | congruence | congruence|].
    split; [|done]. rewrite <- (take_drop k fs) at 1. by eapply after_app.
Qed.

End Receiving.

Lemma client_delivery {Net} {tcp : TcpClient Net} react rand (takes : Net -> Prop) (s : Impl) fs segments :
  (∀ e, react e = []) -> (∀ n d, takes n -> ∃ n', tcpSend n d = (n', true, None) ∧ takes n') -> takes (net s) ->
  messageCallback_ (options s) = true -> ownedBinaryCallback_ (options s) || binaryCallback_ (options s) = true ->
  state_ s = Connected -> makeBufferedView s = [] -> inBounds s ->
  Forall serverFrame fs -> concat segments = concat (wire <$> fs) ->
  let s' := fold_left (fun s d => handleDataReceived react rand d s) segments s in
  log s' = log s ++ eventsOf fs ∧ net s' = sendAll (pongs rand (rng_ s) fs) (net s) ∧
  state_ s' = Connected ∧ makeBufferedView s' = [].
Proof.
  intros Hsil Htk Hn Hm Hb Hs Hv Hib Hfs Hcat s'.
  destruct (client_segments_deliver react rand Hsil takes Htk segments s fs) as [[L [N _] _ S _] [_ _ Hv' _]]; try done.
  - split; [done | done | by rewrite Hv, Hcat|]. destruct fs as [|f fs]; [done|]. rewrite Hv. unfold zlen, wire. cbn [length app]. lia.
  - cbn in Hv'. rewrite app_nil_r in Hv'. split_and!; [done | done | unfold s'; congruence | done].
Qed.

(** C30. End to end: whatever text, binary, ping and pong frames a server sends, cut into
    segments of any sizes, a connected client calls the message callbacks exactly once per
    message, in order and with the payload unaltered, answers each ping with one masked pong
    of the same payload, sends nothing else, stays connected and ends with an empty buffer. *)
Theorem ws_client_delivery {Net} {tcp : TcpClient Net} react rand (takes : Net -> Prop) (s : Impl) fs segments :
  (∀ e, react e = []) -> (∀ n d, takes n -> ∃ n', tcpSend n d = (n', true, None) ∧ takes n') -> takes (net s) ->
  messageCallback_ (options s) = true -> ownedBinaryCallback_ (options s) || binaryCallback_ (options s) = true ->
  state_ s = Connected -> makeBufferedView s = [] -> inBounds s ->
  Forall serverFrame fs -> concat segments = concat (wire <$> fs) ->
  let s' := fold_left (fun s d => handleDataReceived react rand d s) segments s in
  log s' = log s ++ eventsOf fs ∧ net s' = sendAll (pongs rand (rng_ s) fs) (net s) ∧
  state_ s' = Connected ∧ makeBufferedView s' = [].
Proof. apply client_delivery. Qed.

(** ** The life of a connection *)

(** What the user's callbacks may say next: nothing was asked for, a connection was asked
    for, or a connection is announced. *)
Inductive Life := Idle | Dialling | Open.

Definition lifeStep (l : option Life) (e : Event) : option Life :=
  match l, e with
  | Some _, ConnectCalled _ => Some Dialling
  | Some Dialling, OnConnect true _ => Some Open
  | Some Open, (OnText _ | OnBinary _) => Some Open
  | Some (Dialling | Open), OnClose _ _ => Some Idle
  | _, (OnConnect true _ | OnText _ | OnBinary _ | OnClose _ _) => None
  | _, _ => l
  end.

Definition life (l : list Event) : option Life := fold_left lifeStep l (Some Idle).

Lemma client_life_snoc l e : life (l ++ [e]) = lifeStep (life l) e.
Proof. unfold life. by rewrite fold_left_app. Qed.

Section Lifecycle.
Context {Net : Type} {tcp : TcpClient Net} (react : Event -> list UserCall) (rand : nat -> nat -> Z).
Abbreviation Client := (@Impl Net).

(** Where the state and the flags stand when the user has been told [l]. *)
Definition stands (s : Client) (l : option Life) : Prop :=
  match state_ s with
  | Disconnected => connected_ s = false ∧ (l = Some Idle ∨ l = Some Dialling ∧ closeNotified_ s = false)
  | Handshake => connected_ s = false ∧ closeNotified_ s = false ∧ l = Some Dialling
  | Connected => connected_ s = true ∧ closeNotified_ s = false ∧ l = Some Open
  | Closing => closeNotified_ s = true ∧ l = Some Idle ∨
               closeNotified_ s = false ∧ l = Some (if connected_ s then Open else Dialling)
  end.

(** With [live], the frame loop may go on: past the handshake, nothing left once closed. *)
Record clientInv (live : bool) (s : Client) : Prop := {
  ci_callbacks : connectCallback_ (options s) = true ∧ closeCallback_ (options s) = true;
  ci_stands : stands s (life (log s));
  ci_sent : closeFrameSent_ s = true -> state_ s = Closing;
  ci_live : live = true -> state_ s ≠ Handshake ∧ (state_ s = Disconnected -> buffer_ s = [])
}.

(** The fields the invariant reads. *)
Definition relevant (s : Client) := (options s, state_ s, connected_ s, closeNotified_ s, closeFrameSent_ s, buffer_ s, log s).

Lemma inv_same live (s s' : Client) : relevant s' = relevant s -> clientInv live s -> clientInv live s'.
Proof.
  unfold relevant. intros E [Hc Hs Hf Hl]. injection E as H1 H2 H3 H4 H5 H6 H7. split; rewrite ?H1, ?H2, ?H3, ?H4, ?H5, ?H6, ?H7; try done.
  unfold stands in *. by rewrite H2, H3, H4.
Qed.

Lemma inv_emit live e (s : Client) : (∀ l, lifeStep (Some l) e = Some l) -> clientInv live s -> clientInv live (emit e s).
Proof.
  intros He [Hc Hs Hf Hl]. split; try done. cbn [emit setLog log]. rewrite client_life_snoc. unfold stands in *. cbn [emit setLog state_ connected_ closeNotified_].
  destruct (life (log s)) as [l|]; [by rewrite He|]. destruct (state_ s); destruct_and?; destruct_or?; destruct_and?; congruence.
Qed.

Lemma inv_error live code m (s : Client) : clientInv live s -> clientInv live (handleError code m s).
Proof. intros H. unfold handleError. case_match; [|done]. apply inv_emit; [by intros []|done]. Qed.

Lemma inv_failed live m (s : Client) : clientInv live s -> clientInv live (notifyConnectFailed m s).
Proof.
  intros H. unfold notifyConnectFailed. set (s1 := if pendingConnectCallback_ s then _ else s).
  assert (H1 : clientInv live s1).
  { unfold s1. case_match; [|done]. apply inv_emit; [by intros []|]. by apply (inv_same live s). }
  case_match; [|done]. apply inv_emit; [by intros []|done].
Qed.

(** Whether a closed connection has to be reported. *)
Lemma stands_closed (s : Client) l : stands s l ->
  if (connected_ s || (state_ s =s Closing)) && negb (closeNotified_ s) then lifeStep l (OnClose 0 []) = Some Idle
  else l = Some Idle ∨ l = Some Dialling ∧ closeNotified_ s = false.
Proof.
  unfold stands. destruct (state_ s); rewrite ?bool_decide_eq_true_2, ?bool_decide_eq_false_2 by done; cbn [orb].
  - by intros (-> & H).
  - intros (-> & -> & ->). by right.
  - by intros (-> & -> & ->).
  - rewrite orb_true_r. intros [[-> ->]|[-> ->]]; [by left|]. by destruct (connected_ s).
Qed.

(** It is reported once if the user has heard of it. *)
Lemma inv_disconnected live reason (s : Client) : clientInv live s -> clientInv live (handleDisconnected reason s).
Proof.
  intros [[Hc1 Hc2] Hs Hf Hl]. apply stands_closed in Hs. unfold handleDisconnected, notifyClose.
  set (s0 := setBuffer [] 0 _). change (closeNotified_ s0) with (closeNotified_ s).
  change (closeCallback_ (options (setCloseNotified true s0))) with (closeCallback_ (options s)). rewrite Hc2.
  assert (Hend : ∀ l, (l = Some Idle ∨ l = Some Dialling ∧ closeNotified_ s = false) -> stands s0 l) by done.
  destruct (connected_ s || (state_ s =s Closing)); [destruct (closeNotified_ s) eqn:En|]; cbn [andb negb] in Hs.
  - split; [done| |done|done]. by apply Hend.
  - split; [done| |done|done]. cbn [emit setLog log]. rewrite client_life_snoc. change (log (setCloseNotified true s0)) with (log s).
    split; [done|]. by left.
  - split; [done| |done|done]. by apply Hend.
Qed.

Lemma inv_closedBy live o (s : Client) : clientInv live s -> clientInv live (closedBy o s).
Proof.
  intros H. destruct o as [[n cancelled] closed]. unfold closedBy.
  assert (H1 : clientInv live (setNet n s)) by (by apply (inv_same live s)).
  destruct cancelled as [m|]; destruct closed as [r|]; auto using inv_disconnected, inv_failed.
Qed.

Lemma inv_tcpDisconnect live (s : Client) : clientInv live s -> clientInv live (tcpDisconnect s).
Proof. apply inv_closedBy. Qed.

Lemma inv_send live d (s : Client) : clientInv live s -> clientInv live (send d s).1.
Proof.
  intros H. unfold send. destruct (tcpSend (net s) d) as [[n sent] broken]. cbn [fst].
  assert (H1 : clientInv live (setNet n s)) by (by apply (inv_same live s)).
  destruct broken as [[[[c m]|] r]|]; auto using inv_disconnected, inv_error.
Qed.

Lemma inv_sendFrame live d t (s : Client) : clientInv live s -> clientInv live (sendFrame rand d t s).1.
Proof. intros H. apply inv_send. by apply (inv_same live s). Qed.

Lemma inv_sendData live d t (s : Client) : clientInv live s -> clientInv live (sendData rand d t s).1.
Proof. intros H. unfold sendData. case_match; [done|]. by apply inv_sendFrame. Qed.

Lemma inv_close live code reason (s : Client) : clientInv live s -> clientInv live (close rand code reason s).
Proof.
  intros H. unfold close. destruct (state_ s) eqn:E.
  1: { apply inv_tcpDisconnect. by apply (inv_same live s). }
  3: { destruct (connected_ s); [|done]. by apply (inv_same live s). }
  all: set (s1 := stopTimers (setState Closing s)); assert (H1 : clientInv live s1 ∧ clientInv live (setCloseFrameSent true s1)).
  1, 3: destruct H as [Hc Hs Hf Hl]; unfold stands in Hs; rewrite E in Hs, Hf; destruct Hs as (Hs1 & Hs2 & Hs3);
    assert (Hst : stands s1 (life (log s))) by (right; cbn; by rewrite Hs1, Hs3);
    split; (split; [done | exact Hst | by cbn | by cbn]).
  all: destruct H1 as [H1 H2]; destruct (connected_ s1); [|by apply inv_tcpDisconnect];
    pose proof (inv_sendFrame live (closePayload code reason) Close _ H2) as H3; unfold sendCloseFrame;
    destruct (sendFrame rand _ _ _) as [s2 sent]; cbn [fst] in H3;
    destruct sent; [by apply (inv_same live s2) | by apply inv_tcpDisconnect].
Qed.

Lemma inv_calls live calls (s : Client) : clientInv live s -> clientInv live (fold_left (userCall rand) calls s).
Proof.
  revert s. induction calls as [|[m|d|c r] calls IH]; intros s H; cbn; [done|..]; apply IH;
    [by apply inv_sendData | by apply inv_sendData | by apply inv_close].
Qed.

(** A message is delivered while the connection is announced. *)
Lemma inv_message live e (s : Client) : clientInv live s -> state_ s = Connected -> (∃ d, e = OnText d ∨ e = OnBinary d) ->
  clientInv live (callback react rand e s).
Proof.
  intros [Hc Hs Hf Hl] E He. apply inv_calls. split; try done. cbn [emit setLog log]. rewrite client_life_snoc. unfold stands in *.
  change (state_ (emit e s)) with (state_ s). rewrite E in Hs |- *. destruct Hs as (H1 & H2 & ->). by destruct He as [d [-> | ->]].
Qed.

Lemma inv_handleFrame t p (s : Client) : clientInv true s -> state_ s = Connected ∨ state_ s = Closing ->
  clientInv true (handleFrame react rand t p s).
Proof.
  intros H Hst. unfold handleFrame. destruct t.
  - case_bool_decide as E; cbn [andb]; [|done]. case_match; [|done]. apply inv_message; eauto.
  - case_bool_decide as E; cbn [andb]; [|done]. case_match; [|done]. apply inv_message; eauto.
  - destruct (closeReason p) as [code reason]. destruct H as [[Hc1 Hc2] Hs Hf Hl]. set (s1 := notifyClose code reason s).
    assert (H1 : options s1 = options s ∧ state_ s1 = state_ s ∧ closeFrameSent_ s1 = closeFrameSent_ s ∧ closeNotified_ s1 = true ∧ life (log s1) = Some Idle).
    { apply stands_closed in Hs as Hs'. unfold s1, notifyClose. change (options (setCloseNotified true s)) with (options s). rewrite Hc2.
      destruct (closeNotified_ s) eqn:En; cbn [negb] in Hs'.
      - split_and!; try done. rewrite andb_false_r in Hs'. by destruct Hs' as [?|[_ ?]].
      - split_and!; try done. cbn [emit setLog log]. rewrite client_life_snoc. change (log (setCloseNotified true s)) with (log s).
        unfold stands in Hs. destruct Hst as [Est|Est]; rewrite Est in Hs.
        + by destruct Hs as (_ & _ & ->).
        + destruct Hs as [[? _]|[_ ->]]; [congruence|]. by destruct (connected_ s). }
    destruct H1 as (Ho & Hst1 & Hf1 & Hn & Hlife). rewrite <- Hst1, <- Hf1 in *. rewrite <- Ho in Hc1, Hc2. destruct (closeFrameSent_ s1) eqn:Efs.
    + apply inv_closedBy. split; [done| |by intros _; apply Hf|by rewrite (Hf eq_refl)]. unfold stands. rewrite (Hf eq_refl), Hn, Hlife. by left.
    + set (s2 := stopTimers _). assert (H2 : clientInv true s2).
      { split; [done| |done|done]. left. done. }
      pose proof (inv_sendFrame true (closePayload code reason) Close _ H2) as H3. unfold sendCloseFrame.
      destruct (sendFrame rand _ _ _) as [s3 sent]. cbn [fst] in H3. destruct sent; by apply inv_closedBy.
  - by apply inv_sendFrame.
  - done.
Qed.

(** A frame is only found while the connection is up. *)
Lemma live_state (s : Client) : clientInv true s -> makeBufferedView s ≠ [] -> state_ s = Connected ∨ state_ s = Closing.
Proof.
  intros [_ _ _ Hl] Hv. destruct (Hl eq_refl) as [H1 H2]. destruct (state_ s) eqn:E; auto; [|done].
  rewrite client_view_drop, (H2 eq_refl), drop_nil in Hv. done.
Qed.

Lemma inv_consume n (s : Client) : clientInv true s -> state_ s = Connected ∨ state_ s = Closing -> clientInv true (consume n s) ∧ state_ (consume n s) = state_ s.
Proof.
  intros [Hc Hs Hf Hl] Hst. destruct (client_consume_view n s) as (_ & _ & Hsame). rewrite Hsame. split; [|done]. split; try done.
  intros _. cbn. by destruct Hst as [-> | ->].
Qed.

Lemma inv_frames fuel : ∀ (s : Client), clientInv true s -> clientInv true (handleFramesLoop react rand fuel s).
Proof.
  induction fuel as [|fuel IH]; intros s H; [done|]. cbn [handleFramesLoop]. destruct (takeFrame (makeBufferedView s)) as [| | |t p n] eqn:E; [done|done| |].
  - by apply inv_tcpDisconnect, inv_error.
  - assert (Hv : makeBufferedView s ≠ []) by (intros Hv; by rewrite Hv in E).
    pose proof (live_state s H Hv) as Hst. destruct (inv_consume n s H Hst) as [H1 Hst1].
    apply IH, inv_handleFrame; [done|]. by rewrite Hst1.
Qed.

(** A client that has been told to connect and has not announced a connection. *)
Record dialling (s : Client) : Prop := {
  di_state : state_ s = Disconnected ∨ state_ s = Handshake;
  di_flags : connected_ s = false ∧ closeNotified_ s = false ∧ closeFrameSent_ s = false;
  di_life : life (log s) = Some Dialling
}.

(** [s'] is still dialling, and not in a handshake unless [s] was. *)
Definition stillDialling (s s' : Client) : Prop :=
  dialling s' ∧ (state_ s = Disconnected -> state_ s' = Disconnected) ∧ options s' = options s.

Lemma still_refl (s s' : Client) : relevant s' = relevant s -> dialling s -> stillDialling s s'.
Proof.
  unfold relevant. intros E [H1 H2 H3]. injection E as E1 E2 E3 E4 E5 E6 E7. split_and!; [|congruence|done].
  split; [by rewrite E2 | by rewrite E3, E4, E5 | by rewrite E7].
Qed.

Lemma still_trans (s1 s2 s3 : Client) : stillDialling s1 s2 -> (dialling s2 -> stillDialling s2 s3) -> stillDialling s1 s3.
Proof. intros (H1 & H2 & H3) H. destruct (H H1) as (H4 & H5 & H6). split_and!; [done | auto | congruence]. Qed.

Lemma still_emit e (s : Client) : lifeStep (Some Dialling) e = Some Dialling -> dialling s -> stillDialling s (emit e s).
Proof.
  intros He [H1 H2 H3]. split_and!; [|done|done]. split; [done|done|]. cbn [emit setLog log]. by rewrite client_life_snoc, H3.
Qed.

Lemma still_failed m (s : Client) : dialling s -> stillDialling s (notifyConnectFailed m s).
Proof.
  intros H. unfold notifyConnectFailed. set (s1 := if pendingConnectCallback_ s then _ else s).
  assert (H1 : stillDialling s s1).
  { unfold s1. case_match; [|by apply still_refl]. eapply still_trans; [by apply (still_refl s (setPending false s))|]. by apply still_emit. }
  case_match; [|done]. eapply still_trans; [exact H1|]. by apply still_emit.
Qed.

Lemma still_disconnected reason (s : Client) : dialling s -> stillDialling s (handleDisconnected reason s).
Proof.
  intros [H1 (H2 & H3 & H4) H5]. unfold handleDisconnected. rewrite H2.
  assert ((state_ s =s Closing) = false) as -> by (destruct H1 as [-> | ->]; done). cbn [orb].
  split_and!; [|done|done]. split; [by left | done | done].
Qed.

Lemma still_closedBy o (s : Client) : dialling s -> stillDialling s (closedBy o s).
Proof.
  intros H. destruct o as [[n cancelled] closed]. unfold closedBy.
  eapply still_trans; [by apply (still_refl s (setNet n s))|]. intros H1.
  destruct cancelled as [m|]; (destruct closed as [r|]; [|by (apply still_failed || apply still_refl)]).
  - eapply still_trans; [by apply still_failed|]. apply still_disconnected.
  - by apply still_disconnected.
Qed.

Lemma still_send d (s : Client) : dialling s -> stillDialling s (send d s).1.
Proof.
  intros H. unfold send. destruct (tcpSend (net s) d) as [[n sent] broken]. cbn [fst].
  eapply still_trans; [by apply (still_refl s (setNet n s))|]. intros H1. destruct broken as [[error r]|]; [|by apply still_refl].
  eapply still_trans; [|apply still_disconnected]. destruct error as [[c m]|]; [|by apply still_refl].
  unfold handleError. case_match; [by apply still_emit | by apply still_refl].
Qed.

(** Such a client stands well. *)
Lemma dialling_inv (s : Client) : connectCallback_ (options s) = true ∧ closeCallback_ (options s) = true -> dialling s -> clientInv false s.
Proof.
  intros Hc [H1 (H2 & H3 & H4) H5]. split; [done| |congruence|done]. unfold stands. rewrite H2, H3, H5. destruct H1 as [-> | ->]; auto.
Qed.

Lemma dialling_tcpConnected (s : Client) : dialling s ->
  dialling (handleTcpConnected rand s) ∧ options (handleTcpConnected rand s) = options s.
Proof.
  intros [H1 (H2 & H3 & H4) H5]. unfold handleTcpConnected. set (s1 := setRng _ _).
  assert (Hd : dialling s1) by (split; [by right | done | done]). assert (Ho : options s1 = options s) by done. clearbody s1.
  unfold sendHandshakeRequest.
  destruct (still_send (handshakeRequest s1) s1 Hd) as (H6 & _ & H7). destruct (send _ s1) as [s2 sent]. cbn [fst] in H6, H7. destruct sent.
  - destruct (still_refl s2 (startHandshakeTimer s2) eq_refl H6) as (H8 & _ & H9). split; [done|]. by rewrite H9, H7.
  - destruct (still_failed (str "Failed to send WebSocket handshake request") s2 H6) as (H8 & _ & H9).
    destruct (still_closedBy (tcpClose (net (notifyConnectFailed (str "Failed to send WebSocket handshake request") s2))) _ H8) as (H10 & _ & H11).
    split; [exact H10|]. unfold tcpDisconnect. by rewrite H11, H9, H7.
Qed.

Lemma dialling_connect url headers cb (s : Client) : life (log s) ≠ None ->
  dialling (connect rand url headers cb s).1 ∧
  connectCallback_ (options (connect rand url headers cb s).1) = connectCallback_ (options s) ∧
  closeCallback_ (options (connect rand url headers cb s).1) = closeCallback_ (options s).
Proof.
  intros Hl. unfold connect. set (s1 := setConnected false _).
  assert (H1 : dialling s1).
  { split; [by left | done|]. change (log s1) with (log s ++ [ConnectCalled url]). rewrite client_life_snoc. by destruct (life (log s)) as [[]|]. }
  assert (Ho : options s1 = options s) by done. rewrite <- Ho.
  assert (H2 : ∃ s2 ok, parseUrl url s1 = (s2, ok) ∧ dialling s2 ∧ connectCallback_ (options s2) = connectCallback_ (options s1) ∧
    closeCallback_ (options s2) = closeCallback_ (options s1)).
  { unfold parseUrl. destruct H1 as [D1 D2 D3]. clear Ho. clearbody s1. clear Hl.
    destruct (is_prefix (str "ws://") url); [|destruct (is_prefix (str "wss://") url)];
      [destruct (parseUrlWithoutScheme false _ _) as [e ok] | destruct (parseUrlWithoutScheme true _ _) as [e ok] |];
      do 2 eexists; (split; [reflexivity|]); split_and!; try done; by split. }
  destruct H2 as (s2 & ok & -> & H2 & O1 & O2). destruct ok; cbn [negb].
  - destruct (tcpConnect _ _ _ _) as [[n started] notice]. cbn [fst].
    destruct (still_refl s2 (setNet n s2) eq_refl H2) as (H3 & _ & O3). destruct notice as [[[] m]|]; cbn [connectionReported].
    + destruct (dialling_tcpConnected _ H3) as [H4 O4]. split; [done|]. by rewrite O4.
    + destruct (still_failed m _ H3) as (H4 & _ & O4). split; [done|]. by rewrite O4.
    + by split.
  - cbn [fst]. destruct (still_failed (str "Invalid WebSocket URL") s2 H2) as (H3 & _ & O3). split; [done|]. by rewrite O3.
Qed.

(** The callback given to [connect] does not use the client before it is announced. *)
Context (calm : ∀ m, react (OnPendingConnect true m) = []).

Lemma inv_announced m (s : Client) :
  connectCallback_ (options s) = true ∧ closeCallback_ (options s) = true -> state_ s = Connected -> connected_ s = true ->
  closeNotified_ s = false -> closeFrameSent_ s = false -> life (log s) = Some Dialling ->
  clientInv true (notifyConnected react rand m s).
Proof.
  intros Hc Hs H1 H2 H3 H4. unfold notifyConnected. set (s1 := if pendingConnectCallback_ s then _ else s).
  assert (E : options s1 = options s ∧ state_ s1 = Connected ∧ connected_ s1 = true ∧ closeNotified_ s1 = false ∧
    closeFrameSent_ s1 = false ∧ life (log s1) = Some Dialling).
  { unfold s1, callback. rewrite calm. case_match; [|done]. cbn [fold_left]. split_and!; try done.
    cbn [emit setLog log]. rewrite client_life_snoc. change (log (setPending false s)) with (log s). by rewrite H4. }
  destruct E as (E1 & E2 & E3 & E4 & E5 & E6). rewrite E1, (proj1 Hc). unfold callback. apply inv_calls. clearbody s1.
  split; cbn [emit setLog options state_ closeFrameSent_ log buffer_].
  - by rewrite E1.
  - rewrite client_life_snoc, E6. unfold stands. cbn [emit setLog state_ connected_ closeNotified_]. by rewrite E2.
  - congruence.
  - intros _. by rewrite E2.
Qed.

Lemma inv_weaken live (s : Client) : clientInv live s -> clientInv false s.
Proof. intros [Hc Hs Hf _]. by split. Qed.

Lemma inv_handshake (s : Client) : clientInv false s -> state_ s = Handshake -> clientInv false (handleHandshakeResponse react rand s).
Proof.
  intros H E. unfold handleHandshakeResponse. destruct (find_sub _ _) as [n|]; [|done].
  destruct (checkHandshake s _) as [m|accepted]; [by apply inv_tcpDisconnect, inv_failed|].
  destruct H as [Hc Hs Hf _]. unfold stands in Hs. rewrite E in Hs, Hf. destruct Hs as (H1 & H2 & H3).
  set (s2 := setTimers _ _). destruct (client_consume_view (n + 4) s2) as (_ & _ & Hsame). set (s3 := consume (n + 4) s2) in *.
  assert (Hx : options s3 = options s ∧ closeNotified_ s3 = closeNotified_ s ∧ closeFrameSent_ s3 = closeFrameSent_ s ∧ log s3 = log s)
    by (by rewrite Hsame).
  destruct Hx as (Ho & Hn & Hfs & Hlog). clearbody s3.
  assert (Hs4 : clientInv true (notifyConnected react rand [] (startPingTimer (setConnected true (setState Connected s3))))).
  { assert (Hp : ∀ s', relevant (startPingTimer (Net := Net) s') = relevant s') by (intros s'; unfold startPingTimer; by case_match).
    set (s4 := setConnected true _). specialize (Hp s4). unfold relevant in Hp. injection Hp as P1 P2 P3 P4 P5 P6 P7.
    apply inv_announced; rewrite ?P1, ?P2, ?P3, ?P4, ?P5, ?P7; cbn; try done; [by rewrite Ho | congruence | | by rewrite Hlog].
    rewrite Hfs. destruct (closeFrameSent_ s); [by specialize (Hf eq_refl)|done]. }
  apply (inv_weaken true). case_match; [done|]. by apply inv_frames.
Qed.

Lemma inv_data data (s : Client) : clientInv false s -> clientInv false (handleDataReceived react rand data s).
Proof.
  intros [Hc Hs Hf Hl]. unfold handleDataReceived. set (s1 := setBuffer _ _ s).
  assert (H1 : clientInv false s1) by (by split). change (state_ s1) with (state_ s). destruct (state_ s) eqn:E; [done|by apply inv_handshake|..];
    (apply (inv_weaken true), inv_frames; destruct H1 as [H1 H2 H3 _]; split; try done; intros _; change (state_ s1) with (state_ s); by rewrite E).
Qed.

(** ** The steps of a client *)

(** A client, and whether the transport still owes it the result of a [connect]. *)
Inductive clientStep : Client * bool -> Client * bool -> Prop :=
  | step_connect s owed url headers cb owed' :
      (owed' = true -> state_ (connect rand url headers cb s).1 = Disconnected) ->
      clientStep (s, owed) ((connect rand url headers cb s).1, owed')
  | step_reported s success message : clientStep (s, true) (connectionReported rand success message s, false)
  | step_data s owed data : clientStep (s, owed) (handleDataReceived react rand data s, owed)
  | step_disconnected s owed reason : clientStep (s, owed) (handleDisconnected reason s, owed)
  | step_error s owed code message : clientStep (s, owed) (handleError code message s, owed)
  | step_call s owed c : clientStep (s, owed) (userCall rand s c, owed)
  | step_ping s owed : clientStep (s, owed) (sendPing rand s, owed)
  | step_handshakeTimer s owed : clientStep (s, owed) (handshakeTimerFired s, owed)
  | step_closeTimer s owed : clientStep (s, owed) (closeTimerFired s, owed).

Inductive reachable (s0 : Client) : Client * bool -> Prop :=
  | reach_start : reachable s0 (s0, false)
  | reach_step x y : reachable s0 x -> clientStep x y -> reachable s0 y.

Definition stepInv (x : Client * bool) : Prop :=
  clientInv false x.1 ∧ (x.2 = true -> dialling x.1 ∧ state_ x.1 = Disconnected).

(** While a result is owed, the other steps change nothing that matters. *)
Lemma owed_still (s s' : Client) : stillDialling s s' -> state_ s = Disconnected -> dialling s' ∧ state_ s' = Disconnected.
Proof. intros (H1 & H2 & _) H. auto. Qed.

Lemma owed_data data (s : Client) : dialling s -> state_ s = Disconnected ->
  dialling (handleDataReceived react rand data s) ∧ state_ (handleDataReceived react rand data s) = Disconnected.
Proof.
  intros [H1 H2 H3] E. unfold handleDataReceived. cbn [state_ setBuffer]. rewrite E. split; [|done]. by split.
Qed.

Lemma owed_call c (s : Client) : dialling s -> state_ s = Disconnected ->
  dialling (userCall rand s c) ∧ state_ (userCall rand s c) = Disconnected.
Proof.
  intros H E. pose proof (di_flags _ H) as (Hc & _).
  destruct c as [m|d|code reason]; cbn [userCall]; unfold sendText, sendBinary, sendData, close; rewrite ?Hc, ?E; cbn [negb orb fst]; [done|done|].
  apply (owed_still s); [|done]. eapply still_trans; [by apply (still_refl s (stopTimers s))|]. intros H1. by apply still_closedBy.
Qed.

Lemma owed_skips (s : Client) : dialling s -> state_ s = Disconnected ->
  sendPing rand s = s ∧ stillDialling s (handshakeTimerFired s) ∧ stillDialling s (closeTimerFired s).
Proof.
  intros H E. pose proof (di_flags _ H) as (Hc & _). unfold sendPing, handshakeTimerFired, handleHandshakeTimeout, closeTimerFired.
  cbn [state_ setTimers]. rewrite Hc, E. cbn. split_and!; [done | by apply still_refl..].
Qed.

Lemma inv_timers live t (s : Client) : clientInv live s -> clientInv live (setTimers t s).
Proof. intros H. by apply (inv_same live s). Qed.

Lemma client_step_inv x y : clientStep x y -> stepInv x -> stepInv y.
Proof.
  intros Hstep [H D]. inversion Hstep; subst; cbn [fst snd] in *.
  - assert (Hl : life (log s) ≠ None).
    { pose proof (ci_stands _ _ H) as Hs. intros Hn. rewrite Hn in Hs. unfold stands in Hs.
      destruct (state_ s); destruct_and?; destruct_or?; destruct_and?; congruence. }
    destruct (dialling_connect url headers cb s Hl) as (H1 & O1 & O2). split; cbn [fst snd]; [|by auto].
    apply dialling_inv; [|done]. by rewrite O1, O2, (proj1 (ci_callbacks _ _ H)), (proj2 (ci_callbacks _ _ H)).
  - split; [|done]. cbn [fst]. destruct (D eq_refl) as [D1 D2]. destruct success; cbn [connectionReported]; [|by apply inv_failed].
    destruct (dialling_tcpConnected s D1) as [D3 O]. apply dialling_inv; [|done]. rewrite O. apply (ci_callbacks _ _ H).
  - split; [by apply inv_data|]. intros Ho. destruct (D Ho). by apply owed_data.
  - split; [by apply inv_disconnected|]. intros Ho. destruct (D Ho) as [D1 D2]. eapply owed_still; [by apply still_disconnected | done].
  - split; [by apply inv_error|]. intros Ho. destruct (D Ho) as [D1 D2]. eapply owed_still; [|exact D2]. cbn [fst]. unfold handleError.
    case_match; [by apply still_emit | by apply still_refl].
  - split; [by apply (inv_calls false [c])|]. intros Ho. destruct (D Ho). by apply owed_call.
  - split; cbn [fst snd].
    + unfold sendPing. case_match; [done|]. by apply inv_sendFrame.
    + intros Ho. destruct (D Ho) as [D1 D2]. by rewrite (proj1 (owed_skips s D1 D2)).
  - split; cbn [fst snd].
    + unfold handshakeTimerFired, handleHandshakeTimeout. case_match; auto using inv_timers, inv_tcpDisconnect, inv_failed.
    + intros Ho. destruct (D Ho) as [D1 D2]. eapply owed_still; [apply (owed_skips s D1 D2) | done].
  - split; cbn [fst snd].
    + unfold closeTimerFired. case_match; auto using inv_timers, inv_tcpDisconnect.
    + intros Ho. destruct (D Ho) as [D1 D2]. eapply owed_still; [apply (owed_skips s D1 D2) | done].
Qed.

(** A client as it is constructed, with the callbacks set. *)
Definition initial (n : Net) (o : Options) : Client :=
  mkImpl n o false Disconnected false false (mkEndpoint [] 0 (str "/")) [] [] None [] 0 noTimers false 0 [].

Lemma client_reachable_inv n o x : connectCallback_ o = true -> closeCallback_ o = true -> reachable (initial n o) x -> stepInv x.
Proof.
  intros Hc Hd. induction 1 as [|x y _ IH Hs]; [|by eapply client_step_inv]. split; [|done]. split; [done| |done|done]. split; [done|by left].
Qed.

End Lifecycle.

(** The life of a connection as the user sees it, over every sequence of calls,
    received bytes, transport events and timers, for a transport that answers each [connect]
    at most once: a connection is announced at most once per call of [connect]; messages come
    only between the announcement and the close callback, which runs at most once per
    [connect]; and the state agrees with what was announced: while it is [Connected] the
    announcement has been made and no close reported, and while a connection is announced
    [isConnected] holds. *)
Theorem ws_client_lifecycle {Net} {tcp : TcpClient Net} react rand n o (s : Impl) owed :
  (∀ m, react (OnPendingConnect true m) = []) -> connectCallback_ o = true -> closeCallback_ o = true ->
  reachable react rand (initial n o) (s, owed) ->
  ∃ l, life (log s) = Some l ∧ (state_ s = Connected -> l = Open) ∧
    (l = Open -> connected_ s = true ∧ (state_ s = Connected ∨ state_ s = Closing)).
Proof.
  intros Hcalm Hc Hd H. destruct (client_reachable_inv react rand Hcalm n o _ Hc Hd H) as [[_ Hs _ _] _]. cbn [fst] in Hs. unfold stands in Hs.
  destruct (state_ s); destruct_and?; destruct_or?; destruct_and?; eexists; (split; [eassumption|]);
    destruct (connected_ s); naive_solver.
Qed.

(** ** Concrete runs *)

Definition wsOptions : Options := mkOptions defaultSsl 5000 0 [] [] true true true false true true.
Definition wsRand (k i : nat) : Z := (Z.of_nat k * 16777619 + Z.of_nat i * 2654435761) mod 4294967296.
Definition quiet (e : Event) : list UserCall := [].
Definition freshClient : Impl (Net := Link) := initial (mkLink false [] []) wsOptions.

(** A connected client, as the handshake leaves it. *)
Definition upClient : Impl (Net := Link) :=
  mkImpl (mkLink true [] []) wsOptions true Connected false false (mkEndpoint (str "h") 80 (str "/")) [] [] None [] 0 noTimers false 0 [].

Definition helloFrames : list frame :=
  [mkFrame true Text None (str "hello"); mkFrame true Ping None (str "?"); mkFrame true Binary None [x00; xff]].

Lemma helloFrames_server : Forall serverFrame helloFrames.
Proof. repeat constructor; try done; vm_compute; try discriminate; intuition. Qed.

(** Three frames, cut inside the first and the last. *)
Lemma ws_client_delivery_witness :
  let bytes := concat (wire <$> helloFrames) in
  let s' := fold_left (fun s d => handleDataReceived quiet wsRand d s) [take 3 bytes; drop 3 (take 12 bytes); drop 12 bytes] upClient in
  log s' = log upClient ++ eventsOf helloFrames ∧ net s' = sendAll (pongs wsRand (rng_ upClient) helloFrames) (net upClient) ∧
  state_ s' = Connected ∧ makeBufferedView s' = [].
Proof.
  intros bytes. refine (ws_client_delivery quiet wsRand (fun l => isOpen l = true) upClient helloFrames
    [take 3 bytes; drop 3 (take 12 bytes); drop 12 bytes] _ _ _ _ _ _ _ _ helloFrames_server _).
  - done.
  - intros l d H. exists (mkLink true (dialled l) (written l ++ [d])). cbn. by rewrite H.
  - reflexivity.
  - reflexivity.
  - reflexivity.
  - reflexivity.
  - reflexivity.
  - by vm_compute; lia.
  - by vm_compute.
Defined.

(** The answer to the request of [freshClient]. *)
Definition answerTo (s : Impl (Net := Link)) : list byte :=
  str "HTTP/1.1 101 Switching Protocols" ++ CRLF ++ str "Upgrade: websocket" ++ CRLF ++ str "Connection: Upgrade" ++ CRLF ++
  str "Sec-WebSocket-Accept: " ++ createAcceptKey (handshakeKey_ s) ++ CRLF ++ CRLF.

Definition dialledClient : Impl (Net := Link) := (connect wsRand (str "ws://h/chat") [] true freshClient).1.
Definition openedClient : Impl (Net := Link) := handleDataReceived quiet wsRand (answerTo dialledClient) dialledClient.

Lemma ws_client_lifecycle_witness :
  ∃ l, life (log openedClient) = Some l ∧ (state_ openedClient = Connected -> l = Open) ∧
    (l = Open -> connected_ openedClient = true ∧ (state_ openedClient = Connected ∨ state_ openedClient = Closing)).
Proof.
  refine (ws_client_lifecycle quiet wsRand (mkLink false [] []) wsOptions openedClient false _ _ _ _).
  - done.
  - reflexivity.
  - reflexivity.
  - apply (reach_step quiet wsRand _ (dialledClient, false)).
    + apply (reach_step quiet wsRand _ (freshClient, false)); [apply reach_start|]. unfold dialledClient.
      by apply (step_connect quiet wsRand freshClient false (str "ws://h/chat") [] true false).
    + unfold openedClient. apply (step_data quiet wsRand dialledClient false).
Defined.

Example opened_announced :
  log openedClient = [ConnectCalled (str "ws://h/chat"); OnPendingConnect true []; OnConnect true []] ∧ state_ openedClient = Connected.
Proof. by vm_compute. Qed.

(** A connection lost during the handshake is reported to nobody: neither connect callback
    runs, and a callback given to [connect] stays pending. *)
Example lost_in_handshake :
  let s := handleDisconnected (str "Connection reset by peer") dialledClient in
  state_ dialledClient = Handshake ∧ log s = [ConnectCalled (str "ws://h/chat")] ∧ pendingConnectCallback_ s = true ∧
  handshakeTimer_ (timers s) = None.
Proof. by vm_compute. Qed.

(** [connect] on an open client is refused, after it has made the client forget the
    connection: what arrives on it is no longer read, and [close] reports nothing. *)
Example connect_forgets_open :
  let '(s, started) := connect wsRand (str "ws://h/other") [] false upClient in
  let s := handleDataReceived quiet wsRand (wire (mkFrame true Text None (str "hi"))) s in
  started = false ∧ isOpen (net s) = true ∧ state_ s = Disconnected ∧
  log (close wsRand 1000 [] s) = [ConnectCalled (str "ws://h/other"); OnConnect false (str "Connection is already active")].
Proof. by vm_compute. Qed.

(** A callback given to [connect] that closes the connection is followed by the announcement
    of the connection it closed. *)
Example announced_after_close :
  let react e := match e with OnPendingConnect true _ => [CallClose 1000 []] | _ => [] end in
  let s := handleDataReceived react wsRand (answerTo dialledClient) dialledClient in
  state_ s = Closing ∧ log s = [ConnectCalled (str "ws://h/chat"); OnPendingConnect true []; OnConnect true []].
Proof. by vm_compute. Qed.

(** Ports: text behind the digits is ignored, and a negative number wraps to a port. *)
Example port_garbage :
  (parseUrlWithoutScheme false (mkEndpoint [] 0 []) (str "h:80x/")).1 = mkEndpoint (str "h") 80 (str "/") ∧
  parseUrlWithoutScheme false (mkEndpoint [] 0 []) (str "h:-18446744073709551536") = (mkEndpoint (str "h") 80 (str "/"), true).
Proof. by vm_compute. Qed.

(** A message in two frames closes the connection. *)
Example fragments_refused :
  let s := handleDataReceived quiet wsRand (wire (mkFrame false Text None (str "he"))) upClient in
  log s = [OnError WebSocketFrameError (str "Invalid WebSocket frame"); OnClose 1000 (str "Connection closed")] ∧ isOpen (net s) = false.
Proof. by vm_compute. Qed.
