(* ===== verification/WebSocketUpgrade.v ===== *)
(** * The opening handshake between the library's own client and server

    [WebSocketClient] and [WebSocketServer] composed: the request one of them writes is read
    and answered by the other, and the answer is accepted. *)

From S2P Require Import Prelude CType Base64 Sha1 WebSocketProtocol WebSocketFraming HttpParser HttpCommon Address HttpUrl ClientRequest ClientTransport Transport WebSocketServer WebSocketClient.

(** ** Base64 texts in header lines *)

Lemma alpha_nospace i : isspace (alpha (i mod 64)) = false.
Proof. by apply (alpha_spec (i mod 64)), Z.mod_pos_bound. Qed.

Lemma sextet_nospace t sh : 0 <= sh -> isspace (sextet t sh) = false.
Proof. intros H. by apply sextet_spec. Qed.

Lemma encoded_nospace data : Forall (fun c => isspace c = false) (base64Encode data).
Proof.
  assert (H : Forall (fun c => isspace c = false) (encodeBytes data)); [|by destruct data].
  induction data as [|a|a b|a b c l IH] using triples_ind; [constructor|..]; cbn [encodeBytes]; cbv zeta;
    rewrite ?Forall_app, ?Forall_cons, ?Forall_nil; split_and!; try done; apply sextet_nospace; lia.
Qed.

Lemma encoded_length data : zlen (base64Encode data) = (zlen data + 2) / 3 * 4.
Proof. rewrite <- length_encodeBytes. by destruct data. Qed.

(** A base64 text of at most a thousand bytes as the value of a header. *)
Lemma encoded_sendable name data : isValidHeaderName name = true -> zlen name <= 100 -> zlen data <= 1000 ->
  sendableHeader (name, base64Encode data).
Proof.
  intros Hn Hl Hd. pose proof (encoded_nospace data) as Hs. split; cbn [fst snd]; [done | by apply trimmed_nospace | |].
  - intros Hin. rewrite Forall_forall in Hs. by specialize (Hs _ Hin).
  - rewrite encoded_length. pose proof (zlen_nonneg data).
    assert ((zlen data + 2) / 3 <= 334) by (apply Z.div_le_upper_bound; lia). unfold kMaxHeaderLineSize. lia.
Qed.

Lemma handshakeKey_length rand : zlen (randomBytes rand 16) = 16.
Proof. unfold zlen, randomBytes. by rewrite length_fillRandomBytes by (cbn; lia). Qed.

Lemma digest_length input : zlen (sha1Digest input) = 20.
Proof.
  assert (H : ∀ st b, zlen (digestBytes (processBlock st b)) = 20).
  { intros st b. unfold processBlock. destruct (fold_left _ _ _) as [[[[a b'] c] d] e]. reflexivity. }
  unfold sha1Digest, finalize. destruct (56 <? _)%nat; apply H.
Qed.

(** ** Headers by name *)

Section Lookup.
Context (name : list byte).

Definition named (h : list byte * list byte) : bool := caseInsensitiveCompare h.1 name.

Lemma find_map_set_other k v m : caseInsensitiveCompare k name = false -> find named (map_set k v m) = find named m.
Proof.
  intros Hk. unfold named. induction m as [|[k' v'] m IH]; cbn [map_set find fst]; [by rewrite Hk|].
  case_match; [cbn [find fst]; by rewrite Hk|]. case_match; cbn [find fst]; [by rewrite IH|].
  assert (k' = k) as -> by (by apply bytes_lt_total). by rewrite Hk.
Qed.

Lemma find_setAll_other hs : ∀ m, Forall (fun h => named h = false) hs -> find named (setAll hs m) = find named m.
Proof.
  induction hs as [|[k v] hs IH]; intros m H; [done|]. apply Forall_cons in H as [H1 H2]. cbn. rewrite IH by done.
  by apply find_map_set_other.
Qed.

Lemma getHeader_none hs : Forall (fun h => named h = false) hs -> getHeader (setAll hs []) name = None.
Proof. intros H. unfold getHeader. change (fun h => caseInsensitiveCompare h.1 name) with named. by rewrite find_setAll_other. Qed.

Lemma getHeader_one hs1 k v hs2 : caseInsensitiveCompare k name = true ->
  Forall (fun h => named h = false) hs1 -> Forall (fun h => named h = false) hs2 ->
  getHeader (setAll (hs1 ++ (k, v) :: hs2) []) name = Some v.
Proof.
  intros Hk H1 H2. unfold getHeader. change (fun h => caseInsensitiveCompare h.1 name) with named.
  unfold setAll. rewrite fold_left_app. cbn [fold_left fst snd]. fold (setAll hs1 []). fold (setAll hs2 (map_set k v (setAll hs1 []))).
  rewrite find_setAll_other by done. unfold named. rewrite (find_map_set (fun n => caseInsensitiveCompare n name)); [done|done|].
  by apply setAll_Forall.
Qed.

End Lookup.

Lemma parseHeaders_lines hs : hs ≠ [] -> Forall sendableHeader hs -> Forall unframed hs -> zlen hs <= kMaxHeaderCount ->
  parseHeaderLines (joinLines (headerLine <$> hs)) = Some (setAll hs []) ∧ Forall plainLine (headerLine <$> hs).
Proof.
  intros Hne He Hf Hc. assert (Hp : Forall plainLine (headerLine <$> hs)).
  { rewrite Forall_fmap. eapply Forall_impl; [apply He|]. intros h. apply headerLine_plain. }
  split; [|done]. unfold parseHeaderLines. rewrite parseHeaderLoop_lines; [|done|lia].
  by rewrite (parseLines_all hs [] 0) by (done || lia).
Qed.

Lemma assignBody_none hs : Forall unframed hs -> assignMessageBody [] (setAll hs []) = Some [].
Proof.
  intros Hf. unfold assignMessageBody, contentLengthFromHeaders, isChunkedEncoding.
  assert (Hm : Forall unframed (setAll hs [])) by (by apply setAll_Forall).
  rewrite existsb_Forall_false; last first.
  { eapply Forall_impl; [apply Hm|]. intros h [_ H]. unfold isTE in H. by rewrite H. }
  rewrite (find_Forall_false (fun h => caseInsensitiveCompare h.1 (str "Content-Length"))); [done|].
  eapply Forall_impl; [apply Hm|]. by intros h [H _].
Qed.

(** ** Headers written unless reserved *)

Section Kept.
Context (reserved : list byte -> bool).

Definition kept (hs : strmap) : strmap := List.filter (fun h => negb (reserved h.1)) hs.

Lemma appendKept_lines hs : ∀ out,
  fold_left (fun out h => if reserved h.1 then out else appendHeaderLine out h.1 h.2) hs out =
  out ++ concat ((fun l => l ++ CRLF) <$> (headerLine <$> kept hs)).
Proof.
  unfold kept. induction hs as [|h hs IH]; intros out; cbn [fold_left List.filter]; [by rewrite app_nil_r|].
  rewrite IH. destruct (reserved h.1); [done|]. unfold appendHeaderLine, headerLine. cbn [negb fmap list_fmap concat].
  by rewrite <- !app_assoc.
Qed.

Lemma kept_Forall (P : list byte * list byte -> Prop) hs : Forall P hs -> Forall P (kept hs).
Proof. unfold kept. induction 1 as [|h hs Hh _ IH]; cbn; [constructor|]. destruct (reserved h.1); by try constructor. Qed.

Lemma kept_length hs : zlen (kept hs) <= zlen hs.
Proof.
  unfold kept. induction hs as [|h hs IH]; cbn; [done|]. rewrite zlen_cons. destruct (negb _); rewrite ?zlen_cons; lia.
Qed.

Lemma kept_other name hs : (∀ n, caseInsensitiveCompare n name = true -> reserved n = true) ->
  Forall (fun h => named name h = false) (kept hs).
Proof.
  intros H. unfold kept. induction hs as [|h hs IH]; cbn; [constructor|].
  destruct (reserved h.1) eqn:E; [done|]. constructor; [|done]. unfold named.
  destruct (caseInsensitiveCompare h.1 name) eqn:E2; [|done]. by rewrite (H _ E2) in E.
Qed.

Lemma optional_lines (present : bool) name value out :
  (if present then appendHeaderLine out name value else out) =
  out ++ concat ((fun l => l ++ CRLF) <$> (headerLine <$> optionalHeader present name value)).
Proof.
  destruct present; cbn [optionalHeader]; [|by rewrite app_nil_r]. unfold appendHeaderLine, headerLine.
  cbn [fmap list_fmap concat fst snd]. by rewrite app_nil_r, <- !app_assoc.
Qed.

Lemma optional_Forall (P : list byte * list byte -> Prop) present name value : P (name, value) -> Forall P (optionalHeader present name value).
Proof. intros H. destruct present; cbn [optionalHeader]; [by apply Forall_singleton | by apply Forall_nil]. Qed.

End Kept.

Lemma fixed_sendable name value : isValidHeaderName name = true -> trimmed value -> (CR ∉ value) -> zlen name + zlen value <= 1000 ->
  sendableHeader (name, value).
Proof. intros. split; cbn [fst snd]; try done. unfold kMaxHeaderLineSize. lia. Qed.

Ltac fixed_header := apply fixed_sendable; [done | split; by intros c [= <-] | decide_closed | by vm_compute].


(** ** The client's request *)

Section Request.
Context {Net : Type} {tcp : TcpClient Net}.
Abbreviation Client := (@WebSocketClient.Impl Net).

Definition unreservedOf : strmap -> strmap := kept isReservedHandshakeHeader.

Definition hostOf (s : Client) : list byte :=
  WebSocketClient.buildHostHeader (enableSSL (WebSocketClient.sslConfig_ (options s))) (endpoint s).

Definition protocolsOf (s : Client) : list byte := joinSubprotocols (WebSocketClient.subprotocols_ (options s)).

(** Every header line of the request, in order. *)
Definition requestHeaders (s : Client) : strmap :=
  [(str "Host", hostOf s); (str "Upgrade", str "websocket"); (str "Connection", str "Upgrade");
   (str "Sec-WebSocket-Key", handshakeKey_ s); (str "Sec-WebSocket-Version", str "13");
   (str "User-Agent", str "FastNet-WebSocketClient/2.0")] ++
  optionalHeader (negb (protocolsOf s =s [])) (str "Sec-WebSocket-Protocol") (protocolsOf s) ++
  unreservedOf (handshakeHeaders_ (options s)) ++ unreservedOf (oneShotHandshakeHeaders_ s).

Lemma appendUnreserved_lines hs out :
  appendUnreserved hs out = out ++ concat ((fun l => l ++ CRLF) <$> (headerLine <$> unreservedOf hs)).
Proof. apply appendKept_lines. Qed.

Lemma handshakeRequest_message (s : Client) :
  WebSocketClient.handshakeRequest s =
  message (str "GET" ++ SP :: resourcePath_ (endpoint s) ++ SP :: str "HTTP/1.1") (headerLine <$> requestHeaders s) [].
Proof.
  unfold WebSocketClient.handshakeRequest. rewrite !appendUnreserved_lines. unfold message, requestHeaders, hostOf, protocolsOf.
  set (ps := joinSubprotocols _). rewrite !fmap_app, !concat_app, app_nil_r.
  assert (E : ∀ request, (if ps =s [] then request else appendHeaderLine request (str "Sec-WebSocket-Protocol") ps) =
    request ++ concat ((fun l => l ++ CRLF) <$> (headerLine <$> optionalHeader (negb (ps =s [])) (str "Sec-WebSocket-Protocol") ps))).
  { intros request. case_bool_decide; cbn [negb optionalHeader]; [by rewrite app_nil_r|]. unfold appendHeaderLine, headerLine.
    cbn [fmap list_fmap concat fst snd]. by rewrite app_nil_r, <- !app_assoc. }
  rewrite E. cbn [fmap list_fmap concat]. unfold headerLine at 5 6 7 8 9 10. cbn [fst snd]. rewrite app_nil_r.
  change (str "GET ") with (str "GET" ++ [SP]). change (str " HTTP/1.1") with (SP :: str "HTTP/1.1").
  change (str "Host: ") with (str "Host" ++ str ": "). change (str "Upgrade: websocket") with (str "Upgrade" ++ str ": " ++ str "websocket").
  change (str "Connection: Upgrade") with (str "Connection" ++ str ": " ++ str "Upgrade").
  change (str "Sec-WebSocket-Key: ") with (str "Sec-WebSocket-Key" ++ str ": ").
  change (str "Sec-WebSocket-Version: 13") with (str "Sec-WebSocket-Version" ++ str ": " ++ str "13").
  change (str "User-Agent: FastNet-WebSocketClient/2.0") with (str "User-Agent" ++ str ": " ++ str "FastNet-WebSocketClient/2.0").
  rewrite <- !app_assoc. cbn [app]. by rewrite <- !app_assoc.
Qed.

(** What a client's settings must satisfy for its request to be read. *)
Record sendableUpgrade (s : Client) : Prop := {
  su_path : resourcePath_ (endpoint s) ≠ [] ∧ (SP ∉ resourcePath_ (endpoint s)) ∧ (CR ∉ resourcePath_ (endpoint s));
  su_host : sendableHeader (str "Host", hostOf s);
  su_key : ∃ rand, handshakeKey_ s = createHandshakeKey rand;
  su_protocols : Forall (fun p => p ≠ [] ∧ trimmed p ∧ (x2c ∉ p)) (WebSocketClient.subprotocols_ (options s)) ∧
    sendableHeader (str "Sec-WebSocket-Protocol", protocolsOf s);
  su_custom : let hs := handshakeHeaders_ (options s) ++ oneShotHandshakeHeaders_ s in
    Forall sendableHeader hs ∧ Forall unframed hs ∧ zlen hs <= kMaxHeaderCount - 7;
  su_line : zlen (resourcePath_ (endpoint s)) + 13 <= kMaxRequestLineSize;
  su_section : zlen (WebSocketClient.handshakeRequest s) <= kMaxHeaderSectionSize
}.

Lemma requestHeaders_sendable (s : Client) : sendableUpgrade s ->
  Forall sendableHeader (requestHeaders s) ∧ Forall unframed (requestHeaders s) ∧ zlen (requestHeaders s) <= kMaxHeaderCount.
Proof.
  intros [_ Hh [rand Hk] [_ Hp] (Hs & Hf & Hc) _ _]. unfold requestHeaders. rewrite Forall_app in Hs, Hf. rewrite zlen_app in Hc.
  destruct Hs as [Hs1 Hs2], Hf as [Hf1 Hf2]. rewrite !Forall_app, !zlen_app, !Forall_cons, !Forall_nil.
  pose proof (kept_length isReservedHandshakeHeader (handshakeHeaders_ (options s)) : zlen (unreservedOf _) <= _). pose proof (kept_length isReservedHandshakeHeader (oneShotHandshakeHeaders_ s) : zlen (unreservedOf _) <= _).
  assert (Hkey : sendableHeader (str "Sec-WebSocket-Key", handshakeKey_ s)).
  { rewrite Hk. apply encoded_sendable; [done|by vm_compute|]. by rewrite handshakeKey_length. }
  split_and!; try done; try (by apply kept_Forall); try fixed_header.
  - destruct (negb _); cbn [optionalHeader]; [by apply Forall_singleton|by apply Forall_nil].
  - destruct (negb _); cbn [optionalHeader]; [by apply Forall_singleton|by apply Forall_nil].
  - change (zlen [(str "Host", hostOf s); _; _; _; _; _]) with 6.
    destruct (negb _); cbn [optionalHeader]; rewrite ?zlen_cons, ?zlen_nil; lia.
Qed.

(** The server reads the request to its end, with exactly those headers. *)
Lemma request_read (s : Client) : sendableUpgrade s ->
  find_sub (CRLF ++ CRLF) (WebSocketClient.handshakeRequest s) = Some (length (WebSocketClient.handshakeRequest s) - 4)%nat ∧
  ∃ uri query params, parseRequest (WebSocketClient.handshakeRequest s) =
    Some (mkRequest (str "GET") (resourcePath_ (endpoint s)) uri query (str "HTTP/1.1") (setAll (requestHeaders s) []) [] params).
Proof.
  intros Hsu. destruct (requestHeaders_sendable s Hsu) as (He & Hf & Hc). destruct Hsu as [Hpath _ _ _ _ Hline Hsec].
  rewrite handshakeRequest_message in *. destruct (parseHeaders_lines (requestHeaders s)) as [Hparse Hplain]; try done.
  set (lines := headerLine <$> requestHeaders s) in *.
  assert (El : ∃ l ls, lines = l :: ls) by (unfold lines, requestHeaders; cbn; eauto). destruct El as (l & ls & El). rewrite El in *.
  set (rl := str "GET" ++ SP :: resourcePath_ (endpoint s) ++ SP :: str "HTTP/1.1") in *.
  assert (Hrl : plainLine rl).
  { split; [done|]. unfold rl. destruct Hpath as (_ & _ & Hcr). rewrite !not_elem_of_app, !not_elem_of_cons, !not_elem_of_app, !not_elem_of_cons.
    split_and!; try done; decide_closed. }
  destruct (message_cuts rl l ls [] Hrl Hplain) as (_ & Hfind & _). split.
  - rewrite Hfind. f_equal. pose proof (joinLines_section rl l ls []) as Hj. rewrite zlen_nil in Hj. unfold zlen in Hj. lia.
  - destruct (splitTarget (resourcePath_ (endpoint s))) as [[uri query] params] eqn:Et. exists uri, query, params.
    change (message rl (l :: ls) []) with (message rl (l :: ls) ([] ++ [])) in *. unfold rl.
    rewrite (parseRequest_message (str "GET") (resourcePath_ (endpoint s)) l ls [] [] (setAll (requestHeaders s) [])); try done.
    + by rewrite Et.
    + change (zlen (str "GET")) with 3. lia.
    + fold rl. unfold kMaxHeaderSectionSize, size_max in *. lia.
    + by apply assignBody_none.
Qed.

(** ** What the server makes of it *)

Lemma split_join subs : Forall (fun p => p ≠ [] ∧ trimmed p ∧ (x2c ∉ p)) subs -> splitSubprotocols (joinSubprotocols subs) = subs.
Proof.
  assert (Hone : ∀ p, p ≠ [] ∧ trimmed p ∧ (x2c ∉ p) -> splitSubprotocols p = [p]).
  { intros p (H1 & H2 & H3). unfold splitSubprotocols. rewrite splitOn_plain by done. cbn [fmap list_fmap]. rewrite trim_id by done.
    by rewrite filter_cons_True. }
  enough (H : ∀ done value, splitSubprotocols value = done -> (value = [] -> done = []) ->
    Forall (fun p => p ≠ [] ∧ trimmed p ∧ (x2c ∉ p)) subs ->
    splitSubprotocols (fold_left (fun value protocol => if protocol =s [] then value
      else (if value =s [] then value else value ++ str ", ") ++ protocol) subs value) = done ++ subs) by (intros f; by apply (H [] [])).
  induction subs as [|p subs IH]; intros done value Hv Hd Hs; cbn [fold_left]; [by rewrite app_nil_r|].
  apply Forall_cons in Hs as [Hp Hs]. rewrite (bool_decide_eq_false_2 (p = [])) by apply Hp.
  change (p :: subs) with ([p] ++ subs). rewrite app_assoc. apply IH; [|by destruct Hp as [? _]; intros [_ ?]%app_eq_nil|done].
  case_bool_decide as E; [rewrite (Hd E), E; by apply Hone|].
  rewrite <- app_assoc. change (str ", " ++ p) with (x2c :: x20 :: p). unfold splitSubprotocols in *. destruct Hp as (H1 & H2 & H3).
  rewrite splitOn_last by (rewrite not_elem_of_cons; done). rewrite fmap_app, filter_app, Hv. f_equal. cbn [fmap list_fmap].
  assert (trim (x20 :: p) = p) as -> by (rewrite <- (trim_id p H2) at 2; done). by rewrite filter_cons_True.
Qed.

Context {Address : Type} (address : Address).

Lemma request_upgrade (s : Client) uri query params : sendableUpgrade s ->
  let v := mkRequest (str "GET") (resourcePath_ (endpoint s)) uri query (str "HTTP/1.1") (setAll (requestHeaders s) []) [] params in
  let u := upgradeOf v address in
  supportedUpgrade u = true ∧ keyValue u = handshakeKey_ s ∧
  requestedSubprotocols (WebSocketServer.handshakeRequest u) = WebSocketClient.subprotocols_ (options s).
Proof.
  intros Hsu v u. destruct Hsu as [_ _ [rand Hk] [Hsub _] _ _ _].
  assert (Hrest : ∀ name, (∀ n, caseInsensitiveCompare n name = true -> isReservedHandshakeHeader n = true) ->
    Forall (fun h => named name h = false) (unreservedOf (handshakeHeaders_ (options s)) ++ unreservedOf (oneShotHandshakeHeaders_ s))).
  { intros name Hn. rewrite Forall_app. split; by apply kept_other. }
  assert (Hopt : ∀ name, caseInsensitiveCompare (str "Sec-WebSocket-Protocol") name = false ->
    Forall (fun h => named name h = false) (optionalHeader (negb (protocolsOf s =s [])) (str "Sec-WebSocket-Protocol") (protocolsOf s))).
  { intros name Hn. destruct (negb _); [by apply Forall_singleton | by apply Forall_nil]. }
  assert (Hres : ∀ n, caseInsensitiveCompare n (str "Upgrade") = true \/ caseInsensitiveCompare n (str "Connection") = true \/
    caseInsensitiveCompare n (str "Sec-WebSocket-Key") = true \/ caseInsensitiveCompare n (str "Sec-WebSocket-Version") = true \/
    caseInsensitiveCompare n (str "Sec-WebSocket-Protocol") = true -> isReservedHandshakeHeader n = true).
  { intros n Hn. unfold isReservedHandshakeHeader. rewrite !orb_true_iff. tauto. }
  assert (Hget : ∀ pre k value post, requestHeaders s = pre ++ (k, value) :: post ++
      optionalHeader (negb (protocolsOf s =s [])) (str "Sec-WebSocket-Protocol") (protocolsOf s) ++
      unreservedOf (handshakeHeaders_ (options s)) ++ unreservedOf (oneShotHandshakeHeaders_ s) ->
    (∀ n, caseInsensitiveCompare n k = true -> isReservedHandshakeHeader n = true) ->
    caseInsensitiveCompare k k = true -> caseInsensitiveCompare (str "Sec-WebSocket-Protocol") k = false ->
    Forall (fun h => named k h = false) pre -> Forall (fun h => named k h = false) post ->
    getHeader (setAll (requestHeaders s) []) k = Some value).
  { intros pre k value post -> Hn Hkk Hp H1 H2. apply getHeader_one; [done|done|]. rewrite Forall_app, Forall_app. eauto. }
  set (host := (str "Host", hostOf s)) in *. set (up := (str "Upgrade", str "websocket")).
  set (con := (str "Connection", str "Upgrade")). set (key := (str "Sec-WebSocket-Key", handshakeKey_ s)).
  set (ver := (str "Sec-WebSocket-Version", str "13")). set (ua := (str "User-Agent", str "FastNet-WebSocketClient/2.0")).
  assert (Hu : getHeader (setAll (requestHeaders s) []) (str "Upgrade") = Some (str "websocket")).
  { apply (Hget [host] _ _ [con; key; ver; ua]); [done | auto | done | done | by repeat constructor | by repeat constructor]. }
  assert (Hc : getHeader (setAll (requestHeaders s) []) (str "Connection") = Some (str "Upgrade")).
  { apply (Hget [host; up] _ _ [key; ver; ua]); [done | auto | done | done | by repeat constructor | by repeat constructor]. }
  assert (Hky : getHeader (setAll (requestHeaders s) []) (str "Sec-WebSocket-Key") = Some (handshakeKey_ s)).
  { apply (Hget [host; up; con] _ _ [ver; ua]); [done | auto | done | done | by repeat constructor | by repeat constructor]. }
  assert (Hv : getHeader (setAll (requestHeaders s) []) (str "Sec-WebSocket-Version") = Some (str "13")).
  { apply (Hget [host; up; con; key] _ _ [ua]); [done | auto 6 | done | done | by repeat constructor | by repeat constructor]. }
  assert (Hps : match getHeader (setAll (requestHeaders s) []) (str "Sec-WebSocket-Protocol") with Some p => splitSubprotocols p | None => [] end =
    WebSocketClient.subprotocols_ (options s)).
  { pose proof (split_join _ Hsub) as Hj. fold (protocolsOf s) in Hj. unfold requestHeaders. destruct (protocolsOf s =s []) eqn:E; cbn [negb optionalHeader].
    - rewrite getHeader_none; [by apply bool_decide_eq_true in E; rewrite E in Hj|]. rewrite Forall_app. split; [by repeat constructor|].
      apply Hrest. auto 7.
    - assert (Hg : getHeader (setAll ([host; up; con; key; ver; ua] ++ (str "Sec-WebSocket-Protocol", protocolsOf s) ::
        unreservedOf (handshakeHeaders_ (options s)) ++ unreservedOf (oneShotHandshakeHeaders_ s)) []) (str "Sec-WebSocket-Protocol") =
        Some (protocolsOf s)) by (apply getHeader_one; [done | by repeat constructor | apply Hrest; auto 7]).
      match goal with |- context [getHeader ?m ?n] => change (getHeader m n) with
        (getHeader (setAll ([host; up; con; key; ver; ua] ++ (str "Sec-WebSocket-Protocol", protocolsOf s) :: unreservedOf (handshakeHeaders_ (options s)) ++ unreservedOf (oneShotHandshakeHeaders_ s)) []) n) end.
      by rewrite Hg. }
  unfold u, upgradeOf, supportedUpgrade. cbn [rq_headers v upgradeValue connectionValue keyValue versionValue WebSocketServer.handshakeRequest requestedSubprotocols].
  rewrite Hu, Hc, Hky, Hv, Hps. cbn [default from_option id]. split_and!; [|done|done].
  rewrite (bool_decide_eq_false_2 (handshakeKey_ s = [])); [by vm_compute|]. rewrite Hk. intros E.
  pose proof (encoded_length (randomBytes rand 16)) as El. unfold createHandshakeKey in E. rewrite E, handshakeKey_length in El. done.
Qed.
End Request.

(** ** The server's answer *)

Section Answer.
Context {Address : Type}.

Definition answerHeaders (key : list byte) (r : HandshakeResponse) : strmap :=
  [(str "Upgrade", str "websocket"); (str "Connection", str "Upgrade"); (str "Sec-WebSocket-Accept", createAcceptKey key)] ++
  optionalHeader (negb (acceptedSubprotocol r =s [])) (str "Sec-WebSocket-Protocol") (acceptedSubprotocol r) ++
  kept isReservedHandshakeResponseHeader (hs_headers_ r).

Lemma buildHandshakeResponse_message key (r : HandshakeResponse) :
  buildHandshakeResponse key r =
  message (str "HTTP/1.1" ++ SP :: toChars 10 101 ++ SP :: str "Switching Protocols") (headerLine <$> answerHeaders key r) [].
Proof.
  unfold buildHandshakeResponse. rewrite appendKept_lines. unfold message, answerHeaders. rewrite !fmap_app, !concat_app, app_nil_r.
  assert (E : ∀ out, (if acceptedSubprotocol r =s [] then out else appendHeaderLine out (str "Sec-WebSocket-Protocol") (acceptedSubprotocol r)) =
    out ++ concat ((fun l => l ++ CRLF) <$> (headerLine <$> optionalHeader (negb (acceptedSubprotocol r =s [])) (str "Sec-WebSocket-Protocol") (acceptedSubprotocol r)))).
  { intros out. rewrite <- optional_lines. by case_bool_decide. }
  rewrite E. cbn [fmap list_fmap concat]. unfold headerLine at 3 4 5. cbn [fst snd]. rewrite app_nil_r.
  change (str "HTTP/1.1 101 Switching Protocols") with (str "HTTP/1.1" ++ SP :: toChars 10 101 ++ SP :: str "Switching Protocols").
  change (str "Upgrade: websocket") with (str "Upgrade" ++ str ": " ++ str "websocket").
  change (str "Connection: Upgrade") with (str "Connection" ++ str ": " ++ str "Upgrade").
  change (str "Sec-WebSocket-Accept: ") with (str "Sec-WebSocket-Accept" ++ str ": ").
  rewrite <- !app_assoc. cbn [app]. by rewrite <- !app_assoc.
Qed.

(** What an accepting response must satisfy for its text to be read. *)
Record sendableAnswer (key : list byte) (r : HandshakeResponse) : Prop := {
  sa_protocol : sendableHeader (str "Sec-WebSocket-Protocol", acceptedSubprotocol r);
  sa_custom : Forall sendableHeader (hs_headers_ r) ∧ Forall unframed (hs_headers_ r) ∧ zlen (hs_headers_ r) <= kMaxHeaderCount - 4;
  sa_section : zlen (buildHandshakeResponse key r) <= kMaxHeaderSectionSize
}.

Lemma answerHeaders_sendable key (r : HandshakeResponse) : sendableAnswer key r ->
  Forall sendableHeader (answerHeaders key r) ∧ Forall unframed (answerHeaders key r) ∧ zlen (answerHeaders key r) <= kMaxHeaderCount.
Proof.
  intros [Hp (Hs & Hf & Hc) _]. unfold answerHeaders. rewrite !Forall_app, !zlen_app, !Forall_cons, !Forall_nil.
  pose proof (kept_length isReservedHandshakeResponseHeader (hs_headers_ r)).
  assert (Hk : sendableHeader (str "Sec-WebSocket-Accept", createAcceptKey key)).
  { apply encoded_sendable; [done | by vm_compute|]. by rewrite digest_length. }
  split_and!; try done; try (by apply kept_Forall); try (by apply optional_Forall); try fixed_header.
  change (zlen [(str "Upgrade", str "websocket"); _; _]) with 3.
  destruct (negb _); cbn [optionalHeader]; rewrite ?zlen_cons, ?zlen_nil; lia.
Qed.

(** The client reads the answer to its end, with exactly those headers. *)
Lemma answer_read key (r : HandshakeResponse) : sendableAnswer key r ->
  find_sub (CRLF ++ CRLF) (buildHandshakeResponse key r) = Some (length (buildHandshakeResponse key r) - 4)%nat ∧
  parseResponse (buildHandshakeResponse key r) =
    Some (mkResponse 101 (str "Switching Protocols") (str "HTTP/1.1") (setAll (answerHeaders key r) []) []).
Proof.
  intros Hsa. destruct (answerHeaders_sendable key r Hsa) as (He & Hf & Hc). destruct Hsa as [_ _ Hsec].
  rewrite buildHandshakeResponse_message in *. destruct (parseHeaders_lines (answerHeaders key r)) as [Hparse Hplain]; try done.
  set (lines := headerLine <$> answerHeaders key r) in *.
  assert (El : ∃ l ls, lines = l :: ls) by (unfold lines, answerHeaders; cbn; eauto). destruct El as (l & ls & El). rewrite El in *.
  set (sl := str "HTTP/1.1" ++ SP :: toChars 10 101 ++ SP :: str "Switching Protocols") in *.
  assert (Hcr : CR ∉ str "Switching Protocols") by decide_closed.
  assert (Hsl : plainLine sl) by (by apply statusLine_plain).
  destruct (message_cuts sl l ls [] Hsl Hplain) as (_ & Hfind & _). split.
  - rewrite Hfind. f_equal. pose proof (joinLines_section sl l ls []) as Hj. rewrite zlen_nil in Hj. unfold zlen in Hj. lia.
  - unfold parseResponse. unfold sl. rewrite (parseResponseHead_message 101 (str "Switching Protocols") l ls [] (setAll (answerHeaders key r) [])); try done.
    + split; by intros c [= <-].
    + fold sl. unfold kMaxHeaderSectionSize, size_max in *. lia.
Qed.

End Answer.

(** ** The client's check of it *)

Section Check.
Context {Net : Type} {tcp : TcpClient Net} {Address : Type}.
Abbreviation Client := (@WebSocketClient.Impl Net).

Definition chosen (r : HandshakeResponse) : option (list byte) :=
  if acceptedSubprotocol r =s [] then None else Some (acceptedSubprotocol r).

Lemma answer_accepted (s : Client) (r : HandshakeResponse) : sendableAnswer (handshakeKey_ s) r ->
  acceptedSubprotocol r = [] ∨ containsSubprotocol (WebSocketClient.subprotocols_ (options s)) (acceptedSubprotocol r) = true ->
  checkHandshake s (buildHandshakeResponse (handshakeKey_ s) r) = inr (chosen r).
Proof.
  intros Hsa Hp. destruct (answer_read _ _ Hsa) as [_ Hr]. unfold checkHandshake. rewrite Hr. cbn [rs_statusCode rs_headers].
  set (up := (str "Upgrade", str "websocket")). set (con := (str "Connection", str "Upgrade")).
  set (acc := (str "Sec-WebSocket-Accept", createAcceptKey (handshakeKey_ s))).
  set (opt := optionalHeader (negb (acceptedSubprotocol r =s [])) (str "Sec-WebSocket-Protocol") (acceptedSubprotocol r)).
  set (rest := kept isReservedHandshakeResponseHeader (hs_headers_ r)).
  assert (Hres : ∀ n, caseInsensitiveCompare n (str "Upgrade") = true \/ caseInsensitiveCompare n (str "Connection") = true \/
    caseInsensitiveCompare n (str "Sec-WebSocket-Accept") = true \/ caseInsensitiveCompare n (str "Sec-WebSocket-Protocol") = true ->
    isReservedHandshakeResponseHeader n = true).
  { intros n Hn. unfold isReservedHandshakeResponseHeader. rewrite !orb_true_iff. tauto. }
  assert (Hrest : ∀ name, (∀ n, caseInsensitiveCompare n name = true -> isReservedHandshakeResponseHeader n = true) ->
    caseInsensitiveCompare (str "Sec-WebSocket-Protocol") name = false ->
    Forall (fun h => named name h = false) (opt ++ rest)).
  { intros name Hn Hnp. rewrite Forall_app. split; [by apply optional_Forall | by apply kept_other]. }
  assert (Hh : answerHeaders (handshakeKey_ s) r = [up; con; acc] ++ opt ++ rest) by done. rewrite Hh.
  assert (Hu : getHeader (setAll ([up; con; acc] ++ opt ++ rest) []) (str "Upgrade") = Some (str "websocket")).
  { apply (getHeader_one _ [] _ _ ([con; acc] ++ opt ++ rest)); [done | done|].
    rewrite Forall_app. split; [by repeat constructor | apply Hrest; [auto | done]]. }
  assert (Hc : getHeader (setAll ([up; con; acc] ++ opt ++ rest) []) (str "Connection") = Some (str "Upgrade")).
  { apply (getHeader_one _ [up] _ _ ([acc] ++ opt ++ rest)); [done | by repeat constructor|].
    rewrite Forall_app. split; [by repeat constructor | apply Hrest; [auto | done]]. }
  assert (Ha : getHeader (setAll ([up; con; acc] ++ opt ++ rest) []) (str "Sec-WebSocket-Accept") = Some (createAcceptKey (handshakeKey_ s))).
  { apply (getHeader_one _ [up; con] _ _ (opt ++ rest)); [done | by repeat constructor|]. apply Hrest; [auto 6 | done]. }
  rewrite Hu, Hc, Ha. cbn [Z.eqb Pos.eqb]. rewrite (bool_decide_eq_true_2 (createAcceptKey _ = _)) by done.
  rewrite bool_decide_eq_false_2 by (by vm_compute). change (negb (caseInsensitiveCompare (str "websocket") (str "websocket"))) with false.
  cbn [negb orb]. unfold chosen, opt in *. clear Hh Hu Hc Ha. destruct (acceptedSubprotocol r =s []) eqn:E; cbn [negb optionalHeader app].
  - rewrite getHeader_none; [done|]. change (Forall (fun h => named (str "Sec-WebSocket-Protocol") h = false) ([up; con; acc] ++ rest)).
    rewrite Forall_app. split; [by repeat constructor|]. apply kept_other. auto 6.
  - apply bool_decide_eq_false in E. destruct Hp as [Hp|Hp]; [done|].
    assert (Hg : getHeader (setAll ([up; con; acc] ++ (str "Sec-WebSocket-Protocol", acceptedSubprotocol r) :: rest) []) (str "Sec-WebSocket-Protocol") =
      Some (acceptedSubprotocol r)) by (apply getHeader_one; [done | by repeat constructor | apply kept_other; auto 6]).
    cbn [app] in Hg. rewrite Hg. unfold containsSubprotocol in Hp. unfold WebSocketClient.containsSubprotocol. cbv zeta in *. rewrite Hp.
    rewrite bool_decide_eq_false_2 by (intros E2; by rewrite E2 in Hp). cbn [negb orb].
    rewrite trim_id; [done|]. apply (sa_protocol _ _ Hsa).
Qed.

(** What the user is told. *)
Definition announcement (s : Client) : list WebSocketClient.Event :=
  (if pendingConnectCallback_ s then [OnPendingConnect true []] else []) ++ [OnConnect true []].

(** A client that waits for the answer, with [acc] received so far. *)
Record waiting (s : Client) (acc : list byte) (s' : Client) : Prop := {
  wt_bounds : inBounds s';
  wt_view : WebSocketClient.makeBufferedView s' = acc;
  wt_same : sameButBuffer s s'
}.

Context (react : WebSocketClient.Event -> list WebSocketClient.UserCall) (rand : nat -> nat -> Z).

Lemma waiting_receives (s s' : Client) acc d : waiting s acc s' -> waiting s (acc ++ d) (WebSocketClient.received d s').
Proof.
  intros [H1 H2 H3]. destruct (client_received_view d s' H1) as [H4 H5]. split; [done | by rewrite H4, H2 |].
  unfold sameButBuffer in *. cbn [buffer_ bufferOffset_ WebSocketClient.received WebSocketClient.setBuffer]. by rewrite H3.
Qed.

Lemma waiting_segments (s : Client) segs : ∀ s' acc x i, waiting s acc s' -> state_ s = WebSocketClient.Handshake ->
  find_sub (CRLF ++ CRLF) ((acc ++ concat segs) ++ x) = Some i -> (length (acc ++ concat segs) < i + 4)%nat ->
  waiting s (acc ++ concat segs) (fold_left (fun s d => WebSocketClient.handleDataReceived react rand d s) segs s').
Proof.
  induction segs as [|d segs IH]; intros s' acc x i Hw Hs Hf Hl; cbn [fold_left concat]; [by rewrite app_nil_r|].
  cbn [concat] in Hf, Hl. rewrite app_assoc in *. apply (waiting_receives _ _ _ d) in Hw.
  assert (E : WebSocketClient.handleDataReceived react rand d s' = WebSocketClient.received d s'); [|rewrite E; by eapply IH].
  unfold WebSocketClient.handleDataReceived. cbv zeta. fold (WebSocketClient.received d s').
  destruct Hw as [_ Hv Hsame]. set (s1 := WebSocketClient.received d s') in *.
  assert (state_ s1 = WebSocketClient.Handshake) as -> by (by rewrite Hsame). unfold handleHandshakeResponse. rewrite Hv.
  rewrite (find_sub_prefix _ _ (concat segs ++ x) i); [done | by rewrite app_assoc | rewrite length_app in Hl; cbn; lia].
Qed.

(** The answer, cut anywhere, opens the connection when its last byte is there. *)
Lemma answer_opens (s : Client) segs d accepted :
  let raw := concat segs ++ d in
  (∀ e, react e = []) -> connectCallback_ (options s) = true ->
  state_ s = WebSocketClient.Handshake -> buffer_ s = [] -> bufferOffset_ s = 0%nat -> d ≠ [] ->
  find_sub (CRLF ++ CRLF) raw = Some (length raw - 4)%nat -> checkHandshake s raw = inr accepted ->
  let before := fold_left (fun s d => WebSocketClient.handleDataReceived react rand d s) segs s in
  let after := WebSocketClient.handleDataReceived react rand d before in
  (log before = log s ∧ net before = net s ∧ state_ before = WebSocketClient.Handshake) ∧
  log after = log s ++ announcement s ∧ net after = net s ∧ state_ after = WebSocketClient.Connected ∧ connected_ after = true ∧
  acceptedSubprotocol_ after = accepted ∧ WebSocketClient.makeBufferedView after = [] ∧ handshakeTimer_ (timers after) = None.
Proof.
  intros raw Hsil Hcb Hs Hb Ho Hd Hf Hck before after.
  assert (H0 : waiting s [] s).
  { split; [unfold inBounds; rewrite Hb, Ho; cbn; lia | by rewrite client_view_drop, Hb, Ho | by destruct s]. }
  pose proof (find_sub_bound _ _ _ Hf) as Hbound. cbn [CRLF app length] in Hbound.
  assert (H1 : waiting s (concat segs) before).
  { apply (waiting_segments s segs s [] d (length raw - 4)); try done. cbn [app]. unfold raw. rewrite length_app. destruct d; [done|]. cbn [length]. lia. }
  split; [destruct H1 as [_ _ ->]; done|].
  apply (waiting_receives _ _ _ d) in H1. fold raw in H1. unfold after, WebSocketClient.handleDataReceived. cbv zeta.
  fold (WebSocketClient.received d before). set (s1 := WebSocketClient.received d before) in *. clearbody s1. clear after before.
  destruct H1 as [_ Hv Hsame]. assert (state_ s1 = WebSocketClient.Handshake) as -> by (by rewrite Hsame).
  unfold handleHandshakeResponse. rewrite Hv, Hf. replace (length raw - 4 + 4)%nat with (length raw) by lia. rewrite firstn_all.
  assert (checkHandshake s1 raw = inr accepted) as -> by (by rewrite Hsame). set (s2 := setTimers _ _).
  destruct (client_consume_view (length raw) s2) as (Hv3 & _ & Hsame3). set (s3 := WebSocketClient.consume _ s2) in *.
  assert (Hx : options s3 = options s ∧ log s3 = log s ∧ net s3 = net s ∧ pendingConnectCallback_ s3 = pendingConnectCallback_ s ∧
    acceptedSubprotocol_ s3 = accepted ∧ handshakeTimer_ (timers s3) = None) by (rewrite Hsame3; unfold s2; by rewrite Hsame).
  assert (Hv3' : WebSocketClient.makeBufferedView s3 = []).
  { rewrite Hv3. change (WebSocketClient.makeBufferedView s2) with (WebSocketClient.makeBufferedView s1). by rewrite Hv, drop_all. }
  clearbody s3. destruct Hx as (Ho3 & Hl3 & Hn3 & Hp3 & Ha3 & Ht3).
  assert (Hping : ∃ t, startPingTimer (WebSocketClient.setConnected true (setState WebSocketClient.Connected s3)) =
    setTimers t (WebSocketClient.setConnected true (setState WebSocketClient.Connected s3)) ∧ handshakeTimer_ t = None).
  { unfold startPingTimer. case_match; eexists; (split; [reflexivity|done]). }
  destruct Hping as (t & -> & Ht). unfold notifyConnected, WebSocketClient.callback, announcement. rewrite !Hsil. cbn [fold_left].
  cbn [pendingConnectCallback_ setTimers WebSocketClient.setConnected setState options]. rewrite Hp3.
  assert (Hc3 : connectCallback_ (options s3) = true) by (by rewrite Ho3).
  destruct (pendingConnectCallback_ s); cbn [options WebSocketClient.emit setLog setPending setTimers WebSocketClient.setConnected setState]; rewrite Hc3;
    match goal with |- context [WebSocketClient.makeBufferedView ?x] =>
      assert (Hv4 : WebSocketClient.makeBufferedView x = []) by exact Hv3' end; rewrite Hv4;
    cbn; rewrite Hl3, <- ?app_assoc; done.
Qed.

End Check.

(** ** Both ends *)

(** A client whose transport has just connected, about to send its request. *)
Definition requesting {Net} (rand : nat -> nat -> Z) (s : WebSocketClient.Impl (Net := Net)) : WebSocketClient.Impl :=
  let s := WebSocketClient.setBuffer [] 0 (setState WebSocketClient.Handshake (WebSocketClient.setConnected false s)) in
  setRng (S (rng_ s)) (setHandshakeKey (createHandshakeKey (rand (rng_ s))) s).

Lemma dialled_sends {Net} {tcp : TcpClient Net} rand (s : WebSocketClient.Impl) n :
  tcpSend (net s) (WebSocketClient.handshakeRequest (requesting rand s)) = (n, true, None) ->
  handleTcpConnected rand s = startHandshakeTimer (setNet n (requesting rand s)).
Proof.
  intros H. unfold handleTcpConnected. fold (requesting rand s). cbv zeta. unfold sendHandshakeRequest, send.
  change (net (requesting rand s)) with (net s). by rewrite H.
Qed.

(** The server accepts only a subprotocol the client asked for, or none. *)
Lemma decided_protocol {Address} cfg id (request : HandshakeRequest (Address := Address)) :
  accept (decideHandshake cfg id request) = true ->
  acceptedSubprotocol (decideHandshake cfg id request) = [] ∨
  containsSubprotocol (requestedSubprotocols request) (acceptedSubprotocol (decideHandshake cfg id request)) = true.
Proof.
  unfold decideHandshake. set (r := match handshakeCallback_ cfg with Some f => _ | None => _ end).
  destruct (negb (acceptedSubprotocol r =s []) && _) eqn:E; [done|]. intros _. apply andb_false_iff in E as [E|E].
  - left. by apply negb_false_iff, bool_decide_eq_true in E.
  - right. by apply negb_false_iff in E.
Qed.

(** C37. The opening handshake, both ends: the request a client sends when its transport
    connects, cut into segments anywhere, is accepted by a server whose decision is to
    accept; and the answer the server then sends, cut anywhere, is accepted by the client.
    Both end connected with empty buffers, each announces the connection exactly once, and
    both hold the same subprotocol.  The transports must take the two texts, the user's
    headers must be ones that can be sent, and the callbacks do not act on either end. *)
Theorem ws_upgrade {Net Listener Address} {tcp : TcpClient Net} {srv : TcpServer Listener}
    cfg react react' rand rand' (s : WebSocketClient.Impl) (w : World (Net := Listener) (Address := Address)) id c segs d now segs' d' n n' :
  let s0 := requesting rand s in
  let request := WebSocketClient.handshakeRequest s0 in
  let decision := decideHandshake cfg id (WebSocketServer.handshakeRequest (upgradeOf (default clearedRequest (parseRequest request)) (clientAddress c))) in
  let answer := buildHandshakeResponse (handshakeKey_ s0) decision in
  (∀ e, react e = []) -> (∀ e, react' e = []) ->
  connectCallback_ (options s) = true -> clientConnectedCallback_ cfg = true ->
  sendableUpgrade s0 -> tcpSend (net s) request = (n, true, None) ->
  clientStates_ w !! id = Some c -> status c = WebSocketServer.Handshake -> buffer c = [] -> bufferOffset c = 0%nat ->
  concat segs.*1 ++ d = request -> d ≠ [] ->
  accept decision = true -> sendableAnswer (handshakeKey_ s0) decision ->
  sendToClient (tcpServer_ w) id answer = (n', true, []) ->
  concat segs' ++ d' = answer -> d' ≠ [] ->
  let w' := WebSocketServer.handleDataReceived cfg react' rand'
              (fold_left (fun w s => WebSocketServer.handleDataReceived cfg react' rand' w id s.1 s.2) segs w) id d now in
  let s' := WebSocketClient.handleDataReceived react rand d'
              (fold_left (fun s d => WebSocketClient.handleDataReceived react rand d s) segs' (handleTcpConnected rand s)) in
  tcpServer_ w' = n' ∧ WebSocketServer.log w' = WebSocketServer.log w ++ [OnConnected id (clientAddress c)] ∧
  net s' = n ∧ log s' = log s ++ announcement s ∧ state_ s' = WebSocketClient.Connected ∧ WebSocketClient.makeBufferedView s' = [] ∧
  ∃ c', clientStates_ w' !! id = Some c' ∧ status c' = WebSocketServer.Connected ∧ WebSocketServer.makeBufferedView c' = [] ∧
    acceptedSubprotocol_ s' = if subprotocol c' =s [] then None else Some (subprotocol c').
Proof.
  intros s0 request decision answer Hr Hr' Hcc Hsc Hsu Hsend Hc Hst Hb Ho Hreq Hd Hacc Hsa Hsend' Hans Hd' w' s'.
  destruct (request_read s0 Hsu) as (Hf & uri & query & params & Hp). fold request in Hf, Hp.
  destruct (request_upgrade (clientAddress c) s0 uri query params Hsu) as (Hu & Hkey & Hprot).
  set (v := mkRequest _ _ uri query _ _ [] params) in *.
  assert (Hdec : decision = decideHandshake cfg id (WebSocketServer.handshakeRequest (upgradeOf v (clientAddress c)))) by (unfold decision; by rewrite Hp).
  unfold answer in Hsend', Hans. clear answer. clearbody decision. rewrite <- Hkey, Hdec in Hsend'. rewrite Hdec in Hacc.
  destruct (handshake_answered cfg react' rand' w id c segs d now v n') as (_ & _ & Hn' & Hl' & c' & Hc' & Hs' & Hv' & Hsp); try done;
    [by rewrite Hreq | by rewrite Hreq|]. rewrite <- Hdec in Hsp.
  assert (Hpr : acceptedSubprotocol decision = [] ∨ containsSubprotocol (WebSocketClient.subprotocols_ (options s0)) (acceptedSubprotocol decision) = true).
  { rewrite <- Hprot, Hdec. by apply decided_protocol. }
  unfold s'. rewrite (dialled_sends rand s n Hsend). fold s0. set (s1 := startHandshakeTimer (setNet n s0)).
  destruct (answer_opens react rand s1 segs' d' (chosen decision)) as (_ & A1 & A2 & A3 & _ & A4 & A5 & _); try done.
  - rewrite Hans. apply (answer_read (handshakeKey_ s0) decision Hsa).
  - rewrite Hans. by apply (answer_accepted s1).
  - split_and!; try done. exists c'. split_and!; try done. rewrite Hsp. exact A4.
Qed.

(** ** A concrete handshake *)

Definition chatOptions : Options :=
  mkOptions defaultSsl 5000 0 [(str "X-Trace", str "1")] [str "chat"; str "superchat"] true true true false true true.
Definition chatClient : WebSocketClient.Impl (Net := Link) :=
  mkImpl (mkLink true [] []) chatOptions false WebSocketClient.Disconnected false false (mkEndpoint (str "example.com") 80 (str "/chat")) [] [] None
    [] 0 noTimers true 0 [].
Definition chatRequest : list byte := WebSocketClient.handshakeRequest (requesting wsRand chatClient).
Definition chatDecision : HandshakeResponse :=
  decideHandshake testConfig 7 (WebSocketServer.handshakeRequest (upgradeOf (default clearedRequest (parseRequest chatRequest)) tt)).
Definition chatAnswer : list byte := buildHandshakeResponse (handshakeKey_ (requesting wsRand chatClient)) chatDecision.

Ltac small_header := split; [done | split; by intros c [= <-] | decide_closed | by vm_compute].

Lemma chat_sendable : sendableUpgrade (requesting wsRand chatClient).
Proof.
  split.
  - split_and!; [done | decide_closed | decide_closed].
  - small_header.
  - by exists (wsRand 0).
  - split; [|small_header]. apply Forall_cons. split; [split_and!; [done | split; by intros c [= <-] | decide_closed]|].
    apply Forall_singleton. split_and!; [done | split; by intros c [= <-] | decide_closed].
  - split_and!; [|by repeat constructor | by vm_compute]. constructor; [small_header | constructor].
  - by vm_compute.
  - by vm_compute.
Qed.

Lemma plain_sendable key (r : HandshakeResponse) : hs_headers_ r = [] -> acceptedSubprotocol r = str "chat" ->
  zlen (buildHandshakeResponse key r) <= kMaxHeaderSectionSize -> sendableAnswer key r.
Proof.
  intros E1 E2 H. split; [rewrite E2; small_header | | done]. rewrite E1. split_and!; [constructor | constructor | by vm_compute].
Qed.

Lemma chatAnswer_sendable : sendableAnswer (handshakeKey_ (requesting wsRand chatClient)) chatDecision.
Proof. apply plain_sendable; by vm_compute. Qed.

Definition chatPeer : ClientState (Address := unit) := mkClient WebSocketServer.Handshake [] 0 tt [] 0.

Lemma ws_upgrade_witness :
  let w' := WebSocketServer.handleDataReceived testConfig (fun _ => []) testRand
    (fold_left (fun w s => WebSocketServer.handleDataReceived testConfig (fun _ => []) testRand w 7 s.1 s.2) [(take 50 chatRequest, 3)] freshWorld)
    7 (drop 50 chatRequest) 4 in
  let s' := WebSocketClient.handleDataReceived quiet wsRand (drop 9 chatAnswer)
    (fold_left (fun s d => WebSocketClient.handleDataReceived quiet wsRand d s) [take 9 chatAnswer] (handleTcpConnected wsRand chatClient)) in
  tcpServer_ w' = mkRecorder [7] [(7, chatAnswer)] [] ∧
  WebSocketServer.log w' = WebSocketServer.log freshWorld ++ [OnConnected 7 (clientAddress chatPeer)] ∧
  net s' = mkLink true [] [chatRequest] ∧ log s' = log chatClient ++ announcement chatClient ∧
  state_ s' = WebSocketClient.Connected ∧ WebSocketClient.makeBufferedView s' = [] ∧
  ∃ c', clientStates_ w' !! 7 = Some c' ∧ status c' = WebSocketServer.Connected ∧ WebSocketServer.makeBufferedView c' = [] ∧
    acceptedSubprotocol_ s' = if subprotocol c' =s [] then None else Some (subprotocol c').
Proof.
  refine (ws_upgrade testConfig quiet (fun _ => []) wsRand testRand chatClient freshWorld 7 chatPeer
    [(take 50 chatRequest, 3)] (drop 50 chatRequest) 4 [take 9 chatAnswer] (drop 9 chatAnswer)
    (mkLink true [] [chatRequest]) (mkRecorder [7] [(7, chatAnswer)] []) _ _ _ _ chat_sendable _ _ _ _ _ _ _ _ chatAnswer_sendable _ _ _).
  - done.
  - done.
  - reflexivity.
  - reflexivity.
  - reflexivity.
  - reflexivity.
  - reflexivity.
  - reflexivity.
  - reflexivity.
  - cbn [fmap list_fmap concat fst]. rewrite app_nil_r. apply take_drop.
  - by vm_compute.
  - by vm_compute.
  - reflexivity.
  - cbn [concat]. rewrite app_nil_r. apply take_drop.
  - by vm_compute.
Defined.

(** The client asked for [chat] first and the server offers it. *)
Example chat_agreed : acceptedSubprotocol chatDecision = str "chat" ∧ accept chatDecision = true.
Proof. by vm_compute. Qed.
