(* ===== verification/SessionTypes.v ===== *)
(** * Errors and the types shared by the TCP sessions

    [Error] (src/Error.cpp) with its texts, and src/include/FastNet/SharedSessionTypes.h: queued
    writes, wait directions, results of reads and writes.  The operating system and OpenSSL
    appear as the class [Socket]: one operation per call the sessions make, which tells
    what the call returned, and, for the server, the class [ServerSystem].  [TcpClientImpl] and
    [ClientSession] are built on them. *)

From S2P Require Import Prelude HttpParser Address ClientTransport.

(** ** Errors *)

(** [Error]: no source position is recorded by the sessions. *)
Record Error := mkError {
  code_ : ErrorCode;
  message_ : list byte;
  systemCode_ : Z
}.

Definition success : Error := mkError Success [] 0.

#[export] Instance ErrorCode_eq_dec : EqDecision ErrorCode.
Proof. solve_decision. Defined.

Definition isSuccess (e : Error) : bool := code_ e =s Success.
Definition isFailure (e : Error) : bool := negb (isSuccess e).

Definition getErrorCodeName (c : ErrorCode) : list byte :=
  match c with
  | Success => str "Success"
  | SocketError => str "SocketError"
  | ConnectionError => str "ConnectionError"
  | BindError => str "BindError"
  | ListenError => str "ListenError"
  | ResolveError => str "ResolveError"
  | TimeoutError => str "TimeoutError"
  | InvalidArgument => str "InvalidArgument"
  | UnknownError => str "UnknownError"
  | AlreadyRunning => str "AlreadyRunning"
  | HttpProtocolError => str "HttpProtocolError"
  | HttpResponseError => str "HttpResponseError"
  | HttpRedirectError => str "HttpRedirectError"
  | WebSocketHandshakeError => str "WebSocketHandshakeError"
  | WebSocketProtocolError => str "WebSocketProtocolError"
  | WebSocketFrameError => str "WebSocketFrameError"
  | WebSocketPayloadTooLarge => str "WebSocketPayloadTooLarge"
  | WebSocketCloseError => str "WebSocketCloseError"
  | WebSocketPingPongTimeout => str "WebSocketPingPongTimeout"
  | WebSocketConnectionError => str "WebSocketConnectionError"
  | SSLError => str "SSLError"
  | SSLHandshakeError => str "SSLHandshakeError"
  | SSLCertificateError => str "SSLCertificateError"
  | AuthenticationError => str "AuthenticationError"
  | AuthorizationError => str "AuthorizationError"
  | CompressionError => str "CompressionError"
  | DecompressionError => str "DecompressionError"
  end.

(** [trimSystemMessage]: CR, LF and spaces at the end. *)
Definition trimSystemMessage (message : list byte) : list byte :=
  let fix go l :=
    match l with
    | c :: l' => if (c =b x0d) || (c =b x0a) || (c =b x20) then go l' else l
    | [] => []
    end in
  reverse (go (reverse message)).

(** [toString] without a position; [strerror] is the system's table of texts. *)
Definition errorText (strerror : Z -> list byte) (e : Error) : list byte :=
  str "Error [" ++ getErrorCodeName (code_ e) ++ str "]" ++
  (if message_ e =s [] then [] else str ": " ++ message_ e) ++
  (if systemCode_ e =? 0 then []
   else
     let systemMessage := trimSystemMessage (strerror (systemCode_ e)) in
     if systemMessage =s [] then str " (system code: " ++ appendSignedDecimal [] (systemCode_ e) ++ str ")"
     else str " (system: " ++ systemMessage ++ str " [" ++ appendSignedDecimal [] (systemCode_ e) ++ str "])").

(** The text of an error that carries no system code. *)
Definition failureText (f : Failure) : list byte := errorText (fun _ => []) (mkError f.1 f.2 0).

(** ** Session types *)

Inductive WaitDirection := NoWait | WaitRead | WaitWrite.
Inductive TlsState := TlsDisabled | TlsHandshaking | TlsReady.

#[export] Instance WaitDirection_eq_dec : EqDecision WaitDirection.
Proof. solve_decision. Defined.
#[export] Instance TlsState_eq_dec : EqDecision TlsState.
Proof. solve_decision. Defined.

(** [IoResult], by status; a read carries what was read instead of its length. *)
Inductive IoResult (A : Type) :=
  | IoOk (a : A)
  | IoWouldBlock (wait : WaitDirection)
  | IoClosed
  | IoError (code : ErrorCode) (message : list byte).
Arguments IoOk {A}.
Arguments IoWouldBlock {A}.
Arguments IoClosed {A}.
Arguments IoError {A}.

Record QueuedWrite := mkQueued {
  bufferStorage : list byte;
  bufferPayload : option (list byte);
  stringStorage : list byte;
  stringPayload : option (list byte)
}.

Definition qw_size (w : QueuedWrite) : Z :=
  match bufferPayload w with
  | Some p => zlen p
  | None =>
      if negb (bufferStorage w =s []) then zlen (bufferStorage w)
      else match stringPayload w with
           | Some p => zlen p
           | None => zlen (stringStorage w)
           end
  end.

Definition qw_empty (w : QueuedWrite) : bool := qw_size w =? 0.

(** The bytes behind the pointer [bytes] returns; [None] is a null pointer. *)
Definition qw_bytes (w : QueuedWrite) : option (list byte) :=
  match bufferPayload w with
  | Some ((_ :: _) as p) => Some p
  | _ =>
      if negb (bufferStorage w =s []) then Some (bufferStorage w)
      else match stringPayload w with
           | Some ((_ :: _) as p) => Some p
           | _ => if negb (stringStorage w =s []) then Some (stringStorage w) else None
           end
  end.

(** The four ways a write holds its bytes. *)
Inductive Held := HeldBuffer | HeldSharedBuffer | HeldString | HeldSharedString.

Definition itemOf (h : Held) (d : list byte) : QueuedWrite :=
  match h with
  | HeldBuffer => mkQueued d None [] None
  | HeldSharedBuffer => mkQueued [] (Some d) [] None
  | HeldString => mkQueued [] None d None
  | HeldSharedString => mkQueued [] None [] (Some d)
  end.

(** A write that holds the bytes [d], however it holds them. *)
Definition holds (w : QueuedWrite) (d : list byte) : Prop := qw_bytes w = Some d ∧ qw_size w = zlen d ∧ d ≠ [].

Lemma itemOf_holds h d : d ≠ [] -> holds (itemOf h d) d.
Proof. intros Hd. unfold holds, qw_bytes, qw_size. destruct d; [done|]. by destruct h. Qed.

(** ** The system below a session *)

(** Results of [recv] and [send], and of [SSL_read] and [SSL_write]. *)
Inductive SysResult (A : Type) :=
  | SysDone (a : A)
  | SysZero
  | SysErrno (wouldBlock : bool) (message : list byte).
Inductive SslResult (A : Type) :=
  | SslDone (a : A)
  | SslWantRead
  | SslWantWrite
  | SslZeroReturn
  | SslFailed (details : list byte).
Arguments SysDone {A}.
Arguments SysZero {A}.
Arguments SysErrno {A}.
Arguments SslDone {A}.
Arguments SslWantRead {A}.
Arguments SslWantWrite {A}.
Arguments SslZeroReturn {A}.
Arguments SslFailed {A}.

(** [formatOpenSslFailure], given the queued texts of OpenSSL. *)
Definition formatOpenSslFailure (prefix details : list byte) : list byte :=
  if details =s [] then prefix else prefix ++ str ": " ++ details.

(** [formatVerifyFailure], given the text of the result. *)
Definition formatVerifyFailure (text : list byte) : list byte :=
  if text =s [] then str "TLS peer verification failed" else str "TLS peer verification failed: " ++ text.

(** A socket with its registration and TLS state.  A count is positive and bounds what was
    asked for; reads return the bytes themselves.  [tlsDone] gives the text of a failed
    verification of the peer. *)
Class Socket (S : Type) := {
  sockCreate : S -> list byte -> Z -> S * option Failure;
  sockSetOption : S -> S * option Failure;
  sockConnect : S -> list byte -> Z -> Z -> S * option Failure;
  sockSetNonBlocking : S -> S * option Failure;
  sockLocal : S -> option Address;
  sockRemote : S -> option Address;
  sockClose : S -> S;
  sockRecv : S -> Z -> S * SysResult (list byte);
  sockSend : S -> list byte -> S * SysResult positive;
  pollAdd : S -> S * bool;
  pollModify : S -> bool -> S;
  pollRemove : S -> S;
  tlsInit : S -> SSLConfig -> S * option Failure;
  tlsHandshake : S -> S * SslResult (option (list byte));
  tlsRead : S -> Z -> S * SslResult (list byte);
  tlsWrite : S -> list byte -> S * SslResult positive;
  tlsFree : S -> S
}.

(** What is documented of the calls: never more than was asked for, never nothing. *)
Class SocketLaws (S : Type) {sock : Socket S} : Prop := {
  recv_some s n d s' : sockRecv s n = (s', SysDone d) -> d ≠ [] ∧ zlen d <= n;
  send_some s d k s' : sockSend s d = (s', SysDone k) -> Zpos k <= zlen d;
  tls_read_some s n d s' : tlsRead s n = (s', SslDone d) -> d ≠ [] ∧ zlen d <= n;
  tls_write_some s d k s' : tlsWrite s d = (s', SslDone k) -> Zpos k <= zlen d
}.

(** A system that takes some of whatever it is given, in clear or through TLS. *)
Record taking {Sock} {sock : Socket Sock} (takes : Sock -> Prop) : Prop := {
  tk_send k d : takes k -> d ≠ [] -> ∃ k' n, sockSend k d = (k', SysDone n) ∧ takes k';
  tk_tls k d : takes k -> d ≠ [] -> ∃ k' n, tlsWrite k d = (k', SslDone n) ∧ takes k';
  tk_poll k b : takes k -> takes (pollModify k b)
}.

(** ** What a server uses of the system besides [Socket] *)

(** A file that was opened, as the bytes it then held; reads may stop before its end. *)
Inductive OpenResult := Opened (content : list byte) | OpenFailed | InspectFailed.

(** A connection taken from the listening socket, or why there is none. *)
Inductive AcceptResult (S : Type) :=
  | Accepted (client : S) (ip : list byte) (port : Z)
  | NothingToAccept
  | AcceptFailed (f : Failure).
Arguments Accepted {S}.
Arguments NothingToAccept {S}.
Arguments AcceptFailed {S}.

Class ServerSystem (S : Type) {sock : Socket S} := {
  sockNoDelay : S -> S * option Failure;
  sockKeepAlive : S -> S * option Failure;
  sockSendBuffer : S -> S * bool;
  sockRecvBuffer : S -> S * bool;
  sockSendFile : S -> list byte -> Z -> Z -> S * SysResult positive;
  fileOpen : S -> list byte -> S * OpenResult;
  fileRead : S -> list byte -> Z -> Z -> S * option (list byte);
  listenCreate : S -> list byte -> Z -> S * option Failure;
  listenOption : S -> S * option Failure;
  listenBind : S -> list byte -> Z -> S * option Failure;
  listenListen : S -> S * option Failure;
  listenAccept : S -> S * AcceptResult S;
  contextInit : S -> SSLConfig -> S * option (list byte);
  contextCleanup : S -> S
}.

(** Documented behaviour: what is read or sent of a file is what it holds there, and not
    more than was asked for. *)
Class ServerSystemLaws (S : Type) {sock : Socket S} {system : ServerSystem S} : Prop := {
  sendfile_some s f o n k s' : sockSendFile s f o n = (s', SysDone k) -> Zpos k <= n ∧ o + Zpos k <= zlen f;
  read_some s f o n d s' : fileRead s f o n = (s', Some d) -> d `prefix_of` take (Z.to_nat n) (drop (Z.to_nat o) f)
}.

(** A system that sends and reads some of every range of a file. *)
Record takingFiles {Sock} {sock : Socket Sock} {system : ServerSystem Sock} (takes : Sock -> Prop) : Prop := {
  tf_send k f o n : takes k -> 0 <= o -> 0 < n -> o + n <= zlen f -> ∃ k' m, sockSendFile k f o n = (k', SysDone m) ∧ takes k';
  tf_read k f o n : takes k -> 0 <= o -> 0 < n -> o + n <= zlen f -> ∃ k' d, fileRead k f o n = (k', Some d) ∧ d ≠ [] ∧ takes k'
}.

(** ** Results of reads and writes *)

Definition withoutSsl : list byte := str "SSL requested but FastNet was built without FASTNET_ENABLE_SSL".

Definition ioOfSsl {A} (failure : list byte) (r : SslResult A) : IoResult A :=
  match r with
  | SslDone a => IoOk a
  | SslWantRead => IoWouldBlock WaitRead
  | SslWantWrite => IoWouldBlock WaitWrite
  | SslZeroReturn => IoClosed
  | SslFailed details => IoError SSLError (formatOpenSslFailure failure details)
  end.

(** A call that would block waits in direction [wait]. *)
Definition ioOfSys {A} (wait : WaitDirection) (r : SysResult A) : IoResult A :=
  match r with
  | SysDone a => IoOk a
  | SysZero => IoClosed
  | SysErrno true _ => IoWouldBlock wait
  | SysErrno false message => IoError SocketError message
  end.
