(* ===== verification/Errors.v ===== *)
(** * Errors, exceptions and results (src/Error.cpp, include/FastNet/Error.h)

    [Error] with its source position, what its constructor logs, the standard error codes,
    the exception classes, the exception policy and [Result].  [SessionTypes] holds the part
    of [Error] the sessions use.  The logger is a flag and the lines given to it. *)

From S2P Require Import Prelude HttpParser ClientTransport SessionTypes.

(** ** Codes *)

(** The codes in the order of the enumeration, which gives them their values. *)
Definition allCodes : list ErrorCode := [
  Success; SocketError; ConnectionError; BindError; ListenError; ResolveError; TimeoutError; InvalidArgument; UnknownError; AlreadyRunning;
  HttpProtocolError; HttpResponseError; HttpRedirectError;
  WebSocketHandshakeError; WebSocketProtocolError; WebSocketFrameError; WebSocketPayloadTooLarge; WebSocketCloseError; WebSocketPingPongTimeout; WebSocketConnectionError;
  SSLError; SSLHandshakeError; SSLCertificateError; AuthenticationError; AuthorizationError; CompressionError; DecompressionError].

(** [static_cast<ErrorCode>]; a value outside the enumeration is [None]. *)
Definition codeOf (value : Z) : option ErrorCode := if 0 <=? value then allCodes !! Z.to_nat value else None.

Definition codeValue (c : ErrorCode) : Z := Z.of_nat (default 0%nat (fst <$> list_find (fun x => x = c) allCodes)).

Definition errorCodeToString (c : option ErrorCode) : list byte :=
  match c with
  | None => str "Unknown error code"
  | Some c =>
      match c with
      | Success => str "Success"
      | SocketError => str "Socket error"
      | ConnectionError => str "Connection error"
      | BindError => str "Bind error"
      | ListenError => str "Listen error"
      | ResolveError => str "Address resolution error"
      | TimeoutError => str "Timeout error"
      | InvalidArgument => str "Invalid argument"
      | UnknownError => str "Unknown error"
      | AlreadyRunning => str "Already running"
      | HttpProtocolError => str "HTTP protocol error"
      | HttpResponseError => str "HTTP response error"
      | HttpRedirectError => str "HTTP redirect error"
      | WebSocketHandshakeError => str "WebSocket handshake error"
      | WebSocketProtocolError => str "WebSocket protocol error"
      | WebSocketFrameError => str "WebSocket frame error"
      | WebSocketPayloadTooLarge => str "WebSocket payload too large"
      | WebSocketCloseError => str "WebSocket close error"
      | WebSocketPingPongTimeout => str "WebSocket ping or pong timeout"
      | WebSocketConnectionError => str "WebSocket connection error"
      | SSLError => str "SSL error"
      | SSLHandshakeError => str "SSL handshake error"
      | SSLCertificateError => str "SSL certificate error"
      | AuthenticationError => str "Authentication error"
      | AuthorizationError => str "Authorization error"
      | CompressionError => str "Compression error"
      | DecompressionError => str "Decompression error"
      end
  end.

(** <errno.h> *)
Definition EAGAIN : Z := 11.
Definition EINVAL : Z := 22.
Definition EADDRINUSE : Z := 98.
Definition EADDRNOTAVAIL : Z := 99.
Definition ENETUNREACH : Z := 101.
Definition ECONNRESET : Z := 104.
Definition ENOTCONN : Z := 107.
Definition ETIMEDOUT : Z := 110.
Definition ECONNREFUSED : Z := 111.
Definition EHOSTUNREACH : Z := 113.
Definition EINPROGRESS : Z := 115.
Definition ECANCELED : Z := 125.

Definition systemErrorToNetworkError (systemError : Z) : ErrorCode :=
  if systemError =? 0 then Success
  else if systemError =? ETIMEDOUT then TimeoutError
  else if (systemError =? ECONNREFUSED) || (systemError =? ECONNRESET) || (systemError =? ENOTCONN) then ConnectionError
  else if (systemError =? EADDRINUSE) || (systemError =? EADDRNOTAVAIL) then BindError
  else if (systemError =? ENETUNREACH) || (systemError =? EHOSTUNREACH) then ResolveError
  else if systemError =? EINVAL then InvalidArgument
  else UnknownError.

(** [std::error_code]: its value and whether its category is FastNet's. *)
Inductive Category := FastNetCategory | OtherCategory.
Record StdErrorCode := mkCode { code : Z; category : Category }.

Definition make_error_code (c : ErrorCode) : StdErrorCode := mkCode (codeValue c) FastNetCategory.

(** [FastNetErrorCategory::message]. *)
Definition categoryMessage (condition : Z) : list byte := errorCodeToString (codeOf condition).

Definition boostErrorToNetworkError (ec : StdErrorCode) : option ErrorCode :=
  if code ec =? 0 then Some Success
  else match category ec with FastNetCategory => codeOf (code ec) | OtherCategory => Some (systemErrorToNetworkError (code ec)) end.

(** ** Errors with their position *)

Record Located := mkLocated { error : Error; fileName_ : list byte; lineNumber_ : Z; functionName_ : list byte }.

(** The logger: whether it runs, what it was given, and what went to the console. *)
Record Log := mkLog { running : bool; logged : list (option (list byte) * Z * option (list byte) * list byte); console : list (list byte) }.

Definition nullIfEmpty (s : list byte) : option (list byte) := if s =s [] then None else Some s.

(** [EWOULDBLOCK] is [EAGAIN]. *)
Definition isWouldBlock (systemCode : Z) : bool := (systemCode =? EAGAIN) || (systemCode =? EINPROGRESS) || (systemCode =? ECANCELED).

Section Errors.
Context (strerror : Z -> list byte).

(** The constructor of [Error]. *)
Definition construct (l : Located) (log : Log) : Located * Log :=
  let e := error l in
  if negb (code_ e =s Success) && negb (isWouldBlock (systemCode_ e)) then
    let logStr := errorText strerror e in
    (l, if running log then mkLog true (logged log ++ [(nullIfEmpty (fileName_ l), lineNumber_ l, nullIfEmpty (functionName_ l), logStr)]) (console log)
        else mkLog false (logged log) (console log ++ [logStr]))
  else (l, log).

Definition toString (l : Located) : list byte :=
  errorText strerror (error l) ++
  (if negb (fileName_ l =s []) && (0 <? lineNumber_ l) then
     str " at " ++ fileName_ l ++ str ":" ++ appendSignedDecimal [] (lineNumber_ l) ++ (if functionName_ l =s [] then [] else str " in " ++ functionName_ l)
   else []).

Definition unlocated (c : ErrorCode) (m : list byte) : Located := mkLocated (mkError c m 0) [] 0 [].

(** ** Exceptions *)

Inductive ExceptionClass := NetworkException | SocketException | ConnectionException | ProtocolException | SSLException | TimeoutException | AuthenticationException | CompressionException.

(** The code of an exception made from a message alone. *)
Definition defaultCode (c : ExceptionClass) : ErrorCode :=
  match c with
  | NetworkException => UnknownError
  | SocketException => SocketError
  | ConnectionException => ConnectionError
  | ProtocolException => HttpProtocolError
  | SSLException => SSLError
  | TimeoutException => TimeoutError
  | AuthenticationException => AuthenticationError
  | CompressionException => CompressionError
  end.

(** What is thrown: [what()] is the text of the error. *)
Record Thrown := mkThrown { class : ExceptionClass; what : list byte; error_ : Located }.

Definition exceptionOf (c : ExceptionClass) (l : Located) : Thrown := mkThrown c (toString l) l.
Definition exceptionWithCode (c : ExceptionClass) (ec : ErrorCode) (m : list byte) (log : Log) : Thrown * Log := let '(l, log) := construct (unlocated ec m) log in (exceptionOf c l, log).
Definition exceptionWithMessage (c : ExceptionClass) (m : list byte) : Log -> Thrown * Log := exceptionWithCode c (defaultCode c) m.

(** [throwNetworkException] and the others, one per class. *)
Definition throwException (c : ExceptionClass) (ec : ErrorCode) (m : list byte) (log : Log) : Thrown * Log := exceptionWithCode c ec m log.

(** ** The policy *)

Inductive Strategy := ThrowException | ReturnErrorCode | LogAndContinue.

#[export] Instance strategy_eq_dec : EqDecision Strategy.
Proof. solve_decision. Defined.

Definition initialStrategy : Strategy := ThrowException.
Definition enableExceptions : Strategy := ThrowException.
Definition disableExceptions : Strategy := ReturnErrorCode.
Definition shouldThrow (s : Strategy) : bool := s =s ThrowException.
Definition shouldLog (s : Strategy) : bool := s =s LogAndContinue.

(** What is thrown, if anything. *)
Definition handle (s : Strategy) (l : Located) : option Thrown :=
  if isSuccess (error l) then None
  else match s with ThrowException => Some (exceptionOf NetworkException l) | LogAndContinue => None | ReturnErrorCode => None end.

Definition handleError (s : Strategy) (l : Located) : option Thrown := if isFailure (error l) then handle s l else None.

End Errors.

(** ** Results *)

(** [Result<T>]: the variant; [value()] and [error()] of the other alternative throw. *)
Inductive Result (T : Type) := Value (v : T) | Failed (l : Located).
Arguments Value {T}.
Arguments Failed {T}.

Definition resultIsSuccess {T} (r : Result T) : bool := match r with Value _ => true | Failed _ => false end.
Definition valueOf {T} (r : Result T) : option T := match r with Value v => Some v | Failed _ => None end.
Definition errorOf {T} (r : Result T) : option Located := match r with Value _ => None | Failed l => Some l end.
Definition errorCode {T} (r : Result T) : ErrorCode := match r with Value _ => Success | Failed l => code_ (error l) end.
Definition errorMessage {T} (r : Result T) : list byte := match r with Value _ => [] | Failed l => message_ (error l) end.
Definition valueOr {T} (r : Result T) (defaultValue : T) : T := match r with Value v => v | Failed _ => defaultValue end.

(** [Result<void>]: [error()] of a success gives an error without code. *)
Definition voidError (r : Result unit) : Located := match r with Value _ => mkLocated success [] 0 [] | Failed l => l end.

(** ** Properties *)

Lemma codeOf_value c : codeOf (codeValue c) = Some c.
Proof. by destruct c; vm_compute. Qed.

Lemma codeValue_inj c c' : codeValue c = codeValue c' -> c = c'.
Proof. intros H. pose proof (codeOf_value c) as H1. rewrite H, codeOf_value in H1. by simplify_eq. Qed.

(** A code survives the way through [std::error_code], and so does its text; codes of other
    categories are taken for system errors. *)
Theorem error_code_roundtrip c ec :
  boostErrorToNetworkError (make_error_code c) = Some c ∧ categoryMessage (code (make_error_code c)) = errorCodeToString (Some c) ∧
  (boostErrorToNetworkError (mkCode ec OtherCategory) = Some (systemErrorToNetworkError ec)).
Proof.
  unfold boostErrorToNetworkError, categoryMessage, make_error_code. cbn. rewrite codeOf_value. split_and!; [|done|by destruct (Z.eqb_spec ec 0) as [->|]].
  destruct (Z.eqb_spec (codeValue c) 0) as [H|H]; [|done]. by rewrite (codeValue_inj c Success H).
Qed.

(** The texts and names of different codes differ. *)
Theorem error_texts_distinct c c' : (errorCodeToString (Some c) = errorCodeToString (Some c') -> c = c') ∧ (getErrorCodeName c = getErrorCodeName c' -> c = c').
Proof. split; destruct c, c'; vm_compute; congruence. Qed.

(** The lines a log has received. *)
Definition lines (log : Log) : list (list byte) := (logged log).*2 ++ console log.

(** An error writes exactly one line, its text, when it is a failure that is not an operation
    to be tried again, and no line otherwise; the line goes to the logger while that runs. *)
Theorem errors_logged strerror l log :
  let '(l', log') := construct strerror l log in
  l' = l ∧ running log' = running log ∧
  if isFailure (error l) && negb (isWouldBlock (systemCode_ (error l)))
  then (if running log then (logged log').*2 = (logged log).*2 ++ [errorText strerror (error l)] ∧ console log' = console log
        else logged log' = logged log ∧ console log' = console log ++ [errorText strerror (error l)])
  else log' = log.
Proof.
  unfold construct, isFailure, isSuccess. destruct (_ =s Success), (isWouldBlock _); cbn [negb andb]; try done. destruct (running log); cbn; split_and!; try done. by rewrite fmap_app.
Qed.

(** The policy throws exactly for failures and exactly while exceptions are enabled; what it
    throws holds the error and its text. *)
Theorem policy_throws strerror s l :
  handleError strerror s l = handle strerror s l ∧
  (is_Some (handle strerror s l) <-> isFailure (error l) = true ∧ shouldThrow s = true) ∧
  ∀ t, handle strerror s l = Some t -> error_ t = l ∧ what t = toString strerror l ∧ class t = NetworkException.
Proof.
  unfold handleError, handle, isFailure, shouldThrow. destruct (isSuccess (error l)); cbn [negb]; [split_and!; [done|split; [by intros []|by intros []]|done]|].
  destruct s; (split_and!; [done| |intros t Ht; by simplify_eq]); split; try (by intros []); by intros [_ ?].
Qed.

(** ** Examples *)

(** An error with a code that stands for success is an error to [Result], without a code. *)
Example error_without_code : let r : Result nat := Failed (mkLocated success [] 0 []) in resultIsSuccess r = false ∧ errorCode r = Success.
Proof. done. Qed.

(** [LogAndContinue] relies on the constructor's line: for an operation to be tried again nobody hears of it. *)
Example logged_by_nobody :
  let '(l, log) := construct (fun _ => []) (mkLocated (mkError ConnectionError (str "Failed to connect to server") EINPROGRESS) [] 0 []) (mkLog true [] []) in
  handle (fun _ => []) LogAndContinue l = None ∧ lines log = [].
Proof. by vm_compute. Qed.

Example error_text :
  toString (fun _ => str "Connection refused") (mkLocated (mkError ConnectionError (str "Failed to connect to server") ECONNREFUSED) (str "SocketWrapper.cpp") 439 (str "connect")) =
  str "Error [ConnectionError]: Failed to connect to server (system: Connection refused [111]) at SocketWrapper.cpp:439 in connect".
Proof. by vm_compute. Qed.
