(* ===== verification/SocketWrapper.v ===== *)
(** * The socket wrapper (src/SocketWrapper.cpp, the POSIX build)

    [SocketWrapper] with one definition per member.  The operating system is a class with one
    operation [syscall]: a call and its reply.  [errno] is part of the state, since the code
    reads it some calls after the one that failed.  Several wrappers with their moves and
    destructors, and the descriptors [accept] hands to its caller, make a machine. *)

From S2P Require Import Prelude HttpParser Address ClientTransport SessionTypes.

(** ** The system *)

Definition AF_UNSPEC : Z := 0.
Definition AF_INET : Z := 2.
Definition AF_INET6 : Z := 10.
Definition EINPROGRESS : Z := 115.
Definition EALREADY : Z := 114.
Definition ENOSYS : Z := 38.
Definition O_NONBLOCK : Z := 2048.
Definition int_max : Z := 2 ^ 31 - 1.
Definition INVALID_SOCKET_FD : Z := -1.

Inductive SocketType := TCP | UDP.
#[export] Instance socketType_eq_dec : EqDecision SocketType.
Proof. solve_decision. Defined.

(** An address as the system takes it: family, address bytes in network order, port. *)
Record Sockaddr := mkSockaddr { sa_family : Z; sa_addr : list byte; sa_port : Z }.

Inductive SockOpt :=
| TcpNoDelay (on : bool) | ReuseAddr (on : bool) | ReusePort (on : bool) | KeepAlive (on : bool) | Broadcast (on : bool) | V6Only (on : bool)
| SendTimeout (tv_sec tv_usec : Z) | RecvTimeout (tv_sec tv_usec : Z) | SendBuffer (size : Z) | RecvBuffer (size : Z).

Inductive How := ShutRead | ShutWrite | ShutBoth.

Inductive Syscall :=
| SysSocket (family : Z) (t : SocketType) (cloexec : bool)
| SysClose (fd : Z)
| SysBind (fd : Z) (a : Sockaddr)
| SysListen (fd backlog : Z)
| SysAccept (fd : Z) (nonBlocking : bool)
| SysConnect (fd : Z) (a : Sockaddr)
| SysPoll (fd timeoutMs : Z)
| SysGetSoError (fd : Z)
| SysSend (fd : Z) (data : list byte)
| SysRecv (fd len : Z)
| SysSendTo (fd : Z) (data : list byte) (a : Sockaddr)
| SysRecvFrom (fd len : Z)
| SysGetFl (fd : Z)
| SysSetFl (fd flags : Z)
| SysSetOption (fd : Z) (o : SockOpt)
| SysShutdown (fd : Z) (how : How)
| SysGetSockName (fd : Z)
| SysGetPeerName (fd : Z)
| SysGetAddrInfo (host : option (list byte)) (service : list byte) (family : Z) (t : SocketType) (passive : bool)
| SysFstat (file : Z)
| SysSendFile (fd file offset count : Z).

Record SocketOption := mkOption { reuseAddr : bool; reusePort : bool; keepAlive : bool; noDelay : bool; sendBufferSize : Z; recvBufferSize : Z; sendTimeout : Z; recvTimeout : Z; broadcast : bool }.

(** [SocketOption{}]. *)
Definition defaultOption : SocketOption := mkOption false false true true 0 0 0 0 false.

(** What a call returns, its [errno], and what it stores through its pointers; addresses of
    an unusable length are [None]. *)
Record Reply := mkReply { ret : Z; err : Z; out : list byte; value : Z; addr : option Sockaddr; addrs : list (option Sockaddr) }.

Class Posix (K : Type) := {
  syscall : K -> Syscall -> K * Reply;
  openFds : K -> gset Z;
  mode : K -> Z -> bool;          (** [O_NONBLOCK] is set *)
  inetPton : Z -> list byte -> option (list byte);
  inetNtop : Z -> list byte -> (Z + list byte)%type;   (** [errno], or the text *)
  gaiStrerror : Z -> list byte
}.

(** The call changes no descriptor and no mode. *)
Definition keeps {K} {posix : Posix K} (k k' : K) : Prop := openFds k' = openFds k ∧ ∀ fd, mode k' fd = mode k fd.

(** Makes a descriptor, in the given mode. *)
Definition makes {K} {posix : Posix K} (k k' : K) (fd : Z) (nonBlocking : bool) : Prop :=
  (0 <= fd) ∧ (fd ∉ openFds k) ∧ openFds k' = {[fd]} ∪ openFds k ∧ mode k' fd = nonBlocking ∧ ∀ fd', fd' ≠ fd -> mode k' fd' = mode k fd'.

Class PosixLaws (K : Type) {posix : Posix K} : Prop := {
  open_law k fd : fd ∈ openFds k -> 0 <= fd;
  call_law k c : (let '(k', r) := syscall k c in
    match c with
    | SysSocket _ _ _ => if ret r =? INVALID_SOCKET_FD then keeps k k' else makes k k' (ret r) false
    | SysAccept _ nonBlocking => if ret r =? INVALID_SOCKET_FD then keeps k k' else makes k k' (ret r) nonBlocking
    | SysClose fd => openFds k' = openFds k ∖ {[fd]} ∧ ∀ fd', fd' ≠ fd -> mode k' fd' = mode k fd'
    | SysSetFl fd flags => if ret r =? -1 then keeps k k' else openFds k' = openFds k ∧ mode k' fd = Z.testbit flags 11 ∧ ∀ fd', fd' ≠ fd -> mode k' fd' = mode k fd'
    | SysGetFl fd => keeps k k' ∧ (ret r ≠ -1 -> Z.testbit (ret r) 11 = mode k fd)
    | SysSend _ data | SysSendTo _ data _ => keeps k k' ∧ (-1 <= ret r <= zlen data)
    | SysRecv _ len | SysRecvFrom _ len => keeps k k' ∧ (0 <= len -> -1 <= ret r <= len) ∧ (0 <= ret r -> zlen (out r) = ret r)
    | _ => keeps k k'
    end)
}.

(** ** The wrapper *)

Record Wrapper := mkWrapper { fd_ : Z; family_ : Z; type_ : SocketType; nonBlocking_ : bool; lastError_ : Error }.

Definition newWrapper : Wrapper := mkWrapper INVALID_SOCKET_FD AF_UNSPEC TCP false success.
Definition isValid (w : Wrapper) : bool := negb (fd_ w =? INVALID_SOCKET_FD).

Section Wrapper.
Context {K : Type} {posix : Posix K}.

Record Sock := mkSock { wrapper : Wrapper; kernel : K; errno : Z }.

Definition setWrapper w (s : Sock) : Sock := mkSock w (kernel s) (errno s).
Definition fd (s : Sock) : Z := fd_ (wrapper s).
Definition setErrno (e : Z) (s : Sock) : Sock := mkSock (wrapper s) (kernel s) e.
Definition setLast (e : Error) (s : Sock) : Sock := let w := wrapper s in setWrapper (mkWrapper (fd_ w) (family_ w) (type_ w) (nonBlocking_ w) e) s.
Definition setType (t : SocketType) (s : Sock) : Sock := let w := wrapper s in setWrapper (mkWrapper (fd_ w) (family_ w) t (nonBlocking_ w) (lastError_ w)) s.
Definition setFd (f family : Z) (nb : bool) (s : Sock) : Sock := let w := wrapper s in setWrapper (mkWrapper f family (type_ w) nb (lastError_ w)) s.

(** [errno] is set by calls that fail. *)
Definition sys (c : Syscall) (s : Sock) : Sock * Reply :=
  let '(k, r) := syscall (kernel s) c in (mkSock (wrapper s) k (if ret r <? 0 then err r else errno s), r).

Definition fails (code : ErrorCode) (m : string) (systemCode : Z) (s : Sock) : Sock * Error := let e := mkError code (str m) systemCode in (setLast e s, e).
Definition succeeds (s : Sock) : Sock * Error := (setLast success s, success).
Definition invalidSocket (s : Sock) : Sock * Error := fails InvalidArgument "Invalid socket" 0 s.

Definition isConnectInProgressError (errorCode : Z) : bool := (errorCode =? EINPROGRESS) || (errorCode =? EALREADY).
Definition isLengthRepresentable (length : Z) : bool := length <=? int_max.

(** ** Addresses *)

Definition normalizeHost (host : list byte) : list byte := stripBrackets host.

Definition tryBuildNumericAddress (host : list byte) (port : Z) : option Sockaddr :=
  let normalized := normalizeHost host in
  match normalized with
  | [] => None
  | _ =>
      if (normalized =s str "0.0.0.0") || isValidIPv4 normalized then
        if normalized =s str "0.0.0.0" then Some (mkSockaddr AF_INET [x00; x00; x00; x00] port)
        else (fun a => mkSockaddr AF_INET a port) <$> inetPton AF_INET normalized
      else if (normalized =s str "::") || isValidIPv6 normalized then
        if normalized =s str "::" then Some (mkSockaddr AF_INET6 (replicate 16 x00) port)
        else (fun a => mkSockaddr AF_INET6 a port) <$> inetPton AF_INET6 normalized
      else None
  end.

Definition resolveAddresses (host : list byte) (port : Z) (t : SocketType) (passive : bool) (familyHint : Z) (s : Sock) : Sock * (Error + list Sockaddr) :=
  match (if host =s [] then None else tryBuildNumericAddress host port) with
  | Some a => (s, inr [a])
  | None =>
      let normalizedHost := normalizeHost host in
      let useNullHost := passive && ((normalizedHost =s []) || isAnyHost normalizedHost) in
      let '(s, r) := sys (SysGetAddrInfo (if useNullHost then None else Some normalizedHost) (appendSignedDecimal [] port) familyHint t passive) s in
      if negb (ret r =? 0) then (s, inl (mkError ResolveError (gaiStrerror (ret r)) (ret r)))
      else match omap id (addrs r) with
           | [] => (s, inl (mkError ResolveError (str "Address resolution returned no usable endpoints") 0))
           | l => (s, inr l)
           end
  end.

(** A null pointer is [None]. *)
Definition endpointToText (a : option Sockaddr) (s : Sock) : Sock * (Error + Address) :=
  match a with
  | None => (s, inl (mkError InvalidArgument (str "Invalid socket address") 0))
  | Some a =>
      if sa_family a =? AF_INET then
        match inetNtop AF_INET (sa_addr a) with
        | inl e => (setErrno e s, inl (mkError SocketError (str "Failed to format IPv4 address") e))
        | inr t => (s, inr (mkAddress t (sa_port a)))
        end
      else if sa_family a =? AF_INET6 then
        match inetNtop AF_INET6 (sa_addr a) with
        | inl e => (setErrno e s, inl (mkError SocketError (str "Failed to format IPv6 address") e))
        | inr t => (s, inr (mkAddress t (sa_port a)))
        end
      else (s, inl (mkError SocketError (str "Unsupported socket address family") 0))
  end.

(** The [sockaddr_storage] of a call that fills one: zero where the system stored nothing. *)
Definition stored (r : Reply) : Sockaddr := default (mkSockaddr AF_UNSPEC [] 0) (addr r).

(** ** Making and closing *)

Definition close (s : Sock) : Sock :=
  let s := if isValid (wrapper s) then (sys (SysClose (fd s)) s).1 else s in
  setFd INVALID_SOCKET_FD AF_UNSPEC false s.

Definition createNativeSocket (family : Z) (s : Sock) : Sock * Error :=
  let family := if family =? AF_UNSPEC then AF_INET else family in
  let s := close s in
  let t := type_ (wrapper s) in
  let '(s, r) := sys (SysSocket family t true) s in
  let '(s, r) := if ret r =? INVALID_SOCKET_FD then sys (SysSocket family t false) s else (s, r) in
  let s := setFd (ret r) (family_ (wrapper s)) (nonBlocking_ (wrapper s)) s in
  if ret r =? INVALID_SOCKET_FD then
    let e := mkError SocketError (str "Failed to create socket") (errno s) in
    (setFd (ret r) AF_UNSPEC (nonBlocking_ (wrapper s)) (setLast e s), e)
  else
    let s := setFd (ret r) family false s in
    let s := if family =? AF_INET6 then (sys (SysSetOption (fd s) (V6Only false)) s).1 else s in
    succeeds s.

Definition createPlain (t : SocketType) (s : Sock) : Sock * Error := createNativeSocket AF_INET (setType t s).

Definition create (t : SocketType) (host : list byte) (port : Z) (passive : bool) (s : Sock) : Sock * Error :=
  let s := setType t s in
  let '(s, r) := resolveAddresses host port t passive AF_UNSPEC s in
  match r with
  | inl e => (setLast e s, e)
  | inr [] => succeeds s
  | inr (a :: _) => createNativeSocket (sa_family a) s
  end.

Definition setNonBlocking (enable : bool) (s : Sock) : Sock * Error :=
  if negb (isValid (wrapper s)) then invalidSocket s
  else
    let '(s, r) := sys (SysGetFl (fd s)) s in
    if ret r =? -1 then fails SocketError "Failed to get socket flags" (errno s) s
    else
      let flags := if enable then Z.lor (ret r) O_NONBLOCK else Z.ldiff (ret r) O_NONBLOCK in
      let '(s, r) := sys (SysSetFl (fd s) flags) s in
      if ret r =? -1 then fails SocketError "Failed to set socket flags" (errno s) s
      else succeeds (setFd (fd s) (family_ (wrapper s)) enable s).

(** ** Connecting *)

(** A call that may need its socket made first. *)
Definition withSocket (a : Address) (passive : bool) (go : Sock -> Sock * Error) (s : Sock) : Sock * Error :=
  if isValid (wrapper s) then go s
  else let '(s, e) := create (type_ (wrapper s)) (ip a) (port a) passive s in if isFailure e then (s, e) else go s.

Fixpoint bindLoop (candidates : list Sockaddr) (lastSystemError : Z) (s : Sock) : Sock * Error :=
  match candidates with
  | [] => if negb (lastSystemError =? 0) then fails BindError "Failed to bind socket" lastSystemError s
          else fails BindError "No resolved endpoint matched the socket family" 0 s
  | a :: rest =>
      if negb (family_ (wrapper s) =? AF_UNSPEC) && negb (sa_family a =? family_ (wrapper s)) then bindLoop rest lastSystemError s
      else
        let '(s, r) := sys (SysBind (fd s) a) s in
        if ret r =? 0 then succeeds s else bindLoop rest (errno s) s
  end.

Definition bind (a : Address) : Sock -> Sock * Error :=
  withSocket a true (fun s =>
    let '(s, r) := resolveAddresses (ip a) (port a) (type_ (wrapper s)) true (family_ (wrapper s)) s in
    match r with inl e => (setLast e s, e) | inr candidates => bindLoop candidates 0 s end).

Definition listen (backlog : Z) (s : Sock) : Sock * Error :=
  if negb (isValid (wrapper s)) then invalidSocket s
  else let '(s, r) := sys (SysListen (fd s) backlog) s in
       if negb (ret r =? 0) then fails ListenError "Failed to listen on socket" (errno s) s else succeeds s.

(** The descriptor and the client's address, when there is one. *)
Definition accept (s : Sock) : Sock * Error * option (Z * Address) :=
  if negb (isValid (wrapper s)) then (invalidSocket s, None)
  else
    let '(s, r) := sys (SysAccept (fd s) true) s in
    let '(s, r) := if (ret r =? INVALID_SOCKET_FD) && (errno s =? ENOSYS) then sys (SysAccept (fd s) false) s else (s, r) in
    if ret r =? INVALID_SOCKET_FD then (fails SocketError "Accept failed" (errno s) s, None)
    else
      let '(s, endpoint) := endpointToText (Some (stored r)) s in
      match endpoint with
      | inl e => let s := (sys (SysClose (ret r)) s).1 in (setLast e s, e, None)
      | inr a => (succeeds s, Some (ret r, a))
      end.

Definition matching (family : Z) (l : list Sockaddr) : option Sockaddr := find (fun a => (family =? AF_UNSPEC) || (sa_family a =? family)) l.

Definition performConnect (target : Sockaddr) (s : Sock) : Sock * Error :=
  let '(s, r) := sys (SysConnect (fd s) target) s in
  if ret r =? 0 then (s, success) else (s, mkError ConnectionError (str "Failed to connect to server") (errno s)).

Definition restore (restoreBlocking : bool) (s : Sock) : Sock := if restoreBlocking then (setNonBlocking false s).1 else s.

(** The wait for a connection in progress. *)
Definition awaitConnect (restoreBlocking : bool) (timeoutMs : Z) (s : Sock) : Sock * Error :=
  let '(s, r) := sys (SysPoll (fd s) timeoutMs) s in
  if ret r <=? 0 then
    let s := restore restoreBlocking s in
    if ret r =? 0 then fails TimeoutError "Connection timed out" 0 s
    else fails ConnectionError "Failed while waiting for connection" (errno s) s
  else
    let '(s, r) := sys (SysGetSoError (fd s)) s in
    if negb (ret r =? 0) then
      let s := restore restoreBlocking s in fails ConnectionError "Failed to inspect connection state" (errno s) s
    else
      let s := restore restoreBlocking s in
      if negb (value r =? 0) then fails ConnectionError "Connection failed" (value r) s else succeeds s.

Definition connectTo (target : Sockaddr) (timeoutMs : Z) (s : Sock) : Sock * Error :=
  if timeoutMs <=? 0 then
    let '(s, e) := performConnect target s in
    let e := if isFailure e && nonBlocking_ (wrapper s) && isConnectInProgressError (systemCode_ e) then success else e in
    (setLast e s, e)
  else
    let restoreBlocking := negb (nonBlocking_ (wrapper s)) in
    let '(s, e) := if restoreBlocking then setNonBlocking true s else (s, success) in
    if isFailure e then (s, e)
    else
      let '(s, e) := performConnect target s in
      if isSuccess e then succeeds (restore restoreBlocking s)
      else if negb (isConnectInProgressError (systemCode_ e)) then let s := restore restoreBlocking s in (setLast e s, e)
      else awaitConnect restoreBlocking timeoutMs s.

Definition connect (a : Address) (timeoutMs : Z) : Sock -> Sock * Error :=
  withSocket a false (fun s =>
    let '(s, r) := resolveAddresses (ip a) (port a) (type_ (wrapper s)) false (family_ (wrapper s)) s in
    match r with
    | inl e => (setLast e s, e)
    | inr candidates =>
        match matching (family_ (wrapper s)) candidates with
        | None => fails ResolveError "No resolved endpoint matched the socket family" 0 s
        | Some target => connectTo target timeoutMs s
        end
    end).


(** ** Transfers *)

(** A conversion to [int]. *)
Definition toInt (z : Z) : Z := (z + 2 ^ 31) mod 2 ^ 32 - 2 ^ 31.

Definition rejects (m : string) (s : Sock) : Sock := (fails InvalidArgument m 0 s).1.

(** A call that transfers bytes: its result as an [int], and [lastError_] set from its sign. *)
Definition transfer (c : Syscall) (m : string) (s : Sock) : Sock * Z * Reply :=
  let '(s, r) := sys c s in
  let result := toInt (ret r) in
  (setLast (if 0 <=? result then success else mkError SocketError (str m) (errno s)) s, result, r).

Definition send (data : list byte) (s : Sock) : Sock * Z :=
  if negb (isValid (wrapper s)) then (rejects "Invalid socket" s, -1)
  else if negb (isLengthRepresentable (zlen data)) then (rejects "Send length exceeds platform limits" s, -1)
  else (transfer (SysSend (fd s) data) "send failed" s).1.

(** With what is stored in the buffer. *)
Definition recv (len : Z) (s : Sock) : Sock * Z * list byte :=
  if negb (isValid (wrapper s)) then (rejects "Invalid socket" s, -1, [])
  else if negb (isLengthRepresentable len) then (rejects "Receive length exceeds platform limits" s, -1, [])
  else let '(s, result, r) := transfer (SysRecv (fd s) len) "recv failed" s in (s, result, out r).

Definition sendTo (data : list byte) (destination : Address) (s : Sock) : Sock * Z :=
  if negb (isValid (wrapper s)) then (rejects "Invalid socket" s, -1)
  else if negb (isLengthRepresentable (zlen data)) then (rejects "Send length exceeds platform limits" s, -1)
  else if negb (type_ (wrapper s) =s UDP) then (rejects "sendTo only applies to UDP sockets" s, -1)
  else
    let '(s, r) := resolveAddresses (ip destination) (port destination) UDP false (family_ (wrapper s)) s in
    match r with
    | inl e => (setLast e s, -1)
    | inr candidates =>
        match matching (family_ (wrapper s)) candidates with
        | None => ((fails ResolveError "No resolved endpoint matched the socket family" 0 s).1, -1)
        | Some target => (transfer (SysSendTo (fd s) data target) "sendto failed" s).1
        end
    end.

(** With what is stored in the buffer, and the sender. *)
Definition recvFrom (len : Z) (s : Sock) : Sock * Z * list byte * option Address :=
  if negb (isValid (wrapper s)) then (rejects "Invalid socket" s, -1, [], None)
  else if negb (isLengthRepresentable len) then (rejects "Receive length exceeds platform limits" s, -1, [], None)
  else
    let '(s, result, r) := transfer (SysRecvFrom (fd s) len) "recvfrom failed" s in
    if 0 <=? result then
      let '(s, endpoint) := endpointToText (Some (stored r)) s in
      match endpoint with
      | inl e => (setLast e s, -1, out r, None)
      | inr a => ((succeeds s).1, result, out r, Some a)
      end
    else (s, result, out r, None).

(** The result and the new offset. *)
Definition sendFile (file offset count : Z) (s : Sock) : Sock * Z * Z :=
  if negb (isValid (wrapper s)) then (s, -1, offset)
  else
    let '(s, count) := if count =? 0 then let '(s, r) := sys (SysFstat file) s in (s, if ret r =? -1 then None else Some (Z.max 0 (value r - offset))) else (s, Some count) in
    match count with
    | None => (s, -1, offset)
    | Some count => let '(s, r) := sys (SysSendFile (fd s) file offset count) s in (s, ret r, value r)
    end.

(** ** Options *)

Definition setsockopt (o : SockOpt) (m : string) (s : Sock) : Sock * Error :=
  let '(s, r) := sys (SysSetOption (fd s) o) s in
  if negb (ret r =? 0) then fails SocketError m (errno s) s else succeeds s.

Definition whenValid (go : Sock -> Sock * Error) (s : Sock) : Sock * Error := if negb (isValid (wrapper s)) then invalidSocket s else go s.

Definition setNoDelay (enable : bool) : Sock -> Sock * Error :=
  whenValid (fun s => if negb (type_ (wrapper s) =s TCP) then fails InvalidArgument "TCP_NODELAY only applies to TCP sockets" 0 s
                      else setsockopt (TcpNoDelay enable) "Failed to set TCP_NODELAY" s).
Definition setReuseAddr (enable : bool) : Sock -> Sock * Error := whenValid (setsockopt (ReuseAddr enable) "Failed to set SO_REUSEADDR").
Definition setKeepAlive (enable : bool) : Sock -> Sock * Error := whenValid (setsockopt (KeepAlive enable) "Failed to set SO_KEEPALIVE").

(** A [timeval], with C's division and remainder. *)
Definition tvSec (timeoutMs : Z) : Z := Z.quot (Z.max timeoutMs 0) 1000.
Definition tvUsec (timeoutMs : Z) : Z := Z.rem (Z.max timeoutMs 0) 1000 * 1000.

Definition setSendTimeout (timeoutMs : Z) : Sock -> Sock * Error :=
  whenValid (setsockopt (SendTimeout (tvSec timeoutMs) (tvUsec timeoutMs)) "Failed to set send timeout").
Definition setRecvTimeout (timeoutMs : Z) : Sock -> Sock * Error :=
  whenValid (setsockopt (RecvTimeout (tvSec timeoutMs) (tvUsec timeoutMs)) "Failed to set receive timeout").
Definition setSendBufferSize (size : Z) : Sock -> Sock * Error := whenValid (setsockopt (SendBuffer size) "Failed to set send buffer size").
Definition setRecvBufferSize (size : Z) : Sock -> Sock * Error := whenValid (setsockopt (RecvBuffer size) "Failed to set receive buffer size").
Definition setBroadcast (enable : bool) : Sock -> Sock * Error :=
  whenValid (fun s => if negb (type_ (wrapper s) =s UDP) then fails InvalidArgument "Broadcast only applies to UDP sockets" 0 s
                      else setsockopt (Broadcast enable) "Failed to set broadcast" s).

(** Guarded calls in order: the first failure is the result. *)
Fixpoint setAll (l : list (bool * (Sock -> Sock * Error))) (s : Sock) : Sock * Error :=
  match l with
  | [] => succeeds s
  | (false, _) :: l => setAll l s
  | (true, set) :: l => let '(s, e) := set s in if negb (isSuccess e) then (s, lastError_ (wrapper s)) else setAll l s
  end.

Definition setOption (o : SocketOption) : Sock -> Sock * Error :=
  whenValid (fun s =>
    let tcp := type_ (wrapper s) =s TCP in
    setAll [(true, setReuseAddr (reuseAddr o));
            (true, setsockopt (ReusePort (reusePort o)) "Failed to set SO_REUSEPORT");
            (tcp, setKeepAlive (keepAlive o));
            (tcp, setNoDelay (noDelay o));
            (0 <? sendBufferSize o, setSendBufferSize (sendBufferSize o));
            (0 <? recvBufferSize o, setRecvBufferSize (recvBufferSize o));
            (0 <? sendTimeout o, setSendTimeout (sendTimeout o));
            (0 <? recvTimeout o, setRecvTimeout (recvTimeout o));
            (type_ (wrapper s) =s UDP, setBroadcast (broadcast o))] s).

Definition shutdown (how : How) : Sock -> Sock * Error :=
  whenValid (fun s =>
    let '(s, r) := sys (SysShutdown (fd s) how) s in
    if negb (ret r =? 0) then
      fails SocketError (match how with ShutWrite => "Failed to shutdown write" | ShutRead => "Failed to shutdown read" | ShutBoth => "Failed to shutdown both" end) (errno s) s
    else succeeds s).

(** ** The names of the two ends *)

Definition nameOf (c : Z -> Syscall) (m : string) (s : Sock) : Sock * (Error + Address) :=
  if negb (isValid (wrapper s)) then (s, inl (mkError InvalidArgument (str "Invalid socket") 0))
  else
    let '(s, r) := sys (c (fd s)) s in
    if negb (ret r =? 0) then (s, inl (mkError SocketError (str m) (errno s))) else endpointToText (Some (stored r)) s.

Definition getLocalAddress : Sock -> Sock * (Error + Address) := nameOf SysGetSockName "Failed to get local address".
Definition getRemoteAddress : Sock -> Sock * (Error + Address) := nameOf SysGetPeerName "Failed to get remote address".

Definition detectFamily (s : Sock) : Sock * Z :=
  if negb (isValid (wrapper s)) then (s, AF_UNSPEC)
  else let '(s, r) := sys (SysGetSockName (fd s)) s in (s, if ret r =? 0 then sa_family (stored r) else AF_UNSPEC).

(** ** Construction and moves *)

(** [SocketWrapper(fd)]. *)
Definition adopt (f : Z) (k : K) (e : Z) : Sock :=
  let '(s, family) := detectFamily (mkSock (mkWrapper f AF_UNSPEC TCP false success) k e) in setFd f family (nonBlocking_ (wrapper s)) s.

(** What a move leaves behind; the moved-from error keeps its codes. *)
Definition movedFrom (w : Wrapper) : Wrapper := mkWrapper INVALID_SOCKET_FD AF_UNSPEC (type_ w) false (mkError (code_ (lastError_ w)) [] (systemCode_ (lastError_ w))).

(** ** What the members do to the descriptors *)

Context {laws : PosixLaws K}.

(** The descriptor a wrapper holds. *)
Definition ownBy (w : Wrapper) : gset Z := if isValid w then {[fd_ w]} else ∅.
Definition own (s : Sock) : gset Z := ownBy (wrapper s).

(** A socket is invalid or has a descriptor, and a recorded non-blocking mode is the real one. *)
Definition sound (w : Wrapper) (k : K) : Prop :=
  (fd_ w = INVALID_SOCKET_FD ∨ 0 <= fd_ w) ∧ (nonBlocking_ w = true -> isValid w = true ∧ mode k (fd_ w) = true).

(** A call that touches no descriptor but the wrapper's own and hands out [h]. *)
Definition acts (h : gset Z) (s s' : Sock) : Prop :=
  sound (wrapper s) (kernel s) -> ∀ F, openFds (kernel s) = F ∪ own s -> F ## own s ->
  sound (wrapper s') (kernel s') ∧ openFds (kernel s') = F ∪ own s' ∪ h ∧ F ## own s' ∧ F ∪ own s' ## h ∧
  ∀ f, f ∈ F -> mode (kernel s') f = mode (kernel s) f.

(** A call that changes neither descriptors nor modes. *)
Definition quiet (s s' : Sock) : Prop :=
  fd s' = fd s ∧ nonBlocking_ (wrapper s') = nonBlocking_ (wrapper s) ∧ type_ (wrapper s') = type_ (wrapper s) ∧ keeps (kernel s) (kernel s').

#[export] Instance quiet_preorder : PreOrder quiet.
Proof.
  split; [intros s; repeat split; done|].
  intros a b c (Hf & Hn & Ht & Ho & Hm) (Hf' & Hn' & Ht' & Ho' & Hm'). split_and!; [congruence..|]. split; [congruence|intros f; rewrite Hm', Hm; done].
Qed.

Lemma quiet_acts s s' : quiet s s' -> acts ∅ s s'.
Proof.
  intros (Hf & Hn & _ & Ho & Hm) [Hfd Hnb] F HF Hd.
  assert (Hown : own s' = own s). { unfold own, ownBy, isValid. unfold fd in Hf. rewrite Hf. done. }
  rewrite Hown, Ho, HF. unfold fd in Hf. repeat split; [rewrite Hf; done| | |set_solver|done|set_solver|].
  - unfold isValid. rewrite Hf, Hn in *. apply Hnb in H as [? _]. done.
  - rewrite Hn in H. rewrite Hf, Hm. apply Hnb, H.
  - intros f _. apply Hm.
Qed.

Lemma acts_trans h s s1 s' : acts ∅ s s1 -> acts h s1 s' -> acts h s s'.
Proof.
  intros H1 H2 Hs F HF Hd. destruct (H1 Hs F HF Hd) as (Hs1 & Ho1 & Hd1 & _ & Hm1).
  destruct (H2 Hs1 F ltac:(rewrite Ho1; set_solver) Hd1) as (Hs2 & Ho2 & Hd2 & Hh2 & Hm2).
  split_and!; [done..|]. intros f Hf. rewrite Hm2, Hm1; done.
Qed.

Lemma acts_quiet h s s1 s' : acts h s s1 -> quiet s1 s' -> acts h s s'.
Proof.
  intros H1 Hq Hs F HF Hd. destruct (H1 Hs F HF Hd) as (Hs1 & Ho1 & Hd1 & Hh & Hm1). destruct Hq as (Hf & Hn & _ & Ho & Hm).
  assert (Hown : own s' = own s1). { unfold own, ownBy, isValid. unfold fd in Hf. rewrite Hf. done. }
  rewrite Hown, Ho. split_and!; [|done..|intros f Hf'; rewrite Hm; auto].
  destruct Hs1 as [Hfd Hnb]. unfold fd in Hf. split; [rewrite Hf; done|]. unfold isValid. rewrite Hf, Hn, Hm. exact Hnb.
Qed.

(** The calls that neither make nor close a descriptor nor set a mode. *)
Definition plain (c : Syscall) : bool :=
  match c with SysSocket _ _ _ | SysAccept _ _ | SysClose _ | SysSetFl _ _ => false | _ => true end.

Lemma plain_keeps k c : plain c = true -> keeps k (syscall k c).1.
Proof. intros Hc. pose proof (call_law k c) as H. destruct (syscall k c) as [k' r]. destruct c; try discriminate Hc; cbn in *; tauto. Qed.

Lemma quiet_sys c s : plain c = true -> quiet s (sys c s).1.
Proof. intros Hc. pose proof (plain_keeps (kernel s) c Hc) as H. unfold sys. destruct (syscall _ _) as [k r]. by split_and!. Qed.

Lemma quiet_setLast e s : quiet s (setLast e s).
Proof. by split_and!. Qed.

Lemma quiet_setErrno e s : quiet s (setErrno e s).
Proof. by split_and!. Qed.

Lemma setType_acts t s : acts ∅ s (setType t s).
Proof. apply (quiet_acts (mkSock (mkWrapper (fd s) (family_ (wrapper s)) t (nonBlocking_ (wrapper s)) (lastError_ (wrapper s))) (kernel s) (errno s))). by split_and!. Qed.

(** Splits a proof that a call is quiet along the code. *)
Ltac quiet_step :=
  match goal with
  | |- quiet ?s ?s => reflexivity
  | |- quiet _ (setLast _ _) => etrans; [|apply quiet_setLast]
  | |- quiet _ (setErrno _ _) => etrans; [|apply quiet_setErrno]
  | |- quiet _ (sys ?c ?s).1 => etrans; [|apply quiet_sys; done]
  | |- context [match ?x with _ => _ end] => case_match
  end.

Create HintDb quietdb.
#[local] Hint Resolve quiet_sys quiet_setLast quiet_setErrno : quietdb.

(** The same, through members already known to be quiet. *)
Ltac enter t :=
  let Hq := fresh "Hq" in
  match goal with |- quiet ?s _ => assert (Hq : quiet s t.1) by (solve [auto with quietdb]) end;
  let s' := fresh "s" in let r := fresh "r" in destruct t as [s' r]; cbn [fst] in Hq; etrans; [exact Hq|clear Hq].
Ltac quiet_call :=
  match goal with
  | |- quiet _ (let '(_, _) := ?t in _).1 => enter t
  | |- quiet _ (let '(_, _) := ?t in _).1.1 => enter t
  | |- quiet _ (let '(_, _) := ?t in _).1.1.1 => enter t
  end.
Ltac quiets := unfold rejects, invalidSocket, fails, succeeds in *; repeat (cbn [fst snd] in *; first [quiet_call | quiet_step]); try done.

Lemma quiet_resolve host port t passive hint s : quiet s (resolveAddresses host port t passive hint s).1.
Proof. unfold resolveAddresses. quiets. Qed.

Lemma quiet_endpoint a s : quiet s (endpointToText a s).1.
Proof. unfold endpointToText. quiets. Qed.
#[local] Hint Resolve quiet_resolve quiet_endpoint : quietdb.

Lemma quiet_bindLoop l e s : quiet s (bindLoop l e s).1.
Proof. revert e s; induction l as [|a l IH]; intros e s; cbn [bindLoop]; quiets; auto. Qed.
#[local] Hint Resolve quiet_bindLoop : quietdb.

Lemma quiet_listen n s : quiet s (listen n s).1.
Proof. unfold listen. quiets. Qed.

Lemma quiet_performConnect a s : quiet s (performConnect a s).1.
Proof. unfold performConnect. quiets. Qed.
#[local] Hint Resolve quiet_performConnect : quietdb.

Lemma quiet_transfer c m s : plain c = true -> quiet s (transfer c m s).1.1.
Proof. intros Hc. unfold transfer. pose proof (quiet_sys c s Hc) as Hq. destruct (sys c s) as [s' r]. cbn [fst] in *. etrans; [exact Hq|]. quiets. Qed.

(** A transfer inside a member. *)
Ltac quiet_transfer :=
  match goal with |- context [transfer ?c ?m ?s] =>
    let Hq := fresh "Hq" in pose proof (quiet_transfer c m s eq_refl) as Hq; destruct (transfer c m s) as [[? ?] ?]; cbn [fst] in Hq; etrans; [exact Hq|clear Hq] end.

Lemma quiet_send d s : quiet s (send d s).1.
Proof. unfold send. case_match; [quiets|]. case_match; [quiets|]. by quiet_transfer. Qed.

Lemma quiet_recv n s : quiet s (recv n s).1.1.
Proof. unfold recv. case_match; [quiets|]. case_match; [quiets|]. by quiet_transfer. Qed.

Lemma quiet_sendTo d a s : quiet s (sendTo d a s).1.
Proof.
  unfold sendTo. case_match; [quiets|]. case_match; [quiets|]. case_match; [quiets|]. quiet_call.
  case_match; [quiets|]. case_match; [|quiets]. by quiet_transfer.
Qed.

Lemma quiet_recvFrom n s : quiet s (recvFrom n s).1.1.1.
Proof. unfold recvFrom. case_match; [quiets|]. case_match; [quiets|]. quiet_transfer. quiets. Qed.

Lemma quiet_sendFile f o c s : quiet s (sendFile f o c s).1.1.
Proof.
  unfold sendFile. case_match; [done|]. destruct (c =? 0); [|quiets].
  pose proof (quiet_sys (SysFstat f) s eq_refl) as Hq. destruct (sys (SysFstat f) s) as [s' r]. cbn [fst] in Hq. etrans; [exact Hq|]. quiets.
Qed.

Lemma quiet_setsockopt o m s : quiet s (setsockopt o m s).1.
Proof. unfold setsockopt. quiets. Qed.
#[local] Hint Resolve quiet_setsockopt : quietdb.

Lemma quiet_whenValid go s : (∀ s, quiet s (go s).1) -> quiet s (whenValid go s).1.
Proof. intros H. unfold whenValid. case_match; [quiets|apply H]. Qed.

Lemma quiet_setAll l s : Forall (fun x => ∀ s, quiet s (x.2 s).1) l -> quiet s (setAll l s).1.
Proof.
  intros H. revert s; induction H as [|[b set] l Hx _ IH]; intros s; cbn [setAll]; [quiets|].
  destruct b; [|apply IH]. cbn in Hx. specialize (Hx s). destruct (set s) as [s' e]. cbn in Hx. etrans; [exact Hx|]. case_match; [done|apply IH].
Qed.

Lemma quiet_setNoDelay b s : quiet s (setNoDelay b s).1.
Proof. apply quiet_whenValid. intros s'. case_match; [quiets|apply quiet_setsockopt]. Qed.

Lemma quiet_setBroadcast b s : quiet s (setBroadcast b s).1.
Proof. apply quiet_whenValid. intros s'. case_match; [quiets|apply quiet_setsockopt]. Qed.

Lemma quiet_setOption o s : quiet s (setOption o s).1.
Proof.
  apply quiet_whenValid. intros s'. apply quiet_setAll.
  repeat apply List.Forall_cons; cbn [snd]; try (intros s''; apply quiet_whenValid; intros; apply quiet_setsockopt); [| | |by constructor].
  - apply quiet_setsockopt.
  - apply quiet_setNoDelay.
  - apply quiet_setBroadcast.
Qed.

Lemma quiet_shutdown how s : quiet s (shutdown how s).1.
Proof. apply quiet_whenValid. intros s'. quiets. Qed.

Lemma quiet_nameOf c m s : (∀ f, plain (c f) = true) -> quiet s (nameOf c m s).1.
Proof. intros Hc. unfold nameOf. case_match; [done|]. quiet_call. case_match; [quiets|apply quiet_endpoint]. Qed.

(** ** Making, closing, modes *)

Lemma sys_wrapper c s : wrapper (sys c s).1 = wrapper s.
Proof. unfold sys. by destruct (syscall _ _). Qed.

(** [sys] stores what the system call gives. *)
Lemma sys_law c s s' r : sys c s = (s', r) -> wrapper s' = wrapper s ∧ syscall (kernel s) c = (kernel s', r).
Proof. unfold sys. destruct (syscall (kernel s) c) as [k r0] eqn:E. intros [= <- <-]. done. Qed.

Lemma own_invalid s : fd s = INVALID_SOCKET_FD -> own s = ∅.
Proof. intros H. unfold own, ownBy, isValid. unfold fd in H. by rewrite H. Qed.

Lemma own_valid s : isValid (wrapper s) = true -> own s = {[fd s]}.
Proof. intros H. unfold own, ownBy. by rewrite H. Qed.

Lemma close_acts s : acts ∅ s (close s).
Proof.
  intros [Hfd Hnb] F HF Hd. unfold close. destruct (isValid (wrapper s)) eqn:Ev.
  - rewrite (own_valid _ Ev) in HF, Hd. destruct (sys (SysClose (fd s)) s) as [s' r] eqn:E. apply sys_law in E as [Hw Hk]. pose proof (call_law (kernel s) (SysClose (fd s))) as HL.
    rewrite Hk in HL. destruct HL as [Ho Hm]. rewrite (own_invalid (setFd _ _ _ _)) by done. cbn. rewrite Ho, HF.
    split_and!; [by split; [left|]|set_solver|set_solver..|]. intros f Hf. apply Hm. set_solver.
  - rewrite (own_invalid (setFd _ _ _ _)) by done. cbn. rewrite HF. unfold own, ownBy. rewrite Ev.
    split_and!; [by split; [left|]|set_solver..|done].
Qed.

Lemma close_fd s : fd (close s) = INVALID_SOCKET_FD.
Proof. done. Qed.

Lemma close_type s : type_ (wrapper (close s)) = type_ (wrapper s).
Proof. unfold close. destruct (isValid _); cbn; by rewrite ?sys_wrapper. Qed.

(** A wrapper without descriptor takes the one just made. *)
Lemma takes_acts s s1 f b family k0 :
  fd s = INVALID_SOCKET_FD -> keeps (kernel s) k0 -> makes k0 (kernel s1) f b -> acts ∅ s (setFd f family false s1).
Proof.
  intros Hf (Ho & Hm) (Hf0 & Hnew & Ho1 & _ & Hm1) _ F HF _. rewrite (own_invalid s Hf) in HF.
  assert (Hv : isValid (wrapper (setFd f family false s1)) = true). { unfold isValid. cbn. unfold INVALID_SOCKET_FD. by destruct (Z.eqb_spec f (-1)); [lia|]. }
  rewrite (own_valid _ Hv). cbn. rewrite Ho1, Ho, HF in *. split_and!; [split; [by right|done]|set_solver..|].
  intros f' Hf'. rewrite <- Hm. apply Hm1. set_solver.
Qed.

Lemma keeps_refl (k : K) : keeps k k.
Proof. done. Qed.

Lemma createNativeSocket_acts family s : acts ∅ s (createNativeSocket family s).1.
Proof.
  unfold createNativeSocket. apply (acts_trans _ _ (close s)); [apply close_acts|]. pose proof (close_fd s) as Hf. generalize dependent (close s). clear s; intros s Hf.
  set (f := if family =? AF_UNSPEC then _ else _). set (t := type_ (wrapper s)). clearbody f t.
  destruct (sys (SysSocket f t true) s) as [s1 r1] eqn:E1. apply sys_law in E1 as [Hw1 Hk1]. pose proof (call_law (kernel s) (SysSocket f t true)) as HL1. rewrite Hk1 in HL1.
  set (second := if ret r1 =? INVALID_SOCKET_FD then _ else _). destruct second as [s2 r2] eqn:E2. unfold second in E2. clear second.
  assert (H2 : wrapper s2 = wrapper s ∧ (if ret r2 =? INVALID_SOCKET_FD then keeps (kernel s) (kernel s2) else ∃ k0, keeps (kernel s) k0 ∧ makes k0 (kernel s2) (ret r2) false)).
  { destruct (ret r1 =? INVALID_SOCKET_FD) eqn:Er.
    - destruct HL1 as [Ho Hm]. apply sys_law in E2 as [Hw2 Hk2]. pose proof (call_law (kernel s1) (SysSocket f t false)) as HL2. rewrite Hk2 in HL2. split; [congruence|].
      destruct (ret r2 =? INVALID_SOCKET_FD); [|by exists (kernel s1)]. destruct HL2 as [Ho2 Hm2]. split; [congruence|]. intros; by rewrite Hm2, Hm.
    - simplify_eq. split; [done|]. rewrite Er. by exists (kernel s). }
  destruct H2 as [Hw H2]. destruct (ret r2 =? INVALID_SOCKET_FD) eqn:Er.
  - apply Z.eqb_eq in Er. apply quiet_acts. split_and!; [cbn; congruence|cbn; by rewrite Hw..|exact H2].
  - destruct H2 as (k0 & Hk0 & Hmk). cbn [fst]. unfold succeeds. cbn [fst].
    pose proof (takes_acts s (setFd (ret r2) (family_ (wrapper s2)) (nonBlocking_ (wrapper s2)) s2) _ _ f k0 Hf Hk0 Hmk) as Ht.
    eapply acts_quiet; [|apply quiet_setLast]. destruct (f =? AF_INET6); [|exact Ht]. eapply acts_quiet; [exact Ht|by apply quiet_sys].
Qed.

Lemma create_acts t host port passive s : acts ∅ s (create t host port passive s).1.
Proof.
  unfold create. pose proof (quiet_resolve host port t passive AF_UNSPEC (setType t s)) as Hq. destruct (resolveAddresses _ _ _ _ _ _) as [s1 r]. cbn [fst] in Hq.
  assert (H0 : acts ∅ s s1) by (eapply acts_quiet; [apply setType_acts|exact Hq]).
  destruct r as [e|[|a l]]; [by eapply acts_quiet; [|apply quiet_setLast]..|]. eapply acts_trans; [exact H0|apply createNativeSocket_acts].
Qed.

Lemma createPlain_acts t s : acts ∅ s (createPlain t s).1.
Proof. eapply acts_trans; [apply setType_acts|apply createNativeSocket_acts]. Qed.

Lemma testbit_nonblock flags (enable : bool) : Z.testbit (if enable then Z.lor flags O_NONBLOCK else Z.ldiff flags O_NONBLOCK) 11 = enable.
Proof. destruct enable; [rewrite Z.lor_spec|rewrite Z.ldiff_spec]; change (Z.testbit O_NONBLOCK 11) with true; [apply orb_true_r|apply andb_false_r]. Qed.

Lemma isSuccess_code c m z : isSuccess (mkError c m z) = (c =s Success).
Proof. done. Qed.

(** [setNonBlocking]: where it succeeds, recorded and real mode are the one asked for. *)
Lemma setNonBlocking_spec enable s s' e : setNonBlocking enable s = (s', e) ->
  lastError_ (wrapper s') = e ∧ fd s' = fd s ∧ family_ (wrapper s') = family_ (wrapper s) ∧ type_ (wrapper s') = type_ (wrapper s) ∧ openFds (kernel s') = openFds (kernel s) ∧
  (∀ f, f ≠ fd s -> mode (kernel s') f = mode (kernel s) f) ∧
  if isSuccess e then isValid (wrapper s) = true ∧ nonBlocking_ (wrapper s') = enable ∧ mode (kernel s') (fd s) = enable
  else nonBlocking_ (wrapper s') = nonBlocking_ (wrapper s) ∧ mode (kernel s') (fd s) = mode (kernel s) (fd s).
Proof.
  unfold setNonBlocking, invalidSocket, fails, succeeds. destruct (isValid (wrapper s)) eqn:Ev; cbn [negb]; [|by intros [= <- <-]; rewrite isSuccess_code].
  destruct (sys (SysGetFl (fd s)) s) as [s1 r1] eqn:E1. apply sys_law in E1 as [Hw1 Hk1]. pose proof (call_law (kernel s) (SysGetFl (fd s))) as HL1. rewrite Hk1 in HL1. destruct HL1 as [[Ho1 Hm1] _].
  unfold fd in *. destruct (ret r1 =? -1).
  { intros [= <- <-]. rewrite isSuccess_code. cbn. rewrite Hw1. split_and!; auto. done. }
  set (flags := if enable then _ else _). destruct (sys (SysSetFl (fd_ (wrapper s1)) flags) s1) as [s2 r2] eqn:E2. apply sys_law in E2 as [Hw2 Hk2].
  pose proof (call_law (kernel s1) (SysSetFl (fd_ (wrapper s1)) flags)) as HL2. rewrite Hk2 in HL2. rewrite Hw1 in HL2. destruct (ret r2 =? -1).
  { destruct HL2 as [Ho2 Hm2]. intros [= <- <-]. rewrite isSuccess_code. cbn. rewrite Hw2, Hw1. split_and!; auto; [congruence|intros; by rewrite Hm2, Hm1|by rewrite Hm2, Hm1]. }
  destruct HL2 as (Ho2 & Hmf & Hm2). intros [= <- <-]. cbn. rewrite Hw2, Hw1. split_and!; auto; [congruence|intros f Hf; by rewrite Hm2, Hm1|].
  split_and!; [done..|]. rewrite Hmf. apply testbit_nonblock.
Qed.

Lemma setNonBlocking_acts enable s : acts ∅ s (setNonBlocking enable s).1.
Proof.
  destruct (setNonBlocking enable s) as [s' e] eqn:E. apply setNonBlocking_spec in E as (_ & Hf & _ & _ & Ho & Hm & He). intros [Hfd Hnb] F HF Hd.
  cbn [fst]. unfold own, ownBy, isValid, fd in *. rewrite Hf, Ho, HF. split_and!; [|set_solver..|].
  - unfold sound, isValid. rewrite Hf. split; [done|]. destruct (isSuccess e).
    + destruct He as (Hv & Hn & Hme). rewrite Hv, Hn, Hme. done.
    + destruct He as [Hn Hme]. rewrite Hn, Hme. exact Hnb.
  - intros f Hin. destruct (decide (f = fd_ (wrapper s))) as [->|Hne]; [|auto]. destruct (isSuccess e); [|tauto].
    destruct He as (Hv & _). rewrite Hv in Hd. set_solver.
Qed.

Lemma restore_acts b s : acts ∅ s (restore b s).
Proof. unfold restore. destruct b; [apply setNonBlocking_acts|by apply quiet_acts]. Qed.

Lemma withSocket_acts a passive go s : (∀ s, acts ∅ s (go s).1) -> acts ∅ s (withSocket a passive go s).1.
Proof.
  intros Hgo. unfold withSocket. destruct (isValid (wrapper s)); [apply Hgo|].
  pose proof (create_acts (type_ (wrapper s)) (ip a) (port a) passive s) as Hc. destruct (create _ _ _ _ _) as [s1 e]. cbn [fst] in Hc.
  destruct (isFailure e); [done|]. eapply acts_trans; [exact Hc|apply Hgo].
Qed.

Lemma bind_acts a s : acts ∅ s (bind a s).1.
Proof.
  apply withSocket_acts. clear s; intros s. apply quiet_acts. quiet_call. destruct r; [quiets|apply quiet_bindLoop].
Qed.

Lemma awaitConnect_acts b t s : acts ∅ s (awaitConnect b t s).1.
Proof.
  unfold awaitConnect, fails, succeeds. destruct (sys (SysPoll (fd s) t) s) as [s1 r1] eqn:E1.
  assert (H1 : acts ∅ s s1). { pose proof (quiet_sys (SysPoll (fd s) t) s eq_refl) as H. rewrite E1 in H. by apply quiet_acts. }
  destruct (ret r1 <=? 0).
  { destruct (ret r1 =? 0); cbn [fst]; eapply acts_quiet; [|apply quiet_setLast| |apply quiet_setLast]; (eapply acts_trans; [exact H1|apply restore_acts]). }
  eapply acts_trans; [exact H1|]. destruct (sys (SysGetSoError (fd s1)) s1) as [s2 r2] eqn:E2.
  assert (H2 : acts ∅ s1 s2). { pose proof (quiet_sys (SysGetSoError (fd s1)) s1 eq_refl) as H. rewrite E2 in H. by apply quiet_acts. }
  repeat case_match; cbn [fst]; (eapply acts_quiet; [|apply quiet_setLast]); (eapply acts_trans; [exact H2|apply restore_acts]).
Qed.

Lemma connectTo_acts a t s : acts ∅ s (connectTo a t s).1.
Proof.
  unfold connectTo. destruct (t <=? 0).
  { apply quiet_acts. pose proof (quiet_performConnect a s) as Hq. destruct (performConnect a s) as [s1 e]. cbn [fst] in *. etrans; [exact Hq|apply quiet_setLast]. }
  set (first := if negb (nonBlocking_ _) then _ else _). destruct first as [s1 e1] eqn:E1. unfold first in E1. clear first.
  assert (H1 : acts ∅ s s1). { destruct (negb _); [|by simplify_eq; apply quiet_acts]. pose proof (setNonBlocking_acts true s) as H. by rewrite E1 in H. }
  destruct (isFailure e1); [done|]. eapply acts_trans; [exact H1|].
  pose proof (quiet_performConnect a s1) as Hq. destruct (performConnect a s1) as [s2 e2]. cbn [fst] in Hq. eapply acts_trans; [apply quiet_acts, Hq|].
  destruct (isSuccess e2); [cbn [fst]; eapply acts_quiet; [apply restore_acts|apply quiet_setLast]|].
  destruct (negb (isConnectInProgressError _)); [cbn [fst]; eapply acts_quiet; [apply restore_acts|apply quiet_setLast]|apply awaitConnect_acts].
Qed.

Lemma connect_acts a t s : acts ∅ s (connect a t s).1.
Proof.
  apply withSocket_acts. clear s; intros s. pose proof (quiet_resolve (ip a) (port a) (type_ (wrapper s)) false (family_ (wrapper s)) s) as Hq.
  destruct (resolveAddresses _ _ _ _ _ _) as [s1 r]. cbn [fst] in Hq. eapply acts_trans; [apply quiet_acts, Hq|].
  destruct r as [e|l]; [apply quiet_acts, quiet_setLast|]. destruct (matching _ l); [apply connectTo_acts|apply quiet_acts, quiet_setLast].
Qed.

(** What [accept] hands out. *)
Definition handed (r : option (Z * Address)) : gset Z := match r with Some (f, _) => {[f]} | None => ∅ end.

(** Another descriptor is made beside the wrapper's own. *)
Lemma makes_acts s s1 f b k0 : wrapper s1 = wrapper s -> keeps (kernel s) k0 -> makes k0 (kernel s1) f b -> acts {[f]} s s1.
Proof.
  intros Hw (Ho & Hm) (Hf0 & Hnew & Ho1 & _ & Hm1) [Hfd Hnb] F HF Hd. assert (Hown : own s1 = own s) by (unfold own; by rewrite Hw).
  rewrite Hown, Ho1, Ho, HF in *. unfold sound. rewrite Hw. split_and!; [done| |set_solver..|].
  - intros Hn. destruct (Hnb Hn) as [Hv Hmd]. split; [done|]. rewrite Hm1, Hm; [done|]. intros <-. apply Hnew. rewrite (own_valid _ Hv). unfold fd. set_solver.
  - intros f' Hf'. rewrite Hm1, Hm; [done|set_solver].
Qed.

Lemma closeOther_acts s s1 s2 f r : acts {[f]} s s1 -> sys (SysClose f) s1 = (s2, r) -> acts ∅ s s2.
Proof.
  intros H1 E Hs F HF Hd. destruct (H1 Hs F HF Hd) as ([Hfd Hnb] & Ho & Hd1 & Hh & Hm). apply sys_law in E as [Hw Hk]. pose proof (call_law (kernel s1) (SysClose f)) as HL. rewrite Hk in HL.
  destruct HL as [Ho2 Hm2]. assert (Hown : own s2 = own s1) by (unfold own; by rewrite Hw). rewrite Hown, Ho2, Ho in *. unfold sound. rewrite Hw. split_and!; [done| |set_solver..|].
  - intros Hn. destruct (Hnb Hn) as [Hv Hmd]. split; [done|]. rewrite Hm2; [done|]. intros <-. rewrite (own_valid _ Hv) in Hh. unfold fd in Hh. set_solver.
  - intros f' Hf'. rewrite Hm2; [auto|set_solver].
Qed.

Lemma accept_acts s : acts (handed (accept s).2) s (accept s).1.1.
Proof.
  unfold accept. destruct (isValid (wrapper s)); cbn [negb]; [|apply quiet_acts, quiet_setLast].
  destruct (sys (SysAccept (fd s) true) s) as [s1 r1] eqn:E1. apply sys_law in E1 as [Hw1 Hk1]. pose proof (call_law (kernel s) (SysAccept (fd s) true)) as HL1. rewrite Hk1 in HL1.
  set (second := if _ && _ then _ else _). destruct second as [s2 r2] eqn:E2. unfold second in E2. clear second.
  assert (H2 : wrapper s2 = wrapper s ∧ if ret r2 =? INVALID_SOCKET_FD then keeps (kernel s) (kernel s2) else ∃ k0 b, keeps (kernel s) k0 ∧ makes k0 (kernel s2) (ret r2) b).
  { destruct (ret r1 =? INVALID_SOCKET_FD) eqn:Er; cbn [andb] in E2.
    - destruct (errno s1 =? ENOSYS); [|by simplify_eq; rewrite Er].
      destruct HL1 as [Ho Hm]. apply sys_law in E2 as [Hw2 Hk2]. pose proof (call_law (kernel s1) (SysAccept (fd s1) false)) as HL2. rewrite Hk2 in HL2. split; [congruence|].
      destruct (ret r2 =? INVALID_SOCKET_FD); [|by exists (kernel s1), false]. destruct HL2 as [Ho2 Hm2]. split; [congruence|]. intros; by rewrite Hm2, Hm.
    - simplify_eq. split; [done|]. rewrite Er. by exists (kernel s), true. }
  destruct H2 as [Hw H2]. clear E2 HL1. destruct (ret r2 =? INVALID_SOCKET_FD).
  { cbn. apply quiet_acts. etrans; [|apply quiet_setLast]. split_and!; unfold fd; rewrite ?Hw; [done..|]. apply H2. }
  destruct H2 as (k0 & b & Hk0 & Hmk). pose proof (makes_acts s s2 _ _ k0 Hw Hk0 Hmk) as Ha.
  pose proof (quiet_endpoint (Some (stored r2)) s2) as Hq. destruct (endpointToText _ _) as [s3 [e|a]]; cbn [fst] in Hq; pose proof (acts_quiet _ _ _ _ Ha Hq) as Ha3.
  - destruct (sys (SysClose (ret r2)) s3) as [s4 r4] eqn:E4. cbn. eapply acts_quiet; [by eapply closeOther_acts|apply quiet_setLast].
  - cbn. eapply acts_quiet; [exact Ha3|apply quiet_setLast].
Qed.

(** ** The members *)

Inductive Call :=
| CCreatePlain (t : SocketType) | CCreate (t : SocketType) (host : list byte) (port : Z) (passive : bool) | CBind (a : Address) | CListen (backlog : Z)
| CAccept | CConnect (a : Address) (timeoutMs : Z) | CSend (data : list byte) | CRecv (len : Z) | CSendTo (data : list byte) (a : Address) | CRecvFrom (len : Z)
| CSendFile (file offset count : Z) | CClose | CSetNonBlocking (enable : bool) | CSetOption (o : SocketOption) | CSetNoDelay (enable : bool) | CSetReuseAddr (enable : bool)
| CSetKeepAlive (enable : bool) | CSetSendTimeout (ms : Z) | CSetRecvTimeout (ms : Z) | CSetSendBufferSize (size : Z) | CSetRecvBufferSize (size : Z) | CSetBroadcast (enable : bool)
| CShutdown (how : How) | CGetLocalAddress | CGetRemoteAddress.

(** A call, and the descriptor it hands out. *)
Definition perform (c : Call) (s : Sock) : Sock * gset Z :=
  match c with
  | CCreatePlain t => ((createPlain t s).1, ∅)
  | CCreate t host port passive => ((create t host port passive s).1, ∅)
  | CBind a => ((bind a s).1, ∅)
  | CListen n => ((listen n s).1, ∅)
  | CAccept => ((accept s).1.1, handed (accept s).2)
  | CConnect a t => ((connect a t s).1, ∅)
  | CSend d => ((send d s).1, ∅)
  | CRecv n => ((recv n s).1.1, ∅)
  | CSendTo d a => ((sendTo d a s).1, ∅)
  | CRecvFrom n => ((recvFrom n s).1.1.1, ∅)
  | CSendFile f o n => ((sendFile f o n s).1.1, ∅)
  | CClose => (close s, ∅)
  | CSetNonBlocking b => ((setNonBlocking b s).1, ∅)
  | CSetOption o => ((setOption o s).1, ∅)
  | CSetNoDelay b => ((setNoDelay b s).1, ∅)
  | CSetReuseAddr b => ((setReuseAddr b s).1, ∅)
  | CSetKeepAlive b => ((setKeepAlive b s).1, ∅)
  | CSetSendTimeout ms => ((setSendTimeout ms s).1, ∅)
  | CSetRecvTimeout ms => ((setRecvTimeout ms s).1, ∅)
  | CSetSendBufferSize n => ((setSendBufferSize n s).1, ∅)
  | CSetRecvBufferSize n => ((setRecvBufferSize n s).1, ∅)
  | CSetBroadcast b => ((setBroadcast b s).1, ∅)
  | CShutdown how => ((shutdown how s).1, ∅)
  | CGetLocalAddress => ((getLocalAddress s).1, ∅)
  | CGetRemoteAddress => ((getRemoteAddress s).1, ∅)
  end.

Lemma perform_acts c s : acts (perform c s).2 s (perform c s).1.
Proof.
  destruct c; cbn [perform fst snd];
    first [ apply createPlain_acts | apply create_acts | apply bind_acts | apply accept_acts | apply connect_acts | apply close_acts | apply setNonBlocking_acts
          | apply quiet_acts;
            first [ apply quiet_listen | apply quiet_send | apply quiet_recv | apply quiet_sendTo | apply quiet_recvFrom | apply quiet_sendFile | apply quiet_setOption
                  | apply quiet_setNoDelay | apply quiet_setBroadcast | apply quiet_shutdown | by apply quiet_nameOf | by apply quiet_whenValid; intros; apply quiet_setsockopt ] ].
Qed.

(** ** Several wrappers *)

(** The wrappers that live, the descriptors [accept] handed to its callers, the system. *)
Record Process := mkProcess { wrappers : gmap nat Wrapper; held : gset Z; system : K; lastErrno : Z }.

Inductive Act :=
| Construct (i : nat)
| Adopt (i : nat) (f : Z)
| MoveConstruct (i j : nat)
| MoveAssign (i j : nat)
| Destroy (i : nat)
| CloseHeld (f : Z)
| Invoke (i : nat) (c : Call).

Definition inside (w : Wrapper) (p : Process) : Sock := mkSock w (system p) (lastErrno p).
Definition leave (i : nat) (s : Sock) (h : gset Z) (p : Process) : Process := mkProcess (<[i := wrapper s]> (wrappers p)) (held p ∪ h) (kernel s) (errno s).

(** The move assignment of [j] to [i], two objects. *)
Definition moveAssign (i j : nat) (wi wj : Wrapper) (p : Process) : Process :=
  let s := close (inside wi p) in mkProcess (<[j := movedFrom wj]> (<[i := wj]> (wrappers p))) (held p) (kernel s) (errno s).

Definition act (a : Act) (p : Process) : Process :=
  match a with
  | Construct i => match wrappers p !! i with None => mkProcess (<[i := newWrapper]> (wrappers p)) (held p) (system p) (lastErrno p) | Some _ => p end
  | Adopt i f =>
      match wrappers p !! i with
      | Some _ => p
      | None => if bool_decide (f ∈ held p) then leave i (adopt f (system p) (lastErrno p)) ∅ (mkProcess (wrappers p) (held p ∖ {[f]}) (system p) (lastErrno p)) else p
      end
  | MoveConstruct i j =>
      match wrappers p !! i, wrappers p !! j with
      | None, Some wj => mkProcess (<[j := movedFrom wj]> (<[i := wj]> (wrappers p))) (held p) (system p) (lastErrno p)
      | _, _ => p
      end
  | MoveAssign i j =>
      if (i =? j)%nat then p
      else match wrappers p !! i, wrappers p !! j with Some wi, Some wj => moveAssign i j wi wj p | _, _ => p end
  | Destroy i =>
      match wrappers p !! i with
      | Some w => let s := close (inside w p) in mkProcess (delete i (wrappers p)) (held p) (kernel s) (errno s)
      | None => p
      end
  | CloseHeld f =>
      if bool_decide (f ∈ held p) then let '(s, _) := sys (SysClose f) (inside newWrapper p) in mkProcess (wrappers p) (held p ∖ {[f]}) (kernel s) (errno s) else p
  | Invoke i c => match wrappers p !! i with Some w => let '(s, h) := perform c (inside w p) in leave i s h p | None => p end
  end.

Definition run (l : list Act) (p : Process) : Process := foldl (fun p a => act a p) p l.

(** The descriptors of the wrappers. *)
Definition fdsOf (m : gmap nat Wrapper) : gset Z := ⋃ ((fun iw => ownBy iw.2) <$> map_to_list m).

(** Each wrapper has a descriptor of its own. *)
Definition apart (others : gset Z) (m : gmap nat Wrapper) (h : gset Z) (k : K) : Prop :=
  others ## h ∧ others ∪ h ## fdsOf m ∧
  (∀ i j w w', i ≠ j -> m !! i = Some w -> m !! j = Some w' -> ownBy w ## ownBy w') ∧ ∀ i w, m !! i = Some w -> sound w k.

(** Each open descriptor belongs to a wrapper, to a caller of [accept] or to somebody else. *)
Definition owned (others : gset Z) (m : gmap nat Wrapper) (h : gset Z) (k : K) : Prop :=
  openFds k = others ∪ h ∪ fdsOf m ∧ apart others m h k.

Lemma elem_of_fdsOf m f : f ∈ fdsOf m <-> ∃ i w, m !! i = Some w ∧ f ∈ ownBy w.
Proof.
  unfold fdsOf. rewrite elem_of_union_list. split.
  - intros (X & HX & Hf). apply list_elem_of_fmap in HX as ([i w] & -> & Hin). apply elem_of_map_to_list in Hin. eauto.
  - intros (i & w & Hi & Hf). exists (ownBy w). split; [|done]. apply list_elem_of_fmap. exists (i, w). split; [done|]. by apply elem_of_map_to_list.
Qed.

Lemma fdsOf_insert m i w : m !! i = None -> fdsOf (<[i := w]> m) = fdsOf m ∪ ownBy w.
Proof.
  intros Hi. apply set_eq. intros f. rewrite elem_of_union, !elem_of_fdsOf. split.
  - intros (j & w' & Hj & Hf). apply lookup_insert_Some in Hj as [[<- <-]|[Hne Hj]]; [by right|left; eauto].
  - intros [(j & w' & Hj & Hf)|Hf]; [|exists i, w; by rewrite lookup_insert_eq]. exists j, w'. split; [|done]. rewrite lookup_insert_ne; [done|]. intros ->. congruence.
Qed.

(** A wrapper beside the others. *)
Lemma owned_insert others m h k i w : m !! i = None ->
  owned others (<[i := w]> m) h k <->
  openFds k = (others ∪ h ∪ fdsOf m) ∪ ownBy w ∧ others ∪ h ∪ fdsOf m ## ownBy w ∧ sound w k ∧ apart others m h k.
Proof.
  intros Hi. unfold owned, apart. rewrite (fdsOf_insert _ _ _ Hi). split.
  - intros (Ho & Hd & Hd2 & Hp & Hs). split_and!; [set_solver| |by eapply Hs; rewrite lookup_insert_eq|done|set_solver| |].
    + intros f Hf Hw. apply elem_of_union in Hf as [Hf|Hf]; [set_solver|]. apply elem_of_fdsOf in Hf as (j & w' & Hj & Hf).
      assert (Hne : i ≠ j) by congruence. eapply (Hp i j); [exact Hne|by rewrite lookup_insert_eq|by rewrite lookup_insert_ne|done|done].
    + intros i1 j w1 w' Hne H1 H2. eapply (Hp i1 j); [done|rewrite lookup_insert_ne; [done|congruence]..].
    + intros j w' Hj. eapply Hs. rewrite lookup_insert_ne; [done|congruence].
  - intros (Ho & Hw & Hs & Hd & Hd2 & Hp & Hss). split_and!; [set_solver|done|set_solver| |].
    + intros i1 j w1 w' Hne [[<- <-]|[_ H1]]%lookup_insert_Some [[<- <-]|[_ H2]]%lookup_insert_Some; [done| | |eauto].
      * intros f Hf Hf'. apply (Hw f); [|done]. apply elem_of_union_r, elem_of_fdsOf. eauto.
      * intros f Hf Hf'. apply (Hw f); [|done]. apply elem_of_union_r, elem_of_fdsOf. eauto.
    + intros j w' [[<- <-]|[_ Hj]]%lookup_insert_Some; eauto.
Qed.

(** The modes of the others did not change. *)
Lemma apart_modes others m h h' k k' : apart others m h k -> others ∪ h' ## fdsOf m -> others ## h' ->
  (∀ f, f ∈ fdsOf m -> mode k' f = mode k f) -> apart others m h' k'.
Proof.
  intros (Hd & Hd2 & Hp & Hs) Hf Hh Hm. split_and!; [done..|]. intros i w Hi. destruct (Hs i w Hi) as [Hfd Hnb]. split; [done|].
  intros Hn. destruct (Hnb Hn) as [Hv Hmd]. split; [done|]. rewrite Hm; [done|]. apply elem_of_fdsOf. exists i, w. split; [done|]. unfold ownBy. rewrite Hv. set_solver.
Qed.

Lemma owned_acts others m h k i w e s' hs : m !! i = None -> owned others (<[i := w]> m) h k -> acts hs (mkSock w k e) s' ->
  owned others (<[i := wrapper s']> m) (h ∪ hs) (kernel s').
Proof.
  intros Hi Ho Ha. apply (owned_insert _ _ _ _ _ _ Hi) in Ho as (Ho & Hw & Hs & Hap). destruct (Ha Hs _ Ho Hw) as (Hs' & Ho' & Hd' & Hh & Hm).
  apply (owned_insert _ _ _ _ _ _ Hi). unfold own in *. pose proof Hap as (Hd & Hd2 & _). split_and!; [set_solver..|done|].
  eapply apart_modes; [exact Hap|set_solver..|]. intros f Hf. apply Hm. set_solver.
Qed.

Lemma ownBy_new : ownBy newWrapper = ∅.
Proof. done. Qed.

Lemma owned_empty others m h k i w : m !! i = None -> ownBy w = ∅ -> sound w k -> owned others (<[i := w]> m) h k <-> owned others m h k.
Proof. intros Hi Hw Hs. rewrite (owned_insert _ _ _ _ _ _ Hi), Hw. unfold owned. set_solver. Qed.

Definition processOwned (others : gset Z) (p : Process) : Prop := owned others (wrappers p) (held p) (system p).

Lemma sound_empty w k : fd_ w = INVALID_SOCKET_FD -> nonBlocking_ w = false -> sound w k ∧ ownBy w = ∅.
Proof. intros Hf Hn. unfold sound, ownBy, isValid. rewrite Hf, Hn. split; [split; [by left|done]|done]. Qed.

Lemma owned_split others m h k i w : m !! i = Some w -> owned others m h k -> owned others (<[i := w]> (delete i m)) h k.
Proof. intros Hi. by rewrite insert_delete_id. Qed.

(** The same wrapper under another name. *)
Lemma owned_rename others m h k i j w : m !! i = None -> m !! j = None -> owned others (<[i := w]> m) h k -> owned others (<[j := w]> m) h k.
Proof. intros Hi Hj. by rewrite !owned_insert. Qed.

Lemma owned_moved others m h k i j w : i ≠ j -> m !! i = None -> m !! j = None -> owned others (<[j := w]> m) h k -> owned others (<[j := movedFrom w]> (<[i := w]> m)) h k.
Proof.
  intros Hne Hi Hj H. destruct (sound_empty (movedFrom w) k eq_refl eq_refl) as [Hs Hw].
  apply owned_empty; [by rewrite lookup_insert_ne|done|done|]. by eapply owned_rename; [| |exact H].
Qed.

(** The closed wrapper can be left out. *)
Lemma owned_close others m h k e i w : m !! i = None -> owned others (<[i := w]> m) h k -> owned others m h (kernel (close (mkSock w k e))).
Proof.
  intros Hi H. pose proof (owned_acts _ _ _ _ _ _ e _ ∅ Hi H (close_acts _)) as Hc. rewrite union_empty_r_L in Hc.
  destruct (sound_empty (wrapper (close (mkSock w k e))) (kernel (close (mkSock w k e))) eq_refl eq_refl) as [Hs Hw]. by apply owned_empty in Hc.
Qed.

Lemma owned_adopt others m h k e i f : m !! i = None -> f ∈ h -> owned others m h k ->
  owned others (<[i := wrapper (adopt f k e)]> m) (h ∖ {[f]}) (kernel (adopt f k e)).
Proof.
  intros Hi Hf Ho. assert (Hf0 : 0 <= f). { apply (open_law k). destruct Ho as [-> _]. set_solver. }
  set (w := mkWrapper f AF_UNSPEC TCP false success).
  assert (Hw : ownBy w = {[f]}). { unfold ownBy, isValid. cbn. unfold INVALID_SOCKET_FD. by destruct (Z.eqb_spec f (-1)); [lia|]. }
  assert (H0 : owned others (<[i := w]> m) (h ∖ {[f]}) k).
  { apply (owned_insert _ _ _ _ _ _ Hi). rewrite Hw. destruct Ho as [Ho Hap]. pose proof Hap as (Hd & Hd2 & _). split_and!; [| |by split; [right|]|].
    - rewrite Ho. apply set_eq. intros x. rewrite !elem_of_union, elem_of_difference, elem_of_singleton. destruct (decide (x = f)) as [->|]; naive_solver.
    - set_solver.
    - eapply apart_modes; [exact Hap|set_solver..|done]. }
  assert (Hq : quiet (mkSock w k e) (adopt f k e)).
  { unfold adopt, detectFamily. fold w. destruct (isValid _) eqn:Ev; cbn [negb]; [|done].
    pose proof (quiet_sys (SysGetSockName (fd (mkSock w k e))) (mkSock w k e) eq_refl) as Hq. destruct (sys _ _) as [s r]. cbn [fst] in Hq. destruct Hq as (Hq1 & Hq2 & Hq3 & Hq4). by split_and!. }
  pose proof (owned_acts _ _ _ _ _ _ e _ ∅ Hi H0 (quiet_acts _ _ Hq)) as H. by rewrite union_empty_r_L in H.
Qed.

Lemma owned_closeHeld others m h k f k' r : f ∈ h -> owned others m h k -> syscall k (SysClose f) = (k', r) -> owned others m (h ∖ {[f]}) k'.
Proof.
  intros Hf [Ho Hap] E. pose proof (call_law k (SysClose f)) as HL. rewrite E in HL. destruct HL as [Ho' Hm]. pose proof Hap as (Hd & Hd2 & _). split; [set_solver|].
  eapply apart_modes; [exact Hap|set_solver..|]. intros f' Hf'. apply Hm. set_solver.
Qed.

Lemma act_owned others a p : processOwned others p -> processOwned others (act a p).
Proof.
  intros H. unfold processOwned in *. destruct a as [i|i f|i j|i j|i|f|i c]; cbn [act].
  - destruct (wrappers p !! i) eqn:Hi; [done|]. cbn. apply owned_empty; [done|done|by split; [left|]|done].
  - destruct (wrappers p !! i) eqn:Hi; [done|]. case_bool_decide as Hf; [|done]. cbn. rewrite union_empty_r_L. by apply owned_adopt.
  - destruct (wrappers p !! i) eqn:Hi; [done|]. destruct (wrappers p !! j) as [w|] eqn:Hj; [|done]. cbn. assert (Hne : i ≠ j) by congruence.
    apply (owned_split _ _ _ _ _ _ Hj) in H. apply (owned_moved _ _ _ _ i) in H; [|done|by rewrite lookup_delete_ne|apply lookup_delete_eq].
    rewrite <- delete_insert_ne in H by done. by rewrite insert_delete_eq in H.
  - destruct (Nat.eqb_spec i j) as [|Hne]; [done|]. destruct (wrappers p !! i) as [wi|] eqn:Hi; [|done]. destruct (wrappers p !! j) as [wj|] eqn:Hj; [|done]. cbn.
    apply (owned_split _ _ _ _ _ _ Hi) in H. apply (owned_close _ _ _ _ (lastErrno p)) in H; [|apply lookup_delete_eq].
    eapply owned_split in H; [|by rewrite lookup_delete_ne; [exact Hj|done]].
    apply (owned_moved _ _ _ _ i) in H; [|done|by rewrite lookup_delete_ne, lookup_delete_eq|apply lookup_delete_eq].
    rewrite <- delete_insert_ne in H by done. by rewrite insert_delete_eq, insert_delete_eq in H.
  - destruct (wrappers p !! i) as [w|] eqn:Hi; [|done]. cbn. apply (owned_split _ _ _ _ _ _ Hi) in H. by eapply owned_close; [apply lookup_delete_eq|exact H].
  - case_bool_decide as Hf; [|done]. destruct (sys (SysClose f) (inside newWrapper p)) as [s r] eqn:E. apply sys_law in E as [_ E]. cbn. by eapply owned_closeHeld.
  - destruct (wrappers p !! i) as [w|] eqn:Hi; [|done]. apply (owned_split _ _ _ _ _ _ Hi) in H. pose proof (perform_acts c (inside w p)) as Ha. destruct (perform c _) as [s h]. cbn in *.
    eapply owned_acts in H; [|apply lookup_delete_eq|exact Ha]. by rewrite insert_delete_eq in H.
Qed.

Lemma run_owned others l p : processOwned others p -> processOwned others (run l p).
Proof. revert p; induction l as [|a l IH]; intros p H; [done|]. apply IH, act_owned, H. Qed.

Lemma owned_start k e : processOwned (openFds k) (mkProcess ∅ ∅ k e).
Proof. unfold processOwned, owned, apart. change (fdsOf (wrappers _)) with (∅ : gset Z). cbn. set_solver. Qed.

(** C17. Under every sequence of constructions, moves, destructions, calls of members and
    closings of accepted descriptors each open descriptor has exactly one owner: a wrapper, a
    caller of accept, or whoever had it before; no call closes a descriptor of another owner
    or loses its own, a socket recorded as non-blocking is non-blocking, and once the wrappers are destroyed and the
    accepted descriptors closed exactly the descriptors from before are open. *)
Theorem sockets_owned l k e :
  let p := run l (mkProcess ∅ ∅ k e) in
  openFds (system p) = openFds k ∪ held p ∪ fdsOf (wrappers p) ∧ openFds k ## held p ∧ openFds k ∪ held p ## fdsOf (wrappers p) ∧
  (∀ i j w w', i ≠ j -> wrappers p !! i = Some w -> wrappers p !! j = Some w' -> isValid w = true -> isValid w' = true -> fd_ w ≠ fd_ w') ∧
  (∀ i w, wrappers p !! i = Some w -> isValid w = true -> fd_ w ∈ openFds (system p) ∧ (nonBlocking_ w = true -> mode (system p) (fd_ w) = true)) ∧
  (wrappers p = ∅ -> held p = ∅ -> openFds (system p) = openFds k).
Proof.
  intros p. pose proof (run_owned _ l _ (owned_start k e)) as (Ho & Hd & Hd2 & Hp & Hs). fold p in Ho, Hd, Hd2, Hp, Hs. split_and!; [done..| | |].
  - intros i j w w' Hne Hi Hj Hv Hv' Heq. pose proof (Hp i j w w' Hne Hi Hj) as H. unfold ownBy in H. rewrite Hv, Hv', Heq in H. set_solver.
  - intros i w Hi Hv. split; [|intros Hn; by apply (Hs i w Hi)]. rewrite Ho. apply elem_of_union_r, elem_of_fdsOf. exists i, w. split; [done|]. unfold ownBy. rewrite Hv. set_solver.
  - intros Hw Hh. rewrite Ho, Hw, Hh. change (fdsOf ∅) with (∅ : gset Z). set_solver.
Qed.

(** ** Connecting keeps the mode *)

(** [fcntl] does not fail on an open descriptor. *)
Definition fcntlWorks : Prop :=
  ∀ k f, f ∈ openFds k -> ret (syscall k (SysGetFl f)).2 ≠ -1 ∧ ∀ flags, ret (syscall k (SysSetFl f flags)).2 ≠ -1.

(** An open socket whose recorded and real mode is [b]. *)
Definition inMode (b : bool) (s : Sock) : Prop :=
  isValid (wrapper s) = true ∧ fd s ∈ openFds (kernel s) ∧ nonBlocking_ (wrapper s) = b ∧ mode (kernel s) (fd s) = b.

Lemma inMode_quiet b s s' : quiet s s' -> inMode b s -> inMode b s'.
Proof.
  intros (Hf & Hn & _ & Ho & Hm) (Hv & Hin & Hnb & Hmd). unfold inMode, isValid. rewrite Hn, Ho, Hm, Hf. unfold isValid in Hv. unfold fd in Hf. rewrite Hf. done.
Qed.

Lemma setNonBlocking_works b b' s : fcntlWorks -> inMode b s -> ∃ s', setNonBlocking b' s = (s', success) ∧ inMode b' s' ∧ lastError_ (wrapper s') = success.
Proof.
  intros HW (Hv & Hin & _ & _). destruct (setNonBlocking b' s) as [s' e] eqn:E. exists s'. pose proof (setNonBlocking_spec _ _ _ _ E) as (Hl & Hf & _ & _ & Ho & _ & He).
  assert (He' : e = success).
  { unfold setNonBlocking in E. rewrite Hv in E. cbn [negb] in E. destruct (sys (SysGetFl (fd s)) s) as [s1 r1] eqn:E1. apply sys_law in E1 as [Hw1 Hk1].
    pose proof (HW _ _ Hin) as [H1 _]. rewrite Hk1 in H1. cbn in H1. destruct (Z.eqb_spec (ret r1) (-1)); [done|].
    pose proof (call_law (kernel s) (SysGetFl (fd s))) as HL. rewrite Hk1 in HL. destruct HL as [[Ho1 _] _].
    set (flags := if b' then _ else _) in E. destruct (sys (SysSetFl (fd s1) flags) s1) as [s2 r2] eqn:E2. apply sys_law in E2 as [Hw2 Hk2].
    destruct (HW (kernel s1) (fd s1)) as [_ H2]. { rewrite Ho1. unfold fd. rewrite Hw1. exact Hin. }
    specialize (H2 flags). rewrite Hk2 in H2. cbn in H2. destruct (Z.eqb_spec (ret r2) (-1)); [done|]. unfold succeeds in E. by simplify_eq. }
  rewrite He' in *. split; [done|]. cbn in He. destruct He as (_ & Hn & Hm). split; [|done].
  unfold inMode, isValid. rewrite Ho, Hf, Hn, Hm. unfold fd in Hf. rewrite Hf. unfold isValid in Hv. by split_and!.
Qed.

Lemma restore_works b s : fcntlWorks -> inMode true s -> inMode (negb b) (restore b s).
Proof.
  intros HW H. unfold restore. destruct b; [|done]. destruct (setNonBlocking_works true false s HW H) as (s' & -> & H' & _). done.
Qed.

(** The result is recorded, and the mode kept. *)
Definition keepsMode (b : bool) (r : Sock * Error) : Prop := inMode b r.1 ∧ lastError_ (wrapper r.1) = r.2.

Lemma keepsMode_setLast b e s : inMode b s -> keepsMode b (setLast e s, e).
Proof. intros H. split; [|done]. by eapply inMode_quiet; [apply quiet_setLast|]. Qed.

Lemma awaitConnect_mode b t s : fcntlWorks -> inMode true s -> keepsMode (negb b) (awaitConnect b t s).
Proof.
  intros HW H. unfold awaitConnect, fails, succeeds. pose proof (quiet_sys (SysPoll (fd s) t) s eq_refl) as Hq. destruct (sys _ _) as [s1 r1]. apply (inMode_quiet true) in Hq; [|done]. cbn [fst] in Hq.
  destruct (ret r1 <=? 0); [destruct (ret r1 =? 0); by apply keepsMode_setLast, restore_works|].
  pose proof (quiet_sys (SysGetSoError (fd s1)) s1 eq_refl) as Hq2. destruct (sys _ _) as [s2 r2]. apply (inMode_quiet true) in Hq2; [|done]. cbn [fst] in Hq2.
  repeat case_match; by apply keepsMode_setLast, restore_works.
Qed.

Lemma connectTo_mode b a t s : fcntlWorks -> inMode b s -> keepsMode b (connectTo a t s).
Proof.
  intros HW H. unfold connectTo. destruct (t <=? 0).
  { pose proof (quiet_performConnect a s) as Hq. destruct (performConnect a s) as [s1 e]. by eapply keepsMode_setLast, inMode_quiet. }
  pose proof H as (_ & _ & Hn & _). rewrite Hn. set (first := if negb b then _ else _). destruct first as [s1 e1] eqn:E1.
  assert (H1 : e1 = success ∧ inMode true s1).
  { unfold first in E1. destruct b; cbn [negb] in E1; [by simplify_eq|]. destruct (setNonBlocking_works false true s HW H) as (s' & E' & Hm & _). rewrite E' in E1. by simplify_eq. }
  destruct H1 as [-> H1]. change (isFailure success) with false. cbn match. clear first E1.
  pose proof (quiet_performConnect a s1) as Hq. destruct (performConnect a s1) as [s2 e2]. apply (inMode_quiet true) in Hq; [|done]. cbn [fst] in Hq.
  assert (Hr : inMode b (restore (negb b) s2)). { pose proof (restore_works (negb b) s2 HW Hq) as Hr. by rewrite negb_involutive in Hr. }
  destruct (isSuccess e2); [by apply keepsMode_setLast|]. destruct (negb (isConnectInProgressError _)); [by apply keepsMode_setLast|].
  pose proof (awaitConnect_mode (negb b) t s2 HW Hq) as Ha. by rewrite negb_involutive in Ha.
Qed.

Lemma resolved_mode b a t s : fcntlWorks -> inMode b s ->
  keepsMode b (let '(s, r) := resolveAddresses (ip a) (port a) (type_ (wrapper s)) false (family_ (wrapper s)) s in
               match r with
               | inl e => (setLast e s, e)
               | inr candidates => match matching (family_ (wrapper s)) candidates with
                                   | None => fails ResolveError "No resolved endpoint matched the socket family" 0 s
                                   | Some target => connectTo target t s end
               end).
Proof.
  intros HW H. pose proof (quiet_resolve (ip a) (port a) (type_ (wrapper s)) false (family_ (wrapper s)) s) as Hq. destruct (resolveAddresses _ _ _ _ _ _) as [s1 r]. apply (inMode_quiet b) in Hq; [|done]. cbn [fst] in Hq.
  destruct r as [e|l]; [by apply keepsMode_setLast|]. destruct (matching _ l); [by apply connectTo_mode|by apply keepsMode_setLast].
Qed.

(** A socket just made is open and blocking; without one the error is recorded. *)
Lemma createNativeSocket_spec family s s' e : createNativeSocket family s = (s', e) -> lastError_ (wrapper s') = e ∧ type_ (wrapper s') = type_ (wrapper s) ∧ if isSuccess e then inMode false s' else isValid (wrapper s') = false.
Proof.
  unfold createNativeSocket. rewrite <- (close_type s). generalize (close s). clear s; intros s. set (f := if family =? AF_UNSPEC then _ else _). set (t := type_ (wrapper s)). assert (Ht : type_ (wrapper s) = t) by done. clearbody f t.
  destruct (sys (SysSocket f t true) s) as [s1 r1] eqn:E1. apply sys_law in E1 as [Hw1 Hk1]. pose proof (call_law (kernel s) (SysSocket f t true)) as HL1. rewrite Hk1 in HL1.
  set (second := if ret r1 =? INVALID_SOCKET_FD then _ else _). destruct second as [s2 r2] eqn:E2. unfold second in E2. clear second.
  assert (Hw2 : wrapper s2 = wrapper s). { destruct (ret r1 =? INVALID_SOCKET_FD); [apply sys_law in E2 as [Hw2 _]; congruence|by simplify_eq]. }
  assert (H2 : ret r2 ≠ INVALID_SOCKET_FD -> ∃ k0, makes k0 (kernel s2) (ret r2) false).
  { intros Hr. destruct (ret r1 =? INVALID_SOCKET_FD) eqn:Er.
    - apply sys_law in E2 as [_ Hk2]. pose proof (call_law (kernel s1) (SysSocket f t false)) as HL2. rewrite Hk2 in HL2. apply Z.eqb_neq in Hr. rewrite Hr in HL2. eauto.
    - simplify_eq. eauto. }
  destruct (Z.eqb_spec (ret r2) INVALID_SOCKET_FD) as [Hr|Hr].
  { intros [= <- <-]. split; [done|]. split; [cbn; by rewrite Hw2, Ht|]. rewrite isSuccess_code. cbn. by rewrite Hr. }
  destruct (H2 Hr) as (k0 & Hf0 & _ & Ho & Hm & _). set (s3 := setFd (ret r2) f false _). intros E.
  assert (H3 : inMode false s3). { unfold inMode, isValid. cbn. split_and!; [by destruct (Z.eqb_spec (ret r2) INVALID_SOCKET_FD)|rewrite Ho; set_solver|done|done]. }
  assert (H4 : inMode false (if f =? AF_INET6 then (sys (SysSetOption (fd s3) (V6Only false)) s3).1 else s3)). { destruct (f =? AF_INET6); [|done]. by eapply inMode_quiet; [apply quiet_sys|]. }
  unfold succeeds in E. injection E as <- <-. split; [done|]. split; [destruct (f =? AF_INET6); cbn; rewrite ?sys_wrapper; cbn; by rewrite Hw2, Ht|]. change (isSuccess success) with true. cbn match. by eapply inMode_quiet; [apply quiet_setLast|].
Qed.

(** C34. connect with any timeout keeps the mode of the socket when fcntl works: a blocking
    socket is blocking again after the wait for the connection, whichever way it ended, a
    non-blocking one stays non-blocking, and a socket made on the way is blocking; the error
    returned is the one recorded, and after a success the socket is open. *)
Theorem connect_mode a t s s' e :
  fcntlWorks -> (if isValid (wrapper s) then inMode (nonBlocking_ (wrapper s)) s else nonBlocking_ (wrapper s) = false) -> connect a t s = (s', e) ->
  lastError_ (wrapper s') = e ∧
  (if isValid (wrapper s') then inMode (nonBlocking_ (wrapper s)) s' else isFailure e = true).
Proof.
  intros HW H. unfold connect, withSocket. destruct (isValid (wrapper s)) eqn:Ev.
  { intros E. pose proof (resolved_mode _ a t s HW H) as [Hm Hl]. rewrite E in Hm, Hl. cbn in Hm, Hl. split; [done|]. by rewrite (proj1 Hm). }
  rewrite H. unfold create. set (t0 := type_ (wrapper s)). assert (Hv1 : isValid (wrapper (setType t0 s)) = false) by done. destruct (resolveAddresses (ip a) (port a) t0 false AF_UNSPEC (setType t0 s)) as [s1 r] eqn:E1.
  assert (Hs1 : isValid (wrapper s1) = false). { pose proof (quiet_resolve (ip a) (port a) t0 false AF_UNSPEC (setType t0 s)) as (Hq & _). rewrite E1 in Hq. unfold isValid, fd in *. cbn in Hq, Hv1. cbn. by rewrite Hq. }
  destruct r as [e1|[|a1 l]].
  - change (isFailure e1) with (negb (isSuccess e1)). destruct (isSuccess e1) eqn:Ee.
    + exfalso. unfold resolveAddresses in E1. repeat case_match; simplify_eq.
    + cbn [negb]. intros [= <- <-]. split; [done|]. change (isValid (wrapper (setLast e1 s1))) with (isValid (wrapper s1)). rewrite Hs1. unfold isFailure. by rewrite Ee.
  - exfalso. unfold resolveAddresses in E1. repeat case_match; simplify_eq.
  - destruct (createNativeSocket (sa_family a1) s1) as [s2 e2] eqn:E2. apply createNativeSocket_spec in E2 as (Hl2 & _ & H2). unfold isFailure. destruct (isSuccess e2) eqn:Ee; cbn [negb].
    + intros E. pose proof (resolved_mode _ a t s2 HW H2) as [Hm Hl]. rewrite E in Hm, Hl. cbn in Hm, Hl. split; [done|]. by rewrite (proj1 Hm).
    + intros [= <- <-]. rewrite H2, Ee. done.
Qed.

(** ** Transfers report what the system moved *)

Lemma toInt_small z : - 2 ^ 31 <= z <= int_max -> toInt z = z.
Proof. intros H. unfold toInt, int_max in *. rewrite Z.mod_small; lia. Qed.

(** What a transfer of at most [n] bytes returns. *)
Definition bounded (n : Z) (s : Sock) (result : Z) : Prop := -1 <= result <= n ∧ result <= int_max ∧ isSuccess (lastError_ (wrapper s)) = (0 <=? result).

Lemma transfer_bounded c m n s s' result r :
  (∀ k, -1 <= ret (syscall k c).2 <= n) -> n <= int_max -> transfer c m s = (s', result, r) -> bounded n s' result ∧ result = ret r ∧ ∃ k, r = (syscall k c).2.
Proof.
  intros Hc Hn. unfold transfer. destruct (sys c s) as [s1 r1] eqn:E1. apply sys_law in E1 as [_ Hk]. intros [= <- <- <-].
  specialize (Hc (kernel s)). rewrite Hk in Hc. cbn in Hc. rewrite toInt_small by lia. split_and!; [|done|exists (kernel s); by rewrite Hk].
  split_and!; [lia..|]. cbn. by destruct (0 <=? ret r1).
Qed.

Lemma rejects_bounded n m s : 0 <= n -> bounded n (rejects m s) (-1).
Proof. intros Hn. unfold bounded, int_max. split_and!; [lia..|done]. Qed.

Lemma failed_bounded n e s : 0 <= n -> isSuccess e = false -> bounded n (setLast e s) (-1).
Proof. intros Hn He. unfold bounded, int_max. split_and!; [lia..|done]. Qed.

Lemma send_law k f d : -1 <= ret (syscall k (SysSend f d)).2 <= zlen d.
Proof. pose proof (call_law k (SysSend f d)) as H. destruct (syscall _ _). apply H. Qed.

Lemma sendTo_law k f d a : -1 <= ret (syscall k (SysSendTo f d a)).2 <= zlen d.
Proof. pose proof (call_law k (SysSendTo f d a)) as H. destruct (syscall _ _). apply H. Qed.

Lemma recv_law k f n : (0 <= n -> -1 <= ret (syscall k (SysRecv f n)).2 <= n) ∧ (0 <= ret (syscall k (SysRecv f n)).2 -> zlen (out (syscall k (SysRecv f n)).2) = ret (syscall k (SysRecv f n)).2).
Proof. pose proof (call_law k (SysRecv f n)) as H. destruct (syscall _ _). apply H. Qed.

Lemma recvFrom_law k f n : (0 <= n -> -1 <= ret (syscall k (SysRecvFrom f n)).2 <= n) ∧ (0 <= ret (syscall k (SysRecvFrom f n)).2 -> zlen (out (syscall k (SysRecvFrom f n)).2) = ret (syscall k (SysRecvFrom f n)).2).
Proof. pose proof (call_law k (SysRecvFrom f n)) as H. destruct (syscall _ _). apply H. Qed.

Lemma resolve_fails host port t passive hint s s' e : resolveAddresses host port t passive hint s = (s', inl e) -> isSuccess e = false.
Proof. unfold resolveAddresses. intros E. repeat case_match; by simplify_eq. Qed.

Lemma endpoint_fails a s s' e : endpointToText a s = (s', inl e) -> isSuccess e = false.
Proof. unfold endpointToText. intros E. repeat case_match; by simplify_eq. Qed.

Lemma representable n : isLengthRepresentable n = true -> n <= int_max.
Proof. unfold isLengthRepresentable. lia. Qed.

Lemma send_bounded d s : bounded (zlen d) (send d s).1 (send d s).2.
Proof.
  pose proof (zlen_nonneg d) as Hd. unfold send. destruct (isValid _); cbn [negb]; [|by apply rejects_bounded]. destruct (isLengthRepresentable _) eqn:El; cbn [negb]; [|by apply rejects_bounded].
  destruct (transfer _ _ _) as [[s' n] r] eqn:E. eapply transfer_bounded in E as [H _]; [exact H|intros; apply send_law|by apply representable].
Qed.

Lemma sendTo_bounded d a s : bounded (zlen d) (sendTo d a s).1 (sendTo d a s).2.
Proof.
  pose proof (zlen_nonneg d) as Hd. unfold sendTo. destruct (isValid _); cbn [negb]; [|by apply rejects_bounded]. destruct (isLengthRepresentable _) eqn:El; cbn [negb]; [|by apply rejects_bounded].
  destruct (_ =s UDP); cbn [negb]; [|by apply rejects_bounded]. destruct (resolveAddresses _ _ _ _ _ _) as [s1 [e|l]] eqn:E1.
  { apply failed_bounded; [done|]. by eapply resolve_fails. }
  destruct (matching _ _); [|by apply failed_bounded]. destruct (transfer _ _ _) as [[s' n] r] eqn:E. eapply transfer_bounded in E as [H _]; [exact H|intros; apply sendTo_law|by apply representable].
Qed.

(** C35. send and sendTo report between -1 and the number of bytes given, recv and recvFrom
    between -1 and the size of the buffer, always a value of an int, with a recorded success
    exactly when it is not negative; a receive that reports n stored n bytes, and recvFrom
    then knows the sender. *)
Theorem transfer_bounds s data a len :
  0 <= len ->
  bounded (zlen data) (send data s).1 (send data s).2 ∧ bounded (zlen data) (sendTo data a s).1 (sendTo data a s).2 ∧
  (∀ s' n buffer, recv len s = (s', n, buffer) -> bounded len s' n ∧ (0 <= n -> zlen buffer = n)) ∧
  (∀ s' n buffer from, recvFrom len s = (s', n, buffer, from) -> bounded len s' n ∧ (0 <= n -> zlen buffer = n ∧ is_Some from)).
Proof.
  intros Hlen. split_and!; [apply send_bounded|apply sendTo_bounded| |].
  - intros s' n buffer. unfold recv. destruct (isValid _); cbn [negb]; [|intros [= <- <- <-]; split; [by apply rejects_bounded|lia]].
    destruct (isLengthRepresentable _) eqn:El; cbn [negb]; [|intros [= <- <- <-]; split; [by apply rejects_bounded|lia]].
    destruct (transfer _ _ _) as [[s1 n1] r] eqn:E. eapply transfer_bounded in E as (H & Hr & k & Hk); [|intros; by apply recv_law|by apply representable].
    intros [= <- <- <-]. split; [exact H|]. rewrite Hr, Hk. apply recv_law.
  - intros s' n buffer from. unfold recvFrom. destruct (isValid _); cbn [negb]; [|intros [= <- <- <- <-]; split; [by apply rejects_bounded|lia]].
    destruct (isLengthRepresentable _) eqn:El; cbn [negb]; [|intros [= <- <- <- <-]; split; [by apply rejects_bounded|lia]].
    destruct (transfer _ _ _) as [[s1 n1] r] eqn:E. eapply transfer_bounded in E as (H & Hr & k & Hk); [|intros; by apply recvFrom_law|by apply representable].
    destruct (0 <=? n1) eqn:En; [|intros [= <- <- <- <-]; split; [done|lia]]. destruct (endpointToText _ _) as [s2 [e|f]] eqn:E2; intros [= <- <- <- <-].
    + split; [|lia]. apply failed_bounded; [done|]. by eapply endpoint_fails.
    + destruct H as (H1 & H2 & _). split; [split_and!; [lia..|by rewrite En]|]. intros Hn. split; [|done]. rewrite Hk. subst n1. rewrite Hk in Hn |- *. by apply recvFrom_law.
Qed.

End Wrapper.
Arguments Sock K : clear implicits.
Arguments Process K : clear implicits.

(** ** A concrete system *)

(** The descriptors with their modes, and what the next calls return: [ret], [errno] and
    the value stored; nothing left means success. *)
Record Sim := mkSim { simFds : gmap N bool; answers : list (Z * Z * Z); peer : option Sockaddr }.

Definition nextFd (k : Sim) : N := N.succ (foldr N.max 2%N (elements (dom (simFds k)))).
Definition localhost : Sockaddr := mkSockaddr AF_INET [x7f; x00; x00; x01] 5000.

Definition simCall (k : Sim) (c : Syscall) : Sim * Reply :=
  let '(r, e, v) := default (0, 0, 0) (head (answers k)) in
  let after fds := mkSim fds (tail (answers k)) (peer k) in
  let reply z := mkReply z e [] v (peer k) [peer k] in
  let make b := if r =? -1 then (after (simFds k), reply (-1)) else (after (<[nextFd k := b]> (simFds k)), reply (Z.of_N (nextFd k))) in
  match c with
  | SysSocket _ _ _ => make false
  | SysAccept _ b => make b
  | SysClose f => (mkSim (if 0 <=? f then delete (Z.to_N f) (simFds k) else simFds k) (answers k) (peer k), reply 0)
  | SysGetFl f => (k, mkReply (match (if 0 <=? f then simFds k !! Z.to_N f else None) with Some true => O_NONBLOCK | Some false => 0 | None => -1 end) 9 [] 0 None [])
  | SysSetFl f flags =>
      match (if 0 <=? f then simFds k !! Z.to_N f else None) with
      | Some _ => (mkSim (<[Z.to_N f := Z.testbit flags 11]> (simFds k)) (answers k) (peer k), mkReply 0 0 [] 0 None [])
      | None => (k, mkReply (-1) 9 [] 0 None [])
      end
  | SysSend _ d | SysSendTo _ d _ => (after (simFds k), reply (Z.max (-1) (Z.min r (zlen d))))
  | SysRecv _ n | SysRecvFrom _ n => let m := Z.max (-1) (Z.min r n) in (after (simFds k), mkReply m e (replicate (Z.to_nat m) x61) v (peer k) [])
  | _ => (after (simFds k), reply r)
  end.

#[export] Instance sim_posix : Posix Sim := {
  syscall := simCall;
  openFds k := set_map Z.of_N (dom (simFds k));
  mode k f := if 0 <=? f then default false (simFds k !! Z.to_N f) else false;
  inetPton family text := if text =s str "127.0.0.1" then Some [x7f; x00; x00; x01] else None;
  inetNtop family a := if a =s [x7f; x00; x00; x01] then inr (str "127.0.0.1") else inl 97;
  gaiStrerror e := str "Name or service not known"
}.

Lemma nextFd_fresh k : simFds k !! nextFd k = None.
Proof.
  destruct (simFds k !! nextFd k) eqn:E; [|done]. exfalso. unfold nextFd in E. assert (Hin : N.succ (foldr N.max 2%N (elements (dom (simFds k)))) ∈ elements (dom (simFds k))) by (rewrite elem_of_elements; by apply elem_of_dom_2 in E).
  assert (H : ∀ l x, x ∈ l -> (x <= foldr N.max 2 l)%N). { clear. induction l as [|y l IH]; intros x Hx; [by apply not_elem_of_nil in Hx|]. apply elem_of_cons in Hx as [->|Hx]; cbn; [lia|]. specialize (IH _ Hx). lia. }
  apply H in Hin. lia.
Qed.

Lemma sim_open k f : f ∈ openFds k <-> 0 <= f ∧ is_Some (simFds k !! Z.to_N f).
Proof.
  cbn. rewrite elem_of_map. split.
  - intros (n & -> & Hn). rewrite N2Z.id. apply elem_of_dom in Hn. split; [lia|done].
  - intros [Hf Hs]. exists (Z.to_N f). rewrite elem_of_dom. split; [lia|done].
Qed.

Lemma sim_makes k b a p : makes k (mkSim (<[nextFd k := b]> (simFds k)) a p) (Z.of_N (nextFd k)) b.
Proof.
  pose proof (nextFd_fresh k) as Hn. split_and!; [lia| | | |].
  - rewrite sim_open, N2Z.id, Hn. intros [_ [? ?]]. done.
  - cbn. rewrite dom_insert_L, set_map_union_L, set_map_singleton_L. done.
  - cbn. destruct (Z.leb_spec 0 (Z.of_N (nextFd k))); [|lia]. by rewrite N2Z.id, lookup_insert_eq.
  - intros f Hf. cbn. destruct (Z.leb_spec 0 f); [|done]. rewrite lookup_insert_ne; [done|]. lia.
Qed.

Lemma sim_closes k f a p : 0 <= f -> let k' := mkSim (delete (Z.to_N f) (simFds k)) a p in
  openFds k' = openFds k ∖ {[f]} ∧ ∀ f', f' ≠ f -> mode k' f' = mode k f'.
Proof.
  intros Hf k'. split.
  - apply set_eq. intros g. rewrite elem_of_difference, !sim_open, elem_of_singleton. cbn. destruct (decide (g = f)) as [->|Hne].
    + rewrite lookup_delete_eq. split; [intros [_ [? ?]]; done|tauto].
    + split; [intros [Hg Hs]|intros [[Hg Hs] _]]; (rewrite lookup_delete_ne in * by lia); tauto.
  - intros g Hne. cbn. destruct (Z.leb_spec 0 g); [|done]. by rewrite lookup_delete_ne by lia.
Qed.

Lemma sim_setMode k f b0 b a p : 0 <= f -> simFds k !! Z.to_N f = Some b0 -> let k' := mkSim (<[Z.to_N f := b]> (simFds k)) a p in
  openFds k' = openFds k ∧ mode k' f = b ∧ ∀ f', f' ≠ f -> mode k' f' = mode k f'.
Proof.
  intros Hf Hs k'. split_and!.
  - cbn. rewrite dom_insert_lookup_L; [done|eauto].
  - cbn. destruct (Z.leb_spec 0 f); [|lia]. by rewrite lookup_insert_eq.
  - intros g Hne. cbn. destruct (Z.leb_spec 0 g); [|done]. by rewrite lookup_insert_ne by lia.
Qed.

(** Replies that change nothing. *)
Lemma sim_keeps k a p : keeps k (mkSim (simFds k) a p).
Proof. done. Qed.

#[export] Instance sim_laws : PosixLaws Sim.
Proof.
  split; [intros k f Hf; by apply sim_open in Hf as [? _]|]. intros k c. cbn [syscall sim_posix]. unfold simCall.
  destruct (default (0, 0, 0) (head (answers k))) as [[r e] v]. destruct c; cbn beta zeta match; try exact (sim_keeps k _ _).
  1,3: destruct (r =? -1); cbn [ret]; [done|]; destruct (Z.eqb_spec (Z.of_N (nextFd k)) INVALID_SOCKET_FD) as [Hx|_]; [unfold INVALID_SOCKET_FD in Hx; lia|]; apply sim_makes.
  1: destruct (Z.leb_spec 0 fd0); [by apply sim_closes|]; split; [|done]; apply set_eq; intros g; rewrite elem_of_difference, !sim_open, elem_of_singleton; split; [intros [? ?]; split; [done|lia]|tauto].
  1,3: split; [apply sim_keeps|]; cbn [ret]; pose proof (zlen_nonneg data); lia.
  1,2: split_and!; [apply sim_keeps|intros Hl; cbn [ret]; lia|]; cbn [ret out]; intros Hn; unfold zlen; rewrite length_replicate; lia.
  - split; [done|]. cbn. destruct (0 <=? fd0); [|done]. destruct (simFds k !! Z.to_N fd0) as [[]|]; done.
  - destruct (Z.leb_spec 0 fd0) as [H0|H0]; [|done]. destruct (simFds k !! Z.to_N fd0) as [b|] eqn:Eb; [|done]. exact (sim_setMode k fd0 b _ _ _ H0 Eb).
Qed.

Lemma sim_fcntl : fcntlWorks (K := Sim).
Proof.
  intros k f Hf. apply sim_open in Hf as [H0 [b Hb]]. cbn. unfold simCall. destruct (default (0, 0, 0) (head (answers k))) as [[r e] v]. cbn.
  destruct (Z.leb_spec 0 f); [|lia]. rewrite Hb. split; [by destruct b|done].
Qed.

(** ** Examples *)

(** Descriptors 0 to 2 belong to others. *)
Definition standard (a : list (Z * Z * Z)) : Sim := mkSim (list_to_map [(0%N, false); (1%N, false); (2%N, false)]) a (Some localhost).

(** A server that accepts a client, keeps it in a wrapper, moves it and ends. *)
Definition serverRun : list Act :=
  [Construct 0; Invoke 0 (CBind (mkAddress (str "127.0.0.1") 5000)); Invoke 0 (CListen 128); Invoke 0 CAccept; Adopt 1 4; Construct 2; MoveAssign 2 1; Invoke 2 (CSetNonBlocking true)].

Lemma sockets_owned_witness :
  openFds (system (run serverRun (mkProcess ∅ ∅ (standard []) 0))) = {[0; 1; 2; 3; 4]} ∧
  let p := run serverRun (mkProcess ∅ ∅ (standard []) 0) in
  openFds (system p) = openFds (standard []) ∪ held p ∪ fdsOf (wrappers p) ∧ openFds (standard []) ## held p ∧ openFds (standard []) ∪ held p ## fdsOf (wrappers p) ∧
  (∀ i j w w', i ≠ j -> wrappers p !! i = Some w -> wrappers p !! j = Some w' -> isValid w = true -> isValid w' = true -> fd_ w ≠ fd_ w') ∧
  (∀ i w, wrappers p !! i = Some w -> isValid w = true -> fd_ w ∈ openFds (system p) ∧ (nonBlocking_ w = true -> mode (system p) (fd_ w) = true)) ∧
  (wrappers p = ∅ -> held p = ∅ -> openFds (system p) = openFds (standard [])).
Proof. split; [by vm_compute|]. exact (sockets_owned serverRun (standard []) 0). Defined.

(** A connection that takes its time: in progress, then writable, without error. *)
Definition slow : Sim := standard [(0, 0, 0); (-1, EINPROGRESS, 0); (1, 0, 0); (0, 0, 0)].
Definition slowClient : Sock Sim := mkSock newWrapper slow 0.
Definition server : Address := mkAddress (str "127.0.0.1") 5000.

Lemma connect_mode_witness :
  isValid (wrapper (connect server 100 slowClient).1) = true ∧
  lastError_ (wrapper (connect server 100 slowClient).1) = (connect server 100 slowClient).2 ∧
  (if isValid (wrapper (connect server 100 slowClient).1) then inMode (nonBlocking_ (wrapper slowClient)) (connect server 100 slowClient).1 else isFailure (connect server 100 slowClient).2 = true).
Proof. split; [by vm_compute|]. refine (connect_mode server 100 slowClient _ _ sim_fcntl _ _); [by vm_compute|apply surjective_pairing]. Defined.

(** A datagram of four bytes is received. *)
Definition receiver : Sock Sim := (createPlain UDP (mkSock newWrapper (standard [(0, 0, 0); (4, 0, 0)]) 0)).1.

Lemma transfer_bounds_witness :
  (recvFrom 10 receiver).1.1.2 = 4 ∧
  bounded (zlen (str "abc")) (send (str "abc") receiver).1 (send (str "abc") receiver).2 ∧ bounded (zlen (str "abc")) (sendTo (str "abc") server receiver).1 (sendTo (str "abc") server receiver).2 ∧
  (∀ s' n buffer, recv 10 receiver = (s', n, buffer) -> bounded 10 s' n ∧ (0 <= n -> zlen buffer = n)) ∧
  (∀ s' n buffer from, recvFrom 10 receiver = (s', n, buffer, from) -> bounded 10 s' n ∧ (0 <= n -> zlen buffer = n ∧ is_Some from)).
Proof. split; [by vm_compute|]. refine (transfer_bounds receiver (str "abc") server 10 _). lia. Defined.

(** An accepted descriptor is non-blocking; the wrapper made for it records a blocking one,
    and so [connect] and [isNonBlocking] treat it. *)
Example accepted_mode :
  let p := run [Construct 0; Invoke 0 (CBind server); Invoke 0 CAccept; Adopt 1 4] (mkProcess ∅ ∅ (standard []) 0) in
  (nonBlocking_ <$> wrappers p !! 1%nat) = Some false ∧ mode (system p) 4 = true.
Proof. by vm_compute. Qed.

(** The system names no sender for a stream: [recvFrom] takes the bytes and reports a failure. *)
Example stream_bytes_lost :
  let s := (createPlain TCP (mkSock newWrapper (mkSim ∅ [(0, 0, 0); (4, 0, 0)] None) 0)).1 in
  let '(s', n, buffer, from) := recvFrom 10 s in n = -1 ∧ zlen buffer = 4 ∧ lastError_ (wrapper s') = mkError SocketError (str "Unsupported socket address family") 0.
Proof. by vm_compute. Qed.

(** A refused connection: the socket is open and blocking again. *)
Example refused :
  let '(s, e) := connect server 100 (mkSock newWrapper (standard [(0, 0, 0); (-1, EINPROGRESS, 0); (1, 0, 0); (0, 0, 111)]) 0) in
  e = mkError ConnectionError (str "Connection failed") 111 ∧ fd s = 3 ∧ mode (kernel s) 3 = false.
Proof. by vm_compute. Qed.
