(* ===== verification/UdpSocket.v ===== *)
(** * The UDP socket (src/UdpSocket.cpp)

    [UdpSocket::Impl] on top of the socket wrapper and of the poller's registrations.  The
    application's callbacks may call the socket again; a callback is a function on the
    state that the operations take as an argument. *)

From S2P Require Import Prelude HttpParser Address ClientTransport SessionTypes SocketWrapper.

Definition EAGAIN : Z := 11.

Definition isWouldBlockError (errorCode : Z) : bool := errorCode =? EAGAIN.

(** The poller as the socket uses it. *)
Class Registry (R : Type) := {
  add : R -> Z -> R * bool;
  remove : R -> Z -> R;
  registered : R -> gset Z
}.

Class RegistryLaws (R : Type) {registry : Registry R} : Prop := {
  add_law r f : registered (add r f).1 = if (add r f).2 then {[f]} ∪ registered r else registered r;
  remove_law r f : registered (remove r f) = registered r ∖ {[f]}
}.

Inductive Event := DataReceived (from : Address) (packet : list byte) | ErrorReported (code : ErrorCode) (message : list byte).

Section Udp.
Context {K R : Type} {posix : Posix K} {registry : Registry R}.

(** [strerror]. *)
Context (strerror : Z -> list byte).

Record Impl := mkImpl {
  socket_ : Sock K;
  poller : R;
  bound_ : bool;
  receiving_ : bool;
  localAddress_ : Address;
  recvBufferSize_ : Z;
  sendBufferSize_ : Z;
  scratchSize : Z;                  (** [receiveScratch_.size()] *)
  broadcastEnabled_ : bool;
  hasDataCallback : bool;
  hasErrorCallback : bool;
  events : list Event               (** the callbacks made *)
}.

Definition setSocket (k : Sock K) (s : Impl) : Impl := mkImpl k (poller s) (bound_ s) (receiving_ s) (localAddress_ s) (recvBufferSize_ s) (sendBufferSize_ s) (scratchSize s) (broadcastEnabled_ s) (hasDataCallback s) (hasErrorCallback s) (events s).
Definition setPoller (p : R) (s : Impl) : Impl := mkImpl (socket_ s) p (bound_ s) (receiving_ s) (localAddress_ s) (recvBufferSize_ s) (sendBufferSize_ s) (scratchSize s) (broadcastEnabled_ s) (hasDataCallback s) (hasErrorCallback s) (events s).
Definition setReceiving (b : bool) (s : Impl) : Impl := mkImpl (socket_ s) (poller s) (bound_ s) b (localAddress_ s) (recvBufferSize_ s) (sendBufferSize_ s) (scratchSize s) (broadcastEnabled_ s) (hasDataCallback s) (hasErrorCallback s) (events s).
Definition setBound (a : Address) (s : Impl) : Impl := mkImpl (socket_ s) (poller s) true (receiving_ s) a (recvBufferSize_ s) (sendBufferSize_ s) (scratchSize s) (broadcastEnabled_ s) (hasDataCallback s) (hasErrorCallback s) (events s).
Definition setSizes (r n scratch : Z) (s : Impl) : Impl := mkImpl (socket_ s) (poller s) (bound_ s) (receiving_ s) (localAddress_ s) r n scratch (broadcastEnabled_ s) (hasDataCallback s) (hasErrorCallback s) (events s).
Definition setFlags (broadcast data error : bool) (s : Impl) : Impl := mkImpl (socket_ s) (poller s) (bound_ s) (receiving_ s) (localAddress_ s) (recvBufferSize_ s) (sendBufferSize_ s) (scratchSize s) broadcast data error (events s).
Definition record (e : Event) (s : Impl) : Impl := mkImpl (socket_ s) (poller s) (bound_ s) (receiving_ s) (localAddress_ s) (recvBufferSize_ s) (sendBufferSize_ s) (scratchSize s) (broadcastEnabled_ s) (hasDataCallback s) (hasErrorCallback s) (events s ++ [e]).

(** [Impl(ioService)]. *)
Definition newImpl (k : K) (e : Z) (p : R) : Impl := mkImpl (mkSock newWrapper k e) p false false (mkAddress [] 0) 65536 65536 65536 false false false [].

Section Operations.
Context (callback : Event -> Impl -> Impl).

Definition notifyError (code : ErrorCode) (message : list byte) (s : Impl) : Impl := if hasErrorCallback s then callback (ErrorReported code message) s else s.
Definition notify (e : Error) : Impl -> Impl := notifyError (code_ e) (message_ e).
Definition closeSocket (s : Impl) : Impl := setSocket (SocketWrapper.close (socket_ s)) s.

Definition bindOption (s : Impl) : SocketOption := mkOption true false true true 0 0 0 0 (broadcastEnabled_ s).

(** The calls between the creation of the socket and the end of [bind]. *)
Definition bindSteps (a : Address) : list (Impl -> Sock K -> Sock K * Error) :=
  [ fun s => setOption (bindOption s);
    fun _ => SocketWrapper.bind a;
    fun _ => setNonBlocking true;
    fun s => setRecvBufferSize (toInt (recvBufferSize_ s));
    fun s => setSendBufferSize (toInt (sendBufferSize_ s)) ].

Definition finishBind (a : Address) (s : Impl) : Impl * bool :=
  let '(k, r) := getLocalAddress (socket_ s) in
  (setBound (match r with inr found => found | inl _ => a end) (setSocket k s), true).

Fixpoint attempt (a : Address) (steps : list (Impl -> Sock K -> Sock K * Error)) (s : Impl) : Impl * bool :=
  match steps with
  | [] => finishBind a s
  | step :: steps =>
      let '(k, e) := step s (socket_ s) in
      if isFailure e then (closeSocket (notify e (setSocket k s)), false) else attempt a steps (setSocket k s)
  end.

Definition bind (a : Address) (s : Impl) : Impl * bool :=
  if bound_ s then (s, false)
  else
    let '(k, e) := create UDP (ip a) (port a) true (socket_ s) in
    if isFailure e then (notify e (setSocket k s), false) else attempt a (bindSteps a) (setSocket k s).

Definition sendTo (destination : Address) (data : list byte) (s : Impl) : Impl * bool :=
  if negb (bound_ s) then (notifyError InvalidArgument (str "UDP socket is not bound") s, false)
  else
    let '(k, sent) := SocketWrapper.sendTo data destination (socket_ s) in
    let s := setSocket k s in
    if sent <? 0 then
      ((if negb (isWouldBlockError (errno k)) then notifyError SocketError (str "UDP send failed: " ++ strerror (errno k)) s else s), false)
    else (s, sent =? zlen data).

Definition startReceive (s : Impl) : Impl * bool :=
  if negb (bound_ s) then (s, false)
  else if receiving_ s then (s, false)
  else
    let s := setReceiving true s in
    let '(p, ok) := add (poller s) (fd (socket_ s)) in
    let s := setPoller p s in
    if negb ok then (notifyError SocketError (str "Failed to register UDP socket with the event poller") (setReceiving false s), false) else (s, true).

Definition stopReceive (s : Impl) : Impl :=
  if negb (receiving_ s) then s
  else let s := setReceiving false s in if bound_ s then setPoller (remove (poller s) (fd (socket_ s))) s else s.

(** A setting stored, and applied to a bound socket. *)
Definition apply (set : Sock K -> Sock K * Error) (s : Impl) : Impl :=
  if bound_ s then let '(k, e) := set (socket_ s) in let s := setSocket k s in if isFailure e then notify e s else s else s.

Definition setReceiveBufferSize (size : Z) (s : Impl) : Impl :=
  let normalizedSize := Z.max size 1 in
  apply (setRecvBufferSize (toInt normalizedSize)) (setSizes normalizedSize (sendBufferSize_ s) (scratchSize s) s).
Definition setSendBufferSize (size : Z) (s : Impl) : Impl :=
  let normalizedSize := Z.max size 1 in
  apply (SocketWrapper.setSendBufferSize (toInt normalizedSize)) (setSizes (recvBufferSize_ s) normalizedSize (scratchSize s) s).
Definition setBroadcast (enable : bool) (s : Impl) : Impl :=
  apply (SocketWrapper.setBroadcast enable) (setFlags enable (hasDataCallback s) (hasErrorCallback s) s).
Definition setCallbacks (data error : bool) (s : Impl) : Impl := setFlags (broadcastEnabled_ s) data error s.

(** The loop of [drainReceiveQueue]; the flag is false where the fuel does not suffice. *)
Fixpoint drainLoop (fuel : nat) (bufferSize : Z) (s : Impl) : Impl * bool :=
  if negb (receiving_ s) then (s, true)
  else match fuel with
  | O => (s, false)
  | S fuel =>
      let '(k, received, buffer, from) := recvFrom bufferSize (socket_ s) in
      let s := setSocket k s in
      if 0 <=? received then
        let s := if hasDataCallback s then callback (DataReceived (default (mkAddress [] 0) from) (take (Z.to_nat received) buffer)) s else s in
        drainLoop fuel bufferSize s
      else if isWouldBlockError (errno k) then (s, true)
      else (notifyError SocketError (str "UDP receive failed: " ++ strerror (errno k)) s, true)
  end.

Definition drainReceiveQueue (fuel : nat) (s : Impl) : Impl * bool :=
  let bufferSize := recvBufferSize_ s in
  drainLoop fuel bufferSize (setSizes (recvBufferSize_ s) (sendBufferSize_ s) (Z.max (scratchSize s) bufferSize) s).

Definition handlePollEvents (fuel : nat) (read error close : bool) (s : Impl) : Impl * bool :=
  if negb (receiving_ s) then (s, true)
  else
    let '(s, finished) := if read then drainReceiveQueue fuel s else (s, true) in
    if negb finished then (s, false)
    else (if error || close then notifyError SocketError (str "UDP socket reported an error") s else s, true).

(** [~Impl]. *)
Definition destroy (s : Impl) : Impl := closeSocket (stopReceive s).

End Operations.

(** ** The application *)

Inductive Op :=
| OBind (a : Address) | OSendTo (a : Address) (data : list byte) | OStartReceive | OStopReceive
| OSetReceiveBufferSize (size : Z) | OSetSendBufferSize (size : Z) | OSetBroadcast (enable : bool) | OSetCallbacks (data error : bool).

Definition call (callback : Event -> Impl -> Impl) (o : Op) (s : Impl) : Impl :=
  match o with
  | OBind a => (bind callback a s).1
  | OSendTo a data => (sendTo callback a data s).1
  | OStartReceive => (startReceive callback s).1
  | OStopReceive => stopReceive s
  | OSetReceiveBufferSize n => setReceiveBufferSize callback n s
  | OSetSendBufferSize n => setSendBufferSize callback n s
  | OSetBroadcast b => setBroadcast callback b s
  | OSetCallbacks d e => setCallbacks d e s
  end.

(** A callback does what [react] says; callbacks inside callbacks nest [depth] deep. *)
Fixpoint callbackAt (react : Event -> list Op) (depth : nat) (e : Event) (s : Impl) : Impl :=
  match depth with
  | O => record e s
  | S depth => foldl (fun s o => call (callbackAt react depth) o s) (record e s) (react e)
  end.

Inductive Stimulus := SCall (o : Op) | SPoll (fuel : nat) (read error close : bool).

Definition stimulate (callback : Event -> Impl -> Impl) (x : Stimulus) (s : Impl) : Impl :=
  match x with SCall o => call callback o s | SPoll fuel read error close => (handlePollEvents callback fuel read error close s).1 end.

Definition run (callback : Event -> Impl -> Impl) (l : list Stimulus) (s : Impl) : Impl := foldl (fun s x => stimulate callback x s) s l.

(** ** The invariant *)

Context {laws : PosixLaws K} {registryLaws : RegistryLaws R}.

(** Bound or not, with the descriptor [f]: what is registered is open, the socket is
    registered exactly while it receives, and a bound socket is an open non-blocking UDP one. *)
Definition core (b : bool) (f : Z) (s : Impl) : Prop :=
  bound_ s = b ∧ fd (socket_ s) = f ∧ sound (wrapper (socket_ s)) (kernel (socket_ s)) ∧ (f = INVALID_SOCKET_FD ∨ f ∈ openFds (kernel (socket_ s))) ∧
  registered (poller s) ⊆ openFds (kernel (socket_ s)) ∧ (receiving_ s = true -> b = true) ∧ (f ∈ registered (poller s) <-> receiving_ s = true) ∧
  (b = true -> inMode true (socket_ s) ∧ type_ (wrapper (socket_ s)) = UDP).

(** Steps that leave socket, poller and both flags alone. *)
Definition settled (s s' : Impl) : Prop :=
  socket_ s' = socket_ s ∧ poller s' = poller s ∧ bound_ s' = bound_ s ∧ receiving_ s' = receiving_ s.

Lemma core_settled b f s s' : settled s s' -> core b f s -> core b f s'.
Proof. intros (Hs & Hp & Hb & Hr) H. unfold core. by rewrite Hs, Hp, Hb, Hr. Qed.

Lemma sound_quiet (k k' : Sock K) : quiet k k' -> sound (wrapper k) (kernel k) -> sound (wrapper k') (kernel k').
Proof. intros (Hf & Hn & _ & _ & Hm) [Hfd Hnb]. unfold fd in Hf. unfold sound, isValid. rewrite Hf, Hn, Hm. done. Qed.

Lemma core_quiet b f s k : quiet (socket_ s) k -> core b f s -> core b f (setSocket k s).
Proof.
  intros Hq (Hb & Hf & Hs & Ho & Hr & Hrb & Hreg & Hm). pose proof Hq as (Hqf & Hqn & Hqt & Hqo & Hqm). unfold core. cbn. rewrite Hqo, Hqt, Hqf.
  split_and!; [done|done|by eapply sound_quiet|done|done|done|done|]. intros H. destruct (Hm H) as [Hi Ht]. split; [by eapply inMode_quiet|done].
Qed.

(** Callbacks that keep an unbound socket unbound. *)
Definition respects (callback : Event -> Impl -> Impl) : Prop :=
  (∀ b f code message s, core b f s -> core b f (callback (ErrorReported code message) s)) ∧
  ∀ f from packet s, core true f s -> core true f (callback (DataReceived from packet) s).

Lemma core_stopReceive b f s : core b f s -> core b f (stopReceive s).
Proof.
  intros H. unfold stopReceive. destruct (receiving_ s) eqn:Er; cbn [negb]; [|done]. pose proof H as (Hb & Hf & Hs & Ho & Hr & Hrb & Hreg & Hm). rewrite (Hrb Er) in *.
  cbn. rewrite Hb. unfold core. cbn. rewrite remove_law, Hf. split_and!; [done|done|done|done|set_solver|done|split; [set_solver|done]|done].
Qed.

Section Preserved.
Context (callback : Event -> Impl -> Impl) (Hcb : respects callback).

Lemma core_notifyError b f code m s : core b f s -> core b f (notifyError callback code m s).
Proof. intros H. unfold notifyError. destruct (hasErrorCallback s); [by apply Hcb|done]. Qed.

Lemma core_sendTo b f a d s : core b f s -> core b f (sendTo callback a d s).1.
Proof.
  intros H. unfold sendTo. destruct (bound_ s); cbn [negb]; [|by apply core_notifyError]. pose proof (quiet_sendTo d a (socket_ s)) as Hq. destruct (SocketWrapper.sendTo d a (socket_ s)) as [k n].
  apply (core_quiet b f s) in Hq; [|done]. cbn [fst] in Hq. destruct (n <? 0); [|done]. destruct (isWouldBlockError _); [done|by apply core_notifyError].
Qed.

Lemma core_startReceive b f s : core b f s -> core b f (startReceive callback s).1.
Proof.
  intros H. unfold startReceive. pose proof H as (Hb & Hf & Hs & Ho & Hr & Hrb & Hreg & Hm). rewrite Hb. destruct b; cbn [negb]; [|done]. destruct (receiving_ s) eqn:Er; [done|].
  destruct (Hm eq_refl) as [(Hv & Hin & Hn & Hmd) Ht]. pose proof (add_law (poller s) f) as Ha. cbn. rewrite Hf. destruct (add (poller s) f) as [p ok]. cbn in Ha. destruct ok; cbn [negb fst].
  - unfold core. cbn. rewrite Ha. rewrite Hf in Hin. split_and!; [done|done|done|done|set_solver|done|split; [done|set_solver]|done].
  - apply core_notifyError. unfold core. cbn. rewrite Ha. rewrite <- Er. done.
Qed.

Lemma core_apply b f set s : (∀ k, quiet k (set k).1) -> core b f s -> core b f (apply callback set s).
Proof.
  intros Hq H. unfold apply. destruct (bound_ s); [|done]. specialize (Hq (socket_ s)). destruct (set (socket_ s)) as [k e]. apply (core_quiet b f s) in Hq; [|done]. cbn [fst] in Hq.
  destruct (isFailure e); [by apply core_notifyError|done].
Qed.

Lemma core_settings b f o s : core b f s -> match o with OSetReceiveBufferSize _ | OSetSendBufferSize _ | OSetBroadcast _ | OSetCallbacks _ _ => core b f (call callback o s) | _ => True end.
Proof.
  intros H. destruct o; try done; cbn [call];
    first [by apply (core_settled b f s) | apply core_apply; [|by apply (core_settled b f s)]];
    first [intros k; apply quiet_whenValid; intros; apply quiet_setsockopt | intros k; apply quiet_setBroadcast].
Qed.

Lemma core_drain f fuel size s : core true f s -> core true f (drainLoop callback fuel size s).1.
Proof.
  revert s; induction fuel as [|fuel IH]; intros s H; cbn [drainLoop]; destruct (receiving_ s); cbn [negb]; [done..| |done].
  pose proof (quiet_recvFrom size (socket_ s)) as Hq. destruct (recvFrom size (socket_ s)) as [[[k n] buffer] from]. apply (core_quiet true f s) in Hq; [|done]. cbn [fst] in Hq.
  destruct (0 <=? n); [apply IH; destruct (hasDataCallback _); [by apply Hcb|done]|]. destruct (isWouldBlockError _); [done|by apply core_notifyError].
Qed.

Lemma core_poll b f fuel read error close s : core b f s -> core b f (handlePollEvents callback fuel read error close s).1.
Proof.
  intros H. unfold handlePollEvents. destruct (receiving_ s) eqn:Er; cbn [negb]; [|done]. assert (b = true) as -> by (destruct H as (_ & _ & _ & _ & _ & Hb & _); auto).
  assert (H1 : core true f (if read then drainReceiveQueue callback fuel s else (s, true)).1). { destruct read; [|done]. apply core_drain. by apply (core_settled true f s). }
  destruct (if read then _ else _) as [s1 fin]. cbn [fst] in H1. destruct fin; cbn [negb]; [|done]. destruct (error || close); [by apply core_notifyError|done].
Qed.

(** ** Binding *)

(** A socket of [bind] in progress, made non-blocking or not yet. *)
Definition binding (nonBlocking : bool) (f : Z) (s : Impl) : Prop :=
  core false f s ∧ isValid (wrapper (socket_ s)) = true ∧ type_ (wrapper (socket_ s)) = UDP ∧ (nonBlocking = true -> inMode true (socket_ s)).

Lemma binding_quiet nb f s k : quiet (socket_ s) k -> binding nb f s -> binding nb f (setSocket k s).
Proof.
  intros Hq (Hc & Hv & Ht & Hm). pose proof Hq as (Hf & _ & Hqt & _). split_and!; [by apply core_quiet| |cbn; by rewrite Hqt|intros H; eapply inMode_quiet; [exact Hq|auto]].
  cbn. unfold isValid in *. unfold fd in Hf. by rewrite Hf.
Qed.

Lemma core_closed f s : core false f s -> core false INVALID_SOCKET_FD (closeSocket s).
Proof.
  intros (Hb & Hf & Hs & Ho & Hr & Hrb & Hreg & _). assert (Er : receiving_ s = false) by (destruct (receiving_ s); [by discriminate Hrb|done]).
  assert (Hopen : openFds (kernel (close (socket_ s))) = openFds (kernel (socket_ s)) ∖ own (socket_ s)).
  { destruct Ho as [Ho|Ho].
    - assert (H0 : own (socket_ s) = ∅) by (apply own_invalid; congruence).
      destruct (close_acts (socket_ s) Hs (openFds (kernel (socket_ s))) ltac:(rewrite H0; set_solver) ltac:(rewrite H0; set_solver)) as (_ & H & _). rewrite H0, H, (own_invalid (close (socket_ s))) by done. set_solver.
    - assert (Hv : isValid (wrapper (socket_ s)) = true). { apply open_law in Ho. unfold isValid. rewrite <- Hf in Ho. unfold fd, INVALID_SOCKET_FD in *. by destruct (Z.eqb_spec (fd_ (wrapper (socket_ s))) (-1)); [lia|]. }
      assert (H0 : own (socket_ s) = {[f]}) by (rewrite (own_valid _ Hv); by rewrite Hf).
      destruct (close_acts (socket_ s) Hs (openFds (kernel (socket_ s)) ∖ {[f]}) ltac:(rewrite H0, difference_union_L; set_solver) ltac:(rewrite H0; set_solver)) as (_ & H & _).
      rewrite H0, H, (own_invalid (close (socket_ s))) by done. set_solver. }
  assert (Hown : own (socket_ s) ⊆ {[f]}). { unfold own, ownBy. destruct (isValid _); [|set_solver]. unfold fd in Hf. rewrite Hf. done. }
  assert (Hsub : registered (poller s) ⊆ openFds (kernel (close (socket_ s)))). { rewrite Hopen. rewrite Er in Hreg. intros x Hx. apply elem_of_difference. split; [by apply Hr|]. intros Hx'. apply Hown, elem_of_singleton in Hx'. subst x. by apply Hreg in Hx. }
  unfold core. cbn. split_and!; [done|done|by split; [left|]|by left|exact Hsub|done| |done]. rewrite Er. split; [|done]. intros Hx. apply Hsub, open_law in Hx. unfold INVALID_SOCKET_FD in Hx. lia.
Qed.

(** [bind] ends with a bound socket, or without any. *)
Definition boundOrClosed (r : Impl * bool) : Prop := if r.2 then ∃ f, core true f r.1 else core false INVALID_SOCKET_FD r.1.

Lemma attempt_step nb nb' f a step steps s :
  (let '(k, e) := step s (socket_ s) in if isFailure e then core false f (setSocket k s) else binding nb' f (setSocket k s)) ->
  (∀ s', binding nb' f s' -> boundOrClosed (attempt callback a steps s')) -> binding nb f s -> boundOrClosed (attempt callback a (step :: steps) s).
Proof.
  intros Hstep Hnext H. cbn [attempt]. destruct (step s (socket_ s)) as [k e]. destruct (isFailure e); [|by apply Hnext].
  unfold boundOrClosed. cbn [fst snd]. eapply core_closed, core_notifyError, Hstep.
Qed.

Lemma attempt_quiet nb f a step steps s : (∀ s, isValid (wrapper (socket_ s)) = true -> quiet (socket_ s) (step s (socket_ s)).1) ->
  (∀ s', binding nb f s' -> boundOrClosed (attempt callback a steps s')) -> binding nb f s -> boundOrClosed (attempt callback a (step :: steps) s).
Proof.
  intros Hq Hnext H. apply (attempt_step nb nb f); [|done|done]. specialize (Hq s (proj1 (proj2 H))). destruct (step s (socket_ s)) as [k e]. cbn [fst] in Hq.
  destruct (isFailure e); [apply core_quiet; [done|apply H]|by apply binding_quiet].
Qed.

Lemma bind_quiet a (k : Sock K) : isValid (wrapper k) = true -> quiet k (SocketWrapper.bind a k).1.
Proof.
  intros Hv. unfold SocketWrapper.bind, withSocket. rewrite Hv. pose proof (quiet_resolve (ip a) (port a) (type_ (wrapper k)) true (family_ (wrapper k)) k) as Hq.
  destruct (resolveAddresses _ _ _ _ _ _) as [k1 [e|l]]; cbn [fst] in *; (etrans; [exact Hq|]); [apply quiet_setLast|apply quiet_bindLoop].
Qed.

Lemma binding_nonBlocking f s : binding false f s ->
  let '(k, e) := setNonBlocking true (socket_ s) in if isFailure e then core false f (setSocket k s) else binding true f (setSocket k s).
Proof.
  intros ((Hb & Hf & Hs & Ho & Hr & Hrb & Hreg & _) & Hv & Ht & _). destruct (setNonBlocking true (socket_ s)) as [k e] eqn:E. apply setNonBlocking_spec in E as (_ & Hkf & _ & Hkt & Hko & _ & He).
  assert (Hc : sound (wrapper k) (kernel k) -> core false f (setSocket k s)). { intros Hk. unfold core. cbn. rewrite Hko, Hkf. by split_and!. }
  pose proof Hs as [Hfd Hnb]. unfold fd in Hkf. assert (Hkv : isValid (wrapper k) = isValid (wrapper (socket_ s))) by (unfold isValid; by rewrite Hkf).
  unfold isFailure. destruct (isSuccess e); cbn [negb].
  - destruct He as (_ & Hn & Hm). split_and!; [|cbn; by rewrite Hkv|cbn; by rewrite Hkt|].
    + apply Hc. split; [by rewrite Hkf|]. intros _. rewrite Hkv, Hkf. done.
    + intros _. unfold inMode. cbn. unfold fd in *. rewrite Hkv, Hkf, Hko. split_and!; [done| |done|done]. destruct Ho as [Ho|Ho]; [|by rewrite Hf]. unfold isValid in Hv. rewrite Hf, Ho in Hv. done.
  - destruct He as [Hn Hm]. apply Hc. split; [by rewrite Hkf|]. rewrite Hn, Hkv, Hkf. intros H. unfold fd in Hm. rewrite Hm. auto.
Qed.

Lemma finishBind_bound f a s : binding true f s -> boundOrClosed (finishBind a s).
Proof.
  intros H. unfold finishBind. assert (Hq : quiet (socket_ s) (getLocalAddress (socket_ s)).1) by (apply quiet_nameOf; done). destruct (getLocalAddress (socket_ s)) as [k r].
  apply (binding_quiet true f s k) in Hq; [|done]. destruct Hq as ((Hb & Hf & Hs & Ho & Hr & Hrb & Hreg & _) & Hv & Ht & Hm). exists f. cbn [fst]. unfold core. cbn in *. split_and!; [done..|]. auto.
Qed.

Lemma attempt_bound f a s : binding false f s -> boundOrClosed (attempt callback a (bindSteps a) s).
Proof.
  unfold bindSteps. apply attempt_quiet; [intros; apply quiet_setOption|]. clear s; intros s.
  apply attempt_quiet; [intros; by apply bind_quiet|]. clear s; intros s H.
  apply (attempt_step false true f); [by apply binding_nonBlocking| |done]. clear s H; intros s.
  apply attempt_quiet; [intros; apply quiet_whenValid; intros; apply quiet_setsockopt|]. clear s; intros s.
  apply attempt_quiet; [intros; apply quiet_whenValid; intros; apply quiet_setsockopt|]. clear s; intros s.
  apply finishBind_bound.
Qed.

Lemma create_binding a s : core false INVALID_SOCKET_FD s ->
  let '(k, e) := create UDP (ip a) (port a) true (socket_ s) in if isFailure e then core false INVALID_SOCKET_FD (setSocket k s) else ∃ f, binding false f (setSocket k s).
Proof.
  intros (Hb & Hf & Hs & _ & Hr & Hrb & Hreg & _). assert (Er : receiving_ s = false) by (destruct (receiving_ s); [by discriminate Hrb|done]).
  assert (H0 : own (socket_ s) = ∅) by by apply own_invalid.
  destruct (create_acts UDP (ip a) (port a) true (socket_ s) Hs (openFds (kernel (socket_ s))) ltac:(rewrite H0; set_solver) ltac:(rewrite H0; set_solver)) as (Hks & Hko & Hkd & _).
  assert (Hspec : let '(k, e) := create UDP (ip a) (port a) true (socket_ s) in if isSuccess e then inMode false k ∧ type_ (wrapper k) = UDP else fd k = INVALID_SOCKET_FD).
  { unfold create. destruct (resolveAddresses (ip a) (port a) UDP true AF_UNSPEC (setType UDP (socket_ s))) as [k1 r] eqn:E1.
    pose proof (quiet_resolve (ip a) (port a) UDP true AF_UNSPEC (setType UDP (socket_ s))) as (Hq & _ & Ht & _). rewrite E1 in Hq, Ht. cbn [fst] in Hq, Ht. destruct r as [e|[|a1 l]].
    - apply resolve_fails in E1. rewrite E1. exact (eq_trans Hq Hf).
    - exfalso. unfold resolveAddresses in E1. repeat case_match; simplify_eq.
    - destruct (createNativeSocket (sa_family a1) k1) as [k e] eqn:E2. apply createNativeSocket_spec in E2 as (_ & Ht2 & H2). destruct (isSuccess e); [split; [done|by rewrite Ht2, Ht]|].
      unfold isValid in H2. apply negb_false_iff, Z.eqb_eq in H2. exact H2. }
  destruct (create UDP (ip a) (port a) true (socket_ s)) as [k e]. cbn [fst] in *. rewrite union_empty_r_L in Hko.
  assert (Hsub : registered (poller s) ⊆ openFds (kernel k)) by (rewrite Hko; set_solver). unfold isFailure. destruct (isSuccess e); cbn [negb].
  - destruct Hspec as [(Hv & Hin & Hn & Hm) Ht]. exists (fd k). split_and!; [|done..]. unfold core. cbn. split_and!; [done|done|done|by right|done|done| |done].
    rewrite Er. split; [|done]. intros Hx. apply Hr in Hx. rewrite (own_valid _ Hv) in Hkd. set_solver.
  - unfold core. cbn. split_and!; [done|done|done|by left|done|done|done|done].
Qed.

Lemma bind_bound a s : core false INVALID_SOCKET_FD s -> boundOrClosed (bind callback a s).
Proof.
  intros H. unfold bind. rewrite (proj1 H). pose proof (create_binding a s H) as Hc. destruct (create UDP (ip a) (port a) true (socket_ s)) as [k e].
  destruct (isFailure e); [by apply core_notifyError|]. destruct Hc as [f Hc]. by eapply attempt_bound.
Qed.

(** What does not bind keeps the descriptor. *)
Lemma call_core b f o s : b = true ∨ (∀ a, o ≠ OBind a) -> core b f s -> core b f (call callback o s).
Proof.
  intros Ho H. pose proof (core_settings b f o s H) as Hset. destruct o as [a|a d| | |n|n|e|d e]; try exact Hset; cbn [call]; clear Hset.
  - destruct Ho as [->|Ho]; [|by destruct (Ho a)]. unfold bind. by rewrite (proj1 H).
  - by apply core_sendTo.
  - by apply core_startReceive.
  - by apply core_stopReceive.
Qed.
End Preserved.

(** The application does not bind the socket while it is told of an error. *)
Definition noRebind (react : Event -> list Op) : Prop := ∀ code message a, OBind a ∉ react (ErrorReported code message).

Lemma ops_core callback b f l s : respects callback -> (b = true ∨ ∀ a, OBind a ∉ l) -> core b f s -> core b f (foldl (fun s o => call callback o s) s l).
Proof.
  intros Hcb. revert s; induction l as [|o l IH]; intros s Hl H; [done|]. cbn. apply IH.
  - destruct Hl as [Hl|Hl]; [by left|right]. intros a Ha. apply (Hl a). by apply elem_of_cons; right.
  - apply call_core; [done| |done]. destruct Hl as [Hl|Hl]; [by left|right]. intros a ->. apply (Hl a). by apply elem_of_cons; left.
Qed.

Lemma callbackAt_respects react depth : noRebind react -> respects (callbackAt react depth).
Proof.
  intros Hno. induction depth as [|depth IH]; split.
  1,2: intros; by eapply core_settled.
  - intros b f code m s H. apply ops_core; [done|right; apply Hno|by apply (core_settled b f s)].
  - intros f from packet s H. apply ops_core; [done|by left|by apply (core_settled true f s)].
Qed.

Definition boundInv (s : Impl) : Prop := (∃ f, core true f s) ∨ core false INVALID_SOCKET_FD s.

Lemma stimulate_inv callback x s : respects callback -> boundInv s -> boundInv (stimulate callback x s).
Proof.
  intros Hcb [[f H]|H]; destruct x as [o|fuel r e c]; cbn [stimulate].
  - left. exists f. apply call_core; auto.
  - left. exists f. by apply core_poll.
  - destruct o as [a|a d| | |n|n|e|d e]; try (right; by apply call_core; [|right|]). pose proof (bind_bound callback Hcb a s H) as Hb. unfold boundOrClosed in Hb. cbn [call].
    destruct (bind callback a s) as [s' []]; [by left|by right].
  - right. by apply core_poll.
Qed.

Lemma stimuli_inv callback l s : respects callback -> boundInv s -> boundInv (run callback l s).
Proof. intros Hcb. revert s; induction l as [|x l IH]; intros s H; [done|]. apply IH. by apply stimulate_inv. Qed.

Lemma newImpl_inv k e p : registered p ⊆ openFds k -> boundInv (newImpl k e p).
Proof.
  intros H. right. unfold core. cbn. split_and!; [done|done|by split; [left|]|by left|done|done| |done]. split; [|done]. intros Hx. apply H, open_law in Hx. unfold INVALID_SOCKET_FD in Hx. lia.
Qed.

(** C20. Under every sequence of calls and poll events, with callbacks that may call the socket
    again except that they do not bind it while told of an error: the socket is bound exactly
    while it has a descriptor, and then it is an open non-blocking UDP socket; it is registered
    with the poller exactly while it receives; nothing closed is ever registered; and the
    destructor leaves it closed and unregistered. *)
Theorem udp_bound react depth l k e p :
  noRebind react -> registered p ⊆ openFds k ->
  let s := run (callbackAt react depth) l (newImpl k e p) in
  (if bound_ s then inMode true (socket_ s) ∧ type_ (wrapper (socket_ s)) = UDP else fd (socket_ s) = INVALID_SOCKET_FD) ∧
  (fd (socket_ s) ∈ registered (poller s) <-> receiving_ s = true) ∧ (receiving_ s = true -> bound_ s = true) ∧
  registered (poller s) ⊆ openFds (kernel (socket_ s)) ∧
  fd (socket_ (destroy s)) = INVALID_SOCKET_FD ∧ fd (socket_ s) ∉ registered (poller (destroy s)) ∧ fd (socket_ s) ∉ openFds (kernel (socket_ (destroy s))).
Proof.
  intros Hno Hp s. pose proof (stimuli_inv _ l _ (callbackAt_respects react depth Hno) (newImpl_inv k e p Hp)) as H. fold s in H. clearbody s.
  assert (Hc : ∃ b f, core b f s ∧ (if b then True else f = INVALID_SOCKET_FD)) by (destruct H as [[f H]|H]; [by exists true, f|by exists false, INVALID_SOCKET_FD]). clear H.
  destruct Hc as (b & f & Hc & Hbf). pose proof (core_stopReceive _ _ _ Hc) as Hstop. pose proof Hc as (Hb & Hf & Hs & Ho & Hr & Hrb & Hreg & Hm). rewrite Hb, Hf.
  split_and!; [destruct b; [by apply Hm|done]|done|done|done|done| |].
  - destruct Hstop as (_ & _ & _ & _ & _ & _ & Hreg' & _). cbn. intros Hx. apply Hreg' in Hx. unfold stopReceive in Hx. destruct (receiving_ s) eqn:Er; cbn in Hx; [rewrite Hb in Hx; destruct b; done|congruence].
  - destruct Hstop as (Hb' & Hf' & Hs' & Ho' & _). unfold destroy. cbn. intros Hx. pose proof (open_law _ _ Hx) as Hx0.
    assert (Hv : isValid (wrapper (socket_ (stopReceive s))) = true). { unfold isValid. unfold fd in Hf'. rewrite Hf'. unfold INVALID_SOCKET_FD. by destruct (Z.eqb_spec f (-1)); [lia|]. }
    unfold close in Hx. rewrite Hv in Hx. destruct (sys _ _) as [k' r] eqn:E. apply sys_law in E as [_ E]. pose proof (call_law (kernel (socket_ (stopReceive s))) (SysClose (fd (socket_ (stopReceive s))))) as HL. rewrite E in HL.
    cbn in Hx. rewrite (proj1 HL), Hf' in Hx. set_solver.
Qed.

(** ** Receiving *)

(** The datagrams the system has for the socket, in order, until a call would block. *)
Inductive Queued (size : Z) : Sock K -> list (Address * list byte) -> Sock K -> Prop :=
| queue_empty k k' n buffer from : recvFrom size k = (k', n, buffer, from) -> n < 0 -> isWouldBlockError (errno k') = true -> Queued size k [] k'
| queue_more k k1 k' n buffer a l : recvFrom size k = (k1, n, buffer, Some a) -> 0 <= n -> Queued size k1 l k' -> Queued size k ((a, take (Z.to_nat n) buffer) :: l) k'.

(** A callback that takes a datagram and leaves the socket as it is. *)
Definition passive (callback : Event -> Impl -> Impl) : Prop :=
  ∀ from packet s, let s' := callback (DataReceived from packet) s in
  socket_ s' = socket_ s ∧ receiving_ s' = receiving_ s ∧ hasDataCallback s' = hasDataCallback s ∧ events s' = events s ++ [DataReceived from packet].

Lemma drain_queued callback size l k' fuel s : passive callback -> Queued size (socket_ s) l k' -> receiving_ s = true -> hasDataCallback s = true -> (length l < fuel)%nat ->
  ∃ s', drainLoop callback fuel size s = (s', true) ∧ socket_ s' = k' ∧ receiving_ s' = true ∧ events s' = events s ++ ((fun d => DataReceived d.1 d.2) <$> l).
Proof.
  intros Hpas HQ. remember (socket_ s) as k eqn:Ek. revert fuel s Ek. induction HQ as [k k' n buffer from Hrecv Hn Hwb|k k1 k' n buffer a l Hrecv Hn HQ IH]; intros fuel s -> Hr Hd Hl.
  - destruct fuel as [|fuel]; [lia|]. cbn [drainLoop]. rewrite Hr, Hrecv. cbn [negb]. destruct (Z.leb_spec 0 n); [lia|]. rewrite Hwb. eexists; split_and!; [done|done|done|]. cbn. by rewrite app_nil_r.
  - destruct fuel as [|fuel]; [cbn in Hl; lia|]. cbn [drainLoop]. rewrite Hr, Hrecv. cbn [negb]. destruct (Z.leb_spec 0 n); [|lia]. cbn [hasDataCallback setSocket]. rewrite Hd. cbn [default from_option id].
    destruct (Hpas a (take (Z.to_nat n) buffer) (setSocket k1 s)) as (Hs' & Hr' & Hd' & He').
    destruct (IH fuel (callback (DataReceived a (take (Z.to_nat n) buffer)) (setSocket k1 s))) as (s' & E & H1 & H2 & H3); [by rewrite Hs'|by rewrite Hr'|by rewrite Hd'|cbn in Hl; lia|].
    exists s'. split_and!; [exact E|done|done|]. rewrite H3, He'. cbn. by rewrite <- app_assoc.
Qed.

(** C19. When the poller reports a receiving socket as readable, the data callback gets exactly
    the datagrams the system has queued, each once, in order, with its sender, and the handler
    returns when the system has no more. *)
Theorem udp_delivery callback l k' fuel s :
  passive callback -> receiving_ s = true -> hasDataCallback s = true -> Queued (recvBufferSize_ s) (socket_ s) l k' -> (length l < fuel)%nat ->
  ∃ s', handlePollEvents callback fuel true false false s = (s', true) ∧ socket_ s' = k' ∧ receiving_ s' = true ∧ events s' = events s ++ ((fun d => DataReceived d.1 d.2) <$> l).
Proof.
  intros Hpas Hr Hd HQ Hl. unfold handlePollEvents, drainReceiveQueue. rewrite Hr. cbn [negb]. set (s0 := setSizes _ _ _ _).
  destruct (drain_queued callback (recvBufferSize_ s) l k' fuel s0 Hpas HQ Hr Hd Hl) as (s' & -> & Hs & Hr' & He). cbn. eauto.
Qed.

End Udp.
Arguments Impl K R : clear implicits.

(** ** A concrete poller *)

Record Polled := mkPolled { polledFds : gset Z; accepts : bool }.

#[export] Instance polled_registry : Registry Polled := {
  add r f := if accepts r then (mkPolled ({[f]} ∪ polledFds r) true, true) else (r, false);
  remove r f := mkPolled (polledFds r ∖ {[f]}) (accepts r);
  registered r := polledFds r
}.

#[export] Instance polled_laws : RegistryLaws Polled.
Proof. split; [intros r f; cbn; by destruct (accepts r)|done]. Qed.

(** ** Examples *)

Definition errorText (e : Z) : list byte := appendSignedDecimal (str "errno ") e.
Definition fresh (a : list (Z * Z * Z)) : Impl Sim Polled := newImpl (standard a) 0 (mkPolled ∅ true).

(** The answers a [bind] that works takes. *)
Definition bindAnswers : list (Z * Z * Z) := replicate 8 (0, 0, 0).
Definition noReaction (e : Event) : list Op := [].
Definition session : list Stimulus := [SCall (OSetCallbacks true true); SCall (OBind server); SCall OStartReceive].

Lemma udp_bound_witness :
  bound_ (run errorText (callbackAt errorText noReaction 2) session (fresh bindAnswers)) = true ∧
  let s := run errorText (callbackAt errorText noReaction 2) session (fresh bindAnswers) in
  (if bound_ s then inMode true (socket_ s) ∧ type_ (wrapper (socket_ s)) = UDP else fd (socket_ s) = INVALID_SOCKET_FD) ∧
  (fd (socket_ s) ∈ registered (poller s) <-> receiving_ s = true) ∧ (receiving_ s = true -> bound_ s = true) ∧
  registered (poller s) ⊆ openFds (kernel (socket_ s)) ∧
  fd (socket_ (destroy s)) = INVALID_SOCKET_FD ∧ fd (socket_ s) ∉ registered (poller (destroy s)) ∧ fd (socket_ s) ∉ openFds (kernel (socket_ (destroy s))).
Proof.
  split; [by vm_compute|]. refine (udp_bound errorText noReaction 2 session (standard bindAnswers) 0 (mkPolled ∅ true) _ _).
  - intros code m a H. by apply not_elem_of_nil in H.
  - apply empty_subseteq.
Defined.

(** Datagrams of four and two bytes. *)
Definition twoQueued : Impl Sim Polled := run errorText (callbackAt errorText noReaction 1) session (fresh (bindAnswers ++ [(4, 0, 0); (2, 0, 0); (-1, EAGAIN, 0)])).

Lemma passive_recording : passive (callbackAt (K := Sim) (R := Polled) errorText noReaction 1).
Proof. intros from packet s. by split_and!. Qed.

Lemma udp_delivery_witness :
  ∃ s', handlePollEvents errorText (callbackAt errorText noReaction 1) 3 true false false twoQueued = (s', true) ∧
        socket_ s' = mkSock (mkWrapper 3 AF_INET UDP true (mkError SocketError (str "recvfrom failed") EAGAIN)) (kernel (recvFrom 65536 (recvFrom 65536 (recvFrom 65536 (socket_ twoQueued)).1.1.1).1.1.1).1.1.1) EAGAIN ∧
        receiving_ s' = true ∧
        events s' = events twoQueued ++ ((fun d => DataReceived d.1 d.2) <$> [(server, str "aaaa"); (server, str "aa")]).
Proof.
  refine (udp_delivery errorText (callbackAt errorText noReaction 1) [(server, str "aaaa"); (server, str "aa")] _ 3 twoQueued passive_recording _ _ _ _); [by vm_compute..| |cbn; lia].
  eapply (queue_more _ _ _ _ 4 (str "aaaa") server); [by vm_compute|lia|]. eapply (queue_more _ _ _ _ 2 (str "aa") server); [by vm_compute|lia|].
  eapply (queue_empty _ _ _ (-1) [] None); [by vm_compute|lia|by vm_compute].
Defined.

(** A callback that stops the receiving ends the loop: the second datagram stays queued. *)
Example stopped_in_callback :
  let s := (handlePollEvents errorText (callbackAt errorText (fun e => [OStopReceive]) 1) 3 true false false twoQueued).1 in
  events s = [DataReceived server (str "aaaa")] ∧ receiving_ s = false ∧ polledFds (poller s) = ∅ ∧ answers (kernel (socket_ s)) = [(2, 0, 0); (-1, EAGAIN, 0)].
Proof. by vm_compute. Qed.

(** [bind] reports a failed option before it closes the socket: an application that binds
    again from the callback is told that it succeeded, and the outer [bind] then closes the new socket. *)
Example rebind_in_callback :
  let s := run errorText (callbackAt errorText (fun e => [OBind server]) 2) [SCall (OSetCallbacks true true); SCall (OBind server)] (fresh ((0, 0, 0) :: (-1, 92, 0) :: bindAnswers)) in
  bound_ s = true ∧ fd (socket_ s) = INVALID_SOCKET_FD ∧ (bind (callbackAt errorText noReaction 1) server s).2 = false.
Proof. by vm_compute. Qed.

(** [sendTo] asks for the last system error although no system call failed: with [EAGAIN]
    left from a receive, a name that does not resolve is reported to nobody. *)
Example unresolved_unreported :
  let s := run errorText (callbackAt errorText noReaction 1) (session ++ [SPoll 2 true false false]) (fresh (bindAnswers ++ [(-1, EAGAIN, 0); (-2, EAGAIN, 0)])) in
  let '(s', ok) := sendTo errorText (callbackAt errorText noReaction 1) (mkAddress (str "no.such.host") 9) (str "x") s in
  ok = false ∧ events s' = [] ∧ lastError_ (wrapper (socket_ s')) = mkError ResolveError (str "Name or service not known") (-2).
Proof. by vm_compute. Qed.
