(* ===== verification/PipeSocket.v ===== *)
(** * A concrete system

    Instances of the classes [Socket] and [ServerSystem] with their laws, on which the theorems about the TCP
    client and the TCP server are evaluated. *)

From S2P Require Import Prelude Address ClientTransport SessionTypes.

(** The bytes the next writes can take (behind the list: any number), what was written in clear and
    through TLS, what waits to be read, the steps of handshakes to come, whether TLS can
    be set up, and whether TLS must read before it writes. *)
Record Pipe := mkPipe {
  room : list Z;
  clear : list byte;
  secret : list byte;
  inbox : list (list byte);
  handshakes : list (SslResult (option (list byte)));
  tlsUsable : bool;
  tlsMustRead : bool
}.

(** How many of the bytes [d] go through. *)
Definition fits (p : Pipe) (d : list byte) : Z := match room p with [] => zlen d | r :: _ => Z.min r (zlen d) end.

Definition pipeSend (p : Pipe) (d : list byte) : Pipe * SysResult positive :=
  let n := fits p d in
  (mkPipe (tail (room p)) (clear p ++ take (Z.to_nat n) d) (secret p) (inbox p) (handshakes p) (tlsUsable p) (tlsMustRead p),
   if n <=? 0 then SysErrno true [] else SysDone (Z.to_pos n)).

Definition pipeWrite (p : Pipe) (d : list byte) : Pipe * SslResult positive :=
  let n := fits p d in
  if tlsMustRead p then (p, SslWantRead)
  else (mkPipe (tail (room p)) (clear p) (secret p ++ take (Z.to_nat n) d) (inbox p) (handshakes p) (tlsUsable p) (tlsMustRead p),
        if n <=? 0 then SslWantWrite else SslDone (Z.to_pos n)).

(** The next chunk, at most [n] bytes of it. *)
Definition pipeTake (p : Pipe) (n : Z) : Pipe * list byte :=
  match inbox p with
  | [] => (p, [])
  | c :: cs => (mkPipe (room p) (clear p) (secret p) (if zlen c <=? n then cs else drop (Z.to_nat n) c :: cs) (handshakes p) (tlsUsable p) false,
                take (Z.to_nat n) c)
  end.

#[export] Instance pipe_socket : Socket Pipe := {
  sockCreate p _ _ := (p, None);
  sockSetOption p := (p, None);
  sockConnect p _ _ _ := (p, None);
  sockSetNonBlocking p := (p, None);
  sockLocal _ := None;
  sockRemote _ := None;
  sockClose p := p;
  sockRecv p n := let '(p, d) := pipeTake p n in (p, if d =s [] then SysErrno true [] else SysDone d);
  sockSend := pipeSend;
  pollAdd p := (p, true);
  pollModify p _ := p;
  pollRemove p := p;
  tlsInit p _ := (p, if tlsUsable p then None else Some (SSLError, str "no certificate"));
  tlsHandshake p :=
    match handshakes p with
    | [] => (p, SslWantRead)
    | h :: hs => (mkPipe (room p) (clear p) (secret p) (inbox p) hs (tlsUsable p) (tlsMustRead p), h)
    end;
  tlsRead p n := let '(p, d) := pipeTake p n in (p, if d =s [] then SslWantRead else SslDone d);
  tlsWrite := pipeWrite;
  tlsFree p := p
}.

Lemma fits_pos p d : 0 < fits p d -> Zpos (Z.to_pos (fits p d)) <= zlen d.
Proof. intros H. rewrite Z2Pos.id by done. unfold fits in *. destruct (room p); lia. Qed.

Lemma pipeTake_some p n p' d : pipeTake p n = (p', d) -> 0 <= n -> zlen d <= n.
Proof.
  unfold pipeTake. destruct (inbox p) as [|c cs]; intros [= <- <-] Hn; [done|]. unfold zlen. rewrite length_take. lia.
Qed.

Lemma pipeTake_neg p n p' d : pipeTake p n = (p', d) -> n < 0 -> d = [].
Proof. unfold pipeTake. destruct (inbox p) as [|c cs]; intros [= <- <-] Hn; [done|]. by rewrite Z2Nat.nonpos by lia. Qed.

#[export] Instance pipe_laws : SocketLaws Pipe.
Proof.
  split.
  - intros p n d p'. cbn. destruct (pipeTake p n) as [p1 d1] eqn:E. case_bool_decide as Hd; intros [= <- <-]. split; [done|].
    destruct (Z_le_gt_dec 0 n); [by eapply pipeTake_some|]. by rewrite (pipeTake_neg _ _ _ _ E) in Hd by lia.
  - intros p d k p'. cbn. unfold pipeSend. destruct (Z.leb_spec (fits p d) 0) as [Hn|Hn]; [done|]. intros [= <- <-]. by apply fits_pos.
  - intros p n d p'. cbn. destruct (pipeTake p n) as [p1 d1] eqn:E. case_bool_decide as Hd; intros [= <- <-]. split; [done|].
    destruct (Z_le_gt_dec 0 n); [by eapply pipeTake_some|]. by rewrite (pipeTake_neg _ _ _ _ E) in Hd by lia.
  - intros p d k p'. cbn. unfold pipeWrite. destruct (tlsMustRead p); [done|].
    destruct (Z.leb_spec (fits p d) 0) as [Hn|Hn]; [done|]. intros [= <- <-]. by apply fits_pos.
Qed.

(** Room for everything. *)
Definition roomy (p : Pipe) : Prop := room p = [] ∧ tlsMustRead p = false.

Lemma roomy_takes : taking roomy.
Proof.
  split.
  - intros p d [H1 H2] Hd. cbn. unfold pipeSend, fits. rewrite H1. rewrite (proj2 (Z.leb_gt _ _)) by (destruct d; [done|]; rewrite zlen_cons; pose proof (zlen_nonneg d); lia).
    eexists _, _. split; [done|]. unfold roomy. cbn. rewrite ?H1. done.
  - intros p d [H1 H2] Hd. cbn. unfold pipeWrite, fits. rewrite H1, H2. rewrite (proj2 (Z.leb_gt _ _)) by (destruct d; [done|]; rewrite zlen_cons; pose proof (zlen_nonneg d); lia).
    eexists _, _. split; [done|]. unfold roomy. cbn. rewrite ?H1. done.
  - done.
Qed.

(** *** The server's side *)

(** The texts in the inbox of a listening pipe are clients with that text to read; they have the
    room, the handshakes and the TLS of the listener.  There is one file. *)
Definition pipeFile : list byte := str "/srv/page".
Definition pipeContent : list byte := str "0123456789".

Definition acceptedPipe (p : Pipe) (text : list byte) : Pipe :=
  mkPipe (room p) [] [] (if text =s [] then [] else [text]) (handshakes p) (tlsUsable p) (tlsMustRead p).

#[export] Instance pipe_system : ServerSystem Pipe := {
  sockNoDelay p := (p, None);
  sockKeepAlive p := (p, None);
  sockSendBuffer p := (p, true);
  sockRecvBuffer p := (p, true);
  sockSendFile p f o n := pipeSend p (take (Z.to_nat n) (drop (Z.to_nat o) f));
  fileOpen p path := (p, if path =s pipeFile then Opened pipeContent else OpenFailed);
  fileRead p f o n := (p, Some (take (Z.to_nat n) (drop (Z.to_nat o) f)));
  listenCreate p _ _ := (p, None);
  listenOption p := (p, None);
  listenBind p _ _ := (p, None);
  listenListen p := (p, None);
  listenAccept p :=
    match inbox p with
    | [] => (p, NothingToAccept)
    | c :: cs => (mkPipe (room p) (clear p) (secret p) cs (handshakes p) (tlsUsable p) (tlsMustRead p), Accepted (acceptedPipe p c) (str "10.0.0.1") 4000)
    end;
  contextInit p _ := (p, None);
  contextCleanup p := p
}.

#[export] Instance pipe_files : ServerSystemLaws Pipe.
Proof.
  split.
  - intros p f o n k p'. cbn. unfold pipeSend. set (d := take (Z.to_nat n) (drop (Z.to_nat o) f)). destruct (Z.leb_spec (fits p d) 0) as [Hn|Hn]; [done|]. intros [= <- <-].
    pose proof (fits_pos p d Hn) as Hf. assert (Hd : zlen d <= Z.max 0 n ∧ zlen d <= Z.max 0 (zlen f - Z.max 0 o)) by (unfold d, zlen; rewrite length_take, length_drop; lia).
    lia.
  - intros p f o n d p'. cbn. intros [= <- <-]. done.
Qed.

Lemma roomy_files : takingFiles roomy.
Proof.
  split.
  - intros p f o n [H1 H2] Ho Hn Hf. cbn. unfold pipeSend, fits. rewrite H1. set (d := take (Z.to_nat n) (drop (Z.to_nat o) f)).
    assert (0 < zlen d) by (unfold d, zlen in *; rewrite length_take, length_drop; lia). rewrite (proj2 (Z.leb_gt _ _)) by done.
    eexists _, _. split; [done|]. unfold roomy. cbn. by rewrite ?H1.
  - intros p f o n Hp Ho Hn Hf. cbn. eexists _, _. split_and!; [done | | done]. intros E. apply (f_equal length) in E.
    unfold zlen in *. rewrite length_take, length_drop in E. cbn in E. lia.
Qed.
