(* ===== verification/TcpClientImpl.v ===== *)
(** * TCP client (src/TcpClient.cpp)

    [TcpClient::Impl] as it is built on POSIX systems: connecting, TLS, the write queue with
    its flush, the read loop, closing, the three timers.  [ssl] is the build option
    FASTNET_ENABLE_SSL.  Socket, poller and OpenSSL are the class [Socket].  Calls are serialized,
    as [callbackMutex_] does; a callback runs inside the operation that calls it and may
    use the client: [callback] is what the user's function does with the state, closed
    below over any depth of nesting ([callbackAt]).  [accepted_] and [written_] record what
    [send] took and what the system took on the present connection, [opened_] how many
    connections were established; no operation reads them.  *)

From S2P Require Import Prelude Address ClientTransport SessionTypes.

(** ** State *)

(** Timeouts in milliseconds and which callbacks are set. *)
Record Settings := mkSettings {
  connectTimeout_ : Z;
  readTimeout_ : Z;
  writeTimeout_ : Z;
  connectCallback_ : bool;
  disconnectCallback_ : bool;
  dataReceivedCallback_ : bool;
  ownedDataReceivedCallback_ : bool;
  sharedDataReceivedCallback_ : bool;
  errorCallback_ : bool
}.

(** What [sendMutex_] protects. *)
Record Writer := mkWriter {
  sendQueue_ : list QueuedWrite;
  sendOffset_ : Z;
  pendingWriteBytes_ : Z;
  closeAfterFlush_ : bool;
  flushRunning_ : bool;
  flushReschedule_ : bool;
  writeInterestEnabled_ : bool;
  readWait_ : WaitDirection;
  writeWait_ : WaitDirection;
  handshakeWait_ : WaitDirection
}.

Record Timers := mkTimers {
  connectTimer_ : option Z;
  readTimer_ : option Z;
  writeTimer_ : option Z
}.

Definition idleWriter : Writer := mkWriter [] 0 0 false false false false NoWait NoWait NoWait.

(** Calls of the user's functions; a callback given to one call has a number. *)
Inductive Event :=
  | OnConnectResult (token : nat) (success : bool) (message : list byte)
  | OnConnect (success : bool) (message : list byte)
  | OnTls (token : nat) (success : bool) (message : list byte)
  | OnDisconnect (reason : list byte)
  | OnData (data : list byte)
  | OnError (code : ErrorCode) (message : list byte).

Definition setQueue x (s : Writer) : Writer := mkWriter x (sendOffset_ s) (pendingWriteBytes_ s) (closeAfterFlush_ s) (flushRunning_ s) (flushReschedule_ s) (writeInterestEnabled_ s) (readWait_ s) (writeWait_ s) (handshakeWait_ s).
Definition setOffset x (s : Writer) : Writer := mkWriter (sendQueue_ s) x (pendingWriteBytes_ s) (closeAfterFlush_ s) (flushRunning_ s) (flushReschedule_ s) (writeInterestEnabled_ s) (readWait_ s) (writeWait_ s) (handshakeWait_ s).
Definition setPendingBytes x (s : Writer) : Writer := mkWriter (sendQueue_ s) (sendOffset_ s) x (closeAfterFlush_ s) (flushRunning_ s) (flushReschedule_ s) (writeInterestEnabled_ s) (readWait_ s) (writeWait_ s) (handshakeWait_ s).
Definition setCloseAfterFlush x (s : Writer) : Writer := mkWriter (sendQueue_ s) (sendOffset_ s) (pendingWriteBytes_ s) x (flushRunning_ s) (flushReschedule_ s) (writeInterestEnabled_ s) (readWait_ s) (writeWait_ s) (handshakeWait_ s).
Definition setFlushRunning x (s : Writer) : Writer := mkWriter (sendQueue_ s) (sendOffset_ s) (pendingWriteBytes_ s) (closeAfterFlush_ s) x (flushReschedule_ s) (writeInterestEnabled_ s) (readWait_ s) (writeWait_ s) (handshakeWait_ s).
Definition setFlushReschedule x (s : Writer) : Writer := mkWriter (sendQueue_ s) (sendOffset_ s) (pendingWriteBytes_ s) (closeAfterFlush_ s) (flushRunning_ s) x (writeInterestEnabled_ s) (readWait_ s) (writeWait_ s) (handshakeWait_ s).
Definition setInterest x (s : Writer) : Writer := mkWriter (sendQueue_ s) (sendOffset_ s) (pendingWriteBytes_ s) (closeAfterFlush_ s) (flushRunning_ s) (flushReschedule_ s) x (readWait_ s) (writeWait_ s) (handshakeWait_ s).
Definition setReadWaitField x (s : Writer) : Writer := mkWriter (sendQueue_ s) (sendOffset_ s) (pendingWriteBytes_ s) (closeAfterFlush_ s) (flushRunning_ s) (flushReschedule_ s) (writeInterestEnabled_ s) x (writeWait_ s) (handshakeWait_ s).
Definition setWriteWaitField x (s : Writer) : Writer := mkWriter (sendQueue_ s) (sendOffset_ s) (pendingWriteBytes_ s) (closeAfterFlush_ s) (flushRunning_ s) (flushReschedule_ s) (writeInterestEnabled_ s) (readWait_ s) x (handshakeWait_ s).
Definition setHandshakeWaitField x (s : Writer) : Writer := mkWriter (sendQueue_ s) (sendOffset_ s) (pendingWriteBytes_ s) (closeAfterFlush_ s) (flushRunning_ s) (flushReschedule_ s) (writeInterestEnabled_ s) (readWait_ s) (writeWait_ s) x.

Section Client.
Context {Sock : Type} {sock : Socket Sock} (ssl : bool).

Record Impl := mkImpl {
  socket_ : Sock;
  settings : Settings;
  running_ : bool;
  connected_ : bool;
  localAddress_ : Address;
  remoteAddress_ : Address;
  pendingConnectCallback_ : option nat;
  pendingTlsCallback_ : option nat;
  writer : Writer;
  tlsState_ : TlsState;
  tlsUpgradeInProgress_ : bool;
  sslConfig_ : SSLConfig;
  lastFailure_ : Failure;
  timers : Timers;
  accepted_ : list byte;
  written_ : list byte;
  opened_ : nat;
  log : list Event
}.

Definition setSocket x (s : Impl) : Impl := mkImpl x (settings s) (running_ s) (connected_ s) (localAddress_ s) (remoteAddress_ s) (pendingConnectCallback_ s) (pendingTlsCallback_ s) (writer s) (tlsState_ s) (tlsUpgradeInProgress_ s) (sslConfig_ s) (lastFailure_ s) (timers s) (accepted_ s) (written_ s) (opened_ s) (log s).
Definition setSettings x (s : Impl) : Impl := mkImpl (socket_ s) x (running_ s) (connected_ s) (localAddress_ s) (remoteAddress_ s) (pendingConnectCallback_ s) (pendingTlsCallback_ s) (writer s) (tlsState_ s) (tlsUpgradeInProgress_ s) (sslConfig_ s) (lastFailure_ s) (timers s) (accepted_ s) (written_ s) (opened_ s) (log s).
Definition setRunning x (s : Impl) : Impl := mkImpl (socket_ s) (settings s) x (connected_ s) (localAddress_ s) (remoteAddress_ s) (pendingConnectCallback_ s) (pendingTlsCallback_ s) (writer s) (tlsState_ s) (tlsUpgradeInProgress_ s) (sslConfig_ s) (lastFailure_ s) (timers s) (accepted_ s) (written_ s) (opened_ s) (log s).
Definition setConnected x (s : Impl) : Impl := mkImpl (socket_ s) (settings s) (running_ s) x (localAddress_ s) (remoteAddress_ s) (pendingConnectCallback_ s) (pendingTlsCallback_ s) (writer s) (tlsState_ s) (tlsUpgradeInProgress_ s) (sslConfig_ s) (lastFailure_ s) (timers s) (accepted_ s) (written_ s) (opened_ s) (log s).
Definition setLocal x (s : Impl) : Impl := mkImpl (socket_ s) (settings s) (running_ s) (connected_ s) x (remoteAddress_ s) (pendingConnectCallback_ s) (pendingTlsCallback_ s) (writer s) (tlsState_ s) (tlsUpgradeInProgress_ s) (sslConfig_ s) (lastFailure_ s) (timers s) (accepted_ s) (written_ s) (opened_ s) (log s).
Definition setRemote x (s : Impl) : Impl := mkImpl (socket_ s) (settings s) (running_ s) (connected_ s) (localAddress_ s) x (pendingConnectCallback_ s) (pendingTlsCallback_ s) (writer s) (tlsState_ s) (tlsUpgradeInProgress_ s) (sslConfig_ s) (lastFailure_ s) (timers s) (accepted_ s) (written_ s) (opened_ s) (log s).
Definition setPendingConnect x (s : Impl) : Impl := mkImpl (socket_ s) (settings s) (running_ s) (connected_ s) (localAddress_ s) (remoteAddress_ s) x (pendingTlsCallback_ s) (writer s) (tlsState_ s) (tlsUpgradeInProgress_ s) (sslConfig_ s) (lastFailure_ s) (timers s) (accepted_ s) (written_ s) (opened_ s) (log s).
Definition setPendingTls x (s : Impl) : Impl := mkImpl (socket_ s) (settings s) (running_ s) (connected_ s) (localAddress_ s) (remoteAddress_ s) (pendingConnectCallback_ s) x (writer s) (tlsState_ s) (tlsUpgradeInProgress_ s) (sslConfig_ s) (lastFailure_ s) (timers s) (accepted_ s) (written_ s) (opened_ s) (log s).
Definition setWriter x (s : Impl) : Impl := mkImpl (socket_ s) (settings s) (running_ s) (connected_ s) (localAddress_ s) (remoteAddress_ s) (pendingConnectCallback_ s) (pendingTlsCallback_ s) x (tlsState_ s) (tlsUpgradeInProgress_ s) (sslConfig_ s) (lastFailure_ s) (timers s) (accepted_ s) (written_ s) (opened_ s) (log s).
Definition setTlsState x (s : Impl) : Impl := mkImpl (socket_ s) (settings s) (running_ s) (connected_ s) (localAddress_ s) (remoteAddress_ s) (pendingConnectCallback_ s) (pendingTlsCallback_ s) (writer s) x (tlsUpgradeInProgress_ s) (sslConfig_ s) (lastFailure_ s) (timers s) (accepted_ s) (written_ s) (opened_ s) (log s).
Definition setUpgrading x (s : Impl) : Impl := mkImpl (socket_ s) (settings s) (running_ s) (connected_ s) (localAddress_ s) (remoteAddress_ s) (pendingConnectCallback_ s) (pendingTlsCallback_ s) (writer s) (tlsState_ s) x (sslConfig_ s) (lastFailure_ s) (timers s) (accepted_ s) (written_ s) (opened_ s) (log s).
Definition setSslConfig x (s : Impl) : Impl := mkImpl (socket_ s) (settings s) (running_ s) (connected_ s) (localAddress_ s) (remoteAddress_ s) (pendingConnectCallback_ s) (pendingTlsCallback_ s) (writer s) (tlsState_ s) (tlsUpgradeInProgress_ s) x (lastFailure_ s) (timers s) (accepted_ s) (written_ s) (opened_ s) (log s).
Definition setFailure x (s : Impl) : Impl := mkImpl (socket_ s) (settings s) (running_ s) (connected_ s) (localAddress_ s) (remoteAddress_ s) (pendingConnectCallback_ s) (pendingTlsCallback_ s) (writer s) (tlsState_ s) (tlsUpgradeInProgress_ s) (sslConfig_ s) x (timers s) (accepted_ s) (written_ s) (opened_ s) (log s).
Definition setTimers x (s : Impl) : Impl := mkImpl (socket_ s) (settings s) (running_ s) (connected_ s) (localAddress_ s) (remoteAddress_ s) (pendingConnectCallback_ s) (pendingTlsCallback_ s) (writer s) (tlsState_ s) (tlsUpgradeInProgress_ s) (sslConfig_ s) (lastFailure_ s) x (accepted_ s) (written_ s) (opened_ s) (log s).
Definition setAccepted x (s : Impl) : Impl := mkImpl (socket_ s) (settings s) (running_ s) (connected_ s) (localAddress_ s) (remoteAddress_ s) (pendingConnectCallback_ s) (pendingTlsCallback_ s) (writer s) (tlsState_ s) (tlsUpgradeInProgress_ s) (sslConfig_ s) (lastFailure_ s) (timers s) x (written_ s) (opened_ s) (log s).
Definition setWritten x (s : Impl) : Impl := mkImpl (socket_ s) (settings s) (running_ s) (connected_ s) (localAddress_ s) (remoteAddress_ s) (pendingConnectCallback_ s) (pendingTlsCallback_ s) (writer s) (tlsState_ s) (tlsUpgradeInProgress_ s) (sslConfig_ s) (lastFailure_ s) (timers s) (accepted_ s) x (opened_ s) (log s).
Definition setOpened x (s : Impl) : Impl := mkImpl (socket_ s) (settings s) (running_ s) (connected_ s) (localAddress_ s) (remoteAddress_ s) (pendingConnectCallback_ s) (pendingTlsCallback_ s) (writer s) (tlsState_ s) (tlsUpgradeInProgress_ s) (sslConfig_ s) (lastFailure_ s) (timers s) (accepted_ s) (written_ s) x (log s).
Definition setLog x (s : Impl) : Impl := mkImpl (socket_ s) (settings s) (running_ s) (connected_ s) (localAddress_ s) (remoteAddress_ s) (pendingConnectCallback_ s) (pendingTlsCallback_ s) (writer s) (tlsState_ s) (tlsUpgradeInProgress_ s) (sslConfig_ s) (lastFailure_ s) (timers s) (accepted_ s) (written_ s) (opened_ s) x.
Definition emit (e : Event) (s : Impl) : Impl := setLog (log s ++ [e]) s.
Definition onWriter (f : Writer -> Writer) (s : Impl) : Impl := setWriter (f (writer s)) s.
Definition onSocket (f : Sock -> Sock) (s : Impl) : Impl := setSocket (f (socket_ s)) s.

(** ** Failures and timers *)

Definition setLastFailure (code : ErrorCode) (message : list byte) : Impl -> Impl := setFailure (code, message).
Definition clearLastFailure : Impl -> Impl := setFailure (Success, []).
Definition getLastError (s : Impl) : Error := mkError (lastFailure_ s).1 (lastFailure_ s).2 0.

Definition stopConnectTimer (s : Impl) : Impl := setTimers (mkTimers None (readTimer_ (timers s)) (writeTimer_ (timers s))) s.
Definition stopReadTimer (s : Impl) : Impl := setTimers (mkTimers (connectTimer_ (timers s)) None (writeTimer_ (timers s))) s.
Definition stopWriteTimer (s : Impl) : Impl := setTimers (mkTimers (connectTimer_ (timers s)) (readTimer_ (timers s)) None) s.
Definition stopAllTimers (s : Impl) : Impl := stopWriteTimer (stopReadTimer (stopConnectTimer s)).

Definition armConnectTimer (s : Impl) : Impl :=
  let t := connectTimeout_ (settings s) in
  if t =? 0 then s else setTimers (mkTimers (Some t) (readTimer_ (timers s)) (writeTimer_ (timers s))) s.
Definition armReadTimer (s : Impl) : Impl :=
  let t := readTimeout_ (settings s) in
  if (t =? 0) || negb (connected_ s) then s else setTimers (mkTimers (connectTimer_ (timers s)) (Some t) (writeTimer_ (timers s))) s.
Definition armWriteTimer (s : Impl) : Impl :=
  let t := writeTimeout_ (settings s) in
  if (t =? 0) || negb (connected_ s) then s else setTimers (mkTimers (connectTimer_ (timers s)) (readTimer_ (timers s)) (Some t)) s.

(** ** The poller's interest in writes *)

Definition wantsWrite (s : Impl) : bool :=
  let w := writer s in
  if tlsState_ s =s TlsHandshaking then handshakeWait_ w =s WaitWrite
  else
    let shouldEnableWrite := negb (bool_decide (sendQueue_ w = [])) && negb (writeWait_ w =s WaitRead) in
    if shouldEnableWrite then true else (readWait_ w =s WaitWrite) || (writeWait_ w =s WaitWrite).

Definition refreshInterestLocked (s : Impl) : Impl :=
  if negb (running_ s) then onWriter (setInterest false) s
  else
    let shouldEnableWrite := wantsWrite s in
    if Bool.eqb (writeInterestEnabled_ (writer s)) shouldEnableWrite then s
    else onWriter (setInterest shouldEnableWrite) (onSocket (fun k => pollModify k shouldEnableWrite) s).

Definition setReadWait (d : WaitDirection) (s : Impl) : Impl := refreshInterestLocked (onWriter (setReadWaitField d) s).
Definition setWriteWait (d : WaitDirection) (s : Impl) : Impl := refreshInterestLocked (onWriter (setWriteWaitField d) s).
Definition setHandshakeWait (d : WaitDirection) (s : Impl) : Impl := refreshInterestLocked (onWriter (setHandshakeWaitField d) s).

(** ** Reads and writes *)

Definition readTransport (len : Z) (s : Impl) : Impl * IoResult (list byte) :=
  if tlsState_ s =s TlsReady then
    if negb ssl then (s, IoError SSLError withoutSsl)
    else let '(k, r) := tlsRead (socket_ s) len in (setSocket k s, ioOfSsl (str "TLS read failed") r)
  else let '(k, r) := sockRecv (socket_ s) len in (setSocket k s, ioOfSys WaitRead r).

Definition writeTransport (data : list byte) (s : Impl) : Impl * IoResult positive :=
  if tlsState_ s =s TlsReady then
    if negb ssl then (s, IoError SSLError withoutSsl)
    else let '(k, r) := tlsWrite (socket_ s) data in (setSocket k s, ioOfSsl (str "TLS write failed") r)
  else let '(k, r) := sockSend (socket_ s) data in (setSocket k s, ioOfSys WaitWrite r).

(** ** Closing down *)

Definition clearQueuesAndWaits : Impl -> Impl := setWriter idleWriter.
Definition releaseTls (s : Impl) : Impl := setTlsState TlsDisabled (onSocket (fun k => if ssl then tlsFree k else k) s).
Definition closeSocket : Impl -> Impl := onSocket sockClose.

Definition resetTransportState (s : Impl) : Impl :=
  let s := setRunning false (setConnected false s) in
  let s := clearLastFailure (setRemote (mkAddress [] 0) (setLocal (mkAddress [] 0) s)) in
  let s := setPendingTls None (setUpgrading false (setTlsState TlsDisabled s)) in
  let s := setWritten [] (setAccepted [] s) in
  closeSocket (releaseTls (clearQueuesAndWaits (stopAllTimers s))).

Definition cleanupInactiveTransport (s : Impl) : Impl :=
  let s := stopAllTimers (setConnected false (setRunning false s)) in
  closeSocket (releaseTls (clearQueuesAndWaits (onSocket pollRemove s))).

Section Operations.
Context (callback : Event -> Impl -> Impl).

(** ** Notifications *)

Definition notifyConnect (success : bool) (message : list byte) (s : Impl) : Impl :=
  let s := match pendingConnectCallback_ s with
           | Some token => callback (OnConnectResult token success message) (setPendingConnect None s)
           | None => s
           end in
  if connectCallback_ (settings s) then callback (OnConnect success message) s else s.

Definition notifyTlsUpgrade (success : bool) (message : list byte) (s : Impl) : Impl :=
  let s := setUpgrading false s in
  match pendingTlsCallback_ s with
  | Some token => callback (OnTls token success message) (setPendingTls None s)
  | None => s
  end.

Definition notifyHandshakeFailure (message : list byte) (s : Impl) : Impl :=
  if tlsUpgradeInProgress_ s then notifyTlsUpgrade false message s else notifyConnect false message s.

Definition markConnected (s : Impl) : Impl :=
  let s := setOpened (opened_ s + (if connected_ s then 0 else 1)) s in
  let s := armReadTimer (setConnected true (stopConnectTimer s)) in
  if tlsUpgradeInProgress_ s then notifyTlsUpgrade true [] s else notifyConnect true [] s.

Definition closeWithReason (reason : list byte) (s : Impl) : Impl :=
  let s := if tlsUpgradeInProgress_ s && bool_decide (is_Some (pendingTlsCallback_ s)) then notifyTlsUpgrade false reason s else s in
  if negb (running_ s) then
    setConnected false (clearQueuesAndWaits (closeSocket (releaseTls (stopAllTimers s))))
  else
    let s := onSocket pollRemove (setRunning false s) in
    let wasConnected := connected_ s in
    let s := closeSocket (releaseTls (clearQueuesAndWaits (stopAllTimers (setConnected false s)))) in
    if wasConnected && disconnectCallback_ (settings s) then callback (OnDisconnect reason) s else s.

Definition handleTransportFailure (code : ErrorCode) (message : list byte) (s : Impl) : Impl :=
  let s := setLastFailure code message s in
  let s := if negb (connected_ s) && bool_decide (is_Some (pendingConnectCallback_ s)) then notifyConnect false message s else s in
  let s := if errorCallback_ (settings s) then callback (OnError code message) s else s in
  closeWithReason message s.

(** ** The write queue *)

Definition markFlushScheduledLocked (s : Impl) : Impl * bool :=
  if negb (running_ s) then (s, false)
  else if flushRunning_ (writer s) then (onWriter (setFlushReschedule true) s, false)
  else (onWriter (fun w => setFlushReschedule false (setFlushRunning true w)) s, true).

(** [drainSendQueue] on an empty queue. *)
Definition drainEmpty (s : Impl) : Impl * bool :=
  let s := stopWriteTimer (onWriter (setWriteWaitField NoWait) s) in
  let shouldCloseAfterFlush := closeAfterFlush_ (writer s) in
  let s := if shouldCloseAfterFlush then onWriter (setCloseAfterFlush false) s else s in
  let s := refreshInterestLocked s in
  if shouldCloseAfterFlush then (closeWithReason (str "Connection closed") s, false) else (s, true).

(** [n] bytes of [current] were written behind [offset]; the flag tells whether to close. *)
Definition drainAdvance (current : QueuedWrite) (n : Z) (s : Impl) : Impl * bool :=
  let s := setWriteWait NoWait s in
  let s := onWriter (fun w => setPendingBytes (if pendingWriteBytes_ w <=? n then 0 else pendingWriteBytes_ w - n)
                                (setOffset (sendOffset_ w + n) w)) s in
  if sendOffset_ (writer s) <? qw_size current then (refreshInterestLocked (armWriteTimer s), false)
  else
    let s := onWriter (fun w => setOffset 0 (setQueue (tail (sendQueue_ w)) w)) s in
    let '(s, closeNow) :=
      if bool_decide (sendQueue_ (writer s) = []) then
        let s := stopWriteTimer s in
        let closeNow := closeAfterFlush_ (writer s) in
        (if closeNow then onWriter (setCloseAfterFlush false) s else s, closeNow)
      else (armWriteTimer s, false) in
    (refreshInterestLocked s, closeNow).

Fixpoint drainLoop (fuel : nat) (s : Impl) : Impl * bool :=
  match fuel with
  | O => (s, false)
  | S fuel =>
      if negb (connected_ s) then (s, false)
      else
        match sendQueue_ (writer s) with
        | [] => drainEmpty s
        | current :: _ =>
            if qw_empty current then (s, true)
            else match qw_bytes current with
            | None => (s, true)
            | Some bytes =>
                let rest := drop (Z.to_nat (sendOffset_ (writer s))) bytes in
                let '(s, result) := writeTransport rest s in
                match result with
                | IoOk n =>
                    let s := setWritten (written_ s ++ take (Pos.to_nat n) rest) s in
                    let '(s, closeNow) := drainAdvance current (Zpos n) s in
                    if closeNow then (closeWithReason (str "Connection closed") s, false) else drainLoop fuel s
                | IoWouldBlock wait => (setWriteWait wait (armWriteTimer s), false)
                | IoClosed => (closeWithReason (str "Connection closed by peer") s, false)
                | IoError code message => (handleTransportFailure code message s, false)
                end
            end
        end
  end.

(** Rounds that suffice: each writes a byte at least, and the last finds an empty queue. *)
Definition queuedBytes (w : Writer) : Z := fold_right (fun q n => qw_size q + n) 0 (sendQueue_ w).
Definition drainSendQueue (s : Impl) : Impl * bool := drainLoop (S (Z.to_nat (queuedBytes (writer s) - sendOffset_ (writer s)))) s.

Definition flushDone (s : Impl) : Impl := onWriter (fun w => setFlushReschedule false (setFlushRunning false w)) s.

(** A second round happens only when a flush was asked for during the first. *)
Fixpoint flushLoop (fuel : nat) (s : Impl) : Impl :=
  match fuel with
  | O => s
  | S fuel =>
      if negb (connected_ s) then flushDone s
      else
        let '(s, drained) := drainSendQueue s in
        if negb (running_ s) || negb drained then flushDone s
        else if negb (flushReschedule_ (writer s)) then onWriter (setFlushRunning false) s
        else flushLoop fuel (onWriter (setFlushReschedule false) s)
  end.
Definition runQueuedFlush : Impl -> Impl := flushLoop 2.

Definition dispatchFlushIfNeeded (shouldScheduleFlush : bool) (s : Impl) : Impl :=
  if shouldScheduleFlush then runQueuedFlush s else s.

(** The part the overloads of [send] share: [item] holds [data]. *)
Definition enqueue (item : QueuedWrite) (data : list byte) (s : Impl) : Impl :=
  let s := setAccepted (accepted_ s ++ data) s in
  let s := onWriter (fun w => setPendingBytes (pendingWriteBytes_ w + zlen data) (setQueue (sendQueue_ w ++ [item]) w)) s in
  let '(s, shouldScheduleFlush) := markFlushScheduledLocked (refreshInterestLocked s) in
  dispatchFlushIfNeeded shouldScheduleFlush (armWriteTimer s).

Definition sendWith (h : Held) (data : list byte) (s : Impl) : Impl * bool :=
  if negb (connected_ s) then (setLastFailure ConnectionError (str "Connection is not established") s, false)
  else if data =s [] then (s, true)
  else (enqueue (itemOf h data) data s, true).

Definition sendBuffer : list byte -> Impl -> Impl * bool := sendWith HeldBuffer.
Definition sendOwnedBuffer : list byte -> Impl -> Impl * bool := sendWith HeldBuffer.
Definition sendSharedBuffer (data : option (list byte)) : Impl -> Impl * bool := sendWith HeldSharedBuffer (default [] data).
Definition sendOwnedString : list byte -> Impl -> Impl * bool := sendWith HeldString.
Definition sendView : list byte -> Impl -> Impl * bool := sendWith HeldString.
Definition sendSharedString (data : option (list byte)) : Impl -> Impl * bool := sendWith HeldSharedString (default [] data).

(** ** TLS *)

Definition failed (code : ErrorCode) (message : list byte) (s : Impl) : Impl * bool := (setLastFailure code message s, false).

Definition initializeTls (s : Impl) : Impl * bool :=
  if negb ssl then failed SSLError withoutSsl s
  else
    let '(k, e) := tlsInit (socket_ s) (sslConfig_ s) in
    let s := setSocket k s in
    match e with
    | Some (code, message) => failed code message s
    | None => (onWriter (setHandshakeWaitField NoWait) (setTlsState TlsHandshaking s), true)
    end.

Definition driveTlsHandshake (s : Impl) : Impl * bool :=
  if negb ssl then failed SSLError withoutSsl s
  else if negb (tlsState_ s =s TlsHandshaking) then (s, true)
  else
    let '(k, r) := tlsHandshake (socket_ s) in
    let s := setSocket k s in
    match r with
    | SslDone verify =>
        match (if verifyPeer (sslConfig_ s) then verify else None) with
        | Some text => failed SSLCertificateError (formatVerifyFailure text) s
        | None => (markConnected (setHandshakeWait NoWait (setTlsState TlsReady s)), true)
        end
    | SslWantRead => (setHandshakeWait WaitRead s, true)
    | SslWantWrite => (setHandshakeWait WaitWrite s, true)
    | SslZeroReturn => failed SSLHandshakeError (str "TLS handshake aborted by peer") s
    | SslFailed details => failed SSLHandshakeError (formatOpenSslFailure (str "TLS handshake failed") details) s
    end.

(** The text of the last failure, or [fallback]. *)
Definition lastFailureText (fallback : list byte) (s : Impl) : list byte :=
  if isFailure (getLastError s) then failureText (lastFailure_ s) else fallback.

(** A handshake step from an event of the socket. *)
Definition continueHandshake (s : Impl) : Impl :=
  let '(s, ok) := driveTlsHandshake s in
  if ok then s
  else
    let failureMessage := lastFailureText (str "TLS handshake failed") s in
    let code := (lastFailure_ s).1 in
    handleTransportFailure code failureMessage (notifyHandshakeFailure failureMessage s).

(** ** Events of the socket *)

Definition kReadChunkSize : Z := 8192.

(** Which of the three functions gets the data; none of them is called with nothing. *)
Definition deliver (data : list byte) (s : Impl) : Impl :=
  let c := settings s in
  if sharedDataReceivedCallback_ c then callback (OnData data) s
  else if data =s [] then s
  else if ownedDataReceivedCallback_ c || dataReceivedCallback_ c then callback (OnData data) s else s.

(** At most [fuel] chunks are read. *)
Fixpoint readLoop (fuel : nat) (s : Impl) : Impl :=
  match fuel with
  | O => s
  | S fuel =>
      if negb (running_ s) then s
      else
        let '(s, result) := readTransport kReadChunkSize s in
        match result with
        | IoOk data =>
            let s := deliver data (armReadTimer (setReadWait NoWait s)) in
            if zlen data <? kReadChunkSize then s else readLoop fuel s
        | IoWouldBlock wait => setReadWait wait s
        | IoClosed => closeWithReason (str "Connection closed by peer") s
        | IoError code message => handleTransportFailure code message s
        end
  end.

Definition handleRead (fuel : nat) (s : Impl) : Impl :=
  if negb (running_ s) then s
  else if tlsState_ s =s TlsHandshaking then continueHandshake s
  else readLoop fuel s.

Definition handleWrite (s : Impl) : Impl :=
  if negb (running_ s) then s
  else if tlsState_ s =s TlsHandshaking then continueHandshake s
  else let '(s, shouldScheduleFlush) := markFlushScheduledLocked s in dispatchFlushIfNeeded shouldScheduleFlush s.

(** The function registered with the poller. *)
Definition handleEvents (fuel : nat) (readable writable failedOrClosed : bool) (s : Impl) : Impl :=
  let s := if readable then handleRead fuel s else s in
  let s := if writable then handleWrite s else s in
  if failedOrClosed then handleTransportFailure SocketError (str "Connection closed by peer") s else s.

(** ** Calls of the user *)

Definition updateAddresses (host : list byte) (port : Z) (s : Impl) : Impl :=
  let s := match sockLocal (socket_ s) with Some a => setLocal a s | None => s end in
  setRemote (match sockRemote (socket_ s) with Some a => a | None => mkAddress host port end) s.

(** A step of [connect] that failed, with the socket closed first if it was open. *)
Definition connectFailed (open : bool) (f : Failure) (s : Impl) : Impl * bool :=
  let s := if open then closeSocket s else s in
  (notifyConnect false f.2 (setLastFailure f.1 f.2 s), false).

(** A call on the socket; [k] continues when it succeeds. *)
Definition trySocket (open : bool) (call : Sock -> Sock * option Failure) (k : Impl -> Impl * bool) (s : Impl) : Impl * bool :=
  let '(sk, e) := call (socket_ s) in
  let s := setSocket sk s in
  match e with Some f => connectFailed open f s | None => k s end.

Definition hostnameFor (host : list byte) (c : SSLConfig) : SSLConfig :=
  if (hostnameVerification c =s []) && negb (host =s [])
  then mkSsl (enableSSL c) (certificateFile c) (privateKeyFile c) (caFile c) (verifyPeer c) host else c.

(** The registered connection: TLS, or connected at once. *)
Definition secureConnection (s : Impl) : Impl * bool :=
  let abandon fallback s := (cleanupInactiveTransport (notifyConnect false (lastFailureText fallback s) s), false) in
  let '(s, ok) := initializeTls s in
  if negb ok then abandon (str "TLS initialization failed") s
  else
    let '(s, ok) := driveTlsHandshake s in
    if negb ok then abandon (str "TLS handshake failed") s else (s, true).

Definition register (s : Impl) : Impl * bool :=
  let '(sk, added) := pollAdd (socket_ s) in
  let s := setSocket sk s in
  if negb added then connectFailed true (SocketError, str "Failed to register socket with poller") s
  else
    let s := armConnectTimer (setRunning true s) in
    if enableSSL (sslConfig_ s) then secureConnection s else (markConnected s, true).

Definition connect (host : list byte) (port : Z) (cb : option nat) (cfg : SSLConfig) (s : Impl) : Impl * bool :=
  let s := setPendingConnect cb s in
  if running_ s then connectFailed false (AlreadyRunning, str "Connection is already active") s
  else
    let s := resetTransportState s in
    let normalizedHost := stripBrackets host in
    let s := setSslConfig (if enableSSL cfg then hostnameFor normalizedHost cfg else cfg) s in
    trySocket false (fun k => sockCreate k normalizedHost port)
      (trySocket true sockSetOption
        (fun s => trySocket true (fun k => sockConnect k normalizedHost port (connectTimeout_ (settings s)))
          (fun s => trySocket true sockSetNonBlocking register (updateAddresses host port s)) s)) s.

Definition refuseTls (code : ErrorCode) (message : list byte) (cb : option nat) (s : Impl) : Impl * bool :=
  let s := setLastFailure code message s in
  (match cb with Some token => callback (OnTls token false message) s | None => s end, false).

Definition startTls (cfg : SSLConfig) (cb : option nat) (s : Impl) : Impl * bool :=
  if negb (running_ s) || negb (connected_ s) then refuseTls ConnectionError (str "Connection is not established") cb s
  else if (tlsState_ s =s TlsReady) || (tlsState_ s =s TlsHandshaking) then refuseTls AlreadyRunning (str "TLS is already active") cb s
  else if negb (pendingWriteBytes_ (writer s) =? 0) || negb (bool_decide (sendQueue_ (writer s) = []))
  then refuseTls AlreadyRunning (str "Pending writes must drain before starting TLS") cb s
  else
    let enabled := mkSsl true (certificateFile cfg) (privateKeyFile cfg) (caFile cfg) (verifyPeer cfg) (hostnameVerification cfg) in
    let s := setSslConfig (hostnameFor (normalizedHost (remoteAddress_ s)) enabled) s in
    let s := clearLastFailure (setUpgrading true (setPendingTls cb s)) in
    let s := stopWriteTimer (stopReadTimer s) in
    let '(s, ok) := initializeTls s in
    if negb ok then
      let message := lastFailureText (str "TLS initialization failed") s in
      (closeWithReason message (releaseTls (notifyTlsUpgrade false message s)), false)
    else
      let '(s, ok) := driveTlsHandshake s in
      if negb ok then
        let message := lastFailureText (str "TLS handshake failed") s in
        (closeWithReason message (notifyHandshakeFailure message s), false)
      else (s, true).

Definition disconnect (s : Impl) : Impl :=
  let s := if running_ s && negb (connected_ s) && bool_decide (is_Some (pendingConnectCallback_ s))
           then notifyConnect false (str "Connection cancelled") s else s in
  let s := if running_ s && tlsUpgradeInProgress_ s && bool_decide (is_Some (pendingTlsCallback_ s))
           then notifyTlsUpgrade false (str "Connection cancelled") s else s in
  closeWithReason (str "Connection closed") s.

Definition disconnectAfterPendingWrites (s : Impl) : Impl :=
  if negb (connected_ s) then disconnect s
  else if pendingWriteBytes_ (writer s) =? 0
  then closeWithReason (str "Connection closed") (onWriter (setCloseAfterFlush false) s)
  else refreshInterestLocked (onWriter (setCloseAfterFlush true) s).

Definition withTimeouts (c r w : Z) (t : Settings) : Settings :=
  mkSettings c r w (connectCallback_ t) (disconnectCallback_ t) (dataReceivedCallback_ t) (ownedDataReceivedCallback_ t)
    (sharedDataReceivedCallback_ t) (errorCallback_ t).

Definition setConnectTimeout (timeoutMs : Z) (s : Impl) : Impl :=
  let t := settings s in
  let s := setSettings (withTimeouts timeoutMs (readTimeout_ t) (writeTimeout_ t) t) s in
  if negb (running_ s) || connected_ s || (timeoutMs =? 0) then stopConnectTimer s else armConnectTimer s.
Definition setReadTimeout (timeoutMs : Z) (s : Impl) : Impl :=
  let t := settings s in
  let s := setSettings (withTimeouts (connectTimeout_ t) timeoutMs (writeTimeout_ t) t) s in
  if negb (connected_ s) || (timeoutMs =? 0) then stopReadTimer s else armReadTimer s.
Definition setWriteTimeout (timeoutMs : Z) (s : Impl) : Impl :=
  let t := settings s in
  let s := setSettings (withTimeouts (connectTimeout_ t) (readTimeout_ t) timeoutMs t) s in
  let hasPendingWrite := negb (bool_decide (sendQueue_ (writer s) = [])) in
  if negb (connected_ s) || (timeoutMs =? 0) || negb hasPendingWrite then stopWriteTimer s else armWriteTimer s.

(** ** Timers; each has stopped when its function runs *)

Definition connectTimerFired (s : Impl) : Impl :=
  let s := stopConnectTimer s in
  if negb (running_ s) || connected_ s then s else handleTransportFailure TimeoutError (str "Connection timed out") s.
Definition readTimerFired (s : Impl) : Impl :=
  let s := stopReadTimer s in
  if negb (connected_ s) then s else handleTransportFailure TimeoutError (str "Read timed out") s.
Definition writeTimerFired (s : Impl) : Impl :=
  let s := stopWriteTimer s in
  if negb (connected_ s) then s
  else if pendingWriteBytes_ (writer s) =? 0 then s
  else handleTransportFailure TimeoutError (str "Write timed out") s.

(** ** Everything that can happen *)

(** Calls of the user, from a callback or from outside. *)
Inductive UserCall :=
  | CallConnect (host : list byte) (port : Z) (cb : option nat) (cfg : SSLConfig)
  | CallStartTls (cfg : SSLConfig) (cb : option nat)
  | CallSend (h : Held) (data : list byte)
  | CallDisconnect
  | CallDisconnectAfterPendingWrites
  | CallSetTimeouts (c r w : Z).

Definition userCall (s : Impl) (c : UserCall) : Impl :=
  match c with
  | CallConnect host port cb cfg => (connect host port cb cfg s).1
  | CallStartTls cfg cb => (startTls cfg cb s).1
  | CallSend h data => (sendWith h data s).1
  | CallDisconnect => disconnect s
  | CallDisconnectAfterPendingWrites => disconnectAfterPendingWrites s
  | CallSetTimeouts c r w => setWriteTimeout w (setReadTimeout r (setConnectTimeout c s))
  end.

(** Calls, socket events and timers. *)
Inductive Stimulus :=
  | Call (c : UserCall)
  | Ready (chunks : nat) (readable writable failedOrClosed : bool)
  | ConnectTimer
  | ReadTimer
  | WriteTimer.

Definition happens (s : Impl) (e : Stimulus) : Impl :=
  match e with
  | Call c => userCall s c
  | Ready chunks r w f => handleEvents chunks r w f s
  | ConnectTimer => connectTimerFired s
  | ReadTimer => readTimerFired s
  | WriteTimer => writeTimerFired s
  end.

End Operations.

(** The user's functions: [react] tells which calls they make.  They run inside the
    operation that calls them; [depth] bounds the nesting of such calls. *)
Fixpoint callbackAt (react : Event -> list UserCall) (depth : nat) (e : Event) (s : Impl) : Impl :=
  match depth with
  | O => emit e s
  | S depth => fold_left (userCall (callbackAt react depth)) (react e) (emit e s)
  end.

Definition run (react : Event -> list UserCall) (depth : nat) (stimuli : list Stimulus) (s : Impl) : Impl :=
  fold_left (happens (callbackAt react depth)) stimuli s.

(** A client as it is constructed. *)
Definition initial (k : Sock) (c : Settings) : Impl :=
  mkImpl k c false false (mkAddress [] 0) (mkAddress [] 0) None None idleWriter TlsDisabled false defaultSsl (Success, []) (mkTimers None None None) [] [] 0 [].

End Client.
