(* ===== verification/TcpClientStream.v ===== *)
(** * What the TCP client guarantees

    An invariant of [TcpClientImpl] kept by every operation, with the user's functions nested
    to any depth: nothing is lost, duplicated or reordered between [send] and the socket, the
    counter of pending bytes is exact, the poller is asked for what the client waits for, and
    every connection is reported closed once.  Then what a flush achieves, and the client as
    an implementation of the interface of [ClientTransport]. *)

From S2P Require Import Prelude Address ClientTransport SessionTypes PipeSocket TcpClientImpl.

(** ** The stream of a connection *)

(** The bytes behind a queued write, and all that is queued and not yet written. *)
Definition payload (q : QueuedWrite) : list byte := default [] (qw_bytes q).
Definition unsent (w : Writer) : list byte := drop (Z.to_nat (sendOffset_ w)) (concat (payload <$> sendQueue_ w)).

Definition offsetIn (w : Writer) : Prop :=
  0 <= sendOffset_ w ∧ match sendQueue_ w with [] => sendOffset_ w = 0 | q :: _ => sendOffset_ w < qw_size q end.

Definition queueWf (w : Writer) : Prop :=
  Forall (fun q => ∃ d, holds q d) (sendQueue_ w) ∧ offsetIn w ∧ pendingWriteBytes_ w = queuedBytes w - sendOffset_ w.

Lemma holds_payload q d : holds q d -> payload q = d ∧ qw_size q = zlen d ∧ 0 < zlen d ∧ qw_empty q = false.
Proof.
  intros (H1 & H2 & H3). unfold payload, qw_empty. rewrite H1, H2. assert (0 < zlen d) by (destruct d; [done|rewrite zlen_cons; pose proof (zlen_nonneg d); lia]).
  split_and!; try done. apply Z.eqb_neq. lia.
Qed.

Lemma queued_concat w : Forall (fun q => ∃ d, holds q d) (sendQueue_ w) -> queuedBytes w = zlen (concat (payload <$> sendQueue_ w)).
Proof.
  unfold queuedBytes. induction 1 as [|q qs [d Hd] _ IH]; cbn; [done|]. destruct (holds_payload q d Hd) as (-> & -> & _).
  rewrite zlen_app. cbn in IH. lia.
Qed.

Lemma offset_le w : queueWf w -> (Z.to_nat (sendOffset_ w) <= length (concat (payload <$> sendQueue_ w)))%nat.
Proof.
  intros (Hq & [H0 Ho] & _). destruct (sendQueue_ w) as [|q qs]; [cbn; lia|]. apply Forall_cons in Hq as [[d Hd] _].
  destruct (holds_payload q d Hd) as (Hp & Hs & _). cbn. rewrite Hp, length_app. unfold zlen in Hs. lia.
Qed.

(** [pendingWriteBytes_] is the number of bytes that are still to be written. *)
Lemma pending_unsent w : queueWf w -> pendingWriteBytes_ w = zlen (unsent w).
Proof.
  intros H. pose proof (offset_le w H) as Hle. destruct H as (Hq & [H0 _] & Hp). rewrite Hp, (queued_concat w Hq). unfold unsent.
  unfold zlen. rewrite length_drop. lia.
Qed.

Lemma unsent_head w q d qs : sendQueue_ w = q :: qs -> holds q d -> queueWf w ->
  unsent w = drop (Z.to_nat (sendOffset_ w)) d ++ concat (payload <$> qs) ∧ 0 < zlen (drop (Z.to_nat (sendOffset_ w)) d).
Proof.
  intros E Hd (_ & [H0 Ho] & _). rewrite E in Ho. destruct (holds_payload q d Hd) as (Hp & Hs & _).
  unfold unsent. rewrite E. cbn. rewrite Hp. unfold zlen in *. rewrite length_drop, drop_app_le by lia. split; [done|lia].
Qed.

(** [n] bytes taken from the front of the first write. *)
Definition advanced (n : Z) (w : Writer) : Writer :=
  let w := setPendingBytes (if pendingWriteBytes_ w <=? n then 0 else pendingWriteBytes_ w - n) (setOffset (sendOffset_ w + n) w) in
  match sendQueue_ w with
  | q :: qs => if sendOffset_ w <? qw_size q then w else setOffset 0 (setQueue qs w)
  | [] => w
  end.

Lemma advanced_wf n w q d qs : sendQueue_ w = q :: qs -> holds q d -> queueWf w -> 0 < n <= zlen (drop (Z.to_nat (sendOffset_ w)) d) ->
  queueWf (advanced n w) ∧ unsent w = take (Z.to_nat n) (drop (Z.to_nat (sendOffset_ w)) d) ++ unsent (advanced n w).
Proof.
  intros E Hd Hwf Hn. destruct (unsent_head w q d qs E Hd Hwf) as [Hu _]. pose proof (pending_unsent w Hwf) as Hpu. rewrite Hu, zlen_app in Hpu.
  pose proof (zlen_nonneg (concat (payload <$> qs))) as Hz. destruct Hwf as (Hq & [H0 Ho] & Hp). rewrite E in Ho, Hq.
  apply Forall_cons in Hq as [_ Hqs]. destruct (holds_payload q d Hd) as (Hpl & Hs & Hpos & _).
  assert (Hlen : zlen (drop (Z.to_nat (sendOffset_ w)) d) = zlen d - sendOffset_ w) by (unfold zlen in *; rewrite length_drop; lia).
  assert (Hqb : queuedBytes w = zlen d + queuedBytes (setQueue qs w)) by (unfold queuedBytes; rewrite E; cbn; by rewrite Hs).
  unfold advanced. cbn [sendQueue_ setPendingBytes setOffset sendOffset_]. rewrite E.
  assert (Hpend : (if pendingWriteBytes_ w <=? n then 0 else pendingWriteBytes_ w - n) = pendingWriteBytes_ w - n).
  { destruct (Z.leb_spec (pendingWriteBytes_ w) n); lia. }
  rewrite Hpend. destruct (Z.ltb_spec (sendOffset_ w + n) (qw_size q)) as [Hlt|Hge].
  - split.
    + split_and!; [cbn; rewrite E; by constructor; eauto | split; cbn; rewrite ?E; lia |].
      cbn [pendingWriteBytes_ setPendingBytes setOffset sendOffset_]. rewrite Hp.
      change (queuedBytes (setPendingBytes _ _)) with (queuedBytes w). lia.
    + unfold unsent. cbn [sendQueue_ setPendingBytes setOffset sendOffset_]. rewrite E. cbn. rewrite Hpl.
      unfold zlen in *. rewrite !drop_app_le by lia. rewrite app_assoc. f_equal.
      replace (Z.to_nat (sendOffset_ w + n)) with (Z.to_nat (sendOffset_ w) + Z.to_nat n)%nat by lia.
      by rewrite <- drop_drop, take_drop.
  - assert (Hnn : n = zlen d - sendOffset_ w) by lia. split.
    + split_and!; [done | split; cbn; [lia|] |].
      * destruct qs as [|q' qs]; [done|]. apply Forall_cons in Hqs as [[d' Hd'] _]. destruct (holds_payload q' d' Hd') as (_ & -> & H & _). lia.
      * cbn [pendingWriteBytes_ setOffset setQueue setPendingBytes sendOffset_]. unfold queuedBytes in *. cbn [sendQueue_ setQueue setOffset setPendingBytes] in *. lia.
    + rewrite Hu. unfold unsent. cbn [sendQueue_ setQueue setOffset setPendingBytes sendOffset_]. change (Z.to_nat 0) with 0%nat. rewrite drop_0. f_equal.
      unfold zlen in *. rewrite take_ge by lia. done.
Qed.

Lemma enqueued_wf q d w : holds q d -> queueWf w ->
  let w' := setPendingBytes (pendingWriteBytes_ w + zlen d) (setQueue (sendQueue_ w ++ [q]) w) in
  queueWf w' ∧ unsent w' = unsent w ++ d.
Proof.
  intros Hd Hwf w'. pose proof (offset_le w Hwf) as Hle. destruct Hwf as (Hq & [H0 Ho] & Hp). destruct (holds_payload q d Hd) as (Hpl & Hs & Hpos & _).
  assert (Hc : concat (payload <$> sendQueue_ w') = concat (payload <$> sendQueue_ w) ++ d).
  { cbn. rewrite fmap_app, concat_app. cbn. by rewrite Hpl, app_nil_r. }
  assert (Hf : Forall (fun q => ∃ d, holds q d) (sendQueue_ w')).
  { cbn. rewrite Forall_app. split; [done|]. apply Forall_singleton. by exists d. }
  split; [split_and!|].
  - done.
  - split; [done|]. cbn. destruct (sendQueue_ w) as [|q' qs]; cbn in *; [lia|done].
  - rewrite (queued_concat w' Hf), Hc, zlen_app, <- (queued_concat w Hq). cbn. lia.
  - unfold unsent. rewrite Hc. cbn [sendOffset_ w' setPendingBytes setQueue]. by rewrite drop_app_le.
Qed.

(** ** The invariant *)

(** The parts about waits, the poller's interest and the reports of disconnections are kept
    under [strict]: a user's function that reconnects when it is told of a failure can break
    them.  With [b] false, no flush is under way. *)

Section Invariant.
Context {Sock : Type} {sock : Socket Sock} {laws : SocketLaws Sock} (ssl : bool) (strict : Prop).
Abbreviation Client := (@Impl Sock).

(** A blocked write is in the queue; only TLS reads wait to write. *)
Definition waitsOk (w : Writer) (t : TlsState) : Prop :=
  (writeWait_ w ≠ NoWait -> sendQueue_ w ≠ []) ∧ (readWait_ w = WaitWrite -> t = TlsReady).

Definition isDisconnect (e : Event) : bool := if e is OnDisconnect _ then true else false.
Definition disconnects (l : list Event) : nat := length (List.filter isDisconnect l).

Record inv (b : bool) (s : Client) : Prop := {
  i_queue : queueWf (writer s);
  i_stream : connected_ s = true -> written_ s ++ unsent (writer s) = accepted_ s;
  i_prefix : written_ s `prefix_of` accepted_ s;
  i_stopped : running_ s = false -> connected_ s = false ∧ writer s = idleWriter ∧ tlsState_ s = TlsDisabled;
  i_dialling : running_ s = true -> connected_ s = false -> accepted_ s = [] ∧ written_ s = [] ∧ sendQueue_ (writer s) = [];
  i_waits : strict -> waitsOk (writer s) (tlsState_ s);
  i_interest : strict -> running_ s = true -> writeInterestEnabled_ (writer s) = wantsWrite s;
  i_quiet : b = false -> flushRunning_ (writer s) = false ∧ flushReschedule_ (writer s) = false;
  i_closed : strict -> disconnectCallback_ (settings s) = true -> (disconnects (log s) + (if connected_ s then 1 else 0) = opened_ s)%nat
}.
#[local] Arguments i_closed {b} s _.
#[local] Arguments i_queue {b} s _.
#[local] Arguments i_stream {b} s _.
#[local] Arguments i_prefix {b} s _.
#[local] Arguments i_stopped {b} s _.
#[local] Arguments i_dialling {b} s _.
#[local] Arguments i_waits {b} s _.
#[local] Arguments i_interest {b} s _.
#[local] Arguments i_quiet {b} s _.

(** The fields the invariant reads. *)
Definition relevant (s : Client) :=
  (running_ s, connected_ s, writer s, tlsState_ s, accepted_ s, written_ s, (opened_ s, disconnects (log s), disconnectCallback_ (settings s))).

Lemma tinv_same {b} (s s' : Client) : relevant s' = relevant s -> inv b s -> inv b s'.
Proof.
  unfold relevant. intros E [H1 H2 H3 H4 H5 H7 H6 H9 HC]. injection E as E1 E2 E3 E4 E5 E6 E7 E8 E9.
  split; rewrite ?E1, ?E2, ?E3, ?E4, ?E5, ?E6, ?E7, ?E8, ?E9; try done. unfold wantsWrite in *. by rewrite E3, E4.
Qed.

(** A running client whose writer changed in flags only. *)
Lemma tinv_flags {b} (s : Client) f : running_ s = true -> inv b s ->
  (∀ w, sendQueue_ (f w) = sendQueue_ w ∧ sendOffset_ (f w) = sendOffset_ w ∧ pendingWriteBytes_ (f w) = pendingWriteBytes_ w ∧
        writeInterestEnabled_ (f w) = writeInterestEnabled_ w ∧ readWait_ (f w) = readWait_ w ∧ writeWait_ (f w) = writeWait_ w ∧
        handshakeWait_ (f w) = handshakeWait_ w) ->
  (b = false -> flushRunning_ (f (writer s)) = false ∧ flushReschedule_ (f (writer s)) = false) -> inv b (onWriter f s).
Proof.
  intros Hr [H1 H2 H3 H4 H5 H7 H6 H9 HC] Hf Hq. destruct (Hf (writer s)) as (F1 & F2 & F3 & F4 & F5 & F6 & F7). split; try done.
  - unfold queueWf, offsetIn, queuedBytes. cbn [writer onWriter setWriter]. rewrite F1, F2, F3. apply H1.
  - unfold unsent. cbn [writer onWriter setWriter]. rewrite F1, F2. apply H2.
  - intros H. cbn in H. congruence.
  - cbn [writer onWriter setWriter]. rewrite F1. apply H5.
  - intros Hst. unfold waitsOk. cbn [writer onWriter setWriter tlsState_]. rewrite F1, F5, F6. by apply H7.
  - intros Hst _. unfold wantsWrite. cbn [writer onWriter setWriter tlsState_]. rewrite F1, F4, F5, F6, F7. by apply H6.
Qed.

(** The parts of the invariant but the poller's interest. *)
Record core (b : bool) (s : Client) : Prop := {
  c_queue : queueWf (writer s);
  c_stream : connected_ s = true -> written_ s ++ unsent (writer s) = accepted_ s;
  c_prefix : written_ s `prefix_of` accepted_ s;
  c_running : running_ s = true;
  c_dialling : connected_ s = false -> accepted_ s = [] ∧ written_ s = [] ∧ sendQueue_ (writer s) = [];
  c_waits : strict -> waitsOk (writer s) (tlsState_ s);
  c_quiet : b = false -> flushRunning_ (writer s) = false ∧ flushReschedule_ (writer s) = false;
  c_closed : strict -> disconnectCallback_ (settings s) = true -> (disconnects (log s) + (if connected_ s then 1 else 0) = opened_ s)%nat
}.
#[local] Arguments c_waits {b} s _.

Lemma inv_core {b} (s : Client) : inv b s -> running_ s = true -> core b s.
Proof. intros [H1 H2 H3 H4 H5 H7 H6 H9 HC] Hr. split; auto. Qed.

(** [refreshInterestLocked] restores the interest. *)
Lemma refresh_same (s : Client) : relevant (refreshInterestLocked s) = relevant s ∨
  ∃ b k, refreshInterestLocked s = onWriter (setInterest b) (setSocket k s).
Proof.
  unfold refreshInterestLocked. destruct (running_ s) eqn:Hr; cbn [negb].
  - case_match; [by left|]. right. by eexists _, _.
  - right. exists false, (socket_ s). by destruct s.
Qed.

Lemma refresh_inv {b} (s : Client) : core b s -> inv b (refreshInterestLocked s) ∧ running_ (refreshInterestLocked s) = true ∧
  connected_ (refreshInterestLocked s) = connected_ s.
Proof.
  intros [H1 H2 H3 H4 H5 H7 H9 HC]. unfold refreshInterestLocked. rewrite H4. cbn [negb].
  destruct (Bool.eqb (writeInterestEnabled_ (writer s)) (wantsWrite s)) eqn:E.
  - apply Bool.eqb_prop in E. split_and!; [|done|done]. split; try done; congruence.
  - split_and!; [|done|done]. split; try done; cbn; congruence.
Qed.


(** What a queue operation reads of the writer. *)
Definition qstate (w : Writer) := (sendQueue_ w, sendOffset_ w, pendingWriteBytes_ w).

Lemma qstate_wf w w' : qstate w' = qstate w -> (queueWf w -> queueWf w') ∧ unsent w' = unsent w.
Proof.
  unfold qstate. intros E. injection E as E1 E2 E3. unfold queueWf, offsetIn, queuedBytes, unsent. rewrite E1, E2, E3. done.
Qed.

(** What the fields of a client are but its socket, its timers and the poller's interest. *)
Definition steady (s : Client) :=
  (running_ s, connected_ s, tlsState_ s, accepted_ s, written_ s,
   (qstate (writer s), closeAfterFlush_ (writer s), flushRunning_ (writer s), flushReschedule_ (writer s)), log s, settings s,
   (readWait_ (writer s), writeWait_ (writer s)), opened_ s).

Lemma refresh_steady (s : Client) : steady (refreshInterestLocked s) = steady s.
Proof. unfold refreshInterestLocked. case_match; [done|]. by case_match. Qed.

Lemma setWriteWait_steady d (s : Client) : steady (setWriteWait d s) = steady (onWriter (setWriteWaitField d) s).
Proof. unfold setWriteWait. by rewrite refresh_steady. Qed.

Lemma armWrite_steady (s : Client) : steady (armWriteTimer s) = steady s.
Proof. unfold armWriteTimer. by case_match. Qed.

Lemma armWrite_relevant (s : Client) : relevant (armWriteTimer s) = relevant s.
Proof. unfold armWriteTimer. by case_match. Qed.

Lemma armRead_relevant (s : Client) : relevant (armReadTimer s) = relevant s.
Proof. unfold armReadTimer. by case_match. Qed.

Lemma refresh_core {b} (s : Client) : core b s -> inv b (refreshInterestLocked s).
Proof. intros H. apply (refresh_inv s H). Qed.

(** A wait changed, and the interest with it. *)
Lemma wait_inv {b} (f : Writer -> Writer) (s : Client) : core b s -> (∀ w, qstate (f w) = qstate w ∧ flushRunning_ (f w) = flushRunning_ w ∧ flushReschedule_ (f w) = flushReschedule_ w) ->
  (strict -> waitsOk (f (writer s)) (tlsState_ s)) -> inv b (refreshInterestLocked (onWriter f s)) ∧
  running_ (refreshInterestLocked (onWriter f s)) = true ∧ connected_ (refreshInterestLocked (onWriter f s)) = connected_ s.
Proof.
  intros [H1 H2 H3 H4 H5 H7 H9 HC] Hf Hw. apply (refresh_inv (onWriter f s)). destruct (Hf (writer s)) as (Hq & F1 & F2).
  destruct (qstate_wf _ _ Hq) as [Q1 Q2].
  split; try done; cbn [writer onWriter setWriter connected_ written_ accepted_]; [auto | by rewrite Q2 | | by rewrite F1, F2].
  intros Hc. unfold qstate in Hq. injection Hq as -> _ _. by apply H5.
Qed.

Lemma stopped_inv {b} (s : Client) : running_ s = false -> connected_ s = false -> writer s = idleWriter -> tlsState_ s = TlsDisabled ->
  written_ s `prefix_of` accepted_ s -> (strict -> disconnectCallback_ (settings s) = true -> disconnects (log s) = opened_ s) -> inv b s.
Proof.
  intros H1 H2 H3 H4 H5 H6. split; try congruence; try done; rewrite ?H3, ?H2, ?Nat.add_0_r; try done.
Qed.

Lemma connected_running {b} (s : Client) : inv b s -> connected_ s = true -> running_ s = true.
Proof. intros H Hc. destruct (running_ s) eqn:Hr; [done|]. destruct (i_stopped s H Hr) as [? _]. congruence. Qed.

(** The first write, or a part of it, has been written. *)
Lemma advance_inv {b} (s : Client) q d qs n : inv b s -> connected_ s = true -> sendQueue_ (writer s) = q :: qs -> holds q d ->
  let rest := drop (Z.to_nat (sendOffset_ (writer s))) d in
  0 < n <= zlen rest ->
  let s1 := setWritten (written_ s ++ take (Z.to_nat n) rest) s in
  let '(s', closeNow) := drainAdvance q n s1 in
  inv b s' ∧ connected_ s' = true ∧ running_ s' = true ∧ accepted_ s' = accepted_ s ∧ written_ s' = written_ s1 ∧
  zlen (unsent (writer s')) = zlen (unsent (writer s)) - n ∧ log s' = log s ∧
  flushRunning_ (writer s') = flushRunning_ (writer s) ∧ flushReschedule_ (writer s') = flushReschedule_ (writer s) ∧
  (if closeNow then closeAfterFlush_ (writer s) = true ∧ sendQueue_ (writer s') = []
   else closeAfterFlush_ (writer s') = closeAfterFlush_ (writer s) ∧ (sendQueue_ (writer s') = [] -> closeAfterFlush_ (writer s) = false)).
Proof.
  intros H Hc E Hd rest Hn s1. pose proof (connected_running s H Hc) as Hr.
  destruct (advanced_wf n (writer s) q d qs E Hd (i_queue s H) Hn) as [Hwf Hu].
  pose proof (i_stream s H Hc) as Hst. fold rest in Hu. pose proof (i_waits s H) as Hrw.
  (* the state before the last refresh *)
  assert (Hmid : ∃ s2 closeNow, drainAdvance q n s1 = (refreshInterestLocked s2, closeNow) ∧
    qstate (writer s2) = qstate (advanced n (writer s)) ∧ running_ s2 = true ∧ connected_ s2 = true ∧ accepted_ s2 = accepted_ s ∧
    written_ s2 = written_ s1 ∧ log s2 = log s ∧ settings s2 = settings s ∧ opened_ s2 = opened_ s ∧ (strict -> waitsOk (writer s2) (tlsState_ s2)) ∧
    flushRunning_ (writer s2) = flushRunning_ (writer s) ∧ flushReschedule_ (writer s2) = flushReschedule_ (writer s) ∧
    (if closeNow then closeAfterFlush_ (writer s) = true ∧ sendQueue_ (writer s2) = []
     else closeAfterFlush_ (writer s2) = closeAfterFlush_ (writer s) ∧ (sendQueue_ (writer s2) = [] -> closeAfterFlush_ (writer s) = false))).
  { unfold drainAdvance, advanced. pose proof (setWriteWait_steady NoWait s1) as Hs0. set (s0 := setWriteWait NoWait s1) in *.
    unfold steady in Hs0. injection Hs0 as E1 E2 E3 E4 E5 E6 E7 E8 E9 E10 E11 E12 E13 E14 E15 E16. clearbody s0.
    change (writer s1) with (writer s) in *. cbn [writer onWriter setWriter sendOffset_ sendQueue_ setPendingBytes setOffset]. rewrite E7, E6, E.
    destruct (sendOffset_ (writer s) + n <? qw_size q).
    - eexists _, false. split; [reflexivity|].
      pose proof (armWrite_steady (onWriter (fun w => setPendingBytes (if pendingWriteBytes_ w <=? n then 0 else pendingWriteBytes_ w - n)
        (setOffset (sendOffset_ w + n) w)) s0)) as Ha. unfold steady in Ha. injection Ha as A1 A2 A3 A4 A5 A6 A7 A8 A9 A10 A11 A12 A13 A14 A15 A16.
      unfold qstate, waitsOk in *. rewrite A1, A2, A3, A4, A5, A6, A7, A8, A9, A10, A11, A12, A13, A14, A15, A16. cbn [writer onWriter setWriter sendQueue_ setPendingBytes setOffset sendOffset_
        pendingWriteBytes_ closeAfterFlush_ flushRunning_ flushReschedule_ readWait_ writeWait_ tlsState_ running_ connected_ accepted_ written_ log settings opened_].
      rewrite E6, E7, E8, E, E1, E2, E3, E4, E5, E9, E10, E11, E12, E13, E14, E15, E16.
      split_and!; try done; (intros Hs; split; [done | apply (Hrw Hs)]).
    - cbn [tail writer onWriter setWriter sendQueue_ setPendingBytes setOffset setQueue closeAfterFlush_].
      destruct qs as [|q' qs].
      + rewrite bool_decide_eq_true_2 by done. cbn [stopWriteTimer writer setTimers closeAfterFlush_ setOffset setQueue setPendingBytes onWriter setWriter]. rewrite E9.
        destruct (closeAfterFlush_ (writer s)) eqn:Ecl; eexists _, _; (split; [reflexivity|]); unfold qstate, waitsOk in *; cbn;
          rewrite ?E6, ?E7, ?E8, ?E, ?E1, ?E2, ?E3, ?E4, ?E5, ?E9, ?E10, ?E11, ?E12, ?E13, ?E14, ?E15, ?E16; split_and!; try done; (intros Hs; split; [done | apply (Hrw Hs)]).
      + rewrite bool_decide_eq_false_2 by done. eexists _, false. split; [reflexivity|].
        match goal with |- context [armWriteTimer ?x] => pose proof (armWrite_steady x) as Ha end.
        unfold steady in Ha. injection Ha as A1 A2 A3 A4 A5 A6 A7 A8 A9 A10 A11 A12 A13 A14 A15 A16.
        unfold qstate, waitsOk in *. rewrite A1, A2, A3, A4, A5, A6, A7, A8, A9, A10, A11, A12, A13, A14, A15, A16. cbn. rewrite ?E6, ?E7, ?E8, ?E, ?E1, ?E2, ?E3, ?E4, ?E5, ?E9, ?E10, ?E11, ?E12, ?E13, ?E14, ?E15, ?E16. split_and!; try done; (intros Hs; split; [done | apply (Hrw Hs)]). }
  destruct Hmid as (s2 & closeNow & -> & M1 & M2 & M3 & M4 & M5 & M6 & M11 & M12 & M8 & M9 & M10 & M7). destruct (qstate_wf _ _ M1) as [Q1 Q2].
  assert (Hacc : written_ s1 ++ unsent (writer s2) = accepted_ s).
  { rewrite Q2. cbn [s1 written_ setWritten]. by rewrite <- app_assoc, <- Hu. }
  assert (Hcore : core b s2).
  { split; [by apply Q1 | intros _; by rewrite M5, M4 | rewrite M5, M4; by eexists | done | congruence | done | rewrite M9, M10; apply (i_quiet s H) |].
    rewrite M3, M6, M11, M12. pose proof (i_closed s H) as HC. by rewrite Hc in HC. }
  destruct (refresh_inv s2 Hcore) as (R1 & R2 & R3). pose proof (refresh_steady s2) as Hs.
  unfold steady in Hs. injection Hs as S1 S2 S3 S4 S5 S6 S7 S8 S9 S10 S11 S12 S13 S14 S15 S16.
  assert (Hq : qstate (writer (refreshInterestLocked s2)) = qstate (writer s2)) by (unfold qstate; congruence).
  destruct (qstate_wf _ _ Hq) as [_ Q4]. split_and!; try congruence.
  - rewrite Q4, Q2, Hu, zlen_app. assert (zlen (take (Z.to_nat n) rest) = n) by (unfold zlen in *; rewrite length_take; lia). lia.
  - destruct closeNow; [|]; rewrite S6; [done|]. by rewrite S9.
Qed.


(** ** Every operation keeps it *)

(** A change of fields the invariant does not read. *)
Ltac same := lazymatch goal with H : inv _ ?s |- inv _ _ => apply (tinv_same s); [reflexivity | exact H] end.

(** The user is told that something failed. *)
Definition isFailureNotice (e : Event) : bool :=
  match e with OnTls _ false _ | OnConnectResult _ false _ | OnConnect false _ => true | _ => false end.

Section Preserved.
Context (callback : Event -> Client -> Client) (good : ∀ b e s, inv b (emit e s) -> inv b (callback e s)).
Context (mild : strict -> ∀ e s, isFailureNotice e = true -> relevant (callback e s) = relevant s).

Lemma stopTimers_inv {b} (s : Client) : inv b s -> inv b (stopWriteTimer s) ∧ inv b (stopReadTimer s) ∧ inv b (stopConnectTimer s).
Proof. intros H. split_and!; same. Qed.

Lemma armRead_inv {b} (s : Client) : inv b s -> inv b (armReadTimer s).
Proof. intros H. apply (tinv_same s); [apply armRead_relevant | done]. Qed.

Lemma armWrite_inv {b} (s : Client) : inv b s -> inv b (armWriteTimer s).
Proof. intros H. apply (tinv_same s); [apply armWrite_relevant | done]. Qed.

Lemma emit_inv {b} e (s : Client) : isDisconnect e = false -> inv b s -> inv b (emit e s).
Proof.
  intros He H. apply (tinv_same s); [|done]. unfold relevant. cbn [log emit setLog running_ connected_ writer tlsState_ accepted_ written_ opened_ settings].
  unfold disconnects. rewrite List.filter_app. cbn. by rewrite He, app_nil_r.
Qed.

(** A call of the user's function other than the report of a disconnection. *)
Lemma call_inv {b} e (s : Client) : isDisconnect e = false -> inv b s -> inv b (callback e s).
Proof. intros He H. by apply good, emit_inv. Qed.

Lemma notifyConnect_inv {b} ok m (s : Client) : inv b s -> inv b (notifyConnect callback ok m s).
Proof.
  intros H. unfold notifyConnect. set (s1 := match pendingConnectCallback_ s with Some _ => _ | None => _ end).
  assert (H1 : inv b s1) by (unfold s1; case_match; [apply call_inv; [done | same] | done]). case_match; auto using call_inv.
Qed.

Lemma notifyTls_inv {b} ok m (s : Client) : inv b s -> inv b (notifyTlsUpgrade callback ok m s).
Proof.
  intros H. unfold notifyTlsUpgrade. case_match; [apply call_inv; [done|]|]; same.
Qed.

Lemma notifyHandshakeFailure_inv {b} m (s : Client) : inv b s -> inv b (notifyHandshakeFailure callback m s).
Proof. intros H. unfold notifyHandshakeFailure. case_match; auto using notifyTls_inv, notifyConnect_inv. Qed.

Lemma close_inv {b} reason (s : Client) : inv b s -> inv b (closeWithReason ssl callback reason s).
Proof.
  intros H. unfold closeWithReason. set (s1 := if _ && _ then notifyTlsUpgrade callback false reason s else s).
  assert (H1 : inv b s1) by (unfold s1; case_match; auto using notifyTls_inv). clearbody s1.
  pose proof (i_prefix s1 H1) as Hp. pose proof (i_closed s1 H1) as HC.
  destruct (running_ s1) eqn:Hr; cbn [negb].
  - set (s2 := closeSocket _). assert (E2 : running_ s2 = false ∧ connected_ s2 = false ∧ writer s2 = idleWriter ∧ tlsState_ s2 = TlsDisabled ∧
      written_ s2 = written_ s1 ∧ accepted_ s2 = accepted_ s1 ∧ opened_ s2 = opened_ s1 ∧ log s2 = log s1 ∧ settings s2 = settings s1) by (by split_and!).
    clearbody s2. change (connected_ (onSocket pollRemove (setRunning false s1))) with (connected_ s1).
    destruct E2 as (E1 & E2 & E3 & E4 & E5 & E6 & E7 & E8 & E9). rewrite <- E9 in HC.
    destruct (connected_ s1), (disconnectCallback_ (settings s2)) eqn:Ed; cbn [andb]; [apply good|..];
      (apply stopped_inv; [try done; cbn; congruence..|]); cbn [emit setLog log settings opened_]; rewrite ?Ed; intros Hst Hd; try done;
      specialize (HC Hst eq_refl); rewrite ?E8, E7, <- HC; [|lia].
    unfold disconnects. rewrite List.filter_app, length_app. cbn. lia.
  - destruct (i_stopped s1 H1 Hr) as (Hc & _). rewrite Hc, Nat.add_0_r in HC.
    apply stopped_inv; [exact Hr | reflexivity | reflexivity | reflexivity | exact Hp | exact HC].
Qed.

Lemma mild_connect m (s : Client) : strict -> relevant (notifyConnect callback false m s) = relevant s.
Proof.
  intros Hs. unfold notifyConnect. set (s1 := match pendingConnectCallback_ s with Some _ => _ | None => _ end).
  assert (E : relevant s1 = relevant s) by (unfold s1; destruct (pendingConnectCallback_ s); [by rewrite mild | done]).
  clearbody s1. rewrite <- E. destruct (connectCallback_ _); [by apply mild | done].
Qed.

Lemma failure_inv {b} code m (s : Client) : inv b s -> inv b (handleTransportFailure ssl callback code m s).
Proof.
  intros H. unfold handleTransportFailure. apply close_inv.
  assert (H0 : inv b (setLastFailure code m s)) by same. set (s0 := setLastFailure code m s) in *. clearbody s0.
  set (s1 := if _ && _ then notifyConnect callback false m s0 else s0).
  assert (H1 : inv b s1) by (unfold s1; case_match; auto using notifyConnect_inv). case_match; auto using call_inv.
Qed.

(** The three waits. *)
Lemma setReadWait_inv {b} d (s : Client) : inv b s -> running_ s = true -> (d = WaitWrite -> tlsState_ s = TlsReady) ->
  inv b (setReadWait d s) ∧ running_ (setReadWait d s) = true.
Proof.
  intros H Hr Hd. destruct (wait_inv (b := b) (setReadWaitField d) s) as (? & ? & _); [by apply inv_core | done | | done].
  intros Hst. split; [apply (i_waits s H Hst) | done].
Qed.

Lemma setWriteWait_inv {b} d (s : Client) : inv b s -> running_ s = true -> (d ≠ NoWait -> sendQueue_ (writer s) ≠ []) -> inv b (setWriteWait d s).
Proof.
  intros H Hr Hd. destruct (wait_inv (b := b) (setWriteWaitField d) s) as (? & _); [by apply inv_core | done | | done].
  intros Hst. split; [done | apply (i_waits s H Hst)].
Qed.

Lemma setHandshakeWait_inv {b} d (s : Client) : core b s ->
  inv b (setHandshakeWait d s) ∧ running_ (setHandshakeWait d s) = true ∧ connected_ (setHandshakeWait d s) = connected_ s.
Proof. intros H. apply (wait_inv (setHandshakeWaitField d)); [done | done | apply (c_waits s H)]. Qed.

Lemma writeTransport_same data (s s' : Client) r : writeTransport ssl data s = (s', r) ->
  (∃ k, s' = setSocket k s) ∧ (∀ n, r = IoOk n -> Zpos n <= zlen data).
Proof.
  unfold writeTransport. destruct (tlsState_ s =s TlsReady); [destruct ssl; cbn [negb]|].
  - destruct (tlsWrite (socket_ s) data) as [k r0] eqn:E. intros [= <- <-]. split; [by eexists|]. intros n Hn.
    destruct r0; try discriminate. cbn in Hn. injection Hn as ->. by eapply tls_write_some.
  - intros [= <- <-]. split; [exists (socket_ s); by destruct s | done].
  - destruct (sockSend (socket_ s) data) as [k r0] eqn:E. intros [= <- <-]. split; [by eexists|]. intros n Hn.
    destruct r0 as [| |[] ?]; try discriminate. cbn in Hn. injection Hn as ->. by eapply send_some.
Qed.

Lemma readTransport_same len (s s' : Client) r : readTransport ssl len s = (s', r) ->
  (∃ k, s' = setSocket k s) ∧ (∀ d, r = IoOk d -> d ≠ [] ∧ zlen d <= len).
Proof.
  unfold readTransport. destruct (tlsState_ s =s TlsReady); [destruct ssl; cbn [negb]|].
  - destruct (tlsRead (socket_ s) len) as [k r0] eqn:E. intros [= <- <-]. split; [by eexists|]. intros n Hn.
    destruct r0; try discriminate. cbn in Hn. injection Hn as ->. by eapply tls_read_some.
  - intros [= <- <-]. split; [exists (socket_ s); by destruct s | done].
  - destruct (sockRecv (socket_ s) len) as [k r0] eqn:E. intros [= <- <-]. split; [by eexists|]. intros n Hn.
    destruct r0 as [| |[] ?]; try discriminate. cbn in Hn. injection Hn as ->. by eapply recv_some.
Qed.

Lemma drainEmpty_inv {b} (s : Client) : inv b s -> running_ s = true -> inv b (drainEmpty ssl callback s).1.
Proof.
  intros H Hr. unfold drainEmpty. set (s1 := stopWriteTimer _). set (s2 := if closeAfterFlush_ (writer s1) then _ else s1).
  assert (H2 : inv b (refreshInterestLocked s2)).
  { apply refresh_core. destruct (inv_core s H Hr) as [C1 C2 C3 C4 C5 C6 C7 C8]. unfold s2.
    destruct (closeAfterFlush_ (writer s1)); (split; [exact C1 | exact C2 | exact C3 | exact C4 | exact C5 | | exact C7 | exact C8]); intros Hst; (split; [done | apply (C6 Hst)]). }
  case_match; cbn [fst]; [by apply close_inv | done].
Qed.

Lemma drain_inv {b} fuel : ∀ (s : Client), inv b s -> inv b (drainLoop ssl callback fuel s).1 ∧
  ((drainLoop ssl callback fuel s).2 = true -> flushReschedule_ (writer (drainLoop ssl callback fuel s).1) = flushReschedule_ (writer s)).
Proof.
  induction fuel as [|fuel IH]; intros s H; [done|]. cbn [drainLoop]. destruct (connected_ s) eqn:Hc; cbn [negb]; [|done].
  pose proof (connected_running s H Hc) as Hr. destruct (sendQueue_ (writer s)) as [|q qs] eqn:E.
  { split; [by apply drainEmpty_inv|]. unfold drainEmpty. intros Hd. destruct (closeAfterFlush_ _); [done|]. cbn [fst].
    match goal with |- context [refreshInterestLocked ?x] => pose proof (refresh_steady x) as Hs end. unfold steady in Hs.
    by injection Hs as _ _ _ _ _ _ _ _ _ _ -> _ _ _ _ _. }
  destruct (i_queue s H) as (Hq & Hwf). rewrite E in Hq. apply Forall_cons in Hq as [[d Hd] _].
  destruct (holds_payload q d Hd) as (_ & _ & _ & ->). rewrite (proj1 Hd).
  destruct (unsent_head (writer s) q d qs E Hd (i_queue s H)) as [_ Hpos].
  set (rest := drop (Z.to_nat (sendOffset_ (writer s))) d) in *.
  destruct (writeTransport ssl rest s) as [s1 r] eqn:Ew. destruct (writeTransport_same rest s s1 r Ew) as [[k ->] Hn].
  assert (H1 : inv b (setSocket k s)) by same. destruct r as [n|wait| |code m]; cbn [fst snd].
  - pose proof (advance_inv (setSocket k s) q d qs (Zpos n) H1 Hc E Hd) as Ha. cbv zeta in Ha. fold rest in Ha.
    specialize (Ha ltac:(split; [lia | by apply Hn])). change (Pos.to_nat n) with (Z.to_nat (Zpos n)).
    change (sendOffset_ (writer (setSocket k s))) with (sendOffset_ (writer s)) in Ha. fold rest in Ha.
    destruct (drainAdvance q (Zpos n) _) as [s2 closeNow]. destruct Ha as (H2 & _ & _ & _ & _ & _ & _ & _ & F & _).
    destruct closeNow; cbn [fst snd]; [split; [by apply close_inv | done]|]. destruct (IH s2 H2) as [I1 I2]. split; [done|].
    intros Ht. by rewrite (I2 Ht), F.
  - split; [|done]. pose proof (armWrite_relevant (setSocket k s)) as Ea. unfold relevant in Ea. injection Ea as E1 _ E2 _ _ _ _ _ _.
    apply setWriteWait_inv; [by apply armWrite_inv | by rewrite E1 |]. rewrite E2. cbn. by rewrite E.
  - split; [by apply close_inv | done].
  - split; [by apply failure_inv | done].
Qed.

Lemma flushDone_inv {b} (s : Client) : inv true s -> inv b (flushDone s).
Proof.
  intros H. unfold flushDone. destruct H as [H1 H2 H3 H4 H5 H6 H7 H8 H9]. split; try done; cbn [writer onWriter setWriter].
  intros Hr. by destruct (H4 Hr) as (? & -> & ?).
Qed.

(** The flush ends where it began, or outside; its second round is never needed. *)
Lemma flush_inv {b} (s : Client) : inv true s -> flushReschedule_ (writer s) = false -> inv b (runQueuedFlush ssl callback s).
Proof.
  intros H Hre. unfold runQueuedFlush. cbn [flushLoop]. destruct (connected_ s); cbn [negb]; [|by apply flushDone_inv].
  pose proof (drain_inv (S (Z.to_nat (queuedBytes (writer s) - sendOffset_ (writer s)))) s H) as [H1 H2]. fold (drainSendQueue ssl callback s) in H1, H2.
  destruct (drainSendQueue ssl callback s) as [s1 drained]. cbn [fst snd] in H1, H2.
  destruct (running_ s1) eqn:Hr; cbn [negb orb]; [|by apply flushDone_inv].
  destruct drained; cbn [negb orb]; [|by apply flushDone_inv]. rewrite (H2 eq_refl), Hre. cbn [negb].
  assert (H3 : inv true (onWriter (setFlushRunning false) s1)) by (by apply tinv_flags).
  destruct H3 as [G1 G2 G3 G4 G5 G6 G7 _ G9]. split; try done. intros _. cbn. by rewrite (H2 eq_refl), Hre.
Qed.

Lemma schedule_inv {b} (s : Client) : inv b s ->
  inv (b || (markFlushScheduledLocked s).2) (markFlushScheduledLocked s).1 ∧
  ((markFlushScheduledLocked s).2 = true -> flushReschedule_ (writer (markFlushScheduledLocked s).1) = false).
Proof.
  intros H. unfold markFlushScheduledLocked. destruct (running_ s) eqn:Hr; cbn [negb]; [|by rewrite orb_false_r].
  destruct (flushRunning_ (writer s)) eqn:Ef; cbn [fst snd]; [rewrite orb_false_r|rewrite orb_true_r].
  - split; [|done]. apply tinv_flags; try done. intros ->. destruct (i_quiet s H eq_refl). congruence.
  - split; [|done]. assert (H1 : inv true s) by (destruct H; by split). by apply tinv_flags.
Qed.

Lemma flush_weaken {b} (s : Client) : inv b s -> inv true s.
Proof. intros []. by split. Qed.

Lemma dispatch_inv {b} sched (s : Client) : inv (b || sched) s -> (sched = true -> flushReschedule_ (writer s) = false) ->
  inv b (dispatchFlushIfNeeded ssl callback sched s).
Proof.
  intros H Hf. unfold dispatchFlushIfNeeded. destruct sched; [|by rewrite orb_false_r in H]. apply flush_inv; [|by apply Hf]. by eapply flush_weaken.
Qed.

(** The queue with one more write. *)
Definition queued (item : QueuedWrite) (data : list byte) (s : Client) : Client :=
  onWriter (fun w => setPendingBytes (pendingWriteBytes_ w + zlen data) (setQueue (sendQueue_ w ++ [item]) w))
    (setAccepted (accepted_ s ++ data) s).

Lemma queued_core {b} item d (s : Client) : inv b s -> connected_ s = true -> holds item d -> core b (queued item d s).
Proof.
  intros H Hc Hd. destruct (enqueued_wf item d (writer s) Hd (i_queue s H)) as [Q1 Q2]. pose proof (connected_running s H Hc) as Hr.
  assert (Hst : written_ s ++ unsent (writer (queued item d s)) = accepted_ s ++ d).
  { unfold queued. cbn [writer onWriter setWriter setAccepted]. by rewrite Q2, app_assoc, (i_stream s H Hc). }
  split; [exact Q1 | intros _; exact Hst | | done | cbn; congruence | | apply (i_quiet s H) | apply (i_closed s H)].
  2: { intros Hs. split; [|apply (i_waits s H Hs)]. intros _. cbn. by destruct (sendQueue_ (writer s)). }
  cbn [written_ accepted_ queued onWriter setWriter setAccepted]. rewrite <- Hst. by eexists.
Qed.

Lemma enqueue_inv {b} item d (s : Client) : inv b s -> connected_ s = true -> holds item d -> inv b (enqueue ssl callback item d s).
Proof.
  intros H Hc Hd. unfold enqueue. fold (queued item d s). pose proof (refresh_core _ (queued_core item d s H Hc Hd)) as H1.
  destruct (schedule_inv _ H1) as [H2 F]. destruct (markFlushScheduledLocked _) as [s1 sched]. cbn [fst snd] in H2, F.
  apply dispatch_inv; [by apply armWrite_inv|]. pose proof (armWrite_steady s1) as Hs. unfold steady in Hs.
  by injection Hs as _ _ _ _ _ _ _ _ _ _ -> _ _ _ _ _.
Qed.

Lemma send_inv {b} h d (s : Client) : inv b s -> inv b (sendWith ssl callback h d s).1.
Proof.
  intros H. unfold sendWith. destruct (connected_ s) eqn:Hc; cbn [negb fst]; [|same]. case_bool_decide as Hd; cbn [fst]; [done|].
  apply enqueue_inv; [done | done | by apply itemOf_holds].
Qed.



Lemma markConnected_inv {b} (s : Client) : inv b s -> running_ s = true -> inv b (markConnected callback s).
Proof.
  intros H Hr. unfold markConnected. set (s1 := armReadTimer _).
  assert (H1 : inv b s1).
  { apply armRead_inv. destruct (inv_core s H Hr) as [C1 C2 C3 C4 C5 C6 C7 C8]. split; try done; [|cbn; congruence | apply (i_interest s H) |].
    2: { intros Hs Hd. specialize (C8 Hs Hd). revert C8. cbn [log setConnected stopConnectTimer setTimers setOpened opened_ connected_]. destruct (connected_ s); lia. }
    intros _. destruct (connected_ s) eqn:Hc; [by apply C2|]. destruct (C5 eq_refl) as (E1 & E2 & E3).
    cbn [written_ accepted_ writer setConnected stopConnectTimer setTimers setOpened]. rewrite E1, E2. unfold unsent. rewrite E3. cbn. by rewrite drop_nil. }
  case_match; auto using notifyTls_inv, notifyConnect_inv.
Qed.

(** TLS starts on an empty queue. *)
Lemma initializeTls_inv {b} (s : Client) : inv b s -> running_ s = true -> sendQueue_ (writer s) = [] -> tlsState_ s = TlsDisabled ->
  inv b (initializeTls ssl s).1 ∧ running_ (initializeTls ssl s).1 = true.
Proof.
  intros H Hr Hq Ht. unfold initializeTls. destruct ssl; cbn [negb]; [|split; [same | done]].
  destruct (tlsInit _ _) as [k e]. destruct e as [[code m]|]; cbn [fst]; [split; [same | done]|].
  split; [|done]. destruct H as [H1 H2 H3 H4 H5 H67 H8 H9 HC]. split; try done.
  - cbn. congruence.
  - intros Hs. destruct (H67 Hs) as [H6 H7]. split; [exact H6|]. cbn. intros E. rewrite (H7 E) in Ht. discriminate.
  - intros Hs _. destruct (H67 Hs) as [H6 H7].
    assert (R1 : (readWait_ (writer s) =s WaitWrite) = false) by (apply bool_decide_eq_false_2; intros E; rewrite (H7 E) in Ht; done).
    assert (R2 : (writeWait_ (writer s) =s WaitWrite) = false) by (apply bool_decide_eq_false_2; intros E; by apply H6; [rewrite E|]).
    specialize (H8 Hs Hr). unfold wantsWrite in H8. rewrite Ht, Hq, R1, R2 in H8. exact H8.
Qed.

Lemma drive_inv {b} (s : Client) : inv b s -> running_ s = true -> inv b (driveTlsHandshake ssl callback s).1.
Proof.
  intros H Hr. unfold driveTlsHandshake. destruct ssl eqn:Essl; cbn [negb]; [|same]. case_match; [done|].
  destruct (tlsHandshake _) as [k r]. assert (H1 : inv b (setSocket k s)) by same. destruct r as [verify| | | |details]; cbn [fst].
  - case_match; cbn [fst]; [same|].
    assert (Hc : core b (setTlsState TlsReady (setSocket k s))).
    { destruct (inv_core _ H1 Hr) as [C1 C2 C3 C4 C5 C6 C7 C8]. split; try done.
      intros Hs. split; [apply (C6 Hs) | done]. }
    destruct (setHandshakeWait_inv NoWait _ Hc) as (? & ? & _). by apply markConnected_inv.
  - apply setHandshakeWait_inv. by apply inv_core.
  - apply setHandshakeWait_inv. by apply inv_core.
  - same.
  - same.
Qed.

Lemma continue_inv {b} (s : Client) : inv b s -> running_ s = true -> inv b (continueHandshake ssl callback s).
Proof.
  intros H Hr. unfold continueHandshake. pose proof (drive_inv s H Hr) as H1. destruct (driveTlsHandshake ssl callback s) as [s1 ok]. cbn [fst] in H1.
  destruct ok; [done|]. by apply failure_inv, notifyHandshakeFailure_inv.
Qed.

Lemma readTransport_wait len (s s' : Client) : readTransport ssl len s = (s', IoWouldBlock WaitWrite) -> tlsState_ s = TlsReady.
Proof.
  unfold readTransport. case_bool_decide; [done|]. destruct (sockRecv _ _) as [k [| |[] ?]]; intros [=].
Qed.

Lemma deliver_inv {b} d (s : Client) : inv b s -> inv b (deliver callback d s).
Proof. intros H. unfold deliver. repeat case_match; auto using call_inv. Qed.

Lemma readLoop_inv {b} fuel : ∀ (s : Client), inv b s -> inv b (readLoop ssl callback fuel s).
Proof.
  induction fuel as [|fuel IH]; intros s H; [done|]. cbn [readLoop]. destruct (running_ s) eqn:Hr; cbn [negb]; [|done].
  destruct (readTransport ssl kReadChunkSize s) as [s1 r] eqn:Er. destruct (readTransport_same _ _ _ _ Er) as [[k ->] _].
  assert (H1 : inv b (setSocket k s)) by same. destruct r as [d|wait| |code m].
  - destruct (setReadWait_inv NoWait _ H1 Hr) as [H2 _]; [done|].
    assert (H3 : inv b (deliver callback d (armReadTimer (setReadWait NoWait (setSocket k s))))) by (by apply deliver_inv, armRead_inv).
    case_match; auto.
  - apply setReadWait_inv; [done | done|]. intros ->. by apply readTransport_wait in Er.
  - by apply close_inv.
  - by apply failure_inv.
Qed.

Lemma handleRead_inv {b} fuel (s : Client) : inv b s -> inv b (handleRead ssl callback fuel s).
Proof.
  intros H. unfold handleRead. destruct (running_ s) eqn:Hr; cbn [negb]; [|done]. case_match; [by apply continue_inv | by apply readLoop_inv].
Qed.

Lemma handleWrite_inv {b} (s : Client) : inv b s -> inv b (handleWrite ssl callback s).
Proof.
  intros H. unfold handleWrite. destruct (running_ s) eqn:Hr; cbn [negb]; [|done]. case_match; [by apply continue_inv|].
  destruct (schedule_inv s H) as [H1 F]. destruct (markFlushScheduledLocked s) as [s1 sched]. by apply dispatch_inv.
Qed.

Lemma handleEvents_inv {b} fuel r w f (s : Client) : inv b s -> inv b (handleEvents ssl callback fuel r w f s).
Proof.
  intros H. unfold handleEvents. set (s1 := if r then _ else s).
  assert (H1 : inv b s1) by (unfold s1; case_match; auto using handleRead_inv). set (s2 := if w then _ else s1).
  assert (H2 : inv b s2) by (unfold s2; case_match; auto using handleWrite_inv). case_match; auto using failure_inv.
Qed.

(** *** Connecting *)

(** Closed, and nothing sent on a new connection. *)
Record fresh (s : Client) : Prop := {
  fr_stopped : running_ s = false ∧ connected_ s = false;
  fr_writer : writer s = idleWriter;
  fr_tls : tlsState_ s = TlsDisabled;
  fr_stream : accepted_ s = [] ∧ written_ s = [];
  fr_closed : strict -> disconnectCallback_ (settings s) = true -> disconnects (log s) = opened_ s
}.

Lemma fresh_inv {b} (s : Client) : fresh s -> inv b s.
Proof. intros [[H1 H2] H3 H4 [H5 H6] H7]. apply stopped_inv; try done. rewrite H6. apply prefix_nil. Qed.

Lemma fresh_same (s s' : Client) : relevant s' = relevant s -> fresh s -> fresh s'.
Proof. unfold relevant. intros E [[? ?] ? ? [? ?] ?]. injection E as E1 E2 E3 E4 E5 E6 E7 E8 E9. split; [split| | |split|]; try congruence. by rewrite E7, E8, E9. Qed.

Lemma connectFailed_inv {b} open f (s : Client) : inv b s -> inv b (connectFailed callback open f s).1.
Proof. intros H. unfold connectFailed. cbn [fst]. apply notifyConnect_inv. destruct open; same. Qed.

Lemma trySocket_inv {b} open call k (s : Client) : (∀ s, fresh s -> inv b (k s).1) -> fresh s -> inv b (trySocket callback open call k s).1.
Proof.
  intros Hk H. unfold trySocket. destruct (call (socket_ s)) as [sk e]. assert (H1 : fresh (setSocket sk s)) by (destruct H; by split).
  destruct e as [f|]; [by apply connectFailed_inv, fresh_inv | by apply Hk].
Qed.

Lemma cleanup_inv {b} (s : Client) : inv b s -> (strict -> connected_ s = false) -> inv b (cleanupInactiveTransport ssl s).
Proof.
  intros H Hc. apply stopped_inv; [reflexivity..| apply (i_prefix s H) |]. pose proof (i_closed s H) as HC. intros Hs Hd.
  rewrite (Hc Hs), Nat.add_0_r in HC. exact (HC Hs Hd).
Qed.

(** A handshake that fails does not change the state of the connection. *)
Lemma drive_failed (s s' : Client) : driveTlsHandshake ssl callback s = (s', false) -> connected_ s' = connected_ s.
Proof.
  unfold driveTlsHandshake. destruct ssl; cbn [negb]; [|by intros [= <-]]. case_match; [done|].
  destruct (tlsHandshake _) as [k [verify| | | |details]]; [|done..| |]; [case_match; [|done]|..]; by intros [= <-].
Qed.

Lemma init_connected (s : Client) : connected_ (initializeTls ssl s).1 = connected_ s.
Proof. unfold initializeTls. destruct ssl; cbn [negb]; [|done]. by destruct (tlsInit _ _) as [k [[code m]|]]. Qed.

(** An attempt that failed is abandoned. *)
Lemma abandon_inv {b} m (s : Client) : inv b s -> connected_ s = false -> inv b (cleanupInactiveTransport ssl (notifyConnect callback false m s)).
Proof.
  intros H Hc. apply cleanup_inv; [by apply notifyConnect_inv|]. intros Hs. pose proof (mild_connect m s Hs) as E.
  revert E. generalize (notifyConnect callback false m s). intros s1 E. unfold relevant in E. by injection E as _ -> _ _ _ _ _ _ _.
Qed.

Lemma secure_inv {b} (s : Client) : inv b s -> running_ s = true -> connected_ s = false -> sendQueue_ (writer s) = [] -> tlsState_ s = TlsDisabled ->
  inv b (secureConnection ssl callback s).1.
Proof.
  intros H Hr Hc Hq Ht. unfold secureConnection. destruct (initializeTls_inv s H Hr Hq Ht) as [H1 Hr1]. pose proof (init_connected s) as Hc1.
  destruct (initializeTls ssl s) as [s1 ok1]. cbn [fst] in H1, Hr1, Hc1. rewrite Hc in Hc1. destruct ok1; cbn [negb]; [|by apply abandon_inv].
  pose proof (drive_inv s1 H1 Hr1) as H2. destruct (driveTlsHandshake ssl callback s1) as [s2 ok2] eqn:E2. cbn [fst] in H2.
  destruct ok2; cbn [negb fst]; [done|]. apply abandon_inv; [done|]. by rewrite (drive_failed _ _ E2).
Qed.

Lemma register_inv {b} (s : Client) : fresh s -> inv b (register ssl callback s).1.
Proof.
  intros H. unfold register. destruct (pollAdd (socket_ s)) as [sk added]. assert (H1 : fresh (setSocket sk s)) by (destruct H; by split).
  destruct added; cbn [negb]; [|by apply connectFailed_inv, fresh_inv]. set (s1 := setRunning true (setSocket sk s)).
  assert (H2 : inv b s1).
  { destruct H1 as [[F1 F2] F3 F4 [F5 F6] F7]. unfold s1. split; cbn [writer running_ connected_ accepted_ written_ tlsState_ setRunning].
    - rewrite F3. split_and!; [constructor | done | done].
    - congruence.
    - rewrite F6. apply prefix_nil.
    - done.
    - intros _ _. by rewrite F3, F5, F6.
    - by rewrite F3.
    - intros _ _. unfold wantsWrite. cbn [writer setRunning tlsState_]. by rewrite F3, F4.
    - by rewrite F3.
    - intros Hs Hd. rewrite F2. cbn. rewrite Nat.add_0_r. by apply F7. }
  assert (Ea : relevant (armConnectTimer s1) = relevant s1) by (unfold armConnectTimer; by case_match).
  assert (H3 : inv b (armConnectTimer s1)) by (by apply (tinv_same s1)). unfold relevant in Ea. injection Ea as E1 E2 E3 E4 E5 E6 _ _ _.
  case_match; [|by apply markConnected_inv; [|rewrite E1]]. apply secure_inv; [done | by rewrite E1 | rewrite E2; apply (fr_stopped _ H1) | |].
  - rewrite E3. exact (f_equal sendQueue_ (fr_writer _ H1)).
  - rewrite E4. exact (fr_tls _ H1).
Qed.

Lemma connect_inv {b} host port cb cfg (s : Client) : inv b s -> inv b (connect ssl callback host port cb cfg s).1.
Proof.
  intros H. unfold connect. assert (H0 : inv b (setPendingConnect cb s)) by same. clear H. set (s0 := setPendingConnect cb s) in *. clearbody s0.
  destruct (running_ s0) eqn:Hr; [by apply connectFailed_inv|].
  assert (Hf : fresh (setSslConfig (if enableSSL cfg then hostnameFor (stripBrackets host) cfg else cfg) (resetTransportState ssl s0))).
  { split; [split; reflexivity | reflexivity | reflexivity | split; reflexivity |]. destruct (i_stopped s0 H0 Hr) as (Hc & _).
    pose proof (i_closed s0 H0) as HC. rewrite Hc, Nat.add_0_r in HC. exact HC. }
  apply trySocket_inv; [|done]. intros s1 F1. apply trySocket_inv; [|done]. intros s2 F2. apply trySocket_inv; [|done]. intros s3 F3.
  apply trySocket_inv; [intros s4 F4; by apply register_inv|]. 
  apply (fresh_same s3); [|done]. unfold updateAddresses. by destruct (sockLocal (socket_ s3)).
Qed.

Lemma startTls_inv {b} cfg cb (s : Client) : inv b s -> inv b (startTls ssl callback cfg cb s).1.
Proof.
  intros H. assert (Href : ∀ code m, inv b (refuseTls callback code m cb s).1).
  { intros code m. unfold refuseTls. cbn [fst]. destruct cb; [apply call_inv; [done|]|]; same. }
  unfold startTls. destruct (negb (running_ s) || negb (connected_ s)) eqn:E1; [done|].
  apply orb_false_iff in E1 as [Hr Hc]. apply negb_false_iff in Hr, Hc.
  destruct ((tlsState_ s =s TlsReady) || (tlsState_ s =s TlsHandshaking)) eqn:E2; [done|].
  apply orb_false_iff in E2 as [T1 T2]. apply bool_decide_eq_false in T1, T2.
  destruct (negb (pendingWriteBytes_ (writer s) =? 0) || _) eqn:E3; [done|]. apply orb_false_iff in E3 as [_ Hq].
  apply negb_false_iff, bool_decide_eq_true in Hq. set (s1 := stopWriteTimer _).
  assert (H1 : inv b s1) by (unfold s1; same). assert (F : running_ s1 = true ∧ sendQueue_ (writer s1) = [] ∧ tlsState_ s1 = TlsDisabled).
  { split_and!; [done | done |]. change (tlsState_ s1) with (tlsState_ s). by destruct (tlsState_ s). }
  clearbody s1. destruct F as (F1 & F2 & F3). destruct (initializeTls_inv s1 H1 F1 F2 F3) as [H2 Hr2].
  destruct (initializeTls ssl s1) as [s2 ok] eqn:Ei. cbn [fst] in H2, Hr2. destruct ok; cbn [negb].
  - pose proof (drive_inv s2 H2 Hr2) as H3. destruct (driveTlsHandshake ssl callback s2) as [s3 ok2]. cbn [fst] in H3.
    destruct ok2; cbn [negb fst]; [done|]. by apply close_inv, notifyHandshakeFailure_inv.
  - cbn [fst]. apply close_inv. set (m := lastFailureText _ _). pose proof (notifyTls_inv false m s2 H2) as H3.
    set (s3 := notifyTlsUpgrade callback false m s2) in *.
    assert (F4 : tlsState_ s2 = TlsDisabled).
    { unfold initializeTls in Ei. destruct ssl; cbn [negb] in Ei; [|injection Ei as <-; done].
      destruct (tlsInit _ _) as [k [[code m']|]]; [|done]. injection Ei as <-. done. }
    assert (F5 : strict -> tlsState_ s3 = TlsDisabled).
    { intros Hs. unfold s3, notifyTlsUpgrade. case_match; [|done].
      match goal with |- tlsState_ (callback _ ?x) = _ => pose proof (mild Hs (OnTls n false m) x eq_refl) as Em end. unfold relevant in Em. injection Em as _ _ _ -> _ _ _ _ _. done. }
    destruct H3 as [G1 G2 G3 G4 G5 G6 G7 G8 G9]. split; try done.
    + intros Hr3. by destruct (G4 Hr3) as (? & ? & _).
    + intros Hs. specialize (G6 Hs). rewrite (F5 Hs) in G6. exact G6.
    + intros Hs Hr3. specialize (G7 Hs Hr3). unfold wantsWrite in *. rewrite (F5 Hs) in G7. exact G7.
Qed.

Lemma disconnect_inv {b} (s : Client) : inv b s -> inv b (disconnect ssl callback s).
Proof.
  intros H. unfold disconnect. apply close_inv. set (s1 := if _ && _ then notifyConnect callback false _ s else s).
  assert (H1 : inv b s1) by (unfold s1; case_match; auto using notifyConnect_inv). case_match; auto using notifyTls_inv.
Qed.

Lemma disconnectAfter_inv {b} (s : Client) : inv b s -> inv b (disconnectAfterPendingWrites ssl callback s).
Proof.
  intros H. unfold disconnectAfterPendingWrites. destruct (connected_ s) eqn:Hc; cbn [negb]; [|by apply disconnect_inv].
  pose proof (connected_running s H Hc) as Hr. case_match.
  - apply close_inv. apply tinv_flags; try done. apply (i_quiet s H).
  - apply refresh_core, inv_core; [|done]. apply tinv_flags; try done. apply (i_quiet s H).
Qed.

Lemma timeouts_inv {b} c r w (s : Client) : inv b s -> inv b (setWriteTimeout w (setReadTimeout r (setConnectTimeout c s))).
Proof.
  intros H. assert (H1 : relevant (setConnectTimeout c s) = relevant s) by (unfold setConnectTimeout, armConnectTimer; by repeat case_match).
  assert (H2 : ∀ s, relevant (setReadTimeout (Sock := Sock) r s) = relevant s) by (intros s'; unfold setReadTimeout, armReadTimer; by repeat case_match).
  assert (H3 : ∀ s, relevant (setWriteTimeout (Sock := Sock) w s) = relevant s) by (intros s'; unfold setWriteTimeout, armWriteTimer; by repeat case_match).
  apply (tinv_same s); [by rewrite H3, H2, H1 | done].
Qed.

Lemma userCall_inv {b} (s : Client) c : inv b s -> inv b (userCall ssl callback s c).
Proof.
  intros H. destruct c; cbn [userCall]; auto using connect_inv, startTls_inv, send_inv, disconnect_inv, disconnectAfter_inv, timeouts_inv.
Qed.

Lemma happens_inv {b} (s : Client) e : inv b s -> inv b (happens ssl callback s e).
Proof.
  intros H. destruct (stopTimers_inv s H) as (T1 & T2 & T3).
  destruct e; cbn [happens]; [by apply userCall_inv | by apply handleEvents_inv |..];
    unfold connectTimerFired, readTimerFired, writeTimerFired; repeat case_match; auto using failure_inv.
Qed.

End Preserved.

Lemma callbackAt_mild react depth : (strict -> ∀ e, isFailureNotice e = true -> react e = []) ->
  strict -> ∀ e (s : Client), isFailureNotice e = true -> relevant (callbackAt ssl react depth e s) = relevant s.
Proof.
  intros Hm Hs e s He. assert (E : relevant (emit e s) = relevant s).
  { unfold relevant. cbn [emit setLog log running_ connected_ writer tlsState_ accepted_ written_ opened_ settings].
    unfold disconnects. rewrite List.filter_app. cbn. destruct e; try done; by rewrite app_nil_r. }
  destruct depth; cbn [callbackAt]; [done|]. by rewrite (Hm Hs e He).
Qed.

(** With the user's functions nested to any depth. *)
Lemma callbackAt_inv react depth : (strict -> ∀ e, isFailureNotice e = true -> react e = []) ->
  ∀ b e (s : Client), inv b (emit e s) -> inv b (callbackAt ssl react depth e s).
Proof.
  intros Hm. induction depth as [|depth IH]; intros b e s H; cbn [callbackAt]; [done|].
  revert H. generalize (emit e s). induction (react e) as [|c cs IHc]; intros s1 H1; cbn; [done|].
  apply IHc, userCall_inv; [done | | done]. by apply callbackAt_mild.
Qed.

Lemma run_inv {b} react depth stimuli : (strict -> ∀ e, isFailureNotice e = true -> react e = []) ->
  ∀ (s : Client), inv b s -> inv b (run ssl react depth stimuli s).
Proof.
  intros Hm. unfold run. induction stimuli as [|e es IH]; intros s H; cbn; [done|]. apply IH, happens_inv; [by apply callbackAt_inv | | done].
  by apply callbackAt_mild.
Qed.

Lemma initial_inv {b} k c : inv b (initial k c).
Proof. apply stopped_inv; done. Qed.

End Invariant.

(** ** What a flush achieves *)

Section Flush.
Context {Sock : Type} {sock : Socket Sock} {laws : SocketLaws Sock} (ssl : bool).
Abbreviation Client := (@Impl Sock).

Context (takes : Sock -> Prop) (willing : taking takes).

Lemma refresh_takes (s : Client) : takes (socket_ s) -> takes (socket_ (refreshInterestLocked s)).
Proof. intros H. unfold refreshInterestLocked. case_match; [done|]. case_match; [done|]. cbn. by apply (tk_poll _ willing). Qed.

Lemma armWrite_socket (s : Client) : socket_ (armWriteTimer s) = socket_ s.
Proof. unfold armWriteTimer. by case_match. Qed.

Lemma advance_takes q n (s : Client) : takes (socket_ s) -> takes (socket_ (drainAdvance q n s).1).
Proof.
  intros H. unfold drainAdvance, setWriteWait. set (s1 := onWriter _ (refreshInterestLocked _)).
  assert (H1 : takes (socket_ s1)) by (by apply refresh_takes). clearbody s1.
  case_match; cbn [fst]; [apply refresh_takes; by rewrite armWrite_socket|].
  match goal with |- context [let '(_, _) := ?c in _] => destruct c as [s2 closeNow] eqn:E end. cbn [fst]. apply refresh_takes.
  case_bool_decide; injection E as <- <-; [by destruct (closeAfterFlush_ _)|]. by rewrite armWrite_socket.
Qed.

Lemma write_takes d (s : Client) : takes (socket_ s) -> d ≠ [] -> (tlsState_ s = TlsReady -> ssl = true) ->
  ∃ k n, writeTransport ssl d s = (setSocket k s, IoOk n) ∧ takes k ∧ Zpos n <= zlen d.
Proof.
  intros H Hd Ht. unfold writeTransport. case_bool_decide as E.
  - rewrite (Ht E). cbn [negb]. destruct (tk_tls _ willing _ _ H Hd) as (k & n & E1 & Hk). rewrite E1. exists k, n. split_and!; [done | done |].
    by eapply tls_write_some.
  - destruct (tk_send _ willing _ _ H Hd) as (k & n & E1 & Hk). rewrite E1. exists k, n. split_and!; [done | done |]. by eapply send_some.
Qed.

(** What a flush does not touch. *)
Definition kept (s : Client) := (tlsUpgradeInProgress_ s, tlsState_ s, settings s).

(** The end of a flush: everything is written, and the connection closed if that was asked for. *)
Definition flushed (s s' : Client) (drained : bool) : Prop :=
  written_ s' = accepted_ s ∧ accepted_ s' = accepted_ s ∧
  if closeAfterFlush_ (writer s)
  then drained = false ∧ connected_ s' = false ∧ log s' = log s ++ (if disconnectCallback_ (settings s) then [OnDisconnect (str "Connection closed")] else [])
  else drained = true ∧ connected_ s' = true ∧ sendQueue_ (writer s') = [] ∧ log s' = log s ∧
       flushReschedule_ (writer s') = flushReschedule_ (writer s) ∧ takes (socket_ s') ∧ kept s' = kept s ∧ closeAfterFlush_ (writer s') = false.

(** No TLS upgrade is under way, and TLS is only used where it was built in. *)
Definition plainly (s : Client) : Prop := tlsUpgradeInProgress_ s = false ∧ (tlsState_ s = TlsReady -> ssl = true).

Lemma close_flushed (s : Client) : inv True true s -> connected_ s = true -> tlsUpgradeInProgress_ s = false ->
  let s' := closeWithReason ssl emit (str "Connection closed") s in
  written_ s' = written_ s ∧ accepted_ s' = accepted_ s ∧ connected_ s' = false ∧
  log s' = log s ++ (if disconnectCallback_ (settings s) then [OnDisconnect (str "Connection closed")] else []).
Proof.
  intros H Hc Hu. unfold closeWithReason. rewrite Hu. cbn [andb]. rewrite (connected_running _ _ H Hc). cbn [negb].
  change (connected_ (onSocket pollRemove (setRunning false s))) with (connected_ s). rewrite Hc. cbn [andb].
  set (s2 := closeSocket _). assert (E : settings s2 = settings s ∧ log s2 = log s ∧ written_ s2 = written_ s ∧ accepted_ s2 = accepted_ s ∧ connected_ s2 = false) by (by split_and!).
  clearbody s2. destruct E as (E1 & E2 & E3 & E4 & E5). rewrite E1.
  destruct (disconnectCallback_ (settings s)); cbn [emit setLog log written_ accepted_ connected_]; rewrite ?E2, ?app_nil_r; by split_and!.
Qed.


Lemma unsent_nil w : sendQueue_ w = [] -> unsent w = [].
Proof. intros E. unfold unsent. rewrite E. cbn. by rewrite drop_nil. Qed.

Lemma refresh_kept (s : Client) : kept (refreshInterestLocked s) = kept s.
Proof. unfold refreshInterestLocked. case_match; [done|]. by case_match. Qed.

Lemma armWrite_kept (s : Client) : kept (armWriteTimer s) = kept s.
Proof. unfold armWriteTimer. by case_match. Qed.

Lemma advance_kept q n (s : Client) : kept (drainAdvance q n s).1 = kept s.
Proof.
  unfold drainAdvance, setWriteWait. set (s1 := onWriter _ (refreshInterestLocked _)).
  assert (E : kept s1 = kept s) by (exact (refresh_kept (onWriter (setWriteWaitField NoWait) s))). clearbody s1. rewrite <- E.
  case_match; cbn [fst]; [by rewrite refresh_kept, armWrite_kept|].
  match goal with |- context [let '(_, _) := ?c in _] => destruct c as [s2 closeNow] eqn:E2 end. cbn [fst]. rewrite refresh_kept.
  case_bool_decide; injection E2 as <- <-; [by destruct (closeAfterFlush_ _)|]. by rewrite armWrite_kept.
Qed.

(** Enough rounds, and a system that takes what it is given. *)
Lemma drain_all fuel : ∀ (s : Client), inv True true s -> connected_ s = true -> takes (socket_ s) -> plainly s ->
  zlen (unsent (writer s)) < Z.of_nat fuel ->
  flushed s (drainLoop ssl emit fuel s).1 (drainLoop ssl emit fuel s).2.
Proof.
  induction fuel as [|fuel IH]; intros s H Hc Ht Hp Hf; [pose proof (zlen_nonneg (unsent (writer s))); lia|]. cbn [drainLoop].
  rewrite Hc. cbn [negb]. pose proof (i_stream _ _ _ H Hc) as Hst.
  destruct (sendQueue_ (writer s)) as [|q qs] eqn:E.
  - pose proof (unsent_nil _ E) as Hu. rewrite Hu, app_nil_r in Hst.
    unfold drainEmpty, flushed. set (s1 := stopWriteTimer _). change (closeAfterFlush_ (writer s1)) with (closeAfterFlush_ (writer s)).
    destruct (closeAfterFlush_ (writer s)) eqn:Ecl; cbn [fst snd].
    + set (s2 := refreshInterestLocked _).
      assert (H2 : inv True true s2).
      { unfold s2. destruct (inv_core _ _ H (connected_running _ _ H Hc)) as [C1 C2 C3 C4 C5 C6 C7 C8].
        apply refresh_core. split; try done. intros Hs. split; [done | apply (C6 Hs)]. }
      pose proof (refresh_steady (onWriter (setCloseAfterFlush false) s1)) as Hsd. fold s2 in Hsd.
      pose proof (refresh_kept (onWriter (setCloseAfterFlush false) s1)) as Hk. fold s2 in Hk. clearbody s2.
      unfold steady in Hsd. injection Hsd as _ D2 _ D4 D5 _ _ _ _ _ _ D12 D13 _ _ _. unfold kept in Hk. injection Hk as K1 K2 K3.
      destruct (close_flushed s2 H2) as (F1 & F2 & F3 & F4); [by rewrite D2 | by rewrite K1; apply Hp|].
      split_and!; [by rewrite F1, D5 | by rewrite F2, D4 | done | done | by rewrite F4, D12, D13].
    + pose proof (refresh_steady s1) as Hsd. pose proof (refresh_takes s1 Ht) as Ht1. pose proof (refresh_kept s1) as Hk.
      generalize dependent (refreshInterestLocked s1). intros s2 Hsd Ht1 Hk. unfold steady in Hsd.
      injection Hsd as _ D2 _ D4 D5 D6 _ _ D9 _ D11 D12 _ _ _ _. split_and!; try done; congruence.
  - destruct (i_queue _ _ _ H) as (Hq & Hwf). rewrite E in Hq. apply Forall_cons in Hq as [[d Hd] _].
    destruct (holds_payload q d Hd) as (_ & _ & _ & ->). rewrite (proj1 Hd).
    destruct (unsent_head (writer s) q d qs E Hd (i_queue _ _ _ H)) as [_ Hpos].
    set (rest := drop (Z.to_nat (sendOffset_ (writer s))) d) in *.
    destruct (write_takes rest s Ht) as (k & n & -> & Hk & Hn); [by intros E2; rewrite E2 in Hpos | apply Hp|].
    assert (H1 : inv True true (setSocket k s)) by (by apply (tinv_same _ s)).
    pose proof (advance_inv _ (setSocket k s) q d qs (Zpos n) H1 Hc E Hd) as Ha. cbv zeta in Ha. fold rest in Ha.
    specialize (Ha ltac:(split; [lia | done])). change (Pos.to_nat n) with (Z.to_nat (Zpos n)).
    change (sendOffset_ (writer (setSocket k s))) with (sendOffset_ (writer s)) in Ha. fold rest in Ha.
    set (s1 := setWritten _ _) in *. pose proof (advance_takes q (Zpos n) s1 Hk) as Ht2. pose proof (advance_kept q (Zpos n) s1) as K.
    change (written_ (setSocket k s)) with (written_ s) in *. fold s1.
    destruct (drainAdvance q (Zpos n) s1) as [s2 closeNow]. cbn [fst] in Ht2, K. pose proof K as K0. change (kept s1) with (kept s) in K0.
    unfold kept in K. injection K as K1 K2 K3.
    destruct Ha as (H2 & Hc2 & _ & Ha2 & Hw2 & Hz & Hl2 & _ & Hre & Hcl). change (writer (setSocket k s)) with (writer s) in *.
    change (accepted_ (setSocket k s)) with (accepted_ s) in *. change (log (setSocket k s)) with (log s) in *.
    destruct closeNow; cbn [fst snd].
    + destruct Hcl as [Hcl1 Hcl2]. destruct (close_flushed s2 H2 Hc2) as (F1 & F2 & F3 & F4); [by rewrite K1; apply Hp|].
      assert (Hall : written_ s2 = accepted_ s2).
      { rewrite <- (i_stream _ _ _ H2 Hc2), (unsent_nil _ Hcl2). by rewrite app_nil_r. }
      unfold flushed. rewrite Hcl1. split_and!; [by rewrite F1, Hall | by rewrite F2 | done | done | by rewrite F4, Hl2, K3].
    + destruct Hcl as [Hcl1 Hcl2]. destruct (IH s2 H2 Hc2 Ht2) as (I1 & I2 & I3).
      { split; [by rewrite K1; apply Hp | rewrite K2; apply Hp]. }
      { lia. }
      unfold flushed. rewrite I1, I2, Ha2, <- Hcl1. split_and!; [done | done|]. rewrite Hl2, K3, Hre, K0 in I3. exact I3.
Qed.


Lemma plainly_kept (s s' : Client) : kept s' = kept s -> plainly s -> plainly s'.
Proof. unfold plainly, kept. intros E. injection E as -> -> _. done. Qed.

(** A flush that starts outside of another. *)
Lemma flush_all (s : Client) : inv True true s -> connected_ s = true -> flushReschedule_ (writer s) = false -> takes (socket_ s) -> plainly s ->
  let s' := runQueuedFlush ssl emit s in
  written_ s' = accepted_ s ∧ accepted_ s' = accepted_ s ∧
  if closeAfterFlush_ (writer s)
  then connected_ s' = false ∧ log s' = log s ++ (if disconnectCallback_ (settings s) then [OnDisconnect (str "Connection closed")] else [])
  else connected_ s' = true ∧ sendQueue_ (writer s') = [] ∧ log s' = log s ∧ takes (socket_ s') ∧ kept s' = kept s ∧ closeAfterFlush_ (writer s') = false.
Proof.
  intros H Hc Hre Ht Hp. unfold runQueuedFlush. cbn [flushLoop]. rewrite Hc. cbn [negb].
  assert (Hf : zlen (unsent (writer s)) < Z.of_nat (S (Z.to_nat (queuedBytes (writer s) - sendOffset_ (writer s))))).
  { rewrite <- (pending_unsent _ (i_queue _ _ _ H)). destruct (i_queue _ _ _ H) as (_ & _ & ->). lia. }
  pose proof (drain_all _ s H Hc Ht Hp Hf) as Hd. fold (drainSendQueue ssl emit s) in Hd.
  destruct (drain_inv ssl True emit (fun b e s H => H) (S (Z.to_nat (queuedBytes (writer s) - sendOffset_ (writer s)))) s H) as [H1 _].
  fold (drainSendQueue ssl emit s) in H1. destruct (drainSendQueue ssl emit s) as [s1 drained]. cbn [fst snd] in Hd, H1.
  destruct Hd as (W & A & F). destruct (closeAfterFlush_ (writer s)).
  - destruct F as (-> & F1 & F2). rewrite orb_true_r. by split_and!.
  - destruct F as (-> & F1 & F2 & F3 & F4 & F5 & F6 & F7). rewrite (connected_running _ _ H1 F1), F4, Hre. by split_and!.
Qed.

Lemma scheduled (s : Client) : inv True false s -> running_ s = true ->
  markFlushScheduledLocked s = (onWriter (fun w => setFlushReschedule false (setFlushRunning true w)) s, true) ∧
  inv True true (onWriter (fun w => setFlushReschedule false (setFlushRunning true w)) s).
Proof.
  intros H Hr. destruct (i_quiet _ _ _ H eq_refl) as [Hq _]. destruct (schedule_inv True s H) as [H1 _].
  unfold markFlushScheduledLocked in *. rewrite Hr, Hq in *. done.
Qed.

Lemma write_event (s : Client) : inv True false s -> connected_ s = true -> tlsState_ s ≠ TlsHandshaking -> takes (socket_ s) -> plainly s ->
  let s' := handleWrite ssl emit s in
  written_ s' = accepted_ s ∧ accepted_ s' = accepted_ s ∧
  if closeAfterFlush_ (writer s)
  then connected_ s' = false ∧ log s' = log s ++ (if disconnectCallback_ (settings s) then [OnDisconnect (str "Connection closed")] else [])
  else connected_ s' = true ∧ sendQueue_ (writer s') = [] ∧ log s' = log s ∧ takes (socket_ s') ∧ kept s' = kept s ∧ closeAfterFlush_ (writer s') = false.
Proof.
  intros H Hc Hh Ht Hp. unfold handleWrite. pose proof (connected_running _ _ H Hc) as Hr. rewrite Hr. cbn [negb].
  rewrite bool_decide_eq_false_2 by done. destruct (scheduled s H Hr) as [-> H1]. cbn [dispatchFlushIfNeeded].
  exact (flush_all _ H1 Hc eq_refl Ht Hp).
Qed.

(** [send] on a connection that is not being closed: the bytes are written behind the others. *)
Lemma send_event h d (s : Client) : inv True false s -> connected_ s = true -> takes (socket_ s) -> plainly s -> closeAfterFlush_ (writer s) = false ->
  d ≠ [] -> let s' := (sendWith ssl emit h d s).1 in
  (sendWith ssl emit h d s).2 = true ∧ written_ s' = accepted_ s ++ d ∧ accepted_ s' = accepted_ s ++ d ∧ connected_ s' = true ∧
  log s' = log s ∧ inv True false s' ∧ takes (socket_ s') ∧ plainly s' ∧ closeAfterFlush_ (writer s') = false.
Proof.
  intros H Hc Ht Hp Hcl Hd. pose proof (send_inv ssl True emit (fun b e s H => H) h d s H) as Hi. unfold sendWith in *. rewrite Hc in *. cbn [negb] in *.
  rewrite bool_decide_eq_false_2 in * by done. cbn [fst snd] in *. unfold enqueue in *. fold (queued (itemOf h d) d s) in *.
  pose proof (queued_core True (itemOf h d) d s H Hc (itemOf_holds h d Hd)) as Hcore.
  destruct (refresh_inv True _ Hcore) as (R1 & R2 & R3). pose proof (refresh_steady (queued (itemOf h d) d s)) as Hs.
  pose proof (refresh_kept (queued (itemOf h d) d s)) as Hk. pose proof (refresh_takes (queued (itemOf h d) d s) Ht) as Ht1.
  set (s1 := refreshInterestLocked _) in *. clearbody s1. unfold steady in Hs. injection Hs as _ _ _ S4 S5 _ _ _ S9 _ _ S12 _ _ _ _.
  unfold kept in Hk. injection Hk as K1 K2 K3. destruct (scheduled s1 R1 R2) as [E H2]. rewrite E in *. cbn [dispatchFlushIfNeeded] in *.
  set (s2 := onWriter _ s1) in *.
  pose proof (armWrite_steady s2) as Ha. pose proof (armWrite_kept s2) as Hk. pose proof (armWrite_socket s2) as Hso. pose proof (armWrite_inv True s2 H2) as H3.
  set (s3 := armWriteTimer s2) in *. clearbody s3. unfold steady in Ha. injection Ha as _ A2 _ A4 _ _ _ _ A9 _ A11 A12 _ _ _ _.
  assert (Hc3 : connected_ s3 = true) by (by rewrite A2, <- Hc). assert (Hcl3 : closeAfterFlush_ (writer s3) = false) by (by rewrite A9, S9).
  assert (K : kept s3 = kept s) by (rewrite Hk; unfold kept; cbn; by rewrite K1, K2, K3).
  assert (Hp3 : plainly s3) by (by apply (plainly_kept s)).
  destruct (flush_all s3 H3 Hc3) as (W & A & F); [by rewrite A11 | by rewrite Hso | done|]. rewrite Hcl3 in F. destruct F as (F1 & F2 & F3 & F4 & F5 & F6).
  rewrite A12 in F3. change (log s2) with (log s1) in F3. rewrite A4 in W, A. change (accepted_ s2) with (accepted_ s1) in W, A. rewrite S4 in W, A.
  split_and!; try done; [by rewrite F3, S12 | by apply (plainly_kept s3)].
Qed.

End Flush.

(** ** Claims *)

(** C9. The bytes of a connection: over every sequence of calls, socket events and timers,
    whatever the user's functions do on the client and however deeply their calls nest,
    what the system took is a prefix of what [send] took; while connected, it is followed
    exactly by what is queued, so that nothing is lost, duplicated or reordered; and
    [pendingWriteBytes_] counts the queued bytes, down to a closed connection's none. *)
Theorem tcp_stream {Sock} {sock : Socket Sock} {laws : SocketLaws Sock} ssl react depth stimuli k c :
  let s := run ssl react depth stimuli (initial k c) in
  written_ s `prefix_of` accepted_ s ∧ pendingWriteBytes_ (writer s) = zlen (unsent (writer s)) ∧
  if connected_ s then written_ s ++ unsent (writer s) = accepted_ s else unsent (writer s) = [].
Proof.
  intros s. assert (H : inv False false s) by (apply run_inv; [done | apply initial_inv]).
  split_and!; [apply (i_prefix _ _ _ H) | apply pending_unsent, (i_queue _ _ _ H) |]. destruct (connected_ s) eqn:Hc; [by apply (i_stream _ _ _ H)|].
  destruct (running_ s) eqn:Hr.
  - apply unsent_nil. by apply (i_dialling _ _ _ H Hr Hc).
  - by destruct (i_stopped _ _ _ H Hr) as (_ & -> & _).
Qed.

(** Every connection that was established is reported closed exactly once: the calls of
    the disconnect function and the connection that is up make the connections there were,
    after every sequence of calls, socket events and timers.  The user's functions may use
    the client, except when they are told that a connect or an upgrade failed. *)
Theorem tcp_closed_once {Sock} {sock : Socket Sock} {laws : SocketLaws Sock} ssl react depth stimuli k c :
  (∀ e, isFailureNotice e = true -> react e = []) ->
  let s := run ssl react depth stimuli (initial k c) in
  disconnectCallback_ (settings s) = true -> (disconnects (log s) + (if connected_ s then 1 else 0) = opened_ s)%nat.
Proof.
  intros Hm s Hd. assert (H : inv True false s) by (apply run_inv; [done | apply initial_inv]). by apply (i_closed _ _ _ H).
Qed.

(** C10. Progress, on a connection with bytes to write and no TLS handshake or upgrade under way:
    the poller is asked for writability unless TLS waits to read before it can write, and
    then only if it also waits to write before it can read; and when writability is reported
    and the system takes what it is given, one event writes every byte [send] has taken, in
    order, and then closes the connection if that was asked for with
    [disconnectAfterPendingWrites] - not before, and with one call of the disconnect function.
    The state is any that calls, socket events and timers lead to; the user's functions may
    use the client, except when they are told that a connect or an upgrade failed. *)
Theorem tcp_flush {Sock} {sock : Socket Sock} {laws : SocketLaws Sock} ssl (takes : Sock -> Prop) react depth stimuli k c :
  (∀ e, isFailureNotice e = true -> react e = []) -> taking takes ->
  let s := run ssl react depth stimuli (initial k c) in
  connected_ s = true -> tlsState_ s ≠ TlsHandshaking -> plainly ssl s -> unsent (writer s) ≠ [] -> takes (socket_ s) ->
  writeInterestEnabled_ (writer s) = negb (writeWait_ (writer s) =s WaitRead) || (readWait_ (writer s) =s WaitWrite) ∧
  let s' := handleWrite ssl emit s in
  written_ s' = accepted_ s ∧
  if closeAfterFlush_ (writer s)
  then connected_ s' = false ∧ log s' = log s ++ (if disconnectCallback_ (settings s) then [OnDisconnect (str "Connection closed")] else [])
  else connected_ s' = true ∧ unsent (writer s') = [] ∧ log s' = log s.
Proof.
  intros Hm Hw s Hc Hh Hp Hu Ht. assert (H : inv True false s) by (apply run_inv; [done | apply initial_inv]). split.
  - rewrite (i_interest _ _ _ H I (connected_running _ _ H Hc)). unfold wantsWrite. rewrite bool_decide_eq_false_2 by done.
    rewrite (bool_decide_eq_false_2 (sendQueue_ _ = [])) by (intros E; by apply Hu, unsent_nil).
    destruct (writeWait_ (writer s)); cbn; by rewrite ?orb_false_r.
  - destruct (write_event ssl takes Hw s H Hc Hh Ht Hp) as (W & _ & F). split; [done|].
    destruct (closeAfterFlush_ (writer s)); [done|]. destruct F as (F1 & F2 & F3 & _). split_and!; [done | by apply unsent_nil | done].
Qed.

(** ** The interface of the clients above *)

Section Interface.
Context {Sock : Type} {sock : Socket Sock} (ssl : bool).
Abbreviation Client := (@Impl Sock).

(** What an operation reported while it ran; the clients give each connect one function. *)
Definition during {A} (op : Client -> Client * A) (s : Client) : Client * A * list Event :=
  let '(s', a) := op s in (s', a, drop (length (log s)) (log s')).

Definition connectResult (l : list Event) : option (bool * list byte) :=
  head (omap (fun e => match e with OnConnectResult _ ok m => Some (ok, m) | _ => None end) l).
Definition disconnection (l : list Event) : option (list byte) :=
  head (omap (fun e => match e with OnDisconnect r => Some r | _ => None end) l).
Definition reportedError (l : list Event) : option Failure :=
  head (omap (fun e => match e with OnError c m => Some (c, m) | _ => None end) l).

Definition closing (op : Client -> Client) (s : Client) : Client * option (list byte) * option (list byte) :=
  let '(s', _, l) := during (fun s => (op s, tt)) s in (s', snd <$> connectResult l, disconnection l).

#[export] Instance impl_tcp : TcpClient Client := {
  tcpConnect s host port cfg :=
    let '(s', ok, l) := during (connect ssl emit host port (Some 0%nat) cfg) s in (s', ok, connectResult l);
  tcpSend s data :=
    let '(s', ok, l) := during (sendView ssl emit data) s in (s', ok, (fun r => (reportedError l, r)) <$> disconnection l);
  tcpClose := closing (disconnect ssl emit);
  tcpCloseAfterWrites := closing (disconnectAfterPendingWrites ssl emit);
  lastFailure s := if isFailure (getLastError s) then Some (lastFailure_ s) else None
}.

(** A connected client on a willing system takes whatever it is given, without a callback,
    and has then written all of it. *)
Definition serving (takes : Sock -> Prop) (s : Client) : Prop :=
  inv True false s ∧ connected_ s = true ∧ takes (socket_ s) ∧ plainly ssl s ∧ closeAfterFlush_ (writer s) = false ∧ written_ s = accepted_ s.

Lemma serving_sends {laws : SocketLaws Sock} takes d (s : Client) : taking takes -> serving takes s ->
  ∃ s', tcpSend s d = (s', true, None) ∧ serving takes s' ∧ written_ s' = written_ s ++ d.
Proof.
  intros Hw (H & Hc & Ht & Hp & Hcl & Hwa). cbn [tcpSend impl_tcp]. unfold during, sendView. destruct (decide (d = [])) as [->|Hd].
  - unfold sendWith. rewrite Hc. cbn. rewrite drop_all, app_nil_r. exists s. by split_and!.
  - destruct (send_event ssl takes Hw HeldString d s H Hc Ht Hp Hcl Hd) as (E1 & E2 & E3 & E4 & E5 & E6 & E7 & E8 & E9).
    destruct (sendWith ssl emit HeldString d s) as [s' ok]. cbn [fst snd] in *. subst ok. rewrite E5, drop_all. exists s'.
    split_and!; try done; [|by rewrite Hwa]. split_and!; try done. by rewrite E2, E3.
Qed.

(** Several texts, one after the other. *)
Lemma serving_sends_all {laws : SocketLaws Sock} takes texts : ∀ (s : Client), taking takes -> serving takes s ->
  let s' := fold_left (fun n d => (tcpSend n d).1.1) texts s in serving takes s' ∧ written_ s' = written_ s ++ concat texts.
Proof.
  induction texts as [|d texts IH]; intros s Hw H; cbn [fold_left concat]; [by rewrite app_nil_r|].
  destruct (serving_sends takes d s Hw H) as (s1 & E & H1 & W). rewrite E. cbn [fst]. destruct (IH s1 Hw H1) as [H2 W2].
  split; [done|]. by rewrite W2, W, app_assoc.
Qed.

End Interface.

(** ** Runs *)

Definition openPipe : Pipe := mkPipe [] [] [] [] [] true false.
Definition narrowPipe : Pipe := mkPipe [4; 0; 0] [] [] [] [] true false.
Definition tlsPipe : Pipe := mkPipe [] [] [] [] [SslWantRead; SslDone None] true false.

(** The functions the HTTP and WebSocket clients set. *)
Definition owned : Settings := mkSettings 5000 0 0 false true false true false true.
Definition tlsConfig : SSLConfig := mkSsl true [] [] [] true [].

Definition dial (token : nat) (cfg : SSLConfig) : Stimulus := Call (CallConnect (str "h") 80 (Some token) cfg).
Definition sendOf (text : list byte) : Stimulus := Call (CallSend HeldString text).
Definition noReaction (e : Event) : list UserCall := [].

(** Four of eleven bytes go through; then the rest waits, and the close behind it. *)
Definition halfWritten : Impl := run true noReaction 0
  [dial 1 defaultSsl; sendOf (str "hello "); sendOf (str "world"); Call CallDisconnectAfterPendingWrites] (initial narrowPipe owned).

Lemma tcp_stream_witness :
  written_ halfWritten `prefix_of` accepted_ halfWritten ∧ pendingWriteBytes_ (writer halfWritten) = zlen (unsent (writer halfWritten)) ∧
  if connected_ halfWritten then written_ halfWritten ++ unsent (writer halfWritten) = accepted_ halfWritten else unsent (writer halfWritten) = [].
Proof.
  exact (tcp_stream true noReaction 0 [dial 1 defaultSsl; sendOf (str "hello "); sendOf (str "world"); Call CallDisconnectAfterPendingWrites]
    narrowPipe owned).
Defined.

Example half_written : written_ halfWritten = str "hell" ∧ pendingWriteBytes_ (writer halfWritten) = 7 ∧ connected_ halfWritten = true ∧
  writeInterestEnabled_ (writer halfWritten) = true.
Proof. by vm_compute. Qed.

(** A function that answers what it receives and closes on an error. *)
Definition echo (e : Event) : list UserCall :=
  match e with OnData d => [CallSend HeldBuffer d] | OnError _ _ => [CallDisconnect] | _ => [] end.

Definition echoed : list Stimulus := [dial 1 defaultSsl; Ready 2 true false false; Ready 0 false false true].

Lemma tcp_closed_once_witness :
  let s := run true echo 3 echoed (initial (mkPipe [] [] [] [str "ping"] [] true false) owned) in
  (disconnects (log s) + (if connected_ s then 1 else 0) = opened_ s)%nat.
Proof.
  intros s. refine (tcp_closed_once true echo 3 echoed (mkPipe [] [] [] [str "ping"] [] true false) owned _ _).
  - by intros [].
  - by vm_compute.
Defined.

Example echo_run :
  let s := run true echo 3 echoed (initial (mkPipe [] [] [] [str "ping"] [] true false) owned) in
  clear (socket_ s) = str "ping" ∧
  log s = [OnConnectResult 1 true []; OnData (str "ping"); OnError SocketError (str "Connection closed by peer"); OnDisconnect (str "Connection closed")].
Proof. by vm_compute. Qed.

(** The close waits for the seven bytes that are left, which the next event writes. *)
Lemma tcp_flush_witness :
  let s := halfWritten in
  writeInterestEnabled_ (writer s) = negb (writeWait_ (writer s) =s WaitRead) || (readWait_ (writer s) =s WaitWrite) ∧
  let s' := handleWrite true emit s in
  written_ s' = accepted_ s ∧
  if closeAfterFlush_ (writer s)
  then connected_ s' = false ∧ log s' = log s ++ (if disconnectCallback_ (settings s) then [OnDisconnect (str "Connection closed")] else [])
  else connected_ s' = true ∧ unsent (writer s') = [] ∧ log s' = log s.
Proof.
  refine (tcp_flush true roomy noReaction 0 [dial 1 defaultSsl; sendOf (str "hello "); sendOf (str "world"); Call CallDisconnectAfterPendingWrites]
    narrowPipe owned _ roomy_takes _ _ _ _ _).
  - done.
  - by vm_compute.
  - by vm_compute.
  - by vm_compute.
  - by vm_compute.
  - by vm_compute.
Defined.

Example flushed_and_closed :
  let s := handleWrite true emit halfWritten in
  clear (socket_ s) = str "hello world" ∧ log s = [OnConnectResult 1 true []; OnDisconnect (str "Connection closed")].
Proof. by vm_compute. Qed.

(** *** What goes wrong *)

(** [connect] while another is under way replaces the function of the first before it refuses
    the second: the first is never called, though its connection comes up. *)
Example first_callback_lost :
  let s := run true noReaction 0 [dial 1 tlsConfig; dial 2 tlsConfig; Ready 1 true false false] (initial tlsPipe owned) in
  connected_ s = true ∧ log s = [OnConnectResult 2 false (str "Connection is already active")].
Proof. by vm_compute. Qed.

(** While [startTls] shakes hands the connection counts as connected, and what is sent then
    goes out in clear. *)
Example clear_during_upgrade :
  let s := run true noReaction 0 [dial 1 defaultSsl; Call (CallStartTls tlsConfig (Some 2%nat)); sendOf (str "password"); Ready 1 true false false]
    (initial tlsPipe owned) in
  tlsState_ s = TlsReady ∧ clear (socket_ s) = str "password" ∧ secret (socket_ s) = [].
Proof. by vm_compute. Qed.

(** A function that reconnects when it is told of an error: the new connection is closed with
    the reason of the old one. *)
Definition reconnect (e : Event) : list UserCall :=
  match e with OnError _ _ => [CallDisconnect; CallConnect (str "h") 80 (Some 2%nat) defaultSsl] | _ => [] end.

Example reconnected_then_closed :
  let s := run true reconnect 1 [dial 1 defaultSsl; Ready 0 false false true] (initial openPipe owned) in
  connected_ s = false ∧
  log s = [OnConnectResult 1 true []; OnError SocketError (str "Connection closed by peer"); OnDisconnect (str "Connection closed");
           OnConnectResult 2 true []; OnDisconnect (str "Connection closed by peer")].
Proof. by vm_compute. Qed.

(** One that reconnects when it is told that TLS cannot start: its connection is dropped without a
    report. *)
Definition fallBack (e : Event) : list UserCall :=
  match e with OnConnectResult 1%nat false _ => [CallDisconnect; CallConnect (str "h") 80 (Some 2%nat) defaultSsl] | _ => [] end.

Example dropped_silently :
  let s := run true fallBack 1 [dial 1 tlsConfig] (initial (mkPipe [] [] [] [] [] false false) owned) in
  connected_ s = false ∧ opened_ s = 1%nat ∧
  log s = [OnConnectResult 1 false (str "Error [SSLError]: no certificate"); OnConnectResult 2 true []].
Proof. by vm_compute. Qed.

(** A TLS write that must read first is not tried again when something was read: the poller is not
    asked for writability, and the bytes stay where they are. *)
Example write_stalls :
  let s := run true noReaction 0 [dial 1 tlsConfig; sendOf (str "hi"); Ready 2 true false false; Ready 2 true false false]
    (initial (mkPipe [] [] [] [str "key update"] [SslDone None] true true) owned) in
  tlsMustRead (socket_ s) = false ∧ writeInterestEnabled_ (writer s) = false ∧ pendingWriteBytes_ (writer s) = 2 ∧
  log s = [OnConnectResult 1 true []; OnData (str "key update")].
Proof. by vm_compute. Qed.

(** Between the registration with the poller and the announcement, which hold no lock, an event
    delivers data of a connection that has not been announced. *)
Example data_before_announcement :
  let registered := setRunning true (initial (mkPipe [] [] [] [str "early"] [] true false) owned) in
  let s := markConnected emit (setPendingConnect (Some 1%nat) (handleRead true emit 1 registered)) in
  log s = [OnData (str "early"); OnConnectResult 1 true []].
Proof. by vm_compute. Qed.
