(* ===== verification/ClientStack.v ===== *)
(** * The WebSocket client on the TCP client

    [WebSocketClient] was verified against the interface of [ClientTransport]; here the
    interface is [TcpClientImpl] itself, down to the bytes the system takes. *)

From S2P Require Import Prelude WebSocketProtocol WebSocketFraming ClientTransport SessionTypes PipeSocket TcpClientImpl TcpClientStream WebSocketClient.

(** C29. The WebSocket client on the TCP client: whatever text, binary, ping and pong frames
    arrive, cut into segments of any sizes, the message callbacks run once per message, in
    order and with the payload unaltered, and the bytes that reach the system behind what
    was written before are exactly one masked pong per ping, in order; the connection stays
    up.  The system must take what it is given. *)
Theorem ws_over_tcp {Sock} {sock : Socket Sock} {laws : SocketLaws Sock} ssl takes react rand
    (s : WebSocketClient.Impl (Net := TcpClientImpl.Impl (Sock := Sock))) fs segments :
  (∀ e, react e = []) -> taking takes -> serving ssl takes (net s) ->
  messageCallback_ (options s) = true -> ownedBinaryCallback_ (options s) || binaryCallback_ (options s) = true ->
  state_ s = Connected -> makeBufferedView s = [] -> inBounds s ->
  Forall serverFrame fs -> concat segments = concat (wire <$> fs) ->
  let s' := fold_left (fun s d => handleDataReceived (tcp := impl_tcp ssl) react rand d s) segments s in
  log s' = log s ++ eventsOf fs ∧ written_ (net s') = written_ (net s) ++ concat (pongs rand (rng_ s) fs) ∧
  state_ s' = Connected ∧ TcpClientImpl.connected_ (net s') = true.
Proof.
  intros Hr Hw Hn Hm Hb Hs Hv Hi Hf Hc s'.
  destruct (client_delivery (tcp := impl_tcp ssl) react rand (serving ssl takes) s fs segments) as (L & N & S & _); try done.
  - intros n d H. destruct (serving_sends ssl takes d n Hw H) as (n' & E & H' & _). by exists n'.
  - destruct (serving_sends_all ssl takes (pongs rand (rng_ s) fs) (net s) Hw Hn) as [H1 W]. unfold s'. rewrite N. unfold sendAll.
    split_and!; [done | done | done | apply H1].
Qed.

(** ** A concrete run *)

(** The TCP client after a plain connect. *)
Definition upTcp : TcpClientImpl.Impl (Sock := Pipe) := TcpClientImpl.run true noReaction 0 [dial 1 defaultSsl] (TcpClientImpl.initial openPipe owned).

Lemma upTcp_serving : serving true roomy upTcp.
Proof.
  split; [apply run_inv; [done | apply initial_inv]|]. split_and!; by vm_compute.
Qed.

Definition stackClient : WebSocketClient.Impl (Net := TcpClientImpl.Impl (Sock := Pipe)) :=
  mkImpl upTcp wsOptions true Connected false false (mkEndpoint (str "h") 80 (str "/")) [] [] None [] 0 noTimers false 0 [].

Lemma ws_over_tcp_witness :
  let bytes := concat (wire <$> helloFrames) in
  let s' := fold_left (fun s d => handleDataReceived (tcp := impl_tcp true) quiet wsRand d s) [take 3 bytes; drop 3 bytes] stackClient in
  log s' = log stackClient ++ eventsOf helloFrames ∧
  written_ (net s') = written_ (net stackClient) ++ concat (pongs wsRand (rng_ stackClient) helloFrames) ∧
  state_ s' = Connected ∧ TcpClientImpl.connected_ (net s') = true.
Proof.
  intros bytes. refine (ws_over_tcp true roomy quiet wsRand stackClient helloFrames [take 3 bytes; drop 3 bytes] _ roomy_takes upTcp_serving _ _ _ _ _ helloFrames_server _).
  - done.
  - reflexivity.
  - reflexivity.
  - reflexivity.
  - reflexivity.
  - by vm_compute; lia.
  - cbn [concat]. rewrite app_nil_r. apply take_drop.
Defined.

(** One pong is on the wire, masked. *)
Example pong_written :
  let bytes := concat (wire <$> helloFrames) in
  let s' := handleDataReceived (tcp := impl_tcp true) quiet wsRand bytes stackClient in
  clear (TcpClientImpl.socket_ (net s')) = encodeFrame (wsRand 0) (str "?") Pong true.
Proof. by vm_compute. Qed.
