(* ===== verification/ClientSession.v ===== *)
(** * A session of the TCP server (class ClientSession of src/TcpServer.cpp)

    The data of a session and everything it does by itself, as it is built on POSIX systems:
    pending sends (buffers and ranges of files), timers, the poller's interest, reads and
    writes, draining the queue up to the point where the session must be closed.  What calls
    back into the server is in [TcpServerImpl].  [ssl] is the build option
    FASTNET_ENABLE_SSL.  [accepted_] and [written_] record what was given to [send] and
    [sendFile] and what the system took; no operation reads them. *)

From S2P Require Import Prelude Address ClientTransport Transport SessionTypes.

(** ** Data *)

Record SessionTimeoutConfig := mkTimeouts {
  connectionTimeoutMs : Z;
  readTimeoutMs : Z;
  writeTimeoutMs : Z
}.

Definition kBufferedFileChunkSize : Z := 64 * 1024.
Definition kDirectFileSendChunkSize : Z := 1024 * 1024.

Inductive PendingSendKind := BufferKind | FileKind.

Record PendingSend := mkPending {
  kind : PendingSendKind;
  bufferOffset : Z;
  ownedBuffer : list byte;
  ownedString : list byte;
  sharedBuffer : option (list byte);
  sharedString : option (list byte);
  filePath : list byte;
  fileOffset : Z;
  fileLength : Z;
  fileBytesSent : Z;
  directSendEligible : bool;
  fileHandle : list byte;
  stagingBuffer : list byte;
  stagingOffset : Z
}.

Definition setBufferOffset x (s : PendingSend) : PendingSend := mkPending (kind s) x (ownedBuffer s) (ownedString s) (sharedBuffer s) (sharedString s) (filePath s) (fileOffset s) (fileLength s) (fileBytesSent s) (directSendEligible s) (fileHandle s) (stagingBuffer s) (stagingOffset s).
Definition setFileBytesSent x (s : PendingSend) : PendingSend := mkPending (kind s) (bufferOffset s) (ownedBuffer s) (ownedString s) (sharedBuffer s) (sharedString s) (filePath s) (fileOffset s) (fileLength s) x (directSendEligible s) (fileHandle s) (stagingBuffer s) (stagingOffset s).
Definition setStagingBuffer x (s : PendingSend) : PendingSend := mkPending (kind s) (bufferOffset s) (ownedBuffer s) (ownedString s) (sharedBuffer s) (sharedString s) (filePath s) (fileOffset s) (fileLength s) (fileBytesSent s) (directSendEligible s) (fileHandle s) x (stagingOffset s).
Definition setStagingOffset x (s : PendingSend) : PendingSend := mkPending (kind s) (bufferOffset s) (ownedBuffer s) (ownedString s) (sharedBuffer s) (sharedString s) (filePath s) (fileOffset s) (fileLength s) (fileBytesSent s) (directSendEligible s) (fileHandle s) (stagingBuffer s) x.

(** [refreshPayloadView], which every move into the queue runs; no bytes for a null view. *)
Definition payloadView (p : PendingSend) : list byte :=
  match kind p with
  | FileKind => []
  | BufferKind =>
      if negb (ownedBuffer p =s []) then ownedBuffer p
      else if negb (ownedString p =s []) then ownedString p
      else match sharedBuffer p with
           | Some ((_ :: _) as b) => b
           | _ => default [] (sharedString p)
           end
  end.

(** [fromBuffer], [fromString], [fromStringView], [fromSharedBuffer], [fromSharedString]. *)
Definition pendingOf (h : Held) (d : list byte) : PendingSend :=
  let bufferSend b t sb ss := mkPending BufferKind 0 b t sb ss [] 0 0 0 false [] [] 0 in
  match h with
  | HeldBuffer => bufferSend d [] None None
  | HeldString => bufferSend [] d None None
  | HeldSharedBuffer => bufferSend [] [] (Some d) None
  | HeldSharedString => bufferSend [] [] None (Some d)
  end.

(** The entry [sendFile] makes. *)
Definition pendingFile (path content : list byte) (offset length : Z) (direct : bool) : PendingSend :=
  mkPending FileKind 0 [] [] None None path offset length 0 direct content [] 0.

Definition remainingFileBytes (p : PendingSend) : Z :=
  if fileBytesSent p <? fileLength p then fileLength p - fileBytesSent p else 0.

Definition isComplete (p : PendingSend) : bool :=
  match kind p with
  | BufferKind => zlen (payloadView p) <=? bufferOffset p
  | FileKind => fileLength p <=? fileBytesSent p
  end.

(** What [sendMutex_] protects. *)
Record Writer := mkWriter {
  sendQueue_ : list PendingSend;
  closeAfterFlush_ : bool;
  flushRunning_ : bool;
  flushReschedule_ : bool;
  writeInterestEnabled_ : bool;
  readWait_ : WaitDirection;
  writeWait_ : WaitDirection;
  handshakeWait_ : WaitDirection
}.

Definition idleWriter : Writer := mkWriter [] false false false false NoWait NoWait NoWait.

Definition setQueue x (s : Writer) : Writer := mkWriter x (closeAfterFlush_ s) (flushRunning_ s) (flushReschedule_ s) (writeInterestEnabled_ s) (readWait_ s) (writeWait_ s) (handshakeWait_ s).
Definition setCloseAfterFlush x (s : Writer) : Writer := mkWriter (sendQueue_ s) x (flushRunning_ s) (flushReschedule_ s) (writeInterestEnabled_ s) (readWait_ s) (writeWait_ s) (handshakeWait_ s).
Definition setFlushRunning x (s : Writer) : Writer := mkWriter (sendQueue_ s) (closeAfterFlush_ s) x (flushReschedule_ s) (writeInterestEnabled_ s) (readWait_ s) (writeWait_ s) (handshakeWait_ s).
Definition setFlushReschedule x (s : Writer) : Writer := mkWriter (sendQueue_ s) (closeAfterFlush_ s) (flushRunning_ s) x (writeInterestEnabled_ s) (readWait_ s) (writeWait_ s) (handshakeWait_ s).
Definition setInterest x (s : Writer) : Writer := mkWriter (sendQueue_ s) (closeAfterFlush_ s) (flushRunning_ s) (flushReschedule_ s) x (readWait_ s) (writeWait_ s) (handshakeWait_ s).
Definition setReadWaitField x (s : Writer) : Writer := mkWriter (sendQueue_ s) (closeAfterFlush_ s) (flushRunning_ s) (flushReschedule_ s) (writeInterestEnabled_ s) x (writeWait_ s) (handshakeWait_ s).
Definition setWriteWaitField x (s : Writer) : Writer := mkWriter (sendQueue_ s) (closeAfterFlush_ s) (flushRunning_ s) (flushReschedule_ s) (writeInterestEnabled_ s) (readWait_ s) x (handshakeWait_ s).
Definition setHandshakeWaitField x (s : Writer) : Writer := mkWriter (sendQueue_ s) (closeAfterFlush_ s) (flushRunning_ s) (flushReschedule_ s) (writeInterestEnabled_ s) (readWait_ s) (writeWait_ s) x.

Record SessionTimers := mkTimers {
  connectionTimer_ : option Z;
  readTimer_ : option Z;
  writeTimer_ : option Z
}.

(** Which functions the session was given besides [readyCallback_] and [closedCallback_]. *)
Record SessionCallbacks := mkCallbacks {
  dataCallback_ : bool;
  ownedDataCallback_ : bool;
  sharedDataCallback_ : bool;
  errorCallback_ : bool
}.

Section Session.
Context {Sock : Type} {sock : Socket Sock} {system : ServerSystem Sock} (ssl : bool).

(** [sslContext_] is the configuration behind the pointer. *)
Record ClientSession := mkSession {
  socket_ : Sock;
  id_ : ConnectionId;
  clientAddress_ : Address;
  sslContext_ : option SSLConfig;
  timeoutConfig_ : SessionTimeoutConfig;
  callbacks : SessionCallbacks;
  running_ : bool;
  ready_ : bool;
  writer : Writer;
  tlsState_ : TlsState;
  lastFailure_ : Failure;
  timers : SessionTimers;
  accepted_ : list byte;
  written_ : list byte
}.

Definition setSocket x (s : ClientSession) : ClientSession := mkSession x (id_ s) (clientAddress_ s) (sslContext_ s) (timeoutConfig_ s) (callbacks s) (running_ s) (ready_ s) (writer s) (tlsState_ s) (lastFailure_ s) (timers s) (accepted_ s) (written_ s).
Definition setTimeoutConfig x (s : ClientSession) : ClientSession := mkSession (socket_ s) (id_ s) (clientAddress_ s) (sslContext_ s) x (callbacks s) (running_ s) (ready_ s) (writer s) (tlsState_ s) (lastFailure_ s) (timers s) (accepted_ s) (written_ s).
Definition setRunning x (s : ClientSession) : ClientSession := mkSession (socket_ s) (id_ s) (clientAddress_ s) (sslContext_ s) (timeoutConfig_ s) (callbacks s) x (ready_ s) (writer s) (tlsState_ s) (lastFailure_ s) (timers s) (accepted_ s) (written_ s).
Definition setReady x (s : ClientSession) : ClientSession := mkSession (socket_ s) (id_ s) (clientAddress_ s) (sslContext_ s) (timeoutConfig_ s) (callbacks s) (running_ s) x (writer s) (tlsState_ s) (lastFailure_ s) (timers s) (accepted_ s) (written_ s).
Definition setWriter x (s : ClientSession) : ClientSession := mkSession (socket_ s) (id_ s) (clientAddress_ s) (sslContext_ s) (timeoutConfig_ s) (callbacks s) (running_ s) (ready_ s) x (tlsState_ s) (lastFailure_ s) (timers s) (accepted_ s) (written_ s).
Definition setTlsState x (s : ClientSession) : ClientSession := mkSession (socket_ s) (id_ s) (clientAddress_ s) (sslContext_ s) (timeoutConfig_ s) (callbacks s) (running_ s) (ready_ s) (writer s) x (lastFailure_ s) (timers s) (accepted_ s) (written_ s).
Definition setFailure x (s : ClientSession) : ClientSession := mkSession (socket_ s) (id_ s) (clientAddress_ s) (sslContext_ s) (timeoutConfig_ s) (callbacks s) (running_ s) (ready_ s) (writer s) (tlsState_ s) x (timers s) (accepted_ s) (written_ s).
Definition setTimers x (s : ClientSession) : ClientSession := mkSession (socket_ s) (id_ s) (clientAddress_ s) (sslContext_ s) (timeoutConfig_ s) (callbacks s) (running_ s) (ready_ s) (writer s) (tlsState_ s) (lastFailure_ s) x (accepted_ s) (written_ s).
Definition setAccepted x (s : ClientSession) : ClientSession := mkSession (socket_ s) (id_ s) (clientAddress_ s) (sslContext_ s) (timeoutConfig_ s) (callbacks s) (running_ s) (ready_ s) (writer s) (tlsState_ s) (lastFailure_ s) (timers s) x (written_ s).
Definition setWritten x (s : ClientSession) : ClientSession := mkSession (socket_ s) (id_ s) (clientAddress_ s) (sslContext_ s) (timeoutConfig_ s) (callbacks s) (running_ s) (ready_ s) (writer s) (tlsState_ s) (lastFailure_ s) (timers s) (accepted_ s) x.

Definition onWriter (f : Writer -> Writer) (c : ClientSession) : ClientSession := setWriter (f (writer c)) c.
Definition onSocket (f : Sock -> Sock) (c : ClientSession) : ClientSession := setSocket (f (socket_ c)) c.

(** A session as it is constructed. *)
Definition newSession (k : Sock) (id : ConnectionId) (a : Address) (ctx : option SSLConfig) (t : SessionTimeoutConfig)
    (cb : SessionCallbacks) : ClientSession :=
  mkSession k id a ctx t cb false false idleWriter TlsDisabled (Success, []) (mkTimers None None None) [] [].

(** ** Timers *)

Definition stopConnectionTimer (c : ClientSession) : ClientSession := setTimers (mkTimers None (readTimer_ (timers c)) (writeTimer_ (timers c))) c.
Definition stopReadTimer (c : ClientSession) : ClientSession := setTimers (mkTimers (connectionTimer_ (timers c)) None (writeTimer_ (timers c))) c.
Definition stopWriteTimer (c : ClientSession) : ClientSession := setTimers (mkTimers (connectionTimer_ (timers c)) (readTimer_ (timers c)) None) c.
Definition stopAllTimers (c : ClientSession) : ClientSession := stopWriteTimer (stopReadTimer (stopConnectionTimer c)).

Definition armConnectionTimer (c : ClientSession) : ClientSession :=
  let t := connectionTimeoutMs (timeoutConfig_ c) in
  if t =? 0 then c else setTimers (mkTimers (Some t) (readTimer_ (timers c)) (writeTimer_ (timers c))) c.
Definition armReadTimer (c : ClientSession) : ClientSession :=
  let t := readTimeoutMs (timeoutConfig_ c) in
  if (t =? 0) || negb (ready_ c) then c else setTimers (mkTimers (connectionTimer_ (timers c)) (Some t) (writeTimer_ (timers c))) c.
Definition armWriteTimer (c : ClientSession) : ClientSession :=
  let t := writeTimeoutMs (timeoutConfig_ c) in
  if (t =? 0) || negb (ready_ c) then c else setTimers (mkTimers (connectionTimer_ (timers c)) (readTimer_ (timers c)) (Some t)) c.

Definition hasPendingWrite (c : ClientSession) : bool := negb (bool_decide (sendQueue_ (writer c) = [])).

Definition updateTimeouts (t : SessionTimeoutConfig) (c : ClientSession) : ClientSession :=
  let c := setTimeoutConfig t c in
  let c := if connectionTimeoutMs t =? 0 then stopConnectionTimer c else if running_ c then armConnectionTimer c else c in
  let c := if readTimeoutMs t =? 0 then stopReadTimer c else if ready_ c then armReadTimer c else c in
  if (writeTimeoutMs t =? 0) || negb (hasPendingWrite c) then stopWriteTimer c else if ready_ c then armWriteTimer c else c.

(** ** The poller's interest in writes *)

Definition wantsWrite (c : ClientSession) : bool :=
  let w := writer c in
  if tlsState_ c =s TlsHandshaking then handshakeWait_ w =s WaitWrite
  else
    let shouldEnableWrite := hasPendingWrite c && negb (writeWait_ w =s WaitRead) in
    if shouldEnableWrite then true else (readWait_ w =s WaitWrite) || (writeWait_ w =s WaitWrite).

Definition refreshInterestLocked (c : ClientSession) : ClientSession :=
  if negb (running_ c) then onWriter (setInterest false) c
  else
    let shouldEnableWrite := wantsWrite c in
    if Bool.eqb (writeInterestEnabled_ (writer c)) shouldEnableWrite then c
    else onWriter (setInterest shouldEnableWrite) (onSocket (fun k => pollModify k shouldEnableWrite) c).

Definition setReadWait (d : WaitDirection) (c : ClientSession) : ClientSession := refreshInterestLocked (onWriter (setReadWaitField d) c).
Definition setWriteWait (d : WaitDirection) (c : ClientSession) : ClientSession := refreshInterestLocked (onWriter (setWriteWaitField d) c).
Definition setHandshakeWait (d : WaitDirection) (c : ClientSession) : ClientSession := refreshInterestLocked (onWriter (setHandshakeWaitField d) c).

(** ** Reads and writes *)

Definition readTransport (len : Z) (c : ClientSession) : ClientSession * IoResult (list byte) :=
  if tlsState_ c =s TlsReady then
    if negb ssl then (c, IoError SSLError withoutSsl)
    else let '(k, r) := tlsRead (socket_ c) len in (setSocket k c, ioOfSsl (str "TLS read failed") r)
  else let '(k, r) := sockRecv (socket_ c) len in (setSocket k c, ioOfSys WaitRead r).

Definition writeTransport (data : list byte) (c : ClientSession) : ClientSession * IoResult positive :=
  if tlsState_ c =s TlsReady then
    if negb ssl then (c, IoError SSLError withoutSsl)
    else let '(k, r) := tlsWrite (socket_ c) data in (setSocket k c, ioOfSsl (str "TLS write failed") r)
  else let '(k, r) := sockSend (socket_ c) data in (setSocket k c, ioOfSys WaitWrite r).

(** The bytes of [d] a write took. *)
Definition tookOf (d : list byte) (r : IoResult positive) : list byte :=
  match r with IoOk n => take (Pos.to_nat n) d | _ => [] end.
Definition countOf (r : IoResult positive) : IoResult Z :=
  match r with
  | IoOk n => IoOk (Zpos n)
  | IoWouldBlock w => IoWouldBlock w
  | IoClosed => IoClosed
  | IoError code message => IoError code message
  end.

Definition endOfFile : list byte := str "Reached end of file before the configured range was sent".

Definition clearStaging (p : PendingSend) : PendingSend := setStagingOffset 0 (setStagingBuffer [] p).

(** The staged bytes, or some of them; the third result is what the system took. *)
Definition writeStaged (p : PendingSend) (c : ClientSession) : ClientSession * PendingSend * list byte * IoResult Z :=
  let staged := drop (Z.to_nat (stagingOffset p)) (stagingBuffer p) in
  let '(c, result) := writeTransport staged c in
  let p := match result with
           | IoOk n =>
               let p := setFileBytesSent (fileBytesSent p + Zpos n) (setStagingOffset (stagingOffset p + Zpos n) p) in
               if zlen (stagingBuffer p) <=? stagingOffset p then clearStaging p else p
           | _ => p
           end in
  (c, p, tookOf staged result, countOf result).

Definition sendDirectly (p : PendingSend) (c : ClientSession) : ClientSession * PendingSend * list byte * IoResult Z :=
  let absoluteOffset := fileOffset p + fileBytesSent p in
  let chunkSize := Z.min (remainingFileBytes p) kDirectFileSendChunkSize in
  let '(k, sent) := sockSendFile (socket_ c) (fileHandle p) absoluteOffset chunkSize in
  let c := setSocket k c in
  match sent with
  | SysDone n =>
      (c, setFileBytesSent (fileBytesSent p + Zpos n) p, take (Pos.to_nat n) (drop (Z.to_nat absoluteOffset) (fileHandle p)), IoOk (Zpos n))
  | SysZero => (c, p, [], IoError UnknownError endOfFile)
  | SysErrno true _ => (c, p, [], IoWouldBlock WaitWrite)
  | SysErrno false message => (c, p, [], IoError SocketError message)
  end.

Definition writeFilePendingSend (p : PendingSend) (c : ClientSession) : ClientSession * PendingSend * list byte * IoResult Z :=
  if remainingFileBytes p =? 0 then (c, p, [], IoOk 0)
  else if directSendEligible p then sendDirectly p c
  else if zlen (stagingBuffer p) <=? stagingOffset p then
    let chunkSize := Z.min (remainingFileBytes p) kBufferedFileChunkSize in
    let '(k, read) := fileRead (socket_ c) (fileHandle p) (fileOffset p + fileBytesSent p) chunkSize in
    let c := setSocket k c in
    match read with
    | None => (c, clearStaging p, [], IoError UnknownError (str "Failed to read file"))
    | Some [] => (c, clearStaging p, [], IoError UnknownError endOfFile)
    | Some data => writeStaged (setStagingOffset 0 (setStagingBuffer data p)) c
    end
  else writeStaged p c.

Definition writePendingSend (p : PendingSend) (c : ClientSession) : ClientSession * PendingSend * list byte * IoResult Z :=
  match kind p with
  | BufferKind =>
      if zlen (payloadView p) <=? bufferOffset p then (c, p, [], IoOk 0)
      else
        let rest := drop (Z.to_nat (bufferOffset p)) (payloadView p) in
        let '(c, result) := writeTransport rest c in
        (c, match result with IoOk n => setBufferOffset (bufferOffset p + Zpos n) p | _ => p end, tookOf rest result, countOf result)
  | FileKind => writeFilePendingSend p c
  end.

(** ** Closing down *)

Definition clearQueuesAndWaits : ClientSession -> ClientSession := setWriter idleWriter.
Definition releaseTls (c : ClientSession) : ClientSession := setTlsState TlsDisabled (onSocket (fun k => if ssl then tlsFree k else k) c).
Definition closeSocket : ClientSession -> ClientSession := onSocket sockClose.

(** [close] of a session that does not run. *)
Definition closeStopped (c : ClientSession) : ClientSession :=
  setReady false (clearQueuesAndWaits (closeSocket (releaseTls (stopAllTimers c)))).

(** [close] of a running session, up to the call of [closedCallback_]. *)
Definition closeRunning (c : ClientSession) : ClientSession :=
  let c := onSocket pollRemove (setRunning false c) in
  closeSocket (releaseTls (clearQueuesAndWaits (stopAllTimers (setReady false c)))).

Definition abortStartup (c : ClientSession) : ClientSession :=
  let c := stopAllTimers (setReady false (setRunning false c)) in
  closeSocket (releaseTls (clearQueuesAndWaits (onSocket pollRemove c))).

(** ** The write queue *)

Definition markFlushScheduledLocked (c : ClientSession) : ClientSession * bool :=
  if negb (running_ c) then (c, false)
  else if flushRunning_ (writer c) then (onWriter (setFlushReschedule true) c, false)
  else (onWriter (fun w => setFlushReschedule false (setFlushRunning true w)) c, true).

(** How [drainSendQueue] ends: with the queue written, with a write that would block, by
    closing the session (after the flush or because the peer closed), by reporting a
    failure, or on a session that is not ready. *)
Inductive DrainEnd :=
  | DrainDone
  | DrainBlocked
  | DrainClose (reason : list byte)
  | DrainFail (code : ErrorCode) (message : list byte)
  | DrainNotReady.

(** The queue has been found empty; the flag tells whether to close. *)
Definition drainedLocked (c : ClientSession) : ClientSession * bool :=
  let c := stopWriteTimer c in
  let shouldCloseAfterFlush := closeAfterFlush_ (writer c) in
  (if shouldCloseAfterFlush then onWriter (setCloseAfterFlush false) c else c, shouldCloseAfterFlush).

(** What follows a write: a completed entry leaves the queue. *)
Definition popCompleted (c : ClientSession) : ClientSession * bool :=
  let c := match sendQueue_ (writer c) with
           | p :: ps => if isComplete p then onWriter (setQueue ps) c else c
           | [] => c
           end in
  let '(c, closeNow) := if bool_decide (sendQueue_ (writer c) = []) then drainedLocked c else (armWriteTimer c, false) in
  (refreshInterestLocked c, closeNow).

Fixpoint drainLoop (fuel : nat) (c : ClientSession) : ClientSession * DrainEnd :=
  match fuel with
  | O => (c, DrainBlocked)
  | S fuel =>
      let continue '(c, closeNow) := if closeNow : bool then (c, DrainClose (str "Connection closed")) else drainLoop fuel c in
      if negb (ready_ c) then (c, DrainNotReady)
      else
        match sendQueue_ (writer c) with
        | [] =>
            let '(c, shouldCloseAfterFlush) := drainedLocked (onWriter (setWriteWaitField NoWait) c) in
            (refreshInterestLocked c, if shouldCloseAfterFlush then DrainClose (str "Connection closed") else DrainDone)
        | current :: rest =>
            if isComplete current then continue (popCompleted c)
            else
              let '(c, current, took, result) := writePendingSend current c in
              let c := setWritten (written_ c ++ took) (onWriter (setQueue (current :: rest)) c) in
              match result with
              | IoOk _ => continue (popCompleted (armConnectionTimer (setWriteWait NoWait c)))
              | IoWouldBlock wait => (setWriteWait wait (armWriteTimer c), DrainBlocked)
              | IoClosed => (c, DrainClose (str "Connection closed by peer"))
              | IoError code message => (c, DrainFail code message)
              end
        end
  end.

(** The bytes an entry has still to write, by its counters. *)
Definition pendingBytes (p : PendingSend) : Z :=
  match kind p with BufferKind => zlen (payloadView p) - bufferOffset p | FileKind => remainingFileBytes p end.
Definition queuedBytes (w : Writer) : Z := fold_right (fun p n => pendingBytes p + n) 0 (sendQueue_ w).

(** Rounds that suffice: each writes a byte or drops an entry, and the last finds an empty queue. *)
Definition drainFuel (c : ClientSession) : nat :=
  S (Z.to_nat (queuedBytes (writer c)) + length (sendQueue_ (writer c))).

Definition flushDone : ClientSession -> ClientSession := onWriter (fun w => setFlushReschedule false (setFlushRunning false w)).

(** The part the overloads of [send] and [sendFile] share: entries of the queue, for the bytes [data]. *)
Definition enqueueLocked (entries : list PendingSend) (data : list byte) (c : ClientSession) : ClientSession * bool :=
  let c := setAccepted (accepted_ c ++ data) c in
  markFlushScheduledLocked (refreshInterestLocked (onWriter (fun w => setQueue (sendQueue_ w ++ entries) w) c)).

(** ** TLS *)

Definition failed (code : ErrorCode) (message : list byte) (c : ClientSession) : ClientSession * bool := (setFailure (code, message) c, false).

Definition initializeTls (cfg : SSLConfig) (c : ClientSession) : ClientSession * bool :=
  if negb ssl then failed SSLError withoutSsl c
  else
    let '(k, e) := tlsInit (socket_ c) cfg in
    let c := setSocket k c in
    match e with
    | Some (code, message) => failed code message c
    | None => (onWriter (setHandshakeWaitField NoWait) (setTlsState TlsHandshaking c), true)
    end.

(** [driveTlsHandshake] up to [markReady]: [None] when the handshake is complete, [Some ok] otherwise. *)
Definition handshakeStep (c : ClientSession) : ClientSession * option bool :=
  if negb ssl then ((failed SSLError withoutSsl c).1, Some false)
  else if negb (tlsState_ c =s TlsHandshaking) then (c, Some true)
  else
    let '(k, r) := tlsHandshake (socket_ c) in
    let c := setSocket k c in
    let fail code message := ((failed code message c).1, Some false) in
    match r with
    | SslDone verify =>
        match (if from_option verifyPeer false (sslContext_ c) then verify else None) with
        | Some text => fail SSLCertificateError (formatVerifyFailure text)
        | None => (setHandshakeWait NoWait (setTlsState TlsReady c), None)
        end
    | SslWantRead => (setHandshakeWait WaitRead c, Some true)
    | SslWantWrite => (setHandshakeWait WaitWrite c, Some true)
    | SslZeroReturn => fail SSLHandshakeError (str "TLS handshake aborted by peer")
    | SslFailed details => fail SSLHandshakeError (formatOpenSslFailure (str "TLS handshake failed") details)
    end.

(** ** Starting *)

(** A step of [start] that failed: the failure is kept and the socket closed. *)
Definition startFailed (f : Failure) (c : ClientSession) : ClientSession * bool := (closeSocket (setFailure f c), false).

Definition trySocket (call : Sock -> Sock * option Failure) (k : ClientSession -> ClientSession * bool) (c : ClientSession) : ClientSession * bool :=
  let '(sk, e) := call (socket_ c) in
  let c := setSocket sk c in
  match e with Some f => startFailed f c | None => k c end.

(** A buffer size the system refuses is ignored; the message of the last failure is cleared. *)
Definition tryBuffer (call : Sock -> Sock * bool) (c : ClientSession) : ClientSession :=
  let '(sk, ok) := call (socket_ c) in
  let c := setSocket sk c in
  if ok then c else setFailure ((lastFailure_ c).1, []) c.

Definition registerSocket (c : ClientSession) : ClientSession * bool :=
  let '(sk, added) := pollAdd (socket_ c) in
  let c := setSocket sk c in
  if negb added then startFailed (SocketError, str "Failed to register client socket with poller") c
  else (armConnectionTimer (setRunning true c), true).

(** [start] up to the first call that can reach the server. *)
Definition openSession (c : ClientSession) : ClientSession * bool :=
  trySocket sockNoDelay (trySocket sockKeepAlive (fun c =>
    trySocket sockSetNonBlocking registerSocket (tryBuffer sockRecvBuffer (tryBuffer sockSendBuffer c)))) c.

End Session.
