(* ===== verification/SessionStream.v ===== *)
(** * What a session of the TCP server guarantees

    The bytes between [send] or [sendFile] and the socket: entries of the queue with what
    they have still to write, an invariant of [ClientSession] that its own operations keep,
    and what draining the queue achieves. *)

From S2P Require Import Prelude Address ClientTransport Transport SessionTypes ClientSession.

(** ** Entries of the queue *)

(** The bytes an entry has still to write. *)
Definition itemRest (p : PendingSend) : list byte :=
  match kind p with
  | BufferKind => drop (Z.to_nat (bufferOffset p)) (payloadView p)
  | FileKind => take (Z.to_nat (fileLength p - fileBytesSent p)) (drop (Z.to_nat (fileOffset p + fileBytesSent p)) (fileHandle p))
  end.

(** A range inside the file, with the staged bytes those that come next. *)
Record rangeOk (p : PendingSend) : Prop := {
  rg_offset : 0 <= fileOffset p;
  rg_sent : 0 <= fileBytesSent p;
  rg_end : fileOffset p + fileLength p <= zlen (fileHandle p);
  rg_staging : 0 <= stagingOffset p <= zlen (stagingBuffer p);
  rg_staged : drop (Z.to_nat (stagingOffset p)) (stagingBuffer p) `prefix_of` itemRest p;
  rg_direct : directSendEligible p = true -> stagingBuffer p = []
}.

Definition itemWf (p : PendingSend) : Prop :=
  match kind p with BufferKind => 0 <= bufferOffset p | FileKind => rangeOk p end.

(** An entry with something to write. *)
Definition itemOk (p : PendingSend) : Prop := itemWf p ∧ isComplete p = false.

Lemma itemRest_nil p : itemWf p -> isComplete p = true -> itemRest p = [].
Proof.
  unfold itemWf, isComplete, itemRest. destruct (kind p).
  - intros _ H%Z.leb_le. apply drop_ge. unfold zlen in *. lia.
  - intros _ H%Z.leb_le. by rewrite Z2Nat.nonpos by lia.
Qed.

Lemma itemRest_length p : itemOk p -> pendingBytes p = zlen (itemRest p) ∧ 0 < zlen (itemRest p).
Proof.
  intros [Hw Hc]. unfold itemWf, isComplete, itemRest, pendingBytes, remainingFileBytes in *. destruct (kind p).
  - apply Z.leb_gt in Hc. unfold zlen in *. rewrite length_drop. lia.
  - apply Z.leb_gt in Hc. destruct Hw as [H1 H2 H3 _ _ _]. rewrite (proj2 (Z.ltb_lt _ _)) by done.
    unfold zlen in *. rewrite length_take, length_drop. lia.
Qed.

Lemma pendingOf_ok h d : d ≠ [] -> itemOk (pendingOf h d) ∧ itemRest (pendingOf h d) = d.
Proof.
  intros Hd. assert (Hv : payloadView (pendingOf h d) = d) by (destruct d; [done|]; by destruct h).
  assert (Hk : kind (pendingOf h d) = BufferKind ∧ bufferOffset (pendingOf h d) = 0) by (by destruct h). destruct Hk as [Hk Ho].
  unfold itemOk, itemWf, isComplete, itemRest. rewrite Hk, Ho, Hv. split; [|done]. split; [done|].
  apply Z.leb_gt. destruct d; [done|]. rewrite zlen_cons. pose proof (zlen_nonneg d). lia.
Qed.

Lemma pendingFile_ok path content offset length direct : 0 <= offset -> 0 < length -> offset + length <= zlen content ->
  itemOk (pendingFile path content offset length direct) ∧
  itemRest (pendingFile path content offset length direct) = take (Z.to_nat length) (drop (Z.to_nat offset) content).
Proof.
  intros H1 H2 H3. unfold itemOk, itemWf, isComplete, itemRest. cbn. rewrite Z.sub_0_r, Z.add_0_r. split; [|done].
  split; [|apply Z.leb_gt; lia]. split; cbn; try done. apply prefix_nil.
Qed.

(** The file's counter advanced by the bytes taken. *)
Lemma file_advance p n : kind p = FileKind -> rangeOk p -> 0 <= n -> n <= fileLength p - fileBytesSent p ->
  take (Z.to_nat n) (drop (Z.to_nat (fileOffset p + fileBytesSent p)) (fileHandle p)) ++
  itemRest (setFileBytesSent (fileBytesSent p + n) p) = itemRest p.
Proof.
  intros Hk [H1 H2 H3 _ _ _] Hn Hle. unfold itemRest. cbn [kind setFileBytesSent fileLength fileBytesSent fileOffset fileHandle]. rewrite Hk.
  replace (Z.to_nat (fileOffset p + (fileBytesSent p + n))) with (Z.to_nat (fileOffset p + fileBytesSent p) + Z.to_nat n)%nat by lia.
  rewrite <- drop_drop. set (l := drop (Z.to_nat (fileOffset p + fileBytesSent p)) (fileHandle p)).
  replace (Z.to_nat (fileLength p - fileBytesSent p)) with (Z.to_nat n + Z.to_nat (fileLength p - (fileBytesSent p + n)))%nat by lia.
  apply take_take_drop.
Qed.

Section Items.
Context {Sock : Type} {sock : Socket Sock} {system : ServerSystem Sock} {laws : SocketLaws Sock} {files : ServerSystemLaws Sock} (ssl : bool).
Abbreviation Session := (@ClientSession Sock).

Lemma session_writeTransport_same data (c c' : Session) r : writeTransport ssl data c = (c', r) ->
  (∃ k, c' = setSocket k c) ∧ (∀ n, r = IoOk n -> Zpos n <= zlen data).
Proof.
  unfold writeTransport. destruct (tlsState_ c =s TlsReady); [destruct ssl; cbn [negb]|].
  - destruct (tlsWrite (socket_ c) data) as [k r0] eqn:E. intros [= <- <-]. split; [by eexists|]. intros n Hn.
    destruct r0; try discriminate. cbn in Hn. injection Hn as ->. by eapply tls_write_some.
  - intros [= <- <-]. split; [exists (socket_ c); by destruct c | done].
  - destruct (sockSend (socket_ c) data) as [k r0] eqn:E. intros [= <- <-]. split; [by eexists|]. intros n Hn.
    destruct r0 as [| |[] ?]; try discriminate. cbn in Hn. injection Hn as ->. by eapply send_some.
Qed.

Lemma session_readTransport_same len (c c' : Session) r : readTransport ssl len c = (c', r) -> ∃ k, c' = setSocket k c.
Proof.
  unfold readTransport. destruct (tlsState_ c =s TlsReady); [destruct ssl; cbn [negb]|].
  - destruct (tlsRead (socket_ c) len) as [k r0]. intros [= <- <-]. by eexists.
  - intros [= <- <-]. exists (socket_ c). by destruct c.
  - destruct (sockRecv (socket_ c) len) as [k r0]. intros [= <- <-]. by eexists.
Qed.

Lemma session_readTransport_wait len (c c' : Session) : readTransport ssl len c = (c', IoWouldBlock WaitWrite) -> tlsState_ c = TlsReady.
Proof. unfold readTransport. case_bool_decide; [done|]. destruct (sockRecv _ _) as [k [| |[] ?]]; intros [=]. Qed.

(** What an attempt to write an entry leads to: the bytes taken are the next ones, at least one. *)
Definition attempted (p p' : PendingSend) (took : list byte) (r : IoResult Z) : Prop :=
  itemWf p' ∧ took ++ itemRest p' = itemRest p ∧
  match r with IoOk _ => took ≠ [] | _ => took = [] ∧ isComplete p' = false end.

Lemma take_pos_nonempty {A} n (l : list A) : Zpos n <= zlen l -> take (Pos.to_nat n) l ≠ [].
Proof. intros H E. apply (f_equal length) in E. unfold zlen in H. rewrite length_take in E. cbn in E. lia. Qed.

Lemma staged_attempt p (c c' : Session) p' took r : kind p = FileKind -> rangeOk p -> isComplete p = false ->
  drop (Z.to_nat (stagingOffset p)) (stagingBuffer p) ≠ [] -> writeStaged ssl p c = (c', p', took, r) ->
  (∃ k, c' = setSocket k c) ∧ attempted p p' took r.
Proof.
  intros Hk Hr Hc Hne. unfold writeStaged. set (staged := drop _ (stagingBuffer p)) in *.
  destruct (writeTransport ssl staged c) as [c1 r1] eqn:Ew. destruct (session_writeTransport_same _ _ _ _ Ew) as [Hs Hn].
  intros [= <- <- <- <-]. split; [done|]. destruct r1 as [n| | |]; unfold attempted; cbn [countOf tookOf].
  2-4: split_and!; [by unfold itemWf; rewrite Hk | done | done | done].
  specialize (Hn n eq_refl). pose proof Hr as [R1 R2 R3 [R4 R4'] [rest Hrest] R6]. fold staged in Hrest.
  assert (Hlen : zlen staged = zlen (stagingBuffer p) - stagingOffset p) by (unfold staged, zlen in *; rewrite length_drop; lia).
  assert (Hrl : zlen (itemRest p) = fileLength p - fileBytesSent p).
  { destruct (itemRest_length p) as [<- _]; [split; [by unfold itemWf; rewrite Hk | done]|]. unfold pendingBytes, remainingFileBytes. rewrite Hk.
    unfold isComplete in Hc. rewrite Hk in Hc. apply Z.leb_gt in Hc. by rewrite (proj2 (Z.ltb_lt _ _)). }
  assert (Hle : Zpos n <= fileLength p - fileBytesSent p) by (rewrite <- Hrl, Hrest, zlen_app; pose proof (zlen_nonneg rest); lia).
  pose proof (file_advance p (Zpos n) Hk Hr ltac:(lia) Hle) as Ha.
  assert (Ht : take (Pos.to_nat n) staged = take (Z.to_nat (Zpos n)) (drop (Z.to_nat (fileOffset p + fileBytesSent p)) (fileHandle p))).
  { change (Z.to_nat (Zpos n)) with (Pos.to_nat n). pose proof Hrest as He. unfold itemRest in He. rewrite Hk in He.
    apply (f_equal (take (Pos.to_nat n))) in He. rewrite take_take, Nat.min_l in He by lia. rewrite He, take_app_le; [done|]. unfold zlen in Hn. lia. }
  set (p1 := setFileBytesSent (fileBytesSent p + Zpos n) (setStagingOffset (stagingOffset p + Zpos n) p)).
  assert (Hrest1 : itemRest p1 = drop (Pos.to_nat n) staged ++ rest).
  { assert (E : take (Pos.to_nat n) staged ++ itemRest p1 = take (Pos.to_nat n) staged ++ drop (Pos.to_nat n) staged ++ rest).
    { rewrite app_assoc, take_drop, <- Hrest, Ht. exact Ha. } by apply app_inv_head in E. }
  assert (Hkind : ∀ b o, kind (setStagingOffset o (setStagingBuffer b p1)) = FileKind) by done.
  assert (Hwf : ∀ q, q = p1 \/ q = clearStaging p1 -> (q = p1 -> stagingOffset p1 <= zlen (stagingBuffer p1)) -> itemWf q).
  { intros q Hq Hs1. unfold itemWf. destruct Hq as [->| ->]; cbn [kind p1 setFileBytesSent setStagingOffset setStagingBuffer clearStaging]; rewrite Hk.
    - split; [done | cbn; lia | done | split; [cbn; lia | by apply Hs1] | | exact R6]. rewrite Hrest1. exists rest. f_equal.
      unfold staged. cbn. rewrite drop_drop. f_equal. lia.
    - split; [done | cbn; lia | done | done | apply prefix_nil | done]. }
  assert (Htook : take (Pos.to_nat n) staged ≠ []) by (by apply take_pos_nonempty).
  assert (Hsum : take (Pos.to_nat n) staged ++ itemRest p1 = itemRest p) by (by rewrite Hrest1, app_assoc, take_drop).
  destruct (Z.leb_spec (zlen (stagingBuffer p)) (stagingOffset p + Zpos n)).
  - split_and!; [apply Hwf; [by right|] | exact Hsum | done]. intros _. cbn. lia.
  - split_and!; [apply Hwf; [by left|] | exact Hsum | done]. intros _. cbn. lia.
Qed.

Lemma write_attempt p (c c' : Session) p' took r : itemOk p -> writePendingSend ssl p c = (c', p', took, r) ->
  (∃ k, c' = setSocket k c) ∧ attempted p p' took r.
Proof.
  intros [Hw Hc]. pose proof (itemRest_length p (conj Hw Hc)) as [Hlen Hpos]. unfold writePendingSend.
  unfold itemWf in Hw. unfold isComplete in Hc. unfold pendingBytes in Hlen. destruct (kind p) eqn:Hk.
  - rewrite Hc. set (rest := drop _ (payloadView p)). assert (Hr : itemRest p = rest) by (unfold itemRest; by rewrite Hk).
    destruct (writeTransport ssl rest c) as [c1 r1] eqn:Ew. destruct (session_writeTransport_same _ _ _ _ Ew) as [Hs Hn].
    intros [= <- <- <- <-]. split; [done|]. unfold attempted. destruct r1 as [n| | |]; cbn [countOf tookOf].
    2-4: split_and!; [by unfold itemWf; rewrite Hk | done | done | by unfold isComplete; rewrite Hk].
    specialize (Hn n eq_refl). split_and!; [unfold itemWf; cbn; rewrite Hk; lia | | by apply take_pos_nonempty].
    rewrite Hr. unfold itemRest. cbn. rewrite Hk. change (payloadView (setBufferOffset _ p)) with (payloadView p).
    replace (Z.to_nat (bufferOffset p + Zpos n)) with (Z.to_nat (bufferOffset p) + Pos.to_nat n)%nat by lia. rewrite <- drop_drop. apply take_drop.
  - unfold writeFilePendingSend. rewrite (proj2 (Z.eqb_neq (remainingFileBytes p) 0)) by lia. apply Z.leb_gt in Hc.
    assert (Hrem : remainingFileBytes p = fileLength p - fileBytesSent p) by (unfold remainingFileBytes; by rewrite (proj2 (Z.ltb_lt _ _))).
    assert (Hcomp : isComplete p = false) by (unfold isComplete; rewrite Hk; by apply Z.leb_gt).
    assert (Hwf : itemWf p) by (unfold itemWf; by rewrite Hk).
    destruct (directSendEligible p) eqn:Ed.
    + unfold sendDirectly. rewrite Hrem. destruct (sockSendFile _ _ _ _) as [k sent] eqn:Es. destruct sent as [n| |[] m]; intros [= <- <- <- <-].
      2-4: split; [by eexists|]; by split_and!.
      apply sendfile_some in Es as [Hn1 Hn2]. split; [by eexists|].
      pose proof (file_advance p (Zpos n) Hk Hw ltac:(lia) ltac:(lia)) as Ha. unfold attempted. split_and!.
      * unfold itemWf. cbn. rewrite Hk. destruct Hw as [W1 W2 W3 W4 W5 W6]. split; cbn; try done; [lia|].
        rewrite (W6 Ed), drop_nil. apply prefix_nil.
      * exact Ha.
      * apply take_pos_nonempty. pose proof (rg_offset p Hw). pose proof (rg_sent p Hw). unfold zlen in *. rewrite length_drop. lia.
    + destruct (Z.leb_spec (zlen (stagingBuffer p)) (stagingOffset p)) as [Hst|Hst].
      2: { apply staged_attempt; try done. intros E. apply (f_equal length) in E. rewrite length_drop in E. cbn in E. pose proof (rg_staging p Hw). unfold zlen in *. lia. }
      rewrite Hrem. destruct (fileRead _ _ _ _) as [k read] eqn:Er.
      assert (Hcl : itemWf (clearStaging p)).
      { unfold itemWf. cbn. rewrite Hk. destruct Hw as [W1 W2 W3 W4 W5 W6]. split; cbn; try done. apply prefix_nil. }
      destruct read as [[|b data]|]; [intros [= <- <- <- <-]; split; [by eexists|]; by split_and! | | intros [= <- <- <- <-]; split; [by eexists|]; by split_and!].
      apply read_some in Er. set (p1 := setStagingOffset 0 (setStagingBuffer (b :: data) p)).
      assert (Hp1 : rangeOk p1).
      { destruct Hw as [W1 W2 W3 W4 W5 W6]. split; cbn; try done; [| congruence].
        change (itemRest p1) with (itemRest p). unfold itemRest. rewrite Hk. etrans; [exact Er|].
        rewrite <- (Nat.min_l (Z.to_nat (Z.min (fileLength p - fileBytesSent p) kBufferedFileChunkSize)) (Z.to_nat (fileLength p - fileBytesSent p))) by lia.
        rewrite <- take_take. apply prefix_take. }
      intros Hws. destruct (staged_attempt p1 (setSocket k c) c' p' took r Hk Hp1 Hcomp ltac:(done) Hws) as [[k' ->] Hatt]. split; [by eexists|]. exact Hatt.
Qed.
(** ** The invariant of a session *)

(** Sessions that differ in the socket, the timers and the poller's interest only. *)
Record steady (c c' : Session) : Prop := {
  st_running : running_ c' = running_ c;
  st_ready : ready_ c' = ready_ c;
  st_tls : tlsState_ c' = tlsState_ c;
  st_accepted : accepted_ c' = accepted_ c;
  st_written : written_ c' = written_ c;
  st_queue : sendQueue_ (writer c') = sendQueue_ (writer c);
  st_close : closeAfterFlush_ (writer c') = closeAfterFlush_ (writer c);
  st_flush : flushRunning_ (writer c') = flushRunning_ (writer c);
  st_again : flushReschedule_ (writer c') = flushReschedule_ (writer c);
  st_readWait : readWait_ (writer c') = readWait_ (writer c);
  st_writeWait : writeWait_ (writer c') = writeWait_ (writer c);
  st_handshakeWait : handshakeWait_ (writer c') = handshakeWait_ (writer c);
  st_context : sslContext_ c' = sslContext_ c;
  st_callbacks : callbacks c' = callbacks c
}.

#[global] Instance steady_refl : Reflexive steady.
Proof. by split. Qed.
#[global] Instance steady_trans : Transitive steady.
Proof. intros c1 c2 c3 [] []. split; congruence. Qed.

Lemma steady_socket k (c : Session) : steady c (setSocket k c).
Proof. by split. Qed.
Lemma steady_timers t (c : Session) : steady c (setTimers t c).
Proof. by split. Qed.
Lemma steady_config t (c : Session) : steady c (setTimeoutConfig t c).
Proof. by split. Qed.
Lemma steady_refresh (c : Session) : steady c (refreshInterestLocked c).
Proof. unfold refreshInterestLocked. repeat case_match; by split. Qed.
Lemma steady_armConnection (c : Session) : steady c (armConnectionTimer c).
Proof. unfold armConnectionTimer. case_match; by split. Qed.
Lemma steady_armRead (c : Session) : steady c (armReadTimer c).
Proof. unfold armReadTimer. case_match; by split. Qed.
Lemma steady_armWrite (c : Session) : steady c (armWriteTimer c).
Proof. unfold armWriteTimer. case_match; by split. Qed.
Lemma steady_updateTimeouts t (c : Session) : steady c (updateTimeouts t c).
Proof. unfold updateTimeouts, armConnectionTimer, armReadTimer, armWriteTimer. repeat case_match; by split. Qed.

(** What is queued and not yet written. *)
Definition unsent (w : Writer) : list byte := concat (itemRest <$> sendQueue_ w).

(** A blocked write is in the queue; only TLS reads wait to write. *)
Definition waitsOk (w : Writer) (t : TlsState) : Prop :=
  (writeWait_ w ≠ NoWait -> sendQueue_ w ≠ []) ∧ (readWait_ w = WaitWrite -> t = TlsReady).

(** With [b] false, no flush of the session is under way. *)
Record core (b : bool) (c : Session) : Prop := {
  c_queue : Forall itemOk (sendQueue_ (writer c));
  c_stream : ready_ c = true -> written_ c ++ unsent (writer c) = accepted_ c;
  c_prefix : written_ c `prefix_of` accepted_ c;
  c_stopped : running_ c = false -> ready_ c = false ∧ sendQueue_ (writer c) = [] ∧ tlsState_ c = TlsDisabled;
  c_starting : running_ c = true -> ready_ c = false -> accepted_ c = [] ∧ written_ c = [] ∧ sendQueue_ (writer c) = [];
  c_waits : waitsOk (writer c) (tlsState_ c);
  c_ssl : tlsState_ c ≠ TlsDisabled -> ssl = true;
  c_quiet : b = false -> flushRunning_ (writer c) = false ∧ flushReschedule_ (writer c) = false
}.

(** The poller is asked for what the session waits for, and a session that shakes hands is the one
    that is not ready. *)
Definition settled (c : Session) : Prop :=
  running_ c = true -> writeInterestEnabled_ (writer c) = wantsWrite c ∧ (ready_ c = false <-> tlsState_ c = TlsHandshaking).

Definition sinv (b : bool) (c : Session) : Prop := core b c ∧ settled c.

Lemma core_steady b c c' : steady c c' -> core b c -> core b c'.
Proof.
  intros [E1 E2 E3 E4 E5 E6 E7 E8 E9 E10 E11 E12 E13 E14] [H1 H2 H3 H4 H5 H6 H7 H8].
  split; unfold waitsOk, unsent in *; rewrite ?E1, ?E2, ?E3, ?E4, ?E5, ?E6, ?E8, ?E9, ?E10, ?E11; done.
Qed.

Lemma wantsWrite_steady c c' : steady c c' -> wantsWrite c' = wantsWrite c.
Proof.
  intros [E1 E2 E3 E4 E5 E6 E7 E8 E9 E10 E11 E12 E13 E14]. unfold wantsWrite, hasPendingWrite. by rewrite E3, E6, E10, E11, E12.
Qed.

(** A change of the socket and the timers. *)
Lemma sinv_steady b c c' : steady c c' -> writeInterestEnabled_ (writer c') = writeInterestEnabled_ (writer c) -> sinv b c -> sinv b c'.
Proof.
  intros Hs Hi [Hc Ht]. split; [by eapply core_steady|]. intros Hr. rewrite (st_running _ _ Hs) in Hr. destruct (Ht Hr) as [T1 T2].
  by rewrite Hi, (wantsWrite_steady _ _ Hs), (st_ready _ _ Hs), (st_tls _ _ Hs).
Qed.

Lemma refresh_interest (c : Session) : running_ c = true -> writeInterestEnabled_ (writer (refreshInterestLocked c)) = wantsWrite c.
Proof.
  intros Hr. unfold refreshInterestLocked. rewrite Hr. cbn [negb]. destruct (Bool.eqb _ _) eqn:E; [by apply Bool.eqb_prop in E | done].
Qed.

(** [refreshInterestLocked] settles a session. *)
Lemma refresh_sinv b c : core b c -> (running_ c = true -> ready_ c = false <-> tlsState_ c = TlsHandshaking) -> sinv b (refreshInterestLocked c).
Proof.
  intros Hc Ht. pose proof (steady_refresh c) as Hs. split; [by eapply core_steady|]. intros Hr. rewrite (st_running _ _ Hs) in Hr.
  rewrite (refresh_interest c Hr), (wantsWrite_steady _ _ Hs), (st_ready _ _ Hs), (st_tls _ _ Hs). auto.
Qed.

(** A change of the writer that keeps the queue. *)
Lemma core_writer b c f : core b c -> sendQueue_ (f (writer c)) = sendQueue_ (writer c) ->
  (writeWait_ (f (writer c)) ≠ NoWait -> sendQueue_ (writer c) ≠ []) ->
  (readWait_ (f (writer c)) = WaitWrite -> tlsState_ c = TlsReady) ->
  (b = false -> flushRunning_ (f (writer c)) = false ∧ flushReschedule_ (f (writer c)) = false) -> core b (onWriter f c).
Proof.
  intros [H1 H2 H3 H4 H5 H6 H7 H8] Hq Hw Hr Hf. split; unfold waitsOk, unsent; cbn [writer onWriter setWriter]; rewrite ?Hq; done.
Qed.

Lemma stopped_sinv b c : running_ c = false -> ready_ c = false -> writer c = idleWriter -> tlsState_ c = TlsDisabled ->
  written_ c `prefix_of` accepted_ c -> sinv b c.
Proof. intros H1 H2 H3 H4 H5. split; [|intros H; congruence]. split; rewrite ?H3; try done; congruence. Qed.

Lemma sinv_weaken b c : sinv b c -> sinv true c.
Proof. intros [[] ?]. split; [|done]. by split. Qed.

Lemma sinv_quiet c : sinv true c -> flushRunning_ (writer c) = false -> flushReschedule_ (writer c) = false -> sinv false c.
Proof. intros [[] ?] ? ?. split; [|done]. by split. Qed.

Lemma ready_running b c : sinv b c -> ready_ c = true -> running_ c = true.
Proof. intros [H _] Hr. destruct (running_ c) eqn:E; [done|]. destruct (c_stopped _ _ H E) as [? _]. congruence. Qed.

Lemma ready_tls b c : sinv b c -> ready_ c = true -> tlsState_ c ≠ TlsHandshaking.
Proof. intros H Hr Ht. destruct (proj2 H (ready_running _ _ H Hr)) as [_ E]. apply E in Ht. congruence. Qed.

(** ** Operations that do not reach the server *)

(** The shape of a settled session after a change of the writer that keeps the queue. *)
Lemma refresh_writer b c f : sinv b c -> running_ c = true -> sendQueue_ (f (writer c)) = sendQueue_ (writer c) ->
  (writeWait_ (f (writer c)) ≠ NoWait -> sendQueue_ (writer c) ≠ []) ->
  (readWait_ (f (writer c)) = WaitWrite -> tlsState_ c = TlsReady) ->
  (b = false -> flushRunning_ (f (writer c)) = false ∧ flushReschedule_ (f (writer c)) = false) ->
  sinv b (refreshInterestLocked (onWriter f c)).
Proof. intros [Hc Ht] Hr Hq Hw Hrw Hf. apply refresh_sinv; [by apply core_writer|]. intros _. by apply Ht. Qed.

Lemma setReadWait_sinv b d c : sinv b c -> running_ c = true -> (d = WaitWrite -> tlsState_ c = TlsReady) -> sinv b (setReadWait d c).
Proof.
  intros H Hr Hd. pose proof (c_waits _ _ (proj1 H)) as [W1 W2].
  apply refresh_writer; [done | done | done | exact W1 | exact Hd | exact (c_quiet _ _ (proj1 H))].
Qed.

Lemma setWriteWait_sinv b d c : sinv b c -> running_ c = true -> (d ≠ NoWait -> sendQueue_ (writer c) ≠ []) -> sinv b (setWriteWait d c).
Proof.
  intros H Hr Hd. pose proof (c_waits _ _ (proj1 H)) as [W1 W2].
  apply refresh_writer; [done | done | done | exact Hd | exact W2 | exact (c_quiet _ _ (proj1 H))].
Qed.

(** A change of flags that neither the interest nor the waits depend on. *)
Lemma flags_sinv b c f : sinv b c -> (∀ w, sendQueue_ (f w) = sendQueue_ w ∧ writeInterestEnabled_ (f w) = writeInterestEnabled_ w ∧
    readWait_ (f w) = readWait_ w ∧ writeWait_ (f w) = writeWait_ w ∧ handshakeWait_ (f w) = handshakeWait_ w) ->
  (b = false -> flushRunning_ (f (writer c)) = false ∧ flushReschedule_ (f (writer c)) = false) -> sinv b (onWriter f c).
Proof.
  intros [Hc Ht] Hf Hq. destruct (Hf (writer c)) as (F1 & F2 & F3 & F4 & F5). pose proof (c_waits _ _ Hc) as [W1 W2]. split.
  - apply core_writer; try done; rewrite ?F3, ?F4; done.
  - intros Hr. destruct (Ht Hr) as [T1 T2]. split; [|done]. unfold wantsWrite, hasPendingWrite in *. cbn. by rewrite F1, F2, F3, F4, F5.
Qed.

Lemma schedule_sinv b c : sinv b c ->
  let '(c', sched) := markFlushScheduledLocked c in
  sinv (b || sched) c' ∧ (sched = true -> flushReschedule_ (writer c') = false) ∧ running_ c' = running_ c ∧ ready_ c' = ready_ c ∧
  (running_ c = true -> flushRunning_ (writer c) = false -> sched = true).
Proof.
  intros H. unfold markFlushScheduledLocked. destruct (running_ c) eqn:Hr; cbn [negb]; [|by rewrite orb_false_r].
  destruct (flushRunning_ (writer c)) eqn:Ef; [rewrite orb_false_r|rewrite orb_true_r].
  - split_and!; try done. apply flags_sinv; try done. intros ->. destruct (c_quiet _ _ (proj1 H) eq_refl). congruence.
  - split_and!; try done. apply flags_sinv; [by eapply sinv_weaken | done | done].
Qed.

Lemma flushDone_sinv b c : sinv true c -> sinv b (flushDone c).
Proof.
  intros H. destruct b; [by apply flags_sinv|]. apply sinv_quiet; [by apply flags_sinv | done | done].
Qed.

Lemma closeStopped_sinv b c : sinv b c -> running_ c = false -> sinv b (closeStopped ssl c).
Proof. intros H Hr. apply stopped_sinv; [exact Hr | done | done | done | apply (c_prefix _ _ (proj1 H))]. Qed.

Lemma closeRunning_sinv b c : sinv b c -> sinv b (closeRunning ssl c).
Proof. intros H. apply stopped_sinv; [done | done | done | done | apply (c_prefix _ _ (proj1 H))]. Qed.

Lemma abortStartup_sinv b c : written_ c `prefix_of` accepted_ c -> sinv b (abortStartup ssl c).
Proof. intros H. by apply stopped_sinv. Qed.

(** *** Queueing *)

Lemma enqueue_sinv b entries data c : sinv b c -> ready_ c = true -> Forall itemOk entries -> entries ≠ [] -> data = concat (itemRest <$> entries) ->
  sinv b (refreshInterestLocked (onWriter (fun w => setQueue (sendQueue_ w ++ entries) w) (setAccepted (accepted_ c ++ data) c))).
Proof.
  intros H Hrd He Hne ->. pose proof (ready_running _ _ H Hrd) as Hr. destruct H as [[H1 H2 H3 H4 H5 [W1 W2] H7 H8] Ht]. apply refresh_sinv.
  - assert (Hun : ∀ w, unsent (setQueue (sendQueue_ (writer c) ++ entries) w) = unsent (writer c) ++ concat (itemRest <$> entries)).
    { intros w. unfold unsent. cbn. by rewrite fmap_app, concat_app. }
    split; cbn [writer onWriter setWriter setAccepted ready_ running_ written_ accepted_ tlsState_]; try done; try congruence.
    + cbn. by apply Forall_app.
    + intros _. by rewrite Hun, app_assoc, (H2 Hrd).
    + by apply prefix_app_r.
    + split; [|exact W2]. intros _. cbn. by destruct (sendQueue_ (writer c)).
  - intros _. by apply Ht.
Qed.
(** *** Draining *)

(** A session while its first entry is being written: the entry may be complete. *)
Record writing (b : bool) (p : PendingSend) (ps : list PendingSend) (c : Session) : Prop := {
  w_ready : running_ c = true ∧ ready_ c = true;
  w_queue : sendQueue_ (writer c) = p :: ps;
  w_items : itemWf p ∧ Forall itemOk ps;
  w_stream : written_ c ++ itemRest p ++ concat (itemRest <$> ps) = accepted_ c;
  w_tls : tlsState_ c ≠ TlsHandshaking ∧ (tlsState_ c ≠ TlsDisabled -> ssl = true) ∧ (readWait_ (writer c) = WaitWrite -> tlsState_ c = TlsReady);
  w_quiet : b = false -> flushRunning_ (writer c) = false ∧ flushReschedule_ (writer c) = false
}.

Lemma writing_steady b p ps c c' : steady c c' -> writing b p ps c -> writing b p ps c'.
Proof.
  intros [E1 E2 E3 E4 E5 E6 E7 E8 E9 E10 E11 E12 E13 E14] [H1 H2 H3 H4 H5 H6].
  split; rewrite ?E1, ?E2, ?E3, ?E4, ?E5, ?E6, ?E8, ?E9, ?E10; done.
Qed.

(** Everything but the queue and the flag of a requested close. *)
Record advanced (c c' : Session) : Prop := {
  ad_running : running_ c' = running_ c;
  ad_ready : ready_ c' = ready_ c;
  ad_tls : tlsState_ c' = tlsState_ c;
  ad_accepted : accepted_ c' = accepted_ c;
  ad_flush : flushRunning_ (writer c') = flushRunning_ (writer c);
  ad_again : flushReschedule_ (writer c') = flushReschedule_ (writer c);
  ad_context : sslContext_ c' = sslContext_ c;
  ad_callbacks : callbacks c' = callbacks c
}.

#[global] Instance advanced_refl : Reflexive advanced.
Proof. by split. Qed.
#[global] Instance advanced_trans : Transitive advanced.
Proof. intros c1 c2 c3 [] []. split; congruence. Qed.
Lemma steady_advanced c c' : steady c c' -> advanced c c'.
Proof. intros []. by split. Qed.

(** How much there is left, in bytes and entries. *)
Definition work (c : Session) : nat := length (unsent (writer c)) + length (sendQueue_ (writer c)).

Lemma pop_sinv b p ps c : writing b p ps c -> writeWait_ (writer c) = NoWait ->
  let '(c', closeNow) := popCompleted c in
  sinv b c' ∧ advanced c c' ∧ written_ c' = written_ c ∧ unsent (writer c') = itemRest p ++ concat (itemRest <$> ps) ∧
  (length (sendQueue_ (writer c')) <= S (length ps))%nat ∧ (isComplete p = true -> length (sendQueue_ (writer c')) = length ps) ∧
  (if closeNow then closeAfterFlush_ (writer c) = true ∧ sendQueue_ (writer c') = []
   else closeAfterFlush_ (writer c') = closeAfterFlush_ (writer c) ∧ (sendQueue_ (writer c') = [] -> closeAfterFlush_ (writer c) = false)).
Proof.
  intros H Hww. pose proof H as [[Hr Hrd] Hq [Hp Hps] Hst (Ht1 & Ht2 & Ht3) Hqu]. unfold popCompleted. rewrite Hq.
  set (c1 := if isComplete p then _ else c).
  assert (H1 : core b c1 ∧ sendQueue_ (writer c1) = (if isComplete p then ps else p :: ps) ∧ unsent (writer c1) = itemRest p ++ concat (itemRest <$> ps)).
  { assert (Hun : unsent (writer c1) = itemRest p ++ concat (itemRest <$> ps) ∧ sendQueue_ (writer c1) = (if isComplete p then ps else p :: ps)).
    { unfold c1, unsent. destruct (isComplete p) eqn:Ec; [|by rewrite Hq]. by rewrite (itemRest_nil p). }
    destruct Hun as [Hun Hq1]. split; [|done]. unfold c1 in *. destruct (isComplete p) eqn:Ec.
    - split; [exact Hps | intros _; cbn [written_ onWriter setWriter accepted_]; by rewrite Hun | cbn; rewrite <- Hst; by eexists | cbn; congruence
             | cbn; congruence | split; [cbn; by rewrite Hww | exact Ht3] | exact Ht2 | exact Hqu].
    - split; [rewrite Hq; by repeat constructor | intros _; by rewrite Hun | rewrite <- Hst; by eexists | congruence | congruence
             | split; [by rewrite Hww | exact Ht3] | exact Ht2 | exact Hqu]. }
  assert (Ha1 : advanced c c1 ∧ written_ c1 = written_ c ∧ closeAfterFlush_ (writer c1) = closeAfterFlush_ (writer c)).
  { unfold c1. by destruct (isComplete p). }
  destruct H1 as (H1 & Hq1 & Hu1), Ha1 as (Ha1 & Hw1 & Hcl1). clearbody c1.
  set (r := if bool_decide (sendQueue_ (writer c1) = []) then drainedLocked c1 else (armWriteTimer c1, false)).
  assert (H2 : core b r.1 ∧ advanced c1 r.1 ∧ written_ r.1 = written_ c1 ∧ sendQueue_ (writer r.1) = sendQueue_ (writer c1) ∧
    (if r.2 then closeAfterFlush_ (writer c1) = true ∧ sendQueue_ (writer c1) = []
     else closeAfterFlush_ (writer r.1) = closeAfterFlush_ (writer c1) ∧ (sendQueue_ (writer c1) = [] -> closeAfterFlush_ (writer c1) = false))).
  { unfold r. case_bool_decide as Hn; [unfold drainedLocked; change (writer (stopWriteTimer c1)) with (writer c1);
      destruct (closeAfterFlush_ (writer c1)) eqn:Ec|]; cbn [fst snd].
    - assert (H2 : core b (stopWriteTimer c1)) by (eapply core_steady; [apply steady_timers | done]).
      pose proof (c_waits _ _ H1) as [W1 W2]. split_and!; [|by split|done|done|done|done]. apply core_writer; [done | done | exact W1 | exact W2 | exact (c_quiet _ _ H1)].
    - split_and!; [eapply core_steady; [apply steady_timers | done] | by split | done | done | done | done].
    - pose proof (steady_armWrite c1) as Hs. split_and!; [by eapply core_steady | by apply steady_advanced | apply Hs | apply Hs | apply Hs | done]. }
  destruct r as [c2 closeNow]. cbn [fst snd] in H2. destruct H2 as (H2 & Ha2 & Hw2 & Hq2 & Hcl2).
  pose proof (steady_refresh c2) as Hs. pose proof (steady_advanced _ _ Hs) as Ha3.
  assert (Ha : advanced c (refreshInterestLocked c2)) by (do 2 (etrans; [eassumption|]); done).
  split_and!.
  - apply refresh_sinv; [done|]. intros _. rewrite (ad_ready _ _ Ha2), (ad_ready _ _ Ha1), Hrd, (ad_tls _ _ Ha2), (ad_tls _ _ Ha1). done.
  - done.
  - by rewrite (st_written _ _ Hs), Hw2, Hw1.
  - unfold unsent in *. by rewrite (st_queue _ _ Hs), Hq2, Hu1.
  - rewrite (st_queue _ _ Hs), Hq2, Hq1. destruct (isComplete p); cbn; lia.
  - rewrite (st_queue _ _ Hs), Hq2, Hq1. by intros ->.
  - rewrite (st_queue _ _ Hs), (st_close _ _ Hs), Hq2, <- Hcl1. destruct closeNow; done.
Qed.

(** An attempt that took nothing leaves a session as it was. *)
Lemma refused_sinv b p p' ps k c : sinv b c -> sendQueue_ (writer c) = p :: ps -> itemOk p' -> itemRest p' = itemRest p ->
  sinv b (setWritten (written_ c ++ []) (onWriter (setQueue (p' :: ps)) (setSocket k c))).
Proof.
  intros [[H1 H2 H3 H4 H5 [W1 W2] H7 H8] Ht] Hq Hp' Hrest. split.
  - split; cbn [writer setWritten onWriter setWriter setSocket running_ ready_ tlsState_ accepted_ written_]; rewrite ?app_nil_r; try done.
    + cbn. rewrite Hq in H1. apply Forall_cons in H1 as [_ H1]. by constructor.
    + intros Hr. rewrite <- (H2 Hr). unfold unsent. rewrite Hq. cbn. by rewrite Hrest.
    + intros Hr. destruct (H4 Hr) as (? & ? & ?). congruence.
    + intros Hr Hrd. destruct (H5 Hr Hrd) as (? & ? & ?). congruence.
  - intros Hr. destruct (Ht Hr) as [T1 T2]. split; [|done]. unfold wantsWrite, hasPendingWrite in *. rewrite Hq in T1. exact T1.
Qed.

Lemma session_setWriteWait_steady d (c : Session) : steady (onWriter (setWriteWaitField d) c) (setWriteWait d c).
Proof. apply steady_refresh. Qed.

Lemma armWrite_sinv b c : sinv b c -> sinv b (armWriteTimer c).
Proof. apply sinv_steady; [apply steady_armWrite|]. unfold armWriteTimer. by case_match. Qed.

(** The end of the loop. *)
Lemma drained_sinv b c : sinv b c -> ready_ c = true -> sendQueue_ (writer c) = [] ->
  let '(c', close) := drainedLocked (onWriter (setWriteWaitField NoWait) c) in
  sinv b (refreshInterestLocked c') ∧ advanced c (refreshInterestLocked c').
Proof.
  intros H Hrd Hq. pose proof (ready_running _ _ H Hrd) as Hr. pose proof (c_waits _ _ (proj1 H)) as [W1 W2]. unfold drainedLocked.
  change (closeAfterFlush_ (writer (stopWriteTimer (onWriter (setWriteWaitField NoWait) c)))) with (closeAfterFlush_ (writer c)).
  destruct (closeAfterFlush_ (writer c)).
  - set (f := fun w => setCloseAfterFlush false (setWriteWaitField NoWait w)).
    assert (Hs : steady (onWriter f c) (onWriter (setCloseAfterFlush false) (stopWriteTimer (onWriter (setWriteWaitField NoWait) c)))) by (by split).
    assert (H1 : core b (onWriter f c)) by (apply core_writer; [apply H | done | done | exact W2 | exact (c_quiet _ _ (proj1 H))]).
    split; [apply refresh_sinv; [by eapply core_steady|]; intros _; by apply H | etrans; [|apply steady_advanced, steady_refresh]; by split].
  - assert (H1 : core b (onWriter (setWriteWaitField NoWait) c)) by (apply core_writer; [apply H | done | done | exact W2 | exact (c_quiet _ _ (proj1 H))]).
    split; [apply refresh_sinv; [by eapply core_steady; [apply steady_timers|]|]; intros _; by apply H | etrans; [|apply steady_advanced, steady_refresh]; by split].
Qed.

(** After a write, up to the end of the round. *)
Lemma written_writing b p p' ps took k c : sinv b c -> ready_ c = true -> sendQueue_ (writer c) = p :: ps -> itemWf p' -> took ++ itemRest p' = itemRest p ->
  let c1 := armConnectionTimer (setWriteWait NoWait (setWritten (written_ c ++ took) (onWriter (setQueue (p' :: ps)) (setSocket k c)))) in
  writing b p' ps c1 ∧ writeWait_ (writer c1) = NoWait ∧ advanced c c1.
Proof.
  intros H Hrd Hq Hw Ht c1. pose proof (ready_running _ _ H Hrd) as Hr. pose proof (ready_tls _ _ H Hrd) as Htls.
  destruct H as [[H1 H2 H3 H4 H5 [W1 W2] H7 H8] _]. rewrite Hq in H1. apply Forall_cons in H1 as [_ Hps].
  set (c0 := onWriter (setWriteWaitField NoWait) (setWritten (written_ c ++ took) (onWriter (setQueue (p' :: ps)) (setSocket k c)))).
  assert (Hs : steady c0 c1) by (etrans; [apply steady_refresh | apply steady_armConnection]).
  assert (H0 : writing b p' ps c0).
  { split; [done | done | done | | split_and!; [exact Htls | exact H7 | exact W2] | exact H8].
    cbn [c0 written_ onWriter setWriter setWritten setSocket accepted_]. rewrite <- (H2 Hrd). unfold unsent. rewrite Hq. cbn. by rewrite <- Ht, <- !app_assoc. }
  split_and!; [by eapply writing_steady | by rewrite (st_writeWait _ _ Hs) |]. etrans; [|by apply steady_advanced]. by split.
Qed.

Lemma drain_sinv b fuel : ∀ c, sinv b c ->
  let '(c', e) := drainLoop ssl fuel c in
  sinv b c' ∧ advanced c c'.
Proof.
  induction fuel as [|fuel IH]; intros c H; [done|]. cbn [drainLoop]. destruct (ready_ c) eqn:Hrd; cbn [negb]; [|done].
  pose proof (ready_running _ _ H Hrd) as Hr. pose proof (c_waits _ _ (proj1 H)) as [W1 W2].
  assert (Hcont : ∀ p ps c1, writing b p ps c1 -> writeWait_ (writer c1) = NoWait -> advanced c c1 ->
    let '(c', e) := (let '(c, closeNow) := popCompleted c1 in if closeNow then (c, DrainClose (str "Connection closed")) else drainLoop ssl fuel c) in
    sinv b c' ∧ advanced c c').
  { intros p ps c1 Hw1 Hww Ha. pose proof (pop_sinv b p ps c1 Hw1 Hww) as Hp. destruct (popCompleted c1) as [c2 closeNow].
    destruct Hp as (Hp & Ha2 & _). destruct closeNow; [split; [done | by etrans]|]. pose proof (IH c2 Hp) as Hi.
    destruct (drainLoop ssl fuel c2) as [c3 e]. destruct Hi. split; [done|]. do 2 (etrans; [eassumption|]). done. }
  destruct (sendQueue_ (writer c)) as [|p ps] eqn:Hq.
  - pose proof (drained_sinv b c H Hrd Hq) as Hd. destruct (drainedLocked _) as [c1 close]. apply Hd.
  - pose proof (c_queue _ _ (proj1 H)) as Hitems. rewrite Hq in Hitems. apply Forall_cons in Hitems as [Hp Hps].
    rewrite (proj2 Hp). destruct (writePendingSend ssl p c) as [[[c1 p'] took] r] eqn:Ew.
    destruct (write_attempt _ _ _ _ _ _ Hp Ew) as [[k ->] (A1 & A2 & A3)]. destruct r as [n|wait| |code m].
    + destruct (written_writing b p p' ps took k c H Hrd Hq A1 A2) as (Hw & Hww & Ha). by apply (Hcont p' ps).
    + destruct A3 as [-> A3]. pose proof (refused_sinv b p p' ps k c H Hq (conj A1 A3) A2) as H1.
      set (c1 := setWritten _ _) in *. pose proof (steady_armWrite c1) as Hs. split.
      * apply setWriteWait_sinv; [by apply armWrite_sinv | by rewrite (st_running _ _ Hs) |]. intros _. by rewrite (st_queue _ _ Hs).
      * etrans; [|apply steady_advanced, session_setWriteWait_steady]. destruct (steady_advanced _ _ Hs). by split.
    + destruct A3 as [-> A3]. split; [exact (refused_sinv b p p' ps k c H Hq (conj A1 A3) A2) | by split].
    + destruct A3 as [-> A3]. split; [exact (refused_sinv b p p' ps k c H Hq (conj A1 A3) A2) | by split].
Qed.

(** *** What draining achieves *)

Section Willing.
Context (takes : Sock -> Prop) (willing : taking takes) (willingFiles : takingFiles takes).

Lemma session_refresh_takes (c : Session) : takes (socket_ c) -> takes (socket_ (refreshInterestLocked c)).
Proof. intros H. unfold refreshInterestLocked. case_match; [done|]. case_match; [done|]. cbn. by apply (tk_poll _ willing). Qed.

Lemma pop_takes (c : Session) : takes (socket_ c) -> takes (socket_ (popCompleted c).1).
Proof.
  intros H. unfold popCompleted. set (c1 := match sendQueue_ (writer c) with [] => c | _ => _ end).
  assert (H1 : takes (socket_ c1)) by (unfold c1; case_match; [done|]; by case_match). clearbody c1.
  unfold drainedLocked, armWriteTimer. case_bool_decide; [destruct (closeAfterFlush_ _)|destruct (_ || _)]; cbn [fst]; by apply session_refresh_takes.
Qed.

Lemma writeTransport_takes d (c : Session) : takes (socket_ c) -> (tlsState_ c ≠ TlsDisabled -> ssl = true) -> d ≠ [] ->
  ∃ k n, writeTransport ssl d c = (setSocket k c, IoOk n) ∧ takes k.
Proof.
  intros Ht Hp Hd. unfold writeTransport. case_bool_decide as Htls.
  - rewrite (Hp ltac:(congruence)). cbn [negb]. destruct (tk_tls _ willing (socket_ c) d Ht Hd) as (k & n & -> & Hk). by eexists _, _.
  - destruct (tk_send _ willing (socket_ c) d Ht Hd) as (k & n & -> & Hk). by eexists _, _.
Qed.

Lemma staged_takes p (c : Session) : takes (socket_ c) -> (tlsState_ c ≠ TlsDisabled -> ssl = true) ->
  drop (Z.to_nat (stagingOffset p)) (stagingBuffer p) ≠ [] -> ∃ k p' took n, writeStaged ssl p c = (setSocket k c, p', took, IoOk n) ∧ takes k.
Proof.
  intros Ht Hp Hd. unfold writeStaged. destruct (writeTransport_takes _ c Ht Hp Hd) as (k & n & -> & Hk). cbn [countOf]. by eexists _, _, _, _.
Qed.

Lemma attempt_takes p (c : Session) : itemOk p -> takes (socket_ c) -> (tlsState_ c ≠ TlsDisabled -> ssl = true) ->
  ∃ k p' took n, writePendingSend ssl p c = (setSocket k c, p', took, IoOk n) ∧ takes k.
Proof.
  intros Hok Ht Hs. destruct (itemRest_length p Hok) as [Hlen Hpos]. destruct Hok as [Hw Hc]. unfold writePendingSend, itemWf, isComplete, pendingBytes in *.
  destruct (kind p) eqn:Hk.
  - rewrite Hc. set (rest := drop _ (payloadView p)). destruct (writeTransport_takes rest c Ht Hs) as (k & n & -> & Hk').
    { intros E. apply (f_equal length) in E. unfold rest in E. rewrite length_drop in E. cbn in E. apply Z.leb_gt in Hc. unfold zlen in Hc. lia. }
    cbn [countOf]. by eexists _, _, _, _.
  - apply Z.leb_gt in Hc. destruct Hw as [W1 W2 W3 W4 W5 W6]. unfold writeFilePendingSend. rewrite (proj2 (Z.eqb_neq (remainingFileBytes p) 0)) by lia.
    assert (Hrem : remainingFileBytes p = fileLength p - fileBytesSent p) by (unfold remainingFileBytes; by rewrite (proj2 (Z.ltb_lt _ _))).
    destruct (directSendEligible p) eqn:Ed; [|destruct (Z.leb_spec (zlen (stagingBuffer p)) (stagingOffset p))].
    + unfold sendDirectly. destruct (tf_send _ willingFiles (socket_ c) (fileHandle p) (fileOffset p + fileBytesSent p)
        (Z.min (remainingFileBytes p) kDirectFileSendChunkSize) Ht) as (k & m & -> & Hk'); unfold kDirectFileSendChunkSize in *; [lia..|]. by eexists _, _, _, _.
    + destruct (tf_read _ willingFiles (socket_ c) (fileHandle p) (fileOffset p + fileBytesSent p)
        (Z.min (remainingFileBytes p) kBufferedFileChunkSize) Ht) as (k & d & -> & Hd & Hk'); unfold kBufferedFileChunkSize in *; [lia..|].
      destruct d as [|x d]; [done|].
      destruct (staged_takes (setStagingOffset 0 (setStagingBuffer (x :: d) p)) (setSocket k c) Hk' Hs ltac:(done)) as (k' & p' & took & n & -> & Hk2). by eexists _, _, _, _.
    + apply staged_takes; try done. intros E. apply (f_equal length) in E. rewrite length_drop in E. cbn in E. unfold zlen in *. lia.
Qed.

Lemma session_drain_all b fuel : ∀ c, sinv b c -> ready_ c = true -> takes (socket_ c) -> (work c < fuel)%nat ->
  let '(c', e) := drainLoop ssl fuel c in
  written_ c' = accepted_ c ∧
  if closeAfterFlush_ (writer c) then e = DrainClose (str "Connection closed")
  else e = DrainDone ∧ sendQueue_ (writer c') = [] ∧ takes (socket_ c') ∧ closeAfterFlush_ (writer c') = false.
Proof.
  induction fuel as [|fuel IH]; intros c H Hrd Ht Hf; [lia|]. cbn [drainLoop]. rewrite Hrd. cbn [negb].
  pose proof (c_stream _ _ (proj1 H) Hrd) as Hst. destruct (sendQueue_ (writer c)) as [|p ps] eqn:Hq.
  - unfold unsent in Hst. rewrite Hq in Hst. cbn in Hst. rewrite app_nil_r in Hst.
    unfold drainedLocked. change (closeAfterFlush_ (writer (stopWriteTimer (onWriter (setWriteWaitField NoWait) c)))) with (closeAfterFlush_ (writer c)).
    destruct (closeAfterFlush_ (writer c)) eqn:Ec.
    + split; [|done]. by rewrite (st_written _ _ (steady_refresh _)).
    + rewrite (st_written _ _ (steady_refresh _)), (st_queue _ _ (steady_refresh _)), (st_close _ _ (steady_refresh _)). split_and!; try done. by apply session_refresh_takes.
  - pose proof (c_queue _ _ (proj1 H)) as Hitems. rewrite Hq in Hitems. apply Forall_cons in Hitems as [Hp Hps].
    rewrite (proj2 Hp). destruct (attempt_takes p c Hp Ht (c_ssl _ _ (proj1 H))) as (k & p' & took & n & Ew & Hk). rewrite Ew.
    destruct (write_attempt _ _ _ _ _ _ Hp Ew) as [_ (A1 & A2 & A3)].
    destruct (written_writing b p p' ps took k c H Hrd Hq A1 A2) as (Hw & Hww & Ha).
    change (written_ (setSocket k c)) with (written_ c). set (c0 := setWritten _ _) in *.
    set (c1 := armConnectionTimer (setWriteWait NoWait c0)) in *.
    assert (Hk1 : takes (socket_ c1)) by (unfold c1, armConnectionTimer; case_match; by apply session_refresh_takes).
    assert (Hs1 : steady (onWriter (setWriteWaitField NoWait) c0) c1) by (etrans; [apply steady_refresh | apply steady_armConnection]).
    pose proof (pop_sinv b p' ps c1 Hw Hww) as Hpop. pose proof (pop_takes c1 Hk1) as Hk2. destruct (popCompleted c1) as [c2 closeNow]. cbn [fst] in Hk2.
    destruct Hpop as (H2 & Ha2 & W2 & U2 & L2 & _ & F2). pose proof (st_close _ _ Hs1) as Hc1. change (closeAfterFlush_ (writer (onWriter (setWriteWaitField NoWait) c0))) with (closeAfterFlush_ (writer c)) in Hc1.
    rewrite Hc1 in F2.
    assert (Hrd2 : ready_ c2 = true) by (by rewrite (ad_ready _ _ Ha2), (ad_ready _ _ Ha)).
    assert (Hacc : accepted_ c2 = accepted_ c) by (by rewrite (ad_accepted _ _ Ha2), (ad_accepted _ _ Ha)).
    destruct closeNow.
    + destruct F2 as [-> Hq2]. split; [|done]. rewrite <- Hacc, <- (c_stream _ _ (proj1 H2) Hrd2). unfold unsent. rewrite Hq2. by rewrite app_nil_r.
    + destruct F2 as [F2 _]. specialize (IH c2 H2 Hrd2 Hk2). rewrite F2, Hacc in IH. apply IH.
      revert Hf. unfold work. rewrite U2. unfold unsent. rewrite Hq. cbn [fmap list_fmap concat length]. rewrite <- A2, !length_app.
      assert (0 < length took)%nat by (destruct took; [done | cbn; lia]). lia.
Qed.

(** The rounds [drainSendQueue] is given are enough. *)
Lemma drainFuel_enough b c : sinv b c -> (work c < drainFuel c)%nat.
Proof.
  intros [H _]. unfold work, drainFuel, queuedBytes, unsent. pose proof (c_queue _ _ H) as Hq.
  assert (E : fold_right (fun p n => pendingBytes p + n) 0 (sendQueue_ (writer c)) = zlen (concat (itemRest <$> sendQueue_ (writer c)))).
  { induction Hq as [|p ps Hp _ IH]; [done|]. cbn [fold_right fmap list_fmap concat]. by rewrite IH, zlen_app, (proj1 (itemRest_length p Hp)). }
  rewrite E. unfold zlen. lia.
Qed.

End Willing.

(** ** Starting *)

(** Nothing has been sent on the session. *)
Definition idle (c : Session) : Prop :=
  ready_ c = false ∧ writer c = idleWriter ∧ tlsState_ c = TlsDisabled ∧ accepted_ c = [] ∧ written_ c = [].

Lemma idle_core b c : idle c -> core b c.
Proof.
  intros (H1 & H2 & H3 & H4 & H5). split; rewrite ?H1, ?H2, ?H3, ?H4, ?H5; try done.
Qed.

Lemma idle_sinv b c : idle c -> running_ c = false -> sinv b c.
Proof. intros H Hr. split; [by apply idle_core|]. intros E. congruence. Qed.

(** The registration either succeeds or leaves a session that does not run. *)
Lemma openSession_idle (c : Session) : idle c -> running_ c = false ->
  let '(c', ok) := openSession c in idle c' ∧ running_ c' = ok ∧ sslContext_ c' = sslContext_ c ∧ callbacks c' = callbacks c.
Proof.
  intros Hi Hr. unfold openSession, trySocket, tryBuffer, registerSocket, startFailed, armConnectionTimer.
  destruct (sockNoDelay _) as [k1 [f1|]]; [done|]. destruct (sockKeepAlive _) as [k2 [f2|]]; [done|].
  destruct (sockSendBuffer _) as [k3 ok3]. set (c3 := if ok3 then _ else _).
  assert (H3 : idle c3 ∧ running_ c3 = false ∧ sslContext_ c3 = sslContext_ c ∧ callbacks c3 = callbacks c) by (unfold c3; by destruct ok3). clearbody c3. destruct H3 as (H3 & Hr3 & E3 & F3).
  destruct (sockRecvBuffer _) as [k4 ok4]. set (c4 := if ok4 then _ else _).
  assert (H4 : idle c4 ∧ running_ c4 = false ∧ sslContext_ c4 = sslContext_ c ∧ callbacks c4 = callbacks c) by (unfold c4; by destruct ok4). clearbody c4. destruct H4 as (H4 & Hr4 & E4 & F4).
  destruct (sockSetNonBlocking _) as [k5 [f5|]]; [done|]. destruct (pollAdd _) as [k6 added]. destruct added; cbn [negb]; [|done].
  destruct (_ =? 0); by split_and!.
Qed.

(** A session that becomes ready. *)
Lemma becomeReady_sinv b c : core b c -> running_ c = true -> ready_ c = false -> tlsState_ c ≠ TlsHandshaking ->
  writeInterestEnabled_ (writer c) = wantsWrite c -> sinv b (armReadTimer (armConnectionTimer (setReady true c))).
Proof.
  intros [H1 H2 H3 H4 H5 H6 H7 H8] Hr Hrd Ht Hi. destruct (H5 Hr Hrd) as (A & W & Q).
  assert (H : sinv b (setReady true c)).
  { split; [split; try done; cbn; try congruence|].
    - intros _. rewrite A, W. unfold unsent. by rewrite Q.
    - intros _. by split. }
  apply (sinv_steady b (setReady true c)); [| |exact H].
  - etrans; [apply steady_armConnection | apply steady_armRead].
  - unfold armReadTimer, armConnectionTimer. by repeat case_match.
Qed.

Lemma initializeTls_sinv b cfg c : idle c -> running_ c = true ->
  let '(c', ok) := initializeTls ssl cfg c in
  written_ c' `prefix_of` accepted_ c' ∧ ready_ c' = false ∧ callbacks c' = callbacks c ∧
  (ok = true -> sinv b c' ∧ running_ c' = true ∧ sslContext_ c' = sslContext_ c).
Proof.
  intros (H1 & H2 & H3 & H4 & H5) Hr. unfold initializeTls, failed. destruct ssl eqn:Essl; cbn [negb]; [|cbn; rewrite H5; split_and!; try done; apply prefix_nil].
  destruct (tlsInit _ _) as [k [[code m]|]]; cbn [written_ accepted_ ready_ setFailure setSocket onWriter setWriter setTlsState]; rewrite ?H5;
    [split_and!; try done; apply prefix_nil|]. split_and!; [apply prefix_nil | done | done|]. intros _.
  assert (E : onWriter (setHandshakeWaitField NoWait) (setTlsState TlsHandshaking (setSocket k c)) = setWriter idleWriter (setTlsState TlsHandshaking (setSocket k c))).
  { unfold onWriter. cbn. by rewrite H2. }
  rewrite E. split_and!; [|done|done]. split; [|done].
  split; cbn [writer setWriter setTlsState setSocket written_ accepted_ ready_ running_ tlsState_]; rewrite ?H4, ?H5; try done. by rewrite Hr.
Qed.

(** A step of the handshake of a session that is not ready. *)
Lemma handshakeStep_sinv b c : sinv b c -> running_ c = true -> ready_ c = false ->
  let '(c', r) := handshakeStep ssl c in
  running_ c' = true ∧ ready_ c' = false ∧ callbacks c' = callbacks c ∧ written_ c' `prefix_of` accepted_ c' ∧
  match r with
  | Some _ => sinv b c'
  | None => core b c' ∧ tlsState_ c' = TlsReady ∧ writeInterestEnabled_ (writer c') = wantsWrite c'
  end.
Proof.
  intros H Hr Hrd. pose proof (c_prefix _ _ (proj1 H)) as Hp. unfold handshakeStep, failed.
  assert (Hsame : ∀ c', steady c c' -> writeInterestEnabled_ (writer c') = writeInterestEnabled_ (writer c) ->
    running_ c' = true ∧ ready_ c' = false ∧ callbacks c' = callbacks c ∧ written_ c' `prefix_of` accepted_ c' ∧ sinv b c').
  { intros c' Hs Hi. rewrite (st_running _ _ Hs), (st_ready _ _ Hs), (st_callbacks _ _ Hs), (st_written _ _ Hs), (st_accepted _ _ Hs). split_and!; try done. by apply (sinv_steady b c). }
  destruct ssl eqn:Essl; cbn [negb]; [|by apply Hsame]. rewrite bool_decide_eq_true_2 by (by apply (proj2 H Hr)). cbn [negb].
  assert (Hwait : ∀ d k, let c' := setHandshakeWait d (setSocket k c) in
    running_ c' = true ∧ ready_ c' = false ∧ callbacks c' = callbacks c ∧ written_ c' `prefix_of` accepted_ c' ∧ sinv b c').
  { intros d k c'. pose proof (steady_refresh (onWriter (setHandshakeWaitField d) (setSocket k c))) as Hs. fold (setHandshakeWait d (setSocket k c)) in Hs. fold c' in Hs.
    rewrite (st_running _ _ Hs), (st_ready _ _ Hs), (st_callbacks _ _ Hs), (st_written _ _ Hs), (st_accepted _ _ Hs). split_and!; try done.
    assert (H1 : sinv b (setSocket k c)) by (by apply (sinv_steady b c)). pose proof (c_waits _ _ (proj1 H)) as [W1 W2].
    apply refresh_writer; [done | done | done | exact W1 | exact W2 | exact (c_quiet _ _ (proj1 H))]. }
  destruct (tlsHandshake _) as [k r]. destruct r as [verify| | | |details]; [|by apply Hwait|by apply Hwait|by apply Hsame|by apply Hsame].
  destruct (if from_option verifyPeer false _ then verify else None); [by apply Hsame|]. set (c1 := setTlsState TlsReady (setSocket k c)). set (c2 := onWriter (setHandshakeWaitField NoWait) c1).
  pose proof (steady_refresh c2) as Hs. change (setHandshakeWait NoWait c1) with (refreshInterestLocked c2).
  assert (H2 : core b c2).
  { destruct H as [[H1 H2 H3 H4 H5 [W1 W2] H7 H8] _]. split; [exact H1 | exact H2 | exact H3 | cbn; congruence | exact H5 | split; [exact W1 | done] | done | exact H8]. }
  rewrite (st_running _ _ Hs), (st_ready _ _ Hs), (st_callbacks _ _ Hs), (st_written _ _ Hs), (st_accepted _ _ Hs), (st_tls _ _ Hs). split_and!; try done.
  - by eapply core_steady.
  - by rewrite (refresh_interest c2 Hr), (wantsWrite_steady _ _ Hs).
Qed.
End Items.
