(* ===== verification/TcpServerImpl.v ===== *)
(** * TCP server (class TcpServer::Impl of src/TcpServer.cpp)

    The server with its sessions: starting and stopping, accepting, the registry of sessions,
    sending, broadcasting, closing, and the parts of a session that call back into the
    server.  [objects] holds the session objects by connection id; [sessions_] is the
    registry, a list of ids, and [order] the order in which the code's unordered map lists
    them.  A session stays in [objects] when it leaves the registry, since whoever works on
    it holds a pointer.  Calls are serialized; a user's function runs inside the operation that
    calls it and may use the server: [callback] is what it does with the state, closed below
    over any depth of nesting.  Connection ids do not wrap: there are fewer than 2^64
    connections. *)

From S2P Require Import Prelude Address ClientTransport Transport SessionTypes ClientSession.

(** Which functions the user has set. *)
Record UserCallbacks := mkUser {
  connectedCallback_ : bool;
  disconnectedCallback_ : bool;
  dataReceivedCallback_ : bool;
  ownedDataReceivedCallback_ : bool;
  sharedDataReceivedCallback_ : bool;
  serverErrorCallback_ : bool
}.

(** Calls of the user's functions. *)
Inductive Event :=
  | OnConnected (id : ConnectionId) (address : Address)
  | OnDisconnected (id : ConnectionId) (reason : list byte)
  | OnData (id : ConnectionId) (data : list byte)
  | OnError (f : Failure).

Section Server.
Context {Sock : Type} {sock : Socket Sock} {system : ServerSystem Sock}.
Context (ssl : bool) (order : list ConnectionId -> list ConnectionId).
Abbreviation Session := (@ClientSession Sock).

Record Server := mkServer {
  listenSocket_ : Sock;
  serverRunning_ : bool;
  sessions_ : list ConnectionId;
  sessionCount_ : Z;
  listenAddress_ : Address;
  maxConnections_ : Z;
  timeouts : SessionTimeoutConfig;
  nextConnectionId_ : ConnectionId;
  sslConfig_ : SSLConfig;
  sslEnabled_ : bool;
  userCallbacks : UserCallbacks;
  objects : ConnectionId -> Session;
  log : list Event
}.

Definition setListenSocket x (s : Server) : Server := mkServer x (serverRunning_ s) (sessions_ s) (sessionCount_ s) (listenAddress_ s) (maxConnections_ s) (timeouts s) (nextConnectionId_ s) (sslConfig_ s) (sslEnabled_ s) (userCallbacks s) (objects s) (log s).
Definition setServerRunning x (s : Server) : Server := mkServer (listenSocket_ s) x (sessions_ s) (sessionCount_ s) (listenAddress_ s) (maxConnections_ s) (timeouts s) (nextConnectionId_ s) (sslConfig_ s) (sslEnabled_ s) (userCallbacks s) (objects s) (log s).
Definition setListenAddress x (s : Server) : Server := mkServer (listenSocket_ s) (serverRunning_ s) (sessions_ s) (sessionCount_ s) x (maxConnections_ s) (timeouts s) (nextConnectionId_ s) (sslConfig_ s) (sslEnabled_ s) (userCallbacks s) (objects s) (log s).
Definition setMax x (s : Server) : Server := mkServer (listenSocket_ s) (serverRunning_ s) (sessions_ s) (sessionCount_ s) (listenAddress_ s) x (timeouts s) (nextConnectionId_ s) (sslConfig_ s) (sslEnabled_ s) (userCallbacks s) (objects s) (log s).
Definition setTimeouts x (s : Server) : Server := mkServer (listenSocket_ s) (serverRunning_ s) (sessions_ s) (sessionCount_ s) (listenAddress_ s) (maxConnections_ s) x (nextConnectionId_ s) (sslConfig_ s) (sslEnabled_ s) (userCallbacks s) (objects s) (log s).
Definition setNextId x (s : Server) : Server := mkServer (listenSocket_ s) (serverRunning_ s) (sessions_ s) (sessionCount_ s) (listenAddress_ s) (maxConnections_ s) (timeouts s) x (sslConfig_ s) (sslEnabled_ s) (userCallbacks s) (objects s) (log s).
Definition setSslConfig x (s : Server) : Server := mkServer (listenSocket_ s) (serverRunning_ s) (sessions_ s) (sessionCount_ s) (listenAddress_ s) (maxConnections_ s) (timeouts s) (nextConnectionId_ s) x (sslEnabled_ s) (userCallbacks s) (objects s) (log s).
Definition setSslEnabled x (s : Server) : Server := mkServer (listenSocket_ s) (serverRunning_ s) (sessions_ s) (sessionCount_ s) (listenAddress_ s) (maxConnections_ s) (timeouts s) (nextConnectionId_ s) (sslConfig_ s) x (userCallbacks s) (objects s) (log s).
Definition setUserCallbacks x (s : Server) : Server := mkServer (listenSocket_ s) (serverRunning_ s) (sessions_ s) (sessionCount_ s) (listenAddress_ s) (maxConnections_ s) (timeouts s) (nextConnectionId_ s) (sslConfig_ s) (sslEnabled_ s) x (objects s) (log s).
Definition setObjects x (s : Server) : Server := mkServer (listenSocket_ s) (serverRunning_ s) (sessions_ s) (sessionCount_ s) (listenAddress_ s) (maxConnections_ s) (timeouts s) (nextConnectionId_ s) (sslConfig_ s) (sslEnabled_ s) (userCallbacks s) x (log s).
Definition setLog x (s : Server) : Server := mkServer (listenSocket_ s) (serverRunning_ s) (sessions_ s) (sessionCount_ s) (listenAddress_ s) (maxConnections_ s) (timeouts s) (nextConnectionId_ s) (sslConfig_ s) (sslEnabled_ s) (userCallbacks s) (objects s) x.
Definition setRegistry l n (s : Server) : Server := mkServer (listenSocket_ s) (serverRunning_ s) l n (listenAddress_ s) (maxConnections_ s) (timeouts s) (nextConnectionId_ s) (sslConfig_ s) (sslEnabled_ s) (userCallbacks s) (objects s) (log s).
Definition emit (e : Event) (s : Server) : Server := setLog (log s ++ [e]) s.

(** The session with the id changes, or is replaced. *)
Definition putSession (id : ConnectionId) (c : Session) (s : Server) : Server :=
  setObjects (fun i => if decide (i = id) then c else objects s i) s.
Definition onSession (id : ConnectionId) (f : Session -> Session) (s : Server) : Server := putSession id (f (objects s id)) s.

(** A change that also gives a result. *)
Definition onSessionWith {A} (id : ConnectionId) (f : Session -> Session * A) (s : Server) : Server * A :=
  let '(c, a) := f (objects s id) in (putSession id c s, a).

Definition hasClient (id : ConnectionId) (s : Server) : bool := bool_decide (id ∈ sessions_ s).
Definition getClientCount (s : Server) : Z := sessionCount_ s.
Definition getClientIds (s : Server) : list ConnectionId := order (sessions_ s).
Definition getClientAddress (id : ConnectionId) (s : Server) : Address :=
  if hasClient id s then clientAddress_ (objects s id) else mkAddress [] 0.

(** [sessions_.erase], with the counter. *)
Definition eraseSession (id : ConnectionId) (s : Server) : Server :=
  if hasClient id s then setRegistry (filter (.≠ id) (sessions_ s)) (sessionCount_ s - 1) s else s.

Definition currentTimeoutConfig (s : Server) : SessionTimeoutConfig := timeouts s.

Definition cleanupServerTls (s : Server) : Server := setListenSocket (contextCleanup (listenSocket_ s)) (setSslEnabled false s).

Section Operations.
Context (callback : Event -> Server -> Server).

(** ** What sessions report *)

Definition reportError (f : Failure) (s : Server) : Server :=
  if serverErrorCallback_ (userCallbacks s) then callback (OnError f) s else s.

Definition onSessionReady (id : ConnectionId) (a : Address) (s : Server) : Server :=
  if connectedCallback_ (userCallbacks s) then callback (OnConnected id a) s else s.

Definition onSessionClosed (id : ConnectionId) (wasReady : bool) (reason : list byte) (s : Server) : Server :=
  let s := eraseSession id s in
  if wasReady && disconnectedCallback_ (userCallbacks s) then callback (OnDisconnected id reason) s else s.

Definition dispatchDataReceived (id : ConnectionId) (data : list byte) (s : Server) : Server :=
  if dataReceivedCallback_ (userCallbacks s) then callback (OnData id data) s else s.
Definition dispatchOwnedDataReceived (id : ConnectionId) (data : list byte) (s : Server) : Server :=
  if ownedDataReceivedCallback_ (userCallbacks s) then callback (OnData id data) s else s.
Definition dispatchSharedDataReceived (id : ConnectionId) (data : list byte) (s : Server) : Server :=
  if sharedDataReceivedCallback_ (userCallbacks s) then callback (OnData id data) s else s.

(** ** Sessions *)

Definition close (reason : list byte) (id : ConnectionId) (s : Server) : Server :=
  let c := objects s id in
  if negb (running_ c) then onSession id (closeStopped ssl) s
  else onSessionClosed id (ready_ c) reason (onSession id (closeRunning ssl) s).

Definition handleTransportFailure (code : ErrorCode) (message : list byte) (id : ConnectionId) (s : Server) : Server :=
  let s := if errorCallback_ (callbacks (objects s id)) then reportError (code, message) s else s in
  close message id s.

Definition markReady (id : ConnectionId) (s : Server) : Server :=
  if ready_ (objects s id) then s
  else
    let s := onSession id (fun c => armReadTimer (armConnectionTimer (setReady true c))) s in
    onSessionReady id (clientAddress_ (objects s id)) s.

Definition driveTlsHandshake (id : ConnectionId) (s : Server) : Server * bool :=
  let '(s, r) := onSessionWith id (handshakeStep ssl) s in
  match r with Some ok => (s, ok) | None => (markReady id s, true) end.

Definition continueHandshake (id : ConnectionId) (s : Server) : Server :=
  let '(s, ok) := driveTlsHandshake id s in
  if ok then s else let f := lastFailure_ (objects s id) in handleTransportFailure f.1 f.2 id s.

(** [drainSendQueue], with what follows the end of its loop; the flag tells whether the queue was drained. *)
Definition drainSendQueue (id : ConnectionId) (s : Server) : Server * bool :=
  let '(s, e) := onSessionWith id (fun c => drainLoop ssl (drainFuel c) c) s in
  match e with
  | DrainDone => (s, true)
  | DrainBlocked | DrainNotReady => (s, false)
  | DrainClose reason => (close reason id s, false)
  | DrainFail code message => (handleTransportFailure code message id s, false)
  end.

(** A second round happens only when a flush was asked for during the first. *)
Fixpoint flushLoop (fuel : nat) (id : ConnectionId) (s : Server) : Server :=
  match fuel with
  | O => s
  | S fuel =>
      if negb (ready_ (objects s id)) then onSession id flushDone s
      else
        let '(s, drained) := drainSendQueue id s in
        let c := objects s id in
        if negb (running_ c) || negb drained then onSession id flushDone s
        else if negb (flushReschedule_ (writer c)) then onSession id (onWriter (setFlushRunning false)) s
        else flushLoop fuel id (onSession id (onWriter (setFlushReschedule false)) s)
  end.
Definition runQueuedFlush : ConnectionId -> Server -> Server := flushLoop 2.

Definition dispatchFlushIfNeeded (shouldScheduleFlush : bool) (id : ConnectionId) (s : Server) : Server :=
  if shouldScheduleFlush then runQueuedFlush id s else s.

(** The entries are queued; [arm] tells whether the write timer is armed. *)
Definition enqueue (arm : bool) (entries : list PendingSend) (data : list byte) (id : ConnectionId) (s : Server) : Server :=
  let '(s, shouldScheduleFlush) := onSessionWith id (enqueueLocked entries data) s in
  let s := if arm then onSession id armWriteTimer s else s in
  dispatchFlushIfNeeded shouldScheduleFlush id s.

(** The overloads of [ClientSession::send]; no bytes stand for a null pointer, too. *)
Definition send (h : Held) (data : list byte) (id : ConnectionId) (s : Server) : Server * bool :=
  if negb (ready_ (objects s id)) then (s, false)
  else if data =s [] then (s, true)
  else (enqueue true [pendingOf h data] data id s, true).

(** [sendFile]: the prefix has been moved away when the write timer is armed, so that only a body arms it. *)
Definition sendFile (prefix path : list byte) (offset length : Z) (id : ConnectionId) (s : Server) : Server * option Failure :=
  let offset := u64 offset in
  let length := u64 length in
  if negb (ready_ (objects s id)) then (s, Some (ConnectionError, str "Client connection is not ready"))
  else if path =s [] then (s, Some (InvalidArgument, str "File path must not be empty"))
  else
    let '(s, opened) := onSessionWith id (fun c => let '(k, o) := fileOpen (socket_ c) path in (setSocket k c, o)) s in
    match opened with
    | OpenFailed => (s, Some (UnknownError, str "Failed to open file: " ++ path))
    | InspectFailed => (s, Some (UnknownError, str "Failed to inspect file: " ++ path))
    | Opened content =>
        if zlen content <? offset then (s, Some (InvalidArgument, str "Requested file offset is past the end of file"))
        else
          let remaining := zlen content - offset in
          let fileLength := if length =? 0 then remaining else length in
          if remaining <? fileLength then (s, Some (InvalidArgument, str "Requested file range exceeds file size"))
          else
            let direct := tlsState_ (objects s id) =s TlsDisabled in
            let hasFileBody := 0 <? fileLength in
            if (prefix =s []) && negb hasFileBody then (s, None)
            else
              let entries := (if prefix =s [] then [] else [pendingOf HeldString prefix]) ++
                             (if hasFileBody then [pendingFile path content offset fileLength direct] else []) in
              let data := prefix ++ take (Z.to_nat fileLength) (drop (Z.to_nat offset) content) in
              (enqueue hasFileBody entries data id s, None)
    end.

Definition closeAfterPendingWrites (id : ConnectionId) (s : Server) : Server :=
  if negb (hasPendingWrite (objects s id)) then close (str "Connection closed") id (onSession id (onWriter (setCloseAfterFlush false)) s)
  else onSession id (fun c => refreshInterestLocked (onWriter (setCloseAfterFlush true) c)) s.

(** *** Events of a session's socket *)

Definition kReadChunkSize : Z := 16384.

(** The end of a read: a shared function gets the data even if there is none. *)
Definition deliver (id : ConnectionId) (data : list byte) (s : Server) : Server :=
  let cb := callbacks (objects s id) in
  if sharedDataCallback_ cb then dispatchSharedDataReceived id data s
  else if data =s [] then s
  else if ownedDataCallback_ cb then dispatchOwnedDataReceived id data s
  else if dataCallback_ cb then dispatchDataReceived id data s else s.

(** At most [fuel] chunks are read. *)
Fixpoint readLoop (fuel : nat) (id : ConnectionId) (s : Server) : Server :=
  match fuel with
  | O => s
  | S fuel =>
      if negb (running_ (objects s id)) then s
      else
        let '(s, result) := onSessionWith id (readTransport ssl kReadChunkSize) s in
        match result with
        | IoOk data =>
            let s := onSession id (fun c => armReadTimer (armConnectionTimer (setReadWait NoWait c))) s in
            let s := deliver id data s in
            if zlen data <? kReadChunkSize then s else readLoop fuel id s
        | IoWouldBlock wait => onSession id (setReadWait wait) s
        | IoClosed => close (str "Connection closed by peer") id s
        | IoError code message => handleTransportFailure code message id s
        end
  end.

Definition handleRead (fuel : nat) (id : ConnectionId) (s : Server) : Server :=
  let c := objects s id in
  if negb (running_ c) then s
  else if tlsState_ c =s TlsHandshaking then continueHandshake id s
  else readLoop fuel id s.

Definition handleWrite (id : ConnectionId) (s : Server) : Server :=
  let c := objects s id in
  if negb (running_ c) then s
  else if tlsState_ c =s TlsHandshaking then continueHandshake id s
  else let '(s, shouldScheduleFlush) := onSessionWith id markFlushScheduledLocked s in dispatchFlushIfNeeded shouldScheduleFlush id s.

(** The function a session registers with the poller. *)
Definition handleEvents (fuel : nat) (readable writable failedOrClosed : bool) (id : ConnectionId) (s : Server) : Server :=
  let s := if readable then handleRead fuel id s else s in
  let s := if writable then handleWrite id s else s in
  if failedOrClosed then handleTransportFailure SocketError (str "Connection closed by peer") id s else s.

(** *** Timers; each has stopped when its function runs *)

Definition connectionTimerFired (id : ConnectionId) (s : Server) : Server :=
  let s := onSession id stopConnectionTimer s in
  if negb (running_ (objects s id)) then s else handleTransportFailure TimeoutError (str "Connection timed out") id s.
Definition readTimerFired (id : ConnectionId) (s : Server) : Server :=
  let s := onSession id stopReadTimer s in
  if negb (ready_ (objects s id)) then s else handleTransportFailure TimeoutError (str "Read timed out") id s.
Definition writeTimerFired (id : ConnectionId) (s : Server) : Server :=
  let s := onSession id stopWriteTimer s in
  if negb (ready_ (objects s id)) then s
  else if negb (hasPendingWrite (objects s id)) then s
  else handleTransportFailure TimeoutError (str "Write timed out") id s.

(** ** Accepting *)

(** The rest of [ClientSession::start], once the socket is registered. *)
Definition beginService (id : ConnectionId) (s : Server) : Server * bool :=
  let abort s := (onSession id (abortStartup ssl) s, false) in
  match sslContext_ (objects s id) with
  | Some cfg =>
      let '(s, ok) := onSessionWith id (initializeTls ssl cfg) s in
      if negb ok then abort s
      else
        let '(s, ok) := driveTlsHandshake id s in
        if negb ok then abort s else (s, true)
  | None => (markReady id s, true)
  end.

Definition startSession (id : ConnectionId) (s : Server) : Server * bool :=
  let '(s, ok) := onSessionWith id openSession s in
  if ok then beginService id s else (s, false).

(** [assignSessionCallbacks]: which functions there are when the session is made. *)
Definition assignSessionCallbacks (s : Server) : SessionCallbacks :=
  let u := userCallbacks s in
  mkCallbacks (dataReceivedCallback_ u) (ownedDataReceivedCallback_ u) (sharedDataReceivedCallback_ u) (serverErrorCallback_ u).

Definition adoptAcceptedSocket (client : Sock) (ip : list byte) (port : Z) (s : Server) : Server :=
  if maxConnections_ s <=? sessionCount_ s then s
  else
    let id := nextConnectionId_ s in
    let s := setNextId (id + 1) s in
    let c := newSession client id (mkAddress ip port) (if sslEnabled_ s then Some (sslConfig_ s) else None)
               (currentTimeoutConfig s) (assignSessionCallbacks s) in
    if maxConnections_ s <=? zlen (sessions_ s) then s
    else
      let s := setRegistry (sessions_ s ++ [id]) (sessionCount_ s + 1) (putSession id c s) in
      let '(s, ok) := startSession id s in
      if ok then s
      else let s := eraseSession id s in reportError (lastFailure_ (objects s id)) s.

(** At most [fuel] connections are accepted. *)
Fixpoint acceptNewConnections (fuel : nat) (s : Server) : Server :=
  match fuel with
  | O => s
  | S fuel =>
      if negb (serverRunning_ s) then s
      else
        let '(k, r) := listenAccept (listenSocket_ s) in
        let s := setListenSocket k s in
        match r with
        | NothingToAccept => s
        | AcceptFailed f => reportError f s
        | Accepted client ip port => acceptNewConnections fuel (adoptAcceptedSocket client ip port s)
        end
  end.

(** The function registered for the listening socket. *)
Definition handleListenEvents (fuel : nat) (readable failedOrClosed : bool) (s : Server) : Server :=
  let s := if readable then acceptNewConnections fuel s else s in
  if failedOrClosed then reportError (SocketError, str "Listen socket failure") s else s.

(** ** Calls of the user *)

(** A step of [start] that failed, with the listening socket closed first if it was open. *)
Definition listenFailed (open : bool) (f : Failure) (s : Server) : Server * option Failure :=
  let s := if open then setListenSocket (sockClose (listenSocket_ s)) s else s in
  (setServerRunning false (cleanupServerTls s), Some f).

Definition tryListen (open : bool) (call : Sock -> Sock * option Failure) (k : Server -> Server * option Failure) (s : Server)
    : Server * option Failure :=
  let '(sk, e) := call (listenSocket_ s) in
  let s := setListenSocket sk s in
  match e with Some f => listenFailed open f s | None => k s end.

Definition updateListenAddress (bindAddress : list byte) (port : Z) (s : Server) : Server :=
  setListenAddress (match sockLocal (listenSocket_ s) with Some a => a | None => mkAddress bindAddress port end) s.

Definition registerListener (s : Server) : Server * option Failure :=
  let '(sk, added) := pollAdd (listenSocket_ s) in
  let s := setListenSocket sk s in
  if negb added then listenFailed true (SocketError, str "Failed to register listen socket") s else (s, None).

Definition listen (port : Z) (bindAddress : list byte) : Server -> Server * option Failure :=
  tryListen false (fun k => listenCreate k bindAddress port)
    (tryListen true listenOption
      (tryListen true (fun k => listenBind k bindAddress port)
        (tryListen true listenListen
          (tryListen true sockSetNonBlocking
            (fun s => registerListener (updateListenAddress bindAddress port s)))))).

Definition start (port : Z) (bindAddress : list byte) (cfg : SSLConfig) (s : Server) : Server * option Failure :=
  if serverRunning_ s then (s, Some (AlreadyRunning, str "Server is already running"))
  else
    let s := setSslEnabled (enableSSL cfg) (setSslConfig cfg (setServerRunning true s)) in
    if enableSSL cfg then
      let '(k, e) := contextInit (listenSocket_ s) cfg in
      let s := setListenSocket k s in
      match e with
      | Some message => (setSslEnabled false (setServerRunning false s), Some (SSLError, message))
      | None => listen port bindAddress s
      end
    else listen port bindAddress s.

(** An operation on every session of a list. *)
Definition forSessions (f : ConnectionId -> Server -> Server) (ids : list ConnectionId) (s : Server) : Server :=
  fold_left (fun s id => f id s) ids s.

Definition stop (s : Server) : Server :=
  if negb (serverRunning_ s) then cleanupServerTls s
  else
    let s := setServerRunning false s in
    let s := setListenSocket (sockClose (pollRemove (listenSocket_ s))) s in
    let sessions := order (sessions_ s) in
    cleanupServerTls (forSessions (close (str "Server stopped")) sessions (setRegistry [] 0 s)).

Definition clientNotFound : Failure := (InvalidArgument, str "Client not found").

Definition sendToClient (h : Held) (id : ConnectionId) (data : list byte) (s : Server) : Server * option Failure :=
  if negb (hasClient id s) then (s, Some clientNotFound)
  else
    let '(s, ok) := send h data id s in
    (s, if ok then None else Some (ConnectionError, str "Client connection is not ready")).

Definition sendFileToClient (id : ConnectionId) (prefix path : list byte) (offset length : Z) (s : Server) : Server * option Failure :=
  if negb (hasClient id s) then (s, Some clientNotFound) else sendFile prefix path offset length id s.

Definition broadcast (h : Held) (data : list byte) (s : Server) : Server :=
  if data =s [] then s else forSessions (fun id s => (send h data id s).1) (order (sessions_ s)) s.
Definition broadcastBuffer : list byte -> Server -> Server := broadcast HeldSharedBuffer.
Definition broadcastString : list byte -> Server -> Server := broadcast HeldSharedString.

Definition disconnectClient (id : ConnectionId) (s : Server) : Server :=
  if hasClient id s then close (str "Connection closed") id s else s.

Definition closeClientAfterPendingWrites (id : ConnectionId) (s : Server) : Server :=
  if hasClient id s then closeAfterPendingWrites id s else s.

Definition applyTimeoutsToSessions (s : Server) : Server :=
  let config := currentTimeoutConfig s in
  forSessions (fun id => onSession id (updateTimeouts config)) (order (sessions_ s)) s.

Definition setConnectionTimeout (timeoutMs : Z) (s : Server) : Server :=
  applyTimeoutsToSessions (setTimeouts (mkTimeouts timeoutMs (readTimeoutMs (timeouts s)) (writeTimeoutMs (timeouts s))) s).
Definition setReadTimeout (timeoutMs : Z) (s : Server) : Server :=
  applyTimeoutsToSessions (setTimeouts (mkTimeouts (connectionTimeoutMs (timeouts s)) timeoutMs (writeTimeoutMs (timeouts s))) s).
Definition setWriteTimeout (timeoutMs : Z) (s : Server) : Server :=
  applyTimeoutsToSessions (setTimeouts (mkTimeouts (connectionTimeoutMs (timeouts s)) (readTimeoutMs (timeouts s)) timeoutMs) s).

Definition setMaxConnections (n : Z) : Server -> Server := setMax n.

(** The functions of the interface: the three for data replace each other. *)
Definition onUser (f : UserCallbacks -> UserCallbacks) (s : Server) : Server := setUserCallbacks (f (userCallbacks s)) s.
Definition setClientConnectedCallback (set : bool) : Server -> Server :=
  onUser (fun u => mkUser set (disconnectedCallback_ u) (dataReceivedCallback_ u) (ownedDataReceivedCallback_ u) (sharedDataReceivedCallback_ u) (serverErrorCallback_ u)).
Definition setClientDisconnectedCallback (set : bool) : Server -> Server :=
  onUser (fun u => mkUser (connectedCallback_ u) set (dataReceivedCallback_ u) (ownedDataReceivedCallback_ u) (sharedDataReceivedCallback_ u) (serverErrorCallback_ u)).
Definition setDataReceivedCallback (set : bool) : Server -> Server :=
  onUser (fun u => mkUser (connectedCallback_ u) (disconnectedCallback_ u) set false false (serverErrorCallback_ u)).
Definition setOwnedDataReceivedCallback (set : bool) : Server -> Server :=
  onUser (fun u => mkUser (connectedCallback_ u) (disconnectedCallback_ u) false set false (serverErrorCallback_ u)).
Definition setSharedDataReceivedCallback (set : bool) : Server -> Server :=
  onUser (fun u => mkUser (connectedCallback_ u) (disconnectedCallback_ u) false false set (serverErrorCallback_ u)).
Definition setServerErrorCallback (set : bool) : Server -> Server :=
  onUser (fun u => mkUser (connectedCallback_ u) (disconnectedCallback_ u) (dataReceivedCallback_ u) (ownedDataReceivedCallback_ u) (sharedDataReceivedCallback_ u) set).

(** ** Everything that can happen *)

Inductive WhichCallback := ConnectedFn | DisconnectedFn | DataFn | OwnedDataFn | SharedDataFn | ErrorFn.

(** Calls of the user, from a callback or from outside. *)
Inductive UserCall :=
  | CallStart (port : Z) (bindAddress : list byte) (cfg : SSLConfig)
  | CallStop
  | CallSend (h : Held) (id : ConnectionId) (data : list byte)
  | CallSendFile (id : ConnectionId) (prefix path : list byte) (offset length : Z)
  | CallBroadcast (h : Held) (data : list byte)
  | CallDisconnect (id : ConnectionId)
  | CallCloseAfterPendingWrites (id : ConnectionId)
  | CallSetTimeouts (c r w : Z)
  | CallSetMaxConnections (n : Z)
  | CallSetCallback (which : WhichCallback) (set : bool).

Definition setCallback (which : WhichCallback) (set : bool) : Server -> Server :=
  match which with
  | ConnectedFn => setClientConnectedCallback set
  | DisconnectedFn => setClientDisconnectedCallback set
  | DataFn => setDataReceivedCallback set
  | OwnedDataFn => setOwnedDataReceivedCallback set
  | SharedDataFn => setSharedDataReceivedCallback set
  | ErrorFn => setServerErrorCallback set
  end.

Definition userCall (s : Server) (c : UserCall) : Server :=
  match c with
  | CallStart port bindAddress cfg => (start port bindAddress cfg s).1
  | CallStop => stop s
  | CallSend h id data => (sendToClient h id data s).1
  | CallSendFile id prefix path offset length => (sendFileToClient id prefix path offset length s).1
  | CallBroadcast h data => broadcast h data s
  | CallDisconnect id => disconnectClient id s
  | CallCloseAfterPendingWrites id => closeClientAfterPendingWrites id s
  | CallSetTimeouts c r w => setWriteTimeout w (setReadTimeout r (setConnectionTimeout c s))
  | CallSetMaxConnections n => setMaxConnections n s
  | CallSetCallback which set => setCallback which set s
  end.

(** Calls, socket events and timers. *)
Inductive Stimulus :=
  | Call (c : UserCall)
  | ListenReady (connections : nat) (readable failedOrClosed : bool)
  | SessionReady (id : ConnectionId) (chunks : nat) (readable writable failedOrClosed : bool)
  | ConnectionTimer (id : ConnectionId)
  | ReadTimer (id : ConnectionId)
  | WriteTimer (id : ConnectionId).

Definition happens (s : Server) (e : Stimulus) : Server :=
  match e with
  | Call c => userCall s c
  | ListenReady n r f => handleListenEvents n r f s
  | SessionReady id n r w f => handleEvents n r w f id s
  | ConnectionTimer id => connectionTimerFired id s
  | ReadTimer id => readTimerFired id s
  | WriteTimer id => writeTimerFired id s
  end.

End Operations.

(** The user's functions: [react] tells which calls they make.  They run inside the
    operation that calls them; [depth] bounds the nesting of such calls. *)
Fixpoint callbackAt (react : Event -> list UserCall) (depth : nat) (e : Event) (s : Server) : Server :=
  match depth with
  | O => emit e s
  | S depth => fold_left (userCall (callbackAt react depth)) (react e) (emit e s)
  end.

Definition run (react : Event -> list UserCall) (depth : nat) (stimuli : list Stimulus) (s : Server) : Server :=
  fold_left (happens (callbackAt react depth)) stimuli s.

(** A server as it is constructed; [k] stands for the sockets there are. *)
Definition initial (k : Sock) (u : UserCallbacks) : Server :=
  mkServer k false [] 0 (mkAddress [] 0) 10000 (mkTimeouts 0 0 0) 1 defaultSsl false u
    (fun id => newSession k id (mkAddress [] 0) None (mkTimeouts 0 0 0) (mkCallbacks false false false false)) [].

End Server.
