(* ===== verification/TcpServerStream.v ===== *)
(** * What the TCP server guarantees

    An invariant of [TcpServerImpl] kept by every operation, with the user's functions nested
    to any depth: the sessions keep the invariant of [SessionStream], the registry holds
    exactly the sessions that run and their number, and every connection is announced, gets
    its data and is reported closed in this order.  Then what a flush achieves, and the server
    as an implementation of the interface of [Transport]. *)

From S2P Require Import Prelude Address ClientTransport Transport SessionTypes PipeSocket ClientSession SessionStream TcpServerImpl.

(** ** The life of a connection *)

Inductive Phase := Unborn | Open | Gone.

Definition about (id : ConnectionId) (e : Event) : bool :=
  match e with OnConnected i _ | OnDisconnected i _ | OnData i _ => bool_decide (i = id) | OnError _ => false end.

(** Announced, then given data, then reported closed; [None] for any other order. *)
Definition lifeStep (id : ConnectionId) (p : option Phase) (e : Event) : option Phase :=
  if about id e then
    match p, e with
    | Some Unborn, OnConnected _ _ => Some Open
    | Some Open, OnData _ _ => Some Open
    | Some Open, OnDisconnected _ _ => Some Gone
    | _, _ => None
    end
  else p.
Definition life (id : ConnectionId) (l : list Event) : option Phase := fold_left (lifeStep id) l (Some Unborn).

Lemma tlife_snoc id l e : life id (l ++ [e]) = lifeStep id (life id l) e.
Proof. unfold life. by rewrite fold_left_app. Qed.

Lemma filter_absent (x : Z) (l : list Z) : x ∉ l -> filter (.≠ x) l = l.
Proof.
  induction l as [|y l IH]; intros Hx; [done|]. apply not_elem_of_cons in Hx as [Hne Hx]. rewrite filter_cons, decide_True by done. by rewrite IH.
Qed.

(** Removing an element of a list without repetitions. *)
Lemma filter_out (x : Z) (l : list Z) : NoDup l -> x ∈ l -> length l = S (length (filter (.≠ x) l)).
Proof.
  induction l as [|y l IH]; intros Hn Hx; [by apply not_elem_of_nil in Hx|]. apply NoDup_cons in Hn as [Hy Hn]. rewrite filter_cons.
  destruct (decide (y = x)) as [->|Hne].
  - rewrite decide_False by (intros H; by apply H). cbn. by rewrite filter_absent.
  - rewrite decide_True by done. apply elem_of_cons in Hx as [->|Hx]; [done|]. cbn. by rewrite (IH Hn Hx).
Qed.

(** Sets of ids with one more. *)
Lemma busy_self (id : Z) (X : gset Z) : bool_decide (id ∈ {[id]} ∪ X) = true.
Proof. apply bool_decide_eq_true_2. set_solver. Qed.
Lemma busy_other (i id : Z) (X : gset Z) : i ≠ id -> bool_decide (i ∈ {[id]} ∪ X) = bool_decide (i ∈ X).
Proof. intros H. apply bool_decide_ext. rewrite elem_of_union, elem_of_singleton. tauto. Qed.
Lemma doomed_other (i id : Z) (X : gset Z) : i ≠ id -> i ∈ {[id]} ∪ X -> i ∈ X.
Proof. rewrite elem_of_union, elem_of_singleton. tauto. Qed.

Section Invariant.
Context {Sock : Type} {sock : Socket Sock} {system : ServerSystem Sock} {laws : SocketLaws Sock} {files : ServerSystemLaws Sock}.
Context (ssl : bool) (order : list ConnectionId -> list ConnectionId) (ordered : ∀ l, order l ≡ₚ l).
(** With [strict], the two functions that report connections stay set and no limit above [cap] is set. *)
Context (strict : Prop) (cap : Z).
Abbreviation Session := (@ClientSession Sock).
Abbreviation Srv := (@Server Sock).

Definition phaseOf (c : Session) (p : option Phase) : Prop :=
  if ready_ c then p = Some Open else if running_ c then p = Some Unborn else p = Some Unborn ∨ p = Some Gone.

(** [busy]: sessions with a flush under way; [doomed]: sessions a [stop] under way has still to close; [held]: sessions
    that were ready at some time. *)
Record inv (busy doomed held : gset ConnectionId) (s : Srv) : Prop := {
  i_sessions id : sinv ssl (bool_decide (id ∈ busy)) (objects s id);
  i_nodup : NoDup (sessions_ s);
  i_count : sessionCount_ s = zlen (sessions_ s);
  i_registered id : id ∈ sessions_ s -> running_ (objects s id) = true;
  i_running id : running_ (objects s id) = true -> id ∈ sessions_ s ∨ id ∈ doomed;
  i_new id : nextConnectionId_ s <= id -> running_ (objects s id) = false ∧ (strict -> life id (log s) = Some Unborn);
  i_held id : id ∈ held -> id < nextConnectionId_ s ∧ (running_ (objects s id) = true -> ready_ (objects s id) = true);
  i_life : strict -> ∀ id, phaseOf (objects s id) (life id (log s));
  i_told : strict -> connectedCallback_ (userCallbacks s) = true ∧ disconnectedCallback_ (userCallbacks s) = true;
  i_capped : strict -> maxConnections_ s <= cap ∧ zlen (sessions_ s) <= cap
}.

(** ** Changes of one session *)

(** Only the object of a session differs. *)
Record only (id : ConnectionId) (s s' : Srv) : Prop := {
  on_sessions : sessions_ s' = sessions_ s;
  on_count : sessionCount_ s' = sessionCount_ s;
  on_next : nextConnectionId_ s' = nextConnectionId_ s;
  on_user : userCallbacks s' = userCallbacks s;
  on_max : maxConnections_ s' = maxConnections_ s;
  on_log : log s' = log s;
  on_others i : i ≠ id -> objects s' i = objects s i
}.

Lemma objects_put id c (s : Srv) : objects (putSession id c s) id = c.
Proof. cbn. by rewrite decide_True. Qed.
Lemma only_put id c (s : Srv) : only id s (putSession id c s).
Proof. split; try done. intros i Hi. cbn. by rewrite decide_False. Qed.
#[global] Instance only_refl id : Reflexive (only id).
Proof. by split. Qed.
#[global] Instance only_trans id : Transitive (only id).
Proof. intros s1 s2 s3 [] [H1 H2 H3 H4 H5 H6 H7]. split; try congruence. intros i Hi. rewrite H7 by done. auto. Qed.

(** The session with the id, or another one. *)
#[local] Ltac which i id := let E := fresh "Eid" in destruct (decide (i = id)) as [E|E]; [subst i|].

(** A session changed, but neither stopped nor made ready. *)
Lemma only_inv b d h id (s s' : Srv) : inv b d h s -> only id s s' -> sinv ssl (bool_decide (id ∈ b)) (objects s' id) ->
  running_ (objects s' id) = running_ (objects s id) -> ready_ (objects s' id) = ready_ (objects s id) -> inv b d h s'.
Proof.
  intros [H1 H2 H3 H4 H5 H6 HH H7 H8 H9] [O1 O2 O3 O4 O5 O6 O7] Hc Hr Hd.
  assert (E : ∀ i, running_ (objects s' i) = running_ (objects s i) ∧ ready_ (objects s' i) = ready_ (objects s i)).
  { intros i. which i id; [done | by rewrite O7]. }
  split; rewrite ?O1, ?O2, ?O3, ?O4, ?O5, ?O6; try done.
  - intros i. which i id; [done | by rewrite O7].
  - intros i. rewrite (proj1 (E i)). apply H4.
  - intros i. rewrite (proj1 (E i)). apply H5.
  - intros i. rewrite (proj1 (E i)). apply H6.
  - intros i. destruct (E i) as [-> ->]. apply HH.
  - intros Hs i. unfold phaseOf. destruct (E i) as [-> ->]. by apply H7.
Qed.

Lemma on_inv b d h id f (s : Srv) : inv b d h s ->
  (sinv ssl (bool_decide (id ∈ b)) (objects s id) -> sinv ssl (bool_decide (id ∈ b)) (f (objects s id))) ->
  running_ (f (objects s id)) = running_ (objects s id) -> ready_ (f (objects s id)) = ready_ (objects s id) ->
  inv b d h (onSession id f s).
Proof.
  intros H Hf Hr Hd. apply (only_inv b d h id s); [done | apply only_put | ..]; unfold onSession; rewrite objects_put; try done. by apply Hf, H.
Qed.

(** A change of the socket or the timers. *)
Lemma steady_inv b d h id f (s : Srv) : inv b d h s -> steady (objects s id) (f (objects s id)) ->
  writeInterestEnabled_ (writer (f (objects s id))) = writeInterestEnabled_ (writer (objects s id)) -> inv b d h (onSession id f s).
Proof. intros H Hs Hi. apply on_inv; [done | intros Hc; by apply (sinv_steady ssl _ (objects s id)) | apply Hs | apply Hs]. Qed.

(** The fields the invariant reads. *)
Lemma srv_inv_same b d h (s s' : Srv) : inv b d h s ->
  (sessions_ s', sessionCount_ s', nextConnectionId_ s', userCallbacks s', objects s', log s', maxConnections_ s') =
  (sessions_ s, sessionCount_ s, nextConnectionId_ s, userCallbacks s, objects s, log s, maxConnections_ s) -> inv b d h s'.
Proof.
  intros [H1 H2 H3 H4 H5 H6 HH H7 H8 H9] E. injection E as E1 E2 E3 E4 E5 E6 E7. split; rewrite ?E1, ?E2, ?E3, ?E4, ?E5, ?E6, ?E7; done.
Qed.
#[local] Ltac same := lazymatch goal with H : inv _ _ _ ?s |- inv _ _ _ _ => apply (srv_inv_same _ _ _ s); [exact H | reflexivity] end.

Lemma inv_doomed b d d' h (s : Srv) : inv b d h s -> d ⊆ d' -> inv b d' h s.
Proof. intros [H1 H2 H3 H4 H5 H6 HH H7 H8 H9] Hd. split; try done. intros id Hr. destruct (H5 id Hr); [by left | right; by apply Hd]. Qed.

Lemma inv_more b d h id (s : Srv) : inv b d h s -> inv b ({[id]} ∪ d) h s.
Proof. intros H. apply (inv_doomed b d); [done | apply union_subseteq_r]. Qed.

(** A session that does not run is not one to be closed. *)
Lemma inv_less b d h id (s : Srv) : inv b ({[id]} ∪ d) h s -> running_ (objects s id) = false -> inv b d h s.
Proof.
  intros [H1 H2 H3 H4 H5 H6 HH H7 H8 H9] Hr. split; try done. intros i Hi. destruct (H5 i Hi) as [|Hd]; [by left|]. right.
  apply (doomed_other i id); [congruence | done].
Qed.

Lemma inv_forget b d h h' (s : Srv) : inv b d h s -> h' ⊆ h -> inv b d h' s.
Proof. intros [H1 H2 H3 H4 H5 H6 HH H7 H8 H9] Hh. split; try done. intros i Hi. by apply HH, Hh. Qed.

Lemma inv_hold b d h id (s : Srv) : inv b d h s -> ready_ (objects s id) = true -> inv b d ({[id]} ∪ h) s.
Proof.
  intros [H1 H2 H3 H4 H5 H6 HH H7 H8 H9] Hr. split; try done. intros i [Hi|Hi]%elem_of_union; [|by apply HH].
  apply elem_of_singleton in Hi as ->. split; [|done]. destruct (Z.lt_ge_cases id (nextConnectionId_ s)) as [|Hge]; [done|].
  destruct (H6 id Hge) as [Hx _]. destruct (c_stopped _ _ _ (proj1 (H1 id)) Hx) as [? _]. congruence.
Qed.

Lemma inv_busy b d h id (s : Srv) : inv b d h s -> inv ({[id]} ∪ b) d h s.
Proof.
  intros [H1 H2 H3 H4 H5 H6 HH H7 H8 H9]. split; try done. intros i. specialize (H1 i). which i id; [|by rewrite busy_other].
  rewrite busy_self. by eapply sinv_weaken.
Qed.

(** A flush that has ended. *)
Lemma inv_idle b d h id (s : Srv) : inv ({[id]} ∪ b) d h s ->
  flushRunning_ (writer (objects s id)) = false -> flushReschedule_ (writer (objects s id)) = false -> inv b d h s.
Proof.
  intros [H1 H2 H3 H4 H5 H6 HH H7 H8 H9] F1 F2. split; try done. intros i. specialize (H1 i). which i id; [|by rewrite busy_other in H1].
  rewrite busy_self in H1. destruct (bool_decide _); [done | by apply sinv_quiet].
Qed.

(** An event about a session, or about none. *)
Definition concerns (id : ConnectionId) (e : option Event) : Prop :=
  ∀ i, if e is Some e then about i e = true -> i = id else True.
Definition emitted (e : option Event) (s : Srv) : Srv := from_option emit (fun s => s) e s.

Lemma emitted_same e (s : Srv) : sessions_ (emitted e s) = sessions_ s ∧ sessionCount_ (emitted e s) = sessionCount_ s ∧
  objects (emitted e s) = objects s ∧ nextConnectionId_ (emitted e s) = nextConnectionId_ s ∧ userCallbacks (emitted e s) = userCallbacks s ∧
  maxConnections_ (emitted e s) = maxConnections_ s.
Proof. by destruct e. Qed.

Lemma emitted_other id i e (s : Srv) : concerns id e -> i ≠ id -> life i (log (emitted e s)) = life i (log s).
Proof.
  intros He Hi. destruct e as [e|]; [|done]. unfold emitted, emit. cbn [from_option log setLog]. rewrite tlife_snoc. unfold lifeStep.
  destruct (about i e) eqn:Ea; [|done]. by apply (He i) in Ea.
Qed.

Lemma emitted_self id e (s : Srv) : about id e = true -> life id (log (emitted (Some e) s)) = lifeStep id (life id (log s)) e.
Proof. intros _. unfold emitted, emit. cbn [from_option log setLog]. by rewrite tlife_snoc. Qed.

(** [eraseSession] and the registry without the id. *)
Lemma erase_registry id (s : Srv) : NoDup (sessions_ s) -> sessionCount_ s = zlen (sessions_ s) ->
  sessions_ (eraseSession id s) = filter (.≠ id) (sessions_ s) ∧ sessionCount_ (eraseSession id s) = zlen (filter (.≠ id) (sessions_ s)) ∧
  objects (eraseSession id s) = objects s ∧ nextConnectionId_ (eraseSession id s) = nextConnectionId_ s ∧ log (eraseSession id s) = log s ∧
  userCallbacks (eraseSession id s) = userCallbacks s ∧ maxConnections_ (eraseSession id s) = maxConnections_ s.
Proof.
  intros Hn Hc. unfold eraseSession, hasClient. destruct (bool_decide_reflect (id ∈ sessions_ s)) as [Hin|Hin]; cbn.
  - split_and!; try done. rewrite Hc. unfold zlen. rewrite (filter_out id (sessions_ s) Hn Hin). lia.
  - rewrite (filter_absent id (sessions_ s) Hin). by split_and!.
Qed.

(** A session stopped and taken from the registry; a ready one is reported closed. *)
Lemma kill_inv b d h id e (s s' : Srv) : inv b ({[id]} ∪ d) h s -> only id s s' -> sinv ssl (bool_decide (id ∈ b)) (objects s' id) ->
  running_ (objects s' id) = false ->
  (strict -> if ready_ (objects s id) then ∃ r, e = Some (OnDisconnected id r) else e = None) -> concerns id e ->
  inv b d h (emitted e (eraseSession id s')).
Proof.
  intros [H1 H2 H3 H4 H5 H6 HH H7 H8 H9] [O1 O2 O3 O4 O5 O6 O7] Hc Hr He Hab.
  assert (Hrd : ready_ (objects s' id) = false) by apply (c_stopped _ _ _ (proj1 Hc) Hr).
  destruct (erase_registry id s') as (E1 & E2 & E3 & E4 & E5 & E6 & E7); [by rewrite O1 | by rewrite O1, O2 |].
  set (s1 := eraseSession id s') in *. clearbody s1. destruct (emitted_same e s1) as (F1 & F2 & F3 & F4 & F5 & F6).
  assert (Hlog : ∀ i, i ≠ id -> life i (log (emitted e s1)) = life i (log s)) by (intros i Hi; by rewrite (emitted_other id), E5, O6).
  assert (Hdead : strict -> phaseOf (objects s' id) (life id (log (emitted e s1)))).
  { intros Hs. specialize (He Hs). specialize (H7 Hs id). unfold phaseOf in *. rewrite Hr, Hrd. destruct (ready_ (objects s id)).
    - destruct He as [r ->]. rewrite emitted_self, E5, O6, H7 by (cbn; by apply bool_decide_eq_true_2).
      unfold lifeStep, about. rewrite bool_decide_eq_true_2 by done. by right.
    - subst e. change (emitted None s1) with s1. rewrite E5, O6. destruct (running_ (objects s id)); [by left | done]. }
  split; rewrite ?F1, ?F2, ?F3, ?F4, ?F5, ?F6, ?E1, ?E2, ?E3, ?E4, ?E6, ?E7, ?O1, ?O3, ?O4, ?O5; try done.
  - intros i. which i id; [done | by rewrite O7].
  - by apply NoDup_filter.
  - intros i [Hi Hin]%list_elem_of_filter. rewrite O7 by done. by apply H4.
  - intros i. which i id; [by rewrite Hr|]. rewrite O7 by done. intros Hi.
    destruct (H5 i Hi); [left; by apply list_elem_of_filter | right; by apply (doomed_other i id)].
  - intros i Hi. which i id; [|rewrite O7, Hlog by done; by apply H6]. rewrite Hr. split; [done|]. intros Hs. destruct (H6 id Hi) as [Hri Hun].
    specialize (He Hs). destruct (c_stopped _ _ _ (proj1 (H1 id)) Hri) as [Hrd' _]. rewrite Hrd' in He. subst e. change (emitted None s1) with s1. rewrite E5, O6. by apply Hun.
  - intros i Hi. destruct (HH i Hi) as [? ?]. split; [done|]. which i id; [by rewrite Hr | by rewrite O7].
  - intros Hs i. which i id; [by apply Hdead | rewrite O7, Hlog by done; by apply H7].
  - intros Hs. destruct (H9 Hs) as [? Hz]. split; [done|]. etrans; [|exact Hz]. unfold zlen. apply inj_le, length_filter.
Qed.

(** A session becomes ready and is announced. *)
Lemma born_inv b d h id e (s s' : Srv) : inv b d h s -> only id s s' -> running_ (objects s id) = true -> ready_ (objects s id) = false ->
  sinv ssl (bool_decide (id ∈ b)) (objects s' id) -> running_ (objects s' id) = true -> ready_ (objects s' id) = true ->
  (strict -> ∃ a, e = Some (OnConnected id a)) -> concerns id e -> inv b d h (emitted e s').
Proof.
  intros [H1 H2 H3 H4 H5 H6 HH H7 H8 H9] [O1 O2 O3 O4 O5 O6 O7] Hr0 Hrd0 Hc Hr Hrd He Hab. destruct (emitted_same e s') as (F1 & F2 & F3 & F4 & F5 & F6).
  assert (Hlog : ∀ i, i ≠ id -> life i (log (emitted e s')) = life i (log s)) by (intros i Hi; by rewrite (emitted_other id), O6).
  split; rewrite ?F1, ?F2, ?F3, ?F4, ?F5, ?F6, ?O1, ?O2, ?O3, ?O4, ?O5; try done.
  - intros i. which i id; [done | by rewrite O7].
  - intros i Hi. which i id; [done|]. rewrite O7 by done. by apply H4.
  - intros i Hi. which i id; [by apply H5|]. rewrite O7 in Hi by done. by apply H5.
  - intros i Hi. which i id; [|rewrite O7, Hlog by done; by apply H6]. destruct (H6 id Hi). congruence.
  - intros i Hi. destruct (HH i Hi) as [? ?]. split; [done|]. which i id; [done | by rewrite O7].
  - intros Hs i. specialize (H7 Hs i). which i id; [|by rewrite O7, Hlog]. unfold phaseOf in *. rewrite Hr0, Hrd0 in H7. rewrite Hrd.
    destruct (He Hs) as [a ->]. rewrite emitted_self, O6, H7 by (cbn; by apply bool_decide_eq_true_2). unfold lifeStep, about. by rewrite bool_decide_eq_true_2.
Qed.

(** Data of a ready session, and errors, change nothing. *)
Lemma emit_data_inv b d h id x (s : Srv) : inv b d h s -> ready_ (objects s id) = true -> inv b d h (emit (OnData id x) s).
Proof.
  intros [H1 H2 H3 H4 H5 H6 HH H7 H8 H9] Hr. assert (L : strict -> ∀ i, life i (log (emit (OnData id x) s)) = life i (log s)).
  { intros Hs i. unfold emit. cbn [log setLog]. rewrite tlife_snoc. unfold lifeStep, about. case_bool_decide as Hi; [|done]. subst i.
    specialize (H7 Hs id). unfold phaseOf in H7. rewrite Hr in H7. by rewrite H7. }
  split; try done.
  - intros i Hi. destruct (H6 i Hi) as [? Hu]. split; [done|]. intros Hs. rewrite L by done. by apply Hu.
  - intros Hs i. rewrite L by done. by apply H7.
Qed.

Lemma emit_error_inv b d h f (s : Srv) : inv b d h s -> inv b d h (emit (OnError f) s).
Proof.
  intros [H1 H2 H3 H4 H5 H6 HH H7 H8 H9]. assert (L : ∀ i, life i (log (emit (OnError f) s)) = life i (log s)).
  { intros i. unfold emit. cbn [log setLog]. by rewrite tlife_snoc. }
  split; try done; [intros i; rewrite L; apply H6 | intros Hs i; rewrite L; by apply H7].
Qed.

(** ** Every operation keeps it *)

Section Preserved.
Context (callback : Event -> Srv -> Srv) (good : ∀ b d h e s, inv b d h (emit e s) -> inv b d h (callback e s)).

Lemma report_inv b d h f (s : Srv) : inv b d h s -> inv b d h (reportError callback f s).
Proof. intros H. unfold reportError. case_match; [by apply good, emit_error_inv | done]. Qed.

Lemma srv_close_inv b d h r id (s : Srv) : inv b ({[id]} ∪ d) h s -> inv b d h (close ssl callback r id s).
Proof.
  intros H. unfold close. destruct (running_ (objects s id)) eqn:Hr; cbn [negb].
  - set (s1 := onSession id (closeRunning ssl) s). assert (Ho : only id s s1) by apply only_put.
    assert (Eo : objects s1 id = closeRunning ssl (objects s id)) by apply objects_put.
    destruct (erase_registry id s1) as (_ & _ & _ & _ & _ & Eu & _); [rewrite (on_sessions _ _ _ Ho); apply H | rewrite (on_sessions _ _ _ Ho), (on_count _ _ _ Ho); apply H |].
    rewrite (on_user _ _ _ Ho) in Eu. unfold onSessionClosed. cbv zeta.
    assert (Hk : ∀ e, (strict -> if ready_ (objects s id) then ∃ r, e = Some (OnDisconnected id r) else e = None) -> concerns id e ->
      inv b d h (emitted e (eraseSession id s1))).
    { intros e He Hc. apply (kill_inv b d h id e s); try done; rewrite Eo; [|done]. apply closeRunning_sinv, H. }
    rewrite Eu. destruct (ready_ (objects s id) && disconnectedCallback_ (userCallbacks s)) eqn:E.
    + apply good. apply (Hk (Some (OnDisconnected id r))).
      * intros _. apply andb_true_iff in E as [-> _]. by exists r.
      * intros i Hi. cbn in Hi. by apply bool_decide_eq_true in Hi.
    + apply (Hk None); [|done]. intros Hs. destruct (i_told _ _ _ _ H Hs) as [_ Ht]. rewrite Ht, andb_true_r in E. by rewrite E.
  - destruct (c_stopped _ _ _ (proj1 (i_sessions _ _ _ _ H id)) Hr) as [Hd _].
    apply (inv_less b d h id); [|unfold onSession; by rewrite objects_put]. apply on_inv; [done | intros Hc; by apply closeStopped_sinv | done | by rewrite Hd].
Qed.

Lemma closed_inv b d h r id (s : Srv) : inv b d h s -> inv b d h (close ssl callback r id s).
Proof. intros H. by apply srv_close_inv, inv_more. Qed.

Lemma srv_failure_inv b d h code m id (s : Srv) : inv b d h s -> inv b d h (handleTransportFailure ssl callback code m id s).
Proof. intros H. unfold handleTransportFailure. apply closed_inv. case_match; [by apply report_inv | done]. Qed.

(** [markReady] on a session whose object [c] is about to become ready. *)
Lemma markReady_inv b d h id (s s0 : Srv) : inv b d h s -> only id s s0 -> running_ (objects s id) = true -> ready_ (objects s id) = false ->
  core ssl (bool_decide (id ∈ b)) (objects s0 id) -> running_ (objects s0 id) = true -> ready_ (objects s0 id) = false ->
  tlsState_ (objects s0 id) ≠ TlsHandshaking -> writeInterestEnabled_ (writer (objects s0 id)) = wantsWrite (objects s0 id) ->
  inv b d h (markReady callback id s0).
Proof.
  intros H Ho Hr Hd Hc Hr0 Hd0 Ht Hi. unfold markReady. rewrite Hd0. cbv zeta.
  set (s1 := onSession id _ s0). assert (Ho1 : only id s s1) by (etrans; [exact Ho | apply only_put]).
  assert (Eo : objects s1 id = armReadTimer (armConnectionTimer (setReady true (objects s0 id)))) by apply objects_put.
  pose proof (becomeReady_sinv ssl _ _ Hc Hr0 Hd0 Ht Hi) as Hs. rewrite <- Eo in Hs.
  assert (St : steady (setReady true (objects s0 id)) (objects s1 id)) by (rewrite Eo; etrans; [apply steady_armConnection | apply steady_armRead]).
  assert (Hk : ∀ e, (strict -> ∃ a, e = Some (OnConnected id a)) -> concerns id e -> inv b d h (emitted e s1)).
  { intros e He Hcc. apply (born_inv b d h id e s); try done; [rewrite (st_running _ _ St); exact Hr0 | by rewrite (st_ready _ _ St)]. }
  unfold onSessionReady. rewrite (on_user _ _ _ Ho1). destruct (connectedCallback_ (userCallbacks s)) eqn:E.
  - apply good. apply (Hk (Some (OnConnected id (clientAddress_ (objects s1 id))))); [by eexists|]. intros i Hx. cbn in Hx. by apply bool_decide_eq_true in Hx.
  - apply (Hk None); [|done]. intros Hst. destruct (i_told _ _ _ _ H Hst). congruence.
Qed.

Lemma srv_drive_inv b d h id (s : Srv) : inv b d h s -> running_ (objects s id) = true -> ready_ (objects s id) = false ->
  let '(s', ok) := driveTlsHandshake ssl callback id s in
  inv b d h s' ∧ (ok = false -> running_ (objects s' id) = true ∧ ready_ (objects s' id) = false).
Proof.
  intros H Hr Hd. unfold driveTlsHandshake, onSessionWith. pose proof (handshakeStep_sinv ssl _ _ (i_sessions _ _ _ _ H id) Hr Hd) as Hh.
  destruct (handshakeStep ssl (objects s id)) as [c r]. destruct Hh as (Hr' & Hd' & _ & _ & Hh). set (s0 := putSession id c s).
  assert (Ho : only id s s0) by apply only_put. assert (Eo : objects s0 id = c) by apply objects_put. destruct r as [ok|].
  - split; [|by rewrite Eo]. apply (only_inv b d h id s); rewrite ?Eo; congruence || done.
  - split; [|done]. destruct Hh as (Hc & Ht & Hi). apply (markReady_inv b d h id s); rewrite ?Eo; try done. congruence.
Qed.

Lemma handshaking b d h id (s : Srv) : inv b d h s -> running_ (objects s id) = true -> tlsState_ (objects s id) = TlsHandshaking -> ready_ (objects s id) = false.
Proof. intros H Hr Ht. by apply (proj2 (i_sessions _ _ _ _ H id) Hr). Qed.

Lemma srv_continue_inv b d h id (s : Srv) : inv b d h s -> running_ (objects s id) = true -> tlsState_ (objects s id) = TlsHandshaking ->
  inv b d h (continueHandshake ssl callback id s).
Proof.
  intros H Hr Ht. unfold continueHandshake. pose proof (srv_drive_inv b d h id s H Hr (handshaking _ _ _ _ _ H Hr Ht)) as Hdr.
  destruct (driveTlsHandshake ssl callback id s) as [s1 ok]. destruct Hdr as [H1 _]. destruct ok; [done | by apply srv_failure_inv].
Qed.

(** *** Writing *)

Lemma srv_drain_inv b d h id (s : Srv) : inv b d h s ->
  let '(s', drained) := drainSendQueue ssl callback id s in
  inv b d h s' ∧ (drained = true -> flushReschedule_ (writer (objects s' id)) = flushReschedule_ (writer (objects s id))).
Proof.
  intros H. unfold drainSendQueue, onSessionWith.
  pose proof (drain_sinv ssl (bool_decide (id ∈ b)) (drainFuel (objects s id)) (objects s id) (i_sessions _ _ _ _ H id)) as Hd.
  destruct (drainLoop ssl _ (objects s id)) as [c e]. destruct Hd as [Hc Ha]. set (s1 := putSession id c s).
  assert (H1 : inv b d h s1).
  { apply (only_inv b d h id s); [done | apply only_put | ..]; unfold s1; rewrite objects_put; [done | apply Ha | apply Ha]. }
  destruct e; (split; [|done || intros _; unfold s1; rewrite objects_put; apply Ha]); auto using closed_inv, srv_failure_inv.
Qed.

(** The flush ends where it began, or outside; its second round is never needed. *)
Lemma srv_flush_inv b d h id (s : Srv) : inv ({[id]} ∪ b) d h s -> flushReschedule_ (writer (objects s id)) = false ->
  inv b d h (runQueuedFlush ssl callback id s).
Proof.
  intros H Hre. unfold runQueuedFlush. cbn [flushLoop].
  assert (Hdone : ∀ s, inv ({[id]} ∪ b) d h s -> inv b d h (onSession id flushDone s)).
  { intros s' H'. apply (inv_idle b d h id); [|unfold onSession; by rewrite objects_put..]. apply on_inv; try done. rewrite busy_self. by apply flushDone_sinv. }
  destruct (ready_ (objects s id)); cbn [negb]; [|by apply Hdone].
  pose proof (srv_drain_inv _ d h id s H) as Hd. destruct (drainSendQueue ssl callback id s) as [s1 drained]. destruct Hd as [H1 H2].
  destruct (running_ (objects s1 id)) eqn:Hr; cbn [negb orb]; [|by apply Hdone]. destruct drained; cbn [negb]; [|by apply Hdone].
  rewrite (H2 eq_refl), Hre. cbn [negb].
  apply (inv_idle b d h id); [|unfold onSession; by rewrite objects_put | unfold onSession; rewrite objects_put; cbn; by rewrite (H2 eq_refl)].
  apply on_inv; try done. rewrite busy_self. intros Hs. by apply flags_sinv.
Qed.

Lemma srv_dispatch_inv b d h (sched : bool) id (s : Srv) : inv (if sched then {[id]} ∪ b else b) d h s ->
  (sched = true -> flushReschedule_ (writer (objects s id)) = false) -> inv b d h (dispatchFlushIfNeeded ssl callback sched id s).
Proof. intros H Hf. unfold dispatchFlushIfNeeded. destruct sched; [by apply srv_flush_inv, Hf | done]. Qed.

(** Scheduling a flush of a session changed by [f]. *)
Lemma srv_schedule_inv b d h id f (s : Srv) : inv b d h s -> sinv ssl (bool_decide (id ∈ b)) (f (objects s id)) ->
  running_ (f (objects s id)) = running_ (objects s id) -> ready_ (f (objects s id)) = ready_ (objects s id) ->
  let '(s', sched) := onSessionWith id (fun c => markFlushScheduledLocked (f c)) s in
  inv (if sched then {[id]} ∪ b else b) d h s' ∧ (sched = true -> flushReschedule_ (writer (objects s' id)) = false) ∧
  ready_ (objects s' id) = ready_ (objects s id) ∧ only id s s'.
Proof.
  intros H Hf Hr Hd. unfold onSessionWith. pose proof (schedule_sinv ssl _ _ Hf) as Hs. destruct (markFlushScheduledLocked (f (objects s id))) as [c sched].
  destruct Hs as (Hc & F & Hr' & Hd' & _). rewrite objects_put. split_and!; [|done|congruence|apply only_put].
  assert (H' : inv (if sched then {[id]} ∪ b else b) d h s) by (destruct sched; [by apply inv_busy | done]).
  apply (only_inv _ d h id s); [done | apply only_put | ..]; rewrite objects_put; [|congruence|congruence].
  destruct sched; [rewrite busy_self; by rewrite orb_true_r in Hc | by rewrite orb_false_r in Hc].
Qed.

Lemma srv_enqueue_inv b d h arm entries data id (s : Srv) : inv b d h s -> ready_ (objects s id) = true -> Forall itemOk entries -> entries ≠ [] ->
  data = concat (itemRest <$> entries) -> inv b d h (enqueue ssl callback arm entries data id s).
Proof.
  intros H Hd He Hn Hdata. unfold enqueue, enqueueLocked.
  set (f := fun c : Session => refreshInterestLocked (onWriter (fun w => setQueue (sendQueue_ w ++ entries) w) (setAccepted (accepted_ c ++ data) c))).
  pose proof (steady_refresh (onWriter (fun w => setQueue (sendQueue_ w ++ entries) w) (setAccepted (accepted_ (objects s id) ++ data) (objects s id)))) as Hst.
  pose proof (srv_schedule_inv b d h id f s H) as Hs. change (onSessionWith id _ s) with (onSessionWith id (fun c => markFlushScheduledLocked (f c)) s).
  destruct (onSessionWith id (fun c => markFlushScheduledLocked (f c)) s) as [s1 sched].
  destruct Hs as (H1 & F & Hd1 & Ho); [by apply enqueue_sinv; [apply H|..] | apply (st_running _ _ Hst) | apply (st_ready _ _ Hst) |].
  apply srv_dispatch_inv.
  - destruct arm; [|done]. apply on_inv; [done | by apply armWrite_sinv | apply steady_armWrite | apply steady_armWrite].
  - intros E. destruct arm; [|by apply F]. unfold onSession. rewrite objects_put, (st_again _ _ (steady_armWrite _)). by apply F.
Qed.

Lemma srv_send_inv b d h hd data id (s : Srv) : inv b d h s -> inv b d h (send ssl callback hd data id s).1.
Proof.
  intros H. unfold send. destruct (ready_ (objects s id)) eqn:Hr; cbn [negb fst]; [|done]. case_bool_decide as Hn; cbn [fst]; [done|].
  destruct (pendingOf_ok hd data Hn) as [Hok Hrest]. apply srv_enqueue_inv; [done | done | by constructor | done |]. cbn. by rewrite Hrest, app_nil_r.
Qed.

Lemma sendFile_inv b d h prefix path off len id (s : Srv) : inv b d h s -> inv b d h (sendFile ssl callback prefix path off len id s).1.
Proof.
  intros H. unfold sendFile. cbv zeta. assert (Ho : 0 <= u64 off) by (unfold u64; pose proof (Z.mod_pos_bound off (2 ^ 64)); lia).
  assert (Hl : 0 <= u64 len) by (unfold u64; pose proof (Z.mod_pos_bound len (2 ^ 64)); lia). set (o := u64 off) in *. set (l := u64 len) in *.
  destruct (ready_ (objects s id)) eqn:Hr; cbn [negb fst]; [|done]. case_bool_decide; [done|]. unfold onSessionWith.
  destruct (fileOpen _ path) as [k opened]. set (s1 := putSession id (setSocket k (objects s id)) s).
  assert (H1 : inv b d h s1) by (apply (steady_inv b d h id (setSocket k)); [done | apply steady_socket | done]).
  assert (Hr1 : ready_ (objects s1 id) = true) by (unfold s1; by rewrite objects_put).
  destruct opened as [content| |]; [|done|done]. destruct (Z.ltb_spec (zlen content) o); [done|].
  set (n := if l =? 0 then _ else l). assert (Hn : 0 <= n) by (unfold n; destruct (Z.eqb_spec l 0); lia).
  destruct (Z.ltb_spec (zlen content - o) n); [done|].
  destruct ((prefix =s []) && negb (0 <? n)) eqn:E; cbn [fst]; [done|].
  set (dir := bool_decide (tlsState_ _ = TlsDisabled)).
  assert (Hpre : Forall itemOk (if prefix =s [] then [] else [pendingOf HeldString prefix]) ∧
    concat (itemRest <$> (if prefix =s [] then [] else [pendingOf HeldString prefix])) = prefix).
  { case_bool_decide as Hp; [by subst|]. destruct (pendingOf_ok HeldString prefix Hp) as [? Hx]. split; [by constructor|]. cbn [fmap list_fmap concat]. by rewrite Hx, app_nil_r. }
  assert (Hfile : Forall itemOk (if 0 <? n then [pendingFile path content o n dir] else []) ∧
    concat (itemRest <$> (if 0 <? n then [pendingFile path content o n dir] else [])) = take (Z.to_nat n) (drop (Z.to_nat o) content)).
  { destruct (Z.ltb_spec 0 n); [|replace n with 0 by lia; done]. destruct (pendingFile_ok path content o n dir) as [? Hx]; [lia..|].
    split; [by constructor|]. cbn [fmap list_fmap concat]. by rewrite Hx, app_nil_r. }
  destruct Hpre as [P1 P2], Hfile as [F1 F2]. apply srv_enqueue_inv; [done | done | by apply Forall_app | |].
  - destruct (prefix =s []); [|done]. destruct (0 <? n); done.
  - by rewrite fmap_app, concat_app, P2, F2.
Qed.

Lemma closeAfter_inv b d h id (s : Srv) : inv b d h s -> inv b d h (closeAfterPendingWrites ssl callback id s).
Proof.
  intros H. unfold closeAfterPendingWrites. destruct (hasPendingWrite (objects s id)) eqn:Hp; cbn [negb].
  - pose proof (steady_refresh (onWriter (setCloseAfterFlush true) (objects s id))) as Hs.
    apply on_inv; [done | | apply (st_running _ _ Hs) | apply (st_ready _ _ Hs)]. intros Hc. destruct (running_ (objects s id)) eqn:Hr.
    + pose proof (c_waits _ _ _ (proj1 Hc)) as [W1 W2]. apply refresh_writer; [done | done | done | exact W1 | exact W2 | exact (c_quiet _ _ _ (proj1 Hc))].
    + destruct (c_stopped _ _ _ (proj1 Hc) Hr) as (_ & Hq & _). unfold hasPendingWrite in Hp. by rewrite Hq in Hp.
  - apply closed_inv, on_inv; try done. intros Hc. apply flags_sinv; [done | done | exact (c_quiet _ _ _ (proj1 Hc))].
Qed.

(** *** Reading *)

Lemma data_inv b d h id x (s : Srv) : inv b d h s -> ready_ (objects s id) = true -> inv b d h (deliver callback id x s).
Proof.
  intros H Hr. assert (Hc : inv b d h (callback (OnData id x) s)) by (by apply good, emit_data_inv).
  unfold deliver, dispatchSharedDataReceived, dispatchOwnedDataReceived, dispatchDataReceived. repeat case_match; done.
Qed.

(** A session that was ready is ready while it runs. *)
Lemma srv_readLoop_inv b d h fuel id : ∀ (s : Srv), inv b d ({[id]} ∪ h) s -> inv b d ({[id]} ∪ h) (readLoop ssl callback fuel id s).
Proof.
  induction fuel as [|fuel IH]; intros s H; [done|]. cbn [readLoop]. destruct (running_ (objects s id)) eqn:Hr; cbn [negb]; [|done].
  assert (Hd : ready_ (objects s id) = true) by (apply (i_held _ _ _ _ H id); [set_solver | done]). unfold onSessionWith.
  destruct (readTransport ssl kReadChunkSize (objects s id)) as [c r] eqn:Er. destruct (session_readTransport_same _ _ _ _ _ Er) as [k ->].
  set (s1 := putSession id (setSocket k (objects s id)) s). assert (Eo : objects s1 id = setSocket k (objects s id)) by apply objects_put.
  assert (H1 : inv b d ({[id]} ∪ h) s1) by (apply (steady_inv b d _ id (setSocket k)); [done | apply steady_socket | done]).
  assert (Hw : ∀ wait, (wait = WaitWrite -> tlsState_ (objects s id) = TlsReady) -> inv b d ({[id]} ∪ h) (onSession id (setReadWait wait) s1)).
  { intros wait Hwait. pose proof (steady_refresh (onWriter (setReadWaitField wait) (objects s1 id))) as Hs.
    apply on_inv; [done | | apply (st_running _ _ Hs) | apply (st_ready _ _ Hs)]. intros Hc. apply setReadWait_sinv; [done | by rewrite Eo | by rewrite Eo]. }
  destruct r as [x|wait| |code m].
  - set (f := fun c => armReadTimer (armConnectionTimer (setReadWait NoWait c))).
    pose proof (steady_refresh (onWriter (setReadWaitField NoWait) (objects s1 id))) as Hs.
    assert (Hs2 : steady (onWriter (setReadWaitField NoWait) (objects s1 id)) (f (objects s1 id))) by (etrans; [exact Hs|]; etrans; [apply steady_armConnection | apply steady_armRead]).
    assert (H2 : inv b d ({[id]} ∪ h) (onSession id f s1)).
    { apply on_inv; [done | | apply (st_running _ _ Hs2) | apply (st_ready _ _ Hs2)]. intros Hc.
      apply (sinv_steady ssl _ (setReadWait NoWait (objects s1 id))); [etrans; [apply steady_armConnection | apply steady_armRead] | |].
      - unfold f, armReadTimer, armConnectionTimer. by repeat case_match.
      - apply setReadWait_sinv; [done | by rewrite Eo | done]. }
    assert (H3 : inv b d ({[id]} ∪ h) (deliver callback id x (onSession id f s1))).
    { apply data_inv; [done|]. unfold onSession. rewrite objects_put, (st_ready _ _ Hs2). cbn [onWriter setWriter ready_]. by rewrite Eo. }
    case_match; auto.
  - apply Hw. intros ->. by apply session_readTransport_wait in Er.
  - by apply closed_inv.
  - by apply srv_failure_inv.
Qed.

Lemma srv_handleRead_inv b d h fuel id (s : Srv) : inv b d h s -> inv b d h (handleRead ssl callback fuel id s).
Proof.
  intros H. unfold handleRead. cbv zeta. destruct (running_ (objects s id)) eqn:Hr; cbn [negb]; [|done]. case_bool_decide as Ht; [by apply srv_continue_inv|].
  apply (inv_forget b d ({[id]} ∪ h)); [|apply union_subseteq_r]. apply srv_readLoop_inv, inv_hold; [done|].
  destruct (ready_ (objects s id)) eqn:E; [done|]. by apply (proj2 (i_sessions _ _ _ _ H id) Hr) in E.
Qed.

Lemma srv_handleWrite_inv b d h id (s : Srv) : inv b d h s -> inv b d h (handleWrite ssl callback id s).
Proof.
  intros H. unfold handleWrite. cbv zeta. destruct (running_ (objects s id)) eqn:Hr; cbn [negb]; [|done]. case_bool_decide as Ht; [by apply srv_continue_inv|].
  pose proof (srv_schedule_inv b d h id (fun c => c) s H (i_sessions _ _ _ _ H id) eq_refl eq_refl) as Hs.
  change (onSessionWith id markFlushScheduledLocked s) with (onSessionWith id (fun c : Session => markFlushScheduledLocked c) s).
  destruct (onSessionWith id (fun c : Session => markFlushScheduledLocked c) s) as [s1 sched]. destruct Hs as (H1 & F & _). by apply srv_dispatch_inv.
Qed.

Lemma srv_handleEvents_inv b d h fuel r w f id (s : Srv) : inv b d h s -> inv b d h (handleEvents ssl callback fuel r w f id s).
Proof.
  intros H. unfold handleEvents. set (s1 := if r then _ else s).
  assert (H1 : inv b d h s1) by (unfold s1; case_match; auto using srv_handleRead_inv). set (s2 := if w then _ else s1).
  assert (H2 : inv b d h s2) by (unfold s2; case_match; auto using srv_handleWrite_inv). case_match; auto using srv_failure_inv.
Qed.

(** *** Timers *)

Lemma timers_inv b d h id (s : Srv) : inv b d h s ->
  inv b d h (connectionTimerFired ssl callback id s) ∧ inv b d h (readTimerFired ssl callback id s) ∧ inv b d h (writeTimerFired ssl callback id s).
Proof.
  intros H. unfold connectionTimerFired, readTimerFired, writeTimerFired.
  assert (Hs : ∀ t, inv b d h (onSession id (fun c => setTimers (t c) c) s)) by (intros t; apply steady_inv; [done | apply steady_timers | done]).
  split_and!; repeat case_match; try apply srv_failure_inv; apply (Hs (fun c => _)).
Qed.

(** *** Accepting *)

(** The registry grown by a new session that runs. *)
Lemma enrolled_inv b d h e (s s' : Srv) : let id := nextConnectionId_ s in inv b d h s ->
  sessions_ s' = sessions_ s ++ [id] -> sessionCount_ s' = sessionCount_ s + 1 -> nextConnectionId_ s' = id + 1 -> userCallbacks s' = userCallbacks s ->
  maxConnections_ s' = maxConnections_ s -> log s' = log s -> (∀ i, i ≠ id -> objects s' i = objects s i) -> zlen (sessions_ s) < maxConnections_ s ->
  sinv ssl (bool_decide (id ∈ b)) (objects s' id) -> running_ (objects s' id) = true ->
  (strict -> if ready_ (objects s' id) then ∃ a, e = Some (OnConnected id a) else e = None) -> concerns id e -> inv b d h (emitted e s').
Proof.
  intros id [H1 H2 H3 H4 H5 H6 HH H7 H8 H9] O1 O2 O3 O4 O5 O6 O7 Hmax Hc Hr He Hab. destruct (emitted_same e s') as (F1 & F2 & F3 & F4 & F5 & F6).
  destruct (H6 id ltac:(done)) as [Hr0 Hl0].
  assert (Hnot : id ∉ sessions_ s) by (intros Hin; apply H4 in Hin; congruence).
  assert (Hlog : ∀ i, i ≠ id -> life i (log (emitted e s')) = life i (log s)) by (intros i Hi; by rewrite (emitted_other id), O6).
  split; rewrite ?F1, ?F2, ?F3, ?F4, ?F5, ?F6, ?O1, ?O2, ?O3, ?O4, ?O5; try done.
  - intros i. which i id; [done | by rewrite O7].
  - apply NoDup_app. split_and!; [done | | apply NoDup_singleton]. intros x Hx Hx'. apply list_elem_of_singleton in Hx' as ->. done.
  - rewrite H3, zlen_app. done.
  - intros i [Hi|Hi]%elem_of_app; [|by apply list_elem_of_singleton in Hi as ->]. which i id; [done|]. rewrite O7 by done. by apply H4.
  - intros i Hi. which i id; [left; apply elem_of_app; right; by apply list_elem_of_singleton|]. rewrite O7 in Hi by done.
    destruct (H5 i Hi); [left; apply elem_of_app; by left | by right].
  - intros i Hi. rewrite O7, Hlog by lia. apply H6. unfold id in Hi. lia.
  - intros i Hi. destruct (HH i Hi) as [? ?]. unfold id in *. split; [lia|]. by rewrite O7 by lia.
  - intros Hs i. specialize (H7 Hs i). which i id; [|by rewrite O7, Hlog]. specialize (He Hs). unfold phaseOf. rewrite Hr. destruct (ready_ (objects s' id)).
    + destruct He as [a ->]. rewrite emitted_self, O6, (Hl0 Hs) by (cbn; by apply bool_decide_eq_true_2). unfold lifeStep, about. by rewrite bool_decide_eq_true_2.
    + subst e. change (emitted None s') with s'. rewrite O6. by apply Hl0.
  - intros Hs. destruct (H9 Hs). split; [done|]. rewrite zlen_app. change (zlen [id]) with 1. lia.
Qed.

(** A new session that could not start. *)
Lemma rejected_inv b d h (s s' : Srv) : let id := nextConnectionId_ s in inv b d h s ->
  sessions_ s' = sessions_ s -> sessionCount_ s' = sessionCount_ s -> nextConnectionId_ s' = id + 1 -> userCallbacks s' = userCallbacks s ->
  maxConnections_ s' = maxConnections_ s -> log s' = log s -> (∀ i, i ≠ id -> objects s' i = objects s i) ->
  sinv ssl (bool_decide (id ∈ b)) (objects s' id) -> running_ (objects s' id) = false -> inv b d h s'.
Proof.
  intros id [H1 H2 H3 H4 H5 H6 HH H7 H8 H9] O1 O2 O3 O4 O5 O6 O7 Hc Hr. destruct (H6 id ltac:(done)) as [Hr0 Hl0].
  destruct (c_stopped _ _ _ (proj1 Hc) Hr) as [Hrd _].
  split; rewrite ?O1, ?O2, ?O3, ?O4, ?O5, ?O6; try done.
  - intros i. which i id; [done | by rewrite O7].
  - intros i Hi. which i id; [by apply H4 in Hi; congruence|]. rewrite O7 by done. by apply H4.
  - intros i Hi. which i id; [congruence|]. rewrite O7 in Hi by done. by apply H5.
  - intros i Hi. rewrite O7 by lia. apply H6. unfold id in Hi. lia.
  - intros i Hi. destruct (HH i Hi) as [? ?]. unfold id in *. split; [lia|]. by rewrite O7 by lia.
  - intros Hs i. specialize (H7 Hs i). which i id; [|by rewrite O7]. unfold phaseOf. rewrite Hr, Hrd. left. by apply Hl0.
Qed.

(** Adding an id to a registry and taking it out again. *)
Lemma erase_added id l n (s : Srv) : id ∉ l -> sessions_ s = l ++ [id] -> sessionCount_ s = n + 1 ->
  sessions_ (eraseSession id s) = l ∧ sessionCount_ (eraseSession id s) = n ∧ objects (eraseSession id s) = objects s ∧
  nextConnectionId_ (eraseSession id s) = nextConnectionId_ s ∧ log (eraseSession id s) = log s ∧
  userCallbacks (eraseSession id s) = userCallbacks s ∧ maxConnections_ (eraseSession id s) = maxConnections_ s.
Proof.
  intros Hn E1 E2. unfold eraseSession, hasClient. rewrite E1, E2, bool_decide_eq_true_2 by set_solver. cbn. split_and!; try done; [|lia].
  rewrite filter_app, filter_absent by done. cbn. rewrite decide_False by (intros H; by apply H). by rewrite app_nil_r.
Qed.

Lemma adopt_inv b d h client ip port (s : Srv) : inv b d h s -> inv b d h (adoptAcceptedSocket ssl callback client ip port s).
Proof.
  intros H. unfold adoptAcceptedSocket. destruct (maxConnections_ s <=? sessionCount_ s); [done|]. cbv zeta.
  destruct (Z.leb_spec (maxConnections_ (setNextId (nextConnectionId_ s + 1) s)) (zlen (sessions_ (setNextId (nextConnectionId_ s + 1) s)))) as [Hmax|Hmax].
  { apply (rejected_inv b d h s); try done; [apply H|]. by apply (i_new _ _ _ _ H). }
  set (c0 := newSession _ _ _ _ _ _). set (s1 := setRegistry _ _ _). set (id := nextConnectionId_ s) in *.
  assert (Hi0 : idle c0 ∧ running_ c0 = false) by done. destruct Hi0 as [Hi0 Hr0].
  assert (E0 : objects s1 id = c0) by apply (objects_put id). assert (Hoth : ∀ i, i ≠ id -> objects s1 i = objects s i) by (intros i Hi; exact (on_others id _ _ (only_put id c0 (setNextId (id + 1) s)) i Hi)).
  assert (Hreg : sessions_ s1 = sessions_ s ++ [id] ∧ sessionCount_ s1 = sessionCount_ s + 1 ∧ nextConnectionId_ s1 = id + 1 ∧ userCallbacks s1 = userCallbacks s ∧
    maxConnections_ s1 = maxConnections_ s ∧ log s1 = log s) by done. clearbody s1.
  assert (Hnot : id ∉ sessions_ s) by (intros Hin; apply (i_registered _ _ _ _ H) in Hin; destruct (i_new _ _ _ _ H id ltac:(done)); congruence).
  (* a state that differs from [s1] in the new session *)
  assert (Hrej : ∀ s2, only id s1 s2 -> sinv ssl (bool_decide (id ∈ b)) (objects s2 id) -> running_ (objects s2 id) = false -> inv b d h (eraseSession id s2)).
  { intros s2 [O1 O2 O3 O4 O5 O6 O7] Hc Hr. destruct Hreg as (R1 & R2 & R3 & R4 & R5 & R6).
    destruct (erase_added id (sessions_ s) (sessionCount_ s) s2) as (G1 & G2 & G3 & G4 & G5 & G6 & G7); [done | congruence | congruence |].
    apply (rejected_inv b d h s); fold id; rewrite ?G3; try congruence; try done. intros i Hi. rewrite O7 by done. by apply Hoth. }
  assert (Henr : ∀ e s2, only id s1 s2 -> sinv ssl (bool_decide (id ∈ b)) (objects s2 id) -> running_ (objects s2 id) = true ->
    (strict -> if ready_ (objects s2 id) then ∃ a, e = Some (OnConnected id a) else e = None) -> concerns id e -> inv b d h (emitted e s2)).
  { intros e s2 [O1 O2 O3 O4 O5 O6 O7] Hc Hr He Hcc. destruct Hreg as (R1 & R2 & R3 & R4 & R5 & R6).
    apply (enrolled_inv b d h e s); fold id; try congruence; try done. intros i Hi. rewrite O7 by done. by apply Hoth. }
  unfold startSession, onSessionWith. rewrite E0. pose proof (openSession_idle c0 Hi0 Hr0) as Ho. destruct (openSession c0) as [c1 ok]. destruct Ho as (Hi1 & Hr1 & Hx & _).
  set (s2 := putSession id c1 s1). assert (E2 : objects s2 id = c1) by apply objects_put. assert (O2 : only id s1 s2) by apply only_put.
  destruct ok; [|apply report_inv, Hrej; [done | rewrite E2; by apply idle_sinv | by rewrite E2]].
  unfold beginService. rewrite E2. destruct (sslContext_ c1) as [cfg|] eqn:Ecfg.
  - unfold onSessionWith. rewrite E2. pose proof (initializeTls_sinv ssl (bool_decide (id ∈ b)) cfg c1 Hi1 Hr1) as Ht.
    destruct (initializeTls ssl cfg c1) as [c2 ok]. destruct Ht as (Hp & Hd & _ & Hok). set (s3 := putSession id c2 s2).
    assert (E3 : objects s3 id = c2) by apply objects_put. assert (O3 : only id s1 s3) by (etrans; [exact O2 | apply only_put]).
    destruct ok; cbn [negb].
    + destruct (Hok eq_refl) as (Hc2 & Hr2 & _).
      assert (H3 : inv b d h s3) by (apply (Henr None s3); [done | by rewrite E3 | by rewrite E3 | intros _; by rewrite E3, Hd | done]).
      pose proof (srv_drive_inv b d h id s3 H3) as Hdr. rewrite E3 in Hdr. specialize (Hdr Hr2 Hd). destruct (driveTlsHandshake ssl callback id s3) as [s4 ok].
      destruct Hdr as [H4 Hf]. destruct ok; cbn [negb]; [done|]. destruct (Hf eq_refl) as [Hr4 Hd4].
      apply report_inv. apply (kill_inv b d h id None s4); [by apply inv_more | apply only_put | ..]; unfold onSession; rewrite ?objects_put; [|done| |done].
      * apply abortStartup_sinv. apply (c_prefix _ _ _ (proj1 (i_sessions _ _ _ _ H4 id))).
      * intros _. by rewrite Hd4.
    + apply report_inv, Hrej; [etrans; [exact O3 | apply only_put] | |]; unfold onSession; rewrite objects_put, E3; [by apply abortStartup_sinv | done].
  - unfold markReady. rewrite E2. destruct Hi1 as (Hd1 & Hw1 & Ht1 & Ha1 & Hwr1). rewrite Hd1. cbv zeta. set (s3 := onSession id _ s2).
    assert (E3 : objects s3 id = armReadTimer (armConnectionTimer (setReady true c1))) by (unfold s3, onSession; rewrite objects_put; by rewrite E2).
    assert (O3 : only id s1 s3) by (etrans; [exact O2 | apply only_put]).
    assert (Hc3 : sinv ssl (bool_decide (id ∈ b)) (objects s3 id)).
    { rewrite E3. apply becomeReady_sinv; [by apply idle_core | done | done | by rewrite Ht1 |]. unfold wantsWrite, hasPendingWrite. by rewrite Hw1, Ht1. }
    assert (St : steady (setReady true c1) (objects s3 id)) by (rewrite E3; etrans; [apply steady_armConnection | apply steady_armRead]).
    unfold onSessionReady. rewrite (on_user _ _ _ O3). destruct Hreg as (_ & _ & _ & R4 & _). rewrite R4. destruct (connectedCallback_ (userCallbacks s)) eqn:Ecb.
    + apply good. apply (Henr (Some (OnConnected id (clientAddress_ (objects s3 id)))) s3); try done; [by rewrite (st_running _ _ St) | intros _; rewrite (st_ready _ _ St); by eexists |].
      intros i Hx'. cbn in Hx'. by apply bool_decide_eq_true in Hx'.
    + apply (Henr None s3); try done; [by rewrite (st_running _ _ St)|]. intros Hs. destruct (i_told _ _ _ _ H Hs). congruence.
Qed.

Lemma accept_inv b d h fuel : ∀ (s : Srv), inv b d h s -> inv b d h (acceptNewConnections ssl callback fuel s).
Proof.
  induction fuel as [|fuel IH]; intros s H; [done|]. cbn [acceptNewConnections]. destruct (serverRunning_ s); cbn [negb]; [|done].
  destruct (listenAccept (listenSocket_ s)) as [k r]. assert (H1 : inv b d h (setListenSocket k s)) by same.
  destruct r; [by apply IH, adopt_inv | done | by apply report_inv].
Qed.

Lemma listenEvents_inv b d h fuel r f (s : Srv) : inv b d h s -> inv b d h (handleListenEvents ssl callback fuel r f s).
Proof.
  intros H. unfold handleListenEvents. set (s1 := if r then _ else s). assert (H1 : inv b d h s1) by (unfold s1; case_match; auto using accept_inv).
  case_match; auto using report_inv.
Qed.

(** *** Calls of the user *)

Lemma forSessions_inv b d h f ids : (∀ id s, inv b d h s -> inv b d h (f id s)) -> ∀ (s : Srv), inv b d h s -> inv b d h (forSessions f ids s).
Proof. intros Hf. induction ids as [|id ids IH]; intros s H; [done|]. cbn. by apply IH, Hf. Qed.

Lemma closeAll_inv b d h r ids : ∀ (s : Srv), inv b (list_to_set ids ∪ d) h s -> inv b d h (forSessions (close ssl callback r) ids s).
Proof.
  induction ids as [|id ids IH]; intros s H; cbn.
  - apply (inv_doomed b (list_to_set [] ∪ d)); [done|]. cbn. by rewrite union_empty_l_L.
  - apply IH, srv_close_inv. apply (inv_doomed b (list_to_set (id :: ids) ∪ d)); [done|]. cbn. by rewrite union_assoc_L.
Qed.

Lemma stop_inv b d h (s : Srv) : inv b d h s -> inv b d h (stop ssl order callback s).
Proof.
  intros H. unfold stop. destruct (serverRunning_ s); cbn [negb]; [|same].
  set (s0 := setListenSocket _ (setServerRunning false s)). assert (H0 : inv b d h s0) by same. change (sessions_ s0) with (sessions_ s) in *.
  assert (H1 : inv b d h (forSessions (close ssl callback (str "Server stopped")) (order (sessions_ s0)) (setRegistry [] 0 s0))); [|same].
  apply closeAll_inv. destruct H0 as [H1 H2 H3 H4 H5 H6 HH H7 H8 H9]. split; try done.
  - by apply NoDup_nil.
  - intros i Hi. by apply not_elem_of_nil in Hi.
  - intros i Hi. right. apply elem_of_union. destruct (H5 i Hi) as [Hin|]; [left | by right]. apply elem_of_list_to_set. by rewrite ordered.
  - intros Hs. destruct (H9 Hs) as [? Hz]. split; [done|]. etrans; [|exact Hz]. apply zlen_nonneg.
Qed.

(** What the invariant reads is not changed by [start]. *)
Definition relevant (s : Srv) :=
  (sessions_ s, sessionCount_ s, nextConnectionId_ s, userCallbacks s, objects s, log s, maxConnections_ s).

Lemma tryListen_same open call k (s : Srv) : (∀ s', relevant (k s').1 = relevant s') -> relevant (tryListen open call k s).1 = relevant s.
Proof. intros Hk. unfold tryListen. destruct (call _) as [sk [f|]]; [by destruct open | by rewrite Hk]. Qed.

Lemma start_inv b d h port a cfg (s : Srv) : inv b d h s -> inv b d h (start port a cfg s).1.
Proof.
  intros H. apply (srv_inv_same b d h s); [done|]. fold (relevant s). fold (relevant (start port a cfg s).1). unfold start.
  assert (Hl : ∀ s', relevant (listen port a s').1 = relevant s').
  { intros s'. unfold listen. do 5 (apply tryListen_same; clear s'; intros s'). unfold registerListener. destruct (pollAdd _) as [sk []]; done. }
  destruct (serverRunning_ s); [done|]. destruct (enableSSL cfg); [|by rewrite Hl]. destruct (contextInit _ _) as [k [m|]]; [done|]. by rewrite Hl.
Qed.

Lemma updateTimeouts_inv b d h (s : Srv) : inv b d h s -> inv b d h (applyTimeoutsToSessions order s).
Proof.
  intros H. unfold applyTimeoutsToSessions. apply forSessions_inv; [|done]. intros id s' H'. apply steady_inv; [done | apply steady_updateTimeouts|].
  unfold updateTimeouts, armConnectionTimer, armReadTimer, armWriteTimer. by repeat case_match.
Qed.

(** Calls that keep the reports of connections and the limit. *)
Definition tame (c : UserCall) : Prop :=
  match c with
  | CallSetCallback (ConnectedFn | DisconnectedFn) set => set = true
  | CallSetMaxConnections n => n <= cap
  | _ => True
  end.

Lemma srv_userCall_inv b d h c (s : Srv) : (strict -> tame c) -> inv b d h s -> inv b d h (userCall ssl order callback s c).
Proof.
  intros Ht H. destruct c as [port a cfg| |hd id data|id prefix path off len|hd data|id|id|ct rt wt|n|which set]; cbn [userCall].
  - by apply start_inv.
  - by apply stop_inv.
  - unfold sendToClient. case_match; [done|]. pose proof (srv_send_inv b d h hd data id s H) as Hs. by destruct (send ssl callback hd data id s).
  - unfold sendFileToClient. case_match; [done | by apply sendFile_inv].
  - unfold broadcast. case_bool_decide; [done|]. apply forSessions_inv; [|done]. intros. by apply srv_send_inv.
  - unfold disconnectClient. case_match; [by apply closed_inv | done].
  - unfold closeClientAfterPendingWrites. case_match; [by apply closeAfter_inv | done].
  - assert (Hset : ∀ t s', inv b d h s' -> inv b d h (applyTimeoutsToSessions order (setTimeouts t s'))) by (intros t s' H'; apply updateTimeouts_inv; same).
    by do 3 apply Hset.
  - destruct H as [H1 H2 H3 H4 H5 H6 HH H7 H8 H9]. split; try done. intros Hs. split; [by apply Ht | by apply H9].
  - destruct H as [H1 H2 H3 H4 H5 H6 HH H7 H8 H9]. split; try by destruct which. intros Hs. specialize (Ht Hs). destruct (H8 Hs). by destruct which; cbn in *; subst.
Qed.

Lemma srv_happens_inv b d h e (s : Srv) : (strict -> if e is Call c then tame c else True) -> inv b d h s -> inv b d h (happens ssl order callback s e).
Proof.
  intros Ht H. destruct e as [c|n r f|id n r w f|id|id|id]; cbn [happens]; [by apply srv_userCall_inv | by apply listenEvents_inv | by apply srv_handleEvents_inv | ..];
    apply (timers_inv b d h id s H).
Qed.
End Preserved.

Lemma srv_callbackAt_inv react depth : (strict -> ∀ e, Forall tame (react e)) ->
  ∀ b d h e (s : Srv), inv b d h (emit e s) -> inv b d h (callbackAt ssl order react depth e s).
Proof.
  intros Ht. induction depth as [|depth IH]; intros b d h e s H; [done|]. cbn [callbackAt].
  assert (Hc : strict -> Forall tame (react e)) by auto. revert H. generalize (emit e s). clear s. induction (react e) as [|c cs IHc]; intros s H; [done|]. cbn [fold_left].
  apply IHc; [intros Hs; specialize (Hc Hs); by apply Forall_cons in Hc as [_ ?]|]. apply srv_userCall_inv; [done | | done].
  intros Hs. specialize (Hc Hs). by apply Forall_cons in Hc as [? _].
Qed.

Lemma srv_run_inv react depth stimuli b d h : (strict -> ∀ e, Forall tame (react e)) -> (strict -> Forall (fun e => if e is Call c then tame c else True) stimuli) ->
  ∀ (s : Srv), inv b d h s -> inv b d h (run ssl order react depth stimuli s).
Proof.
  intros Hr. unfold run. induction stimuli as [|e l IH]; intros Hs s H; [done|]. cbn [fold_left].
  apply IH; [intros Hx; specialize (Hs Hx); by apply Forall_cons in Hs as [_ ?]|]. apply srv_happens_inv; [by apply srv_callbackAt_inv | | done].
  intros Hx. specialize (Hs Hx). by apply Forall_cons in Hs as [? _].
Qed.

Lemma srv_initial_inv k u : (strict -> connectedCallback_ u = true ∧ disconnectedCallback_ u = true) -> (strict -> 10000 <= cap) -> inv ∅ ∅ ∅ (initial k u).
Proof.
  intros Hu Hc. split; [intros id; by apply idle_sinv | by apply NoDup_nil | done | intros id H; by apply not_elem_of_nil in H | done | done
    | intros id H; by apply not_elem_of_empty in H | intros Hs id; by left | done |].
  intros Hs. specialize (Hc Hs). split; [done|]. change (0 <= cap). lia.
Qed.
End Invariant.

(** ** What a flush achieves *)

Section Flush.
Context {Sock : Type} {sock : Socket Sock} {system : ServerSystem Sock} {laws : SocketLaws Sock} {files : ServerSystemLaws Sock}.
Context (ssl : bool) (takes : Sock -> Prop) (willing : taking takes) (willingFiles : takingFiles takes) (strict : Prop) (cap : Z).
Abbreviation Session := (@ClientSession Sock).
Abbreviation Srv := (@Server Sock).
#[local] Abbreviation inv := (inv ssl strict cap).

(** What the user is told of the end of a connection. *)
Definition farewell (id : ConnectionId) (reason : list byte) (s : Srv) : list Event :=
  if disconnectedCallback_ (userCallbacks s) then [OnDisconnected id reason] else [].

Lemma close_ready b d h r id (s : Srv) : inv b d h s -> ready_ (objects s id) = true ->
  let s' := close ssl emit r id s in objects s' id = closeRunning ssl (objects s id) ∧ log s' = log s ++ farewell id r s ∧ id ∉ sessions_ s'.
Proof.
  intros H Hd. unfold close. rewrite (ready_running _ _ _ (i_sessions _ _ _ _ _ _ _ H id) Hd). cbn [negb]. set (s1 := onSession id (closeRunning ssl) s).
  pose proof (only_put id (closeRunning ssl (objects s id)) s) as Ho. fold (onSession id (closeRunning ssl) s) in Ho. fold s1 in Ho.
  destruct (erase_registry id s1) as (E1 & _ & E3 & _ & E5 & E6 & _); [rewrite (on_sessions _ _ _ Ho); apply H | rewrite (on_sessions _ _ _ Ho), (on_count _ _ _ Ho); apply H |].
  unfold onSessionClosed. cbv zeta. rewrite E6, (on_user _ _ _ Ho), Hd. cbn [andb]. unfold farewell.
  assert (Hno : id ∉ sessions_ (eraseSession id s1)) by (rewrite E1; intros [Hx _]%list_elem_of_filter; done).
  destruct (disconnectedCallback_ (userCallbacks s)).
  - unfold emit. cbn [objects setLog log sessions_]. rewrite E3, E5, (on_log _ _ _ Ho). unfold s1, onSession. by rewrite objects_put.
  - rewrite E3, E5, (on_log _ _ _ Ho), app_nil_r. unfold s1, onSession. by rewrite objects_put.
Qed.

(** All that was accepted is written; a close that was asked for follows, and otherwise only the session has changed. *)
Definition flushed (id : ConnectionId) (s s' : Srv) : Prop :=
  let c := objects s id in
  let c' := objects s' id in
  written_ c' = accepted_ c ∧ accepted_ c' = accepted_ c ∧
  if closeAfterFlush_ (writer c) then ready_ c' = false ∧ log s' = log s ++ farewell id (str "Connection closed") s ∧ id ∉ sessions_ s'
  else ready_ c' = true ∧ sendQueue_ (writer c') = [] ∧ takes (socket_ c') ∧ closeAfterFlush_ (writer c') = false ∧ only id s s'.

Lemma srv_flush_all b d h id (s : Srv) : inv ({[id]} ∪ b) d h s -> ready_ (objects s id) = true -> flushReschedule_ (writer (objects s id)) = false ->
  takes (socket_ (objects s id)) -> flushed id s (runQueuedFlush ssl emit id s).
Proof.
  intros H Hd Hre Ht. pose proof (i_sessions _ _ _ _ _ _ _ H id) as Hc. unfold runQueuedFlush. cbn [flushLoop]. rewrite Hd. cbn [negb].
  unfold drainSendQueue, onSessionWith.
  pose proof (session_drain_all ssl takes willing willingFiles _ _ (objects s id) Hc Hd Ht (drainFuel_enough ssl _ _ Hc)) as Hall.
  pose proof (drain_sinv ssl _ (drainFuel (objects s id)) (objects s id) Hc) as Hsv.
  destruct (drainLoop ssl (drainFuel (objects s id)) (objects s id)) as [c1 e]. destruct Hall as [W F], Hsv as [Hc1 Ha].
  set (s1 := putSession id c1 s). assert (Ho : only id s s1) by apply only_put. assert (E1 : objects s1 id = c1) by apply objects_put.
  assert (Hd1 : ready_ c1 = true) by (by rewrite (ad_ready _ _ Ha)).
  assert (H1 : inv ({[id]} ∪ b) d h s1) by (apply (only_inv ssl strict cap _ d h id s); rewrite ?E1; [done | done | done | apply Ha | apply Ha]).
  unfold flushed. destruct (closeAfterFlush_ (writer (objects s id))).
  - subst e. destruct (close_ready _ d h (str "Connection closed") id s1 H1 ltac:(by rewrite E1)) as (C1 & C2 & C3).
    set (s2 := close ssl emit _ id s1) in *. rewrite orb_true_r. unfold onSession. rewrite objects_put, C1, E1. cbn [flushDone onWriter setWriter written_ accepted_ ready_].
    split_and!; [exact W | apply Ha | done | | exact C3]. cbn [log putSession setObjects]. rewrite C2, (on_log _ _ _ Ho). unfold farewell. by rewrite (on_user _ _ _ Ho).
  - destruct F as (-> & Q & T & C). rewrite E1. rewrite (ready_running _ _ _ Hc1 Hd1). cbn [negb orb]. rewrite (ad_again _ _ Ha), Hre. cbn [negb].
    unfold onSession. rewrite objects_put, E1. cbn [onWriter setWriter written_ accepted_ ready_ writer socket_]. split_and!; try done; [apply Ha|].
    etrans; [exact Ho | apply only_put].
Qed.

(** A session outside of a flush that is about to start one. *)
Lemma srv_scheduled b d h id f (s : Srv) : inv b d h s -> id ∉ b -> ready_ (objects s id) = true ->
  sinv ssl false (f (objects s id)) -> running_ (f (objects s id)) = running_ (objects s id) -> ready_ (f (objects s id)) = ready_ (objects s id) ->
  ∃ s', onSessionWith id (fun c => markFlushScheduledLocked (f c)) s = (s', true) ∧ inv ({[id]} ∪ b) d h s' ∧ only id s s' ∧
    objects s' id = onWriter (fun w => setFlushReschedule false (setFlushRunning true w)) (f (objects s id)).
Proof.
  intros H Hb Hd Hf Hr Hd'. assert (Hf' : sinv ssl (bool_decide (id ∈ b)) (f (objects s id))) by (by rewrite bool_decide_eq_false_2).
  pose proof (srv_schedule_inv ssl strict cap b d h id f s H Hf' Hr Hd') as Hs. unfold onSessionWith in *.
  assert (Em : markFlushScheduledLocked (f (objects s id)) = (onWriter (fun w => setFlushReschedule false (setFlushRunning true w)) (f (objects s id)), true)).
  { unfold markFlushScheduledLocked. rewrite Hr, (ready_running _ _ _ (i_sessions _ _ _ _ _ _ _ H id) Hd). cbn [negb].
    by destruct (c_quiet _ _ _ (proj1 Hf) eq_refl) as [-> _]. }
  rewrite Em in *. destruct Hs as (H1 & _ & _ & Ho). eexists. split; [done|]. split_and!; [done | done | apply objects_put].
Qed.

Lemma srv_write_event b d h id (s : Srv) : inv b d h s -> id ∉ b -> ready_ (objects s id) = true -> takes (socket_ (objects s id)) ->
  flushed id s (handleWrite ssl emit id s).
Proof.
  intros H Hb Hd Ht. pose proof (i_sessions _ _ _ _ _ _ _ H id) as Hc. unfold handleWrite. cbv zeta. rewrite (ready_running _ _ _ Hc Hd). cbn [negb].
  rewrite bool_decide_eq_false_2 by (by apply (ready_tls _ _ _ Hc Hd)).
  destruct (srv_scheduled b d h id (fun c => c) s H Hb Hd) as (s1 & E & H1 & Ho & Eo); [by rewrite bool_decide_eq_false_2 in Hc | done | done |].
  change (onSessionWith id markFlushScheduledLocked s) with (onSessionWith id (fun c : Session => markFlushScheduledLocked c) s). rewrite E. cbn [dispatchFlushIfNeeded].
  pose proof (srv_flush_all b d h id s1 H1) as F. unfold flushed in *. rewrite Eo in F. cbn [onWriter setWriter ready_ writer flushReschedule_ setFlushReschedule setFlushRunning socket_ accepted_ closeAfterFlush_] in F.
  destruct (F Hd eq_refl Ht) as (F1 & F2 & F3). split_and!; [done | done|]. destruct (closeAfterFlush_ (writer (objects s id))).
  - unfold farewell in *. by rewrite (on_log _ _ _ Ho), (on_user _ _ _ Ho) in F3.
  - destruct F3 as (? & ? & ? & ? & ?). split_and!; try done. by etrans.
Qed.

(** Entries given to a session that is not being closed: their bytes are written behind the others. *)
Lemma enqueue_event b d h arm entries data id (s : Srv) : inv b d h s -> id ∉ b -> ready_ (objects s id) = true -> takes (socket_ (objects s id)) ->
  closeAfterFlush_ (writer (objects s id)) = false -> Forall itemOk entries -> entries ≠ [] -> data = concat (itemRest <$> entries) ->
  let s' := enqueue ssl emit arm entries data id s in
  written_ (objects s' id) = accepted_ (objects s id) ++ data ∧ accepted_ (objects s' id) = accepted_ (objects s id) ++ data ∧
  ready_ (objects s' id) = true ∧ takes (socket_ (objects s' id)) ∧ closeAfterFlush_ (writer (objects s' id)) = false ∧ only id s s'.
Proof.
  intros H Hb Hd Ht Hcl He Hn Hdata. unfold enqueue, enqueueLocked.
  set (f := fun c : Session => refreshInterestLocked (onWriter (fun w => setQueue (sendQueue_ w ++ entries) w) (setAccepted (accepted_ c ++ data) c))).
  set (c0 := onWriter (fun w => setQueue (sendQueue_ w ++ entries) w) (setAccepted (accepted_ (objects s id) ++ data) (objects s id))).
  pose proof (steady_refresh c0) as Hst. change (refreshInterestLocked c0) with (f (objects s id)) in Hst.
  pose proof (i_sessions _ _ _ _ _ _ _ H id) as Hc. rewrite bool_decide_eq_false_2 in Hc by done.
  destruct (srv_scheduled b d h id f s H Hb Hd) as (s1 & E & H1 & Ho & Eo); [by apply enqueue_sinv | apply (st_running _ _ Hst) | apply (st_ready _ _ Hst) |].
  change (onSessionWith id _ s) with (onSessionWith id (fun c => markFlushScheduledLocked (f c)) s). rewrite E. cbn [dispatchFlushIfNeeded].
  set (s2 := if arm then onSession id armWriteTimer s1 else s1).
  assert (H2 : inv ({[id]} ∪ b) d h s2).
  { unfold s2. destruct arm; [|done]. apply on_inv; [done | by apply armWrite_sinv | apply steady_armWrite | apply steady_armWrite]. }
  assert (St : steady (objects s1 id) (objects s2 id) ∧ socket_ (objects s2 id) = socket_ (objects s1 id)).
  { unfold s2. destruct arm; [|done]. unfold onSession. rewrite objects_put. split; [apply steady_armWrite|]. unfold armWriteTimer. by case_match. }
  assert (Ho2 : only id s s2) by (etrans; [exact Ho|]; unfold s2; destruct arm; [apply only_put | done]). clearbody s2. destruct St as [St Hk].
  rewrite Eo in St, Hk. cbn [onWriter setWriter socket_] in Hk.
  assert (Ht2 : takes (socket_ (objects s2 id))) by (rewrite Hk; apply (session_refresh_takes takes willing); done).
  pose proof (srv_flush_all b d h id s2 H2) as F. unfold flushed in F. rewrite (st_ready _ _ St), (st_again _ _ St), (st_accepted _ _ St), (st_close _ _ St) in F.
  cbn [onWriter setWriter ready_ writer flushReschedule_ setFlushReschedule setFlushRunning accepted_ closeAfterFlush_] in F.
  rewrite (st_ready _ _ Hst), (st_accepted _ _ Hst), (st_close _ _ Hst) in F. cbn [c0 onWriter setWriter ready_ writer setQueue accepted_ setAccepted closeAfterFlush_] in F.
  rewrite Hcl in F. destruct (F Hd eq_refl Ht2) as (F1 & F2 & F3 & _ & F5 & F6 & F7). split_and!; try done. by etrans.
Qed.
End Flush.

(** ** Claims *)

(** C11. The bytes of a session: over every sequence of calls, socket events and timers, whatever
    the user's functions do on the server and however deeply their calls nest, what the system
    took of a session is a prefix of what [send] and [sendFile] took, prefixes and ranges of files in
    their order; while the session is ready, it is followed exactly by what is queued, so that nothing
    is lost, duplicated or reordered; and a session that is not ready has nothing queued. *)
Theorem server_stream {Sock} {sock : Socket Sock} {system : ServerSystem Sock} {laws : SocketLaws Sock} {files : ServerSystemLaws Sock}
    ssl order react depth stimuli k u id :
  (∀ l, order l ≡ₚ l) ->
  let c := objects (run ssl order react depth stimuli (initial k u)) id in
  written_ c `prefix_of` accepted_ c ∧
  if ready_ c then written_ c ++ unsent (writer c) = accepted_ c else sendQueue_ (writer c) = [].
Proof.
  intros Ho c. assert (H : inv ssl False 0 ∅ ∅ ∅ (run ssl order react depth stimuli (initial k u))) by (by apply srv_run_inv; [..|apply srv_initial_inv]).
  destruct (i_sessions _ _ _ _ _ _ _ H id) as [Hc _]. fold c in Hc. split; [apply Hc|]. destruct (ready_ c) eqn:Hd; [by apply Hc|].
  destruct (running_ c) eqn:Hr; [by apply (c_starting _ _ _ Hc) | by apply (c_stopped _ _ _ Hc)].
Qed.

(** C12. The sessions of a server: after every sequence of calls, socket events and timers the
    registry lists exactly the sessions that run, each once; [getClientCount] is their number,
    which never exceeds the largest limit that was set; and every connection is announced once
    before its data is delivered and reported closed once after it, if it was announced,
    exactly the announced ones that were not reported closed being ready.  The user's
    functions may use the server, also from inside; the two that report connections must stay
    set. *)
Theorem server_lifecycle {Sock} {sock : Socket Sock} {system : ServerSystem Sock} {laws : SocketLaws Sock} {files : ServerSystemLaws Sock}
    ssl order react depth stimuli k u cap :
  (∀ l, order l ≡ₚ l) -> connectedCallback_ u = true -> disconnectedCallback_ u = true -> 10000 <= cap ->
  (∀ e, Forall (tame cap) (react e)) -> Forall (fun e => if e is Call c then tame cap c else True) stimuli ->
  let s := run ssl order react depth stimuli (initial k u) in
  NoDup (getClientIds order s) ∧ getClientCount s = zlen (getClientIds order s) ∧ getClientCount s <= cap ∧
  (∀ id, hasClient id s = running_ (objects s id)) ∧
  ∀ id, is_Some (life id (log s)) ∧ (life id (log s) = Some Open <-> ready_ (objects s id) = true).
Proof.
  intros Ho Hu1 Hu2 Hcap Ht Hst s. assert (H : inv ssl True cap ∅ ∅ ∅ s) by (by apply srv_run_inv; [..|apply srv_initial_inv]).
  destruct H as [H1 H2 H3 H4 H5 H6 HH H7 H8 H9]. unfold getClientIds, getClientCount. split_and!.
  - by rewrite Ho.
  - rewrite H3. unfold zlen. by rewrite Ho.
  - rewrite H3. by apply H9.
  - intros id. unfold hasClient. destruct (running_ (objects s id)) eqn:E.
    + apply bool_decide_eq_true_2. destruct (H5 id E) as [|Hx]; [done|]. by apply not_elem_of_empty in Hx.
    + apply bool_decide_eq_false_2. intros Hin. apply H4 in Hin. congruence.
  - intros id. specialize (H7 I id). unfold phaseOf in H7. destruct (ready_ (objects s id)); [rewrite H7; by split|].
    destruct (running_ (objects s id)); [rewrite H7; by split|]. destruct H7 as [-> | ->]; by split.
Qed.

(** C13. Progress, for a ready session with something to write: the poller is asked for
    writability unless TLS waits to read before it can write, and then only if it also waits
    to write before it can read; and when writability is reported and the system takes what
    it is given, one event writes every byte that was accepted, ranges of files included, in
    order, and then closes the session if [closeClientAfterPendingWrites] asked for it - not
    before, and with one report. *)
Theorem server_flush {Sock} {sock : Socket Sock} {system : ServerSystem Sock} {laws : SocketLaws Sock} {files : ServerSystemLaws Sock}
    ssl order takes react depth stimuli k u id :
  (∀ l, order l ≡ₚ l) -> taking takes -> takingFiles takes ->
  let s := run ssl order react depth stimuli (initial k u) in
  let c := objects s id in
  ready_ c = true -> sendQueue_ (writer c) ≠ [] -> takes (socket_ c) ->
  writeInterestEnabled_ (writer c) = negb (writeWait_ (writer c) =s WaitRead) || (readWait_ (writer c) =s WaitWrite) ∧
  let s' := handleWrite ssl emit id s in
  let c' := objects s' id in
  written_ c' = accepted_ c ∧
  if closeAfterFlush_ (writer c) then ready_ c' = false ∧ log s' = log s ++ farewell id (str "Connection closed") s ∧ hasClient id s' = false
  else ready_ c' = true ∧ sendQueue_ (writer c') = [] ∧ log s' = log s.
Proof.
  intros Ho Hw Hf s c Hd Hq Ht. assert (H : inv ssl False 0 ∅ ∅ ∅ s) by (by apply srv_run_inv; [..|apply srv_initial_inv]).
  pose proof (i_sessions _ _ _ _ _ _ _ H id) as Hc. fold c in Hc. split.
  - destruct (proj2 Hc (ready_running _ _ _ Hc Hd)) as [-> _]. unfold wantsWrite, hasPendingWrite.
    rewrite (bool_decide_eq_false_2 (tlsState_ c = TlsHandshaking)) by apply (ready_tls _ _ _ Hc Hd).
    rewrite (bool_decide_eq_false_2 (sendQueue_ (writer c) = [])) by done.
    destruct (writeWait_ (writer c)); cbn; by rewrite ?orb_false_r.
  - destruct (srv_write_event ssl takes Hw Hf False 0 ∅ ∅ ∅ id s H ltac:(set_solver) Hd Ht) as (W & _ & F). split; [done|]. fold c in F.
    destruct (closeAfterFlush_ (writer c)).
    + destruct F as (? & ? & ?). split_and!; try done. by apply bool_decide_eq_false_2.
    + destruct F as (? & ? & _ & _ & Hon). split_and!; try done. apply Hon.
Qed.

(** ** The interface of the servers above *)

Section Interface.
Context {Sock : Type} {sock : Socket Sock} {system : ServerSystem Sock} (ssl : bool) (order : list ConnectionId -> list ConnectionId).
Abbreviation Srv := (@Server Sock).

Definition closuresOf (l : list Event) : closures := omap (fun e => match e with OnDisconnected id r => Some (id, r) | _ => None end) l.

(** What an operation reported closed while it ran. *)
Definition closing (op : Srv -> Srv) (s : Srv) : Srv * closures :=
  let s' := op s in (s', closuresOf (drop (length (log s)) (log s'))).
Definition sending (op : Srv -> Srv * option Failure) (s : Srv) : Srv * bool * closures :=
  let '(s', e) := op s in (s', bool_decide (e = None), closuresOf (drop (length (log s)) (log s'))).

#[export] Instance server_tcp : Transport.TcpServer Srv := {
  Transport.sendToClient s id data := sending (sendToClient ssl emit HeldString id data) s;
  Transport.sendFileToClient s id head path offset len := sending (sendFileToClient ssl emit id head path offset len) s;
  Transport.broadcast s data := closing (broadcastString ssl order emit data) s;
  Transport.tcpDisconnect s id := closing (disconnectClient ssl emit id) s;
  Transport.closeClientAfterPendingWrites s id := closing (closeClientAfterPendingWrites ssl emit id) s;
  Transport.tcpStop s := closing (stop ssl order emit) s
}.

(** A registered session on a willing system takes whatever it is given, without a callback, and has then written all of it. *)
Record serving (takes : Sock -> Prop) (id : ConnectionId) (s : Srv) : Prop := {
  sv_inv : inv ssl False 0 ∅ ∅ ∅ s;
  sv_in : id ∈ sessions_ s;
  sv_ready : ready_ (objects s id) = true;
  sv_takes : takes (socket_ (objects s id));
  sv_open : closeAfterFlush_ (writer (objects s id)) = false;
  sv_written : written_ (objects s id) = accepted_ (objects s id)
}.

Lemma serving_enqueue {laws : SocketLaws Sock} {files : ServerSystemLaws Sock} takes arm entries data id (s s0 : Srv) : taking takes -> takingFiles takes ->
  serving takes id s -> only id s s0 -> inv ssl False 0 ∅ ∅ ∅ s0 -> steady (objects s id) (objects s0 id) -> takes (socket_ (objects s0 id)) ->
  Forall itemOk entries -> entries ≠ [] -> data = concat (itemRest <$> entries) ->
  let s' := enqueue ssl emit arm entries data id s0 in
  serving takes id s' ∧ log s' = log s ∧ written_ (objects s' id) = written_ (objects s id) ++ data.
Proof.
  intros Hw Hf [S1 S2 S3 S4 S5 S6] Ho H0 St Ht He Hn Hd s'.
  destruct (enqueue_event ssl takes Hw Hf False 0 ∅ ∅ ∅ arm entries data id s0 H0 ltac:(set_solver)) as (E1 & E2 & E3 & E4 & E5 & E6); try done;
    [by rewrite (st_ready _ _ St) | by rewrite (st_close _ _ St) |].
  fold s' in E1, E2, E3, E4, E5, E6. rewrite (st_accepted _ _ St) in E1, E2. split_and!.
  - split; try done; [|by rewrite (on_sessions _ _ _ E6), (on_sessions _ _ _ Ho) | by rewrite E1].
    apply srv_enqueue_inv; try done. by rewrite (st_ready _ _ St).
  - by rewrite (on_log _ _ _ E6), (on_log _ _ _ Ho).
  - by rewrite E1, S6.
Qed.

Lemma serving_send {laws : SocketLaws Sock} {files : ServerSystemLaws Sock} takes id d (s : Srv) : taking takes -> takingFiles takes -> serving takes id s ->
  ∃ s', Transport.sendToClient s id d = (s', true, []) ∧ serving takes id s' ∧ written_ (objects s' id) = written_ (objects s id) ++ d.
Proof.
  intros Hw Hf Hs. cbn [Transport.sendToClient server_tcp]. unfold sending, sendToClient, hasClient. rewrite bool_decide_eq_true_2 by apply Hs. cbn [negb].
  unfold send. rewrite (sv_ready _ _ _ Hs). cbn [negb]. case_bool_decide as Hd.
  - subst d. exists s. rewrite drop_all, app_nil_r. by split_and!.
  - destruct (pendingOf_ok HeldString d Hd) as [Hok Hrest].
    destruct (serving_enqueue takes true [pendingOf HeldString d] d id s s) as (E1 & E2 & E3); try done; [apply Hs | apply Hs | by constructor | |].
    + cbn [fmap list_fmap concat]. by rewrite Hrest, app_nil_r.
    + eexists. split; [|split; [exact E1 | exact E3]]. by rewrite E2, drop_all, bool_decide_eq_true_2.
Qed.

(** A file and a range of it that [sendFile] sends. *)
Definition opens (takes : Sock -> Prop) (path content : list byte) : Prop :=
  path ≠ [] ∧ ∀ k, takes k -> ∃ k', fileOpen k path = (k', Opened content) ∧ takes k'.
Definition rangeOf (content : list byte) (offset len : Z) : list byte :=
  take (Z.to_nat (if len =? 0 then zlen content - offset else len)) (drop (Z.to_nat offset) content).

Lemma serving_file {laws : SocketLaws Sock} {files : ServerSystemLaws Sock} takes id head path content offset len (s : Srv) :
  taking takes -> takingFiles takes -> serving takes id s -> opens takes path content ->
  0 <= offset -> 0 <= len -> offset + len <= zlen content -> zlen content < 2 ^ 64 ->
  ∃ s', Transport.sendFileToClient s id head path offset len = (s', true, []) ∧ serving takes id s' ∧
    written_ (objects s' id) = written_ (objects s id) ++ head ++ rangeOf content offset len.
Proof.
  intros Hw Hf Hs [Hp Hopen] H0 H1 H2 H3. cbn [Transport.sendFileToClient server_tcp]. unfold sending, sendFileToClient, hasClient.
  rewrite bool_decide_eq_true_2 by apply Hs. cbn [negb]. unfold sendFile, u64. rewrite !Z.mod_small by lia. cbv zeta. rewrite (sv_ready _ _ _ Hs). cbn [negb].
  rewrite (bool_decide_eq_false_2 (path = [])) by done. unfold onSessionWith. destruct (Hopen _ (sv_takes _ _ _ Hs)) as (k & -> & Hk).
  set (s0 := putSession id (setSocket k (objects s id)) s). assert (Ho : only id s s0) by apply only_put.
  assert (E0 : objects s0 id = setSocket k (objects s id)) by apply objects_put.
  assert (Hi0 : inv ssl False 0 ∅ ∅ ∅ s0) by (apply (steady_inv ssl False 0 ∅ ∅ ∅ id (setSocket k)); [apply Hs | apply steady_socket | done]).
  rewrite (proj2 (Z.ltb_ge (zlen content) offset)) by lia. unfold rangeOf. set (n := if len =? 0 then _ else len).
  assert (Hn : 0 <= n ∧ offset + n <= zlen content) by (unfold n; destruct (Z.eqb_spec len 0); lia).
  rewrite (proj2 (Z.ltb_ge (zlen content - offset) n)) by lia. set (dir := bool_decide (tlsState_ _ = TlsDisabled)).
  destruct ((head =s []) && negb (0 <? n)) eqn:E.
  { apply andb_true_iff in E as [->%bool_decide_eq_true Hz%negb_true_iff%Z.ltb_ge]. exists s0. rewrite (on_log _ _ _ Ho), drop_all, bool_decide_eq_true_2 by done.
    replace n with 0 by lia. rewrite E0. cbn [Z.to_nat take app]. rewrite app_nil_r. split_and!; try done. destruct Hs as [S1 S2 S3 S4 S5 S6].
    split; rewrite ?E0; try done. }
  assert (Hent : let entries := (if head =s [] then [] else [pendingOf HeldString head]) ++ (if 0 <? n then [pendingFile path content offset n dir] else []) in
    Forall itemOk entries ∧ entries ≠ [] ∧ concat (itemRest <$> entries) = head ++ take (Z.to_nat n) (drop (Z.to_nat offset) content)).
  { cbv zeta. rewrite fmap_app, concat_app. destruct (bool_decide_reflect (head = [])) as [->|Hh]; destruct (Z.ltb_spec 0 n) as [Hpos|Hz]; try done.
    - destruct (pendingFile_ok path content offset n dir) as [? Hx]; [lia..|]. split_and!; [by constructor | done|]. cbn [fmap list_fmap concat]. by rewrite Hx, app_nil_r.
    - destruct (pendingOf_ok HeldString head Hh) as [? Hy]. destruct (pendingFile_ok path content offset n dir) as [? Hx]; [lia..|].
      split_and!; [apply Forall_app; split; by constructor | done|]. cbn [fmap list_fmap concat]. by rewrite Hx, Hy, !app_nil_r.
    - destruct (pendingOf_ok HeldString head Hh) as [? Hy]. split_and!; [by constructor | done|]. replace n with 0 by lia.
      cbn [fmap list_fmap concat]. by rewrite Hy, !app_nil_r. }
  destruct Hent as (N1 & N2 & N3). set (entries := _ ++ _) in *.
  destruct (serving_enqueue takes (0 <? n) entries (head ++ take (Z.to_nat n) (drop (Z.to_nat offset) content)) id s s0) as (E1 & E2 & E3); try done;
    [rewrite E0; apply steady_socket | by rewrite E0 |].
  eexists. split; [|split; [exact E1 | exact E3]]. by rewrite E2, drop_all, bool_decide_eq_true_2.
Qed.
End Interface.

(** ** Runs *)

Definition everyone (l : list ConnectionId) : list ConnectionId := l.
Lemma everyone_listed l : everyone l ≡ₚ l.
Proof. done. Qed.

(** The functions the HTTP and WebSocket servers set. *)
Definition reporting : UserCallbacks := mkUser true true false true false true.
Definition noReaction (e : Event) : list UserCall := [].
Definition tlsConfig : SSLConfig := mkSsl true [] [] [] false [].

Definition listening : Stimulus := Call (CallStart 80 (str "0.0.0.0") defaultSsl).
Definition clientsArrive : Stimulus := ListenReady 3 true false.

(** A host with two clients; the system takes four bytes and then blocks. *)
Definition narrowHost : Pipe := mkPipe [4; 0] [] [] [str "GET"; []] [] true false.

(** A head and a range of the file for the first client, and a close behind them. *)
Definition halfServed : list Stimulus :=
  [listening; clientsArrive; Call (CallSendFile 1 (str "head ") pipeFile 2 5); Call (CallCloseAfterPendingWrites 1)].
Definition halfServedState : Server := run true everyone noReaction 0 halfServed (initial narrowHost reporting).

Lemma server_stream_witness :
  let c := objects halfServedState 1 in
  written_ c `prefix_of` accepted_ c ∧ if ready_ c then written_ c ++ unsent (writer c) = accepted_ c else sendQueue_ (writer c) = [].
Proof. exact (server_stream true everyone noReaction 0 halfServed narrowHost reporting 1 everyone_listed). Defined.

Example half_served :
  let c := objects halfServedState 1 in
  written_ c = str "head" ∧ accepted_ c = str "head 23456" ∧ unsent (writer c) = str " 23456" ∧ ready_ c = true ∧ closeAfterFlush_ (writer c) = true.
Proof. by vm_compute. Qed.

(** An echo that closes on errors. *)
Definition echo (e : Event) : list UserCall :=
  match e with OnData id d => [CallSend HeldBuffer id d; CallBroadcast HeldString d] | OnError _ => [CallStop] | _ => [] end.
Definition echoed : list Stimulus :=
  [listening; clientsArrive; SessionReady 1 2 true false false; SessionReady 2 0 false false true; Call CallStop].
Definition openHost : Pipe := mkPipe [] [] [] [str "ping"; []] [] true false.

Lemma server_lifecycle_witness :
  let s := run true everyone echo 3 echoed (initial openHost reporting) in
  NoDup (getClientIds everyone s) ∧ getClientCount s = zlen (getClientIds everyone s) ∧ getClientCount s <= 10000 ∧
  (∀ id, hasClient id s = running_ (objects s id)) ∧
  ∀ id, is_Some (life id (log s)) ∧ (life id (log s) = Some Open <-> ready_ (objects s id) = true).
Proof.
  refine (server_lifecycle true everyone echo 3 echoed openHost reporting 10000 everyone_listed eq_refl eq_refl _ _ _).
  - by vm_compute.
  - intros []; cbn; repeat constructor.
  - repeat constructor.
Defined.

Example srv_echo_run :
  let s := run true everyone echo 3 echoed (initial openHost reporting) in
  clear (socket_ (objects s 1)) = str "pingping" ∧ clear (socket_ (objects s 2)) = str "ping" ∧
  log s = [OnConnected 1 (mkAddress (str "10.0.0.1") 4000); OnConnected 2 (mkAddress (str "10.0.0.1") 4000); OnData 1 (str "ping");
           OnError (SocketError, str "Connection closed by peer"); OnDisconnected 1 (str "Server stopped"); OnDisconnected 2 (str "Server stopped")].
Proof. by vm_compute. Qed.

(** The close waits for what is left, which the next event writes. *)
Lemma server_flush_witness :
  let s := halfServedState in
  let c := objects s 1 in
  writeInterestEnabled_ (writer c) = negb (writeWait_ (writer c) =s WaitRead) || (readWait_ (writer c) =s WaitWrite) ∧
  let s' := handleWrite true emit 1 s in
  let c' := objects s' 1 in
  written_ c' = accepted_ c ∧
  if closeAfterFlush_ (writer c) then ready_ c' = false ∧ log s' = log s ++ farewell 1 (str "Connection closed") s ∧ hasClient 1 s' = false
  else ready_ c' = true ∧ sendQueue_ (writer c') = [] ∧ log s' = log s.
Proof.
  refine (server_flush true everyone roomy noReaction 0 halfServed narrowHost reporting 1 everyone_listed roomy_takes roomy_files _ _ _).
  - by vm_compute.
  - by vm_compute.
  - by vm_compute.
Defined.

Example flushed_and_closed_server :
  let s := handleWrite true emit 1 halfServedState in
  clear (socket_ (objects s 1)) = str "head 23456" ∧ drop 2 (log s) = [OnDisconnected 1 (str "Connection closed")].
Proof. by vm_compute. Qed.

(** *** What goes wrong *)

(** A session keeps the kind of data function there was when it was accepted: when another kind replaces
    it, what the session receives is dropped. *)
Example replaced_function_unused :
  let s := run true everyone noReaction 0
    [listening; clientsArrive; Call (CallSetCallback DataFn true); SessionReady 1 2 true false false] (initial openHost reporting) in
  dataReceivedCallback_ (userCallbacks s) = true ∧ inbox (socket_ (objects s 1)) = [] ∧
  log s = [OnConnected 1 (mkAddress (str "10.0.0.1") 4000); OnConnected 2 (mkAddress (str "10.0.0.1") 4000)].
Proof. by vm_compute. Qed.

(** An event that is readable and closed: a function that closes the session when it gets the data sees the
    disconnection, and then the same event is reported as an error of the session. *)
Definition closeOnData (e : Event) : list UserCall := match e with OnData id _ => [CallDisconnect id] | _ => [] end.
Example error_after_disconnect :
  let s := run true everyone closeOnData 1 [listening; ListenReady 1 true false; SessionReady 1 1 true false true] (initial openHost reporting) in
  log s = [OnConnected 1 (mkAddress (str "10.0.0.1") 4000); OnData 1 (str "ping"); OnDisconnected 1 (str "Connection closed");
           OnError (SocketError, str "Connection closed by peer")].
Proof. by vm_compute. Qed.

(** A server restarted by the function that is told of a disconnection, while [stop] is closing the
    sessions: the end of [stop] takes the TLS of the new start away, and its clients are served in clear. *)
Definition restart (e : Event) : list UserCall :=
  match e with OnDisconnected _ _ => [CallStart 443 (str "0.0.0.0") tlsConfig] | _ => [] end.
Definition shakingHost : Pipe := mkPipe [] [] [] [[]] [SslDone None] true false.
Example restarted_without_tls :
  let s := run true everyone restart 1 [Call (CallStart 443 (str "0.0.0.0") tlsConfig); clientsArrive; Call CallStop] (initial shakingHost reporting) in
  serverRunning_ s = true ∧ enableSSL (sslConfig_ s) = true ∧ sslEnabled_ s = false.
Proof. by vm_compute. Qed.

(** A TLS write that must read first is not tried again when something was read. *)
Example server_write_stalls :
  let host := mkPipe [] [] [] [str "key update"] [SslDone None] true true in
  let s := run true everyone noReaction 0
    [Call (CallStart 443 (str "0.0.0.0") tlsConfig); clientsArrive; Call (CallSend HeldString 1 (str "hi")); SessionReady 1 2 true false false;
     SessionReady 1 2 true false false] (initial host reporting) in
  let c := objects s 1 in
  tlsMustRead (socket_ c) = false ∧ unsent (writer c) = str "hi" ∧ writeInterestEnabled_ (writer c) = false ∧
  log s = [OnConnected 1 (mkAddress (str "10.0.0.1") 4000); OnData 1 (str "key update")].
Proof. by vm_compute. Qed.

(** Between the registration with the poller and the announcement, which hold no lock, an event delivers
    data of a connection that has not been announced. *)
Example server_data_before_announcement :
  let s := run true everyone noReaction 0 [listening; clientsArrive] (initial openHost reporting) in
  let registered := setLog [] (onSession 1 (setReady false) s) in
  log (markReady emit 1 (handleRead true emit 1 1 registered)) = [OnData 1 (str "ping"); OnConnected 1 (mkAddress (str "10.0.0.1") 4000)].
Proof. by vm_compute. Qed.
