(* ===== verification/ServerStack.v ===== *)
(** * The HTTP server on the TCP server

    [HttpServer] over the instance of its transport that [TcpServerStream] provides: what a client
    that sends requests finds on its connection.  [store] gives the contents of the files the
    system opens. *)

From S2P Require Import Prelude Address ClientTransport Transport SessionTypes PipeSocket ClientSession SessionStream TcpServerImpl TcpServerStream HttpParser HttpCommon HttpServer.

Section Stack.
Context {Sock : Type} {sock : Socket Sock} {system : ServerSystem Sock} {laws : SocketLaws Sock} {syslaws : ServerSystemLaws Sock}.
Context (ssl : bool) (order : list ConnectionId -> list ConnectionId) {fs : FileSystem} (cfg : Config) (fmt : Z -> list byte) (id : ConnectionId).
Context (store : list byte -> option (list byte)).
Abbreviation Net := (TcpServerImpl.Server (Sock := Sock)).
Abbreviation Host := (@HttpServer Net Address).
#[local] Instance transport : TcpServer Net := server_tcp ssl order.

(** A range of a file of the store. *)
Definition inStore (path : list byte) (offset len : Z) : Prop :=
  ∃ content, store path = Some content ∧ 0 <= offset ∧ 0 <= len ∧ offset + len <= zlen content ∧ zlen content < 2 ^ 64.

(** What a response puts on the wire. *)
Definition bytesOf (r : HttpResponse) : list byte :=
  if hasFileBody r
  then buildResponse (statusCode r) (statusMessage r) (headers r) [] ++ rangeOf (default [] (store (filePath r))) (fileOffset r) (fileLength r)
  else buildResponse (statusCode r) (statusMessage r) (headers r) (body r).

(** The responses to requests that are answered one after the other. *)
Fixpoint responses (address : Address) (s : Host) (rts : list (Written * Z)) : list (list byte) :=
  match rts with
  | [] => []
  | rt :: rts => bytesOf (responseOf cfg fmt s (request (parsedOf address rt.1)) true rt.2) :: responses address (answer cfg fmt id address s rt) rts
  end.

Context (takes : Sock -> Prop) (willing : taking takes) (willingFiles : takingFiles takes).
Context (opening : ∀ path content, store path = Some content -> opens takes path content).

#[local] Instance serving_live : Live id (serving ssl takes id) inStore.
Proof.
  split.
  - intros net data H. destruct (serving_send ssl order takes id data net willing willingFiles H) as (net' & E & H' & _). by exists net'.
  - intros net head path offset len H (content & Hc & H0 & H1 & H2 & H3).
    destruct (serving_file ssl order takes id head path content offset len net willing willingFiles H (opening _ _ Hc) H0 H1 H2 H3) as (net' & E & H' & _). by exists net'.
Qed.

Abbreviation sent s := (written_ (objects (tcpServer_ s) id)).
Abbreviation servesHost := (serves cfg fmt (live := serving ssl takes id) (sendable := inStore)).

Lemma answer_sent address (s : Host) rt : servesHost s ->
  sent (answer cfg fmt id address s rt) = sent s ++ bytesOf (responseOf cfg fmt s (request (parsedOf address rt.1)) true rt.2).
Proof.
  intros [Hl Hf]. unfold answer, respond. cbn [parsedOf immediateResponse keepAlive request].
  pose proof (Hf s (request (parsedOf address rt.1)) true rt.2 ltac:(done)) as Hfile. unfold responseOf in *. cbn [parsedOf request] in *.
  destruct (dispatchRequest cfg s _) as [r cache]. cbn [fst] in *. set (r' := finalizeResponse fmt _ _ _ r) in *. unfold sendResponse, bytesOf.
  cbn [tcpServer_ setCache]. destruct (hasFileBody r') eqn:Eb.
  - destruct (Hfile eq_refl) as (content & Hc & H0 & H1 & H2 & H3). rewrite Hc.
    destruct (serving_file ssl order takes id (buildResponse (statusCode r') (statusMessage r') (headers r') []) (filePath r') content (fileOffset r') (fileLength r')
      (tcpServer_ s) willing willingFiles Hl (opening _ _ Hc) H0 H1 H2 H3) as (net' & E & _ & W). unfold transport. rewrite E. exact W.
  - destruct (serving_send ssl order takes id (buildResponse (statusCode r') (statusMessage r') (headers r') (body r')) (tcpServer_ s) willing willingFiles Hl)
      as (net' & E & _ & W). unfold transport. rewrite E. exact W.
Qed.

Lemma answers_sent address rts : ∀ (s : Host), servesHost s ->
  sent (answers cfg fmt id address s rts) = sent s ++ concat (responses address s rts) ∧ servesHost (answers cfg fmt id address s rts).
Proof.
  induction rts as [|rt rts IH]; intros s Hs; [by rewrite app_nil_r|]. cbn [answers fold_left responses concat].
  destruct (answer_live cfg fmt id address s (clients_ s) rt Hs) as [_ Hs1]. destruct (IH _ Hs1) as [E Hs2]. split; [|exact Hs2].
  fold (answers cfg fmt id address (answer cfg fmt id address s rt) rts). by rewrite E, answer_sent, app_assoc.
Qed.
End Stack.

(** C14. The HTTP server on the TCP server: requests written by [buildRequest] and sent over one
    connection, cut into segments in any way, are answered on that connection with the bytes of
    their responses - heads, bodies and the ranges of files they name - one behind the other,
    in the order of the requests, with nothing between, before or after them; the connection
    stays up with nothing left to write.  The system must take what it is given and open the
    files the handlers answer with. *)
Theorem http_over_tcp {Sock} {sock : Socket Sock} {system : ServerSystem Sock} {laws : SocketLaws Sock} {syslaws : ServerSystemLaws Sock}
    ssl order {fs : FileSystem} cfg fmt id store (takes : Sock -> Prop)
    (s : @HttpServer (TcpServerImpl.Server (Sock := Sock)) Address) c reqs segments rounds :
  taking takes -> takingFiles takes -> (∀ path content, store path = Some content -> opens takes path content) ->
  serving ssl takes id (tcpServer_ s) -> filesSendable cfg fmt (inStore store) s ->
  clients_ s !! id = Some c -> processing c = false -> makeBufferedView c = [] ->
  Forall servable reqs -> concat segments.*1 = concat (wire <$> reqs) ->
  (∀ r seg, r ∈ reqs -> seg ∈ segments -> zlen (wire r) + zlen seg.1 <= maxRequestSize_ cfg) ->
  0 <= maxRequestSize_ cfg -> (length (concat (wire <$> reqs)) < rounds)%nat ->
  ∃ times s', length times = length reqs ∧ Forall (.∈ segments.*2) times ∧
    receiveAll (tcp := server_tcp ssl order) cfg fmt id rounds s segments = Done s' ∧
    written_ (objects (tcpServer_ s') id) =
      written_ (objects (tcpServer_ s) id) ++ concat (responses ssl order cfg fmt id store (clientAddress c) s (zip reqs times)) ∧
    ready_ (objects (tcpServer_ s') id) = true ∧ accepted_ (objects (tcpServer_ s') id) = written_ (objects (tcpServer_ s') id).
Proof.
  intros Hw Hf Hst Hsv Hfiles Hc Hp Hv Hreqs Hseg Hsize H0 Hr. pose proof (serving_live ssl order id store takes Hw Hf Hst) as HL.
  assert (Hleft : leftover (makeBufferedView c) reqs).
  { rewrite Hv. destruct reqs as [|r reqs]; [done|]. apply Forall_cons in Hreqs as [Hr1 _]. cbn. destruct (wire_layout r Hr1) as (head & -> & H4 & _).
    rewrite zlen_app. pose proof (zlen_nonneg (w_body r)). rewrite zlen_nil. unfold zlen in *. lia. }
  assert (Hall : makeBufferedView c ++ concat segments.*1 = concat (wire <$> reqs)) by by rewrite Hv.
  destruct (segments_arrived (tcp := server_tcp ssl order) (live := serving ssl takes id) (sendable := inStore store) cfg fmt id rounds segments s c reqs
    (conj Hsv Hfiles) Hc Hp Hreqs Hall Hleft Hsize H0 Hr) as (times & c' & H1 & H2 & H3 & _).
  destruct (answers_sent ssl order cfg fmt id store takes Hw Hf Hst (clientAddress c) (zip reqs times) s (conj Hsv Hfiles)) as [E [Hs' _]].
  eexists times, _. split_and!; [done | done | exact H3 | exact E | exact (sv_ready _ _ _ _ Hs') | symmetry; exact (sv_written _ _ _ _ Hs')].
Qed.

(** ** A concrete run *)

(** A TCP server with one client, and an HTTP server with a text and a part of a file. *)
Definition tcpHost : TcpServerImpl.Server := run true everyone noReaction 0 [listening; ListenReady 1 true false] (initial openHost reporting).

#[local] Instance emptyDisk : FileSystem := {
  Path := list byte;
  pathOf p := p;
  appendPath p q := p ++ q;
  weaklyCanonical p := Some p;
  components p := [p];
  pathString p := p;
  pathExtension _ := [];
  isRegularFile _ := false;
  lastWriteTime _ := None;
  fileSizeOf _ := None;
  readBytes _ _ _ := None;
  formatFileTime _ := []
}.

Definition helloHandler (req : @HttpRequest Address) (r : HttpResponse) : HttpResponse := setBody r (str "hello").
Definition pageHandler (req : @HttpRequest Address) (r : HttpResponse) : HttpResponse :=
  mkHttpResponse 206 (str "Partial Content") (headers r) [] true pipeFile 2 5.

#[local] Instance hostTransport : TcpServer (TcpServerImpl.Server (Sock := Pipe)) := server_tcp true everyone.

Definition webHost : @HttpServer (TcpServerImpl.Server (Sock := Pipe)) Address :=
  handleClientConnected
    (registerHandler (registerHandler (mkServer tcpHost ∅ ∅ [] None ∅ []) (str "/hi") GET helloHandler) (str "/up") POST pageHandler)
    1 (mkAddress (str "10.0.0.1") 4000).
Definition webClient : @ClientState Address := mkClient [] 0 (mkAddress (str "10.0.0.1") 4000) false None.
Definition onePage (path : list byte) : option (list byte) := if path =s pipeFile then Some pipeContent else None.

Lemma tcpHost_serves : serving true roomy 1 tcpHost.
Proof.
  split; [|by left | by vm_compute ..].
  refine (srv_run_inv true everyone everyone_listed False 0 noReaction 0 [listening; ListenReady 1 true false] ∅ ∅ ∅ _ _ (initial openHost reporting) _); [done.. |].
  by apply srv_initial_inv.
Qed.

Lemma onePage_opens path content : onePage path = Some content -> opens roomy path content.
Proof. unfold onePage. case_bool_decide as E; [|done]. intros [= <-]. subst path. split; [done|]. intros k Hk. exists k. by split. Qed.

(** What a response says of its file. *)
Definition fileOf (r : HttpResponse) : bool * list byte * Z * Z := (hasFileBody r, filePath r, fileOffset r, fileLength r).

Lemma setMissing_file r n v : fileOf (setMissing r n v) = fileOf r.
Proof. unfold setMissing. by case_match. Qed.

(** The file of a response survives [finalizeResponse], unless the request was a HEAD. *)
Lemma finalize_file fmt m alive now r : let r' := finalizeResponse fmt m alive now r in hasFileBody r' = true -> fileOf r' = fileOf r.
Proof.
  unfold finalizeResponse. cbv zeta. case_bool_decide; [done|]. intros _.
  repeat (case_match || rewrite setMissing_file); done.
Qed.

Lemma webHost_files : filesSendable sampleConfig (fun _ => str "now") (inStore onePage) webHost.
Proof.
  intros s' req alive now (E1 & E2 & E3) r Hr. pose proof (finalize_file _ _ _ _ _ Hr) as E. fold (responseOf sampleConfig (fun _ => str "now") s' req alive now) in E.
  injection E as Eb P1 P2 P3. subst r. rewrite P1, P2, P3. rewrite Hr in Eb. clear Hr P1 P2 P3. symmetry in Eb. revert Eb.
  unfold dispatchRequest. rewrite E1, E2, E3. cbn [webHost handleClientConnected setClient setClients staticFileHandlers_ defaultHandler_ handlers_ registerHandler].
  destruct (_ !! _) as [h|] eqn:Eh; [|cbn; done].
  assert (Hh : h = pageHandler ∨ h = helloHandler).
  { apply lookup_insert_Some in Eh as [[_ <-]|[_ Eh]]; [by left|]. apply lookup_insert_Some in Eh as [[_ <-]|[_ Eh]]; [by right | done]. }
  destruct Hh as [-> | ->]; cbn; [|done]. intros _. exists pipeContent. by vm_compute.
Qed.

Lemma http_over_tcp_witness :
  ∃ times s', length times = length [sampleRequest; otherRequest] ∧ Forall (.∈ sampleSegments.*2) times ∧
    receiveAll (tcp := server_tcp true everyone) sampleConfig (fun _ => str "now") 1 200 webHost sampleSegments = Done s' ∧
    written_ (objects (tcpServer_ s') 1) = written_ (objects (tcpServer_ webHost) 1) ++
      concat (responses true everyone sampleConfig (fun _ => str "now") 1 onePage (clientAddress webClient) webHost (zip [sampleRequest; otherRequest] times)) ∧
    ready_ (objects (tcpServer_ s') 1) = true ∧ accepted_ (objects (tcpServer_ s') 1) = written_ (objects (tcpServer_ s') 1).
Proof.
  refine (http_over_tcp true everyone sampleConfig (fun _ => str "now") 1 onePage roomy webHost webClient [sampleRequest; otherRequest] sampleSegments 200
    roomy_takes roomy_files onePage_opens tcpHost_serves webHost_files _ _ _ _ _ _ _ _).
  - reflexivity.
  - reflexivity.
  - reflexivity.
  - apply Forall_cons_2; [apply sampleRequest_servable|]. apply Forall_cons_2; [apply otherRequest_servable | apply Forall_nil_2].
  - by vm_compute.
  - intros r seg Hr Hseg. unfold sampleSegments in Hseg. rewrite !elem_of_cons, elem_of_nil in Hr. rewrite !elem_of_cons, elem_of_nil in Hseg.
    destruct Hr as [->|[->|[]]]; destruct Hseg as [->|[->|[->|[]]]]; by vm_compute.
  - by vm_compute.
  - apply Nat.ltb_lt. by vm_compute.
Defined.

(** The end of what was written: the file's range. *)
Example web_run :
  match receiveAll (tcp := server_tcp true everyone) sampleConfig (fun _ => str "now") 1 200 webHost sampleSegments with
  | Done s => drop (length (clear (socket_ (objects (tcpServer_ s) 1))) - 9) (clear (socket_ (objects (tcpServer_ s) 1)))
  | _ => []
  end = [x0d; x0a; x0d; x0a] ++ str "23456".
Proof. by vm_compute. Qed.
